(* ===== verification/_CoqProject ===== *)
-Q . S2P
Prelude.v
GoBase.v
GoText.v
GoWords.v
FlowTypes.v
FlowHeader.v
FlowSFlow.v
FlowState.v
FlowDecode.v
Indicators.v
FlowListener.v
Mdns.v
Jobs.v
Outbox.v
Escalation.v
AlertWindows.v
Anomaly.v
AnomalySync.v
Dot11Frame.v
Dot11.v
Dot11View.v
Microburst.v
Registry.v
Bus.v
Tftp.v
Scheduler.v
Voip.v
IfRate.v
Retry.v
Syslog.v
Pmtud.v
SweepPlan.v
Paths.v
L2Path.v
AlertPipe.v
AlertListener.v
AlertObserve.v
IosConfig.v
Effects.v
ConfigStore.v
ConfigBackup.v
ConfigPush.v
CliShell.v
Dialogue.v
Netconf.v
CliPush.v
ImageStage.v
Dhcp.v
DhcpRogue.v
DhcpLease.v
