(* ===== verification/Prelude.v ===== *)
(** * Seed: the network appliance's core logic, verified

    Seed (src/README.md) is a network appliance: it listens to flow exports,
    radio frames, voice calls, log messages and service announcements, polls
    interface counters, keeps a registry of the devices it sees, turns what
    it observes into a stream of anomalies and alerts, delivers those, and
    serves files to the devices. Most of its code talks to sockets, a
    database, a browser or third-party libraries. This development models the
    parts that decide something: decoders of untrusted bytes, the measurements
    made of them, and the state machines between observation and delivery.

    ** How the parts interact

    A datagram on a flow socket goes to [Decode] (FlowDecode), which reads it
    with the caches of its [Decoder] (FlowState) or, for sFlow, with the XDR
    reader (FlowSFlow) and the packet parser (FlowHeader); the records
    (FlowTypes) go through the listener's bounded queue to storage
    (FlowListener), and are checked against a threat list (Indicators). Captured 802.11 frames go to [Decode] of Dot11,
    captured Ethernet frames to the microburst detector (Microburst) and, those
    of RTP streams, to the call scorer (Voip); log datagrams to the syslog
    parser (Syslog). Polled counters become rates (IfRate). mDNS
    answers (Mdns) and other discoveries end as sightings in the device
    registry (Registry). Producers of detections hand them to the
    anomaly coordinator (AnomalySync), which keeps the live stream (Anomaly)
    and mirrors it into the store. Alerts pass the hit window, the
    suppression marks and the causal decorator (AlertWindows) on their way to
    the store, and are re-sent from there by the escalation ladders
    (Escalation). They are raised by rules over the stored events
    (AlertListener) and by what each poll of a target tells against the one
    before (AlertObserve), written once per entity and window (AlertPipe).
    Networks wider than a sweep are swept in turns (SweepPlan); a path's MTU is
    searched for (Pmtud), its traces are accumulated and compared (Paths), and
    the switches along it are walked (L2Path). The configurations of network
    devices are backed up and compared (ConfigBackup), and changes to them are
    planned, applied under the device's own revert timer and proved before
    they are confirmed (ConfigPush, IosConfig); on the device that is a dialogue
    (CliPush) over an interactive shell (CliShell) or NETCONF (Netconf), behind
    a login that checks the host key (Dialogue); operating system images are
    copied, checked and set to boot the same way (ImageStage). DHCP exchanges
    are timed (Dhcp), their servers watched for strangers (DhcpRogue), and the
    host's own leases read (DhcpLease). Messages to other systems wait in an outbox (Outbox), those
    inside the process go over the event bus (Bus), long work runs as
    background jobs (Jobs), periodic work when the scheduler finds it due
    (Scheduler), and network operations are retried with backoff (Retry). The
    TFTP service (Tftp) lends its directories to devices for a session.

    ** Files and the code they model (paths below src/internal/)

    - Prelude: fallible computations, bounded loops, wrap-around, automation.
    - GoBase: slices and their bounds, big- and little-endian reads, 64-bit
      arithmetic, [netip.Addr], [time.Time] and [time.Duration], the order of
      a map range, ASCII case mapping, IEEE doubles (from SpecFloat).
      GoText: the functions of [strings] and [strconv] on bytes, and the text
      of a time. GoWords: what joining the fields of a line reads back as.
      Effects: programs over the calls they make, the contracts
      they obey and what holds of any number of them side by side.
    - FlowTypes: listener/flow/record.go and the result type of decode.go.
    - FlowHeader: listener/flow/header.go. FlowSFlow: listener/flow/sflow.go.
    - FlowState: the caches of listener/flow/decode.go and sampling.go
      ([learn], [withdraw], [lookup], [recordRate]; a [Decoder] is a record of
      three maps). FlowDecode: the rest of decode.go, up to [Decode].
      FlowListener: listener.go, its reader, queue and writer as steps.
      Indicators: indicators/indicators.go and listener/flow/indicators.go.
    - Mdns: discovery/mdnswire/mdnswire.go.
    - Dot11Frame, Dot11: wifi/dot11/frame.go, ie.go and decode.go. Dot11View:
      what an element list shows, field by field, from the elements' own bytes.
    - Microburst: listener/microburst/detector.go.
    - Registry: discovery/registry.go, registrymerge.go, mac.go. Devices are
      heap objects the four indexes point to; writing one through a pointer
      shows in every index.
    - Anomaly: anomaly/catalog.go, engine.go and anomaly.go. AnomalySync:
      coordinator.go, store.go and the store of
      database/repository_anomalies.go, one step per critical section or
      database call.
    - AlertWindows: alerts/pipeline/window_counter.go, suppression.go and
      alerts/correlation/correlation.go.
    - AlertPipe: what alerts/pipeline shares, with the suppression stores of
      suppression.go and database/repository_alert_suppressions.go and the
      query of database/list_query.go. AlertListener: pipeline/listener_*.go.
      AlertObserve: pipeline/observation_*.go.
    - Escalation: alerts/escalation/escalation.go with the alert states of
      alerts/types.go.
    - Outbox: platform/outbox/outbox.go. Jobs: platform/jobs/jobs.go, its
      runner as functions on its state and its goroutines as a step relation,
      one step per critical section, publication or handler event.
    - Bus: platform/events/events.go, every critical section of the bus and of
      a subscription a step.
    - Scheduler: scheduler/scheduler.go, the tick loop and the runs as steps.
    - Tftp: tftp/tftp.go. The handlers of requests as a step relation, one
      step per atomic operation, system call or block; [watchIdle] as a
      function of what it observes; the manager's critical sections as a
      second relation.
    - Voip: listener/voip/stream.go, emodel.go and listener.go, from the
      layers of a frame to the reports offered to the store.
    - IfRate: timeseries/ifrate/ifrate.go and
      protocols/snmp/counter_delta.go.
    - Syslog: the parser of listener/syslog/syslog.go. Retry:
      discovery/retry.go.
    - Pmtud: discovery/pmtud.go and the replies of pmtud_probe.go. SweepPlan:
      discovery/enumerate/sweepplan.go with the scanner settings of arp.go and
      arpscan.go. Paths: discovery/pathmonitor.go, multipath.go, hoproute.go.
      L2Path: discovery/l2path.go.
    - IosConfig: deviceconfig/ios.go, the difference of push.go and the
      candidate checks of cli_push.go. ConfigStore: the data and calls of
      deviceconfig, and database/repository_device_config*.go, one statement a
      step. ConfigBackup: deviceconfig.go. ConfigPush: push.go, apply.go and
      stage.go. Methods that reach outside are programs: a call is a
      constructor of [call], and what it may answer is [resp].
    - ImageStage: deviceconfig/image_ssh.go and scp.go. Dhcp, DhcpRogue,
      DhcpLease: dhcp/dhcp.go, rogue.go and lease.go; the captures of the first
      two as step relations, one step per critical section.
    - CliShell: the shell of deviceconfig/cli_push.go and the readers of what
      a device prints. Dialogue: the logins and one-shot commands of ssh.go,
      and the calls ([dcall]) a dialogue makes. Netconf: netconf.go and
      netconf_push.go, both framings. CliPush: the dialogues of cli_push.go
      and the fetcher of ssh.go, with the contract ConfigPush expects of it.

    Definitions keep the names of the code; a method is a function of its
    receiver. Operations that change state return the new state. Code that
    can panic returns an [option], see [wp] below; an [error] is a value.
    The stores and senders the code reaches through an interface are
    arguments of the model (a record of operations, or a class), constrained
    only where a theorem says so; each such theorem has a witness with a
    concrete store. Third-party data (the layers of a captured frame) is an
    inductive type of what the code reads of it.

    ** What the theorems show

    - Untrusted bytes: decoding a flow datagram, an sFlow datagram, an mDNS
      message, an 802.11 frame or element list always returns, whatever the
      bytes and the state, with results in range and in number bounded by the
      input ([decode_all_total], [Decode_records], [decodeSFlow_returns],
      [Parse_total], [DecodeIEs_shows], [Decode_frame]); so does parsing a log
      datagram or an RTP header ([Parse_never_fails], [parse_pri_spec],
      [decode_total]).
    - Functional behaviour of decoding: v5 records at their offsets, template
      learning and withdrawal, VLAN tags, RSN suites, names and queries read
      back as written ([decodeV5_spec], [learn_spec], [withdraw_spec],
      [parseEthernet_tagged], [applyRSN_encode], [Query_roundtrip],
      [ParseName_string], [splitIEs_spec], [Parse_print]), and evidence that is joined
      whatever its order ([buildBSS_order], [buildBSS_no_downgrade]).
    - Measurement: the microburst detector reports exactly the maximal
      saturated runs of what was on the wire ([detector_exact]), and stays
      sound under flushes ([flush_sound]). RTP streams are recognised by
      exactly ten packets in a row ([probation_exact]), their extended
      sequence numbers are exact through wraps, loss and reordering
      ([updateSeq_exact], [updateSeq_restart]) and no packet is scored in two
      windows ([windows_disjoint]); the jitter estimate is shown to be wrong
      for a packet older than the first ([jitter_before_first]). Counter
      deltas are exact across wraps ([counterDeltas_exact]), and a rate is
      only ever of a continuous interval within the line rate, against the
      target's last snapshot ([rates_sound], [Observe_history],
      [Points_spec]).
    - State: the registry's indexes and counts agree with its devices after
      any calls, and its operations refine a map from address to device
      ([registry_invariant], [AddOrUpdate_spec], [ExpireStale_spec]); the
      anomaly store mirrors an instance of the live stream, write faults apart,
      while the calls for that instance do not overlap, and is shown not to when
      they do ([coordinator_sync], [flush_resurrects]); the lazily
      forgetting windows answer as complete histories would ([Hit_spec],
      [Create_spec]).
    - Alerting: whatever the scans, reloads and restarts, alerts of one rule and
      entity are a window apart ([alerts_spaced], [observations_spaced]), on
      any store that keeps the promises of [SuppressionLaws]; no stored event
      is lost while the scans before its mark come in time - by the text of
      its time stamp, which is what the store orders by - and batches are not
      full, and none below the mark is ever read again ([scans_complete],
      [mark_final]); reloads keep what is in force
      when they fail and never widen a group ([ReloadRules_spec]). What a poll
      raises is what its history owes ([entity_history], [routing_exact]), and
      reading it again raises nothing ([reevaluate_silent], [ScanOnce_spec]).
    - Discovery: the MTU search is exact on an honest path and never claims more
      than it saw on any ([DiscoverPathMTU_exact], [DiscoverPathMTU_sound]);
      sweeps rotate through every block that has evidence and tour the rest
      ([planSweep_spec], [rotation_fair], [probe_tour]); path statistics are
      those of the rounds observed ([Snapshot_spec]), routes part where their
      answers differ ([divergencePoint_spec], [DiscoverPaths_spec]), a hop's
      route is the longest match ([longestMatch_spec]); the layer 2 walk ends,
      and never leaves its first switch ([BuildPath_spec]).
    - Flows: every record decoded is stored, dropped with the drop counted, or
      in a batch whose failure is counted ([flow_accounting]); no sequence of
      datagrams, starts and stops crashes the listener ([flow_never_crashes]);
      a stop can always return, by its loops ending and not by its deadline,
      and then all that was queued has been offered to the store ([stop_ends],
      [stop_drains]). A threat list answers
      with the longest entry that contains an address ([Match_spec]), and a
      hit's counts are those of its flows ([checkIndicators_spec]).
    - Device configurations: sections read back as written ([parse_render]); a
      predicted change is what the candidate's own lines would leave, section by
      section, against what is there ([predict_exact]), and is empty once the candidate is in, for
      candidates that do not undo themselves ([predict_settled]); an accepted
      candidate types no keystroke and leaves no mode by a word it knows
      ([typed_harmless]). A backup stores and raises only changes and never
      trusts a key by itself ([backupOne_contract], [SaveTarget_contract],
      [pinned_by_confirmation]). Whatever is answered, a push job logs in only
      to the target it holds, commits only what was shown to a device that is
      unchanged, confirms only what it checked and records the outcome, or
      answers that it could not ([jobs_obey]); beside any other jobs, each has its target for itself and
      no plan is committed by two ([jobs_exclusive]).
    - Device dialogues: a shell reads a command's output exactly, however it
      is cut into reads ([run_exact], [run_arrives]); a one-shot command's
      output is whole ([runCommand_whole]); a NETCONF message is received as
      it was framed and a candidate cannot add a second one
      ([receive_framed], [edit_is_one_message]); indenting keeps the tree
      ([indentXML_tree]). Whatever the device answers, a commit sends nothing
      that changes it before the revert timer runs, a confirmation and a
      rollback send only what they are for, and a dry run changes nothing and
      asks the device to drop what it loaded ([Commit_contract], [Confirm_contract], [Rollback_contract],
      [DryRun_contract]); success is reported only when the device also took
      the commands that empty what was opened.
    - Image staging: a copy is deleted only when it failed or its hash is not
      the image's, and boot statements are typed, saved and claimed only as
      allowed ([Staging_contract]); they end as the new ones or as they were
      ([iosWriteBoot_restores]); the device never holds a whole file that is
      not the image ([scpSink_whole]); the free space read is that of the right
      file system ([junosFreeBytes_spec]).
    - DHCP: options are read wherever the message type stands, and whatever
      the bytes ([findDHCPMessageType_encoded], [processPacket_total]); each
      transaction is timed by its own packets ([RecordPhase_history]); the
      table of servers is bounded and its marks are those of the list
      ([recordDetectedServer_spec], [rogue_invariant]); a capture is owned and
      a stop can return ([monitor_safe]); a lease is never another
      interface's ([parseDHClientLeaseFile_spec]) and no file makes its reader
      fail ([GetLeaseInfo_total]).
    - Delivery: the outbox loses nothing and delivers in order
      ([Drain_spec], [Run_delivers], [Dedupe_exactly_once]); a ladder sends
      one owed step once ([Tick_spec], [Tick_no_resend], [Due_spec]).
    - Concurrency: in every interleaving jobs stay within the cap, publish
      their states in order, keep a terminal state, can always finish and are
      drained by a shutdown (the [jobs_] theorems, [Close_drains]); the event
      bus delivers in order, loses nothing that was queued, and its shutdown
      ends ([bus_order], [bus_no_loss], [bus_close_returns]); no job of the
      scheduler overlaps itself, a tick starts exactly what is due, and after
      [Stop] nothing runs ([no_self_overlap], [dispatch_spec],
      [stop_terminates], [stop_final]); a TFTP session stays within its
      limits and quota, never replaces a file, serves only whom it may,
      accounts for every byte, and drains when stopped ([tftp_bounded],
      [tftp_published_kept], [tftp_authorised], [tftp_settled],
      [tftp_stop_drains]), its lifetime is bounded ([watchIdle_lifetime]) and
      its manager tears each session down once ([manager_once]); the call
      scorer's table and queue are bounded and its reports reach the store
      ([listener_bounded], [sweep_spec], [reports_delivered]).
    - Retries: the loop returns the first outcome that ends it, within its
      attempts ([RetryWithBackoffResult_spec]), and decides by a search that
      is exact ([containsIgnoreCase_spec]).
    - Findings: the Examples that show where the code does not do what it
      says are next to the definitions they evaluate.

    ** Bounds and fuel

    Loops that are not structural run on fuel and the theorems prove the fuel
    enough: a message or list loop has one unit more than its bytes, since
    each round consumes at least one; [readName] has [readName_fuel] = 300,
    since a round follows one of at most 16 pointers or adds a label to a name
    of at most 255 bytes; the retry loop has one unit more than its attempts;
    white space is trimmed with the length of the text, one unit a rune;
    [badd_fuel] is the number of bins a frame can touch; [narrow_fuel] is 16,
    since the MTU range of at most 8424 sizes halves each round; the layer 2
    walk takes the code's 20 rounds; a shell's read loop has the reads that
    come and two more, a framing loop one unit more than its bytes. Integers keep their
    width: fields are reduced by [wrap] where the code converts, and products
    of counters go through [mul64]. [int] is 64 bits. Times are nanoseconds
    in Z; a duration saturates as in the code.

    ** Not modelled, and what comes next

    Left out for good: sockets and capture, SQL, HTTP, rendering, wiring,
    generated code and third-party packages. Locks are left out where an
    operation holds its mutex from start to end, calls being then sequential.
    Case mapping is that of ASCII. Binary64 operations round one by one, as on
    amd64; a theorem about them states what their comparisons guarantee, not
    error bounds. Jitter, delays and rates are therefore exact as functions
    and their numerical accuracy is not a theorem. A call of [Effects] is one
    step: what happens around a call while it runs is in its answer. Next, in
    this order: the LLDP, CDP and EDP decoders of
    discovery/enumerate and the Bonjour decoder; version comparison and
    matching of discovery/vuln; roll-ups and
    SLA windows of the time series; licence policy and the lifecycle feed. *)
From Stdlib Require Import ZArith Lia.
From stdpp Require Import base gmap sets list strings sorting.

#[global] Open Scope Z_scope.

(** ** Computations that may fail to return

    A Go function is modelled as [option A]: [Some a] is a normal return
    with value [a]; [None] is a computation with no return value, either a
    run-time panic (index or slice bounds out of range, a slice too short
    for an array conversion, division by zero) or a loop that used up its
    fuel. A Go [error] is an ordinary return value. Proving that a model
    returns [Some] therefore proves absence of panics and termination. *)

Definition wp {A} (m : option A) (Q : A → Prop) : Prop :=
  match m with
  | Some a => Q a
  | None => False
  end.

(** One iteration of a Go [for] loop: go on with a new loop state, or leave
    the loop with a result. *)
Inductive outcome (S R : Type) : Type :=
| Next (s : S)
| Leave (r : R).
Arguments Next {S R} s.
Arguments Leave {S R} r.

Fixpoint for_loop {S R} (fuel : nat) (body : S → option (outcome S R)) (s : S) : option R :=
  match fuel with
  | O => None
  | Datatypes.S fuel' =>
      o ← body s;
      match o with
      | Next s' => for_loop fuel' body s'
      | Leave r => Some r
      end
  end.

(** A Go function with an error result: [inl] the value when the error is
    nil, [inr] the error otherwise; [ebind] is [if err != nil { return err }]. *)
Definition ebind {A B E} (m : option (A + E)) (k : A → option (B + E)) : option (B + E) :=
  match m with
  | Some (inl a) => k a
  | Some (inr e) => Some (inr e)
  | None => None
  end.

Declare Scope go_scope.
Notation "x ←! m ; k" := (ebind m (λ x, k))
  (at level 20, m at level 100, k at level 200, right associativity) : go_scope.
Notation "' x ←! m ; k" := (ebind m (λ x, k))
  (at level 20, x pattern, m at level 100, k at level 200, right associativity) : go_scope.
#[global] Open Scope go_scope.

(** Wrap-around of a [w]-bit unsigned integer. *)
Definition wrap (w x : Z) : Z := x mod 2 ^ w.

(** Conversion to a [w]-bit two's-complement integer. *)
Definition sign_wrap (w x : Z) : Z :=
  let y := x mod 2 ^ w in if y <? 2 ^ (w - 1) then y else y - 2 ^ w.

(** A boolean test of [b & mask != 0]. *)
Definition has_bits (x mask : Z) : bool := negb (Z.land x mask =? 0).

Create HintDb seed.

(** ** Total-correctness rules *)
Section wp.
Context {A B : Type}.
Implicit Types (m : option A) (k : A → option B).

Lemma wp_some (a : A) (Q : A → Prop) : Q a → wp (Some a) Q.
Proof. done. Qed.

Lemma wp_elim m (Q : A → Prop) : wp m Q → ∃ a, m = Some a ∧ Q a.
Proof. destruct m; simpl; eauto; done. Qed.

Lemma wp_intro m a (Q : A → Prop) : m = Some a → Q a → wp m Q.
Proof. by intros ->. Qed.

Lemma wp_is_Some m (Q : A → Prop) : wp m Q → is_Some m.
Proof. intros (a & -> & _)%wp_elim. eauto. Qed.

Lemma wp_mono m (P Q : A → Prop) : wp m P → (∀ a, P a → Q a) → wp m Q.
Proof. destruct m; simpl; auto. Qed.

Lemma wp_bind m k (Q : B → Prop) : wp m (λ a, wp (k a) Q) → wp (a ← m; k a) Q.
Proof. by destruct m. Qed.

(** Binding after a specified computation. *)
Lemma wp_bind_spec m k (P : A → Prop) (Q : B → Prop) :
  wp m P → (∀ a, P a → wp (k a) Q) → wp (a ← m; k a) Q.
Proof. intros Hm Hk. by apply wp_bind, (wp_mono _ _ _ Hm). Qed.
End wp.

(** The rule of [ebind]: an error passes through. *)
Lemma wp_ebind {A B E} (m : option (A + E)) (k : A → option (B + E)) (Q : B + E → Prop) :
  wp m (λ r, match r with inl a => wp (k a) Q | inr e => Q (inr e) end) → wp (ebind m k) Q.
Proof. by destruct m as [[]|]. Qed.

Lemma wp_ebind_spec {A B E} (m : option (A + E)) (k : A → option (B + E)) P (Q : B + E → Prop) :
  wp m P → (∀ a, P (inl a) → wp (k a) Q) → (∀ e, P (inr e) → Q (inr e)) → wp (ebind m k) Q.
Proof. intros Hm Hk He. apply wp_ebind, (wp_mono _ _ _ Hm). intros []; auto. Qed.

Section for_loop.
Context {S R : Type} (body : S → option (outcome S R)).

Lemma for_loop_leave fuel s r : body s = Some (Leave r) → for_loop (Datatypes.S fuel) body s = Some r.
Proof. cbn. by intros ->. Qed.
Lemma for_loop_next fuel s s' : body s = Some (Next s') → for_loop (Datatypes.S fuel) body s = for_loop fuel body s'.
Proof. cbn. by intros ->. Qed.

(** Loop rule: an invariant and a measure that every further iteration
    decreases. Enough fuel is any fuel above the measure. *)
Lemma wp_for_loop (I : S → Prop) (measure : S → nat) (Q : R → Prop) fuel s :
  (∀ s, I s → wp (body s) (λ o,
     match o with
     | Next s' => I s' ∧ (measure s' < measure s)%nat
     | Leave r => Q r
     end)) →
  I s → (measure s < fuel)%nat → wp (for_loop fuel body s) Q.
Proof.
  intros Hbody. revert s. induction fuel as [|fuel IH]; intros s HI Hm; [lia|].
  simpl. eapply wp_bind_spec; [by apply Hbody|].
  intros [s'|r]; simpl; [|done].
  intros [HI' Hm']. apply IH; [done|lia].
Qed.

(** More fuel never changes a result. *)
Lemma for_loop_fuel_mono fuel fuel' s r :
  for_loop fuel body s = Some r → (fuel ≤ fuel')%nat → for_loop fuel' body s = Some r.
Proof.
  revert fuel' s. induction fuel as [|fuel IH]; intros fuel' s; [done|].
  destruct fuel' as [|fuel']; [lia|]. simpl.
  destruct (body s) as [[s'|r']|]; simpl; [|done|done].
  intros H Hle. apply IH; [done|lia].
Qed.
End for_loop.

(** ** Arithmetic *)

Lemma wrap_range w x : 0 ≤ w → 0 ≤ wrap w x < 2 ^ w.
Proof. intros. apply Z.mod_pos_bound. lia. Qed.

Lemma wrap_small w x : 0 ≤ x < 2 ^ w → wrap w x = x.
Proof. apply Z.mod_small. Qed.

#[export] Hint Resolve wp_some : seed.

(** Advance through a monadic definition: case analysis on the guards of
    the code, one bind at a time. *)
Ltac wp_step :=
  match goal with
  | |- wp (Some _) _ => apply wp_some
  | |- wp (mret _) _ => apply wp_some
  | |- wp (mbind _ _) _ => apply wp_bind
  | |- wp (if ?b then _ else _) _ => let E := fresh "E" in destruct b eqn:E
  | |- wp (match ?x with _ => _ end) _ => let E := fresh "E" in destruct x eqn:E
  end.

(** Boolean comparisons in the context as arithmetic facts. *)
Ltac bool_lia :=
  repeat match goal with
  | H : (_ && _)%bool = true |- _ => apply andb_true_iff in H as [? ?]
  | H : (_ && _)%bool = false |- _ => apply andb_false_iff in H as [?|?]
  | H : (_ || _)%bool = true |- _ => apply orb_true_iff in H as [?|?]
  | H : (_ || _)%bool = false |- _ => apply orb_false_iff in H as [? ?]
  | H : negb _ = true |- _ => apply negb_true_iff in H
  | H : negb _ = false |- _ => apply negb_false_iff in H
  end; lia.

(** ** Sums over a finite map *)
Section msum.
Context `{Countable K} {A : Type} (f : A → nat).
Implicit Types m : gmap K A.

Definition msum (m : gmap K A) : nat := sum_list_with f (map_to_list m).*2.

Lemma msum_insert_None m k x : m !! k = None → msum (<[k := x]> m) = (f x + msum m)%nat.
Proof. intros Hk. unfold msum. by rewrite map_to_list_insert. Qed.

Lemma msum_delete m k x : m !! k = Some x → msum m = (f x + msum (delete k m))%nat.
Proof. intros Hk. unfold msum. by rewrite <-(map_to_list_delete m k x Hk). Qed.

Lemma msum_insert_Some m k x y :
  m !! k = Some y → (msum (<[k := x]> m) + f y = msum m + f x)%nat.
Proof.
  intros Hk. rewrite (msum_delete m k y Hk), <-insert_delete_eq, msum_insert_None
    by apply lookup_delete_eq. lia.
Qed.

Lemma msum_zero m : msum m = 0%nat → ∀ k x, m !! k = Some x → f x = 0%nat.
Proof. intros Hm k x Hk. rewrite (msum_delete m k x Hk) in Hm. lia. Qed.

Lemma msum_pos m : msum m ≠ 0%nat → ∃ k x, m !! k = Some x ∧ f x ≠ 0%nat.
Proof.
  intros Hm. destruct (decide (Exists (λ kx, f kx.2 ≠ 0%nat) (map_to_list m))) as [He|Hno].
  - apply Exists_exists in He as ([k x] & Hin & Hx). exists k, x.
    split; [by apply elem_of_map_to_list|done].
  - exfalso. apply Hm. unfold msum. apply not_Exists_Forall in Hno; [|solve_decision].
    induction Hno as [|kx l Hx _ IH]; [done|].
    apply dec_stable in Hx. cbn [fmap list_fmap sum_list_with]. cbn beta in Hx. rewrite Hx. exact IH.
Qed.

Lemma msum_empty : msum ∅ = 0%nat.
Proof. unfold msum. by rewrite map_to_list_empty. Qed.

Lemma msum_bound m (c : nat) : (∀ k x, m !! k = Some x → f x ≤ c)%nat → (msum m ≤ c * size m)%nat.
Proof.
  induction m as [|k x m Hk IH] using map_ind; intros Hf; [rewrite msum_empty; lia|].
  rewrite msum_insert_None, map_size_insert_None by done. specialize (Hf k x (lookup_insert_eq _ _ _)) as Hx.
  assert (∀ k0 x0, m !! k0 = Some x0 → _) as Hm by (intros k0 x0 Hk0; apply (Hf k0); by rewrite lookup_insert_ne by congruence).
  specialize (IH Hm). lia.
Qed.
End msum.

Lemma msum_le `{Countable K} {A} (f g : A → nat) (m : gmap K A) :
  (∀ k x, m !! k = Some x → f x ≤ g x)%nat → (msum f m ≤ msum g m)%nat.
Proof.
  induction m as [|k x m Hk IH] using map_ind; intros Hf; [rewrite !msum_empty; lia|].
  rewrite !msum_insert_None by done. specialize (Hf k x (lookup_insert_eq _ _ _)) as Hx.
  assert (∀ k0 x0, m !! k0 = Some x0 → _) as Hm by (intros k0 x0 Hk0; apply (Hf k0); by rewrite lookup_insert_ne by congruence).
  specialize (IH Hm). lia.
Qed.

(** ** Filters *)
Lemma filter_iff_in {A} (P Q : A → Prop) `{!∀ x, Decision (P x), !∀ x, Decision (Q x)} (l : list A) :
  (∀ x, x ∈ l → P x ↔ Q x) → filter P l = filter Q l.
Proof.
  induction l as [|x l IH]; intros Hl; [done|]. rewrite !filter_cons, IH by (intros; apply Hl; by right).
  assert (P x ↔ Q x) as Hx by (apply Hl; left). destruct (decide (P x)), (decide (Q x)); tauto.
Qed.
