(* ===== verification/GoBase.v ===== *)
(** * The parts of Go the modelled code uses

    Byte slices with their bounds checks, big- and little-endian reads,
    machine-width arithmetic, [netip.Addr], [time.Time] and
    [time.Duration], map iteration order and ASCII case mapping. Everything
    here belongs to the language or its standard library. *)
From Stdlib Require Import ZArith Lia Ascii SpecFloat.
From stdpp Require Import base gmap sets list strings sorting countable.
From S2P Require Import Prelude.

(** ** Byte slices

    A byte is a [Z] in [0, 256); a slice is the list of the bytes between
    its start and its length. Re-slicing a Go slice past its length but
    within its capacity is legal in Go and is [None] here: the model is the
    stricter one, so a model that returns also returns in Go. *)
Abbreviation bytes := (list Z).

Definition is_byte (b : Z) : Prop := 0 ≤ b < 256.
Definition bytes_ok (b : bytes) : Prop := Forall is_byte b.

Definition len {A} (l : list A) : Z := Z.of_nat (length l).

(** [b[i]] *)
Definition index {A} (l : list A) (i : Z) : option A :=
  if 0 <=? i then l !! Z.to_nat i else None.

(** [b[i:j]] *)
Definition slice {A} (l : list A) (i j : Z) : option (list A) :=
  if (0 <=? i) && (i <=? j) && (j <=? len l)
  then Some (take (Z.to_nat (j - i)) (drop (Z.to_nat i) l)) else None.

(** [b[i:]] *)
Definition slice_from {A} (l : list A) (i : Z) : option (list A) := slice l i (len l).

(** [[n]byte(b)]: a slice-to-array conversion panics when [b] is shorter. *)
Definition to_array (n : Z) (b : bytes) : option bytes := slice b 0 n.

(** [binary.BigEndian.Uint16] and [Uint32], which panic on a short slice. *)
Definition be16 (b : bytes) : option Z :=
  match b with
  | b0 :: b1 :: _ => Some (b0 * 2 ^ 8 + b1)
  | _ => None
  end.

Definition be32 (b : bytes) : option Z :=
  match b with
  | b0 :: b1 :: b2 :: b3 :: _ => Some (b0 * 2 ^ 24 + b1 * 2 ^ 16 + b2 * 2 ^ 8 + b3)
  | _ => None
  end.

(** [binary.LittleEndian.Uint16]. *)
Definition le16 (b : bytes) : option Z :=
  match b with
  | b0 :: b1 :: _ => Some (b1 * 2 ^ 8 + b0)
  | _ => None
  end.

(** [be.Uint16(b[i:])] and the other reads at an offset. *)
Definition be16_at (b : bytes) (i : Z) : option Z := x ← slice_from b i; be16 x.
Definition be32_at (b : bytes) (i : Z) : option Z := x ← slice_from b i; be32 x.
Definition le16_at (b : bytes) (i : Z) : option Z := x ← slice_from b i; le16 x.

(** [binary.BigEndian.PutUint16] as the bytes it writes. *)
Definition put_be16 (v : Z) : bytes := [Z.shiftr v 8 mod 256; v mod 256].

(** ** Unsigned division of a 128-bit value (package [math/bits]) *)

Definition mul64 (x y : Z) : Z * Z := (x * y / 2 ^ 64, wrap 64 (x * y)).

(** [bits.Div64] panics when [y = 0] or [y <= hi]. *)
Definition div64 (hi lo y : Z) : option Z :=
  if (y =? 0) || (y <=? hi) then None else Some ((hi * 2 ^ 64 + lo) / y).

(** ** Floating point

    [float64(x)] of an integer and the binary64 product and quotient, in the
    Standard Library's executable IEEE 754 specification. *)
Definition float64 (x : Z) : spec_float := binary_normalize 53 1024 x 0 false.
Definition float64_mul : spec_float → spec_float → spec_float := SFmul 53 1024.
Definition float64_div : spec_float → spec_float → spec_float := SFdiv 53 1024.
Definition float64_add : spec_float → spec_float → spec_float := SFadd 53 1024.
Definition float64_sub : spec_float → spec_float → spec_float := SFsub 53 1024.

(** A decimal constant [n / d], [n] and [d] being exact in binary64. *)
Definition float64_const (n d : Z) : spec_float := float64_div (float64 n) (float64 d).

(** The built-in [max] and [min]: NaN when either is, and signed zeros are
    ordered. *)
Definition float64_max (x y : spec_float) : spec_float :=
  match x, y with
  | S754_nan, _ | _, S754_nan => S754_nan
  | S754_zero s, S754_zero t => S754_zero (s && t)
  | _, _ => if SFltb x y then y else x
  end.
Definition float64_min (x y : spec_float) : spec_float :=
  match x, y with
  | S754_nan, _ | _, S754_nan => S754_nan
  | S754_zero s, S754_zero t => S754_zero (s || t)
  | _, _ => if SFltb y x then y else x
  end.

(** ** IP addresses ([netip.Addr]) *)
Inductive Addr : Type :=
| AddrInvalid
| Addr4 (b : bytes)
| Addr6 (b : bytes) (zone : string).

#[export] Instance Addr_eq_dec : EqDecision Addr.
Proof. solve_decision. Defined.

#[export] Instance Addr_countable : Countable Addr.
Proof.
  refine (inj_countable'
    (λ a, match a with
          | AddrInvalid => inl ()
          | Addr4 b => inr (inl b)
          | Addr6 b z => inr (inr (b, z))
          end)
    (λ x, match x with
          | inl _ => AddrInvalid
          | inr (inl b) => Addr4 b
          | inr (inr (b, z)) => Addr6 b z
          end) _).
  by intros [].
Defined.

Definition addr_is_valid (a : Addr) : bool :=
  match a with AddrInvalid => false | _ => true end.

(** [netip.AddrFrom4([4]byte(b))] and [netip.AddrFrom16([16]byte(b))]. *)
Definition addr_from4 (b : bytes) : option Addr := a ← to_array 4 b; Some (Addr4 a).
Definition addr_from16 (b : bytes) : option Addr := a ← to_array 16 b; Some (Addr6 a "").

(** [netip.AddrFromSlice]. *)
Definition addr_from_slice (b : bytes) : Addr * bool :=
  if len b =? 4 then (Addr4 b, true)
  else if len b =? 16 then (Addr6 b "", true)
  else (AddrInvalid, false).

(** The 12-byte prefix of an IPv4-mapped IPv6 address. *)
Definition mapped_prefix : bytes := [0;0;0;0;0;0;0;0;0;0;255;255].

(** [Addr.Unmap]. *)
Definition addr_unmap (a : Addr) : Addr :=
  match a with
  | Addr6 b _ => if decide (take 12 b = mapped_prefix) then Addr4 (drop 12 b) else a
  | _ => a
  end.

(** The number a big-endian byte string spells. *)
Definition bytes_num (b : bytes) : Z := foldl (λ x c, x * 256 + c) 0 b.

(** An address as its family's width and number; the zero address has none. *)
Definition addr_value (a : Addr) : option (Z * Z) :=
  match a with
  | AddrInvalid => None
  | Addr4 b => Some (32, bytes_num b)
  | Addr6 b _ => Some (128, bytes_num b)
  end.

Definition has_zone (a : Addr) : bool :=
  match a with Addr6 _ z => negb (bool_decide (z = "")) | _ => false end.

(** ** Time

    [time.Time] is the number of nanoseconds since the Unix epoch,
    unbounded: every instant the modelled code forms is inside the range of
    [time.Time]. [time.Duration] is a 64-bit count of nanoseconds. *)
Definition second : Z := 1000000000.
Definition millisecond : Z := 1000000.
Definition minute : Z := 60 * second.
Definition hour : Z := 3600 * second.
Definition max_duration : Z := 2 ^ 63 - 1.
Definition min_duration : Z := - 2 ^ 63.

(** The zero [time.Time], 1 January of year 1. *)
Definition time_zero : Z := -62135596800 * second.
Definition time_unix (sec nsec : Z) : Z := sec * second + nsec.
Definition time_unix_milli (ms : Z) : Z := ms * millisecond.
Definition time_add (t d : Z) : Z := t + d.

(** [t.Sub(u)] saturates. *)
Definition time_sub (t u : Z) : Z := Z.max min_duration (Z.min max_duration (t - u)).
Definition time_before (t u : Z) : bool := t <? u.
Definition time_after (t u : Z) : bool := u <? t.

(** ** Map iteration

    [range m] visits every entry once in an unspecified order. Code that
    ranges over a map is modelled over an arbitrary order: the class holds
    one, and theorems hold for each of its instances. *)
Class RangeOrder (K : Type) `{Countable K} : Type := {
  range : ∀ {V}, gmap K V → list (K * V);
  range_perm : ∀ {V} (m : gmap K V), range m ≡ₚ map_to_list m;
}.

(** The order used to evaluate the models. *)
#[export] Program Instance key_order `{Countable K} : RangeOrder K | 100 :=
  {| range := λ V m, map_to_list m |}.
Next Obligation. done. Qed.

(** The elements of a set in a range order, [for k := range set]. *)
Definition range_set `{Countable K} `{!RangeOrder K} (s : gset K) : list K :=
  map fst (range (gset_to_gmap tt s)).

(** ** The order of strings

    Bytewise, the order of [slices.Sort] and [<]. *)
Definition str_le (x y : string) : Prop := String.leb x y = true.
#[export] Instance str_le_dec : RelDecision str_le := λ x y, decide (String.leb x y = true).

#[export] Instance str_le_total : Total str_le.
Proof. intros x y. unfold str_le, String.leb. rewrite (String.compare_antisym y x). by destruct (x ?= y)%string; [left|left|right]. Qed.

#[export] Instance str_le_trans : Transitive str_le.
Proof.
  intros x. unfold str_le, String.leb. induction x as [|a x IH]; intros [|b y] [|c z]; cbn; try done.
  unfold Ascii.compare. specialize (IH y z).
  destruct (N.compare_spec (N_of_ascii a) (N_of_ascii b)) as [E1|E1|E1]; [| |done];
    destruct (N.compare_spec (N_of_ascii b) (N_of_ascii c)) as [E2|E2|E2]; try done.
  - rewrite E1, E2, N.compare_refl. done.
  - rewrite E1. destruct (N.compare_spec (N_of_ascii b) (N_of_ascii c)); [lia|done|lia].
  - rewrite <-E2. destruct (N.compare_spec (N_of_ascii a) (N_of_ascii b)); [lia|done|lia].
  - destruct (N.compare_spec (N_of_ascii a) (N_of_ascii c)); [lia|done|lia].
Qed.

#[export] Instance str_le_antisym : AntiSymm eq str_le.
Proof.
  intros x y. unfold str_le, String.leb. rewrite (String.compare_antisym y x).
  destruct (x ?= y)%string eqn:E; [|done..]. intros _ _. by apply String.compare_eq_iff.
Qed.

(** ** ASCII case mapping

    [strings.ToLower] on ASCII text. *)
Definition lower_ascii (c : ascii) : ascii :=
  let n := nat_of_ascii c in
  if decide (65 ≤ n ∧ n ≤ 90)%nat then ascii_of_nat (n + 32) else c.

Fixpoint to_lower (s : string) : string :=
  match s with
  | EmptyString => EmptyString
  | String c s' => String (lower_ascii c) (to_lower s')
  end.

(** [strings.ToUpper] on ASCII text. *)
Definition upper_ascii (c : ascii) : ascii :=
  let n := nat_of_ascii c in
  if decide (97 ≤ n ∧ n ≤ 122)%nat then ascii_of_nat (n - 32) else c.

Fixpoint to_upper (s : string) : string :=
  match s with
  | EmptyString => EmptyString
  | String c s' => String (upper_ascii c) (to_upper s')
  end.

(** [strings.ReplaceAll(s, old, new)] for one-byte [old] and [new]. *)
Fixpoint replace_all (old new : ascii) (s : string) : string :=
  match s with
  | EmptyString => EmptyString
  | String c s' => String (if decide (c = old) then new else c) (replace_all old new s')
  end.

(** ** Slice lemmas *)
Section slices.
Context {A : Type}.
Implicit Types l : list A.

Lemma len_nonneg l : 0 ≤ len l.
Proof. unfold len. lia. Qed.

Lemma len_cons x l : len (x :: l) = 1 + len l.
Proof. unfold len. simpl. lia. Qed.

Lemma len_app l1 l2 : len (l1 ++ l2) = len l1 + len l2.
Proof. unfold len. rewrite length_app. lia. Qed.

Lemma len_drop n l : len (drop n l) = Z.max 0 (len l - Z.of_nat n).
Proof. unfold len. rewrite length_drop. lia. Qed.

Lemma len_take n l : len (take n l) = Z.min (Z.of_nat n) (len l).
Proof. unfold len. rewrite length_take. lia. Qed.

Lemma slice_Some l i j :
  0 ≤ i → i ≤ j → j ≤ len l →
  slice l i j = Some (take (Z.to_nat (j - i)) (drop (Z.to_nat i) l)).
Proof.
  intros. unfold slice.
  by rewrite (proj2 (Z.leb_le 0 i)), (proj2 (Z.leb_le i j)), (proj2 (Z.leb_le j (len l))).
Qed.

Lemma slice_from_Some l i :
  0 ≤ i ≤ len l → slice_from l i = Some (drop (Z.to_nat i) l).
Proof.
  intros. unfold slice_from. rewrite slice_Some by lia. f_equal.
  apply take_ge. rewrite length_drop. unfold len in *. lia.
Qed.

Lemma slice_from_inv l i l' :
  slice_from l i = Some l' → 0 ≤ i ≤ len l ∧ l' = drop (Z.to_nat i) l.
Proof.
  intros H. assert (0 ≤ i ≤ len l) as Hi.
  { unfold slice_from, slice in H. destruct (_ && _) eqn:E; [bool_lia|done]. }
  rewrite slice_from_Some in H by done. by injection H as <-.
Qed.

Lemma slice_from_app l1 l2 i : i = len l1 → slice_from (l1 ++ l2) i = Some l2.
Proof.
  intros ->. rewrite slice_from_Some by (rewrite len_app; pose proof (len_nonneg l1);
    pose proof (len_nonneg l2); lia).
  unfold len. by rewrite Nat2Z.id, drop_app_length.
Qed.

Lemma wp_slice l i j (Q : list A → Prop) :
  0 ≤ i → i ≤ j → j ≤ len l →
  (∀ l', len l' = j - i → l' ⊆ l → Q l') → wp (slice l i j) Q.
Proof.
  intros ??? HQ. rewrite slice_Some by done. apply HQ.
  - rewrite len_take, len_drop. lia.
  - intros x Hx%elem_of_take. destruct Hx as (k & Hx & _).
    rewrite lookup_drop in Hx. by eapply list_elem_of_lookup_2.
Qed.

Lemma wp_slice_from l i (Q : list A → Prop) :
  0 ≤ i → i ≤ len l → (∀ l', len l' = len l - i → l' ⊆ l → Q l') → wp (slice_from l i) Q.
Proof. intros ?? HQ. unfold slice_from. apply wp_slice; [lia..|]. done. Qed.

Lemma wp_index l i (Q : A → Prop) :
  0 ≤ i → i < len l → (∀ x, x ∈ l → Q x) → wp (index l i) Q.
Proof.
  intros ?? HQ. unfold index. rewrite (proj2 (Z.leb_le 0 i)) by lia.
  destruct (lookup_lt_is_Some_2 l (Z.to_nat i)) as [x Hx]; [unfold len in *; lia|].
  rewrite Hx. apply HQ. by eapply list_elem_of_lookup_2.
Qed.
End slices.

Section bytes_ok.
Implicit Types b : bytes.

Lemma bytes_ok_elem b x : bytes_ok b → x ∈ b → 0 ≤ x < 256.
Proof. unfold bytes_ok. rewrite list.Forall_forall. intros H Hx. exact (H x Hx). Qed.

Lemma bytes_ok_sub b b' : bytes_ok b → b' ⊆ b → bytes_ok b'.
Proof. unfold bytes_ok. rewrite !list.Forall_forall. intros H Hsub x Hx. apply H, Hsub, Hx. Qed.
End bytes_ok.

Lemma slice_bytes_ok b b' i j : slice b i j = Some b' → bytes_ok b → bytes_ok b'.
Proof.
  unfold slice. destruct (_ && _); [|done]. intros [= <-] Hb. by apply Forall_take, Forall_drop.
Qed.

Lemma be32_range b v : be32 b = Some v → bytes_ok b → 0 ≤ v < 2 ^ 32.
Proof.
  unfold be32. do 4 (destruct b as [|? b]; [done|]). intros [= <-] Hb.
  unfold bytes_ok in Hb. rewrite !list.Forall_cons in Hb. unfold is_byte in *. lia.
Qed.

Lemma be32_at_range b i v : be32_at b i = Some v → bytes_ok b → 0 ≤ v < 2 ^ 32.
Proof.
  unfold be32_at. intros (b' & Hs & Hv)%bind_Some Hb. eapply be32_range; [done|].
  by eapply slice_bytes_ok.
Qed.

(** ** Reads of a long enough slice return, with a value of their width *)

Lemma wp_be16 b (Q : Z → Prop) :
  2 ≤ len b → (∀ v, (bytes_ok b → 0 ≤ v < 2 ^ 16) → Q v) → wp (be16 b) Q.
Proof.
  intros Hl HQ. destruct b as [|b0 [|b1 b]]; unfold len in Hl; simpl in Hl; [lia|lia|].
  apply HQ. unfold bytes_ok. rewrite !list.Forall_cons. unfold is_byte. lia.
Qed.

Lemma wp_le16 b (Q : Z → Prop) :
  2 ≤ len b → (∀ v, (bytes_ok b → 0 ≤ v < 2 ^ 16) → Q v) → wp (le16 b) Q.
Proof.
  intros Hl HQ. destruct b as [|b0 [|b1 b]]; unfold len in Hl; simpl in Hl; [lia|lia|].
  apply HQ. unfold bytes_ok. rewrite !list.Forall_cons. unfold is_byte. lia.
Qed.

Lemma wp_be32 b (Q : Z → Prop) :
  4 ≤ len b → (∀ v, (bytes_ok b → 0 ≤ v < 2 ^ 32) → Q v) → wp (be32 b) Q.
Proof.
  intros Hl HQ.
  destruct b as [|b0 [|b1 [|b2 [|b3 b]]]]; unfold len in Hl; simpl in Hl; [lia..|].
  apply HQ. unfold bytes_ok. rewrite !list.Forall_cons. unfold is_byte. lia.
Qed.

(** ** A written 16-bit value reads back *)

Lemma len_put_be16 v : len (put_be16 v) = 2.
Proof. done. Qed.

Lemma be16_put v l : 0 ≤ v < 2 ^ 16 → be16 (put_be16 v ++ l) = Some v.
Proof.
  intros. unfold put_be16. simpl. f_equal. rewrite Z.shiftr_div_pow2 by lia.
  rewrite (Z.mod_small (v / 2 ^ 8)) by (split; [apply Z.div_pos|apply Z.div_lt_upper_bound]; lia).
  change 256 with (2 ^ 8). pose proof (Z.div_mod v (2 ^ 8)). lia.
Qed.

#[global] Arguments put_be16 : simpl never.

Lemma be16_at_put l1 v l2 i :
  i = len l1 → 0 ≤ v < 2 ^ 16 → be16_at (l1 ++ put_be16 v ++ l2) i = Some v.
Proof. intros. unfold be16_at. rewrite slice_from_app by done. by apply be16_put. Qed.

Section reads.
Context (b : bytes) (i : Z) (Hi : 0 ≤ i).

Lemma wp_read_at (f : bytes → option Z) n hi (Q : Z → Prop) :
  (∀ b' (Q' : Z → Prop), n ≤ len b' →
     (∀ v, (bytes_ok b' → 0 ≤ v < hi) → Q' v) → wp (f b') Q') →
  0 ≤ n → i + n ≤ len b →
  (∀ v, (bytes_ok b → 0 ≤ v < hi) → Q v) → wp (x ← slice_from b i; f x) Q.
Proof using Hi.
  intros Hf ?? HQ. apply wp_bind, wp_slice_from; [lia..|]. intros b' ? Hsub.
  apply Hf; [lia|]. intros v Hv. apply HQ. intros Hb. apply Hv. by eapply bytes_ok_sub.
Qed.

Lemma wp_be16_at (Q : Z → Prop) :
  i + 2 ≤ len b → (∀ v, (bytes_ok b → 0 ≤ v < 2 ^ 16) → Q v) → wp (be16_at b i) Q.
Proof using Hi. intros ?. by apply (wp_read_at be16 2); [apply wp_be16|..]. Qed.

Lemma wp_be32_at (Q : Z → Prop) :
  i + 4 ≤ len b → (∀ v, (bytes_ok b → 0 ≤ v < 2 ^ 32) → Q v) → wp (be32_at b i) Q.
Proof using Hi. intros ?. by apply (wp_read_at be32 4); [apply wp_be32|..]. Qed.

Lemma wp_le16_at (Q : Z → Prop) :
  i + 2 ≤ len b → (∀ v, (bytes_ok b → 0 ≤ v < 2 ^ 16) → Q v) → wp (le16_at b i) Q.
Proof using Hi. intros ?. by apply (wp_read_at le16 2); [apply wp_le16|..]. Qed.
End reads.

Lemma wp_addr_from4 b (Q : Addr → Prop) : 4 ≤ len b → (∀ a, Q a) → wp (addr_from4 b) Q.
Proof. intros. apply wp_bind, wp_slice; [lia..|]. intros. simpl. auto. Qed.

Lemma wp_addr_from16 b (Q : Addr → Prop) : 16 ≤ len b → (∀ a, Q a) → wp (addr_from16 b) Q.
Proof. intros. apply wp_bind, wp_slice; [lia..|]. intros. simpl. auto. Qed.

#[export] Hint Resolve bytes_ok_sub bytes_ok_elem len_nonneg : seed.

(** One read inside the slice it reads. *)
Ltac wp_read :=
  first
    [ apply wp_slice; [try lia..|intros ? ? ?]
    | apply wp_slice_from; [try lia..|intros ? ? ?]
    | apply wp_index; [try lia..|intros ? ?]
    | apply wp_be16_at; [try lia|try lia|intros ? ?]
    | apply wp_be32_at; [try lia|try lia|intros ? ?]
    | apply wp_le16_at; [try lia|try lia|intros ? ?]
    | apply wp_be16; [try lia|intros ? ?]
    | apply wp_be32; [try lia|intros ? ?]
    | apply wp_le16; [try lia|intros ? ?]
    | apply wp_addr_from4; [try lia|intros ?]
    | apply wp_addr_from16; [try lia|intros ?] ].

(** Discharge the range facts of reads from a well-formed slice. *)
Ltac byte_facts :=
  repeat match goal with
  | Hb : bytes_ok ?b, H : bytes_ok ?b → _ |- _ => specialize (H Hb)
  | Hb : bytes_ok ?b, H : ?b' ⊆ ?b |- _ =>
      lazymatch goal with
      | _ : bytes_ok b' |- _ => fail
      | _ => pose proof (bytes_ok_sub _ _ Hb H)
      end
  | Hb : bytes_ok ?b, H : ?x ∈ ?b |- _ =>
      lazymatch goal with
      | _ : 0 ≤ x < 256 |- _ => fail
      | _ => pose proof (bytes_ok_elem _ _ Hb H)
      end
  end.

(** Run a model symbolically: every read, bind and branch on the way. *)
Ltac wp_go :=
  repeat (cbv beta iota zeta; first [progress wp_read | wp_step]); cbv beta iota zeta.

(** ** Range order *)
Section range.
Context `{Countable K} `{!RangeOrder K} {V : Type}.
Implicit Types m : gmap K V.

Lemma elem_of_range m k v : (k, v) ∈ range m ↔ m !! k = Some v.
Proof. by rewrite range_perm, elem_of_map_to_list. Qed.

Lemma length_range m : length (range m) = size m.
Proof. rewrite range_perm. apply length_map_to_list. Qed.
End range.

Section range_set.
Context `{Countable K} `{!RangeOrder K}.
Implicit Types s : gset K.

Lemma elem_of_range_set s k : k ∈ range_set s ↔ k ∈ s.
Proof.
  unfold range_set. rewrite list_elem_of_fmap. split.
  - intros ([k' []] & -> & Hin). apply elem_of_range, lookup_gset_to_gmap_Some in Hin. tauto.
  - intros Hk. exists (k, tt). split; [done|]. apply elem_of_range.
    by apply lookup_gset_to_gmap_Some.
Qed.

Lemma NoDup_range_set s : NoDup (range_set s).
Proof.
  unfold range_set. apply NoDup_fmap_2_strong.
  - intros [? []] [? []] _ _. simpl. by intros ->.
  - rewrite range_perm. apply NoDup_map_to_list.
Qed.
End range_set.

(** ** Time lemmas *)

Lemma time_sub_exact t u : min_duration ≤ t - u ≤ max_duration → time_sub t u = t - u.
Proof. unfold time_sub. lia. Qed.

Lemma time_sub_le t u d : min_duration ≤ d < max_duration → time_sub t u ≤ d ↔ t - u ≤ d.
Proof. unfold time_sub. lia. Qed.

(** A fallible map answers when each element does. *)
Lemma wp_mapM {A B} (f : A → option B) (P : B → Prop) l :
  (∀ x, x ∈ l → wp (f x) P) → wp (mapM f l) (λ k, Forall P k ∧ length k = length l).
Proof.
  induction l as [|x l IH]; intros Hf; [by split; [constructor|]|]. cbn [mapM].
  eapply wp_bind_spec; [apply Hf; by left|]. intros y Hy.
  eapply wp_bind_spec; [apply IH; intros; apply Hf; by right|]. intros k [Hk Hl]. simpl.
  split; [by constructor|]. by rewrite Hl.
Qed.
