(* ===== verification/GoText.v ===== *)
(** * Go strings as bytes (package [strings] and [strconv.Atoi])

    A text is the list of its bytes. [strings.TrimSpace] and [strings.Fields]
    work on bytes here: the white space of Unicode is a set of byte sequences,
    none of which starts inside another rune, so that scanning bytes finds the
    same ones as decoding runes. *)
From Stdlib Require Import ZArith Lia Ascii.
From stdpp Require Import base sets list strings pretty.
From S2P Require Import Prelude GoBase.

(** A text literal. *)
Definition ascii_bytes (s : string) : bytes :=
  map (λ c, Z.of_nat (Ascii.nat_of_ascii c)) (String.list_ascii_of_string s).

(** ** White space *)

(** The encodings of the runes of [unicode.IsSpace]. *)
Definition spaces : list bytes :=
  [[9]; [10]; [11]; [12]; [13]; [32]; [194; 133]; [194; 160]; [225; 154; 128];
   [226; 128; 128]; [226; 128; 129]; [226; 128; 130]; [226; 128; 131]; [226; 128; 132]; [226; 128; 133];
   [226; 128; 134]; [226; 128; 135]; [226; 128; 136]; [226; 128; 137]; [226; 128; 138];
   [226; 128; 168]; [226; 128; 169]; [226; 128; 175]; [226; 129; 159]; [227; 128; 128]].

(** The first of [l] that [s] starts with, as its length. *)
Fixpoint space_in (l : list bytes) (s : bytes) : option nat :=
  match l with
  | [] => None
  | sp :: l => if bool_decide (take (length sp) s = sp) then Some (length sp) else space_in l s
  end.

(** The length of the white space [s] starts with, if it does. *)
Definition space_at (s : bytes) : option nat := space_in spaces s.
(** Of the white space a string ends with, read backwards. *)
Definition space_end (s : bytes) : option nat := space_in (map (@rev Z) spaces) s.

(** Dropping white space in front, [fuel] bounding the runes. *)
Fixpoint trim (at_ : bytes → option nat) (fuel : nat) (s : bytes) : bytes :=
  match fuel with
  | O => s
  | S fuel => match at_ s with Some n => trim at_ fuel (drop n s) | None => s end
  end.

(** [strings.TrimSpace] *)
Definition TrimSpace (s : bytes) : bytes :=
  let s := trim space_at (length s) s in
  rev (trim space_end (length s) (rev s)).

(** [strings.Fields]: [skip] bytes of a white space are still to be passed,
    [cur] is the field begun. *)
Fixpoint fields_loop (s : bytes) (skip : nat) (cur : bytes) : list bytes :=
  match s with
  | [] => match cur with [] => [] | _ => [cur] end
  | c :: rest =>
      match skip with
      | S skip => fields_loop rest skip cur
      | O =>
          match space_at s with
          | Some n =>
              match cur with
              | [] => fields_loop rest (pred n) []
              | _ => cur :: fields_loop rest (pred n) []
              end
          | None => fields_loop rest 0 (cur ++ [c])
          end
      end
  end.

Definition Fields (s : bytes) : list bytes := fields_loop s 0 [].

(** [strings.IndexByte], -1 when absent. *)
Fixpoint index_byte (s : bytes) (c : Z) (i : Z) : Z :=
  match s with
  | [] => -1
  | x :: s => if x =? c then i else index_byte s c (i + 1)
  end.
Definition IndexByte (s : bytes) (c : Z) : Z := index_byte s c 0.

Fixpoint atoi_digits (s : bytes) (n : Z) : option Z :=
  match s with
  | [] => Some n
  | c :: s => if (48 <=? c) && (c <=? 57) then atoi_digits s (10 * n + (c - 48)) else None
  end.

(** [strconv.Atoi] of a text short enough not to overflow: a sign, then digits. *)
Definition Atoi (s : bytes) : option Z :=
  match s with
  | [] => None
  | c :: rest =>
      let digits := if (c =? 45) || (c =? 43) then rest else s in
      match digits with
      | [] => None
      | _ => n ← atoi_digits digits 0; Some (if c =? 45 then - n else n)
      end
  end.

(** ** Times as text *)

(** [time.RFC3339Nano] drops the trailing zeros of a fraction, and the point
    with it when none is left. *)
Fixpoint digits (width : nat) (n : Z) : string :=
  match width with
  | O => ""
  | S w => String (pretty_N_char (Z.to_N (n / 10 ^ Z.of_nat w))) (digits w (n mod 10 ^ Z.of_nat w))
  end.

Fixpoint trim_zeros (s : string) : string :=
  match s with
  | "" => ""
  | String c s =>
      let s := trim_zeros s in
      if bool_decide (c = "0"%char) && bool_decide (s = "") then "" else String c s
  end.

Definition fraction (ns : Z) : string :=
  match trim_zeros (digits 9 ns) with "" => "Z" | s => "." +:+ s +:+ "Z" end.

(** The stored text of an instant: what comes before the fraction has a fixed
    width and orders as the seconds do. *)
Definition stamp (t : Z) : Z * string := (t / second, fraction (t mod second)).

(** SQLite compares the texts byte by byte. *)
Definition stamp_le (a b : Z * string) : Prop := a.1 < b.1 ∨ (a.1 = b.1 ∧ str_le a.2 b.2).
#[export] Instance stamp_le_dec : RelDecision stamp_le := λ a b, decide (a.1 < b.1 ∨ (a.1 = b.1 ∧ str_le a.2 b.2)).

(** ** Prefixes, lines and cut sets *)

Definition HasPrefix (s p : bytes) : bool := bool_decide (take (length p) s = p).

(** [strings.CutPrefix] *)
Definition CutPrefix (s p : bytes) : option bytes :=
  if HasPrefix s p then Some (drop (length p) s) else None.

(** [strings.Split(s, sep)] for a one-byte [sep]: never empty. *)
Fixpoint Split (s : bytes) (sep : Z) : list bytes :=
  match s with
  | [] => [[]]
  | c :: rest =>
      if c =? sep then [] :: Split rest sep
      else match Split rest sep with
           | [] => [[c]]
           | l :: ls => (c :: l) :: ls
           end
  end.

(** [strings.Cut(s, sep)]: what is before a one-byte [sep], or all. *)
Fixpoint before_sep (s : bytes) (sep : Z) : bytes :=
  match s with
  | [] => []
  | c :: rest => if c =? sep then [] else c :: before_sep rest sep
  end.

(** [strings.ReplaceAll(s, "\r\n", "\n")] *)
Fixpoint crlf_to_lf (s : bytes) : bytes :=
  match s with
  | [] => []
  | c :: rest =>
      match rest with
      | d :: rest' => if (c =? 13) && (d =? 10) then 10 :: crlf_to_lf rest' else c :: crlf_to_lf rest
      | [] => [c]
      end
  end.

(** [strings.TrimLeft] and [strings.TrimRight] with an ASCII cut set. *)
Fixpoint TrimLeft (s : bytes) (cut : list Z) : bytes :=
  match s with
  | [] => []
  | c :: rest => if bool_decide (c ∈ cut) then TrimLeft rest cut else s
  end.
Definition TrimRight (s : bytes) (cut : list Z) : bytes := rev (TrimLeft (rev s) cut).

(** [strconv.ParseInt(s, 10, 64)], and [strconv.Atoi] of any text *)
Definition ParseInt (s : bytes) : option Z :=
  n ← Atoi s; if (- 2 ^ 63 <=? n) && (n <? 2 ^ 63) then Some n else None.

(** [strings.Index], -1 when absent. *)
Fixpoint Index (s sub : bytes) : Z :=
  if HasPrefix s sub then 0
  else match s with
       | [] => -1
       | _ :: s => let i := Index s sub in if i <? 0 then -1 else i + 1
       end.

(** [strings.Cut(s, sep)]: what is before and after the first [sep]. *)
Definition Cut (s sep : bytes) : option (bytes * bytes) :=
  let i := Index s sep in
  if i <? 0 then None else Some (take (Z.to_nat i) s, drop (Z.to_nat i + length sep) s).

(** The first [sub] is where [Index] says, and there is none without it. *)
Lemma Index_spec s sub :
  match Index s sub with
  | Z.neg _ => Index s sub = -1 ∧ ∀ k, (k ≤ length s)%nat → HasPrefix (drop k s) sub = false
  | i => HasPrefix (drop (Z.to_nat i) s) sub = true ∧ i + len sub ≤ len s ∧ ∀ k, (k < Z.to_nat i)%nat → HasPrefix (drop k s) sub = false
  end.
Proof.
  assert (∀ s, HasPrefix s sub = true → len sub ≤ len s) as Hlen.
  { intros s'. unfold HasPrefix. rewrite bool_decide_eq_true. intros <-. unfold len. rewrite length_take. lia. }
  induction s as [|c s IH]; cbn [Index].
  - destruct (HasPrefix [] sub) eqn:E; cbn; [split; [done|]; split; [by apply Hlen|lia]|].
    split; [done|]. intros k Hk. by replace k with 0%nat by lia.
  - destruct (HasPrefix (c :: s) sub) eqn:E; [split; [done|]; split; [by apply Hlen|cbn; lia]|].
    destruct (Index s sub) as [|i|i] eqn:Ei.
    + destruct IH as (H1 & H2 & H3). cbn. split; [done|]. split; [rewrite len_cons; lia|]. intros k Hk. by replace k with 0%nat by lia.
    + destruct IH as (H1 & H2 & H3). cbn [Z.ltb]. replace (Z.pos i <? 0) with false by (symmetry; apply Z.ltb_ge; lia).
      assert (Z.pos i + 1 = Z.pos (i + 1)) as -> by lia. replace (Z.to_nat (Z.pos (i + 1))) with (S (Z.to_nat (Z.pos i))) by lia.
      split; [done|]. split; [rewrite len_cons; lia|]. intros [|k] Hk; [done|]. apply H3. lia.
    + destruct IH as (H1 & H2). cbn. split; [done|]. intros [|k] Hk; [done|]. cbn. apply H2. cbn in Hk. lia.
Qed.
