(* ===== verification/GoWords.v ===== *)
(** * Words and numbers in a text

    What [strings.TrimSpace], [strings.Fields] and [strconv.Atoi] make of text
    in printable ASCII: the lemmas the parsers of lines share. *)
From Stdlib Require Import ZArith Lia.
From stdpp Require Import base sets list strings.
From S2P Require Import Prelude GoBase GoText.

(** ** Words *)

(** A byte that starts, and ends, no white space. *)
Definition solid (c : Z) : Prop := 33 ≤ c < 127.

Lemma space_in_None l s :
  (∀ sp, sp ∈ l → take (length sp) s ≠ sp) → space_in l s = None.
Proof.
  induction l as [|sp l IH]; intros Hl; [done|]. cbn [space_in].
  rewrite bool_decide_eq_false_2 by (apply Hl; left). apply IH. intros sp' Hin. apply Hl. by right.
Qed.

(** A white space sequence does not start with a solid byte. *)
Lemma not_space (l : list bytes) c s :
  forallb (λ sp, match sp with [] => false | x :: _ => (x <? 33) || (127 <=? x) end) l = true →
  solid c → space_in l (c :: s) = None.
Proof.
  intros Hl Hc. apply space_in_None. intros sp Hin Heq. rewrite forallb_forall in Hl.
  specialize (Hl sp (proj1 (list_elem_of_In _ _) Hin)). destruct sp as [|x sp]; [done|]. cbn in Heq. injection Heq as -> _. unfold solid in Hc. bool_lia.
Qed.

Lemma space_at_solid c s : solid c → space_at (c :: s) = None.
Proof. by apply not_space. Qed.

Lemma space_end_solid c s : solid c → space_end (c :: s) = None.
Proof. by apply not_space. Qed.

Lemma space_at_space s : space_at (32 :: s) = Some 1%nat.
Proof. reflexivity. Qed.

Lemma trim_solid f n c s : f (c :: s) = None → trim f n (c :: s) = c :: s.
Proof. intros H. destruct n; [done|]. cbn. by rewrite H. Qed.

(** Text that starts and ends with a solid byte. *)
Definition solid_ends (s : bytes) : Prop :=
  (∃ c s', s = c :: s' ∧ solid c) ∧ (∃ c s', s = s' ++ [c] ∧ solid c).

Lemma TrimSpace_solid s : solid_ends s → TrimSpace s = s.
Proof.
  intros [(c & s' & Hs & Hc) (d & s2 & Hs2 & Hd)]. unfold TrimSpace.
  assert (trim space_at (length s) s = s) as Hl by (rewrite Hs; by apply trim_solid, space_at_solid).
  rewrite Hl. rewrite Hs2 at 2. rewrite rev_app_distr. cbn [rev app].
  rewrite trim_solid by by apply space_end_solid. cbn [rev]. by rewrite rev_involutive.
Qed.

Lemma TrimSpace_leading s : solid_ends s → TrimSpace (32 :: s) = s.
Proof.
  intros Hs. pose proof (TrimSpace_solid s Hs) as H. unfold TrimSpace in *. cbn [length].
  assert (trim space_at (S (length s)) (32 :: s) = trim space_at (length s) s) as ->; [|exact H].
  cbn [trim]. by rewrite space_at_space.
Qed.

(** A word is passed whole. *)
Lemma fields_solid w rest cur :
  Forall solid w → fields_loop (w ++ rest) 0 cur = fields_loop rest 0 (cur ++ w).
Proof.
  revert cur. induction w as [|c w IH]; intros cur Hw; [by rewrite app_nil_r|].
  apply Forall_cons in Hw as [Hc Hw]. cbn [app fields_loop]. rewrite space_at_solid by done.
  rewrite IH by done. by rewrite <-app_assoc.
Qed.

Lemma fields_solid_end w : w ≠ [] → Forall solid w → fields_loop w 0 [] = [w].
Proof.
  intros Hne Hw. rewrite <-(app_nil_r w), fields_solid by done. cbn. rewrite app_nil_r. by destruct w.
Qed.

(** A word and a space in front of more of them. *)
Lemma fields_solid_cons w rest : w ≠ [] → Forall solid w → fields_loop (w ++ 32 :: rest) 0 [] = w :: fields_loop rest 0 [].
Proof. intros Hne Hw. rewrite fields_solid by done. cbn [app fields_loop]. rewrite space_at_space. by destruct w. Qed.

(** ** Numbers *)

(** The number a text of decimal digits writes. *)
Definition decimal (ds : bytes) : Z := foldl (λ n c, 10 * n + (c - 48)) 0 ds.
Definition digit (c : Z) : Prop := 48 ≤ c ≤ 57.

Lemma atoi_digits_decimal ds n : Forall digit ds → atoi_digits ds n = Some (foldl (λ n c, 10 * n + (c - 48)) n ds).
Proof.
  intros H. revert n. induction H as [|c ds Hc _ IH]; intros n; [done|]. cbn [atoi_digits foldl]. unfold digit in Hc.
  assert (((48 <=? c) && (c <=? 57)) = true) as -> by lia. apply IH.
Qed.

Lemma Atoi_decimal ds : ds ≠ [] → Forall digit ds → Atoi ds = Some (decimal ds).
Proof.
  intros Hne H. destruct ds as [|c ds]; [done|]. pose proof (Forall_inv H) as Hc. unfold digit in Hc. unfold Atoi.
  assert (((c =? 45) || (c =? 43)) = false) as -> by lia. assert ((c =? 45) = false) as -> by lia.
  by rewrite atoi_digits_decimal.
Qed.

Lemma decimal_nonneg ds : Forall digit ds → 0 ≤ decimal ds.
Proof.
  unfold decimal. intros H. cut (∀ n, 0 ≤ n → 0 ≤ foldl (λ n c, 10 * n + (c - 48)) n ds); [intros G; exact (G 0 (Z.le_refl 0))|].
  induction H as [|c ds Hc _ IH]; intros n Hn; cbn; [done|]. apply IH. unfold digit in Hc. lia.
Qed.
