(* ===== verification/FlowTypes.v ===== *)
(** * Flow records and decode results (src/internal/listener/flow/record.go,
    and the result and error values of decode.go) *)
From Stdlib Require Import ZArith Lia.
From stdpp Require Import base gmap sets list strings.
From S2P Require Import Prelude GoBase.

Definition VersionNetFlow5 : Z := 5.
Definition VersionNetFlow9 : Z := 9.
Definition VersionIPFIX : Z := 10.
Definition VersionSFlow5 : Z := 5.

(** [Format] *)
Inductive Format : Type :=
| FormatNetFlow5
| FormatNetFlow9
| FormatIPFIX
| FormatSFlow5.

(** [Record]: one decoded flow, normalised across the formats. *)
Record FlowRecord : Type := {
  Exporter : Addr;
  FlowFormat : Format;
  ObservationDomain : Z;
  Start : Z;
  End_ : Z;
  SrcAddr : Addr;
  DstAddr : Addr;
  SrcPort : Z;
  DstPort : Z;
  Protocol : Z;
  TCPFlags : Z;
  Bytes : Z;
  Packets : Z;
  InputIf : Z;
  OutputIf : Z;
}.

(** Assignments to the fields of a record. *)
Definition set_SrcAddr (r : FlowRecord) (v : Addr) : FlowRecord :=
  {| Exporter := Exporter r; FlowFormat := FlowFormat r;
     ObservationDomain := ObservationDomain r; Start := Start r; End_ := End_ r;
     SrcAddr := v; DstAddr := DstAddr r; SrcPort := SrcPort r; DstPort := DstPort r;
     Protocol := Protocol r; TCPFlags := TCPFlags r; Bytes := Bytes r;
     Packets := Packets r; InputIf := InputIf r; OutputIf := OutputIf r |}.
Definition set_DstAddr (r : FlowRecord) (v : Addr) : FlowRecord :=
  {| Exporter := Exporter r; FlowFormat := FlowFormat r;
     ObservationDomain := ObservationDomain r; Start := Start r; End_ := End_ r;
     SrcAddr := SrcAddr r; DstAddr := v; SrcPort := SrcPort r; DstPort := DstPort r;
     Protocol := Protocol r; TCPFlags := TCPFlags r; Bytes := Bytes r;
     Packets := Packets r; InputIf := InputIf r; OutputIf := OutputIf r |}.
Definition set_SrcPort (r : FlowRecord) (v : Z) : FlowRecord :=
  {| Exporter := Exporter r; FlowFormat := FlowFormat r;
     ObservationDomain := ObservationDomain r; Start := Start r; End_ := End_ r;
     SrcAddr := SrcAddr r; DstAddr := DstAddr r; SrcPort := v; DstPort := DstPort r;
     Protocol := Protocol r; TCPFlags := TCPFlags r; Bytes := Bytes r;
     Packets := Packets r; InputIf := InputIf r; OutputIf := OutputIf r |}.
Definition set_DstPort (r : FlowRecord) (v : Z) : FlowRecord :=
  {| Exporter := Exporter r; FlowFormat := FlowFormat r;
     ObservationDomain := ObservationDomain r; Start := Start r; End_ := End_ r;
     SrcAddr := SrcAddr r; DstAddr := DstAddr r; SrcPort := SrcPort r; DstPort := v;
     Protocol := Protocol r; TCPFlags := TCPFlags r; Bytes := Bytes r;
     Packets := Packets r; InputIf := InputIf r; OutputIf := OutputIf r |}.
Definition set_Protocol (r : FlowRecord) (v : Z) : FlowRecord :=
  {| Exporter := Exporter r; FlowFormat := FlowFormat r;
     ObservationDomain := ObservationDomain r; Start := Start r; End_ := End_ r;
     SrcAddr := SrcAddr r; DstAddr := DstAddr r; SrcPort := SrcPort r;
     DstPort := DstPort r; Protocol := v; TCPFlags := TCPFlags r; Bytes := Bytes r;
     Packets := Packets r; InputIf := InputIf r; OutputIf := OutputIf r |}.
Definition set_TCPFlags (r : FlowRecord) (v : Z) : FlowRecord :=
  {| Exporter := Exporter r; FlowFormat := FlowFormat r;
     ObservationDomain := ObservationDomain r; Start := Start r; End_ := End_ r;
     SrcAddr := SrcAddr r; DstAddr := DstAddr r; SrcPort := SrcPort r;
     DstPort := DstPort r; Protocol := Protocol r; TCPFlags := v; Bytes := Bytes r;
     Packets := Packets r; InputIf := InputIf r; OutputIf := OutputIf r |}.
Definition set_InputIf (r : FlowRecord) (v : Z) : FlowRecord :=
  {| Exporter := Exporter r; FlowFormat := FlowFormat r;
     ObservationDomain := ObservationDomain r; Start := Start r; End_ := End_ r;
     SrcAddr := SrcAddr r; DstAddr := DstAddr r; SrcPort := SrcPort r;
     DstPort := DstPort r; Protocol := Protocol r; TCPFlags := TCPFlags r;
     Bytes := Bytes r; Packets := Packets r; InputIf := v; OutputIf := OutputIf r |}.
Definition set_OutputIf (r : FlowRecord) (v : Z) : FlowRecord :=
  {| Exporter := Exporter r; FlowFormat := FlowFormat r;
     ObservationDomain := ObservationDomain r; Start := Start r; End_ := End_ r;
     SrcAddr := SrcAddr r; DstAddr := DstAddr r; SrcPort := SrcPort r;
     DstPort := DstPort r; Protocol := Protocol r; TCPFlags := TCPFlags r;
     Bytes := Bytes r; Packets := Packets r; InputIf := InputIf r; OutputIf := v |}.

(** The sentinel a returned error wraps. *)
Inductive flow_error : Type :=
| ErrTruncated
| ErrUnsupportedVersion
| ErrMalformed.

(** [Result] *)
Record Result : Type := MkResult {
  Records : list FlowRecord;
  MissingTemplate : Z;
}.

(** [Result{}] *)
Definition result_zero : Result := MkResult [] 0.

Definition add_record (res : Result) (r : FlowRecord) : Result :=
  MkResult (Records res ++ [r]) (MissingTemplate res).
Definition add_missing (res : Result) : Result :=
  MkResult (Records res) (MissingTemplate res + 1).

(** Every field of a decoded record fits its Go type. *)
Definition record_ok (r : FlowRecord) : Prop :=
  0 ≤ SrcPort r < 2 ^ 16 ∧ 0 ≤ DstPort r < 2 ^ 16 ∧ 0 ≤ Protocol r < 2 ^ 8 ∧
  0 ≤ TCPFlags r < 2 ^ 8 ∧ 0 ≤ Bytes r < 2 ^ 64 ∧ 0 ≤ Packets r < 2 ^ 64.
