(* ===== verification/FlowHeader.v ===== *)
(** * Sampled packet headers (src/internal/listener/flow/header.go)

    An sFlow agent forwards the first bytes of a packet it sampled. These
    functions read the IP flow key out of those bytes: Ethernet with up to
    four VLAN tags, IPv4, and IPv6 with up to eight extension headers. *)
From Stdlib Require Import ZArith Lia.
From stdpp Require Import base gmap sets list strings.
From S2P Require Import Prelude GoBase.

(** [packetInfo] *)
Record packetInfo : Type := PacketInfo {
  pi_src : Addr;
  pi_dst : Addr;
  pi_srcPort : Z;
  pi_dstPort : Z;
  pi_protocol : Z;
  pi_tcpFlags : Z;
  pi_length : Z;
}.

(** [packetInfo{}] *)
Definition packet_zero : packetInfo := PacketInfo AddrInvalid AddrInvalid 0 0 0 0 0.

Definition set_protocol (p : packetInfo) (proto : Z) : packetInfo :=
  PacketInfo (pi_src p) (pi_dst p) (pi_srcPort p) (pi_dstPort p) proto (pi_tcpFlags p)
    (pi_length p).

Definition ethHeaderLen : Z := 14.
Definition vlanTagLen : Z := 4.
Definition etherTypeIPv4 : Z := 0x0800.
Definition etherTypeIPv6 : Z := 0x86DD.
Definition etherType8021Q : Z := 0x8100.
Definition etherType8021AD : Z := 0x88A8.
Definition etherTypeQinQ : Z := 0x9100.
Definition maxVLANTags : nat := 4.
Definition ipv4MinHeaderLen : Z := 20.
Definition ipv6HeaderLen : Z := 40.
Definition ipv6ExtUnit : Z := 8.
Definition ipv6ExtMinLen : Z := 2.
Definition ipv6FragmentLen : Z := 8.
Definition maxIPv6ExtHeaders : nat := 8.
Definition protoHopByHop : Z := 0.
Definition protoTCP : Z := 6.
Definition protoUDP : Z := 17.
Definition protoRouting : Z := 43.
Definition protoFragment : Z := 44.
Definition protoDestOpts : Z := 60.
Definition tcpFlagsOffset : Z := 13.
Definition portsLen : Z := 4.

(** [packetInfo.transport]: the ports, and for TCP the flags. *)
Definition transport (p : packetInfo) (b : bytes) : option packetInfo :=
  if (negb (pi_protocol p =? protoTCP) && negb (pi_protocol p =? protoUDP))
     || (len b <? portsLen)
  then Some p
  else
    sport ← be16 b;
    dport ← be16_at b 2;
    let p := PacketInfo (pi_src p) (pi_dst p) sport dport (pi_protocol p)
               (pi_tcpFlags p) (pi_length p) in
    if (pi_protocol p =? protoTCP) && (tcpFlagsOffset <? len b) then
      flags ← index b tcpFlagsOffset;
      Some (PacketInfo (pi_src p) (pi_dst p) (pi_srcPort p) (pi_dstPort p)
              (pi_protocol p) flags (pi_length p))
    else Some p.

Definition parseIPv4 (b : bytes) : option (packetInfo * bool) :=
  if len b <? ipv4MinHeaderLen then Some (packet_zero, false)
  else
    length ← be16_at b 2;
    protocol ← index b 9;
    sb ← slice b 12 16;
    src ← addr_from4 sb;
    db ← slice b 16 20;
    dst ← addr_from4 db;
    let p := PacketInfo src dst 0 0 protocol 0 length in
    b0 ← index b 0;
    frag ← be16_at b 6;
    let ihl := Z.land b0 0x0F * 4 in
    if (ihl <? ipv4MinHeaderLen) || has_bits frag 0x1FFF || (len b <? ihl)
    then Some (p, true)
    else
      rest ← slice_from b ihl;
      p ← transport p rest;
      Some (p, true).

(** One step of the extension-header walk of [parseIPv6]: [next] is the
    header type [rest] starts with. *)
Definition ipv6_ext_step (p : packetInfo) (next : Z) (rest : bytes)
    : option (outcome (Z * bytes) packetInfo) :=
  let skip (n : Z) : option (outcome (Z * bytes) packetInfo) :=
    r0 ← index rest 0;
    if len rest <? n then Some (Leave (set_protocol p r0))
    else rest' ← slice_from rest n; Some (Next (r0, rest')) in
  if (next =? protoHopByHop) || (next =? protoRouting) || (next =? protoDestOpts) then
    if len rest <? ipv6ExtMinLen then Some (Leave (set_protocol p next))
    else r1 ← index rest 1; skip ((r1 + 1) * ipv6ExtUnit)
  else if next =? protoFragment then
    if len rest <? ipv6FragmentLen then Some (Leave (set_protocol p next))
    else
      off ← be16_at rest 2;
      if negb (Z.shiftr off 3 =? 0) then
        r0 ← index rest 0; Some (Leave (set_protocol p r0))
      else skip ipv6FragmentLen
  else
    q ← transport (set_protocol p next) rest;
    Some (Leave q).

(** [for range maxIPv6ExtHeaders]: the walk stops after eight headers. *)
Fixpoint ipv6_ext_walk (n : nat) (p : packetInfo) (next : Z) (rest : bytes)
    : option packetInfo :=
  match n with
  | O => Some (set_protocol p next)
  | S n =>
      o ← ipv6_ext_step p next rest;
      match o with
      | Leave q => Some q
      | Next (next', rest') => ipv6_ext_walk n p next' rest'
      end
  end.

Definition parseIPv6 (b : bytes) : option (packetInfo * bool) :=
  if len b <? ipv6HeaderLen then Some (packet_zero, false)
  else
    payload ← be16_at b 4;
    sb ← slice b 8 24;
    src ← addr_from16 sb;
    db ← slice b 24 40;
    dst ← addr_from16 db;
    let p := PacketInfo src dst 0 0 0 0 (wrap 32 (ipv6HeaderLen + payload)) in
    next ← index b 6;
    rest ← slice_from b ipv6HeaderLen;
    p ← ipv6_ext_walk maxIPv6ExtHeaders p next rest;
    Some (p, true).

Definition parseIP (b : bytes) : option (packetInfo * bool) :=
  if len b =? 0 then Some (packet_zero, false)
  else
    b0 ← index b 0;
    if Z.shiftr b0 4 =? 4 then parseIPv4 b
    else if Z.shiftr b0 4 =? 6 then parseIPv6 b
    else Some (packet_zero, false).

Definition is_vlan_type (t : Z) : bool :=
  (t =? etherType8021Q) || (t =? etherType8021AD) || (t =? etherTypeQinQ).

(** [for range maxVLANTags]: skip tags; [None] inside is a truncated tag. *)
Fixpoint skip_vlan_tags (n : nat) (etherType : Z) (b : bytes) : option (option (Z * bytes)) :=
  match n with
  | O => Some (Some (etherType, b))
  | S n =>
      if negb (is_vlan_type etherType) then Some (Some (etherType, b))
      else if len b <? vlanTagLen then Some None
      else
        etherType' ← be16_at b 2;
        b' ← slice_from b vlanTagLen;
        skip_vlan_tags n etherType' b'
  end.

Definition parseEthernet (b : bytes) : option (packetInfo * bool) :=
  if len b <? ethHeaderLen then Some (packet_zero, false)
  else
    etherType ← be16_at b 12;
    b ← slice_from b ethHeaderLen;
    r ← skip_vlan_tags maxVLANTags etherType b;
    match r with
    | None => Some (packet_zero, false)
    | Some (etherType, b) =>
        if negb (etherType =? etherTypeIPv4) && negb (etherType =? etherTypeIPv6)
        then Some (packet_zero, false)
        else parseIP b
    end.

(** ** The parsers return on every input *)


(** Every field fits its Go type. *)
Definition packet_ok (p : packetInfo) : Prop :=
  0 ≤ pi_srcPort p < 2 ^ 16 ∧ 0 ≤ pi_dstPort p < 2 ^ 16 ∧ 0 ≤ pi_protocol p < 2 ^ 8 ∧
  0 ≤ pi_tcpFlags p < 2 ^ 8 ∧ 0 ≤ pi_length p < 2 ^ 32.

Lemma packet_zero_ok : packet_ok packet_zero.
Proof. unfold packet_ok. simpl. lia. Qed.

Lemma set_protocol_ok p proto : packet_ok p → 0 ≤ proto < 2 ^ 8 → packet_ok (set_protocol p proto).
Proof. unfold packet_ok. simpl. lia. Qed.

#[export] Hint Resolve packet_zero_ok set_protocol_ok : seed.

(** The parsers only ever read inside the packet they are given, and what
    they return is in range. *)
Lemma wp_transport p b : packet_ok p → bytes_ok b → wp (transport p b) packet_ok.
Proof.
  intros Hp Hb. unfold transport, portsLen, tcpFlagsOffset.
  wp_step; [done|]. apply orb_false_iff in E as [_ E].
  wp_go; byte_facts; unfold packet_ok in *; simpl; bool_lia.
Qed.

Lemma wp_ipv6_ext_walk n p next rest :
  packet_ok p → 0 ≤ next < 2 ^ 8 → bytes_ok rest → wp (ipv6_ext_walk n p next rest) packet_ok.
Proof.
  intros Hp. revert next rest.
  induction n as [|n IH]; intros next rest Hn Hb; simpl; [by apply set_protocol_ok|].
  apply wp_bind. unfold ipv6_ext_step, ipv6ExtMinLen, ipv6FragmentLen, ipv6ExtUnit.
  wp_go. all: byte_facts; auto with seed; try bool_lia.
  by apply wp_transport; auto with seed.
Qed.

Lemma wp_parseIP b : bytes_ok b → wp (parseIP b) (λ r, packet_ok r.1).
Proof.
  intros Hb. unfold parseIP, parseIPv4, parseIPv6, ipv4MinHeaderLen, ipv6HeaderLen.
  pose proof (len_nonneg b).
  wp_go; cbn [fst]; byte_facts; auto with seed; try bool_lia.
  all: try (unfold packet_ok; simpl; bool_lia).
  - apply wp_transport; [unfold packet_ok; simpl; lia|done].
  - eapply wp_mono; [apply wp_ipv6_ext_walk|]; try done.
    unfold packet_ok. simpl. pose proof (wrap_range 32 (40 + v)). lia.
Qed.

Lemma wp_skip_vlan_tags n etherType b (Q : option (Z * bytes) → Prop) :
  bytes_ok b → Q None → (∀ t b', bytes_ok b' → Q (Some (t, b'))) →
  wp (skip_vlan_tags n etherType b) Q.
Proof.
  intros Hb HN HS. revert etherType b Hb.
  induction n as [|n IH]; intros t b Hb; simpl; [by apply HS|].
  unfold vlanTagLen. wp_go; byte_facts; auto; bool_lia.
Qed.

Lemma wp_parseEthernet b : bytes_ok b → wp (parseEthernet b) (λ r, packet_ok r.1).
Proof.
  intros Hb. unfold parseEthernet, ethHeaderLen.
  wp_go; cbn [fst]; byte_facts; auto with seed; [bool_lia..|].
  apply wp_skip_vlan_tags; [done..|]. intros t b' Hb'.
  wp_go; cbn [fst]; auto with seed. by apply wp_parseIP.
Qed.

(** Parsing the sampled header of any byte string returns a value: no
    index or slice of [parseEthernet], [parseIP] or the IPv6 extension walk
    leaves the packet, however short or malformed it is, and the ports,
    protocol, flags and length it reports fit their Go types. *)
Theorem parseEthernet_returns b :
  bytes_ok b → ∃ p ok, parseEthernet b = Some (p, ok) ∧ packet_ok p.
Proof.
  intros ([p ok] & Hr & Hp)%wp_parseEthernet%wp_elim. by exists p, ok.
Qed.

(** ** Tagged frames *)

Definition vlan_tag (tag : Z * Z) : bytes := put_be16 tag.1 ++ put_be16 tag.2.
Definition vlan_frame (macs : bytes) (tags : list (Z * Z)) (etherType : Z) (payload : bytes) : bytes :=
  macs ++ concat (map vlan_tag tags) ++ put_be16 etherType ++ payload.
Definition tag_ok (tag : Z * Z) : Prop := is_vlan_type tag.1 = true ∧ 0 ≤ tag.2 < 2 ^ 16.

(** What [skip_vlan_tags] sees of a tagged frame: the type that precedes
    each tag's contents, and the bytes behind it. *)
Fixpoint vlan_body (tags : list (Z * Z)) (etherType : Z) (payload : bytes) : Z * bytes :=
  match tags with
  | [] => (etherType, payload)
  | tag :: tags' =>
      let '(t, b) := vlan_body tags' etherType payload in
      (tag.1, put_be16 tag.2 ++ put_be16 t ++ b)
  end.

Lemma vlan_frame_body macs tags etherType payload :
  vlan_frame macs tags etherType payload =
  macs ++ put_be16 (vlan_body tags etherType payload).1 ++ (vlan_body tags etherType payload).2.
Proof.
  unfold vlan_frame. f_equal.
  induction tags as [|tag tags IH]; cbn [map concat vlan_body]; [done|].
  destruct (vlan_body tags etherType payload) as [t b]. cbn [fst snd] in *.
  unfold vlan_tag at 1. by rewrite <-!app_assoc, IH.
Qed.

Lemma vlan_type_range t : is_vlan_type t = true → 0 ≤ t < 2 ^ 16.
Proof.
  unfold is_vlan_type, etherType8021Q, etherType8021AD, etherTypeQinQ. intros. bool_lia.
Qed.

Section tagged.
Context (etherType : Z) (payload : bytes).
Context (Htype : etherType = etherTypeIPv4 ∨ etherType = etherTypeIPv6).

Lemma ip_type_range : 0 ≤ etherType < 2 ^ 16.
Proof using Htype. unfold etherTypeIPv4, etherTypeIPv6 in *. lia. Qed.

Lemma ip_type_not_vlan : is_vlan_type etherType = false.
Proof using Htype. by destruct Htype as [-> | ->]. Qed.

Lemma vlan_body_range tags :
  Forall tag_ok tags → 0 ≤ (vlan_body tags etherType payload).1 < 2 ^ 16.
Proof using Htype.
  intros Htags. destruct tags as [|tag tags]; simpl; [apply ip_type_range|].
  inversion_clear Htags as [|? ? [Ht _] _]. destruct (vlan_body _ _ _). simpl.
  by apply vlan_type_range.
Qed.

(** After the walk: the payload when the tags fit, a tag type otherwise. *)
Lemma skip_vlan_tags_body n tags :
  Forall tag_ok tags →
  ∃ t b, skip_vlan_tags n (vlan_body tags etherType payload).1
           (vlan_body tags etherType payload).2 = Some (Some (t, b)) ∧
         if decide (length tags ≤ n)%nat then t = etherType ∧ b = payload
         else is_vlan_type t = true.
Proof using Htype.
  revert tags. induction n as [|n IH]; intros tags Htags; cbn [skip_vlan_tags].
  { destruct tags as [|tag tags]; [by eexists _, _|].
    inversion_clear Htags as [|? ? [Ht _] _]. simpl.
    destruct (vlan_body _ _ _). eexists _, _. split; done. }
  destruct tags as [|tag tags].
  { simpl. rewrite ip_type_not_vlan. by eexists _, _. }
  inversion_clear Htags as [|? ? [Ht Htci] Htags']. cbn [vlan_body].
  specialize (IH tags Htags'). pose proof (vlan_body_range tags Htags') as Hr.
  destruct (vlan_body tags etherType payload) as [t b]. cbn [fst snd] in *. rewrite Ht. cbn [negb].
  unfold vlanTagLen. rewrite !len_app, !len_put_be16. pose proof (len_nonneg b).
  destruct (Z.ltb_spec (2 + (2 + len b)) 4) as [|_]; [lia|].
  rewrite be16_at_put by done. cbn [mbind option_bind].
  rewrite app_assoc, slice_from_app by done. cbn [mbind option_bind]. destruct IH as (t' & b' & Hs & Hif).
  exists t', b'. split; [done|].
  revert Hif. simpl. repeat case_decide; simpl in *; try done; lia.
Qed.
End tagged.

(** An Ethernet frame carrying up to four 802.1Q/802.1ad/QinQ tags is
    parsed as the IP packet behind its tags, and a frame with more tags than
    that is rejected as not IP, whatever its addresses and tag contents. *)
Theorem parseEthernet_tagged macs tags etherType payload :
  length macs = 12%nat → Forall tag_ok tags →
  etherType = etherTypeIPv4 ∨ etherType = etherTypeIPv6 →
  parseEthernet (vlan_frame macs tags etherType payload) =
  if decide (length tags ≤ maxVLANTags)%nat then parseIP payload
  else Some (packet_zero, false).
Proof.
  intros Hm Htags Htype. rewrite vlan_frame_body. unfold parseEthernet, ethHeaderLen.
  pose proof (vlan_body_range etherType payload Htype tags Htags) as Hr.
  destruct (skip_vlan_tags_body etherType payload Htype maxVLANTags tags Htags)
    as (t & b & Hskip & Hif).
  destruct (vlan_body tags etherType payload) as [t0 b0]. cbn [fst snd] in Hr, Hskip |- *.
  assert (len macs = 12) by (unfold len; lia). pose proof (len_nonneg b0).
  rewrite !len_app, len_put_be16.
  destruct (Z.ltb_spec (len macs + (2 + len b0)) 14) as [|_]; [lia|].
  rewrite be16_at_put by done. cbn [mbind option_bind].
  rewrite app_assoc, slice_from_app by (rewrite len_app; rewrite len_put_be16; lia).
  cbn [mbind option_bind]. rewrite Hskip. cbn [mbind option_bind].
  destruct (decide (length tags ≤ maxVLANTags)%nat).
  - destruct Hif as [-> ->]. destruct Htype as [-> | ->]; done.
  - assert (negb (t =? etherTypeIPv4) && negb (t =? etherTypeIPv6) = true) as ->; [|done].
    revert Hif. unfold is_vlan_type, etherType8021Q, etherType8021AD, etherTypeQinQ,
      etherTypeIPv4, etherTypeIPv6. lia.
Qed.

(** An IPv4/TCP packet behind two tags. *)
Definition sample_ipv4 : bytes :=
  [0x45;0;0;40; 0;0;0;0; 64;6;0;0; 10;0;0;1; 10;0;0;2; 0x1F;0x90;0;80; 0;0;0;1; 0;0;0;0;
   0x50;0x12;0;0; 0;0;0;0].

Lemma parseEthernet_returns_witness :
  bytes_ok [1;2;3] ∧ ∃ p ok, parseEthernet [1;2;3] = Some (p, ok) ∧ packet_ok p.
Proof.
  assert (bytes_ok [1;2;3]) as H by (repeat constructor; unfold is_byte; lia).
  split; [exact H|exact (parseEthernet_returns _ H)].
Defined.

Lemma parseEthernet_tagged_witness :
  let macs := [0;1;2;3;4;5;6;7;8;9;10;11] in
  let tags := [(etherType8021AD, 100); (etherType8021Q, 7)] in
  Forall tag_ok tags ∧
  parseEthernet (vlan_frame macs tags etherTypeIPv4 sample_ipv4) =
  Some (PacketInfo (Addr4 [10;0;0;1]) (Addr4 [10;0;0;2]) 8080 80 6 0x12 40, true).
Proof.
  assert (Forall tag_ok [(etherType8021AD, 100); (etherType8021Q, 7)]) as H
    by (repeat constructor; simpl; lia).
  split; [exact H|].
  exact (parseEthernet_tagged [0;1;2;3;4;5;6;7;8;9;10;11] _ _ sample_ipv4 eq_refl H
           (or_introl eq_refl)).
Defined.
