(* ===== verification/FlowSFlow.v ===== *)
(** * sFlow v5 datagrams (src/internal/listener/flow/sflow.go)

    An sFlow datagram is XDR: big-endian words and opaques padded to a word.
    [xdr] is the reader, whose first short read is remembered and makes every
    later read return zero; [decodeSFlow] turns the flow samples of a
    datagram into records. *)
From Stdlib Require Import ZArith Lia.
From stdpp Require Import base gmap sets list strings.
From S2P Require Import Prelude GoBase FlowTypes FlowHeader.

Definition sflowAddrIPv4 : Z := 1.
Definition sflowAddrIPv6 : Z := 2.
Definition sflowFlowSample : Z := 1.
Definition sflowExpandedFlowSample : Z := 3.
Definition sflowSampledHeader : Z := 1.
Definition sflowSampledIPv4 : Z := 3.
Definition sflowSampledIPv6 : Z := 4.
Definition sflowHeaderEthernet : Z := 1.
Definition sflowHeaderIPv4 : Z := 11.
Definition sflowHeaderIPv6 : Z := 12.
Definition sflowIfFormatShift : Z := 30.
Definition sflowIfIndexMask : Z := 0x3FFFFFFF.
Definition sflowEnterpriseShift : Z := 12.
Definition sflowFormatMask : Z := 0xFFF.
Definition xdrWord : Z := 4.
Definition net4Len : Z := 4.
Definition net16Len : Z := 16.

(** [xdr] *)
Record xdr : Type := Xdr {
  xb : bytes;
  xerr : option flow_error;
}.

(** [xdr.take]: the next [n] bytes, skipping the padding to a word. The
    value is [None] for Go's nil after an error. *)
Definition xdr_take (x : xdr) (n : Z) : option (option bytes * xdr) :=
  match xerr x with
  | Some _ => Some (None, x)
  | None =>
      let padded := Z.ldiff (n + xdrWord - 1) (xdrWord - 1) in
      if (n <? 0) || (len (xb x) <? padded)
      then Some (None, Xdr (xb x) (Some ErrTruncated))
      else
        b ← slice (xb x) 0 n;
        rest ← slice_from (xb x) padded;
        Some (Some b, Xdr rest None)
  end.

Definition xdr_u32 (x : xdr) : option (Z * xdr) :=
  '(b, x) ← xdr_take x xdrWord;
  match b with
  | None => Some (0, x)
  | Some b => v ← be32 b; Some (v, x)
  end.

(** [xdr.fail] *)
Definition xdr_fail (x : xdr) : xdr :=
  match xerr x with
  | None => Xdr (xb x) (Some ErrMalformed)
  | Some _ => x
  end.

Definition xdr_u8 (x : xdr) : option (Z * xdr) :=
  '(v, x) ← xdr_u32 x;
  if 255 <? v then Some (0, xdr_fail x) else Some (v, x).

Definition xdr_u16 (x : xdr) : option (Z * xdr) :=
  '(v, x) ← xdr_u32 x;
  if 65535 <? v then Some (0, xdr_fail x) else Some (v, x).

Definition xdr_opaque (x : xdr) : option (option bytes * xdr) :=
  '(n, x) ← xdr_u32 x;
  xdr_take x n.

Definition xdr_addr (x : xdr) : option (Addr * xdr) :=
  '(t, x) ← xdr_u32 x;
  if t =? 0 then Some (AddrInvalid, x)
  else if t =? sflowAddrIPv4 then
    '(b, x) ← xdr_take x net4Len;
    match b with
    | Some b => a ← addr_from4 b; Some (a, x)
    | None => Some (AddrInvalid, x)
    end
  else if t =? sflowAddrIPv6 then
    '(b, x) ← xdr_take x net16Len;
    match b with
    | Some b => a ← addr_from16 b; Some (addr_unmap a, x)
    | None => Some (AddrInvalid, x)
    end
  else Some (AddrInvalid, xdr_fail x).

Definition compactInterface (v : Z) : Z :=
  if negb (Z.shiftr v sflowIfFormatShift =? 0)
     || (Z.land v sflowIfIndexMask =? sflowIfIndexMask)
  then 0 else v.

Definition expandedInterface (format value : Z) : Z :=
  if negb (format =? 0) || (value =? sflowIfIndexMask) then 0 else value.

(** The bytes of an opaque; Go reads a nil slice as empty. *)
Definition opaque_bytes (b : option bytes) : bytes := default [] b.

Definition sampledIP (x : xdr) (addrLen : Z) : option (packetInfo * xdr) :=
  '(length, x) ← xdr_u32 x;
  '(protocol, x) ← xdr_u8 x;
  '(src, x) ← xdr_take x addrLen;
  '(dst, x) ← xdr_take x addrLen;
  '(srcPort, x) ← xdr_u16 x;
  '(dstPort, x) ← xdr_u16 x;
  '(tcpFlags, x) ← xdr_u8 x;
  match xerr x with
  | Some _ => Some (packet_zero, x)
  | None =>
      Some (PacketInfo (addr_from_slice (opaque_bytes src)).1
              (addr_from_slice (opaque_bytes dst)).1
              srcPort dstPort protocol tcpFlags length, x)
  end.

Definition sampledHeader (x : xdr) : option (packetInfo * bool * xdr) :=
  '(proto, x) ← xdr_u32 x;
  '(_, x) ← xdr_u32 x;
  '(_, x) ← xdr_u32 x;
  '(header, x) ← xdr_opaque x;
  match xerr x with
  | Some _ => Some (packet_zero, false, x)
  | None =>
      if proto =? sflowHeaderEthernet then
        '(p, ok) ← parseEthernet (opaque_bytes header); Some (p, ok, x)
      else if (proto =? sflowHeaderIPv4) || (proto =? sflowHeaderIPv6) then
        '(p, ok) ← parseIP (opaque_bytes header); Some (p, ok, x)
      else Some (packet_zero, false, x)
  end.

(** The variables of [readFlowRecords]'s loop. *)
Record frState : Type := FrState {
  fr_left : Z;
  fr_x : xdr;
  fr_ip : packetInfo;
  fr_found : bool;
  fr_explicit : bool;
}.

(** One flow record: the reader of its body, and the key it leaves. *)
Definition read_flow_record (s : frState) (kind : Z) (r : xdr)
    : option (packetInfo * bool * bool * xdr) :=
  if kind =? sflowSampledHeader then
    if fr_explicit s then Some (fr_ip s, fr_found s, fr_explicit s, r)
    else
      '(p, ok, r) ← sampledHeader r;
      if (ok : bool) then Some (p, true, fr_explicit s, r)
      else Some (fr_ip s, fr_found s, fr_explicit s, r)
  else if kind =? sflowSampledIPv4 then
    '(p, r) ← sampledIP r net4Len; Some (p, true, true, r)
  else if kind =? sflowSampledIPv6 then
    '(p, r) ← sampledIP r net16Len; Some (p, true, true, r)
  else Some (fr_ip s, fr_found s, fr_explicit s, r).

Definition readFlowRecords_body (s : frState)
    : option (outcome frState (packetInfo * bool * option flow_error * xdr)) :=
  if fr_left s <=? 0 then Some (Leave (fr_ip s, fr_found s, None, fr_x s))
  else
    '(format, x) ← xdr_u32 (fr_x s);
    '(body, x) ← xdr_opaque x;
    match xerr x with
    | Some e => Some (Leave (packet_zero, false, Some e, x))
    | None =>
        if negb (Z.shiftr format sflowEnterpriseShift =? 0) then
          Some (Next (FrState (fr_left s - 1) x (fr_ip s) (fr_found s) (fr_explicit s)))
        else
          '(ip, found, explicit, r) ←
             read_flow_record s (Z.land format sflowFormatMask) (Xdr (opaque_bytes body) None);
          match xerr r with
          | Some _ => Some (Leave (packet_zero, false, Some ErrMalformed, x))
          | None => Some (Next (FrState (fr_left s - 1) x ip found explicit))
          end
    end.

Definition readFlowRecords (x : xdr) (count : Z)
    : option (packetInfo * bool * option flow_error * xdr) :=
  for_loop (S (length (xb x))) readFlowRecords_body (FrState count x packet_zero false false).

(** The interface words of a flow sample, in either layout. *)
Definition sample_interfaces (x : xdr) (expanded : bool) : option (Z * Z * xdr) :=
  if expanded then
    '(f1, x) ← xdr_u32 x;
    '(v1, x) ← xdr_u32 x;
    '(f2, x) ← xdr_u32 x;
    '(v2, x) ← xdr_u32 x;
    Some (expandedInterface f1 v1, expandedInterface f2 v2, x)
  else
    '(v1, x) ← xdr_u32 x;
    '(v2, x) ← xdr_u32 x;
    Some (compactInterface v1, compactInterface v2, x).

(** [decodeFlowSample]; the record's identity and times are the caller's. *)
Definition decodeFlowSample (x : xdr) (expanded : bool)
    : option (FlowRecord * bool * option flow_error) :=
  let empty := {| Exporter := AddrInvalid; FlowFormat := FormatSFlow5; ObservationDomain := 0;
                  Start := time_zero; End_ := time_zero; SrcAddr := AddrInvalid;
                  DstAddr := AddrInvalid; SrcPort := 0; DstPort := 0; Protocol := 0;
                  TCPFlags := 0; Bytes := 0; Packets := 0; InputIf := 0; OutputIf := 0 |} in
  '(_, x) ← xdr_u32 x;
  x ← (if expanded then '(_, x) ← xdr_u32 x; Some x else Some x);
  '(_, x) ← xdr_u32 x;
  '(rate, x) ← xdr_u32 x;
  '(_, x) ← xdr_u32 x;
  '(_, x) ← xdr_u32 x;
  '(inIf, outIf, x) ← sample_interfaces x expanded;
  '(count, x) ← xdr_u32 x;
  match xerr x with
  | Some e => Some (empty, false, Some e)
  | None =>
      let rate := if rate =? 0 then 1 else rate in
      '(ip, found, err, _) ← readFlowRecords x count;
      match err with
      | Some e => Some (empty, false, Some e)
      | None =>
          if negb found then Some (empty, false, None)
          else
            Some ({| Exporter := AddrInvalid; FlowFormat := FormatSFlow5;
                     ObservationDomain := 0; Start := time_zero; End_ := time_zero;
                     SrcAddr := pi_src ip; DstAddr := pi_dst ip;
                     SrcPort := pi_srcPort ip; DstPort := pi_dstPort ip;
                     Protocol := pi_protocol ip; TCPFlags := pi_tcpFlags ip;
                     Bytes := wrap 64 (pi_length ip * rate); Packets := rate;
                     InputIf := inIf; OutputIf := outIf |}, true, None)
      end
  end.

(** The fields [decodeSFlow] sets on a decoded sample. *)
Definition stamp_sflow (rec : FlowRecord) (agent : Addr) (subAgent now : Z) : FlowRecord :=
  {| Exporter := agent; FlowFormat := FormatSFlow5; ObservationDomain := subAgent;
     Start := now; End_ := now; SrcAddr := SrcAddr rec; DstAddr := DstAddr rec;
     SrcPort := SrcPort rec; DstPort := DstPort rec; Protocol := Protocol rec;
     TCPFlags := TCPFlags rec; Bytes := Bytes rec; Packets := Packets rec;
     InputIf := InputIf rec; OutputIf := OutputIf rec |}.

Record sfState : Type := SfState {
  sf_left : Z;
  sf_x : xdr;
  sf_res : Result;
}.

(** One sample of the datagram. *)
Definition decodeSFlow_body (agent : Addr) (subAgent now : Z) (s : sfState)
    : option (outcome sfState (Result * option flow_error)) :=
  if sf_left s <=? 0 then Some (Leave (sf_res s, None))
  else
    '(format, x) ← xdr_u32 (sf_x s);
    '(body, x) ← xdr_opaque x;
    match xerr x with
    | Some e => Some (Leave (sf_res s, Some e))
    | None =>
        let kind := Z.land format sflowFormatMask in
        if negb (Z.shiftr format sflowEnterpriseShift =? 0)
           || (negb (kind =? sflowFlowSample) && negb (kind =? sflowExpandedFlowSample))
        then Some (Next (SfState (sf_left s - 1) x (sf_res s)))
        else
          '(rec, ok, err) ← decodeFlowSample (Xdr (opaque_bytes body) None)
                              (kind =? sflowExpandedFlowSample);
          match err with
          | Some e => Some (Leave (sf_res s, Some e))
          | None =>
              if negb ok then Some (Next (SfState (sf_left s - 1) x (sf_res s)))
              else Some (Next (SfState (sf_left s - 1) x
                           (add_record (sf_res s) (stamp_sflow rec agent subAgent now))))
          end
    end.

Definition decodeSFlow (from : Addr) (pkt : bytes) (now : Z)
    : option (Result * option flow_error) :=
  '(v, x) ← xdr_u32 (Xdr pkt None);
  if negb (v =? VersionSFlow5) && bool_decide (xerr x = None)
  then Some (result_zero, Some ErrUnsupportedVersion)
  else
    '(agent, x) ← xdr_addr x;
    '(subAgent, x) ← xdr_u32 x;
    '(_, x) ← xdr_u32 x;
    '(_, x) ← xdr_u32 x;
    '(count, x) ← xdr_u32 x;
    match xerr x with
    | Some e => Some (result_zero, Some e)
    | None =>
        let agent := if addr_is_valid agent then agent else from in
        for_loop (S (length pkt)) (decodeSFlow_body agent subAgent now)
          (SfState count x result_zero)
    end.

(** ** The reader *)

(** [x'] is [x] after reading at least [k] bytes, unless an error is
    recorded; an error is never cleared. *)
Definition xdr_adv (k : Z) (x x' : xdr) : Prop :=
  xb x' ⊆ xb x ∧ len (xb x') ≤ len (xb x) ∧
  (xerr x' = None → xerr x = None ∧ len (xb x') + k ≤ len (xb x)).

Lemma xdr_adv_trans k1 k2 x1 x2 x3 :
  xdr_adv k1 x1 x2 → xdr_adv k2 x2 x3 → xdr_adv (k1 + k2) x1 x3.
Proof.
  intros (S1 & L1 & E1) (S2 & L2 & E2). split_and!; [by etrans|lia|].
  intros [? ?]%E2. destruct E1; [done|]. split; [done|lia].
Qed.

Lemma xdr_adv_weaken k k' x x' : k' ≤ k → xdr_adv k x x' → xdr_adv k' x x'.
Proof. intros Hk (? & ? & E). split_and!; [done..|]. intros [??]%E. split; [done|lia]. Qed.

Lemma xdr_padded n : Z.ldiff (n + xdrWord - 1) (xdrWord - 1) = (n + 3) / 4 * 4.
Proof.
  unfold xdrWord. change (4 - 1) with (Z.ones 2). rewrite Z.ldiff_ones_r by lia.
  rewrite Z.shiftl_mul_pow2, Z.shiftr_div_pow2 by lia. f_equal. f_equal. lia.
Qed.

Lemma wp_xdr_take x n :
  wp (xdr_take x n) (λ r, xdr_adv n x r.2 ∧ opaque_bytes r.1 ⊆ xb x ∧
    match r.1 with Some b => len b = n ∧ 0 ≤ n | None => is_Some (xerr r.2) end).
Proof.
  unfold xdr_take. destruct (xerr x) as [e|] eqn:Ex; simpl.
  { split_and!; [|set_solver|rewrite Ex; eauto]. split_and!; [done|done|]. congruence. }
  rewrite xdr_padded. wp_step; simpl.
  { split_and!; [|set_solver|eauto]. split_and!; done. }
  apply orb_false_iff in E as [En El].
  pose proof (Z.div_mod (n + 3) 4). pose proof (Z.mod_pos_bound (n + 3) 4).
  wp_go; simpl; [lia..|]. split_and!; [|done|lia|lia].
  split_and!; simpl; [done|lia|]. intros _. split; [done|lia].
Qed.

Lemma wp_xdr_u32 x :
  wp (xdr_u32 x) (λ r, xdr_adv 4 x r.2 ∧ (bytes_ok (xb x) → 0 ≤ r.1 < 2 ^ 32)).
Proof.
  eapply wp_bind_spec; [apply wp_xdr_take|]. intros [[b|] x'] (Ha & Hs & Hb); simpl in *.
  - unfold xdrWord in *. apply wp_bind, wp_be32; [lia|]. intros v Hv. simpl. split; [done|].
    intros Hok. apply Hv. by eapply bytes_ok_sub.
  - split; [done|lia].
Qed.

Lemma xdr_fail_adv k x x' : xdr_adv k x x' → xdr_adv k x (xdr_fail x').
Proof. unfold xdr_fail. intros H. destruct x' as [b [e|]]; [done|]. by destruct H as (?&?&_). Qed.

Lemma wp_xdr_narrow x m :
  0 ≤ m →
  wp ('(v, x) ← xdr_u32 x; if m <? v then Some (0, xdr_fail x) else Some (v, x))
     (λ r, xdr_adv 4 x r.2 ∧ (bytes_ok (xb x) → 0 ≤ r.1 ≤ m)).
Proof.
  intros Hm. eapply wp_bind_spec; [apply wp_xdr_u32|]. intros [v x'] [Ha Hv]; simpl in *.
  wp_step; simpl; (split; [by try apply xdr_fail_adv|intros Hb; specialize (Hv Hb); lia]).
Qed.

Lemma wp_xdr_u8 x :
  wp (xdr_u8 x) (λ r, xdr_adv 4 x r.2 ∧ (bytes_ok (xb x) → 0 ≤ r.1 ≤ 255)).
Proof. by apply wp_xdr_narrow. Qed.

Lemma wp_xdr_u16 x :
  wp (xdr_u16 x) (λ r, xdr_adv 4 x r.2 ∧ (bytes_ok (xb x) → 0 ≤ r.1 ≤ 65535)).
Proof. by apply wp_xdr_narrow. Qed.

Lemma wp_xdr_opaque x :
  wp (xdr_opaque x) (λ r, xdr_adv 4 x r.2 ∧ opaque_bytes r.1 ⊆ xb x).
Proof.
  eapply wp_bind_spec; [apply wp_xdr_u32|]. intros [n x1] [Ha _].
  eapply wp_mono; [apply wp_xdr_take|]. intros [b x2] (Ha' & Hs & Hb); simpl in *.
  destruct Ha as (S1 & L1 & E1). split; [|by etrans].
  destruct Ha' as (S2 & L2 & E2). split_and!; [by etrans|lia|].
  intros Hx. destruct E2 as [Hx1 ?]; [done|]. destruct E1 as [? ?]; [done|]. split; [done|].
  destruct b; [lia|]. destruct Hb as [e He]. congruence.
Qed.

Lemma xdr_adv_ok k x x' : bytes_ok (xb x) → xdr_adv k x x' → bytes_ok (xb x').
Proof. intros Hb (Hs & _). by eapply bytes_ok_sub. Qed.

(** One read of the reader [x], keeping what it advanced by. *)
Ltac xdr_step :=
  let x' := fresh "x" in let v := fresh "v" in
  let Ha := fresh "Ha" in let Hv := fresh "Hv" in
  eapply wp_bind_spec;
    [first [apply wp_xdr_u32|apply wp_xdr_u8|apply wp_xdr_u16|apply wp_xdr_opaque
           |apply wp_xdr_take]|];
  intros [v x'] [Ha Hv]; cbn [fst snd] in *;
  repeat match goal with
  | Hb : bytes_ok (xb ?x), H : xdr_adv _ ?x ?x' |- _ =>
      lazymatch goal with
      | _ : bytes_ok (xb x') |- _ => fail
      | _ => pose proof (xdr_adv_ok _ _ _ Hb H)
      end
  end.

Lemma wp_xdr_addr x : wp (xdr_addr x) (λ r, xdr_adv 4 x r.2).
Proof.
  unfold xdr_addr, net4Len, net16Len. xdr_step.
  assert (∀ k x1, 0 ≤ k → xdr_adv k x0 x1 → xdr_adv 4 x x1) as Htrans.
  { intros k x1 Hk Hx1. eapply xdr_adv_weaken; [|by eapply xdr_adv_trans]. lia. }
  wp_step; [done|]. wp_step; [|wp_step; [|by apply xdr_fail_adv]].
  all: eapply wp_bind_spec; [apply wp_xdr_take|]; intros [[b|] x1] (Hb & _ & Hl); simpl in *.
  all: try (eapply Htrans; [|done]; lia).
  all: wp_go; cbn [snd]; eapply Htrans; [|done]; lia.
Qed.

(** ** A sampled packet *)

Lemma wp_sampledIP x n : bytes_ok (xb x) → wp (sampledIP x n) (λ r, packet_ok r.1).
Proof.
  intros Hb. unfold sampledIP. do 7 xdr_step.
  wp_step; simpl; [apply packet_zero_ok|].
  byte_facts. unfold packet_ok. simpl. lia.
Qed.

Lemma wp_sampledHeader x : bytes_ok (xb x) → wp (sampledHeader x) (λ r, packet_ok r.1.1).
Proof.
  intros Hb. unfold sampledHeader. do 4 xdr_step.
  assert (bytes_ok (opaque_bytes v2)) as Hh by (eapply bytes_ok_sub; [|done]; done).
  wp_step; [apply packet_zero_ok|].
  repeat wp_step; try apply packet_zero_ok.
  all: eapply wp_mono; [by first [apply wp_parseEthernet|apply wp_parseIP]|by intros []].
Qed.

Lemma wp_read_flow_record s kind r :
  packet_ok (fr_ip s) → bytes_ok (xb r) →
  wp (read_flow_record s kind r) (λ q, packet_ok q.1.1.1).
Proof.
  intros Hp Hr. unfold read_flow_record. repeat wp_step; try done.
  1: eapply wp_mono; [by apply wp_sampledHeader|]; intros [[p []] x']; done.
  all: eapply wp_mono; [by apply wp_sampledIP|]; by intros [].
Qed.

Lemma wp_readFlowRecords x count :
  bytes_ok (xb x) → wp (readFlowRecords x count) (λ q, packet_ok q.1.1.1).
Proof.
  intros Hb. unfold readFlowRecords.
  apply (wp_for_loop _ (λ s, bytes_ok (xb (fr_x s)) ∧ packet_ok (fr_ip s))
           (λ s, length (xb (fr_x s)))); [|split; [done|apply packet_zero_ok]|simpl; lia].
  intros [n x0 ip found explicit] [Hx Hp]. simpl in *. unfold readFlowRecords_body.
  cbn [fr_left fr_x fr_ip fr_found fr_explicit].
  wp_step; [done|]. do 2 xdr_step.
  assert (xdr_adv 8 x0 x2) as (_ & _ & Hadv) by (by eapply (xdr_adv_trans 4 4)).
  assert (bytes_ok (opaque_bytes v0)) as Hvb by (eapply bytes_ok_sub; [|done]; done).
  wp_step; [apply packet_zero_ok|]. destruct Hadv as [_ Hlen]; [done|]. unfold len in Hlen.
  wp_step; [by split; [|simpl; lia]|].
  eapply wp_bind_spec; [by apply wp_read_flow_record|]. intros [[[p f] e] r] Hq.
  wp_step; simpl; [apply packet_zero_ok|by split; [|lia]].
Qed.

(** ** Samples and datagrams *)

(** What a record of an sFlow sample states: the rate and the scaled bytes. *)
Definition sample_ok (r : FlowRecord) : Prop :=
  record_ok r ∧ 1 ≤ Packets r < 2 ^ 32 ∧ ∃ n, 0 ≤ n < 2 ^ 32 ∧ Bytes r = n * Packets r.

Lemma wp_sample_interfaces x expanded :
  wp (sample_interfaces x expanded) (λ r, xdr_adv 0 x r.2).
Proof.
  unfold sample_interfaces. destruct expanded.
  - do 4 xdr_step. simpl. eapply (xdr_adv_weaken (4 + (4 + (4 + 4)))); [lia|].
    by repeat (eapply xdr_adv_trans; [done|]).
  - do 2 xdr_step. simpl. eapply (xdr_adv_weaken (4 + 4)); [lia|].
    by eapply xdr_adv_trans.
Qed.

Lemma wp_decodeFlowSample x expanded :
  bytes_ok (xb x) →
  wp (decodeFlowSample x expanded) (λ q, q.1.2 = true → sample_ok q.1.1).
Proof.
  intros Hb. unfold decodeFlowSample. cbv zeta. xdr_step.
  apply (wp_bind_spec _ _ (λ x1, bytes_ok (xb x1))).
  { destruct expanded; [|done]. by xdr_step. }
  intros x1 Hx1. do 4 xdr_step.
  eapply wp_bind_spec; [apply wp_sample_interfaces|]. intros [[inIf outIf] x6] Ha6.
  cbn [snd] in Ha6. assert (bytes_ok (xb x6)) as Hx6 by (by eapply xdr_adv_ok).
  xdr_step. wp_step; [done|].
  eapply wp_bind_spec; [by apply wp_readFlowRecords|]. intros [[[ip found] err] x8] Hip.
  cbn [fst] in Hip. wp_step; [done|]. wp_step; [done|]. byte_facts.
  simpl. intros _.
  set (rate := if v1 =? 0 then 1 else v1).
  assert (1 ≤ rate < 2 ^ 32) as Hrate by (subst rate; destruct (Z.eqb_spec v1 0); lia).
  destruct Hip as (? & ? & ? & ? & ?).
  assert (wrap 64 (pi_length ip * rate) = pi_length ip * rate) as Hw by (apply wrap_small; nia).
  split_and!; simpl; [|lia|lia|].
  - unfold record_ok. simpl. rewrite Hw. split_and!; try lia; nia.
  - exists (pi_length ip). rewrite Hw. lia.
Qed.

(** What a record of the datagram states besides. *)
Definition sflow_record_ok (now : Z) (r : FlowRecord) : Prop :=
  sample_ok r ∧ Start r = now ∧ End_ r = now ∧ FlowFormat r = FormatSFlow5.

Definition sflow_inv (pkt : bytes) (now : Z) (x : xdr) (res : Result) : Prop :=
  bytes_ok (xb x) ∧ Forall (sflow_record_ok now) (Records res) ∧
  8 * len (Records res) + len (xb x) ≤ len pkt.

Lemma wp_decodeSFlow_body pkt agent subAgent now s :
  sflow_inv pkt now (sf_x s) (sf_res s) →
  wp (decodeSFlow_body agent subAgent now s) (λ o,
    match o with
    | Next s' => sflow_inv pkt now (sf_x s') (sf_res s') ∧
                 (length (xb (sf_x s')) < length (xb (sf_x s)))%nat
    | Leave r => Forall (sflow_record_ok now) (Records r.1) ∧ 8 * len (Records r.1) ≤ len pkt
    end).
Proof.
  destruct s as [n x res]. intros (Hb & Hr & Hl). simpl in Hb, Hr, Hl.
  pose proof (len_nonneg (xb x)). unfold decodeSFlow_body. cbn [sf_left sf_x sf_res].
  wp_step; [simpl; split; [done|lia]|]. do 2 xdr_step.
  assert (xdr_adv 8 x x1) as (_ & _ & Hadv) by (by eapply (xdr_adv_trans 4 4)).
  assert (bytes_ok (opaque_bytes v0)) as Hvb by (eapply bytes_ok_sub; [|done]; done).
  wp_step; [simpl; split; [done|lia]|]. destruct Hadv as [_ Hlen]; [done|].
  assert (∀ res', Forall (sflow_record_ok now) (Records res') →
            len (Records res') ≤ len (Records res) + 1 →
            sflow_inv pkt now x1 res' ∧ (length (xb x1) < length (xb x))%nat) as Hnext.
  { intros res' ? ?. unfold sflow_inv, len in *. split_and!; [done|done|lia|lia]. }
  wp_step; [simpl; apply Hnext; [done|lia]|].
  eapply wp_bind_spec; [by apply wp_decodeFlowSample|]. intros [[rec ok] err] Hrec.
  wp_step; [simpl; split; [done|lia]|].
  wp_step; simpl; [apply Hnext; [done|lia]|].
  apply Hnext; simpl; [|rewrite len_app; unfold len; simpl; lia].
  apply Forall_app. split; [done|]. apply Forall_singleton.
  destruct ok; [|done]. destruct Hrec as (? & ? & ?); [done|].
  by split_and!.
Qed.

(** What [decodeSFlow] returns, for the datagram decoder. *)
Lemma decodeSFlow_bounded from pkt now :
  bytes_ok pkt →
  ∃ res err, decodeSFlow from pkt now = Some (res, err) ∧
    Forall (sflow_record_ok now) (Records res) ∧ 8 * len (Records res) ≤ len pkt.
Proof.
  intros Hb. cut (wp (decodeSFlow from pkt now) (λ r,
    Forall (sflow_record_ok now) (Records r.1) ∧ 8 * len (Records r.1) ≤ len pkt)).
  { intros ([res err] & ? & ?)%wp_elim. by exists res, err. }
  assert (Forall (sflow_record_ok now) (Records result_zero) ∧
          8 * len (Records result_zero) ≤ len pkt) as Hzero.
  { split; [constructor|]. unfold len. simpl. lia. }
  change (bytes_ok (xb (Xdr pkt None))) in Hb. unfold decodeSFlow. xdr_step. wp_step; [done|].
  eapply wp_bind_spec; [apply wp_xdr_addr|]. intros [agent x1] Ha1. cbn [snd] in Ha1.
  assert (bytes_ok (xb x1)) as Hx1 by (by eapply xdr_adv_ok).
  do 4 xdr_step. wp_step; [done|].
  assert (len (xb x4) ≤ len pkt) as Hl4.
  { destruct Ha as (_&?&_), Ha1 as (_&?&_), Ha0 as (_&?&_), Ha2 as (_&?&_),
      Ha3 as (_&?&_), Ha4 as (_&?&_). simpl in *. lia. }
  apply (wp_for_loop _ (λ s, sflow_inv pkt now (sf_x s) (sf_res s))
           (λ s, length (xb (sf_x s)))); simpl.
  - intros s Hs. by apply wp_decodeSFlow_body.
  - split_and!; simpl; [done|constructor|]. unfold len in *. simpl. lia.
  - unfold len in *. lia.
Qed.

(** Decoding any sFlow datagram returns: no read leaves the packet, the
    sample and record loops end, and each decoded record is a sample of the
    datagram stamped with the receive time, whose packet count is the
    sampling rate and whose byte count is an IP length times that rate
    without overflow. A datagram of [n] bytes yields at most [n / 8]
    records, whatever counts it declares. *)
Theorem decodeSFlow_returns from pkt now :
  bytes_ok pkt →
  ∃ res err, decodeSFlow from pkt now = Some (res, err) ∧
    Forall (sflow_record_ok now) (Records res) ∧ 8 * len (Records res) ≤ len pkt.
Proof. exact (decodeSFlow_bounded from pkt now). Qed.

(** A datagram with one flow sample of a TCP packet, sampled 1 in 100. *)
Definition sample_datagram : bytes :=
  [0;0;0;5; 0;0;0;1; 10;0;0;254; 0;0;0;2; 0;0;0;9; 0;0;0;100; 0;0;0;1] ++
  [0;0;0;1; 0;0;0;96; 0;0;0;1; 0;0;0;3; 0;0;0;100; 0;0;0;0; 0;0;0;0; 0;0;0;3; 0;0;0;4; 0;0;0;1;
   0;0;0;1; 0;0;0;56; 0;0;0;11; 0;0;0;40; 0;0;0;0; 0;0;0;40] ++ sample_ipv4.

Example decodeSFlow_sample :
  (λ r, (map (λ q, (SrcAddr q, SrcPort q, Packets q, Bytes q, InputIf q)) (Records r.1), r.2))
    <$> decodeSFlow AddrInvalid sample_datagram 7 =
  Some ([(Addr4 [10;0;0;1], 8080, 100, 4000, 3)], None).
Proof. vm_compute. reflexivity. Qed.

Lemma decodeSFlow_returns_witness :
  ∃ res err, decodeSFlow AddrInvalid sample_datagram 7 = Some (res, err) ∧
    Forall (sflow_record_ok 7) (Records res) ∧ 8 * len (Records res) ≤ len sample_datagram.
Proof.
  refine (decodeSFlow_returns AddrInvalid sample_datagram 7 _).
  repeat constructor; unfold is_byte; lia.
Defined.
