(* ===== verification/FlowState.v ===== *)
(** * The flow decoder's caches (src/internal/listener/flow: the state of
    decode.go and sampling.go)

    A [Decoder] remembers, per exporter and observation domain, the templates
    its exporters announced, their boot times and their sampling rates. This
    file models that state, the operations that learn, withdraw, look up and
    evict entries, and the sampling arithmetic. *)
From Stdlib Require Import ZArith Lia.
From stdpp Require Import base gmap sets list strings.
From S2P Require Import Prelude GoBase FlowTypes.

Definition ipfixTemplateSet : Z := 2.
Definition ipfixOptionsTemplate : Z := 3.
Definition minDataSetID : Z := 256.
Definition variableLength : Z := 0xFFFF.
Definition maxTemplateFields : Z := 256.
Definition maxTemplates : Z := 4096.
Definition templateLifetime : Z := hour.

(** ** Keys and entries *)

(** [templateKey] *)
Record templateKey : Type := TemplateKey {
  tk_exporter : Addr;
  tk_version : Z;
  tk_domain : Z;
  tk_id : Z;
}.

(** [domainKey] *)
Record domainKey : Type := DomainKey {
  dk_exporter : Addr;
  dk_domain : Z;
}.

(** [rateScope] *)
Inductive rateScope : Type :=
| scopeSampler
| scopeInterface
| scopeDomain.

(** [rateKey] *)
Record rateKey : Type := RateKey {
  rk_exporter : Addr;
  rk_domain : Z;
  rk_scope : rateScope;
  rk_id : Z;
}.

#[export] Instance templateKey_eq_dec : EqDecision templateKey.
Proof. solve_decision. Defined.
#[export] Instance templateKey_countable : Countable templateKey.
Proof.
  refine (inj_countable' (λ k, (tk_exporter k, tk_version k, tk_domain k, tk_id k))
    (λ '(e, v, d, i), TemplateKey e v d i) _). by intros [].
Defined.
#[export] Instance domainKey_eq_dec : EqDecision domainKey.
Proof. solve_decision. Defined.
#[export] Instance domainKey_countable : Countable domainKey.
Proof.
  refine (inj_countable' (λ k, (dk_exporter k, dk_domain k)) (λ '(e, d), DomainKey e d) _).
  by intros [].
Defined.
#[export] Instance rateScope_eq_dec : EqDecision rateScope.
Proof. solve_decision. Defined.
#[export] Instance rateScope_countable : Countable rateScope.
Proof.
  refine (inj_countable'
    (λ s, match s with scopeSampler => inl () | scopeInterface => inr (inl ())
          | scopeDomain => inr (inr ()) end)
    (λ x, match x with inl _ => scopeSampler | inr (inl _) => scopeInterface
          | inr (inr _) => scopeDomain end) _).
  by intros [].
Defined.
#[export] Instance rateKey_eq_dec : EqDecision rateKey.
Proof. solve_decision. Defined.
#[export] Instance rateKey_countable : Countable rateKey.
Proof.
  refine (inj_countable' (λ k, (rk_exporter k, rk_domain k, rk_scope k, rk_id k))
    (λ '(e, d, s, i), RateKey e d s i) _). by intros [].
Defined.

(** [field] *)
Record field : Type := Field {
  fd_id : Z;
  fd_length : Z;
  fd_enterprise : bool;
  fd_scope : bool;
}.

(** [template] *)
Record template : Type := Template {
  t_fields : list field;
  t_options : bool;
  t_minLen : Z;
  t_learned : Z;
}.

(** [initTime] *)
Record initTime : Type := InitTime {
  it_at : Z;
  it_learned : Z;
}.

(** [rate]: [num / den] packets observed per packet sampled. *)
Record rate : Type := Rate {
  r_num : Z;
  r_den : Z;
}.

(** [learnedRate] *)
Record learnedRate : Type := LearnedRate {
  lr_rate : rate;
  lr_learned : Z;
}.

(** [Decoder] *)
Record Decoder : Type := MkDecoder {
  templates : gmap templateKey template;
  initTimes : gmap domainKey initTime;
  rates : gmap rateKey learnedRate;
}.

Definition NewDecoder : Decoder := MkDecoder ∅ ∅ ∅.

Definition set_templates (d : Decoder) (m : gmap templateKey template) : Decoder :=
  MkDecoder m (initTimes d) (rates d).
Definition set_initTimes (d : Decoder) (m : gmap domainKey initTime) : Decoder :=
  MkDecoder (templates d) m (rates d).
Definition set_rates (d : Decoder) (m : gmap rateKey learnedRate) : Decoder :=
  MkDecoder (templates d) (initTimes d) m.

(** [exportHeader]; [eh_init] is [initTime] when [hasInit] is set. *)
Record exportHeader : Type := ExportHeader {
  eh_exporter : Addr;
  eh_version : Z;
  eh_domain : Z;
  eh_exportTime : Z;
  eh_sysUptime : Z;
  eh_hasUptime : bool;
  eh_initTime : Z;
  eh_hasInit : bool;
}.

Definition set_init (h : exportHeader) (at_ : Z) : exportHeader :=
  ExportHeader (eh_exporter h) (eh_version h) (eh_domain h) (eh_exportTime h)
    (eh_sysUptime h) (eh_hasUptime h) at_ true.

Definition header_format (h : exportHeader) : Format :=
  if eh_version h =? VersionIPFIX then FormatIPFIX else FormatNetFlow9.

Definition template_key (h : exportHeader) (id : Z) : templateKey :=
  TemplateKey (eh_exporter h) (eh_version h) (eh_domain h) id.

(** ** Eviction *)
Section evict.
Context `{Countable K} `{!RangeOrder K} {V : Type}.

(** The scan of [evictOldest]: the first entry, then every strictly older
    one. *)
Definition oldest_step (learned : V → Z) (acc : option (K * Z)) (kv : K * V)
    : option (K * Z) :=
  match acc with
  | None => Some (kv.1, learned kv.2)
  | Some (_, oldestAt) =>
      if time_before (learned kv.2) oldestAt then Some (kv.1, learned kv.2) else acc
  end.

Definition oldest (learned : V → Z) (l : list (K * V)) : option (K * Z) :=
  foldl (oldest_step learned) None l.

Definition evictOldest (m : gmap K V) (learned : V → Z) : gmap K V :=
  match oldest learned (range m) with
  | Some (k, _) => delete k m
  | None => m
  end.

(** Insert an entry, first evicting the oldest when the key is new and the
    cache is full: the shape of [learn], [learnInitTime] and [learnRate]. *)
Definition learn_entry (m : gmap K V) (learned : V → Z) (k : K) (v : V) : gmap K V :=
  let m := if bool_decide (m !! k = None) && (maxTemplates <=? Z.of_nat (size m))
           then evictOldest m learned else m in
  <[k := v]> m.
End evict.

(** ** Templates *)
Section templates.
Context `{!RangeOrder templateKey}.

(** The smallest record a template describes. *)
Definition min_record_len (fields : list field) : Z :=
  foldl (λ n f, if fd_length f =? variableLength then n + 1 else n + fd_length f) 0 fields.

Definition learn (d : Decoder) (h : exportHeader) (id : Z) (fields : list field)
    (options : bool) (now : Z) : Decoder * option flow_error :=
  let minLen := min_record_len fields in
  if minLen =? 0 then (d, Some ErrMalformed)
  else
    (set_templates d (learn_entry (templates d) t_learned (template_key h id)
                        (Template fields options minLen now)), None).

(** Whether the domain-wide withdrawal of [withdraw] covers an entry. *)
Definition withdrawn (h : exportHeader) (options : bool) (k : templateKey) (t : template)
    : bool :=
  bool_decide (tk_exporter k = eh_exporter h) && (tk_version k =? eh_version h)
  && (tk_domain k =? eh_domain h) && eqb (t_options t) options.

Definition withdraw (d : Decoder) (h : exportHeader) (id : Z) (options : bool) : Decoder :=
  if negb (id =? ipfixTemplateSet) && negb (id =? ipfixOptionsTemplate)
  then set_templates d (delete (template_key h id) (templates d))
  else set_templates d
         (foldr (λ kv m, if withdrawn h options kv.1 kv.2 then delete kv.1 m else m)
            (templates d) (range (templates d))).

(** [lookup] also drops an expired template. *)
Definition lookup_template (d : Decoder) (h : exportHeader) (id now : Z)
    : Decoder * option template :=
  match templates d !! template_key h id with
  | None => (d, None)
  | Some t =>
      if templateLifetime <? time_sub now (t_learned t)
      then (set_templates d (delete (template_key h id) (templates d)), None)
      else (d, Some t)
  end.
End templates.

Definition learnInitTime `{!RangeOrder domainKey} (d : Decoder) (h : exportHeader)
    (at_ now : Z) : Decoder :=
  set_initTimes d (learn_entry (initTimes d) it_learned
    (DomainKey (eh_exporter h) (eh_domain h)) (InitTime at_ now)).

(** ** Sampling (sampling.go) *)

(** [rate.scale] saturates; [bits.Div64] cannot panic behind its guard. *)
Definition scale (r : rate) (n : Z) : option Z :=
  let '(hi, lo) := mul64 n (r_num r) in
  if r_den r <=? hi then Some (2 ^ 64 - 1) else div64 hi lo (r_den r).

(** [sampling] *)
Record sampling : Type := Sampling {
  s_oneIn : Z;
  s_interval : Z;
  s_space : Z;
  s_sampler : Z;
  s_hasOneIn : bool;
  s_hasInterval : bool;
  s_hasSpace : bool;
  s_hasSampler : bool;
}.

Definition sampling_zero : sampling := Sampling 0 0 0 0 false false false false.

Definition ieSamplingInterval : Z := 34.
Definition ieSamplerID : Z := 48.
Definition ieSamplerRandomInterval : Z := 50.
Definition ieSelectorID : Z := 302.
Definition ieSamplingPacketInterval : Z := 305.
Definition ieSamplingPacketSpace : Z := 306.

(** [readUint[T]] for a [size]-byte [T]: big-endian, reduced-size lengths
    accepted, anything else ignored. *)
Definition readUint (size : Z) (v : bytes) : Z * bool :=
  if (len v =? 0) || (size <? len v) then (0, false)
  else (foldl (λ n b, wrap (8 * size) (Z.lor (wrap (8 * size) (Z.shiftl n 8)) b)) 0 v, true).

(** [sampling.apply] *)
Definition sampling_apply (s : sampling) (id : Z) (v : bytes) : sampling * bool :=
  if (id =? ieSamplingInterval) || (id =? ieSamplerRandomInterval) then
    let '(n, ok) := readUint 4 v in
    (Sampling n (s_interval s) (s_space s) (s_sampler s) (ok && (0 <? n))
       (s_hasInterval s) (s_hasSpace s) (s_hasSampler s), true)
  else if id =? ieSamplingPacketInterval then
    let '(n, ok) := readUint 4 v in
    (Sampling (s_oneIn s) n (s_space s) (s_sampler s) (s_hasOneIn s)
       (ok && (0 <? n)) (s_hasSpace s) (s_hasSampler s), true)
  else if id =? ieSamplingPacketSpace then
    let '(n, ok) := readUint 4 v in
    (Sampling (s_oneIn s) (s_interval s) n (s_sampler s) (s_hasOneIn s)
       (s_hasInterval s) ok (s_hasSampler s), true)
  else if (id =? ieSamplerID) || (id =? ieSelectorID) then
    let '(n, ok) := readUint 8 v in
    (Sampling (s_oneIn s) (s_interval s) (s_space s) n (s_hasOneIn s)
       (s_hasInterval s) (s_hasSpace s) ok, true)
  else (s, false).

(** [sampling.rate] *)
Definition sampling_rate (s : sampling) : option rate :=
  if s_hasOneIn s then Some (Rate (s_oneIn s) 1)
  else if s_hasInterval s && s_hasSpace s
       then Some (Rate (wrap 64 (s_interval s + s_space s)) (s_interval s))
       else None.

Definition learnRate `{!RangeOrder rateKey} (d : Decoder) (k : rateKey) (r : rate)
    (now : Z) : Decoder :=
  set_rates d (learn_entry (rates d) lr_learned k (LearnedRate r now)).

(** The scan of [recordRate] over its candidate keys, most specific first;
    expired entries are dropped on the way. *)
Fixpoint first_rate (d : Decoder) (keys : list rateKey) (now : Z) : Decoder * rate :=
  match keys with
  | [] => (d, Rate 1 1)
  | k :: keys' =>
      match rates d !! k with
      | None => first_rate d keys' now
      | Some lr =>
          if templateLifetime <? time_sub now (lr_learned lr)
          then first_rate (set_rates d (delete k (rates d))) keys' now
          else (d, lr_rate lr)
      end
  end.

Definition rate_keys (h : exportHeader) (inputIf : Z) (smp : sampling) : list rateKey :=
  let key := RateKey (eh_exporter h) (eh_domain h) in
  let keys := [key scopeInterface inputIf; key scopeDomain 0] in
  if s_hasSampler smp then key scopeSampler (s_sampler smp) :: keys else keys.

Definition recordRate (d : Decoder) (h : exportHeader) (inputIf : Z) (smp : sampling)
    (now : Z) : Decoder * rate :=
  match sampling_rate smp with
  | Some r => (d, r)
  | None => first_rate d (rate_keys h inputIf smp) now
  end.

(** ** Eviction keeps the cache bounded and drops the oldest entry *)
Section evict_facts.
Context `{Countable K} `{!RangeOrder K} {V : Type} (learned : V → Z).
Implicit Types m : gmap K V.

(** The scan holds the first entry of least learning time seen. *)
Lemma oldest_spec (l : list (K * V)) acc :
  match foldl (oldest_step learned) acc l with
  | None => acc = None ∧ l = []
  | Some (k, at_) =>
      (acc = Some (k, at_) ∨ ∃ v, (k, v) ∈ l ∧ learned v = at_) ∧
      (∀ k' at', acc = Some (k', at') → at_ ≤ at') ∧
      (∀ k' v', (k', v') ∈ l → at_ ≤ learned v')
  end.
Proof.
  revert acc. induction l as [|[k v] l IH]; intros acc; cbn [foldl].
  { destruct acc as [[k at_]|]; [|done]. split_and!; [by left|by intros ?? [= -> ->]|].
    intros ?? []%elem_of_nil. }
  specialize (IH (oldest_step learned acc (k, v))).
  destruct (foldl (oldest_step learned) _ l) as [[k0 at0]|].
  2: { destruct IH as [IH _]. revert IH. unfold oldest_step.
       destruct acc as [[]|]; [|done]. by destruct (time_before _ _). }
  destruct IH as (Hin & Hacc & Hl). unfold oldest_step, time_before in Hin, Hacc. cbn in Hin, Hacc.
  assert (at0 ≤ learned v ∧ (∀ k' at', acc = Some (k', at') → at0 ≤ at')) as [Hv Hacc'].
  { destruct acc as [[ka ata]|]; [|split; [by eapply Hacc|done]].
    destruct (Z.ltb_spec (learned v) ata); specialize (Hacc _ _ eq_refl);
      (split; [lia|]); intros ?? [= <- <-]; lia. }
  split_and!; [|done|].
  - destruct Hin as [Hin|(v' & ? & ?)]; [|right; exists v'; by rewrite elem_of_cons; auto].
    destruct acc as [[ka ata]|].
    + destruct (Z.ltb_spec (learned v) ata); [|by left].
      simplify_eq. right. exists v. by rewrite elem_of_cons; auto.
    + simplify_eq. right. exists v. by rewrite elem_of_cons; auto.
  - intros k' v'. rewrite elem_of_cons. intros [[= -> ->]|?]; [done|by eapply Hl].
Qed.

Lemma evictOldest_spec m :
  m ≠ ∅ → ∃ k v, m !! k = Some v ∧ (∀ k' v', m !! k' = Some v' → learned v ≤ learned v') ∧
                 evictOldest m learned = delete k m.
Proof.
  intros Hm. unfold evictOldest, oldest. pose proof (oldest_spec (range m) None) as Hs.
  destruct (foldl _ _ _) as [[k at_]|].
  - destruct Hs as ([|(v & Hin & <-)] & _ & Hl); [done|].
    apply elem_of_range in Hin. exists k, v. split_and!; [done| |done].
    intros k' v' Hk'. by apply (Hl k'), elem_of_range.
  - destruct Hs as [_ Hr]. destruct Hm. apply map_size_empty_inv. by rewrite <-length_range, Hr.
Qed.

Lemma learn_entry_lookup m k v : learn_entry m learned k v !! k = Some v.
Proof. apply lookup_insert_eq. Qed.

Lemma learn_entry_known m k v :
  is_Some (m !! k) → learn_entry m learned k v = <[k := v]> m.
Proof.
  intros [v0 Hk]. unfold learn_entry. rewrite Hk.
  by rewrite bool_decide_eq_false_2.
Qed.

Lemma learn_entry_room m k v :
  Z.of_nat (size m) < maxTemplates → learn_entry m learned k v = <[k := v]> m.
Proof.
  intros Hs. unfold learn_entry.
  by rewrite (proj2 (Z.leb_gt _ _) Hs), andb_false_r.
Qed.

Lemma learn_entry_full m k v :
  m !! k = None → maxTemplates ≤ Z.of_nat (size m) →
  ∃ k0 v0, m !! k0 = Some v0 ∧ (∀ k' v', m !! k' = Some v' → learned v0 ≤ learned v') ∧
           learn_entry m learned k v = <[k := v]> (delete k0 m).
Proof.
  intros Hk Hs. destruct (evictOldest_spec m) as (k0 & v0 & Hk0 & Hmin & He).
  { intros ->. rewrite map_size_empty in Hs. unfold maxTemplates in Hs. lia. }
  exists k0, v0. split_and!; [done..|]. unfold learn_entry.
  by rewrite bool_decide_eq_true_2, (proj2 (Z.leb_le _ _) Hs), He.
Qed.

Lemma learn_entry_size m k v :
  Z.of_nat (size m) ≤ maxTemplates → Z.of_nat (size (learn_entry m learned k v)) ≤ maxTemplates.
Proof.
  intros Hs. destruct (m !! k) as [v0|] eqn:Hk.
  { rewrite learn_entry_known by eauto. rewrite map_size_insert, Hk. simpl. lia. }
  destruct (decide (Z.of_nat (size m) < maxTemplates)).
  { rewrite learn_entry_room by done. rewrite map_size_insert, Hk. simpl. lia. }
  destruct (learn_entry_full m k v) as (k0 & v1 & Hk0 & _ & ->); [done|lia|].
  rewrite map_size_insert, lookup_delete_ne by naive_solver.
  rewrite Hk. simpl. rewrite map_size_delete, Hk0. simpl.
  unfold maxTemplates in *. lia.
Qed.

(** A property of every entry survives learning one that has it. *)
Lemma learn_entry_forall (P : K → V → Prop) m k v :
  map_Forall P m → P k v → map_Forall P (learn_entry m learned k v).
Proof.
  intros Hm Hv. destruct (m !! k) as [v0|] eqn:Hk.
  { rewrite learn_entry_known by eauto. by apply map_Forall_insert_2. }
  destruct (decide (Z.of_nat (size m) < maxTemplates)).
  { rewrite learn_entry_room by done. by apply map_Forall_insert_2. }
  destruct (learn_entry_full m k v) as (k0 & v1 & Hk0 & _ & ->); [done|lia|].
  apply map_Forall_insert_2; [done|]. by apply map_Forall_delete.
Qed.
End evict_facts.

(** ** The decoder's invariant *)

Definition field_ok (f : field) : Prop := 0 ≤ fd_id f < 2 ^ 16 ∧ 0 ≤ fd_length f < 2 ^ 16.

(** What every cached template satisfies: the field count is bounded, the
    lengths are 16-bit, and [t_minLen] is the positive smallest length of a
    record, so a data set shrinks with every record read from it. *)
Definition template_ok (t : template) : Prop :=
  0 < len (t_fields t) ≤ maxTemplateFields ∧ Forall field_ok (t_fields t) ∧
  t_minLen t = min_record_len (t_fields t) ∧ 0 < t_minLen t.

Definition rate_ok (r : rate) : Prop := 0 < r_num r < 2 ^ 64 ∧ 0 < r_den r < 2 ^ 32.

Record decoder_ok (d : Decoder) : Prop := {
  ok_templates : map_Forall (λ _, template_ok) (templates d);
  ok_templates_size : Z.of_nat (size (templates d)) ≤ maxTemplates;
  ok_initTimes_size : Z.of_nat (size (initTimes d)) ≤ maxTemplates;
  ok_rates : map_Forall (λ _ lr, rate_ok (lr_rate lr)) (rates d);
  ok_rates_size : Z.of_nat (size (rates d)) ≤ maxTemplates;
}.

Lemma NewDecoder_ok : decoder_ok NewDecoder.
Proof.
  split; unfold NewDecoder, maxTemplates; cbn [templates initTimes rates];
    first [rewrite map_size_empty; lia|apply map_Forall_empty].
Qed.

Section invariant.
Context `{!RangeOrder templateKey, !RangeOrder domainKey, !RangeOrder rateKey}.

Lemma set_templates_ok d m :
  decoder_ok d → map_Forall (λ _, template_ok) m → Z.of_nat (size m) ≤ maxTemplates →
  decoder_ok (set_templates d m).
Proof. intros [] ??. by split. Qed.

Lemma size_submap {K V} `{Countable K} (m1 m2 : gmap K V) :
  m1 ⊆ m2 → Z.of_nat (size m2) ≤ maxTemplates → Z.of_nat (size m1) ≤ maxTemplates.
Proof. intros ?%map_subseteq_size. lia. Qed.

(** Forgetting templates keeps the invariant. *)
Lemma drop_templates_ok d m :
  decoder_ok d → m ⊆ templates d → decoder_ok (set_templates d m).
Proof.
  intros Hd Hm. apply set_templates_ok; [done| |].
  - intros k t Hk. apply (ok_templates _ Hd k). by eapply lookup_weaken.
  - eapply size_submap; [done|]. by apply ok_templates_size.
Qed.

Lemma min_record_len_nonneg fs n :
  Forall field_ok fs → 0 ≤ n →
  n ≤ foldl (λ n f, if fd_length f =? variableLength then n + 1 else n + fd_length f) n fs.
Proof.
  intros Hfs. revert n. induction Hfs as [|f fs Hf _ IH]; intros n Hn; simpl; [lia|].
  destruct Hf as [_ ?].
  destruct (fd_length f =? variableLength); (etrans; [|apply IH]; lia).
Qed.

Lemma learn_ok d h id fields options now :
  decoder_ok d → 0 < len fields ≤ maxTemplateFields → Forall field_ok fields →
  decoder_ok (learn d h id fields options now).1.
Proof.
  intros Hd Hl Hf. unfold learn. destruct (Z.eqb_spec (min_record_len fields) 0); [done|].
  apply set_templates_ok; [done| |].
  - apply learn_entry_forall; [by apply ok_templates|]. split_and!; try done; simpl; [lia..|].
    pose proof (min_record_len_nonneg fields 0 Hf). unfold min_record_len in *. lia.
  - apply learn_entry_size. by apply ok_templates_size.
Qed.

Lemma withdraw_foldr_subseteq h options (l : list (templateKey * template))
    (m : gmap templateKey template) :
  foldr (λ kv m, if withdrawn h options kv.1 kv.2 then delete kv.1 m else m) m l ⊆ m.
Proof.
  induction l as [|[k t] l IH]; simpl; [done|].
  destruct (withdrawn _ _ _ _); [|done]. etrans; [apply delete_subseteq|done].
Qed.

Lemma withdraw_ok d h id options : decoder_ok d → decoder_ok (withdraw d h id options).
Proof.
  intros Hd. unfold withdraw. destruct (_ && _); apply drop_templates_ok; try done.
  - apply delete_subseteq.
  - apply withdraw_foldr_subseteq.
Qed.

Lemma lookup_template_ok d h id now :
  decoder_ok d →
  decoder_ok (lookup_template d h id now).1 ∧
  ∀ t, (lookup_template d h id now).2 = Some t → template_ok t.
Proof.
  intros Hd. unfold lookup_template.
  destruct (templates d !! template_key h id) as [t|] eqn:Ht; [|done].
  destruct (_ <? _); simpl; [split; [|done]|split; [done|]].
  - apply drop_templates_ok; [done|apply delete_subseteq].
  - intros ? [= <-]. by eapply (ok_templates _ Hd).
Qed.

Lemma learnInitTime_ok d h at_ now : decoder_ok d → decoder_ok (learnInitTime d h at_ now).
Proof. intros []. split; try done. by apply learn_entry_size. Qed.

Lemma learnRate_ok d k r now : decoder_ok d → rate_ok r → decoder_ok (learnRate d k r now).
Proof. intros [] ?. split; try done; [by apply learn_entry_forall|by apply learn_entry_size]. Qed.

Lemma first_rate_ok d keys now :
  decoder_ok d → decoder_ok (first_rate d keys now).1 ∧ rate_ok (first_rate d keys now).2.
Proof.
  revert d. induction keys as [|k keys IH]; intros d Hd; simpl; [done|].
  destruct (rates d !! k) as [lr|] eqn:Hk; [|by apply IH].
  destruct (_ <? _); [|split; [done|by eapply (ok_rates _ Hd)]].
  apply IH. destruct Hd. split; try done; simpl.
  - by apply map_Forall_delete.
  - eapply size_submap; [apply delete_subseteq|done].
Qed.
End invariant.

#[export] Hint Resolve NewDecoder_ok learn_ok withdraw_ok learnInitTime_ok learnRate_ok : seed.

(** ** What the operations compute *)
Section operations.
Context `{!RangeOrder templateKey, !RangeOrder domainKey, !RangeOrder rateKey}.

Lemma withdraw_foldr_lookup h options (l : list (templateKey * template))
    (m : gmap templateKey template) k :
  foldr (λ kv m, if withdrawn h options kv.1 kv.2 then delete kv.1 m else m) m l !! k =
  if existsb (λ kv, bool_decide (kv.1 = k) && withdrawn h options kv.1 kv.2) l
  then None else m !! k.
Proof.
  induction l as [|[k' t] l IH]; cbn [foldr existsb fst snd]; [done|].
  destruct (decide (k' = k)) as [->|Hne].
  - rewrite bool_decide_eq_true_2 by done. destruct (withdrawn h options k t); simpl; [|done].
    by rewrite lookup_delete_eq.
  - rewrite bool_decide_eq_false_2 by done. simpl.
    destruct (withdrawn h options k' t); [by rewrite lookup_delete_ne|done].
Qed.

Definition is_all_id (id : Z) : bool := (id =? ipfixTemplateSet) || (id =? ipfixOptionsTemplate).

(** An IPFIX template withdrawal removes exactly what it names, for
    every iteration order of the cache: with the set's own identifier,
    every template of that kind the exporter announced in the domain, and
    no other entry; with a template identifier, that template only. Boot
    times and sampling rates are untouched. *)
Theorem withdraw_spec d h id options :
  initTimes (withdraw d h id options) = initTimes d ∧
  rates (withdraw d h id options) = rates d ∧
  ∀ k, templates (withdraw d h id options) !! k =
    if is_all_id id
    then t ← templates d !! k; if withdrawn h options k t then None else Some t
    else if bool_decide (k = template_key h id) then None else templates d !! k.
Proof.
  unfold withdraw, is_all_id. rewrite <-negb_orb.
  destruct ((id =? ipfixTemplateSet) || _); simpl; (split_and!; [done|done|]); intros k.
  - rewrite withdraw_foldr_lookup.
    destruct (existsb _ _) eqn:He.
    + apply existsb_exists in He as ([k' t] & Hin & Hw). simpl in Hw.
      apply andb_true_iff in Hw as [->%bool_decide_eq_true_1 Hw].
      apply list_elem_of_In, elem_of_range in Hin. by rewrite Hin; simpl; rewrite Hw.
    + destruct (templates d !! k) as [t|] eqn:Hk; simpl; [|done].
      destruct (withdrawn h options k t) eqn:Hw; [|done].
      enough (existsb (λ kv, bool_decide (kv.1 = k) && withdrawn h options kv.1 kv.2)
                (range (templates d)) = true) by congruence.
      apply existsb_exists. exists (k, t). split; [by apply list_elem_of_In, elem_of_range|].
      simpl. by rewrite bool_decide_eq_true_2.
  - case_bool_decide; subst; [by rewrite lookup_delete_eq|by rewrite lookup_delete_ne].
Qed.

(** Learning a template caches it under its exporter, version, domain
    and identifier with the exact smallest record length; every other
    entry stays, unless the identifier is new and the cache is full: then
    exactly one entry goes, and no entry was learned before it. A template
    that describes empty records is an error that changes nothing. *)
Theorem learn_spec d h id fields options now :
  let key := template_key h id in
  let '(d', err) := learn d h id fields options now in
  if min_record_len fields =? 0 then d' = d ∧ err = Some ErrMalformed
  else
    err = None ∧ initTimes d' = initTimes d ∧ rates d' = rates d ∧
    templates d' !! key = Some (Template fields options (min_record_len fields) now) ∧
    ((∀ k, k ≠ key → templates d' !! k = templates d !! k) ∨
     (templates d !! key = None ∧ maxTemplates ≤ Z.of_nat (size (templates d)) ∧
      ∃ k0 t0, templates d !! k0 = Some t0 ∧
        (∀ k t, templates d !! k = Some t → t_learned t0 ≤ t_learned t) ∧
        ∀ k, k ≠ key → templates d' !! k = if decide (k = k0) then None else templates d !! k)).
Proof.
  unfold learn. cbv zeta. destruct (min_record_len fields =? 0); [done|].
  cbn [set_templates templates initTimes rates]. split_and!; [done..|apply learn_entry_lookup|].
  set (t' := Template _ _ _ _). set (key := template_key h id).
  destruct (decide (templates d !! key = None ∧
                    maxTemplates ≤ Z.of_nat (size (templates d)))) as [[Hk Hs]|Hn].
  - right. split_and!; [done..|].
    destruct (learn_entry_full t_learned (templates d) key t') as (k0 & t0 & Ht0 & Hmin & ->);
      [done..|].
    exists k0, t0. split_and!; [done..|]. intros k Hne. rewrite lookup_insert_ne by done.
    destruct (decide (k = k0)) as [->|]; [apply lookup_delete_eq|by apply lookup_delete_ne].
  - left. intros k Hne.
    assert (learn_entry (templates d) t_learned key t' = <[key := t']> (templates d)) as ->.
    { destruct (templates d !! key) eqn:Hk; [by apply learn_entry_known; rewrite Hk|].
      apply learn_entry_room. destruct (decide (Z.of_nat (size (templates d)) < maxTemplates));
        [done|]. destruct Hn. split; [done|lia]. }
    by apply lookup_insert_ne.
Qed.

(** A cached template is used for an hour after it was learned and no
    longer: a later lookup drops it, and no lookup touches anything else. *)
Theorem lookup_template_spec d h id now :
  let key := template_key h id in
  lookup_template d h id now =
    match templates d !! key with
    | Some t => if now - t_learned t <=? templateLifetime then (d, Some t)
                else (set_templates d (delete key (templates d)), None)
    | None => (d, None)
    end.
Proof.
  unfold lookup_template. cbv zeta. destruct (templates d !! _) as [t|]; [|done].
  rewrite Z.ltb_antisym. pose proof (time_sub_le now (t_learned t) templateLifetime) as H.
  destruct (Z.leb_spec (now - t_learned t) templateLifetime) as [Hle|Hgt].
  - rewrite (proj2 (Z.leb_le _ _)); [done|]. by apply H.
  - rewrite (proj2 (Z.leb_gt _ _)); [done|]. apply Z.lt_nge. intros ?%H; [lia|].
    unfold min_duration, max_duration, templateLifetime, hour, second. lia.
Qed.
End operations.

(** ** Sampling arithmetic *)

(** Scaling a sampled count is exact rational scaling, rounded down and
    saturated at the largest 64-bit count; it never wraps and the 128-bit
    division it uses never panics. *)
Lemma scale_spec r n :
  0 ≤ n < 2 ^ 64 → 0 ≤ r_num r < 2 ^ 64 → 0 ≤ r_den r < 2 ^ 64 →
  scale r n = Some (if r_den r =? 0 then 2 ^ 64 - 1
                    else Z.min (n * r_num r / r_den r) (2 ^ 64 - 1)).
Proof.
  intros Hn Hnum Hden. unfold scale, mul64. set (p := n * r_num r).
  assert (0 ≤ p) by (subst p; nia).
  destruct (Z.eqb_spec (r_den r) 0) as [->|Hd].
  { rewrite (proj2 (Z.leb_le _ _)); [done|]. apply Z.div_pos; lia. }
  destruct (Z.leb_spec (r_den r) (p / 2 ^ 64)) as [Hle|Hgt].
  - f_equal. rewrite Z.min_r; [done|].
    assert (2 ^ 64 ≤ p / r_den r); [|lia]. apply Z.div_le_lower_bound; [lia|].
    transitivity (2 ^ 64 * (p / 2 ^ 64)); [nia|]. apply Z.mul_div_le. lia.
  - unfold div64. rewrite (proj2 (Z.eqb_neq _ _) Hd), (proj2 (Z.leb_gt _ _) Hgt). simpl.
    f_equal. rewrite Z.min_l.
    + f_equal. unfold wrap. rewrite (Z.mul_comm (p / _)). symmetry. by apply Z.div_mod.
    + assert (p / r_den r < 2 ^ 64); [|lia]. apply Z.div_lt_upper_bound; [lia|].
      assert (p < 2 ^ 64 * (p / 2 ^ 64 + 1)) by (apply Z.mul_succ_div_gt; lia). nia.
Qed.

(** One packet in 100 seen 41 times, and a count that saturates. *)
Lemma scale_spec_witness :
  scale (Rate 100 1) 41 = Some 4100 ∧ scale (Rate (2 ^ 40) 3) (2 ^ 40) = Some (2 ^ 64 - 1).
Proof.
  split.
  - rewrite (scale_spec (Rate 100 1) 41); simpl; lia || reflexivity.
  - rewrite (scale_spec (Rate (2 ^ 40) 3) (2 ^ 40)); simpl; lia || reflexivity.
Defined.

(** Big-endian encoding in [k] bytes, the exporter's side of [readUint]. *)
Fixpoint be_encode (k : nat) (n : Z) : bytes :=
  match k with
  | O => []
  | S k' => be_encode k' (n / 256) ++ [n mod 256]
  end.

Lemma len_be_encode k n : len (be_encode k n) = Z.of_nat k.
Proof.
  revert n. induction k as [|k IH]; intros n; cbn [be_encode]; [done|].
  rewrite len_app, IH. unfold len. simpl. lia.
Qed.

Lemma readUint_step size acc b :
  0 ≤ b < 256 → 0 ≤ acc → acc * 256 + b < 2 ^ (8 * size) →
  wrap (8 * size) (Z.lor (wrap (8 * size) (Z.shiftl acc 8)) b) = acc * 256 + b.
Proof.
  intros Hb Ha Hlt. rewrite Z.shiftl_mul_pow2 by lia. change (2 ^ 8) with 256.
  rewrite (wrap_small _ (acc * 256)) by lia.
  assert (Z.lor (acc * 256) b = acc * 256 + b) as ->.
  { assert (Z.land (acc * 256) b = 0) as Hz.
    { apply Z.bits_inj'. intros i Hi. rewrite Z.land_spec, Z.bits_0.
      change 256 with (2 ^ 8). destruct (Z.ltb_spec i 8).
      - by rewrite Z.mul_pow2_bits_low.
      - rewrite (Z.bits_above_log2 b i), andb_false_r; [done|lia|].
        destruct (decide (b = 0)) as [->|]; [rewrite Z.log2_nonpos; lia|].
        apply Z.log2_lt_pow2; [lia|]. apply Z.lt_le_trans with (2 ^ 8); [lia|].
        apply Z.pow_le_mono_r; lia. }
    pose proof (Z.add_lor_land (acc * 256) b). lia. }
  apply wrap_small. lia.
Qed.

Lemma readUint_fold size k n :
  Z.of_nat k ≤ size → 0 ≤ n < 2 ^ (8 * Z.of_nat k) →
  foldl (λ n b, wrap (8 * size) (Z.lor (wrap (8 * size) (Z.shiftl n 8)) b)) 0 (be_encode k n) = n.
Proof.
  revert n. induction k as [|k IH]; intros n Hk Hn; cbn [be_encode].
  { simpl in *. lia. }
  assert (2 ^ (8 * Z.of_nat (S k)) = 2 ^ (8 * Z.of_nat k) * 256) as Hpow.
  { replace (8 * Z.of_nat (S k)) with (8 * Z.of_nat k + 8) by lia. by rewrite Z.pow_add_r by lia. }
  assert (2 ^ (8 * Z.of_nat (S k)) ≤ 2 ^ (8 * size)) by (apply Z.pow_le_mono_r; lia).
  pose proof (Z.div_mod n 256). pose proof (Z.mod_pos_bound n 256).
  rewrite foldl_app, IH; [|lia|split; [apply Z.div_pos; lia|apply Z.div_lt_upper_bound; lia]].
  cbn [foldl]. rewrite readUint_step; [lia|lia|apply Z.div_pos; lia|lia].
Qed.

(** A field of any reduced size reads back: [readUint] returns the
    encoded number for every length from one byte to the type's size, and
    refuses every other length. *)
Theorem readUint_roundtrip size k n :
  0 ≤ n < 2 ^ (8 * Z.of_nat k) →
  readUint size (be_encode k n) =
    if (0 <? Z.of_nat k) && (Z.of_nat k <=? size) then (n, true) else (0, false).
Proof.
  intros Hn. unfold readUint. rewrite len_be_encode.
  destruct (Z.eqb_spec (Z.of_nat k) 0); simpl; [by rewrite (proj2 (Z.ltb_ge _ _)) by lia|].
  rewrite (proj2 (Z.ltb_lt 0 (Z.of_nat k))) by lia. rewrite Z.ltb_antisym.
  destruct (Z.leb_spec (Z.of_nat k) size); simpl; [|done]. by rewrite readUint_fold.
Qed.

Lemma readUint_roundtrip_witness : readUint 8 (be_encode 3 70000) = (70000, true).
Proof. rewrite (readUint_roundtrip 8 3 70000); [reflexivity|lia]. Defined.

Lemma readUint_range size v : 0 ≤ size → 0 ≤ (readUint size v).1 < 2 ^ (8 * size).
Proof.
  intros Hs. assert (0 < 2 ^ (8 * size)) by (apply Z.pow_pos_nonneg; lia).
  unfold readUint. destruct (_ || _); simpl; [lia|].
  destruct v as [|x v] using rev_ind; simpl; [lia|]. rewrite foldl_app. simpl.
  apply wrap_range. lia.
Qed.

(** ** Which sampling rate covers a record *)

Definition live_rate (d : Decoder) (now : Z) (k : rateKey) : option rate :=
  lr ← rates d !! k; if now - lr_learned lr <=? templateLifetime then Some (lr_rate lr) else None.

(** The first live rate of a list of keys. *)
Fixpoint first_live (d : Decoder) (now : Z) (keys : list rateKey) : option rate :=
  match keys with
  | [] => None
  | k :: keys' => match live_rate d now k with Some r => Some r | None => first_live d now keys' end
  end.

Lemma expired_iff now t : (templateLifetime <? time_sub now t) = negb (now - t <=? templateLifetime).
Proof.
  rewrite Z.ltb_antisym. f_equal. apply eq_true_iff_eq. rewrite !Z.leb_le.
  apply time_sub_le. unfold min_duration, max_duration, templateLifetime, hour, second. lia.
Qed.

Lemma first_live_delete d now keys k :
  live_rate d now k = None →
  first_live (set_rates d (delete k (rates d))) now keys = first_live d now keys.
Proof.
  intros Hk. induction keys as [|k' keys IH]; simpl; [done|]. rewrite IH.
  enough (live_rate (set_rates d (delete k (rates d))) now k' = live_rate d now k') as -> by done.
  destruct (decide (k = k')) as [<-|].
  - rewrite Hk. unfold live_rate. simpl. by rewrite lookup_delete_eq.
  - unfold live_rate. simpl. by rewrite lookup_delete_ne.
Qed.

Lemma first_rate_spec d keys now :
  (first_rate d keys now).2 = default (Rate 1 1) (first_live d now keys).
Proof.
  revert d. induction keys as [|k keys IH]; intros d; simpl; [done|].
  unfold live_rate at 1. destruct (rates d !! k) as [lr|] eqn:Hk; simpl; [|apply IH].
  rewrite expired_iff. destruct (_ <=? _) eqn:Hl; simpl; [done|].
  rewrite IH, first_live_delete; [done|]. unfold live_rate. by rewrite Hk; simpl; rewrite Hl.
Qed.

(** The sampling rate applied to a record is the one the record carries;
    else the unexpired rate its exporter announced for the record's sampler,
    then for its input interface, then for its domain; else one in one. *)
Theorem recordRate_spec d h inputIf smp now :
  let key := RateKey (eh_exporter h) (eh_domain h) in
  (recordRate d h inputIf smp now).2 =
    match sampling_rate smp with
    | Some r => r
    | None => default (Rate 1 1) (first_live d now
        ((if s_hasSampler smp then [key scopeSampler (s_sampler smp)] else []) ++
         [key scopeInterface inputIf; key scopeDomain 0]))
    end.
Proof.
  unfold recordRate, rate_keys. cbv zeta. destruct (sampling_rate smp); [done|].
  rewrite first_rate_spec. by destruct (s_hasSampler smp).
Qed.
