(* ===== verification/FlowDecode.v ===== *)
(** * NetFlow and IPFIX datagrams (src/internal/listener/flow/decode.go)

    [Decode] dispatches one export datagram to the NetFlow v5, NetFlow v9,
    IPFIX or sFlow decoder. The v9 and IPFIX decoders thread the decoder's
    caches (file FlowState) and the datagram's header, which an options
    record can update for the sets after it. *)
From Stdlib Require Import ZArith Lia SpecFloat.
From stdpp Require Import base gmap sets list strings.
From S2P Require Import Prelude GoBase FlowTypes FlowHeader FlowSFlow FlowState.

Definition v5HeaderLen : Z := 24.
Definition v5RecordLen : Z := 48.
Definition v5MaxRecords : Z := 30.
Definition v9HeaderLen : Z := 20.
Definition ipfixHeaderLen : Z := 16.
Definition setHeaderLen : Z := 4.
Definition versionLen : Z := 2.
Definition specifierLen : Z := 4.
Definition enterpriseNumLen : Z := 4.
Definition withdrawalLen : Z := 4.
Definition optionsHeaderLen : Z := 6.
Definition v9TemplateSet : Z := 0.
Definition v9OptionsTemplateSet : Z := 1.
Definition longVariableLength : Z := 255.
Definition enterpriseBit : Z := 0x8000.
Definition v5SamplingMask : Z := 0x3FFF.
Definition uptimeWrap : Z := 2 ^ 32 * millisecond.
Definition v9ScopeInterface : Z := 2.
Definition ieSystemInitTimeMilliseconds : Z := 160.
Definition ieIngressInterface : Z := 10.

(** ** Wall times from exporter uptimes *)

Definition uptimeTime (exportTime uptime at_ : Z) : Z :=
  let age := wrap 32 (uptime - at_) in
  if age <=? 2 ^ 31 - 1 then time_add exportTime (- age * millisecond)
  else time_add exportTime (wrap 32 (at_ - uptime) * millisecond).

(** [int64(math.Round(x))]: to nearest, ties away from zero. The conversion
    of a value that is no number is left to the implementation by Go; it is
    the smallest integer here, as on amd64. *)
Definition float64_round (x : spec_float) : Z :=
  match x with
  | S754_zero _ => 0
  | S754_finite s m e =>
      let n := if 0 <=? e then Z.pos m * 2 ^ e else (Z.pos m + 2 ^ (- e - 1)) / 2 ^ (- e) in
      if s then - n else n
  | _ => - 2 ^ 63
  end.

Definition sinceInit (h : exportHeader) (uptime : Z) : Z :=
  let t := time_add (eh_initTime h) (uptime * millisecond) in
  let wraps := float64_round
    (float64_div (float64 (time_sub (eh_exportTime h) t)) (float64 uptimeWrap)) in
  time_add t (sign_wrap 64 (wraps * uptimeWrap)).

Definition readSeconds (v : bytes) : Z * bool :=
  let '(s, ok) := readUint 4 v in (time_unix s 0, ok).

Definition readMilliseconds (v : bytes) : Z * bool :=
  let '(ms, ok) := readUint 8 v in
  if negb ok || (2 ^ 63 - 1 <? ms) then (time_zero, false) else (time_unix_milli ms, true).

(** ** NetFlow v5 *)

Definition decodeV5_record (exporter : Addr) (pkt : bytes) (exportTime uptime domain sampling i : Z)
    : option FlowRecord :=
  r ← slice_from pkt (v5HeaderLen + i * v5RecordLen);
  first ← be32_at r 24; last_ ← be32_at r 28;
  s ← slice r 0 4; src ← addr_from4 s;
  t ← slice r 4 8; dst ← addr_from4 t;
  sport ← be16_at r 32; dport ← be16_at r 34;
  proto ← index r 38; flags ← index r 37;
  octets ← be32_at r 20; packets ← be32_at r 16;
  inIf ← be16_at r 12; outIf ← be16_at r 14;
  Some {| Exporter := exporter; FlowFormat := FormatNetFlow5; ObservationDomain := domain;
          Start := uptimeTime exportTime uptime first;
          End_ := uptimeTime exportTime uptime last_;
          SrcAddr := src; DstAddr := dst; SrcPort := sport; DstPort := dport;
          Protocol := proto; TCPFlags := flags;
          Bytes := wrap 64 (octets * sampling); Packets := wrap 64 (packets * sampling);
          InputIf := inIf; OutputIf := outIf |}.

Definition decodeV5 (exporter : Addr) (pkt : bytes) : option (Result * option flow_error) :=
  if len pkt <? v5HeaderLen then Some (result_zero, Some ErrTruncated)
  else
    count ← be16_at pkt 2;
    if (count =? 0) || (v5MaxRecords <? count) then Some (result_zero, Some ErrMalformed)
    else if len pkt <? v5HeaderLen + count * v5RecordLen then Some (result_zero, Some ErrTruncated)
    else
      uptime ← be32_at pkt 4;
      sec ← be32_at pkt 8; nsec ← be32_at pkt 12;
      domain ← be16_at pkt 20;
      smp ← be16_at pkt 22;
      let smp := Z.land smp v5SamplingMask in
      let smp := if smp =? 0 then 1 else smp in
      records ← mapM (λ i, decodeV5_record exporter pkt (time_unix sec nsec) uptime domain smp
                             (Z.of_nat i)) (seq 0 (Z.to_nat count));
      Some (MkResult records 0, None).

(** ** Records of a template *)

(** The length of the field at [off] and the offset of its value: [None]
    when the record overruns before its length is known. *)
Definition field_extent (f : field) (b : bytes) (off : Z) : option (option (Z * Z)) :=
  if fd_length f =? variableLength then
    if len b <=? off then Some None
    else
      n ← index b off;
      let off := off + 1 in
      if n =? longVariableLength then
        if len b <? off + 2 then Some None
        else n ← be16_at b off; Some (Some (n, off + 2))
      else Some (Some (n, off))
  else Some (Some (fd_length f, off)).

(** [walkRecord], from field list [fs] and offset [off]. The callback's
    effects on [s] stay when the record turns out to overrun [b]. *)
Fixpoint walk_fields {S} (fn : S → field → bytes → option S) (b : bytes) (fs : list field)
    (s : S) (off : Z) : option (S * option Z) :=
  match fs with
  | [] => Some (s, Some off)
  | f :: fs' =>
      ext ← field_extent f b off;
      match ext with
      | None => Some (s, None)
      | Some (n, off) =>
          if len b <? off + n then Some (s, None)
          else
            s ← (if fd_enterprise f then Some s else v ← slice b off (off + n); fn s f v);
            walk_fields fn b fs' s (off + n)
      end
  end.

Definition walkRecord {S} (t : template) (b : bytes) (fn : S → field → bytes → option S) (s : S)
    : option (S * option Z) := walk_fields fn b (t_fields t) s 0.

(** [flowTimes] *)
Record flowTimes : Type := FlowTimes {
  ft_start : Z;
  ft_end : Z;
  ft_startUp : Z;
  ft_endUp : Z;
  ft_hasStartUp : bool;
  ft_hasEnd : bool;
  ft_hasEndUp : bool;
  ft_hasStart : bool;
}.

Definition flowTimes_zero : flowTimes := FlowTimes time_zero time_zero 0 0 false false false false.

Definition set_ft_start (x : flowTimes) (v : Z * bool) : flowTimes :=
  FlowTimes v.1 (ft_end x) (ft_startUp x) (ft_endUp x)
    (ft_hasStartUp x) (ft_hasEnd x) (ft_hasEndUp x) v.2.
Definition set_ft_end (x : flowTimes) (v : Z * bool) : flowTimes :=
  FlowTimes (ft_start x) v.1 (ft_startUp x) (ft_endUp x)
    (ft_hasStartUp x) v.2 (ft_hasEndUp x) (ft_hasStart x).
Definition set_ft_startUp (x : flowTimes) (v : Z * bool) : flowTimes :=
  FlowTimes (ft_start x) (ft_end x) v.1 (ft_endUp x)
    v.2 (ft_hasEnd x) (ft_hasEndUp x) (ft_hasStart x).
Definition set_ft_endUp (x : flowTimes) (v : Z * bool) : flowTimes :=
  FlowTimes (ft_start x) (ft_end x) (ft_startUp x) v.1
    (ft_hasStartUp x) (ft_hasEnd x) v.2 (ft_hasStart x).

(** [counters] *)
Record counters : Type := Counters {
  c_deltaBytes : Z;
  c_deltaPackets : Z;
  c_totalBytes : Z;
  c_totalPackets : Z;
  c_hasDeltaBytes : bool;
  c_hasDeltaPackets : bool;
}.

Definition counters_zero : counters := Counters 0 0 0 0 false false.

Definition applyTimeField (x : flowTimes) (id : Z) (v : bytes) : flowTimes :=
  if id =? 22 then set_ft_startUp x (readUint 4 v)
  else if id =? 21 then set_ft_endUp x (readUint 4 v)
  else if id =? 150 then set_ft_start x (readSeconds v)
  else if id =? 151 then set_ft_end x (readSeconds v)
  else if id =? 152 then set_ft_start x (readMilliseconds v)
  else if id =? 153 then set_ft_end x (readMilliseconds v)
  else x.

Definition applyField (rec : FlowRecord) (times : flowTimes) (cnt : counters) (id : Z) (v : bytes)
    : option (FlowRecord * flowTimes * counters) :=
  let set r := Some (r, times, cnt) in
  let count c := Some (rec, times, c) in
  if (id =? 8) || (id =? 27) then
    let '(a, ok) := addr_from_slice v in set (if ok then set_SrcAddr rec a else rec)
  else if (id =? 12) || (id =? 28) then
    let '(a, ok) := addr_from_slice v in set (if ok then set_DstAddr rec a else rec)
  else if id =? 7 then set (set_SrcPort rec (readUint 2 v).1)
  else if id =? 11 then set (set_DstPort rec (readUint 2 v).1)
  else if id =? 4 then
    if len v =? 1 then x ← index v 0; set (set_Protocol rec x) else set rec
  else if id =? 6 then
    if (len v =? 1) || (len v =? 2) then x ← index v (len v - 1); set (set_TCPFlags rec x)
    else set rec
  else if id =? ieIngressInterface then set (set_InputIf rec (readUint 4 v).1)
  else if id =? 14 then set (set_OutputIf rec (readUint 4 v).1)
  else if id =? 1 then
    let '(n, ok) := readUint 8 v in
    count (Counters n (c_deltaPackets cnt) (c_totalBytes cnt) (c_totalPackets cnt)
             ok (c_hasDeltaPackets cnt))
  else if id =? 2 then
    let '(n, ok) := readUint 8 v in
    count (Counters (c_deltaBytes cnt) n (c_totalBytes cnt) (c_totalPackets cnt)
             (c_hasDeltaBytes cnt) ok)
  else if id =? 85 then
    count (Counters (c_deltaBytes cnt) (c_deltaPackets cnt) (readUint 8 v).1 (c_totalPackets cnt)
             (c_hasDeltaBytes cnt) (c_hasDeltaPackets cnt))
  else if id =? 86 then
    count (Counters (c_deltaBytes cnt) (c_deltaPackets cnt) (c_totalBytes cnt) (readUint 8 v).1
             (c_hasDeltaBytes cnt) (c_hasDeltaPackets cnt))
  else Some (rec, applyTimeField times id v, cnt).

Definition resolveTimes (h : exportHeader) (x : flowTimes) : Z * Z :=
  let start :=
    if ft_hasStart x then ft_start x
    else if ft_hasStartUp x && eh_hasUptime h
      then uptimeTime (eh_exportTime h) (eh_sysUptime h) (ft_startUp x)
    else if ft_hasStartUp x && eh_hasInit h then sinceInit h (ft_startUp x)
    else eh_exportTime h in
  let end_ :=
    if ft_hasEnd x then ft_end x
    else if ft_hasEndUp x && eh_hasUptime h
      then uptimeTime (eh_exportTime h) (eh_sysUptime h) (ft_endUp x)
    else if ft_hasEndUp x && eh_hasInit h then sinceInit h (ft_endUp x)
    else eh_exportTime h in
  (start, end_).

(** ** Data records *)
Definition record_zero (h : exportHeader) : FlowRecord :=
  {| Exporter := eh_exporter h; FlowFormat := header_format h; ObservationDomain := eh_domain h;
     Start := time_zero; End_ := time_zero; SrcAddr := AddrInvalid; DstAddr := AddrInvalid;
     SrcPort := 0; DstPort := 0; Protocol := 0; TCPFlags := 0; Bytes := 0; Packets := 0;
     InputIf := 0; OutputIf := 0 |}.

(** The callback [decodeRecord] gives [walkRecord]. *)
Definition record_field (s : FlowRecord * flowTimes * counters * sampling) (f : field) (v : bytes)
    : option (FlowRecord * flowTimes * counters * sampling) :=
  let '(rec, times, cnt, smp) := s in
  let '(smp, ok) := sampling_apply smp (fd_id f) v in
  if ok then Some (rec, times, cnt, smp)
  else '(rec, times, cnt) ← applyField rec times cnt (fd_id f) v; Some (rec, times, cnt, smp).

(** The end of [decodeRecord]: the counts scaled by [r], the times resolved. *)
Definition finish_record (rec : FlowRecord) (octets packets start end_ : Z) : FlowRecord :=
  {| Exporter := Exporter rec; FlowFormat := FlowFormat rec;
     ObservationDomain := ObservationDomain rec; Start := start; End_ := end_;
     SrcAddr := SrcAddr rec; DstAddr := DstAddr rec; SrcPort := SrcPort rec;
     DstPort := DstPort rec; Protocol := Protocol rec; TCPFlags := TCPFlags rec;
     Bytes := octets; Packets := packets; InputIf := InputIf rec; OutputIf := OutputIf rec |}.

Definition decodeRecord (d : Decoder) (h : exportHeader) (t : template) (b : bytes) (now : Z)
    : option (Decoder * option (FlowRecord * Z)) :=
  '(s, n) ← walkRecord t b record_field (record_zero h, flowTimes_zero, counters_zero, sampling_zero);
  match n with
  | None => Some (d, None)
  | Some n =>
      let '(rec, times, cnt, smp) := s in
      let octets := if c_hasDeltaBytes cnt then c_deltaBytes cnt else c_totalBytes cnt in
      let packets := if c_hasDeltaPackets cnt then c_deltaPackets cnt else c_totalPackets cnt in
      let '(d, r) := recordRate d h (InputIf rec) smp now in
      octets ← scale r octets;
      packets ← scale r packets;
      let '(start, end_) := resolveTimes h times in
      Some (d, Some (finish_record rec octets packets start end_, n))
  end.

(** ** Template sets *)

(** [readFieldSpecifiers]: the fields read and the bytes after them. *)
Fixpoint readFieldSpecifiers (b : bytes) (count : nat) (ipfix : bool)
    : option (list field * bytes + flow_error) :=
  match count with
  | O => Some (inl ([], b))
  | S count' =>
      if len b <? specifierLen then Some (inr ErrTruncated)
      else
        id ← be16 b;
        length ← be16_at b 2;
        b ← slice_from b specifierLen;
        let ent := ipfix && has_bits id enterpriseBit in
        if ent && (len b <? enterpriseNumLen) then Some (inr ErrTruncated)
        else
          b ← (if ent then slice_from b enterpriseNumLen else Some b);
          let id := if ent then Z.ldiff id enterpriseBit else id in
          if (length =? variableLength) && negb ipfix then Some (inr ErrMalformed)
          else
            r ← readFieldSpecifiers b count' ipfix;
            match r with
            | inl (fields, rest) => Some (inl (Field id length ent false :: fields, rest))
            | inr err => Some (inr err)
            end
  end.

(** [for i := range n { fields[i].scope = true }] *)
Fixpoint mark_scope (n : nat) (fields : list field) : option (list field) :=
  match n with
  | O => Some fields
  | S n' =>
      match fields with
      | [] => None
      | f :: fields' =>
          fields' ← mark_scope n' fields';
          Some (Field (fd_id f) (fd_length f) (fd_enterprise f) true :: fields')
      end
  end.

Section decode.
Context `{!RangeOrder templateKey, !RangeOrder domainKey, !RangeOrder rateKey}.

(** The result is [inl] the bytes after the template record. *)
Definition learnTemplate (d : Decoder) (h : exportHeader) (set : bytes) (options : bool)
    (now : Z) : option (Decoder * (bytes + flow_error)) :=
  id ← be16 set;
  count ← be16_at set 2;
  let ipfix := eh_version h =? VersionIPFIX in
  if (count =? 0) && ipfix then
    rest ← slice_from set withdrawalLen;
    Some (withdraw d h id options, inl rest)
  else
    let headerLen := if options then optionsHeaderLen else withdrawalLen in
    if len set <? headerLen then Some (d, inr ErrTruncated)
    else if (id <? minDataSetID) || (count =? 0) || (maxTemplateFields <? count)
    then Some (d, inr ErrMalformed)
    else
      scope ← (if options then be16_at set 4 else Some 0);
      if options && ((scope =? 0) || (count <? scope)) then Some (d, inr ErrMalformed)
      else
        body ← slice_from set headerLen;
        r ← readFieldSpecifiers body (Z.to_nat count) ipfix;
        match r with
        | inr err => Some (d, inr err)
        | inl (fields, rest) =>
            fields ← mark_scope (Z.to_nat scope) fields;
            let '(d, err) := learn d h id fields options now in
            Some (d, match err with Some e => inr e | None => inl rest end)
        end.

Definition learnTemplates_body (h : exportHeader) (options : bool) (now : Z)
    (s : Decoder * bytes) : option (outcome (Decoder * bytes) (Decoder * option flow_error)) :=
  let '(d, set) := s in
  if len set <? specifierLen then Some (Leave (d, None))
  else
    id ← be16 set;
    if id =? 0 then Some (Leave (d, None))
    else
      '(d, r) ← learnTemplate d h set options now;
      match r with
      | inr err => Some (Leave (d, Some err))
      | inl rest => Some (Next (d, rest))
      end.

Definition learnTemplates (d : Decoder) (h : exportHeader) (set : bytes) (options : bool)
    (now : Z) : option (Decoder * option flow_error) :=
  for_loop (S (length set)) (learnTemplates_body h options now) (d, set).

Definition learnV9OptionsTemplates_body (h : exportHeader) (now : Z) (s : Decoder * bytes)
    : option (outcome (Decoder * bytes) (Decoder * option flow_error)) :=
  let '(d, set) := s in
  if len set <? optionsHeaderLen then Some (Leave (d, None))
  else
    id ← be16 set;
    if id =? 0 then Some (Leave (d, None))
    else
      scopeLen ← be16_at set 2;
      optionLen ← be16_at set 4;
      let count := (scopeLen + optionLen) / specifierLen in
      if (id <? minDataSetID) || negb (scopeLen mod specifierLen =? 0)
         || negb (optionLen mod specifierLen =? 0) || (count =? 0) || (maxTemplateFields <? count)
      then Some (Leave (d, Some ErrMalformed))
      else
        body ← slice_from set optionsHeaderLen;
        r ← readFieldSpecifiers body (Z.to_nat count) false;
        match r with
        | inr err => Some (Leave (d, Some err))
        | inl (fields, rest) =>
            fields ← mark_scope (Z.to_nat (scopeLen / specifierLen)) fields;
            let '(d, err) := learn d h id fields true now in
            Some (match err with Some e => Leave (d, Some e) | None => Next (d, rest) end)
        end.

Definition learnV9OptionsTemplates (d : Decoder) (h : exportHeader) (set : bytes) (now : Z)
    : option (Decoder * option flow_error) :=
  for_loop (S (length set)) (learnV9OptionsTemplates_body h now) (d, set).

(** ** Options data sets *)

(** What the callback of [readOptionsRecord] updates: the decoder, the
    header, the record's sampling elements and its interface. *)
Definition options_state : Type := Decoder * exportHeader * sampling * (Z * bool).

Definition options_field (now : Z) (s : options_state) (f : field) (v : bytes)
    : option options_state :=
  let '(d, h, smp, ifc) := s in
  if fd_scope f && (eh_version h =? VersionNetFlow9) then
    Some (d, h, smp, if fd_id f =? v9ScopeInterface then readUint 4 v else ifc)
  else if fd_scope f && (fd_id f =? ieIngressInterface) then Some (d, h, smp, readUint 4 v)
  else if (fd_id f =? ieSystemInitTimeMilliseconds) && (eh_version h =? VersionIPFIX) then
    let '(at_, valid) := readMilliseconds v in
    Some (if valid then (learnInitTime d (set_init h at_) at_ now, set_init h at_, smp, ifc)
          else s)
  else Some (d, h, (sampling_apply smp (fd_id f) v).1, ifc).

Definition readOptionsRecord (d : Decoder) (h : exportHeader) (t : template) (b : bytes) (now : Z)
    : option (Decoder * exportHeader * option Z) :=
  '(s, n) ← walkRecord t b (options_field now) (d, h, sampling_zero, (0, false));
  let '(d, h, smp, ifc) := (s : options_state) in
  match n with
  | None => Some (d, h, None)
  | Some n =>
      let d :=
        match sampling_rate smp with
        | None => d
        | Some r =>
            let key := RateKey (eh_exporter h) (eh_domain h) in
            learnRate d (if s_hasSampler smp then key scopeSampler (s_sampler smp)
                         else if ifc.2 then key scopeInterface ifc.1
                         else key scopeDomain 0) r now
        end in
      Some (d, h, Some n)
  end.

Definition readExporterOptions_body (t : template) (now : Z)
    (s : Decoder * exportHeader * bytes)
    : option (outcome (Decoder * exportHeader * bytes)
                      (Decoder * exportHeader * option flow_error)) :=
  let '(d, h, set) := s in
  if len set <? t_minLen t then Some (Leave (d, h, None))
  else
    '(d, h, n) ← readOptionsRecord d h t set now;
    match n with
    | None => Some (Leave (d, h, Some ErrMalformed))
    | Some n => set ← slice_from set n; Some (Next (d, h, set))
    end.

Definition readExporterOptions (d : Decoder) (h : exportHeader) (t : template) (set : bytes)
    (now : Z) : option (Decoder * exportHeader * option flow_error) :=
  for_loop (S (length set)) (readExporterOptions_body t now) (d, h, set).

(** ** Data sets, sets and datagrams *)

Definition decodeDataSet_body (h : exportHeader) (t : template) (now : Z)
    (s : Decoder * Result * bytes)
    : option (outcome (Decoder * Result * bytes) (Decoder * Result * option flow_error)) :=
  let '(d, res, set) := s in
  if len set <? t_minLen t then Some (Leave (d, res, None))
  else
    '(d, r) ← decodeRecord d h t set now;
    match r with
    | None => Some (Leave (d, res, Some ErrMalformed))
    | Some (rec, n) =>
        set ← slice_from set n;
        Some (Next (d, add_record res rec, set))
    end.

(** Also returns the header, which an options record can update. *)
Definition decodeDataSet (d : Decoder) (h : exportHeader) (id : Z) (set : bytes) (now : Z)
    (res : Result) : option (Decoder * exportHeader * Result * option flow_error) :=
  let '(d, t) := lookup_template d h id now in
  match t with
  | None => Some (d, h, add_missing res, None)
  | Some t =>
      if t_options t then
        '(d, h, err) ← readExporterOptions d h t set now; Some (d, h, res, err)
      else
        '(d, res, err) ← for_loop (S (length set)) (decodeDataSet_body h t now) (d, res, set);
        Some (d, h, res, err)
  end.

(** The [switch] of [decodeSets]. *)
Definition decode_set (d : Decoder) (h : exportHeader) (id : Z) (set : bytes) (now : Z)
    (res : Result) : option (Decoder * exportHeader * Result * option flow_error) :=
  let v9 := eh_version h =? VersionNetFlow9 in
  let ipfix := eh_version h =? VersionIPFIX in
  let keep (r : option (Decoder * option flow_error)) := '(d, err) ← r; Some (d, h, res, err) in
  if minDataSetID <=? id then decodeDataSet d h id set now res
  else if v9 && (id =? v9TemplateSet) then keep (learnTemplates d h set false now)
  else if v9 && (id =? v9OptionsTemplateSet) then keep (learnV9OptionsTemplates d h set now)
  else if ipfix && (id =? ipfixTemplateSet) then keep (learnTemplates d h set false now)
  else if ipfix && (id =? ipfixOptionsTemplate) then keep (learnTemplates d h set true now)
  else Some (d, h, res, None).

Definition decodeSets_body (now : Z) (s : Decoder * exportHeader * Result * bytes)
    : option (outcome (Decoder * exportHeader * Result * bytes)
                      (Decoder * Result * option flow_error)) :=
  let '(d, h, res, body) := s in
  if len body <? setHeaderLen then Some (Leave (d, res, None))
  else
    id ← be16 body;
    length ← be16_at body 2;
    if (length <? setHeaderLen) || (len body <? length)
    then Some (Leave (d, res, Some ErrMalformed))
    else
      set ← slice body setHeaderLen length;
      body ← slice_from body length;
      '(d, h, res, err) ← decode_set d h id set now res;
      Some (match err with
            | Some e => Leave (d, res, Some e)
            | None => Next (d, h, res, body)
            end).

Definition decodeSets (d : Decoder) (h : exportHeader) (body : bytes) (now : Z)
    : option (Decoder * Result * option flow_error) :=
  for_loop (S (length body)) (decodeSets_body now) (d, h, result_zero, body).

Definition decodeV9 (d : Decoder) (exporter : Addr) (pkt : bytes) (now : Z)
    : option (Decoder * Result * option flow_error) :=
  if len pkt <? v9HeaderLen then Some (d, result_zero, Some ErrTruncated)
  else
    domain ← be32_at pkt 16;
    sec ← be32_at pkt 8;
    uptime ← be32_at pkt 4;
    body ← slice_from pkt v9HeaderLen;
    decodeSets d (ExportHeader exporter VersionNetFlow9 domain (time_unix sec 0) uptime true
                    time_zero false) body now.

Definition decodeIPFIX (d : Decoder) (exporter : Addr) (pkt : bytes) (now : Z)
    : option (Decoder * Result * option flow_error) :=
  if len pkt <? ipfixHeaderLen then Some (d, result_zero, Some ErrTruncated)
  else
    length ← be16_at pkt 2;
    if (length <? ipfixHeaderLen) || (len pkt <? length)
    then Some (d, result_zero, Some ErrTruncated)
    else
      domain ← be32_at pkt 12;
      sec ← be32_at pkt 4;
      let h := ExportHeader exporter VersionIPFIX domain (time_unix sec 0) 0 false
                 time_zero false in
      let h := match initTimes d !! DomainKey exporter domain with
               | Some it => if time_sub now (it_learned it) <=? templateLifetime
                            then set_init h (it_at it) else h
               | None => h
               end in
      body ← slice pkt ipfixHeaderLen length;
      decodeSets d h body now.

(** [Decoder.Decode] *)
Definition Decode (d : Decoder) (exporter : Addr) (pkt : bytes) (now : Z)
    : option (Decoder * Result * option flow_error) :=
  if len pkt <? versionLen then Some (d, result_zero, Some ErrTruncated)
  else
    v ← be16 pkt;
    if v =? 0 then '(res, err) ← decodeSFlow exporter pkt now; Some (d, res, err)
    else if v =? VersionNetFlow5 then '(res, err) ← decodeV5 exporter pkt; Some (d, res, err)
    else if v =? VersionNetFlow9 then decodeV9 d exporter pkt now
    else if v =? VersionIPFIX then decodeIPFIX d exporter pkt now
    else Some (d, result_zero, Some ErrUnsupportedVersion).
End decode.

(** ** Walking a record *)

Definition field_min (f : field) : Z := if fd_length f =? variableLength then 1 else fd_length f.

Lemma min_record_len_cons f fs : min_record_len (f :: fs) = field_min f + min_record_len fs.
Proof.
  assert (∀ (fs : list field) (n : Z),
    foldl (λ n f, if fd_length f =? variableLength then n + 1 else n + fd_length f) n fs
    = n + min_record_len fs) as Hshift.
  { intros fs'. unfold min_record_len. induction fs' as [|f' fs' IH]; intros n; cbn [foldl]; [lia|].
    destruct (fd_length f' =? variableLength); rewrite IH; symmetry; rewrite IH; lia. }
  unfold min_record_len at 1. cbn [foldl]. rewrite Hshift. unfold field_min. destruct (_ =? _); lia.
Qed.

(** The length and value offset of a field: at least what its template says,
    and still inside a 16-bit count of bytes. *)
Lemma wp_field_extent f b off :
  field_ok f → bytes_ok b → 0 ≤ off ≤ len b →
  wp (field_extent f b off) (λ r : option (Z * Z), match r with
    | Some (n, off') => 0 ≤ n ∧ off ≤ off' ∧ off + field_min f ≤ off' + n
    | None => True
    end).
Proof.
  intros [_ Hf] Hb Hoff. unfold field_extent, field_min. destruct (_ =? _); [|simpl; lia].
  wp_step; [done|]. wp_go; byte_facts; bool_lia.
Qed.

Lemma wp_walk_fields {S} (fn : S → field → bytes → option S) (I : S → Prop) b fs s off :
  (∀ s f v, I s → f ∈ fs → bytes_ok v → wp (fn s f v) I) →
  Forall field_ok fs → bytes_ok b → 0 ≤ off ≤ len b → I s →
  wp (walk_fields fn b fs s off) (λ r : S * option Z, I r.1 ∧ match r.2 with
    | Some n => off + min_record_len fs ≤ n ≤ len b
    | None => True
    end).
Proof.
  intros Hfn Hfs Hb. revert s off.
  induction Hfs as [|f fs Hf Hfs IH]; intros s off Hoff Hs; cbn [walk_fields].
  { apply wp_some. simpl. unfold min_record_len. simpl. split; [done|lia]. }
  eapply wp_bind_spec; [by apply wp_field_extent|]. intros [[n off']|] Hext; [|done].
  wp_step; [done|]. rewrite min_record_len_cons.
  eapply (wp_bind_spec _ _ I).
  - wp_step; [by apply wp_some|]. wp_go; [bool_lia..|].
    apply Hfn; [done|by left|]. by eapply bytes_ok_sub.
  - intros s' Hs'. eapply wp_mono.
    + apply IH; [|bool_lia|done]. intros. apply Hfn; [done|by right|done].
    + intros [s'' [n'|]]; simpl; [|done]. intros [? ?]. split; [done|bool_lia].
Qed.

Lemma wp_walkRecord {S} (fn : S → field → bytes → option S) (I : S → Prop) t b s :
  (∀ s f v, I s → f ∈ t_fields t → bytes_ok v → wp (fn s f v) I) →
  template_ok t → bytes_ok b → I s →
  wp (walkRecord t b fn s) (λ r : S * option Z, I r.1 ∧ match r.2 with
    | Some n => t_minLen t ≤ n ≤ len b
    | None => True
    end).
Proof.
  intros Hfn (_ & Hfs & Hm & _) Hb Hs. unfold walkRecord. rewrite Hm.
  apply wp_walk_fields; try done. pose proof (len_nonneg b). lia.
Qed.

(** ** What the fields of a record leave behind *)

Definition counters_ok (c : counters) : Prop :=
  0 ≤ c_deltaBytes c < 2 ^ 64 ∧ 0 ≤ c_deltaPackets c < 2 ^ 64 ∧
  0 ≤ c_totalBytes c < 2 ^ 64 ∧ 0 ≤ c_totalPackets c < 2 ^ 64.

Definition sampling_ok (s : sampling) : Prop :=
  (s_hasOneIn s = true → 0 < s_oneIn s < 2 ^ 32) ∧
  (s_hasInterval s = true → 0 < s_interval s < 2 ^ 32) ∧ 0 ≤ s_space s < 2 ^ 32.

Lemma sampling_zero_ok : sampling_ok sampling_zero.
Proof. unfold sampling_ok. simpl. split_and!; done || lia. Qed.

Lemma sampling_apply_ok s id v :
  sampling_ok s → sampling_ok (sampling_apply s id v).1.
Proof.
  intros (H1 & H2 & H3). unfold sampling_apply.
  pose proof (readUint_range 4 v). destruct (readUint 4 v) as [n ok], (readUint 8 v) as [n8 ok8].
  repeat case_match; split_and!; simpl in *; try done; try lia; intros; bool_lia.
Qed.

Lemma sampling_rate_ok s r : sampling_ok s → sampling_rate s = Some r → rate_ok r.
Proof.
  intros (H1 & H2 & H3). unfold sampling_rate, rate_ok.
  destruct (s_hasOneIn s); [intros [= <-]; simpl; specialize (H1 eq_refl); lia|].
  destruct (s_hasInterval s); simpl; [|done]. specialize (H2 eq_refl).
  destruct (s_hasSpace s); [|done]. intros [= <-]. simpl. rewrite wrap_small; lia.
Qed.

Lemma wp_applyField rec times cnt id v :
  record_ok rec → counters_ok cnt → bytes_ok v →
  wp (applyField rec times cnt id v) (λ r, record_ok r.1.1 ∧ counters_ok r.2 ∧
    Exporter r.1.1 = Exporter rec ∧ FlowFormat r.1.1 = FlowFormat rec).
Proof.
  intros (H1 & H2 & H3 & H4 & H5 & H6) (C1 & C2 & C3 & C4) Hv. unfold applyField.
  pose proof (readUint_range 2 v). pose proof (readUint_range 8 v).
  destruct (addr_from_slice v) as [a ok]. destruct (readUint 8 v) as [n8 ok8]. simpl in *.
  pose proof (len_nonneg v).
  repeat wp_step; try (apply wp_index; [bool_lia..|intros ? ?]; byte_facts); simpl;
    split_and!; try done; try lia.
  all: try (destruct ok; done). all: unfold record_ok, counters_ok; simpl; lia.
Qed.

(** ** Data records and data sets *)

(** What a decoded record states about its origin. *)
Definition from_header (h : exportHeader) (r : FlowRecord) : Prop :=
  record_ok r ∧ Exporter r = eh_exporter h ∧ FlowFormat r = header_format h.

Definition record_state_ok (h : exportHeader) (s : FlowRecord * flowTimes * counters * sampling)
    : Prop := from_header h s.1.1.1 ∧ counters_ok s.1.2 ∧ sampling_ok s.2.

Lemma wp_record_field h s f v :
  record_state_ok h s → bytes_ok v → wp (record_field s f v) (record_state_ok h).
Proof.
  destruct s as [[[rec times] cnt] smp]. intros ((Hr & He & Hf) & Hc & Hs) Hv.
  unfold record_field. pose proof (sampling_apply_ok smp (fd_id f) v Hs) as Hs'.
  destruct (sampling_apply smp (fd_id f) v) as [smp' ok]. simpl in *.
  wp_step; [by split_and!|].
  eapply wp_bind_spec; [by apply wp_applyField|].
  intros [[rec' times'] cnt'] (? & ? & He' & Hf'). simpl in *.
  split_and!; simpl; try done; unfold from_header; simpl. by rewrite He', Hf'.
Qed.

Lemma rate_one_ok : rate_ok (Rate 1 1).
Proof. unfold rate_ok. simpl. lia. Qed.

Lemma recordRate_ok d h i smp now :
  decoder_ok d → sampling_ok smp →
  decoder_ok (recordRate d h i smp now).1 ∧ rate_ok (recordRate d h i smp now).2.
Proof.
  intros Hd Hs. unfold recordRate. destruct (sampling_rate smp) as [r|] eqn:Hr.
  - split; [done|]. by eapply sampling_rate_ok.
  - apply first_rate_ok, Hd.
Qed.

Lemma wp_scale r n : rate_ok r → 0 ≤ n < 2 ^ 64 → wp (scale r n) (λ m, 0 ≤ m < 2 ^ 64).
Proof.
  intros [Hn Hd] ?. eapply wp_intro; [apply scale_spec; lia|].
  destruct (Z.eqb_spec (r_den r) 0); [lia|].
  assert (0 ≤ n * r_num r / r_den r) by (apply Z.div_pos; nia). lia.
Qed.

Lemma wp_decodeRecord d h t b now :
  decoder_ok d → template_ok t → bytes_ok b →
  wp (decodeRecord d h t b now) (λ r, decoder_ok r.1 ∧ match r.2 with
    | Some (rec, n) => from_header h rec ∧ t_minLen t ≤ n ≤ len b
    | None => True
    end).
Proof.
  intros Hd Ht Hb. unfold decodeRecord.
  eapply (wp_bind_spec _ _ (λ r, record_state_ok h r.1 ∧ match r.2 with
    | Some n => t_minLen t ≤ n ≤ len b | None => True end)).
  { apply wp_walkRecord; [|done|done|].
    - intros. by apply wp_record_field.
    - split_and!; [|done|apply sampling_zero_ok]. repeat split; simpl; lia || done. }
  intros [[[[rec times] cnt] smp] n] [((Hr & He & Hf) & Hc & Hs) Hn]. simpl in Hn.
  destruct n as [n|]; [|by apply wp_some].
  destruct (recordRate_ok d h (InputIf rec) smp now Hd Hs) as [Hd' Hrate].
  destruct (recordRate d h (InputIf rec) smp now) as [d' r]. simpl in Hr, Hc, Hd', Hrate.
  destruct Hc as (? & ? & ? & ?).
  eapply wp_bind_spec; [apply wp_scale; [done|by destruct (c_hasDeltaBytes cnt)]|].
  intros octets ?. eapply wp_bind_spec; [apply wp_scale; [done|by destruct (c_hasDeltaPackets cnt)]|].
  intros packets ?. destruct (resolveTimes h times) as [start end_]. simpl.
  destruct Hr as (? & ? & ? & ? & _). split_and!; try done; try lia.
Qed.

Section decode_facts.
Context `{!RangeOrder templateKey, !RangeOrder domainKey, !RangeOrder rateKey}.

(** Records collected so far: well formed, and no more than bytes read. *)
Definition results_ok (h : exportHeader) (budget : Z) (res : Result) : Prop :=
  Forall (from_header h) (Records res) ∧ len (Records res) ≤ budget ∧
  0 ≤ MissingTemplate res.

Lemma results_ok_add h n n' res rec :
  results_ok h n res → from_header h rec → n < n' → results_ok h n' (add_record res rec).
Proof.
  intros (? & ? & ?) ? ?. split_and!; simpl; [|rewrite len_app; unfold len at 2; simpl; lia|done].
  apply Forall_app. by split; [|apply Forall_singleton].
Qed.

Lemma results_ok_mono h n n' res : results_ok h n res → n ≤ n' → results_ok h n' res.
Proof. intros (? & ? & ?) ?. split_and!; try done. lia. Qed.

Lemma wp_decodeDataSet_loop d h t set now res n :
  decoder_ok d → template_ok t → bytes_ok set → results_ok h n res →
  wp (for_loop (S (length set)) (decodeDataSet_body h t now) (d, res, set)) (λ r,
    decoder_ok r.1.1 ∧ results_ok h (n + len set) r.1.2).
Proof.
  intros Hd Ht Hb Hres.
  apply (wp_for_loop _ (λ s, decoder_ok s.1.1 ∧ bytes_ok s.2 ∧ len s.2 ≤ len set ∧
           results_ok h (n + len set - len s.2) s.1.2) (λ s, length s.2)).
  - intros [[d' res'] set'] (Hd' & Hb' & Hl & Hr'). simpl in *. unfold decodeDataSet_body.
    pose proof (len_nonneg set'). wp_step.
    { simpl. split; [done|]. eapply results_ok_mono; [done|lia]. }
    eapply wp_bind_spec; [by apply wp_decodeRecord|]. intros [d'' [[rec k]|]] [Hd'' Hrec]; simpl in *.
    2: { split; [done|]. eapply results_ok_mono; [done|lia]. }
    destruct Hrec as [Hrec Hk], Ht as (_ & _ & _ & Hmin).
    apply wp_bind, wp_slice_from; [lia..|]. intros set'' Hl'' Hsub. simpl.
    split_and!; [done|by eapply bytes_ok_sub|lia| |unfold len in *; lia].
    eapply results_ok_add; [done|done|lia].
  - simpl. split_and!; [done|done|lia|]. eapply results_ok_mono; [done|lia].
  - simpl. lia.
Qed.

(** ** Options records *)

(** Only the boot time of a header changes while its datagram is read. *)
Definition same_export (h h' : exportHeader) : Prop :=
  eh_exporter h' = eh_exporter h ∧ eh_version h' = eh_version h ∧
  eh_domain h' = eh_domain h ∧ eh_exportTime h' = eh_exportTime h.

Lemma wp_options_field h now s f v :
  decoder_ok s.1.1.1 ∧ same_export h s.1.1.2 ∧ sampling_ok s.1.2 →
  wp (options_field now s f v) (λ s', decoder_ok s'.1.1.1 ∧ same_export h s'.1.1.2 ∧ sampling_ok s'.1.2).
Proof.
  destruct s as [[[d h'] smp] ifc]. simpl. intros (Hd & Hh & Hs). unfold options_field.
  destruct (readMilliseconds v) as [at_ valid].
  repeat wp_step; simpl; try done.
  - destruct valid; simpl; [|done]. split_and!; [by apply learnInitTime_ok|done|done].
  - split_and!; [done|done|by apply sampling_apply_ok].
Qed.

Lemma wp_readOptionsRecord d h t b now :
  decoder_ok d → template_ok t → bytes_ok b →
  wp (readOptionsRecord d h t b now) (λ r, decoder_ok r.1.1 ∧ same_export h r.1.2 ∧
    match r.2 with Some n => t_minLen t ≤ n ≤ len b | None => True end).
Proof.
  intros Hd Ht Hb. unfold readOptionsRecord.
  eapply (wp_bind_spec _ _ (λ r, (decoder_ok r.1.1.1.1 ∧ same_export h r.1.1.1.2 ∧
    sampling_ok r.1.1.2) ∧
    match r.2 with Some n => t_minLen t ≤ n ≤ len b | None => True end)).
  { apply (wp_walkRecord _ (λ s : options_state, decoder_ok s.1.1.1 ∧ same_export h s.1.1.2 ∧
      sampling_ok s.1.2)); [|done|done|].
    - intros. by apply wp_options_field.
    - simpl. split_and!; try done; apply sampling_zero_ok. }
  intros [[[[d' h'] smp] ifc] n] [(Hd' & Hh' & Hs) Hn]. simpl in *.
  destruct n as [n|]; simpl; [|done]. split_and!; try done; try lia.
  destruct (sampling_rate smp) as [r|] eqn:Hr; [|done].
  apply learnRate_ok; [done|]. by eapply sampling_rate_ok.
Qed.

Lemma wp_readExporterOptions d h t set now :
  decoder_ok d → template_ok t → bytes_ok set →
  wp (readExporterOptions d h t set now) (λ r, decoder_ok r.1.1 ∧ same_export h r.1.2).
Proof.
  intros Hd Ht Hb. unfold readExporterOptions.
  apply (wp_for_loop _ (λ s, decoder_ok s.1.1 ∧ same_export h s.1.2 ∧ bytes_ok s.2)
           (λ s, length s.2)); simpl; [|by split_and!|lia].
  intros [[d' h'] set'] (Hd' & Hh' & Hb'). simpl in *. unfold readExporterOptions_body.
  wp_step; [done|].
  eapply wp_bind_spec; [by apply wp_readOptionsRecord|].
  intros [[d'' h''] [n|]] (Hd'' & Hh'' & Hn); simpl in *.
  2: { split; [done|]. unfold same_export in *. intuition congruence. }
  destruct Ht as (_ & _ & _ & Hmin).
  apply wp_bind, wp_slice_from; [lia..|]. intros set'' Hl Hsub. simpl.
  split_and!; [done|unfold same_export in *; intuition congruence|by eapply bytes_ok_sub|].
  unfold len in *. lia.
Qed.
End decode_facts.

(** ** Template sets *)

Lemma wp_readFieldSpecifiers b count ipfix :
  bytes_ok b →
  wp (readFieldSpecifiers b count ipfix) (λ r, match r with
    | inl (fields, rest) => length fields = count ∧ Forall field_ok fields ∧ bytes_ok rest ∧
                            len rest + 4 * Z.of_nat count ≤ len b
    | inr _ => True
    end).
Proof.
  revert b. induction count as [|count IH]; intros b Hb; cbn [readFieldSpecifiers].
  { simpl. split_and!; [done|constructor|done|lia]. }
  unfold specifierLen, enterpriseNumLen. wp_step; [done|].
  apply wp_bind, wp_be16; [bool_lia|]. intros id Hid. specialize (Hid Hb).
  apply wp_bind, wp_be16_at; [lia|bool_lia|]. intros length Hlen. specialize (Hlen Hb).
  apply wp_bind, wp_slice_from; [lia|bool_lia|]. intros b1 Hl1 Hb1.
  assert (bytes_ok b1) by (by eapply bytes_ok_sub). cbv zeta.
  set (ent := ipfix && _). wp_step; [done|].
  apply (wp_bind_spec _ _ (λ b2, bytes_ok b2 ∧ len b2 ≤ len b1)).
  { wp_step; [|done]. apply wp_slice_from; [lia|bool_lia|]. intros b2 ? ?.
    split; [by eapply bytes_ok_sub|lia]. }
  intros b2 [Hb2 Hl2]. wp_step; [done|].
  eapply wp_bind_spec; [by apply IH|]. intros [[fields rest]|]; simpl; [|done].
  intros (Hn & Hf & Hr & Hlr). split_and!; [by rewrite Hn| |done|lia].
  constructor; [|done]. split; simpl; [|lia]. destruct ent; [|lia].
  assert (0 ≤ Z.ldiff id enterpriseBit ≤ id); [|lia].
  split; [by apply Z.ldiff_nonneg; left; lia|]. apply Z.ldiff_le; [lia|].
  apply Z.bits_inj'. intros i _. rewrite !Z.ldiff_spec, Z.bits_0.
  by destruct (Z.testbit id i); rewrite ?andb_false_r.
Qed.

Lemma wp_mark_scope n fields :
  (n ≤ length fields)%nat → Forall field_ok fields →
  wp (mark_scope n fields) (λ fs, length fs = length fields ∧ Forall field_ok fs).
Proof.
  revert fields. induction n as [|n IH]; intros fields Hn Hf; cbn [mark_scope]; [done|].
  destruct Hf as [|f fields Hf Hfs]; simpl in Hn; [lia|].
  eapply wp_bind_spec; [apply IH; [lia|done]|]. intros fs [Hl Hfs']. simpl. split; [lia|].
  by constructor.
Qed.

Section decode_templates.
Context `{!RangeOrder templateKey, !RangeOrder domainKey, !RangeOrder rateKey}.

Definition template_read (set : bytes) (r : Decoder * (bytes + flow_error)) : Prop :=
  decoder_ok r.1 ∧ match r.2 with
                   | inl rest => bytes_ok rest ∧ (length rest < length set)%nat
                   | inr _ => True
                   end.

Lemma learn_marked d h id fields n options now body :
  decoder_ok d → Forall field_ok fields → 0 < len fields ≤ maxTemplateFields →
  0 ≤ n ≤ len fields → ∀ rest, bytes_ok rest → (length rest < length body)%nat →
  wp (fields ← mark_scope (Z.to_nat n) fields;
      let '(d, err) := learn d h id fields options now in
      Some (d, match err with Some e => inr e | None => inl rest end)) (template_read body).
Proof.
  intros Hd Hf Hl Hn rest Hr Hlr. unfold len in *.
  eapply wp_bind_spec; [apply wp_mark_scope; [lia|done]|]. intros fs [Hlen Hfs].
  pose proof (learn_ok d h id fs options now Hd) as Hok.
  destruct (learn d h id fs options now) as [d' err]. simpl in *. split; simpl.
  - apply Hok; [unfold len; lia|done].
  - by destruct err.
Qed.

Lemma wp_learnTemplate d h set options now :
  decoder_ok d → bytes_ok set → 4 ≤ len set →
  wp (learnTemplate d h set options now) (template_read set).
Proof.
  intros Hd Hb Hl. unfold learnTemplate, withdrawalLen, optionsHeaderLen.
  apply wp_bind, wp_be16; [lia|]. intros id Hid.
  apply wp_bind, wp_be16_at; [lia..|]. intros count Hcount. specialize (Hcount Hb). cbv zeta.
  wp_step.
  { apply wp_bind, wp_slice_from; [lia..|]. intros rest Hlr Hr. simpl.
    split; [by apply withdraw_ok|]. split; [by eapply bytes_ok_sub|unfold len in *; lia]. }
  wp_step; [by split|]. wp_step; [by split|].
  apply (wp_bind_spec _ _ (λ scope, 0 ≤ scope < 2 ^ 16 ∧ (options = false → scope = 0))).
  { destruct options; [|by apply wp_some]. apply wp_be16_at; [lia|bool_lia|].
    intros scope Hs. split; [by apply Hs|done]. }
  intros scope Hscope. wp_step; [by split|].
  apply wp_bind, wp_slice_from; [destruct options; lia|bool_lia|]. intros body Hlb Hbody.
  eapply wp_bind_spec; [apply wp_readFieldSpecifiers; by eapply bytes_ok_sub|].
  intros [[fields rest]|]; [|by intros _; split]. intros (Hn & Hf & Hr & Hlr).
  unfold maxTemplateFields, minDataSetID in *.
  assert (len fields = count) as Hc by (unfold len; rewrite Hn; lia).
  apply learn_marked; try done; unfold maxTemplateFields; [bool_lia| |].
  - destruct Hscope as [? Hscope], options; [bool_lia|]. rewrite Hscope by done. bool_lia.
  - unfold len in *. destruct options; bool_lia.
Qed.

Lemma wp_learnTemplates d h set options now :
  decoder_ok d → bytes_ok set →
  wp (learnTemplates d h set options now) (λ r, decoder_ok r.1).
Proof.
  intros Hd Hb. unfold learnTemplates.
  apply (wp_for_loop _ (λ s, decoder_ok s.1 ∧ bytes_ok s.2) (λ s, length s.2)); [|done|simpl; lia].
  intros [d' set'] [Hd' Hb']. simpl in Hd', Hb'. unfold learnTemplates_body, specifierLen.
  wp_step; [done|]. apply wp_bind, wp_be16; [bool_lia|]. intros id _. wp_step; [done|].
  eapply wp_bind_spec; [apply wp_learnTemplate; [done|done|bool_lia]|].
  intros [d'' [rest|err]] [Hd'' Hr]; simpl in *; [|done]. naive_solver.
Qed.

Lemma wp_learnV9OptionsTemplates d h set now :
  decoder_ok d → bytes_ok set →
  wp (learnV9OptionsTemplates d h set now) (λ r, decoder_ok r.1).
Proof.
  intros Hd Hb. unfold learnV9OptionsTemplates.
  apply (wp_for_loop _ (λ s, decoder_ok s.1 ∧ bytes_ok s.2) (λ s, length s.2)); [|done|simpl; lia].
  intros [d' set'] [Hd' Hb']. simpl in Hd', Hb'.
  unfold learnV9OptionsTemplates_body, specifierLen, optionsHeaderLen, maxTemplateFields.
  wp_step; [done|]. apply wp_bind, wp_be16; [bool_lia|]. intros id _. wp_step; [done|].
  apply wp_bind, wp_be16_at; [lia|bool_lia|]. intros scopeLen Hs. specialize (Hs Hb').
  apply wp_bind, wp_be16_at; [lia|bool_lia|]. intros optionLen Ho. specialize (Ho Hb'). cbv zeta.
  wp_step; [done|]. apply wp_bind, wp_slice_from; [lia|bool_lia|]. intros body Hlb Hbody.
  eapply wp_bind_spec; [apply wp_readFieldSpecifiers; by eapply bytes_ok_sub|].
  intros [[fields rest]|err]; [|done]. intros (Hn & Hf & Hr & Hlr).
  set (count := (scopeLen + optionLen) / 4) in *.
  assert (0 ≤ count) by (apply Z.div_pos; lia).
  assert (scopeLen / 4 ≤ count) by (apply Z.div_le_mono; lia).
  assert (0 ≤ scopeLen / 4) by (apply Z.div_pos; lia).
  assert (len fields = count) as Hc by (unfold len; rewrite Hn; lia). unfold len in *.
  eapply wp_bind_spec; [apply wp_mark_scope; [lia|done]|]. intros fs [Hlen Hfs].
  pose proof (learn_ok d' h id fs true now Hd') as Hok.
  destruct (learn d' h id fs true now) as [d'' err]. simpl in Hok.
  assert (decoder_ok d'').
  { apply Hok; [unfold len, maxTemplateFields; bool_lia|done]. }
  apply wp_some. destruct err; simpl; [done|]. split_and!; [done..|bool_lia].
Qed.
End decode_templates.

(** ** Sets and datagrams *)
Section decode_total.
Context `{!RangeOrder templateKey, !RangeOrder domainKey, !RangeOrder rateKey}.

Lemma from_header_same h h' r : same_export h h' → from_header h' r ↔ from_header h r.
Proof.
  intros (He & Hv & Hd & Ht). unfold from_header, header_format. by rewrite He, Hv.
Qed.

Lemma results_ok_same h h' n res : same_export h h' → results_ok h' n res ↔ results_ok h n res.
Proof.
  intros Hs. unfold results_ok. rewrite (list.Forall_iff _ _ (from_header h)); [done|].
  intros r. by apply from_header_same.
Qed.

Lemma same_export_refl h : same_export h h.
Proof. done. Qed.

Lemma same_export_trans h1 h2 h3 : same_export h1 h2 → same_export h2 h3 → same_export h1 h3.
Proof. unfold same_export. intuition congruence. Qed.

(** What handling one set of [n] bytes keeps. *)
Definition set_result (h : exportHeader) (n : Z)
    (r : Decoder * exportHeader * Result * option flow_error) : Prop :=
  decoder_ok r.1.1.1 ∧ same_export h r.1.1.2 ∧ results_ok h n r.1.2.

Lemma wp_decodeDataSet d h id set now res n :
  decoder_ok d → bytes_ok set → results_ok h n res →
  wp (decodeDataSet d h id set now res) (set_result h (n + len set)).
Proof.
  intros Hd Hb Hr. pose proof (len_nonneg set). unfold decodeDataSet.
  pose proof (lookup_template_ok d h id now Hd) as [Hd' Ht].
  destruct (lookup_template d h id now) as [d' [t|]]; simpl in *.
  2: { split_and!; [done..|]. destruct Hr as (? & ? & ?). split_and!; simpl; [done|lia|lia]. }
  specialize (Ht t eq_refl). wp_step.
  - eapply wp_bind_spec; [by apply wp_readExporterOptions|].
    intros [[d'' h''] err] [? ?]. simpl in *. split_and!; [done..|].
    eapply results_ok_mono; [done|lia].
  - eapply wp_bind_spec; [by apply wp_decodeDataSet_loop|].
    intros [[d'' res'] err] [? ?]. simpl in *. by split_and!.
Qed.

Lemma wp_keep (h : exportHeader) res (n : Z) (m : option (Decoder * option flow_error)) :
  wp m (λ r, decoder_ok r.1) → results_ok h n res →
  wp ('(d, err) ← m; Some (d, h, res, err)) (set_result h n).
Proof.
  intros Hm Hr. eapply wp_bind_spec; [done|]. intros [d' err] Hd. apply wp_some. by split_and!.
Qed.

Lemma wp_decode_set d h id set now res n :
  decoder_ok d → bytes_ok set → results_ok h n res →
  wp (decode_set d h id set now res) (set_result h (n + len set)).
Proof.
  intros Hd Hb Hr. pose proof (len_nonneg set).
  assert (results_ok h (n + len set) res) as Hr' by (eapply results_ok_mono; [done|lia]).
  unfold decode_set. cbv beta zeta. wp_step; [by apply wp_decodeDataSet|].
  repeat (wp_step; [apply wp_keep; [|done];
                    by (apply wp_learnTemplates || apply wp_learnV9OptionsTemplates)|]).
  apply wp_some. by split_and!.
Qed.

Lemma wp_decodeSets d h body now :
  decoder_ok d → bytes_ok body →
  wp (decodeSets d h body now) (λ r, decoder_ok r.1.1 ∧ results_ok h (len body) r.1.2).
Proof.
  intros Hd Hb. pose proof (len_nonneg body). unfold decodeSets.
  apply (wp_for_loop _ (λ s, decoder_ok s.1.1.1 ∧ same_export h s.1.1.2 ∧ bytes_ok s.2 ∧
           len s.2 ≤ len body ∧ results_ok h (len body - len s.2) s.1.2) (λ s, length s.2)).
  - intros [[[d' h'] res] b] (Hd' & Hh & Hb' & Hl & Hr). simpl in Hd', Hh, Hb', Hl, Hr.
    unfold decodeSets_body, setHeaderLen. pose proof (len_nonneg b).
    assert (results_ok h (len body) res) by (eapply results_ok_mono; [done|lia]).
    wp_step; [done|]. apply wp_bind, wp_be16; [bool_lia|]. intros id Hid.
    apply wp_bind, wp_be16_at; [lia|bool_lia|]. intros length Hlen. wp_step; [done|].
    apply wp_bind, wp_slice; [lia|bool_lia..|]. intros set Hls Hset.
    apply wp_bind, wp_slice_from; [bool_lia..|]. intros b' Hlb' Hsub.
    eapply wp_bind_spec.
    { eapply (wp_decode_set _ _ _ _ _ _ (len body - len b)); [done|by eapply bytes_ok_sub|].
      by apply (results_ok_same h h'). }
    intros [[[d'' h''] res'] err] (Hd'' & Hh' & Hr'). simpl in Hd'', Hh', Hr'.
    apply (results_ok_same h h') in Hr'; [|done].
    apply wp_some. destruct err; simpl.
    + split; [done|]. eapply results_ok_mono; [done|bool_lia].
    + split_and!; [done|by eapply same_export_trans|by eapply bytes_ok_sub|bool_lia| |].
      * eapply results_ok_mono; [done|bool_lia].
      * unfold len in *. bool_lia.
  - simpl. split_and!; [done..|lia|]. repeat split; simpl; [constructor|unfold len; simpl; lia|done].
  - simpl. lia.
Qed.

Lemma wp_decodeV5_record e pkt et up dom smp i :
  bytes_ok pkt → 0 ≤ i → v5HeaderLen + (i + 1) * v5RecordLen ≤ len pkt → 0 ≤ smp < 2 ^ 14 →
  wp (decodeV5_record e pkt et up dom smp i) record_ok.
Proof.
  unfold v5HeaderLen, v5RecordLen. intros Hb Hi Hl Hs.
  unfold decodeV5_record, v5HeaderLen, v5RecordLen. wp_go. byte_facts.
  unfold record_ok. simpl. rewrite !wrap_small by nia. split_and!; nia || lia.
Qed.

Lemma wp_decodeV5 e pkt :
  bytes_ok pkt →
  wp (decodeV5 e pkt) (λ r, Forall record_ok (Records r.1) ∧ len (Records r.1) ≤ len pkt).
Proof.
  intros Hb. pose proof (len_nonneg pkt). unfold decodeV5.
  assert (Forall record_ok (Records result_zero) ∧ len (Records result_zero) ≤ len pkt)
    by (split; [constructor|done]).
  wp_step; [done|]. unfold v5HeaderLen, v5RecordLen in *.
  apply wp_bind, wp_be16_at; [lia|bool_lia|]. intros count Hc. specialize (Hc Hb).
  wp_step; [done|]. wp_step; [done|].
  do 3 (apply wp_bind, wp_be32_at; [lia|bool_lia|]; intros ? _).
  apply wp_bind, wp_be16_at; [lia|bool_lia|]. intros domain _.
  apply wp_bind, wp_be16_at; [lia|bool_lia|]. intros mode Hmode. cbv zeta. specialize (Hmode Hb).
  assert (0 ≤ Z.land mode v5SamplingMask < 2 ^ 14).
  { unfold v5SamplingMask. change 0x3FFF with (Z.ones 14). rewrite Z.land_ones by lia.
    apply Z.mod_pos_bound. lia. }
  set (smp := if Z.land mode v5SamplingMask =? 0 then 1 else Z.land mode v5SamplingMask).
  assert (0 ≤ smp < 2 ^ 14) by (subst smp; destruct (Z.land mode v5SamplingMask =? 0); lia).
  eapply wp_bind_spec.
  { apply wp_mapM. intros i Hi%elem_of_seq. apply wp_decodeV5_record; [done|lia| |done].
    unfold v5HeaderLen, v5RecordLen. bool_lia. }
  intros records [Hr Hlr]. simpl. split; [done|]. unfold len in *. rewrite Hlr, length_seq. bool_lia.
Qed.
End decode_total.

(** ** Properties of the decoder *)

Section decode_properties.
Context `{!RangeOrder templateKey, !RangeOrder domainKey, !RangeOrder rateKey}.

Lemma Decode_wp d exporter pkt now :
  decoder_ok d → bytes_ok pkt →
  wp (Decode d exporter pkt now) (λ r,
    decoder_ok r.1.1 ∧ Forall record_ok (Records r.1.2) ∧ len (Records r.1.2) ≤ len pkt).
Proof.
  intros Hd Hb. pose proof (len_nonneg pkt). unfold Decode.
  assert (decoder_ok d ∧ Forall record_ok (Records result_zero) ∧
          len (Records result_zero) ≤ len pkt) as H0
    by (split_and!; [done|constructor|done]).
  assert (∀ h body, bytes_ok body → len body ≤ len pkt →
    wp (decodeSets d h body now) (λ r,
      decoder_ok r.1.1 ∧ Forall record_ok (Records r.1.2) ∧ len (Records r.1.2) ≤ len pkt)) as Hsets.
  { intros h body Hbody Hl. eapply wp_mono; [by apply wp_decodeSets|].
    intros [[d' res] err] (Hd' & Hr & Hn & _). simpl in *. split_and!; [done| |lia].
    eapply Forall_impl; [exact Hr|]. by intros r (? & _). }
  unfold versionLen. wp_step; [done|]. apply wp_bind, wp_be16; [bool_lia|]. intros v _.
  wp_step; [|wp_step; [|wp_step; [|wp_step; [|done]]]].
  - destruct (decodeSFlow_bounded exporter pkt now Hb) as (res & err & -> & Hr & Hl). simpl.
    pose proof (len_nonneg (Records res)). split_and!; [done| |lia].
    eapply Forall_impl; [exact Hr|]. by intros r ((? & _) & _).
  - eapply wp_bind_spec; [by apply wp_decodeV5|]. intros [res err] [? ?]. by apply wp_some.
  - unfold decodeV9, v9HeaderLen. wp_step; [done|].
    do 3 (apply wp_bind, wp_be32_at; [lia|bool_lia|]; intros ? _).
    apply wp_bind, wp_slice_from; [lia|bool_lia|]. intros body ? ?.
    apply Hsets; [by eapply bytes_ok_sub|lia].
  - unfold decodeIPFIX, ipfixHeaderLen. wp_step; [done|].
    apply wp_bind, wp_be16_at; [lia|bool_lia|]. intros length _. wp_step; [done|].
    do 2 (apply wp_bind, wp_be32_at; [lia|bool_lia|]; intros ? _). cbv zeta.
    apply wp_bind, wp_slice; [lia|bool_lia..|]. intros body ? ?.
    apply Hsets; [by eapply bytes_ok_sub|bool_lia].
Qed.

(** The datagrams a listener hands its decoder, one after the other. *)
Fixpoint decode_all (d : Decoder) (l : list (Addr * bytes * Z)) : option (Decoder * list Result) :=
  match l with
  | [] => Some (d, [])
  | (exporter, pkt, now) :: l' =>
      '(d, res, _) ← Decode d exporter pkt now;
      '(d, rs) ← decode_all d l';
      Some (d, res :: rs)
  end.

(** C1: Decoding never fails to return. From an empty decoder, whatever
    datagrams arrive from whatever exporters and whenever, each [Decode]
    returns: no read leaves a datagram, no conversion or division panics
    and every loop ends. All the while the template, boot time and
    sampling rate caches hold at most 4096 entries each, and every cached
    template has at most 256 fields and describes non-empty records. *)
Theorem decode_all_total l :
  Forall (λ q, bytes_ok q.1.2) l →
  ∃ d rs, decode_all NewDecoder l = Some (d, rs) ∧ decoder_ok d ∧ length rs = length l.
Proof.
  intros Hl. cut (∀ d, decoder_ok d →
    wp (decode_all d l) (λ r, decoder_ok r.1 ∧ length r.2 = length l)).
  { intros H. destruct (wp_elim _ _ (H NewDecoder NewDecoder_ok)) as ([d rs] & ? & ? & ?).
    by exists d, rs. }
  induction Hl as [|[[exporter pkt] now] l Hp _ IH]; intros d Hd; cbn [decode_all]; [done|].
  eapply wp_bind_spec; [by apply Decode_wp|]. intros [[d' res] err] (Hd' & _). simpl in Hd'.
  eapply wp_bind_spec; [by apply IH|]. intros [d'' rs] [Hd'' Hrs]. simpl in *. split; [done|].
  by rewrite Hrs.
Qed.

(** C30: One datagram, in any state the decoder can be in: the decoder's
    invariant is kept, every record's ports, protocol, flags and 64-bit
    counters are in range, and there are at most as many records as
    bytes. *)
Theorem Decode_records d exporter pkt now :
  decoder_ok d → bytes_ok pkt →
  ∃ d' res err, Decode d exporter pkt now = Some (d', res, err) ∧ decoder_ok d' ∧
    Forall record_ok (Records res) ∧ len (Records res) ≤ len pkt.
Proof.
  intros Hd Hb. destruct (wp_elim _ _ (Decode_wp d exporter pkt now Hd Hb))
    as ([[d' res] err] & ? & ?). by exists d', res, err.
Qed.
End decode_properties.

(** An IPFIX message with a two-field template and one record of it. *)
Definition sample_ipfix : bytes :=
  [0;10; 0;44; 0;0;0;100; 0;0;0;1; 0;0;0;7] ++
  [0;2; 0;16; 1;0; 0;2; 0;7; 0;2; 0;1; 0;8] ++
  [1;0; 0;12] ++ [31;144; 0;0;0;0;0;0].

Definition sample_ipfix_2 : bytes :=
  [0;10; 0;30; 0;0;0;100; 0;0;0;1; 0;0;0;7] ++ [1;0; 0;14] ++ [31;144; 0;0;0;0;0;0;3;232].

Example decode_ipfix_sample :
  (λ r, map (λ res, (map (λ q, (SrcPort q, Bytes q, FlowFormat q)) (Records res), MissingTemplate res))
          r.2) <$>
    decode_all NewDecoder [(Addr4 [10;0;0;1], sample_ipfix_2, 0);
                           (Addr4 [10;0;0;1], sample_ipfix, 5);
                           (Addr4 [10;0;0;1], sample_ipfix_2, 10);
                           (Addr4 [10;0;0;2], sample_ipfix_2, 10)] =
  Some [([], 1); ([], 0); ([(8080, 1000, FormatIPFIX)], 0); ([], 1)].
Proof. vm_compute. reflexivity. Qed.

Lemma decode_all_total_witness :
  ∃ d rs, decode_all NewDecoder [(Addr4 [10;0;0;1], sample_ipfix, 5);
                                 (Addr4 [10;0;0;1], sample_ipfix_2, 10)] = Some (d, rs) ∧
    decoder_ok d ∧ length rs = 2%nat.
Proof.
  refine (decode_all_total [_; _] _). repeat constructor; simpl; unfold is_byte; lia.
Defined.

Lemma Decode_records_witness :
  ∃ d' res err, Decode NewDecoder AddrInvalid sample_ipfix 5 = Some (d', res, err) ∧ decoder_ok d' ∧
    Forall record_ok (Records res) ∧ len (Records res) ≤ len sample_ipfix.
Proof.
  refine (Decode_records NewDecoder AddrInvalid sample_ipfix 5 NewDecoder_ok _).
  repeat constructor; simpl; unfold is_byte; lia.
Defined.

(** ** Exporter uptimes *)

Lemma wrap_shift w x y : 0 ≤ w → wrap w (wrap w x - wrap w (x + y)) = wrap w (- y).
Proof. intros. unfold wrap. rewrite <-Zminus_mod. f_equal. lia. Qed.

(** The wall time of an event [k] milliseconds from the export is
    right for every uptime, across the wrap of the 32-bit counter every 49.7
    days: at most 2^31 - 1 ms before the export or 2^31 ms after it. *)
Theorem uptimeTime_spec exportTime uptime k :
  - (2 ^ 31 - 1) ≤ k ≤ 2 ^ 31 →
  uptimeTime exportTime (wrap 32 uptime) (wrap 32 (uptime + k)) = exportTime + k * millisecond.
Proof.
  intros Hk. unfold uptimeTime, time_add. rewrite wrap_shift by lia.
  assert (wrap 32 (wrap 32 (uptime + k) - wrap 32 uptime) = wrap 32 k) as ->.
  { unfold wrap. rewrite <-Zminus_mod. f_equal. lia. }
  destruct (Z.leb_spec (wrap 32 (- k)) (2 ^ 31 - 1)) as [Hle|Hgt]; unfold wrap in *.
  - assert (k ≤ 0 ∧ (- k) mod 2 ^ 32 = - k) as [? ->]; [|lia].
    destruct (decide (k ≤ 0)); [rewrite Z.mod_small by lia; lia|].
    rewrite <-(Z.mod_unique (- k) (2 ^ 32) (-1) (2 ^ 32 - k)) in Hle by lia. lia.
  - assert (0 < k).
    { destruct (decide (0 < k)); [done|]. rewrite Z.mod_small in Hgt by lia. lia. }
    rewrite (Z.mod_small k) by lia. lia.
Qed.

(** An event a second before an export just after the counter wrapped. *)
Lemma uptimeTime_spec_witness : uptimeTime 5000000000 400 4294966696 = 4000000000.
Proof. refine (uptimeTime_spec 5000000000 (2 ^ 32 + 400) (-1000) _). lia. Defined.

(** ** NetFlow v5 records *)

Lemma slice_from_read {A} (f : bytes → option A) (b r : bytes) o i v :
  0 ≤ o → slice_from b o = Some r → (x ← slice_from r i; f x) = Some v →
  (x ← slice_from b (o + i); f x) = Some v.
Proof.
  intros Ho [Hlo ->]%slice_from_inv (y & [Hli ->]%slice_from_inv & Hf)%bind_Some.
  rewrite len_drop in Hli. rewrite slice_from_Some by lia.
  by rewrite Z2Nat.inj_add, <-drop_drop by lia.
Qed.

(** What record [i] of a v5 datagram says, at its fixed offsets. *)
Definition v5_record_at (pkt : bytes) (rate i : Z) (r : FlowRecord) : Prop :=
  let off := v5HeaderLen + i * v5RecordLen in
  (∃ n, be32_at pkt (off + 20) = Some n ∧ Bytes r = n * rate) ∧
  (∃ n, be32_at pkt (off + 16) = Some n ∧ Packets r = n * rate) ∧
  be16_at pkt (off + 32) = Some (SrcPort r) ∧ be16_at pkt (off + 34) = Some (DstPort r) ∧
  be16_at pkt (off + 12) = Some (InputIf r) ∧ be16_at pkt (off + 14) = Some (OutputIf r).

Lemma decodeV5_record_at e pkt et up dom rate i r :
  bytes_ok pkt → 0 ≤ i → 0 ≤ rate < 2 ^ 14 →
  decodeV5_record e pkt et up dom rate i = Some r → v5_record_at pkt rate i r.
Proof.
  intros Hb Hi Hrate Hr. unfold decodeV5_record in Hr.
  repeat match type of Hr with
  | (_ ≫= _) = Some _ => apply bind_Some in Hr as (? & ? & Hr)
  end.
  simplify_eq. match goal with H : slice_from pkt _ = Some ?x |- _ =>
    assert (bytes_ok x) as Hx by (by eapply slice_bytes_ok) end.
  repeat match goal with H : be32_at _ _ = Some _ |- _ =>
    pose proof (be32_at_range _ _ _ H Hx); unfold be32_at in H end.
  unfold v5_record_at. cbv zeta. unfold be16_at, be32_at in *. simpl.
  assert (0 ≤ v5HeaderLen + i * v5RecordLen) by (unfold v5HeaderLen, v5RecordLen; lia).
  split_and!; try (by eapply slice_from_read); eexists; (split; [by eapply slice_from_read|]).
  all: rewrite wrap_small; [done|nia].
Qed.

Lemma mapM_lookup {A B} (f : A → option B) l k i y :
  mapM f l = Some k → k !! i = Some y → ∃ x, l !! i = Some x ∧ f x = Some y.
Proof.
  intros Hm Hi. apply mapM_Some in Hm.
  destruct (Forall2_lookup_r _ _ _ _ _ Hm Hi) as (x & ? & ?). eauto.
Qed.

(** A complete NetFlow v5 datagram yields exactly the records its
    header counts, in order, each with the addresses, ports and interfaces
    at its fixed offsets and its counters multiplied by the sampling
    interval of the header (one when it is zero), without overflow. *)
Theorem decodeV5_spec exporter pkt count mode :
  bytes_ok pkt → be16_at pkt 2 = Some count → be16_at pkt 22 = Some mode →
  1 ≤ count ≤ v5MaxRecords → v5HeaderLen + count * v5RecordLen ≤ len pkt →
  ∃ records, decodeV5 exporter pkt = Some (MkResult records 0, None) ∧ len records = count ∧
    ∀ i r, records !! i = Some r →
      v5_record_at pkt (Z.max 1 (Z.land mode v5SamplingMask)) (Z.of_nat i) r ∧
      Exporter r = exporter ∧ FlowFormat r = FormatNetFlow5.
Proof.
  unfold v5MaxRecords. intros Hb Hcount Hmode Hc Hl.
  assert (0 ≤ Z.land mode v5SamplingMask < 2 ^ 14) as Hm.
  { unfold v5SamplingMask. change 0x3FFF with (Z.ones 14). rewrite Z.land_ones by lia.
    apply Z.mod_pos_bound. lia. }
  cut (wp (decodeV5 exporter pkt) (λ r, r.2 = None ∧ MissingTemplate r.1 = 0 ∧
    len (Records r.1) = count ∧ ∀ i q, Records r.1 !! i = Some q →
      v5_record_at pkt (Z.max 1 (Z.land mode v5SamplingMask)) (Z.of_nat i) q ∧
      Exporter q = exporter ∧ FlowFormat q = FormatNetFlow5)).
  { intros ([[records miss] err] & -> & ? & ? & ? & ?)%wp_elim. simpl in *. subst.
    by exists records. }
  unfold decodeV5, v5MaxRecords. rewrite Hcount. cbn [mbind option_bind].
  unfold v5HeaderLen, v5RecordLen in Hl |- *. pose proof Hl.
  wp_step; [bool_lia|]. wp_step; [bool_lia|]. wp_step; [bool_lia|].
  do 3 (apply wp_bind, wp_be32_at; [lia|lia|]; intros ? _).
  apply wp_bind, wp_be16_at; [lia|lia|]. intros domain _.
  rewrite Hmode. cbn [mbind option_bind]. cbv zeta.
  replace (if _ =? 0 then 1 else _) with (Z.max 1 (Z.land mode v5SamplingMask))
    by (destruct (Z.eqb_spec (Z.land mode v5SamplingMask) 0); lia).
  apply wp_bind. destruct (mapM _ _) as [records|] eqn:Hmap; simpl.
  2: { eapply eq_None_not_Some; [exact Hmap|]. eapply wp_is_Some, (wp_mapM _ record_ok). intros i Hi%elem_of_seq. apply wp_decodeV5_record; [done|lia| |lia].
       unfold v5HeaderLen, v5RecordLen. lia. }
  split_and!; [done..| |].
  - apply mapM_Some, Forall2_length in Hmap. rewrite length_seq in Hmap. unfold len. lia.
  - intros i q Hq. destruct (mapM_lookup _ _ _ _ _ Hmap Hq) as (j & Hj & Hrec).
    apply lookup_seq in Hj as [-> _]. simpl in Hrec.
    split; [eapply decodeV5_record_at; [done|lia|lia|exact Hrec]|].
    unfold decodeV5_record in Hrec.
    repeat match type of Hrec with
    | (_ ≫= _) = Some _ => apply bind_Some in Hrec as (? & ? & Hrec)
    end. by injection Hrec as <-.
Qed.

(** One record, sampled 1 in 10. *)
Definition sample_v5 : bytes :=
  [0;5;0;1] ++ [0;0;3;232] ++ [0;0;0;100] ++ [0;0;0;0] ++ [0;0;0;1] ++ [0;3] ++ [0;10] ++
  [10;0;0;1; 10;0;0;2; 0;0;0;0; 0;3; 0;4; 0;0;0;2; 0;0;5;0; 0;0;0;100; 0;0;0;200;
   31;144; 0;80; 0; 24; 6; 0; 0;0;0;0; 0;0;0;0].

Lemma decodeV5_spec_witness :
  ∃ records, decodeV5 AddrInvalid sample_v5 = Some (MkResult records 0, None) ∧ len records = 1 ∧
    ∀ i r, records !! i = Some r →
      v5_record_at sample_v5 10 (Z.of_nat i) r ∧
      Exporter r = AddrInvalid ∧ FlowFormat r = FormatNetFlow5.
Proof.
  refine (decodeV5_spec AddrInvalid sample_v5 1 10 _ _ _ _ _).
  - repeat constructor; simpl; unfold is_byte; lia.
  - reflexivity.
  - reflexivity.
  - unfold v5MaxRecords. lia.
  - vm_compute. discriminate.
Defined.
