(* ===== verification/Indicators.v ===== *)
(** * Threat indicators (src/internal/indicators/indicators.go and
    src/internal/listener/flow/indicators.go)

    The operator's list of hostile addresses and prefixes, its lookup by
    longest prefix, and the check of a batch of flows against it. Addresses
    are numbers of their family's width, as [netip.Addr] keeps them. The
    text forms of addresses and prefixes are the standard library's; they
    are parameters. *)
From Stdlib Require Import ZArith Lia Ascii.
From stdpp Require Import base gmap sets list strings sorting.
From S2P Require Import Prelude GoBase FlowTypes.

(** ** The list *)
Module ThreatList.

(** [netip.Prefix]: the width and number of its address, which has no zone,
    and its length; the zero prefix has width 0 and length -1. *)
Record Prefix : Type := MkPrefix { px_width : Z; px_value : Z; px_bits : Z }.

#[export] Instance Prefix_eq_dec : EqDecision Prefix.
Proof. solve_decision. Defined.
#[export] Instance Prefix_countable : Countable Prefix.
Proof.
  refine (inj_countable' (λ p, (px_width p, px_value p, px_bits p)) (λ '(w, v, b), MkPrefix w v b) _).
  by intros [].
Defined.

Definition prefix_zero : Prefix := MkPrefix 0 0 (-1).

(** [netip.PrefixFrom]: an invalid length is kept as none. *)
Definition PrefixFrom (a : Addr) (bits : Z) : Prefix :=
  match addr_value a with
  | None => prefix_zero
  | Some (w, x) => MkPrefix w x (if (0 <=? bits) && (bits <=? w) then bits else -1)
  end.

(** The number [x] of [w] bits with all but the first [bits] cleared. *)
Definition high (w x bits : Z) : Z := Z.shiftl (Z.shiftr x (w - bits)) (w - bits).

Definition Masked (p : Prefix) : Prefix :=
  if px_bits p <? 0 then prefix_zero
  else MkPrefix (px_width p) (high (px_width p) (px_value p) (px_bits p)) (px_bits p).

(** [Addr.BitLen] *)
Definition BitLen (a : Addr) : Z := match addr_value a with Some (w, _) => w | None => 0 end.

Definition IsSingleIP (p : Prefix) : bool := (0 <=? px_bits p) && (px_bits p =? px_width p).
Definition Is4In6 (p : Prefix) : bool := (px_width p =? 128) && (Z.shiftr (px_value p) 32 =? 0xffff).

Definition Overlaps (p o : Prefix) : bool :=
  if (px_bits p <? 0) || (px_bits o <? 0) then false
  else if bool_decide (p = o) then true
  else if negb (px_width p =? px_width o) then false
  else let n := Z.min (px_bits p) (px_bits o) in
    (n =? 0) || (high (px_width p) (px_value p) n =? high (px_width o) (px_value o) n).

Definition maxEntries : Z := 10000.

Definition internalRanges : list Prefix := [
  MkPrefix 32 0 8;
  MkPrefix 32 (10 * 2 ^ 24) 8;
  MkPrefix 32 (100 * 2 ^ 24 + 64 * 2 ^ 16) 10;
  MkPrefix 32 (127 * 2 ^ 24) 8;
  MkPrefix 32 (169 * 2 ^ 24 + 254 * 2 ^ 16) 16;
  MkPrefix 32 (172 * 2 ^ 24 + 16 * 2 ^ 16) 12;
  MkPrefix 32 (192 * 2 ^ 24 + 168 * 2 ^ 16) 16;
  MkPrefix 32 (224 * 2 ^ 24) 3;
  MkPrefix 128 0 127;
  MkPrefix 128 (0xfc00 * 2 ^ 112) 7;
  MkPrefix 128 (0xfe80 * 2 ^ 112) 10;
  MkPrefix 128 (0xff00 * 2 ^ 112) 8
].

Record List : Type := MkList {
  entries : list Prefix;
  byBits : gmap Z (gset Prefix);
  bits : list Z;
}.

Inductive entry_error : Type := BadText | Mapped | HostBits | Reaches.
Inductive new_error : Type :=
| TooMany (n : Z)
| Entry (i : Z) (e : entry_error)
| Repeats (i : Z).

(** [slices.SortFunc(l.bits, ...)]: longest first. *)
Definition longer (a b : Z) : Prop := b ≤ a.
#[export] Instance longer_dec : RelDecision longer := λ a b, decide (b ≤ a).

(** The number [v] in [n] bytes, and [Prefix.Addr]. *)
Fixpoint num_bytes (n : nat) (v : Z) : bytes :=
  match n with O => [] | S n => num_bytes n (v / 256) ++ [v mod 256] end.
Definition AddrOf (p : Prefix) : Addr :=
  if px_width p =? 32 then Addr4 (num_bytes 4 (px_value p))
  else if px_width p =? 128 then Addr6 (num_bytes 16 (px_value p)) ""
  else AddrInvalid.

(** The text forms of [netip]. *)
Class NetIP : Type := {
  ParsePrefix : string → option Prefix;
  ParseAddr : string → option Addr;
  PrefixString : Prefix → string;
  AddrString : Addr → string;
}.

Section parse.
Context `{!NetIP}.

Definition parseEntry (s : string) (internal : list Prefix) : Prefix + entry_error :=
  let parsed :=
    match ParsePrefix s with
    | Some p => Some p
    | None =>
        match ParseAddr s with
        | Some a => if has_zone a then None else Some (PrefixFrom a (BitLen a))
        | None => None
        end
    end in
  match parsed with
  | None => inr BadText
  | Some p =>
      if Is4In6 p then inr Mapped
      else if negb (bool_decide (Masked p = p)) then inr HostBits
      else if existsb (λ r, Overlaps r p) internal then inr Reaches
      else inl p
  end.

(** One round of the loop of [New]: entry [p] goes under its length. *)
Definition add_entry (l : List) (p : Prefix) : List :=
  match byBits l !! px_bits p with
  | Some s => MkList (entries l ++ [p]) (<[px_bits p := {[p]} ∪ s]> (byBits l)) (bits l)
  | None => MkList (entries l ++ [p]) (<[px_bits p := {[p]}]> (byBits l)) (bits l ++ [px_bits p])
  end.

Definition repeats (l : List) (p : Prefix) : bool :=
  match byBits l !! px_bits p with Some s => bool_decide (p ∈ s) | None => false end.

Fixpoint New_loop (l : List) (i : Z) (es : list string) : List + new_error :=
  match es with
  | [] => inl l
  | s :: rest =>
      match parseEntry s internalRanges with
      | inr e => inr (Entry i e)
      | inl p => if repeats l p then inr (Repeats i) else New_loop (add_entry l p) (i + 1) rest
      end
  end.

Definition New (es : list string) : List + new_error :=
  if maxEntries <? len es then inr (TooMany (len es))
  else
    match New_loop (MkList [] ∅ []) 0 es with
    | inl l => inl (MkList (entries l) (byBits l) (merge_sort longer (bits l)))
    | inr e => inr e
    end.

Definition entry_text (p : Prefix) : string :=
  if IsSingleIP p then AddrString (AddrOf p) else PrefixString p.
Definition Entries (l : List) : list string := map entry_text (entries l).
End parse.

Definition Len (l : List) : Z := len (entries l).

Fixpoint Match_loop (byBits : gmap Z (gset Prefix)) (a : Addr) (bits : list Z) : Prefix * bool :=
  match bits with
  | [] => (prefix_zero, false)
  | n :: rest =>
      if BitLen a <? n then Match_loop byBits a rest
      else
        let p := Masked (PrefixFrom a n) in
        match byBits !! n with
        | Some s => if bool_decide (p ∈ s) then (p, true) else Match_loop byBits a rest
        | None => Match_loop byBits a rest
        end
  end.

Definition Match (l : List) (a : Addr) : Prefix * bool := Match_loop (byBits l) (addr_unmap a) (bits l).

(** *** What the list promises *)

(** The addresses of a prefix: its family's, with its leading bits. *)
Definition within (p : Prefix) (a : Addr) : bool :=
  match addr_value a with
  | Some (w, x) => (w =? px_width p) && (0 <=? px_bits p) && (px_bits p <=? w) &&
      (high w x (px_bits p) =? high w (px_value p) (px_bits p))
  | None => false
  end.

(** The prefixes and addresses of the two families. *)
Definition valid_prefix (p : Prefix) : bool :=
  ((px_width p =? 32) || (px_width p =? 128)) && (0 <=? px_value p) && (px_value p <? 2 ^ px_width p) &&
  (0 <=? px_bits p) && (px_bits p <=? px_width p).
Definition valid_addr (a : Addr) : bool :=
  match a with
  | AddrInvalid => false
  | Addr4 b => (len b =? 4) && forallb (λ c, (0 <=? c) && (c <? 256)) b
  | Addr6 b _ => (len b =? 16) && forallb (λ c, (0 <=? c) && (c <? 256)) b
  end.

(** What the package documents of them: a parser returns what is valid, what
    is printed reads back, and an address is not a prefix. *)
Class NetIPLaws `{!NetIP} : Prop := {
  parse_prefix_valid s p : ParsePrefix s = Some p → valid_prefix p = true;
  parse_addr_valid s a : ParseAddr s = Some a → valid_addr a = true;
  prefix_text p : valid_prefix p = true → ParsePrefix (PrefixString p) = Some p;
  addr_text a : valid_addr a = true → ParseAddr (AddrString a) = Some a;
  addr_no_prefix a : valid_addr a = true → ParsePrefix (AddrString a) = None;
}.
End ThreatList.

(** ** The check of a batch of flows *)

(** [listener.FlowIndicatorHit] *)
Record FlowIndicatorHit : Type := MkHit {
  fh_Host : string; fh_Listed : string; fh_Indicator : string; fh_Exporter : string;
  fh_Flows : Z; fh_Bytes : Z; fh_Packets : Z; fh_FirstSeen : Z; fh_LastSeen : Z;
}.

Module HitCheck.
Import ThreatList.

(** [hitKey]: the host and the listed address. *)
Abbreviation hitKey := (Addr * Addr)%type.

(** [json.Marshal] of a hit fails exactly when a time's year is not in
    [0, 9999]; the decoder's times are UTC. *)
Definition json_time (t : Z) : bool := (-62167219200 * second <=? t) && (t <? 253402300800 * second).
Definition Marshal (h : FlowIndicatorHit) : bool := json_time (fh_FirstSeen h) && json_time (fh_LastSeen h).

Section check.
Context `{!NetIP}.

(** The local variables of [checkIndicators]: the hits and their order. *)
Record acc : Type := MkAcc { hits : gmap hitKey FlowIndicatorHit; order : list hitKey }.

Definition new_hit (f : FlowRecord) (host listed : Addr) (indicator : Prefix) : FlowIndicatorHit :=
  MkHit (AddrString host) (AddrString listed) (PrefixString indicator) (AddrString (Exporter f)) 0 0 0
    (Start f) (End_ f).

(** What a further flow adds to a hit. *)
Definition count_flow (f : FlowRecord) (h : FlowIndicatorHit) : FlowIndicatorHit :=
  MkHit (fh_Host h) (fh_Listed h) (fh_Indicator h) (fh_Exporter h)
    (fh_Flows h + 1) (wrap 64 (fh_Bytes h + Bytes f)) (wrap 64 (fh_Packets h + Packets f))
    (if time_before (Start f) (fh_FirstSeen h) then Start f else fh_FirstSeen h)
    (if time_after (End_ f) (fh_LastSeen h) then End_ f else fh_LastSeen h).

Definition record (l : List) (f : FlowRecord) (host listed : Addr) (a : acc) : acc :=
  let '(indicator, ok) := Match l listed in
  if negb ok then a
  else
    match hits a !! (host, listed) with
    | None => MkAcc (<[(host, listed) := count_flow f (new_hit f host listed indicator)]> (hits a))
        (order a ++ [(host, listed)])
    | Some h => MkAcc (<[(host, listed) := count_flow f h]> (hits a)) (order a)
    end.

Fixpoint check_batch (l : List) (batch : list FlowRecord) (a : acc) : acc :=
  match batch with
  | [] => a
  | f :: rest =>
      check_batch l rest (record l f (DstAddr f) (SrcAddr f) (record l f (SrcAddr f) (DstAddr f) a))
  end.

(** [publishHit]: what is handed to the sink. *)
Definition publishHit (h : FlowIndicatorHit) : list FlowIndicatorHit := if Marshal h then [h] else [].

(** [checkIndicators], as the hits published. [source] is [l.indicators]:
    none, or what [FlowIndicators] returns, [None] being its error. *)
Definition checkIndicators (source : option (option List)) (batch : list FlowRecord) : list FlowIndicatorHit :=
  match source with
  | None | Some None => []
  | Some (Some l) =>
      if Len l =? 0 then []
      else
        let a := check_batch l batch (MkAcc ∅ []) in
        concat (map (λ k, match hits a !! k with Some h => publishHit h | None => [] end) (order a))
  end.
End check.
End HitCheck.

Module ThreatListFacts.
Import ThreatList.

Lemma high_high w x m n : 0 ≤ m ≤ n → n ≤ w → high w (high w x n) m = high w x m.
Proof.
  intros. unfold high. f_equal. apply Z.bits_inj'. intros k Hk.
  rewrite !Z.shiftr_spec, Z.shiftl_spec, Z.shiftr_spec by lia. f_equal. lia.
Qed.

(** Numbers that agree on [n] leading bits agree on fewer. *)
Lemma high_mono w x y m n : 0 ≤ m ≤ n → n ≤ w → high w x n = high w y n → high w x m = high w y m.
Proof. intros ?? E. by rewrite <-(high_high w x m n), E, high_high. Qed.

(** The lists that [New] builds. *)
Record list_ok (l : List) : Prop := {
  lo_bits : ∀ n, n ∈ bits l ↔ is_Some (byBits l !! n);
  lo_nodup : NoDup (bits l);
  lo_by : ∀ n s p, byBits l !! n = Some s → p ∈ s ↔ p ∈ entries l ∧ px_bits p = n;
  lo_some : ∀ p, p ∈ entries l → is_Some (byBits l !! px_bits p);
  lo_entries : NoDup (entries l);
}.

Lemma list_ok_empty : list_ok (MkList [] ∅ []).
Proof.
  split; cbn.
  - intros n. rewrite lookup_empty. split; [by intros ?%elem_of_nil|by intros []].
  - constructor.
  - intros n s p. by rewrite lookup_empty.
  - by intros p ?%elem_of_nil.
  - constructor.
Qed.

Lemma repeats_spec l p : list_ok l → repeats l p = true ↔ p ∈ entries l.
Proof.
  intros Hl. unfold repeats. destruct (byBits l !! px_bits p) as [s|] eqn:E.
  - rewrite bool_decide_eq_true, (lo_by l Hl _ _ p E). naive_solver.
  - split; [done|]. intros Hp%(lo_some l Hl). rewrite E in Hp. by destruct Hp.
Qed.

Lemma add_entry_ok l p : list_ok l → p ∉ entries l → list_ok (add_entry l p).
Proof.
  intros Hl Hp. pose proof (lo_bits l Hl) as Hb. pose proof (lo_by l Hl) as Hy.
  pose proof (lo_some l Hl) as Hs. unfold add_entry.
  destruct (byBits l !! px_bits p) as [s|] eqn:E; split; cbn.
  - intros n. rewrite Hb. destruct (decide (n = px_bits p)) as [->|];
      [rewrite lookup_insert_eq, E; split; eauto|by rewrite lookup_insert_ne].
  - apply Hl.
  - intros n s' q. destruct (decide (n = px_bits p)) as [->|].
    + rewrite lookup_insert_eq. intros [= <-]. rewrite elem_of_union, elem_of_singleton, elem_of_app, list_elem_of_singleton, (Hy _ _ _ E). naive_solver.
    + rewrite lookup_insert_ne by done. intros Hn. rewrite (Hy _ _ _ Hn), elem_of_app, list_elem_of_singleton. naive_solver.
  - intros q. rewrite elem_of_app, list_elem_of_singleton. destruct (decide (px_bits q = px_bits p)) as [->|].
    + by rewrite lookup_insert_eq.
    + rewrite lookup_insert_ne by done. intros [?| ->]; [by apply Hs|done].
  - apply NoDup_app. split_and!; [apply Hl| |apply NoDup_singleton]. intros q Hq ->%list_elem_of_singleton. done.
  - intros n. rewrite elem_of_app, list_elem_of_singleton, Hb. destruct (decide (n = px_bits p)) as [->|];
      [rewrite lookup_insert_eq; naive_solver|rewrite lookup_insert_ne by done; naive_solver].
  - apply NoDup_app. split_and!; [apply Hl| |apply NoDup_singleton].
    intros n Hn ->%list_elem_of_singleton. apply Hb in Hn. rewrite E in Hn. by destruct Hn.
  - intros n s' q. destruct (decide (n = px_bits p)) as [->|].
    + rewrite lookup_insert_eq. intros [= <-]. rewrite elem_of_singleton, elem_of_app, list_elem_of_singleton.
      split; [naive_solver|]. intros [ [Hq|Heq] Eq]; [|exact Heq]. apply Hs in Hq. rewrite Eq, E in Hq. by destruct Hq.
    + rewrite lookup_insert_ne by done. intros Hn. rewrite (Hy _ _ _ Hn), elem_of_app, list_elem_of_singleton. naive_solver.
  - intros q. rewrite elem_of_app, list_elem_of_singleton. destruct (decide (px_bits q = px_bits p)) as [->|].
    + by rewrite lookup_insert_eq.
    + rewrite lookup_insert_ne by done. intros [?| ->]; [by apply Hs|done].
  - apply NoDup_app. split_and!; [apply Hl| |apply NoDup_singleton]. intros q Hq ->%list_elem_of_singleton. done.
Qed.

Lemma entries_add l p : entries (add_entry l p) = entries l ++ [p].
Proof. unfold add_entry. by destruct (byBits l !! px_bits p). Qed.

Section parse.
Context `{!NetIP}.
#[local] Abbreviation parse s := (parseEntry s internalRanges).

(** An accepted entry is a network outside the internal ranges. *)
Lemma parseEntry_ok s p :
  parse s = inl p →
  (ParsePrefix s = Some p ∨ ∃ a, ParsePrefix s = None ∧ ParseAddr s = Some a ∧ has_zone a = false ∧ p = PrefixFrom a (BitLen a)) ∧
  Is4In6 p = false ∧ Masked p = p ∧ ∀ r, r ∈ internalRanges → Overlaps r p = false.
Proof.
  unfold parseEntry. destruct (ParsePrefix s) as [q|] eqn:E1; [|destruct (ParseAddr s) as [a|] eqn:E2; [destruct (has_zone a) eqn:E3|]]; try done.
  all: match goal with |- context [Is4In6 ?q] => destruct (Is4In6 q) eqn:E4; [done|] end.
  all: case_bool_decide as E5; cbn [negb]; [|done].
  all: destruct (existsb _ _) eqn:E6; [done|]; intros [= <-].
  all: split; [eauto 8|]; split; [done|]; split; [done|]; intros r Hr;
    destruct (Overlaps r _) eqn:E7; [|done]; assert (existsb (λ r, Overlaps r _) internalRanges = true) as E8
      by (apply existsb_exists; exists r; split; [by apply list_elem_of_In|exact E7]); congruence.
Qed.

Lemma New_loop_spec l es :
  list_ok l →
  match New_loop l (len (entries l)) es with
  | inl l' => list_ok l' ∧ ∃ ps, entries l' = entries l ++ ps ∧ Forall2 (λ s p, parse s = inl p) es ps
  | inr e => ∃ before s after ps, es = before ++ s :: after ∧ Forall2 (λ s p, parse s = inl p) before ps ∧
      match e with
      | TooMany _ => False
      | Entry i e => i = len (entries l) + len before ∧ parse s = inr e
      | Repeats i => i = len (entries l) + len before ∧ ∃ p, parse s = inl p ∧ p ∈ entries l ++ ps
      end
  end.
Proof.
  revert l. induction es as [|s es IH]; intros l Hl; cbn.
  { split; [done|]. exists []. by rewrite app_nil_r. }
  destruct (parse s) as [p|e] eqn:Ep; cbn.
  2:{ exists [], s, es, []. split; [done|]. split; [constructor|]. split; [by rewrite Z.add_0_r|done]. }
  destruct (repeats l p) eqn:Er.
  { exists [], s, es, []. split; [done|]. split; [constructor|]. split; [by rewrite Z.add_0_r|].
    exists p. split; [done|]. rewrite app_nil_r. by apply repeats_spec. }
  assert (p ∉ entries l) as Hp by (rewrite <-repeats_spec by done; congruence).
  specialize (IH (add_entry l p) (add_entry_ok l p Hl Hp)). rewrite entries_add in IH.
  replace (len (entries l ++ [p])) with (len (entries l) + 1) in IH by (by rewrite len_app).
  destruct (New_loop (add_entry l p) _ es) as [l'|e].
  - destruct IH as (Hl' & ps & E & HF). split; [done|]. exists (p :: ps). split; [|by constructor].
    rewrite E. by rewrite <-(assoc_L (++)).
  - destruct IH as (bf & s' & af & ps & -> & HF & He). exists (s :: bf), s', af, (p :: ps).
    split; [done|]. split; [by constructor|]. destruct e as [|i e|i]; [done| |].
    + destruct He as [-> He]. split; [rewrite len_cons; lia|done].
    + destruct He as (-> & p' & ? & Hin). split; [rewrite len_cons; lia|]. exists p'. split; [done|]. by rewrite <-(assoc_L (++)) in Hin.
Qed.

(** A list is accepted exactly when it is within the limit, every entry is
    a network outside every internal range, and none repeats; its entries are
    then those given, in order. The error names the first entry at fault. *)
Theorem New_spec es :
  match New es with
  | inl l => len es ≤ maxEntries ∧ Forall2 (λ s p, parse s = inl p) es (entries l) ∧ NoDup (entries l)
  | inr (TooMany n) => n = len es ∧ maxEntries < n
  | inr (Entry i e) => ∃ before s after ps, es = before ++ s :: after ∧ i = len before ∧
      Forall2 (λ s p, parse s = inl p) before ps ∧ parse s = inr e
  | inr (Repeats i) => ∃ before s after ps p, es = before ++ s :: after ∧ i = len before ∧
      Forall2 (λ s p, parse s = inl p) before ps ∧ parse s = inl p ∧ p ∈ ps
  end.
Proof.
  unfold New. destruct (Z.ltb_spec maxEntries (len es)); [done|].
  pose proof (New_loop_spec (MkList [] ∅ []) es list_ok_empty) as HL. cbn [entries] in HL. change (len (@nil Prefix)) with 0 in HL.
  destruct (New_loop _ 0 es) as [l|[n|i e|i]].
  - destruct HL as (Hl & ps & E & HF). cbn in *. split; [lia|]. rewrite E. split; [done|]. rewrite <-E. apply Hl.
  - destruct HL as (? & ? & ? & ? & ? & ? & []).
  - destruct HL as (bf & s & af & ps & -> & HF & -> & Hs). exists bf, s, af, ps. split_and!; [done|lia|done|done].
  - destruct HL as (bf & s & af & ps & -> & HF & -> & p & Hs & Hp). exists bf, s, af, ps, p. split_and!; [done|lia|done|done|done].
Qed.

Lemma list_New_ok es l :
  New es = inl l →
  list_ok l ∧ Sorted longer (bits l) ∧
  ∀ p, p ∈ entries l → Is4In6 p = false ∧ Masked p = p ∧ ∀ r, r ∈ internalRanges → Overlaps r p = false.
Proof.
  unfold New. destruct (_ <? _); [done|].
  pose proof (New_loop_spec (MkList [] ∅ []) es list_ok_empty) as HL. cbn [entries] in HL. change (len (@nil Prefix)) with 0 in HL.
  destruct (New_loop _ 0 es) as [l'|]; [|done]. intros [= <-]. destruct HL as ([H1 H2 H3 H4 H5] & ps & E & HF).
  split; [|split].
  - split; cbn; [|by rewrite merge_sort_Permutation|done..]. intros n. by rewrite merge_sort_Permutation.
  - cbn. apply Sorted_merge_sort. intros a b. unfold longer. lia.
  - cbn. rewrite E. cbn. intros p (i & Hi)%list_elem_of_lookup.
    destruct (Forall2_lookup_r _ _ _ _ _ HF Hi) as (s & _ & Hs). by apply parseEntry_ok in Hs as [_ ?].
Qed.
End parse.

(** The entry [Match] looks for under a length. *)
Lemma masked_from a w x n : addr_value a = Some (w, x) → 0 ≤ n ≤ w → Masked (PrefixFrom a n) = MkPrefix w (high w x n) n.
Proof.
  intros E ?. unfold PrefixFrom, Masked. rewrite E. cbn.
  rewrite (proj2 (Z.leb_le 0 n)), (proj2 (Z.leb_le n w)) by lia. cbn. by rewrite (proj2 (Z.ltb_ge n 0)) by lia.
Qed.

(** An entry contains an address exactly when the address, cut to the entry's
    length, is the entry. *)
Lemma within_masked p a :
  Masked p = p → 0 ≤ px_bits p ≤ BitLen a →
  within p a = true ↔ Masked (PrefixFrom a (px_bits p)) = p.
Proof.
  intros Hm Hb. unfold within, BitLen in *. destruct (addr_value a) as [[w x]|] eqn:E.
  - rewrite (masked_from a w x) by done. destruct p as [w' v n]. cbn in *.
    unfold Masked in Hm. cbn in Hm. rewrite (proj2 (Z.ltb_ge n 0)) in Hm by lia. injection Hm as Hm.
    rewrite (proj2 (Z.leb_le 0 n)), (proj2 (Z.leb_le n w)) by lia. rewrite !andb_true_r, andb_true_iff, !Z.eqb_eq. split.
    + intros [-> Ex]. by rewrite Ex, Hm.
    + intros [= -> Ex]. split; [done|]. congruence.
  - split; [done|]. unfold PrefixFrom. rewrite E. unfold Masked. cbn. intros <-. cbn in Hb. lia.
Qed.
End ThreatListFacts.

(** *** Lookup *)
Module MatchFacts.
Import ThreatList ThreatListFacts.

#[local] Instance longer_trans : Transitive longer.
Proof. intros ???. unfold longer. lia. Qed.

Definition best_of (es : list Prefix) (a : Addr) (bits : list Z) (r : Prefix * bool) : Prop :=
  match r with
  | (p, true) => p ∈ es ∧ within p a = true ∧
      ∀ q, q ∈ es → px_bits q ∈ bits → within q a = true → px_bits q ≤ px_bits p
  | (_, false) => ∀ q, q ∈ es → px_bits q ∈ bits → within q a = false
  end.

Lemma best_of_skip es a n bits r :
  (∀ q, q ∈ es → px_bits q = n → within q a = false) → best_of es a bits r → best_of es a (n :: bits) r.
Proof.
  intros Hno. destruct r as [p []]; cbn.
  - intros (? & ? & Hb). split_and!; [done..|]. intros q Hq [E|E]%elem_of_cons Hw; [|by apply Hb].
    specialize (Hno q Hq E). congruence.
  - intros Hb q Hq [E|E]%elem_of_cons; [by apply Hno|by apply Hb].
Qed.

Lemma Match_loop_spec (by_ : gmap Z (gset Prefix)) (es : list Prefix) a bits :
  (∀ n s p, by_ !! n = Some s → p ∈ s ↔ p ∈ es ∧ px_bits p = n) →
  (∀ p, p ∈ es → is_Some (by_ !! px_bits p)) →
  (∀ p, p ∈ es → 0 ≤ px_bits p ∧ Masked p = p) →
  Sorted longer bits → best_of es a bits (Match_loop by_ a bits).
Proof.
  intros Hby Hsome Hes. induction bits as [|n bits IH]; intros Hs; [by intros q _ ?%elem_of_nil|].
  apply Sorted_StronglySorted in Hs as Hss; [|apply _]. apply StronglySorted_inv in Hss as [_ Hn].
  rewrite list.Forall_forall in Hn. apply Sorted_inv in Hs as [Hs _]. specialize (IH Hs).
  assert (∀ q, q ∈ es → within q a = true → px_bits q ≤ BitLen a ∧ Masked (PrefixFrom a (px_bits q)) = q) as Hhit.
  { intros q Hq Hw. assert (px_bits q ≤ BitLen a) as Hfit.
    { revert Hw. unfold within, BitLen. destruct (addr_value a) as [[w x]|]; [|done]. intros Hw. bool_lia. }
    destruct (Hes q Hq). split; [done|]. by apply within_masked. }
  cbn. destruct (Z.ltb_spec (BitLen a) n).
  { apply best_of_skip; [|done]. intros q Hq <-. destruct (within q a) eqn:E; [|done].
    destruct (Hhit q Hq E). lia. }
  destruct (by_ !! n) as [s|] eqn:Es.
  - case_bool_decide as Hp.
    + apply (Hby _ _ _ Es) in Hp as [Hp Ebits]. set (p := Masked (PrefixFrom a n)) in *. split; [done|].
      destruct (Hes p Hp) as [? Hm]. split.
      * apply within_masked; [done|lia|]. by rewrite Ebits.
      * intros q _ [->|Hq]%elem_of_cons _; [lia|]. rewrite Ebits. by apply Hn.
    + apply best_of_skip; [|done]. intros q Hq <-. destruct (within q a) eqn:E; [|done]. exfalso. apply Hp.
      destruct (Hhit q Hq E) as [_ ->]. by apply (Hby _ _ _ Es).
  - apply best_of_skip; [|done]. intros q Hq <-. apply Hsome in Hq. rewrite Es in Hq. by destruct Hq.
Qed.

(** A network that an address of another is in shares addresses with it. *)
Lemma within_overlaps r p a : within r a = true → within p a = true → Overlaps r p = true.
Proof.
  unfold within, Overlaps. destruct (addr_value a) as [[w x]|]; [|done]. destruct r as [rw rv rb], p as [pw pv pb]. cbn.
  rewrite !andb_true_iff, !Z.eqb_eq, !Z.leb_le. intros [ [ [<- ?] ?] Er] [ [ [<- ?] ?] Ep].
  rewrite (proj2 (Z.ltb_ge rb 0)), (proj2 (Z.ltb_ge pb 0)) by lia. cbn. case_bool_decide; [done|].
  rewrite Z.eqb_refl. cbn. apply orb_true_iff. right. apply Z.eqb_eq.
  rewrite <-(high_mono w x rv _ rb), <-(high_mono w x pv _ pb) by (done || lia). done.
Qed.

Section parse.
Context {N : NetIP} {NL : NetIPLaws}.

Lemma addr_value_nonneg a w x : addr_value a = Some (w, x) → 0 < w.
Proof. destruct a; cbn; intros [= <- <-] || intros [=]; lia. Qed.

(** An accepted entry is valid. *)
Lemma parseEntry_valid s p : parseEntry s internalRanges = inl p → 0 ≤ px_bits p ≤ px_width p.
Proof.
  intros Hs. apply parseEntry_ok in Hs as [ [Hs|(a & _ & Ha & _ & ->)] _].
  - apply parse_prefix_valid in Hs. unfold valid_prefix in Hs. bool_lia.
  - apply parse_addr_valid in Ha. unfold PrefixFrom, BitLen. destruct a; cbn; [done|lia..].
Qed.

Lemma New_networks es l p : New es = inl l → p ∈ entries l → 0 ≤ px_bits p.
Proof.
  intros HN Hp. unfold New in HN. destruct (_ <? _); [done|].
  pose proof (New_loop_spec (MkList [] ∅ []) es list_ok_empty) as HL. cbn [entries] in HL.
  change (len (@nil Prefix)) with 0 in HL. destruct (New_loop _ 0 es) as [l'|]; [|done].
  injection HN as <-. destruct HL as (_ & ps & E & HF). cbn in Hp. rewrite E in Hp. cbn in Hp.
  apply list_elem_of_lookup in Hp as [i Hi]. destruct (Forall2_lookup_r _ _ _ _ _ HF Hi) as (s & _ & Hs).
  by apply parseEntry_valid in Hs as [? _].
Qed.

(** C29: [Match] finds the most specific entry that contains the address, and
    finds none exactly when no entry does; an IPv4-mapped address counts as
    the IPv4 address, and no internal address is ever found. *)
Theorem Match_spec es l a :
  New es = inl l →
  match Match l a with
  | (p, true) => p ∈ entries l ∧ within p (addr_unmap a) = true ∧
      (∀ q, q ∈ entries l → within q (addr_unmap a) = true → q = p ∨ px_bits q < px_bits p) ∧
      ∀ r, r ∈ internalRanges → within r (addr_unmap a) = false
  | (_, false) => ∀ q, q ∈ entries l → within q (addr_unmap a) = false
  end.
Proof.
  intros HN. destruct (list_New_ok _ _ HN) as (Hl & Hs & Hes).
  pose proof (Match_loop_spec (byBits l) (entries l) (addr_unmap a) (bits l) (lo_by l Hl) (lo_some l Hl)
    (λ p Hp, conj (New_networks _ _ _ HN Hp) (proj1 (proj2 (Hes p Hp)))) Hs) as HB.
  assert (∀ q, q ∈ entries l → px_bits q ∈ bits l) as Hin by (intros q Hq; by apply lo_bits, lo_some).
  fold (Match l a) in HB. destruct (Match l a) as [p []]; cbn in HB.
  - destruct HB as (Hp & Hw & Hmax). split_and!; [done..| |].
    + intros q Hq Hwq. specialize (Hmax q Hq (Hin q Hq) Hwq).
      destruct (decide (px_bits q = px_bits p)) as [E|]; [left|right; lia].
      assert (∀ x, x ∈ entries l → within x (addr_unmap a) = true →
        Masked (PrefixFrom (addr_unmap a) (px_bits x)) = x) as Hx.
      { intros x Hx Hwx. destruct (Hes x Hx) as (_ & Hm & _). apply within_masked; [done| |done].
        split; [by eapply New_networks|]. revert Hwx. unfold within, BitLen.
        destruct (addr_value _) as [[w y]|]; [|done]. intros. bool_lia. }
      rewrite <-(Hx q Hq Hwq), E. by apply Hx.
    + intros r Hr. destruct (within r _) eqn:E; [|done]. destruct (Hes p Hp) as (_ & _ & Ho).
      specialize (Ho r Hr). by rewrite (within_overlaps r p _ E Hw) in Ho.
  - intros q Hq. apply HB; [done|by apply Hin].
Qed.
End parse.

End MatchFacts.

(** *** The stored form *)
Module StoredFacts.
Import ThreatList ThreatListFacts.

Section stored.
Context {N : NetIP} {NL : NetIPLaws}.
#[local] Abbreviation parse s := (parseEntry s internalRanges).

Lemma New_loop_congr l i es es' ps :
  Forall2 (λ s p, parse s = inl p) es ps → Forall2 (λ s p, parse s = inl p) es' ps →
  New_loop l i es = New_loop l i es'.
Proof.
  intros HF. revert l i es'. induction HF as [|s p es ps Hs _ IH]; intros l i es' H'; inversion H'; subst; [done|].
  cbn. rewrite Hs. match goal with E : parse _ = inl _ |- _ => rewrite E end. case_match; [done|]. by apply IH.
Qed.

Lemma num_bytes_value n v : bytes_num (num_bytes n v) = v mod 256 ^ Z.of_nat n.
Proof.
  revert v. induction n as [|n IH]; intros v; [by rewrite Z.mod_1_r|].
  unfold bytes_num in *. cbn [num_bytes]. rewrite foldl_app, IH. cbn [foldl].
  rewrite Nat2Z.inj_succ, Z.pow_succ_r by lia. rewrite Z.rem_mul_r by lia. lia.
Qed.

Lemma num_bytes_ok n v : len (num_bytes n v) = Z.of_nat n ∧ forallb (λ c, (0 <=? c) && (c <? 256)) (num_bytes n v) = true.
Proof.
  revert v. induction n as [|n IH]; intros v; [done|]. cbn [num_bytes]. destruct (IH (v / 256)) as [H1 H2].
  rewrite len_app, H1, forallb_app, H2. split; [unfold len; cbn; lia|]. cbn.
  pose proof (Z.mod_pos_bound v 256 ltac:(lia)). by rewrite (proj2 (Z.leb_le _ _)), (proj2 (Z.ltb_lt _ _)) by lia.
Qed.

(** The address of a valid prefix is valid and has its number. *)
Lemma AddrOf_ok p :
  valid_prefix p = true →
  valid_addr (AddrOf p) = true ∧ has_zone (AddrOf p) = false ∧ addr_value (AddrOf p) = Some (px_width p, px_value p).
Proof.
  unfold valid_prefix. rewrite !andb_true_iff, orb_true_iff, !Z.eqb_eq. intros [ [ [ [Hw H0] Hlt] _] _].
  apply Z.leb_le in H0. apply Z.ltb_lt in Hlt. destruct p as [w v n]. cbn [px_width px_value] in *.
  destruct Hw as [->| ->].
  - change (AddrOf _) with (Addr4 (num_bytes 4 v)). destruct (num_bytes_ok 4 v) as [E1 E2]. unfold valid_addr, addr_value. rewrite E1, E2.
    rewrite num_bytes_value. split_and!; [done..|]. do 2 f_equal. by apply Z.mod_small.
  - change (AddrOf _) with (Addr6 (num_bytes 16 v) ""). destruct (num_bytes_ok 16 v) as [E1 E2]. unfold valid_addr, addr_value. rewrite E1, E2.
    rewrite num_bytes_value. split_and!; [done..|]. do 2 f_equal. by apply Z.mod_small.
Qed.

Lemma single_of_addr a : valid_addr a = true → valid_prefix (PrefixFrom a (BitLen a)) = true.
Proof.
  assert (∀ b, forallb (λ c, (0 <=? c) && (c <? 256)) b = true → 0 ≤ bytes_num b < 256 ^ len b) as Hnum.
  { induction b as [|c b IH] using rev_ind; [done|]. rewrite forallb_app. cbn. intros [Hb Hc]%andb_true_iff.
    specialize (IH Hb). unfold bytes_num in *. rewrite foldl_app, len_app. cbn [foldl].
    change (len [c]) with 1. rewrite Z.pow_add_r by (unfold len; lia). bool_lia. }
  unfold valid_prefix, PrefixFrom, BitLen. destruct a as [|b|b z]; cbn; [done|..].
  - intros [Hl Hb%Hnum]%andb_true_iff. apply Z.eqb_eq in Hl. rewrite Hl in Hb.
    rewrite (proj2 (Z.leb_le _ _)), (proj2 (Z.ltb_lt _ _)) by lia. done.
  - intros [Hl Hb%Hnum]%andb_true_iff. apply Z.eqb_eq in Hl. rewrite Hl in Hb.
    rewrite (proj2 (Z.leb_le _ _)), (proj2 (Z.ltb_lt _ _)) by lia. done.
Qed.

(** What is written for an accepted entry is accepted as that entry. *)
Lemma parse_entry_text s p :
  parse s = inl p → parse (entry_text p) = inl p.
Proof.
  intros Hs. apply parseEntry_ok in Hs as [Hv (H4 & Hm & Ho)].
  assert (valid_prefix p = true) as Hb.
  { destruct Hv as [Hv|(a & _ & Ha & _ & ->)]; [by eapply parse_prefix_valid|].
    by eapply single_of_addr, parse_addr_valid. }
  assert (match Some p with
    | None => inr BadText
    | Some p => if Is4In6 p then inr Mapped else if negb (bool_decide (Masked p = p)) then inr HostBits
      else if existsb (λ r, Overlaps r p) internalRanges then inr Reaches else inl p end = (inl p : Prefix + entry_error)) as Hfin.
  { rewrite H4, bool_decide_eq_true_2 by done. cbn [negb]. destruct (existsb _ _) eqn:E; [|done].
    apply existsb_exists in E as (r & Hr%list_elem_of_In & E). by rewrite Ho in E. }
  unfold parseEntry, entry_text. destruct (IsSingleIP p) eqn:E1.
  - destruct (AddrOf_ok p Hb) as (Ha & Hz & Hval). rewrite addr_no_prefix, addr_text, Hz by done.
    replace (PrefixFrom (AddrOf p) (BitLen (AddrOf p))) with p; [exact Hfin|].
    unfold PrefixFrom, BitLen. rewrite Hval. unfold IsSingleIP in E1. apply andb_true_iff in E1 as [E1 E2].
    apply Z.eqb_eq in E2. destruct p as [w v n]. cbn in *. subst n. by rewrite E1, (proj2 (Z.leb_le _ _)) by lia.
  - rewrite prefix_text by done. exact Hfin.
Qed.

(** The list that is written out reads back as the same list. *)
Theorem New_Entries es l :
  New es = inl l →
  New (Entries l) = inl l.
Proof.
  intros HN. pose proof HN as HN'. unfold New in HN'. destruct (Z.ltb_spec maxEntries (len es)); [done|].
  pose proof (New_loop_spec (MkList [] ∅ []) es list_ok_empty) as HL. cbn [entries] in HL.
  change (len (@nil Prefix)) with 0 in HL. destruct (New_loop _ 0 es) as [l'|] eqn:EL; [|done].
  injection HN' as <-. destruct HL as (_ & ps & E & HF). unfold Entries. cbn [entries]. rewrite E. cbn [app].
  assert (Forall2 (λ s p, parse s = inl p) (map entry_text ps) ps) as HF'.
  { clear - HF NL.
    induction HF; cbn; constructor; [by eapply parse_entry_text|done]. }
  unfold New. pose proof (Forall2_length _ _ _ HF). pose proof (Forall2_length _ _ _ HF').
  rewrite (proj2 (Z.ltb_ge _ _)) by (unfold len in *; lia).
  by rewrite <-(New_loop_congr _ _ es _ ps HF HF'), EL, E.
Qed.
End stored.
End StoredFacts.

(** *** What a batch is reported as *)
Module HitFacts.
Import ThreatList HitCheck.
Section hits.
Context {N : NetIP}.
Implicit Types (l : List) (batch : list FlowRecord).

(** The ways a flow connects a host to a listed address. *)
Definition connects l (f : FlowRecord) : list (FlowRecord * hitKey) :=
  (if (Match l (DstAddr f)).2 then [(f, (SrcAddr f, DstAddr f))] else []) ++
  (if (Match l (SrcAddr f)).2 then [(f, (DstAddr f, SrcAddr f))] else []).
Definition connections l batch : list (FlowRecord * hitKey) := concat (map (connects l) batch).

(** The distinct elements of a list in the order of their first occurrence. *)
Definition firsts (ks : list hitKey) : list hitKey :=
  foldl (λ seen k, if decide (k ∈ seen) then seen else seen ++ [k]) [] ks.

(** The flows of one key among some connections. *)
Definition of_key (k : hitKey) (cs : list (FlowRecord * hitKey)) : list FlowRecord :=
  (filter (λ c, c.2 = k) cs).*1.

(** The report on the flows [f :: fs] of a key: totals modulo the counters'
    width, the earliest start and the latest end. *)
Definition summary l (k : hitKey) (f : FlowRecord) (fs : list FlowRecord) : FlowIndicatorHit :=
  MkHit (AddrString k.1) (AddrString k.2) (PrefixString (Match l k.2).1) (AddrString (Exporter f))
    (len (f :: fs))
    (wrap 64 (foldl (λ n g, n + Bytes g) 0 (f :: fs)))
    (wrap 64 (foldl (λ n g, n + Packets g) 0 (f :: fs)))
    (foldl (λ t g, Z.min t (Start g)) (Start f) fs)
    (foldl (λ t g, Z.max t (End_ g)) (End_ f) fs).

Definition report l (cs : list (FlowRecord * hitKey)) (k : hitKey) : option FlowIndicatorHit :=
  match of_key k cs with [] => None | f :: fs => Some (summary l k f fs) end.

(** One connection recorded, as [record] does when the list matches. *)
Definition visit l (a : acc) (c : FlowRecord * hitKey) : acc := record l c.1 c.2.1 c.2.2 a.

Lemma record_connects l f host listed a :
  record l f host listed a = foldl (visit l) a (if (Match l listed).2 then [(f, (host, listed))] else []).
Proof. unfold visit, record. destruct (Match l listed) as [p []] eqn:E; cbn; by rewrite ?E. Qed.

Lemma check_batch_fold l batch a : check_batch l batch a = foldl (visit l) a (connections l batch).
Proof.
  revert a. induction batch as [|f batch IH]; intros a; [done|]. cbn.
  rewrite IH, !record_connects. unfold connections, connects. cbn. by rewrite !foldl_app.
Qed.

Lemma elem_of_firsts ks k : k ∈ firsts ks ↔ k ∈ ks.
Proof.
  induction ks as [|k' ks IH] using rev_ind; [done|]. unfold firsts in *. rewrite foldl_app. cbn.
  case_decide as E; rewrite ?elem_of_app, list_elem_of_singleton, IH; naive_solver.
Qed.

Lemma firsts_snoc ks k : firsts (ks ++ [k]) = if decide (k ∈ ks) then firsts ks else firsts ks ++ [k].
Proof.
  pose proof (elem_of_firsts ks k) as H. unfold firsts at 1. rewrite foldl_app. cbn. fold (firsts ks).
  destruct (decide (k ∈ firsts ks)), (decide (k ∈ ks)); tauto || done.
Qed.

Lemma of_key_snoc k cs c : of_key k (cs ++ [c]) = of_key k cs ++ (if decide (c.2 = k) then [c.1] else []).
Proof. unfold of_key. rewrite filter_app, fmap_app, filter_cons, filter_nil. by case_decide. Qed.

Lemma of_key_nil k cs : of_key k cs = [] ↔ k ∉ cs.*2.
Proof.
  unfold of_key. induction cs as [|c cs IH]; [split; [|done]; intros _; apply not_elem_of_nil|].
  rewrite filter_cons, fmap_cons, not_elem_of_cons. case_decide; cbn [fmap list_fmap]; [split; [done|intros []; congruence]|].
  rewrite IH. naive_solver.
Qed.

Lemma wrap_add x y : wrap 64 (wrap 64 x + y) = wrap 64 (x + y).
Proof. unfold wrap. by rewrite Zplus_mod_idemp_l. Qed.

(** A further flow of a key. *)
Lemma summary_snoc l k f fs g : count_flow g (summary l k f fs) = summary l k f (fs ++ [g]).
Proof.
  unfold count_flow, summary, time_before, time_after. cbn [fh_Host fh_Listed fh_Indicator fh_Exporter fh_Flows fh_Bytes fh_Packets fh_FirstSeen fh_LastSeen].
  rewrite !wrap_add. change (f :: fs ++ [g]) with ((f :: fs) ++ [g]). rewrite len_app, !foldl_app. cbn [foldl]. f_equal.
  - destruct (Z.ltb_spec (Start g) (foldl (λ t g, Z.min t (Start g)) (Start f) fs)); lia.
  - destruct (Z.ltb_spec (foldl (λ t g, Z.max t (End_ g)) (End_ f) fs) (End_ g)); lia.
Qed.

Lemma summary_first l f host listed :
  count_flow f (new_hit f host listed (Match l listed).1) = summary l (host, listed) f [].
Proof.
  unfold count_flow, new_hit, summary, time_before, time_after. cbn. by rewrite !Z.ltb_irrefl.
Qed.

Lemma visits l cs :
  Forall (λ c, (Match l c.2.2).2 = true) cs →
  let a := foldl (visit l) (MkAcc ∅ []) cs in
  order a = firsts cs.*2 ∧ ∀ k, hits a !! k = report l cs k.
Proof.
  induction cs as [|c cs IH] using rev_ind; intros Hm; [done|].
  apply Forall_app in Hm as [Hm [Hc _]%Forall_cons]. specialize (IH Hm). cbn zeta in *.
  rewrite foldl_app. cbn [foldl]. set (a := foldl (visit l) _ cs) in *. destruct IH as [Ho Hh].
  rewrite fmap_app. cbn [fmap list_fmap]. rewrite firsts_snoc.
  destruct c as [f [host listed]]. unfold visit, record. cbn [fst snd] in Hc |- *.
  destruct (Match l listed) as [p ok] eqn:Em. cbn in Hc. subst ok. cbn [negb].
  rewrite Hh. assert (report l cs (host, listed) = match of_key (host, listed) cs with [] => None | f0 :: fs => Some (summary l (host, listed) f0 fs) end) as -> by done.
  destruct (of_key (host, listed) cs) as [|f0 fs] eqn:Ek.
  - rewrite decide_False by (by apply of_key_nil). cbn [hits order]. split; [by rewrite Ho|]. intros k. unfold report. rewrite of_key_snoc. cbn [fst snd].
    destruct (decide ((host, listed) = k)) as [<-|].
    + rewrite lookup_insert_eq, Ek. cbn. f_equal. replace p with (Match l listed).1 by (by rewrite Em). apply summary_first.
    + rewrite lookup_insert_ne by done. by rewrite app_nil_r, Hh.
  - assert ((host, listed) ∈ cs.*2) as Hin.
    { destruct (decide ((host, listed) ∈ cs.*2)); [done|]. exfalso. assert (of_key (host, listed) cs = []) by (by apply of_key_nil). congruence. }
    rewrite decide_True by done. cbn [hits order]. split; [done|]. intros k. unfold report. rewrite of_key_snoc. cbn [fst snd].
    destruct (decide ((host, listed) = k)) as [<-|].
    + rewrite lookup_insert_eq, Ek. cbn. by rewrite summary_snoc.
    + rewrite lookup_insert_ne by done. by rewrite app_nil_r, Hh.
Qed.

Lemma connections_match l batch : Forall (λ c, (Match l c.2.2).2 = true) (connections l batch).
Proof.
  unfold connections. induction batch as [|f batch IH]; cbn; [constructor|].
  apply Forall_app. split; [|done]. unfold connects. apply Forall_app.
  destruct (Match l (DstAddr f)) as [p []] eqn:E1, (Match l (SrcAddr f)) as [q []] eqn:E2; cbn;
    repeat constructor; cbn; by rewrite ?E1, ?E2.
Qed.

(** The hits published for a batch are, for each host and listed address
    some flow connects, in the order they first appear, one summary of all
    its flows; a flow counts once for each of its ends that is listed. *)
Theorem checkIndicators_spec l batch :
  Len l ≠ 0 →
  checkIndicators (Some (Some l)) batch =
  concat (map (λ k, match report l (connections l batch) k with Some h => publishHit h | None => [] end)
    (firsts (connections l batch).*2)).
Proof.
  intros Hl. unfold checkIndicators. rewrite (proj2 (Z.eqb_neq _ _) Hl), check_batch_fold.
  destruct (visits l (connections l batch) (connections_match l batch)) as [-> Hh].
  f_equal. apply map_ext. intros k. by rewrite Hh.
Qed.
End hits.

(** *** A concrete package *)

(** Positive numbers as texts, for an instance of [NetIP]. *)
Fixpoint pos_text (p : positive) : string :=
  match p with xH => "" | xO p => String "0"%char (pos_text p) | xI p => String "1"%char (pos_text p) end.
Fixpoint text_pos (s : string) : positive :=
  match s with
  | EmptyString => xH
  | String c s => if decide (c = "0"%char) then xO (text_pos s) else xI (text_pos s)
  end.
Lemma text_pos_text p : text_pos (pos_text p) = p.
Proof. induction p; cbn; by f_equal. Qed.

Definition read_text `{Countable A} (ok : A → bool) (tag : Ascii.ascii) (s : string) : option A :=
  match s with
  | String c s => if decide (c = tag) then a ← decode (text_pos s); if ok a then Some a else None else None
  | EmptyString => None
  end.

#[export] Instance demo_net : NetIP := {|
  ParsePrefix := read_text valid_prefix "p"%char;
  ParseAddr := read_text valid_addr "a"%char;
  PrefixString p := String "p"%char (pos_text (encode p));
  AddrString a := String "a"%char (pos_text (encode a));
|}.

Lemma read_text_ok `{Countable A} (ok : A → bool) tag s a : read_text ok tag s = Some a → ok a = true.
Proof.
  destruct s as [|c s]; cbn; [done|]. case_decide; [|done]. destruct (decode _) as [b|]; cbn; [|done].
  destruct (ok b) eqn:E; [|done]. by intros [= <-].
Qed.
Lemma read_text_print `{Countable A} (ok : A → bool) tag (a : A) :
  ok a = true → read_text ok tag (String tag (pos_text (encode a))) = Some a.
Proof. intros Ha. cbn. rewrite decide_True by done. rewrite text_pos_text, decode_encode. cbn. by rewrite Ha. Qed.

#[export] Instance demo_net_laws : NetIPLaws.
Proof.
  split.
  - intros s p. apply read_text_ok.
  - intros s a. apply read_text_ok.
  - intros p. apply (read_text_print valid_prefix).
  - intros a. apply (read_text_print valid_addr).
  - done.
Qed.

Definition net16 : Prefix := MkPrefix 32 (203 * 2 ^ 24) 16.
Definition net24 : Prefix := MkPrefix 32 (203 * 2 ^ 24 + 113 * 2 ^ 8) 24.
Definition one_host : Addr := Addr4 [198; 51; 100; 7].

Definition demo_texts : list string := [PrefixString net16; AddrString one_host; PrefixString net24].
Definition the_list : List := match New demo_texts with inl l => l | inr _ => MkList [] ∅ [] end.

Lemma the_list_new : New demo_texts = inl the_list.
Proof. by vm_compute. Qed.

Example demo_matches :
  Match the_list (Addr4 [203; 0; 113; 9]) = (net24, true) ∧
  Match the_list (Addr6 (mapped_prefix ++ [203; 0; 1; 9]) "") = (net16, true) ∧
  Match the_list one_host = (PrefixFrom one_host 32, true) ∧
  Match the_list (Addr4 [198; 51; 100; 8]) = (prefix_zero, false).
Proof. by vm_compute. Qed.

Example demo_refused :
  New [AddrString one_host; PrefixString (MkPrefix 32 (10 * 2 ^ 24 + 2 ^ 16) 16)] = inr (Entry 1 Reaches) ∧
  New [AddrString one_host; AddrString one_host] = inr (Repeats 1) ∧
  New ["example.org"] = inr (Entry 0 BadText).
Proof. by vm_compute. Qed.

Lemma Match_spec_witness :
  Match the_list (Addr4 [203; 0; 113; 9]) = (net24, true) ∧ net24 ∈ entries the_list.
Proof.
  pose proof (MatchFacts.Match_spec demo_texts the_list (Addr4 [203; 0; 113; 9]) the_list_new) as H.
  assert (Match the_list (Addr4 [203; 0; 113; 9]) = (net24, true)) as E by by vm_compute.
  rewrite E in H. exact (conj E (proj1 H)).
Defined.

Lemma New_Entries_witness : New (Entries the_list) = inl the_list.
Proof. exact (StoredFacts.New_Entries demo_texts the_list the_list_new). Defined.

(** Two flows between a host and the listed network, the second far in the
    future by its own account. *)
Definition demo_flow (start end_ : Z) : FlowRecord :=
  {| Exporter := Addr4 [10; 0; 0; 1]; FlowFormat := FormatIPFIX; ObservationDomain := 0;
     Start := start; End_ := end_; SrcAddr := Addr4 [10; 0; 0; 5]; DstAddr := Addr4 [203; 0; 113; 9];
     SrcPort := 0; DstPort := 443; Protocol := 6; TCPFlags := 0; Bytes := 1000; Packets := 10;
     InputIf := 0; OutputIf := 0 |}.

Example demo_hit :
  map (λ h, (fh_Flows h, fh_Bytes h, fh_FirstSeen h, fh_LastSeen h))
    (checkIndicators (Some (Some the_list)) [demo_flow 5 9; demo_flow 3 7]) = [(2, 2000, 3, 9)].
Proof. by vm_compute. Qed.

(** One record whose end is past the year 9999, which an exporter may claim
    in its 64-bit milliseconds, keeps the whole hit from being published. *)
Example far_future_hides_hit :
  checkIndicators (Some (Some the_list))
    [demo_flow 5 9; demo_flow 3 (time_unix_milli (2 ^ 62))] = [].
Proof. by vm_compute. Qed.

(** A flow of a listed address with itself is counted twice. *)
Example self_flow_counted_twice :
  map fh_Flows (checkIndicators (Some (Some the_list)) [set_SrcAddr (demo_flow 5 9) (Addr4 [203; 0; 113; 9])]) = [2].
Proof. by vm_compute. Qed.

Lemma checkIndicators_spec_witness :
  checkIndicators (Some (Some the_list)) [demo_flow 5 9; demo_flow 3 7] =
  [MkHit (AddrString (Addr4 [10; 0; 0; 5])) (AddrString (Addr4 [203; 0; 113; 9])) (PrefixString net24)
     (AddrString (Addr4 [10; 0; 0; 1])) 2 2000 20 3 9].
Proof.
  rewrite (checkIndicators_spec the_list [demo_flow 5 9; demo_flow 3 7]) by (vm_compute; congruence).
  by vm_compute.
Defined.
End HitFacts.
