(* ===== verification/FlowListener.v ===== *)
(** * The flow listener (src/internal/listener/flow/listener.go)

    A reader decodes datagrams into a bounded queue, a writer drains it into
    the store in batches; [Start] and [Stop] begin and end such pairs. The
    goroutines are a step relation, one step per loop test, socket read,
    channel operation or critical section; the writer's store calls are part
    of the step that makes them, since nothing else sees its batch. The
    decoder is that of FlowDecode, the check of a batch that of Indicators. *)
From Stdlib Require Import ZArith Lia.
From stdpp Require Import base gmap sets list strings relations.
From S2P Require Import Prelude GoBase FlowTypes FlowState FlowDecode Indicators.

Definition maxDatagram : Z := 65535.
Definition queueSize : Z := 8192.
Definition batchSize : Z := 512.
Definition defaultBindAddr : string := ":2055".

(** [Stats]; the counters are the listener's atomics. *)
Record Stats : Type := MkStats {
  st_Datagrams : Z; st_Records : Z; st_Dropped : Z;
  st_MissingTemplate : Z; st_Malformed : Z; st_StoreErrors : Z;
}.
Definition stats_zero : Stats := MkStats 0 0 0 0 0 0.

(** [New]: its errors, and the defaults of what is not given. *)
Inductive config_error : Type := StoreRequired | SetTogether.
Record Config : Type := MkConfig {
  cfg_BindAddr : string;
  cfg_Store : bool;
  cfg_Indicators : bool;
  cfg_Sink : bool;
  cfg_QueueSize : Z;
}.
Definition New (cfg : Config) : Config + config_error :=
  if negb (cfg_Store cfg) then inr StoreRequired
  else if negb (eqb (negb (cfg_Indicators cfg)) (negb (cfg_Sink cfg))) then inr SetTogether
  else inl (MkConfig
    (if decide (cfg_BindAddr cfg = "") then defaultBindAddr else cfg_BindAddr cfg) true
    (cfg_Indicators cfg) (cfg_Sink cfg)
    (if cfg_QueueSize cfg <=? 0 then queueSize else cfg_QueueSize cfg)).

(** [exporterAddr]: the address of a UDP sender, [None] for any other. *)
Definition exporterAddr (from : option Addr) : Addr :=
  match from with Some a => addr_unmap a | None => AddrInvalid end.

(** The variables of [read], of the channel and of [write]. A reader is armed
    from the test of its loop to the return of [ReadFrom]; [rd_todo] are the
    records of the datagram at hand that [handle] has not yet offered. A
    writer's store calls are recorded with their success, and its reports. *)
Record reader : Type := MkReader { rd_dec : Decoder; rd_armed : bool; rd_todo : list FlowRecord }.
Record channel : Type := MkChannel { ch_items : list FlowRecord; ch_closed : bool }.
Record writer : Type := MkWriter {
  wr_batch : list FlowRecord;
  wr_last : Stats;
  wr_returned : bool;
  wr_stored : list (list FlowRecord * bool);
  wr_reports : list Stats;
}.

(** What one [Start] began: the socket, the context and the two loops.
    [rn_decoded] are the records its datagrams decoded to, for the theorems. *)
Record Run : Type := MkRun {
  rn_open : bool;
  rn_cancelled : bool;
  rn_reader : reader;
  rn_queue : channel;
  rn_writer : writer;
  rn_decoded : list FlowRecord;
}.

(** ** The reader *)
Section reader.
Context `{!RangeOrder templateKey, !RangeOrder domainKey, !RangeOrder rateKey}.

(** [handle] up to its loop over the records. *)
Definition handle (s : Stats) (dec : Decoder) (from : option Addr) (pkt : bytes) (now : Z)
    : option (Stats * Decoder * list FlowRecord) :=
  '(dec, res, err) ← Decode dec (exporterAddr from) pkt now;
  Some (MkStats (st_Datagrams s + 1) (st_Records s) (st_Dropped s)
          (st_MissingTemplate s + MissingTemplate res)
          (st_Malformed s + match err with Some _ => 1 | None => 0 end) (st_StoreErrors s),
        dec, Records res).
End reader.

(** One round of that loop: a record that does not fit is dropped. *)
Definition offer (size : Z) (s : Stats) (q : channel) (rec : FlowRecord) : Stats * channel :=
  if len (ch_items q) <? size
  then (MkStats (st_Datagrams s) (st_Records s + 1) (st_Dropped s) (st_MissingTemplate s)
          (st_Malformed s) (st_StoreErrors s), MkChannel (ch_items q ++ [rec]) (ch_closed q))
  else (MkStats (st_Datagrams s) (st_Records s) (st_Dropped s + 1) (st_MissingTemplate s)
          (st_Malformed s) (st_StoreErrors s), q).

(** ** The writer *)
Section writer.
Context {N : ThreatList.NetIP}.

(** [flush] of the writer's batch, which its callers then empty. [ok] is
    what the store answers, [source] what the indicator source does. *)
Definition flush (s : Stats) (w : writer) (ok : bool) (source : option (option ThreatList.List))
    : Stats * writer * list FlowIndicatorHit :=
  match wr_batch w with
  | [] => (s, w, [])
  | batch =>
      (MkStats (st_Datagrams s) (st_Records s) (st_Dropped s) (st_MissingTemplate s) (st_Malformed s)
         (if ok then st_StoreErrors s else st_StoreErrors s + 1),
       MkWriter [] (wr_last w) (wr_returned w) (wr_stored w ++ [(batch, ok)]) (wr_reports w),
       HitCheck.checkIndicators source batch)
  end.

(** A record received from the queue. *)
Definition write_take (s : Stats) (w : writer) (rec : FlowRecord) (ok : bool)
    (source : option (option ThreatList.List)) : Stats * writer * list FlowIndicatorHit :=
  let w := MkWriter (wr_batch w ++ [rec]) (wr_last w) (wr_returned w) (wr_stored w) (wr_reports w) in
  if len (wr_batch w) =? batchSize then flush s w ok source else (s, w, []).

Definition same_losses (a b : Stats) : bool :=
  (st_Dropped a =? st_Dropped b) && (st_MissingTemplate a =? st_MissingTemplate b) &&
  (st_Malformed a =? st_Malformed b) && (st_StoreErrors a =? st_StoreErrors b).

(** [report]: what was lost since the last one, logged when anything was. *)
Definition report (s : Stats) (w : writer) : writer :=
  let last := wr_last w in
  MkWriter (wr_batch w) s (wr_returned w) (wr_stored w)
    (if same_losses s last then wr_reports w
     else wr_reports w ++ [MkStats 0 0 (st_Dropped s - st_Dropped last)
       (st_MissingTemplate s - st_MissingTemplate last) (st_Malformed s - st_Malformed last)
       (st_StoreErrors s - st_StoreErrors last)]).

(** The queue is closed and empty: the last flush, and [write] returns. *)
Definition write_end (s : Stats) (w : writer) (ok : bool) (source : option (option ThreatList.List))
    : Stats * writer * list FlowIndicatorHit :=
  let '(s, w, hits) := flush s w ok source in
  (s, MkWriter (wr_batch w) (wr_last w) true (wr_stored w) (wr_reports w), hits).
End writer.

(** ** The goroutines of a run *)
Section steps.
Context `{!RangeOrder templateKey, !RangeOrder domainKey, !RangeOrder rateKey} {N : ThreatList.NetIP}.
Variable cfg : Config.

(** The indicator source is asked exactly when there is one. *)
Definition source_of (answer : option ThreatList.List) : option (option ThreatList.List) :=
  if cfg_Indicators cfg then Some answer else None.

Definition set_reader (r : Run) (x : reader) : Run :=
  MkRun (rn_open r) (rn_cancelled r) x (rn_queue r) (rn_writer r) (rn_decoded r).
Definition set_writer (r : Run) (x : writer) : Run :=
  MkRun (rn_open r) (rn_cancelled r) (rn_reader r) (rn_queue r) x (rn_decoded r).
Definition set_armed (r : Run) (b : bool) : Run :=
  set_reader r (MkReader (rd_dec (rn_reader r)) b (rd_todo (rn_reader r))).
(** [read] returns and closes the queue. *)
Definition read_end (r : Run) : Run :=
  MkRun (rn_open r) (rn_cancelled r) (MkReader (rd_dec (rn_reader r)) false (rd_todo (rn_reader r)))
    (MkChannel (ch_items (rn_queue r)) true) (rn_writer r) (rn_decoded r).

(** A step of a run with the counters, and the hits it publishes. *)
Inductive rstep (s : Stats) (r : Run) : Stats → Run → list FlowIndicatorHit → Prop :=
(** The test of the read loop. *)
| read_go :
    rd_armed (rn_reader r) = false → rd_todo (rn_reader r) = [] → ch_closed (rn_queue r) = false →
    rn_cancelled r = false → rstep s r s (set_armed r true) []
| read_done :
    rd_armed (rn_reader r) = false → rd_todo (rn_reader r) = [] → ch_closed (rn_queue r) = false →
    rn_cancelled r = true → rstep s r s (read_end r) []
(** [ReadFrom] returns a datagram. *)
| read_packet from pkt now s' dec todo :
    rd_armed (rn_reader r) = true → rn_open r = true → bytes_ok pkt → len pkt ≤ maxDatagram →
    handle s (rd_dec (rn_reader r)) from pkt now = Some (s', dec, todo) →
    rstep s r s' (MkRun (rn_open r) (rn_cancelled r) (MkReader dec false todo) (rn_queue r)
      (rn_writer r) (rn_decoded r ++ todo)) []
(** It times out, fails, or finds the socket closed. *)
| read_timeout :
    rd_armed (rn_reader r) = true → rn_open r = true → rstep s r s (set_armed r false) []
| read_failed :
    rd_armed (rn_reader r) = true → rn_open r = true →
    rstep s r s (if rn_cancelled r then read_end r else set_armed r false) []
| read_closed :
    rd_armed (rn_reader r) = true → rn_open r = false → rstep s r s (read_end r) []
(** [handle] offers its next record. *)
| read_offer rec todo s' q :
    rd_todo (rn_reader r) = rec :: todo → offer (cfg_QueueSize cfg) s (rn_queue r) rec = (s', q) →
    rstep s r s' (MkRun (rn_open r) (rn_cancelled r)
      (MkReader (rd_dec (rn_reader r)) (rd_armed (rn_reader r)) todo) q (rn_writer r) (rn_decoded r)) []
(** The cases of the writer's [select]. *)
| writer_take rec rest ok answer s' w hits :
    wr_returned (rn_writer r) = false → ch_items (rn_queue r) = rec :: rest →
    write_take s (rn_writer r) rec ok (source_of answer) = (s', w, hits) →
    rstep s r s' (MkRun (rn_open r) (rn_cancelled r) (rn_reader r)
      (MkChannel rest (ch_closed (rn_queue r))) w (rn_decoded r)) hits
| writer_end ok answer s' w hits :
    wr_returned (rn_writer r) = false → ch_items (rn_queue r) = [] → ch_closed (rn_queue r) = true →
    write_end s (rn_writer r) ok (source_of answer) = (s', w, hits) →
    rstep s r s' (set_writer r w) hits
| writer_flush ok answer s' w hits :
    wr_returned (rn_writer r) = false →
    flush s (rn_writer r) ok (source_of answer) = (s', w, hits) →
    rstep s r s' (set_writer r w) hits
| writer_report :
    wr_returned (rn_writer r) = false → rstep s r s (set_writer r (report s (rn_writer r))) [].

(** ** The listener *)

(** A call of [Stop] past its critical section: the run it stops, and how far
    it got ([conn.Close], then [cancel], then the wait). *)
Inductive stop_stage : Type := Closing | Cancelling | Waiting.

Record Listener : Type := MkListener {
  l_stats : Stats;
  l_started : bool;
  l_runs : list Run;
  l_stops : list (nat * stop_stage);
  l_published : list FlowIndicatorHit;
}.
Definition NewListener : Listener := MkListener stats_zero false [] [] [].

Definition new_run : Run :=
  MkRun true false (MkReader NewDecoder false []) (MkChannel [] false)
    (MkWriter [] stats_zero false [] []) [].

(** [Start], whose bind succeeds or fails; [l.conn] is the last run's. *)
Definition Start (l : Listener) (bound : bool) : Listener :=
  if l_started l then l
  else if negb bound then l
  else MkListener (l_stats l) true (l_runs l ++ [new_run]) (l_stops l) (l_published l).

(** The critical section of [Stop]. *)
Definition Stop (l : Listener) : Listener :=
  if negb (l_started l) then l
  else MkListener (l_stats l) false (l_runs l) (l_stops l ++ [(pred (length (l_runs l)), Closing)]) (l_published l).

Definition close_conn (r : Run) : Run :=
  MkRun false (rn_cancelled r) (rn_reader r) (rn_queue r) (rn_writer r) (rn_decoded r).
Definition cancel (r : Run) : Run :=
  MkRun (rn_open r) true (rn_reader r) (rn_queue r) (rn_writer r) (rn_decoded r).

(** [l.wg]: every loop of every run has returned. *)
Definition wg_done (l : Listener) : bool :=
  forallb (λ r, ch_closed (rn_queue r) && wr_returned (rn_writer r)) (l_runs l).

Definition set_runs (l : Listener) (rs : list Run) : Listener :=
  MkListener (l_stats l) (l_started l) rs (l_stops l) (l_published l).
Definition set_stops (l : Listener) (ss : list (nat * stop_stage)) : Listener :=
  MkListener (l_stats l) (l_started l) (l_runs l) ss (l_published l).

Inductive lstep (l : Listener) : Listener → Prop :=
| l_run i r s' r' hits :
    l_runs l !! i = Some r → rstep (l_stats l) r s' r' hits →
    lstep l (MkListener s' (l_started l) (<[i := r']> (l_runs l)) (l_stops l) (l_published l ++ hits))
| l_start bound : lstep l (Start l bound)
| l_stop : lstep l (Stop l)
| l_stop_close a i b :
    l_stops l = a ++ (i, Closing) :: b →
    lstep l (set_stops (set_runs l (alter close_conn i (l_runs l))) (a ++ (i, Cancelling) :: b))
| l_stop_cancel a i b :
    l_stops l = a ++ (i, Cancelling) :: b →
    lstep l (set_stops (set_runs l (alter cancel i (l_runs l))) (a ++ (i, Waiting) :: b))
| l_stop_return a i b :
    l_stops l = a ++ (i, Waiting) :: b → wg_done l = true → lstep l (set_stops l (a ++ b))
(** Its deadline passes first. *)
| l_stop_expire a i b :
    l_stops l = a ++ (i, Waiting) :: b → lstep l (set_stops l (a ++ b))
(** The context given to [Start] ends. *)
| l_cancelled i : lstep l (set_runs l (alter cancel i (l_runs l))).
End steps.

(** ** What a run keeps *)

#[local] Arguments len : simpl never.

Lemma len_nil {A} : len (@nil A) = 0.
Proof. done. Qed.

(** The records the queue took, in order: those stored, those in the batch and
    those still queued. *)
Definition accepted (r : Run) : list FlowRecord :=
  concat (map fst (wr_stored (rn_writer r))) ++ wr_batch (rn_writer r) ++ ch_items (rn_queue r).

(** The store calls that failed. *)
Definition failures (r : Run) : Z := len (filter (λ b, b.2 = false) (wr_stored (rn_writer r))).

Definition sum_losses (rs : list Stats) (get : Stats → Z) : Z := foldr (λ s n, get s + n) 0 rs.
#[local] Arguments sum_losses : simpl never.

Record run_ok (size most : Z) (r : Run) : Prop := {
  ro_decoder : decoder_ok (rd_dec (rn_reader r));
  ro_records : Forall record_ok (rn_decoded r);
  ro_taken : ∃ taken, rn_decoded r = taken ++ rd_todo (rn_reader r) ∧ accepted r `sublist_of` taken;
  ro_queue : len (ch_items (rn_queue r)) ≤ size;
  ro_batch : len (wr_batch (rn_writer r)) < most;
  ro_stored : Forall (λ b, 1 ≤ len b.1 ≤ batchSize) (wr_stored (rn_writer r));
  ro_armed : rd_armed (rn_reader r) = true → rd_todo (rn_reader r) = [] ∧ ch_closed (rn_queue r) = false;
  ro_closed : ch_closed (rn_queue r) = true → rd_todo (rn_reader r) = [];
  ro_returned : wr_returned (rn_writer r) = true →
    ch_closed (rn_queue r) = true ∧ ch_items (rn_queue r) = [] ∧ wr_batch (rn_writer r) = [];
  ro_reports : ∀ get, get ∈ [st_Dropped; st_MissingTemplate; st_Malformed; st_StoreErrors] →
    sum_losses (wr_reports (rn_writer r)) get = get (wr_last (rn_writer r));
}.

(** What a step does to the counters is what it does to its run. *)
Record balanced (s s' : Stats) (r r' : Run) : Prop := {
  ba_records : st_Records s' - st_Records s = len (accepted r') - len (accepted r);
  ba_dropped : st_Dropped s' - st_Dropped s =
    (len (rn_decoded r') - len (rd_todo (rn_reader r')) - len (accepted r')) -
    (len (rn_decoded r) - len (rd_todo (rn_reader r)) - len (accepted r));
  ba_failed : st_StoreErrors s' - st_StoreErrors s = failures r' - failures r;
}.

Lemma sum_losses_snoc rs x get : sum_losses (rs ++ [x]) get = sum_losses rs get + get x.
Proof. unfold sum_losses. induction rs as [|y rs IH]; cbn; lia. Qed.

Section flush.
Context {N : ThreatList.NetIP}.

(** The batch goes to the store, whole and once. *)
Lemma flush_spec s w ok source :
  let '(s', w', hits) := flush s w ok source in
  let failed := if decide (wr_batch w ≠ [] ∧ ok = false) then 1 else 0 in
  s' = MkStats (st_Datagrams s) (st_Records s) (st_Dropped s) (st_MissingTemplate s) (st_Malformed s)
    (st_StoreErrors s + failed) ∧
  wr_batch w' = [] ∧ wr_last w' = wr_last w ∧ wr_returned w' = wr_returned w ∧ wr_reports w' = wr_reports w ∧
  wr_stored w' = wr_stored w ++ (if decide (wr_batch w = []) then [] else [(wr_batch w, ok)]) ∧
  hits = if decide (wr_batch w = []) then [] else HitCheck.checkIndicators source (wr_batch w).
Proof.
  unfold flush. destruct w as [batch last ret stored reports]. cbn. destruct batch as [|rec batch]; cbn.
  - rewrite decide_False by naive_solver. rewrite Z.add_0_r, app_nil_r. by destruct s.
  - destruct ok; [rewrite decide_False by naive_solver|rewrite decide_True by done]; by rewrite ?Z.add_0_r.
Qed.
End flush.

Section run.
Context `{!RangeOrder templateKey, !RangeOrder domainKey, !RangeOrder rateKey} {N : ThreatList.NetIP}.
Variable cfg : Config.
#[local] Abbreviation ok := (run_ok (cfg_QueueSize cfg) batchSize).

Lemma handle_wp s dec from pkt now :
  decoder_ok dec → bytes_ok pkt →
  wp (handle s dec from pkt now) (λ r, decoder_ok r.1.2 ∧ Forall record_ok r.2 ∧ len r.2 ≤ len pkt ∧
    st_Records r.1.1 = st_Records s ∧ st_Dropped r.1.1 = st_Dropped s ∧ st_StoreErrors r.1.1 = st_StoreErrors s).
Proof.
  intros Hd Hb. unfold handle. eapply wp_bind_spec; [by apply Decode_wp|].
  intros [ [dec' res] err] (H1 & H2 & H3). by apply wp_some.
Qed.

(** A flush moves records and drops none. *)
Lemma flush_accepted s r okb source s' w hits :
  flush s (rn_writer r) okb source = (s', w, hits) → 0 ≤ failures r →
  accepted (set_writer r w) = accepted r ∧ st_Records s' = st_Records s ∧ st_Dropped s' = st_Dropped s ∧
  st_StoreErrors s' - st_StoreErrors s = failures (set_writer r w) - failures r.
Proof.
  intros E _. pose proof (flush_spec s (rn_writer r) okb source) as H. rewrite E in H.
  destruct H as (-> & Hb & _ & _ & _ & Hs & _). unfold accepted, failures. cbn [rn_writer set_writer rn_queue]. rewrite Hb, Hs.
  destruct (decide (wr_batch (rn_writer r) = [])) as [Eb|Eb].
  - rewrite Eb, app_nil_r. rewrite decide_False by naive_solver. cbn. split_and!; [done|done|done|lia].
  - rewrite map_app, concat_app, filter_app, len_app. cbn [map fst concat]. rewrite app_nil_r, <-(assoc_L (++)).
    rewrite filter_cons, filter_nil. cbn [snd st_Records st_Dropped st_StoreErrors]. split_and!; [done..|].
    destruct okb; [rewrite !decide_False by naive_solver|rewrite !decide_True by naive_solver]; unfold len; cbn; lia.
Qed.

Lemma failures_nonneg r : 0 ≤ failures r.
Proof. apply len_nonneg. Qed.

Lemma run_ok_weaken most most' r : most ≤ most' → run_ok (cfg_QueueSize cfg) most r → run_ok (cfg_QueueSize cfg) most' r.
Proof. intros ? []. split; try done. lia. Qed.

(** A flush keeps the invariant. *)
Lemma flush_ok s r okb source s' w hits :
  run_ok (cfg_QueueSize cfg) (batchSize + 1) r → wr_returned (rn_writer r) = false → flush s (rn_writer r) okb source = (s', w, hits) →
  ok (set_writer r w) ∧ balanced s s' r (set_writer r w) ∧ wr_returned w = false ∧ wr_batch w = [].
Proof.
  intros Hr Hret E. destruct (flush_accepted s r okb source s' w hits E (failures_nonneg r)) as (Ha & H1 & H2 & H3).
  pose proof (flush_spec s (rn_writer r) okb source) as H. rewrite E in H.
  destruct H as (_ & Hb & Hl & Hrt & Hrp & Hs & _). destruct Hr as [R1 R2 R3 R4 R5 R6 R7 R8 R9 R10].
  split; [|split; [|by rewrite Hrt]].
  - split; cbn [set_writer rn_reader rn_queue rn_writer rn_decoded]; try done.
    + by rewrite Ha.
    + rewrite Hb. done.
    + rewrite Hs. apply Forall_app. split; [done|]. case_decide as Eb; repeat constructor; cbn; [|lia].
      destruct (wr_batch (rn_writer r)); [done|]. rewrite len_cons. pose proof (len_nonneg l). lia.
    + rewrite Hrt, Hret. done.
    + by rewrite Hrp, Hl.
  - split; cbn [set_writer rn_reader rn_decoded]; rewrite ?Ha; lia.
Qed.

Lemma rstep_ok s r s' r' hits : ok r → rstep cfg s r s' r' hits → ok r' ∧ balanced s s' r r'.
Proof.
  intros Hr Hst. pose proof Hr as [R1 R2 R3 R4 R5 R6 R7 R8 R9 R10].
  assert (∀ r', accepted r' = accepted r → rn_decoded r' = rn_decoded r → rd_todo (rn_reader r') = rd_todo (rn_reader r) →
    failures r' = failures r → balanced s s r r') as Hsame.
  { intros x E1 E2 E3 E4. split; rewrite ?E1, ?E2, ?E3, ?E4; lia. }
  assert (rd_armed (rn_reader r) = false → rd_todo (rn_reader r) = [] → ch_closed (rn_queue r) = false → ok (set_armed r true)) as Harm.
  { intros ???. split; cbn; done. }
  assert (rd_todo (rn_reader r) = [] → ok (read_end r)) as Hend.
  { intros Ht. split; cbn; try done. intros H9. by destruct (R9 H9) as (? & ? & ?). }
  destruct Hst as [?? | ?? | from pkt now s' dec todo Ha Ho Hb Hlen Hh | Ha Ho | Ha Ho | Ha Ho | rec todo s' q Ht Hq
    | rec rest okb answer s' w hits Hret Hit Hw | okb answer s' w hits Hret Hit Hcl Hw | okb answer s' w hits Hret Hw | Hret].
  - split; [by apply Harm|by apply Hsame].
  - split; [by apply Hend|by apply Hsame].
  - destruct (R7 Ha) as [Ht Hc]. pose proof (handle_wp s _ from pkt now R1 Hb) as HW. rewrite Hh in HW. cbn in HW.
    destruct HW as (Hd & Hrec & _ & E1 & E2 & E3). split.
    + split; cbn; try done; try (rewrite Hc; done); try (by apply Forall_app).
      destruct R3 as (taken & E & Hsub). exists taken. rewrite E, Ht, app_nil_r. done.
    + split; cbn; rewrite ?E1, ?E2, ?E3, ?len_app, ?Ht, ?len_nil; unfold accepted, failures; cbn; lia.
  - destruct (R7 Ha) as [Ht Hc]. split; [|by apply Hsame]. split; cbn; done.
  - destruct (R7 Ha) as [Ht Hc]. destruct (rn_cancelled r); (split; [|by apply Hsame]); [by apply Hend|split; cbn; done].
  - destruct (R7 Ha) as [Ht Hc]. split; [by apply Hend|by apply Hsame].
  - destruct R3 as (taken & E & Hsub). rewrite Ht in E.
    assert (rd_armed (rn_reader r) = false) as Hna.
    { destruct (rd_armed (rn_reader r)) eqn:Ea; [|done]. destruct (R7 eq_refl). congruence. }
    assert (ch_closed (rn_queue r) = false) as Hnc.
    { destruct (ch_closed (rn_queue r)) eqn:Ec; [|done]. rewrite Ht in R8. by specialize (R8 eq_refl). }
    assert (wr_returned (rn_writer r) = false) as Hnr.
    { destruct (wr_returned (rn_writer r)) eqn:Er; [|done]. destruct (R9 eq_refl). congruence. }
    unfold offer in Hq. destruct (Z.ltb_spec (len (ch_items (rn_queue r))) (cfg_QueueSize cfg)); injection Hq as <- <-.
    + split.
      * split; cbn; rewrite ?Hna, ?Hnc, ?Hnr; try done.
        -- exists (taken ++ [rec]). rewrite E, <-(assoc_L (++)). split; [done|]. unfold accepted. cbn.
           rewrite !(assoc_L (++)). apply sublist_app; [|done]. rewrite <-(assoc_L (++)). exact Hsub.
        -- rewrite len_app. change (len [rec]) with 1. lia.
      * split; cbn; unfold accepted, failures; cbn; rewrite ?Ht, ?len_app, ?len_cons; rewrite ?len_nil; lia.
    + split.
      * split; cbn; rewrite ?Hna, ?Hnc, ?Hnr; try done.
        exists (taken ++ [rec]). rewrite E, <-(assoc_L (++)). split; [done|]. by apply sublist_inserts_r.
      * split; cbn; unfold accepted, failures; cbn; rewrite ?Ht, ?len_app, ?len_cons; lia.
  - set (r1 := MkRun (rn_open r) (rn_cancelled r) (rn_reader r) (MkChannel rest (ch_closed (rn_queue r)))
      (MkWriter (wr_batch (rn_writer r) ++ [rec]) (wr_last (rn_writer r)) (wr_returned (rn_writer r))
        (wr_stored (rn_writer r)) (wr_reports (rn_writer r))) (rn_decoded r)).
    assert (accepted r1 = accepted r) as Eacc.
    { unfold accepted, r1. cbn. rewrite Hit. by rewrite <-!(assoc_L (++)). }
    assert (len (ch_items (rn_queue r)) = 1 + len rest) as Elen by (by rewrite Hit, len_cons).
    assert (∀ most, len (wr_batch (rn_writer r1)) < most → run_ok (cfg_QueueSize cfg) most r1) as Hr1.
    { intros most Hlt. split; try rewrite Eacc; unfold r1 in *; cbn in *; rewrite ?Hret; try done; lia. }
    assert (len (wr_batch (rn_writer r1)) ≤ batchSize) as Hle.
    { unfold r1. cbn. rewrite len_app. change (len [rec]) with 1. lia. }
    change (write_take s (rn_writer r) rec okb (source_of cfg answer)) with
      (if len (wr_batch (rn_writer r1)) =? batchSize then flush s (rn_writer r1) okb (source_of cfg answer)
       else (s, rn_writer r1, [])) in Hw.
    destruct (Z.eqb_spec (len (wr_batch (rn_writer r1))) batchSize).
    + destruct (flush_ok s r1 okb (source_of cfg answer) s' w hits) as (Hok & Hbal & _); [by apply Hr1; lia|done|done|].
      split; [done|]. destruct Hbal as [B1 B2 B3]. split; rewrite ?Eacc in *; done.
    + injection Hw as <- <- <-. change (MkRun _ _ _ _ _ _) with r1. split; [apply Hr1; lia|by apply Hsame].
  - unfold write_end in Hw. destruct (flush s (rn_writer r) okb _) as [ [s1 w1] hits1] eqn:E. injection Hw as <- <- <-.
    destruct (flush_ok s r okb (source_of cfg answer) s1 w1 hits1) as (Hok & Hbal & Hw1 & Hb1); [by apply (run_ok_weaken batchSize); [lia|]|done|done|].
    split.
    + by destruct Hok.
    + destruct Hbal as [B1 B2 B3]. by split.
  - destruct (flush_ok s r okb (source_of cfg answer) s' w hits) as (? & ? & _); [by apply (run_ok_weaken batchSize); [lia|]|done..].
  - split; [|by apply Hsame]. split; cbn; rewrite ?Hret; try done. intros get Hg.
    unfold report. cbn. destruct (same_losses s (wr_last (rn_writer r))) eqn:E.
    + rewrite (R10 get Hg). unfold same_losses in E. rewrite !andb_true_iff, !Z.eqb_eq in E.
      destruct E as [ [ [? ?] ?] ?]. rewrite !elem_of_cons in Hg. destruct Hg as [->|[->|[->|[->|Hg%elem_of_nil] ] ] ]; done.
    + rewrite sum_losses_snoc, (R10 get Hg). rewrite !elem_of_cons in Hg.
      destruct Hg as [->|[->|[->|[->|Hg%elem_of_nil] ] ] ]; cbn; [lia..|done].
Qed.
End run.

(** ** The whole listener *)

(** Totals over the runs. *)
Definition total (f : Run → Z) (rs : list Run) : Z := foldr (λ r n, f r + n) 0 rs.
#[local] Arguments total : simpl never.

Lemma total_insert f rs i r r' : rs !! i = Some r → total f (<[i := r']> rs) = total f rs + f r' - f r.
Proof.
  revert i. induction rs as [|x rs IH]; intros [|i]; [done..| |].
  - intros [= ->]. change (f r' + total f rs = f r + total f rs + f r' - f r). lia.
  - intros Hi. change (f x + total f (<[i := r']> rs) = f x + total f rs + f r' - f r). rewrite (IH i Hi). lia.
Qed.

Lemma total_snoc f rs r : total f (rs ++ [r]) = total f rs + f r.
Proof. unfold total. induction rs as [|x rs IH]; cbn; lia. Qed.

Lemma total_alter f g rs i : (∀ r, f (g r) = f r) → total f (alter g i rs) = total f rs.
Proof.
  intros Hg. revert i. induction rs as [|x rs IH]; intros [|i]; [done..| |].
  - change (f (g x) + total f rs = f x + total f rs). by rewrite Hg.
  - change (f x + total f (alter g i rs) = f x + total f rs). by rewrite IH.
Qed.

Lemma total_ext f g rs : Forall (λ r, f r = g r) rs → total f rs = total g rs.
Proof.
  induction 1 as [|x rs Hx _ IH]; [done|]. change (f x + total f rs = g x + total g rs). by rewrite Hx, IH.
Qed.

Lemma total_zero rs : total (λ _, 0) rs = 0.
Proof. unfold total. induction rs as [|x rs IH]; cbn; lia. Qed.

Section listener.
Context `{!RangeOrder templateKey, !RangeOrder domainKey, !RangeOrder rateKey} {N : ThreatList.NetIP}.
Variable cfg : Config.
Hypothesis cfg_ok : 0 < cfg_QueueSize cfg.

Record listener_ok (l : Listener) : Prop := {
  lo_runs : Forall (run_ok (cfg_QueueSize cfg) batchSize) (l_runs l);
  lo_records : st_Records (l_stats l) = total (λ r, len (accepted r)) (l_runs l);
  lo_dropped : st_Records (l_stats l) + st_Dropped (l_stats l) +
    total (λ r, len (rd_todo (rn_reader r))) (l_runs l) = total (λ r, len (rn_decoded r)) (l_runs l);
  lo_failed : st_StoreErrors (l_stats l) = total failures (l_runs l);
}.

Lemma new_run_ok : run_ok (cfg_QueueSize cfg) batchSize new_run.
Proof using cfg_ok.
  pose proof NewDecoder_ok. split; cbn; try done; rewrite ?len_nil; try lia.
  - by exists [].
  - intros get Hg. rewrite !elem_of_cons in Hg. destruct Hg as [->|[->|[->|[->|Hg%elem_of_nil] ] ] ]; done.
Qed.

Lemma alter_ok f l i :
  (∀ r, run_ok (cfg_QueueSize cfg) batchSize r → run_ok (cfg_QueueSize cfg) batchSize (f r)) →
  (∀ r, accepted (f r) = accepted r ∧ rn_decoded (f r) = rn_decoded r ∧
    rd_todo (rn_reader (f r)) = rd_todo (rn_reader r) ∧ failures (f r) = failures r) →
  listener_ok l → listener_ok (set_runs l (alter f i (l_runs l))).
Proof.
  intros Hf Hsame [H1 H2 H3 H4]. split; cbn.
  - apply Forall_alter; [done|]. intros x _ Hx. by apply Hf.
  - rewrite total_alter by (intros r; by destruct (Hsame r) as (-> & _)). done.
  - rewrite !total_alter; [done|..]; intros r; destruct (Hsame r) as (E1 & E2 & E3 & E4); by rewrite ?E2, ?E3.
  - rewrite total_alter by (intros r; by destruct (Hsame r) as (_ & _ & _ & ->)). done.
Qed.

Lemma set_stops_ok l ss : listener_ok l → listener_ok (set_stops l ss).
Proof. intros []. by split. Qed.

Lemma flow_lstep_ok l l' : listener_ok l → lstep cfg l l' → listener_ok l'.
Proof using cfg_ok.
  intros Hl Hst. pose proof Hl as [H1 H2 H3 H4]. destruct Hst as [i r s' r' hits Hi Hr|bound| |a i b Ha|a i b Ha|a i b Ha Hw|a i b Ha|i].
  - rewrite Forall_lookup in H1. destruct (rstep_ok cfg _ _ _ _ _ (H1 i r Hi) Hr) as [Hr' [B1 B2 B3]].
    split; cbn.
    + apply Forall_insert; [by apply Forall_lookup|done].
    + rewrite (total_insert _ _ _ r r' Hi). lia.
    + rewrite !(total_insert _ _ _ r r' Hi). lia.
    + rewrite (total_insert _ _ _ r r' Hi). lia.
  - unfold Start. destruct (l_started l); [done|]. destruct bound; [|done]. cbn. split; cbn.
    + apply Forall_app. split; [done|]. constructor; [apply new_run_ok|constructor].
    + rewrite total_snoc. change (len (accepted new_run)) with 0. lia.
    + rewrite !total_snoc. change (len (rd_todo (rn_reader new_run))) with 0. change (len (rn_decoded new_run)) with 0. lia.
    + rewrite total_snoc. change (failures new_run) with 0. lia.
  - unfold Stop. destruct (l_started l); [|done]. by split.
  - apply set_stops_ok, (alter_ok close_conn l i); [|done..]. intros r []. by split.
  - apply set_stops_ok, (alter_ok cancel l i); [|done..]. intros r []. by split.
  - by split.
  - by split.
  - apply (alter_ok cancel l i); [|done..]. intros r []. by split.
Qed.

Abbreviation reachable l := (rtc (lstep cfg) NewListener l).

Lemma flow_reachable_ok l : reachable l → listener_ok l.
Proof using cfg_ok.
  intros Hr. assert (listener_ok NewListener) as H0 by (by split; [constructor|..]).
  revert H0. induction Hr as [|l1 l2 l3 Hst _ IH]; [done|]. intros H1. by apply IH, (flow_lstep_ok l1).
Qed.

(** C8: In every interleaving of the loops, starts and stops: every decoded
    record is accepted, dropped and counted, or still to be offered; what a
    run accepts is a subsequence of what its datagrams decoded to, in their
    order, and is stored, batched or queued; the queue and the batches keep
    their bounds; the failed store calls are those counted. *)
Theorem flow_accounting l :
  reachable l →
  st_Records (l_stats l) = total (λ r, len (accepted r)) (l_runs l) ∧
  st_Records (l_stats l) + st_Dropped (l_stats l) + total (λ r, len (rd_todo (rn_reader r))) (l_runs l) =
    total (λ r, len (rn_decoded r)) (l_runs l) ∧
  st_StoreErrors (l_stats l) = total failures (l_runs l) ∧
  Forall (λ r, ∃ taken, rn_decoded r = taken ++ rd_todo (rn_reader r) ∧ accepted r `sublist_of` taken ∧
    Forall record_ok taken ∧
    len (ch_items (rn_queue r)) ≤ cfg_QueueSize cfg ∧ len (wr_batch (rn_writer r)) < batchSize ∧
    Forall (λ b, 1 ≤ len b.1 ≤ batchSize) (wr_stored (rn_writer r))) (l_runs l).
Proof using cfg_ok.
  intros [H1 H2 H3 H4]%flow_reachable_ok. split_and!; [done..|].
  eapply Forall_impl; [exact H1|]. intros r [R1 R2 (taken & E & Hs) R4 R5 R6 R7 R8 R9 R10].
  exists taken. split_and!; try done. rewrite E in R2. by apply Forall_app in R2 as [? _].
Qed.

(** No datagram stops the reader: one it waits for is always decoded, to at
    most as many records as it has bytes, each with its fields in range. *)
Theorem flow_never_crashes l i r from pkt now :
  reachable l → l_runs l !! i = Some r → rd_armed (rn_reader r) = true → rn_open r = true →
  bytes_ok pkt → len pkt ≤ maxDatagram →
  ∃ s' r' dec todo, handle (l_stats l) (rd_dec (rn_reader r)) from pkt now = Some (s', dec, todo) ∧
    rstep cfg (l_stats l) r s' r' [] ∧ rd_todo (rn_reader r') = todo ∧
    len todo ≤ len pkt ∧ Forall record_ok todo ∧ st_Datagrams s' = st_Datagrams (l_stats l) + 1.
Proof using cfg_ok.
  intros [H1 _ _ _]%flow_reachable_ok Hi Ha Ho Hb Hlen. rewrite Forall_lookup in H1.
  pose proof (ro_decoder _ _ _ (H1 i r Hi)) as Hd.
  pose proof (handle_wp (l_stats l) _ from pkt now Hd Hb) as HW.
  destruct (handle (l_stats l) (rd_dec (rn_reader r)) from pkt now) as [ [ [s' dec] todo]|] eqn:E; [|done].
  cbn in HW. destruct HW as (Hd' & Hr & Hl & _). eexists s', _, dec, todo. split; [done|]. split; [by eapply read_packet|].
  split; [done|]. split; [done|]. split; [done|].
  unfold handle in E. destruct (Decode _ _ _ _) as [ [ [? ?] ?]|]; [|done]. cbn in E. by injection E as <- _ _.
Qed.

(** ** Stopping *)

(** What is left for the loops of a run whose socket is closed and whose
    context has ended. *)
Definition left (r : Run) : nat :=
  3 * length (rd_todo (rn_reader r)) + 2 * length (ch_items (rn_queue r)) +
  (if ch_closed (rn_queue r) then 0 else if rd_armed (rn_reader r) then 2 else 1) +
  (if wr_returned (rn_writer r) then 0 else 1).

Definition finished (r : Run) : Prop := ch_closed (rn_queue r) = true ∧ wr_returned (rn_writer r) = true.
Definition stopped (r : Run) : Prop := rn_open r = false ∧ rn_cancelled r = true.

Lemma write_take_writer s w rec okb source s' w' hits :
  write_take s w rec okb source = (s', w', hits) → wr_returned w' = wr_returned w.
Proof.
  unfold write_take. cbn [wr_batch]. destruct (_ =? _); [|by intros [= <- <- <-] ].
  intros E. pose proof (flush_spec s (MkWriter (wr_batch w ++ [rec]) (wr_last w) (wr_returned w) (wr_stored w) (wr_reports w)) okb source) as H.
  rewrite E in H. by destruct H as (_ & _ & _ & -> & _).
Qed.

(** A tick of the writer: it flushes its batch, or reports its losses. *)
Definition tick (s : Stats) (r : Run) (s' : Stats) (r' : Run) : Prop :=
  (∃ okb answer w hits, flush s (rn_writer r) okb (source_of cfg answer) = (s', w, hits) ∧ r' = set_writer r w) ∨
  (s' = s ∧ r' = set_writer r (report s (rn_writer r))).

(** A step of a stopped run: a tick of the writer, or one less to go. *)
Lemma stopped_step s r s' r' hits :
  run_ok (cfg_QueueSize cfg) batchSize r → stopped r → rstep cfg s r s' r' hits →
  stopped r' ∧ ((left r' < left r)%nat ∨
    (left r' = left r ∧ wr_returned (rn_writer r) = false ∧ rn_reader r' = rn_reader r ∧ rn_queue r' = rn_queue r ∧ tick s r s' r')).
Proof.
  intros Hr [Ho Hc] Hst. assert (stopped r' ∧ rn_open r' = rn_open r) as [Hs _].
  { destruct Hst; cbn; (by split) || congruence. }
  split; [done|]. unfold left. destruct Hst as [Ha Ht Hq Hn | Ha Ht Hq Hn | from pkt now s' dec todo Ha Hop | Ha Hop | Ha Hop | Ha Hop
    | rec todo s' q Ht Hq | rec rest okb answer s' w hits Hret Hit Hw | okb answer s' w hits Hret Hit Hcl Hw
    | okb answer s' w hits Hret Hw | Hret]; try congruence; cbn.
  - left. rewrite Hq, Ha. lia.
  - left. destruct (ro_armed _ _ _ Hr Ha) as [Ht Hq]. rewrite Hq, Ha. lia.
  - left. rewrite Ht. unfold offer in Hq. destruct (_ <? _); injection Hq as <- <-; cbn; [rewrite length_app; cbn|]; lia.
  - left. rewrite Hit, Hret. rewrite (write_take_writer _ _ _ _ _ _ _ _ Hw), Hret. cbn. lia.
  - left. rewrite Hret. unfold write_end in Hw. destruct (flush _ _ _ _) as [ [? ?] ?]. injection Hw as <- <- <-. cbn. lia.
  - right. pose proof (flush_spec s (rn_writer r) okb (source_of cfg answer)) as H. rewrite Hw in H.
    destruct H as (_ & _ & _ & -> & _). split_and!; try done. left. eauto 6.
  - right. split_and!; try done. by right.
Qed.

(** A stopped run that has not finished can go on. *)
Lemma stopped_progress s r :
  run_ok (cfg_QueueSize cfg) batchSize r → stopped r → ¬ finished r →
  ∃ s' r' hits, rstep cfg s r s' r' hits ∧ (left r' < left r)%nat.
Proof.
  intros Hr [Ho Hc] Hn. destruct (rd_todo (rn_reader r)) as [|rec todo] eqn:Et.
  - destruct (ch_closed (rn_queue r)) eqn:Eq.
    + assert (wr_returned (rn_writer r) = false) as Hret by (destruct (wr_returned (rn_writer r)) eqn:E; [exfalso; by apply Hn|done]).
      destruct (ch_items (rn_queue r)) as [|rec rest] eqn:Ei.
      * destruct (write_end s (rn_writer r) true (source_of cfg None)) as [ [s' w] hits] eqn:E.
        eexists _, _, _. split; [by eapply writer_end|]. unfold left. cbn. rewrite Hret.
        unfold write_end in E. destruct (flush _ _ _ _) as [ [? ?] ?]. injection E as <- <- <-. cbn. lia.
      * destruct (write_take s (rn_writer r) rec true (source_of cfg None)) as [ [s' w] hits] eqn:E.
        eexists _, _, _. split; [by eapply writer_take|]. unfold left. cbn.
        rewrite (write_take_writer _ _ _ _ _ _ _ _ E), Ei. cbn. lia.
    + destruct (rd_armed (rn_reader r)) eqn:Ea.
      * eexists _, _, _. split; [by apply read_closed|]. unfold left. cbn. rewrite Eq, Ea, Et. lia.
      * eexists _, _, _. split; [by apply read_done|]. unfold left. cbn. rewrite Eq, Ea, Et. lia.
  - destruct (offer (cfg_QueueSize cfg) s (rn_queue r) rec) as [s' q] eqn:E.
    eexists _, _, _. split; [by eapply read_offer|]. unfold left. cbn. rewrite Et.
    unfold offer in E. destruct (_ <? _); injection E as <- <-; cbn; [rewrite length_app; cbn|]; lia.
Qed.

(** Once its socket is closed and its context has ended, a run always ends:
    whatever it does meanwhile only brings its end nearer, the writer's ticks
    excepted, and until then its loops can go on. When it has ended, all that
    was ever accepted has been handed to the store, in order. *)
Theorem stop_drains l i r :
  reachable l → l_runs l !! i = Some r → stopped r →
  (∀ s' r' hits, rstep cfg (l_stats l) r s' r' hits → stopped r' ∧ (left r' ≤ left r)%nat) ∧
  (¬ finished r → ∃ s' r' hits, rstep cfg (l_stats l) r s' r' hits ∧ (left r' < left r)%nat) ∧
  (finished r → left r = 0%nat ∧ accepted r = concat (map fst (wr_stored (rn_writer r))) ∧
    ∀ s' r' hits, ¬ rstep cfg (l_stats l) r s' r' hits).
Proof using cfg_ok.
  intros [H1 _ _ _]%flow_reachable_ok Hi Hs. rewrite Forall_lookup in H1. pose proof (H1 i r Hi) as Hr. split_and!.
  - intros s' r' hits Hst. destruct (stopped_step _ _ _ _ _ Hr Hs Hst) as [? [?|[? _] ] ]; (split; [done|lia]).
  - intros Hn. by apply stopped_progress.
  - intros [Hq Hret]. destruct (ro_returned _ _ _ Hr Hret) as (_ & Hi' & Hb).
    pose proof (ro_closed _ _ _ Hr Hq) as Ht. split_and!.
    + unfold left. by rewrite Ht, Hi', Hq, Hret.
    + unfold accepted. by rewrite Hb, Hi', !app_nil_r.
    + intros s' r' hits Hst. destruct Hst; try congruence.
      all: match goal with Ha : rd_armed _ = true |- _ => destruct (ro_armed _ _ _ Hr Ha); congruence end.
Qed.

(** [Stop] returns nil only when nothing accepted is missing from the store
    calls: records that were queued before it are written. *)
Theorem stop_returns_stored l a i b :
  reachable l → l_stops l = a ++ (i, Waiting) :: b → wg_done l = true →
  Forall (λ r, accepted r = concat (map fst (wr_stored (rn_writer r)))) (l_runs l) ∧
  st_Records (l_stats l) = total (λ r, len (concat (map fst (wr_stored (rn_writer r))))) (l_runs l) ∧
  st_Records (l_stats l) + st_Dropped (l_stats l) = total (λ r, len (rn_decoded r)) (l_runs l).
Proof using cfg_ok.
  intros [H1 H2 H3 _]%flow_reachable_ok _ Hw. unfold wg_done in Hw.
  assert (Forall (λ r, accepted r = concat (map fst (wr_stored (rn_writer r))) ∧ rd_todo (rn_reader r) = []) (l_runs l)) as Hall.
  { apply Forall_lookup. intros j r Hj. rewrite Forall_lookup in H1. pose proof (H1 j r Hj) as Hr.
    rewrite forallb_forall in Hw. specialize (Hw r). rewrite <-list_elem_of_In in Hw.
    apply andb_true_iff in Hw as [Hq Hret]; [|by eapply list_elem_of_lookup_2].
    destruct (ro_returned _ _ _ Hr Hret) as (_ & Hi' & Hb). pose proof (ro_closed _ _ _ Hr Hq) as Ht.
    split; [|done]. unfold accepted. by rewrite Hb, Hi', !app_nil_r. }
  split; [eapply Forall_impl; [exact Hall|]; by intros r [? _]|]. split.
  - rewrite H2. apply total_ext. eapply Forall_impl; [exact Hall|]. intros r [-> _]. done.
  - rewrite (total_ext (λ r, len (rd_todo (rn_reader r))) (λ _, 0)) in H3.
    2:{ eapply Forall_impl; [exact Hall|]. cbn. intros r [_ ->]. done. }
    rewrite total_zero in H3. lia.
Qed.
End listener.

(** ** Stop can return *)
Section return_.
Context `{!RangeOrder templateKey, !RangeOrder domainKey, !RangeOrder rateKey} {N : ThreatList.NetIP}.
Variable cfg : Config.
Hypothesis cfg_ok : 0 < cfg_QueueSize cfg.

(** Why a run need not have stopped yet. *)
Definition excused (l : Listener) (i : nat) (r : Run) : Prop :=
  stopped r ∨ (l_started l = true ∧ S i = length (l_runs l)) ∨
  (i, Closing) ∈ l_stops l ∨ ((i, Cancelling) ∈ l_stops l ∧ rn_open r = false).
Definition all_excused (l : Listener) : Prop := ∀ i r, l_runs l !! i = Some r → excused l i r.

Lemma rstep_flags s r s' r' hits :
  rstep cfg s r s' r' hits → rn_open r' = rn_open r ∧ rn_cancelled r' = rn_cancelled r.
Proof. intros Hst. destruct Hst; try done. by destruct (rn_cancelled r) eqn:E; rewrite ?E. Qed.

Lemma lstep_excused l l' : all_excused l → lstep cfg l l' → all_excused l'.
Proof.
  intros He Hst. destruct Hst as [i r s' r' hits Hi Hr|bound| |a i b Ha|a i b Ha|a i b Ha Hw|a i b Ha|i]; intros j x; cbn.
  - destruct (rstep_flags _ _ _ _ _ Hr) as [E1 E2]. rewrite list_lookup_insert. case_decide as Hd.
    + intros [= <-]. destruct Hd as [-> _]. specialize (He j r Hi). unfold excused, stopped in *. cbn. by rewrite E1, E2, length_insert.
    + intros Hx. specialize (He j x Hx). unfold excused in *. cbn. by rewrite length_insert.
  - unfold Start. destruct (l_started l) eqn:Es; [apply He|]. destruct bound; [|apply He]. cbn.
    intros [Hx|[Hle Hx] ]%lookup_app_Some.
    + destruct (He j x Hx) as [?|[ [? _]|?] ]; [by left|congruence|by right; right].
    + right. left. split; [done|]. cbn. rewrite length_app. apply lookup_lt_Some in Hx. cbn in *. lia.
  - unfold Stop. destruct (l_started l) eqn:Es; [|apply He]. cbn. intros Hx.
    destruct (He j x Hx) as [?|[ [_ Hj]|[?|[? ?] ] ] ]; [by left|..]; unfold excused; cbn; rewrite !elem_of_app.
    + right. right. left. right. rewrite <-Hj. apply list_elem_of_singleton. done.
    + right. right. left. by left.
    + right. right. right. split; [by left|done].
  - rewrite list_lookup_alter. destruct (decide (i = j)) as [<-|Hne].
    + intros (y & Hy & ->)%fmap_Some. right. right. right. split; [|done]. cbn. set_solver.
    + intros Hx. destruct (He j x Hx) as [?|[ [? ?]|[Hin|[Hin ?] ] ] ]; unfold excused; cbn; [by left|..].
      * right. left. split; [done|]. by rewrite length_alter.
      * right. right. left. rewrite Ha in Hin. set_solver.
      * right. right. right. rewrite Ha in Hin. split; [set_solver|done].
  - rewrite list_lookup_alter. destruct (decide (i = j)) as [<-|Hne].
    + intros (y & Hy & ->)%fmap_Some. destruct (He i y Hy) as [ [? ?]|[ [? ?]|[Hin|[Hin ?] ] ] ]; unfold excused, stopped; cbn.
      * by left.
      * right. left. split; [done|]. by rewrite length_alter.
      * right. right. left. rewrite Ha in Hin. set_solver.
      * by left.
    + intros Hx. destruct (He j x Hx) as [?|[ [? ?]|[Hin|[Hin ?] ] ] ]; unfold excused; cbn; [by left|..].
      * right. left. split; [done|]. by rewrite length_alter.
      * right. right. left. rewrite Ha in Hin. set_solver.
      * right. right. right. rewrite Ha in Hin. split; [set_solver|done].
  - intros Hx. destruct (He j x Hx) as [?|[ [? ?]|[Hin|[Hin ?] ] ] ]; unfold excused; cbn; rewrite ?Ha in *; [by left|by right; left|..].
    + right. right. left. set_solver.
    + right. right. right. split; [set_solver|done].
  - intros Hx. destruct (He j x Hx) as [?|[ [? ?]|[Hin|[Hin ?] ] ] ]; unfold excused; cbn; rewrite ?Ha in *; [by left|by right; left|..].
    + right. right. left. set_solver.
    + right. right. right. split; [set_solver|done].
  - rewrite list_lookup_alter. destruct (decide (i = j)) as [<-|Hne].
    + intros (y & Hy & ->)%fmap_Some. destruct (He i y Hy) as [ [? ?]|[ [? ?]|[Hin|[Hin ?] ] ] ]; unfold excused, stopped; cbn.
      * by left.
      * right. left. split; [done|]. by rewrite length_alter.
      * right. right. by left.
      * by left.
    + intros Hx. destruct (He j x Hx) as [?|[ [? ?]|[Hin|[Hin ?] ] ] ]; unfold excused; cbn; [by left|..].
      * right. left. split; [done|]. by rewrite length_alter.
      * right. right. by left.
      * right. right. by right.
Qed.

Lemma reachable_excused l : rtc (lstep cfg) NewListener l → all_excused l.
Proof.
  intros Hr. assert (all_excused NewListener) as H0 by (by intros i r).
  revert H0. induction Hr as [|l1 l2 l3 Hst _ IH]; [done|]. intros H1. by apply IH, (lstep_excused l1).
Qed.

Lemma left_finished r : run_ok (cfg_QueueSize cfg) batchSize r → left r = 0%nat → finished r.
Proof.
  intros Hr. unfold left, finished. destruct (ch_closed _), (wr_returned _); [done|lia|..]; destruct (rd_armed _); lia.
Qed.

Definition left_all (rs : list Run) : nat := foldr (λ r n, left r + n)%nat 0%nat rs.

Lemma left_all_insert rs i r r' :
  rs !! i = Some r → (left r' < left r)%nat → (left_all (<[i := r']> rs) < left_all rs)%nat.
Proof.
  unfold left_all. revert i. induction rs as [|x rs IH]; intros [|i]; [done..| |].
  - intros [= ->] ?. change (foldr (λ r n, left r + n)%nat 0%nat (<[0%nat := r']> (r :: rs))) with
      (left r' + foldr (λ r n, left r + n)%nat 0%nat rs)%nat. cbn [foldr]. lia.
  - intros Hi Hlt. change (foldr (λ r n, left r + n)%nat 0%nat (<[S i := r']> (x :: rs))) with
      (left x + foldr (λ r n, left r + n)%nat 0%nat (<[i := r']> rs))%nat. cbn [foldr]. specialize (IH i Hi Hlt). lia.
Qed.

(** [n] steps of the loops that are no ticks, in any order and with any ticks
    between them. *)
Inductive loops : nat → Listener → Listener → Prop :=
| loops_done l : loops 0 l l
| loops_work n l i r s' r' hits l' :
    l_runs l !! i = Some r → rstep cfg (l_stats l) r s' r' hits → ¬ tick cfg (l_stats l) r s' r' →
    loops n (MkListener s' (l_started l) (<[i := r']> (l_runs l)) (l_stops l) (l_published l ++ hits)) l' → loops (S n) l l'
| loops_tick n l i r s' r' hits l' :
    l_runs l !! i = Some r → rstep cfg (l_stats l) r s' r' hits → tick cfg (l_stats l) r s' r' →
    loops n (MkListener s' (l_started l) (<[i := r']> (l_runs l)) (l_stops l) (l_published l ++ hits)) l' → loops n l l'.

(** What the loops of the runs hold: twice what is queued, three times what is
    still to be offered, and three more for each run. *)
Definition work_held (rs : list Run) : nat :=
  foldr (λ r n, 3 * length (rd_todo (rn_reader r)) + 2 * length (ch_items (rn_queue r)) + 3 + n)%nat 0%nat rs.

Lemma left_all_held rs : (left_all rs ≤ work_held rs)%nat.
Proof.
  unfold left_all, work_held. induction rs as [|r rs IH]; cbn [foldr]; [done|].
  assert (left r ≤ 3 * length (rd_todo (rn_reader r)) + 2 * length (ch_items (rn_queue r)) + 3)%nat; [|lia].
  unfold left. destruct (ch_closed (rn_queue r)), (rd_armed (rn_reader r)), (wr_returned (rn_writer r)); lia.
Qed.

Lemma left_all_same rs i r r' : rs !! i = Some r → left r' = left r → left_all (<[i := r']> rs) = left_all rs.
Proof.
  unfold left_all. revert i. induction rs as [|x rs IH]; intros [|i]; [done..| |].
  - intros [= ->] E. change (<[0%nat := r']> (r :: rs)) with (r' :: rs). cbn [foldr]. lia.
  - intros Hi E. change (<[S i := r']> (x :: rs)) with (x :: <[i := r']> rs). cbn [foldr]. specialize (IH i Hi E). lia.
Qed.

Lemma tick_left s r s' r' : tick cfg s r s' r' → left r' = left r ∧ rn_reader r' = rn_reader r ∧ rn_queue r' = rn_queue r.
Proof.
  intros [(okb & answer & w & hits & E & ->)|[_ ->] ]; [|done]. pose proof (flush_spec s (rn_writer r) okb (source_of cfg answer)) as H.
  rewrite E in H. destruct H as (_ & _ & _ & H & _). unfold left. cbn. by rewrite H.
Qed.

(** A step of a stopped run that is no tick brings its end nearer. *)
Lemma stopped_work s r s' r' hits :
  run_ok (cfg_QueueSize cfg) batchSize r → stopped r → rstep cfg s r s' r' hits → ¬ tick cfg s r s' r' → (left r' < left r)%nat.
Proof.
  intros Hr Hs Hst Ht. by destruct (stopped_step cfg _ _ _ _ _ Hr Hs Hst) as [_ [?|(_ & _ & _ & _ & ?)] ].
Qed.

(** The loops of stopped runs: bounded work, and none while there is some. *)
Lemma loops_bounded n l l' : loops n l l' → listener_ok cfg l → Forall stopped (l_runs l) →
  (n ≤ left_all (l_runs l))%nat ∧ rtc (lstep cfg) l l' ∧ listener_ok cfg l' ∧ Forall stopped (l_runs l') ∧ l_stops l' = l_stops l.
Proof using cfg_ok.
  induction 1 as [l|n l i r s' r' hits l' Hi Hst Ht _ IH|n l i r s' r' hits l' Hi Hst Ht _ IH]; intros Hl Hs; [split_and!; done || lia|..].
  all: pose proof (lo_runs _ _ Hl) as Hok; rewrite Forall_lookup in Hok; pose proof Hs as Hs'; rewrite Forall_lookup in Hs'.
  all: destruct (stopped_step cfg _ _ _ _ _ (Hok i r Hi) (Hs' i r Hi) Hst) as [Hr' _].
  all: pose proof (l_run cfg l i r s' r' hits Hi Hst) as Hstep.
  all: destruct IH as (Hn & Hr & H1 & H2 & H3); [by eapply flow_lstep_ok|cbn; by apply Forall_insert|]; cbn [l_runs l_stops] in Hn, H3.
  all: (split; [|split; [by eapply rtc_l|done] ]).
  - pose proof (left_all_insert _ i r r' Hi (stopped_work _ _ _ _ _ (Hok i r Hi) (Hs' i r Hi) Hst Ht)). lia.
  - destruct (tick_left _ _ _ _ Ht) as [E _]. by rewrite (left_all_same _ i r r' Hi E) in Hn.
Qed.

Lemma loops_go_on l : listener_ok cfg l → Forall stopped (l_runs l) → wg_done l = false → ∃ l', loops 1 l l'.
Proof using cfg_ok.
  intros Hl Hs Ew. unfold wg_done in Ew.
  assert (∃ i r, l_runs l !! i = Some r ∧ ¬ finished r) as (i & r & Hi & Hn).
  { clear - Ew. induction (l_runs l) as [|x rs IHr]; [done|]. cbn in Ew. apply andb_false_iff in Ew as [Ex|Ex].
    - exists 0%nat, x. split; [done|]. intros [H1 H2]. by rewrite H1, H2 in Ex.
    - destruct (IHr Ex) as (i & r & ? & ?). by exists (S i), r. }
  pose proof (lo_runs _ _ Hl) as Hok. rewrite Forall_lookup in Hok, Hs.
  destruct (stopped_progress cfg (l_stats l) r (Hok i r Hi) (Hs i r Hi) Hn) as (s' & r' & hits & Hst & Hlt).
  eexists. eapply (loops_work 0 l i r s' r' hits); [done..| |by apply loops_done].
  intros Ht. destruct (tick_left _ _ _ _ Ht) as [E _]. lia.
Qed.

(** C22: Once every [Stop] has reached its wait and nothing was started again, the
    loops end under every interleaving: ticks of the writer apart, they take at
    most three steps for each record still to be offered, two for each record
    queued and three for each run; as long as one of them has not returned such
    a step is possible; and when all have returned the wait is over without its
    deadline, with all that was ever accepted handed to the store, in order. *)
Theorem stop_ends l a i b n l' :
  rtc (lstep cfg) NewListener l → l_started l = false →
  l_stops l = a ++ (i, Waiting) :: b → Forall (λ s, s.2 = Waiting) (l_stops l) → loops n l l' →
  (n ≤ work_held (l_runs l))%nat ∧
  if wg_done l' then Forall (λ r, accepted r = concat (map fst (wr_stored (rn_writer r)))) (l_runs l')
  else ∃ l'', loops 1 l' l''.
Proof using cfg_ok.
  intros Hr Hns Ha Hall Hloops. pose proof (flow_reachable_ok cfg cfg_ok l Hr) as Hl. pose proof (reachable_excused l Hr) as He.
  assert (Forall stopped (l_runs l)) as Hs.
  { apply Forall_lookup. intros j r Hj. rewrite list.Forall_forall in Hall.
    destruct (He j r Hj) as [?|[ [? _]|[Hin|[Hin _] ] ] ]; [done|congruence|..]; apply Hall in Hin; done. }
  destruct (loops_bounded _ _ _ Hloops Hl Hs) as (Hn & Hr' & Hl' & Hs' & Hst). pose proof (left_all_held (l_runs l)). split; [lia|].
  destruct (wg_done l') eqn:Ew; [|by apply loops_go_on].
  rewrite Ha in Hst. apply Forall_lookup. intros j r Hj. unfold wg_done in Ew. rewrite forallb_forall in Ew. specialize (Ew r).
  rewrite <-list_elem_of_In in Ew. apply andb_true_iff in Ew as [_ Hret]; [|by eapply list_elem_of_lookup_2].
  pose proof (lo_runs _ _ Hl') as Hok. rewrite Forall_lookup in Hok. destruct (ro_returned _ _ _ (Hok j r Hj) Hret) as (_ & Hi' & Hb).
  unfold accepted. by rewrite Hb, Hi', !app_nil_r.
Qed.
End return_.

(** ** Concrete runs *)
Section demo.

Definition demo_cfg : Config := MkConfig ":2055" true false false 2.

(** What the loops and callers do, as commands: the steps of run [i] of a
    listener without an indicator list, and the calls. *)
Inductive command : Type :=
| Go (i : nat) | Packet (i : nat) (pkt : bytes) | Offer (i : nat) | Take (i : nat) | Closed (i : nat)
| End (i : nat) | Report (i : nat) | Begin | Halt | HaltClose | HaltCancel | HaltReturn.

Definition on_run (l : Listener) (i : nat) (f : Stats → Run → option (Stats * Run)) : option Listener :=
  r ← l_runs l !! i;
  '(s, r') ← f (l_stats l) r;
  Some (MkListener s (l_started l) (<[i := r']> (l_runs l)) (l_stops l) (l_published l)).

Definition play1 (l : Listener) (c : command) : option Listener :=
  match c with
  | Go i => on_run l i (λ s r,
      if negb (rd_armed (rn_reader r)) && bool_decide (rd_todo (rn_reader r) = []) &&
         negb (ch_closed (rn_queue r)) && negb (rn_cancelled r)
      then Some (s, set_armed r true) else None)
  | Packet i pkt => on_run l i (λ s r,
      if rd_armed (rn_reader r) && rn_open r && forallb (λ c, (0 <=? c) && (c <? 256)) pkt && (len pkt <=? maxDatagram)
      then '(s', dec, todo) ← handle s (rd_dec (rn_reader r)) None pkt 0;
           Some (s', MkRun (rn_open r) (rn_cancelled r) (MkReader dec false todo) (rn_queue r)
             (rn_writer r) (rn_decoded r ++ todo))
      else None)
  | Offer i => on_run l i (λ s r,
      match rd_todo (rn_reader r) with
      | [] => None
      | rec :: todo =>
          let '(s', q) := offer (cfg_QueueSize demo_cfg) s (rn_queue r) rec in
          Some (s', MkRun (rn_open r) (rn_cancelled r)
            (MkReader (rd_dec (rn_reader r)) (rd_armed (rn_reader r)) todo) q (rn_writer r) (rn_decoded r))
      end)
  | Take i => on_run l i (λ s r,
      match ch_items (rn_queue r) with
      | [] => None
      | rec :: rest =>
          if wr_returned (rn_writer r) then None else
          let '(s', w, hits) := write_take (N := HitFacts.demo_net) s (rn_writer r) rec true None in
          match hits with
          | [] => Some (s', MkRun (rn_open r) (rn_cancelled r) (rn_reader r)
              (MkChannel rest (ch_closed (rn_queue r))) w (rn_decoded r))
          | _ => None
          end
      end)
  | Closed i => on_run l i (λ s r,
      if rd_armed (rn_reader r) && negb (rn_open r) then Some (s, read_end r) else None)
  | End i => on_run l i (λ s r,
      if negb (wr_returned (rn_writer r)) && bool_decide (ch_items (rn_queue r) = []) && ch_closed (rn_queue r)
      then let '(s', w, hits) := write_end (N := HitFacts.demo_net) s (rn_writer r) true None in
        match hits with [] => Some (s', set_writer r w) | _ => None end
      else None)
  | Report i => on_run l i (λ s r,
      if wr_returned (rn_writer r) then None else Some (s, set_writer r (report s (rn_writer r))))
  | Begin => Some (Start l true)
  | Halt => Some (Stop l)
  | HaltClose => match l_stops l with
      | (i, Closing) :: b => Some (set_stops (set_runs l (alter close_conn i (l_runs l))) ((i, Cancelling) :: b))
      | _ => None end
  | HaltCancel => match l_stops l with
      | (i, Cancelling) :: b => Some (set_stops (set_runs l (alter cancel i (l_runs l))) ((i, Waiting) :: b))
      | _ => None end
  | HaltReturn => match l_stops l with
      | (i, Waiting) :: b => if wg_done l then Some (set_stops l b) else None
      | _ => None end
  end.

Fixpoint play (l : Listener) (cs : list command) : option Listener :=
  match cs with [] => Some l | c :: cs => l ← play1 l c; play l cs end.

#[local] Existing Instance HitFacts.demo_net.

Lemma on_run_step l i f l' :
  (∀ s r s' r', f s r = Some (s', r') → rstep demo_cfg s r s' r' []) → on_run l i f = Some l' → lstep demo_cfg l l'.
Proof.
  intros Hf. unfold on_run. destruct (l_runs l !! i) as [r|] eqn:Hi; [|done]. cbn.
  destruct (f (l_stats l) r) as [ [s r']|] eqn:E; [|done]. cbn. intros [= <-].
  pose proof (l_run demo_cfg l i r s r' [] Hi (Hf _ _ _ _ E)) as H. by rewrite app_nil_r in H.
Qed.

Lemma play1_step l c l' : play1 l c = Some l' → lstep demo_cfg l l'.
Proof.
  destruct c as [i|i pkt|i|i|i|i|i| | | | |]; cbn [play1]; try (apply on_run_step; intros s r s' r').
  - destruct (rd_armed (rn_reader r)) eqn:E1; [done|]. case_bool_decide; [|done].
    destruct (ch_closed (rn_queue r)) eqn:E2; [done|]. destruct (rn_cancelled r) eqn:E3; [done|].
    intros [= <- <-]. by apply read_go.
  - destruct (rd_armed (rn_reader r)) eqn:E1; [|done]. destruct (rn_open r) eqn:E2; [|done]. cbn [andb].
    destruct (forallb _ pkt) eqn:E3; [|done]. destruct (Z.leb_spec (len pkt) maxDatagram); [|done]. cbn [andb].
    destruct (handle s _ None pkt 0) as [ [ [s1 dec] todo]|] eqn:E4; [|done]. cbn. intros [= <- <-].
    replace (MkRun true (rn_cancelled r)) with (MkRun (rn_open r) (rn_cancelled r)) by (by rewrite E2).
    eapply read_packet; try done. apply list.Forall_forall. intros x Hx%list_elem_of_In.
    rewrite forallb_forall in E3. specialize (E3 x Hx). unfold is_byte. bool_lia.
  - destruct (rd_todo (rn_reader r)) as [|rec todo] eqn:E1; [done|].
    destruct (offer _ s (rn_queue r) rec) as [s1 q] eqn:E2. intros [= <- <-]. by eapply read_offer.
  - destruct (ch_items (rn_queue r)) as [|rec rest] eqn:E1; [done|]. destruct (wr_returned (rn_writer r)) eqn:E2; [done|].
    destruct (write_take s (rn_writer r) rec true None) as [ [s1 w] hits] eqn:E3. destruct hits; [|done]. intros [= <- <-].
    by eapply (writer_take demo_cfg s r rec rest true None).
  - destruct (rd_armed (rn_reader r)) eqn:E1; [|done]. destruct (rn_open r) eqn:E2; [done|]. intros [= <- <-]. by apply read_closed.
  - destruct (wr_returned (rn_writer r)) eqn:E1; [done|]. case_bool_decide; [|done]. destruct (ch_closed (rn_queue r)) eqn:E2; [|done]. cbn [negb andb].
    destruct (write_end s (rn_writer r) true None) as [ [s1 w] hits] eqn:E3. destruct hits; [|done]. intros [= <- <-].
    by eapply (writer_end demo_cfg s r true None).
  - destruct (wr_returned (rn_writer r)) eqn:E1; [done|]. intros [= <- <-]. by apply writer_report.
  - intros [= <-]. apply l_start.
  - intros [= <-]. apply l_stop.
  - destruct (l_stops l) as [|[i []] b] eqn:E; try done. intros [= <-]. by apply (l_stop_close demo_cfg l [] i b).
  - destruct (l_stops l) as [|[i []] b] eqn:E; try done. intros [= <-]. by apply (l_stop_cancel demo_cfg l [] i b).
  - destruct (l_stops l) as [|[i []] b] eqn:E; try done. destruct (wg_done l) eqn:Ew; [|done]. intros [= <-].
    by apply (l_stop_return demo_cfg l [] i b).
Qed.

Lemma play_reach l cs l' : play l cs = Some l' → rtc (lstep demo_cfg) l l'.
Proof.
  revert l. induction cs as [|c cs IH]; intros l; cbn; [by intros [= ->]|].
  destruct (play1 l c) as [l1|] eqn:E; [|done]. cbn. intros Hp. eapply rtc_l; [by eapply play1_step|by apply IH].
Qed.
End demo.

(** A v5 datagram of three flows, more than the queue of [demo_cfg] takes. *)
Definition burst : bytes :=
  [0;5;0;3] ++ take 20 (drop 4 sample_v5) ++ drop 24 sample_v5 ++ drop 24 sample_v5 ++ drop 24 sample_v5.

Definition flood : list command :=
  [Begin; Go 0; Packet 0 burst; Offer 0; Offer 0; Offer 0; Take 0; Go 0; Halt; HaltClose; HaltCancel].
Definition flood_end : list command := [Closed 0; Take 0; End 0; HaltReturn].

Definition at_ (cs : list command) : Listener := default NewListener (play NewListener cs).

(** Two of the three are stored, in one batch on the way out. *)
Example flood_counts :
  l_stats (at_ (flood ++ flood_end)) = MkStats 1 2 1 0 0 0 ∧
  map (λ r, map (λ b, (len b.1, b.2)) (wr_stored (rn_writer r))) (l_runs (at_ (flood ++ flood_end))) = [[(2, true)]] ∧
  l_stops (at_ (flood ++ flood_end)) = [].
Proof. by vm_compute. Qed.

(** The counters go on over a restart, and the new writer's summary compares
    them with zero: what the first run lost is reported again. *)
Example restart_reports_again :
  map (λ r, map st_Dropped (wr_reports (rn_writer r)))
    (l_runs (at_ ([Begin; Go 0; Packet 0 burst; Offer 0; Offer 0; Offer 0; Report 0; Go 0; Halt; HaltClose; HaltCancel] ++
       [Closed 0; Take 0; Take 0; End 0; HaltReturn; Begin; Report 1]))) = [[1]; [1]].
Proof. by vm_compute. Qed.

(** When the context given to [Start] ends, the reader and the writer end,
    and the listener still counts as started: [Start] does nothing. *)
Example context_ends :
  let l := set_runs (at_ [Begin]) (alter cancel 0%nat (l_runs (at_ [Begin]))) in
  l_started l = true ∧ Start l true = l ∧ rstep demo_cfg (N := HitFacts.demo_net) (l_stats l) (cancel new_run) (l_stats l) (read_end (cancel new_run)) [].
Proof. split_and!; [by vm_compute..|]. by apply read_done. Qed.

#[local] Existing Instance HitFacts.demo_net.

Lemma flow_accounting_witness :
  st_Records (l_stats (at_ flood)) + st_Dropped (l_stats (at_ flood)) = 3 ∧
  rtc (lstep demo_cfg) NewListener (at_ flood).
Proof.
  assert (rtc (lstep demo_cfg) NewListener (at_ flood)) as Hr by (apply (play_reach _ flood); by vm_compute).
  split; [|exact Hr].
  destruct (flow_accounting demo_cfg ltac:(by vm_compute) (at_ flood) Hr) as (_ & H & _).
  replace (total (λ r, len (rd_todo (rn_reader r))) (l_runs (at_ flood))) with 0 in H by by vm_compute.
  replace (total (λ r, len (rn_decoded r)) (l_runs (at_ flood))) with 3 in H by by vm_compute. lia.
Defined.

Definition waiting_packet : list command := [Begin; Go 0].
Definition first_run (l : Listener) : Run := default new_run (l_runs l !! 0%nat).

Lemma flow_never_crashes_witness :
  ∃ s' r' dec todo,
    handle (l_stats (at_ waiting_packet)) (rd_dec (rn_reader (first_run (at_ waiting_packet)))) None sample_ipfix 5 =
      Some (s', dec, todo) ∧
    rstep demo_cfg (l_stats (at_ waiting_packet)) (first_run (at_ waiting_packet)) s' r' [] ∧
    rd_todo (rn_reader r') = todo ∧ len todo ≤ len sample_ipfix ∧ Forall record_ok todo ∧
    st_Datagrams s' = st_Datagrams (l_stats (at_ waiting_packet)) + 1.
Proof.
  refine (flow_never_crashes demo_cfg _ (at_ waiting_packet) 0 (first_run (at_ waiting_packet)) None sample_ipfix 5
    _ _ _ _ _ _); [by vm_compute| |by vm_compute..| |by vm_compute].
  - apply (play_reach _ waiting_packet). by vm_compute.
  - repeat constructor; simpl; unfold is_byte; lia.
Defined.

Lemma stop_drains_witness :
  let r := first_run (at_ flood) in
  stopped r ∧ left r = 5%nat ∧
  (¬ finished r → ∃ s' r' hits, rstep demo_cfg (l_stats (at_ flood)) r s' r' hits ∧ (left r' < left r)%nat).
Proof.
  split; [by vm_compute|]. split; [by vm_compute|].
  refine (proj1 (proj2 (stop_drains demo_cfg _ (at_ flood) 0 (first_run (at_ flood)) _ _ _)));
    [by vm_compute| |by vm_compute..].
  apply (play_reach _ flood). by vm_compute.
Defined.

Definition drained : Listener := at_ (flood ++ [Closed 0; Take 0; End 0]).

Lemma stop_returns_stored_witness :
  wg_done drained = true ∧
  Forall (λ r, accepted r = concat (map fst (wr_stored (rn_writer r)))) (l_runs drained).
Proof.
  split; [by vm_compute|].
  refine (proj1 (stop_returns_stored demo_cfg _ drained [] 0 [] _ _ _)); [by vm_compute| |by vm_compute..].
  apply (play_reach _ (flood ++ [Closed 0; Take 0; End 0])). by vm_compute.
Defined.

(** A record was queued when the socket closed: whatever the loops do, they end. *)
Lemma stop_ends_witness :
  l_stops (at_ flood) = [(0%nat, Waiting)] ∧ work_held (l_runs (at_ flood)) = 5%nat ∧ ∃ l'', loops demo_cfg 1 (at_ flood) l''.
Proof.
  split; [by vm_compute|]. split; [by vm_compute|].
  refine (proj2 (stop_ends demo_cfg _ (at_ flood) [] 0 [] 0 (at_ flood) _ _ _ _ _));
    [by vm_compute| |by vm_compute|by vm_compute| |by apply loops_done].
  - apply (play_reach _ flood). by vm_compute.
  - assert (l_stops (at_ flood) = [(0%nat, Waiting)]) as -> by by vm_compute. by repeat constructor.
Defined.
