(* ===== verification/Mdns.v ===== *)
(** * mDNS messages (src/internal/discovery/mdnswire/mdnswire.go)

    Names in presentation form, names and records on the wire with their
    compression pointers, and the queries discovery sends. A label is the
    list of its bytes. *)
From Stdlib Require Import ZArith Lia.
From stdpp Require Import base gmap sets list strings.
From S2P Require Import Prelude GoBase.

Definition TypeA : Z := 1.
Definition TypePTR : Z := 12.
Definition TypeTXT : Z := 16.
Definition TypeAAAA : Z := 28.
Definition TypeSRV : Z := 33.

(** [Section] *)
Inductive Section_ : Type :=
| Answer
| Authority
| Additional.

Definition headerLen : Z := 12.
Definition maxLabelLen : Z := 63.
Definition maxNameLen : Z := 255.
Definition pointerFlags : Z := 0xC0.
Definition pointerMask : Z := 0x3FFF.
Definition pointerLen : Z := 2.
Definition maxPointers : Z := 16.
Definition classINET : Z := 1.
Definition flagQR : Z := 0x8000.
Definition questionTail : Z := 4.

(** The sentinel errors. *)
Inductive mdns_error : Type :=
| errTruncated
| errLabel
| errPointer
| errNameLen
| errRData.

Definition dot : Z := 46.
Definition backslash : Z := 92.

(** [Name] *)
Abbreviation Name := (list bytes).

(** ** Presentation form *)

Definition escape_label (label : bytes) : bytes :=
  concat (map (λ c, if (c =? dot) || (c =? backslash) then [backslash; c] else [c]) label).

(** [Name.String] *)
Fixpoint name_string (n : Name) : bytes :=
  match n with
  | [] => []
  | [label] => escape_label label
  | label :: n' => escape_label label ++ dot :: name_string n'
  end.

(** The loop of [ParseName] with its locals, and what follows it. *)
Fixpoint parse_name_loop (s : bytes) (name : Name) (label : bytes) : Name + mdns_error :=
  match s with
  | [] =>
      let name := if 0 <? len label then name ++ [label] else name in
      if len name =? 0 then inr errLabel else inl name
  | c :: s' =>
      if c =? backslash then
        match s' with
        | [] => inr errLabel
        | c' :: s'' => parse_name_loop s'' name (label ++ [c'])
        end
      else if c =? dot then
        if len label =? 0 then inr errLabel else parse_name_loop s' (name ++ [label]) []
      else parse_name_loop s' name (label ++ [c])
  end.

Definition ParseName (s : bytes) : Name + mdns_error := parse_name_loop s [] [].

(** ** Names on the wire *)

(** [readPointer] *)
Definition readPointer (data : bytes) (off : Z) : option (Z + mdns_error) :=
  b ← index data off;
  if negb (Z.land b pointerFlags =? pointerFlags) then Some (inr errLabel)
  else if len data <? off + pointerLen then Some (inr errTruncated)
  else v ← be16_at data off; Some (inl (Z.land v pointerMask)).

(** The locals of [readName]. *)
Record rnState : Type := RnState {
  rn_name : Name;
  rn_wireLen : Z;
  rn_next : Z;
  rn_off : Z;
  rn_hops : Z;
}.

Definition readName_body (data : bytes) (s : rnState)
    : option (outcome rnState (Name * Z + mdns_error)) :=
  let '(RnState name wireLen next off hops) := s in
  if negb (hops <=? maxPointers) then Some (Leave (inr errPointer))
  else if len data <=? off then Some (Leave (inr errTruncated))
  else
    n ← index data off;
    if has_bits n pointerFlags then
      let next := if next <? 0 then off + pointerLen else next in
      target ← readPointer data off;
      match target with
      | inr err => Some (Leave (inr err))
      | inl target => Some (Next (RnState name wireLen next target (hops + 1)))
      end
    else if n =? 0 then
      Some (Leave (inl (name, if next <? 0 then off + 1 else next)))
    else
      let wireLen := wireLen + (n + 1) in
      if maxNameLen <=? wireLen then Some (Leave (inr errNameLen))
      else if len data <? off + 1 + n then Some (Leave (inr errTruncated))
      else
        label ← slice data (off + 1) (off + 1 + n);
        Some (Next (RnState (name ++ [label]) wireLen next (off + (1 + n)) hops)).

(** Every iteration takes a hop or adds to the wire length, so 17 hops and
    254 bytes bound the loop. *)
Definition readName_fuel : nat := 300.

Definition readName (data : bytes) (off : Z) : option (Name * Z + mdns_error) :=
  for_loop readName_fuel (readName_body data) (RnState [] 0 (-1) off 0).

(** [readNameIn] *)
Definition readNameIn (data : bytes) (off end_ : Z) : option (Name + mdns_error) :=
  view ← slice data 0 end_;
  '(name, next) ←! readName view off;
  Some (if negb (next =? end_) then inr errRData else inl name).

(** [readStrings] *)
Definition readStrings_body (s : bytes * list bytes)
    : option (outcome (bytes * list bytes) (list bytes + mdns_error)) :=
  let '(rdata, out) := s in
  if len rdata <=? 0 then Some (Leave (inl out))
  else
    n ← index rdata 0;
    if len rdata <? 1 + n then Some (Leave (inr errRData))
    else
      str ← slice rdata 1 (1 + n);
      rdata ← slice_from rdata (1 + n);
      Some (Next (rdata, out ++ [str])).

Definition readStrings (rdata : bytes) : option (list bytes + mdns_error) :=
  for_loop (S (length rdata)) readStrings_body (rdata, []).

(** ** Records and messages *)

(** [Record]; the section is set by [Parse]. *)
Record mdnsRecord : Type := MdnsRecord {
  m_section : Section_;
  m_name : Name;
  m_type : Z;
  m_target : Name;
  m_port : Z;
  m_txt : list bytes;
  m_addr : Addr;
}.

(** The type-specific part of [readRecord]: target, port, strings, address,
    or [None] for a type discovery does not read. *)
Definition read_rdata (data rdata : bytes) (rtype rdLen start end_ : Z)
    : option (option (Name * Z * list bytes * Addr) + mdns_error) :=
  if rtype =? TypeA then
    if negb (rdLen =? 4) then Some (inr errRData)
    else a ← addr_from4 rdata; Some (inl (Some ([], 0, [], a)))
  else if rtype =? TypeAAAA then
    if negb (rdLen =? 16) then Some (inr errRData)
    else a ← addr_from16 rdata; Some (inl (Some ([], 0, [], addr_unmap a)))
  else if rtype =? TypePTR then
    target ←! readNameIn data start end_; Some (inl (Some (target, 0, [], AddrInvalid)))
  else if rtype =? TypeSRV then
    if rdLen <? 6 then Some (inr errRData)
    else
      port ← be16_at rdata 4;
      target ←! readNameIn data (start + 6) end_;
      Some (inl (Some (target, port, [], AddrInvalid)))
  else if rtype =? TypeTXT then
    txt ←! readStrings rdata; Some (inl (Some ([], 0, txt, AddrInvalid)))
  else Some (inl None).

(** [readRecord]: the record when it is kept, and the offset after it. *)
Definition readRecord (section : Section_) (data : bytes) (off : Z)
    : option (option mdnsRecord * Z + mdns_error) :=
  '(owner, off) ←! readName data off;
  if len data <? off + 10 then Some (inr errTruncated)
  else
    rtype ← be16_at data off;
    rdLen ← be16_at data (off + 8);
    let start := off + 10 in
    let end_ := start + rdLen in
    if len data <? end_ then Some (inr errTruncated)
    else
      rdata ← slice data start end_;
      body ←! read_rdata data rdata rtype rdLen start end_;
      Some (inl (match body with
                 | None => (None, end_)
                 | Some (target, port, txt, addr) =>
                     (Some (MdnsRecord section owner rtype target port txt addr), end_)
                 end)).

(** [Message] *)
Record Message : Type := MkMessage {
  Response : bool;
  MsgRecords : list mdnsRecord;
}.

(** The question loop of [Parse]. *)
Fixpoint skip_questions (data : bytes) (n : nat) (off : Z) : option (Z + mdns_error) :=
  match n with
  | O => Some (inl off)
  | S n' =>
      '(_, next) ←! readName data off;
      if len data <? next + questionTail then Some (inr errTruncated)
      else skip_questions data n' (next + questionTail)
  end.

(** The record loop of one section. *)
Fixpoint read_records (section : Section_) (data : bytes) (n : nat) (off : Z)
    (acc : list mdnsRecord) : option (list mdnsRecord * Z + mdns_error) :=
  match n with
  | O => Some (inl (acc, off))
  | S n' =>
      '(rec, next) ←! readRecord section data off;
      read_records section data n' next (match rec with Some r => acc ++ [r] | None => acc end)
  end.

Definition Parse (data : bytes) : option (Message + mdns_error) :=
  if len data <? headerLen then Some (inr errTruncated)
  else
    flags ← be16_at data 2;
    qd ← be16_at data 4; an ← be16_at data 6; ns ← be16_at data 8; ar ← be16_at data 10;
    off ←! skip_questions data (Z.to_nat qd) headerLen;
    '(acc, off) ←! read_records Answer data (Z.to_nat an) off [];
    '(acc, off) ←! read_records Authority data (Z.to_nat ns) off acc;
    '(acc, _) ←! read_records Additional data (Z.to_nat ar) off acc;
    Some (inl (MkMessage (has_bits flags flagQR) acc)).

(** ** Queries *)

(** The label loop of [Query]: the wire form of the labels. *)
Fixpoint query_labels (name : Name) (wireLen : Z) : bytes + mdns_error :=
  match name with
  | [] => inl []
  | label :: name' =>
      let n := len label in
      if (n =? 0) || (maxLabelLen <? n) then inr errLabel
      else if maxNameLen <? wireLen + (n + 1) then inr errNameLen
      else match query_labels name' (wireLen + (n + 1)) with
           | inl out => inl (n :: label ++ out)
           | inr err => inr err
           end
  end.

Definition Query (name : Name) (qtype : Z) : bytes + mdns_error :=
  if len name =? 0 then inr errLabel
  else match query_labels name 1 with
       | inr err => inr err
       | inl labels =>
           inl ([0;0;0;0;0;1;0;0;0;0;0;0] ++ labels ++ [0] ++ put_be16 qtype ++ put_be16 classINET)
       end.

(** ** Presentation round trip *)

Definition label_ok (label : bytes) : Prop := label ≠ [].

Lemma parse_escape label rest name acc :
  parse_name_loop (escape_label label ++ rest) name acc = parse_name_loop rest name (acc ++ label).
Proof.
  revert acc. induction label as [|c label IH]; intros acc; [by rewrite app_nil_r|].
  unfold escape_label in *. cbn [map concat].
  destruct ((c =? dot) || (c =? backslash)) eqn:E; cbn [app parse_name_loop].
  - change (backslash =? backslash) with true. cbn. rewrite IH. by rewrite <-app_assoc.
  - apply orb_false_iff in E as [-> ->]. rewrite IH. by rewrite <-app_assoc.
Qed.

Lemma label_ok_len label : label_ok label → 0 < len label.
Proof. destruct label; [done|]. intros _. rewrite len_cons. pose proof (len_nonneg label). lia. Qed.

Lemma parse_name_string n name :
  n ≠ [] → Forall label_ok n → parse_name_loop (name_string n) name [] = inl (name ++ n).
Proof.
  intros Hn Hl. revert name Hn. induction Hl as [|label n Hlabel Hl IH]; intros name Hn; [done|].
  apply label_ok_len in Hlabel. destruct n as [|label' n]; cbn [name_string].
  - rewrite <-(app_nil_r (escape_label label)), parse_escape. cbn.
    rewrite (proj2 (Z.ltb_lt _ _) Hlabel), len_app, len_cons.
    pose proof (len_nonneg name). destruct (Z.eqb_spec (len name + (1 + len (@nil bytes))) 0); [|done].
    unfold len in *. simpl in *. lia.
  - rewrite parse_escape. change (dot =? backslash) with false. cbn [parse_name_loop].
    change (dot =? backslash) with false. change (dot =? dot) with true. cbn [app].
    rewrite (proj2 (Z.eqb_neq _ _)) by lia. rewrite IH by done. by rewrite <-app_assoc.
Qed.

(** A name of non-empty labels survives printing and parsing, whatever
    bytes its labels hold: dots and backslashes inside a label come back as
    part of that label. *)
Theorem ParseName_string n :
  n ≠ [] → Forall label_ok n → ParseName (name_string n) = inl n.
Proof. intros. by apply parse_name_string. Qed.

(** The DNS-SD instance "No. 5" under "local". *)
Lemma ParseName_string_witness :
  ParseName (name_string [[78; 111; 46; 32; 53]; [108; 111; 99; 97; 108]]) =
  inl [[78; 111; 46; 32; 53]; [108; 111; 99; 97; 108]].
Proof. refine (ParseName_string _ _ _); [discriminate|]. repeat constructor; discriminate. Defined.

Lemma parse_name_loop_ok s name label n :
  parse_name_loop s name label = inl n → Forall label_ok name → n ≠ [] ∧ Forall label_ok n.
Proof.
  remember (length s) as k eqn:Hk. assert (length s ≤ k)%nat as Hle by lia. clear Hk.
  revert s name label Hle. induction k as [|k IH]; intros s name label Hle; destruct s as [|c s];
    cbn [parse_name_loop length] in *; try lia.
  1,2: intros H Hname; assert (Forall label_ok (if 0 <? len label then name ++ [label] else name))
         as Hf by (destruct (Z.ltb_spec 0 (len label)); [|done]; apply Forall_app; split; [done|];
                   apply Forall_singleton; by intros ->);
       revert H Hf; set (m := if 0 <? len label then name ++ [label] else name); destruct (Z.eqb_spec (len m) 0); [done|];
       intros [= <-] ?; split; [by intros ->|done].
  destruct (c =? backslash).
  { destruct s as [|c' s]; [done|]. apply IH. simpl in Hle. lia. }
  destruct (c =? dot); [|apply IH; lia].
  destruct (Z.eqb_spec (len label) 0); [done|]. intros H Hname. eapply IH; [|exact H|]; [lia|].
  apply Forall_app. split; [done|]. apply Forall_singleton. intros ->. done.
Qed.

(** Whatever text [ParseName] accepts, what it returns prints to a text
    that parses to the same name: parsing is idempotent on its results. *)
Theorem ParseName_stable s n : ParseName s = inl n → ParseName (name_string n) = inl n.
Proof.
  intros H. destruct (parse_name_loop_ok _ _ _ _ H) as [? ?]; [constructor|].
  by apply parse_name_string.
Qed.

(** A trailing root dot is dropped: "a.b." is the name of "a.b". *)
Lemma ParseName_stable_witness :
  ParseName (name_string [[97]; [98]]) = inl [[97]; [98]].
Proof. refine (ParseName_stable [97; 46; 98; 46] _ _). reflexivity. Defined.

(** ** Wire names *)

Lemma has_flags_iff n : 0 ≤ n < 256 → has_bits n pointerFlags = (64 <=? n).
Proof.
  intros Hn.
  assert (forallb (λ n, eqb (has_bits n pointerFlags) (64 <=? n)) (seqZ 0 256) = true) as Hall
    by (vm_compute; reflexivity).
  rewrite forallb_forall in Hall. apply eqb_prop, Hall, list_elem_of_In, elem_of_seqZ. lia.
Qed.

(** The bytes a name takes on the wire, its root octet excluded. *)
Fixpoint wire_len (n : Name) : Z :=
  match n with
  | [] => 0
  | label :: n' => 1 + len label + wire_len n'
  end.

(** Names a resolver may use: RFC 1035's limits. *)
Definition wire_label (label : bytes) : Prop := 1 ≤ len label ≤ maxLabelLen ∧ bytes_ok label.
Definition name_ok (n : Name) : Prop := Forall wire_label n ∧ wire_len n + 1 ≤ maxNameLen.

Lemma wire_len_app n1 n2 : wire_len (n1 ++ n2) = wire_len n1 + wire_len n2.
Proof. induction n1 as [|l n1 IH]; simpl; [done|]. lia. Qed.

Lemma wire_len_nonneg n : 0 ≤ wire_len n.
Proof. induction n as [|l n IH]; simpl; [done|]. pose proof (len_nonneg l). lia. Qed.

Lemma wp_readPointer data off :
  0 ≤ off < len data → bytes_ok data →
  wp (readPointer data off) (λ r, match r with
    | inl target => 0 ≤ target ∧ off + pointerLen ≤ len data
    | inr _ => True
    end).
Proof.
  intros Hoff Hb. unfold readPointer, pointerLen.
  apply wp_bind, wp_index; [lia..|]. intros b _. wp_step; [done|]. wp_step; [done|].
  apply wp_bind, wp_be16_at; [lia|bool_lia|]. intros v Hv. specialize (Hv Hb). simpl.
  split; [apply Z.land_nonneg; lia|bool_lia].
Qed.

Record rn_inv (data : bytes) (off0 : Z) (s : rnState) : Prop := {
  rn_off_nonneg : 0 ≤ rn_off s;
  rn_hops_range : 0 ≤ rn_hops s ≤ maxPointers + 1;
  rn_wire : rn_wireLen s = wire_len (rn_name s);
  rn_name_inv : name_ok (rn_name s);
  rn_next_inv : (rn_next s < 0 ∧ off0 ≤ rn_off s) ∨ off0 < rn_next s ≤ len data;
}.

(** What [readName] promises its callers. *)
Definition name_read (data : bytes) (off : Z) (r : Name * Z + mdns_error) : Prop :=
  match r with
  | inl (name, next) => name_ok name ∧ off < next ≤ len data
  | inr _ => True
  end.

Lemma wp_readName_body data off0 s :
  bytes_ok data → 0 ≤ off0 → rn_inv data off0 s →
  wp (readName_body data s) (λ o, match o with
    | Next s' => rn_inv data off0 s' ∧
        (Z.to_nat (272 - rn_hops s' - rn_wireLen s') < Z.to_nat (272 - rn_hops s - rn_wireLen s))%nat
    | Leave r => name_read data off0 r
    end).
Proof.
  intros Hb Hoff0. destruct s as [name wireLen next off hops]. intros [Ho Hh Hw Hn Hx].
  simpl in *. subst wireLen. pose proof (wire_len_nonneg name).
  unfold readName_body, maxPointers, maxNameLen, pointerLen in *.
  wp_step; [done|]. wp_step; [done|]. apply wp_bind, wp_index; [lia|bool_lia|]. intros n Hin.
  byte_facts. assert (off < len data) by bool_lia.
  destruct Hn as [Hlabels Hwl]. unfold maxNameLen in Hwl.
  wp_step.
  { cbv zeta. eapply wp_bind_spec; [apply wp_readPointer; [lia|done]|].
    intros [target|err]; [|done]. unfold pointerLen. intros [Ht Hle]. simpl. split.
    - split; simpl; [done|unfold maxPointers; bool_lia|done|by split|].
      right. destruct (Z.ltb_spec next 0); lia.
    - bool_lia. }
  rewrite has_flags_iff in E1 by done.
  wp_step. { simpl. split; [by split|]. destruct (Z.ltb_spec next 0); lia. }
  cbv zeta. wp_step; [done|]. wp_step; [done|].
  apply wp_bind, wp_slice; [lia|bool_lia..|]. intros label Hl Hsub. simpl.
  assert (wire_len (name ++ [label]) = wire_len name + (n + 1)) as Hwire.
  { rewrite wire_len_app. simpl. lia. }
  split; [|bool_lia]. split; simpl; [lia|unfold maxPointers; bool_lia|lia| |lia].
  split; [|unfold maxNameLen; bool_lia]. apply Forall_app. split; [done|]. apply Forall_singleton.
  split; [unfold maxLabelLen; bool_lia|by eapply bytes_ok_sub].
Qed.

Lemma wp_readName data off :
  bytes_ok data → 0 ≤ off → wp (readName data off) (name_read data off).
Proof.
  intros Hb Hoff. unfold readName.
  apply (wp_for_loop _ (rn_inv data off) (λ s, Z.to_nat (272 - rn_hops s - rn_wireLen s))).
  - intros s Hs. by apply wp_readName_body.
  - split; simpl; [done|unfold maxPointers; lia|done| |by left].
    split; [constructor|unfold maxNameLen; simpl; lia].
  - simpl. unfold readName_fuel. lia.
Qed.

(** ** Records and messages never overrun *)

Lemma wp_readNameIn data off end_ :
  bytes_ok data → 0 ≤ off → 0 ≤ end_ ≤ len data →
  wp (readNameIn data off end_) (λ r, match r with inl name => name_ok name | inr _ => True end).
Proof.
  intros Hb Hoff Hend. unfold readNameIn. apply wp_bind, wp_slice; [lia..|]. intros view _ Hsub.
  eapply wp_ebind_spec; [apply wp_readName; [by eapply bytes_ok_sub|done]| |done].
  intros [name next] [Hn _]. simpl. by destruct (negb _).
Qed.

Lemma wp_readStrings rdata :
  bytes_ok rdata → wp (readStrings rdata) (λ r, match r with
    | inl strs => Forall (λ s, len s < 256) strs ∧ len strs ≤ len rdata
    | inr _ => True
    end).
Proof.
  intros Hb. unfold readStrings.
  apply (wp_for_loop _ (λ s, bytes_ok s.1 ∧ Forall (λ s, len s < 256) s.2 ∧
    len s.1 + len s.2 ≤ len rdata) (λ s, length s.1)); simpl; [| |lia].
  - intros [r out] (Hr & Hf & Hl). simpl in *. unfold readStrings_body.
    pose proof (len_nonneg out). pose proof (len_nonneg r).
    wp_step; [simpl; split; [done|lia]|]. apply wp_bind, wp_index; [lia|bool_lia|]. intros n Hn.
    byte_facts. wp_step; [done|].
    apply wp_bind, wp_slice; [lia|bool_lia..|]. intros str Hstr Hs.
    apply wp_bind, wp_slice_from; [lia|bool_lia|]. intros r' Hlr Hr'. simpl.
    rewrite len_app. change (len [str]) with 1.
    split; [|unfold len in *; bool_lia]. split_and!; [by eapply bytes_ok_sub| |lia].
    apply Forall_app. split; [done|]. apply Forall_singleton. lia.
  - split_and!; [done|constructor|]. change (len (@nil bytes)) with 0. lia.
Qed.

(** What a kept record holds. *)
Definition mrecord_ok (section : Section_) (r : mdnsRecord) : Prop :=
  m_section r = section ∧ name_ok (m_name r) ∧ name_ok (m_target r) ∧ 0 ≤ m_port r < 2 ^ 16 ∧
  Forall (λ s, len s < 256) (m_txt r).

Lemma name_ok_nil : name_ok [].
Proof. split; [constructor|]. unfold maxNameLen. simpl. lia. Qed.

Lemma wp_read_rdata data rdata rtype start end_ :
  bytes_ok data → bytes_ok rdata → 0 ≤ start → end_ ≤ len data → len rdata = end_ - start →
  wp (read_rdata data rdata rtype (end_ - start) start end_) (λ r, match r with
    | inl (Some (target, port, txt, _)) =>
        name_ok target ∧ 0 ≤ port < 2 ^ 16 ∧ Forall (λ s, len s < 256) txt
    | _ => True
    end).
Proof.
  intros Hb Hr Hs He Hl. unfold read_rdata. pose proof name_ok_nil. pose proof (len_nonneg rdata).
  wp_step.
  { wp_step; [done|]. apply wp_bind, wp_addr_from4; [bool_lia|]. intros a. simpl.
    split_and!; [done|lia..|constructor]. }
  wp_step.
  { wp_step; [done|]. apply wp_bind, wp_addr_from16; [bool_lia|]. intros a. simpl.
    split_and!; [done|lia..|constructor]. }
  wp_step.
  { eapply wp_ebind_spec; [apply wp_readNameIn; [done|lia..]| |done]. intros target Ht. simpl.
    split_and!; [done|lia..|constructor]. }
  wp_step.
  { wp_step; [done|]. apply wp_bind, wp_be16_at; [lia|bool_lia|]. intros port Hp.
    specialize (Hp Hr). eapply wp_ebind_spec; [apply wp_readNameIn; [done|bool_lia..]| |done].
    intros target Ht. simpl. split_and!; [done|lia..|constructor]. }
  wp_step; [|done].
  eapply wp_ebind_spec; [by apply wp_readStrings| |done]. intros txt [Ht _]. simpl.
  split_and!; [done|lia..|done].
Qed.

Lemma wp_readRecord section data off :
  bytes_ok data → 0 ≤ off →
  wp (readRecord section data off) (λ r, match r with
    | inl (rec, next) => off + 11 ≤ next ≤ len data ∧
        match rec with Some r => mrecord_ok section r | None => True end
    | inr _ => True
    end).
Proof.
  intros Hb Hoff. unfold readRecord. eapply wp_ebind_spec; [by apply wp_readName| |done].
  intros [owner off'] [Hn Ho]. wp_step; [done|].
  apply wp_bind, wp_be16_at; [lia|bool_lia|]. intros rtype _.
  apply wp_bind, wp_be16_at; [lia|bool_lia|]. intros rdLen Hrd. specialize (Hrd Hb). cbv zeta.
  wp_step; [done|]. apply wp_bind, wp_slice; [lia|lia|bool_lia|]. intros rdata Hl Hsub.
  replace rdLen with (off' + 10 + rdLen - (off' + 10)) at 1 by lia.
  eapply wp_ebind_spec; [apply wp_read_rdata; [done|by eapply bytes_ok_sub|lia|bool_lia|lia]| |done].
  intros [[[[target port] txt] addr]|]; simpl; [|intros _; bool_lia].
  intros (? & ? & ?). split; [bool_lia|]. unfold mrecord_ok. simpl. split_and!; done || lia.
Qed.

Lemma wp_skip_questions data n off :
  bytes_ok data → 0 ≤ off ≤ len data → wp (skip_questions data n off) (λ r,
    match r with inl off' => off ≤ off' ≤ len data | inr _ => True end).
Proof.
  revert off. induction n as [|n IH]; intros off Hb Hoff; cbn [skip_questions]; [simpl; lia|].
  eapply wp_ebind_spec; [apply wp_readName; [done|lia]| |done]. intros [name next] [_ Hnext].
  wp_step; [done|]. unfold questionTail in *.
  eapply wp_mono; [apply IH; [done|bool_lia]|]. intros [off'|]; [lia|done].
Qed.

Lemma wp_read_records section data n off acc :
  bytes_ok data → 0 ≤ off ≤ len data → wp (read_records section data n off acc) (λ r, match r with
    | inl (acc', off') => ∃ rs, acc' = acc ++ rs ∧ Forall (mrecord_ok section) rs ∧
        off + 11 * len rs ≤ off' ≤ len data
    | inr _ => True
    end).
Proof.
  revert off acc. induction n as [|n IH]; intros off acc Hb Hoff; cbn [read_records].
  { exists []. rewrite app_nil_r. split_and!; [done|constructor|unfold len; simpl; lia..|lia]. }
  eapply wp_ebind_spec; [apply wp_readRecord; [done|lia]| |done]. intros [rec next] [Hnext Hrec].
  eapply wp_mono; [apply IH; [done|lia]|]. intros [[acc' off']|]; [|done].
  intros (rs & -> & Hrs & Hlen & Hoff'). destruct rec as [r|].
  - exists (r :: rs). rewrite <-app_assoc, len_cons. split_and!; [done|by constructor|lia..].
  - exists rs. split_and!; [done..|lia|done].
Qed.

(** C31: Parsing any message returns: no offset or pointer leaves the
    message, and no pointer loop, record count or string length keeps it
    from ending. Every record kept comes with names within RFC 1035's limits
    (labels of 1 to 63 bytes, 255 in all), the records keep their section
    order, and a message of [n] bytes holds at most [(n - 12) / 11] of them. *)
Theorem Parse_total data :
  bytes_ok data → ∃ r, Parse data = Some r ∧ match r with
    | inl msg => ∃ an ns ar, MsgRecords msg = an ++ ns ++ ar ∧
        Forall (mrecord_ok Answer) an ∧ Forall (mrecord_ok Authority) ns ∧
        Forall (mrecord_ok Additional) ar ∧ headerLen + 11 * len (MsgRecords msg) ≤ len data
    | inr _ => True
    end.
Proof.
  intros Hb. apply wp_elim. unfold Parse, headerLen. wp_step; [done|].
  do 5 (apply wp_bind, wp_be16_at; [lia|bool_lia|]; intros ? _).
  eapply wp_ebind_spec; [apply wp_skip_questions; [done|bool_lia]| |done]. intros off1 H1. cbn in H1.
  eapply wp_ebind_spec; [apply wp_read_records; [done|bool_lia]| |done].
  intros [acc1 off2] (an & -> & Han & H2).
  eapply wp_ebind_spec; [apply wp_read_records; [done|pose proof (len_nonneg an); lia]| |done].
  intros [acc2 off3] (ns & -> & Hns & H3).
  eapply wp_ebind_spec; [apply wp_read_records; [done|pose proof (len_nonneg an);
    pose proof (len_nonneg ns); lia]| |done].
  intros [acc3 off4] (ar & -> & Har & H4). simpl. exists an, ns, ar.
  split_and!; [by rewrite <-app_assoc|done..|]. rewrite !len_app. lia.
Qed.

(** ** Queries are read back *)

Fixpoint encode_labels (n : Name) : bytes :=
  match n with
  | [] => []
  | label :: n' => len label :: label ++ encode_labels n'
  end.

Lemma len_encode_labels n : len (encode_labels n) = wire_len n.
Proof. induction n as [|l n IH]; simpl; [done|]. rewrite len_cons, len_app, IH. lia. Qed.

(** [query_labels] accepts exactly the names within the limits. *)
Lemma query_labels_spec n w :
  Forall bytes_ok n →
  (Forall wire_label n ∧ (n = [] ∨ w + wire_len n ≤ maxNameLen) ∧
    query_labels n w = inl (encode_labels n)) ∨
  ((¬ Forall wire_label n ∨ maxNameLen < w + wire_len n) ∧ ∃ err, query_labels n w = inr err).
Proof.
  intros Hb. revert w. induction Hb as [|l n Hl Hb IH]; intros w; cbn [query_labels].
  { left. split_and!; [constructor|by left|done]. }
  pose proof (len_nonneg l). pose proof (wire_len_nonneg n).
  destruct ((len l =? 0) || (maxLabelLen <? len l)) eqn:E.
  { right. split; [|eauto]. left. rewrite list.Forall_cons. intros [[? _] _]. bool_lia. }
  destruct (maxNameLen <? w + (len l + 1)) eqn:E2.
  { right. split; [|eauto]. right. simpl. bool_lia. }
  assert (wire_label l) as Hwl by (split; [bool_lia|done]).
  destruct (IH (w + (len l + 1))) as [(Hf & Hw & ->)|[Hn [err ->]]].
  - left. split_and!; [by constructor| |done]. right. simpl.
    destruct Hw as [->|]; simpl; bool_lia.
  - right. split; [|eauto]. destruct Hn as [Hn|]; [left|right; simpl; lia].
    rewrite list.Forall_cons. naive_solver.
Qed.

Lemma index_app_at {A} (l1 l2 : list A) x i : i = len l1 → index (l1 ++ x :: l2) i = Some x.
Proof.
  intros ->. unfold index. rewrite (proj2 (Z.leb_le 0 _)) by apply len_nonneg.
  unfold len. by rewrite Nat2Z.id, list_lookup_middle.
Qed.

Lemma slice_app_at {A} (l1 l2 l3 : list A) i j :
  i = len l1 → j = len l1 + len l2 → slice (l1 ++ l2 ++ l3) i j = Some l2.
Proof.
  intros -> ->. pose proof (len_nonneg l1). pose proof (len_nonneg l2). pose proof (len_nonneg l3).
  rewrite slice_Some by (rewrite ?len_app; lia). f_equal.
  replace (Z.to_nat (len l1)) with (length l1) by (unfold len; lia).
  rewrite drop_app_length.
  replace (Z.to_nat (len l1 + len l2 - len l1)) with (length l2) by (unfold len; lia).
  apply take_app_length.
Qed.

Lemma readName_label pre l rest name hops :
  wire_label l → wire_len (name ++ [l]) + 1 ≤ maxNameLen → 0 ≤ hops ≤ maxPointers →
  readName_body (pre ++ len l :: l ++ rest) (RnState name (wire_len name) (-1) (len pre) hops) =
  Some (Next (RnState (name ++ [l]) (wire_len (name ++ [l])) (-1) (len (pre ++ len l :: l)) hops)).
Proof.
  intros [Hl _] Hw Hh. unfold maxLabelLen, maxNameLen in *. rewrite wire_len_app in Hw. simpl in Hw.
  pose proof (len_nonneg rest). pose proof (len_nonneg pre).
  unfold readName_body. rewrite (proj2 (Z.leb_le _ _)) by lia. cbn [negb].
  assert (len (pre ++ len l :: l ++ rest) = len pre + 1 + len l + len rest) as Hlen.
  { rewrite len_app, len_cons, len_app. lia. }
  rewrite Hlen, (proj2 (Z.leb_gt _ _)) by lia.
  rewrite index_app_at by done. cbn [mbind option_bind].
  rewrite has_flags_iff, (proj2 (Z.leb_gt _ _)) by lia.
  rewrite (proj2 (Z.eqb_neq _ _)) by lia. cbv zeta. unfold maxNameLen.
  rewrite (proj2 (Z.leb_gt _ _)), (proj2 (Z.ltb_ge _ _)) by lia.
  change (pre ++ len l :: l ++ rest) with (pre ++ [len l] ++ l ++ rest). rewrite app_assoc.
  rewrite (slice_app_at (pre ++ [len l]) l rest) by (rewrite len_app; change (len [len l]) with 1; lia).
  cbn [mbind option_bind]. f_equal. f_equal. rewrite wire_len_app, len_app, len_cons. simpl.
  f_equal; lia.
Qed.

Lemma readName_labels n : ∀ pre rest name fuel,
  Forall wire_label n → wire_len (name ++ n) + 1 ≤ maxNameLen → (length n < fuel)%nat →
  for_loop fuel (readName_body (pre ++ encode_labels n ++ 0 :: rest))
    (RnState name (wire_len name) (-1) (len pre) 0) =
  Some (inl (name ++ n, len pre + wire_len n + 1)).
Proof.
  induction n as [|l n IH]; intros pre rest name fuel Hf Hw Hfuel;
    (destruct fuel as [|fuel]; [simpl in Hfuel; lia|]).
  - cbn [encode_labels app for_loop]. unfold readName_body.
    rewrite (proj2 (Z.leb_le 0 maxPointers)) by done. cbn [negb].
    rewrite (proj2 (Z.leb_gt _ _)) by (rewrite len_app, len_cons; pose proof (len_nonneg rest); lia).
    rewrite index_app_at by done. rewrite app_nil_r.
    replace (len pre + wire_len [] + 1) with (len pre + 1) by (simpl; lia). done.
  - apply list.Forall_cons in Hf as [Hl Hf]. cbn [encode_labels for_loop].
    replace (pre ++ (len l :: l ++ encode_labels n) ++ 0 :: rest)
      with (pre ++ len l :: l ++ (encode_labels n ++ 0 :: rest)) by (cbn; by rewrite <-app_assoc).
    rewrite readName_label; [|done| |unfold maxPointers; lia].
    2: { rewrite wire_len_app in *. simpl in *. pose proof (wire_len_nonneg n). lia. }
    cbn [mbind option_bind].
    replace (pre ++ len l :: l ++ encode_labels n ++ 0 :: rest)
      with ((pre ++ len l :: l) ++ encode_labels n ++ 0 :: rest) by (rewrite <-app_assoc; done).
    rewrite IH; [|done|by rewrite <-app_assoc|simpl in Hfuel; lia].
    rewrite <-app_assoc, len_app, len_cons. simpl. do 3 f_equal. lia.
Qed.

Lemma wire_len_length n : Forall wire_label n → 2 * len n ≤ wire_len n.
Proof.
  induction 1 as [|l n [Hl _] _ IH]; simpl; [done|]. rewrite len_cons. lia.
Qed.

(** [Query] accepts exactly the non-empty names within RFC 1035's
    limits, and the reader gets the name back: [readName] at the question's
    offset returns the same labels and stops before the type and class, and
    [Parse] accepts the query as one without records. *)
Theorem Query_roundtrip n qtype :
  Forall bytes_ok n → 0 ≤ qtype < 2 ^ 16 →
  (n ≠ [] ∧ name_ok n ∧ ∃ q, Query n qtype = inl q ∧ len q = headerLen + wire_len n + 5 ∧
     readName q headerLen = Some (inl (n, headerLen + wire_len n + 1)) ∧
     be16_at q (headerLen + wire_len n + 1) = Some qtype ∧
     Parse q = Some (inl (MkMessage false []))) ∨
  (¬ (n ≠ [] ∧ name_ok n) ∧ ∃ err, Query n qtype = inr err).
Proof.
  intros Hb Hq. unfold Query. destruct n as [|l n]; [right; split; [naive_solver|by eexists]|].
  rewrite (proj2 (Z.eqb_neq _ _)) by (rewrite len_cons; pose proof (len_nonneg n); lia).
  remember (l :: n) as m eqn:Hm. assert (m ≠ []) as Hne by (by subst).
  destruct (query_labels_spec m 1 Hb) as [(Hf & Hw & ->)|[Hn [err ->]]].
  2: { right. split; [|eauto]. intros (_ & Hf & Hw). destruct Hn; [done|lia]. }
  left. destruct Hw as [|Hw]; [done|].
  assert (name_ok m) as Hok by (split; [done|lia]). split_and!; [done..|].
  set (hd := [0;0;0;0;0;1;0;0;0;0;0;0]). set (q := hd ++ _).
  assert (len q = headerLen + wire_len m + 5) as Hlen.
  { subst q. rewrite !len_app, len_encode_labels, !len_put_be16. unfold headerLen.
    change (len hd) with 12. change (len [0]) with 1. lia. }
  assert (readName q headerLen = Some (inl (m, headerLen + wire_len m + 1))) as Hread.
  { unfold readName. apply (readName_labels m hd _ [] readName_fuel); [done|simpl; lia|].
    pose proof (wire_len_length m Hf). unfold len, maxNameLen, readName_fuel in *. lia. }
  exists q. split_and!; [done..| |].
  - subst q. change (hd ++ encode_labels m ++ [0] ++ put_be16 qtype ++ put_be16 classINET)
      with (hd ++ encode_labels m ++ [0] ++ (put_be16 qtype ++ put_be16 classINET)).
    rewrite (app_assoc hd), (app_assoc (hd ++ encode_labels m)). apply be16_at_put; [|done].
    rewrite !len_app, len_encode_labels. unfold headerLen. change (len hd) with 12.
    change (len [0]) with 1. lia.
  - unfold Parse. rewrite Hlen. unfold headerLen in *. pose proof (wire_len_nonneg m).
    rewrite (proj2 (Z.ltb_ge _ _)) by lia.
    assert (∀ i, 0 ≤ i ≤ 10 → be16_at q i = be16 (drop (Z.to_nat i) q)) as Hat.
    { intros i Hi. unfold be16_at. by rewrite slice_from_Some by lia. }
    rewrite !Hat by lia. change (be16 (drop (Z.to_nat 2) q)) with (Some 0).
    change (be16 (drop (Z.to_nat 4) q)) with (Some 1).
    change (be16 (drop (Z.to_nat 6) q)) with (Some 0).
    change (be16 (drop (Z.to_nat 8) q)) with (Some 0).
    change (be16 (drop (Z.to_nat 10) q)) with (Some 0). cbn [mbind option_bind].
    change (Z.to_nat 1) with 1%nat. cbn [skip_questions]. rewrite Hread. cbn [ebind].
    unfold questionTail. rewrite Hlen, (proj2 (Z.ltb_ge _ _)) by lia. done.
Qed.

Lemma Query_roundtrip_witness :
  let n := [[95; 105; 112; 112]; [108; 111; 99; 97; 108]] in
  (n ≠ [] ∧ name_ok n ∧ ∃ q, Query n TypePTR = inl q ∧ len q = headerLen + wire_len n + 5 ∧
     readName q headerLen = Some (inl (n, headerLen + wire_len n + 1)) ∧
     be16_at q (headerLen + wire_len n + 1) = Some TypePTR ∧
     Parse q = Some (inl (MkMessage false []))) ∨
  (¬ (n ≠ [] ∧ name_ok n) ∧ ∃ err, Query n TypePTR = inr err).
Proof.
  refine (Query_roundtrip [[95; 105; 112; 112]; [108; 111; 99; 97; 108]] TypePTR _ _).
  - repeat constructor; unfold is_byte; lia.
  - unfold TypePTR. lia.
Defined.

(** A PTR answer whose target is compressed, and a pointer loop. *)
Definition sample_ptr : bytes :=
  [0;0; 0x84;0; 0;0; 0;1; 0;0; 0;0] ++
  [3;105;112;112; 5;108;111;99;97;108; 0] ++ [0;12; 0;1; 0;0;0;120; 0;7] ++
  [4;78;111;46;53; 0xC0;12].

Example Parse_ptr :
  match Parse sample_ptr with
  | Some (inl msg) => Response msg = true ∧ map m_target (MsgRecords msg) =
      [[[78;111;46;53]; [105;112;112]; [108;111;99;97;108]]]
  | _ => False
  end.
Proof. vm_compute. done. Qed.

Example readName_loop : readName [0xC0; 0] 0 = Some (inr errPointer).
Proof. reflexivity. Qed.

Lemma Parse_total_witness :
  ∃ r, Parse sample_ptr = Some r ∧ match r with
    | inl msg => ∃ an ns ar, MsgRecords msg = an ++ ns ++ ar ∧
        Forall (mrecord_ok Answer) an ∧ Forall (mrecord_ok Authority) ns ∧
        Forall (mrecord_ok Additional) ar ∧ headerLen + 11 * len (MsgRecords msg) ≤ len sample_ptr
    | inr _ => True
    end.
Proof. refine (Parse_total sample_ptr _). repeat constructor; unfold is_byte; lia. Defined.
