(* ===== verification/Jobs.v ===== *)
(** * The asynchronous job runner (src/internal/platform/jobs/jobs.go)

    The runner's operations under its mutex are functions on [Runner]; the
    goroutines that submit and execute jobs are a step relation on [World],
    one step per critical section, publication, store write or handler
    event, so that every interleaving of the code's goroutines is a sequence
    of steps. *)
From Stdlib Require Import ZArith Lia SpecFloat.
From stdpp Require Import base gmap sets list strings relations.
From S2P Require Import Prelude GoBase.

Definition defaultMaxConcurrent : Z := 8.

(** [State] *)
Inductive State : Type :=
| StateQueued
| StateRunning
| StateSucceeded
| StateFailed
| StateCancelled.

#[export] Instance State_eq_dec : EqDecision State.
Proof. solve_decision. Defined.

(** [State.Terminal] *)
Definition Terminal (s : State) : bool :=
  match s with
  | StateSucceeded | StateFailed | StateCancelled => true
  | StateQueued | StateRunning => false
  end.

Definition States : list State :=
  [StateQueued; StateRunning; StateSucceeded; StateFailed; StateCancelled].

(** The errors of the runner; [ErrRegister] is any of [Register]'s own. *)
Inductive runner_error : Type :=
| ErrAtCapacity
| ErrUnknownKind
| ErrNotFound
| ErrClosed
| ErrRegister.

Definition float_zero : spec_float := S754_zero false.
Definition float_one : spec_float := S754_finite false 4503599627370496 (-52).

(** [clamp]: Go's comparisons are false on NaN. *)
Definition clamp (p : spec_float) : spec_float :=
  if SFltb p float_zero then float_zero
  else if SFltb float_one p then float_one
  else p.

(** The location of an [entry] in memory. *)
Abbreviation loc := nat.

Section jobs.
(** The values handlers return ([any]) and the handlers registered. *)
Context {V H : Type}.

(** [Job] *)
Record Job : Type := MkJob {
  j_ID : string;
  j_Kind : string;
  j_ClientID : string;
  j_State : State;
  j_Progress : spec_float;
  j_Result : option V;
  j_Err : string;
}.

(** [entry]; [e_ctxDone] is the state of the context [cancel] cancels. *)
Record entry : Type := Entry {
  e_job : Job;
  e_ctxDone : bool;
  e_cancelled : bool;
  e_completedAt : Z;
}.

(** [Runner]: [r_jobs] is its map of pointers, [r_heap] the entries. *)
Record Runner : Type := MkRunner {
  r_cap : Z;
  r_retention : Z;
  r_store : bool;
  r_handlers : gmap string H;
  r_jobs : gmap string loc;
  r_heap : gmap loc entry;
  r_next : loc;
  r_active : Z;
  r_closed : bool;
  r_wg : Z;
}.

Definition New (maxConcurrent retention : Z) (store : bool) : Runner :=
  MkRunner (if maxConcurrent <=? 0 then defaultMaxConcurrent else maxConcurrent)
    retention store ∅ ∅ ∅ 0 0 false 0.

Definition set_handlers (r : Runner) (m : gmap string H) : Runner :=
  MkRunner (r_cap r) (r_retention r) (r_store r) m (r_jobs r) (r_heap r) (r_next r)
    (r_active r) (r_closed r) (r_wg r).
Definition set_jobs (r : Runner) (m : gmap string loc) : Runner :=
  MkRunner (r_cap r) (r_retention r) (r_store r) (r_handlers r) m (r_heap r) (r_next r)
    (r_active r) (r_closed r) (r_wg r).
Definition set_heap (r : Runner) (m : gmap loc entry) : Runner :=
  MkRunner (r_cap r) (r_retention r) (r_store r) (r_handlers r) (r_jobs r) m (r_next r)
    (r_active r) (r_closed r) (r_wg r).

Definition set_state (j : Job) (s : State) : Job :=
  MkJob (j_ID j) (j_Kind j) (j_ClientID j) s (j_Progress j) (j_Result j) (j_Err j).
Definition set_progress (j : Job) (p : spec_float) : Job :=
  MkJob (j_ID j) (j_Kind j) (j_ClientID j) (j_State j) p (j_Result j) (j_Err j).
Definition set_job (e : entry) (j : Job) : entry :=
  Entry j (e_ctxDone e) (e_cancelled e) (e_completedAt e).
Definition set_cancelled (e : entry) : entry :=
  Entry (e_job e) true true (e_completedAt e).

Definition Register (r : Runner) (kind : string) (h : option H) : Runner * option runner_error :=
  if r_closed r then (r, Some ErrClosed)
  else if bool_decide (kind = "") then (r, Some ErrRegister)
  else match h, r_handlers r !! kind with
       | None, _ => (r, Some ErrRegister)
       | Some _, Some _ => (r, Some ErrRegister)
       | Some h, None => (set_handlers r (<[kind := h]> (r_handlers r)), None)
       end.

Definition new_job (id clientID kind : string) : Job :=
  MkJob id kind clientID StateQueued float_zero None "".

(** The critical section of [SubmitFor]; [id] is the [uuid.New] it draws.
    The result is the new entry's location and its snapshot. *)
Definition SubmitFor (r : Runner) (id clientID kind : string)
    : Runner * (loc * Job + runner_error) :=
  if r_closed r then (r, inr ErrClosed)
  else match r_handlers r !! kind with
       | None => (r, inr ErrUnknownKind)
       | Some _ =>
           if r_cap r <=? r_active r then (r, inr ErrAtCapacity)
           else
             let l := r_next r in
             let j := new_job id clientID kind in
             (MkRunner (r_cap r) (r_retention r) (r_store r) (r_handlers r)
                (<[id := l]> (r_jobs r)) (<[l := Entry j false false time_zero]> (r_heap r))
                (S l) (r_active r + 1) (r_closed r) (r_wg r + 1), inl (l, j))
       end.

(** [Get]; [load] is the store's [Load], [None] when there is no job, an
    error, or no store. *)
Definition Get (r : Runner) (load : string → option Job) (id : string) : option Job :=
  match r_jobs r !! id with
  | Some l => e ← r_heap r !! l; Some (e_job e)
  | None => if r_store r then load id else None
  end.

Definition Cancel (r : Runner) (id : string) : Runner * option runner_error :=
  match r_jobs r !! id with
  | None => (r, Some ErrNotFound)
  | Some l =>
      match r_heap r !! l with
      | None => (r, None)
      | Some e =>
          if Terminal (j_State (e_job e)) then (r, None)
          else (set_heap r (<[l := set_cancelled e]> (r_heap r)), None)
      end
  end.

(** Whether [Cleanup] removes the entry at [l]. *)
Definition expired (r : Runner) (now : Z) (l : loc) : bool :=
  match r_heap r !! l with
  | Some e => Terminal (j_State (e_job e)) && (r_retention r <=? time_sub now (e_completedAt e))
  | None => false
  end.

Definition Cleanup (r : Runner) (now : Z) : Runner * Z :=
  (set_jobs r (filter (λ kl, expired r now kl.2 = false) (r_jobs r)),
   Z.of_nat (size (filter (λ kl, expired r now kl.2 = true) (r_jobs r)))).

Definition cancel_active (e : entry) : entry :=
  if Terminal (j_State (e_job e)) then e else set_cancelled e.

(** The critical section of [Close] and the cancellations after it. *)
Definition Close (r : Runner) : Runner :=
  if r_closed r then r
  else
    let listed := map_img (SA := gset loc) (r_jobs r) in
    MkRunner (r_cap r) (r_retention r) (r_store r) (r_handlers r) (r_jobs r)
      (map_imap (λ l e, Some (if decide (l ∈ listed) then cancel_active e else e)) (r_heap r))
      (r_next r) (r_active r) true (r_wg r).

(** [transition] as [execute] calls it. *)
Definition start_running (r : Runner) (l : loc) : option (Runner * Job) :=
  e ← r_heap r !! l;
  let j := set_state (e_job e) StateRunning in
  Some (set_heap r (<[l := set_job e j]> (r_heap r)), j).

(** The [report] callback of [execute]. *)
Definition report (r : Runner) (l : loc) (p : spec_float) : option Runner :=
  e ← r_heap r !! l;
  Some (set_heap r (<[l := set_job e (set_progress (e_job e) (clamp p))]> (r_heap r))).

(** What a handler does in the end: return a result and an error, or
    panic with a value printed as [msg]. [safeRun] turns it into a result
    and an error. *)
Inductive handler_exit : Type :=
| Returned (result : option V) (err : option string)
| Panicked (msg : string).

Definition safeRun (x : handler_exit) : option V * option string :=
  match x with
  | Returned result err => (result, err)
  | Panicked msg => (None, Some ("jobs: handler panicked: " +:+ msg)%string)
  end.

(** [finish] at time [now]. *)
Definition finish (r : Runner) (l : loc) (result : option V) (err : option string) (now : Z)
    : option (Runner * Job) :=
  e ← r_heap r !! l;
  let j := e_job e in
  let j :=
    match err with
    | None => MkJob (j_ID j) (j_Kind j) (j_ClientID j) StateSucceeded float_one result (j_Err j)
    | Some msg =>
        if e_cancelled e then set_state j StateCancelled
        else MkJob (j_ID j) (j_Kind j) (j_ClientID j) StateFailed (j_Progress j) (j_Result j) msg
    end in
  Some (MkRunner (r_cap r) (r_retention r) (r_store r) (r_handlers r) (r_jobs r)
          (<[l := Entry j (e_ctxDone e) (e_cancelled e) now]> (r_heap r)) (r_next r)
          (r_active r - 1) (r_closed r) (r_wg r), j).

(** The deferred calls of [execute]: cancel the context, leave the group. *)
Definition leave (r : Runner) (l : loc) : option Runner :=
  e ← r_heap r !! l;
  Some (MkRunner (r_cap r) (r_retention r) (r_store r) (r_handlers r) (r_jobs r)
          (<[l := Entry (e_job e) true (e_cancelled e) (e_completedAt e)]> (r_heap r))
          (r_next r) (r_active r) (r_closed r) (r_wg r - 1)).
End jobs.
Arguments Job : clear implicits.
Arguments entry : clear implicits.
Arguments Runner : clear implicits.
Arguments handler_exit : clear implicits.

(** ** Goroutines

    Each submitted job has one line of control: the rest of its [SubmitFor]
    call, then the goroutine [execute]. *)
Section steps.
Context {V H : Type}.
Local Abbreviation Job := (Job V).
Local Abbreviation Runner := (Runner V H).

(** Where [execute] is: before its [transition], in the handler, or at its
    deferred calls. *)
Inductive stage : Type :=
| ToTransition
| InHandler
| ToLeave.

(** What the line of control does next: [bus.Publish] of a snapshot, its
    [persist], or the next stage. *)
Inductive control : Type :=
| ToPublish (snap : Job) (next : stage)
| ToPersist (snap : Job) (next : stage)
| At (next : stage).

Record World : Type := MkWorld {
  w_runner : Runner;
  w_control : gmap loc control;
  w_bus : list Job;
  w_saved : list Job;
}.

Definition initial (r : Runner) : World := MkWorld r ∅ [] [].

Definition goto (w : World) (r : Runner) (l : loc) (c : control) : World :=
  MkWorld r (<[l := c]> (w_control w)) (w_bus w) (w_saved w).

(** The identifiers of all jobs ever submitted. *)
Definition used_id (r : Runner) (id : string) : Prop :=
  ∃ l e, r_heap r !! l = Some e ∧ j_ID (e_job e) = id.

Inductive step (w : World) : World → Prop :=
| step_register kind h :
    step w (MkWorld (Register (w_runner w) kind h).1 (w_control w) (w_bus w) (w_saved w))
| step_submit id clientID kind r l j :
    (* uuid.New never repeats an identifier *)
    ¬ used_id (w_runner w) id →
    SubmitFor (w_runner w) id clientID kind = (r, inl (l, j)) →
    step w (goto w r l (ToPublish j ToTransition))
| step_cancel id :
    step w (MkWorld (Cancel (w_runner w) id).1 (w_control w) (w_bus w) (w_saved w))
| step_cleanup now :
    step w (MkWorld (Cleanup (w_runner w) now).1 (w_control w) (w_bus w) (w_saved w))
| step_close :
    step w (MkWorld (Close (w_runner w)) (w_control w) (w_bus w) (w_saved w))
| step_publish l snap next :
    w_control w !! l = Some (ToPublish snap next) →
    step w (MkWorld (w_runner w) (<[l := ToPersist snap next]> (w_control w))
              (w_bus w ++ [snap]) (w_saved w))
| step_persist l snap next :
    w_control w !! l = Some (ToPersist snap next) →
    step w (MkWorld (w_runner w) (<[l := At next]> (w_control w)) (w_bus w)
              (if r_store (w_runner w) then w_saved w ++ [snap] else w_saved w))
| step_transition l r snap :
    w_control w !! l = Some (At ToTransition) →
    start_running (w_runner w) l = Some (r, snap) →
    step w (goto w r l (ToPublish snap InHandler))
| step_report l r p :
    (* a handler can call its report callback, from a goroutine of its own
       even after it returned *)
    report (w_runner w) l p = Some r →
    step w (MkWorld r (w_control w) (w_bus w) (w_saved w))
| step_finish l x now r snap :
    w_control w !! l = Some (At InHandler) →
    finish (w_runner w) l (safeRun x).1 (safeRun x).2 now = Some (r, snap) →
    step w (goto w r l (ToPublish snap ToLeave))
| step_leave l r :
    w_control w !! l = Some (At ToLeave) →
    leave (w_runner w) l = Some r →
    step w (MkWorld r (delete l (w_control w)) (w_bus w) (w_saved w)).

(** Reachable worlds, from a runner that was just built. *)
Definition reachable (maxConcurrent retention : Z) (store : bool) (w : World) : Prop :=
  rtc step (initial (New maxConcurrent retention store)) w.

(** ** The invariant *)

Definition active_entry (le : loc * entry V) : Prop := Terminal (j_State (e_job le.2)) = false.
Instance active_entry_dec le : Decision (active_entry le) := decide (_ = _).

Definition active_count (h : gmap loc (entry V)) : Z := Z.of_nat (size (filter active_entry h)).

(** The states a job has shown on the bus, given where its control is. *)
Definition published (c : option control) (final : State) : list State :=
  match c with
  | Some (ToPublish _ ToTransition) => []
  | Some (ToPersist _ ToTransition) | Some (At ToTransition) | Some (ToPublish _ InHandler) =>
      [StateQueued]
  | Some (ToPersist _ InHandler) | Some (At InHandler) | Some (ToPublish _ ToLeave) =>
      [StateQueued; StateRunning]
  | Some (ToPersist _ ToLeave) | Some (At ToLeave) | None => [StateQueued; StateRunning; final]
  end.

(** The state of a job's entry, given where its control is. *)
Definition control_state (c : option control) (s : State) : Prop :=
  match c with
  | Some (ToPublish _ ToTransition) | Some (ToPersist _ ToTransition) | Some (At ToTransition) =>
      s = StateQueued
  | Some (ToPublish _ InHandler) | Some (ToPersist _ InHandler) | Some (At InHandler) =>
      s = StateRunning
  | Some (ToPublish _ ToLeave) | Some (ToPersist _ ToLeave) | Some (At ToLeave) | None =>
      Terminal s = true
  end.

(** A pending publication is of the entry's own job and state. *)
Definition control_snap (c : option control) (j : Job) : Prop :=
  match c with
  | Some (ToPublish snap _) | Some (ToPersist snap _) =>
      j_ID snap = j_ID j ∧ j_State snap = j_State j
  | _ => True
  end.

Definition states_of (id : string) (bus : list Job) : list State :=
  j_State <$> filter (λ j, j_ID j = id) bus.

Record entry_ok (w : World) (l : loc) (e : entry V) : Prop := {
  eo_state : control_state (w_control w !! l) (j_State (e_job e));
  eo_snap : control_snap (w_control w !! l) (e_job e);
  eo_bus : states_of (j_ID (e_job e)) (w_bus w) =
           published (w_control w !! l) (j_State (e_job e));
  eo_listed : Terminal (j_State (e_job e)) = false →
              r_jobs (w_runner w) !! j_ID (e_job e) = Some l;
  eo_cancelled : j_State (e_job e) = StateCancelled → e_cancelled e = true;
  eo_closed : r_closed (w_runner w) = true → Terminal (j_State (e_job e)) = false →
              e_cancelled e = true;
}.

Record world_ok (w : World) : Prop := {
  wo_cap : 0 < r_cap (w_runner w);
  wo_active : r_active (w_runner w) = active_count (r_heap (w_runner w));
  wo_bound : r_active (w_runner w) ≤ r_cap (w_runner w);
  wo_entries : map_Forall (entry_ok w) (r_heap (w_runner w));
  wo_ids : ∀ l1 l2 e1 e2, r_heap (w_runner w) !! l1 = Some e1 →
           r_heap (w_runner w) !! l2 = Some e2 →
           j_ID (e_job e1) = j_ID (e_job e2) → l1 = l2;
  wo_jobs : ∀ id l, r_jobs (w_runner w) !! id = Some l →
            ∃ e, r_heap (w_runner w) !! l = Some e ∧ j_ID (e_job e) = id;
  wo_control : dom (w_control w) ⊆ dom (r_heap (w_runner w));
  wo_wg : r_wg (w_runner w) = Z.of_nat (size (w_control w));
  wo_next : ∀ l, (r_next (w_runner w) ≤ l)%nat → r_heap (w_runner w) !! l = None;
  wo_bus : ∀ j, j ∈ w_bus w → used_id (w_runner w) (j_ID j);
}.
End steps.
Arguments World : clear implicits.
Arguments control : clear implicits.

(** ** The invariant is kept *)
Section steps_ok.
Context {V H : Type}.
Implicit Types (w : World V H) (e : entry V) (l : loc).

Existing Instance active_entry_dec.

Definition live (e : entry V) : Z := if Terminal (j_State (e_job e)) then 0 else 1.

Lemma active_count_insert (h : gmap loc (entry V)) l e :
  h !! l = None → active_count (<[l := e]> h) = active_count h + live e.
Proof.
  intros Hl. unfold active_count, live. destruct (Terminal (j_State (e_job e))) eqn:Ht.
  - rewrite map_filter_insert_False; [|unfold active_entry; simpl; congruence].
    rewrite delete_id by done. lia.
  - rewrite map_filter_insert_True by done. rewrite map_size_insert_None; [lia|].
    apply map_lookup_filter_None. by left.
Qed.

Lemma active_count_update (h : gmap loc (entry V)) l e e' :
  h !! l = Some e → active_count (<[l := e']> h) = active_count h - live e + live e'.
Proof.
  intros Hl. rewrite <-(insert_delete_eq h l e'), active_count_insert by apply lookup_delete_eq.
  enough (active_count h = active_count (delete l h) + live e) by lia.
  rewrite <-(insert_delete_id h l e Hl) at 1. apply active_count_insert, lookup_delete_eq.
Qed.

Lemma states_of_app id (b : list (Job V)) j :
  states_of id (b ++ [j]) = states_of id b ++ (if decide (j_ID j = id) then [j_State j] else []).
Proof.
  unfold states_of. rewrite filter_app, fmap_app. f_equal. rewrite filter_cons.
  by destruct (decide _).
Qed.

Lemma states_of_fresh id (b : list (Job V)) : (∀ j, j ∈ b → j_ID j ≠ id) → states_of id b = [].
Proof.
  intros Hb. induction b as [|j b IH]; [done|]. unfold states_of in *. rewrite filter_cons.
  rewrite decide_False by (apply Hb; by left). apply IH. intros. apply Hb. by right.
Qed.

(** One entry and its line of control change. *)
Lemma world_ok_update w w' l e e' :
  world_ok w → r_heap (w_runner w) !! l = Some e →
  r_heap (w_runner w') = <[l := e']> (r_heap (w_runner w)) →
  r_jobs (w_runner w') = r_jobs (w_runner w) → r_cap (w_runner w') = r_cap (w_runner w) →
  r_next (w_runner w') = r_next (w_runner w) → r_closed (w_runner w') = r_closed (w_runner w) →
  j_ID (e_job e') = j_ID (e_job e) → live e' ≤ live e →
  r_active (w_runner w') = r_active (w_runner w) - live e + live e' →
  (∀ l', l' ≠ l → w_control w' !! l' = w_control w !! l') →
  r_wg (w_runner w') = Z.of_nat (size (w_control w')) →
  (w_bus w' = w_bus w ∨ ∃ snap, w_bus w' = w_bus w ++ [snap] ∧ j_ID snap = j_ID (e_job e)) →
  entry_ok w' l e' → world_ok w'.
Proof.
  intros [Hcap Hact Hbound Hent Hids Hjobs Hctl Hwg Hnext Hbus] Hl Hh Hj Hc Hn Hcl Hid Hlive
    Ha Hctl' Hwg' Hbus' He'.
  assert (∀ id, used_id (w_runner w) id → used_id (w_runner w') id) as Hused.
  { intros id (l2 & e2 & Hl2 & <-). unfold used_id. rewrite Hh.
    destruct (decide (l2 = l)) as [->|].
    - exists l, e'. rewrite lookup_insert_eq. by simplify_eq.
    - exists l2, e2. by rewrite lookup_insert_ne. }
  assert (∀ l2 e2, r_heap (w_runner w') !! l2 = Some e2 → ∃ e2', 
            r_heap (w_runner w) !! l2 = Some e2' ∧ j_ID (e_job e2) = j_ID (e_job e2')) as Hback.
  { intros l2 e2. rewrite Hh. intros [[-> <-]|[? ?]]%lookup_insert_Some; eauto. }
  split.
  - by rewrite Hc.
  - rewrite Hh, (active_count_update _ _ e) by done. lia.
  - lia.
  - rewrite Hh. intros l2 e2 [[<- <-]|[Hne Hl2]]%lookup_insert_Some; [done|].
    destruct (Hent _ _ Hl2) as [Es Esn Eb El Ec Ecl].
    split; rewrite ?Hctl', ?Hj, ?Hcl by done; try done.
    destruct Hbus' as [->|(snap & -> & Hs)]; [done|].
    rewrite states_of_app, decide_False, app_nil_r; [done|].
    intros Heq. apply Hne. eapply Hids; [done..|]. congruence.
  - intros l1 l2 e1 e2 H1 H2 Heq. destruct (Hback _ _ H1) as (e1' & ? & ?).
    destruct (Hback _ _ H2) as (e2' & ? & ?). eapply Hids; [done..|congruence].
  - rewrite Hj, Hh. intros id l2 Hl2. destruct (Hjobs _ _ Hl2) as (e2 & He2 & <-).
    destruct (decide (l2 = l)) as [->|].
    + exists e'. rewrite lookup_insert_eq. by simplify_eq.
    + exists e2. by rewrite lookup_insert_ne.
  - rewrite Hh. intros l2 Hl2. rewrite dom_insert. destruct (decide (l2 = l)); [set_solver|].
    apply elem_of_union_r, Hctl. apply elem_of_dom. rewrite <-Hctl' by done. by apply elem_of_dom.
  - done.
  - intros l2. rewrite Hn, Hh. intros Hl2. apply Hnext in Hl2 as Hl2'.
    rewrite lookup_insert_ne; [done|]. intros ->. congruence.
  - intros j Hin. destruct Hbus' as [Hb|(snap & Hb & Hs)]; rewrite Hb in Hin.
    + by apply Hused, Hbus.
    + apply elem_of_app in Hin as [Hin|Hin%list_elem_of_singleton]; [by apply Hused, Hbus|].
      subst. apply Hused. exists l, e. by rewrite Hs.
Qed.

Lemma active_count_ext (h h' : gmap loc (entry V)) :
  (∀ l, (∃ e, h !! l = Some e ∧ Terminal (j_State (e_job e)) = false) ↔
        (∃ e, h' !! l = Some e ∧ Terminal (j_State (e_job e)) = false)) →
  active_count h = active_count h'.
Proof.
  intros Heq. unfold active_count. rewrite <-!size_dom. do 2 f_equal. apply set_eq. intros l.
  rewrite !elem_of_dom. unfold is_Some. setoid_rewrite map_lookup_filter_Some. apply Heq.
Qed.

(** The map of pointers and the handlers do not matter to the entries,
    as long as every active job stays listed. *)
Lemma world_ok_index w (r : Runner V H) :
  world_ok w →
  r_heap r = r_heap (w_runner w) → r_cap r = r_cap (w_runner w) →
  r_next r = r_next (w_runner w) → r_closed r = r_closed (w_runner w) →
  r_active r = r_active (w_runner w) → r_wg r = r_wg (w_runner w) →
  (∀ id l, r_jobs r !! id = Some l → r_jobs (w_runner w) !! id = Some l) →
  (∀ id l e, r_jobs (w_runner w) !! id = Some l → r_heap (w_runner w) !! l = Some e →
     Terminal (j_State (e_job e)) = false → r_jobs r !! id = Some l) →
  world_ok (MkWorld r (w_control w) (w_bus w) (w_saved w)).
Proof.
  intros [Hcap Hact Hbound Hent Hids Hjobs Hctl Hwg Hnext Hbus] Hh Hc Hn Hcl Ha Hg Hsub Hkeep.
  split; simpl; rewrite ?Hh, ?Hc, ?Hn, ?Hcl, ?Ha, ?Hg; try done.
  - intros l e Hl. destruct (Hent _ _ Hl) as [Es Esn Eb El Ec Ecl].
    split; simpl; rewrite ?Hcl; try done. intros Ht. by eapply Hkeep; [apply El| |].
  - intros id l Hl. by apply Hjobs, Hsub.
  - intros j Hj. unfold used_id. rewrite Hh. by apply Hbus.
Qed.

Lemma world_ok_register w kind h :
  world_ok w →
  world_ok (MkWorld (Register (w_runner w) kind h).1 (w_control w) (w_bus w) (w_saved w)).
Proof.
  intros Hw. unfold Register. repeat case_match; by apply world_ok_index.
Qed.

Lemma world_ok_cleanup w now :
  world_ok w →
  world_ok (MkWorld (Cleanup (w_runner w) now).1 (w_control w) (w_bus w) (w_saved w)).
Proof.
  intros Hw. apply world_ok_index; try done; simpl.
  - intros id l. by intros [? _]%map_lookup_filter_Some.
  - intros id l e Hl He Ht. apply map_lookup_filter_Some. split; [done|]. simpl.
    unfold expired. by rewrite He, Ht.
Qed.

Lemma world_ok_submit w id clientID kind (r : Runner V H) l j :
  world_ok w → ¬ used_id (w_runner w) id →
  SubmitFor (w_runner w) id clientID kind = (r, inl (l, j)) →
  world_ok (goto w r l (ToPublish j ToTransition)).
Proof.
  intros [Hcap Hact Hbound Hent Hids Hjobs Hctl Hwg Hnext Hbus] Hfresh. unfold SubmitFor.
  destruct (r_closed (w_runner w)) eqn:Hcl; [done|]. destruct (r_handlers _ !! kind); [|done].
  destruct (Z.leb_spec (r_cap (w_runner w)) (r_active (w_runner w))); [done|].
  intros [= <- <- <-]. set (l := r_next (w_runner w)).
  assert (r_heap (w_runner w) !! l = None) as Hl by (by apply Hnext).
  assert (w_control w !! l = None) as Hcl'.
  { apply not_elem_of_dom. intros Hin%Hctl%elem_of_dom. rewrite Hl in Hin. by destruct Hin. }
  assert (∀ l2 e2, r_heap (w_runner w) !! l2 = Some e2 → j_ID (e_job e2) ≠ id) as Hne.
  { intros l2 e2 Hl2 Hid. apply Hfresh. by exists l2, e2. }
  split; simpl.
  - done.
  - rewrite active_count_insert by done. unfold live. simpl. lia.
  - lia.
  - intros l2 e2 [[<- <-]|[Hn Hl2]]%lookup_insert_Some.
    + split; simpl; rewrite ?lookup_insert_eq; simpl; try done.
      apply states_of_fresh. intros j Hj Hid. apply Hfresh. rewrite <-Hid. by apply Hbus.
    + destruct (Hent _ _ Hl2) as [Es Esn Eb El Ec Ecl].
      split; simpl; rewrite ?(lookup_insert_ne _ l l2) by done; try done.
      intros Ht. rewrite lookup_insert_ne; [by apply El|]. intros Heq. by eapply Hne.
  - intros l1 l2 e1 e2 [[<- <-]|[_ Hl1]]%lookup_insert_Some [[<- <-]|[_ Hl2]]%lookup_insert_Some;
      simpl; intros Heq; [done|exfalso; by eapply Hne|exfalso; by eapply Hne|by eapply Hids].
  - intros id2 l2 [[<- <-]|[? Hl2]]%lookup_insert_Some; [rewrite lookup_insert_eq; eauto|].
    destruct (Hjobs _ _ Hl2) as (e2 & He2 & <-). exists e2. rewrite lookup_insert_ne; [done|].
    intros ->. congruence.
  - rewrite !dom_insert_L. set_solver.
  - rewrite map_size_insert_None by done. lia.
  - intros l2 Hl2. rewrite lookup_insert_ne by lia. apply Hnext. lia.
  - intros j Hj%Hbus. destruct Hj as (l2 & e2 & Hl2 & <-). exists l2, e2. simpl.
    rewrite lookup_insert_ne; [done|]. intros ->. congruence.
Qed.

Lemma cancel_active_job e : e_job (cancel_active e) = e_job e.
Proof. unfold cancel_active. by destruct (Terminal _). Qed.

Lemma world_ok_close w :
  world_ok w → world_ok (MkWorld (Close (w_runner w)) (w_control w) (w_bus w) (w_saved w)).
Proof.
  intros Hw. unfold Close. destruct (r_closed (w_runner w)) eqn:Hcl; [by destruct w|].
  destruct Hw as [Hcap Hact Hbound Hent Hids Hjobs Hctl Hwg Hnext Hbus].
  set (f := λ (l : loc) e, if decide (l ∈ map_img (SA := gset loc) (r_jobs (w_runner w)))
                           then cancel_active e else e).
  change (map_imap _ _) with (map_imap (λ l e, Some (f l e)) (r_heap (w_runner w))).
  assert (∀ l e, e_job (f l e) = e_job e) as Hf.
  { intros. unfold f. case_decide; [apply cancel_active_job|done]. }
  assert (∀ l, map_imap (λ l e, Some (f l e)) (r_heap (w_runner w)) !! l =
               f l <$> r_heap (w_runner w) !! l) as Hlook.
  { intros. rewrite map_lookup_imap. by destruct (_ !! l). }
  split; simpl; try done.
  - rewrite Hact. apply active_count_ext. intros l. rewrite Hlook.
    destruct (r_heap (w_runner w) !! l) as [e|]; simpl; [|naive_solver].
    split; intros (e' & [= <-] & ?); (eexists; split; [done|]); by rewrite ?Hf in *.
  - intros l e. rewrite Hlook. intros (e0 & Hl & ->)%fmap_Some.
    destruct (Hent _ _ Hl) as [Es Esn Eb El Ec Ecl]. split; simpl; rewrite ?Hf; try done.
    + intros Hcan. unfold f. case_decide; [|by apply Ec]. unfold cancel_active.
      by rewrite Hcan; simpl; apply Ec.
    + intros _ Ht. unfold f. rewrite decide_True; [unfold cancel_active; by rewrite Ht|].
      apply elem_of_map_img. eexists. by apply El.
  - intros l1 l2 e1 e2. rewrite !Hlook. intros (e1' & Hl1 & ->)%fmap_Some (e2' & Hl2 & ->)%fmap_Some.
    rewrite !Hf. by apply Hids.
  - intros id l Hl. destruct (Hjobs _ _ Hl) as (e & He & <-). exists (f l e).
    rewrite Hlook, He. by rewrite Hf.
  - intros l Hl%Hctl. apply elem_of_dom in Hl as [e He]. apply elem_of_dom.
    rewrite Hlook, He. eauto.
  - intros l Hl. by rewrite Hlook, Hnext.
  - intros j Hj%Hbus. destruct Hj as (l & e & Hl & <-). exists l, (f l e). simpl.
    by rewrite Hlook, Hl, Hf.
Qed.

Lemma control_size_update (m : gmap loc (control V)) l c c' :
  m !! l = Some c → size (<[l := c']> m) = size m.
Proof. intros Hl. by rewrite map_size_insert_Some. Qed.

Lemma step_ok w w' : world_ok w → step w w' → world_ok w'.
Proof.
  intros Hw Hstep. pose proof Hw as [Hcap Hact Hbound Hent Hids Hjobs Hctl Hwg Hnext Hbus].
  destruct Hstep as [kind h|id clientID kind r l j Hid Hs|id|now| |l snap next Hc|l snap next Hc
    |l r snap Hc Hr|l r p Hr|l x now r snap Hc Hr|l r Hc Hr].
  - by apply world_ok_register.
  - by eapply world_ok_submit.
  - unfold Cancel. destruct (r_jobs _ !! id) as [l|] eqn:Hl; [|by destruct w].
    destruct (Hjobs _ _ Hl) as (e & He & _). rewrite He.
    destruct (Terminal _) eqn:Ht; [by destruct w|].
    eapply (world_ok_update w _ l e (set_cancelled e)); simpl; try done; try (unfold live; simpl; lia); try by left.
    destruct (Hent _ _ He). by split.
  - by apply world_ok_cleanup.
  - by apply world_ok_close.
  - assert (is_Some (r_heap (w_runner w) !! l)) as [e He] by (apply elem_of_dom, Hctl, elem_of_dom; eauto).
    destruct (Hent _ _ He) as [Es Esn Eb El Ec Ecl]. rewrite Hc in Es, Esn, Eb. simpl in Esn.
    destruct Esn as [Hid Hst].
    eapply (world_ok_update w _ l e e); simpl; try done; try lia; [by rewrite insert_id| | | |].
    + intros. by apply lookup_insert_ne.
    + by rewrite Hwg, (control_size_update _ _ _ _ Hc).
    + right. by exists snap.
    + split; simpl; rewrite ?lookup_insert_eq; try done.
      rewrite states_of_app, decide_True, Eb, Hst by done.
      destruct next; simpl in *; by rewrite ?Es.
  - assert (is_Some (r_heap (w_runner w) !! l)) as [e He] by (apply elem_of_dom, Hctl, elem_of_dom; eauto).
    destruct (Hent _ _ He) as [Es Esn Eb El Ec Ecl]. rewrite Hc in Es, Esn, Eb.
    eapply (world_ok_update w _ l e e); simpl; try done; try lia; [by rewrite insert_id| | |by left|].
    + intros. by apply lookup_insert_ne.
    + by rewrite Hwg, (control_size_update _ _ _ _ Hc).
    + by split; simpl; rewrite ?lookup_insert_eq.
  - unfold start_running in Hr. apply bind_Some in Hr as (e & He & [= <- <-]).
    destruct (Hent _ _ He) as [Es Esn Eb El Ec Ecl]. rewrite Hc in Es, Esn, Eb. simpl in Es, Eb.
    eapply (world_ok_update w _ l e); simpl; try done.
    + unfold live. simpl. rewrite Es. done.
    + unfold live. simpl. rewrite Es. simpl. lia.
    + intros. by apply lookup_insert_ne.
    + by rewrite Hwg, (control_size_update _ _ _ _ Hc).
    + by left.
    + rewrite Es in *. split; simpl; rewrite ?lookup_insert_eq; try done.
  - unfold report in Hr. apply bind_Some in Hr as (e & He & [= <-]).
    destruct (Hent _ _ He) as [Es Esn Eb El Ec Ecl].
    eapply (world_ok_update w _ l e); simpl; try done; try (unfold live; simpl; lia); by left.
  - unfold finish in Hr. apply bind_Some in Hr as (e & He & [= <- <-]).
    destruct (Hent _ _ He) as [Es Esn Eb El Ec Ecl]. rewrite Hc in Es, Esn, Eb. simpl in Es, Eb.
    set (j := match (safeRun x).2 with None => _ | Some _ => _ end).
    assert (Terminal (j_State j) = true ∧ j_ID j = j_ID (e_job e) ∧
            (j_State j = StateCancelled → e_cancelled e = true)) as (Ht & Hji & Hjc).
    { subst j. destruct (safeRun x).2; [|done]. by destruct (e_cancelled e). }
    clearbody j.
    eapply (world_ok_update w _ l e); simpl; try done.
    + unfold live. simpl. rewrite Ht. by destruct (Terminal _).
    + unfold live. simpl. rewrite Ht, Es. simpl. lia.
    + intros. by apply lookup_insert_ne.
    + by rewrite Hwg, (control_size_update _ _ _ _ Hc).
    + by left.
    + split; simpl; rewrite ?lookup_insert_eq, ?Hji; done || congruence.
  - unfold leave in Hr. apply bind_Some in Hr as (e & He & [= <-]).
    destruct (Hent _ _ He) as [Es Esn Eb El Ec Ecl]. rewrite Hc in Es, Esn, Eb. simpl in Es, Eb.
    eapply (world_ok_update w _ l e); simpl; try done; try (unfold live; simpl; lia); try by left.
    + intros. by apply lookup_delete_ne.
    + rewrite map_size_delete, Hc. rewrite Hwg. simpl.
      assert (size (w_control w) ≠ 0%nat); [|lia]. apply map_size_non_empty_iff. intros Hemp.
      by rewrite Hemp, lookup_empty in Hc.
    + by split; simpl; rewrite ?lookup_delete_eq.
Qed.

Lemma initial_ok maxConcurrent retention store :
  world_ok (initial (New (V := V) (H := H) maxConcurrent retention store)).
Proof.
  split; simpl; try done.
  - unfold defaultMaxConcurrent. destruct (Z.leb_spec maxConcurrent 0); lia.
  - unfold defaultMaxConcurrent. destruct (Z.leb_spec maxConcurrent 0); lia.
  - intros j []%elem_of_nil.
Qed.

Lemma reachable_ok maxConcurrent retention store w :
  reachable maxConcurrent retention store w → world_ok w.
Proof.
  unfold reachable. intros Hr. pose proof (initial_ok maxConcurrent retention store) as H0.
  induction Hr as [|w1 w2 w3 Hs _ IH]; [done|]. by apply IH, (step_ok w1).
Qed.
End steps_ok.

(** ** Properties of the runner *)
Section jobs_properties.
Context {V H : Type}.
Implicit Types (w : World V H) (e : entry V) (l : loc).

(** C19: In every world any interleaving of submissions, cancellations,
    cleanups, shutdown and job goroutines can reach, the runner's count of
    active jobs is exact and within its cap, no two jobs share an
    identifier, and every queued or running job is found by [Get]. *)
Theorem jobs_bounded maxConcurrent retention store w load :
  reachable maxConcurrent retention store w →
  let r := w_runner w in
  r_active r = active_count (r_heap r) ∧ r_active r ≤ r_cap r ∧
  (∀ l1 l2 e1 e2, r_heap r !! l1 = Some e1 → r_heap r !! l2 = Some e2 →
     j_ID (e_job e1) = j_ID (e_job e2) → l1 = l2) ∧
  (∀ l e, r_heap r !! l = Some e → Terminal (j_State (e_job e)) = false →
     Get r load (j_ID (e_job e)) = Some (e_job e)).
Proof.
  intros Hr. destruct (reachable_ok _ _ _ _ Hr) as [? ? ? Hent ? ? ? ? ? ?]. split_and!; try done.
  intros l e Hl Ht. destruct (Hent _ _ Hl) as [? ? ? El ? ?]. unfold Get.
  rewrite (El Ht), Hl. done.
Qed.

(** The states published on the bus for a job are always a prefix of
    queued, running and its final state, in that order, so no event is
    lost, repeated or out of order; the final state is terminal once
    published, and a job whose goroutine has gone has published all three. *)
Theorem jobs_lifecycle maxConcurrent retention store w l e :
  reachable maxConcurrent retention store w → r_heap (w_runner w) !! l = Some e →
  let seen := states_of (j_ID (e_job e)) (w_bus w) in
  seen `prefix_of` [StateQueued; StateRunning; j_State (e_job e)] ∧
  (length seen = 3%nat → Terminal (j_State (e_job e)) = true) ∧
  (w_control w !! l = None → length seen = 3%nat).
Proof.
  intros Hr Hl. destruct (reachable_ok _ _ _ _ Hr) as [? ? ? Hent ? ? ? ? ? ?].
  destruct (Hent _ _ Hl) as [Es _ Eb _ _ _]. cbv zeta. rewrite Eb.
  destruct (w_control w !! l) as [[snap []|snap []|[]]|]; simpl in *; split_and!; try done;
    try (by exists [StateQueued; StateRunning; j_State (e_job e)]);
    try (by exists [StateRunning; j_State (e_job e)]);
    try (by exists [j_State (e_job e)]); by exists [].
Qed.

(** A job that reached a terminal state keeps it: no step of any
    goroutine changes its state, result, error or completion time. *)
Theorem jobs_terminal_stable maxConcurrent retention store w w' l e :
  reachable maxConcurrent retention store w → step w w' →
  r_heap (w_runner w) !! l = Some e → Terminal (j_State (e_job e)) = true →
  ∃ e', r_heap (w_runner w') !! l = Some e' ∧ j_ID (e_job e') = j_ID (e_job e) ∧
    j_State (e_job e') = j_State (e_job e) ∧ j_Result (e_job e') = j_Result (e_job e) ∧
    j_Err (e_job e') = j_Err (e_job e) ∧ e_completedAt e' = e_completedAt e.
Proof.
  intros Hr Hstep Hl Ht. destruct (reachable_ok _ _ _ _ Hr) as [_ _ _ Hent _ _ _ _ Hnext _].
  destruct (Hent _ _ Hl) as [Es _ _ _ _ _].
  destruct Hstep as [kind h|id clientID kind r l2 j Hid Hs|id|now| |l2 snap next Hc|l2 snap next Hc
    |l2 r snap Hc Hs|l2 r p Hs|l2 x now r snap Hc Hs|l2 r Hc Hs]; simpl.
  - exists e. unfold Register. by repeat case_match.
  - unfold SubmitFor in Hs. repeat case_match; simplify_eq. simpl. exists e.
    rewrite lookup_insert_ne; [done|]. intros <-. rewrite Hnext in Hl; done.
  - unfold Cancel. repeat case_match; simpl; try (by exists e).
    destruct (decide (l = n)) as [<-|]; [congruence|]. exists e. by rewrite lookup_insert_ne.
  - by exists e.
  - unfold Close. destruct (r_closed _); simpl; [by exists e|]. rewrite map_lookup_imap, Hl. simpl.
    exists e. split; [|done]. unfold cancel_active. rewrite Ht. by destruct (decide _).
  - by exists e.
  - by exists e.
  - unfold start_running in Hs. apply bind_Some in Hs as (e2 & He2 & [= <- <-]). simpl. exists e.
    destruct (decide (l = l2)) as [<-|]; [|by rewrite lookup_insert_ne].
    rewrite Hc in Es. simpl in Es. by rewrite Es in Ht.
  - unfold report in Hs. apply bind_Some in Hs as (e2 & He2 & [= <-]). simpl.
    destruct (decide (l = l2)) as [<-|]; [|exists e; by rewrite lookup_insert_ne].
    rewrite Hl in He2. simplify_eq. rewrite lookup_insert_eq. by eexists.
  - unfold finish in Hs. apply bind_Some in Hs as (e2 & He2 & [= <- <-]). simpl. exists e.
    destruct (decide (l = l2)) as [<-|]; [|by rewrite lookup_insert_ne].
    rewrite Hc in Es. simpl in Es. by rewrite Es in Ht.
  - unfold leave in Hs. apply bind_Some in Hs as (e2 & He2 & [= <-]). simpl.
    destruct (decide (l = l2)) as [<-|]; [|exists e; by rewrite lookup_insert_ne].
    rewrite Hl in He2. simplify_eq. rewrite lookup_insert_eq. by eexists.
Qed.

(** [SubmitFor] accepts a job exactly when the runner is open, the
    kind has a handler and fewer than the cap are active; an accepted job
    is queued under the new identifier and counted, a refused one changes
    nothing and is told why. *)
Theorem SubmitFor_spec (r : Runner V H) load id clientID kind :
  match SubmitFor r id clientID kind with
  | (r', inl (_, j)) =>
      r_closed r = false ∧ is_Some (r_handlers r !! kind) ∧ r_active r < r_cap r ∧
      Get r' load id = Some j ∧ j_State j = StateQueued ∧ j_ClientID j = clientID ∧
      r_active r' = r_active r + 1
  | (r', inr err) =>
      r' = r ∧
      err = (if r_closed r then ErrClosed
             else if bool_decide (r_handlers r !! kind = None) then ErrUnknownKind
             else ErrAtCapacity) ∧
      (r_closed r = true ∨ r_handlers r !! kind = None ∨ r_cap r ≤ r_active r)
  end.
Proof.
  unfold SubmitFor. destruct (r_closed r) eqn:Hc; [by split_and!; auto|].
  destruct (r_handlers r !! kind) as [h|] eqn:Hk; [|by split_and!; auto].
  destruct (Z.leb_spec (r_cap r) (r_active r)); [by split_and!; auto|].
  split_and!; try done. unfold Get. simpl. by rewrite !lookup_insert_eq.
Qed.

(** After [Close], every job still active has been cancelled and none
    is accepted; once the wait group drains, every job is terminal. *)
Theorem Close_drains maxConcurrent retention store w :
  reachable maxConcurrent retention store w → r_closed (w_runner w) = true →
  (∀ id clientID kind, SubmitFor (w_runner w) id clientID kind = (w_runner w, inr ErrClosed)) ∧
  (∀ l e, r_heap (w_runner w) !! l = Some e →
     Terminal (j_State (e_job e)) = true ∨ e_cancelled e = true) ∧
  (r_wg (w_runner w) = 0 → r_active (w_runner w) = 0 ∧
     ∀ l e, r_heap (w_runner w) !! l = Some e → Terminal (j_State (e_job e)) = true).
Proof.
  intros Hr Hc. destruct (reachable_ok _ _ _ _ Hr) as [_ Hact _ Hent _ _ _ Hwg _ _]. split_and!.
  - intros. unfold SubmitFor. by rewrite Hc.
  - intros l e Hl. destruct (Hent _ _ Hl) as [_ _ _ _ _ Ecl].
    destruct (Terminal _); [by left|right; by apply Ecl].
  - intros H0.
    assert (∀ l e, r_heap (w_runner w) !! l = Some e → Terminal (j_State (e_job e)) = true) as Hall.
    { intros l e Hl. destruct (Hent _ _ Hl) as [Es _ _ _ _ _].
      assert (w_control w = ∅) as Hemp by (apply map_size_empty_inv; lia).
      by rewrite Hemp, lookup_empty in Es. }
    split; [|done]. rewrite Hact. transitivity (active_count (∅ : gmap loc (entry V))); [|done].
    apply active_count_ext. intros l. split; [|by intros (? & ? & ?)].
    intros (e & Hl & Ht). by rewrite (Hall l e Hl) in Ht.
Qed.

(** Where a line of control is, counting down to its end. *)
Definition steps_left (c : option (control V)) : nat :=
  match c with
  | None => 0
  | Some c =>
      let k next := match next with ToTransition => 6 | InHandler => 3 | ToLeave => 0 end%nat in
      match c with
      | ToPublish _ next => k next + 3
      | ToPersist _ next => k next + 2
      | At next => k next + 1
      end
  end.

Lemma control_progress w l c :
  world_ok w → w_control w !! l = Some c →
  ∃ w', step w w' ∧ is_Some (r_heap (w_runner w') !! l) ∧
        (steps_left (w_control w' !! l) < steps_left (Some c))%nat.
Proof.
  intros Hw Hc. destruct Hw as [_ _ _ _ _ _ Hctl _ _ _].
  assert (is_Some (r_heap (w_runner w) !! l)) as [e He] by (apply elem_of_dom, Hctl, elem_of_dom; eauto).
  destruct c as [snap next|snap next|next].
  - eexists. split; [by eapply step_publish|]. simpl. rewrite lookup_insert_eq. simpl. eauto with lia.
  - eexists. split; [by eapply step_persist|]. simpl. rewrite lookup_insert_eq. simpl. eauto with lia.
  - destruct next.
    + eexists. split; [eapply step_transition; [done|]; unfold start_running; by rewrite He|].
      simpl. rewrite !lookup_insert_eq. simpl. eauto with lia.
    + eexists. split; [eapply (step_finish _ _ (Returned None None) 0); [done|];
                       unfold finish; by rewrite He|].
      simpl. rewrite !lookup_insert_eq. simpl. eauto with lia.
    + eexists. split; [eapply step_leave; [done|]; unfold leave; by rewrite He|].
      simpl. rewrite lookup_insert_eq, lookup_delete_eq. simpl. eauto with lia.
Qed.

(** No job is ever stuck. From every reachable world the goroutine of
    any job can run, step by step, to its end once its handler returns:
    the job is then terminal and has published all its states. *)
Theorem jobs_can_finish maxConcurrent retention store w l e :
  reachable maxConcurrent retention store w → r_heap (w_runner w) !! l = Some e →
  ∃ w' e', rtc step w w' ∧ w_control w' !! l = None ∧ r_heap (w_runner w') !! l = Some e' ∧
    Terminal (j_State (e_job e')) = true ∧
    states_of (j_ID (e_job e')) (w_bus w') = [StateQueued; StateRunning; j_State (e_job e')].
Proof.
  intros Hr Hl. pose proof (reachable_ok _ _ _ _ Hr) as Hw. clear Hr.
  remember (steps_left (w_control w !! l)) as n eqn:Hn. revert w e Hl Hw Hn.
  induction (lt_wf n) as [n _ IH]. intros w e Hl Hw ->.
  destruct (w_control w !! l) as [c|] eqn:Hc.
  - destruct (control_progress w l c Hw Hc) as (w1 & Hs & [e1 He1] & Hlt).
    destruct (IH _ Hlt w1 e1 He1 (step_ok _ _ Hw Hs) eq_refl) as (w' & e' & Hrtc & Hrest).
    exists w', e'. split; [by eapply rtc_l|done].
  - exists w, e. destruct (wo_entries _ Hw _ _ Hl) as [Es _ Eb _ _ _]. by rewrite Hc in Es, Eb.
Qed.
End jobs_properties.

(** ** A concrete run *)
Section demo.
Context {V H : Type}.
Implicit Types w : World V H.

(** Run the next step of the line of control at [l]; its handler returns
    [x]. *)
Definition advance (x : handler_exit V) (now : Z) w (l : loc) : World V H :=
  match w_control w !! l with
  | Some (ToPublish snap next) =>
      MkWorld (w_runner w) (<[l := ToPersist snap next]> (w_control w)) (w_bus w ++ [snap])
        (w_saved w)
  | Some (ToPersist snap next) =>
      MkWorld (w_runner w) (<[l := At next]> (w_control w)) (w_bus w)
        (if r_store (w_runner w) then w_saved w ++ [snap] else w_saved w)
  | Some (At ToTransition) =>
      match start_running (w_runner w) l with
      | Some (r, snap) => goto w r l (ToPublish snap InHandler)
      | None => w
      end
  | Some (At InHandler) =>
      match finish (w_runner w) l (safeRun x).1 (safeRun x).2 now with
      | Some (r, snap) => goto w r l (ToPublish snap ToLeave)
      | None => w
      end
  | Some (At ToLeave) =>
      match leave (w_runner w) l with
      | Some r => MkWorld r (delete l (w_control w)) (w_bus w) (w_saved w)
      | None => w
      end
  | None => w
  end.

Lemma advance_rtc x now w l : rtc step w (advance x now w l).
Proof.
  unfold advance. destruct (w_control w !! l) as [[snap next|snap next|[]]|] eqn:Hc.
  - by apply rtc_once, step_publish.
  - by apply rtc_once, step_persist.
  - destruct (start_running _ _) as [[r snap]|] eqn:Hr; [|done].
    by eapply rtc_once, step_transition.
  - destruct (finish _ _ _ _ _) as [[r snap]|] eqn:Hr; [|done].
    by eapply rtc_once, (step_finish w l x now).
  - destruct (leave _ _) as [r|] eqn:Hr; [|done]. by eapply rtc_once, step_leave.
  - done.
Qed.

Lemma advance_n_rtc n x now w l : rtc step w (Nat.iter n (λ w, advance x now w l) w).
Proof. induction n as [|n IH]; [apply rtc_refl|]. etrans; [apply IH|apply advance_rtc]. Qed.
End demo.

(** One job of kind "scan" on a one-job runner, [n] steps after it was
    submitted. *)
Definition demo_registered : World Z unit :=
  MkWorld (Register (New 1 0 false) "scan" (Some tt)).1 ∅ [] [].
Definition demo_submitted : World Z unit :=
  goto demo_registered (SubmitFor (w_runner demo_registered) "a" "" "scan").1 0
    (ToPublish (new_job "a" "" "scan") ToTransition).
Definition demo (n : nat) : World Z unit :=
  Nat.iter n (λ w, advance (Returned (Some 7) None) 5 w 0%nat) demo_submitted.

Lemma demo_reachable n : reachable 1 0 false (demo n).
Proof.
  unfold reachable. eapply rtc_l; [apply (step_register _ "scan" (Some tt))|].
  eapply rtc_l; [|apply advance_n_rtc].
  eapply (step_submit _ "a" "" "scan"); [|reflexivity]. by intros (l & e & Hl & _).
Qed.

Example demo_finishes :
  w_bus (demo 9) = [new_job "a" "" "scan"; MkJob "a" "scan" "" StateRunning float_zero None "";
                    MkJob "a" "scan" "" StateSucceeded float_one (Some 7) ""] ∧
  r_active (w_runner (demo 9)) = 0 ∧ r_wg (w_runner (demo 9)) = 0.
Proof. vm_compute. done. Qed.

Lemma jobs_bounded_witness :
  let r := w_runner (demo 4) in
  r_active r = active_count (r_heap r) ∧ r_active r ≤ r_cap r ∧
  (∀ l1 l2 e1 e2, r_heap r !! l1 = Some e1 → r_heap r !! l2 = Some e2 →
     j_ID (e_job e1) = j_ID (e_job e2) → l1 = l2) ∧
  (∀ l e, r_heap r !! l = Some e → Terminal (j_State (e_job e)) = false →
     Get r (λ _, None) (j_ID (e_job e)) = Some (e_job e)).
Proof. exact (jobs_bounded 1 0 false (demo 4) (λ _, None) (demo_reachable 4)). Defined.

Definition demo_entry : entry Z :=
  Entry (MkJob "a" "scan" "" StateSucceeded float_one (Some 7) "") false false 5.

Lemma demo_entry_at : r_heap (w_runner (demo 7)) !! 0%nat = Some demo_entry.
Proof. vm_compute. reflexivity. Qed.

Lemma jobs_lifecycle_witness :
  let seen := states_of (j_ID (e_job demo_entry)) (w_bus (demo 7)) in
  seen `prefix_of` [StateQueued; StateRunning; j_State (e_job demo_entry)] ∧
  (length seen = 3%nat → Terminal (j_State (e_job demo_entry)) = true) ∧
  (w_control (demo 7) !! 0%nat = None → length seen = 3%nat).
Proof. exact (jobs_lifecycle 1 0 false (demo 7) 0 demo_entry (demo_reachable 7) demo_entry_at). Defined.

Definition demo_done_closed : World Z unit :=
  MkWorld (Close (w_runner (demo 7))) (w_control (demo 7)) (w_bus (demo 7)) (w_saved (demo 7)).

Lemma jobs_terminal_stable_witness :
  ∃ e', r_heap (w_runner demo_done_closed) !! 0%nat = Some e' ∧
    j_ID (e_job e') = j_ID (e_job demo_entry) ∧
    j_State (e_job e') = j_State (e_job demo_entry) ∧
    j_Result (e_job e') = j_Result (e_job demo_entry) ∧
    j_Err (e_job e') = j_Err (e_job demo_entry) ∧
    e_completedAt e' = e_completedAt demo_entry.
Proof.
  exact (jobs_terminal_stable 1 0 false (demo 7) demo_done_closed 0 demo_entry (demo_reachable 7)
           (step_close (demo 7)) demo_entry_at eq_refl).
Defined.

(** The runner closed while the job was still queued. *)
Definition demo_closed : World Z unit :=
  MkWorld (Close (w_runner (demo 1))) (w_control (demo 1)) (w_bus (demo 1)) (w_saved (demo 1)).

Lemma demo_closed_reachable : reachable 1 0 false demo_closed.
Proof. eapply rtc_r; [apply (demo_reachable 1)|apply step_close]. Qed.

Lemma Close_drains_witness :
  (∀ id clientID kind,
     SubmitFor (w_runner demo_closed) id clientID kind = (w_runner demo_closed, inr ErrClosed)) ∧
  (∀ l e, r_heap (w_runner demo_closed) !! l = Some e →
     Terminal (j_State (e_job e)) = true ∨ e_cancelled e = true) ∧
  (r_wg (w_runner demo_closed) = 0 → r_active (w_runner demo_closed) = 0 ∧
     ∀ l e, r_heap (w_runner demo_closed) !! l = Some e → Terminal (j_State (e_job e)) = true).
Proof. exact (Close_drains 1 0 false demo_closed demo_closed_reachable
                  ltac:(vm_compute; reflexivity)). Defined.

Lemma jobs_can_finish_witness :
  ∃ w' e', rtc step (demo 2) w' ∧ w_control w' !! 0%nat = None ∧
    r_heap (w_runner w') !! 0%nat = Some e' ∧ Terminal (j_State (e_job e')) = true ∧
    states_of (j_ID (e_job e')) (w_bus w') = [StateQueued; StateRunning; j_State (e_job e')].
Proof.
  exact (jobs_can_finish 1 0 false (demo 2) 0
           (Entry (new_job "a" "" "scan") false false time_zero) (demo_reachable 2)
           ltac:(vm_compute; reflexivity)).
Defined.

(** ** Progress *)

Lemma SFltb_leb_flip m e M E :
  SFltb (S754_finite false M E) (S754_finite false m e) = false →
  SFleb (S754_finite false m e) (S754_finite false M E) = true.
Proof.
  unfold SFltb, SFleb. cbn [SFcompare]. rewrite (Z.compare_antisym e E).
  destruct (e ?= E); cbn; try done.
  pose proof (Pos.compare_cont_antisym m M Eq) as Ha. cbn [CompOpp] in Ha. rewrite <-Ha.
  by destruct (Pos.compare_cont Eq m M).
Qed.

(** A progress report other than NaN is stored as a fraction between
    zero and one. *)
Theorem clamp_range p :
  p ≠ S754_nan → SFleb float_zero (clamp p) = true ∧ SFleb (clamp p) float_one = true.
Proof.
  intros Hp. unfold clamp. destruct (SFltb p float_zero) eqn:H0; [done|].
  destruct (SFltb float_one p) eqn:H1; [done|].
  destruct p as [[]|[]| |[] m e]; try done. split; [done|]. by apply SFltb_leb_flip.
Qed.

Lemma clamp_range_witness :
  SFleb float_zero (clamp (S754_infinity false)) = true ∧
  SFleb (clamp (S754_infinity false)) float_one = true.
Proof. exact (clamp_range (S754_infinity false) ltac:(discriminate)). Defined.

(** NaN passes through. *)
Example clamp_nan : clamp S754_nan = S754_nan.
Proof. reflexivity. Qed.
