(* ===== verification/Outbox.v ===== *)
(** * The outbox relay (src/internal/platform/outbox/outbox.go)

    [Drain] publishes pending rows and marks them afterwards, against the
    [Store] interface; [Deduper] is the window of identifiers that makes its
    at-least-once delivery idempotent. *)
From Stdlib Require Import ZArith Lia.
From stdpp Require Import base gmap sets list strings.
From S2P Require Import Prelude GoBase.

(** [Record] *)
Record OutboxRecord : Type := MkOutboxRecord {
  or_ID : string;
  or_Topic : string;
  or_Payload : bytes;
}.

(** [Message] *)
Record Message : Type := MkMessage {
  ms_ID : string;
  ms_EventTopic : string;
  ms_Payload : bytes;
}.

Definition message_of (r : OutboxRecord) : Message :=
  MkMessage (or_ID r) (or_Topic r) (or_Payload r).

(** Rows of [l] that are not in [ids]. *)
Definition without (ids : list string) (l : list OutboxRecord) : list OutboxRecord :=
  filter (λ r, or_ID r ∉ ids) l.

(** [Store]: a state [S] of the backing table with the port's operations.
    [pending] lists the undelivered rows in insert order. A failing call may
    have marked some of the rows it was given, and no other. *)
Class Store (S E : Type) : Type := {
  FetchUnpublished : S → nat → S * (list OutboxRecord + E);
  MarkPublished : S → list string → S * option E;
  DeletePublishedBefore : S → Z → S * (Z + E);
  pending : S → list OutboxRecord;
  fetch_law : ∀ s limit,
    pending (FetchUnpublished s limit).1 = pending s ∧
    ∀ recs, (FetchUnpublished s limit).2 = inl recs → recs = take limit (pending s);
  mark_law : ∀ s ids,
    let '(s', err) := MarkPublished s ids in
    match err with
    | None => pending s' = without ids (pending s)
    | Some _ => pending s' `sublist_of` pending s ∧
                without ids (pending s) `sublist_of` pending s'
    end;
  delete_law : ∀ s cutoff, pending (DeletePublishedBefore s cutoff).1 = pending s;
}.

Definition defaultBatchSize : Z := 100.
Definition defaultInterval : Z := 2 * second.

(** [Relay]: its tuning; the store and the bus are threaded through. *)
Record Relay : Type := MkRelay {
  rl_batch : Z;
  rl_interval : Z;
}.

(** [WithBatchSize], [WithInterval] and [NewRelay]. *)
Definition WithBatchSize (n : Z) (r : Relay) : Relay :=
  if 0 <? n then MkRelay n (rl_interval r) else r.
Definition WithInterval (d : Z) (r : Relay) : Relay :=
  if 0 <? d then MkRelay (rl_batch r) d else r.
Definition NewRelay (opts : list (Relay → Relay)) : Relay :=
  foldl (λ r opt, opt r) (MkRelay defaultBatchSize defaultInterval) opts.

Section relay.
Context {S E : Type} `{!Store S E}.

(** [Relay.Drain]: the store, what was published, the count and error. *)
Definition Drain (r : Relay) (s : S) : S * list Message * Z * option E :=
  let '(s, recs) := FetchUnpublished s (Z.to_nat (rl_batch r)) in
  match recs with
  | inr err => (s, [], 0, Some err)
  | inl recs =>
      if len recs =? 0 then (s, [], 0, None)
      else
        let published := map message_of recs in
        let '(s, err) := MarkPublished s (map or_ID recs) in
        (s, published, len recs, err)
  end.

(** [Relay.Cleanup] at [now]. *)
Definition Cleanup (s : S) (now retention : Z) : S * Z * option E :=
  let '(s, n) := DeletePublishedBefore s (time_add now (- retention)) in
  match n with
  | inr err => (s, 0, Some err)
  | inl n => (s, n, None)
  end.

(** The drains of [Run] in one go: the initial one and [n] ticks; an
    error is logged and the loop goes on. *)
Fixpoint Run (r : Relay) (s : S) (n : nat) : S * list Message :=
  let '(s, published, _, _) := Drain r s in
  match n with
  | O => (s, published)
  | Datatypes.S n' => let '(s, more) := Run r s n' in (s, published ++ more)
  end.
End relay.

(** ** The deduplication window *)

(** [Deduper] *)
Record Deduper : Type := MkDeduper {
  dd_capacity : Z;
  dd_seen : gset string;
  dd_order : list string;
}.

Definition NewDeduper (capacity : Z) : Deduper :=
  MkDeduper (if capacity <=? 0 then 1 else capacity) ∅ [].

(** [Deduper.Seen]; [d.order[0]] panics on an empty list. *)
Definition Seen (d : Deduper) (id : string) : option (Deduper * bool) :=
  if decide (id ∈ dd_seen d) then Some (d, true)
  else
    '(seen, order) ←
      (if dd_capacity d <=? len (dd_order d) then
         oldest ← index (dd_order d) 0;
         order ← slice_from (dd_order d) 1;
         Some (dd_seen d ∖ {[ oldest ]}, order)
       else Some (dd_seen d, dd_order d));
    Some (MkDeduper (dd_capacity d) ({[ id ]} ∪ seen) (order ++ [id]), false).

(** [Dedupe] over a sequence of messages: those the handler gets. *)
Fixpoint Dedupe (d : Deduper) (l : list Message) : option (Deduper * list Message) :=
  match l with
  | [] => Some (d, [])
  | m :: l' =>
      '(d, seen) ← Seen d (ms_ID m);
      '(d, handled) ← Dedupe d l';
      Some (d, if seen : bool then handled else m :: handled)
  end.

(** ** At-least-once delivery *)
Section relay_facts.
Context {S E : Type} `{!Store S E}.
Implicit Types (s : S) (l : list OutboxRecord).

Lemma without_nil l : without [] l = l.
Proof.
  induction l as [|x l IH]; [done|]. unfold without in *.
  rewrite filter_cons_True by (intros []%elem_of_nil). by rewrite IH.
Qed.

Lemma elem_of_without ids l rec : rec ∈ without ids l ↔ or_ID rec ∉ ids ∧ rec ∈ l.
Proof. unfold without. by rewrite list_elem_of_filter. Qed.

Lemma without_fresh id ids l :
  id ∉ or_ID <$> l → without (id :: ids) l = without ids l.
Proof.
  induction l as [|y l IH]; intros Hid; [done|]. cbn [fmap list_fmap] in Hid.
  rewrite not_elem_of_cons in Hid. destruct Hid as [Hne Hid]. unfold without in *.
  destruct (decide (or_ID y ∈ ids)).
  - rewrite !filter_cons_False by (rewrite ?elem_of_cons; tauto). by apply IH.
  - rewrite !filter_cons_True by (rewrite ?elem_of_cons; naive_solver). by rewrite IH.
Qed.

(** Identifiers are the table's key, so marking a batch marks just it. *)
Lemma without_take n l :
  NoDup (or_ID <$> l) → without (or_ID <$> take n l) l = drop n l.
Proof.
  revert n. induction l as [|x l IH]; intros n Hd; [by destruct n|].
  destruct n as [|n]; [apply without_nil|].
  apply NoDup_cons in Hd as [Hx Hd]. cbn [take drop fmap list_fmap]. unfold without.
  rewrite filter_cons_False by (intros Hn; apply Hn; by left).
  rewrite <-(IH n Hd). by apply without_fresh.
Qed.

Lemma drained_kept k l rec :
  NoDup (or_ID <$> l) → rec ∈ l →
  rec ∈ take k l ∨ rec ∈ without (or_ID <$> take k l) l.
Proof.
  intros Hd Hin. rewrite without_take by done. rewrite <-(take_drop k l) in Hin.
  by apply elem_of_app in Hin.
Qed.

(** One drain, for any outcome of the store's calls. *)
Lemma Drain_cases (r : Relay) s :
  NoDup (or_ID <$> pending s) →
  let batch := take (Z.to_nat (rl_batch r)) (pending s) in
  let '(s', published, n, err) := Drain r s in
  n = len published ∧
  (∀ rec, rec ∈ pending s → message_of rec ∈ published ∨ rec ∈ pending s') ∧
  (published = [] ∨ published = map message_of batch) ∧
  (err = None → published = map message_of batch ∧
     pending s' = drop (Z.to_nat (rl_batch r)) (pending s)).
Proof.
  intros Hd. cbv zeta. unfold Drain. destruct (fetch_law s (Z.to_nat (rl_batch r))) as [Hp Hf].
  destruct (FetchUnpublished s _) as [s1 recs]. simpl in Hp, Hf.
  destruct recs as [recs|err]; [|by rewrite Hp; split_and!; [..|left|]; auto].
  specialize (Hf recs eq_refl). set (batch := take _ _) in *. subst recs.
  assert (pending s = batch ++ drop (Z.to_nat (rl_batch r)) (pending s)) as Hsplit
    by (symmetry; apply take_drop).
  destruct (Z.eqb_spec (len batch) 0) as [Hz|Hz].
  { assert (batch = []) as Hb by (destruct batch; [done|rewrite len_cons in Hz;
      pose proof (len_nonneg batch); lia]).
    rewrite Hb in *. rewrite Hp. split_and!; auto. }
  pose proof (mark_law s1 (map or_ID batch)) as Hm.
  destruct (MarkPublished s1 (map or_ID batch)) as [s2 err]. rewrite Hp in Hm.
  assert (without (map or_ID batch) (pending s) = drop (Z.to_nat (rl_batch r)) (pending s)) as Hw
    by (by apply without_take).
  split_and!.
  - unfold len. by rewrite length_map.
  - intros rec Hin. rewrite Hsplit in Hin. apply elem_of_app in Hin as [Hin|Hin].
    + left. by apply (list_elem_of_fmap_2 message_of).
    + right. rewrite <-Hw in Hin. destruct err; [|by rewrite Hm].
      destruct Hm as [_ Hsub]. by eapply elem_of_sublist.
  - by right.
  - intros ->. by rewrite Hm.
Qed.

(** Every pending row is, after a drain, published by it or still
    pending, whatever the store's calls return: no row is lost. What is
    published is the head of the backlog in insert order, at most a batch,
    one message per row; after a drain without error exactly the published
    rows have left the backlog. *)
Theorem Drain_spec (r : Relay) s :
  NoDup (or_ID <$> pending s) →
  let batch := take (Z.to_nat (rl_batch r)) (pending s) in
  let '(s', published, n, err) := Drain r s in
  n = len published ∧
  (∀ rec, rec ∈ pending s → message_of rec ∈ published ∨ rec ∈ pending s') ∧
  (published = [] ∨ published = map message_of batch) ∧
  (err = None → published = map message_of batch ∧
     pending s' = drop (Z.to_nat (rl_batch r)) (pending s)).
Proof. exact (Drain_cases r s). Qed.

(** Over a store that does not fail, the relay delivers the whole
    backlog: enough polls publish every pending row exactly once, in
    insert order, and leave nothing pending. *)
Theorem Run_delivers (r : Relay) s n :
  NoDup (or_ID <$> pending s) → 0 < rl_batch r →
  (∀ s k, ∃ recs, (FetchUnpublished s k).2 = inl recs) →
  (∀ s ids, (MarkPublished s ids).2 = None) →
  len (pending s) ≤ (Z.of_nat n + 1) * rl_batch r →
  (Run r s n).2 = map message_of (pending s) ∧ pending (Run r s n).1 = [].
Proof.
  intros Hd Hb Hfetch Hmark. revert s Hd. induction n as [|n IH]; intros s Hd Hl; cbn [Run];
    pose proof (Drain_cases r s Hd) as Hs;
    assert ((Drain r s).2 = None) as Hnone.
  1,3: unfold Drain; destruct (Hfetch s (Z.to_nat (rl_batch r))) as [recs Hr];
    destruct (FetchUnpublished s _) as [s1 x]; simpl in Hr; subst x;
    destruct (_ =? 0); [done|]; pose proof (Hmark s1 (map or_ID recs)) as Hm;
    by destruct (MarkPublished s1 _).
  - destruct (Drain r s) as [[[s1 pub] k] err]. simpl in Hnone. subst err.
    destruct Hs as (_ & _ & _ & Hs). destruct (Hs eq_refl) as [-> Hrest]. simpl.
    unfold len in Hl. rewrite Hrest. rewrite take_ge, drop_ge by lia. done.
  - destruct (Drain r s) as [[[s1 pub] k] err]. simpl in Hnone. subst err.
    destruct Hs as (_ & _ & _ & Hs). destruct (Hs eq_refl) as [-> Hrest].
    destruct (IH s1) as [Hpub Hpend].
    + rewrite Hrest. rewrite <-(take_drop (Z.to_nat (rl_batch r)) (pending s)), fmap_app in Hd.
      apply NoDup_app in Hd. tauto.
    + rewrite Hrest, len_drop. lia.
    + destruct (Run r s1 n) as [s2 more]. simpl in *. split; [|done].
      rewrite Hpub, Hrest, <-map_app, take_drop. done.
Qed.
End relay_facts.

(** An in-memory table: rows with their delivery mark, and the calls that
    will fail, [true] first. *)
Record MemStore : Type := MkMemStore {
  mem_rows : list (OutboxRecord * bool);
  mem_faults : list bool;
}.

Definition mem_pending (rows : list (OutboxRecord * bool)) : list OutboxRecord :=
  (filter (λ q, q.2 = false) rows).*1.

Definition mem_fetch (s : MemStore) (limit : nat) : MemStore * (list OutboxRecord + unit) :=
  let s' := MkMemStore (mem_rows s) (tail (mem_faults s)) in
  (s', if hd false (mem_faults s) then inr tt else inl (take limit (mem_pending (mem_rows s)))).

Definition mem_mark (s : MemStore) (ids : list string) : MemStore * option unit :=
  if hd false (mem_faults s) then (MkMemStore (mem_rows s) (tail (mem_faults s)), Some tt)
  else (MkMemStore (map (λ q, (q.1, q.2 || bool_decide (or_ID q.1 ∈ ids))) (mem_rows s))
          (tail (mem_faults s)), None).

Lemma mem_pending_mark ids rows :
  mem_pending (map (λ q, (q.1, q.2 || bool_decide (or_ID q.1 ∈ ids))) rows) =
  without ids (mem_pending rows).
Proof.
  unfold mem_pending, without. induction rows as [|[x d] rows IH]; [done|]. cbn [map].
  rewrite !filter_cons. cbn [fst snd]. destruct d; simpl; [done|].
  case_bool_decide as Hin; simpl.
  - rewrite filter_cons_False by naive_solver. exact IH.
  - rewrite filter_cons_True by done. f_equal. exact IH.
Qed.

#[export] Program Instance mem_store : Store MemStore unit := {|
  FetchUnpublished := mem_fetch;
  MarkPublished := mem_mark;
  DeletePublishedBefore := λ s _, (s, inl 0);
  pending := λ s, mem_pending (mem_rows s);
|}.
Next Obligation.
  intros s limit. simpl. split; [done|]. intros recs. unfold mem_fetch. simpl.
  destruct (hd false (mem_faults s)); [done|]. by intros [= <-].
Qed.
Next Obligation.
  intros s ids. unfold mem_mark. destruct (hd false _).
  - split; [done|]. apply sublist_filter.
  - apply mem_pending_mark.
Qed.
Next Obligation. done. Qed.

Definition demo_rows : list (OutboxRecord * bool) :=
  [(MkOutboxRecord "1" "job.done" [1], false); (MkOutboxRecord "2" "job.done" [2], false);
   (MkOutboxRecord "3" "alert" [3], false)].

Lemma Drain_spec_witness :
  let s := MkMemStore demo_rows [false; true] in
  let r := NewRelay [WithBatchSize 2] in
  let batch := take (Z.to_nat (rl_batch r)) (pending s) in
  let '(s', published, n, err) := Drain r s in
  n = len published ∧
  (∀ rec, rec ∈ pending s → message_of rec ∈ published ∨ rec ∈ pending s') ∧
  (published = [] ∨ published = map message_of batch) ∧
  (err = None → published = map message_of batch ∧
     pending s' = drop (Z.to_nat (rl_batch r)) (pending s)).
Proof.
  refine (Drain_spec (NewRelay [WithBatchSize 2]) (MkMemStore demo_rows [false; true]) _).
  vm_compute. repeat constructor; set_solver.
Defined.

Example drain_replays :
  let s := MkMemStore demo_rows [false; true] in
  map ms_ID (Run (NewRelay [WithBatchSize 2]) s 2).2 = ["1"; "2"; "1"; "2"; "3"].
Proof. vm_compute. reflexivity. Qed.

(** ** The deduplication window *)
Record dedup_ok (d : Deduper) : Prop := {
  do_capacity : 1 ≤ dd_capacity d;
  do_len : len (dd_order d) ≤ dd_capacity d;
  do_nodup : NoDup (dd_order d);
  do_seen : ∀ id, id ∈ dd_seen d ↔ id ∈ dd_order d;
}.

Lemma NewDeduper_ok capacity : dedup_ok (NewDeduper capacity).
Proof.
  split; simpl; [destruct (Z.leb_spec capacity 0); lia| |constructor|set_solver].
  unfold len. simpl. destruct (Z.leb_spec capacity 0); lia.
Qed.

(** The window after a first sight: the oldest goes when it is full. *)
Definition push (capacity : Z) (order : list string) (id : string) : list string :=
  (if capacity <=? len order then tail order else order) ++ [id].

(** [Seen] always returns, keeps the window consistent and within its
    capacity, answers whether the identifier is in the window, and otherwise
    records it, forgetting the one recorded longest ago when it is full. *)
Lemma Seen_spec d id :
  dedup_ok d →
  ∃ d', Seen d id = Some (d', bool_decide (id ∈ dd_order d)) ∧ dedup_ok d' ∧
    dd_capacity d' = dd_capacity d ∧
    dd_order d' = if decide (id ∈ dd_order d) then dd_order d
                  else push (dd_capacity d) (dd_order d) id.
Proof.
  intros Hok. pose proof Hok as [Hc Hl Hn Hs]. unfold Seen, push.
  destruct (decide (id ∈ dd_order d)) as [Hin|Hin].
  - rewrite decide_True by (by apply Hs). rewrite bool_decide_eq_true_2 by done. by exists d.
  - rewrite decide_False by (by rewrite Hs). rewrite bool_decide_eq_false_2 by done.
    destruct (Z.leb_spec (dd_capacity d) (len (dd_order d))) as [Hfull|Hroom].
    + destruct (dd_order d) as [|oldest order] eqn:Ho; [unfold len in Hfull; simpl in Hfull; lia|].
      change (index (oldest :: order) 0) with (Some oldest). cbn [mbind option_bind].
      pose proof (len_nonneg order). rewrite len_cons in *.
      rewrite slice_from_Some by (rewrite len_cons; lia).
      change (drop (Z.to_nat 1) (oldest :: order)) with order. cbn [mbind option_bind tail].
      apply NoDup_cons in Hn as [Ho1 Hn]. rewrite not_elem_of_cons in Hin.
      eexists. split_and!; [done| |done..]. split; simpl; [done| | |].
      * rewrite len_app. change (len [id]) with 1. lia.
      * apply NoDup_app. split_and!; [done|set_solver|apply NoDup_singleton].
      * intros x. specialize (Hs x). set_solver.
    + eexists. split_and!; [done| |done..]. split; simpl; [done| | |].
      * rewrite len_app. change (len [id]) with 1. lia.
      * apply NoDup_app. split_and!; [done|set_solver|apply NoDup_singleton].
      * intros x. specialize (Hs x). set_solver.
Qed.

Lemma Seen_spec_witness :
  ∃ d', Seen (NewDeduper 0) "7" = Some (d', false) ∧ dedup_ok d' ∧
    dd_capacity d' = 1 ∧ dd_order d' = ["7"].
Proof. exact (Seen_spec (NewDeduper 0) "7" (NewDeduper_ok 0)). Defined.

Definition ids_of (l : list string) : gset string := list_to_set l.

Lemma size_ids l : NoDup l → len l = Z.of_nat (size (ids_of l)).
Proof. intros. unfold len, ids_of. by rewrite size_list_to_set. Qed.

(** A window with room for every identifier to come never evicts. *)
Lemma wp_Dedupe l d :
  dedup_ok d → Z.of_nat (size (ids_of (dd_order d ++ (ms_ID <$> l)))) ≤ dd_capacity d →
  wp (Dedupe d l) (λ r, r.2 `sublist_of` l ∧ NoDup (ms_ID <$> r.2) ∧
    (∀ m, m ∈ l → ms_ID m ∈ dd_order d ∨ ms_ID m ∈ ms_ID <$> r.2) ∧
    (∀ x, x ∈ ms_ID <$> r.2 → x ∉ dd_order d)).
Proof.
  revert d. induction l as [|m l IH]; intros d Hok Hcap; cbn [Dedupe].
  { apply wp_some. simpl. split_and!; [done|constructor| |]; intros ? []%elem_of_nil. }
  destruct (Seen_spec d (ms_ID m) Hok) as (d' & -> & Hok' & Hc' & Ho'). cbn [mbind option_bind].
  case_bool_decide as Hin.
  - rewrite decide_True in Ho' by done. eapply wp_bind_spec.
    { apply (IH d' Hok'). rewrite Ho', Hc'. etrans; [|exact Hcap].
      apply inj_le, subseteq_size. unfold ids_of. set_solver. }
    intros [d'' handled] (Hs & Hn & Hl & Hnew). simpl in *. rewrite Ho' in *.
    split_and!; [by apply sublist_cons|done| |done].
    intros m' [->|Hm']%elem_of_cons; [by left|by apply Hl].
  - rewrite decide_False in Ho' by done.
    assert (dd_order d' = dd_order d ++ [ms_ID m]) as Ho.
    { rewrite Ho'. unfold push. destruct (Z.leb_spec (dd_capacity d) (len (dd_order d))); [|done].
      exfalso. rewrite (size_ids _ (do_nodup _ Hok)) in *.
      enough (size (ids_of (dd_order d)) < size (ids_of (dd_order d ++ (ms_ID <$> m :: l))))%nat by lia.
      apply subset_size. unfold ids_of. set_solver. }
    eapply wp_bind_spec.
    { apply (IH d' Hok'). rewrite Ho, Hc'. etrans; [|exact Hcap].
      apply inj_le, subseteq_size. unfold ids_of. set_solver. }
    intros [d'' handled] (Hs & Hn & Hl & Hnew). simpl in *. rewrite Ho in *.
    split_and!; [by apply sublist_skip| | |].
    + apply NoDup_cons. split; [|done]. intros Hm%Hnew. set_solver.
    + intros m' [->|Hm']%elem_of_cons; [right; by left|].
      destruct (Hl m' Hm') as [Hx|Hx]; [|right; by right].
      apply elem_of_app in Hx as [?|Hx%list_elem_of_singleton]; [by left|].
      right. rewrite Hx. by left.
    + intros x [->|Hx]%elem_of_cons; [done|]. apply Hnew in Hx. set_solver.
Qed.

(** Over messages with no more distinct identifiers than its capacity, a
    deduplicated handler gets each identifier exactly once, at its first
    occurrence, however often the relay redelivers it. *)
Theorem Dedupe_exactly_once capacity l :
  Z.of_nat (size (ids_of (ms_ID <$> l))) ≤ capacity →
  ∃ d handled, Dedupe (NewDeduper capacity) l = Some (d, handled) ∧
    handled `sublist_of` l ∧ NoDup (ms_ID <$> handled) ∧
    ∀ m, m ∈ l → ms_ID m ∈ ms_ID <$> handled.
Proof.
  intros Hcap. destruct (wp_elim _ _ (wp_Dedupe l (NewDeduper capacity) (NewDeduper_ok _)
    ltac:(simpl; destruct (Z.leb_spec capacity 0); lia))) as ([d handled] & -> & ? & ? & Hin & _).
  exists d, handled. split_and!; try done. intros m Hm. by destruct (Hin m Hm) as [[]%elem_of_nil|].
Qed.

Definition demo_messages : list Message := map (λ id, MkMessage id "t" []) ["1"; "2"; "1"; "3"; "2"].

Lemma Dedupe_exactly_once_witness :
  ∃ d handled, Dedupe (NewDeduper 3) demo_messages = Some (d, handled) ∧
    handled `sublist_of` demo_messages ∧ NoDup (ms_ID <$> handled) ∧
    ∀ m, m ∈ demo_messages → ms_ID m ∈ ms_ID <$> handled.
Proof. refine (Dedupe_exactly_once 3 demo_messages _). vm_compute. discriminate. Defined.

(** The window is ordered by first sight: seeing an identifier again does not
    keep it, so "a", seen more recently than "b", is the one forgotten. *)
Example Seen_first_sight :
  match Dedupe (NewDeduper 2) (map (λ id, MkMessage id "t" []) ["a"; "b"; "a"; "c"; "a"]) with
  | Some (d, handled) => map ms_ID handled = ["a"; "b"; "c"; "a"] ∧ dd_order d = ["c"; "a"]
  | None => False
  end.
Proof. vm_compute. done. Qed.

(** A table whose calls do not fail. *)
#[export] Program Instance reliable_store : Store (list (OutboxRecord * bool)) unit | 10 := {|
  FetchUnpublished := λ s limit, (s, inl (take limit (mem_pending s)));
  MarkPublished := λ s ids, (map (λ q, (q.1, q.2 || bool_decide (or_ID q.1 ∈ ids))) s, None);
  DeletePublishedBefore := λ s _, (s, inl 0);
  pending := mem_pending;
|}.
Next Obligation. intros s limit. simpl. split; [done|]. by intros recs [= <-]. Qed.
Next Obligation. intros s ids. apply mem_pending_mark. Qed.
Next Obligation. done. Qed.

Lemma Run_delivers_witness :
  (Run (NewRelay [WithBatchSize 2]) demo_rows 1).2 = map message_of (pending demo_rows) ∧
  pending (Run (NewRelay [WithBatchSize 2]) demo_rows 1).1 = [].
Proof.
  refine (Run_delivers (NewRelay [WithBatchSize 2]) demo_rows 1 _ _ _ _ _).
  - vm_compute. repeat constructor; set_solver.
  - vm_compute. reflexivity.
  - intros s k. by eexists.
  - done.
  - vm_compute. discriminate.
Defined.
