(* ===== verification/Escalation.v ===== *)
(** * Alert escalation ladders (src/internal/alerts/escalation/escalation.go)

    What a ladder owes an unacknowledged alert at an instant, and the pass
    that sends it, recording each escalation in the alert store with a
    compare-and-set before it is sent. *)
From Stdlib Require Import ZArith Lia.
From stdpp Require Import base gmap sets list strings sorting.
From S2P Require Import Prelude GoBase.

Definition MinDelay : Z := minute.
Definition MaxStages : Z := 5.

(** [alerts.Channel]: the transports a ladder may name, or any other text. *)
Inductive Channel : Type :=
| ChannelWebhook
| ChannelEmail
| ChannelSyslog
| ChannelTrap
| ChannelOther (name : string).

(** [Stage] and [Ladder] *)
Record Stage : Type := MkStage {
  st_After : Z;
  st_Channels : list Channel;
}.

Record Ladder : Type := MkLadder {
  ld_Rule : string;
  ld_Stages : list Stage;
  ld_Repeat : Z;
}.

(** Why [Validate] refuses a ladder; each is [ErrInvalidLadder] in the code. *)
Inductive ladder_error : Type :=
| NoRule
| StageCount
| TooSoon (stage : Z)
| NotAfter (stage : Z)
| NoChannel (stage : Z)
| UnknownChannel (stage : Z)
| BadRepeat.

Definition known_channel (c : Channel) : bool :=
  match c with ChannelOther _ => false | _ => true end.

(** The stage loop of [Validate], at index [i]. *)
Fixpoint validate_stages (i previous : Z) (l : list Stage) : option ladder_error :=
  match l with
  | [] => None
  | s :: l' =>
      if st_After s <? MinDelay then Some (TooSoon (i + 1))
      else if st_After s <=? previous then Some (NotAfter (i + 1))
      else if len (st_Channels s) =? 0 then Some (NoChannel (i + 1))
      else if forallb known_channel (st_Channels s) then validate_stages (i + 1) (st_After s) l'
      else Some (UnknownChannel (i + 1))
  end.

(** [Ladder.Validate] *)
Definition Validate (l : Ladder) : option ladder_error :=
  if bool_decide (ld_Rule l = "") then Some NoRule
  else if (len (ld_Stages l) =? 0) || (MaxStages <? len (ld_Stages l)) then Some StageCount
  else match validate_stages 0 0 (ld_Stages l) with
       | Some err => Some err
       | None =>
           if negb (ld_Repeat l =? 0) && (ld_Repeat l <? MinDelay) then Some BadRepeat else None
       end.

(** The fields of [alerts.Alert] the escalator reads and writes. *)
Record Alert : Type := MkAlert {
  al_ID : Z;
  al_Rule : string;
  al_Acknowledged : bool;
  al_Resolved : bool;
  al_CreatedAt : Z;
  al_EscalationStage : Z;
  al_EscalatedAt : option Z;
}.

Definition open_alert (a : Alert) : bool := negb (al_Acknowledged a || al_Resolved a).

(** The alert after an escalation to [stage] sent [at_]. *)
Definition escalated (a : Alert) (stage at_ : Z) : Alert :=
  MkAlert (al_ID a) (al_Rule a) (al_Acknowledged a) (al_Resolved a) (al_CreatedAt a) stage (Some at_).

(** [Step] *)
Record Step : Type := MkStep {
  sp_Stage : Z;
  sp_Channels : list Channel;
}.

(** The loop of [Due]: the last stage whose time has come, from index [i]. *)
Fixpoint reached_stage (created now i reached : Z) (l : list Stage) : Z :=
  match l with
  | [] => reached
  | s :: l' =>
      reached_stage created now (i + 1)
        (if negb (time_before now (time_add created (st_After s))) then i + 1 else reached) l'
  end.

(** [Ladder.Due] *)
Definition Due (l : Ladder) (a : Alert) (now : Z) : option (option Step) :=
  if al_Acknowledged a || al_Resolved a || (len (ld_Stages l) =? 0) then Some None
  else
    let reached := reached_stage (al_CreatedAt a) now 0 0 (ld_Stages l) in
    if al_EscalationStage a <? reached then
      s ← index (ld_Stages l) (reached - 1); Some (Some (MkStep reached (st_Channels s)))
    else
      let last_ := len (ld_Stages l) in
      let repeat_due := match al_EscalatedAt a with
                        | Some at_ => negb (time_before now (time_add at_ (ld_Repeat l)))
                        | None => false
                        end in
      if (0 <? ld_Repeat l) && (last_ <=? al_EscalationStage a) && repeat_due
      then s ← index (ld_Stages l) (last_ - 1); Some (Some (MkStep last_ (st_Channels s)))
      else Some None.

(** [Store]: a state [S] with the alerts it holds. [ListEscalating] returns
    stored open alerts of the given rules; [AdvanceEscalation] moves an alert
    only while it is open and still at the stage and time the caller read. *)
Class Store (S E : Type) : Type := {
  ListEscalating : S → list string → S * (list Alert + E);
  AdvanceEscalation : S → Z → Z → option Z → Z → Z → S * (bool + E);
  stored : S → Z → option Alert;
  list_law : ∀ s rules,
    let '(s', r) := ListEscalating s rules in
    stored s' = stored s ∧
    match r with
    | inl l => NoDup (al_ID <$> l) ∧
        ∀ a, a ∈ l → stored s (al_ID a) = Some a ∧ open_alert a = true ∧ al_Rule a ∈ rules
    | inr _ => True
    end;
  advance_law : ∀ s id fromStage fromAt stage at_,
    let '(s', r) := AdvanceEscalation s id fromStage fromAt stage at_ in
    match r with
    | inl true => ∃ a, stored s id = Some a ∧ open_alert a = true ∧
        al_EscalationStage a = fromStage ∧ al_EscalatedAt a = fromAt ∧
        ∀ id', stored s' id' = if decide (id' = id) then Some (escalated a stage at_)
                               else stored s id'
    | _ => stored s' = stored s
    end;
}.

(** What [Sender.Escalate] is given. *)
Record Sent : Type := MkSent {
  sn_alert : Alert;
  sn_channels : list Channel;
}.

Section tick.
Context {S E : Type} `{!Store S E} `{!RangeOrder string}.

Definition by_rule (ladders : list Ladder) : gmap string Ladder :=
  foldl (λ m l, <[ld_Rule l := l]> m) ∅ ladders.

(** [byRule[a.Rule]]: the zero ladder when the rule has none. *)
Definition ladder_for (m : gmap string Ladder) (rule : string) : Ladder :=
  default (MkLadder "" [] 0) (m !! rule).

(** The loop of [Tick] over the open alerts. *)
Fixpoint tick_alerts (m : gmap string Ladder) (now : Z) (s : S) (l : list Alert)
    : option (S * list Sent) :=
  match l with
  | [] => Some (s, [])
  | a :: l' =>
      due ← Due (ladder_for m (al_Rule a)) a now;
      match due with
      | None => tick_alerts m now s l'
      | Some step =>
          let '(s, moved) := AdvanceEscalation s (al_ID a) (al_EscalationStage a)
                               (al_EscalatedAt a) (sp_Stage step) now in
          match moved with
          | inl true =>
              '(s, sent) ← tick_alerts m now s l';
              Some (s, MkSent (escalated a (sp_Stage step) now) (sp_Channels step) :: sent)
          | _ => tick_alerts m now s l'
          end
      end
  end.

(** [Tick] with the clock at [clock]: what was sent, and its error. *)
Definition Tick (ladders : list Ladder) (clock : Z) (s : S) : option (S * list Sent * option E) :=
  let m := by_rule ladders in
  if Z.of_nat (size m) =? 0 then Some (s, [], None)
  else
    let rules := merge_sort str_le (range m).*1 in
    let '(s, open_) := ListEscalating s rules in
    match open_ with
    | inr err => Some (s, [], Some err)
    | inl open_ =>
        let now := clock - (clock - time_zero) mod second in
        '(s, sent) ← tick_alerts m now s open_;
        Some (s, sent, None)
    end.
End tick.

(** ** Validation *)

Definition stage_ok (s : Stage) : Prop :=
  MinDelay ≤ st_After s ∧ st_Channels s ≠ [] ∧ Forall (λ c, known_channel c = true) (st_Channels s).

Definition stage_lt (s t : Stage) : Prop := st_After s < st_After t.

(** What a ladder that may run looks like. *)
Definition ladder_ok (l : Ladder) : Prop :=
  ld_Rule l ≠ "" ∧ 1 ≤ len (ld_Stages l) ≤ MaxStages ∧ Forall stage_ok (ld_Stages l) ∧
  StronglySorted stage_lt (ld_Stages l) ∧ (ld_Repeat l = 0 ∨ MinDelay ≤ ld_Repeat l).

Lemma validate_stages_spec i p l :
  validate_stages i p l = None ↔
  Forall stage_ok l ∧ StronglySorted stage_lt l ∧ Forall (λ s, p < st_After s) l.
Proof.
  revert i p. induction l as [|s l IH]; intros i p; cbn [validate_stages].
  { split; [|done]. intros _. split_and!; constructor. }
  pose proof (len_nonneg (st_Channels s)).
  assert (st_Channels s = [] ↔ len (st_Channels s) = 0) as Hnil.
  { destruct (st_Channels s); [done|]. rewrite len_cons. split; [done|].
    pose proof (len_nonneg l0). lia. }
  assert (forallb known_channel (st_Channels s) = true ↔
          Forall (λ c, known_channel c = true) (st_Channels s)) as Hkc.
  { rewrite forallb_forall, list.Forall_forall. by setoid_rewrite list_elem_of_In. }
  rewrite !list.Forall_cons. unfold stage_ok at 1.
  destruct (Z.ltb_spec (st_After s) MinDelay); [split; [done|lia]|].
  destruct (Z.leb_spec (st_After s) p); [split; [done|lia]|].
  destruct (Z.eqb_spec (len (st_Channels s)) 0); [split; [done|tauto]|].
  destruct (forallb _ _); [|split; [done|naive_solver]].
  rewrite IH. split.
  - intros (Hok & Hs & Hf). split_and!; try tauto; try lia.
    + constructor; [done|]. exact Hf.
    + eapply Forall_impl; [exact Hf|]. simpl. lia.
  - intros ((_ & Hok) & Hs & _). apply StronglySorted_inv in Hs as [? Hf]. by split_and!.
Qed.

(** [Validate] accepts exactly the ladders with a rule, one to five
    stages, each at least a minute after the alert, later than the one
    before and naming known channels, and no repeat shorter than a minute. *)
Theorem Validate_spec l : Validate l = None ↔ ladder_ok l.
Proof.
  unfold Validate, ladder_ok. pose proof (len_nonneg (ld_Stages l)).
  case_bool_decide; [naive_solver|].
  destruct ((len (ld_Stages l) =? 0) || (MaxStages <? len (ld_Stages l))) eqn:E.
  { split; [done|]. intros (_ & ? & _). bool_lia. }
  pose proof (validate_stages_spec 0 0 (ld_Stages l)) as Hv.
  destruct (validate_stages 0 0 (ld_Stages l)) as [err|].
  { split; [done|]. intros (_ & _ & Hok & Hs & _). apply Hv. split_and!; [done..|].
    eapply Forall_impl; [exact Hok|]. intros s [? _]. unfold MinDelay, minute, second in *. lia. }
  destruct Hv as [Hv _]. destruct (Hv eq_refl) as (? & ? & _).
  destruct (negb (ld_Repeat l =? 0) && (ld_Repeat l <? MinDelay)) eqn:E2.
  - split; [done|]. intros (_ & _ & _ & _ & ?). bool_lia.
  - split; [|done]. intros _. split_and!; try done; bool_lia.
Qed.

(** ** What is due *)

Definition stage_due (created now : Z) (s : Stage) : Prop := created + st_After s ≤ now.

Lemma reached_stage_spec created now l : ∀ i r0,
  let r := reached_stage created now i r0 l in
  (r = r0 ∧ Forall (λ s, ¬ stage_due created now s) l) ∨
  (∃ k s, l !! k = Some s ∧ r = i + Z.of_nat k + 1 ∧ stage_due created now s ∧
     ∀ k' s', (k < k')%nat → l !! k' = Some s' → ¬ stage_due created now s').
Proof.
  induction l as [|s l IH]; intros i r0; cbn [reached_stage]; [left; split; [done|constructor]|].
  change (time_before now (time_add created (st_After s))) with (now <? created + st_After s).
  destruct (IH (i + 1) (if negb (now <? created + st_After s) then i + 1 else r0))
    as [[-> Hf]|(k & t & Hk & -> & Hd & Hlater)].
  - destruct (Z.ltb_spec now (created + st_After s)) as [Hlt|Hge]; simpl.
    + left. split; [done|]. constructor; [unfold stage_due; lia|done].
    + right. exists 0%nat, s. split_and!; [done|by rewrite Z.add_0_r|done|]. intros [|k'] s' ? Hs'; [lia|].
      simpl in Hs'. rewrite list.Forall_lookup in Hf. by eapply Hf.
  - right. exists (S k), t. split_and!; [done|lia|done|]. intros [|k'] s' ? Hs'; [lia|].
    eapply (Hlater k'); [lia|done].
Qed.

(** The stage of a ladder an alert has reached, from 1; 0 before the first. *)
Definition is_reached (l : Ladder) (a : Alert) (now n : Z) : Prop :=
  0 ≤ n ≤ len (ld_Stages l) ∧
  (∀ s, index (ld_Stages l) (n - 1) = Some s → stage_due (al_CreatedAt a) now s) ∧
  (∀ j s, n ≤ j → index (ld_Stages l) j = Some s → ¬ stage_due (al_CreatedAt a) now s).

Lemma index_nat {A} (l : list A) k : index l (Z.of_nat k) = l !! k.
Proof. unfold index. rewrite (proj2 (Z.leb_le _ _)) by lia. by rewrite Nat2Z.id. Qed.

Lemma reached_is_reached l a now :
  is_reached l a now (reached_stage (al_CreatedAt a) now 0 0 (ld_Stages l)).
Proof.
  assert (∀ j s, index (ld_Stages l) j = Some s → ∃ k, j = Z.of_nat k ∧ ld_Stages l !! k = Some s)
    as Hidx.
  { intros j s Hs. unfold index in Hs. destruct (Z.leb_spec 0 j); [|done].
    exists (Z.to_nat j). split; [lia|done]. }
  pose proof (len_nonneg (ld_Stages l)).
  destruct (reached_stage_spec (al_CreatedAt a) now (ld_Stages l) 0 0)
    as [[-> Hf]|(k & s & Hk & -> & Hd & Hlater)].
  - split_and!; [lia|lia|intros s Hs; by destruct (Hidx _ _ Hs) as (k & ? & _); lia|].
    intros j s _ Hs. destruct (Hidx _ _ Hs) as (k & _ & Hk).
    rewrite list.Forall_lookup in Hf. by eapply Hf.
  - apply lookup_lt_Some in Hk as Hlt. split_and!; [lia|unfold len; lia| |].
    + intros s' Hs'. replace (0 + Z.of_nat k + 1 - 1) with (Z.of_nat k) in Hs' by lia.
      rewrite index_nat in Hs'. by simplify_eq.
    + intros j s' Hj Hs'. destruct (Hidx _ _ Hs') as (k' & -> & Hk').
      eapply (Hlater k'); [lia|done].
Qed.

(** What [Due] returns, case by case. *)
Lemma Due_cases l a now :
  0 ≤ al_EscalationStage a →
  ∃ n r, is_reached l a now n ∧ Due l a now = Some r ∧
    match r with
    | Some step =>
        open_alert a = true ∧
        (∃ s, index (ld_Stages l) (sp_Stage step - 1) = Some s ∧ sp_Channels step = st_Channels s) ∧
        ((sp_Stage step = n ∧ al_EscalationStage a < n) ∨
         (sp_Stage step = len (ld_Stages l) ∧ 0 < ld_Repeat l ∧
          len (ld_Stages l) ≤ al_EscalationStage a ∧
          ∃ at_, al_EscalatedAt a = Some at_ ∧ at_ + ld_Repeat l ≤ now))
    | None =>
        open_alert a = false ∨ len (ld_Stages l) = 0 ∨
        (n ≤ al_EscalationStage a ∧
         (ld_Repeat l ≤ 0 ∨ al_EscalationStage a < len (ld_Stages l) ∨ al_EscalatedAt a = None ∨
          ∃ at_, al_EscalatedAt a = Some at_ ∧ now < at_ + ld_Repeat l))
    end.
Proof.
  intros Hstage. pose proof (reached_is_reached l a now) as Hn. unfold Due, open_alert.
  set (n := reached_stage _ _ _ _ _) in *. exists n. pose proof (len_nonneg (ld_Stages l)).
  assert (∀ j, 0 ≤ j < len (ld_Stages l) → ∃ s, index (ld_Stages l) j = Some s) as Hget.
  { intros j Hj. pose proof (wp_index (ld_Stages l) j (λ _, True)) as Hw.
    destruct (index (ld_Stages l) j) as [s|]; [eauto|]. exfalso. apply Hw; [lia..|done]. }
  destruct (al_Acknowledged a || al_Resolved a) eqn:Eo; simpl;
    [exists None; split_and!; [done..|]; by left|].
  destruct (Z.eqb_spec (len (ld_Stages l)) 0) as [Hz|Hz];
    [exists None; split_and!; [done..|]; right; by left|].
  pose proof Hn as (Hr & _ & _).
  destruct (Z.ltb_spec (al_EscalationStage a) n) as [Hlt|Hge].
  - destruct (Hget (n - 1)) as [s Hs]; [lia|]. rewrite Hs.
    eexists. split_and!; [done..|]. simpl. split_and!; [done|by exists s|by left].
  - destruct (al_EscalatedAt a) as [at_|] eqn:Ea.
    + unfold time_before, time_add.
      destruct ((0 <? ld_Repeat l) && (len (ld_Stages l) <=? al_EscalationStage a)
                && negb (now <? at_ + ld_Repeat l)) eqn:Er.
      * destruct (Hget (len (ld_Stages l) - 1)) as [s Hs]; [lia|]. rewrite Hs.
        eexists. split_and!; [done..|]. simpl. split_and!; [done|by exists s|]. right.
        split_and!; [done|bool_lia|bool_lia|]. exists at_. split; [done|bool_lia].
      * exists None. split_and!; [done..|]. right; right. split; [done|].
        destruct (Z.ltb_spec 0 (ld_Repeat l)); [|left; lia].
        destruct (Z.leb_spec (len (ld_Stages l)) (al_EscalationStage a)); [|right; left; lia].
        right; right; right. exists at_. split; [done|]. simpl in Er. bool_lia.
    + exists None. rewrite andb_false_r. split_and!; [done..|]. right; right. split; [done|].
      right; right; by left.
Qed.

(** [Due] returns for every ladder and alert, and owes an open alert at
    most one step: the last stage whose time has come when the alert has not
    been sent at it, earlier ones being skipped; else the last stage again
    once the repeat period has passed since it was last sent; an acknowledged
    or resolved alert is owed nothing. *)
Theorem Due_spec l a now :
  0 ≤ al_EscalationStage a →
  ∃ n r, is_reached l a now n ∧ Due l a now = Some r ∧
    match r with
    | Some step =>
        open_alert a = true ∧
        (∃ s, index (ld_Stages l) (sp_Stage step - 1) = Some s ∧ sp_Channels step = st_Channels s) ∧
        ((sp_Stage step = n ∧ al_EscalationStage a < n) ∨
         (sp_Stage step = len (ld_Stages l) ∧ 0 < ld_Repeat l ∧
          len (ld_Stages l) ≤ al_EscalationStage a ∧
          ∃ at_, al_EscalatedAt a = Some at_ ∧ at_ + ld_Repeat l ≤ now))
    | None =>
        open_alert a = false ∨ len (ld_Stages l) = 0 ∨
        (n ≤ al_EscalationStage a ∧
         (ld_Repeat l ≤ 0 ∨ al_EscalationStage a < len (ld_Stages l) ∨ al_EscalatedAt a = None ∨
          ∃ at_, al_EscalatedAt a = Some at_ ∧ now < at_ + ld_Repeat l))
    end.
Proof. exact (Due_cases l a now). Qed.

(** Once a step is recorded at the instant it was due, nothing more is
    due at that instant: two passes in one second do not send twice. *)
Lemma Due_idempotent l a now step :
  Due l a now = Some (Some step) → Due l (escalated a (sp_Stage step) now) now = Some None.
Proof.
  unfold Due. cbn [al_Acknowledged al_Resolved al_CreatedAt al_EscalationStage al_EscalatedAt escalated].
  destruct (_ || _ || _); [done|].
  destruct (reached_is_reached l a now) as (Hr & _ & _).
  set (n := reached_stage _ _ _ _ _) in *. unfold time_before, time_add.
  assert (∀ x, (0 <? ld_Repeat l) && x && negb (now <? now + ld_Repeat l) = false) as Hrep.
  { intros x. destruct (Z.ltb_spec 0 (ld_Repeat l)); [|done].
    rewrite (proj2 (Z.ltb_lt _ _)) by lia. by rewrite andb_false_r. }
  destruct (Z.ltb_spec (al_EscalationStage a) n).
  - destruct (index _ (n - 1)) as [s|]; [|done]. intros [= <-]. simpl.
    rewrite (proj2 (Z.ltb_ge n n)) by lia. by rewrite Hrep.
  - destruct (_ && _ && _); [|done]. destruct (index _ _) as [s|]; [|done]. intros [= <-]. simpl.
    rewrite (proj2 (Z.ltb_ge _ n)) by lia. by rewrite Hrep.
Qed.

Section tick_facts.
Context {S E : Type} `{!Store S E} `{!RangeOrder string}.

(** The stored alerts are filed under their identifiers and have been
    escalated no negative number of times. *)
Definition store_ok (s : S) : Prop :=
  ∀ id a, stored s id = Some a → al_ID a = id ∧ 0 ≤ al_EscalationStage a.

(** Why an alert was sent: it was stored open and due, and the store has
    recorded the escalation. *)
Definition sent_ok (m : gmap string Ladder) (now : Z) (s s' : S) (x : Sent) : Prop :=
  ∃ a step, stored s (al_ID a) = Some a ∧ open_alert a = true ∧
    Due (ladder_for m (al_Rule a)) a now = Some (Some step) ∧
    x = MkSent (escalated a (sp_Stage step) now) (sp_Channels step) ∧
    stored s' (al_ID a) = Some (sn_alert x) ∧ 0 ≤ sp_Stage step.

Definition sent_ids (l : list Sent) : list Z := al_ID ∘ sn_alert <$> l.

Lemma Due_returns l a now : 0 ≤ al_EscalationStage a → ∃ r, Due l a now = Some r ∧
  ∀ step, r = Some step → open_alert a = true ∧ 0 ≤ sp_Stage step.
Proof.
  intros Hs. destruct (Due_cases l a now Hs) as (n & r & (Hn & _) & Hd & Hr). exists r.
  split; [done|]. intros step ->. destruct Hr as (Ho & _ & [[-> _]|(-> & _)]); split; try done; [lia|].
  apply len_nonneg.
Qed.

Lemma wp_tick_alerts m now l s :
  NoDup (al_ID <$> l) →
  (∀ a, a ∈ l → stored s (al_ID a) = Some a ∧ 0 ≤ al_EscalationStage a) →
  wp (tick_alerts m now s l) (λ r,
    Forall (sent_ok m now s r.1) r.2 ∧ NoDup (sent_ids r.2) ∧
    (∀ id, id ∈ sent_ids r.2 → id ∈ al_ID <$> l) ∧
    (∀ id, id ∉ sent_ids r.2 → stored r.1 id = stored s id)).
Proof.
  revert s. induction l as [|a l IH]; intros s Hd Hl; cbn [tick_alerts].
  { apply wp_some. simpl. split_and!; [constructor|constructor|done|done]. }
  destruct (Hl a) as [Ha Hstage]; [by left|].
  cbn [fmap list_fmap] in Hd. apply NoDup_cons in Hd as [Hfresh Hd].
  destruct (Due_returns (ladder_for m (al_Rule a)) a now Hstage) as (due & Hdue & Hopen).
  rewrite Hdue. cbn [mbind option_bind].
  assert (∀ s', stored s' = stored s →
    wp (tick_alerts m now s' l) (λ r,
      Forall (sent_ok m now s r.1) r.2 ∧ NoDup (sent_ids r.2) ∧
      (∀ id, id ∈ sent_ids r.2 → id ∈ al_ID <$> a :: l) ∧
      (∀ id, id ∉ sent_ids r.2 → stored r.1 id = stored s id))) as Hskip.
  { intros s' Hs'. eapply wp_mono.
    { apply IH; [done|]. intros b Hb. rewrite Hs'. apply Hl. by right. }
    intros [s2 sent] (Hok & Hn & Hin & Hout). rewrite Hs' in Hout. split_and!; [|done| |done].
    - eapply Forall_impl; [exact Hok|]. intros x (b & step & Hb & Hrest). exists b, step.
      by rewrite <-Hs'.
    - intros id Hid. right. by apply Hin. }
  destruct due as [step|]; [|by apply Hskip]. destruct (Hopen step eq_refl) as [Hop Hst].
  pose proof (advance_law s (al_ID a) (al_EscalationStage a) (al_EscalatedAt a) (sp_Stage step) now)
    as Hadv.
  destruct (AdvanceEscalation s _ _ _ _ _) as [s1 [[]|err]]; [|by apply Hskip..].
  destruct Hadv as (a' & Ha' & _ & _ & _ & Hs1). rewrite Ha in Ha'. injection Ha' as <-.
  eapply wp_bind_spec.
  { apply (IH s1); [done|]. intros b Hb. rewrite Hs1, decide_False; [apply Hl; by right|].
    intros Heq. apply Hfresh. rewrite <-Heq. by apply list_elem_of_fmap_2. }
  intros [s2 sent] (Hok & Hn & Hin & Hout). simpl in Hok, Hn, Hin, Hout. apply wp_some. simpl.
  assert (al_ID a ∉ sent_ids sent) as Hna by (intros ?%Hin; done).
  split_and!.
  - constructor.
    + exists a, step. split_and!; try done. simpl. rewrite Hout by done. by rewrite Hs1, decide_True.
    + rewrite list.Forall_forall in Hok |- *. intros x Hx. destruct (Hok x Hx) as (b & st & Hb & Hrest).
      exists b, st. rewrite Hs1, decide_False in Hb; [done|]. intros Heq.
      destruct Hrest as (_ & _ & -> & _). apply Hna. rewrite <-Heq.
      by apply (list_elem_of_fmap_2 (al_ID ∘ sn_alert)) in Hx.
  - apply NoDup_cons. done.
  - intros id [->|Hid]%elem_of_cons; [by left|right; by apply Hin].
  - intros id. rewrite not_elem_of_cons. intros [Hne Hid]. rewrite Hout by done.
    by rewrite Hs1, decide_False.
Qed.

Definition truncate_second (clock : Z) : Z := clock - (clock - time_zero) mod second.

Lemma wp_Tick ladders clock s :
  store_ok s →
  wp (Tick ladders clock s) (λ r,
    Forall (sent_ok (by_rule ladders) (truncate_second clock) s r.1.1) r.1.2 ∧
    NoDup (sent_ids r.1.2) ∧
    (∀ id, id ∉ sent_ids r.1.2 → stored r.1.1 id = stored s id)).
Proof.
  intros Hs. unfold Tick. destruct (_ =? 0).
  { apply wp_some. simpl. split_and!; [constructor|constructor|done]. }
  pose proof (list_law s (merge_sort str_le (range (by_rule ladders)).*1)) as Hl.
  destruct (ListEscalating s _) as [s1 [open_|err]]; destruct Hl as [Hs1 Hl].
  2: { apply wp_some. simpl. split_and!; [constructor|constructor|]. by rewrite Hs1. }
  destruct Hl as [Hd Hl]. eapply wp_bind_spec.
  { apply wp_tick_alerts; [done|]. intros a Ha. rewrite Hs1. destruct (Hl a Ha) as (Hst & _).
    split; [done|]. by destruct (Hs _ _ Hst). }
  intros [s2 sent] (Hok & Hn & _ & Hout). apply wp_some. simpl in *. split_and!; [|done|].
  - eapply Forall_impl; [exact Hok|]. intros x (b & step & Hb & Hrest). exists b, step.
    by rewrite <-Hs1.
  - intros id Hid. rewrite Hout by done. by rewrite Hs1.
Qed.


(** A second pass in the same second, whatever state another writer's
    failures left, sends none of the alerts the first one sent. *)
Theorem Tick_no_resend ladders clock s s1 sent1 err1 s2 sent2 err2 :
  store_ok s →
  Tick ladders clock s = Some (s1, sent1, err1) →
  Tick ladders clock s1 = Some (s2, sent2, err2) →
  ∀ id, id ∈ sent_ids sent1 → id ∉ sent_ids sent2.
Proof.
  intros Hs H1 H2. pose proof (wp_Tick ladders clock s Hs) as Hw1. rewrite H1 in Hw1.
  destruct Hw1 as (Hok1 & _ & Hout1). cbn [fst snd] in Hok1, Hout1.
  rewrite list.Forall_forall in Hok1.
  assert (store_ok s1) as Hs1.
  { intros id a Ha. destruct (decide (id ∈ sent_ids sent1)) as [Hin|Hin].
    - apply list_elem_of_fmap in Hin as (x & -> & Hx).
      destruct (Hok1 x Hx) as (b & step & Hb & _ & _ & -> & Hst & ?). simpl in *.
      rewrite Hst in Ha. injection Ha as <-. done.
    - rewrite Hout1 in Ha by done. by apply Hs. }
  pose proof (wp_Tick ladders clock s1 Hs1) as Hw2. rewrite H2 in Hw2.
  destruct Hw2 as (Hok2 & _ & _). cbn [fst snd] in Hok2. rewrite list.Forall_forall in Hok2.
  intros id (x & -> & Hx)%list_elem_of_fmap (y & Heq & Hy)%list_elem_of_fmap.
  destruct (Hok1 x Hx) as (a & step & Ha & _ & Hdue & -> & Hst & _).
  destruct (Hok2 y Hy) as (b & step' & Hb & _ & Hdue' & -> & _ & _). simpl in *.
  rewrite <-Heq, Hst in Hb. injection Hb as <-. simpl in Hdue'.
  apply Due_idempotent in Hdue. congruence.
Qed.
End tick_facts.

(** ** A store in memory *)

(** The alerts, and the outcomes of the coming [AdvanceEscalation] calls:
    [true] fails. *)
Record MemStore : Type := MkMemStore {
  mem_alerts : gmap Z Alert;
  mem_faults : list bool;
}.

Definition mem_list (s : MemStore) (rules : list string) : MemStore * (list Alert + unit) :=
  (s, inl (omap (λ kv, if open_alert kv.2 && bool_decide (al_Rule kv.2 ∈ rules)
                          && bool_decide (al_ID kv.2 = kv.1)
                       then Some kv.2 else None) (map_to_list (mem_alerts s)))).

Definition mem_advance (s : MemStore) (id fromStage : Z) (fromAt : option Z) (stage at_ : Z)
    : MemStore * (bool + unit) :=
  let faults := tail (mem_faults s) in
  if hd false (mem_faults s) then (MkMemStore (mem_alerts s) faults, inr tt)
  else match mem_alerts s !! id with
       | Some a =>
           if open_alert a && (al_EscalationStage a =? fromStage)
              && bool_decide (al_EscalatedAt a = fromAt)
           then (MkMemStore (<[id := escalated a stage at_]> (mem_alerts s)) faults, inl true)
           else (MkMemStore (mem_alerts s) faults, inl false)
       | None => (MkMemStore (mem_alerts s) faults, inl false)
       end.

#[export] Program Instance mem_store : Store MemStore unit := {|
  ListEscalating := mem_list;
  AdvanceEscalation := mem_advance;
  stored := λ s id, mem_alerts s !! id;
|}.
Next Obligation.
  intros s rules. simpl. split; [done|]. set (f := λ kv : Z * Alert, _). split.
  - assert (al_ID <$> omap f (map_to_list (mem_alerts s)) `sublist_of`
            (map_to_list (mem_alerts s)).*1) as Hsub.
    { induction (map_to_list (mem_alerts s)) as [|[k a] l IH]; [done|]. cbn [omap list_omap fmap list_fmap].
      unfold f at 1. simpl. destruct (_ && _) eqn:E; [|by apply sublist_cons].
      apply andb_true_iff in E as [_ Hid%bool_decide_eq_true_1]. cbn. rewrite Hid.
      by apply sublist_skip. }
    eapply sublist_NoDup; [exact (NoDup_fst_map_to_list (mem_alerts s))|exact Hsub].
  - intros a Ha. apply list_elem_of_omap in Ha as ([k a'] & Hin & Hf).
    apply elem_of_map_to_list in Hin. unfold f in Hf. simpl in Hf.
    destruct (_ && _) eqn:E; [|done]. injection Hf as <-.
    apply andb_true_iff in E as [[Ho Hr%bool_decide_eq_true_1]%andb_true_iff Hid%bool_decide_eq_true_1].
    by rewrite Hid.
Qed.
Next Obligation.
  intros s id fs fa stage at_. unfold mem_advance. destruct (hd false _); [done|].
  destruct (mem_alerts s !! id) as [a|] eqn:Ha; [|done].
  destruct (_ && _) eqn:E; [|done]. simpl.
  apply andb_true_iff in E as [[Ho Hst%Z.eqb_eq]%andb_true_iff Hat%bool_decide_eq_true_1].
  exists a. split_and!; try done. intros id'. destruct (decide (id' = id)) as [->|].
  - by rewrite lookup_insert_eq.
  - by rewrite lookup_insert_ne.
Qed.

(** A two-stage ladder on "iface.down" that repeats every 10 minutes, and
    two alerts it covers: 1, raised 6 minutes ago, and 2, acknowledged. *)
Definition demo_ladder : Ladder :=
  MkLadder "iface.down" [MkStage (5 * minute) [ChannelEmail]; MkStage (15 * minute) [ChannelTrap]]
    (10 * minute).
Definition demo_alert (id : Z) (ack : bool) : Alert := MkAlert id "iface.down" ack false 0 0 None.
Definition demo_store : MemStore :=
  MkMemStore (list_to_map [(1, demo_alert 1 false); (2, demo_alert 2 true)]) [].

Example Tick_sends :
  (λ r, map (λ x, (al_ID (sn_alert x), sn_channels x)) r.1.2) <$>
    Tick [demo_ladder] (6 * minute) demo_store = Some [(1, [ChannelEmail])].
Proof. vm_compute. reflexivity. Qed.

Lemma demo_store_ok : store_ok demo_store.
Proof.
  intros id a Ha. simpl in Ha.
  apply lookup_insert_Some in Ha as [[<- <-]|[_ [[<- <-]|[_ Ha]]%lookup_insert_Some]];
    [simpl; lia..|]. by rewrite lookup_empty in Ha.
Qed.

Lemma Due_spec_witness :
  ∃ n r, is_reached demo_ladder (demo_alert 1 false) (20 * minute) n ∧
    Due demo_ladder (demo_alert 1 false) (20 * minute) = Some r ∧
    match r with
    | Some step =>
        open_alert (demo_alert 1 false) = true ∧
        (∃ s, index (ld_Stages demo_ladder) (sp_Stage step - 1) = Some s ∧
              sp_Channels step = st_Channels s) ∧
        ((sp_Stage step = n ∧ al_EscalationStage (demo_alert 1 false) < n) ∨
         (sp_Stage step = len (ld_Stages demo_ladder) ∧ 0 < ld_Repeat demo_ladder ∧
          len (ld_Stages demo_ladder) ≤ al_EscalationStage (demo_alert 1 false) ∧
          ∃ at_, al_EscalatedAt (demo_alert 1 false) = Some at_ ∧
                 at_ + ld_Repeat demo_ladder ≤ 20 * minute))
    | None =>
        open_alert (demo_alert 1 false) = false ∨ len (ld_Stages demo_ladder) = 0 ∨
        (n ≤ al_EscalationStage (demo_alert 1 false) ∧
         (ld_Repeat demo_ladder ≤ 0 ∨
          al_EscalationStage (demo_alert 1 false) < len (ld_Stages demo_ladder) ∨
          al_EscalatedAt (demo_alert 1 false) = None ∨
          ∃ at_, al_EscalatedAt (demo_alert 1 false) = Some at_ ∧
                 20 * minute < at_ + ld_Repeat demo_ladder))
    end.
Proof. refine (Due_spec demo_ladder (demo_alert 1 false) (20 * minute) _). simpl. lia. Defined.

Lemma Due_idempotent_witness :
  Due demo_ladder (escalated (demo_alert 1 false) 2 (20 * minute)) (20 * minute) = Some None.
Proof.
  exact (Due_idempotent demo_ladder (demo_alert 1 false) (20 * minute) (MkStep 2 [ChannelTrap])
           ltac:(vm_compute; reflexivity)).
Defined.


(** The store after the first pass. *)
Definition demo_store_1 : MemStore :=
  MkMemStore (list_to_map [(1, escalated (demo_alert 1 false) 1 (6 * minute));
                           (2, demo_alert 2 true)]) [].
Definition demo_sent : Sent :=
  MkSent (escalated (demo_alert 1 false) 1 (6 * minute)) [ChannelEmail].

Lemma Tick_no_resend_witness :
  let id := al_ID (sn_alert demo_sent) in id ∈ sent_ids [demo_sent] ∧ id ∉ sent_ids [].
Proof.
  split; [by left|].
  refine (Tick_no_resend [demo_ladder] (6 * minute) demo_store demo_store_1 [demo_sent] None
            demo_store_1 [] None demo_store_ok _ _ _ _); [vm_compute; reflexivity..|by left].
Defined.
