(* ===== verification/AlertWindows.v ===== *)
(** * Alert windows (src/internal/alerts/pipeline/window_counter.go,
    pipeline/suppression.go and correlation/correlation.go)

    Three memories of recent alerts that forget lazily: the rolling hit
    counter of a threshold rule, the marks that suppress a rule that just
    fired, and the causes a later alert may name. Each is shown equivalent to
    a reference that forgets nothing. *)
From Stdlib Require Import ZArith Lia Ascii.
From stdpp Require Import base gmap sets list strings.
From S2P Require Import Prelude GoBase.

(** ** The window counter *)

(** [windowCounter] *)
Record windowCounter : Type := WindowCounter {
  wc_window : Z;
  wc_threshold : Z;
  wc_events : gmap string (list Z);
}.

Definition newWindowCounter (window threshold : Z) : windowCounter :=
  WindowCounter window threshold ∅.

Definition wc_set (c : windowCounter) (m : gmap string (list Z)) : windowCounter :=
  WindowCounter (wc_window c) (wc_threshold c) m.

(** [windowCounter.Hit] *)
Definition Hit (c : windowCounter) (entityKey : string) (now : Z) : windowCounter * bool :=
  let cutoff := time_add now (- wc_window c) in
  let existing := default [] (wc_events c !! entityKey) in
  let hits := filter (λ t, time_after t cutoff = true) existing ++ [now] in
  if wc_threshold c <=? len hits
  then (wc_set c (delete entityKey (wc_events c)), true)
  else (wc_set c (<[entityKey := hits]> (wc_events c)), false).

(** The reference: all hits since the entity last fired. *)
Definition spec_hit (window threshold : Z) (m : gmap string (list Z)) (entityKey : string)
    (now : Z) : gmap string (list Z) * bool :=
  let since := default [] (m !! entityKey) ++ [now] in
  if threshold <=? len (filter (λ t, now - window < t) since)
  then (delete entityKey m, true)
  else (<[entityKey := since]> m, false).

Fixpoint run_hits (c : windowCounter) (l : list (string * Z)) : list bool :=
  match l with
  | [] => []
  | (k, now) :: l' => let '(c, fired) := Hit c k now in fired :: run_hits c l'
  end.

Fixpoint spec_hits (window threshold : Z) (m : gmap string (list Z)) (l : list (string * Z))
    : list bool :=
  match l with
  | [] => []
  | (k, now) :: l' =>
      let '(m, fired) := spec_hit window threshold m k now in
      fired :: spec_hits window threshold m l'
  end.

(** Instants that never go back, from [t] on. *)
Fixpoint monotone (t : Z) (l : list Z) : Prop :=
  match l with
  | [] => True
  | t' :: l' => t ≤ t' ∧ monotone t' l'
  end.

Section window_counter.
Context (window threshold : Z) (Hwindow : 0 < window).

Definition recent_hits (cutoff : Z) (l : list Z) : list Z := filter (λ t, cutoff < t) l.

Lemma recent_idemp c1 c2 l : c1 ≤ c2 → recent_hits c2 (recent_hits c1 l) = recent_hits c2 l.
Proof.
  intros Hc. unfold recent_hits. apply list_filter_filter_l. intros. lia.
Qed.

(** What the counter holds at [now] stands for the reference's hits. *)
Definition counts (now : Z) (m ref : gmap string (list Z)) : Prop :=
  ∀ k cutoff, now - window ≤ cutoff →
    recent_hits cutoff (default [] (m !! k)) = recent_hits cutoff (default [] (ref !! k)).

Lemma Hit_counts c ref k t now :
  wc_window c = window → wc_threshold c = threshold → counts t (wc_events c) ref → t ≤ now →
  let '(c', fired) := Hit c k now in
  let '(ref', fired') := spec_hit window threshold ref k now in
  fired = fired' ∧ wc_window c' = window ∧ wc_threshold c' = threshold ∧
  counts now (wc_events c') ref'.
Proof.
  intros Hw Ht Hc Hnow. unfold Hit, spec_hit. rewrite Hw, Ht.
  assert (filter (λ t0, time_after t0 (time_add now (- window)) = true)
            (default [] (wc_events c !! k)) ++ [now] =
          recent_hits (now - window) (default [] (ref !! k) ++ [now])) as ->.
  { unfold recent_hits at 1. rewrite filter_app. f_equal.
    - fold (recent_hits (now - window) (default [] (ref !! k))).
      rewrite <-(Hc k (now - window)) by lia. unfold recent_hits. apply list_filter_iff.
      intros x. unfold time_after, time_add. rewrite Z.ltb_lt. lia.
    - by rewrite filter_cons_True by lia. }
  fold (recent_hits (now - window) (default [] (ref !! k) ++ [now])).
  destruct (threshold <=? _); split_and!; try done; intros k' cutoff Hcut; simpl;
    (destruct (decide (k' = k)) as [->|];
     [rewrite ?lookup_delete_eq, ?lookup_insert_eq|
      rewrite ?lookup_delete_ne, ?lookup_insert_ne by done; apply Hc; lia]); [done|].
  simpl. by apply recent_idemp.
Qed.

(** A threshold rule fires exactly when, counting this hit, the entity
    has had at least the threshold number of hits inside the window since
    it last fired: pruning old hits on the way changes no answer, for any
    interleaving of entities under a clock that does not go back. *)
Theorem Hit_spec t l :
  monotone t l.*2 →
  run_hits (newWindowCounter window threshold) l = spec_hits window threshold ∅ l.
Proof.
  cut (∀ c ref t, wc_window c = window → wc_threshold c = threshold →
    counts t (wc_events c) ref → monotone t l.*2 →
    run_hits c l = spec_hits window threshold ref l).
  { intros H Hm. by apply (H _ _ t). }
  clear t. induction l as [|[k now] l IH]; intros c ref t Hw Ht Hc Hm; cbn [run_hits spec_hits];
    [done|]. destruct Hm as [Hnow Hm].
  pose proof (Hit_counts c ref k t now Hw Ht Hc Hnow) as Hhit.
  destruct (Hit c k now) as [c' fired], (spec_hit window threshold ref k now) as [ref' fired'].
  destruct Hhit as (-> & ? & ? & ?). f_equal. by apply (IH _ _ now).
Qed.
End window_counter.

Lemma Hit_spec_witness :
  run_hits (newWindowCounter 60 2) [("a", 0); ("b", 10); ("a", 50); ("b", 80); ("b", 90)] =
  spec_hits 60 2 ∅ [("a", 0); ("b", 10); ("a", 50); ("b", 80); ("b", 90)].
Proof.
  refine (Hit_spec 60 2 ltac:(lia) 0 [("a", 0); ("b", 10); ("a", 50); ("b", 80); ("b", 90)] _).
  simpl. lia.
Defined.

Example Hit_fires :
  run_hits (newWindowCounter 60 2) [("a", 0); ("b", 10); ("a", 50); ("b", 80); ("b", 90)] =
  [false; false; true; false; true].
Proof. vm_compute. reflexivity. Qed.

(** ** Suppression marks *)

(** [inMemorySuppressionStore]: [emitted] by fingerprint. *)
Definition evictThreshold : Z := 4096.

Definition IsSuppressed (emitted : gmap string Z) (fingerprint : string) (now : Z) : bool :=
  match emitted !! fingerprint with
  | None => false
  | Some until => time_before now until
  end.

Definition Mark (emitted : gmap string Z) (fingerprint : string) (until : Z) : gmap string Z :=
  let emitted := <[fingerprint := until]> emitted in
  if Z.of_nat (size emitted) <=? evictThreshold then emitted
  else filter (λ kv, time_before kv.2 (time_add until (- hour)) = false) emitted.

(** Marking a rule suppresses it until its time and not after, even when
    the mark triggers the eviction; and when it is marked for at most an
    hour ahead, no other fingerprint's suppression changes. *)
Theorem Mark_spec emitted fingerprint until now :
  (∀ t, IsSuppressed (Mark emitted fingerprint until) fingerprint t = (t <? until)) ∧
  (until ≤ now + hour → ∀ f t, f ≠ fingerprint → now ≤ t →
     IsSuppressed (Mark emitted fingerprint until) f t = IsSuppressed emitted f t).
Proof.
  unfold Mark. assert (0 < hour) by (unfold hour, second; lia).
  split.
  - intros t. unfold IsSuppressed. destruct (_ <=? _); [by rewrite lookup_insert_eq|].
    rewrite map_lookup_filter, lookup_insert_eq. cbn [mbind option_bind].
    rewrite option_guard_True; [done|]. unfold time_before, time_add. simpl.
    apply Z.ltb_ge. lia.
  - intros Hu f t Hf Ht. unfold IsSuppressed. destruct (_ <=? _); [by rewrite lookup_insert_ne|].
    rewrite map_lookup_filter, lookup_insert_ne by done.
    destruct (emitted !! f) as [v|]; [|done]. cbn [mbind option_bind]. simpl.
    unfold time_before, time_add.
    destruct (Z.ltb_spec v (until + - hour)).
    + rewrite option_guard_False by done. simpl. symmetry. apply Z.ltb_ge. lia.
    + by rewrite option_guard_True.
Qed.

(** ** Correlation *)

Definition RuleInterfaceDown : string := "iface.down".
Definition RuleBGPFlap : string := "bgp.flap".
Definition DefaultWindow : Z := 5 * minute.

Definition causeRuleFor (rule : string) : option string :=
  if bool_decide (rule = RuleBGPFlap) then Some RuleInterfaceDown else None.
Definition isCause (rule : string) : bool := bool_decide (rule = RuleInterfaceDown).

(** The fields of [alerts.Alert] correlation reads and writes. *)
Record Alert : Type := MkAlert {
  al_ID : Z;
  al_Rule : string;
  al_Source : string;
  al_RootCauseID : option Z;
}.

Definition set_cause (a : Alert) (id : Z) : Alert :=
  MkAlert (al_ID a) (al_Rule a) (al_Source a) (Some id).

(** [Writer]: [Create] stores an alert and gives it its identifier. *)
Class Writer (S E : Type) : Type := {
  WriterCreate : S → Alert → S * (Z + E);
}.

(** [stored] *)
Record stored : Type := Stored {
  so_id : Z;
  so_at : Z;
}.

(** [key]: the rule, a NUL byte, the source. *)
Definition key (rule source : string) : string := (rule +:+ String "000"%char source)%string.

Section correlation.
Context {S E : Type} `{!Writer S E} (window : Z).

Definition causeOf (m : gmap string stored) (a : Alert) (now : Z) : option Z :=
  causeRule ← causeRuleFor (al_Rule a);
  cause ← m !! key causeRule (al_Source a);
  if window <? time_sub now (so_at cause) then None else Some (so_id cause).

Definition evictExpired (m : gmap string stored) (now : Z) : gmap string stored :=
  filter (λ ks, (window <? time_sub now (so_at ks.2)) = false) m.

Definition remember (m : gmap string stored) (a : Alert) (now : Z) : gmap string stored :=
  if isCause (al_Rule a)
  then evictExpired (<[key (al_Rule a) (al_Source a) := Stored (al_ID a) now]> m) now
  else m.

(** [correlatingWriter.Create]; the two clock reads are [now1] and [now2].
    The result is the stored alert. *)
Definition Create (s : S) (m : gmap string stored) (a : Alert) (now1 now2 : Z)
    : S * gmap string stored * (Alert + E) :=
  let a := match causeOf m a now1 with Some id => set_cause a id | None => a end in
  let '(s, r) := WriterCreate s a in
  match r with
  | inr err => (s, m, inr err)
  | inl id =>
      let a := MkAlert id (al_Rule a) (al_Source a) (al_RootCauseID a) in
      (s, remember m a now2, inl a)
  end.

(** The reference keeps the whole history, newest first. *)
Definition latest_cause (h : list (Alert * Z)) (a : Alert) (now : Z) : option Z :=
  if bool_decide (al_Rule a = RuleBGPFlap) then
    match filter (λ q, al_Rule q.1 = RuleInterfaceDown ∧ al_Source q.1 = al_Source a) h with
    | (c, at_) :: _ => if now - at_ <=? window then Some (al_ID c) else None
    | [] => None
    end
  else None.

Definition spec_create (s : S) (h : list (Alert * Z)) (a : Alert) (now1 now2 : Z)
    : S * list (Alert * Z) * (Alert + E) :=
  let a := match latest_cause h a now1 with Some id => set_cause a id | None => a end in
  let '(s, r) := WriterCreate s a in
  match r with
  | inr err => (s, h, inr err)
  | inl id =>
      let a := MkAlert id (al_Rule a) (al_Source a) (al_RootCauseID a) in
      (s, (a, now2) :: h, inl a)
  end.

Fixpoint run_creates (s : S) (m : gmap string stored) (l : list (Alert * Z * Z))
    : list (Alert + E) :=
  match l with
  | [] => []
  | (a, now1, now2) :: l' =>
      let '(s, m, r) := Create s m a now1 now2 in r :: run_creates s m l'
  end.

Fixpoint spec_creates (s : S) (h : list (Alert * Z)) (l : list (Alert * Z * Z))
    : list (Alert + E) :=
  match l with
  | [] => []
  | (a, now1, now2) :: l' =>
      let '(s, h, r) := spec_create s h a now1 now2 in r :: spec_creates s h l'
  end.

Fixpoint clock_ok (t : Z) (l : list (Alert * Z * Z)) : Prop :=
  match l with
  | [] => True
  | (_, now1, now2) :: l' => t ≤ now1 ≤ now2 ∧ clock_ok now2 l'
  end.

(** From [t] on, the memory answers for the history. *)
Definition remembers (t : Z) (m : gmap string stored) (h : list (Alert * Z)) : Prop :=
  ∀ a now, t ≤ now → al_Rule a = RuleBGPFlap → causeOf m a now = latest_cause h a now.
End correlation.

Section correlation_facts.
Context {S E : Type} `{!Writer S E} (window : Z).
Hypothesis (Hwindow : 0 ≤ window < max_duration).

Lemma window_check now at_ : (window <? time_sub now at_) = negb (now - at_ <=? window).
Proof using Hwindow.
  rewrite Z.ltb_antisym. f_equal. apply eq_true_iff_eq. rewrite !Z.leb_le. apply time_sub_le.
  unfold min_duration, max_duration in *. lia.
Qed.

Lemma key_inj rule x y : key rule x = key rule y → x = y.
Proof. unfold key. intros H%(inj (String.append rule)). by injection H. Qed.

Lemma causeOf_flap m a now :
  al_Rule a = RuleBGPFlap →
  causeOf window m a now =
    cause ← m !! key RuleInterfaceDown (al_Source a);
    if now - so_at cause <=? window then Some (so_id cause) else None.
Proof using Hwindow.
  intros Hr. unfold causeOf, causeRuleFor. rewrite Hr, bool_decide_eq_true_2 by done.
  cbn [mbind option_bind]. destruct (m !! _) as [c|]; [|done]. cbn [mbind option_bind].
  rewrite window_check. by destruct (_ <=? _).
Qed.

Lemma remembers_remember t m h a now :
  remembers window t m h → t ≤ now → remembers window now (remember window m a now) ((a, now) :: h).
Proof using Hwindow.
  intros Hm Ht b now' Hnow Hr. unfold remember, isCause.
  pose proof (Hm b now' ltac:(lia) Hr) as Hb. rewrite causeOf_flap in Hb |- * by done.
  unfold latest_cause in Hb |- *. rewrite Hr, (bool_decide_eq_true_2 (RuleBGPFlap = RuleBGPFlap)) in Hb |- * by done.
  rewrite filter_cons. cbn [fst].
  destruct (decide (al_Rule a = RuleInterfaceDown)) as [Ha|Ha].
  2: { rewrite bool_decide_eq_false_2 by done. rewrite decide_False by tauto. done. }
  rewrite bool_decide_eq_true_2 by done. rewrite Ha. unfold evictExpired.
  rewrite map_lookup_filter. destruct (decide (al_Source a = al_Source b)) as [Hs|Hs].
  - rewrite decide_True by done. rewrite Hs, lookup_insert_eq. cbn [mbind option_bind].
    rewrite option_guard_True; [done|]. simpl. rewrite window_check.
    rewrite (proj2 (Z.leb_le _ _)) by lia. done.
  - rewrite decide_False by tauto. rewrite <-Hb. rewrite lookup_insert_ne.
    2: { intros Hk%key_inj. done. }
    destruct (m !! _) as [c|]; [|done]. cbn [mbind option_bind]. simpl.
    rewrite window_check. destruct (Z.leb_spec (now - so_at c) window).
    + by rewrite option_guard_True.
    + rewrite option_guard_False by done. simpl. by rewrite (proj2 (Z.leb_gt _ _)) by lia.
Qed.

Lemma causeOf_latest t m h a now :
  remembers window t m h → t ≤ now → causeOf window m a now = latest_cause window h a now.
Proof using Hwindow.
  intros Hm Ht. destruct (decide (al_Rule a = RuleBGPFlap)); [by apply Hm|].
  unfold causeOf, causeRuleFor, latest_cause. by rewrite bool_decide_eq_false_2.
Qed.

(** An alert is stored with the probable cause a complete history of
    stored alerts would give it: a BGP flap names the latest stored
    interface-down alert of its own source when that is no older than the
    window, and no other alert is annotated; alerts the store refused
    explain nothing, and what the decorator forgets changes no answer. *)
Theorem Create_spec s t l :
  clock_ok t l → run_creates window s ∅ l = spec_creates window s [] l.
Proof using Hwindow.
  cut (∀ m h s t, remembers window t m h → clock_ok t l →
    run_creates window s m l = spec_creates window s h l).
  { intros H Hl. apply (H ∅ [] s t); [|done]. intros a now _ Hr.
    rewrite causeOf_flap by done. unfold latest_cause. rewrite lookup_empty.
    by rewrite bool_decide_eq_true_2. }
  clear s t. induction l as [|[[a now1] now2] l' IH]; intros m h s t Hm Hl; [done|].
  destruct Hl as [Ht Hl]. cbn [run_creates spec_creates]. unfold Create, spec_create.
  rewrite (causeOf_latest t m h a now1) by (done || lia).
  destruct (WriterCreate s _) as [s' [id|err]]; f_equal.
  - apply (IH _ _ _ now2); [|done]. by apply (remembers_remember t); [|lia].
  - apply (IH _ _ _ now2); [|done]. intros b now Hnow. apply Hm. lia.
Qed.
End correlation_facts.

(** A store that numbers alerts from 1 and refuses those without source. *)
#[export] Instance counting_writer : Writer Z unit := {|
  WriterCreate := λ n a, if bool_decide (al_Source a = "") then (n, inr tt) else (n + 1, inl (n + 1));
|}.

Definition demo_creates : list (Alert * Z * Z) :=
  [(MkAlert 0 RuleInterfaceDown "sw1" None, 0, 1); (MkAlert 0 RuleBGPFlap "sw2" None, 2, 2);
   (MkAlert 0 RuleBGPFlap "sw1" None, 60 * second, 60 * second);
   (MkAlert 0 RuleBGPFlap "sw1" None, 400 * second, 401 * second)].

Lemma Create_spec_witness :
  run_creates DefaultWindow 0 ∅ demo_creates = spec_creates DefaultWindow 0 [] demo_creates.
Proof.
  refine (Create_spec DefaultWindow _ 0 0 demo_creates _).
  - unfold DefaultWindow, minute, second, max_duration. lia.
  - unfold demo_creates, second. simpl. lia.
Defined.

Example Create_annotates :
  map (λ r, match r with inl a => al_RootCauseID a | inr _ => None end)
    (run_creates DefaultWindow 0 ∅ demo_creates) = [None; None; Some 1; None].
Proof. vm_compute. reflexivity. Qed.

Lemma Mark_spec_witness :
  (∀ t, IsSuppressed (Mark {["r" := 50]} "f" 90) "f" t = (t <? 90)) ∧
  (90 ≤ 30 + hour → ∀ f t, f ≠ "f" → 30 ≤ t →
     IsSuppressed (Mark {["r" := 50]} "f" 90) f t = IsSuppressed {["r" := 50]} f t).
Proof. exact (Mark_spec {["r" := 50]} "f" 90 30). Defined.
