(* ===== verification/Anomaly.v ===== *)
(** * The anomaly engine (src/internal/anomaly: anomaly.go, catalog.go,
    engine.go, and the record of store.go)

    Detections are coalesced by anomaly type and subject, escalate when they
    recur and age out. What the coordinator writes of them is in
    AnomalySync. *)
From Stdlib Require Import ZArith Lia Ascii.
From stdpp Require Import base gmap sets list strings sorting.
From S2P Require Import Prelude GoBase.

(** [Severity]; [SeverityUnset] is the empty string, [SeverityOther] any
    other text. *)
Inductive Severity : Type :=
| SeverityUnset
| SeverityInfo
| SeverityWarning
| SeverityError
| SeverityCritical
| SeverityOther (s : string).

#[export] Instance Severity_eq_dec : EqDecision Severity.
Proof. solve_decision. Defined.

(** [Severity.rank] and [Severity.valid] *)
Definition sev_rank (s : Severity) : Z :=
  match s with
  | SeverityCritical => 4
  | SeverityError => 3
  | SeverityWarning => 2
  | SeverityInfo => 1
  | SeverityUnset | SeverityOther _ => 0
  end.
Definition sev_valid (s : Severity) : bool := 0 <? sev_rank s.

(** [Category] *)
Inductive Category : Type :=
| CategorySecurity
| CategoryRF
| CategoryRoaming
| CategoryCapacity
| CategoryStandards
| CategoryAuthorization
| CategoryNetHealth
| CategoryOther (s : string).

Definition validCategory (c : Category) : bool :=
  match c with CategoryOther _ => false | _ => true end.

(** [FollowUpKind] and [FollowUp] *)
Inductive FollowUpKind : Type :=
| FollowUpAuto
| FollowUpPrompt
| FollowUpOther (s : string).

Record FollowUp : Type := MkFollowUp {
  fu_Kind : FollowUpKind;
  fu_Label : string;
  fu_Action : string;
  fu_Capability : string;
}.

(** [Def] *)
Record Def : Type := MkDef {
  df_ID : string;
  df_Category : Category;
  df_DefaultSeverity : Severity;
  df_Standards : list string;
  df_Title : string;
  df_Description : string;
  df_Impact : string;
  df_Recommendation : string;
  df_FollowUps : list FollowUp;
}.

(** [SubjectKind]: the kinds the sources use. *)
Inductive SubjectKind : Type :=
| SubjectSSID
| SubjectBSSID
| SubjectClient
| SubjectChannel
| SubjectDevice
| SubjectInterface
| SubjectProbe.

#[export] Instance SubjectKind_eq_dec : EqDecision SubjectKind.
Proof. solve_decision. Defined.
#[export] Instance SubjectKind_countable : Countable SubjectKind.
Proof.
  refine (inj_countable'
    (λ k, match k with SubjectSSID => 0 | SubjectBSSID => 1 | SubjectClient => 2
          | SubjectChannel => 3 | SubjectDevice => 4 | SubjectInterface => 5 | SubjectProbe => 6 end%nat)
    (λ n, match n with 0 => SubjectSSID | 1 => SubjectBSSID | 2 => SubjectClient
          | 3 => SubjectChannel | 4 => SubjectDevice | 5 => SubjectInterface | _ => SubjectProbe end%nat) _).
  by intros [].
Defined.

Definition kind_string (k : SubjectKind) : string :=
  match k with
  | SubjectSSID => "ssid"
  | SubjectBSSID => "bssid"
  | SubjectClient => "client"
  | SubjectChannel => "channel"
  | SubjectDevice => "device"
  | SubjectInterface => "interface"
  | SubjectProbe => "probe"
  end.

(** [SubjectRef] *)
Record SubjectRef : Type := MkSubjectRef {
  sr_Kind : SubjectKind;
  sr_ID : string;
}.

(** [Detection]; a [Source] is its name. *)
Record Detection : Type := MkDetection {
  dt_DefKey : string;
  dt_Subject : SubjectRef;
  dt_Severity : Severity;
  dt_Evidence : gmap string string;
  dt_Source : string;
}.

(** [instanceKey] *)
Record instanceKey : Type := InstanceKey {
  ik_def : string;
  ik_kind : SubjectKind;
  ik_id : string;
}.

#[export] Instance instanceKey_eq_dec : EqDecision instanceKey.
Proof. solve_decision. Defined.
#[export] Instance instanceKey_countable : Countable instanceKey.
Proof.
  refine (inj_countable' (λ k, (ik_def k, ik_kind k, ik_id k)) (λ '(d, k, i), InstanceKey d k i) _).
  by intros [].
Defined.

(** [Detection.key] and [instanceKey.recordID] *)
Definition det_key (d : Detection) : instanceKey :=
  InstanceKey (dt_DefKey d) (sr_Kind (dt_Subject d)) (sr_ID (dt_Subject d)).
Definition recordID (k : instanceKey) : string :=
  (ik_def k +:+ "|" +:+ kind_string (ik_kind k) +:+ "|" +:+ ik_id k)%string.

(** [Anomaly] *)
Record Anomaly : Type := MkAnomaly {
  an_DefKey : string;
  an_Category : Category;
  an_Severity : Severity;
  an_Subject : SubjectRef;
  an_Title : string;
  an_Description : string;
  an_Impact : string;
  an_Recommendation : string;
  an_Standards : list string;
  an_Evidence : gmap string string;
  an_FollowUps : list FollowUp;
  an_FirstSeen : Z;
  an_LastSeen : Z;
  an_Count : Z;
}.

(** [Record]: the columns the coordinator writes. *)
Record AnomalyRecord : Type := MkAnomalyRecord {
  rc_ID : string;
  rc_Source : string;
  rc_Anomaly : Anomaly;
}.

(** [RecordID] *)
Definition RecordID (defKey : string) (subject : SubjectRef) : string :=
  (defKey +:+ "|" +:+ kind_string (sr_Kind subject) +:+ "|" +:+ sr_ID subject)%string.

(** ** The catalog *)

(** Why [NewCatalog] refuses a definition. *)
Inductive catalog_error : Type :=
| MissingID
| MissingTitle
| MissingDescription
| MissingRecommendation
| UnknownCategory
| InvalidSeverity
| InvalidFollowUpKind (i : Z)
| MissingFollowUpLabel (i : Z)
| DuplicateID.

Fixpoint validate_followups (i : Z) (l : list FollowUp) : option catalog_error :=
  match l with
  | [] => None
  | f :: l' =>
      match fu_Kind f with
      | FollowUpOther _ => Some (InvalidFollowUpKind i)
      | _ => if bool_decide (fu_Label f = "") then Some (MissingFollowUpLabel i)
             else validate_followups (i + 1) l'
      end
  end.

Definition validateDef (d : Def) : option catalog_error :=
  if bool_decide (df_ID d = "") then Some MissingID
  else if bool_decide (df_Title d = "") then Some MissingTitle
  else if bool_decide (df_Description d = "") then Some MissingDescription
  else if bool_decide (df_Recommendation d = "") then Some MissingRecommendation
  else if negb (validCategory (df_Category d)) then Some UnknownCategory
  else if negb (sev_valid (df_DefaultSeverity d)) then Some InvalidSeverity
  else validate_followups 0 (df_FollowUps d).

Fixpoint add_defs (c : gmap string Def) (defs : list Def) : gmap string Def + catalog_error :=
  match defs with
  | [] => inl c
  | d :: defs' =>
      match validateDef d with
      | Some err => inr err
      | None => match c !! df_ID d with
                | Some _ => inr DuplicateID
                | None => add_defs (<[df_ID d := d]> c) defs'
                end
      end
  end.

Definition NewCatalog (defs : list Def) : gmap string Def + catalog_error := add_defs ∅ defs.

(** ** The engine *)

Definition defaultEscalateAfter : Z := 5.

(** [tracked] *)
Record tracked : Type := Tracked {
  tr_det : Detection;
  tr_base : Severity;
  tr_firstSeen : Z;
  tr_lastSeen : Z;
  tr_count : Z;
}.

(** [Engine] *)
Record Engine : Type := MkEngine {
  en_catalog : gmap string Def;
  en_active : gmap instanceKey tracked;
  en_capabilities : gset string;
  en_escalateAfter : Z;
}.

Definition NewEngine (catalog : gmap string Def) (caps : list string) (escalateAfter : option Z)
    : Engine :=
  MkEngine catalog ∅ (list_to_set caps) (default defaultEscalateAfter escalateAfter).

Definition set_active (e : Engine) (m : gmap instanceKey tracked) : Engine :=
  MkEngine (en_catalog e) m (en_capabilities e) (en_escalateAfter e).

Inductive engine_error : Type :=
| UnknownDef
| BadSeverity.

(** [observeResult] *)
Record observeResult : Type := ObserveResult {
  ob_key : instanceKey;
  ob_created : bool;
  ob_material : bool;
}.

(** The zero [Def] [Lookup] gives for an unknown key. *)
Definition def_zero : Def := MkDef "" (CategoryOther "") SeverityUnset [] "" "" "" "" [].

Definition baseSeverity (e : Engine) (d : Detection) : Severity :=
  if bool_decide (dt_Severity d = SeverityUnset)
  then df_DefaultSeverity (default def_zero (en_catalog e !! dt_DefKey d))
  else dt_Severity d.

Definition effectiveSeverityOf (e : Engine) (base : Severity) (count : Z) : Severity :=
  if (en_escalateAfter e <=? 0) || (count <? en_escalateAfter e) then base
  else match base with
       | SeverityInfo => SeverityWarning
       | SeverityWarning => SeverityError
       | SeverityError => SeverityCritical
       | SeverityCritical => SeverityCritical
       | _ => base
       end.

Definition observe (e : Engine) (d : Detection) (at_ : Z) : Engine * (observeResult + engine_error) :=
  match en_catalog e !! dt_DefKey d with
  | None => (e, inr UnknownDef)
  | Some _ =>
      if negb (bool_decide (dt_Severity d = SeverityUnset)) && negb (sev_valid (dt_Severity d))
      then (e, inr BadSeverity)
      else
        let k := det_key d in
        let newBase := baseSeverity e d in
        match en_active e !! k with
        | None =>
            (set_active e (<[k := Tracked d newBase at_ at_ 1]> (en_active e)),
             inl (ObserveResult k true true))
        | Some t =>
            let beforeEff := effectiveSeverityOf e (tr_base t) (tr_count t) in
            let baseChanged := negb (bool_decide (tr_base t = newBase)) in
            let t' := Tracked d newBase (tr_firstSeen t)
                        (if time_after at_ (tr_lastSeen t) then at_ else tr_lastSeen t)
                        (tr_count t + 1) in
            let afterEff := effectiveSeverityOf e (tr_base t') (tr_count t') in
            (set_active e (<[k := t']> (en_active e)),
             inl (ObserveResult k false
                    (baseChanged || negb (bool_decide (afterEff = beforeEff)))))
        end
  end.

Fixpoint restore (e : Engine) (records : list AnomalyRecord) (n : Z) : Engine * Z :=
  match records with
  | [] => (e, n)
  | r :: records' =>
      let a := rc_Anomaly r in
      match en_catalog e !! an_DefKey a with
      | None => restore e records' n
      | Some _ =>
          let d := MkDetection (an_DefKey a) (an_Subject a) (an_Severity a) (an_Evidence a)
                     (rc_Source r) in
          restore (set_active e (<[det_key d := Tracked d (an_Severity a) (an_FirstSeen a)
                                                  (an_LastSeen a) (an_Count a)]> (en_active e)))
            records' (n + 1)
      end
  end.

Definition Restore (e : Engine) (records : list AnomalyRecord) : Engine * Z := restore e records 0.

Definition effectiveSeverity (e : Engine) (t : tracked) : Severity :=
  effectiveSeverityOf e (tr_base t) (tr_count t).

Definition projectFollowUps (e : Engine) (fus : list FollowUp) : list FollowUp :=
  map (λ f, match fu_Kind f with
            | FollowUpAuto =>
                if negb (bool_decide (fu_Capability f = ""))
                   && negb (bool_decide (fu_Capability f ∈ en_capabilities e))
                then MkFollowUp FollowUpPrompt (fu_Label f) (fu_Action f) (fu_Capability f)
                else f
            | _ => f
            end) fus.

Definition project (e : Engine) (t : tracked) : Anomaly :=
  let def := default def_zero (en_catalog e !! dt_DefKey (tr_det t)) in
  MkAnomaly (df_ID def) (df_Category def) (effectiveSeverity e t) (dt_Subject (tr_det t))
    (df_Title def) (df_Description def) (df_Impact def) (df_Recommendation def)
    (df_Standards def) (dt_Evidence (tr_det t)) (projectFollowUps e (df_FollowUps def))
    (tr_firstSeen t) (tr_lastSeen t) (tr_count t).

(** The record [recordsForKeys] builds for an instance. *)
Definition record_of (e : Engine) (t : tracked) : AnomalyRecord :=
  let a := project e t in
  MkAnomalyRecord (RecordID (an_DefKey a) (an_Subject a)) (dt_Source (tr_det t)) a.

Definition recordsForKeys (e : Engine) (keys : list instanceKey) : list AnomalyRecord :=
  omap (λ k, record_of e <$> en_active e !! k) keys.

Definition EnrichStatic (e : Engine) (a : Anomaly) : Anomaly :=
  match en_catalog e !! an_DefKey a with
  | None => a
  | Some def =>
      MkAnomaly (an_DefKey a) (an_Category a) (an_Severity a) (an_Subject a) (an_Title a)
        (an_Description a) (df_Impact def) (an_Recommendation a) (an_Standards a) (an_Evidence a)
        (projectFollowUps e (df_FollowUps def)) (an_FirstSeen a) (an_LastSeen a) (an_Count a)
  end.

(** The order of [SortAnomalies]: [anomaly_before] is its [less]. *)
Definition anomaly_before (a b : Anomaly) : bool :=
  if negb (sev_rank (an_Severity a) =? sev_rank (an_Severity b))
  then sev_rank (an_Severity b) <? sev_rank (an_Severity a)
  else if negb (bool_decide (an_DefKey a = an_DefKey b))
  then String.ltb (an_DefKey a) (an_DefKey b)
  else String.ltb (sr_ID (an_Subject a)) (sr_ID (an_Subject b)).

Definition anomaly_le (a b : Anomaly) : Prop := anomaly_before b a = false.
#[export] Instance anomaly_le_dec : RelDecision anomaly_le :=
  λ a b, decide (anomaly_before b a = false).

(** [sort.Slice] promises some sorted permutation; this is one. *)
Definition SortAnomalies (l : list Anomaly) : list Anomaly := merge_sort anomaly_le l.

Section engine_ranges.
Context `{!RangeOrder instanceKey}.

(** The scans of [pruneKeys], [pruneKeysForSource] and [clearSubject]: the
    entries for which [dead] holds are deleted and their keys returned. *)
Definition clear_keys (e : Engine) (dead : instanceKey → tracked → bool)
    : Engine * list instanceKey :=
  let cleared := (filter (λ kt, dead kt.1 kt.2 = true) (range (en_active e))).*1 in
  (set_active e (foldr delete (en_active e) cleared), cleared).

Definition pruneKeys (e : Engine) (cutoff : Z) : Engine * list instanceKey :=
  clear_keys e (λ _ t, time_before (tr_lastSeen t) cutoff).

Definition pruneKeysForSource (e : Engine) (source : string) (cutoff : Z)
    : Engine * list instanceKey :=
  clear_keys e (λ _ t, bool_decide (dt_Source (tr_det t) = source)
                       && time_before (tr_lastSeen t) cutoff).

Definition clearSubject (e : Engine) (subject : SubjectRef) : Engine * list instanceKey :=
  clear_keys e (λ k _, bool_decide (ik_kind k = sr_Kind subject)
                       && bool_decide (ik_id k = sr_ID subject)).

Definition Snapshot (e : Engine) : list Anomaly :=
  SortAnomalies (map (λ kt, project e kt.2) (range (en_active e))).

Definition LenBySource (e : Engine) (source : string) : Z :=
  foldl (λ n kt, if bool_decide (dt_Source (tr_det kt.2) = source) then n + 1 else n) 0
    (range (en_active e)).
End engine_ranges.

(** ** The catalog *)

(** What a catalog guarantees of its entries. *)
Definition catalog_ok (c : gmap string Def) : Prop :=
  map_Forall (λ id d, df_ID d = id ∧ id ≠ "" ∧ df_Title d ≠ "" ∧ df_Description d ≠ "" ∧
    df_Recommendation d ≠ "" ∧ validCategory (df_Category d) = true ∧
    sev_valid (df_DefaultSeverity d) = true ∧
    Forall (λ f, fu_Label f ≠ "" ∧ ∀ s, fu_Kind f ≠ FollowUpOther s) (df_FollowUps d)) c.

Lemma validate_followups_ok i l :
  validate_followups i l = None → Forall (λ f, fu_Label f ≠ "" ∧ ∀ s, fu_Kind f ≠ FollowUpOther s) l.
Proof.
  revert i. induction l as [|f l IH]; intros i; cbn [validate_followups]; [constructor|].
  destruct (fu_Kind f) eqn:Hk; try done; case_bool_decide; try done; intros Hv;
    (constructor; [split; [done|by rewrite Hk]|by eapply IH]).
Qed.

Lemma validateDef_ok d : validateDef d = None →
  df_ID d ≠ "" ∧ df_Title d ≠ "" ∧ df_Description d ≠ "" ∧
  df_Recommendation d ≠ "" ∧ validCategory (df_Category d) = true ∧
  sev_valid (df_DefaultSeverity d) = true ∧
  Forall (λ f, fu_Label f ≠ "" ∧ ∀ s, fu_Kind f ≠ FollowUpOther s) (df_FollowUps d).
Proof.
  unfold validateDef. repeat (case_bool_decide; [done|]).
  destruct (validCategory _); [|done]. destruct (sev_valid _); [|done]. simpl.
  intros Hv. split_and!; try done. by eapply validate_followups_ok.
Qed.

Lemma add_defs_ok defs c0 c :
  catalog_ok c0 → add_defs c0 defs = inl c →
  catalog_ok c ∧ (∀ d, d ∈ defs → c !! df_ID d = Some d) ∧ c0 ⊆ c ∧
  size c = (length defs + size c0)%nat.
Proof.
  revert c0. induction defs as [|d defs IH]; intros c0 Hc0; cbn [add_defs].
  { intros [= <-]. split_and!; [done|by intros ? []%elem_of_nil|done|done]. }
  destruct (validateDef d) eqn:Hv; [done|]. destruct (c0 !! df_ID d) eqn:Hdup; [done|].
  apply validateDef_ok in Hv. intros Hadd.
  destruct (IH (<[df_ID d := d]> c0)) as (Hok & Hin & Hsub & Hs); [|done|].
  { by apply map_Forall_insert_2. }
  assert (c !! df_ID d = Some d) as Hd.
  { eapply lookup_weaken; [|exact Hsub]. apply lookup_insert_eq. }
  split_and!; [done| | |].
  - intros d' [->|]%elem_of_cons; auto.
  - etrans; [|exact Hsub]. by apply insert_subseteq.
  - rewrite Hs, map_size_insert_None by done. simpl. lia.
Qed.

(** A catalog that is accepted holds each of its definitions under its
    own identifier, complete and with known category, severity and
    follow-ups, and nothing else. *)
Theorem NewCatalog_ok defs c :
  NewCatalog defs = inl c →
  catalog_ok c ∧ (∀ d, d ∈ defs → c !! df_ID d = Some d) ∧ size c = length defs.
Proof.
  intros (H1 & H2 & _ & H3)%add_defs_ok; [|apply map_Forall_empty].
  split_and!; [done..|]. by rewrite H3, map_size_empty, Nat.add_0_r.
Qed.

(** ** The order of a snapshot *)

Lemma string_compare_trans a b c :
  String.compare a b = Lt → String.compare b c = Lt → String.compare a c = Lt.
Proof.
  revert b c. induction a as [|x a IH]; intros [|y b] [|z c]; simpl; try done.
  unfold Ascii.compare. destruct (N.compare_spec (N_of_ascii x) (N_of_ascii y)) as [Hxy|Hxy|Hxy]; [| |done].
  - rewrite Hxy. destruct (N.compare_spec (N_of_ascii y) (N_of_ascii z)); [|done..]. apply IH.
  - destruct (N.compare_spec (N_of_ascii y) (N_of_ascii z)) as [Hyz|Hyz|Hyz]; [| |done]; intros _ _.
    + rewrite <-Hyz. by rewrite (proj2 (N.compare_lt_iff _ _)).
    + by rewrite (proj2 (N.compare_lt_iff _ _)) by (by etrans).
Qed.

Definition str_lt (a b : string) : Prop := String.ltb a b = true.

Lemma str_lt_iff a b : str_lt a b ↔ String.compare a b = Lt.
Proof. unfold str_lt, String.ltb. by destruct (String.compare a b). Qed.

Lemma str_lt_trans a b c : str_lt a b → str_lt b c → str_lt a c.
Proof. rewrite !str_lt_iff. apply string_compare_trans. Qed.

Lemma str_lt_irrefl a : ¬ str_lt a a.
Proof.
  rewrite str_lt_iff. induction a as [|x a IH]; simpl; [done|]. unfold Ascii.compare.
  by rewrite N.compare_refl.
Qed.

Lemma str_lt_trichotomy a b : str_lt a b ∨ a = b ∨ str_lt b a.
Proof.
  rewrite !str_lt_iff, (String.compare_antisym b a).
  destruct (String.compare a b) eqn:Hc; simpl; auto. right; left. by apply String.compare_eq_iff.
Qed.

Lemma anomaly_before_iff a b :
  anomaly_before a b = true ↔
  sev_rank (an_Severity b) < sev_rank (an_Severity a) ∨
  (sev_rank (an_Severity a) = sev_rank (an_Severity b) ∧
   (str_lt (an_DefKey a) (an_DefKey b) ∨
    (an_DefKey a = an_DefKey b ∧ str_lt (sr_ID (an_Subject a)) (sr_ID (an_Subject b))))).
Proof.
  unfold anomaly_before. destruct (Z.eqb_spec (sev_rank (an_Severity a)) (sev_rank (an_Severity b))); simpl.
  - case_bool_decide as Hd; simpl.
    + fold (str_lt (sr_ID (an_Subject a)) (sr_ID (an_Subject b))). split; [auto|].
      intros [?|[_ [Hlt|[_ ?]]]]; [lia| |done]. rewrite Hd in Hlt. by apply str_lt_irrefl in Hlt.
    + fold (str_lt (an_DefKey a) (an_DefKey b)). split; [auto|].
      by intros [?|[_ [?|[? _]]]]; [lia| |].
  - rewrite Z.ltb_lt. split; [auto|]. by intros [?|[? _]].
Qed.

(** [anomaly_before] is a strict weak order, as [sort.Slice] needs. *)
Lemma anomaly_before_trans a b c :
  anomaly_before a b = true → anomaly_before b c = true → anomaly_before a c = true.
Proof.
  rewrite !anomaly_before_iff. intros [H1|[H1 [H2|[H2 H3]]]] [H4|[H4 [H5|[H5 H6]]]];
    try (left; lia); right; (split; [lia|]).
  - left. by eapply str_lt_trans.
  - left. by rewrite <-H5.
  - left. by rewrite H2.
  - right. split; [congruence|]. by eapply str_lt_trans.
Qed.

Lemma anomaly_before_irrefl a : anomaly_before a a = false.
Proof.
  destruct (anomaly_before a a) eqn:H; [|done]. apply anomaly_before_iff in H.
  destruct H as [?|[_ [[]%str_lt_irrefl|[_ []%str_lt_irrefl]]]]. lia.
Qed.

Lemma anomaly_tie a b :
  anomaly_before a b = false → anomaly_before b a = false →
  sev_rank (an_Severity a) = sev_rank (an_Severity b) ∧ an_DefKey a = an_DefKey b ∧
  sr_ID (an_Subject a) = sr_ID (an_Subject b).
Proof.
  intros H1 H2. apply not_true_iff_false in H1, H2. rewrite anomaly_before_iff in H1, H2.
  destruct (Z.lt_trichotomy (sev_rank (an_Severity a)) (sev_rank (an_Severity b))) as [?|[?|?]];
    [naive_solver| |naive_solver].
  destruct (str_lt_trichotomy (an_DefKey a) (an_DefKey b)) as [?|[?|?]]; [naive_solver| |naive_solver].
  destruct (str_lt_trichotomy (sr_ID (an_Subject a)) (sr_ID (an_Subject b))) as [?|[?|?]]; naive_solver.
Qed.

#[export] Instance anomaly_le_total : Total anomaly_le.
Proof.
  intros a b. unfold anomaly_le. destruct (anomaly_before b a) eqn:H; [|by left]. right.
  destruct (anomaly_before a b) eqn:H2; [|done].
  pose proof (anomaly_before_trans _ _ _ H H2) as Hc. by rewrite anomaly_before_irrefl in Hc.
Qed.

#[export] Instance anomaly_le_trans : Transitive anomaly_le.
Proof.
  intros a b c Hab Hbc. unfold anomaly_le in *. destruct (anomaly_before c a) eqn:Hca; [|done].
  destruct (anomaly_before a b) eqn:E1.
  { by rewrite (anomaly_before_trans _ _ _ Hca E1) in Hbc. }
  destruct (anomaly_before b c) eqn:E2.
  { by rewrite (anomaly_before_trans _ _ _ E2 Hca) in Hab. }
  destruct (anomaly_tie a b E1 Hab) as (R1 & D1 & I1), (anomaly_tie b c E2 Hbc) as (R2 & D2 & I2).
  apply anomaly_before_iff in Hca. rewrite R1, R2, D1, D2, I1, I2 in Hca.
  destruct Hca as [?|[_ [[]%str_lt_irrefl|[_ []%str_lt_irrefl]]]]. lia.
Qed.

(** Two sorted arrangements of the same anomalies agree when no two of them
    tie. *)
Lemma sorted_unique (l1 l2 : list Anomaly) :
  StronglySorted anomaly_le l1 → StronglySorted anomaly_le l2 → l1 ≡ₚ l2 →
  (∀ a b, a ∈ l1 → b ∈ l1 → anomaly_le a b → anomaly_le b a → a = b) → l1 = l2.
Proof.
  intros H1. revert l2. induction H1 as [|a l1 H1 IH Ha]; intros l2 H2 Hp Htie.
  { by apply Permutation_nil_l in Hp. }
  destruct H2 as [|b l2 H2 Hb].
  { by apply Permutation_nil_r in Hp. }
  assert (a = b) as ->.
  { assert (b ∈ a :: l1) as Hbin by (rewrite Hp; by left).
    assert (a ∈ b :: l2) as Hain by (rewrite <-Hp; by left).
    apply Htie; [by left|done| |].
    - apply elem_of_cons in Hbin as [->|Hbin]; [by destruct (total anomaly_le a a)|].
      rewrite list.Forall_forall in Ha. by apply Ha.
    - apply elem_of_cons in Hain as [->|Hain]; [by destruct (total anomaly_le b b)|].
      rewrite list.Forall_forall in Hb. by apply Hb. }
  f_equal. apply IH; [done|by apply Permutation_cons_inv in Hp|].
  intros x y Hx Hy. apply Htie; by right.
Qed.

(** ** The engine *)

Definition tracked_ok (e : Engine) (k : instanceKey) (t : tracked) : Prop :=
  det_key (tr_det t) = k ∧ is_Some (en_catalog e !! ik_def k) ∧
  tr_firstSeen t ≤ tr_lastSeen t ∧ 1 ≤ tr_count t ∧ sev_valid (tr_base t) = true.

Record engine_ok (e : Engine) : Prop := {
  eo_catalog : catalog_ok (en_catalog e);
  eo_active : map_Forall (tracked_ok e) (en_active e);
}.

Lemma NewEngine_ok catalog caps n : catalog_ok catalog → engine_ok (NewEngine catalog caps n).
Proof. intros Hc. split; [done|]. apply map_Forall_empty. Qed.

Lemma set_active_ok e m : engine_ok e → map_Forall (tracked_ok e) m → engine_ok (set_active e m).
Proof. intros [Hc _] Hm. by split. Qed.

Lemma baseSeverity_valid e d :
  engine_ok e → is_Some (en_catalog e !! dt_DefKey d) →
  dt_Severity d = SeverityUnset ∨ sev_valid (dt_Severity d) = true →
  sev_valid (baseSeverity e d) = true.
Proof.
  intros [Hc _] [def Hd] Hs. unfold baseSeverity. rewrite Hd. simpl.
  case_bool_decide; [|by destruct Hs]. by destruct (Hc _ _ Hd) as (_ & _ & _ & _ & _ & _ & ? & _).
Qed.

(** What an observation does, case by case. *)
Lemma observe_cases e d at_ :
  engine_ok e →
  let k := det_key d in
  match observe e d at_ with
  | (e', inr err) => e' = e ∧
      (en_catalog e !! dt_DefKey d = None ∨
       (dt_Severity d ≠ SeverityUnset ∧ sev_valid (dt_Severity d) = false))
  | (e', inl res) =>
      engine_ok e' ∧ ob_key res = k ∧ ob_created res = bool_decide (en_active e !! k = None) ∧
      ∃ t', tr_det t' = d ∧ tr_base t' = baseSeverity e d ∧
        e' = set_active e (<[k := t']> (en_active e)) ∧
        match en_active e !! k with
        | None => tr_firstSeen t' = at_ ∧ tr_lastSeen t' = at_ ∧ tr_count t' = 1 ∧
                  ob_material res = true
        | Some t =>
            tr_firstSeen t' = tr_firstSeen t ∧ tr_lastSeen t' = Z.max (tr_lastSeen t) at_ ∧
            tr_count t' = tr_count t + 1 ∧
            (ob_material res = false ↔
             tr_base t' = tr_base t ∧ effectiveSeverity e' t' = effectiveSeverity e t)
        end
  end.
Proof.
  intros He. cbv zeta. unfold observe. destruct (en_catalog e !! dt_DefKey d) as [def|] eqn:Hdef.
  2: { split; [done|]. by left. }
  destruct (negb (bool_decide (dt_Severity d = SeverityUnset)) && negb (sev_valid (dt_Severity d)))
    eqn:Hsev.
  { apply andb_true_iff in Hsev as [H1%negb_true_iff%bool_decide_eq_false_1 H2%negb_true_iff].
    split; [done|]. by right. }
  assert (sev_valid (baseSeverity e d) = true) as Hbase.
  { apply baseSeverity_valid; [done|eauto|].
    apply andb_false_iff in Hsev as [H%negb_false_iff%bool_decide_eq_true_1|H%negb_false_iff]; auto. }
  destruct (en_active e !! det_key d) as [t|] eqn:Ht.
  - destruct (eo_active _ He _ _ Ht) as (_ & _ & Hfl & Hcount & _). split_and!; try done.
    + apply set_active_ok; [done|]. apply map_Forall_insert_2; [|apply He].
      split_and!; simpl; [done|by rewrite Hdef|unfold time_after; destruct (Z.ltb_spec (tr_lastSeen t) at_)|..];
        try done; lia.
    + exists (Tracked d (baseSeverity e d) (tr_firstSeen t)
                (if time_after at_ (tr_lastSeen t) then at_ else tr_lastSeen t) (tr_count t + 1)).
      split_and!; [done|done|done|done| |done|]; simpl.
      * unfold time_after. destruct (Z.ltb_spec (tr_lastSeen t) at_); lia.
      * unfold effectiveSeverity. simpl. rewrite orb_false_iff, !negb_false_iff, !bool_decide_eq_true.
        unfold effectiveSeverityOf. simpl. split; intros [-> ?]; done.
  - split_and!; try done.
    + apply set_active_ok; [done|]. apply map_Forall_insert_2; [|apply He].
      split_and!; simpl; done || (by rewrite Hdef) || lia.
    + exists (Tracked d (baseSeverity e d) at_ at_ 1). by split_and!.
Qed.

(** Observing a detection does what the stream promises: an unknown
    definition or an invalid severity is refused and changes nothing;
    otherwise exactly the instance of its type and subject changes, to one
    seen once or one seen once more, with the earliest first and the latest
    last sighting, the new detection's evidence and base severity, and the
    change is material exactly when the instance is new or its base or
    effective severity changed. The engine's invariant is kept. *)
Theorem observe_spec e d at_ :
  engine_ok e →
  let k := det_key d in
  match observe e d at_ with
  | (e', inr err) => e' = e ∧
      (en_catalog e !! dt_DefKey d = None ∨
       (dt_Severity d ≠ SeverityUnset ∧ sev_valid (dt_Severity d) = false))
  | (e', inl res) =>
      engine_ok e' ∧ ob_key res = k ∧ ob_created res = bool_decide (en_active e !! k = None) ∧
      ∃ t', tr_det t' = d ∧ tr_base t' = baseSeverity e d ∧
        e' = set_active e (<[k := t']> (en_active e)) ∧
        match en_active e !! k with
        | None => tr_firstSeen t' = at_ ∧ tr_lastSeen t' = at_ ∧ tr_count t' = 1 ∧
                  ob_material res = true
        | Some t =>
            tr_firstSeen t' = tr_firstSeen t ∧ tr_lastSeen t' = Z.max (tr_lastSeen t) at_ ∧
            tr_count t' = tr_count t + 1 ∧
            (ob_material res = false ↔
             tr_base t' = tr_base t ∧ effectiveSeverity e' t' = effectiveSeverity e t)
        end
  end.
Proof. exact (observe_cases e d at_). Qed.

(** Escalation raises a severity by at most one level, and only once the
    instance recurred often enough; it never lowers it, never passes critical
    and never goes back while the instance keeps its base severity. *)
Theorem effectiveSeverity_spec e base n m :
  sev_valid base = true → n ≤ m →
  let r := sev_rank (effectiveSeverityOf e base n) in
  sev_rank base ≤ r ≤ Z.min 4 (sev_rank base + 1) ∧
  (r ≠ sev_rank base → 0 < en_escalateAfter e ≤ n) ∧
  r ≤ sev_rank (effectiveSeverityOf e base m).
Proof.
  intros Hb Hnm. cbv zeta. unfold effectiveSeverityOf.
  destruct (Z.leb_spec (en_escalateAfter e) 0); simpl.
  { destruct base; simpl in *; try done; lia. }
  destruct (Z.ltb_spec n (en_escalateAfter e)), (Z.ltb_spec m (en_escalateAfter e));
    destruct base; simpl in *; try done; lia.
Qed.

Section engine_facts.
Context `{!RangeOrder instanceKey}.

Lemma foldr_delete_lookup {V} (m : gmap instanceKey V) ks k :
  foldr delete m ks !! k = if decide (k ∈ ks) then None else m !! k.
Proof.
  induction ks as [|k' ks IH]; [done|]. cbn [foldr]. destruct (decide (k = k')) as [->|Hne].
  - rewrite lookup_delete_eq, decide_True; [done|by left].
  - rewrite lookup_delete_ne by done. rewrite IH.
    destruct (decide (k ∈ ks)), (decide (k ∈ k' :: ks)) as [Hin|Hin]; try done.
    + destruct Hin. by right.
    + by apply elem_of_cons in Hin as [?|?].
Qed.

Lemma elem_of_cleared e dead k :
  k ∈ (clear_keys e dead).2 ↔ ∃ t, en_active e !! k = Some t ∧ dead k t = true.
Proof.
  unfold clear_keys. simpl. rewrite list_elem_of_fmap. split.
  - intros ([k' t] & -> & [Hd Hin]%list_elem_of_filter). apply elem_of_range in Hin. eauto.
  - intros (t & Ht & Hd). exists (k, t). split; [done|]. apply list_elem_of_filter.
    split; [done|]. by apply elem_of_range.
Qed.

Lemma clear_keys_spec e dead :
  let '(e', keys) := clear_keys e dead in
  NoDup keys ∧ (∀ k, k ∈ keys ↔ ∃ t, en_active e !! k = Some t ∧ dead k t = true) ∧
  en_catalog e' = en_catalog e ∧ en_capabilities e' = en_capabilities e ∧
  en_escalateAfter e' = en_escalateAfter e ∧
  ∀ k, en_active e' !! k = t ← en_active e !! k; if dead k t then None else Some t.
Proof.
  pose proof (elem_of_cleared e dead) as Hin. unfold clear_keys in *. simpl in Hin.
  split_and!; try done.
  - apply NoDup_fmap_fst.
    + intros k t1 t2 [_ H1]%list_elem_of_filter [_ H2]%list_elem_of_filter.
      apply elem_of_range in H1, H2. congruence.
    + apply NoDup_filter. rewrite range_perm. apply NoDup_map_to_list.
  - intros k. simpl. rewrite foldr_delete_lookup. destruct (decide _) as [Hk|Hk]; rewrite Hin in Hk.
    + destruct Hk as (t & -> & Hd). simpl. by rewrite Hd.
    + destruct (en_active e !! k) as [t|]; simpl; [|done]. destruct (dead k t) eqn:Hd; [|done].
      destruct Hk. eauto.
Qed.

(** Pruning a source clears exactly that source's instances that were
    not seen since the cutoff, whatever order the map is walked in: other
    sources' instances and live ones stay, and the keys returned are
    exactly those cleared, each once. *)
Theorem pruneKeysForSource_spec e source cutoff :
  let '(e', keys) := pruneKeysForSource e source cutoff in
  NoDup keys ∧
  (∀ k, k ∈ keys ↔ ∃ t, en_active e !! k = Some t ∧ dt_Source (tr_det t) = source ∧
                        tr_lastSeen t < cutoff) ∧
  ∀ k, en_active e' !! k =
    t ← en_active e !! k;
    if bool_decide (dt_Source (tr_det t) = source) && (tr_lastSeen t <? cutoff)
    then None else Some t.
Proof.
  unfold pruneKeysForSource. pose proof (clear_keys_spec e (λ _ t,
    bool_decide (dt_Source (tr_det t) = source) && time_before (tr_lastSeen t) cutoff)) as Hc.
  destruct (clear_keys _ _) as [e' keys]. destruct Hc as (Hn & Hk & _ & _ & _ & Ha).
  split_and!; [done| |done]. intros k. rewrite Hk. f_equiv. intros t.
  rewrite andb_true_iff, bool_decide_eq_true. unfold time_before. by rewrite Z.ltb_lt.
Qed.

Lemma clear_keys_ok e dead : engine_ok e → engine_ok (clear_keys e dead).1.
Proof.
  intros He. pose proof (clear_keys_spec e dead) as Hc.
  unfold clear_keys in *. apply set_active_ok; [done|]. intros k t Hk.
  destruct Hc as (_ & _ & _ & _ & _ & Ha). simpl in Ha. rewrite Ha in Hk.
  apply bind_Some in Hk as (t' & Ht' & Hd). destruct (dead k t'); [done|]. injection Hd as <-.
  by apply He.
Qed.

Lemma project_key e k t :
  engine_ok e → en_active e !! k = Some t →
  an_DefKey (project e t) = ik_def k ∧ sr_Kind (an_Subject (project e t)) = ik_kind k ∧
  sr_ID (an_Subject (project e t)) = ik_id k.
Proof.
  intros He Ht. destruct (eo_active _ He _ _ Ht) as (<- & [def Hdef] & _). simpl in *.
  rewrite Hdef. simpl. by destruct (eo_catalog _ He _ _ Hdef) as [-> _].
Qed.
End engine_facts.

(** A snapshot shows every live instance once, most urgent first, then by
    definition and subject; when no two instances share definition and
    subject identifier it is the same whatever order the map is walked in. *)
Theorem Snapshot_deterministic e (order1 order2 : RangeOrder instanceKey) :
  engine_ok e →
  (∀ k1 k2, is_Some (en_active e !! k1) → is_Some (en_active e !! k2) →
     ik_def k1 = ik_def k2 → ik_id k1 = ik_id k2 → k1 = k2) →
  StronglySorted anomaly_le (@Snapshot order1 e) ∧
  @Snapshot order1 e ≡ₚ map (λ kt, project e kt.2) (map_to_list (en_active e)) ∧
  @Snapshot order1 e = @Snapshot order2 e.
Proof.
  intros He Hne.
  assert (∀ o : RangeOrder instanceKey,
    @Snapshot o e ≡ₚ map (λ kt, project e kt.2) (map_to_list (en_active e))) as Hperm.
  { intros o. unfold Snapshot, SortAnomalies. rewrite merge_sort_Permutation.
    apply Permutation_map, range_perm. }
  assert (∀ o : RangeOrder instanceKey, StronglySorted anomaly_le (@Snapshot o e)) as Hsort.
  { intros o. apply StronglySorted_merge_sort; apply _. }
  split_and!; [done|done|]. apply sorted_unique; [done|done|by rewrite !Hperm|].
  intros a b Ha Hb Hab Hba. rewrite Hperm in Ha, Hb.
  apply list_elem_of_fmap in Ha as ([k1 t1] & -> & H1), Hb as ([k2 t2] & -> & H2).
  apply elem_of_map_to_list in H1, H2. destruct (anomaly_tie _ _ Hba Hab) as (_ & Hd & Hi).
  destruct (project_key e k1 t1 He H1) as (D1 & _ & I1), (project_key e k2 t2 He H2) as (D2 & _ & I2).
  simpl in *. assert (k1 = k2) as -> by (apply Hne; eauto; congruence). congruence.
Qed.

(** ** A worked stream *)

Definition demo_defs : list Def :=
  [ MkDef "rogue-ap" CategorySecurity SeverityWarning ["802.11"] "Rogue AP" "d" "i" "r"
      [MkFollowUp FollowUpPrompt "Locate" "wifi-locate" "wifi"];
    MkDef "crc-errors" CategoryNetHealth SeverityInfo ["802.3"] "CRC errors" "d" "i" "r" [] ].

Definition demo_catalog : gmap string Def :=
  match NewCatalog demo_defs with inl c => c | inr _ => ∅ end.

Definition demo_engine : Engine := NewEngine demo_catalog ["wifi"] (Some 2).

Definition demo_ap : SubjectRef := MkSubjectRef SubjectBSSID "aa:bb".
Definition demo_rogue : Detection := MkDetection "rogue-ap" demo_ap SeverityUnset ∅ "wifi".
Definition demo_crc : Detection :=
  MkDetection "crc-errors" (MkSubjectRef SubjectInterface "eth0") SeverityUnset ∅ "device".

Lemma demo_catalog_ok : catalog_ok demo_catalog.
Proof. apply (add_defs_ok demo_defs ∅); [apply map_Forall_empty|reflexivity]. Qed.

Lemma demo_engine_ok : engine_ok demo_engine.
Proof. apply NewEngine_ok, demo_catalog_ok. Qed.

Lemma NewCatalog_ok_witness :
  catalog_ok demo_catalog ∧ (∀ d, d ∈ demo_defs → demo_catalog !! df_ID d = Some d) ∧
  size demo_catalog = length demo_defs.
Proof. exact (NewCatalog_ok demo_defs demo_catalog eq_refl). Defined.

(** A first sighting creates the instance; an invalid severity is refused. *)
Lemma observe_spec_witness :
  match observe demo_engine demo_rogue 10 with
  | (e', inl res) => engine_ok e' ∧ ob_created res = true
  | _ => False
  end.
Proof.
  pose proof (observe_spec demo_engine demo_rogue 10 demo_engine_ok) as H.
  destruct (observe demo_engine demo_rogue 10) as [e' [res|err]] eqn:Ho.
  - destruct H as (H1 & _ & H2 & _). by split.
  - vm_compute in Ho. discriminate.
Defined.

Lemma effectiveSeverity_spec_witness :
  effectiveSeverityOf demo_engine SeverityWarning 1 = SeverityWarning ∧
  effectiveSeverityOf demo_engine SeverityWarning 2 = SeverityError ∧
  sev_rank (effectiveSeverityOf demo_engine SeverityWarning 1) ≤
  sev_rank (effectiveSeverityOf demo_engine SeverityWarning 2).
Proof.
  split_and!; [reflexivity..|].
  by apply (effectiveSeverity_spec demo_engine SeverityWarning 1 2).
Defined.

Definition demo_seen : Engine := (observe (observe demo_engine demo_rogue 10).1 demo_crc 20).1.

Lemma demo_seen_ok : engine_ok demo_seen.
Proof.
  pose proof (observe_cases demo_engine demo_rogue 10 demo_engine_ok) as H1.
  pose proof (observe_cases (observe demo_engine demo_rogue 10).1 demo_crc 20) as H2.
  unfold demo_seen. destruct (observe demo_engine demo_rogue 10) as [e1 [r1|]]; cbn [fst] in *.
  - specialize (H2 (proj1 H1)). destruct (observe e1 demo_crc 20) as [e2 [r2|]]; [apply H2|].
    destruct H2 as [-> _]. apply H1.
  - destruct H1 as [-> _]. specialize (H2 demo_engine_ok).
    destruct (observe demo_engine demo_crc 20) as [e2 [r2|]]; [apply H2|].
    destruct H2 as [-> _]. apply demo_engine_ok.
Qed.

(** The reverse of [key_order]. *)
#[export] Program Instance rev_order `{Countable K} : RangeOrder K | 200 :=
  {| range := λ V m, reverse (map_to_list m) |}.
Next Obligation. intros. apply reverse_Permutation. Qed.

Lemma Snapshot_deterministic_witness :
  @Snapshot key_order demo_seen = @Snapshot rev_order demo_seen ∧
  map an_DefKey (@Snapshot key_order demo_seen) = ["rogue-ap"; "crc-errors"].
Proof.
  split; [|vm_compute; reflexivity].
  eapply (Snapshot_deterministic demo_seen key_order rev_order demo_seen_ok).
  intros k1 k2 H1 H2 Hd Hi.
  assert (∀ k, is_Some (en_active demo_seen !! k) → k = det_key demo_rogue ∨ k = det_key demo_crc) as Hk.
  { intros k [t Ht]. revert k t Ht.
    apply (bool_decide_unpack (map_Forall (λ k _, k = det_key demo_rogue ∨ k = det_key demo_crc)
      (en_active demo_seen))). vm_compute. exact I. }
  by destruct (Hk k1 H1) as [->| ->], (Hk k2 H2) as [->| ->].
Defined.

(** An instance restored from the store counts its past escalation twice: it
    is shown one level above the severity that was stored. *)
Example restored_escalates_again :
  let live := (observe (observe demo_engine demo_rogue 10).1 demo_rogue 20).1 in
  let restored := (Restore demo_engine (recordsForKeys live [det_key demo_rogue])).1 in
  map an_Severity (Snapshot live) = [SeverityError] ∧
  map an_Severity (Snapshot restored) = [SeverityCritical].
Proof. vm_compute. by split. Qed.
