(* ===== verification/AnomalySync.v ===== *)
(** * The anomaly coordinator and its store (src/internal/anomaly:
    coordinator.go, store.go, and database/repository_anomalies.go)

    The coordinator writes the engine's live instances through to a store.
    Its calls run concurrently, and each is several critical sections: of the
    engine's lock, of the coordinator's, and the store's transactions. A call
    is a [job] here, [advance] is one section of it, and a run interleaves the
    sections of any number of calls. *)
From Stdlib Require Import ZArith Lia Ascii.
From stdpp Require Import base gmap sets list strings sorting.
From S2P Require Import Prelude GoBase Anomaly.

(** ** The store *)

(** A row of the table, its identifier apart: the columns of the record, and
    the time it was resolved, if it was. *)
Record Row : Type := MkRow {
  rw_Source : string;
  rw_Anomaly : Anomaly;
  rw_ResolvedAt : option Z;
}.

(** [Format(time.RFC3339)] keeps whole seconds. *)
Definition rfc3339 (t : Z) : Z := t - t mod second.

(** The values of the INSERT: the catalog's impact and follow-ups are not
    stored. *)
Definition row_of (r : AnomalyRecord) : Row :=
  let a := rc_Anomaly r in
  MkRow (rc_Source r)
    (MkAnomaly (an_DefKey a) (an_Category a) (an_Severity a) (an_Subject a) (an_Title a)
       (an_Description a) "" (an_Recommendation a) (an_Standards a) (an_Evidence a) []
       (rfc3339 (an_FirstSeen a)) (rfc3339 (an_LastSeen a)) (an_Count a)) None.

(** ON CONFLICT: the row keeps its source, definition, category, subject and
    first sighting. *)
Definition on_conflict (old excluded : Row) : Row :=
  let o := rw_Anomaly old in
  let x := rw_Anomaly excluded in
  MkRow (rw_Source old)
    (MkAnomaly (an_DefKey o) (an_Category o) (an_Severity x) (an_Subject o) (an_Title x)
       (an_Description x) "" (an_Recommendation x) (an_Standards x) (an_Evidence x) []
       (an_FirstSeen o) (an_LastSeen x) (an_Count x)) None.

Definition upsertAnomaly (m : gmap string Row) (r : AnomalyRecord) : gmap string Row :=
  <[rc_ID r := match m !! rc_ID r with
               | None => row_of r
               | Some old => on_conflict old (row_of r)
               end]> m.

(** [Store]: a state [S] whose rows are keyed by record identifier. A call is
    a transaction: one that fails changes nothing. *)
Class Store (S E : Type) : Type := {
  Upsert : S → list AnomalyRecord → S * option E;
  MarkResolved : S → list string → Z → S * option E;
  LoadActive : S → S * (list AnomalyRecord + E);
  rows : S → gmap string Row;
  upsert_law : ∀ s recs,
    let '(s', err) := Upsert s recs in
    rows s' = match err with
              | None => foldl upsertAnomaly (rows s) recs
              | Some _ => rows s
              end;
  resolve_law : ∀ s ids at_,
    let '(s', err) := MarkResolved s ids at_ in
    ∀ id, rows s' !! id =
      match err, rows s !! id with
      | None, Some (MkRow src a None) =>
          Some (MkRow src a (if decide (id ∈ ids) then Some (rfc3339 at_) else None))
      | _, x => x
      end;
  load_law : ∀ s,
    let '(s', r) := LoadActive s in
    rows s' = rows s ∧
    match r with
    | inl l => ∀ r, r ∈ l ↔ rows s !! rc_ID r = Some (MkRow (rc_Source r) (rc_Anomaly r) None)
    | inr _ => True
    end;
}.

(** ** The repository *)

(** [AnomalyRepository]: its table, and whether each next statement of the
    database fails. *)
Record AnomalyRepository : Type := MkRepository {
  rp_rows : gmap string Row;
  rp_faults : list bool;
}.

Definition locked : string := "database is locked".

(** [WithTx]: a transaction that commits [m], or fails and is rolled back. *)
Definition WithTx (s : AnomalyRepository) (m : gmap string Row) : AnomalyRepository * option string :=
  if hd false (rp_faults s) then (MkRepository (rp_rows s) (tail (rp_faults s)), Some locked)
  else (MkRepository m (tail (rp_faults s)), None).

Definition repo_Upsert (s : AnomalyRepository) (recs : list AnomalyRecord) : AnomalyRepository * option string :=
  if len recs =? 0 then (s, None)
  else WithTx s (foldl upsertAnomaly (rp_rows s) recs).

Definition resolve_row (at_ : Z) (w : Row) : Row :=
  match rw_ResolvedAt w with
  | None => MkRow (rw_Source w) (rw_Anomaly w) (Some (rfc3339 at_))
  | Some _ => w
  end.

Definition repo_MarkResolved (s : AnomalyRepository) (ids : list string) (at_ : Z)
    : AnomalyRepository * option string :=
  if len ids =? 0 then (s, None)
  else WithTx s (foldl (λ m id, alter (resolve_row at_) id m) (rp_rows s) ids).

(** The order of the query, [ORDER BY id]. *)
Definition by_id (a b : string * Row) : Prop := str_le a.1 b.1.
#[export] Instance by_id_dec : RelDecision by_id := λ a b, decide (str_le a.1 b.1).

Definition repo_LoadActive (s : AnomalyRepository) : AnomalyRepository * (list AnomalyRecord + string) :=
  if hd false (rp_faults s) then (MkRepository (rp_rows s) (tail (rp_faults s)), inr locked)
  else (MkRepository (rp_rows s) (tail (rp_faults s)),
        inl (omap (λ '(id, w), match rw_ResolvedAt w with
                               | None => Some (MkAnomalyRecord id (rw_Source w) (rw_Anomaly w))
                               | Some _ => None
                               end) (merge_sort by_id (map_to_list (rp_rows s))))).

Lemma alter_all_lookup (f : Row → Row) ids (m : gmap string Row) id :
  (∀ w, f (f w) = f w) →
  foldl (λ m id, alter f id m) m ids !! id = if decide (id ∈ ids) then f <$> m !! id else m !! id.
Proof.
  intros Hf. revert m. induction ids as [|x ids IH]; intros m; [done|]. cbn [foldl]. rewrite IH.
  destruct (decide (x = id)) as [->|Hne].
  - rewrite lookup_alter_eq. rewrite (decide_True (P := id ∈ id :: ids)) by by left.
    destruct (decide (id ∈ ids)); [|done]. destruct (m !! id); cbn; by rewrite ?Hf.
  - rewrite lookup_alter_ne by done.
    destruct (decide (id ∈ ids)), (decide (id ∈ x :: ids)) as [Hin|Hin]; try done.
    + destruct Hin. by right.
    + apply elem_of_cons in Hin as [->|?]; [congruence|done].
Qed.

Lemma WithTx_rows s m :
  rp_rows (WithTx s m).1 = match (WithTx s m).2 with None => m | Some _ => rp_rows s end.
Proof. unfold WithTx. by destruct (hd false (rp_faults s)). Qed.

Lemma repo_upsert_law s recs :
  rp_rows (repo_Upsert s recs).1 =
  match (repo_Upsert s recs).2 with None => foldl upsertAnomaly (rp_rows s) recs | Some _ => rp_rows s end.
Proof. unfold repo_Upsert. destruct recs; [done|]. destruct (Z.eqb_spec (len (a :: recs)) 0); [|apply WithTx_rows]. rewrite len_cons in e. pose proof (len_nonneg recs). lia. Qed.

Lemma repo_resolve_law s ids at_ id :
  rp_rows (repo_MarkResolved s ids at_).1 !! id =
  match (repo_MarkResolved s ids at_).2, rp_rows s !! id with
  | None, Some (MkRow src a None) => Some (MkRow src a (if decide (id ∈ ids) then Some (rfc3339 at_) else None))
  | _, x => x
  end.
Proof.
  unfold repo_MarkResolved. destruct ids as [|x ids].
  - change (len [] =? 0) with true. cbn [fst snd]. rewrite decide_False by apply not_elem_of_nil.
    by destruct (rp_rows s !! id) as [[src a [y|]]|].
  - destruct (Z.eqb_spec (len (x :: ids)) 0) as [E|_]; [rewrite len_cons in E; pose proof (len_nonneg ids); lia|].
    rewrite WithTx_rows. destruct (WithTx s _).2; [done|]. rewrite alter_all_lookup; [|by intros [? ? []]].
    destruct (rp_rows s !! id) as [[src a [y|]]|]; destruct (decide _); done.
Qed.

Lemma repo_load_law s :
  rp_rows (repo_LoadActive s).1 = rp_rows s ∧
  match (repo_LoadActive s).2 with
  | inl l => ∀ r, r ∈ l ↔ rp_rows s !! rc_ID r = Some (MkRow (rc_Source r) (rc_Anomaly r) None)
  | inr _ => True
  end.
Proof.
  unfold repo_LoadActive. destruct (hd false (rp_faults s)); [done|]. split; [done|]. cbn [snd]. intros [id src a].
  rewrite list_elem_of_omap. cbn [rc_ID rc_Source rc_Anomaly]. split.
  - intros ([id' [src' a' [x|]]] & Hin & Hr); [done|]. injection Hr as -> -> ->.
    rewrite merge_sort_Permutation in Hin. by apply elem_of_map_to_list in Hin.
  - intros Hr. exists (id, MkRow src a None). split; [|done].
    rewrite merge_sort_Permutation. by apply elem_of_map_to_list.
Qed.

#[export] Program Instance AnomalyRepository_store : Store AnomalyRepository string := {|
  Upsert := repo_Upsert;
  MarkResolved := repo_MarkResolved;
  LoadActive := repo_LoadActive;
  rows := rp_rows;
|}.
Next Obligation.
  intros s recs. pose proof (repo_upsert_law s recs) as H. by destruct (repo_Upsert s recs).
Qed.
Next Obligation.
  intros s ids at_. pose proof (repo_resolve_law s ids at_) as H. by destruct (repo_MarkResolved s ids at_).
Qed.
Next Obligation. intros s. pose proof (repo_load_law s) as H. by destruct (repo_LoadActive s). Qed.

(** ** The coordinator *)

Section coordinator.
Context {S E : Type} `{!Store S E} `{!RangeOrder instanceKey}.

(** [Coordinator]; its store's state rides along. *)
Record Coordinator : Type := MkCoordinator {
  co_engine : Engine;
  co_store : S;
  co_dirty : gset instanceKey;
}.

Definition NewCoordinator (e : Engine) (s : S) : Coordinator := MkCoordinator e s ∅.

Definition set_engine (c : Coordinator) (e : Engine) : Coordinator := MkCoordinator e (co_store c) (co_dirty c).
Definition set_dirty (c : Coordinator) (d : gset instanceKey) : Coordinator := MkCoordinator (co_engine c) (co_store c) d.
Definition set_store (c : Coordinator) (s : S) : Coordinator := MkCoordinator (co_engine c) s (co_dirty c).

(** A call, by the critical section it has before it: [Observing], [Flushing],
    [Pruning] and [Resolving] have just been called; [Returned] holds the
    number cleared and the error, the engine's or the store's. *)
Inductive job : Type :=
| Observing (d : Detection) (at_ : Z)
| Observed (key : instanceKey)
| Marking (key : instanceKey)
| Flushing
| Flushed (keys : list instanceKey)
| Upserting (recs : list AnomalyRecord)
| Pruning (source : string) (cutoff : Z)
| Resolving (subject : SubjectRef) (at_ : Z)
| Cleared (keys : list instanceKey) (at_ : Z)
| Closing (keys : list instanceKey) (at_ : Z)
| Returned (n : Z) (err : option (engine_error + E)).

(** [resolveKeys] up to its lock. *)
Definition resolveKeys (keys : list instanceKey) (at_ : Z) : job :=
  if len keys =? 0 then Returned 0 None else Cleared keys at_.

(** One critical section of a call. *)
Definition advance (c : Coordinator) (j : job) : Coordinator * job :=
  match j with
  (* Observe *)
  | Observing d at_ =>
      match observe (co_engine c) d at_ with
      | (_, inr err) => (c, Returned 0 (Some (inl err)))
      | (e, inl res) =>
          (set_engine c e, if ob_material res then Observed (ob_key res) else Marking (ob_key res))
      end
  | Observed key => (c, Upserting (recordsForKeys (co_engine c) [key]))
  | Marking key => (set_dirty c ({[ key ]} ∪ co_dirty c), Returned 0 None)
  (* Flush *)
  | Flushing => (set_dirty c ∅, Flushed (range_set (co_dirty c)))
  | Flushed keys =>
      let recs := recordsForKeys (co_engine c) keys in
      (c, if len recs =? 0 then Returned 0 None else Upserting recs)
  (* both *)
  | Upserting recs =>
      let '(s, err) := Upsert (co_store c) recs in
      (set_store c s, Returned 0 (inr <$> err))
  (* Prune, ResolveSubject *)
  | Pruning source cutoff =>
      let '(e, keys) := pruneKeysForSource (co_engine c) source cutoff in
      (set_engine c e, resolveKeys keys cutoff)
  | Resolving subject at_ =>
      let '(e, keys) := clearSubject (co_engine c) subject in
      (set_engine c e, resolveKeys keys at_)
  | Cleared keys at_ => (set_dirty c (co_dirty c ∖ list_to_set keys), Closing keys at_)
  | Closing keys at_ =>
      let '(s, err) := MarkResolved (co_store c) (map recordID keys) at_ in
      (set_store c s, Returned (len keys) (inr <$> err))
  | Returned n err => (c, j)
  end.

(** A call that nothing interrupts. *)
Definition alone (c : Coordinator) (j : job) : Coordinator * job :=
  let '(c, j) := advance c j in
  let '(c, j) := advance c j in
  advance c j.

Definition Observe (c : Coordinator) (d : Detection) (at_ : Z) := alone c (Observing d at_).
Definition Flush (c : Coordinator) := alone c Flushing.
Definition Prune (c : Coordinator) (source : string) (cutoff : Z) := alone c (Pruning source cutoff).
Definition ResolveSubject (c : Coordinator) (subject : SubjectRef) (at_ : Z) := alone c (Resolving subject at_).

(** [Load]; it is called once, before the others. *)
Definition Load (c : Coordinator) : Coordinator * (Z + E) :=
  match LoadActive (co_store c) with
  | (s, inr err) => (set_store c s, inr err)
  | (s, inl recs) =>
      let '(e, n) := Restore (co_engine c) recs in
      (MkCoordinator e s (co_dirty c), inl n)
  end.

(** The coordinator and the calls made on it so far; a call is made, or one
    of them runs its next section. *)
Definition World : Type := Coordinator * list job.

Inductive action : Type :=
| Call (j : job)
| Run (i : nat).

Definition fresh (j : job) : bool :=
  match j with Observing _ _ | Flushing | Pruning _ _ | Resolving _ _ => true | _ => false end.

Definition act (w : World) (a : action) : World :=
  match a with
  | Call j => if fresh j then (w.1, w.2 ++ [j]) else w
  | Run i =>
      match w.2 !! i with
      | None => w
      | Some j => let '(c, j) := advance w.1 j in (c, <[i := j]> w.2)
      end
  end.
End coordinator.
Arguments Coordinator : clear implicits.
Arguments job : clear implicits.
Arguments World : clear implicits.
Arguments action : clear implicits.

(** ** Record identifiers *)

Fixpoint no_bar (s : string) : Prop :=
  match s with
  | EmptyString => True
  | String c s' => c ≠ "|"%char ∧ no_bar s'
  end.

Lemma bar_split a b x y :
  no_bar a → no_bar b → (a +:+ "|" +:+ x)%string = (b +:+ "|" +:+ y)%string → a = b ∧ x = y.
Proof.
  revert b. induction a as [|c a IH]; intros [|c' b] Ha Hb H; simpl in *.
  - by injection H.
  - injection H as <- _. by destruct Hb.
  - injection H as -> _. by destruct Ha.
  - injection H as <- H. destruct (IH b) as [-> ->]; tauto.
Qed.

Lemma kind_no_bar k : no_bar (kind_string k).
Proof. by destruct k. Qed.

Lemma recordID_inj k1 k2 :
  no_bar (ik_def k1) → no_bar (ik_def k2) → recordID k1 = recordID k2 → k1 = k2.
Proof.
  destruct k1 as [d1 s1 i1], k2 as [d2 s2 i2]. unfold recordID. simpl. intros H1 H2 H.
  apply bar_split in H as [-> H]; [|done..].
  apply bar_split in H as [Hs ->]; [|apply kind_no_bar..].
  by destruct s1, s2.
Qed.

(** ** What the store holds *)

Section sync.
Context {S E : Type} `{!Store S E} `{!RangeOrder instanceKey}.

(** A call that has begun has [k] in hand. *)
Definition touches (k : instanceKey) (j : job E) : bool :=
  match j with
  | Observed k' | Marking k' => bool_decide (k' = k)
  | Flushed keys | Cleared keys _ | Closing keys _ => bool_decide (k ∈ keys)
  | Upserting recs => bool_decide (recordID k ∈ map rc_ID recs)
  | _ => false
  end.

Definition failed (j : job E) : bool :=
  match j with Returned _ (Some _) => true | _ => false end.

(** An action that leaves the calls for [k] apart: a call takes [k] in hand
    only while no other call has it, and a write of [k] does not fail. *)
Definition calm (k : instanceKey) (w : World S E) (a : action E) : bool :=
  match a with
  | Call _ => true
  | Run i =>
      match w.2 !! i with
      | None => true
      | Some j =>
          let j' := (advance w.1 j).2 in
          if touches k j then negb (failed j')
          else negb (touches k j') || forallb (λ x, negb (touches k x)) w.2
      end
  end.

Fixpoint calm_run (k : instanceKey) (w : World S E) (acts : list (action E)) : bool :=
  match acts with
  | [] => true
  | a :: acts => calm k w a && calm_run k (act w a) acts
  end.

Definition idle (k : instanceKey) (w : World S E) : bool := forallb (λ j, negb (touches k j)) w.2.

(** A row is [k]'s, and shows what the record says now: all but when the
    first sighting was, of what source and category. *)
Definition keyed (k : instanceKey) (w : Row) : Prop :=
  an_DefKey (rw_Anomaly w) = ik_def k ∧ an_Subject (rw_Anomaly w) = MkSubjectRef (ik_kind k) (ik_id k).

Definition shows (r : AnomalyRecord) (w : Row) : Prop :=
  let a := rc_Anomaly r in
  let b := rw_Anomaly w in
  an_Severity b = an_Severity a ∧ an_Count b = an_Count a ∧ an_LastSeen b = rfc3339 (an_LastSeen a) ∧
  an_Evidence b = an_Evidence a ∧ an_Title b = an_Title a ∧ an_Description b = an_Description a ∧
  an_Recommendation b = an_Recommendation a ∧ an_Standards b = an_Standards a.

(** The store agrees with the engine about [k]: a live instance has an
    unresolved row, which is up to date unless the instance is marked for the
    next flush, and what is not live has no unresolved row. *)
Definition in_sync (k : instanceKey) (c : Coordinator S) : Prop :=
  (∀ w, rows (co_store c) !! recordID k = Some w → keyed k w) ∧
  match en_active (co_engine c) !! k with
  | None => ∀ w, rows (co_store c) !! recordID k = Some w → rw_ResolvedAt w ≠ None
  | Some t => ∃ w, rows (co_store c) !! recordID k = Some w ∧ rw_ResolvedAt w = None ∧
                   (k ∉ co_dirty c → shows (record_of (co_engine c) t) w)
  end.

(** What a row keeps of its first writing. *)
Definition same_start (w w' : Row) : Prop :=
  rw_Source w' = rw_Source w ∧ an_Category (rw_Anomaly w') = an_Category (rw_Anomaly w) ∧
  an_FirstSeen (rw_Anomaly w') = an_FirstSeen (rw_Anomaly w) ∧
  an_DefKey (rw_Anomaly w') = an_DefKey (rw_Anomaly w) ∧ an_Subject (rw_Anomaly w') = an_Subject (rw_Anomaly w).

#[export] Instance same_start_refl : Reflexive same_start.
Proof. by repeat split. Qed.
#[export] Instance same_start_trans : Transitive same_start.
Proof. intros a b c (?&?&?&?&?) (?&?&?&?&?). split_and!; congruence. Qed.

(** A write keeps the start of every row there was. *)
Lemma upserted_start recs (m : gmap string Row) id w :
  m !! id = Some w → ∃ w', foldl upsertAnomaly m recs !! id = Some w' ∧ same_start w w'.
Proof.
  revert m w. induction recs as [|r recs IH]; intros m w Hw; [by exists w|]. cbn [foldl].
  unfold upsertAnomaly at 2. destruct (decide (rc_ID r = id)) as [<-|].
  - rewrite Hw. edestruct IH as (w' & H1 & H2); [apply lookup_insert_eq|]. exists w'. split; [done|].
    etrans; [|exact H2]. done.
  - apply IH. by rewrite lookup_insert_ne.
Qed.

Lemma advance_start (c : Coordinator S) (j : job E) id w :
  rows (co_store c) !! id = Some w →
  ∃ w', rows (co_store (advance c j).1) !! id = Some w' ∧ same_start w w'.
Proof.
  intros Hw. assert (rows (co_store c) !! id = Some w ∧ same_start w w) as Hs by done.
  destruct j; cbn [advance]; try (exists w; exact Hs).
  - destruct (observe _ _ _) as [e [res|err]]; by exists w.
  - pose proof (upsert_law (co_store c) recs) as H. destruct (Upsert _ _) as [s' err]. cbn [fst set_store co_store].
    rewrite H. destruct err; [by exists w|]. by apply upserted_start.
  - pose proof (resolve_law (co_store c) (map recordID keys) at_) as H. destruct (MarkResolved _ _ _) as [s' err].
    cbn [fst set_store co_store]. rewrite H, Hw. destruct err, w as [src a []]; (eexists; split; [done|by repeat split]).
Qed.

Lemma run_start (w : World S E) acts id r :
  rows (co_store w.1) !! id = Some r →
  ∃ r', rows (co_store (foldl act w acts).1) !! id = Some r' ∧ same_start r r'.
Proof.
  revert w r. induction acts as [|a acts IH]; intros w r Hr; [by exists r|]. cbn [foldl].
  assert (∃ r', rows (co_store (act w a).1) !! id = Some r' ∧ same_start r r') as (r' & H1 & H2).
  { destruct a as [j|i]; cbn [act].
    - by destruct (fresh j); exists r.
    - destruct (w.2 !! i) as [j|]; [|by exists r].
      pose proof (advance_start w.1 j id r Hr) as H. by destruct (advance w.1 j). }
  destruct (IH _ _ H1) as (r'' & ? & ?). exists r''. split; [done|by etrans].
Qed.

(** ** One instance and the calls that have it in hand *)

(** A catalog whose definition identifiers do not hold the separator. *)
Context (catalog : gmap string Def).
Hypothesis (Hbar : ∀ id, is_Some (catalog !! id) → no_bar id).
Context (k : instanceKey).
Hypothesis (Hk : no_bar (ik_def k)).

Definition co_wf (c : Coordinator S) : Prop := engine_ok (co_engine c) ∧ en_catalog (co_engine c) = catalog.

(** The keys of a clearing call were live. *)
Definition job_ok (j : job E) : Prop :=
  match j with Cleared keys _ | Closing keys _ => Forall (λ k, no_bar (ik_def k)) keys | _ => True end.

Lemma active_no_bar c k' : co_wf c → is_Some (en_active (co_engine c) !! k') → no_bar (ik_def k').
Proof using Hbar.
  intros [He Hc] [t Ht]. destruct (eo_active _ He _ _ Ht) as (_ & Hd & _). apply Hbar. by rewrite <-Hc.
Qed.

Lemma record_of_id e k' t :
  engine_ok e → en_active e !! k' = Some t → rc_ID (record_of e t) = recordID k'.
Proof.
  intros He Ht. destruct (project_key e k' t He Ht) as (Hd & Hk' & Hi).
  unfold record_of, RecordID, recordID. simpl in *. by rewrite Hd, Hk', Hi.
Qed.

Lemma elem_of_records e keys r :
  r ∈ recordsForKeys e keys ↔ ∃ k' t, k' ∈ keys ∧ en_active e !! k' = Some t ∧ r = record_of e t.
Proof.
  unfold recordsForKeys. rewrite list_elem_of_omap. split.
  - intros (k' & Hin & (t & Ht & ->)%fmap_Some). eauto.
  - intros (k' & t & Hin & Ht & ->). exists k'. by rewrite Ht.
Qed.

(** A record with [k]'s identifier is of [k]. *)
Lemma record_mine c keys r :
  co_wf c → r ∈ recordsForKeys (co_engine c) keys → rc_ID r = recordID k →
  k ∈ keys ∧ ∃ t, en_active (co_engine c) !! k = Some t ∧ r = record_of (co_engine c) t.
Proof using Hbar Hk.
  intros Hw (k' & t & Hin & Ht & ->)%elem_of_records Hid. rewrite (record_of_id _ k') in Hid by (done || apply Hw).
  apply recordID_inj in Hid as ->; [|by eapply active_no_bar; [|eexists]|done]. eauto.
Qed.

Lemma records_touch c keys :
  co_wf c → touches k (Upserting (recordsForKeys (co_engine c) keys)) = true ↔
  k ∈ keys ∧ is_Some (en_active (co_engine c) !! k).
Proof using Hbar Hk.
  intros Hw. cbn. rewrite bool_decide_eq_true. change (map rc_ID ?l) with (rc_ID <$> l).
  rewrite list_elem_of_fmap. split.
  - intros (r & Hid & Hin). destruct (record_mine c keys r Hw Hin) as (? & t & Ht & _); [done|]. split; [done|by exists t].
  - intros [Hin [t Ht]]. exists (record_of (co_engine c) t).
    rewrite (record_of_id _ k) by (done || apply Hw). split; [done|]. apply elem_of_records. eauto.
Qed.

Lemma advance_wf c j : co_wf c → job_ok j → co_wf (advance c j).1 ∧ job_ok (advance c j).2.
Proof using Hbar.
  intros Hw Hj.
  assert (∀ dead at_, co_wf (set_engine c (clear_keys (co_engine c) dead).1) ∧
    job_ok (resolveKeys (clear_keys (co_engine c) dead).2 at_)) as Hclear.
  { intros dead at_. pose proof (clear_keys_ok (co_engine c) dead (proj1 Hw)) as He.
    pose proof (elem_of_cleared (co_engine c) dead) as Hin.
    split; [split; [done|apply Hw]|]. unfold resolveKeys. case_match; [done|]. cbn. apply list.Forall_forall.
    intros k' (t & Ht & _)%Hin. eapply active_no_bar; [done|by exists t]. }
  destruct j; cbn [advance]; try by split.
  - pose proof (observe_cases (co_engine c) d at_ (proj1 Hw)) as Ho.
    destruct (observe _ _ _) as [e [res|err]]; [|by split]. destruct Ho as (He & _ & _ & t' & _ & _ & Hact & _).
    split; [split; [done|]|by destruct (ob_material res)]. cbn [set_engine co_engine]. rewrite Hact. apply Hw.
  - split; [done|]. cbv zeta. by case_match.
  - by destruct (Upsert _ _).
  - unfold pruneKeysForSource. specialize (Hclear (λ _ t, bool_decide (dt_Source (tr_det t) = source)
      && time_before (tr_lastSeen t) cutoff) cutoff). by destruct (clear_keys _ _).
  - unfold clearSubject. specialize (Hclear (λ k _, bool_decide (ik_kind k = sr_Kind subject)
      && bool_decide (ik_id k = sr_ID subject)) at_). by destruct (clear_keys _ _).
  - by destruct (MarkResolved _ _ _).
Qed.

(** What the coordinator, its engine and its store hold of [k]. *)
Record same_view (c c' : Coordinator S) : Prop := {
  sv_catalog : en_catalog (co_engine c') = en_catalog (co_engine c);
  sv_caps : en_capabilities (co_engine c') = en_capabilities (co_engine c);
  sv_escalate : en_escalateAfter (co_engine c') = en_escalateAfter (co_engine c);
  sv_active : en_active (co_engine c') !! k = en_active (co_engine c) !! k;
  sv_row : rows (co_store c') !! recordID k = rows (co_store c) !! recordID k;
  sv_dirty : k ∈ co_dirty c' ↔ k ∈ co_dirty c;
}.

Lemma same_view_record c c' t : same_view c c' → record_of (co_engine c') t = record_of (co_engine c) t.
Proof.
  intros [H1 H2 H3 _ _ _]. destruct (co_engine c), (co_engine c'). cbn in *. by subst.
Qed.

(** A clearing takes away the instances it chose, and leaves the others. *)
Lemma clear_view c dead :
  k ∉ (clear_keys (co_engine c) dead).2 → same_view c (set_engine c (clear_keys (co_engine c) dead).1).
Proof.
  pose proof (clear_keys_spec (co_engine c) dead) as Hs. destruct (clear_keys _ _) as [e keys].
  destruct Hs as (_ & Hin & H1 & H2 & H3 & Ha). cbn [fst snd]. intros Hn. split; try done.
  cbn [set_engine co_engine]. rewrite Ha. destruct (en_active (co_engine c) !! k) as [t|] eqn:Ht; [|done]. cbn.
  destruct (dead k t) eqn:Hd; [|done]. destruct Hn. apply Hin. eauto.
Qed.

Lemma resolveKeys_touch keys at_ : touches k (resolveKeys (E := E) keys at_) = bool_decide (k ∈ keys).
Proof.
  unfold resolveKeys. destruct keys as [|x keys]; [by rewrite bool_decide_eq_false_2 by apply not_elem_of_nil|].
  destruct (Z.eqb_spec (len (x :: keys)) 0) as [H|]; [|done].
  rewrite len_cons in H. pose proof (len_nonneg keys). lia.
Qed.

(** A section of a call that has not [k] in hand, before nor after, does
    nothing to it. *)
Lemma advance_other c j :
  co_wf c → job_ok j → touches k j = false → touches k (advance c j).2 = false → same_view c (advance c j).1.
Proof using Hbar Hk.
  intros Hw Hj Hn Hn'. destruct j; cbn [advance] in *; try by split.
  - pose proof (observe_cases (co_engine c) d at_ (proj1 Hw)) as Ho.
    destruct (observe _ _ _) as [e [res|err]]; [|by split]. destruct Ho as (_ & Hkey & _ & t' & _ & _ & -> & _).
    cbn [fst snd] in *. assert (det_key d ≠ k) as Hne.
    { intros <-. rewrite Hkey in Hn'. destruct (ob_material res); cbn in Hn'; by rewrite bool_decide_eq_true_2 in Hn'. }
    split; try done. cbn. by rewrite lookup_insert_ne.
  - cbn in Hn. apply bool_decide_eq_false in Hn. split; try done; cbn; set_solver.
  - cbn in Hn'. apply bool_decide_eq_false in Hn'. rewrite elem_of_range_set in Hn'. split; try done; cbn; set_solver.
  - cbn in Hn. apply bool_decide_eq_false in Hn.
    pose proof (upsert_law (co_store c) recs) as H. destruct (Upsert _ _) as [s' err]. cbn [fst]. split; try done.
    cbn [set_store co_store]. rewrite H. destruct err; [done|]. clear H. revert Hn. generalize (rows (co_store c)).
    induction recs as [|r recs IH]; intros m Hn; [done|]. cbn [foldl]. rewrite IH; [|done|].
    + unfold upsertAnomaly. rewrite lookup_insert_ne; [done|]. intros Heq. apply Hn. rewrite <-Heq. by left.
    + intros Hin. apply Hn. by right.
  - unfold pruneKeysForSource in *.
    pose proof (clear_view c (λ _ t, bool_decide (dt_Source (tr_det t) = source) && time_before (tr_lastSeen t) cutoff)) as Hv.
    destruct (clear_keys _ _) as [e keys]. cbn [fst snd] in *. apply Hv. rewrite resolveKeys_touch in Hn'.
    by apply bool_decide_eq_false in Hn'.
  - unfold clearSubject in *.
    pose proof (clear_view c (λ k _, bool_decide (ik_kind k = sr_Kind subject) && bool_decide (ik_id k = sr_ID subject))) as Hv.
    destruct (clear_keys _ _) as [e keys]. cbn [fst snd] in *. apply Hv. rewrite resolveKeys_touch in Hn'.
    by apply bool_decide_eq_false in Hn'.
  - cbn in Hn. apply bool_decide_eq_false in Hn. split; try done; cbn; set_solver.
  - cbn in Hn. apply bool_decide_eq_false in Hn.
    pose proof (resolve_law (co_store c) (map recordID keys) at_) as H. destruct (MarkResolved _ _ _) as [s' err].
    cbn [fst]. split; try done. cbn [set_store co_store]. rewrite H.
    rewrite decide_False; [by destruct err, (rows (co_store c) !! recordID k) as [[? ? []]|]|].
    change (map recordID keys) with (recordID <$> keys). intros (k' & Hid & Hin)%list_elem_of_fmap.
    cbn in Hj. rewrite list.Forall_forall in Hj. apply recordID_inj in Hid; [by subst|done|by apply Hj].
Qed.

(** ** The phases of a call that has the instance in hand *)

Definition live (c : Coordinator S) : option tracked := en_active (co_engine c) !! k.
Definition open_row (c : Coordinator S) : Prop :=
  ∃ w, rows (co_store c) !! recordID k = Some w ∧ rw_ResolvedAt w = None.
Definition closed_row (c : Coordinator S) : Prop :=
  ∀ w, rows (co_store c) !! recordID k = Some w → rw_ResolvedAt w ≠ None.

Definition phase (c : Coordinator S) (j : job E) : Prop :=
  (∀ w, rows (co_store c) !! recordID k = Some w → keyed k w) ∧
  match j with
  | Observed _ => is_Some (live c)
  | Marking _ => is_Some (live c) ∧ open_row c
  | Flushed _ => match live c with Some _ => open_row c | None => closed_row c end
  | Upserting recs => ∃ t, live c = Some t ∧
      ∀ r, r ∈ recs → rc_ID r = recordID k → r = record_of (co_engine c) t
  | Cleared _ _ | Closing _ _ => live c = None
  | _ => False
  end.

Lemma in_sync_view c c' : same_view c c' → in_sync k c → in_sync k c'.
Proof using Hbar Hk.
  intros Hv [H1 H2]. pose proof (λ t, same_view_record c c' t Hv) as Hrec. destruct Hv as [_ _ _ Ha Hr Hd].
  split; rewrite Hr; [done|]. rewrite Ha. destruct (en_active (co_engine c) !! k) as [t|]; [|done].
  destruct H2 as (w & ? & ? & Hs). exists w. split_and!; [done..|]. rewrite Hd, Hrec. done.
Qed.

Lemma phase_view c c' j : same_view c c' → phase c j → phase c' j.
Proof using Hbar Hk.
  intros Hv [H1 H2]. pose proof (λ t, same_view_record c c' t Hv) as Hrec. destruct Hv as [_ _ _ Ha Hr Hd].
  unfold phase, open_row, closed_row, live in *. rewrite Hr, Ha. split; [done|].
  destruct j; try done. destruct H2 as (t & Ht & Hall). exists t. split; [done|]. by rewrite Hrec.
Qed.

(** A call takes the instance in hand from a state in sync. *)
Lemma advance_begin c j :
  co_wf c → in_sync k c → touches k j = false → touches k (advance c j).2 = true →
  fresh j = true ∧ phase (advance c j).1 (advance c j).2.
Proof using Hbar Hk.
  intros Hw [H1 H2] Hn Hn'.
  assert (∀ dead at_ c' j', c' = set_engine c (clear_keys (co_engine c) dead).1 →
    j' = resolveKeys (clear_keys (co_engine c) dead).2 at_ → touches k j' = true → phase c' j') as Hclear.
  { intros dead at_ c' j' -> ->. rewrite resolveKeys_touch, bool_decide_eq_true.
    pose proof (clear_keys_spec (co_engine c) dead) as Hs. destruct (clear_keys _ _) as [e keys].
    destruct Hs as (_ & Hk' & _ & _ & _ & Ha). cbn [fst snd]. intros Hin. unfold resolveKeys.
    destruct (Z.eqb_spec (len keys) 0) as [Hz|_].
    - destruct keys as [|x l]; [by apply elem_of_nil in Hin|]. rewrite len_cons in Hz. pose proof (len_nonneg l). lia.
    - split; [done|]. unfold live. cbn [set_engine co_engine].
      apply Hk' in Hin as (t & Ht & Hd). rewrite Ha, Ht. cbn. by rewrite Hd. }
  destruct j; cbn [advance] in *; try done; try congruence.
  - split; [done|]. pose proof (observe_cases (co_engine c) d at_ (proj1 Hw)) as Ho.
    destruct (observe _ _ _) as [e [res|err]]; [|done]. destruct Ho as (_ & Hkey & _ & t' & _ & _ & -> & Hcase).
    cbn [fst snd] in *. assert (det_key d = k) as Hdk.
    { rewrite Hkey in Hn'. by destruct (ob_material res); cbn in Hn'; apply bool_decide_eq_true in Hn'. }
    rewrite Hdk in *. split; [destruct (ob_material res); exact H1|].
    unfold live. destruct (ob_material res) eqn:Em; cbn [set_engine co_engine set_active en_active].
    + rewrite lookup_insert_eq. eauto.
    + split; [rewrite lookup_insert_eq; eauto|].
      destruct (en_active (co_engine c) !! k); [|by destruct Hcase as (_ & _ & _ & ?)].
      destruct H2 as (w & ? & ? & _). by exists w.
  - cbn in Hn, Hn'. apply bool_decide_eq_false in Hn. apply bool_decide_eq_true in Hn'.
    change (map rc_ID ?l) with (rc_ID <$> l) in Hn'. apply list_elem_of_fmap in Hn' as (r & Hid & Hin).
    destruct (record_mine c [key] r Hw Hin) as [?%list_elem_of_singleton _]; [done|congruence].
  - split; [done|]. split; [done|]. unfold live. cbn [fst set_dirty co_engine].
    destruct (en_active (co_engine c) !! k) as [t|]; [|done]. destruct H2 as (w & ? & ? & _). by exists w.
  - cbn in Hn. apply bool_decide_eq_false in Hn. cbv zeta in Hn'. case_match; [done|].
    apply (records_touch c) in Hn'; [|done]. by destruct Hn'.
  - by destruct (Upsert _ _).
  - split; [done|]. unfold pruneKeysForSource in *.
    match goal with |- context [clear_keys _ ?dead] => apply (Hclear dead cutoff) end; [..|exact Hn']; by destruct (clear_keys _ _).
  - split; [done|]. unfold clearSubject in *.
    match goal with |- context [clear_keys _ ?dead] => apply (Hclear dead at_) end; [..|exact Hn']; by destruct (clear_keys _ _).
  - cbn in Hn, Hn'. congruence.
  - by destruct (MarkResolved _ _ _).
Qed.

Lemma upserted_mine recs (m : gmap string Row) rec :
  (∀ r, r ∈ recs → rc_ID r = recordID k → r = rec) → (∃ r, r ∈ recs ∧ rc_ID r = recordID k) →
  keyed k (row_of rec) → (∀ w, m !! recordID k = Some w → keyed k w) →
  ∃ w, foldl upsertAnomaly m recs !! recordID k = Some w ∧ rw_ResolvedAt w = None ∧ keyed k w ∧ shows rec w.
Proof.
  intros Hall Hex Hrec. revert m. induction recs as [|r recs IH] using rev_ind; intros m Hm; [by destruct Hex as (? & ?%elem_of_nil & _)|].
  rewrite foldl_app. cbn [foldl].
  destruct (decide (rc_ID r = recordID k)) as [Hr|Hr].
  - assert (r = rec) as -> by (apply Hall; [set_solver|done]).
    assert (∀ w, foldl upsertAnomaly m recs !! recordID k = Some w → keyed k w) as Hkeyed.
    { clear IH Hex. assert (∀ r, r ∈ recs → rc_ID r = recordID k → r = rec) as Hall' by set_solver. clear Hall Hr.
      revert m Hm. induction recs as [|r recs IH]; intros m Hm; [done|]. cbn [foldl]. apply IH; [set_solver|].
      intros w. unfold upsertAnomaly. destruct (decide (rc_ID r = recordID k)) as [Hr|Hr].
      - rewrite Hr, lookup_insert_eq. rewrite (Hall' r) by (done || by left). intros [= <-].
        destruct (m !! recordID k) as [o|] eqn:Eo; [|done]. by apply (Hm o).
      - rewrite lookup_insert_ne by done. apply Hm. }
    unfold upsertAnomaly at 1. rewrite Hr, lookup_insert_eq. eexists. split; [done|].
    destruct (foldl upsertAnomaly m recs !! recordID k) as [o|] eqn:Eo; [|done].
    specialize (Hkeyed o eq_refl). by repeat split; destruct Hkeyed.
  - unfold upsertAnomaly at 1. rewrite lookup_insert_ne by done. apply IH; [set_solver| |done].
    destruct Hex as (r' & [Hin| ->%list_elem_of_singleton]%elem_of_app & ?); [eauto|done].
Qed.

(** Each section of a call that has the instance in hand, its last one leaving
    it in sync. *)
Lemma advance_touch c j :
  co_wf c → job_ok j → touches k j = true → phase c j → failed (advance c j).2 = false →
  if touches k (advance c j).2 then phase (advance c j).1 (advance c j).2 else in_sync k (advance c j).1.
Proof using Hbar Hk.
  intros Hw Hj Ht [H1 H2] Hf. destruct j; cbn [advance touches] in *; try done; try apply bool_decide_eq_true in Ht.
  - (* Observed *)
    subst key. destruct H2 as [t Hlive].
    assert (touches k (Upserting (E := E) (recordsForKeys (co_engine c) [k])) = true) as Hn.
    { apply records_touch; [done|]. split; [by left|by exists t]. }
    cbn [snd fst]. rewrite Hn. split; [done|]. exists t. split; [done|]. intros r Hin Hid.
    destruct (record_mine c [k] r Hw Hin Hid) as (_ & t' & Ht' & ->). unfold live in Hlive. congruence.
  - (* Marking *)
    subst key. destruct H2 as [[t Hlive] (w & Hr & Ho)]. cbn. split; [done|]. unfold live in Hlive. cbn. rewrite Hlive.
    exists w. split_and!; [done..|]. set_solver.
  - (* Flushed *)
    cbv zeta in *. destruct (live c) as [t|] eqn:Hlive; unfold live in Hlive.
    + assert (touches k (Upserting (E := E) (recordsForKeys (co_engine c) keys)) = true) as Hn.
      { apply records_touch; [done|]. split; [done|by exists t]. }
      cbn [snd fst]. destruct (Z.eqb_spec (len (recordsForKeys (co_engine c) keys)) 0) as [Hz|_].
      * exfalso. cbn in Hn. apply bool_decide_eq_true in Hn. destruct (recordsForKeys _ _) as [|x l]; [by apply elem_of_nil in Hn|].
        rewrite len_cons in Hz. pose proof (len_nonneg l). lia.
      * rewrite Hn. split; [done|]. exists t. split; [done|]. intros r Hin Hid.
        destruct (record_mine c keys r Hw Hin Hid) as (_ & t' & Ht' & ->). congruence.
    + assert (in_sync k c) as Hs by (split; [done|]; by rewrite Hlive).
      cbn [snd fst]. destruct (Z.eqb (len (recordsForKeys (co_engine c) keys)) 0); [done|].
      destruct (touches k (Upserting (recordsForKeys (co_engine c) keys))) eqn:Hn; [|done].
      apply records_touch in Hn as [_ [? ?]]; [congruence|done].
  - (* Upserting *)
    destruct H2 as (t & Hlive & Hall). unfold live in Hlive.
    pose proof (upsert_law (co_store c) recs) as H. destruct (Upsert _ _) as [s' err]. cbn [snd fst failed touches] in *.
    destruct err; [done|].
    destruct (project_key (co_engine c) k t (proj1 Hw) Hlive) as (Hd & Hkd & Hi).
    destruct (upserted_mine recs (rows (co_store c)) (record_of (co_engine c) t) Hall) as (w & Hrow & Ho & Hkeyed & Hs).
    { change (map rc_ID recs) with (rc_ID <$> recs) in Ht. apply list_elem_of_fmap in Ht as (r & ? & ?). by exists r. }
    { unfold keyed, row_of, record_of. cbn [rw_Anomaly rc_Anomaly an_DefKey an_Subject]. split; [done|].
      destruct (an_Subject (project (co_engine c) t)). cbn in *. by subst. }
    { done. }
    split; cbn [set_store co_store co_engine co_dirty]; rewrite H, Hrow; [by intros w' [= <-]|].
    rewrite Hlive. by exists w.
  - (* Cleared *)
    cbn. rewrite bool_decide_eq_true_2 by done. done.
  - (* Closing *)
    pose proof (resolve_law (co_store c) (map recordID keys) at_) as H. destruct (MarkResolved _ _ _) as [s' err].
    cbn [snd fst failed touches] in *. destruct err; [done|]. unfold live in H2.
    split; cbn [set_store co_store co_engine co_dirty]; [|rewrite H2]; intros w; rewrite H;
      destruct (rows (co_store c) !! recordID k) as [[src a x]|] eqn:Er; try done.
    + specialize (H1 _ eq_refl). destruct x; intros [= <-]; exact H1.
    + destruct x; intros [= <-]; [done|]. cbn. rewrite decide_True; [done|].
      change (map recordID keys) with (recordID <$> keys). by apply list_elem_of_fmap_2.
Qed.

(** Over a run: at most one call has the instance in hand, and it is in a
    phase that leads back in sync. *)
Record inv (w : World S E) : Prop := {
  inv_wf : co_wf w.1;
  inv_jobs : ∀ i j, w.2 !! i = Some j → job_ok j;
  inv_one : ∀ i j, w.2 !! i = Some j → touches k j = true →
    phase w.1 j ∧ ∀ i' j', w.2 !! i' = Some j' → touches k j' = true → i' = i;
  inv_sync : idle k w = true → in_sync k w.1;
}.

Lemma idle_iff (w : World S E) : idle k w = true ↔ ∀ i j, w.2 !! i = Some j → touches k j = false.
Proof.
  unfold idle. rewrite forallb_forall. split.
  - intros Hf i j Hj. apply list_elem_of_lookup_2, list_elem_of_In, Hf in Hj. by apply negb_true_iff.
  - intros Hf j [i Hj]%list_elem_of_In%list_elem_of_lookup. apply negb_true_iff. eauto.
Qed.

Lemma inv_call (w : World S E) j : fresh j = true → inv w → inv (w.1, w.2 ++ [j]).
Proof.
  intros Hf [H1 H2 H3 H4].
  assert (touches k j = false ∧ job_ok j) as [Hn Hok] by (by destruct j).
  assert (∀ i x, (w.2 ++ [j]) !! i = Some x → w.2 !! i = Some x ∨ x = j) as Hl.
  { intros i x [Hx|[_ Hx]]%lookup_app_Some; [by left|]. apply list_lookup_singleton_Some in Hx as [_ ->]. by right. }
  split; cbn [fst snd]; [done| | |].
  - intros i x [Hx| ->]%Hl; [by eapply H2|done].
  - intros i x [Hx| ->]%Hl Ht; [|congruence]. destruct (H3 _ _ Hx Ht) as [Hp Hu]. split; [done|].
    intros i' x' [Hx'| ->]%Hl Ht'; [by eapply Hu|congruence].
  - intros Hi. apply H4, idle_iff. intros i x Hx. eapply (proj1 (idle_iff _) Hi i). cbn.
    by apply lookup_app_l_Some.
Qed.

Lemma inv_run (w : World S E) i : calm k w (Run i) = true → inv w → inv (act w (Run i)).
Proof using Hbar Hk.
  intros Hc [H1 H2 H3 H4]. cbn [act calm] in *. destruct (w.2 !! i) as [j|] eqn:Hj; [|by split].
  pose proof (advance_wf w.1 j H1 (H2 _ _ Hj)) as [Hwf Hok].
  pose proof (advance_other w.1 j H1 (H2 _ _ Hj)) as Hother.
  pose proof (advance_touch w.1 j H1 (H2 _ _ Hj)) as Htouch.
  pose proof (advance_begin w.1 j H1) as Hbegin.
  destruct (advance w.1 j) as [c' j']. cbn [fst snd] in *.
  assert (∀ i' x, <[i:=j']> w.2 !! i' = Some x → i' = i ∧ x = j' ∨ i' ≠ i ∧ w.2 !! i' = Some x) as Hl.
  { intros i' x [(-> & -> & _)|[? ?]]%list_lookup_insert_Some; auto. }
  assert (<[i:=j']> w.2 !! i = Some j') as Hi by (apply list_lookup_insert_eq; by eapply lookup_lt_Some).
  assert (∀ i' x, i' ≠ i → w.2 !! i' = Some x → <[i:=j']> w.2 !! i' = Some x) as Hi'.
  { intros i' x Hne Hx. by rewrite list_lookup_insert_ne. }
  assert (∀ i' x, <[i:=j']> w.2 !! i' = Some x → job_ok x) as Hjobs.
  { intros i' x [[-> ->]|[_ Hx]]%Hl; eauto. }
  destruct (touches k j) eqn:Et.
  - (* it had the instance in hand *)
    destruct (H3 _ _ Hj Et) as [Hp Hu]. apply negb_true_iff in Hc. specialize (Htouch eq_refl Hp Hc).
    assert (∀ i' x, <[i:=j']> w.2 !! i' = Some x → touches k x = true → i' = i ∧ x = j') as Hone.
    { intros i' x [?|[Hne Hx]]%Hl Ht; [done|]. destruct Hne. by eapply Hu. }
    split; cbn [fst snd]; [done..| |].
    + intros i' x Hx Ht. destruct (Hone _ _ Hx Ht) as [-> ->]. rewrite Ht in Htouch. split; [done|].
      intros i'' x' Hx' Ht'. by destruct (Hone _ _ Hx' Ht').
    + intros Hid. rewrite (proj1 (idle_iff _) Hid i j' Hi) in Htouch. done.
  - destruct (touches k j') eqn:Et'.
    + (* it takes it in hand *)
      cbn in Hc. assert (idle k w = true) as Hidle by done. pose proof (proj1 (idle_iff _) Hidle) as Hno.
      destruct (Hbegin (H4 Hidle) eq_refl eq_refl) as [_ Hp].
      assert (∀ i' x, <[i:=j']> w.2 !! i' = Some x → touches k x = true → i' = i ∧ x = j') as Hone.
      { intros i' x [?|[Hne Hx]]%Hl Ht; [done|]. rewrite (Hno _ _ Hx) in Ht. done. }
      split; cbn [fst snd]; [done..| |].
      * intros i' x Hx Ht. destruct (Hone _ _ Hx Ht) as [-> ->]. split; [done|].
        intros i'' x' Hx' Ht'. by destruct (Hone _ _ Hx' Ht').
      * intros Hid. rewrite (proj1 (idle_iff _) Hid i j' Hi) in Et'. done.
    + (* it leaves it alone *)
      specialize (Hother eq_refl eq_refl). split; cbn [fst snd]; [done..| |].
      * intros i' x Hx Ht. apply Hl in Hx as [[-> ->]|[Hne Hx]]; [congruence|].
        destruct (H3 _ _ Hx Ht) as [Hp Hu]. split; [by eapply phase_view|].
        intros i'' x' [[-> ->]|[_ Hx']]%Hl Ht'; [congruence|by eapply Hu].
      * intros Hid. eapply in_sync_view; [done|]. apply H4, idle_iff. intros i' x Hx.
        destruct (decide (i' = i)) as [->|Hne]; [congruence|]. eapply (proj1 (idle_iff _) Hid i'). by apply Hi'.
Qed.

Lemma inv_acts (w : World S E) acts : calm_run k w acts = true → inv w → inv (foldl act w acts).
Proof using Hbar Hk.
  revert w. induction acts as [|a acts IH]; intros w; [done|]. cbn [calm_run foldl]. intros [Hc Hcs]%andb_true_iff Hi.
  apply IH; [done|]. destruct a as [j|i]; [|by apply inv_run]. cbn [act]. destruct (fresh j) eqn:Ef; [|done].
  by apply inv_call.
Qed.

(** C3: An anomaly's row in the store follows the live instance, whatever the
    calls for other instances do. Take any interleaving of the critical
    sections of any number of Observe, Flush, Prune and ResolveSubject calls
    on one coordinator, where the calls that have a given instance in hand do
    not overlap each other and their writes of it succeed, over a catalog whose
    identifiers do not hold the separator '|', and from a state that agrees on
    it, as a new coordinator over an empty table does. When no call has it in
    hand any more: if the instance is live, its row is there, is
    unresolved, and shows its severity, count, last sighting, evidence and
    texts, unless a recurrence is still marked for the next flush; if it is
    not live, it has no unresolved row. The row keeps the source, category and
    first sighting it was first written with, even through a resolution and a
    later detection. *)
Theorem coordinator_sync (c0 : Coordinator S) acts :
  co_wf c0 → in_sync k c0 → calm_run k (c0, []) acts = true →
  let w := foldl act (c0, []) acts in
  (idle k w = true → in_sync k w.1) ∧
  ∀ n r, rows (co_store (foldl act (c0, []) (take n acts)).1) !! recordID k = Some r →
    ∃ r', rows (co_store w.1) !! recordID k = Some r' ∧ same_start r r'.
Proof using Hbar Hk.
  intros Hwf Hs Hc w. split.
  - intros Hi. eapply inv_sync; [|exact Hi]. apply inv_acts; [done|].
    split; cbn [fst snd]; [done|by intros ? ?|by intros ? ?|done].
  - intros n r Hr. unfold w. rewrite <-(take_drop n acts), foldl_app. by apply run_start.
Qed.
End sync.

(** A call that nothing interrupts returns after three sections. *)
Lemma alone_returns {S E : Type} `{!Store S E} `{!RangeOrder instanceKey} (c : Coordinator S) (j : job E) :
  fresh j = true → ∃ n err, (alone c j).2 = Returned n err.
Proof.
  assert (∀ c n err, advance c (Returned (E := E) n err) = (c, Returned n err)) as Hret by done.
  assert (∀ c recs, ∃ n err, (advance c (Upserting (E := E) recs)).2 = Returned n err) as Hup.
  { intros c' recs. cbn. destruct (Upsert _ _). eauto. }
  assert (∀ c keys at_, ∃ n err, (let '(c, j) := advance c (resolveKeys (E := E) keys at_) in advance c j).2 = Returned n err) as Hres.
  { intros c' keys at_. unfold resolveKeys. destruct (Z.eqb _ _); cbn; [eauto|]. destruct (MarkResolved _ _ _). cbn. eauto. }
  intros Hf. unfold alone. destruct j; try done; cbn [advance].
  - destruct (observe _ _ _) as [e [res|err]]; [|rewrite !Hret; cbn; eauto]. destruct (ob_material res); [apply Hup|cbn; eauto].
  - destruct (Z.eqb _ _); [rewrite Hret; cbn; eauto|apply Hup].
  - destruct (pruneKeysForSource _ _ _). apply Hres.
  - destruct (clearSubject _ _). apply Hres.
Qed.

(** ** Runs *)

Lemma demo_no_bar id : is_Some (demo_catalog !! id) → no_bar id.
Proof.
  intros [d Hd]. revert id d Hd. apply map_Forall_to_list. vm_compute.
  repeat constructor; discriminate.
Qed.

Definition demo_store (faults : list bool) : AnomalyRepository := MkRepository ∅ faults.
Definition demo_coordinator (faults : list bool) : Coordinator AnomalyRepository :=
  NewCoordinator demo_engine (demo_store faults).
Definition demo_run (faults : list bool) (acts : list (action string)) : World AnomalyRepository string :=
  foldl act (demo_coordinator faults, []) acts.

Definition rogue_key : instanceKey := det_key demo_rogue.

(** The rogue access point is seen twice, while the interface is seen and its
    subject resolved; the sections of the calls alternate. The second sighting
    crosses the threshold, so it is written at once. *)
Definition demo_acts : list (action string) :=
  [ Call (Observing demo_crc (20 * second)); Run 0;
    Call (Observing demo_rogue (10 * second)); Run 1; Run 0; Run 1; Run 0; Run 1;
    Call (Observing demo_rogue (30 * second + 5)); Run 2;
    Call (Resolving (dt_Subject demo_crc) (40 * second)); Run 3; Run 2; Run 3; Run 2; Run 3 ].

Definition row_view (w : World AnomalyRepository string) (k : instanceKey)
    : option (Severity * Z * Z * Z * option Z) :=
  (λ r, (an_Severity (rw_Anomaly r), an_Count (rw_Anomaly r), an_FirstSeen (rw_Anomaly r),
         an_LastSeen (rw_Anomaly r), rw_ResolvedAt r)) <$> rows (co_store w.1) !! recordID k.

Example demo_rows :
  row_view (demo_run [] demo_acts) rogue_key = Some (SeverityError, 2, 10 * second, 30 * second, None) ∧
  row_view (demo_run [] demo_acts) (det_key demo_crc) = Some (SeverityInfo, 1, 20 * second, 20 * second, Some (40 * second)).
Proof. by vm_compute. Qed.

Lemma demo_sync k : in_sync k (demo_coordinator []).
Proof.
  split; cbn [demo_coordinator NewCoordinator co_store co_engine demo_store rows AnomalyRepository_store rp_rows].
  - intros w. by rewrite lookup_empty.
  - change (en_active demo_engine) with (∅ : gmap instanceKey tracked). rewrite lookup_empty. intros w. by rewrite lookup_empty.
Qed.

Lemma coordinator_sync_witness :
  let w := demo_run [] demo_acts in
  is_Some (en_active (co_engine w.1) !! rogue_key) ∧ in_sync rogue_key w.1.
Proof.
  split; [by vm_compute; eauto|].
  refine (proj1 (coordinator_sync demo_catalog demo_no_bar rogue_key _ (demo_coordinator []) demo_acts _ _ _) _).
  - by vm_compute.
  - by split; [apply demo_engine_ok|].
  - apply demo_sync.
  - by vm_compute.
  - by vm_compute.
Defined.

(** A flush takes its records, the subject is resolved, and then the flush
    writes: the resolved row is unresolved again, and nothing live stands
    behind it. *)
Definition demo_seen_twice : list (action string) :=
  [ Call (Observing demo_crc (20 * second)); Run 0; Run 0; Run 0;
    Call (Observing demo_crc (21 * second)); Run 1; Run 1 ] ++
  [ Call (Observing demo_rogue (10 * second)); Run 2; Run 2; Run 2 ].

Example flush_resurrects :
  let slow := MkEngine demo_catalog ∅ ∅ 5 in
  let run acts := foldl act (NewCoordinator slow (demo_store []), []) (demo_seen_twice ++ acts) in
  let w := run [ Call Flushing; Run 3; Run 3;
                 Call (Resolving (dt_Subject demo_crc) (40 * second)); Run 4; Run 4; Run 4; Run 3 ] in
  en_active (co_engine w.1) !! det_key demo_crc = None ∧
  w.2 !! 4%nat = Some (Returned 1 None) ∧ w.2 !! 3%nat = Some (Returned 0 None) ∧
  row_view w (det_key demo_crc) = Some (SeverityInfo, 2, 20 * second, 21 * second, None).
Proof. by vm_compute. Qed.

(** A new sighting between the clearing and the store's marking: the live
    instance's row is resolved, and stays so until the next flush that it has
    a recurrence for. *)
Example resolve_hides :
  let w := demo_run [] [ Call (Observing demo_rogue (10 * second)); Run 0; Run 0; Run 0;
                         Call (Resolving demo_ap (40 * second)); Run 1;
                         Call (Observing demo_rogue (50 * second)); Run 2; Run 2; Run 2; Run 1; Run 1;
                         Call Flushing; Run 3; Run 3 ] in
  is_Some (en_active (co_engine w.1) !! rogue_key) ∧
  row_view w rogue_key = Some (SeverityWarning, 1, 10 * second, 50 * second, Some (40 * second)).
Proof. by vm_compute; eauto. Qed.

(** A new instance whose write fails is not retried: the store recovers, a
    flush follows, and the live instance is still missing from the rows. *)
Example failed_write_not_retried :
  let '(c1, r1) := Observe (demo_coordinator [true]) demo_rogue 10 in
  let '(c2, r2) := Flush c1 in
  r1 = Returned 0 (Some (inr locked)) ∧ r2 = Returned 0 None ∧
  en_active (co_engine c2) !! rogue_key ≠ None ∧ rows (co_store c2) = ∅.
Proof. by vm_compute. Qed.

(** An instance that was resolved and is detected again shows the first
    sighting of its earlier life: the engine says fifty, the row ten. *)
Example revived_row_keeps_start :
  let c := (Observe (ResolveSubject (Observe (demo_coordinator []) demo_rogue (10 * second)).1
                       demo_ap (40 * second)).1 demo_rogue (50 * second)).1 in
  (tr_firstSeen <$> en_active (co_engine c) !! rogue_key) = Some (50 * second) ∧
  row_view (c, []) rogue_key = Some (SeverityWarning, 1, 10 * second, 50 * second, None).
Proof. by vm_compute. Qed.

(** What is loaded after a restart is the unresolved rows. *)
Example demo_load :
  let c := (demo_run [] demo_acts).1 in
  let '(c', n) := Load (NewCoordinator demo_engine (co_store c)) in
  n = inl 1 ∧ is_Some (en_active (co_engine c') !! rogue_key).
Proof. by vm_compute; eauto. Qed.
