(* ===== verification/Dot11Frame.v ===== *)
(** * 802.11 frames (src/internal/wifi/dot11/frame.go)

    The frame and network types the decoder fills, their labels, and the
    attribution of a frame to its network and its client. A MAC address
    ([net.HardwareAddr]) is [None] when nil. *)
From Stdlib Require Import ZArith Lia.
From stdpp Require Import base gmap sets list strings.
From S2P Require Import Prelude GoBase.

(** [Kind] *)
Inductive Kind : Type :=
| KindOther
| KindBeacon
| KindProbeRequest
| KindProbeResponse
| KindAssocRequest
| KindAssocResponse
| KindReassocRequest
| KindReassocResponse
| KindAuth
| KindDeauth
| KindDisassoc
| KindAction
| KindData.

#[export] Instance Kind_eq_dec : EqDecision Kind.
Proof. solve_decision. Defined.

(** [Kind.String] *)
Definition Kind_String (k : Kind) : string :=
  match k with
  | KindBeacon => "beacon"
  | KindProbeRequest => "probe-request"
  | KindProbeResponse => "probe-response"
  | KindAssocRequest => "assoc-request"
  | KindAssocResponse => "assoc-response"
  | KindReassocRequest => "reassoc-request"
  | KindReassocResponse => "reassoc-response"
  | KindAuth => "auth"
  | KindDeauth => "deauth"
  | KindDisassoc => "disassoc"
  | KindAction => "action"
  | KindData => "data"
  | KindOther => "other"
  end.

(** [Kind.IsManagement] *)
Definition IsManagement (k : Kind) : bool :=
  match k with
  | KindBeacon | KindProbeRequest | KindProbeResponse | KindAssocRequest
  | KindAssocResponse | KindReassocRequest | KindReassocResponse | KindAuth
  | KindDeauth | KindDisassoc | KindAction => true
  | KindData | KindOther => false
  end.

(** [Security], in the order of its values: weakest to strongest. *)
Inductive Security : Type :=
| SecurityUnknown
| SecurityOpen
| SecurityWEP
| SecurityWPA
| SecurityWPA2
| SecurityWPA3
| SecurityWPA2WPA3.

#[export] Instance Security_eq_dec : EqDecision Security.
Proof. solve_decision. Defined.

(** The [uint8] value of a suite. *)
Definition security_value (s : Security) : Z :=
  match s with
  | SecurityUnknown => 0
  | SecurityOpen => 1
  | SecurityWEP => 2
  | SecurityWPA => 3
  | SecurityWPA2 => 4
  | SecurityWPA3 => 5
  | SecurityWPA2WPA3 => 6
  end.

(** [Security.String] *)
Definition Security_String (s : Security) : string :=
  match s with
  | SecurityOpen => "Open"
  | SecurityWEP => "WEP"
  | SecurityWPA => "WPA"
  | SecurityWPA2 => "WPA2"
  | SecurityWPA3 => "WPA3"
  | SecurityWPA2WPA3 => "WPA2/WPA3"
  | SecurityUnknown => "Unknown"
  end.

(** [Standard] *)
Inductive Standard : Type :=
| StandardUnknown
| Standard80211a
| Standard80211b
| Standard80211g
| Standard80211n
| Standard80211ac
| Standard80211ax
| Standard80211be
| Standard80211bn.

#[export] Instance Standard_eq_dec : EqDecision Standard.
Proof. solve_decision. Defined.

(** [Standard.String] *)
Definition Standard_String (s : Standard) : string :=
  match s with
  | Standard80211a => "802.11a"
  | Standard80211b => "802.11b"
  | Standard80211g => "802.11g"
  | Standard80211n => "802.11n (Wi-Fi 4)"
  | Standard80211ac => "802.11ac (Wi-Fi 5)"
  | Standard80211ax => "802.11ax (Wi-Fi 6)"
  | Standard80211be => "802.11be (Wi-Fi 7)"
  | Standard80211bn => "802.11bn (Wi-Fi 8)"
  | StandardUnknown => "Unknown"
  end.

(** [Band] *)
Inductive Band : Type :=
| BandUnknown
| Band24GHz
| Band5GHz
| Band6GHz.

#[export] Instance Band_eq_dec : EqDecision Band.
Proof. solve_decision. Defined.

(** [Band.String] *)
Definition Band_String (b : Band) : string :=
  match b with
  | Band24GHz => "2.4 GHz"
  | Band5GHz => "5 GHz"
  | Band6GHz => "6 GHz"
  | BandUnknown => "Unknown"
  end.

(** [BSS]; the strings are their bytes. *)
Record BSS : Type := MkBSS {
  b_SSID : bytes;
  b_Hidden : bool;
  b_Security : Security;
  b_Standard : Standard;
  b_ChannelNum : Z;
  b_ChannelWidthM : Z;
  b_CountryCode : bytes;
  b_PMFRequired : bool;
  b_PMFCapable : bool;
  b_RRMNeighbor : bool;
  b_BTMSupported : bool;
  b_FTSupported : bool;
  b_WPSEnabled : bool;
  b_StationCount : Z;
  b_ChannelUtilByte : Z;
  b_HasBSSLoad : bool;
}.

Definition bss_zero : BSS :=
  MkBSS [] false SecurityUnknown StandardUnknown 0 0 [] false false false false false false 0 0 false.

(** Field assignments of a [BSS]. *)
Definition set_SSID (b : BSS) (v : bytes) : BSS :=
  MkBSS v (b_Hidden b) (b_Security b) (b_Standard b) (b_ChannelNum b) (b_ChannelWidthM b)
    (b_CountryCode b) (b_PMFRequired b) (b_PMFCapable b) (b_RRMNeighbor b) (b_BTMSupported b)
    (b_FTSupported b) (b_WPSEnabled b) (b_StationCount b) (b_ChannelUtilByte b) (b_HasBSSLoad b).
Definition set_Hidden (b : BSS) (v : bool) : BSS :=
  MkBSS (b_SSID b) v (b_Security b) (b_Standard b) (b_ChannelNum b) (b_ChannelWidthM b)
    (b_CountryCode b) (b_PMFRequired b) (b_PMFCapable b) (b_RRMNeighbor b) (b_BTMSupported b)
    (b_FTSupported b) (b_WPSEnabled b) (b_StationCount b) (b_ChannelUtilByte b) (b_HasBSSLoad b).
Definition set_Security (b : BSS) (v : Security) : BSS :=
  MkBSS (b_SSID b) (b_Hidden b) v (b_Standard b) (b_ChannelNum b) (b_ChannelWidthM b)
    (b_CountryCode b) (b_PMFRequired b) (b_PMFCapable b) (b_RRMNeighbor b) (b_BTMSupported b)
    (b_FTSupported b) (b_WPSEnabled b) (b_StationCount b) (b_ChannelUtilByte b) (b_HasBSSLoad b).
Definition set_Standard (b : BSS) (v : Standard) : BSS :=
  MkBSS (b_SSID b) (b_Hidden b) (b_Security b) v (b_ChannelNum b) (b_ChannelWidthM b)
    (b_CountryCode b) (b_PMFRequired b) (b_PMFCapable b) (b_RRMNeighbor b) (b_BTMSupported b)
    (b_FTSupported b) (b_WPSEnabled b) (b_StationCount b) (b_ChannelUtilByte b) (b_HasBSSLoad b).
Definition set_ChannelNum (b : BSS) (v : Z) : BSS :=
  MkBSS (b_SSID b) (b_Hidden b) (b_Security b) (b_Standard b) v (b_ChannelWidthM b)
    (b_CountryCode b) (b_PMFRequired b) (b_PMFCapable b) (b_RRMNeighbor b) (b_BTMSupported b)
    (b_FTSupported b) (b_WPSEnabled b) (b_StationCount b) (b_ChannelUtilByte b) (b_HasBSSLoad b).
Definition set_ChannelWidthM (b : BSS) (v : Z) : BSS :=
  MkBSS (b_SSID b) (b_Hidden b) (b_Security b) (b_Standard b) (b_ChannelNum b) v
    (b_CountryCode b) (b_PMFRequired b) (b_PMFCapable b) (b_RRMNeighbor b) (b_BTMSupported b)
    (b_FTSupported b) (b_WPSEnabled b) (b_StationCount b) (b_ChannelUtilByte b) (b_HasBSSLoad b).
Definition set_CountryCode (b : BSS) (v : bytes) : BSS :=
  MkBSS (b_SSID b) (b_Hidden b) (b_Security b) (b_Standard b) (b_ChannelNum b)
    (b_ChannelWidthM b) v (b_PMFRequired b) (b_PMFCapable b) (b_RRMNeighbor b)
    (b_BTMSupported b) (b_FTSupported b) (b_WPSEnabled b) (b_StationCount b)
    (b_ChannelUtilByte b) (b_HasBSSLoad b).
Definition set_PMF (b : BSS) (v0 : bool) (v1 : bool) : BSS :=
  MkBSS (b_SSID b) (b_Hidden b) (b_Security b) (b_Standard b) (b_ChannelNum b)
    (b_ChannelWidthM b) (b_CountryCode b) v0 v1 (b_RRMNeighbor b) (b_BTMSupported b)
    (b_FTSupported b) (b_WPSEnabled b) (b_StationCount b) (b_ChannelUtilByte b) (b_HasBSSLoad b).
Definition set_RRMNeighbor (b : BSS) (v : bool) : BSS :=
  MkBSS (b_SSID b) (b_Hidden b) (b_Security b) (b_Standard b) (b_ChannelNum b)
    (b_ChannelWidthM b) (b_CountryCode b) (b_PMFRequired b) (b_PMFCapable b) v
    (b_BTMSupported b) (b_FTSupported b) (b_WPSEnabled b) (b_StationCount b)
    (b_ChannelUtilByte b) (b_HasBSSLoad b).
Definition set_BTMSupported (b : BSS) (v : bool) : BSS :=
  MkBSS (b_SSID b) (b_Hidden b) (b_Security b) (b_Standard b) (b_ChannelNum b)
    (b_ChannelWidthM b) (b_CountryCode b) (b_PMFRequired b) (b_PMFCapable b) (b_RRMNeighbor b) v
    (b_FTSupported b) (b_WPSEnabled b) (b_StationCount b) (b_ChannelUtilByte b) (b_HasBSSLoad b).
Definition set_FTSupported (b : BSS) (v : bool) : BSS :=
  MkBSS (b_SSID b) (b_Hidden b) (b_Security b) (b_Standard b) (b_ChannelNum b)
    (b_ChannelWidthM b) (b_CountryCode b) (b_PMFRequired b) (b_PMFCapable b) (b_RRMNeighbor b)
    (b_BTMSupported b) v (b_WPSEnabled b) (b_StationCount b) (b_ChannelUtilByte b)
    (b_HasBSSLoad b).
Definition set_WPSEnabled (b : BSS) (v : bool) : BSS :=
  MkBSS (b_SSID b) (b_Hidden b) (b_Security b) (b_Standard b) (b_ChannelNum b)
    (b_ChannelWidthM b) (b_CountryCode b) (b_PMFRequired b) (b_PMFCapable b) (b_RRMNeighbor b)
    (b_BTMSupported b) (b_FTSupported b) v (b_StationCount b) (b_ChannelUtilByte b)
    (b_HasBSSLoad b).
Definition set_Load (b : BSS) (v0 : Z) (v1 : Z) (v2 : bool) : BSS :=
  MkBSS (b_SSID b) (b_Hidden b) (b_Security b) (b_Standard b) (b_ChannelNum b)
    (b_ChannelWidthM b) (b_CountryCode b) (b_PMFRequired b) (b_PMFCapable b) (b_RRMNeighbor b)
    (b_BTMSupported b) (b_FTSupported b) (b_WPSEnabled b) v0 v1 v2.

(** [Frame] *)
Record Frame : Type := MkFrame {
  f_Kind : Kind;
  f_BSSID : option bytes;
  f_Transmitter : option bytes;
  f_Receiver : option bytes;
  f_ToDS : bool;
  f_FromDS : bool;
  f_SignalDBm : Z;
  f_NoiseDBm : Z;
  f_ChannelMHz : Z;
  f_ChannelNum : Z;
  f_Band : Band;
  f_Retry : bool;
  f_BSS : option BSS;
}.

(** [Frame.BSSIDOf] *)
Definition BSSIDOf (f : Frame) : option bytes :=
  if negb (bool_decide (f_Kind f = KindData)) then f_BSSID f
  else if f_ToDS f && negb (f_FromDS f) then f_Receiver f
  else if negb (f_ToDS f) && f_FromDS f then f_Transmitter f
  else if negb (f_ToDS f) && negb (f_FromDS f) then f_BSSID f
  else None.

(** [Frame.StationOf] *)
Definition StationOf (f : Frame) : option bytes :=
  match f_Kind f with
  | KindData =>
      if f_ToDS f && negb (f_FromDS f) then f_Transmitter f
      else if negb (f_ToDS f) && f_FromDS f then f_Receiver f
      else None
  | KindAssocRequest | KindReassocRequest | KindProbeRequest => f_Transmitter f
  | KindAssocResponse | KindReassocResponse => f_Receiver f
  | KindOther | KindBeacon | KindProbeResponse | KindAuth | KindDeauth
  | KindDisassoc | KindAction => None
  end.

(** ** Labels and attribution *)

(** The suites' labels are distinct, and so are the kinds' and the bands'. *)
Lemma Security_String_inj s1 s2 : Security_String s1 = Security_String s2 → s1 = s2.
Proof. by destruct s1, s2. Qed.

Lemma Kind_String_inj k1 k2 : Kind_String k1 = Kind_String k2 → k1 = k2.
Proof. by destruct k1, k2. Qed.

(** A frame whose header names three different addresses never attributes
    its network's own identifier as its client: the client is the sender or
    the receiver, and a data frame has one only when exactly one of its
    direction bits is set. *)
Theorem StationOf_not_BSSID f s :
  f_Transmitter f ≠ f_Receiver f → f_Transmitter f ≠ f_BSSID f → f_Receiver f ≠ f_BSSID f →
  StationOf f = Some s →
  BSSIDOf f ≠ Some s ∧ (f_Transmitter f = Some s ∨ f_Receiver f = Some s) ∧
  (f_Kind f = KindData → f_ToDS f = negb (f_FromDS f)).
Proof.
  unfold StationOf, BSSIDOf. intros H1 H2 H3.
  destruct (f_Kind f); cbn [bool_decide negb]; try done;
    try (rewrite bool_decide_eq_false_2 by done; cbn [negb]);
    try (rewrite bool_decide_eq_true_2 by done; cbn [negb]);
    destruct (f_ToDS f), (f_FromDS f); cbn [andb negb]; intros Hs; try done;
    rewrite Hs in *; (split_and!; [congruence|by auto|done]).
Qed.
