(* ===== verification/Dot11.v ===== *)
(** * 802.11 information elements and frame decoding
      (src/internal/wifi/dot11/ie.go, decode.go)

    Beacon and probe-response bodies carry tagged elements, often truncated
    or forged. Each parser is modelled with its bounds checks: [None] is a
    read outside the element, which the theorems exclude. *)
From Stdlib Require Import ZArith Lia.
From stdpp Require Import base gmap sets list strings.
From S2P Require Import Prelude GoBase Dot11Frame.

(** ** ie.go *)

Definition ieSSID : Z := 0.
Definition ieSupportedRates : Z := 1.
Definition ieDSParameterSet : Z := 3.
Definition ieCountry : Z := 7.
Definition ieBSSLoad : Z := 11.
Definition ieHTCapabilities : Z := 45.
Definition ieRSN : Z := 48.
Definition ieExtSupportRates : Z := 50.
Definition ieMobilityDomain : Z := 54.
Definition ieHTOperation : Z := 61.
Definition ieRMEnabledCaps : Z := 70.
Definition ieExtendedCaps : Z := 127.
Definition ieVHTCapabilities : Z := 191.
Definition ieVHTOperation : Z := 192.
Definition ieVendorSpecific : Z := 221.
Definition ieElementExtension : Z := 255.

Definition extHECapabilities : Z := 35.
Definition extHEOperation : Z := 36.
Definition extEHTOperation : Z := 106.
Definition extEHTCapabilities : Z := 108.

Definition akmDot1X : Z := 1.
Definition akmPSK : Z := 2.
Definition akmFTDot1X : Z := 3.
Definition akmFTPSK : Z := 4.
Definition akmSAE : Z := 8.
Definition akmFTSAE : Z := 9.
Definition akmSuiteB : Z := 11.
Definition akmSuiteB192 : Z := 12.
Definition akmOWE : Z := 18.

Definition countryCodeLen : Z := 2.
Definition bssLoadMinLen : Z := 3.
Definition rsnVersionLen : Z := 2.
Definition cipherSuiteLen : Z := 4.
Definition countFieldLen : Z := 2.
Definition rsnCapsLen : Z := 2.
Definition selectorTypeOff : Z := 3.
Definition vendorMinLen : Z := 4.
Definition mfprBit : Z := 6.
Definition mfpcBit : Z := 7.
Definition btmBit : Z := 19.
Definition bitsPerByte : Z := 8.
Definition rateBasicMask : Z := 0x7f.
Definition maxDSSSRateUnits : Z := 22.
Definition wpaVendorType : Z := 1.
Definition wpsVendorType : Z := 4.

(** [htOpMinLen] and the layouts of the other Operation elements. *)
Definition htOpMinLen : Z := 2.
Definition htSecondaryMask : Z := 0x03.
Definition htSecondaryAbove : Z := 1.
Definition htSecondaryBelow : Z := 3.
Definition htAnyWidthBit : Z := 0x04.
Definition vhtOpInfoLen : Z := 3.
Definition vhtWidth80Plus : Z := 1.
Definition vhtWidth160Old : Z := 2.
Definition vhtWidth8080Old : Z := 3.
Definition heOpFixedLen : Z := 6.
Definition heVHTInfoBit : Z := 14.
Definition heCoHostedBit : Z := 15.
Definition he6GHzInfoBit : Z := 17.
Definition he6GHzControlOff : Z := 1.
Definition he6GHzWidthMask : Z := 0x03.
Definition ehtOpFixedLen : Z := 5.
Definition ehtInfoPresentBit : Z := 0x01.
Definition ehtWidthMask : Z := 0x07.
Definition shiftBitsPerOctet2 : Z := 16.

Definition widthForCode (code : Z) : Z :=
  if code =? 0 then 20 else if code =? 1 then 40 else if code =? 2 then 80
  else if code =? 3 then 160 else if code =? 4 then 320 else 0.

(** [rawIE] *)
Record rawIE : Type := RawIE {
  ie_id : Z;
  ie_extID : Z;
  ie_body : bytes;
}.

(** [phyPresence] *)
Record phyPresence : Type := PhyPresence {
  ph_HT : bool;
  ph_VHT : bool;
  ph_HE : bool;
  ph_EHT : bool;
  ph_OFDMRate : bool;
  ph_opWidth : Z;
}.

Definition phy_zero : phyPresence := PhyPresence false false false false false 0.

Definition highestSecurity (a b : Security) : Security :=
  if security_value a <? security_value b then b else a.

Definition maxWidth (a b : Z) : Z := if a <? b then b else a.

Definition allZero (b : bytes) : bool := forallb (λ c, c =? 0) b.

Definition hasOFDMRate (body : bytes) : bool :=
  existsb (λ r, maxDSSSRateUnits <? Z.land r rateBasicMask) body.

Definition btmSupported (body : bytes) : option bool :=
  let byteIdx := btmBit / bitsPerByte in
  if len body <=? byteIdx then Some false
  else x ← index body byteIdx; Some (has_bits x (Z.shiftl 1 (btmBit mod bitsPerByte))).

Definition applyBSSLoad (bss : BSS) (body : bytes) : option BSS :=
  if len body <? bssLoadMinLen then Some bss
  else
    s ← slice body 0 countFieldLen;
    count ← le16 s;
    util ← index body countFieldLen;
    Some (set_Load bss count util true).

(** The AKM suites read by [applyRSN]: whether a SAE, a PSK or 802.1X and an
    OWE or Suite-B selector was seen, and the offset reached. *)
Fixpoint scan_akms (body : bytes) (n : nat) (off : Z) (sae psk owe : bool)
    : option (Z * bool * bool * bool) :=
  match n with
  | O => Some (off, sae, psk, owe)
  | Datatypes.S n =>
      if len body <? off + cipherSuiteLen then Some (off, sae, psk, owe)
      else
        t ← index body (off + selectorTypeOff);
        let sae' := (t =? akmSAE) || (t =? akmFTSAE) in
        let psk' := (t =? akmPSK) || (t =? akmFTPSK) || (t =? akmDot1X) || (t =? akmFTDot1X) in
        let owe' := (t =? akmOWE) || (t =? akmSuiteB) || (t =? akmSuiteB192) in
        scan_akms body n (off + cipherSuiteLen) (sae || sae') (psk || psk') (owe || owe')
  end.

Definition applyRSN (bss : BSS) (body : bytes) : option BSS :=
  let off := rsnVersionLen + cipherSuiteLen in
  let wpa2 := set_Security bss (highestSecurity (b_Security bss) SecurityWPA2) in
  if len body <? off + countFieldLen then Some wpa2
  else
    s ← slice body off (off + countFieldLen);
    pairwiseCount ← le16 s;
    let off := off + (countFieldLen + cipherSuiteLen * pairwiseCount) in
    if len body <? off + countFieldLen then Some wpa2
    else
      s ← slice body off (off + countFieldLen);
      akmCount ← le16 s;
      '(off, sae, psk, owe) ← scan_akms body (Z.to_nat akmCount) (off + countFieldLen)
                                false false false;
      let suite :=
        if sae && psk then SecurityWPA2WPA3
        else if sae || owe then SecurityWPA3
        else SecurityWPA2 in
      let bss := set_Security bss (highestSecurity (b_Security bss) suite) in
      if off + rsnCapsLen <=? len body then
        s ← slice body off (off + rsnCapsLen);
        caps ← le16 s;
        Some (set_PMF bss (has_bits caps (Z.shiftl 1 mfprBit)) (has_bits caps (Z.shiftl 1 mfpcBit)))
      else Some bss.

Definition applyVendor (bss : BSS) (body : bytes) : option BSS :=
  if len body <? vendorMinLen then Some bss
  else
    b0 ← index body 0;
    b1 ← index body 1;
    b2 ← index body 2;
    if negb ((b0 =? 0x00) && (b1 =? 0x50) && (b2 =? 0xF2)) then Some bss
    else
      t ← index body selectorTypeOff;
      if t =? wpaVendorType then
        Some (set_Security bss (highestSecurity (b_Security bss) SecurityWPA))
      else if t =? wpsVendorType then Some (set_WPSEnabled bss true)
      else Some bss.

Definition applyIE (bss : BSS) (ie : rawIE) : option BSS :=
  let id := ie_id ie in
  let body := ie_body ie in
  if id =? ieSSID then
    if (len body =? 0) || allZero body then Some (set_Hidden bss true)
    else Some (set_SSID bss body)
  else if id =? ieDSParameterSet then
    if 1 <=? len body then c ← index body 0; Some (set_ChannelNum bss c) else Some bss
  else if id =? ieCountry then
    if countryCodeLen <=? len body then
      c ← slice body 0 countryCodeLen; Some (set_CountryCode bss c)
    else Some bss
  else if id =? ieBSSLoad then applyBSSLoad bss body
  else if id =? ieRSN then applyRSN bss body
  else if id =? ieMobilityDomain then Some (set_FTSupported bss true)
  else if id =? ieRMEnabledCaps then Some (set_RRMNeighbor bss true)
  else if id =? ieExtendedCaps then
    btm ← btmSupported body;
    Some (if (btm : bool) then set_BTMSupported bss true else bss)
  else if id =? ieVendorSpecific then applyVendor bss body
  else Some bss.

Definition set_HT (p : phyPresence) : phyPresence :=
  PhyPresence true (ph_VHT p) (ph_HE p) (ph_EHT p) (ph_OFDMRate p) (ph_opWidth p).
Definition set_VHT (p : phyPresence) : phyPresence :=
  PhyPresence (ph_HT p) true (ph_HE p) (ph_EHT p) (ph_OFDMRate p) (ph_opWidth p).
Definition set_HE (p : phyPresence) : phyPresence :=
  PhyPresence (ph_HT p) (ph_VHT p) true (ph_EHT p) (ph_OFDMRate p) (ph_opWidth p).
Definition set_EHT (p : phyPresence) : phyPresence :=
  PhyPresence (ph_HT p) (ph_VHT p) (ph_HE p) true (ph_OFDMRate p) (ph_opWidth p).
Definition set_OFDMRate (p : phyPresence) (v : bool) : phyPresence :=
  PhyPresence (ph_HT p) (ph_VHT p) (ph_HE p) (ph_EHT p) v (ph_opWidth p).
Definition set_opWidth (p : phyPresence) (v : Z) : phyPresence :=
  PhyPresence (ph_HT p) (ph_VHT p) (ph_HE p) (ph_EHT p) (ph_OFDMRate p) v.

Definition htOperationWidth (body : bytes) : option Z :=
  if len body <? htOpMinLen then Some 0
  else
    info ← index body 1;
    let secondary := Z.land info htSecondaryMask in
    if ((secondary =? htSecondaryAbove) || (secondary =? htSecondaryBelow))
       && has_bits info htAnyWidthBit
    then Some 40 else Some 20.

Definition vhtChannelWidth (code ccfs1 : Z) : Z :=
  if code =? vhtWidth80Plus then if negb (ccfs1 =? 0) then 160 else 80
  else if (code =? vhtWidth160Old) || (code =? vhtWidth8080Old) then 160
  else 0.

Definition vhtOperationWidth (body : bytes) : option Z :=
  if len body <? vhtOpInfoLen then Some 0
  else
    code ← index body 0;
    ccfs1 ← index body 2;
    Some (vhtChannelWidth code ccfs1).

(** The offset past the optional VHT Operation Information, and its width:
    [None] inside is the early return of a truncated field. *)
Definition he_vht_info (body : bytes) (params : Z) : option (option (Z * Z)) :=
  if has_bits params (Z.shiftl 1 heVHTInfoBit) then
    if len body <? heOpFixedLen + vhtOpInfoLen then Some None
    else
      code ← index body heOpFixedLen;
      ccfs1 ← index body (heOpFixedLen + 2);
      Some (Some (heOpFixedLen + vhtOpInfoLen, vhtChannelWidth code ccfs1))
  else Some (Some (heOpFixedLen, 0)).

Definition heOperationWidth (body : bytes) : option Z :=
  if len body <? heOpFixedLen then Some 0
  else
    b0 ← index body 0;
    b1 ← index body 1;
    b2 ← index body 2;
    let params := Z.lor (Z.lor b0 (Z.shiftl b1 bitsPerByte)) (Z.shiftl b2 shiftBitsPerOctet2) in
    vht ← he_vht_info body params;
    match vht with
    | None => Some 0
    | Some (off, width) =>
        let off := if has_bits params (Z.shiftl 1 heCoHostedBit) then off + 1 else off in
        if has_bits params (Z.shiftl 1 he6GHzInfoBit) && (off + he6GHzControlOff <? len body) then
          control ← index body (off + he6GHzControlOff);
          Some (maxWidth width (widthForCode (Z.land control he6GHzWidthMask)))
        else Some width
    end.

Definition ehtOperationWidth (body : bytes) : option Z :=
  if len body <=? ehtOpFixedLen then Some 0
  else
    b0 ← index body 0;
    if negb (has_bits b0 ehtInfoPresentBit) then Some 0
    else
      control ← index body ehtOpFixedLen;
      Some (widthForCode (Z.land control ehtWidthMask)).

(** [phy.opWidth = maxWidth(phy.opWidth, width)] *)
Definition widen (p : phyPresence) (width : Z) : phyPresence :=
  set_opWidth p (maxWidth (ph_opWidth p) width).

Definition markExtension (p : phyPresence) (ie : rawIE) : option phyPresence :=
  let ext := ie_extID ie in
  if ext =? extHECapabilities then Some (set_HE p)
  else if ext =? extHEOperation then
    w ← heOperationWidth (ie_body ie); Some (widen (set_HE p) w)
  else if ext =? extEHTCapabilities then Some (set_EHT p)
  else if ext =? extEHTOperation then
    w ← ehtOperationWidth (ie_body ie); Some (widen (set_EHT p) w)
  else Some p.

Definition markPHY (p : phyPresence) (ie : rawIE) : option phyPresence :=
  let id := ie_id ie in
  let body := ie_body ie in
  if (id =? ieSupportedRates) || (id =? ieExtSupportRates) then
    Some (set_OFDMRate p (ph_OFDMRate p || hasOFDMRate body))
  else if id =? ieHTCapabilities then Some (set_HT p)
  else if id =? ieHTOperation then
    w ← htOperationWidth body; Some (widen (set_HT p) w)
  else if id =? ieVHTCapabilities then Some (set_VHT p)
  else if id =? ieVHTOperation then
    w ← vhtOperationWidth body; Some (widen (set_VHT p) w)
  else if id =? ieElementExtension then markExtension p ie
  else Some p.

Definition finalize (p : phyPresence) (bss : BSS) (band : Band) : BSS :=
  let standard :=
    if ph_EHT p then Standard80211be
    else if ph_HE p then Standard80211ax
    else if ph_VHT p then Standard80211ac
    else if ph_HT p then Standard80211n
    else if bool_decide (band = Band5GHz) then Standard80211a
    else if ph_OFDMRate p then Standard80211g
    else Standard80211b in
  set_ChannelWidthM (set_Standard bss standard) (maxWidth 20 (ph_opWidth p)).

(** ** decode.go *)

Definition capabilityPrivacyBit : Z := 0x0010.
Definition beaconFixedParamLen : Z := 12.
Definition capabilityFieldOffset : Z := 10.
Definition ieHeaderLen : Z := 2.
Definition freqChannel14 : Z := 2484.
Definition channel14 : Z := 14.
Definition freq24Base : Z := 2407.
Definition freq5Base : Z := 5000.
Definition freq6Base : Z := 5950.
Definition freq24Low : Z := 2412.
Definition freq24High : Z := 2472.
Definition freq5Low : Z := 5160.
Definition freq5High : Z := 5895.
Definition freq6Low : Z := 5955.
Definition freq6High : Z := 7115.
Definition channelSpacingMHz : Z := 5.

Definition BandAndChannel (freqMHz : Z) : Band * Z :=
  if freqMHz =? freqChannel14 then (Band24GHz, channel14)
  else if (freq24Low <=? freqMHz) && (freqMHz <=? freq24High)
  then (Band24GHz, Z.quot (freqMHz - freq24Base) channelSpacingMHz)
  else if (freq5Low <=? freqMHz) && (freqMHz <=? freq5High)
  then (Band5GHz, Z.quot (freqMHz - freq5Base) channelSpacingMHz)
  else if (freq6Low <=? freqMHz) && (freqMHz <=? freq6High)
  then (Band6GHz, Z.quot (freqMHz - freq6Base) channelSpacingMHz)
  else (BandUnknown, 0).

(** One element of [splitIEs]'s walk over the list still to read. *)
Definition splitIEs_body (s : bytes * list rawIE) : option (outcome (bytes * list rawIE) (list rawIE)) :=
  let '(data, ies) := s in
  if negb (ieHeaderLen <=? len data) then Some (Leave ies)
  else
    id ← index data 0;
    n ← index data 1;
    if len data <? ieHeaderLen + n then Some (Leave ies)
    else
      body ← slice data ieHeaderLen (ieHeaderLen + n);
      r ← (if (id =? ieElementExtension) && (1 <=? n) then
             extID ← index body 0; body ← slice_from body 1; Some (RawIE id extID body)
           else Some (RawIE id 0 body));
      data ← slice_from data (ieHeaderLen + n);
      Some (Next (data, ies ++ [r])).

Definition splitIEs (data : bytes) : option (list rawIE) :=
  for_loop (S (length data)) splitIEs_body (data, []).

Fixpoint fold_ies (ies : list rawIE) (bss : BSS) (phy : phyPresence)
    : option (BSS * phyPresence) :=
  match ies with
  | [] => Some (bss, phy)
  | r :: ies =>
      bss ← applyIE bss r;
      phy ← markPHY phy r;
      fold_ies ies bss phy
  end.

Definition buildBSS (ies : list rawIE) (privacy : bool) (band : Band) : option BSS :=
  '(bss, phy) ← fold_ies ies bss_zero phy_zero;
  let bss := finalize phy bss band in
  Some (if bool_decide (b_Security bss = SecurityUnknown) then
          set_Security bss (if privacy then SecurityWEP else SecurityOpen)
        else bss).

Definition DecodeIEs (ies : bytes) (privacy : bool) (freqMHz : Z) : option BSS :=
  let '(band, channel) := BandAndChannel freqMHz in
  raw ← splitIEs ies;
  bss ← buildBSS raw privacy band;
  Some (if b_ChannelNum bss =? 0 then set_ChannelNum bss channel else bss).

(** ** Decoding a captured frame

    [gopacket] splits a captured frame into layers; it is a third-party
    library and a parameter of [Decode]. A [Packet] holds what [Decode] asks
    of the layers it returns. A frame type is one of the constants the code
    names, or another of which only [MainType] is read. *)
Inductive Dot11Type : Type :=
| Dot11TypeMgmtBeacon
| Dot11TypeMgmtProbeReq
| Dot11TypeMgmtProbeResp
| Dot11TypeMgmtAssociationReq
| Dot11TypeMgmtAssociationResp
| Dot11TypeMgmtReassociationReq
| Dot11TypeMgmtReassociationResp
| Dot11TypeMgmtAuthentication
| Dot11TypeMgmtDeauthentication
| Dot11TypeMgmtDisassociation
| Dot11TypeMgmtAction
| Dot11TypeMgmtActionNoAck
| Dot11TypeOther (data : bool).

Definition classify (t : Dot11Type) : Kind :=
  match t with
  | Dot11TypeMgmtBeacon => KindBeacon
  | Dot11TypeMgmtProbeReq => KindProbeRequest
  | Dot11TypeMgmtProbeResp => KindProbeResponse
  | Dot11TypeMgmtAssociationReq => KindAssocRequest
  | Dot11TypeMgmtAssociationResp => KindAssocResponse
  | Dot11TypeMgmtReassociationReq => KindReassocRequest
  | Dot11TypeMgmtReassociationResp => KindReassocResponse
  | Dot11TypeMgmtAuthentication => KindAuth
  | Dot11TypeMgmtDeauthentication => KindDeauth
  | Dot11TypeMgmtDisassociation => KindDisassoc
  | Dot11TypeMgmtAction | Dot11TypeMgmtActionNoAck => KindAction
  | Dot11TypeOther data => if data then KindData else KindOther
  end.

Record Dot11Layer : Type := MkDot11Layer {
  d_Type : Dot11Type;
  d_Retry : bool;
  d_ToDS : bool;
  d_FromDS : bool;
  d_Address1 : option bytes;
  d_Address2 : option bytes;
  d_Address3 : option bytes;
}.

Record RadioTapValues : Type := MkRadioTapValues {
  rv_DBMAntennaSignal : Z;
  rv_DBMAntennaNoise : Z;
  rv_ChannelFrequency : Z;
}.

Record Packet : Type := MkPacket {
  pk_Dot11 : option Dot11Layer;
  pk_RadioTap : option (list RadioTapValues);
  pk_elements : list (Z * bytes);
  pk_Beacon : option bytes;
  pk_ProbeResp : option bytes;
}.

Definition toRawIE (e : Z * bytes) : option rawIE :=
  let '(id, info) := e in
  if (id =? ieElementExtension) && (1 <=? len info) then
    extID ← index info 0;
    body ← slice_from info 1;
    Some (RawIE id extID body)
  else Some (RawIE id 0 info).

(** The loop of [capabilityPrivacy] over the two layers that hold the block. *)
Fixpoint capability_loop (layers : list (option bytes)) : option bool :=
  match layers with
  | [] => Some false
  | Some body :: layers =>
      if beaconFixedParamLen <=? len body then
        s ← slice body capabilityFieldOffset (capabilityFieldOffset + 2);
        capInfo ← le16 s;
        Some (has_bits capInfo capabilityPrivacyBit)
      else capability_loop layers
  | None :: layers => capability_loop layers
  end.

Definition capabilityPrivacy (pkt : Packet) : option bool :=
  capability_loop [pk_Beacon pkt; pk_ProbeResp pkt].

Definition decodeBSS (pkt : Packet) (band : Band) : option BSS :=
  ies ← mapM toRawIE (pk_elements pkt);
  privacy ← capabilityPrivacy pkt;
  buildBSS ies privacy band.

(** The frame before its network is decoded: header and radio fields. *)
Definition header_frame (d : Dot11Layer) (rt : option (list RadioTapValues)) : Frame :=
  let '(signal, noise, freq, (band, num)) :=
    match rt with
    | Some (v :: _) =>
        (rv_DBMAntennaSignal v, rv_DBMAntennaNoise v, rv_ChannelFrequency v,
         BandAndChannel (rv_ChannelFrequency v))
    | _ => (0, 0, 0, (BandUnknown, 0))
    end in
  MkFrame (classify (d_Type d)) (d_Address3 d) (d_Address2 d) (d_Address1 d)
    (d_ToDS d) (d_FromDS d) signal noise freq num band (d_Retry d) None.

Definition with_bss (f : Frame) (bss : BSS) (num : Z) : Frame :=
  MkFrame (f_Kind f) (f_BSSID f) (f_Transmitter f) (f_Receiver f) (f_ToDS f) (f_FromDS f)
    (f_SignalDBm f) (f_NoiseDBm f) (f_ChannelMHz f) num (f_Band f) (f_Retry f) (Some bss).

Section Decode.
Context (NewPacket : bytes → Packet).

(** The inner [None] is [ErrNotDot11]. *)
Definition Decode (data : bytes) : option (option Frame) :=
  let pkt := NewPacket data in
  match pk_Dot11 pkt with
  | None => Some None
  | Some d11 =>
      let f := header_frame d11 (pk_RadioTap pkt) in
      if bool_decide (f_Kind f = KindBeacon) || bool_decide (f_Kind f = KindProbeResponse) then
        bss ← decodeBSS pkt (f_Band f);
        Some (Some
          (if b_ChannelNum bss =? 0 then with_bss f (set_ChannelNum bss (f_ChannelNum f)) (f_ChannelNum f)
           else if f_ChannelNum f =? 0 then with_bss f bss (b_ChannelNum bss)
           else with_bss f bss (f_ChannelNum f)))
      else Some (Some f)
  end.
End Decode.

(** ** Every parser returns *)

Definition ie_ok (ie : rawIE) : Prop := bytes_ok (ie_body ie) ∧ len (ie_body ie) ≤ 255.

(** What the elements read so far leave in a [BSS]. *)
Record bss_wf (b : BSS) : Prop := {
  bw_ssid : bytes_ok (b_SSID b) ∧ len (b_SSID b) ≤ 255;
  bw_channel : 0 ≤ b_ChannelNum b < 256;
  bw_country : b_CountryCode b = [] ∨ len (b_CountryCode b) = 2;
  bw_stations : 0 ≤ b_StationCount b < 2 ^ 16;
  bw_util : 0 ≤ b_ChannelUtilByte b < 256;
  bw_load : b_HasBSSLoad b = false → b_StationCount b = 0 ∧ b_ChannelUtilByte b = 0;
}.

Definition width_ok (w : Z) : Prop := w ∈ [0; 20; 40; 80; 160; 320].

Lemma bss_zero_wf : bss_wf bss_zero.
Proof. split; simpl; try done; try lia; [split; [constructor|done]|by left]. Qed.

Lemma maxWidth_ok a b : width_ok a → width_ok b → width_ok (maxWidth a b).
Proof. intros. unfold maxWidth. by destruct (_ <? _). Qed.

Lemma widthForCode_ok c : width_ok (widthForCode c).
Proof. unfold widthForCode, width_ok. repeat (destruct (_ =? _); [set_solver|]). set_solver. Qed.

Lemma vhtChannelWidth_ok c f : width_ok (vhtChannelWidth c f).
Proof.
  unfold vhtChannelWidth, width_ok. destruct (c =? vhtWidth80Plus), (f =? 0), ((c =? vhtWidth160Old) || (c =? vhtWidth8080Old)); cbn [negb]; set_solver.
Qed.

Lemma wp_htOperationWidth body : wp (htOperationWidth body) width_ok.
Proof.
  unfold htOperationWidth, htOpMinLen. wp_go; unfold width_ok; set_solver.
Qed.

Lemma wp_vhtOperationWidth body : wp (vhtOperationWidth body) width_ok.
Proof.
  unfold vhtOperationWidth, vhtOpInfoLen. wp_go; [unfold width_ok; set_solver|].
  apply vhtChannelWidth_ok.
Qed.

Lemma wp_he_vht_info body params :
  heOpFixedLen ≤ len body →
  wp (he_vht_info body params) (λ r, ∀ off w, r = Some (off, w) → 0 ≤ off ∧ width_ok w).
Proof.
  intros Hl. unfold he_vht_info, heOpFixedLen, vhtOpInfoLen in *. wp_go; intros off w Hr; try done;
    injection Hr as <- <-; (split; [done|]); [apply vhtChannelWidth_ok|unfold width_ok; set_solver].
Qed.

Lemma wp_heOperationWidth body : wp (heOperationWidth body) width_ok.
Proof.
  unfold heOperationWidth. wp_step; [unfold width_ok; set_solver|].
  unfold heOpFixedLen, he6GHzControlOff in E. wp_go.
  eapply wp_mono; [apply wp_he_vht_info; unfold heOpFixedLen; lia|].
  intros [[off w]|] Hr; [|unfold width_ok; simpl; set_solver].
  destruct (Hr off w eq_refl) as [Hoff Hw]. unfold he6GHzControlOff.
  destruct (has_bits _ (Z.shiftl 1 heCoHostedBit)); (wp_step; [|done]);
    apply andb_true_iff in E0 as [_ ?%Z.ltb_lt]; wp_go;
    (apply maxWidth_ok; [done|apply widthForCode_ok]).
Qed.

Lemma wp_ehtOperationWidth body : wp (ehtOperationWidth body) width_ok.
Proof.
  unfold ehtOperationWidth, ehtOpFixedLen. wp_go; try (unfold width_ok; set_solver).
  apply widthForCode_ok.
Qed.

Lemma wp_btmSupported body : wp (btmSupported body) (λ _, True).
Proof. unfold btmSupported. change (btmBit / bitsPerByte) with 2. by wp_go. Qed.

Lemma wp_scan_akms body n off sae psk owe :
  0 ≤ off → wp (scan_akms body n off sae psk owe) (λ r, off ≤ r.1.1.1).
Proof.
  revert off sae psk owe. induction n as [|n IH]; intros off sae psk owe Hoff; cbn [scan_akms].
  { simpl. lia. }
  unfold cipherSuiteLen, selectorTypeOff. wp_go; [simpl; lia|].
  eapply wp_mono; [apply IH; lia|]. simpl. lia.
Qed.

(** A 16-bit field of an element. *)
Lemma read_le16 body off :
  bytes_ok body → 0 ≤ off → off + 2 ≤ len body →
  ∃ s v, slice body off (off + 2) = Some s ∧ le16 s = Some v ∧ 0 ≤ v < 2 ^ 16.
Proof.
  intros Hb ??. destruct (wp_elim (slice body off (off + 2))
    (λ s, wp (le16 s) (λ v, 0 ≤ v < 2 ^ 16))) as (s & Hs & (v & Hv & ?)%wp_elim); [|eauto].
  wp_read. apply wp_le16; [lia|]. intros v Hv. apply Hv. by eapply bytes_ok_sub.
Qed.

(** What an RSN element adds, whatever the network it is read for. *)
Definition rsn_update (b : BSS) (suite : Security) (pmf : option (bool * bool)) : BSS :=
  let b' := set_Security b (highestSecurity (b_Security b) suite) in
  match pmf with
  | Some (required, capable) => set_PMF b' required capable
  | None => b'
  end.

Lemma applyRSN_update body : bytes_ok body →
  ∃ suite pmf, ∀ b, applyRSN b body = Some (rsn_update b suite pmf).
Proof.
  intros Hb. unfold applyRSN, rsn_update.
  unfold rsnVersionLen, cipherSuiteLen, countFieldLen, rsnCapsLen.
  cbv zeta. destruct (Z.ltb_spec (len body) (2 + 4 + 2)) as [|H1].
  { by exists SecurityWPA2, None. }
  destruct (read_le16 body (2 + 4) Hb) as (s1 & n & -> & Hn & ?); [lia..|].
  cbn [mbind option_bind]. rewrite Hn. cbn [mbind option_bind].
  destruct (Z.ltb_spec (len body) (2 + 4 + (2 + 4 * n) + 2)) as [|H2].
  { by exists SecurityWPA2, None. }
  destruct (read_le16 body (2 + 4 + (2 + 4 * n)) Hb) as (s2 & m & -> & Hm & ?); [lia..|].
  cbn [mbind option_bind]. rewrite Hm. cbn [mbind option_bind].
  destruct (wp_elim _ _ (wp_scan_akms body (Z.to_nat m) (2 + 4 + (2 + 4 * n) + 2) false false false
    ltac:(lia))) as ([[[off sae] psk] owe] & -> & Hoff). simpl in Hoff. cbn [mbind option_bind].
  eexists. destruct (Z.leb_spec (off + 2) (len body)); [|by exists None].
  destruct (read_le16 body off Hb) as (s3 & caps & -> & Hc & ?); [lia..|].
  cbn [mbind option_bind]. rewrite Hc. eexists (Some (_, _)). intros b. reflexivity.
Qed.

(** The part of a network's advertisement that elements only ever add to,
    and its join. *)
Definition advert : Type := Security * bool * bool * bool * bool * bool.

Definition advertised (b : BSS) : advert :=
  (b_Security b, b_Hidden b, b_RRMNeighbor b, b_BTMSupported b, b_FTSupported b, b_WPSEnabled b).

Definition advert_join (x y : advert) : advert :=
  let '(s1, a1, b1, c1, d1, e1) := x in
  let '(s2, a2, b2, c2, d2, e2) := y in
  (highestSecurity s1 s2, a1 || a2, b1 || b2, c1 || c2, d1 || d2, e1 || e2).

Definition advert_zero : advert := (SecurityUnknown, false, false, false, false, false).

Lemma highestSecurity_unknown s : highestSecurity s SecurityUnknown = s.
Proof. by destruct s. Qed.

Lemma highestSecurity_comm a b : highestSecurity a b = highestSecurity b a.
Proof. by destruct a, b. Qed.

Lemma highestSecurity_assoc a b c :
  highestSecurity a (highestSecurity b c) = highestSecurity (highestSecurity a b) c.
Proof. by destruct a, b, c. Qed.

Lemma advert_join_zero x : advert_join x advert_zero = x.
Proof.
  destruct x as [[[[[s a] b] c] d] e]. simpl.
  by rewrite highestSecurity_unknown, !orb_false_r.
Qed.

Lemma advert_join_swap x y z :
  advert_join (advert_join x y) z = advert_join (advert_join x z) y.
Proof.
  destruct x as [[[[[s1 a1] b1] c1] d1] e1], y as [[[[[s2 a2] b2] c2] d2] e2],
    z as [[[[[s3 a3] b3] c3] d3] e3]. simpl.
  rewrite <-!highestSecurity_assoc, (highestSecurity_comm s2 s3).
  by rewrite <-!orb_assoc, (orb_comm a2), (orb_comm b2), (orb_comm c2), (orb_comm d2), (orb_comm e2).
Qed.

(** Each element adds a fixed advertisement, and keeps the record well
    formed. *)
Definition adds (a : advert) (f : BSS → option BSS) : Prop :=
  ∀ b, bss_wf b → wp (f b) (λ b', bss_wf b' ∧ advertised b' = advert_join (advertised b) a).

Lemma adds_set a (f : BSS → BSS) :
  (∀ b, bss_wf b → bss_wf (f b)) →
  (∀ b, advertised (f b) = advert_join (advertised b) a) → adds a (λ b, Some (f b)).
Proof. intros Hw Ha b Hb. simpl. auto. Qed.

Lemma adds_id : adds advert_zero Some.
Proof. intros b Hb. apply wp_some. by rewrite advert_join_zero. Qed.

Ltac bss_simpl :=
  intros b; try (intros []; split; simpl; try done; try lia; auto);
  try (destruct b; simpl; rewrite ?highestSecurity_unknown, ?orb_false_r, ?orb_true_r; done).

Lemma applyBSSLoad_adds body : bytes_ok body → ∃ a, adds a (λ b, applyBSSLoad b body).
Proof.
  intros Hb. exists advert_zero. intros b Hw. unfold applyBSSLoad. wp_step; [by apply adds_id|].
  unfold bssLoadMinLen, countFieldLen in *. wp_go. byte_facts. split.
  - destruct Hw. split; simpl; done || lia.
  - destruct b. simpl. by rewrite highestSecurity_unknown, !orb_false_r.
Qed.

Lemma applyVendor_adds body : ∃ a, adds a (λ b, applyVendor b body).
Proof.
  unfold applyVendor. destruct (Z.ltb_spec (len body) vendorMinLen) as [|Hl].
  { exists advert_zero. apply adds_id. }
  unfold vendorMinLen, selectorTypeOff in *.
  assert (∀ i, 0 ≤ i < 4 → ∃ x, index body i = Some x) as Hi.
  { intros i ?. destruct (wp_elim (index body i) (λ _, True)) as (x & ? & _); [by wp_read|eauto]. }
  destruct (Hi 0) as [b0 ->]; [lia|]. destruct (Hi 1) as [b1 ->]; [lia|].
  destruct (Hi 2) as [b2 ->]; [lia|]. destruct (Hi 3) as [t ->]; [lia|].
  cbn [mbind option_bind]. destruct (negb _); [exists advert_zero; apply adds_id|].
  destruct (t =? wpaVendorType).
  { exists (SecurityWPA, false, false, false, false, false). apply adds_set; bss_simpl. }
  destruct (t =? wpsVendorType).
  { exists (SecurityUnknown, false, false, false, false, true). apply adds_set; bss_simpl. }
  exists advert_zero. apply adds_id.
Qed.

Lemma applyRSN_adds body : bytes_ok body → ∃ a, adds a (λ b, applyRSN b body).
Proof.
  intros (suite & pmf & Hu)%applyRSN_update.
  exists (suite, false, false, false, false, false). intros b Hw. rewrite Hu. simpl. split.
  - destruct Hw. by destruct pmf as [[]|].
  - unfold rsn_update. by destruct pmf as [[]|]; destruct b; simpl; rewrite !orb_false_r.
Qed.

Lemma applyIE_adds ie : ie_ok ie → ∃ a, adds a (λ b, applyIE b ie).
Proof.
  intros [Hb Hl]. unfold applyIE. set (body := ie_body ie) in *.
  destruct (_ =? ieSSID).
  { destruct (_ || _).
    - exists (SecurityUnknown, true, false, false, false, false). apply adds_set; bss_simpl.
    - exists advert_zero. apply adds_set; bss_simpl. }
  destruct (_ =? ieDSParameterSet).
  { exists advert_zero. intros b Hw. wp_step; [|by apply adds_id]. wp_go. byte_facts. split.
    - destruct Hw. by split.
    - destruct b. simpl. by rewrite highestSecurity_unknown, !orb_false_r. }
  destruct (_ =? ieCountry).
  { exists advert_zero. intros b Hw. unfold countryCodeLen. wp_step; [|by apply adds_id]. wp_go. split.
    - destruct Hw. split; simpl; auto.
    - destruct b. simpl. by rewrite highestSecurity_unknown, !orb_false_r. }
  destruct (_ =? ieBSSLoad); [by apply applyBSSLoad_adds|].
  destruct (_ =? ieRSN); [by apply applyRSN_adds|].
  destruct (_ =? ieMobilityDomain).
  { exists (SecurityUnknown, false, false, false, true, false). apply adds_set; bss_simpl. }
  destruct (_ =? ieRMEnabledCaps).
  { exists (SecurityUnknown, false, true, false, false, false). apply adds_set; bss_simpl. }
  destruct (_ =? ieExtendedCaps).
  { destruct (wp_elim _ _ (wp_btmSupported body)) as ([] & -> & _); cbn [mbind option_bind].
    - exists (SecurityUnknown, false, false, true, false, false). apply adds_set; bss_simpl.
    - exists advert_zero. apply adds_id. }
  destruct (_ =? ieVendorSpecific); [apply applyVendor_adds|].
  exists advert_zero. apply adds_id.
Qed.

(** The advertisement of one element. *)
Definition ie_advert (ie : rawIE) : advert :=
  match applyIE bss_zero ie with Some b => advertised b | None => advert_zero end.

Lemma applyIE_advert ie : ie_ok ie → adds (ie_advert ie) (λ b, applyIE b ie).
Proof.
  intros Hok. destruct (applyIE_adds ie Hok) as [a Ha]. replace (ie_advert ie) with a; [done|].
  unfold ie_advert. destruct (wp_elim _ _ (Ha bss_zero bss_zero_wf)) as (b & -> & _ & Hb).
  rewrite Hb. destruct a as [[[[[s x1] x2] x3] x4] x5]. simpl. by destruct s.
Qed.

(** The generations found, joined. *)
Definition phy_join (p q : phyPresence) : phyPresence :=
  PhyPresence (ph_HT p || ph_HT q) (ph_VHT p || ph_VHT q) (ph_HE p || ph_HE q)
    (ph_EHT p || ph_EHT q) (ph_OFDMRate p || ph_OFDMRate q)
    (maxWidth (ph_opWidth p) (ph_opWidth q)).

Lemma maxWidth_max a b : maxWidth a b = Z.max a b.
Proof. unfold maxWidth. destruct (Z.ltb_spec a b); lia. Qed.

Lemma phy_join_swap p q r : phy_join (phy_join p q) r = phy_join (phy_join p r) q.
Proof.
  unfold phy_join. cbn [ph_HT ph_VHT ph_HE ph_EHT ph_OFDMRate ph_opWidth].
  rewrite !maxWidth_max, <-!Z.max_assoc, (Z.max_comm (ph_opWidth q)).
  rewrite <-!orb_assoc, (orb_comm (ph_HT q)), (orb_comm (ph_VHT q)), (orb_comm (ph_HE q)).
  by rewrite (orb_comm (ph_EHT q)), (orb_comm (ph_OFDMRate q)).
Qed.

Definition phy_ok (p : phyPresence) : Prop := width_ok (ph_opWidth p).

Lemma width_ok_nonneg w : width_ok w → 0 ≤ w.
Proof. unfold width_ok. rewrite !elem_of_cons, elem_of_nil. lia. Qed.

Definition marks (q : phyPresence) (f : phyPresence → option phyPresence) : Prop :=
  ∀ p, phy_ok p → f p = Some (phy_join p q).

Lemma marks_pure q (f : phyPresence → phyPresence) :
  phy_ok q → (∀ p, phy_ok p → f p = phy_join p q) → ∃ q, phy_ok q ∧ marks q (λ p, Some (f p)).
Proof. intros Hq Hf. exists q. split; [done|]. intros p Hp. by rewrite Hf. Qed.

Lemma marks_width (o : option Z) q (f : Z → phyPresence → phyPresence) :
  wp o width_ok → (∀ w, ph_opWidth (q w) = w) → (∀ w p, f w p = phy_join p (q w)) →
  ∃ q, phy_ok q ∧ marks q (λ p, w ← o; Some (f w p)).
Proof.
  intros (w & -> & Hw)%wp_elim Hq Hf. exists (q w). unfold phy_ok. rewrite Hq.
  split; [done|]. intros p Hp. cbn [mbind option_bind]. by rewrite Hf.
Qed.

Ltac phy_flags :=
  intros; match goal with p : phyPresence |- _ => destruct p end; unfold widen, phy_join, phy_ok in *;
  simpl in *; rewrite ?orb_false_r, ?orb_true_r; try done;
  rewrite maxWidth_max, Z.max_l by (by apply width_ok_nonneg); done.

Lemma markPHY_marks ie : ∃ q, phy_ok q ∧ marks q (λ p, markPHY p ie).
Proof.
  assert (width_ok 0) as H0 by (unfold width_ok; set_solver).
  assert (∃ q, phy_ok q ∧ marks q Some) as Hid
    by (apply (marks_pure phy_zero id); [done|phy_flags]).
  unfold markPHY, markExtension.
  destruct (_ || _).
  { apply (marks_pure (PhyPresence false false false false (hasOFDMRate (ie_body ie)) 0)); [done|].
    phy_flags. }
  destruct (_ =? ieHTCapabilities).
  { apply (marks_pure (PhyPresence true false false false false 0)); [done|phy_flags]. }
  destruct (_ =? ieHTOperation).
  { apply (marks_width _ (PhyPresence true false false false false));
      [apply wp_htOperationWidth|done|phy_flags]. }
  destruct (_ =? ieVHTCapabilities).
  { apply (marks_pure (PhyPresence false true false false false 0)); [done|phy_flags]. }
  destruct (_ =? ieVHTOperation).
  { apply (marks_width _ (PhyPresence false true false false false));
      [apply wp_vhtOperationWidth|done|phy_flags]. }
  destruct (_ =? ieElementExtension); [|done].
  destruct (_ =? extHECapabilities).
  { apply (marks_pure (PhyPresence false false true false false 0)); [done|phy_flags]. }
  destruct (_ =? extHEOperation).
  { apply (marks_width _ (PhyPresence false false true false false));
      [apply wp_heOperationWidth|done|phy_flags]. }
  destruct (_ =? extEHTCapabilities).
  { apply (marks_pure (PhyPresence false false false true false 0)); [done|phy_flags]. }
  destruct (_ =? extEHTOperation); [|done].
  apply (marks_width _ (PhyPresence false false false true false));
    [apply wp_ehtOperationWidth|done|phy_flags].
Qed.

Definition ie_phy (ie : rawIE) : phyPresence := default phy_zero (markPHY phy_zero ie).

Lemma phy_join_zero q : phy_ok q → phy_join phy_zero q = q.
Proof.
  intros Hq%width_ok_nonneg. destruct q. unfold phy_join. simpl in *.
  by rewrite maxWidth_max, Z.max_r.
Qed.

Lemma phy_zero_ok : phy_ok phy_zero.
Proof. unfold phy_ok, width_ok. simpl. set_solver. Qed.

Lemma markPHY_phy ie : phy_ok (ie_phy ie) ∧ marks (ie_phy ie) (λ p, markPHY p ie).
Proof.
  destruct (markPHY_marks ie) as (q & Hq & Hm).
  assert (ie_phy ie = q) as ->; [|done].
  unfold ie_phy. rewrite (Hm phy_zero phy_zero_ok). by apply phy_join_zero.
Qed.

(** ** The whole element list *)

(** What a list of elements adds up to. *)
Definition adverts (ies : list rawIE) : advert := foldl advert_join advert_zero (map ie_advert ies).
Definition phys (ies : list rawIE) : phyPresence := foldl phy_join phy_zero (map ie_phy ies).

Lemma wp_fold_ies ies b p :
  Forall ie_ok ies → bss_wf b → phy_ok p →
  wp (fold_ies ies b p) (λ r, bss_wf r.1 ∧ phy_ok r.2 ∧
    advertised r.1 = foldl advert_join (advertised b) (map ie_advert ies) ∧
    r.2 = foldl phy_join p (map ie_phy ies)).
Proof.
  intros Hies. revert b p. induction Hies as [|ie ies Hie Hies IH]; intros b p Hb Hp;
    cbn [fold_ies map foldl]; [by apply wp_some|].
  eapply wp_bind_spec; [by apply applyIE_advert|]. intros b' [Hb' Ha].
  destruct (markPHY_phy ie) as [Hq Hm]. rewrite (Hm p Hp). apply wp_bind, wp_some.
  rewrite <-Ha. apply IH; [done|]. by apply maxWidth_ok.
Qed.

(** What [buildBSS] guarantees of a network. *)
Record bss_ok (b : BSS) : Prop := {
  bo_wf : bss_wf b;
  bo_width : b_ChannelWidthM b ∈ [20; 40; 80; 160; 320];
  bo_standard : b_Standard b ≠ StandardUnknown ∧ b_Standard b ≠ Standard80211bn;
  bo_security : b_Security b ≠ SecurityUnknown;
}.

(** The part of the result that no element overwrites. *)
Definition summary (b : BSS) : advert * Standard * Z := (advertised b, b_Standard b, b_ChannelWidthM b).

Definition expected_summary (ies : list rawIE) (privacy : bool) (band : Band)
    : advert * Standard * Z :=
  let '(s, h, r, t, f, w) := adverts ies in
  let b := finalize (phys ies) bss_zero band in
  let s := if decide (s = SecurityUnknown) then if privacy then SecurityWEP else SecurityOpen else s in
  (s, h, r, t, f, w, b_Standard b, b_ChannelWidthM b).

Lemma finalize_standard p bss band :
  b_Standard (finalize p bss band) ≠ StandardUnknown ∧
  b_Standard (finalize p bss band) ≠ Standard80211bn.
Proof. unfold finalize. simpl. repeat case_match; done. Qed.

Lemma finalize_width p bss band :
  phy_ok p → b_ChannelWidthM (finalize p bss band) ∈ [20; 40; 80; 160; 320].
Proof.
  unfold phy_ok, width_ok, finalize. simpl. rewrite maxWidth_max, !elem_of_cons, elem_of_nil. lia.
Qed.

Lemma bss_wf_eq b b' :
  bss_wf b → b_SSID b' = b_SSID b → b_ChannelNum b' = b_ChannelNum b →
  b_CountryCode b' = b_CountryCode b → b_StationCount b' = b_StationCount b →
  b_ChannelUtilByte b' = b_ChannelUtilByte b → b_HasBSSLoad b' = b_HasBSSLoad b → bss_wf b'.
Proof. intros [] H1 H2 H3 H4 H5 H6. by split; rewrite ?H1, ?H2, ?H3, ?H4, ?H5, ?H6. Qed.

Lemma wp_buildBSS ies privacy band :
  Forall ie_ok ies →
  wp (buildBSS ies privacy band) (λ b, bss_ok b ∧ summary b = expected_summary ies privacy band).
Proof.
  intros Hies. unfold buildBSS.
  eapply wp_bind_spec; [apply wp_fold_ies; [done|apply bss_zero_wf|apply phy_zero_ok]|].
  intros [b p] (Hw & Hp & Ha & Hq). cbn [fst snd] in Hw, Hp, Ha, Hq. cbv beta iota zeta.
  apply wp_some. change (advertised b = adverts ies) in Ha. change (p = phys ies) in Hq.
  pose proof (finalize_standard p b band) as [Hs1 Hs2]. pose proof (finalize_width p b band Hp) as Hwid.
  unfold expected_summary. rewrite <-Ha, <-Hq. unfold summary, advertised. simpl.
  destruct (bool_decide_reflect (b_Security b = SecurityUnknown)) as [Hsec|Hsec].
  - rewrite decide_True by done. split; [|done].
    split; [by apply (bss_wf_eq b)|done|done|by destruct privacy].
  - rewrite decide_False by done. split; [|done]. split; [by apply (bss_wf_eq b)|done|done|done].
Qed.

(** ** splitIEs *)

(** An element on the wire, and a list cut short. *)
Definition tlv (e : Z * bytes) : bytes := e.1 :: len e.2 :: e.2.
Definition element_ok (e : Z * bytes) : Prop := is_byte e.1 ∧ bytes_ok e.2 ∧ len e.2 ≤ 255.
Definition cut_short (tail : bytes) : Prop :=
  match tail with
  | _ :: n :: body => len body < n
  | _ => True
  end.

Definition raw_of (e : Z * bytes) : rawIE :=
  if decide (e.1 = ieElementExtension) then
    match e.2 with
    | x :: body => RawIE e.1 x body
    | [] => RawIE e.1 0 []
    end
  else RawIE e.1 0 e.2.

Lemma len_tlv e l : len (tlv e ++ l) = 2 + len e.2 + len l.
Proof. unfold tlv. rewrite <-!app_comm_cons, !len_cons, len_app. lia. Qed.

Lemma splitIEs_body_tlv e l ies :
  splitIEs_body (tlv e ++ l, ies) = Some (Next (l, ies ++ [raw_of e])).
Proof.
  destruct e as [id body]. unfold splitIEs_body, ieHeaderLen, raw_of.
  pose proof (len_nonneg body). pose proof (len_nonneg l). pose proof (len_tlv (id, body) l) as Hl.
  simpl fst in *. simpl snd in *.
  rewrite (proj2 (Z.leb_le 2 (len _))) by lia. cbn [negb].
  change (index (tlv (id, body) ++ l) 0) with (Some id).
  change (index (tlv (id, body) ++ l) 1) with (Some (len body)).
  cbn [mbind option_bind]. rewrite (proj2 (Z.ltb_ge (len _) _)) by lia.
  change (tlv (id, body) ++ l) with ([id; len body] ++ (body ++ l)).
  replace (slice _ 2 (2 + len body)) with (Some body).
  2: { rewrite slice_Some by (rewrite ?len_app in *; unfold len in *; simpl in *; lia).
       f_equal. change (drop (Z.to_nat 2) _) with (body ++ l).
       replace (2 + len body - 2) with (len body) by lia. unfold len.
       by rewrite Nat2Z.id, take_app_length. }
  cbn [mbind option_bind].
  replace (slice_from _ (2 + len body)) with (Some l).
  2: { rewrite app_assoc. symmetry. apply slice_from_app. rewrite len_app. done. }
  destruct (Z.eqb_spec id ieElementExtension) as [->|Hne]; cbn [andb].
  - rewrite decide_True by done. destruct body as [|x body]; [done|].
    rewrite (proj2 (Z.leb_le 1 _)) by (rewrite len_cons; pose proof (len_nonneg body); lia).
    change (index (x :: body) 0) with (Some x). cbn [mbind option_bind].
    change (x :: body) with ([x] ++ body). rewrite slice_from_app by done. done.
  - by rewrite decide_False.
Qed.

Lemma splitIEs_body_tail tail ies :
  cut_short tail → splitIEs_body (tail, ies) = Some (Leave ies).
Proof.
  intros Hcut. unfold splitIEs_body, ieHeaderLen. destruct tail as [|id [|n body]]; [done..|].
  cbn [cut_short] in Hcut. destruct (Z.leb_spec 2 (len (id :: n :: body))) as [|Hl]; [|done].
  change (index (id :: n :: body) 0) with (Some id). change (index (id :: n :: body) 1) with (Some n).
  cbn [mbind option_bind negb]. rewrite (proj2 (Z.ltb_lt _ _)); [done|]. rewrite !len_cons. lia.
Qed.

Lemma splitIEs_loop els tail ies fuel :
  cut_short tail → (length els < fuel)%nat →
  for_loop fuel splitIEs_body (concat (map tlv els) ++ tail, ies) = Some (ies ++ map raw_of els).
Proof.
  intros Hcut. revert ies fuel. induction els as [|e els IH]; intros ies [|fuel] Hf; simpl in Hf; try lia.
  - cbn [map concat for_loop app]. rewrite splitIEs_body_tail by done. cbn [mbind option_bind].
    by rewrite app_nil_r.
  - cbn [map concat for_loop]. rewrite <-app_assoc, splitIEs_body_tlv. cbn [mbind option_bind].
    rewrite IH by lia. by rewrite <-app_assoc.
Qed.

Lemma length_tlvs els : (length els ≤ length (concat (map tlv els)))%nat.
Proof. induction els as [|e els IH]; simpl; rewrite ?length_app; lia. Qed.

(** Every element list is complete elements and a remainder cut short. *)
Lemma elements_of data :
  bytes_ok data →
  ∃ els tail, data = concat (map tlv els) ++ tail ∧ Forall element_ok els ∧ cut_short tail.
Proof.
  remember (length data) as n eqn:Hn. revert data Hn.
  induction (lt_wf n) as [n _ IH]; intros data -> Hb.
  destruct data as [|id [|m body]]; [by exists [], []|by exists [], [id]|].
  pose proof Hb as Hb'. unfold bytes_ok in Hb'. rewrite !list.Forall_cons in Hb'.
  destruct Hb' as (Hid & Hm & Hbody).
  destruct (decide (len body < m)) as [|Hl]; [by exists [], (id :: m :: body)|].
  unfold is_byte in Hm.
  destruct (IH (length (drop (Z.to_nat m) body))) with (data := drop (Z.to_nat m) body)
    as (els & tail & Heq & Hels & Hcut); [rewrite length_drop; simpl; lia|done|by apply Forall_drop|].
  assert (len (take (Z.to_nat m) body) = m) as Hlen by (rewrite len_take; lia).
  exists ((id, take (Z.to_nat m) body) :: els), tail. split_and!; [|constructor; [|done]|done].
  - cbn [map concat]. unfold tlv at 1. cbn [fst snd]. rewrite Hlen, <-app_assoc, <-Heq.
    cbn [app]. by rewrite take_drop.
  - split_and!; cbn [fst snd]; [done|by apply Forall_take|lia].
Qed.

Lemma raw_of_ok e : element_ok e → ie_ok (raw_of e).
Proof.
  destruct e as [id body]. intros (_ & Hb & Hl). cbn [fst snd] in *. unfold raw_of, ie_ok. cbn [fst snd].
  destruct (decide _); [|done]. destruct body as [|x body]; [done|]. cbn [ie_body].
  rewrite len_cons in Hl. split; [by inversion Hb|lia].
Qed.

Lemma splitIEs_elements data :
  bytes_ok data →
  ∃ els tail, data = concat (map tlv els) ++ tail ∧ Forall element_ok els ∧ cut_short tail ∧
    splitIEs data = Some (map raw_of els).
Proof.
  intros (els & tail & -> & Hels & Hcut)%elements_of. exists els, tail. split_and!; [done..|].
  unfold splitIEs. rewrite splitIEs_loop; [done|done|]. rewrite length_app.
  pose proof (length_tlvs els). lia.
Qed.

(** Reading an element list ends and never reads outside it; a list of
    encoded elements comes back as those elements, the identifier of an
    extension element split off, whatever cut-short remainder follows; and
    every list is of that form. *)
Theorem splitIEs_spec :
  (∀ els tail, Forall element_ok els → cut_short tail →
     splitIEs (concat (map tlv els) ++ tail) = Some (map raw_of els)) ∧
  (∀ data, bytes_ok data → ∃ els tail,
     data = concat (map tlv els) ++ tail ∧ Forall element_ok els ∧ cut_short tail).
Proof.
  split; [|apply elements_of]. intros els tail _ Hcut.
  unfold splitIEs. rewrite splitIEs_loop; [done|done|]. rewrite length_app.
  pose proof (length_tlvs els). lia.
Qed.

(** ** Bands and channels *)

(** The centre frequency of a channel, per band. *)
Definition channel_freq (band : Band) (c : Z) : Z :=
  match band with
  | Band24GHz => if c =? 14 then 2484 else 2407 + 5 * c
  | Band5GHz => 5000 + 5 * c
  | Band6GHz => 5950 + 5 * c
  | BandUnknown => 0
  end.

Definition channel_ok (band : Band) (c : Z) : Prop :=
  match band with
  | Band24GHz => 1 ≤ c ≤ 14
  | Band5GHz => 32 ≤ c ≤ 179
  | Band6GHz => 1 ≤ c ≤ 233
  | BandUnknown => c = 0
  end.

Lemma BandAndChannel_cases f :
  let '(band, c) := BandAndChannel f in
  channel_ok band c ∧
  (band ≠ BandUnknown → channel_freq band c ≤ f < channel_freq band c + 5).
Proof.
  unfold BandAndChannel, freqChannel14, channel14, freq24Base, freq5Base, freq6Base,
    freq24Low, freq24High, freq5Low, freq5High, freq6Low, freq6High, channelSpacingMHz.
  destruct (Z.eqb_spec f 2484) as [->|]; [simpl; lia|].
  repeat match goal with
  | |- context [(?lo <=? f) && (f <=? ?hi)] =>
      destruct (Z.leb_spec lo f), (Z.leb_spec f hi); cbn [andb]; try lia
  end; try (simpl; done);
  rewrite Z.quot_div_nonneg by lia; unfold channel_ok, channel_freq;
  match goal with
  | |- context [(f - ?b) / 5] =>
      pose proof (Z.div_mod (f - b) 5); pose proof (Z.mod_pos_bound (f - b) 5)
  end; try lia.
  destruct (Z.eqb_spec ((f - 2407) / 5) 14); lia.
Qed.

(** The channel read from a frequency is one of the band's, and the
    frequency lies within that channel's spacing; each channel's own
    frequency gives the channel back. *)
Theorem BandAndChannel_spec :
  (∀ f, let '(band, c) := BandAndChannel f in
   channel_ok band c ∧
   (band ≠ BandUnknown → channel_freq band c ≤ f < channel_freq band c + 5)) ∧
  (∀ band c, band ≠ BandUnknown → channel_ok band c → BandAndChannel (channel_freq band c) = (band, c)).
Proof.
  split; [apply BandAndChannel_cases|].
  assert (∀ band lo n, bool_decide (Forall (λ c, BandAndChannel (channel_freq band c) = (band, c))
    (seqZ lo n)) = true → ∀ c, lo ≤ c < lo + n → BandAndChannel (channel_freq band c) = (band, c)) as Hall.
  { intros band lo n Hb%bool_decide_eq_true_1 c Hc. rewrite list.Forall_forall in Hb.
    by apply Hb, elem_of_seqZ. }
  intros [] c Hne Hc; [done|..]; unfold channel_ok in Hc;
    [apply (Hall _ 1 14)|apply (Hall _ 32 148)|apply (Hall _ 1 233)]; try lia; vm_compute; reflexivity.
Qed.

Lemma BandAndChannel_range f : 0 ≤ (BandAndChannel f).2 < 256.
Proof.
  pose proof (BandAndChannel_cases f) as H. destruct (BandAndChannel f) as [[] c];
    destruct H as [H _]; unfold channel_ok in H; simpl; lia.
Qed.

(** ** The network view *)

Lemma set_ChannelNum_ok b c : bss_ok b → 0 ≤ c < 256 → bss_ok (set_ChannelNum b c).
Proof. intros [[]] ?. by split. Qed.

(** Decoding the element list of any scan result returns a network with
    a width, a generation and a suite of the known ones, a name of at most
    255 bytes and counters of their width; what it reports of security,
    generation and capabilities is the join over the complete elements of
    the list. *)
Theorem DecodeIEs_spec ies privacy freq :
  bytes_ok ies →
  ∃ els tail b, ies = concat (map tlv els) ++ tail ∧ cut_short tail ∧
    DecodeIEs ies privacy freq = Some b ∧ bss_ok b ∧
    summary b = expected_summary (map raw_of els) privacy (BandAndChannel freq).1 ∧
    (b_ChannelNum b = 0 → (BandAndChannel freq).2 = 0).
Proof.
  intros Hb. destruct (splitIEs_elements ies Hb) as (els & tail & Heq & Hels & Hcut & Hs).
  exists els, tail. unfold DecodeIEs. pose proof (BandAndChannel_range freq) as Hr.
  destruct (BandAndChannel freq) as [band channel]. cbn [fst snd] in *. rewrite Hs. cbn [mbind option_bind].
  destruct (wp_elim _ _ (wp_buildBSS (map raw_of els) privacy band
    ltac:(apply Forall_map; eapply Forall_impl; [exact Hels|apply raw_of_ok]))) as (b & -> & Hok & Hsum).
  cbn [mbind option_bind].
  eexists. split_and!; [done|done|reflexivity|..].
  - destruct (_ =? 0); [by apply set_ChannelNum_ok|done].
  - by destruct (_ =? 0).
  - by destruct (Z.eqb_spec (b_ChannelNum b) 0).
Qed.

(** Swapping elements does not change what is folded from them. *)
Lemma foldl_swap_perm {A B} (f : A → B → A) :
  (∀ x y z, f (f x y) z = f (f x z) y) → ∀ l1 l2, l1 ≡ₚ l2 → ∀ x, foldl f x l1 = foldl f x l2.
Proof.
  intros Hf l1 l2 Hp. induction Hp as [|y l1 l2 _ IH|y z l|l1 l2 l3 _ IH1 _ IH2]; intros x; simpl.
  - done.
  - apply IH.
  - by rewrite Hf.
  - by rewrite IH1.
Qed.

(** The order of the elements does not matter to what a network
    advertises: any two arrangements of the same elements give the same
    security, generation, width, hidden flag, roaming and WPS flags. *)
Theorem buildBSS_order ies ies' privacy band :
  Forall ie_ok ies → ies ≡ₚ ies' →
  ∃ b b', buildBSS ies privacy band = Some b ∧ buildBSS ies' privacy band = Some b' ∧
          summary b = summary b'.
Proof.
  intros Hok Hp. assert (Forall ie_ok ies') as Hok' by (by rewrite <-Hp).
  destruct (wp_elim _ _ (wp_buildBSS ies privacy band Hok)) as (b & Hb & _ & Hs).
  destruct (wp_elim _ _ (wp_buildBSS ies' privacy band Hok')) as (b' & Hb' & _ & Hs').
  exists b, b'. split_and!; [done..|]. rewrite Hs, Hs'. unfold expected_summary, adverts, phys.
  rewrite (foldl_swap_perm advert_join advert_join_swap _ _ (Permutation_map ie_advert Hp)).
  by rewrite (foldl_swap_perm phy_join phy_join_swap _ _ (Permutation_map ie_phy Hp)).
Qed.

(** ** The RSN element *)

Definition put_le16 (v : Z) : bytes := [v mod 256; v / 256].

(** The element's fields as IEEE 802.11 lays them out: version, group
    cipher, pairwise and AKM suite lists, capabilities, optional fields. *)
Definition rsn_body (version group : bytes) (pairwise akms : list bytes) (caps : Z) (rest : bytes)
    : bytes :=
  version ++ group ++ put_le16 (len pairwise) ++ concat pairwise ++
  put_le16 (len akms) ++ concat akms ++ put_le16 caps ++ rest.

(** The type byte of a suite selector, and the suite a list of them offers. *)
Definition selector_type (s : bytes) : Z := default 0 (s !! 3%nat).

Definition offers (types : list Z) (akms : list bytes) : bool :=
  existsb (λ s, existsb (Z.eqb (selector_type s)) types) akms.

Definition akm_security (akms : list bytes) : Security :=
  let sae := offers [akmSAE; akmFTSAE] akms in
  let psk := offers [akmPSK; akmFTPSK; akmDot1X; akmFTDot1X] akms in
  let owe := offers [akmOWE; akmSuiteB; akmSuiteB192] akms in
  if sae && psk then SecurityWPA2WPA3 else if sae || owe then SecurityWPA3 else SecurityWPA2.

Lemma le16_put v l : 0 ≤ v < 2 ^ 16 → le16 (put_le16 v ++ l) = Some v.
Proof. intros. unfold put_le16. simpl. f_equal. pose proof (Z.div_mod v 256). lia. Qed.

Lemma len_put_le16 v : len (put_le16 v) = 2.
Proof. done. Qed.

#[global] Arguments put_le16 : simpl never.

Lemma has_bits_testbit x n : 0 ≤ n → has_bits x (Z.shiftl 1 n) = Z.testbit x n.
Proof.
  intros Hn. unfold has_bits. rewrite Z.shiftl_1_l. destruct (Z.testbit x n) eqn:Hb.
  - destruct (Z.eqb_spec (Z.land x (2 ^ n)) 0) as [H|]; [|done].
    assert (Z.testbit (Z.land x (2 ^ n)) n = false) as Ht by (by rewrite H, Z.bits_0).
    by rewrite Z.land_spec, Hb, Z.pow2_bits_true in Ht.
  - replace (Z.land x (2 ^ n)) with 0; [done|]. apply Z.bits_inj'. intros m Hm.
    rewrite Z.bits_0, Z.land_spec. destruct (decide (m = n)) as [->|Hne]; [by rewrite Hb|].
    by rewrite Z.pow2_bits_false, andb_false_r by done.
Qed.

Lemma slice_app_mid a b c i j :
  i = len a → j = len a + len b → slice (a ++ b ++ c : bytes) i j = Some b.
Proof.
  intros -> ->. pose proof (len_nonneg a). pose proof (len_nonneg b). pose proof (len_nonneg c).
  rewrite slice_Some by (rewrite ?len_app; lia). f_equal.
  replace (len a + len b - len a) with (len b) by lia. unfold len. rewrite !Nat2Z.id.
  by rewrite drop_app_length, take_app_length.
Qed.

Lemma len_suites (l : list bytes) : Forall (λ s, len s = 4) l → len (concat l) = 4 * len l.
Proof.
  induction 1 as [|s l Hs _ IH]; [done|]. cbn [concat]. rewrite len_app, len_cons, IH. lia.
Qed.

Lemma index_selector pre s post :
  len s = 4 → index (pre ++ s ++ post) (len pre + 3) = Some (selector_type s).
Proof.
  intros Hs. unfold index. pose proof (len_nonneg pre). rewrite (proj2 (Z.leb_le 0 _)) by lia.
  unfold len in *. rewrite lookup_app_r by lia.
  replace (Z.to_nat _ - length pre)%nat with 3%nat by lia.
  rewrite lookup_app_l by lia. unfold selector_type.
  destruct (lookup_lt_is_Some_2 s 3) as [x ->]; [lia|done].
Qed.

Lemma scan_akms_suites pre akms post sae psk owe :
  Forall (λ s, len s = 4) akms →
  scan_akms (pre ++ concat akms ++ post) (length akms) (len pre) sae psk owe =
  Some (len pre + 4 * len akms,
        sae || offers [akmSAE; akmFTSAE] akms,
        psk || offers [akmPSK; akmFTPSK; akmDot1X; akmFTDot1X] akms,
        owe || offers [akmOWE; akmSuiteB; akmSuiteB192] akms).
Proof.
  intros H. revert pre sae psk owe. induction H as [|s akms Hs H IH]; intros pre sae psk owe.
  { simpl. by rewrite !orb_false_r, Z.add_0_r. }
  cbn [length scan_akms concat]. unfold cipherSuiteLen, selectorTypeOff.
  pose proof (len_nonneg post). pose proof (len_nonneg (concat akms)).
  rewrite (proj2 (Z.ltb_ge _ _)) by (rewrite !len_app; lia).
  rewrite <-app_assoc, index_selector by done. cbn [mbind option_bind].
  specialize (IH (pre ++ s)). rewrite <-app_assoc, len_app, Hs in IH. rewrite IH. clear IH.
  rewrite len_cons. unfold offers. cbn [existsb]. rewrite !orb_false_r, <-!orb_assoc.
  f_equal. f_equal. f_equal. f_equal. lia.
Qed.

(** An RSN element read field by field. *)
Lemma applyRSN_encode_eq b version group pairwise akms caps rest :
  len version = 2 → len group = 4 →
  Forall (λ s, len s = 4) pairwise → Forall (λ s, len s = 4) akms →
  len pairwise < 2 ^ 16 → len akms < 2 ^ 16 → 0 ≤ caps < 2 ^ 16 →
  applyRSN b (rsn_body version group pairwise akms caps rest) =
  Some (set_PMF (set_Security b (highestSecurity (b_Security b) (akm_security akms)))
         (Z.testbit caps 6) (Z.testbit caps 7)).
Proof.
  intros Hv Hg Hpw Hak Hnp Hna Hcaps. unfold applyRSN.
  unfold rsnVersionLen, cipherSuiteLen, countFieldLen, rsnCapsLen. cbv zeta.
  set (body := rsn_body _ _ _ _ _ _).
  pose proof (len_suites _ Hpw) as Lp. pose proof (len_suites _ Hak) as La.
  pose proof (len_nonneg pairwise). pose proof (len_nonneg akms). pose proof (len_nonneg rest).
  assert (len body = 12 + 4 * len pairwise + 4 * len akms + len rest) as Hl.
  { unfold body, rsn_body. rewrite !len_app, !len_put_le16, Hv, Hg, Lp, La. lia. }
  assert (∀ pre v post, body = pre ++ put_le16 v ++ post → 0 ≤ v < 2 ^ 16 →
    (s ← slice body (len pre) (len pre + 2); le16 s) = Some v) as Hread.
  { intros pre v post -> Hvr. rewrite (slice_app_mid pre (put_le16 v) post) by (rewrite ?len_put_le16; lia).
    cbn [mbind option_bind]. rewrite <-(app_nil_r (put_le16 v)). by apply le16_put. }
  assert (∀ pre v post (k : Z → option BSS) off, body = pre ++ put_le16 v ++ post → 0 ≤ v < 2 ^ 16 →
    off = len pre → (s ← slice body off (off + 2); x ← le16 s; k x) = k v) as Hbind.
  { intros pre v post k off Hpre Hvr ->. specialize (Hread pre v post Hpre Hvr).
    destruct (slice body _ _) as [s|]; [|done]. cbn [mbind option_bind] in *. by rewrite Hread. }
  rewrite (proj2 (Z.ltb_ge _ _)) by lia.
  rewrite (Hbind (version ++ group) (len pairwise)
    (concat pairwise ++ put_le16 (len akms) ++ concat akms ++ put_le16 caps ++ rest));
    [|by unfold body, rsn_body; rewrite <-!app_assoc|lia|by rewrite len_app, Hv, Hg].
  rewrite (proj2 (Z.ltb_ge _ _)) by lia.
  set (pre := version ++ group ++ put_le16 (len pairwise) ++ concat pairwise).
  assert (len pre = 8 + 4 * len pairwise) as Hpre.
  { unfold pre. rewrite !len_app, len_put_le16, Hv, Hg, Lp. lia. }
  rewrite (Hbind pre (len akms) (concat akms ++ put_le16 caps ++ rest));
    [|by unfold body, rsn_body, pre; rewrite <-!app_assoc|lia|lia].
  assert (body = (pre ++ put_le16 (len akms)) ++ concat akms ++ put_le16 caps ++ rest) as Hb2
    by (by unfold body, rsn_body, pre; rewrite <-!app_assoc).
  replace (Z.to_nat (len akms)) with (length akms) by (unfold len; lia).
  replace (2 + 4 + (2 + 4 * len pairwise) + 2) with (len (pre ++ put_le16 (len akms)))
    by (rewrite len_app, len_put_le16; lia).
  rewrite Hb2 at 1. rewrite scan_akms_suites by done. cbn [mbind option_bind orb].
  rewrite len_app, len_put_le16, (proj2 (Z.leb_le _ _)) by lia.
  rewrite (Hbind ((pre ++ put_le16 (len akms)) ++ concat akms) caps rest);
    [|by rewrite Hb2, <-!app_assoc|done|by rewrite !len_app, len_put_le16, La].
  unfold mfprBit, mfpcBit. by rewrite !has_bits_testbit.
Qed.

(** An RSN element laid out as the standard has it is read in full: the
    suites offered decide between WPA2, WPA3 and their transition mode, the
    network keeps the strongest suite any element gave it, and the two
    management-frame-protection flags are the capability bits. *)
Theorem applyRSN_encode b version group pairwise akms caps rest :
  len version = 2 → len group = 4 →
  Forall (λ s, len s = 4) pairwise → Forall (λ s, len s = 4) akms →
  len pairwise < 2 ^ 16 → len akms < 2 ^ 16 → 0 ≤ caps < 2 ^ 16 →
  applyRSN b (rsn_body version group pairwise akms caps rest) =
  Some (set_PMF (set_Security b (highestSecurity (b_Security b) (akm_security akms)))
         (Z.testbit caps 6) (Z.testbit caps 7)).
Proof. apply applyRSN_encode_eq. Qed.

Lemma highestSecurity_ge_l a b : security_value a ≤ security_value (highestSecurity a b).
Proof. by destruct a, b. Qed.

Lemma highestSecurity_ge_r a b : security_value b ≤ security_value (highestSecurity a b).
Proof. by destruct a, b. Qed.

Definition suite_of (a : advert) : Security := a.1.1.1.1.1.

Lemma suite_of_join x y : suite_of (advert_join x y) = highestSecurity (suite_of x) (suite_of y).
Proof. by destruct x as [[[[[]]]]], y as [[[[[]]]]]. Qed.

Lemma adverts_ge_start l x :
  security_value (suite_of x) ≤ security_value (suite_of (foldl advert_join x l)).
Proof.
  revert x. induction l as [|y l IH]; intros x; simpl; [done|]. etrans; [|apply IH].
  rewrite suite_of_join. apply highestSecurity_ge_l.
Qed.

Lemma adverts_strongest l x a :
  a ∈ l → security_value (suite_of a) ≤ security_value (suite_of (foldl advert_join x l)).
Proof.
  intros Hin. revert x. induction Hin as [a l|a y l _ IH]; intros x; simpl; [|apply IH].
  etrans; [|apply adverts_ge_start]. rewrite suite_of_join. apply highestSecurity_ge_r.
Qed.

(** No element hides the protection another one offers: a network one of
    whose elements is an RSN element offering some suites is classified at
    least as strong as those suites, whatever its other elements hold. *)
Theorem buildBSS_no_downgrade ies privacy band version group pairwise akms caps rest :
  Forall ie_ok ies →
  RawIE ieRSN 0 (rsn_body version group pairwise akms caps rest) ∈ ies →
  len version = 2 → len group = 4 →
  Forall (λ s, len s = 4) pairwise → Forall (λ s, len s = 4) akms →
  len pairwise < 2 ^ 16 → len akms < 2 ^ 16 → 0 ≤ caps < 2 ^ 16 →
  ∃ b, buildBSS ies privacy band = Some b ∧
       security_value (akm_security akms) ≤ security_value (b_Security b).
Proof.
  intros Hok Hin Hv Hg Hpw Hak Hnp Hna Hc. destruct (wp_elim _ _ (wp_buildBSS ies privacy band Hok))
    as (b & Hb & [_ _ _ Hsec] & Hs). exists b. split; [done|].
  set (ie := RawIE _ _ _) in *.
  assert (suite_of (ie_advert ie) = akm_security akms) as Hie.
  { unfold ie_advert, applyIE. subst ie. cbn [ie_id ie_body]. unfold ieRSN at 1 2 3 4 5 6. simpl Z.eqb.
    cbv iota. rewrite (applyRSN_encode_eq) by done. simpl. by destruct (akm_security akms). }
  pose proof (adverts_strongest (map ie_advert ies) advert_zero (ie_advert ie)
    (list_elem_of_fmap_2 ie_advert _ _ Hin)) as Hle.
  change (foldl _ _ _) with (adverts ies) in Hle. rewrite Hie in Hle.
  unfold summary, expected_summary in Hs.
  destruct (adverts ies) as [[[[[s x1] x2] x3] x4] x5]. simpl in Hs, Hle. injection Hs as Hs _ _ _ _ _ _ _.
  rewrite Hs. destruct (decide (s = SecurityUnknown)) as [->|]; [|done].
  assert (security_value SecurityWPA2 ≤ security_value (akm_security akms)).
  { unfold akm_security. by repeat case_match. }
  simpl in *. lia.
Qed.

(** ** Captured frames *)

(** What [gopacket] guarantees of an element's body: it is at most the 255
    bytes its length octet can say. *)
Definition packet_ok (pkt : Packet) : Prop :=
  Forall (λ e, bytes_ok e.2 ∧ len e.2 ≤ 255) (pk_elements pkt).

Lemma wp_toRawIE e : bytes_ok e.2 ∧ len e.2 ≤ 255 → wp (toRawIE e) ie_ok.
Proof.
  destruct e as [id info]. intros [Hb Hl]. simpl in Hb, Hl. unfold toRawIE.
  wp_step; [|by apply wp_some]. apply andb_true_iff in E as [_ ?%Z.leb_le]. wp_go.
  split; simpl; [by eapply bytes_ok_sub|lia].
Qed.

Lemma wp_capability_loop l : wp (capability_loop l) (λ _, True).
Proof.
  induction l as [|[body|] l IH]; simpl; [done| |done].
  unfold beaconFixedParamLen, capabilityFieldOffset. wp_step; [|done]. by wp_go.
Qed.

Lemma wp_decodeBSS pkt band : packet_ok pkt → wp (decodeBSS pkt band) bss_ok.
Proof.
  intros Hok. unfold decodeBSS. eapply wp_bind_spec.
  { apply wp_mapM. intros e He. apply wp_toRawIE. exact (proj1 (Forall_forall _ _) Hok e He). }
  intros ies [Hies _]. eapply wp_bind_spec; [apply wp_capability_loop|]. intros privacy _.
  eapply wp_mono; [by apply wp_buildBSS|]. by intros b [? _].
Qed.

(** Decoding any captured frame returns. Only bytes without an 802.11
    header are refused; a frame carries a network exactly when it is a beacon
    or a probe response, the network is well formed, and the frame and its
    network either both name a channel or neither does. *)
Theorem Decode_frame (NewPacket : bytes → Packet) data :
  packet_ok (NewPacket data) →
  ∃ r, Decode NewPacket data = Some r ∧ (r = None ↔ pk_Dot11 (NewPacket data) = None) ∧
    ∀ f, r = Some f →
      (is_Some (f_BSS f) ↔ f_Kind f = KindBeacon ∨ f_Kind f = KindProbeResponse) ∧
      ∀ b, f_BSS f = Some b → bss_ok b ∧ (f_ChannelNum f = 0 ↔ b_ChannelNum b = 0).
Proof.
  intros Hok. unfold Decode. destruct (pk_Dot11 (NewPacket data)) as [d|]; [|by exists None].
  set (f := header_frame d _).
  assert (0 ≤ f_ChannelNum f < 256 ∧ f_BSS f = None) as [Hnum Hnone].
  { unfold f, header_frame. destruct (pk_RadioTap _) as [[|v l]|]; try (split; simpl; done || lia).
    pose proof (BandAndChannel_range (rv_ChannelFrequency v)).
    by destruct (BandAndChannel (rv_ChannelFrequency v)). }
  destruct (_ || _) eqn:Hkind.
  - assert (f_Kind f = KindBeacon ∨ f_Kind f = KindProbeResponse) as Hk.
    { by apply orb_true_iff in Hkind as [?%bool_decide_eq_true_1|?%bool_decide_eq_true_1]; auto. }
    destruct (wp_elim _ _ (wp_decodeBSS _ (f_Band f) Hok)) as (b & -> & Hb). cbn [mbind option_bind].
    eexists. split_and!; [reflexivity|by split; intros|]. intros g [= <-].
    destruct (Z.eqb_spec (b_ChannelNum b) 0); [|destruct (Z.eqb_spec (f_ChannelNum f) 0)]; simpl;
      (split; [by split; [by intros|eauto]|]); intros b' [= <-]; try (split; done || lia).
    split; [by apply set_ChannelNum_ok|done].
  - exists (Some f). apply orb_false_iff in Hkind as [?%bool_decide_eq_false_1 ?%bool_decide_eq_false_1].
    split_and!; [done|by split; intros|]. intros g [= <-]. rewrite Hnone.
    split; [|done]. split; [by intros []|tauto].
Qed.

(** ** A worked network *)

Definition demo_akm (t : Z) : bytes := [0; 0x0F; 0xAC; t].

(** A WPA2/WPA3 transition network with management frame protection. *)
Definition demo_rsn : bytes :=
  rsn_body [1; 0] (demo_akm 4) [demo_akm 4] [demo_akm 2; demo_akm 8] 0x80 [].

(** A 5 GHz Wi-Fi 6 network on an 80 MHz channel, with a truncated last
    element. *)
Definition demo_ies : bytes :=
  [0; 4; 115; 101; 101; 100] ++ [48; len demo_rsn] ++ demo_rsn ++
  [61; 2; 36; 5] ++ [192; 3; 1; 42; 0] ++ [255; 1; 35] ++ [70; 5; 1].

Example DecodeIEs_demo :
  (λ b, (b_SSID b, b_Security b, b_Standard b, b_ChannelNum b, b_ChannelWidthM b, b_PMFCapable b,
         b_RRMNeighbor b))
    <$> DecodeIEs demo_ies true 5180 =
  Some ([115; 101; 101; 100], SecurityWPA2WPA3, Standard80211ax, 36, 80, true, false).
Proof. vm_compute. reflexivity. Qed.

Lemma demo_ies_ok : bytes_ok demo_ies.
Proof. repeat constructor; unfold is_byte; vm_compute; done || lia. Qed.

Lemma DecodeIEs_spec_witness :
  ∃ els tail b, demo_ies = concat (map tlv els) ++ tail ∧ cut_short tail ∧
    DecodeIEs demo_ies true 5180 = Some b ∧ bss_ok b ∧
    summary b = expected_summary (map raw_of els) true (BandAndChannel 5180).1 ∧
    (b_ChannelNum b = 0 → (BandAndChannel 5180).2 = 0).
Proof. exact (DecodeIEs_spec demo_ies true 5180 demo_ies_ok). Defined.

Definition demo_elements : list rawIE :=
  [RawIE ieRSN 0 demo_rsn; RawIE ieVendorSpecific 0 [0; 0x50; 0xF2; 1]].

Lemma demo_elements_ok : Forall ie_ok demo_elements.
Proof. repeat constructor; unfold is_byte; vm_compute; done || lia. Qed.

Lemma buildBSS_order_witness :
  ∃ b b', buildBSS demo_elements true Band5GHz = Some b ∧
          buildBSS (reverse demo_elements) true Band5GHz = Some b' ∧ summary b = summary b'.
Proof.
  apply (buildBSS_order demo_elements (reverse demo_elements) true Band5GHz demo_elements_ok).
  symmetry. apply reverse_Permutation.
Defined.

Lemma applyRSN_encode_witness :
  applyRSN bss_zero demo_rsn =
  Some (set_PMF (set_Security bss_zero SecurityWPA2WPA3) false true).
Proof.
  refine (applyRSN_encode bss_zero [1; 0] (demo_akm 4) [demo_akm 4] [demo_akm 2; demo_akm 8] 0x80 []
    _ _ _ _ _ _ _); vm_compute; repeat constructor; done.
Defined.

Lemma buildBSS_no_downgrade_witness :
  ∃ b, buildBSS demo_elements true Band5GHz = Some b ∧ 6 ≤ security_value (b_Security b).
Proof.
  refine (buildBSS_no_downgrade demo_elements true Band5GHz [1; 0] (demo_akm 4) [demo_akm 4]
    [demo_akm 2; demo_akm 8] 0x80 [] demo_elements_ok _ _ _ _ _ _ _ _);
    [by left|vm_compute; repeat constructor; done..].
Defined.

(** A packet splitter that finds one beacon. *)
Definition demo_packet (data : bytes) : Packet :=
  MkPacket (Some (MkDot11Layer Dot11TypeMgmtBeacon false false false
              (Some [255; 255; 255; 255; 255; 255]) (Some [2; 0; 0; 0; 0; 1]) (Some [2; 0; 0; 0; 0; 1])))
    (Some [MkRadioTapValues (-40) (-95) 5180]) [(0, []); (ieRSN, demo_rsn)] (Some data) None.

Lemma Decode_frame_witness :
  ∃ r, Decode demo_packet (replicate 12 0) = Some r ∧ (r = None ↔ False) ∧
    ∀ f, r = Some f →
      (is_Some (f_BSS f) ↔ f_Kind f = KindBeacon ∨ f_Kind f = KindProbeResponse) ∧
      ∀ b, f_BSS f = Some b → bss_ok b ∧ (f_ChannelNum f = 0 ↔ b_ChannelNum b = 0).
Proof.
  destruct (Decode_frame demo_packet (replicate 12 0)) as (r & Hr & Hn & Hf).
  { repeat constructor; unfold is_byte; vm_compute; done || lia. }
  exists r. split_and!; [done| |done]. rewrite Hn. done.
Defined.

(** The selector's identifier is not read: a suite of another organisation
    counts as the standard's suite of the same type. *)
Example foreign_suite_is_SAE :
  b_Security <$> applyRSN bss_zero
    (rsn_body [1; 0] (demo_akm 4) [demo_akm 4] [[0x50; 0x6F; 0x9A; 8]] 0 []) = Some SecurityWPA3.
Proof. vm_compute. reflexivity. Qed.

(** A network that offers 802.1X next to Suite B is not called a transition
    network. *)
Example enterprise_transition :
  b_Security <$> applyRSN bss_zero
    (rsn_body [1; 0] (demo_akm 4) [demo_akm 4] [demo_akm 1; demo_akm 12] 0 []) = Some SecurityWPA3.
Proof. vm_compute. reflexivity. Qed.
