(* ===== verification/Dot11View.v ===== *)
(** * What a network's elements say (src/internal/wifi/dot11/ie.go, decode.go)

    A reading of an element list on the wire, element by element, written
    from the layouts of IEEE 802.11 and not from the parsers: which bodies state a
    name, a suite, a generation, a width; and the theorem that [DecodeIEs]
    reports exactly that, in every field. *)
From Stdlib Require Import ZArith Lia.
From stdpp Require Import base gmap sets list strings.
From S2P Require Import Prelude GoBase Dot11Frame Dot11.

(** ** One element

    An element is its identifier and its body; the first byte of the body of
    identifier 255 is the extension's. *)

Definition body_of (id : Z) (e : Z * bytes) : option bytes := if e.1 =? id then Some e.2 else None.
Definition is_el (id : Z) (e : Z * bytes) : bool := e.1 =? id.
Definition ext_of (ext : Z) (e : Z * bytes) : option bytes :=
  match body_of 255 e with Some (x :: body) => if x =? ext then Some body else None | _ => None end.
Definition is_ext (ext : Z) (e : Z * bytes) : bool := match ext_of ext e with Some _ => true | None => false end.

(** A name of zeros, or of no byte, hides the network's. *)
Definition zeros (b : bytes) : bool := bool_decide (b = replicate (length b) 0).
Definition el_hidden (e : Z * bytes) : bool := match body_of 0 e with Some b => zeros b | None => false end.
Definition el_name (e : Z * bytes) : option bytes := match body_of 0 e with Some b => if zeros b then None else Some b | None => None end.
Definition el_channel (e : Z * bytes) : option Z := match body_of 3 e with Some (c :: _) => Some c | _ => None end.
Definition el_country (e : Z * bytes) : option bytes := match body_of 7 e with Some (a :: b :: _) => Some [a; b] | _ => None end.
Definition el_load (e : Z * bytes) : option (Z * Z) := match body_of 11 e with Some (lo :: hi :: u :: _) => Some (lo + 256 * hi, u) | _ => None end.
Definition el_btm (e : Z * bytes) : bool := match body_of 127 e with Some (_ :: _ :: x :: _) => Z.testbit x 3 | _ => false end.
Definition el_wps (e : Z * bytes) : bool :=
  match body_of 221 e with Some (a :: b :: c :: t :: _) => bool_decide ([a; b; c; t] = [0; 0x50; 0xF2; 4]) | _ => false end.
Definition el_wpa (e : Z * bytes) : bool :=
  match body_of 221 e with Some (a :: b :: c :: t :: _) => bool_decide ([a; b; c; t] = [0; 0x50; 0xF2; 1]) | _ => false end.

(** The types of up to [n] selectors of four bytes, and what follows them. *)
Fixpoint selectors (n : nat) (r : bytes) : list Z * bytes :=
  match n, r with
  | S n, _ :: _ :: _ :: t :: r => let '(ts, rest) := selectors n r in (t :: ts, rest)
  | _, _ => ([], r)
  end.
(** An RSN body: two bytes of version and four of the group cipher, then the
    pairwise and the authentication selectors, each list behind its count. *)
Definition rsn_auth (body : bytes) : option (list Z * bytes) :=
  match drop 6 body with
  | p0 :: p1 :: r =>
      match drop (Z.to_nat (4 * (p0 + 256 * p1))) r with
      | a0 :: a1 :: r => Some (selectors (Z.to_nat (a0 + 256 * a1)) r)
      | _ => None
      end
  | _ => None
  end.
Definition any (l : list Z) (ts : list Z) : bool := existsb (λ t, bool_decide (t ∈ l)) ts.
(** SAE is 8 and 9; a passphrase or 802.1X 1 to 4; OWE and Suite B 18, 11, 12. *)
Definition auth_suite (ts : list Z) : Security :=
  if any [8; 9] ts && any [1; 2; 3; 4] ts then SecurityWPA2WPA3
  else if any [8; 9; 11; 12; 18] ts then SecurityWPA3
  else SecurityWPA2.
Definition el_suite (e : Z * bytes) : option Security :=
  match body_of 48 e with
  | Some body => Some (match rsn_auth body with Some (ts, _) => auth_suite ts | None => SecurityWPA2 end)
  | None => if el_wpa e then Some SecurityWPA else None
  end.
(** Management frame protection, required and possible. *)
Definition el_pmf (e : Z * bytes) : option (bool * bool) :=
  match body_of 48 e with
  | Some body => match rsn_auth body with Some (_, c :: _ :: _) => Some (Z.testbit c 6, Z.testbit c 7) | _ => None end
  | None => None
  end.

(** A rate above 11 Mb/s, in units of 500 kb/s under the basic-rate bit. *)
Definition el_ofdm (e : Z * bytes) : bool :=
  match body_of 1 e, body_of 50 e with
  | None, None => false
  | _, _ => existsb (λ r, 22 <? r mod 128) e.2
  end.
Definition el_ht (e : Z * bytes) : bool := is_el 45 e || is_el 61 e.
Definition el_vht (e : Z * bytes) : bool := is_el 191 e || is_el 192 e.
Definition el_he (e : Z * bytes) : bool := is_ext 35 e || is_ext 36 e.
Definition el_eht (e : Z * bytes) : bool := is_ext 106 e || is_ext 108 e.

(** The width in MHz an Operation element states, 0 when it states none. *)
Definition ht_width (body : bytes) : Z :=
  match body with
  | _ :: i :: _ => if bool_decide (i mod 4 ∈ [1; 3]) && Z.testbit i 2 then 40 else 20
  | _ => 0
  end.
Definition vht_code (code segment : Z) : Z :=
  match code with 1 => if bool_decide (segment = 0) then 80 else 160 | 2 | 3 => 160 | _ => 0 end.
Definition vht_width (body : bytes) : Z := match body with code :: _ :: segment :: _ => vht_code code segment | _ => 0 end.
Definition code_width (code : Z) : Z := match code with 0 => 20 | 1 => 40 | 2 => 80 | 3 => 160 | 4 => 320 | _ => 0 end.
Definition he_6ghz (b2 width : Z) (opt : bytes) : Z :=
  match opt with _ :: control :: _ => if Z.testbit b2 1 then Z.max width (code_width (control mod 4)) else width | _ => width end.
Definition he_width (body : bytes) : Z :=
  match body with
  | _ :: b1 :: b2 :: _ :: _ :: _ :: opt =>
      let rest (width : Z) (opt : bytes) := he_6ghz b2 width (if Z.testbit b1 7 then drop 1 opt else opt) in
      if Z.testbit b1 6
      then match opt with code :: _ :: segment :: opt => rest (vht_code code segment) opt | _ => 0 end
      else rest 0 opt
  | _ => 0
  end.
Definition eht_width (body : bytes) : Z :=
  match body with
  | b0 :: _ :: _ :: _ :: _ :: control :: _ => if Z.testbit b0 0 then code_width (control mod 8) else 0
  | _ => 0
  end.
Definition el_width (e : Z * bytes) : Z :=
  match body_of 61 e, body_of 192 e, ext_of 36 e, ext_of 106 e with
  | Some b, _, _, _ => ht_width b
  | _, Some b, _, _ => vht_width b
  | _, _, Some b, _ => he_width b
  | _, _, _, Some b => eht_width b
  | _, _, _, _ => 0
  end.

(** ** The whole list *)

Definition generation (els : list (Z * bytes)) (band : Band) : Standard :=
  if existsb el_eht els then Standard80211be
  else if existsb el_he els then Standard80211ax
  else if existsb el_vht els then Standard80211ac
  else if existsb el_ht els then Standard80211n
  else if bool_decide (band = Band5GHz) then Standard80211a
  else if existsb el_ofdm els then Standard80211g
  else Standard80211b.

(** The last element that says something of a kind decides. *)
Definition latest {A} (f : Z * bytes → option A) (els : list (Z * bytes)) : option A := last (omap f els).

(** [b] is what the elements say. *)
Record shows (els : list (Z * bytes)) (privacy : bool) (freq : Z) (b : BSS) : Prop := {
  sh_name : b_SSID b = default [] (latest el_name els);
  sh_hidden : b_Hidden b = existsb el_hidden els;
  sh_channel : b_ChannelNum b = match latest el_channel els with
                                | Some c => if c =? 0 then (BandAndChannel freq).2 else c
                                | None => (BandAndChannel freq).2 end;
  sh_country : b_CountryCode b = default [] (latest el_country els);
  sh_load : (b_StationCount b, b_ChannelUtilByte b) = default (0, 0) (latest el_load els);
  sh_has_load : b_HasBSSLoad b = match latest el_load els with Some _ => true | None => false end;
  sh_pmf : (b_PMFRequired b, b_PMFCapable b) = default (false, false) (latest el_pmf els);
  sh_rrm : b_RRMNeighbor b = existsb (is_el 70) els;
  sh_ft : b_FTSupported b = existsb (is_el 54) els;
  sh_btm : b_BTMSupported b = existsb el_btm els;
  sh_wps : b_WPSEnabled b = existsb el_wps els;
  sh_suite : match omap el_suite els with
             | [] => b_Security b = if privacy then SecurityWEP else SecurityOpen
             | suites => b_Security b ∈ suites ∧ Forall (λ s, security_value s ≤ security_value (b_Security b)) suites
             end;
  sh_standard : b_Standard b = generation els (BandAndChannel freq).1;
  sh_width : b_ChannelWidthM b ∈ 20 :: map el_width els ∧ Forall (λ w, w ≤ b_ChannelWidthM b) (20 :: map el_width els);
}.

(** ** Reading at an offset *)

Lemma drop_index (body : bytes) i x r : drop (Z.to_nat i) body = x :: r → 0 ≤ i → index body i = Some x.
Proof.
  intros H Hi. unfold index. rewrite (proj2 (Z.leb_le 0 i)) by done. rewrite <- (take_drop (Z.to_nat i) body), H.
  apply list_lookup_middle. rewrite length_take. apply (f_equal length) in H. rewrite length_drop in H. cbn in H. lia.
Qed.

Lemma drop_le16 (body : bytes) i x y r : drop (Z.to_nat i) body = x :: y :: r → 0 ≤ i →
  ∃ s, slice body i (i + 2) = Some s ∧ le16 s = Some (x + 256 * y).
Proof.
  intros H Hi. assert (i + 2 ≤ len body) as Hl.
  { apply (f_equal length) in H. rewrite length_drop in H. cbn in H. unfold len. lia. }
  exists [x; y]. rewrite slice_Some by lia. rewrite H. replace (Z.to_nat (i + 2 - i)) with 2%nat by lia. split; [done|]. cbn. f_equal. lia.
Qed.

Lemma drop_len (body : bytes) i n : 0 ≤ i → (n ≤ length (drop (Z.to_nat i) body))%nat ↔ n = 0%nat ∨ i + Z.of_nat n ≤ len body.
Proof. intros Hi. rewrite length_drop. unfold len. lia. Qed.

(** ** The selectors of an RSN element *)

Lemma any_cons l t ts : any l (t :: ts) = bool_decide (t ∈ l) || any l ts.
Proof. done. Qed.

Lemma scan_akms_selectors body n off sae psk owe : 0 ≤ off →
  let '(ts, rest) := selectors n (drop (Z.to_nat off) body) in
  ∃ off', scan_akms body n off sae psk owe = Some (off', sae || any [8; 9] ts, psk || any [1; 2; 3; 4] ts, owe || any [11; 12; 18] ts) ∧
    drop (Z.to_nat off') body = rest ∧ 0 ≤ off'.
Proof.
  revert off sae psk owe. induction n as [|n IH]; intros off sae psk owe Hoff.
  { cbn. exists off. by rewrite !orb_false_r. }
  cbn [scan_akms]. unfold cipherSuiteLen, selectorTypeOff. destruct (Z.ltb_spec (len body) (off + 4)) as [Hl|Hl].
  - pose proof (drop_len body off 4 Hoff) as Hd. destruct (drop (Z.to_nat off) body) as [|a [|b [|c [|t r]]]] eqn:E; cbn [selectors any existsb];
      try (exists off; rewrite !orb_false_r, E; done). exfalso. cbn in Hd. lia.
  - pose proof (proj2 (drop_len body off 4 Hoff) ltac:(lia)) as Hd.
    destruct (drop (Z.to_nat off) body) as [|a [|b [|c [|t r]]]] eqn:E; cbn in Hd; try lia. cbn [selectors].
    assert (index body (off + 3) = Some t) as ->.
    { apply (drop_index body (off + 3) t r); [|lia]. replace (Z.to_nat (off + 3)) with (Z.to_nat off + 3)%nat by lia.
      by rewrite <- drop_drop, E. }
    cbn [mbind option_bind].
    assert (drop (Z.to_nat (off + 4)) body = r) as Er.
    { replace (Z.to_nat (off + 4)) with (Z.to_nat off + 4)%nat by lia. by rewrite <- drop_drop, E. }
    specialize (IH (off + 4) (sae || ((t =? 8) || (t =? 9)))
      (psk || ((t =? 2) || (t =? 4) || (t =? 1) || (t =? 3))) (owe || ((t =? 18) || (t =? 11) || (t =? 12))) ltac:(lia)).
    rewrite Er in IH. destruct (selectors n r) as [ts rest]. destruct IH as (off' & Hs & Hr & Ho). exists off'.
    split; [|done]. unfold akmSAE, akmFTSAE, akmPSK, akmFTPSK, akmDot1X, akmFTDot1X, akmOWE, akmSuiteB, akmSuiteB192. rewrite Hs, !any_cons.
    assert (∀ l, bool_decide (t ∈ l) = existsb (Z.eqb t) l) as Hm.
    { intros l. apply eq_iff_eq_true. rewrite bool_decide_eq_true, existsb_exists. setoid_rewrite <- list_elem_of_In.
      split; [intros H; exists t; by rewrite Z.eqb_refl|]. by intros (x & Hx & ->%Z.eqb_eq). }
    rewrite !Hm. cbn [existsb]. rewrite !orb_false_r.
    assert ((t =? 1) || ((t =? 2) || ((t =? 3) || (t =? 4))) = (t =? 2) || (t =? 4) || (t =? 1) || (t =? 3)) as -> by lia.
    assert ((t =? 11) || ((t =? 12) || (t =? 18)) = (t =? 18) || (t =? 11) || (t =? 12)) as -> by lia.
    by rewrite !orb_assoc.
Qed.

Lemma low_bit (a b : Z) n : 0 ≤ n < 8 → a mod 256 = b mod 256 → Z.testbit a n = Z.testbit b n.
Proof. intros Hn H. change 256 with (2 ^ 8) in H. rewrite <- (Z.mod_pow2_bits_low a 8 n), <- (Z.mod_pow2_bits_low b 8 n) by lia. by rewrite H. Qed.

(** What an RSN element adds. *)
Lemma applyRSN_reads b body : bytes_ok body →
  applyRSN b body = Some match rsn_auth body with
    | Some (ts, rest) =>
        let b' := set_Security b (highestSecurity (b_Security b) (auth_suite ts)) in
        match rest with c :: _ :: _ => set_PMF b' (Z.testbit c 6) (Z.testbit c 7) | _ => b' end
    | None => set_Security b (highestSecurity (b_Security b) SecurityWPA2)
    end.
Proof.
  intros Hok. unfold applyRSN, rsn_auth, rsnVersionLen, cipherSuiteLen, countFieldLen, rsnCapsLen. cbv zeta.
  change (2 + 4) with 6. change (6 + 2) with 8.
  pose proof (drop_len body 6 2 ltac:(lia)) as Hd. change (Z.to_nat 6) with 6%nat in Hd.
  destruct (Z.ltb_spec (len body) 8) as [Hl|Hl].
  { destruct (drop 6 body) as [|p0 [|p1 r]]; [done..|]. cbn in Hd. lia. }
  assert (2 ≤ length (drop 6 body))%nat as Hd' by (apply Hd; right; lia).
  destruct (drop 6 body) as [|p0 [|p1 r]] eqn:E; cbn in Hd'; try lia.
  destruct (drop_le16 body 6 p0 p1 r E ltac:(lia)) as (s & Hs1 & Hv). change (6 + 2) with 8 in Hs1. rewrite Hs1. cbn [mbind option_bind]. rewrite Hv. cbn [mbind option_bind].
  assert (0 ≤ p0 ∧ 0 ≤ p1) as [Hp0 Hp1].
  { assert (Forall is_byte (drop 6 body)) as Hf by (by apply Forall_drop). rewrite E in Hf.
    apply Forall_cons in Hf as [? [? _]%Forall_cons]. unfold is_byte in *. lia. }
  set (n := p0 + 256 * p1) in *. replace (6 + (2 + 4 * n)) with (8 + 4 * n) by lia.
  assert (drop (Z.to_nat (8 + 4 * n)) body = drop (Z.to_nat (4 * n)) r) as E2.
  { replace (Z.to_nat (8 + 4 * n)) with (6 + (2 + Z.to_nat (4 * n)))%nat by lia. by rewrite <- drop_drop, E. }
  pose proof (drop_len body (8 + 4 * n) 2 ltac:(lia)) as Hk. rewrite E2 in Hk.
  destruct (Z.ltb_spec (len body) (8 + 4 * n + 2)) as [Hl2|Hl2].
  { destruct (drop (Z.to_nat (4 * n)) r) as [|a0 [|a1 r2]]; [done..|]. cbn in Hk. lia. }
  assert (2 ≤ length (drop (Z.to_nat (4 * n)) r))%nat as Hk' by (apply Hk; right; lia).
  destruct (drop (Z.to_nat (4 * n)) r) as [|a0 [|a1 r2]] eqn:E3; cbn in Hk'; try lia.
  destruct (drop_le16 body (8 + 4 * n) a0 a1 r2 E2 ltac:(lia)) as (s2 & -> & Hv2). cbn [mbind option_bind]. rewrite Hv2. cbn [mbind option_bind].
  assert (drop (Z.to_nat (8 + 4 * n + 2)) body = r2) as E4.
  { replace (Z.to_nat (8 + 4 * n + 2)) with (Z.to_nat (8 + 4 * n) + 2)%nat by lia. by rewrite <- drop_drop, E2. }
  pose proof (scan_akms_selectors body (Z.to_nat (a0 + 256 * a1)) (8 + 4 * n + 2) false false false ltac:(lia)) as Hs. rewrite E4 in Hs.
  destruct (selectors (Z.to_nat (a0 + 256 * a1)) r2) as [ts rest]. destruct Hs as (off & -> & Er & Ho). cbn [mbind option_bind orb].
  assert ((if any [8; 9] ts && any [1; 2; 3; 4] ts then SecurityWPA2WPA3
           else if any [8; 9] ts || any [11; 12; 18] ts then SecurityWPA3 else SecurityWPA2) = auth_suite ts) as ->.
  { unfold auth_suite. assert (any [8; 9; 11; 12; 18] ts = any [8; 9] ts || any [11; 12; 18] ts) as ->; [|done].
    induction ts as [|t ts IH]; [done|]. rewrite !any_cons, IH.
    assert (bool_decide (t ∈ [8; 9; 11; 12; 18]) = bool_decide (t ∈ [8; 9]) || bool_decide (t ∈ [11; 12; 18])) as ->.
    { apply eq_iff_eq_true. rewrite orb_true_iff, !bool_decide_eq_true. set_solver. }
    by destruct (bool_decide (t ∈ [8; 9])), (bool_decide (t ∈ [11; 12; 18])), (any [8; 9] ts), (any [11; 12; 18] ts). }
  pose proof (drop_len body off 2 Ho) as Hc. rewrite Er in Hc.
  destruct (Z.leb_spec (off + 2) (len body)) as [Hl3|Hl3].
  - assert (2 ≤ length rest)%nat as Hc' by (apply Hc; right; lia). destruct rest as [|c [|d rest]]; cbn in Hc'; try lia.
    destruct (drop_le16 body off c d rest Er Ho) as (s3 & -> & Hv3). cbn [mbind option_bind]. rewrite Hv3. cbn [mbind option_bind].
    unfold mfprBit, mfpcBit. rewrite !has_bits_testbit by lia.
    assert ((c + 256 * d) mod 256 = c mod 256) as Hm by (rewrite (Z.mul_comm 256); apply Z.mod_add; lia).
    by rewrite !(low_bit (c + 256 * d) c).
  - destruct rest as [|c [|d rest]]; [done..|]. cbn in Hc. lia.
Qed.

(** ** What one element adds *)

Lemma zeros_allZero b : (len b =? 0) || allZero b = zeros b.
Proof.
  unfold zeros, allZero. apply eq_iff_eq_true. rewrite bool_decide_eq_true, orb_true_iff, forallb_forall. setoid_rewrite <- list_elem_of_In.
  split.
  - intros [H%Z.eqb_eq|H]; [by destruct b|]. apply list_eq. intros i. destruct (b !! i) as [x|] eqn:E.
    + symmetry. apply lookup_replicate. split; [|by eapply lookup_lt_Some]. specialize (H x ltac:(by eapply list_elem_of_lookup_2)). lia.
    + symmetry. apply lookup_replicate_None. by apply lookup_ge_None.
  - intros ->. right. intros x [-> _]%elem_of_replicate. done.
Qed.

(** The fields after an element, from the fields before it. *)
Record adds_el (e : Z * bytes) (b b' : BSS) : Prop := {
  ae_name : b_SSID b' = default (b_SSID b) (el_name e);
  ae_hidden : b_Hidden b' = b_Hidden b || el_hidden e;
  ae_channel : b_ChannelNum b' = default (b_ChannelNum b) (el_channel e);
  ae_country : b_CountryCode b' = default (b_CountryCode b) (el_country e);
  ae_load : (b_StationCount b', b_ChannelUtilByte b') = default (b_StationCount b, b_ChannelUtilByte b) (el_load e);
  ae_has_load : b_HasBSSLoad b' = b_HasBSSLoad b || match el_load e with Some _ => true | None => false end;
  ae_pmf : (b_PMFRequired b', b_PMFCapable b') = default (b_PMFRequired b, b_PMFCapable b) (el_pmf e);
  ae_rrm : b_RRMNeighbor b' = b_RRMNeighbor b || is_el 70 e;
  ae_ft : b_FTSupported b' = b_FTSupported b || is_el 54 e;
  ae_btm : b_BTMSupported b' = b_BTMSupported b || el_btm e;
  ae_wps : b_WPSEnabled b' = b_WPSEnabled b || el_wps e;
  ae_suite : b_Security b' = match el_suite e with Some s => highestSecurity (b_Security b) s | None => b_Security b end;
}.

(** An element of a given identifier says nothing of the others. *)
Ltac other_ids :=
  unfold el_name, el_hidden, el_channel, el_country, el_load, el_pmf, el_btm, el_wps, el_suite, el_wpa, is_el, body_of; cbn [fst snd Z.eqb Pos.eqb].
Ltac unchanged := cbn; rewrite ?orb_false_r, ?orb_true_r; done.

Lemma ie_of_raw e : ie_id (raw_of e) = e.1 ∧ (e.1 ≠ 255 → ie_body (raw_of e) = e.2).
Proof. unfold raw_of, ieElementExtension. destruct (decide _) as [H|H]; [|done]. split; [|done]. by destruct e.2. Qed.

Lemma applyIE_el e b : element_ok e → ∃ b', applyIE b (raw_of e) = Some b' ∧ adds_el e b b'.
Proof.
  destruct e as [id body]. intros (Hid & Hok & _). cbn [fst snd] in *. destruct (ie_of_raw (id, body)) as [Ei Eb]. cbn [fst snd] in Ei, Eb.
  unfold applyIE. rewrite Ei.
  unfold ieSSID, ieDSParameterSet, ieCountry, ieBSSLoad, ieRSN, ieMobilityDomain, ieRMEnabledCaps, ieExtendedCaps, ieVendorSpecific.
  destruct (Z.eqb_spec id 0) as [->|H0].
  { rewrite Eb by done. rewrite zeros_allZero. destruct (zeros body) eqn:Ez; eexists; (split; [done|]); split; other_ids; rewrite ?Ez; unchanged. }
  destruct (Z.eqb_spec id 3) as [->|H3].
  { rewrite Eb by done. destruct body as [|c body].
    - eexists. split; [done|]. split; other_ids; unchanged.
    - rewrite (proj2 (Z.leb_le 1 _)) by (rewrite len_cons; pose proof (len_nonneg body); lia).
      eexists. split; [done|]. split; other_ids; unchanged. }
  destruct (Z.eqb_spec id 7) as [->|H7].
  { rewrite Eb by done. destruct body as [|c [|d body]]; [eexists; (split; [done|]); split; other_ids; unchanged..|].
    unfold countryCodeLen. rewrite (proj2 (Z.leb_le 2 _)) by (rewrite !len_cons; pose proof (len_nonneg body); lia).
    rewrite slice_Some by (rewrite ?len_cons; pose proof (len_nonneg body); lia).
    eexists. split; [done|]. split; other_ids; unchanged. }
  destruct (Z.eqb_spec id 11) as [->|H11].
  { rewrite Eb by done. unfold applyBSSLoad, bssLoadMinLen, countFieldLen.
    destruct body as [|lo [|hi [|u body]]]; [eexists; (split; [done|]); split; other_ids; unchanged..|].
    rewrite (proj2 (Z.ltb_ge (len (lo :: hi :: u :: body)) 3)) by (rewrite !len_cons; pose proof (len_nonneg body); lia).
    rewrite slice_Some by (rewrite ?len_cons; pose proof (len_nonneg body); lia).
    eexists. split; [done|]. split; other_ids; try unchanged. cbn. f_equal. lia. }
  destruct (Z.eqb_spec id 48) as [->|H48].
  { rewrite Eb, applyRSN_reads by done. eexists. split; [done|].
    destruct (rsn_auth body) as [ [ts [|c [|d rest]]]|] eqn:Er; split; other_ids; rewrite ?Er; unchanged. }
  destruct (Z.eqb_spec id 54) as [->|H54]; [eexists; (split; [done|]); split; other_ids; unchanged|].
  destruct (Z.eqb_spec id 70) as [->|H70]; [eexists; (split; [done|]); split; other_ids; unchanged|].
  destruct (Z.eqb_spec id 127) as [->|H127].
  { rewrite Eb by done. unfold btmSupported. change (btmBit / bitsPerByte) with 2. change (btmBit mod bitsPerByte) with 3.
    destruct body as [|x [|y [|z body]]]; [eexists; (split; [done|]); split; other_ids; unchanged..|].
    rewrite (proj2 (Z.leb_gt (len (x :: y :: z :: body)) 2)) by (rewrite !len_cons; pose proof (len_nonneg body); lia).
    change (index (x :: y :: z :: body) 2) with (Some z). cbn [mbind option_bind].
    rewrite has_bits_testbit by lia. destruct (Z.testbit z 3) eqn:Ez; eexists; (split; [done|]); split; other_ids; rewrite ?Ez; unchanged. }
  destruct (Z.eqb_spec id 221) as [->|H221].
  { rewrite Eb by done. unfold applyVendor, vendorMinLen, selectorTypeOff.
    destruct body as [|x [|y [|z [|t body]]]]; [eexists; (split; [done|]); split; other_ids; unchanged..|].
    rewrite (proj2 (Z.ltb_ge (len (x :: y :: z :: t :: body)) 4)) by (rewrite !len_cons; pose proof (len_nonneg body); lia).
    change (index (x :: y :: z :: t :: body) 0) with (Some x). change (index (x :: y :: z :: t :: body) 1) with (Some y).
    change (index (x :: y :: z :: t :: body) 2) with (Some z). change (index (x :: y :: z :: t :: body) 3) with (Some t). cbn [mbind option_bind].
    unfold wpaVendorType, wpsVendorType.
    assert (∀ k, bool_decide ([x; y; z; t] = [0; 0x50; 0xF2; k]) = (x =? 0) && (y =? 0x50) && (z =? 0xF2) && (t =? k)) as Hv.
    { intros k. apply eq_iff_eq_true. rewrite bool_decide_eq_true, !andb_true_iff, !Z.eqb_eq. naive_solver. }
    destruct ((x =? 0) && (y =? 0x50) && (z =? 0xF2)) eqn:Eo; cbn [negb andb].
    - destruct (Z.eqb_spec t 1) as [->|H1]; [eexists; (split; [done|]); split; other_ids; rewrite ?Hv, ?Eo; unchanged|].
      destruct (Z.eqb_spec t 4) as [->|H4]; [eexists; (split; [done|]); split; other_ids; rewrite ?Hv, ?Eo; unchanged|].
      apply Z.eqb_neq in H1, H4. eexists. split; [done|]. split; other_ids; rewrite ?Hv, ?Eo, ?H1, ?H4; unchanged.
    - eexists. split; [done|]. split; other_ids; rewrite ?Hv, ?Eo; unchanged. }
  eexists. split; [done|]. apply Z.eqb_neq in H0, H3, H7, H11, H48, H54, H70, H127, H221.
  split; other_ids; rewrite ?H0, ?H3, ?H7, ?H11, ?H48, ?H54, ?H70, ?H127, ?H221; unchanged.
Qed.

(** ** Generations and widths *)

Lemma ht_width_eq body : htOperationWidth body = Some (ht_width body).
Proof.
  unfold htOperationWidth, htOpMinLen. destruct body as [|x [|i body]]; [done..|].
  rewrite (proj2 (Z.ltb_ge (len (x :: i :: body)) 2)) by (rewrite !len_cons; pose proof (len_nonneg body); lia).
  change (index (x :: i :: body) 1) with (Some i). cbn [mbind option_bind ht_width].
  unfold htSecondaryMask, htSecondaryAbove, htSecondaryBelow, htAnyWidthBit. change (Z.land i 3) with (Z.land i (Z.ones 2)). rewrite Z.land_ones by lia.
  change (2 ^ 2) with 4. change (has_bits i 4) with (has_bits i (Z.shiftl 1 2)). rewrite has_bits_testbit by lia.
  assert (bool_decide (i mod 4 ∈ [1; 3]) = (i mod 4 =? 1) || (i mod 4 =? 3)) as ->; [|cbv zeta; by destruct ((i mod 4 =? 1) || (i mod 4 =? 3)), (Z.testbit i 2)].
  apply eq_iff_eq_true. rewrite bool_decide_eq_true, orb_true_iff, !Z.eqb_eq. set_solver.
Qed.

Lemma vht_code_eq c f : vhtChannelWidth c f = vht_code c f.
Proof.
  unfold vhtChannelWidth, vht_code, vhtWidth80Plus, vhtWidth160Old, vhtWidth8080Old.
  destruct (Z.eqb_spec c 1) as [->|]; [by destruct (Z.eqb_spec f 0) as [->|]; [|rewrite bool_decide_false by done]|].
  destruct (Z.eqb_spec c 2) as [->|]; [done|]. destruct (Z.eqb_spec c 3) as [->|]; [done|].
  destruct c as [|[[]|[]|]|]; done.
Qed.
Lemma vht_width_eq body : vhtOperationWidth body = Some (vht_width body).
Proof.
  unfold vhtOperationWidth, vhtOpInfoLen. destruct body as [|c [|x [|s body]]]; [done..|].
  rewrite (proj2 (Z.ltb_ge (len (c :: x :: s :: body)) 3)) by (rewrite !len_cons; pose proof (len_nonneg body); lia).
  change (index (c :: x :: s :: body) 0) with (Some c). change (index (c :: x :: s :: body) 2) with (Some s).
  cbn [mbind option_bind vht_width]. by rewrite vht_code_eq.
Qed.
Lemma code_width_eq c : widthForCode c = code_width c.
Proof.
  unfold widthForCode, code_width. destruct (Z.eqb_spec c 0) as [->|]; [done|]. destruct (Z.eqb_spec c 1) as [->|]; [done|].
  destruct (Z.eqb_spec c 2) as [->|]; [done|]. destruct (Z.eqb_spec c 3) as [->|]; [done|]. destruct (Z.eqb_spec c 4) as [->|]; [done|].
  destruct c as [|[[]|[|[]|]|]|]; done.
Qed.
Lemma eht_width_eq body : ehtOperationWidth body = Some (eht_width body).
Proof.
  unfold ehtOperationWidth, ehtOpFixedLen, ehtInfoPresentBit, ehtWidthMask.
  destruct body as [|b0 [|b1 [|b2 [|b3 [|b4 [|c body]]]]]]; [done..|].
  rewrite (proj2 (Z.leb_gt (len (b0 :: b1 :: b2 :: b3 :: b4 :: c :: body)) 5)) by (rewrite !len_cons; pose proof (len_nonneg body); lia).
  change (index (b0 :: b1 :: b2 :: b3 :: b4 :: c :: body) 0) with (Some b0). change (index (b0 :: b1 :: b2 :: b3 :: b4 :: c :: body) 5) with (Some c).
  cbn [mbind option_bind eht_width]. change (has_bits b0 1) with (has_bits b0 (Z.shiftl 1 0)). rewrite has_bits_testbit by lia. change 7 with (Z.ones 3). rewrite Z.land_ones by lia.
  change (2 ^ 3) with 8. rewrite code_width_eq. by destruct (Z.testbit b0 0).
Qed.

(** A bit of the HE parameters, three bytes with the low one first. *)
Lemma params_bit b0 b1 b2 n : is_byte b0 → is_byte b1 →
  (8 ≤ n < 16 → Z.testbit (Z.lor (Z.lor b0 (Z.shiftl b1 8)) (Z.shiftl b2 16)) n = Z.testbit b1 (n - 8)) ∧
  (16 ≤ n → Z.testbit (Z.lor (Z.lor b0 (Z.shiftl b1 8)) (Z.shiftl b2 16)) n = Z.testbit b2 (n - 16)).
Proof.
  intros H0 H1. assert (∀ b m, is_byte b → 8 ≤ m → Z.testbit b m = false) as Hhigh.
  { intros b m Hb Hm. destruct (decide (b = 0)) as [->|]; [by rewrite Z.bits_0|]. unfold is_byte in Hb. apply Z.bits_above_log2; [lia|].
    apply Z.le_lt_trans with 7; [|lia]. change 7 with (Z.log2 255). apply Z.log2_le_mono. lia. }
  split; intros Hn; rewrite !Z.lor_spec, !Z.shiftl_spec by lia.
  - rewrite (Hhigh b0 n) by (done || lia). rewrite (Z.testbit_neg_r b2) by lia. by rewrite orb_false_r.
  - rewrite (Hhigh b0 n), (Hhigh b1 (n - 8)) by (done || lia). done.
Qed.

Lemma he_width_eq body : bytes_ok body → heOperationWidth body = Some (he_width body).
Proof.
  intros Hok. unfold heOperationWidth, he_vht_info, heOpFixedLen, vhtOpInfoLen, he6GHzControlOff, heVHTInfoBit, heCoHostedBit, he6GHzInfoBit, he6GHzWidthMask, bitsPerByte, shiftBitsPerOctet2.
  destruct body as [|b0 [|b1 [|b2 [|b3 [|b4 [|b5 opt]]]]]]; [done..|].
  assert (len (b0 :: b1 :: b2 :: b3 :: b4 :: b5 :: opt) = 6 + len opt) as Hl by (rewrite !len_cons; lia).
  pose proof (len_nonneg opt) as Hn. rewrite Hl. rewrite (proj2 (Z.ltb_ge (6 + len opt) 6)) by lia.
  change (index (b0 :: b1 :: b2 :: b3 :: b4 :: b5 :: opt) 0) with (Some b0). change (index (b0 :: b1 :: b2 :: b3 :: b4 :: b5 :: opt) 1) with (Some b1).
  change (index (b0 :: b1 :: b2 :: b3 :: b4 :: b5 :: opt) 2) with (Some b2). cbn [mbind option_bind he_width].
  assert (is_byte b0 ∧ is_byte b1) as [Hb0 Hb1] by (by apply Forall_cons in Hok as [? [? _]%Forall_cons]).
  rewrite !has_bits_testbit by lia.
  rewrite (proj1 (params_bit b0 b1 b2 14 Hb0 Hb1)), (proj1 (params_bit b0 b1 b2 15 Hb0 Hb1)), (proj2 (params_bit b0 b1 b2 17 Hb0 Hb1)) by lia.
  change (14 - 8) with 6. change (15 - 8) with 7. change (17 - 16) with 1.
  set (whole := b0 :: b1 :: b2 :: b3 :: b4 :: b5 :: opt) in *.
  assert (∀ i, 0 ≤ i → index whole (6 + i) = index opt i) as Hi.
  { intros i Hi. unfold index. rewrite !(proj2 (Z.leb_le 0 _)) by lia. by replace (Z.to_nat (6 + i)) with (6 + Z.to_nat i)%nat by lia. }
  (* the 6 GHz information, [k] bytes into the optional fields *)
  assert (∀ k w, 0 ≤ k →
    (if Z.testbit b2 1 && (6 + k + 1 <? 6 + len opt)
     then control ← index whole (6 + k + 1); Some (maxWidth w (widthForCode (Z.land control 3))) else Some w) =
    Some (he_6ghz b2 w (drop (Z.to_nat k) opt))) as H6.
  { intros k w Hk. unfold he_6ghz. pose proof (drop_len opt k 2 Hk) as Hd. destruct (Z.ltb_spec (6 + k + 1) (6 + len opt)) as [Hlt|Hge].
    - assert (2 ≤ length (drop (Z.to_nat k) opt))%nat as Hd' by (apply Hd; right; lia).
      destruct (drop (Z.to_nat k) opt) as [|x [|c rest]] eqn:E; cbn in Hd'; try lia.
      rewrite andb_true_r. destruct (Z.testbit b2 1); [|done].
      replace (6 + k + 1) with (6 + (k + 1)) by lia. rewrite Hi by lia.
      rewrite (drop_index opt (k + 1) c rest); [|replace (Z.to_nat (k + 1)) with (Z.to_nat k + 1)%nat by lia; by rewrite <- drop_drop, E|lia].
      cbn [mbind option_bind]. change 3 with (Z.ones 2). rewrite Z.land_ones by lia. change (2 ^ 2) with 4. by rewrite code_width_eq, maxWidth_max.
    - rewrite andb_false_r. destruct (drop (Z.to_nat k) opt) as [|x [|c rest]]; [done..|]. cbn in Hd. lia. }
  destruct (Z.testbit b1 6).
  - destruct opt as [|code [|x [|segment opt']]]; [done..|].
    rewrite (proj2 (Z.ltb_ge (6 + len (code :: x :: segment :: opt')) (6 + 3))) by (rewrite !len_cons; pose proof (len_nonneg opt'); lia).
    change (index whole 6) with (Some code). change (index whole (6 + 2)) with (Some segment). cbn [mbind option_bind]. rewrite vht_code_eq.
    destruct (Z.testbit b1 7).
    + specialize (H6 4 (vht_code code segment) ltac:(lia)). change (6 + 3 + 1) with (6 + 4). rewrite H6. done.
    + specialize (H6 3 (vht_code code segment) ltac:(lia)). rewrite H6. done.
  - cbn [mbind option_bind]. destruct (Z.testbit b1 7).
    + specialize (H6 1 0 ltac:(lia)). rewrite H6. done.
    + specialize (H6 0 0 ltac:(lia)). rewrite Z.add_0_r in H6. rewrite H6. done.
Qed.

Lemma ofdm_eq body : bytes_ok body → hasOFDMRate body = existsb (λ r, 22 <? r mod 128) body.
Proof.
  induction 1 as [|r body Hr _ IH]; [done|]. unfold hasOFDMRate in *. cbn [existsb]. rewrite IH.
  unfold maxDSSSRateUnits, rateBasicMask. change 0x7f with (Z.ones 7). by rewrite Z.land_ones by lia.
Qed.

Record marks_el (e : Z * bytes) (p p' : phyPresence) : Prop := {
  me_ht : ph_HT p' = ph_HT p || el_ht e;
  me_vht : ph_VHT p' = ph_VHT p || el_vht e;
  me_he : ph_HE p' = ph_HE p || el_he e;
  me_eht : ph_EHT p' = ph_EHT p || el_eht e;
  me_ofdm : ph_OFDMRate p' = ph_OFDMRate p || el_ofdm e;
  me_width : ph_opWidth p' = Z.max (ph_opWidth p) (el_width e);
}.

Ltac phy_ids :=
  unfold el_ht, el_vht, el_he, el_eht, el_ofdm, el_width, is_ext, ext_of, is_el, body_of; cbn [fst snd Z.eqb Pos.eqb orb].

Ltac mark Hm := cbn; rewrite ?maxWidth_max, ?Hm, ?orb_false_r, ?orb_true_r; done.

Lemma markPHY_el e p : element_ok e → 0 ≤ ph_opWidth p → ∃ p', markPHY p (raw_of e) = Some p' ∧ marks_el e p p'.
Proof.
  destruct e as [id body]. intros (Hid & Hok & _) Hp. cbn [fst snd] in *. destruct (ie_of_raw (id, body)) as [Ei Eb]. cbn [fst snd] in Ei, Eb.
  assert (Z.max (ph_opWidth p) 0 = ph_opWidth p) as Hm by lia.
  unfold markPHY. rewrite Ei. unfold ieSupportedRates, ieExtSupportRates, ieHTCapabilities, ieHTOperation, ieVHTCapabilities, ieVHTOperation.
  destruct (Z.eqb_spec id 1) as [->|H1]; [|destruct (Z.eqb_spec id 50) as [->|H50]]; cbn [orb].
  1, 2: rewrite Eb, ofdm_eq by done; eexists; (split; [done|]); split; phy_ids; mark Hm.
  destruct (Z.eqb_spec id 45) as [->|H45]; [eexists; (split; [done|]); split; phy_ids; mark Hm|].
  destruct (Z.eqb_spec id 61) as [->|H61].
  { rewrite Eb, ht_width_eq by done. eexists. split; [done|]. split; phy_ids; mark Hm. }
  destruct (Z.eqb_spec id 191) as [->|H191]; [eexists; (split; [done|]); split; phy_ids; mark Hm|].
  destruct (Z.eqb_spec id 192) as [->|H192].
  { rewrite Eb, vht_width_eq by done. eexists. split; [done|]. split; phy_ids; mark Hm. }
  unfold ieElementExtension. destruct (Z.eqb_spec id 255) as [->|H255].
  2: { apply Z.eqb_neq in H1, H50, H45, H61, H191, H192, H255. eexists. split; [done|].
       split; phy_ids; rewrite ?H1, ?H50, ?H45, ?H61, ?H191, ?H192, ?H255; mark Hm. }
  unfold markExtension, raw_of. cbn [fst snd]. rewrite decide_True by done.
  destruct body as [|x body]; cbn [ie_extID ie_body]; [eexists; (split; [done|]); split; phy_ids; mark Hm|].
  apply Forall_cons in Hok as [_ Hok]. unfold extHECapabilities, extHEOperation, extEHTCapabilities, extEHTOperation.
  destruct (Z.eqb_spec x 35) as [->|H35]; [eexists; (split; [done|]); split; phy_ids; mark Hm|].
  destruct (Z.eqb_spec x 36) as [->|H36].
  { rewrite he_width_eq by done. eexists. split; [done|]. split; phy_ids; mark Hm. }
  destruct (Z.eqb_spec x 108) as [->|H108]; [eexists; (split; [done|]); split; phy_ids; mark Hm|].
  destruct (Z.eqb_spec x 106) as [->|H106].
  { rewrite eht_width_eq. eexists. split; [done|]. split; phy_ids; mark Hm. }
  apply Z.eqb_neq in H35, H36, H108, H106. eexists. split; [done|]. split; phy_ids; rewrite ?H35, ?H36, ?H108, ?H106; mark Hm.
Qed.

(** ** The list *)

Lemma latest_cons {A} (f : Z * bytes → option A) e els x : default x (latest f (e :: els)) = default (default x (f e)) (latest f els).
Proof.
  unfold latest. change (omap f (e :: els)) with (match f e with Some y => y :: omap f els | None => omap f els end).
  destruct (f e) as [y|]; [|done]. rewrite last_cons. by destruct (last (omap f els)).
Qed.

(** Some element says something of a kind. *)
Definition says_some {A} (f : Z * bytes → option A) (els : list (Z * bytes)) : bool :=
  existsb (λ e, match f e with Some _ => true | None => false end) els.
Lemma says_some_latest {A} (f : Z * bytes → option A) els : says_some f els = match latest f els with Some _ => true | None => false end.
Proof.
  unfold says_some, latest. induction els as [|e els IH]; [done|]. cbn [existsb].
  change (omap f (e :: els)) with (match f e with Some y => y :: omap f els | None => omap f els end).
  destruct (f e) as [y|]; [|done]. rewrite last_cons. by destruct (last (omap f els)).
Qed.

(** What is read after a list, from what was read before it. *)
Record reads (els : list (Z * bytes)) (b b' : BSS) (p p' : phyPresence) : Prop := {
  rd_name : b_SSID b' = default (b_SSID b) (latest el_name els);
  rd_hidden : b_Hidden b' = b_Hidden b || existsb el_hidden els;
  rd_channel : b_ChannelNum b' = default (b_ChannelNum b) (latest el_channel els);
  rd_country : b_CountryCode b' = default (b_CountryCode b) (latest el_country els);
  rd_load : (b_StationCount b', b_ChannelUtilByte b') = default (b_StationCount b, b_ChannelUtilByte b) (latest el_load els);
  rd_has_load : b_HasBSSLoad b' = b_HasBSSLoad b || says_some el_load els;
  rd_pmf : (b_PMFRequired b', b_PMFCapable b') = default (b_PMFRequired b, b_PMFCapable b) (latest el_pmf els);
  rd_rrm : b_RRMNeighbor b' = b_RRMNeighbor b || existsb (is_el 70) els;
  rd_ft : b_FTSupported b' = b_FTSupported b || existsb (is_el 54) els;
  rd_btm : b_BTMSupported b' = b_BTMSupported b || existsb el_btm els;
  rd_wps : b_WPSEnabled b' = b_WPSEnabled b || existsb el_wps els;
  rd_suite : b_Security b' = foldl highestSecurity (b_Security b) (omap el_suite els);
  rd_ht : ph_HT p' = ph_HT p || existsb el_ht els;
  rd_vht : ph_VHT p' = ph_VHT p || existsb el_vht els;
  rd_he : ph_HE p' = ph_HE p || existsb el_he els;
  rd_eht : ph_EHT p' = ph_EHT p || existsb el_eht els;
  rd_ofdm : ph_OFDMRate p' = ph_OFDMRate p || existsb el_ofdm els;
  rd_width : ph_opWidth p' = foldl Z.max (ph_opWidth p) (map el_width els);
}.

Lemma reads_cons e els b b1 b' p p1 p' : adds_el e b b1 → marks_el e p p1 → reads els b1 b' p1 p' → reads (e :: els) b b' p p'.
Proof.
  intros [] [] []. split; rewrite ?latest_cons; unfold says_some in *; cbn [existsb map foldl]; try congruence.
  all: try (etransitivity; [eassumption|]; rewrite <- ?orb_assoc; congruence).
  all: try (etransitivity; [eassumption|]; etransitivity; [eapply f_equal2; [eassumption|reflexivity]|]; by rewrite orb_assoc).
  - etransitivity; [eassumption|]. change (omap el_suite (e :: els)) with (match el_suite e with Some y => y :: omap el_suite els | None => omap el_suite els end).
    destruct (el_suite e); cbn [foldl]; congruence.
Qed.

Lemma fold_ies_reads els b p : Forall element_ok els → 0 ≤ ph_opWidth p →
  ∃ b' p', fold_ies (map raw_of els) b p = Some (b', p') ∧ reads els b b' p p'.
Proof.
  intros H. revert b p. induction H as [|e els He _ IH]; intros b p Hp; cbn [map fold_ies].
  { exists b, p. split; [done|]. split; cbn; rewrite ?orb_false_r; done. }
  destruct (applyIE_el e b He) as (b1 & -> & Hb1). destruct (markPHY_el e p He Hp) as (p1 & -> & Hp1). cbn [mbind option_bind].
  destruct (IH b1 p1) as (b' & p' & -> & Hr); [rewrite (me_width _ _ _ Hp1); lia|].
  exists b', p'. split; [done|]. by eapply reads_cons.
Qed.

(** ** The strongest, the widest *)

Lemma strongest s ss : let r := foldl highestSecurity s ss in
  r ∈ s :: ss ∧ Forall (λ x, security_value x ≤ security_value r) (s :: ss).
Proof.
  revert s. induction ss as [|x ss IH]; intros s; cbn [foldl]; [split; [by left|repeat constructor; lia]|].
  destruct (IH (highestSecurity s x)) as [Hin Hall]. apply Forall_cons in Hall as [Hh Hall].
  pose proof (highestSecurity_ge_l s x). pose proof (highestSecurity_ge_r s x). split.
  - apply elem_of_cons in Hin as [->|Hin]; [|set_solver]. unfold highestSecurity. destruct (_ <? _); set_solver.
  - constructor; [lia|]. constructor; [lia|done].
Qed.

Lemma widest w ws : let r := foldl Z.max w ws in r ∈ w :: ws ∧ Forall (λ x, x ≤ r) (w :: ws).
Proof.
  revert w. induction ws as [|x ws IH]; intros w; cbn [foldl]; [split; [by left|repeat constructor; lia]|].
  destruct (IH (Z.max w x)) as [Hin Hall]. apply Forall_cons in Hall as [Hh Hall]. split.
  - apply elem_of_cons in Hin as [->|Hin]; [|set_solver]. destruct (Z.max_spec w x) as [ [_ ->]|[_ ->]]; set_solver.
  - constructor; [lia|]. constructor; [lia|done].
Qed.

(** No element says that nothing is known, or that the network is open. *)
Lemma suites_rank (els : list (Z * bytes)) s : s ∈ omap el_suite els → 3 ≤ security_value s.
Proof.
  intros (e & _ & He)%list_elem_of_omap. unfold el_suite, auth_suite in He.
  repeat case_match; simplify_eq; cbn; lia.
Qed.

(** C37: Decoding the element list of any scan result ends without a read
    outside it, and reports exactly what the complete elements of the list say:
    the name, channel, country, load and management-frame-protection bits of the
    last element that states each (the channel of the frequency when none does),
    hidden, roaming and WPS flags that some element sets, the strongest suite of
    any RSN or WPA element, WEP or open when there is none, the newest generation
    of any element and the widest operating width any states, at least 20 MHz. *)
Theorem DecodeIEs_shows ies privacy freq : bytes_ok ies →
  ∃ els tail b, ies = concat (map tlv els) ++ tail ∧ cut_short tail ∧
    DecodeIEs ies privacy freq = Some b ∧ shows els privacy freq b.
Proof.
  intros Hb. destruct (splitIEs_elements ies Hb) as (els & tail & Heq & Hels & Hcut & Hs).
  exists els, tail. unfold DecodeIEs. destruct (BandAndChannel freq) as [band channel] eqn:Ef. rewrite Hs. cbn [mbind option_bind].
  unfold buildBSS. destruct (fold_ies_reads els bss_zero phy_zero Hels ltac:(cbn; lia)) as (b & p & -> & Hr). cbn [mbind option_bind].
  destruct (strongest SecurityUnknown (omap el_suite els)) as [Hin Hall].
  set (b1 := if bool_decide _ then _ else _).
  assert (b_ChannelNum b1 = b_ChannelNum b) as Hch by (unfold b1; destruct (bool_decide _); reflexivity).
  eexists. split; [done|]. split; [done|]. split; [reflexivity|].
  assert (∀ {A} (f : BSS → A), (∀ x c, f (set_ChannelNum x c) = f x) → (∀ x s, f (set_Security x s) = f x) →
    f (if b_ChannelNum b1 =? 0 then set_ChannelNum b1 channel else b1) = f (finalize p b band)) as Hf.
  { intros A f H1 H2. unfold b1. destruct (_ =? 0); rewrite ?H1; destruct (bool_decide _); by rewrite ?H2. }
  destruct Hr. split; rewrite ?Hf by done; cbn; try done.
  - destruct (b_ChannelNum b1 =? 0) eqn:E; [|destruct (latest el_channel els)]; cbn; rewrite ?Hch, ?rd_channel0 in *; cbn in *; rewrite ?Ef; cbn.
    + destruct (latest el_channel els) as [c|]; [|done]. cbn in E. by rewrite E.
    + by rewrite E.
    + done.
  - by rewrite rd_has_load0, says_some_latest.
  - assert (b_Security (if b_ChannelNum b1 =? 0 then set_ChannelNum b1 channel else b1) = b_Security b1) as -> by (destruct (_ =? 0); done).
    unfold b1. cbn [b_Security finalize set_ChannelWidthM set_Standard]. cbn in rd_suite0. rewrite rd_suite0.
    destruct (omap el_suite els) as [|s ss] eqn:Es; [done|].
    assert (3 ≤ security_value (foldl highestSecurity SecurityUnknown (s :: ss))) as Hrank.
    { apply Forall_cons in Hall as [_ [Hs' _]%Forall_cons]. pose proof (suites_rank els s ltac:(rewrite Es; by left)). lia. }
    rewrite bool_decide_false by (intros E; rewrite E in Hrank; cbn in Hrank; lia). cbn [b_Security]. cbn [foldl] in *.
    apply Forall_cons in Hall as [_ Hall]. cbn. rewrite rd_suite0. split; [|done].
    apply elem_of_cons in Hin as [E|Hin]; [|done]. rewrite E in Hrank. cbn in Hrank. lia.
  - unfold generation. rewrite rd_ht0, rd_vht0, rd_he0, rd_eht0, rd_ofdm0, Ef. done.
  - rewrite maxWidth_max, rd_width0. cbn [ph_opWidth phy_zero].
    destruct (widest 0 (map el_width els)) as [Hw1 Hw2]. set (w := foldl Z.max 0 (map el_width els)) in *.
    apply Forall_cons in Hw2 as [H0 Hw2]. split.
    + destruct (Z.max_spec 20 w) as [ [? ->]|[? ->]]; [|by left]. apply elem_of_cons in Hw1 as [E|Hw1]; [lia|by right].
    + constructor; [lia|]. eapply Forall_impl; [exact Hw2|]. intros x Hx. cbv beta in Hx |- *. lia.
Qed.

(** A transition network with management frame protection, on an 80 MHz channel. *)
Lemma DecodeIEs_shows_witness :
  ∃ els tail b, demo_ies = concat (map tlv els) ++ tail ∧ cut_short tail ∧
    DecodeIEs demo_ies true 5180 = Some b ∧ shows els true 5180 b.
Proof. exact (DecodeIEs_shows demo_ies true 5180 demo_ies_ok). Defined.
