(* ===== verification/Microburst.v ===== *)
(** * Microburst detection (src/internal/listener/microburst/detector.go)

    One direction of a link is a wire cursor, an open one-millisecond bin
    and an open run of saturated bins. Frames are placed on the wire one
    after the other and their time is summed per bin. Times are nanoseconds
    since the epoch, unbounded: an [int64] of them reaches the year 2262,
    and every sum the code forms stays within one frame of a capture time. *)
From Stdlib Require Import ZArith Lia SpecFloat.
From stdpp Require Import base gmap sets list strings sorting.
From S2P Require Import Prelude GoBase.

Definition BinWidth : Z := millisecond.
Definition binNs : Z := BinWidth.

(** [Threshold*float64(binNs)]: the constant product is exactly 900000, and
    the conversion of a bin's busy time to [float64] is exact. *)
Definition saturation : Z := 900000.
Definition FloorBins : Z := 2.
Definition wireOverheadBytes : Z := 24.
Definition minFrameBytes : Z := 60.
Definition bitsPerByte : Z := 8.
Definition bitsPerMegabit : Z := 1000000.

(** [run] *)
Record run : Type := MkRun {
  ru_start : Z;
  ru_bins : Z;
  ru_peakBusy : Z;
}.

Definition run_zero : run := MkRun 0 0 0.

(** [binner] *)
Record binner : Type := MkBinner {
  bn_busyUntil : Z;
  bn_bin : Z;
  bn_busy : Z;
  bn_open : bool;
  bn_current : run;
}.

Definition binner_zero : binner := MkBinner 0 0 0 false run_zero.

Definition set_current (b : binner) (r : run) : binner :=
  MkBinner (bn_busyUntil b) (bn_bin b) (bn_busy b) (bn_open b) r.
Definition set_busyUntil (b : binner) (t : Z) : binner :=
  MkBinner t (bn_bin b) (bn_busy b) (bn_open b) (bn_current b).
Definition set_busy (b : binner) (busy : Z) : binner :=
  MkBinner (bn_busyUntil b) (bn_bin b) busy (bn_open b) (bn_current b).
Definition set_bin (b : binner) (bin busy : Z) (open : bool) : binner :=
  MkBinner (bn_busyUntil b) bin busy open (bn_current b).

Definition endRun (b : binner) : binner * list run :=
  let r := bn_current b in
  (set_current b run_zero, if ru_bins r <? FloorBins then [] else [r]).

(** [binner.close] *)
Definition close (b : binner) : binner * list run :=
  if saturation <=? bn_busy b then
    let cur := bn_current b in
    (set_current b (MkRun (if ru_bins cur =? 0 then bn_bin b else ru_start cur)
                          (ru_bins cur + 1) (Z.max (ru_peakBusy cur) (bn_busy b))), [])
  else endRun b.

(** [binner.finish] *)
Definition bfinish (b : binner) : binner * list run :=
  if negb (bn_open b) then (b, [])
  else
    let '(b, done1) := close b in
    let '(b, done2) := endRun b in
    (set_bin (set_busyUntil b (Z.max (bn_busyUntil b) (bn_bin b + binNs)))
       (bn_bin b) (bn_busy b) false, done1 ++ done2).

(** [binner.flush] *)
Definition bflush (b : binner) (now : Z) : binner * list run :=
  if negb (bn_open b) || (now <? bn_bin b + binNs) || (now <? bn_busyUntil b) then (b, [])
  else bfinish b.

(** [binner.advance] *)
Definition advance (b : binner) (next : Z) : binner * list run :=
  let '(b, done) :=
    if bn_open b then
      let '(b, done) := close b in
      if negb (next =? bn_bin b + binNs) then
        let '(b, done2) := endRun b in (b, done ++ done2)
      else (b, done)
    else (b, []) in
  (set_bin b next 0 true, done).

(** One pass of the loop of [binner.add]. *)
Definition badd_body (endt : Z) (s : binner * Z * list run)
    : option (outcome (binner * Z * list run) (binner * list run)) :=
  let '(b, start, done) := s in
  if negb (start <? endt) then Some (Leave (b, done))
  else
    let bin := start - Z.rem start binNs in
    let '(b, done) :=
      if negb (bn_open b) || negb (bin =? bn_bin b) then
        let '(b, closed) := advance b bin in (b, done ++ closed)
      else (b, done) in
    let seg := Z.min endt (bin + binNs) - start in
    Some (Next (set_busy b (bn_busy b + seg), start + seg, done)).

(** [binner.add] *)
Definition badd_fuel (wire : Z) : nat := Z.to_nat (wire / binNs + 3).

Definition badd (b : binner) (ts wire : Z) : option (binner * list run) :=
  let start := Z.max ts (bn_busyUntil b) in
  let endt := start + wire in
  for_loop (badd_fuel wire) (badd_body endt) (set_busyUntil b endt, start, []).

(** [Direction] *)
Inductive Direction : Type :=
| DirectionIn
| DirectionOut.

(** [Event] *)
Record Event : Type := MkEvent {
  ev_Start : Z;
  ev_Interface : string;
  ev_Direction : Direction;
  ev_Duration : Z;
  ev_PeakUtilization : spec_float;
  ev_LinkSpeedMbps : Z;
}.

(** [detector]; its map of two directions is two fields. *)
Record detector : Type := MkDetector {
  dc_iface : string;
  dc_speedMbps : Z;
  dc_speedBps : Z;
  dc_in : binner;
  dc_out : binner;
}.

Definition newDetector (iface : string) (speedMbps : Z) : detector :=
  MkDetector iface speedMbps (speedMbps * bitsPerMegabit) binner_zero binner_zero.

Definition dc_dir (d : detector) (dir : Direction) : binner :=
  match dir with DirectionIn => dc_in d | DirectionOut => dc_out d end.

Definition set_dir (d : detector) (dir : Direction) (b : binner) : detector :=
  match dir with
  | DirectionIn => MkDetector (dc_iface d) (dc_speedMbps d) (dc_speedBps d) b (dc_out d)
  | DirectionOut => MkDetector (dc_iface d) (dc_speedMbps d) (dc_speedBps d) (dc_in d) b
  end.

(** [detector.wrap] *)
Definition event_of (d : detector) (dir : Direction) (r : run) : Event :=
  MkEvent (ru_start r) (dc_iface d) dir (ru_bins r * BinWidth)
    (float64_div (float64_mul (float64 100) (float64 (ru_peakBusy r))) (float64 BinWidth))
    (dc_speedMbps d).

Definition dwrap (d : detector) (dir : Direction) (runs : list run) : list Event :=
  map (event_of d dir) runs.

(** The wire time of a frame; the division panics on a link without speed. *)
Definition wire_time (speedBps capturedLen : Z) : option Z :=
  let length := Z.max capturedLen minFrameBytes + wireOverheadBytes in
  let bits := length * bitsPerByte in
  if speedBps =? 0 then None
  else Some (Z.quot (bits * second + Z.quot speedBps 2) speedBps).

(** [detector.add] *)
Definition dadd (d : detector) (dir : Direction) (ts capturedLen : Z)
    : option (detector * list Event) :=
  wire ← wire_time (dc_speedBps d) capturedLen;
  '(b, runs) ← badd (dc_dir d dir) ts wire;
  Some (set_dir d dir b, dwrap d dir runs).

(** [detector.flush] *)
Definition dflush (d : detector) (now : Z) : detector * list Event :=
  let '(b_in, runs_in) := bflush (dc_in d) now in
  let '(b_out, runs_out) := bflush (dc_out d) now in
  (set_dir (set_dir d DirectionIn b_in) DirectionOut b_out,
   dwrap d DirectionIn runs_in ++ dwrap d DirectionOut runs_out).

(** [detector.finish] *)
Definition dfinish (d : detector) : detector * list Event :=
  let '(b_in, runs_in) := bfinish (dc_in d) in
  let '(b_out, runs_out) := bfinish (dc_out d) in
  (set_dir (set_dir d DirectionIn b_in) DirectionOut b_out,
   dwrap d DirectionIn runs_in ++ dwrap d DirectionOut runs_out).

(** ** The specification

    A profile gives the busy time of each one-millisecond bin, by index; a
    burst is a maximal run of at least [FloorBins] saturated bins. *)
Definition profile : Type := Z → Z.

Definition sat (f : profile) (k : Z) : Prop := saturation ≤ f k.

(** The busiest of the [n] bins before [j]. *)
Fixpoint peak_of (f : profile) (j : Z) (n : nat) : Z :=
  match n with
  | O => 0
  | Datatypes.S n => Z.max (peak_of f (j - 1) n) (f (j - 1))
  end.

(** [r] is the maximal run of bins [i, i + n). *)
Definition burst (f : profile) (r : run) (i n : Z) : Prop :=
  FloorBins ≤ n ∧ r = MkRun (i * binNs) n (peak_of f (i + n) (Z.to_nat n)) ∧
  (∀ k, i ≤ k < i + n → sat f k) ∧ ¬ sat f (i - 1) ∧ ¬ sat f (i + n).

Definition is_burst (f : profile) (r : run) : Prop := ∃ i n, burst f r i n.

(** The time of the interval [s, e) spent in bin [k]. *)
Definition overlap (s e k : Z) : Z := Z.max 0 (Z.min e ((k + 1) * binNs) - Z.max s (k * binNs)).

(** Frames on the wire: each starts when it was captured or when the one
    before it is off the wire, whichever is later. *)
Fixpoint place (cursor : Z) (frames : list (Z * Z)) : list (Z * Z) :=
  match frames with
  | [] => []
  | (ts, wire) :: frames =>
      let s := Z.max ts cursor in (s, s + wire) :: place (s + wire) frames
  end.

Definition busy_profile (l : list (Z * Z)) : profile :=
  λ k, foldr Z.add 0 (map (λ '(s, e), overlap s e k) l).

(** ** Runs against a profile *)

(** [r] is the run of saturated bins that ends just before bin [j]. *)
Record tail_run (f : profile) (j : Z) (r : run) : Prop := {
  tl_bins : 0 ≤ ru_bins r;
  tl_start : 0 < ru_bins r → ru_start r = (j - ru_bins r) * binNs;
  tl_sat : ∀ k, j - ru_bins r ≤ k < j → sat f k;
  tl_left : ¬ sat f (j - ru_bins r - 1);
  tl_peak : ru_peakBusy r = peak_of f j (Z.to_nat (ru_bins r));
}.

Lemma tail_run_zero f j : ¬ sat f (j - 1) → tail_run f j run_zero.
Proof. intros H. split; simpl; try done; try lia. by rewrite Z.sub_0_r. Qed.

Lemma tail_run_extend f j r :
  tail_run f j r → sat f j →
  tail_run f (j + 1) (MkRun (if ru_bins r =? 0 then j * binNs else ru_start r) (ru_bins r + 1)
                            (Z.max (ru_peakBusy r) (f j))).
Proof.
  intros [Hb Hst Hs Hl Hp] Hj. split; cbn [ru_start ru_bins ru_peakBusy].
  - lia.
  - intros _. destruct (Z.eqb_spec (ru_bins r) 0) as [->|]; [f_equal; lia|].
    rewrite Hst by lia. f_equal. lia.
  - intros k Hk. destruct (decide (k = j)) as [->|]; [done|]. apply Hs. lia.
  - by replace (j + 1 - (ru_bins r + 1) - 1) with (j - ru_bins r - 1) by lia.
  - replace (Z.to_nat (ru_bins r + 1)) with (S (Z.to_nat (ru_bins r))) by lia.
    cbn [peak_of]. by replace (j + 1 - 1) with j by lia; rewrite Hp.
Qed.

(** The burst that ends at an unsaturated bin is the run before it. *)
Lemma tail_run_burst f j r r' i n :
  tail_run f j r → ¬ sat f j → i + n = j →
  burst f r' i n ↔ FloorBins ≤ ru_bins r ∧ r' = r ∧ n = ru_bins r.
Proof.
  intros [Hb Hst Hs Hl Hp] Hj Hin. unfold FloorBins. split.
  - intros (Hn & -> & Hsat & Hleft & _). unfold FloorBins in Hn.
    assert (n = ru_bins r) as ->.
    { destruct (Z.lt_trichotomy n (ru_bins r)) as [Hlt|[->|Hgt]]; [|done|].
      - destruct Hleft. apply Hs. lia.
      - destruct Hl. apply Hsat. lia. }
    split_and!; [lia| |done]. destruct r as [st bins pk]. simpl in *.
    rewrite Hst, Hp by lia. f_equal; [f_equal; lia|]. by rewrite Hin.
  - intros (Hn & -> & ->). split_and!; unfold FloorBins; try done.
    + destruct r as [st bins pk]. simpl in *. rewrite Hst, Hp by lia.
      f_equal; [f_equal; lia|]. by rewrite Hin.
    + intros k Hk. apply Hs. lia.
    + by replace (i - 1) with (j - ru_bins r - 1) by lia.
    + by rewrite Hin.
Qed.

Lemma peak_of_ext f g j n : (∀ k, k < j → f k = g k) → peak_of f j n = peak_of g j n.
Proof.
  revert j. induction n as [|n IH]; intros j H; simpl; [done|].
  rewrite (IH (j - 1)) by (intros; apply H; lia). by rewrite (H (j - 1)) by lia.
Qed.

Lemma burst_ext f g r i n b :
  (∀ k, k < b → f k = g k) → i + n < b → burst f r i n ↔ burst g r i n.
Proof.
  intros H Hb. unfold burst, sat. split; intros (Hn & -> & Hs & Hl & Hr); unfold FloorBins in *.
  - split_and!; [done| | | |].
    + f_equal. apply peak_of_ext. intros. apply H. lia.
    + intros k Hk. rewrite <-H by lia. by apply Hs.
    + rewrite <-H by lia. done.
    + rewrite <-H by lia. done.
  - split_and!; [done| | | |].
    + f_equal. symmetry. apply peak_of_ext. intros. apply H. lia.
    + intros k Hk. rewrite H by lia. by apply Hs.
    + rewrite H by lia. done.
    + rewrite H by lia. done.
Qed.

Lemma tail_run_ext f g j r : (∀ k, k < j → f k = g k) → tail_run f j r → tail_run g j r.
Proof.
  intros H [Hb Hst Hs Hl Hp]. unfold sat in *. split; unfold sat; try done.
  - intros k Hk. rewrite <-H by lia. by apply Hs.
  - rewrite <-H by lia. done.
  - rewrite Hp. by apply peak_of_ext.
Qed.

(** ** The binner against the profile *)

(** [r1] is over, with an unsaturated bin after it, when [r2] starts. *)
Definition before (r1 r2 : run) : Prop := ru_start r1 + ru_bins r1 * binNs < ru_start r2.

(** The bursts reported so far are those that ended before bin [k]. *)
Definition reported (f : profile) (k : Z) (em : list run) : Prop :=
  (∀ r, r ∈ em ↔ ∃ i n, burst f r i n ∧ i + n < k) ∧ StronglySorted before em.

Record open_bin (f : profile) (b : binner) (em : list run) (k : Z) : Prop := {
  ob_open : bn_open b = true;
  ob_bin : bn_bin b = k * binNs;
  ob_busy : bn_busy b = f k;
  ob_after : ∀ j, k < j → f j = 0;
  ob_run : tail_run f k (bn_current b);
  ob_reported : reported f k em;
}.

Lemma idle_unsat f k : f k = 0 → ¬ sat f k.
Proof. unfold sat, saturation. lia. Qed.

Lemma StronglySorted_snoc {A} (R : A → A → Prop) l x :
  StronglySorted R l → Forall (λ y, R y x) l → StronglySorted R (l ++ [x]).
Proof.
  induction 1 as [|y l Hl IH Hy]; intros Hx; simpl; [repeat constructor|].
  apply list.Forall_cons in Hx as [Hyx Hx]. constructor; [by apply IH|].
  apply Forall_app. split; [done|]. by apply Forall_singleton.
Qed.

(** What ending a run at an unsaturated bin reports. *)
Definition ended (r : run) : list run := if ru_bins r <? FloorBins then [] else [r].

Lemma reported_end f k r em :
  reported f k em → tail_run f k r → ¬ sat f k → reported f (k + 1) (em ++ ended r).
Proof.
  intros [Hem Hs] Hr Hk. pose proof Hr as [Hb Hst Hsat _ _]. unfold ended, FloorBins.
  assert (∀ x, (∃ i n, burst f x i n ∧ i + n < k + 1) ↔
               x ∈ em ∨ (2 ≤ ru_bins r ∧ x = r)) as Hiff.
  { intros x. rewrite Hem. split.
    - intros (i & n & Hx & Hlt). destruct (decide (i + n < k)); [left; eauto|right].
      apply (tail_run_burst f k r x i n Hr Hk) in Hx; [|lia]. unfold FloorBins in Hx. tauto.
    - intros [(i & n & Hx & Hlt)|[Hn ->]]; [exists i, n; split; [done|lia]|].
      exists (k - ru_bins r), (ru_bins r). split; [|lia].
      apply (tail_run_burst f k r r (k - ru_bins r) (ru_bins r) Hr Hk); [lia|done]. }
  destruct (Z.ltb_spec (ru_bins r) 2) as [Hn|Hn].
  - rewrite app_nil_r. split; [|done]. intros x. rewrite Hiff. split; [by left|]. intros [?|[? _]]; [done|lia].
  - split.
    + intros x. rewrite Hiff, elem_of_app, list_elem_of_singleton. naive_solver.
    + apply StronglySorted_snoc; [done|]. rewrite list.Forall_forall. intros x Hx.
      apply Hem in Hx as (i & n & Hx & Hlt). destruct Hx as (Hn2 & -> & _ & _ & Hright).
      unfold before. cbn [ru_start ru_bins]. rewrite Hst by lia. unfold binNs, BinWidth, millisecond.
      destruct (decide (k - ru_bins r ≤ i + n)) as [Hge|]; [|nia].
      destruct Hright. apply Hsat. lia.
Qed.

Lemma reported_skip f k k' em :
  reported f k em → k ≤ k' → (∀ j, k - 1 ≤ j < k' - 1 → ¬ sat f j) → reported f k' em.
Proof.
  intros [Hem Hs] Hk Hj. split; [|done]. intros r. rewrite Hem. split.
  - intros (i & n & Hr & Hlt). exists i, n. split; [done|lia].
  - intros (i & n & Hr & Hlt). exists i, n. split; [done|]. destruct Hr as (Hn & _ & Hsat & _).
    unfold FloorBins in Hn. destruct (decide (i + n < k)); [done|].
    destruct (Hj (i + n - 1)); [lia|]. apply Hsat. lia.
Qed.

Lemma reported_sat f k em : reported f k em → sat f k → reported f (k + 1) em.
Proof.
  intros [Hem Hs] Hk. split; [|done]. intros r. rewrite Hem.
  split; intros (i & n & Hr & Hlt); exists i, n; (split; [done|]); [lia|].
  destruct Hr as (_ & _ & _ & _ & Hright). destruct (decide (i + n = k)) as [Heq|]; [|lia].
  destruct Hright. by rewrite Heq.
Qed.

Lemma endRun_eq b : endRun b = (set_current b run_zero, ended (bn_current b)).
Proof. done. Qed.

(** Closing the open bin scores it: the run before the next bin is known. *)
Lemma close_open f b em k :
  open_bin f b em k →
  ∃ r done, close b = (set_current b r, done) ∧ tail_run f (k + 1) r ∧ reported f (k + 1) (em ++ done).
Proof.
  intros [Hop Hbin Hbusy Haft Hrun Hrep]. unfold close. destruct (Z.leb_spec saturation (bn_busy b)) as [Hs|Hs].
  - do 2 eexists. split; [reflexivity|]. rewrite Hbusy, Hbin in *. split.
    + by apply tail_run_extend.
    + rewrite app_nil_r. by apply reported_sat.
  - rewrite endRun_eq. do 2 eexists. split; [reflexivity|].
    assert (¬ sat f k) as Hk by (unfold sat; lia). split.
    + apply tail_run_zero. by replace (k + 1 - 1) with k by lia.
    + by apply reported_end.
Qed.

Lemma advance_open f b em k k' :
  open_bin f b em k → k < k' →
  ∃ b' done, advance b (k' * binNs) = (b', done) ∧ bn_busyUntil b' = bn_busyUntil b ∧
    open_bin f b' (em ++ done) k'.
Proof.
  intros Hok Hk. destruct (close_open f b em k Hok) as (r & done1 & Hc & Hr & Hrep).
  destruct Hok as [Hop Hbin _ Haft _ _].
  unfold advance. rewrite Hop, Hc. cbn [bn_bin set_current]. rewrite Hbin.
  destruct (Z.eqb_spec (k' * binNs) (k * binNs + binNs)) as [Heq|Hne]; cbn [negb].
  - assert (k' = k + 1) as -> by (unfold binNs, BinWidth, millisecond in Heq; lia).
    do 2 eexists. split_and!; [reflexivity|done|]. split; simpl; try done.
    + by rewrite Haft by lia.
    + intros j Hj. apply Haft. lia.
  - rewrite endRun_eq. do 2 eexists. split_and!; [reflexivity|done|].
    assert (k + 1 < k') as Hk2.
    { destruct (decide (k' = k + 1)) as [->|]; [|lia]. destruct Hne. lia. }
    assert (∀ j, k < j → ¬ sat f j) as Hidle by (intros; by apply idle_unsat, Haft).
    split; cbn [bn_open bn_bin bn_busy bn_current set_bin set_current]; try done.
    + by rewrite Haft by lia.
    + intros j Hj. apply Haft. lia.
    + apply tail_run_zero, Hidle. lia.
    + apply (reported_skip f (k + 1 + 1)); [|lia|intros j Hj; apply Hidle; lia].
      rewrite app_assoc. apply reported_end; [done|done|]. apply Hidle. lia.
Qed.

(** Wire time added to the open bin. *)
Definition add_at (f : profile) (k d : Z) : profile := λ j, if j =? k then f j + d else f j.

Lemma open_bin_add f b em k d :
  open_bin f b em k → open_bin (add_at f k d) (set_busy b (bn_busy b + d)) em k.
Proof.
  intros [Hop Hbin Hbusy Haft Hrun [Hem Hs]].
  assert (∀ j, j < k → f j = add_at f k d j) as Hlt.
  { intros j Hj. unfold add_at. by rewrite (proj2 (Z.eqb_neq _ _)) by lia. }
  split; simpl; try done.
  - unfold add_at. by rewrite Z.eqb_refl, Hbusy.
  - intros j Hj. unfold add_at. rewrite (proj2 (Z.eqb_neq _ _)) by lia. by apply Haft.
  - by apply (tail_run_ext f).
  - split; [|done]. intros r. rewrite Hem. f_equiv. intros i. f_equiv. intros n.
    split; intros [Hr Hl]; (split; [|done]); by apply (burst_ext f (add_at f k d) r i n k).
Qed.

(** The state between two pieces of wire time: everything before [c] is
    accounted for. *)
Definition accounted (f : profile) (c : Z) (b : binner) (em : list run) : Prop :=
  0 ≤ c ∧ (∀ j, 0 ≤ f j ≤ binNs) ∧
  ((bn_open b = false ∧ bn_current b = run_zero ∧ em = [] ∧ ∀ j, f j = 0) ∨
   ∃ k, 0 ≤ k ∧ k * binNs ≤ c ∧ f k ≤ c - k * binNs ∧ open_bin f b em k).

Lemma bin_of c : 0 ≤ c → c - Z.rem c binNs = c / binNs * binNs ∧ 0 ≤ c / binNs ∧
  c / binNs * binNs ≤ c < (c / binNs + 1) * binNs.
Proof.
  intros Hc. unfold binNs, BinWidth, millisecond. rewrite Z.rem_mod_nonneg by lia.
  pose proof (Z.div_mod c 1000000). pose proof (Z.mod_pos_bound c 1000000).
  pose proof (Z.div_pos c 1000000). lia.
Qed.

(** Opening the bin of [c], when it is not the open one. *)
Lemma reach_bin f c b em :
  accounted f c b em →
  ∃ b' done, (if negb (bn_open b) || negb (c / binNs * binNs =? bn_bin b)
              then advance b (c / binNs * binNs) else (b, [])) = (b', done) ∧
    bn_busyUntil b' = bn_busyUntil b ∧ open_bin f b' (em ++ done) (c / binNs) ∧
    f (c / binNs) ≤ c - c / binNs * binNs.
Proof.
  intros (Hc & Hf & Hcase). destruct (bin_of c Hc) as (_ & Hk & Hle & Hlt).
  set (kc := c / binNs) in *. destruct Hcase as [(Hop & Hcur & -> & Hzero)|(k & Hk0 & Hkc & Hfk & Hob)].
  - rewrite Hop. cbn [negb orb]. unfold advance. rewrite Hop. do 2 eexists.
    split_and!; [reflexivity|done| |rewrite Hzero; lia]. split; cbn [bn_open bn_bin bn_busy bn_current set_bin]; try done.
    + rewrite Hcur. apply tail_run_zero, idle_unsat, Hzero.
    + split; [|constructor]. intros r. split; [by intros ?%elem_of_nil|].
      intros (i & n & (Hn & _ & Hs & _) & _). unfold FloorBins in Hn.
      destruct (idle_unsat f i (Hzero i)). apply Hs. lia.
  - pose proof Hob as [Hop Hbin _ Haft _ _]. rewrite Hop, Hbin. cbn [negb orb].
    destruct (Z.eqb_spec (kc * binNs) (k * binNs)) as [Heq|Hne]; cbn [negb].
    + assert (kc = k) as -> by (unfold binNs, BinWidth, millisecond in Heq; lia).
      do 2 eexists. rewrite app_nil_r. by split_and!.
    + assert (k < kc) as Hlt2.
      { unfold binNs, BinWidth, millisecond in *. destruct (decide (k = kc)) as [->|]; [done|lia]. }
      destruct (advance_open f b em k kc Hob Hlt2) as (b' & done & -> & ? & ?).
      do 2 eexists. split_and!; [reflexivity|done|done|]. rewrite Haft; lia.
Qed.

Lemma overlap_step s c d k j :
  s ≤ c → k * binNs ≤ c → c + d ≤ (k + 1) * binNs → 0 ≤ d →
  overlap s (c + d) j = if j =? k then overlap s c j + d else overlap s c j.
Proof.
  unfold overlap, binNs, BinWidth, millisecond. intros. destruct (Z.eqb_spec j k) as [->|]; lia.
Qed.

Definition pieces_left (endt c : Z) : nat :=
  if c <? endt then Z.to_nat ((endt - 1) / binNs - c / binNs + 1) else O.

(** One pass of [binner.add]: the time up to the end of the bin, or of the
    frame, is accounted for. *)
Lemma wp_badd_body f0 s em endt b c done f :
  accounted f c b (em ++ done) → s ≤ c → c ≤ endt → bn_busyUntil b = endt →
  (∀ k, f k = f0 k + overlap s c k) →
  wp (badd_body endt (b, c, done)) (λ o,
    match o with
    | Next (b', c', done') => ∃ f', accounted f' c' b' (em ++ done') ∧ s ≤ c' ∧ c' ≤ endt ∧
        bn_busyUntil b' = endt ∧ (∀ k, f' k = f0 k + overlap s c' k) ∧
        (pieces_left endt c' < pieces_left endt c)%nat
    | Leave (b', done') => c = endt ∧ b' = b ∧ done' = done
    end).
Proof.
  intros Hacc Hs Hc Hbu Hf. unfold badd_body. destruct (Z.ltb_spec c endt) as [Hlt|Hge]; cbn [negb];
    [|apply wp_some; split; [lia|done]].
  pose proof Hacc as (Hc0 & Hrange & _). destruct (bin_of c Hc0) as (-> & Hk & Hkl & Hkr).
  destruct (reach_bin f c b (em ++ done) Hacc) as (b' & closed & Hreach & Hbu' & Hob & Hfk).
  set (k := c / binNs) in *.
  assert ((if negb (bn_open b) || negb (k * binNs =? bn_bin b)
           then let '(b, closed) := advance b (k * binNs) in (b, done ++ closed)
           else (b, done)) = (b', done ++ closed)) as ->.
  { destruct (_ || _); [by rewrite Hreach|]. injection Hreach as <- <-. by rewrite app_nil_r. }
  cbv zeta beta iota. apply wp_some. set (d := Z.min endt (k * binNs + binNs) - c).
  assert (0 < d ∧ c + d ≤ (k + 1) * binNs) as [Hd Hdr] by lia.
  exists (add_at f k d). split_and!; [|lia|lia|by simpl; rewrite Hbu'| |].
  - split_and!; [lia| |].
    + intros j. unfold add_at. specialize (Hrange j). destruct (Z.eqb_spec j k) as [->|]; [|done]. lia.
    + right. exists k. split_and!; [done|lia|unfold add_at; rewrite Z.eqb_refl; lia|].
      rewrite app_assoc. by apply open_bin_add.
  - intros j. rewrite (overlap_step s c d k j) by lia. unfold add_at. rewrite Hf.
    destruct (j =? k); lia.
  - unfold pieces_left. rewrite (proj2 (Z.ltb_lt c endt)) by done. fold k.
    assert (k ≤ (endt - 1) / binNs) by (apply Z.div_le_mono; [done|lia]).
    destruct (Z.ltb_spec (c + d) endt) as [Hlt2|]; [|lia].
    assert (c + d = (k + 1) * binNs) as -> by lia. rewrite Z.div_mul by done. lia.
Qed.

(** A frame adds its placed interval to the profile, and always returns. *)
Lemma wp_badd f b em ts wire :
  accounted f (bn_busyUntil b) b em → 0 ≤ wire →
  let s := Z.max ts (bn_busyUntil b) in
  wp (badd b ts wire) (λ r, ∃ f', accounted f' (s + wire) r.1 (em ++ r.2) ∧
    bn_busyUntil r.1 = s + wire ∧ ∀ k, f' k = f k + overlap s (s + wire) k).
Proof.
  intros (Hc0 & Hrange & Hcase) Hw s. assert (bn_busyUntil b ≤ s) as Hbs by (unfold s; lia).
  unfold badd. fold s.
  apply (wp_for_loop _ (λ '(b, c, done), ∃ f', accounted f' c b (em ++ done) ∧ s ≤ c ∧ c ≤ s + wire ∧
           bn_busyUntil b = s + wire ∧ (∀ k, f' k = f k + overlap s c k))
           (λ st, pieces_left (s + wire) st.1.2)).
  - intros [[b' c] done] (f' & Hacc & H1 & H2 & H3 & H4).
    eapply wp_mono; [by apply (wp_badd_body f s em (s + wire) b' c done f')|]. intros [[[b2 c2] done2]|[b2 done2]].
    + intros (f2 & ? & ? & ? & ? & ? & ?). split; [|done]. by exists f2.
    + intros (-> & -> & ->). by exists f'.
  - exists f. rewrite app_nil_r. split_and!; [|done|lia|done|].
    + split_and!; [lia|done|]. destruct Hcase as [Hcase|(k & Hk & Hkc & Hfk & [])]; [left; done|right].
      exists k. split_and!; [done|lia|lia|]. by split.
    + intros k. unfold overlap. lia.
  - simpl. unfold pieces_left, badd_fuel, binNs, BinWidth, millisecond.
    pose proof (Z.div_pos wire 1000000). destruct (Z.ltb_spec s (s + wire)); [|lia].
    pose proof (Z.div_mod (s + wire - 1) 1000000). pose proof (Z.mod_pos_bound (s + wire - 1) 1000000).
    pose proof (Z.div_mod s 1000000). pose proof (Z.mod_pos_bound s 1000000).
    pose proof (Z.div_mod wire 1000000). pose proof (Z.mod_pos_bound wire 1000000). lia.
Qed.

(** ** Whole captures *)

Fixpoint run_frames (b : binner) (frames : list (Z * Z)) : option (binner * list run) :=
  match frames with
  | [] => Some (b, [])
  | (ts, wire) :: frames =>
      '(b, done) ← badd b ts wire;
      '(b, rest) ← run_frames b frames;
      Some (b, done ++ rest)
  end.

Lemma wp_run_frames frames f b em :
  accounted f (bn_busyUntil b) b em → Forall (λ q, 0 ≤ q.2) frames →
  wp (run_frames b frames) (λ r, ∃ f', accounted f' (bn_busyUntil r.1) r.1 (em ++ r.2) ∧
    ∀ k, f' k = f k + busy_profile (place (bn_busyUntil b) frames) k).
Proof.
  revert f b em. induction frames as [|[ts wire] frames IH]; intros f b em Hacc Hw; cbn [run_frames].
  { apply wp_some. exists f. simpl. rewrite app_nil_r. split; [done|]. intros k.
    unfold busy_profile. simpl. lia. }
  apply list.Forall_cons in Hw as [Hw Hws]. cbn [snd] in Hw.
  eapply wp_bind_spec; [by apply wp_badd|]. intros [b1 done] (f1 & Hacc1 & Hbu & Hf1).
  cbn [fst snd] in *. rewrite <-Hbu in Hacc1.
  eapply wp_bind_spec; [by apply (IH f1 b1 (em ++ done))|]. intros [b2 rest] (f2 & Hacc2 & Hf2).
  cbn [fst snd] in *. apply wp_some. cbn [fst snd]. exists f2. rewrite app_assoc. split; [done|].
  intros k. rewrite Hf2, Hf1, Hbu. cbn [place]. unfold busy_profile. cbn [map foldr]. lia.
Qed.

Lemma accounted_zero : accounted (λ _, 0) 0 binner_zero [].
Proof. split_and!; [done|done|]. by left. Qed.

(** Closing down reports the run still open. *)
Lemma bfinish_reported f c b em :
  accounted f c b em →
  (∀ r, r ∈ em ++ (bfinish b).2 ↔ is_burst f r) ∧ StronglySorted before (em ++ (bfinish b).2).
Proof.
  intros (_ & _ & [(Hop & _ & -> & Hzero)|(k & _ & _ & _ & Hob)]); unfold bfinish.
  - rewrite Hop. simpl. split; [|constructor]. intros r. split; [by intros ?%elem_of_nil|].
    intros (i & n & Hn & _ & Hs & _). unfold FloorBins in Hn.
    destruct (idle_unsat f i (Hzero i)). apply Hs. lia.
  - destruct (close_open f b em k Hob) as (r & done & Hc & Hr & Hrep).
    destruct Hob as [Hop _ _ Haft _ _]. rewrite Hop, Hc. cbn [negb]. rewrite endRun_eq. cbn [snd bn_current set_current].
    rewrite app_assoc.
    destruct (reported_end f (k + 1) r (em ++ done) Hrep Hr) as [Hem Hs]; [apply idle_unsat, Haft; lia|].
    split; [|done]. intros x. rewrite Hem. split.
    + intros (i & n & Hx & _). by exists i, n.
    + intros (i & n & Hx). exists i, n. split; [done|]. destruct Hx as (Hn & _ & Hsat & _).
      unfold FloorBins in Hn. destruct (decide (i + n < k + 1 + 1)); [done|].
      assert (sat f (i + n - 1)) as Hlast by (apply Hsat; lia).
      destruct (idle_unsat f (i + n - 1)); [apply Haft; lia|done].
Qed.

(** A direction's binner finds exactly the bursts of its link. For any
    frames, in any order of capture times and however many share one, every
    frame is accounted for, the detector returns, no bin is ever busier than
    its own millisecond, and what it reports by the end of the capture is,
    in order and without overlap, every maximal run of at least two bins at
    90 % of line rate or more in the time the frames occupied the wire. *)
Lemma binner_exact frames :
  Forall (λ q, 0 ≤ q.1 ∧ 0 ≤ q.2) frames →
  let f := busy_profile (place 0 frames) in
  ∃ b done, run_frames binner_zero frames = Some (b, done) ∧
    (∀ k, 0 ≤ f k ≤ binNs) ∧
    (∀ r, r ∈ done ++ (bfinish b).2 ↔ is_burst f r) ∧
    StronglySorted before (done ++ (bfinish b).2).
Proof.
  intros Hw f.
  destruct (wp_elim _ _ (wp_run_frames frames (λ _, 0) binner_zero [] accounted_zero
    (Forall_impl _ _ _ Hw (λ q Hq, proj2 Hq)))) as ([b done] & Hrun & f' & Hacc & Hf').
  exists b, done. cbn [fst snd app] in *. assert (∀ k, f' k = f k) as Heq by (intros k; rewrite Hf'; done).
  destruct (bfinish_reported _ _ _ _ Hacc) as [Hem Hs]. destruct Hacc as (_ & Hrange & _).
  split_and!; [done|intros k; rewrite <-Heq; apply Hrange| |done].
  intros r. rewrite Hem. unfold is_burst. f_equiv. intros i. f_equiv. intros n.
  apply (burst_ext f' f r i n (i + n + 1)); [by intros; apply Heq|lia].
Qed.

(** ** Flushing a quiet link *)

(** The calls the capture loop makes on one direction. *)
Inductive bop : Type :=
| BAdd (ts wire : Z)
| BFlush (now : Z).

Definition run_op (b : binner) (op : bop) : option (binner * list run) :=
  match op with
  | BAdd ts wire => badd b ts wire
  | BFlush now => Some (bflush b now)
  end.

Fixpoint run_ops (b : binner) (ops : list bop) : option (binner * list run) :=
  match ops with
  | [] => Some (b, [])
  | op :: ops =>
      '(b, done) ← run_op b op;
      '(b, rest) ← run_ops b ops;
      Some (b, done ++ rest)
  end.

Definition op_ok (op : bop) : Prop :=
  match op with BAdd ts wire => 0 ≤ ts ∧ 0 ≤ wire | BFlush _ => True end.

(** Where the frames were placed, read off the cursor. *)
Fixpoint placed (b : binner) (ops : list bop) : list (Z * Z) :=
  match ops with
  | [] => []
  | op :: ops =>
      (match op with
       | BAdd ts wire => let s := Z.max ts (bn_busyUntil b) in [(s, s + wire)]
       | BFlush _ => []
       end) ++ match run_op b op with Some (b, _) => placed b ops | None => [] end
  end.

(** [r] is a run of saturated bins of [f], not necessarily maximal. *)
Definition run_in (f : profile) (r : run) : Prop :=
  ∃ i n, FloorBins ≤ n ∧ r = MkRun (i * binNs) n (peak_of f (i + n) (Z.to_nat n)) ∧
    ∀ k, i ≤ k < i + n → sat f k.

Definition not_after (r1 r2 : run) : Prop := ru_start r1 + ru_bins r1 * binNs ≤ ru_start r2.

(** The bins before [K] are over; what was reported lies in them. *)
Record epochs (f : profile) (b : binner) (em : list run) : Prop := {
  ep_split : ∃ f0 g K em0 em1,
    (∀ j, f j = f0 j + g j) ∧ (∀ j, K ≤ j → f0 j = 0) ∧ (∀ j, j < K → g j = 0) ∧
    (∀ j, 0 ≤ f0 j ≤ binNs) ∧ K * binNs ≤ bn_busyUntil b ∧ em = em0 ++ em1 ∧
    Forall (λ r, run_in f0 r ∧ ru_start r + ru_bins r * binNs ≤ K * binNs) em0 ∧
    StronglySorted not_after em0 ∧ accounted g (bn_busyUntil b) b em1;
}.

Lemma epochs_zero : epochs (λ _, 0) binner_zero [].
Proof.
  split. exists (λ _, 0), (λ _, 0), 0, [], []. split_and!; try done; [constructor|].
  apply accounted_zero.
Qed.

Lemma overlap_early s e k : 0 ≤ e - s → (k + 1) * binNs ≤ s → overlap s e k = 0.
Proof. unfold overlap, binNs, BinWidth, millisecond. lia. Qed.

Lemma peak_of_add f0 g j n :
  (∀ k, j - Z.of_nat n ≤ k < j → f0 k = g k) → peak_of f0 j n = peak_of g j n.
Proof.
  revert j. induction n as [|n IH]; intros j H; [done|]. cbn [peak_of].
  rewrite (IH (j - 1)) by (intros; apply H; lia). by rewrite (H (j - 1)) by lia.
Qed.

Lemma run_in_ext f g r : (∀ k, sat f k → f k = g k) → run_in f r → run_in g r.
Proof.
  intros H (i & n & Hn & -> & Hs). unfold FloorBins in Hn. exists i, n. split_and!; [done| |].
  - f_equal. apply peak_of_add. intros k Hk. apply H, Hs. lia.
  - intros k Hk. unfold sat. rewrite <-H by (by apply Hs). by apply Hs.
Qed.

Lemma epochs_add f b em ts wire :
  epochs f b em → 0 ≤ wire →
  let s := Z.max ts (bn_busyUntil b) in
  wp (badd b ts wire) (λ r, epochs (λ k, f k + overlap s (s + wire) k) r.1 (em ++ r.2)).
Proof.
  intros [(f0 & g & K & em0 & em1 & Hf & Hf0 & Hg & Hr & HK & -> & Hem0 & Hs0 & Hacc)] Hw s.
  eapply wp_mono; [by apply wp_badd|]. intros [b' done] (g' & Hacc' & Hbu & Hg'). cbn [fst snd] in *.
  split. exists f0, g', K, em0, (em1 ++ done).
  assert (bn_busyUntil b ≤ s) by (unfold s; lia).
  split_and!; try done.
  - intros j. rewrite Hf, Hg'. fold s. lia.
  - intros j Hj. rewrite Hg', Hg by done. fold s. rewrite overlap_early; [done|lia|].
    unfold binNs, BinWidth, millisecond in *. lia.
  - rewrite Hbu. fold s. lia.
  - by rewrite app_assoc.
  - by rewrite Hbu.
Qed.

Lemma sat_pos f k : sat f k → f k ≠ 0.
Proof. unfold sat, saturation. lia. Qed.

Lemma StronglySorted_weaken {A} (R R' : A → A → Prop) l :
  (∀ x y, R x y → R' x y) → StronglySorted R l → StronglySorted R' l.
Proof. intros H. induction 1; constructor; [done|]. eapply Forall_impl; [done|]. auto. Qed.

Lemma StronglySorted_app_2 {A} (R : A → A → Prop) l1 l2 :
  StronglySorted R l1 → StronglySorted R l2 → (∀ x y, x ∈ l1 → y ∈ l2 → R x y) →
  StronglySorted R (l1 ++ l2).
Proof.
  intros H1 H2. induction H1 as [|x l1 _ IH Hx]; intros H; simpl; [done|]. constructor.
  - apply IH. intros y z Hy Hz. apply H; [by right|done].
  - apply Forall_app. split; [done|]. rewrite list.Forall_forall. intros y Hy. apply H; [by left|done].
Qed.

(** The runs an epoch reports lie in it. *)
Lemma epoch_runs g K c b em :
  accounted g c b em → (∀ j, j < K → g j = 0) →
  Forall (λ x, run_in g x ∧ K * binNs ≤ ru_start x) (em ++ (bfinish b).2) ∧
  StronglySorted not_after (em ++ (bfinish b).2).
Proof.
  intros Hacc Hg. destruct (bfinish_reported _ _ _ _ Hacc) as [Hem Hs]. split.
  - rewrite list.Forall_forall. intros x (i & n & Hn & -> & Hsat & _)%Hem. unfold FloorBins in Hn.
    split; [by exists i, n|]. cbn [ru_start].
    destruct (decide (K ≤ i)); [unfold binNs, BinWidth, millisecond; lia|].
    destruct (sat_pos g i); [apply Hsat; lia|apply Hg; lia].
  - eapply StronglySorted_weaken; [|exact Hs]. unfold before, not_after. lia.
Qed.

(** The runs of past epochs and of the current one, together. *)
Lemma epochs_append f0 g K em0 l :
  (∀ j, K ≤ j → f0 j = 0) → (∀ j, j < K → g j = 0) →
  Forall (λ r, run_in f0 r ∧ ru_start r + ru_bins r * binNs ≤ K * binNs) em0 →
  StronglySorted not_after em0 →
  Forall (λ x, run_in g x ∧ K * binNs ≤ ru_start x) l → StronglySorted not_after l →
  Forall (run_in (λ j, f0 j + g j)) (em0 ++ l) ∧ StronglySorted not_after (em0 ++ l).
Proof.
  intros Hf0 Hg Hem0 Hs0 Hl Hsl. split.
  - apply Forall_app. split; (eapply Forall_impl; [eassumption|]); intros x [Hx _];
      (eapply run_in_ext; [|exact Hx]); intros j Hj%sat_pos.
    + destruct (decide (j < K)); [rewrite Hg|rewrite Hf0 in Hj]; lia.
    + destruct (decide (K ≤ j)); [rewrite Hf0|rewrite Hg in Hj]; lia.
  - apply StronglySorted_app_2; [done..|]. intros x y Hx Hy. rewrite list.Forall_forall in Hem0, Hl.
    destruct (Hem0 x Hx) as [_ ?], (Hl y Hy) as [_ ?]. unfold not_after. lia.
Qed.

(** Where the runs of a closed bin end. *)
Lemma bfinish_end g c b em k x :
  accounted g c b em → (∀ j, k < j → g j = 0) → x ∈ em ++ (bfinish b).2 →
  ru_start x + ru_bins x * binNs ≤ (k + 1) * binNs.
Proof.
  intros Hacc Haft Hx. apply (bfinish_reported _ _ _ _ Hacc) in Hx as (i & n & Hn & -> & Hs & _).
  unfold FloorBins in Hn. cbn [ru_start ru_bins].
  destruct (decide (i + n - 1 ≤ k)); [unfold binNs, BinWidth, millisecond; lia|].
  destruct (sat_pos g (i + n - 1)); [apply Hs; lia|apply Haft; lia].
Qed.

Lemma bfinish_closed f b em k :
  open_bin f b em k →
  ∃ l, bfinish b = (MkBinner (Z.max (bn_busyUntil b) ((k + 1) * binNs)) (bn_bin b) (bn_busy b)
                     false run_zero, l).
Proof.
  intros Hob. destruct (close_open f b em k Hob) as (r & done & Hcl & _ & _).
  destruct Hob as [Hop Hbin _ _ _ _]. unfold bfinish. rewrite Hop, Hcl, endRun_eq. cbn [negb].
  eexists. f_equal. unfold set_bin, set_busyUntil, set_current.
  cbn [bn_busyUntil bn_bin bn_busy bn_current]. rewrite Hbin. do 2 f_equal. lia.
Qed.

Lemma epochs_flush f b em now :
  epochs f b em → epochs f (bflush b now).1 (em ++ (bflush b now).2).
Proof.
  intros Hep. unfold bflush. destruct (_ || _) eqn:Hq; [by rewrite app_nil_r|].
  apply orb_false_iff in Hq as [[Hop _]%orb_false_iff _]. apply negb_false_iff in Hop.
  destruct Hep as [(f0 & g & K & em0 & em1 & Hf & Hf0 & Hg & Hr & HK & -> & Hem0 & Hs0 & Hacc)].
  destruct (epoch_runs g K _ _ _ Hacc Hg) as [Hl Hsl].
  destruct (epochs_append f0 g K em0 _ Hf0 Hg Hem0 Hs0 Hl Hsl) as [Hall Hsall].
  pose proof (λ k x, bfinish_end g _ b em1 k x Hacc) as Hend.
  destruct Hacc as (Hc & Hgr & [(Hop' & _)|(k & Hk0 & Hkc & _ & Hob)]); [by rewrite Hop in Hop'|].
  destruct (bfinish_closed g b em1 k Hob) as [l Hfin]. destruct Hob as [_ _ _ Haft _ _].
  rewrite Hfin in *. cbn [fst snd] in *.
  split. exists (λ j, f0 j + g j), (λ _, 0), (Z.max K (k + 1)), (em0 ++ em1 ++ l), [].
  assert (binNs = 1000000) as HW by done.
  split_and!; try done.
  - intros j. rewrite Hf. lia.
  - intros j Hj. rewrite Hf0, Haft; lia.
  - intros j. specialize (Hr j). specialize (Hgr j). destruct (decide (j < K)); [rewrite Hg|rewrite Hf0]; lia.
  - cbn [bn_busyUntil]. lia.
  - by rewrite app_nil_r, app_assoc.
  - rewrite list.Forall_forall in *. intros x Hx. split; [by apply Hall|].
    apply elem_of_app in Hx as [Hx|Hx]; [destruct (Hem0 x Hx); lia|].
    specialize (Hend k x Haft Hx). lia.
  - cbn [bn_busyUntil]. split_and!; [lia|done|]. by left.
Qed.

Lemma wp_run_ops ops f b em :
  epochs f b em → Forall op_ok ops →
  wp (run_ops b ops) (λ r, ∃ f', epochs f' r.1 (em ++ r.2) ∧
    ∀ k, f' k = f k + busy_profile (placed b ops) k).
Proof.
  revert f b em. induction ops as [|op ops IH]; intros f b em Hep Hok; cbn [run_ops placed].
  { apply wp_some. exists f. cbn [fst snd]. rewrite app_nil_r. split; [done|]. intros k.
    unfold busy_profile. simpl. lia. }
  apply list.Forall_cons in Hok as [Hop Hok].
  assert (wp (run_op b op) (λ r, ∃ f', epochs f' r.1 (em ++ r.2) ∧ ∀ k, f' k = f k +
    busy_profile (match op with BAdd ts wire => let s := Z.max ts (bn_busyUntil b) in [(s, s + wire)]
                  | BFlush _ => [] end) k)) as Hstep.
  { destruct op as [ts wire|now]; cbn [run_op].
    - eapply wp_mono; [apply epochs_add; [done|apply Hop]|]. intros r Hr. eexists. split; [exact Hr|].
      intros k. unfold busy_profile. simpl. lia.
    - apply wp_some. exists f. split; [by apply epochs_flush|]. intros k. unfold busy_profile. simpl. lia. }
  destruct (wp_elim _ _ Hstep) as ([b1 done] & Heq & f1 & Hep1 & Hf1). rewrite Heq.
  cbn [mbind option_bind fst snd] in *.
  eapply wp_bind_spec; [by apply (IH f1 b1 (em ++ done))|]. intros [b2 rest] (f2 & Hep2 & Hf2).
  apply wp_some. cbn [fst snd] in *. exists f2. rewrite app_assoc. split; [done|].
  intros k. rewrite Hf2, Hf1. unfold busy_profile. rewrite map_app, foldr_app.
  rewrite <-Z.add_assoc. f_equal. generalize (foldr Z.add 0 (map (λ '(s, e), overlap s e k) (placed b1 ops))).
  intros x. destruct op; simpl; lia.
Qed.

(** Flushing while the link is quiet, at any moments, never corrupts the
    measurement: the detector still returns, no bin exceeds its millisecond,
    and the bursts reported by the end of the capture follow each other in
    time, never reach back into a bin already scored, and are each at least
    two consecutive bins at or above 90 % of line rate with the stated
    peak. *)
Theorem flush_sound ops :
  Forall op_ok ops →
  let f := busy_profile (placed binner_zero ops) in
  ∃ b done, run_ops binner_zero ops = Some (b, done) ∧ (∀ k, 0 ≤ f k ≤ binNs) ∧
    Forall (run_in f) (done ++ (bfinish b).2) ∧ StronglySorted not_after (done ++ (bfinish b).2).
Proof.
  intros Hok f. destruct (wp_elim _ _ (wp_run_ops ops _ _ _ epochs_zero Hok))
    as ([b done] & Hrun & f' & [Hep] & Hf'). cbn [fst snd app] in *.
  assert (∀ k, f k = f' k) as Heq by (intros k; rewrite Hf'; done).
  destruct Hep as (f0 & g & K & em0 & em1 & Hf & Hf0 & Hg & Hr & HK & -> & Hem0 & Hs0 & Hacc).
  destruct (epoch_runs g K _ _ _ Hacc Hg) as [Hl Hsl].
  destruct (epochs_append f0 g K em0 _ Hf0 Hg Hem0 Hs0 Hl Hsl) as [Hall Hsall].
  destruct Hacc as (_ & Hgr & _). exists b, (em0 ++ em1). rewrite <-app_assoc. split_and!; [done| | |done].
  - intros k. rewrite Heq, Hf. specialize (Hr k). specialize (Hgr k).
    destruct (decide (k < K)); [rewrite Hg|rewrite Hf0]; lia.
  - eapply Forall_impl; [exact Hall|]. intros x Hx. eapply run_in_ext; [|exact Hx].
    intros k _. by rewrite Heq, Hf.
Qed.

(** ** Wire time and the detector *)

(** A frame's wire time is its bits at link speed, to the nearest
    nanosecond. *)
Lemma wire_time_nearest speed n :
  0 < speed →
  ∃ w, wire_time speed n = Some w ∧ 0 ≤ w ∧
    let exact := (Z.max n minFrameBytes + wireOverheadBytes) * bitsPerByte * second in
    - speed < 2 * (w * speed - exact) ≤ speed.
Proof.
  intros Hs. unfold wire_time. destruct (Z.eqb_spec speed 0); [lia|].
  set (x := (Z.max n minFrameBytes + wireOverheadBytes) * bitsPerByte * second).
  assert (0 < x) by (unfold x, minFrameBytes, wireOverheadBytes, bitsPerByte, second; lia).
  rewrite (Z.quot_div_nonneg speed 2), Z.quot_div_nonneg by (try apply Z.add_nonneg_nonneg; try apply Z.div_pos; lia).
  eexists. split; [reflexivity|]. pose proof (Z.div_mod speed 2). pose proof (Z.mod_pos_bound speed 2).
  pose proof (Z.div_mod (x + speed / 2) speed). pose proof (Z.mod_pos_bound (x + speed / 2) speed).
  split; [apply Z.div_pos; lia|]. cbv zeta. nia.
Qed.

(** The events of one captured frame sequence: both directions share the
    capture, each frame touches only its own. *)
Fixpoint run_detector (d : detector) (l : list (Direction * Z * Z)) : option (detector * list Event) :=
  match l with
  | [] => Some (d, [])
  | (dir, ts, n) :: l =>
      '(d, evs) ← dadd d dir ts n;
      '(d, rest) ← run_detector d l;
      Some (d, evs ++ rest)
  end.

Definition wire_of (speedBps n : Z) : Z := default 0 (wire_time speedBps n).

Definition dir_eqb (x y : Direction) : bool :=
  match x, y with
  | DirectionIn, DirectionIn | DirectionOut, DirectionOut => true
  | _, _ => false
  end.

(** The frames of one direction, as the binner sees them, and its events. *)
Fixpoint frames_of (speed : Z) (dir : Direction) (l : list (Direction * Z * Z)) : list (Z * Z) :=
  match l with
  | [] => []
  | (dir0, ts, n) :: l =>
      if dir_eqb dir0 dir then (ts, wire_of speed n) :: frames_of speed dir l else frames_of speed dir l
  end.

Definition events_in (dir : Direction) (evs : list Event) : list Event :=
  List.filter (λ e, dir_eqb (ev_Direction e) dir) evs.

Lemma events_in_app dir l1 l2 : events_in dir (l1 ++ l2) = events_in dir l1 ++ events_in dir l2.
Proof. apply List.filter_app. Qed.

Lemma events_in_dwrap dir dir' d runs :
  events_in dir (dwrap d dir' runs) = if dir_eqb dir' dir then dwrap d dir runs else [].
Proof. induction runs as [|r runs IH]; destruct dir, dir'; try done; cbn; by f_equal. Qed.

Lemma dwrap_app d dir l1 l2 : dwrap d dir (l1 ++ l2) = dwrap d dir l1 ++ dwrap d dir l2.
Proof. apply map_app. Qed.

Lemma dwrap_ext d d' dir l :
  dc_iface d' = dc_iface d → dc_speedMbps d' = dc_speedMbps d → dwrap d' dir l = dwrap d dir l.
Proof. intros H1 H2. unfold dwrap, event_of. by rewrite H1, H2. Qed.

Lemma set_dir_fields d dir b :
  dc_iface (set_dir d dir b) = dc_iface d ∧ dc_speedMbps (set_dir d dir b) = dc_speedMbps d ∧
  dc_speedBps (set_dir d dir b) = dc_speedBps d.
Proof. by destruct dir. Qed.

Lemma dc_dir_set d dir dir' b :
  dc_dir (set_dir d dir b) dir' = if dir_eqb dir dir' then b else dc_dir d dir'.
Proof. by destruct dir, dir'. Qed.

(** The detector is its two binners side by side. *)
Lemma run_detector_dirs l d :
  0 < dc_speedBps d → (∀ dir, ∃ b runs, run_frames (dc_dir d dir) (frames_of (dc_speedBps d) dir l) = Some (b, runs)) →
  ∃ d' evs, run_detector d l = Some (d', evs) ∧
    dc_iface d' = dc_iface d ∧ dc_speedMbps d' = dc_speedMbps d ∧
    ∀ dir, ∃ runs, run_frames (dc_dir d dir) (frames_of (dc_speedBps d) dir l) = Some (dc_dir d' dir, runs) ∧
      events_in dir evs = dwrap d dir runs.
Proof.
  revert d. induction l as [|[[dir0 ts] n] l IH]; intros d Hs Hruns; cbn [run_detector frames_of] in *.
  { exists d, []. split_and!; [done..|]. intros dir. by exists []. }
  destruct (wire_time_nearest (dc_speedBps d) n Hs) as (w & Hw & _).
  assert (wire_of (dc_speedBps d) n = w) as Hwo by (unfold wire_of; by rewrite Hw).
  destruct (Hruns dir0) as (bend & runs0 & Hr0).
  assert (dir_eqb dir0 dir0 = true) as Hrefl by (by destruct dir0). rewrite Hrefl in Hr0.
  cbn [run_frames] in Hr0. rewrite Hwo in *.
  apply bind_Some in Hr0 as ([b done] & Hb & ([b2 rest] & Hrest & _)%bind_Some).
  destruct (set_dir_fields d dir0 b) as (F1 & F2 & F3).
  destruct (IH (set_dir d dir0 b)) as (d' & evs & Hrun & H1 & H2 & Hdirs).
  - by rewrite F3.
  - intros dir. rewrite F3, dc_dir_set. destruct (dir_eqb dir0 dir) eqn:Hd.
    + assert (dir = dir0) as -> by (by destruct dir, dir0). eauto.
    + destruct (Hruns dir) as (b3 & r3 & H3). rewrite Hd in H3. eauto.
  - exists d', (dwrap d dir0 done ++ evs). split_and!; [|congruence|congruence|].
    + unfold dadd. rewrite Hw. cbn [mbind option_bind]. rewrite Hb. cbn [mbind option_bind].
      rewrite Hrun. done.
    + intros dir. destruct (Hdirs dir) as (runs & Hr & He). rewrite F3, dc_dir_set in Hr.
      rewrite (dwrap_ext d) in He by done. rewrite events_in_app, events_in_dwrap, He.
      destruct (dir_eqb dir0 dir) eqn:Hd.
      * assert (dir = dir0) as -> by (by destruct dir, dir0). exists (done ++ runs).
        cbn [run_frames]. rewrite Hb. cbn [mbind option_bind]. rewrite Hr. by rewrite dwrap_app.
      * by exists runs.
Qed.

(** C17: On a link of any speed, the detector reports exactly the bursts of
    each direction. Whatever frames arrive, in any order of capture times,
    every call returns; each frame occupies the wire for its bits at link
    speed to the nearest nanosecond, starting when it was captured or when
    the one before it is off the wire; no millisecond is ever more than full;
    and by the end of the capture the events of a direction are, in order and
    each once, the maximal runs of at least two milliseconds at 90 % of line
    rate or more. *)
Theorem detector_exact iface mbps l :
  0 < mbps → Forall (λ q, 0 ≤ q.1.2) l →
  ∃ d evs, run_detector (newDetector iface mbps) l = Some (d, evs) ∧
  ∀ dir, let f := busy_profile (place 0 (frames_of (mbps * bitsPerMegabit) dir l)) in
    (∀ k, 0 ≤ f k ≤ binNs) ∧
    ∃ runs, events_in dir (evs ++ (dfinish d).2) = dwrap (newDetector iface mbps) dir runs ∧
      (∀ r, r ∈ runs ↔ is_burst f r) ∧ StronglySorted before runs.
Proof.
  intros Hs Hl. set (d0 := newDetector iface mbps).
  assert (0 < dc_speedBps d0) as Hs0 by (unfold d0, newDetector, bitsPerMegabit; simpl; lia).
  assert (∀ dir, dc_dir d0 dir = binner_zero) as Hz by (by intros []).
  assert (∀ dir, Forall (λ q, 0 ≤ q.1 ∧ 0 ≤ q.2) (frames_of (dc_speedBps d0) dir l)) as Hf.
  { intros dir. induction Hl as [|[[dir0 ts] n] l Hts _ IH]; [constructor|]. cbn [frames_of].
    destruct (dir_eqb dir0 dir); [|done]. constructor; [|done]. cbn [fst snd] in *.
    destruct (wire_time_nearest (dc_speedBps d0) n Hs0) as (w & Hw & ? & _).
    unfold wire_of. by rewrite Hw. }
  destruct (run_detector_dirs l d0 Hs0) as (d & evs & Hrun & H1 & H2 & Hdirs).
  { intros dir. rewrite Hz. destruct (binner_exact _ (Hf dir)) as (b & done & Hb & _). eauto. }
  exists d, evs. split; [done|]. intros dir. cbv zeta.
  destruct (binner_exact _ (Hf dir)) as (b & done & Hb & Hrange & Hem & Hsort).
  change (mbps * bitsPerMegabit) with (dc_speedBps d0). split; [done|].
  destruct (Hdirs dir) as (runs & Hr & He). rewrite Hz, Hb in Hr. injection Hr as -> ->.
  exists (runs ++ (bfinish (dc_dir d dir)).2). split_and!; [|done|done].
  rewrite events_in_app, He, dwrap_app. f_equal. unfold dfinish.
  destruct (bfinish (dc_in d)) as [b1 r1] eqn:E1, (bfinish (dc_out d)) as [b2 r2] eqn:E2. cbn [snd].
  rewrite events_in_app, !events_in_dwrap.
  destruct dir; cbn [dir_eqb dc_dir app]; rewrite ?E1, ?E2; cbn [snd]; rewrite ?app_nil_r;
    by apply dwrap_ext.
Qed.

(** ** A worked capture *)

(** A gigabit link: 300 full-size frames back to back, then silence. *)
Definition demo_capture : list (Direction * Z * Z) := replicate 300 (DirectionIn, 5 * second, 1514).

Example demo_bursts :
  match run_detector (newDetector "eth0" 1000) demo_capture with
  | Some (d, evs) => map (λ e, (ev_Start e, ev_Duration e)) (evs ++ (dfinish d).2) = [(5 * second, 3 * BinWidth)]
  | None => False
  end.
Proof. vm_compute. reflexivity. Qed.

Lemma detector_exact_witness :
  ∃ d evs, run_detector (newDetector "eth0" 1000) demo_capture = Some (d, evs) ∧
  ∀ dir, let f := busy_profile (place 0 (frames_of (1000 * bitsPerMegabit) dir demo_capture)) in
    (∀ k, 0 ≤ f k ≤ binNs) ∧
    ∃ runs, events_in dir (evs ++ (dfinish d).2) = dwrap (newDetector "eth0" 1000) dir runs ∧
      (∀ r, r ∈ runs ↔ is_burst f r) ∧ StronglySorted before runs.
Proof.
  apply (detector_exact "eth0" 1000 demo_capture); [done|]. apply Forall_replicate. vm_compute. discriminate.
Defined.

(** Two saturated milliseconds, a flush once they are over, and a straggler
    stamped inside them. *)
Definition demo_flushed : list bop :=
  [BAdd 0 (2 * binNs); BFlush (3 * binNs); BAdd binNs (2 * binNs)].

Lemma flush_sound_witness :
  let f := busy_profile (placed binner_zero demo_flushed) in
  ∃ b done, run_ops binner_zero demo_flushed = Some (b, done) ∧ (∀ k, 0 ≤ f k ≤ binNs) ∧
    Forall (run_in f) (done ++ (bfinish b).2) ∧ StronglySorted not_after (done ++ (bfinish b).2).
Proof. refine (flush_sound demo_flushed _). repeat constructor; vm_compute; discriminate. Defined.

Example demo_flushed_runs :
  match run_ops binner_zero demo_flushed with
  | Some (b, done) => (done, (bfinish b).2) = ([MkRun 0 2 binNs], [MkRun (2 * binNs) 2 binNs])
  | None => False
  end.
Proof. vm_compute. reflexivity. Qed.
