(* ===== verification/Registry.v ===== *)
(** * The device registry (src/internal/discovery/registry.go, registrymerge.go)

    Devices are shared objects: the primary index and the three secondary
    ones hold pointers to one device each, and merging a sighting writes
    through the pointer. The registry is modelled with its heap; a caller
    hands the device it adds over. The records a device points to are
    modelled by value: no two devices of the registry share one. *)
From Stdlib Require Import ZArith Lia Ascii.
From stdpp Require Import base gmap sets list strings sorting.
From S2P Require Import Prelude GoBase.

(** ** Devices *)

(** [ConnectionType] *)
Inductive ConnectionType : Type :=
| ConnectionWired
| ConnectionWiFi
| ConnectionBluetooth
| ConnectionOther (s : string).

#[export] Instance ConnectionType_eq_dec : EqDecision ConnectionType.
Proof. solve_decision. Defined.

(** The fields of [WiFiPresence], [BluetoothPresence] and [Vulnerability]
    the registry reads. *)
Record WiFiPresence : Type := MkWiFi {
  wp_SSID : string;
  wp_SignalDBm : Z;
  wp_LastSeen : Z;
}.

Record BluetoothPresence : Type := MkBluetooth {
  bp_Name : string;
  bp_RSSI : Z;
  bp_LastSeen : Z;
}.

Record Vulnerability : Type := MkVulnerability {
  vu_CVEID : string;
  vu_Severity : string;
}.

(** [normalizeMAC] *)
Definition normalizeMAC (mac : string) : string := replace_all "-" ":" (to_upper mac).

Section registry.
(** The protocol details a device carries: LLDP, CDP, EDP, NDP, profile, SNMP. *)
Context {I : Type}.

(** [DiscoveredDevice]: the fields the registry reads or writes. *)
Record DiscoveredDevice : Type := MkDevice {
  dv_IP : string;
  dv_IPv6Addresses : list string;
  dv_MAC : string;
  dv_Hostname : string;
  dv_NetBIOSName : string;
  dv_MDNSName : string;
  dv_Vendor : string;
  dv_OSGuess : string;
  dv_DiscoveryMethod : list string;
  dv_LastSeen : Z;
  dv_IsLocal : bool;
  dv_IsRouter : bool;
  dv_LLDPInfo : option I;
  dv_CDPInfo : option I;
  dv_EDPInfo : option I;
  dv_NDPInfo : option I;
  dv_Profile : option I;
  dv_SNMPData : option I;
  dv_Vulnerabilities : option (list Vulnerability);
  dv_WoLCapable : option bool;
  dv_ConnectionTypes : list ConnectionType;
  dv_WiFiPresence : option WiFiPresence;
  dv_BluetoothPresence : option BluetoothPresence;
}.

Definition dv_set_IP (d : DiscoveredDevice) (v : string) : DiscoveredDevice :=
  MkDevice v (dv_IPv6Addresses d) (dv_MAC d) (dv_Hostname d) (dv_NetBIOSName d) (dv_MDNSName d)
    (dv_Vendor d) (dv_OSGuess d) (dv_DiscoveryMethod d) (dv_LastSeen d) (dv_IsLocal d)
    (dv_IsRouter d) (dv_LLDPInfo d) (dv_CDPInfo d) (dv_EDPInfo d) (dv_NDPInfo d) (dv_Profile d)
    (dv_SNMPData d) (dv_Vulnerabilities d) (dv_WoLCapable d) (dv_ConnectionTypes d)
    (dv_WiFiPresence d) (dv_BluetoothPresence d).
Definition dv_set_IPv6Addresses (d : DiscoveredDevice) (v : list string) : DiscoveredDevice :=
  MkDevice (dv_IP d) v (dv_MAC d) (dv_Hostname d) (dv_NetBIOSName d) (dv_MDNSName d)
    (dv_Vendor d) (dv_OSGuess d) (dv_DiscoveryMethod d) (dv_LastSeen d) (dv_IsLocal d)
    (dv_IsRouter d) (dv_LLDPInfo d) (dv_CDPInfo d) (dv_EDPInfo d) (dv_NDPInfo d) (dv_Profile d)
    (dv_SNMPData d) (dv_Vulnerabilities d) (dv_WoLCapable d) (dv_ConnectionTypes d)
    (dv_WiFiPresence d) (dv_BluetoothPresence d).
Definition dv_set_MAC (d : DiscoveredDevice) (v : string) : DiscoveredDevice :=
  MkDevice (dv_IP d) (dv_IPv6Addresses d) v (dv_Hostname d) (dv_NetBIOSName d) (dv_MDNSName d)
    (dv_Vendor d) (dv_OSGuess d) (dv_DiscoveryMethod d) (dv_LastSeen d) (dv_IsLocal d)
    (dv_IsRouter d) (dv_LLDPInfo d) (dv_CDPInfo d) (dv_EDPInfo d) (dv_NDPInfo d) (dv_Profile d)
    (dv_SNMPData d) (dv_Vulnerabilities d) (dv_WoLCapable d) (dv_ConnectionTypes d)
    (dv_WiFiPresence d) (dv_BluetoothPresence d).
Definition dv_set_Hostname (d : DiscoveredDevice) (v : string) : DiscoveredDevice :=
  MkDevice (dv_IP d) (dv_IPv6Addresses d) (dv_MAC d) v (dv_NetBIOSName d) (dv_MDNSName d)
    (dv_Vendor d) (dv_OSGuess d) (dv_DiscoveryMethod d) (dv_LastSeen d) (dv_IsLocal d)
    (dv_IsRouter d) (dv_LLDPInfo d) (dv_CDPInfo d) (dv_EDPInfo d) (dv_NDPInfo d) (dv_Profile d)
    (dv_SNMPData d) (dv_Vulnerabilities d) (dv_WoLCapable d) (dv_ConnectionTypes d)
    (dv_WiFiPresence d) (dv_BluetoothPresence d).
Definition dv_set_NetBIOSName (d : DiscoveredDevice) (v : string) : DiscoveredDevice :=
  MkDevice (dv_IP d) (dv_IPv6Addresses d) (dv_MAC d) (dv_Hostname d) v (dv_MDNSName d)
    (dv_Vendor d) (dv_OSGuess d) (dv_DiscoveryMethod d) (dv_LastSeen d) (dv_IsLocal d)
    (dv_IsRouter d) (dv_LLDPInfo d) (dv_CDPInfo d) (dv_EDPInfo d) (dv_NDPInfo d) (dv_Profile d)
    (dv_SNMPData d) (dv_Vulnerabilities d) (dv_WoLCapable d) (dv_ConnectionTypes d)
    (dv_WiFiPresence d) (dv_BluetoothPresence d).
Definition dv_set_MDNSName (d : DiscoveredDevice) (v : string) : DiscoveredDevice :=
  MkDevice (dv_IP d) (dv_IPv6Addresses d) (dv_MAC d) (dv_Hostname d) (dv_NetBIOSName d) v
    (dv_Vendor d) (dv_OSGuess d) (dv_DiscoveryMethod d) (dv_LastSeen d) (dv_IsLocal d)
    (dv_IsRouter d) (dv_LLDPInfo d) (dv_CDPInfo d) (dv_EDPInfo d) (dv_NDPInfo d) (dv_Profile d)
    (dv_SNMPData d) (dv_Vulnerabilities d) (dv_WoLCapable d) (dv_ConnectionTypes d)
    (dv_WiFiPresence d) (dv_BluetoothPresence d).
Definition dv_set_Vendor (d : DiscoveredDevice) (v : string) : DiscoveredDevice :=
  MkDevice (dv_IP d) (dv_IPv6Addresses d) (dv_MAC d) (dv_Hostname d) (dv_NetBIOSName d)
    (dv_MDNSName d) v (dv_OSGuess d) (dv_DiscoveryMethod d) (dv_LastSeen d) (dv_IsLocal d)
    (dv_IsRouter d) (dv_LLDPInfo d) (dv_CDPInfo d) (dv_EDPInfo d) (dv_NDPInfo d) (dv_Profile d)
    (dv_SNMPData d) (dv_Vulnerabilities d) (dv_WoLCapable d) (dv_ConnectionTypes d)
    (dv_WiFiPresence d) (dv_BluetoothPresence d).
Definition dv_set_OSGuess (d : DiscoveredDevice) (v : string) : DiscoveredDevice :=
  MkDevice (dv_IP d) (dv_IPv6Addresses d) (dv_MAC d) (dv_Hostname d) (dv_NetBIOSName d)
    (dv_MDNSName d) (dv_Vendor d) v (dv_DiscoveryMethod d) (dv_LastSeen d) (dv_IsLocal d)
    (dv_IsRouter d) (dv_LLDPInfo d) (dv_CDPInfo d) (dv_EDPInfo d) (dv_NDPInfo d) (dv_Profile d)
    (dv_SNMPData d) (dv_Vulnerabilities d) (dv_WoLCapable d) (dv_ConnectionTypes d)
    (dv_WiFiPresence d) (dv_BluetoothPresence d).
Definition dv_set_DiscoveryMethod (d : DiscoveredDevice) (v : list string) : DiscoveredDevice :=
  MkDevice (dv_IP d) (dv_IPv6Addresses d) (dv_MAC d) (dv_Hostname d) (dv_NetBIOSName d)
    (dv_MDNSName d) (dv_Vendor d) (dv_OSGuess d) v (dv_LastSeen d) (dv_IsLocal d)
    (dv_IsRouter d) (dv_LLDPInfo d) (dv_CDPInfo d) (dv_EDPInfo d) (dv_NDPInfo d) (dv_Profile d)
    (dv_SNMPData d) (dv_Vulnerabilities d) (dv_WoLCapable d) (dv_ConnectionTypes d)
    (dv_WiFiPresence d) (dv_BluetoothPresence d).
Definition dv_set_LastSeen (d : DiscoveredDevice) (v : Z) : DiscoveredDevice :=
  MkDevice (dv_IP d) (dv_IPv6Addresses d) (dv_MAC d) (dv_Hostname d) (dv_NetBIOSName d)
    (dv_MDNSName d) (dv_Vendor d) (dv_OSGuess d) (dv_DiscoveryMethod d) v (dv_IsLocal d)
    (dv_IsRouter d) (dv_LLDPInfo d) (dv_CDPInfo d) (dv_EDPInfo d) (dv_NDPInfo d) (dv_Profile d)
    (dv_SNMPData d) (dv_Vulnerabilities d) (dv_WoLCapable d) (dv_ConnectionTypes d)
    (dv_WiFiPresence d) (dv_BluetoothPresence d).
Definition dv_set_IsLocal (d : DiscoveredDevice) (v : bool) : DiscoveredDevice :=
  MkDevice (dv_IP d) (dv_IPv6Addresses d) (dv_MAC d) (dv_Hostname d) (dv_NetBIOSName d)
    (dv_MDNSName d) (dv_Vendor d) (dv_OSGuess d) (dv_DiscoveryMethod d) (dv_LastSeen d) v
    (dv_IsRouter d) (dv_LLDPInfo d) (dv_CDPInfo d) (dv_EDPInfo d) (dv_NDPInfo d) (dv_Profile d)
    (dv_SNMPData d) (dv_Vulnerabilities d) (dv_WoLCapable d) (dv_ConnectionTypes d)
    (dv_WiFiPresence d) (dv_BluetoothPresence d).
Definition dv_set_IsRouter (d : DiscoveredDevice) (v : bool) : DiscoveredDevice :=
  MkDevice (dv_IP d) (dv_IPv6Addresses d) (dv_MAC d) (dv_Hostname d) (dv_NetBIOSName d)
    (dv_MDNSName d) (dv_Vendor d) (dv_OSGuess d) (dv_DiscoveryMethod d) (dv_LastSeen d)
    (dv_IsLocal d) v (dv_LLDPInfo d) (dv_CDPInfo d) (dv_EDPInfo d) (dv_NDPInfo d) (dv_Profile d)
    (dv_SNMPData d) (dv_Vulnerabilities d) (dv_WoLCapable d) (dv_ConnectionTypes d)
    (dv_WiFiPresence d) (dv_BluetoothPresence d).
Definition dv_set_LLDPInfo (d : DiscoveredDevice) (v : option I) : DiscoveredDevice :=
  MkDevice (dv_IP d) (dv_IPv6Addresses d) (dv_MAC d) (dv_Hostname d) (dv_NetBIOSName d)
    (dv_MDNSName d) (dv_Vendor d) (dv_OSGuess d) (dv_DiscoveryMethod d) (dv_LastSeen d)
    (dv_IsLocal d) (dv_IsRouter d) v (dv_CDPInfo d) (dv_EDPInfo d) (dv_NDPInfo d) (dv_Profile d)
    (dv_SNMPData d) (dv_Vulnerabilities d) (dv_WoLCapable d) (dv_ConnectionTypes d)
    (dv_WiFiPresence d) (dv_BluetoothPresence d).
Definition dv_set_CDPInfo (d : DiscoveredDevice) (v : option I) : DiscoveredDevice :=
  MkDevice (dv_IP d) (dv_IPv6Addresses d) (dv_MAC d) (dv_Hostname d) (dv_NetBIOSName d)
    (dv_MDNSName d) (dv_Vendor d) (dv_OSGuess d) (dv_DiscoveryMethod d) (dv_LastSeen d)
    (dv_IsLocal d) (dv_IsRouter d) (dv_LLDPInfo d) v (dv_EDPInfo d) (dv_NDPInfo d)
    (dv_Profile d) (dv_SNMPData d) (dv_Vulnerabilities d) (dv_WoLCapable d)
    (dv_ConnectionTypes d) (dv_WiFiPresence d) (dv_BluetoothPresence d).
Definition dv_set_EDPInfo (d : DiscoveredDevice) (v : option I) : DiscoveredDevice :=
  MkDevice (dv_IP d) (dv_IPv6Addresses d) (dv_MAC d) (dv_Hostname d) (dv_NetBIOSName d)
    (dv_MDNSName d) (dv_Vendor d) (dv_OSGuess d) (dv_DiscoveryMethod d) (dv_LastSeen d)
    (dv_IsLocal d) (dv_IsRouter d) (dv_LLDPInfo d) (dv_CDPInfo d) v (dv_NDPInfo d)
    (dv_Profile d) (dv_SNMPData d) (dv_Vulnerabilities d) (dv_WoLCapable d)
    (dv_ConnectionTypes d) (dv_WiFiPresence d) (dv_BluetoothPresence d).
Definition dv_set_NDPInfo (d : DiscoveredDevice) (v : option I) : DiscoveredDevice :=
  MkDevice (dv_IP d) (dv_IPv6Addresses d) (dv_MAC d) (dv_Hostname d) (dv_NetBIOSName d)
    (dv_MDNSName d) (dv_Vendor d) (dv_OSGuess d) (dv_DiscoveryMethod d) (dv_LastSeen d)
    (dv_IsLocal d) (dv_IsRouter d) (dv_LLDPInfo d) (dv_CDPInfo d) (dv_EDPInfo d) v
    (dv_Profile d) (dv_SNMPData d) (dv_Vulnerabilities d) (dv_WoLCapable d)
    (dv_ConnectionTypes d) (dv_WiFiPresence d) (dv_BluetoothPresence d).
Definition dv_set_Profile (d : DiscoveredDevice) (v : option I) : DiscoveredDevice :=
  MkDevice (dv_IP d) (dv_IPv6Addresses d) (dv_MAC d) (dv_Hostname d) (dv_NetBIOSName d)
    (dv_MDNSName d) (dv_Vendor d) (dv_OSGuess d) (dv_DiscoveryMethod d) (dv_LastSeen d)
    (dv_IsLocal d) (dv_IsRouter d) (dv_LLDPInfo d) (dv_CDPInfo d) (dv_EDPInfo d) (dv_NDPInfo d)
    v (dv_SNMPData d) (dv_Vulnerabilities d) (dv_WoLCapable d) (dv_ConnectionTypes d)
    (dv_WiFiPresence d) (dv_BluetoothPresence d).
Definition dv_set_SNMPData (d : DiscoveredDevice) (v : option I) : DiscoveredDevice :=
  MkDevice (dv_IP d) (dv_IPv6Addresses d) (dv_MAC d) (dv_Hostname d) (dv_NetBIOSName d)
    (dv_MDNSName d) (dv_Vendor d) (dv_OSGuess d) (dv_DiscoveryMethod d) (dv_LastSeen d)
    (dv_IsLocal d) (dv_IsRouter d) (dv_LLDPInfo d) (dv_CDPInfo d) (dv_EDPInfo d) (dv_NDPInfo d)
    (dv_Profile d) v (dv_Vulnerabilities d) (dv_WoLCapable d) (dv_ConnectionTypes d)
    (dv_WiFiPresence d) (dv_BluetoothPresence d).
Definition dv_set_Vulnerabilities (d : DiscoveredDevice) (v : option (list Vulnerability)) : DiscoveredDevice :=
  MkDevice (dv_IP d) (dv_IPv6Addresses d) (dv_MAC d) (dv_Hostname d) (dv_NetBIOSName d)
    (dv_MDNSName d) (dv_Vendor d) (dv_OSGuess d) (dv_DiscoveryMethod d) (dv_LastSeen d)
    (dv_IsLocal d) (dv_IsRouter d) (dv_LLDPInfo d) (dv_CDPInfo d) (dv_EDPInfo d) (dv_NDPInfo d)
    (dv_Profile d) (dv_SNMPData d) v (dv_WoLCapable d) (dv_ConnectionTypes d)
    (dv_WiFiPresence d) (dv_BluetoothPresence d).
Definition dv_set_WoLCapable (d : DiscoveredDevice) (v : option bool) : DiscoveredDevice :=
  MkDevice (dv_IP d) (dv_IPv6Addresses d) (dv_MAC d) (dv_Hostname d) (dv_NetBIOSName d)
    (dv_MDNSName d) (dv_Vendor d) (dv_OSGuess d) (dv_DiscoveryMethod d) (dv_LastSeen d)
    (dv_IsLocal d) (dv_IsRouter d) (dv_LLDPInfo d) (dv_CDPInfo d) (dv_EDPInfo d) (dv_NDPInfo d)
    (dv_Profile d) (dv_SNMPData d) (dv_Vulnerabilities d) v (dv_ConnectionTypes d)
    (dv_WiFiPresence d) (dv_BluetoothPresence d).
Definition dv_set_ConnectionTypes (d : DiscoveredDevice) (v : list ConnectionType) : DiscoveredDevice :=
  MkDevice (dv_IP d) (dv_IPv6Addresses d) (dv_MAC d) (dv_Hostname d) (dv_NetBIOSName d)
    (dv_MDNSName d) (dv_Vendor d) (dv_OSGuess d) (dv_DiscoveryMethod d) (dv_LastSeen d)
    (dv_IsLocal d) (dv_IsRouter d) (dv_LLDPInfo d) (dv_CDPInfo d) (dv_EDPInfo d) (dv_NDPInfo d)
    (dv_Profile d) (dv_SNMPData d) (dv_Vulnerabilities d) (dv_WoLCapable d) v
    (dv_WiFiPresence d) (dv_BluetoothPresence d).
Definition dv_set_WiFiPresence (d : DiscoveredDevice) (v : option WiFiPresence) : DiscoveredDevice :=
  MkDevice (dv_IP d) (dv_IPv6Addresses d) (dv_MAC d) (dv_Hostname d) (dv_NetBIOSName d)
    (dv_MDNSName d) (dv_Vendor d) (dv_OSGuess d) (dv_DiscoveryMethod d) (dv_LastSeen d)
    (dv_IsLocal d) (dv_IsRouter d) (dv_LLDPInfo d) (dv_CDPInfo d) (dv_EDPInfo d) (dv_NDPInfo d)
    (dv_Profile d) (dv_SNMPData d) (dv_Vulnerabilities d) (dv_WoLCapable d)
    (dv_ConnectionTypes d) v (dv_BluetoothPresence d).
Definition dv_set_BluetoothPresence (d : DiscoveredDevice) (v : option BluetoothPresence) : DiscoveredDevice :=
  MkDevice (dv_IP d) (dv_IPv6Addresses d) (dv_MAC d) (dv_Hostname d) (dv_NetBIOSName d)
    (dv_MDNSName d) (dv_Vendor d) (dv_OSGuess d) (dv_DiscoveryMethod d) (dv_LastSeen d)
    (dv_IsLocal d) (dv_IsRouter d) (dv_LLDPInfo d) (dv_CDPInfo d) (dv_EDPInfo d) (dv_NDPInfo d)
    (dv_Profile d) (dv_SNMPData d) (dv_Vulnerabilities d) (dv_WoLCapable d)
    (dv_ConnectionTypes d) (dv_WiFiPresence d) v.

(** ** registrymerge.go *)

(** The keys of the [changes] map. *)
Definition changes : Type := gset string.

(** [mergeStringField]: the merged field and the changes. *)
Definition mergeStringField (existing incoming key : string) (ch : changes) : string * changes :=
  if negb (bool_decide (incoming = "")) && negb (bool_decide (incoming = existing))
  then (incoming, {[ key ]} ∪ ch) else (existing, ch).

Definition mergeWiFiPresence (d inc : DiscoveredDevice) (ch : changes) : DiscoveredDevice * changes :=
  match dv_WiFiPresence inc with
  | None => (d, ch)
  | Some w =>
      let merged :=
        match dv_WiFiPresence d with
        | None => w
        | Some e =>
            MkWiFi (if negb (bool_decide (wp_SSID w = "")) then wp_SSID w else wp_SSID e)
                   (if negb (wp_SignalDBm w =? 0) then wp_SignalDBm w else wp_SignalDBm e)
                   (wp_LastSeen w)
        end in
      (dv_set_WiFiPresence d (Some merged), {[ "wifiPresence" ]} ∪ ch)
  end.

Definition mergeBluetoothPresence (d inc : DiscoveredDevice) (ch : changes) : DiscoveredDevice * changes :=
  match dv_BluetoothPresence inc with
  | None => (d, ch)
  | Some w =>
      let merged :=
        match dv_BluetoothPresence d with
        | None => w
        | Some e =>
            MkBluetooth (if negb (bool_decide (bp_Name w = "")) then bp_Name w else bp_Name e)
                        (if negb (bp_RSSI w =? 0) then bp_RSSI w else bp_RSSI e)
                        (bp_LastSeen w)
        end in
      (dv_set_BluetoothPresence d (Some merged), {[ "bluetoothPresence" ]} ∪ ch)
  end.

(** Append what is not there yet, in order. *)
Fixpoint merge_list {A} `{EqDecision A} (l : list A) (inc : list A) : list A :=
  match inc with
  | [] => l
  | x :: inc => merge_list (if decide (x ∈ l) then l else l ++ [x]) inc
  end.

Definition mergeProtocolInfo (d inc : DiscoveredDevice) (ch : changes) : DiscoveredDevice * changes :=
  let put (v : option I) (key : string) (set : DiscoveredDevice → option I → DiscoveredDevice)
      (s : DiscoveredDevice * changes) : DiscoveredDevice * changes :=
    match v with Some _ => (set s.1 v, {[ key ]} ∪ s.2) | None => s end in
  put (dv_SNMPData inc) "snmpData" dv_set_SNMPData
    (put (dv_Profile inc) "profile" dv_set_Profile
      (put (dv_NDPInfo inc) "ndpInfo" dv_set_NDPInfo
        (put (dv_EDPInfo inc) "edpInfo" dv_set_EDPInfo
          (put (dv_CDPInfo inc) "cdpInfo" dv_set_CDPInfo
            (put (dv_LLDPInfo inc) "lldpInfo" dv_set_LLDPInfo (d, ch)))))).

(** [containsVuln] *)
Definition containsVuln (vulns : list Vulnerability) (v : Vulnerability) : bool :=
  existsb (λ e, bool_decide (vu_CVEID e = vu_CVEID v)) vulns.

Fixpoint merge_vulns (l inc : list Vulnerability) : list Vulnerability :=
  match inc with
  | [] => l
  | v :: inc => merge_vulns (if containsVuln l v then l else l ++ [v]) inc
  end.

Definition mergeVulnerabilities (d inc : DiscoveredDevice) (ch : changes) : DiscoveredDevice * changes :=
  match dv_Vulnerabilities inc with
  | None => (d, ch)
  | Some l =>
      (dv_set_Vulnerabilities d
         (Some match dv_Vulnerabilities d with None => l | Some e => merge_vulns e l end),
       {[ "vulnerabilities" ]} ∪ ch)
  end.

Definition mergeDeviceFlags (d inc : DiscoveredDevice) (ch : changes) : DiscoveredDevice * changes :=
  let d := if dv_IsLocal inc then dv_set_IsLocal d true else d in
  let '(d, ch) := if dv_IsRouter inc then (dv_set_IsRouter d true, {[ "isRouter" ]} ∪ ch) else (d, ch) in
  (if decide (dv_WoLCapable inc = Some true) then dv_set_WoLCapable d (Some true) else d, ch).

(** ** registry.go *)

Definition loc : Type := positive.

(** [RegistryStats] *)
Record RegistryStats : Type := MkStats {
  TotalDevices : Z;
  WiredDevices : Z;
  WiFiDevices : Z;
  BTDevices : Z;
  MultiConnected : Z;
  AddCount : Z;
  UpdateCount : Z;
  RemoveCount : Z;
  LastUpdate : Z;
}.

Definition stats_zero : RegistryStats := MkStats 0 0 0 0 0 0 0 0 time_zero.

(** What the registry publishes on the event bus. *)
Inductive reg_event : Type :=
| EvDiscovered (mac : string)
| EvUpdated (mac : string) (ch : changes)
| EvLost (mac : string).

(** [DeviceRegistry] with the heap its pointers lead into; [r_emit] is
    [config.EmitEvents && eventBus != nil], [r_bus] what was published. *)
Record DeviceRegistry : Type := MkRegistry {
  r_heap : gmap loc DiscoveredDevice;
  r_devices : gmap string loc;
  r_byIP : gmap string loc;
  r_byHostname : gmap string loc;
  r_byVendor : gmap string (list loc);
  r_stats : RegistryStats;
  r_DeviceTTL : Z;
  r_emit : bool;
  r_bus : list reg_event;
}.

Definition NewDeviceRegistry (ttl : Z) (emit : bool) : DeviceRegistry :=
  MkRegistry ∅ ∅ ∅ ∅ ∅ stats_zero ttl emit [].

Definition set_heap (r : DeviceRegistry) (h : gmap loc DiscoveredDevice) : DeviceRegistry :=
  MkRegistry h (r_devices r) (r_byIP r) (r_byHostname r) (r_byVendor r) (r_stats r) (r_DeviceTTL r)
    (r_emit r) (r_bus r).
Definition set_devices (r : DeviceRegistry) (m : gmap string loc) : DeviceRegistry :=
  MkRegistry (r_heap r) m (r_byIP r) (r_byHostname r) (r_byVendor r) (r_stats r) (r_DeviceTTL r)
    (r_emit r) (r_bus r).
Definition set_byIP (r : DeviceRegistry) (m : gmap string loc) : DeviceRegistry :=
  MkRegistry (r_heap r) (r_devices r) m (r_byHostname r) (r_byVendor r) (r_stats r) (r_DeviceTTL r)
    (r_emit r) (r_bus r).
Definition set_byHostname (r : DeviceRegistry) (m : gmap string loc) : DeviceRegistry :=
  MkRegistry (r_heap r) (r_devices r) (r_byIP r) m (r_byVendor r) (r_stats r) (r_DeviceTTL r)
    (r_emit r) (r_bus r).
Definition set_byVendor (r : DeviceRegistry) (m : gmap string (list loc)) : DeviceRegistry :=
  MkRegistry (r_heap r) (r_devices r) (r_byIP r) (r_byHostname r) m (r_stats r) (r_DeviceTTL r)
    (r_emit r) (r_bus r).
Definition set_stats (r : DeviceRegistry) (s : RegistryStats) : DeviceRegistry :=
  MkRegistry (r_heap r) (r_devices r) (r_byIP r) (r_byHostname r) (r_byVendor r) s (r_DeviceTTL r)
    (r_emit r) (r_bus r).

(** [if r.config.EmitEvents && r.eventBus != nil { r.eventBus.Publish(e) }] *)
Definition publish (r : DeviceRegistry) (e : reg_event) : DeviceRegistry :=
  if r_emit r
  then MkRegistry (r_heap r) (r_devices r) (r_byIP r) (r_byHostname r) (r_byVendor r) (r_stats r)
         (r_DeviceTTL r) (r_emit r) (r_bus r ++ [e])
  else r.

Definition write (r : DeviceRegistry) (l : loc) (d : DiscoveredDevice) : DeviceRegistry :=
  set_heap r (<[l := d]> (r_heap r)).

(** The search of a vendor list for a device with this address: reading
    through a nil pointer is [None]. *)
Fixpoint mac_listed (h : gmap loc DiscoveredDevice) (mac : string) (ls : list loc) : option bool :=
  match ls with
  | [] => Some false
  | l :: ls => d ← h !! l; if bool_decide (dv_MAC d = mac) then Some true else mac_listed h mac ls
  end.

(** [append(devices[:i], devices[i+1:]...)] at the first match; the inner
    [None] is no match. *)
Fixpoint mac_removed (h : gmap loc DiscoveredDevice) (mac : string) (ls : list loc)
    : option (option (list loc)) :=
  match ls with
  | [] => Some None
  | l :: ls =>
      d ← h !! l;
      if bool_decide (dv_MAC d = mac) then Some (Some ls)
      else rest ← mac_removed h mac ls; Some (option_map (cons l) rest)
  end.

(** [DeviceRegistry.updateIndexes] *)
Definition updateIndexes (r : DeviceRegistry) (l : loc) : option DeviceRegistry :=
  d ← r_heap r !! l;
  let r := if bool_decide (dv_IP d = "") then r else set_byIP r (<[dv_IP d := l]> (r_byIP r)) in
  let r := if bool_decide (dv_Hostname d = "") then r
           else set_byHostname r (<[to_lower (dv_Hostname d) := l]> (r_byHostname r)) in
  if bool_decide (dv_Vendor d = "") then Some r
  else
    let vendorKey := to_lower (dv_Vendor d) in
    let devices := default [] (r_byVendor r !! vendorKey) in
    found ← mac_listed (r_heap r) (dv_MAC d) devices;
    Some (if (found : bool) then r else set_byVendor r (<[vendorKey := devices ++ [l]]> (r_byVendor r))).

(** [DeviceRegistry.removeFromVendorIndex] *)
Definition removeFromVendorIndex (r : DeviceRegistry) (d : DiscoveredDevice) : option DeviceRegistry :=
  if bool_decide (dv_Vendor d = "") then Some r
  else
    let vendorKey := to_lower (dv_Vendor d) in
    removed ← mac_removed (r_heap r) (dv_MAC d) (default [] (r_byVendor r !! vendorKey));
    Some (match removed with
          | Some ls => set_byVendor r (<[vendorKey := ls]> (r_byVendor r))
          | None => r
          end).

(** [DeviceRegistry.removeFromIndexes] *)
Definition removeFromIndexes (r : DeviceRegistry) (d : DiscoveredDevice) : option DeviceRegistry :=
  let r := if bool_decide (dv_IP d = "") then r else set_byIP r (delete (dv_IP d) (r_byIP r)) in
  let r := if bool_decide (dv_Hostname d = "") then r
           else set_byHostname r (delete (to_lower (dv_Hostname d)) (r_byHostname r)) in
  removeFromVendorIndex r d.

Definition multiConnectionThreshold : Z := 2.

Definition multi_connected (d : DiscoveredDevice) : bool :=
  multiConnectionThreshold <=? len (dv_ConnectionTypes d).

(** One connection type counted with [delta]. *)
Definition bump (delta : Z) (s : RegistryStats) (ct : ConnectionType) : RegistryStats :=
  let '(MkStats t w i b m a u rm at_) := s in
  match ct with
  | ConnectionWired => MkStats t (w + delta) i b m a u rm at_
  | ConnectionWiFi => MkStats t w (i + delta) b m a u rm at_
  | ConnectionBluetooth => MkStats t w i (b + delta) m a u rm at_
  | ConnectionOther _ => s
  end.

Definition bump_multi (delta : Z) (s : RegistryStats) : RegistryStats :=
  let '(MkStats t w i b m a u rm at_) := s in MkStats t w i b (m + delta) a u rm at_.

(** [DeviceRegistry.updateConnectionStats] *)
Definition updateConnectionStats (s : RegistryStats) (d : DiscoveredDevice) (adding : bool)
    : RegistryStats :=
  let delta := if adding then 1 else -1 in
  let s := foldl (bump delta) s (dv_ConnectionTypes d) in
  if multi_connected d then bump_multi delta s else s.

(** [DeviceRegistry.mergeNetworkIdentifiers]: the registry, the merged
    device and the changes. *)
Definition mergeNetworkIdentifiers (r : DeviceRegistry) (d inc : DiscoveredDevice) (ch : changes)
    : DeviceRegistry * DiscoveredDevice * changes :=
  let '(r, d, ch) :=
    if negb (bool_decide (dv_IP inc = "")) && negb (bool_decide (dv_IP inc = dv_IP d)) then
      (if bool_decide (dv_IP d = "") then r else set_byIP r (delete (dv_IP d) (r_byIP r)),
       dv_set_IP d (dv_IP inc), {[ "ip" ]} ∪ ch)
    else (r, d, ch) in
  let v6 := merge_list (dv_IPv6Addresses d) (dv_IPv6Addresses inc) in
  let ch := if len v6 =? len (dv_IPv6Addresses d) then ch else {[ "ipv6Addresses" ]} ∪ ch in
  let d := dv_set_IPv6Addresses d v6 in
  let '(h, ch) := mergeStringField (dv_Hostname d) (dv_Hostname inc) "hostname" ch in
  let d := dv_set_Hostname d h in
  let '(n, ch) := mergeStringField (dv_NetBIOSName d) (dv_NetBIOSName inc) "netbiosName" ch in
  let d := dv_set_NetBIOSName d n in
  let '(m, ch) := mergeStringField (dv_MDNSName d) (dv_MDNSName inc) "mdnsName" ch in
  (r, dv_set_MDNSName d m, ch).

(** [DeviceRegistry.mergeDeviceMetadata] *)
Definition mergeDeviceMetadata (r : DeviceRegistry) (d inc : DiscoveredDevice) (ch : changes)
    : option (DeviceRegistry * DiscoveredDevice * changes) :=
  '(r, d, ch) ←
    (if negb (bool_decide (dv_Vendor inc = "")) && negb (bool_decide (dv_Vendor inc = dv_Vendor d)) then
       r ← removeFromVendorIndex r d;
       Some (r, dv_set_Vendor d (dv_Vendor inc), {[ "vendor" ]} ∪ ch)
     else Some (r, d, ch));
  let '(o, ch) := mergeStringField (dv_OSGuess d) (dv_OSGuess inc) "osGuess" ch in
  let d := dv_set_OSGuess d o in
  let methods := merge_list (dv_DiscoveryMethod d) (dv_DiscoveryMethod inc) in
  let ch := if len methods =? len (dv_DiscoveryMethod d) then ch else {[ "discoveryMethod" ]} ∪ ch in
  let d := dv_set_DiscoveryMethod d methods in
  let oldConnCount := len (dv_ConnectionTypes d) in
  let d := dv_set_ConnectionTypes d (merge_list (dv_ConnectionTypes d) (dv_ConnectionTypes inc)) in
  Some (if negb (len (dv_ConnectionTypes d) =? oldConnCount) then
          (if multi_connected d && (oldConnCount <? multiConnectionThreshold)
           then set_stats r (bump_multi 1 (r_stats r)) else r,
           d, {[ "connectionTypes" ]} ∪ ch)
        else (r, d, ch)).

(** [DeviceRegistry.mergeDevice], writing the merged device back through
    the pointer. *)
Definition mergeDevice (r : DeviceRegistry) (l : loc) (inc : DiscoveredDevice)
    : option (DeviceRegistry * changes) :=
  d ← r_heap r !! l;
  let '(r, d, ch) := mergeNetworkIdentifiers r d inc ∅ in
  '(r, d, ch) ← mergeDeviceMetadata r d inc ch;
  let '(d, ch) := mergeWiFiPresence d inc ch in
  let '(d, ch) := mergeBluetoothPresence d inc ch in
  let '(d, ch) := mergeProtocolInfo d inc ch in
  let '(d, ch) := mergeVulnerabilities d inc ch in
  let '(d, ch) := mergeDeviceFlags d inc ch in
  Some (write r l d, ch).

Definition count_update (s : RegistryStats) (at_ : Z) : RegistryStats :=
  let '(MkStats t w i b m a u rm _) := s in MkStats t w i b m a (u + 1) rm at_.
Definition count_add (s : RegistryStats) (at_ : Z) : RegistryStats :=
  let '(MkStats t w i b m a u rm _) := s in MkStats (t + 1) w i b m (a + 1) u rm at_.
Definition count_remove (s : RegistryStats) : RegistryStats :=
  let '(MkStats t w i b m a u rm at_) := s in MkStats (t - 1) w i b m a u (rm + 1) at_.
Definition touch (s : RegistryStats) (at_ : Z) : RegistryStats :=
  let '(MkStats t w i b m a u rm _) := s in MkStats t w i b m a u rm at_.

(** [DeviceRegistry.AddOrUpdate]. The caller's device is a new object of the
    heap when it is kept; [t1] and [t2] are the clock readings. The result is
    the device registered and whether it is new. *)
Definition AddOrUpdate (r : DeviceRegistry) (device : option DiscoveredDevice) (t1 t2 : Z)
    : option (DeviceRegistry * option loc * bool) :=
  match device with
  | None => Some (r, None, false)
  | Some device =>
      if bool_decide (dv_MAC device = "") then Some (r, None, false)
      else
        let mac := normalizeMAC (dv_MAC device) in
        match r_devices r !! mac with
        | Some l =>
            '(r, ch) ← mergeDevice r l device;
            d ← r_heap r !! l;
            let r := write r l (dv_set_LastSeen d t1) in
            let r := set_stats r (count_update (r_stats r) t2) in
            r ← updateIndexes r l;
            Some (if bool_decide (ch = ∅) then r else publish r (EvUpdated mac ch), Some l, false)
        | None =>
            let device := dv_set_MAC device mac in
            let device :=
              if dv_LastSeen device =? time_zero then dv_set_LastSeen device t1 else device in
            let l := fresh (dom (r_heap r)) in
            let r := write r l device in
            let r := set_devices r (<[mac := l]> (r_devices r)) in
            let r := set_stats r (updateConnectionStats (count_add (r_stats r) t2) device true) in
            r ← updateIndexes r l;
            Some (publish r (EvDiscovered mac), Some l, true)
        end
  end.

(** [DeviceRegistry.Remove] *)
Definition Remove (r : DeviceRegistry) (mac : string) (now : Z) : option (DeviceRegistry * bool) :=
  let mac := normalizeMAC mac in
  match r_devices r !! mac with
  | None => Some (r, false)
  | Some l =>
      d ← r_heap r !! l;
      let r := set_stats r (touch (count_remove (updateConnectionStats (r_stats r) d false)) now) in
      r ← removeFromIndexes r d;
      Some (publish (set_devices r (delete mac (r_devices r))) (EvLost mac), true)
  end.

Definition Clear (r : DeviceRegistry) : DeviceRegistry :=
  MkRegistry (r_heap r) ∅ ∅ ∅ ∅ stats_zero (r_DeviceTTL r) (r_emit r) (r_bus r).

(** The removal loop of [ExpireStale]. *)
Fixpoint expire (r : DeviceRegistry) (macs : list string) : option DeviceRegistry :=
  match macs with
  | [] => Some r
  | mac :: macs =>
      l ← r_devices r !! mac;
      d ← r_heap r !! l;
      let r := set_stats r (count_remove (updateConnectionStats (r_stats r) d false)) in
      r ← removeFromIndexes r d;
      expire (publish (set_devices r (delete mac (r_devices r))) (EvLost mac)) macs
  end.

(** The addresses of the stale devices, in range order. *)
Fixpoint stale (h : gmap loc DiscoveredDevice) (cutoff : Z) (l : list (string * loc))
    : option (list string) :=
  match l with
  | [] => Some []
  | (mac, l0) :: l =>
      d ← h !! l0;
      rest ← stale h cutoff l;
      Some (if time_before (dv_LastSeen d) cutoff then mac :: rest else rest)
  end.

(** [DeviceRegistry.ExpireStale] *)
Definition ExpireStale `{!RangeOrder string} (r : DeviceRegistry) (t1 t2 : Z)
    : option (DeviceRegistry * Z) :=
  expired ← stale (r_heap r) (time_add t1 (- r_DeviceTTL r)) (range (r_devices r));
  r ← expire r expired;
  Some (if 0 <? len expired then set_stats r (touch (r_stats r) t2) else r, len expired).

(** The lookups. *)
Definition GetDevice (r : DeviceRegistry) (mac : string) : option loc := r_devices r !! normalizeMAC mac.
Definition GetDeviceByIP (r : DeviceRegistry) (ip : string) : option loc := r_byIP r !! ip.
Definition GetDeviceByHostname (r : DeviceRegistry) (hostname : string) : option loc :=
  r_byHostname r !! to_lower hostname.
Definition GetDevicesByVendor (r : DeviceRegistry) (vendor : string) : list loc :=
  default [] (r_byVendor r !! to_lower vendor).
Definition GetDevices `{!RangeOrder string} (r : DeviceRegistry) : list loc :=
  map snd (range (r_devices r)).
Definition Count (r : DeviceRegistry) : Z := Z.of_nat (size (r_devices r)).

(** [GetDevicesByConnectionType] and [GetMultiConnectedDevices]: the devices
    a test selects, in range order. *)
Fixpoint selected (h : gmap loc DiscoveredDevice) (p : DiscoveredDevice → bool) (l : list (string * loc))
    : option (list loc) :=
  match l with
  | [] => Some []
  | (_, l0) :: l =>
      d ← h !! l0;
      rest ← selected h p l;
      Some (if p d then l0 :: rest else rest)
  end.

Definition GetDevicesByConnectionType `{!RangeOrder string} (r : DeviceRegistry) (ct : ConnectionType)
    : option (list loc) :=
  selected (r_heap r) (λ d, bool_decide (ct ∈ dv_ConnectionTypes d)) (range (r_devices r)).

Definition GetMultiConnectedDevices `{!RangeOrder string} (r : DeviceRegistry) : option (list loc) :=
  selected (r_heap r) multi_connected (range (r_devices r)).

(** The calls that change a registry. *)
Inductive reg_op : Type :=
| OpAdd (device : option DiscoveredDevice) (t1 t2 : Z)
| OpRemove (mac : string) (now : Z)
| OpExpire (t1 t2 : Z)
| OpClear.

Definition reg_run `{!RangeOrder string} (r : DeviceRegistry) (op : reg_op) : option DeviceRegistry :=
  match op with
  | OpAdd d t1 t2 => '(r, _, _) ← AddOrUpdate r d t1 t2; Some r
  | OpRemove mac now => '(r, _) ← Remove r mac now; Some r
  | OpExpire t1 t2 => '(r, _) ← ExpireStale r t1 t2; Some r
  | OpClear => Some (Clear r)
  end.

Fixpoint reg_runs `{!RangeOrder string} (r : DeviceRegistry) (ops : list reg_op) : option DeviceRegistry :=
  match ops with
  | [] => Some r
  | op :: ops => r ← reg_run r op; reg_runs r ops
  end.

(** ** What the registry keeps true *)

Definition vlist (r : DeviceRegistry) (v : string) : list loc := default [] (r_byVendor r !! v).

(** [l] is the registered device [d]. *)
Definition registered (r : DeviceRegistry) (l : loc) (d : DiscoveredDevice) : Prop :=
  r_heap r !! l = Some d ∧ r_devices r !! dv_MAC d = Some l.

Definition has_vendor (d : DiscoveredDevice) (v : string) : Prop :=
  dv_Vendor d ≠ "" ∧ to_lower (dv_Vendor d) = v.

(** The indexes, except that the vendor index may still miss the devices
    [missing] holds of. *)
Record index_ok (r : DeviceRegistry) (missing : loc → Prop) : Prop := {
  ix_device : ∀ mac l, r_devices r !! mac = Some l → ∃ d, r_heap r !! l = Some d ∧ dv_MAC d = mac;
  ix_ip : ∀ ip l, r_byIP r !! ip = Some l → ip ≠ "" ∧ ∃ d, registered r l d ∧ dv_IP d = ip;
  ix_nodup : ∀ v, NoDup (vlist r v);
  ix_vendor : ∀ v l, l ∈ vlist r v → ∃ d, registered r l d ∧ has_vendor d v;
  ix_vendor_all : ∀ v l d, registered r l d → has_vendor d v → ¬ missing l → l ∈ vlist r v;
}.

Definition none (l : loc) : Prop := False.

Lemma registered_fun r l d d' : registered r l d → r_heap r !! l = Some d' → d' = d.
Proof. intros [H _] H'. congruence. Qed.

Lemma registered_inj r l1 l2 d1 d2 :
  registered r l1 d1 → registered r l2 d2 → dv_MAC d1 = dv_MAC d2 → l1 = l2.
Proof. intros [_ H1] [_ H2] Heq. rewrite Heq in H1. congruence. Qed.

(** The two list walks, over lists of registered devices. *)
Section walks.
Context (r : DeviceRegistry) (l : loc) (d : DiscoveredDevice) (Hl : registered r l d).

Lemma mac_listed_spec ls :
  (∀ x, x ∈ ls → ∃ dx, registered r x dx) →
  mac_listed (r_heap r) (dv_MAC d) ls = Some (bool_decide (l ∈ ls)).
Proof using Hl.
  induction ls as [|x ls IH]; intros Hls; cbn [mac_listed]; [done|].
  destruct (Hls x) as [dx Hx]; [by left|]. rewrite (proj1 Hx). cbn [mbind option_bind].
  destruct (bool_decide_reflect (dv_MAC dx = dv_MAC d)) as [Heq|Hne].
  - rewrite (registered_inj r x l dx d) by done. rewrite bool_decide_eq_true_2; [done|by left].
  - rewrite IH by (intros; apply Hls; by right). f_equal. apply bool_decide_ext.
    rewrite elem_of_cons. split; [auto|]. intros [->|]; [|done].
    by rewrite (registered_fun _ _ _ _ Hl (proj1 Hx)) in Hne.
Qed.

Lemma mac_removed_spec ls :
  (∀ x, x ∈ ls → ∃ dx, registered r x dx) → NoDup ls →
  ∃ o, mac_removed (r_heap r) (dv_MAC d) ls = Some o ∧
    NoDup (default ls o) ∧ ∀ x, x ∈ default ls o ↔ x ∈ ls ∧ x ≠ l.
Proof using Hl.
  induction ls as [|x ls IH]; intros Hls Hn; cbn [mac_removed].
  { exists None. split_and!; [done|done|]. simpl. set_solver. }
  apply NoDup_cons in Hn as [Hx0 Hn].
  destruct (Hls x) as [dx Hx]; [by left|]. rewrite (proj1 Hx). cbn [mbind option_bind].
  destruct (bool_decide_reflect (dv_MAC dx = dv_MAC d)) as [Heq|Hne].
  - assert (x = l) as -> by (by eapply registered_inj). exists (Some ls). simpl.
    split_and!; [done|done|]. intros y. rewrite elem_of_cons. split.
    + intros Hy. split; [by right|]. by intros ->.
    + by intros [[->|] ?].
  - destruct IH as (o & -> & Hno & Hin); [intros; apply Hls; by right|done|].
    cbn [mbind option_bind].
    assert (x ≠ l) as Hxl.
    { intros ->. by rewrite (registered_fun _ _ _ _ Hl (proj1 Hx)) in Hne. }
    eexists. split; [reflexivity|]. destruct o as [ls'|]; cbn [option_map default from_option id] in *.
    + split; [apply NoDup_cons; split; [rewrite Hin; tauto|done]|].
      intros y. rewrite !elem_of_cons, Hin. naive_solver.
    + split; [by apply NoDup_cons|]. intros y. rewrite !elem_of_cons, Hin. naive_solver.
Qed.
End walks.

Lemma vlist_insert r v ls v' :
  vlist (set_byVendor r (<[v := ls]> (r_byVendor r))) v' = if decide (v = v') then ls else vlist r v'.
Proof.
  unfold vlist. cbn [r_byVendor set_byVendor]. destruct (decide (v = v')) as [->|].
  - by rewrite lookup_insert_eq.
  - by rewrite lookup_insert_ne.
Qed.

(** Everything but the secondary indexes. *)
Definition same_core (r r' : DeviceRegistry) : Prop :=
  r_heap r' = r_heap r ∧ r_devices r' = r_devices r ∧ r_stats r' = r_stats r ∧
  r_DeviceTTL r' = r_DeviceTTL r ∧ r_emit r' = r_emit r.

Lemma registered_core r r' l d : same_core r r' → registered r' l d ↔ registered r l d.
Proof. intros (H1 & H2 & _). unfold registered. by rewrite H1, H2. Qed.

(** Indexing a device completes the indexes. *)
Lemma wp_updateIndexes r l d (P : loc → Prop) :
  index_ok r (λ x, x = l ∨ P x) → registered r l d → ¬ P l →
  wp (updateIndexes r l) (λ r', same_core r r' ∧ index_ok r' P ∧ r_bus r' = r_bus r ∧
    (dv_IP d ≠ "" → r_byIP r' !! dv_IP d = Some l)).
Proof.
  intros [Hdev Hip Hnd Hv Hall] Hl HP. unfold updateIndexes. rewrite (proj1 Hl). cbn [mbind option_bind].
  set (r1 := if bool_decide (dv_IP d = "") then r else _).
  assert (same_core r r1 ∧ r_bus r1 = r_bus r ∧ r_byVendor r1 = r_byVendor r) as (Hc1 & Hb1 & Hv1)
    by (unfold r1; by destruct (bool_decide _)).
  assert (∀ ip x, r_byIP r1 !! ip = Some x → ip ≠ "" ∧ ∃ dx, registered r x dx ∧ dv_IP dx = ip) as Hip1.
  { unfold r1. destruct (bool_decide_reflect (dv_IP d = "")); [done|]. intros ip x. cbn [r_byIP set_byIP].
    rewrite lookup_insert_Some. intros [[<- <-]|[_ ?]]; [by split; [|exists d]|by apply Hip]. }
  assert (dv_IP d ≠ "" → r_byIP r1 !! dv_IP d = Some l) as Hipl.
  { intros Hne. unfold r1. rewrite bool_decide_eq_false_2 by done. apply lookup_insert_eq. }
  clearbody r1. set (r2 := if bool_decide (dv_Hostname d = "") then r1 else _).
  assert (same_core r r2 ∧ r_bus r2 = r_bus r ∧ r_byVendor r2 = r_byVendor r ∧ r_byIP r2 = r_byIP r1)
    as (Hc2 & Hb2 & Hv2 & Hip2) by (unfold r2; by destruct (bool_decide _)).
  clearbody r2. rewrite <-Hip2 in Hip1, Hipl. clear Hc1 Hb1 Hv1 Hip2 r1.
  assert (∀ v, vlist r2 v = vlist r v) as Hvl by (intros; unfold vlist; by rewrite Hv2).
  destruct (bool_decide_reflect (dv_Vendor d = "")) as [Hve|Hve].
  - apply wp_some. split_and!; [done| |done|done]. split.
    + destruct Hc2 as (-> & -> & _). done.
    + intros ip x Hx. destruct (Hip1 ip x Hx) as (? & dx & ? & ?). split; [done|]. exists dx. by rewrite (registered_core r).
    + intros v. by rewrite Hvl.
    + intros v x. rewrite Hvl. intros (dx & ? & ?)%Hv. exists dx. by rewrite (registered_core r).
    + intros v x dx. rewrite Hvl, (registered_core r) by done. intros Hx Hxv Hnm.
      apply (Hall v x dx); [done|done|]. intros [->|]; [|done].
      rewrite (registered_fun _ _ _ _ Hl (proj1 Hx)) in Hxv. by destruct Hxv.
  - change (default [] (r_byVendor r2 !! to_lower (dv_Vendor d))) with (vlist r2 (to_lower (dv_Vendor d))).
    rewrite Hvl. replace (r_heap r2) with (r_heap r) by (symmetry; apply Hc2).
    rewrite (mac_listed_spec r l d Hl) by (intros x (dx & ? & _)%Hv; eauto). cbn [mbind option_bind].
    apply wp_some. set (V := to_lower (dv_Vendor d)).
    assert (∀ v x, x ∈ (if decide (V = v) then (if bool_decide (l ∈ vlist r V) then vlist r V
              else vlist r V ++ [l]) else vlist r v) ↔ x ∈ vlist r v ∨ (x = l ∧ V = v)) as Hin.
    { intros v x. destruct (decide (V = v)) as [<-|]; [|naive_solver].
      destruct (bool_decide_reflect (l ∈ vlist r V)); [naive_solver|].
      rewrite elem_of_app, list_elem_of_singleton. naive_solver. }
    set (r3 := if bool_decide (l ∈ vlist r V) then r2 else _).
    assert (∀ v, vlist r3 v = if decide (V = v) then (if bool_decide (l ∈ vlist r V) then vlist r V
              else vlist r V ++ [l]) else vlist r v) as Hvl3.
    { intros v. unfold r3. destruct (bool_decide _); [|rewrite vlist_insert; by rewrite Hvl].
      rewrite Hvl. by destruct (decide (V = v)) as [->|]. }
    assert (same_core r r3 ∧ r_bus r3 = r_bus r ∧ r_byIP r3 = r_byIP r2) as (Hc3 & Hb3 & Hip3)
      by (unfold r3; by destruct (bool_decide _)).
    clearbody r3. split_and!; [done| |done|by rewrite Hip3]. split.
    + destruct Hc3 as (-> & -> & _). done.
    + intros ip x. rewrite Hip3. intros (? & dx & ? & ?)%Hip1. split; [done|]. exists dx. by rewrite (registered_core r).
    + intros v. rewrite Hvl3. destruct (decide (V = v)); [|done].
      destruct (bool_decide_reflect (l ∈ vlist r V)); [done|].
      apply NoDup_app. split_and!; [done|set_solver|apply NoDup_singleton].
    + intros v x. rewrite Hvl3, Hin. intros [(dx & ? & ?)%Hv|[-> <-]].
      * exists dx. by rewrite (registered_core r).
      * exists d. by rewrite (registered_core r).
    + intros v x dx. rewrite Hvl3, Hin, (registered_core r) by done. intros Hx Hxv Hnm.
      destruct (decide (x = l)) as [->|]; [|left; apply (Hall v x dx); [done|done|tauto]].
      right. split; [done|]. rewrite (registered_fun _ _ _ _ Hl (proj1 Hx)) in Hxv. by destruct Hxv.
Qed.

(** A vendor list without one device. *)
Lemma wp_removeFromVendorIndex r l d d0 (P : loc → Prop) :
  index_ok r P → registered r l d0 → dv_MAC d = dv_MAC d0 → dv_Vendor d = dv_Vendor d0 →
  wp (removeFromVendorIndex r d) (λ r', same_core r r' ∧ r_bus r' = r_bus r ∧ r_byIP r' = r_byIP r ∧
    (∀ v, NoDup (vlist r' v)) ∧ ∀ v x, x ∈ vlist r' v ↔ x ∈ vlist r v ∧ x ≠ l).
Proof.
  intros [Hdev Hip Hnd Hv Hall] Hl Hmac Hven. unfold removeFromVendorIndex. rewrite Hven, Hmac.
  assert (∀ v x, x ∈ vlist r v → x = l → has_vendor d0 v) as Hown.
  { intros v x Hx ->. destruct (Hv v l Hx) as (dx & Hdx & ?).
    by rewrite <-(registered_fun _ _ _ _ Hl (proj1 Hdx)). }
  destruct (bool_decide_reflect (dv_Vendor d0 = "")) as [He|Hne].
  - apply wp_some. split_and!; try done. intros v x. split; [|tauto]. intros Hx.
    split; [done|]. intros Heq. by destruct (Hown v x Hx Heq).
  - set (V := to_lower (dv_Vendor d0)). change (default [] (r_byVendor r !! V)) with (vlist r V).
    destruct (mac_removed_spec r l d0 Hl (vlist r V)) as (o & -> & Hno & Hin);
      [intros x (dx & ? & _)%Hv; eauto|apply Hnd|]. cbn [mbind option_bind]. apply wp_some.
    assert (∀ v x, v ≠ V → x ∈ vlist r v → x ≠ l) as Hother.
    { intros v x Hne2 Hx Heq. destruct (Hown v x Hx Heq) as [_ ?]. done. }
    destruct o as [ls|]; cbn [default from_option id] in *.
    + split_and!; try done.
      * intros v. rewrite vlist_insert. by destruct (decide (V = v)).
      * intros v x. rewrite vlist_insert. destruct (decide (V = v)) as [<-|]; [apply Hin|].
        split; [|tauto]. intros Hx. split; [done|]. by eapply Hother.
    + split_and!; try done. intros v x. destruct (decide (v = V)) as [->|]; [apply Hin|].
      split; [|tauto]. intros Hx. split; [done|]. by eapply Hother.
Qed.

(** ** Merging a sighting *)

Definition pick (new old : string) : string := if decide (new = "") then old else new.

(** What a sighting [inc] of the device [d] leaves. *)
Record merged (d inc d' : DiscoveredDevice) : Prop := {
  mg_mac : dv_MAC d' = dv_MAC d;
  mg_ip : dv_IP d' = pick (dv_IP inc) (dv_IP d);
  mg_hostname : dv_Hostname d' = pick (dv_Hostname inc) (dv_Hostname d);
  mg_netbios : dv_NetBIOSName d' = pick (dv_NetBIOSName inc) (dv_NetBIOSName d);
  mg_mdns : dv_MDNSName d' = pick (dv_MDNSName inc) (dv_MDNSName d);
  mg_vendor : dv_Vendor d' = pick (dv_Vendor inc) (dv_Vendor d);
  mg_os : dv_OSGuess d' = pick (dv_OSGuess inc) (dv_OSGuess d);
  mg_v6 : dv_IPv6Addresses d' = merge_list (dv_IPv6Addresses d) (dv_IPv6Addresses inc);
  mg_methods : dv_DiscoveryMethod d' = merge_list (dv_DiscoveryMethod d) (dv_DiscoveryMethod inc);
  mg_types : dv_ConnectionTypes d' = merge_list (dv_ConnectionTypes d) (dv_ConnectionTypes inc);
  mg_local : dv_IsLocal d' = dv_IsLocal d || dv_IsLocal inc;
  mg_router : dv_IsRouter d' = dv_IsRouter d || dv_IsRouter inc;
  mg_seen : dv_LastSeen d' = dv_LastSeen d;
}.

Lemma mergeStringField_fst e i key ch : (mergeStringField e i key ch).1 = pick i e.
Proof.
  unfold mergeStringField, pick. destruct (bool_decide_reflect (i = "")); [by rewrite decide_True|].
  rewrite decide_False by done. by destruct (bool_decide_reflect (i = e)) as [->|].
Qed.

(** The parts of a device the later merges leave alone. *)
Definition same_ids (d d' : DiscoveredDevice) : Prop :=
  dv_MAC d' = dv_MAC d ∧ dv_IP d' = dv_IP d ∧ dv_Hostname d' = dv_Hostname d ∧
  dv_NetBIOSName d' = dv_NetBIOSName d ∧ dv_MDNSName d' = dv_MDNSName d ∧
  dv_Vendor d' = dv_Vendor d ∧ dv_OSGuess d' = dv_OSGuess d ∧
  dv_IPv6Addresses d' = dv_IPv6Addresses d ∧ dv_DiscoveryMethod d' = dv_DiscoveryMethod d ∧
  dv_ConnectionTypes d' = dv_ConnectionTypes d ∧ dv_LastSeen d' = dv_LastSeen d.

Definition same_flags (d d' : DiscoveredDevice) : Prop :=
  dv_IsLocal d' = dv_IsLocal d ∧ dv_IsRouter d' = dv_IsRouter d.

Lemma mergeWiFi_ids d inc ch :
  same_ids d (mergeWiFiPresence d inc ch).1 ∧ same_flags d (mergeWiFiPresence d inc ch).1.
Proof. unfold mergeWiFiPresence. by destruct (dv_WiFiPresence inc). Qed.

Lemma mergeBluetooth_ids d inc ch :
  same_ids d (mergeBluetoothPresence d inc ch).1 ∧ same_flags d (mergeBluetoothPresence d inc ch).1.
Proof. unfold mergeBluetoothPresence. by destruct (dv_BluetoothPresence inc). Qed.

Lemma mergeVulnerabilities_ids d inc ch :
  same_ids d (mergeVulnerabilities d inc ch).1 ∧ same_flags d (mergeVulnerabilities d inc ch).1.
Proof. unfold mergeVulnerabilities. by destruct (dv_Vulnerabilities inc). Qed.

Lemma mergeProtocolInfo_ids d inc ch :
  same_ids d (mergeProtocolInfo d inc ch).1 ∧ same_flags d (mergeProtocolInfo d inc ch).1.
Proof.
  unfold mergeProtocolInfo.
  by destruct (dv_SNMPData inc), (dv_Profile inc), (dv_NDPInfo inc), (dv_EDPInfo inc),
    (dv_CDPInfo inc), (dv_LLDPInfo inc).
Qed.

Lemma mergeDeviceFlags_ids d inc ch :
  let d' := (mergeDeviceFlags d inc ch).1 in
  same_ids d d' ∧ dv_IsLocal d' = dv_IsLocal d || dv_IsLocal inc ∧
  dv_IsRouter d' = dv_IsRouter d || dv_IsRouter inc.
Proof.
  unfold mergeDeviceFlags. destruct (dv_IsLocal inc), (dv_IsRouter inc), (decide _); simpl;
    rewrite ?orb_true_r, ?orb_false_r; done.
Qed.

Lemma same_ids_trans d1 d2 d3 : same_ids d1 d2 → same_ids d2 d3 → same_ids d1 d3.
Proof. unfold same_ids. intuition congruence. Qed.

Lemma same_flags_trans d1 d2 d3 : same_flags d1 d2 → same_flags d2 d3 → same_flags d1 d3.
Proof. unfold same_flags. intuition congruence. Qed.

(** The merges after the identifiers, as one. *)
Lemma later_merges d inc ch :
  ∃ d' ch',
    (let '(d, ch) := mergeWiFiPresence d inc ch in
     let '(d, ch) := mergeBluetoothPresence d inc ch in
     let '(d, ch) := mergeProtocolInfo d inc ch in
     let '(d, ch) := mergeVulnerabilities d inc ch in
     mergeDeviceFlags d inc ch) = (d', ch') ∧
    same_ids d d' ∧ dv_IsLocal d' = dv_IsLocal d || dv_IsLocal inc ∧
    dv_IsRouter d' = dv_IsRouter d || dv_IsRouter inc.
Proof.
  destruct (mergeWiFi_ids d inc ch) as [I1 F1]. destruct (mergeWiFiPresence d inc ch) as [d1 c1].
  destruct (mergeBluetooth_ids d1 inc c1) as [I2 F2]. destruct (mergeBluetoothPresence d1 inc c1) as [d2 c2].
  destruct (mergeProtocolInfo_ids d2 inc c2) as [I3 F3]. destruct (mergeProtocolInfo d2 inc c2) as [d3 c3].
  destruct (mergeVulnerabilities_ids d3 inc c3) as [I4 F4]. destruct (mergeVulnerabilities d3 inc c3) as [d4 c4].
  destruct (mergeDeviceFlags_ids d4 inc c4) as (I5 & L5 & R5). destruct (mergeDeviceFlags d4 inc c4) as [d5 c5].
  cbn [fst snd] in *. exists d5, c5.
  pose proof (same_flags_trans _ _ _ (same_flags_trans _ _ _ F1 F2) (same_flags_trans _ _ _ F3 F4)) as [FL FR].
  split_and!; [done| |congruence|congruence].
  exact (same_ids_trans _ _ _ (same_ids_trans _ _ _ I1 I2)
           (same_ids_trans _ _ _ (same_ids_trans _ _ _ I3 I4) I5)).
Qed.

(** What the merge of the identifiers does to the registry: only entries of
    the old address go. *)
Lemma mergeNetworkIdentifiers_spec r l d inc ch (P : loc → Prop) :
  index_ok r P → registered r l d →
  ∃ r1 d1 ch1, mergeNetworkIdentifiers r d inc ch = (r1, d1, ch1) ∧
    same_core r r1 ∧ r_bus r1 = r_bus r ∧ r_byVendor r1 = r_byVendor r ∧
    (∀ ip x, r_byIP r1 !! ip = Some x → r_byIP r !! ip = Some x ∧ (x = l → dv_IP d1 = ip)) ∧
    d1 = dv_set_MDNSName (dv_set_NetBIOSName (dv_set_Hostname (dv_set_IPv6Addresses
           (dv_set_IP d (pick (dv_IP inc) (dv_IP d)))
           (merge_list (dv_IPv6Addresses d) (dv_IPv6Addresses inc)))
           (pick (dv_Hostname inc) (dv_Hostname d))) (pick (dv_NetBIOSName inc) (dv_NetBIOSName d)))
           (pick (dv_MDNSName inc) (dv_MDNSName d)).
Proof.
  intros Hok Hl. unfold mergeNetworkIdentifiers.
  assert (∀ ip, r_byIP r !! ip = Some l → ip ≠ "" ∧ dv_IP d = ip) as Hown.
  { intros ip Hip. destruct (ix_ip _ _ Hok _ _ Hip) as (? & dx & Hdx & ?). split; [done|].
    by rewrite <-(registered_fun _ _ _ _ Hl (proj1 Hdx)). }
  set (c0 := if negb (bool_decide (dv_IP inc = "")) && _ then _ else _).
  assert (∃ r1 ch1, c0 = (r1, dv_set_IP d (pick (dv_IP inc) (dv_IP d)), ch1) ∧ same_core r r1 ∧
    r_bus r1 = r_bus r ∧ r_byVendor r1 = r_byVendor r ∧
    ∀ ip x, r_byIP r1 !! ip = Some x →
      r_byIP r !! ip = Some x ∧ (x = l → pick (dv_IP inc) (dv_IP d) = ip)) as (r1 & ch1 & -> & Hc & Hb & Hv & Hi).
  { subst c0. unfold pick.
    destruct (bool_decide_reflect (dv_IP inc = "")) as [He|He]; cbn [negb andb].
    { rewrite decide_True by done. exists r, ch. split_and!; try done.
      - by destruct d.
      - intros ip x Hx. split; [done|]. intros ->. by apply Hown. }
    rewrite decide_False by done.
    destruct (bool_decide_reflect (dv_IP inc = dv_IP d)) as [Hs|Hs]; cbn [negb].
    { exists r, ch. split_and!; try done.
      - rewrite Hs. by destruct d.
      - intros ip x Hx. split; [done|]. intros ->. rewrite Hs. by apply Hown. }
    eexists _, _. split; [reflexivity|].
    destruct (bool_decide_reflect (dv_IP d = "")) as [Hd|Hd]; cbn; (split_and!; [done..|]).
    - intros ip x Hx. split; [done|]. intros ->. destruct (Hown ip Hx). congruence.
    - intros ip x. rewrite lookup_delete_Some. intros [Hne Hx]. split; [done|]. intros ->.
      destruct (Hown ip Hx). congruence. }
  cbn [fst snd].
  pose proof (mergeStringField_fst (dv_Hostname d) (dv_Hostname inc) "hostname") as M1.
  pose proof (mergeStringField_fst (dv_NetBIOSName d) (dv_NetBIOSName inc) "netbiosName") as M2.
  pose proof (mergeStringField_fst (dv_MDNSName d) (dv_MDNSName inc) "mdnsName") as M3.
  cbn [dv_Hostname dv_NetBIOSName dv_MDNSName dv_IPv6Addresses dv_set_IP dv_set_IPv6Addresses].
  match goal with |- context [mergeStringField _ _ "hostname" ?c] => generalize c; intros c1 end.
  specialize (M1 c1). destruct (mergeStringField _ _ "hostname" c1) as [h c2]. cbn in M1. subst h.
  cbn [dv_NetBIOSName dv_MDNSName dv_set_Hostname].
  specialize (M2 c2). destruct (mergeStringField _ _ "netbiosName" c2) as [n c3]. cbn in M2. subst n.
  cbn [dv_MDNSName dv_set_NetBIOSName].
  specialize (M3 c3). destruct (mergeStringField _ _ "mdnsName" c3) as [m c4]. cbn in M3. subst m.
  exists r1, (dv_set_MDNSName (dv_set_NetBIOSName (dv_set_Hostname (dv_set_IPv6Addresses
           (dv_set_IP d (pick (dv_IP inc) (dv_IP d)))
           (merge_list (dv_IPv6Addresses d) (dv_IPv6Addresses inc)))
           (pick (dv_Hostname inc) (dv_Hostname d))) (pick (dv_NetBIOSName inc) (dv_NetBIOSName d)))
           (pick (dv_MDNSName inc) (dv_MDNSName d))), c4. split_and!; done.
Qed.

Definition multi_bump (old new : DiscoveredDevice) (s : RegistryStats) : RegistryStats :=
  if multi_connected new && negb (multi_connected old) then bump_multi 1 s else s.

(** The heap may hold the device before the merge: [d0]. *)
Lemma wp_mergeDeviceMetadata r l d0 d inc ch (P : loc → Prop) :
  index_ok r P → registered r l d0 → dv_MAC d = dv_MAC d0 → dv_Vendor d = dv_Vendor d0 →
  wp (mergeDeviceMetadata r d inc ch) (λ '(r', d', ch'),
    r_heap r' = r_heap r ∧ r_devices r' = r_devices r ∧ r_DeviceTTL r' = r_DeviceTTL r ∧
    r_emit r' = r_emit r ∧ r_bus r' = r_bus r ∧ r_byIP r' = r_byIP r ∧
    r_stats r' = multi_bump d d' (r_stats r) ∧
    (∀ v, NoDup (vlist r' v)) ∧
    (∀ v x, x ∈ vlist r' v → x ∈ vlist r v ∧ (x = l → has_vendor d' v)) ∧
    (∀ v x, x ≠ l → x ∈ vlist r v → x ∈ vlist r' v) ∧
    d' = dv_set_ConnectionTypes (dv_set_DiscoveryMethod (dv_set_OSGuess
           (dv_set_Vendor d (pick (dv_Vendor inc) (dv_Vendor d)))
           (pick (dv_OSGuess inc) (dv_OSGuess d)))
           (merge_list (dv_DiscoveryMethod d) (dv_DiscoveryMethod inc)))
           (merge_list (dv_ConnectionTypes d) (dv_ConnectionTypes inc))).
Proof.
  intros Hok Hl Hmac Hven. unfold mergeDeviceMetadata.
  assert (∀ v, l ∈ vlist r v → has_vendor d v) as Hown.
  { intros v Hx. destruct (ix_vendor _ _ Hok _ _ Hx) as (dx & Hdx & Hh).
    unfold has_vendor. rewrite Hven. by rewrite <-(registered_fun _ _ _ _ Hl (proj1 Hdx)). }
  apply (wp_bind_spec _ _ (λ '(r1, d1, _), same_core r r1 ∧ r_bus r1 = r_bus r ∧ r_byIP r1 = r_byIP r ∧
    (∀ v, NoDup (vlist r1 v)) ∧
    (∀ v x, x ∈ vlist r1 v → x ∈ vlist r v ∧
       (x = l → pick (dv_Vendor inc) (dv_Vendor d) ≠ "" ∧ to_lower (pick (dv_Vendor inc) (dv_Vendor d)) = v)) ∧
    (∀ v x, x ≠ l → x ∈ vlist r v → x ∈ vlist r1 v) ∧
    d1 = dv_set_Vendor d (pick (dv_Vendor inc) (dv_Vendor d)))).
  - unfold pick. destruct (bool_decide_reflect (dv_Vendor inc = "")) as [He|He]; cbn [negb andb].
    { rewrite decide_True by done. apply wp_some. split_and!; try done; [apply Hok| |by destruct d].
      intros v x Hx. split; [done|]. intros ->. by apply Hown. }
    rewrite decide_False by done.
    destruct (bool_decide_reflect (dv_Vendor inc = dv_Vendor d)) as [Hs|Hs]; cbn [negb].
    { apply wp_some. rewrite Hs. split_and!; try done; [apply Hok| |by destruct d].
      intros v x Hx. split; [done|]. intros ->. by apply Hown. }
    eapply wp_bind_spec; [by eapply wp_removeFromVendorIndex|]. intros r1 (Hc & Hb & Hi & Hn & Hin).
    apply wp_some. split_and!; try done.
    + intros v x [??]%Hin. done.
    + intros v x ??. by apply Hin.
  - intros [[r1 d1] ch1] (Hc & Hb & Hi & Hn & Hv & Hv' & ->).
    pose proof (mergeStringField_fst (dv_OSGuess d) (dv_OSGuess inc) "osGuess" ch1) as M.
    cbn [dv_OSGuess dv_set_Vendor]. destruct (mergeStringField _ _ "osGuess" ch1) as [o c]. cbn in M. subst o.
    cbn [dv_DiscoveryMethod dv_ConnectionTypes dv_set_OSGuess dv_set_DiscoveryMethod dv_set_Vendor
      dv_set_ConnectionTypes].
    apply wp_some. set (d' := dv_set_ConnectionTypes _ _). destruct Hc as (H1 & H2 & H3 & H4 & H5).
    set (b := len (merge_list _ (dv_ConnectionTypes inc)) =? _).
    assert (multi_connected d' && (len (dv_ConnectionTypes d) <? multiConnectionThreshold)
            = multi_connected d' && negb (multi_connected d)) as Hm.
    { f_equal. unfold multi_connected. apply Z.ltb_antisym. }
    assert (b = true → multi_connected d' && negb (multi_connected d) = false) as Hb'.
    { unfold b, multi_connected, d'. cbn. intros ->%Z.eqb_eq. by destruct (_ <=? _). }
    clearbody b. destruct b; cbn [negb].
    + unfold multi_bump. rewrite Hb' by done. split_and!; done.
    + unfold multi_bump. rewrite Hm. destruct (multi_connected d' && negb (multi_connected d)).
      * split_and!; try done. change (bump_multi 1 (r_stats r1) = bump_multi 1 (r_stats r)). by rewrite H3.
      * split_and!; done.
Qed.

(** A merge leaves the device merged, counts it when it becomes
    multi-connected, and leaves it to be indexed again. *)
Lemma wp_mergeDevice r l d inc :
  index_ok r none → registered r l d →
  wp (mergeDevice r l inc) (λ '(r', ch), ∃ d', merged d inc d' ∧
    r_heap r' = <[l := d']> (r_heap r) ∧ r_devices r' = r_devices r ∧
    r_DeviceTTL r' = r_DeviceTTL r ∧ r_emit r' = r_emit r ∧ r_bus r' = r_bus r ∧
    r_stats r' = multi_bump d d' (r_stats r) ∧ index_ok r' (λ x, x = l ∨ none x)).
Proof.
  intros Hok Hl. unfold mergeDevice. rewrite (proj1 Hl). cbn [mbind option_bind].
  destruct (mergeNetworkIdentifiers_spec r l d inc ∅ none Hok Hl)
    as (r1 & d1 & ch1 & -> & Hc1 & Hb1 & Hv1 & Hi1 & Hd1).
  assert (∀ v, vlist r1 v = vlist r v) as Hvl by (intros; unfold vlist; by rewrite Hv1).
  assert (index_ok r1 none) as Hok1.
  { split.
    - destruct Hc1 as (-> & -> & _). apply Hok.
    - intros ip x [Hx _]%Hi1. destruct (ix_ip _ _ Hok _ _ Hx) as (? & dx & ? & ?).
      split; [done|]. exists dx. by rewrite (registered_core r).
    - intros v. rewrite Hvl. apply Hok.
    - intros v x. rewrite Hvl. intros (dx & ? & ?)%(ix_vendor _ _ Hok). exists dx.
      by rewrite (registered_core r).
    - intros v x dx. rewrite Hvl, (registered_core r) by done. apply (ix_vendor_all _ _ Hok). }
  assert (registered r1 l d) as Hl1 by (by rewrite (registered_core r)).
  eapply wp_bind_spec; [eapply (wp_mergeDeviceMetadata r1 l d d1); [done|done|by rewrite Hd1..]|].
  intros [[r2 d2] ch2] (Hh & Hdv & Ht & He & Hb & Hip & Hst & Hn & Hv & Hv' & Hd2).
  destruct (later_merges d2 inc ch2) as (d3 & ch3 & Heq & Hids & Hloc & Hrt).
  destruct (mergeWiFiPresence d2 inc ch2) as [x1 y1]. destruct (mergeBluetoothPresence x1 inc y1) as [x2 y2].
  destruct (mergeProtocolInfo x2 inc y2) as [x3 y3]. destruct (mergeVulnerabilities x3 inc y3) as [x4 y4].
  rewrite Heq. apply wp_some.
  destruct Hids as (I1 & I2 & I3 & I4 & I5 & I6 & I7 & I8 & I9 & I10 & I11).
  destruct Hc1 as (C1 & C2 & C3 & C4 & C5).
  exists d3. cbn [write set_heap r_heap r_devices r_DeviceTTL r_emit r_bus r_stats].
  rewrite ?Hh, ?Hdv, ?Ht, ?He, ?Hb, ?Hst, ?C1, ?C2, ?C3, ?C4, ?C5, ?Hb1.
  assert (registered (write r2 l d3) l d3) as Hl3.
  { split; [apply lookup_insert_eq|]. cbn. rewrite Hdv, I1, Hd2, Hd1. apply Hl1. }
  assert (∀ x dx, x ≠ l → registered (write r2 l d3) x dx ↔ registered r1 x dx) as Hreg.
  { intros x dx Hx. unfold registered. cbn. rewrite lookup_insert_ne by done. by rewrite Hh, Hdv. }
  split_and!; try done.
  - split; rewrite ?I1, ?I2, ?I3, ?I4, ?I5, ?I6, ?I7, ?I8, ?I9, ?I10, ?I11, ?Hloc, ?Hrt, ?Hd2, ?Hd1; done.
  - unfold multi_bump, multi_connected. rewrite I10, Hd2, Hd1. done.
  - split.
    + intros mac x. cbn. rewrite Hdv. intros Hx. destruct (decide (x = l)) as [->|Hne].
      * exists d3. rewrite lookup_insert_eq. split; [done|]. rewrite I1, Hd2, Hd1. cbn.
        destruct (ix_device _ _ Hok1 _ _ Hx) as (dx & Hdx & <-). destruct Hl1 as [Hl1 _]. congruence.
      * rewrite lookup_insert_ne, Hh by done. by apply (ix_device _ _ Hok1).
    + intros ip x. cbn. rewrite Hip. intros Hx. destruct (ix_ip _ _ Hok1 _ _ Hx) as (? & dx & Hdx & ?).
      split; [done|]. destruct (decide (x = l)) as [->|Hne].
      * exists d3. split; [done|]. rewrite I2, Hd2. exact (proj2 (Hi1 _ _ Hx) eq_refl).
      * exists dx. by rewrite Hreg.
    + apply Hn.
    + intros v x Hx. destruct (Hv v x Hx) as [Hx1 Hxl].
      destruct (decide (x = l)) as [->|Hne].
      * exists d3. split; [done|]. unfold has_vendor. rewrite I6. by apply Hxl.
      * destruct (ix_vendor _ _ Hok1 _ _ Hx1) as (dx & ? & ?). exists dx. by rewrite Hreg.
    + intros v x dx Hx Hhv Hm. assert (x ≠ l) as Hne by tauto.
      apply Hv'; [done|]. rewrite Hreg in Hx by done. exact (ix_vendor_all _ _ Hok1 v x dx Hx Hhv (λ f, f)).
Qed.

(** ** The registry as its callers see it *)

(** A device per hardware address. *)
Definition view (r : DeviceRegistry) : gmap string DiscoveredDevice :=
  omap (λ l, r_heap r !! l) (r_devices r).

Definition count_multi (m : gmap string DiscoveredDevice) : Z :=
  Z.of_nat (size (filter (λ p, multi_connected p.2 = true) m)).

Record reg_inv (r : DeviceRegistry) : Prop := {
  ri_index : index_ok r none;
  ri_total : TotalDevices (r_stats r) = Z.of_nat (size (view r));
  ri_counts : TotalDevices (r_stats r) = AddCount (r_stats r) - RemoveCount (r_stats r);
  ri_multi : MultiConnected (r_stats r) = count_multi (view r);
}.

Lemma lookup_view r mac : view r !! mac = l ← r_devices r !! mac; r_heap r !! l.
Proof. apply lookup_omap. Qed.

Lemma view_registered r P mac d :
  index_ok r P → view r !! mac = Some d → ∃ l, registered r l d ∧ dv_MAC d = mac.
Proof.
  intros Hok. rewrite lookup_view. intros (l & Hl & Hd)%bind_Some. exists l.
  destruct (ix_device _ _ Hok _ _ Hl) as (d' & Hd' & <-). by simplify_eq.
Qed.

Lemma view_None r P mac : index_ok r P → view r !! mac = None ↔ r_devices r !! mac = None.
Proof.
  intros Hok. rewrite lookup_view. destruct (r_devices r !! mac) as [l|] eqn:E; [|done].
  destruct (ix_device _ _ Hok _ _ E) as (d & Hd & _). simpl. by rewrite Hd.
Qed.

Lemma dom_view r P : index_ok r P → dom (view r) = dom (r_devices r).
Proof.
  intros Hok. apply set_eq. intros mac. rewrite !elem_of_dom, <-!not_eq_None_Some.
  by rewrite (view_None r P).
Qed.

Lemma size_view r P : index_ok r P → size (view r) = size (r_devices r).
Proof. intros Hok. rewrite <-!size_dom. by rewrite (dom_view r P). Qed.

Definition multiZ (o : option DiscoveredDevice) : Z :=
  match o with Some d => if multi_connected d then 1 else 0 | None => 0 end.

Lemma count_multi_add m mac d :
  m !! mac = None → count_multi (<[mac := d]> m) = count_multi m + multiZ (Some d).
Proof.
  intros Hm. unfold count_multi. rewrite map_filter_insert. simpl.
  destruct (multi_connected d); simpl.
  - rewrite map_size_insert_None by (apply map_lookup_filter_None; by left). lia.
  - rewrite map_filter_delete_not; [lia|]. by rewrite Hm.
Qed.

Lemma count_multi_delete m mac :
  count_multi (delete mac m) = count_multi m - multiZ (m !! mac).
Proof.
  destruct (m !! mac) as [d|] eqn:E; [|rewrite delete_id by done; simpl; lia].
  rewrite <-(insert_delete_id m mac d E) at 2.
  rewrite count_multi_add by apply lookup_delete_eq. lia.
Qed.

Lemma count_multi_insert m mac d :
  count_multi (<[mac := d]> m) = count_multi m - multiZ (m !! mac) + multiZ (Some d).
Proof.
  rewrite <-insert_delete_eq, count_multi_add by apply lookup_delete_eq.
  by rewrite count_multi_delete.
Qed.

(** The counters of connection types leave the others alone. *)
Lemma updateConnectionStats_spec s d adding :
  let s' := updateConnectionStats s d adding in
  TotalDevices s' = TotalDevices s ∧ AddCount s' = AddCount s ∧ RemoveCount s' = RemoveCount s ∧
  UpdateCount s' = UpdateCount s ∧
  MultiConnected s' = MultiConnected s + (if adding then 1 else -1) * multiZ (Some d).
Proof.
  cbn zeta. unfold updateConnectionStats. cbn [multiZ].
  set (delta := if adding then 1 else -1). set (s1 := foldl _ s _).
  assert (TotalDevices s1 = TotalDevices s ∧ AddCount s1 = AddCount s ∧ RemoveCount s1 = RemoveCount s ∧
    UpdateCount s1 = UpdateCount s ∧ MultiConnected s1 = MultiConnected s) as (H1 & H2 & H3 & H4 & H5).
  { subst s1. generalize (dv_ConnectionTypes d). intros l. revert s.
    induction l as [|ct l IH]; intros s; [done|]. cbn [foldl].
    destruct (IH (bump delta s ct)) as (-> & -> & -> & -> & ->). by destruct s, ct. }
  clearbody s1 delta. destruct (multi_connected d); [|rewrite H1, H2, H3, H4, H5; split_and!; lia].
  destruct s1, s. cbn in *. subst. split_and!; lia.
Qed.

Lemma index_ok_ext r r' P :
  r_heap r' = r_heap r → r_devices r' = r_devices r → r_byIP r' = r_byIP r →
  r_byVendor r' = r_byVendor r → index_ok r P → index_ok r' P.
Proof.
  intros H1 H2 H3 H4 [A B C D E].
  split; unfold vlist, registered; rewrite ?H1, ?H2, ?H3, ?H4; done.
Qed.

Lemma view_ext r r' : r_heap r' = r_heap r → r_devices r' = r_devices r → view r' = view r.
Proof. unfold view. by intros -> ->. Qed.

Lemma publish_fields r e :
  r_heap (publish r e) = r_heap r ∧ r_devices (publish r e) = r_devices r ∧
  r_byIP (publish r e) = r_byIP r ∧ r_byVendor (publish r e) = r_byVendor r ∧
  r_DeviceTTL (publish r e) = r_DeviceTTL r ∧ r_emit (publish r e) = r_emit r.
Proof. destruct r as [h m ip hn v s t [] b]; done. Qed.

Lemma index_publish r e P : index_ok r P → index_ok (publish r e) P.
Proof. destruct (publish_fields r e) as (? & ? & ? & ? & _). by apply index_ok_ext. Qed.

Lemma view_publish r e : view (publish r e) = view r.
Proof. destruct (publish_fields r e) as (? & ? & _). by apply view_ext. Qed.

Lemma publish_stats r e : r_stats (publish r e) = r_stats r.
Proof. unfold publish. by destruct (r_emit r). Qed.

(** Writing a registered device again shows as an update of the view. *)
Lemma view_write r h' l d d' P :
  index_ok r P → registered r l d → h' = <[l := d']> (r_heap r) →
  ∀ r', r_heap r' = h' → r_devices r' = r_devices r → view r' = <[dv_MAC d := d']> (view r).
Proof.
  intros Hok Hl -> r' H1 H2. apply map_eq. intros mac. rewrite lookup_view, H1, H2.
  destruct (decide (dv_MAC d = mac)) as [<-|Hne].
  - rewrite lookup_insert_eq, (proj2 Hl). simpl. apply lookup_insert_eq.
  - rewrite lookup_insert_ne, lookup_view by done.
    destruct (r_devices r !! mac) as [x|] eqn:E; [|done]. simpl. apply lookup_insert_ne.
    intros <-. destruct (ix_device _ _ Hok _ _ E) as (dx & Hdx & <-).
    destruct Hl as [Hl _]. simplify_eq.
Qed.

(** A write that keeps what is indexed keeps the indexes. *)
Lemma index_write r l d d' P :
  index_ok r P → registered r l d → dv_MAC d' = dv_MAC d → dv_IP d' = dv_IP d →
  dv_Vendor d' = dv_Vendor d → index_ok (write r l d') P.
Proof.
  intros Hok Hl H1 H2 H3.
  assert (∀ x dx, registered r x dx →
    ∃ dy, registered (write r l d') x dy ∧ dv_MAC dy = dv_MAC dx ∧ dv_IP dy = dv_IP dx ∧
      dv_Vendor dy = dv_Vendor dx) as Hreg.
  { intros x dx Hx. destruct (decide (x = l)) as [->|Hne].
    - rewrite (registered_fun _ _ _ _ Hl (proj1 Hx)). exists d'. split_and!; try done.
      split; [apply lookup_insert_eq|]. cbn. rewrite H1. apply Hl.
    - exists dx. split_and!; try done. split; [|apply Hx]. cbn. rewrite lookup_insert_ne by done. apply Hx. }
  split.
  - intros mac x. cbn. intros Hx. destruct (ix_device _ _ Hok _ _ Hx) as (dx & Hdx & <-).
    destruct (Hreg x dx) as (dy & Hdy & ? & _); [by split|]. exists dy. split; [apply Hdy|done].
  - intros ip x Hx. destruct (ix_ip _ _ Hok _ _ Hx) as (? & dx & Hdx & <-). split; [done|].
    destruct (Hreg x dx Hdx) as (dy & ? & _ & ? & _). by exists dy.
  - apply Hok.
  - intros v x Hx. destruct (ix_vendor _ _ Hok _ _ Hx) as (dx & Hdx & Hv).
    destruct (Hreg x dx Hdx) as (dy & ? & _ & _ & Hy). exists dy. unfold has_vendor. by rewrite Hy.
  - intros v x dx Hx Hv Hm. destruct (decide (x = l)) as [->|Hne].
    + apply (ix_vendor_all _ _ Hok v l d Hl); [|done].
      destruct Hx as [Hx _]. cbn in Hx. rewrite lookup_insert_eq in Hx. simplify_eq.
      unfold has_vendor in *. by rewrite <-H3.
    + apply (ix_vendor_all _ _ Hok v x dx); [|done|done]. destruct Hx as [Hx Hy]. split; [|done].
      cbn in Hx. by rewrite lookup_insert_ne in Hx.
Qed.

(** ** Adding and updating *)

Lemma index_register r l d P :
  index_ok r P → l ∉ dom (r_heap r) → r_devices r !! dv_MAC d = None →
  let r' := set_devices (write r l d) (<[dv_MAC d := l]> (r_devices r)) in
  index_ok r' (λ x, x = l ∨ P x) ∧ registered r' l d ∧ view r' = <[dv_MAC d := d]> (view r).
Proof.
  cbn zeta. intros Hok Hl%not_elem_of_dom Hd. set (r' := set_devices _ _).
  assert (∀ x dx, registered r x dx → x ≠ l ∧ registered r' x dx) as Hreg.
  { intros x dx [H1 H2]. assert (x ≠ l) by (intros ->; congruence). split; [done|]. split; cbn.
    - by rewrite lookup_insert_ne.
    - rewrite lookup_insert_ne; [done|]. intros Heq. rewrite <-Heq in H2. congruence. }
  assert (registered r' l d) as Hl' by (split; apply lookup_insert_eq).
  split_and!; [split|done|].
  - intros mac x. cbn. rewrite lookup_insert_Some. intros [[<- <-]|[Hne Hx]].
    + exists d. split; [apply lookup_insert_eq|done].
    + destruct (ix_device _ _ Hok _ _ Hx) as (dx & Hdx & <-). exists dx. split; [|done].
      rewrite lookup_insert_ne; [done|]. intros <-. congruence.
  - intros ip x Hx. destruct (ix_ip _ _ Hok _ _ Hx) as (? & dx & ? & ?). split; [done|].
    exists dx. split; [by apply Hreg|done].
  - apply Hok.
  - intros v x Hx. destruct (ix_vendor _ _ Hok _ _ Hx) as (dx & ? & ?). exists dx.
    split; [by apply Hreg|done].
  - intros v x dx [Hx1 Hx2] Hv Hm. cbn in Hx1, Hx2.
    assert (x ≠ l ∧ ¬ P x) as [Hxl HP] by (split; contradict Hm; [by left|by right]).
    apply (ix_vendor_all _ _ Hok v x dx); [|done|done].
    rewrite lookup_insert_ne in Hx1 by done. split; [done|].
    rewrite lookup_insert_ne in Hx2; [done|]. intros Heq. rewrite <-Heq, lookup_insert_eq in Hx2.
    by simplify_eq.
  - apply map_eq. intros mac. rewrite lookup_view. cbn.
    destruct (decide (dv_MAC d = mac)) as [<-|Hne].
    + rewrite !lookup_insert_eq. simpl. apply lookup_insert_eq.
    + rewrite !lookup_insert_ne, lookup_view by done. destruct (r_devices r !! mac) as [x|] eqn:E; [|done].
      simpl. apply lookup_insert_ne. intros <-. destruct (ix_device _ _ Hok _ _ E) as (dx & ? & _). congruence.
Qed.

(** The device a first sighting registers. *)
Definition first_seen (dev : DiscoveredDevice) (mac : string) (t : Z) : DiscoveredDevice :=
  if dv_LastSeen dev =? time_zero then dv_set_LastSeen (dv_set_MAC dev mac) t else dv_set_MAC dev mac.

(** What the sighting [dev] makes of what was known. *)
Definition after_add (known : option DiscoveredDevice) (dev : DiscoveredDevice) (mac : string) (t : Z)
    (d' : DiscoveredDevice) : Prop :=
  match known with
  | None => d' = first_seen dev mac t
  | Some d => ∃ dm, merged d dev dm ∧ d' = dv_set_LastSeen dm t
  end.

Lemma merge_list_grows {A} `{EqDecision A} (inc l : list A) : (length l ≤ length (merge_list l inc))%nat.
Proof.
  revert l. induction inc as [|x inc IH]; intros l; simpl; [done|].
  etransitivity; [|apply IH]. destruct (decide _); [done|]. rewrite length_app. lia.
Qed.

(** What holds of the registry [r'] when [d'] has been put into [r] at [l]. *)
Definition put_result (r r' : DeviceRegistry) (l : loc) (mac : string) (d' : DiscoveredDevice) : Prop :=
  reg_inv r' ∧ registered r' l d' ∧ dv_MAC d' = mac ∧ view r' = <[mac := d']> (view r) ∧
  (dv_IP d' ≠ "" → r_byIP r' !! dv_IP d' = Some l) ∧
  r_DeviceTTL r' = r_DeviceTTL r ∧ r_emit r' = r_emit r.

Lemma put_publish r r' l mac d' e : put_result r r' l mac d' → put_result r (publish r' e) l mac d'.
Proof.
  intros (Hinv & Hrest). assert (reg_inv (publish r' e)) as Hinv'.
  { destruct Hinv as [H1 H2 H3 H4].
    split; rewrite ?publish_stats, ?view_publish; [by apply index_publish|done..]. }
  split; [exact Hinv'|]. rewrite view_publish. revert Hrest. unfold registered.
  destruct (publish_fields r' e) as (-> & -> & -> & _ & -> & ->). done.
Qed.

Lemma wp_update r l d dev mac t1 t2 :
  reg_inv r → registered r l d → dv_MAC d = mac →
  wp ('(r, ch) ← mergeDevice r l dev;
      d ← r_heap r !! l;
      let r := write r l (dv_set_LastSeen d t1) in
      let r := set_stats r (count_update (r_stats r) t2) in
      r ← updateIndexes r l;
      Some (if bool_decide (ch = ∅) then r else publish r (EvUpdated mac ch), Some l, false))
    (λ '(r', ol, new), new = false ∧ ol = Some l ∧
       ∃ d', after_add (Some d) dev mac t1 d' ∧ put_result r r' l mac d').
Proof.
  intros [Hok Ht Hc Hm] Hl <-. eapply wp_bind_spec; [by apply wp_mergeDevice|].
  intros [r1 ch] (dm & Hmg & Hh1 & Hd1 & HT1 & He1 & Hb1 & Hst1 & Hok1).
  assert (registered r1 l dm) as Hl1.
  { split; [rewrite Hh1; apply lookup_insert_eq|]. rewrite Hd1, (mg_mac _ _ _ Hmg). apply Hl. }
  rewrite (proj1 Hl1). cbn [mbind option_bind]. set (d' := dv_set_LastSeen dm t1).
  set (r2 := set_stats _ _).
  assert (index_ok r2 (λ x, x = l ∨ none x)) as Hok2
    by (apply (index_ok_ext (write r1 l d')); [done..|]; by apply (index_write r1 l dm)).
  assert (registered r2 l d') as Hl2 by (split; [apply lookup_insert_eq|apply Hl1]).
  assert (view r2 = <[dv_MAC d := d']> (view r)) as Hv2.
  { eapply (view_write r _ l d d' none); [done|done|reflexivity| |done].
    cbn. rewrite Hh1. apply insert_insert_eq. }
  eapply wp_bind_spec; [apply (wp_updateIndexes r2 l d' none); [done|done|by intros []]|].
  intros r3 (Hcore & Hok3 & _ & Hip3). apply wp_some.
  assert (put_result r r3 l (dv_MAC d) d') as Hput.
  { destruct Hcore as (C1 & C2 & C3 & C4 & C5).
    assert (view r !! dv_MAC d = Some d) as Hvd by (rewrite lookup_view, (proj2 Hl); apply Hl).
    assert (view r3 = view r2) as Hv3 by (by apply view_ext).
    assert (TotalDevices (r_stats r3) = TotalDevices (r_stats r) ∧
      AddCount (r_stats r3) = AddCount (r_stats r) ∧ RemoveCount (r_stats r3) = RemoveCount (r_stats r) ∧
      MultiConnected (r_stats r3) = MultiConnected (r_stats r) +
        (if multi_connected dm && negb (multi_connected d) then 1 else 0)) as (S1 & S2 & S3 & S4).
    { rewrite C3. cbn. rewrite Hst1. unfold multi_bump. destruct (r_stats r), (multi_connected dm && _);
        cbn; split_and!; lia. }
    split_and!.
    - split; [done| | |].
      + rewrite Hv3, Hv2, map_size_insert_Some, S1 by eauto. done.
      + rewrite S1, S2, S3. done.
      + rewrite Hv3, Hv2, count_multi_insert, S4, Hm, Hvd. cbn.
        assert (multi_connected d = true → multi_connected dm = true).
        { unfold multi_connected. rewrite (mg_types _ _ _ Hmg), !Z.leb_le.
          pose proof (merge_list_grows (dv_ConnectionTypes dev) (dv_ConnectionTypes d)). unfold len. lia. }
        change (multi_connected d') with (multi_connected dm).
        destruct (multi_connected dm), (multi_connected d); cbn; try lia; naive_solver.
    - by rewrite (registered_core r2).
    - apply (mg_mac _ _ _ Hmg).
    - by rewrite Hv3.
    - done.
    - rewrite C4. apply HT1.
    - rewrite C5. apply He1. }
  destruct (bool_decide (ch = ∅)); (split_and!; [done|done|]); exists d'; (split; [by exists dm|]);
    [done|by apply put_publish].
Qed.


Lemma wp_first r dev mac t1 t2 :
  reg_inv r → r_devices r !! mac = None →
  wp (let device := dv_set_MAC dev mac in
      let device := if dv_LastSeen device =? time_zero then dv_set_LastSeen device t1 else device in
      let l := fresh (dom (r_heap r)) in
      let r := write r l device in
      let r := set_devices r (<[mac := l]> (r_devices r)) in
      let r := set_stats r (updateConnectionStats (count_add (r_stats r) t2) device true) in
      r ← updateIndexes r l;
      Some (publish r (EvDiscovered mac), Some l, true))
    (λ '(r', ol, new), new = true ∧ ∃ l d', ol = Some l ∧
       after_add None dev mac t1 d' ∧ put_result r r' l mac d').
Proof.
  intros [Hok Ht Hc Hm] Hnone. cbn zeta.
  change (if dv_LastSeen (dv_set_MAC dev mac) =? _ then _ else _) with (first_seen dev mac t1).
  set (d' := first_seen dev mac t1). set (l := fresh _). set (r2 := set_stats _ _).
  assert (dv_MAC d' = mac) as Hmac by (subst d'; unfold first_seen; by destruct (_ =? _)).
  destruct (index_register r l d' none) as (Hok2 & Hl2 & Hv2);
    [done|apply is_fresh|by rewrite Hmac|]. rewrite Hmac in Hok2, Hl2, Hv2.
  assert (index_ok r2 (λ x, x = l ∨ none x)) as Hok2'
    by exact (index_ok_ext (set_devices (write r l d') (<[mac := l]> (r_devices r))) r2 _ eq_refl eq_refl eq_refl eq_refl Hok2).
  eapply wp_bind_spec; [apply (wp_updateIndexes r2 l d' none); [done|apply Hl2|by intros []]|].
  intros r3 (Hcore & Hok3 & _ & Hip3). apply wp_some. split; [done|].
  exists l, d'. split; [done|]. split; [done|]. apply put_publish.
  destruct Hcore as (C1 & C2 & C3 & C4 & C5).
  assert (view r !! mac = None) as Hvn by (by apply (view_None r none)).
  assert (view r3 = <[mac := d']> (view r)) as Hv3 by (rewrite <-Hv2; by apply view_ext).
  destruct (updateConnectionStats_spec (count_add (r_stats r) t2) d' true) as (S1 & S2 & S3 & S4 & S5).
  assert (r_stats r3 = updateConnectionStats (count_add (r_stats r) t2) d' true) as Hst by exact C3.
  split_and!; [split; [done| | |]|..]; try done.
  - rewrite Hv3, map_size_insert_None, Hst, S1 by done. destruct (r_stats r). cbn in *. lia.
  - rewrite Hst, S1, S2, S3. destruct (r_stats r). cbn in *. lia.
  - rewrite Hv3, count_multi_add, Hst, S5 by done. destruct (r_stats r). cbn in *. lia.
  - rewrite (registered_core r2) by done. apply Hl2.
Qed.

(** A sighting with an address is registered; the others change nothing. *)
Lemma wp_AddOrUpdate r dev t1 t2 :
  reg_inv r → dv_MAC dev ≠ "" →
  wp (AddOrUpdate r (Some dev) t1 t2) (λ '(r', ol, new),
    let mac := normalizeMAC (dv_MAC dev) in
    new = bool_decide (view r !! mac = None) ∧
    ∃ l d', ol = Some l ∧ after_add (view r !! mac) dev mac t1 d' ∧ put_result r r' l mac d').
Proof.
  intros Hinv Hmac. unfold AddOrUpdate. rewrite bool_decide_eq_false_2 by done. cbn zeta.
  set (mac := normalizeMAC (dv_MAC dev)). pose proof (ri_index _ Hinv) as Hok.
  destruct (r_devices r !! mac) as [l|] eqn:E.
  - destruct (ix_device _ _ Hok _ _ E) as (d & Hd & Hdm).
    assert (registered r l d) as Hl by (split; [done|by rewrite Hdm]).
    rewrite lookup_view, E. cbn [mbind option_bind]. rewrite Hd.
    eapply wp_mono; [by apply (wp_update r l d)|]. intros [[r' ol] new] (-> & -> & d' & ? & ?).
    split; [by rewrite bool_decide_eq_false_2|]. by exists l, d'.
  - rewrite (proj2 (view_None r none mac Hok) E).
    eapply wp_mono; [by apply wp_first|]. intros [[r' ol] new] (-> & ?). done.
Qed.

(** ** Removing and expiring *)

Lemma wp_removeFromIndexes r l d :
  index_ok r none → registered r l d →
  wp (removeFromIndexes r d) (λ r1, same_core r r1 ∧
    index_ok (set_devices r1 (delete (dv_MAC d) (r_devices r1))) none).
Proof.
  intros Hok Hl. unfold removeFromIndexes. set (r1 := if bool_decide (dv_IP d = "") then r else _).
  assert (same_core r r1 ∧ r_byVendor r1 = r_byVendor r ∧
    ∀ ip x, r_byIP r1 !! ip = Some x → r_byIP r !! ip = Some x ∧ x ≠ l) as (Hc1 & Hv1 & Hi1).
  { assert (∀ ip, r_byIP r !! ip = Some l → ip ≠ "" ∧ dv_IP d = ip) as Hown.
    { intros ip Hip. destruct (ix_ip _ _ Hok _ _ Hip) as (? & dx & Hdx & ?). split; [done|].
      by rewrite <-(registered_fun _ _ _ _ Hl (proj1 Hdx)). }
    unfold r1. destruct (bool_decide_reflect (dv_IP d = "")); (split_and!; [done|done|]).
    - intros ip x Hx. split; [done|]. intros ->. destruct (Hown ip Hx). congruence.
    - intros ip x. cbn. rewrite lookup_delete_Some. intros [Hne Hx]. split; [done|].
      intros ->. destruct (Hown ip Hx). congruence. }
  clearbody r1. set (r2 := if bool_decide (dv_Hostname d = "") then r1 else _).
  assert (same_core r1 r2 ∧ r_byVendor r2 = r_byVendor r1 ∧ r_byIP r2 = r_byIP r1) as (Hc2 & Hv2 & Hi2)
    by (unfold r2; by destruct (bool_decide _)).
  clearbody r2.
  assert (same_core r r2) as Hc by (unfold same_core in *; intuition congruence).
  assert (index_ok r2 none) as Hok2.
  { split; unfold vlist; rewrite ?Hv2, ?Hv1, ?Hi2.
    - destruct Hc as (-> & -> & _). apply Hok.
    - intros ip x [Hx _]%Hi1. destruct (ix_ip _ _ Hok _ _ Hx) as (? & dx & ? & ?). split; [done|].
      exists dx. by rewrite (registered_core r).
    - apply Hok.
    - intros v x Hx. destruct (ix_vendor _ _ Hok _ _ Hx) as (dx & ? & ?). exists dx.
      by rewrite (registered_core r).
    - intros v x dx. rewrite (registered_core r) by done. apply (ix_vendor_all _ _ Hok). }
  assert (registered r2 l d) as Hl2 by (by rewrite (registered_core r)).
  eapply wp_mono; [by eapply wp_removeFromVendorIndex|].
  intros r3 (Hc3 & _ & Hi3 & Hn3 & Hv3). split; [unfold same_core in *; intuition congruence|].
  destruct Hc3 as (C1 & C2 & _).
  assert (∀ x dx, registered r2 x dx → x ≠ l →
    registered (set_devices r3 (delete (dv_MAC d) (r_devices r3))) x dx) as Hreg.
  { intros x dx Hx Hne. split; cbn; rewrite ?C1, ?C2; [apply Hx|].
    rewrite lookup_delete_ne; [apply Hx|]. intros Heq. apply Hne. by eapply registered_inj. }
  split.
  - cbn. rewrite C1, C2. intros mac x [_ Hx]%lookup_delete_Some. by apply Hok2.
  - cbn. rewrite Hi3, Hi2. intros ip x [Hx Hne]%Hi1.
    destruct (ix_ip _ _ Hok _ _ Hx) as (? & dx & Hdx & ?). split; [done|].
    exists dx. split; [|done]. apply Hreg; [|done]. by rewrite (registered_core r).
  - apply Hn3.
  - intros v x [Hx Hne]%Hv3. destruct (ix_vendor _ _ Hok2 _ _ Hx) as (dx & ? & ?).
    exists dx. split; [|done]. by apply Hreg.
  - intros v x dx [Hx1 Hx2] Hhv _. cbn in Hx1, Hx2. rewrite C1 in Hx1. rewrite C2 in Hx2.
    apply lookup_delete_Some in Hx2 as [Hne Hx2]. apply Hv3. split.
    + exact (ix_vendor_all _ _ Hok2 v x dx (conj Hx1 Hx2) Hhv (λ f, f)).
    + intros ->. rewrite (registered_fun _ _ _ _ Hl2 Hx1) in Hne. done.
Qed.

(** What a removal counts. *)
Definition removed_stats (s s' : RegistryStats) (d : DiscoveredDevice) : Prop :=
  TotalDevices s' = TotalDevices s - 1 ∧ AddCount s' = AddCount s ∧
  RemoveCount s' = RemoveCount s + 1 ∧ MultiConnected s' = MultiConnected s - multiZ (Some d).

Lemma removed_stats_spec s d : removed_stats s (count_remove (updateConnectionStats s d false)) d.
Proof.
  destruct (updateConnectionStats_spec s d false) as (S1 & S2 & S3 & S4 & S5).
  destruct (updateConnectionStats s d false). cbn in *. subst. split_and!; cbn; lia.
Qed.

Lemma removed_stats_touch s s' d t : removed_stats s s' d → removed_stats s (touch s' t) d.
Proof. by destruct s'. Qed.

(** What holds of [r'] when the device at [mac] has been taken out of [r]. *)
Definition drop_result (r r' : DeviceRegistry) (mac : string) : Prop :=
  reg_inv r' ∧ view r' = delete mac (view r) ∧ r_DeviceTTL r' = r_DeviceTTL r ∧ r_emit r' = r_emit r ∧
  AddCount (r_stats r') = AddCount (r_stats r) ∧ RemoveCount (r_stats r') = RemoveCount (r_stats r) + 1.

Lemma wp_drop r l d s mac :
  reg_inv r → registered r l d → dv_MAC d = mac → removed_stats (r_stats r) s d →
  wp (removeFromIndexes (set_stats r s) d) (λ r1,
    drop_result r (publish (set_devices r1 (delete mac (r_devices r1))) (EvLost mac)) mac).
Proof.
  intros [Hok Ht Hc Hm] Hl <- (S1 & S2 & S3 & S4).
  assert (index_ok (set_stats r s) none) as Hok' by (by eapply index_ok_ext, Hok).
  eapply wp_mono; [by apply (wp_removeFromIndexes _ l d)|].
  intros r1 ((C1 & C2 & C3 & C4 & C5) & Hok1). cbn in C1, C2, C3, C4, C5.
  unfold drop_result. set (r2 := set_devices r1 _).
  destruct (publish_fields r2 (EvLost (dv_MAC d))) as (_ & _ & _ & _ & -> & ->).
  assert (view r2 = delete (dv_MAC d) (view r)) as Hv.
  { apply map_eq. intros mac. rewrite lookup_view. cbn. rewrite C1, C2, !lookup_delete, lookup_view.
    by case_decide. }
  assert (view r !! dv_MAC d = Some d) as Hvd by (rewrite lookup_view, (proj2 Hl); apply Hl).
  assert (size (view r) ≠ 0%nat) as Hsz.
  { rewrite map_size_ne_0_lookup. eauto. }
  rewrite publish_stats, view_publish. cbn [r_stats r2 set_devices]. change (r_stats r2) with (r_stats r1).
  rewrite C3. split_and!; try done.
  split; rewrite ?publish_stats, ?view_publish; change (r_stats r2) with (r_stats r1); rewrite ?C3, ?Hv.
  - by apply index_publish.
  - rewrite map_size_delete_Some by eauto. lia.
  - lia.
  - rewrite count_multi_delete, Hvd. lia.
Qed.

Lemma wp_Remove r mac now :
  reg_inv r →
  wp (Remove r mac now) (λ '(r', found),
    found = bool_decide (is_Some (view r !! normalizeMAC mac)) ∧
    if found then drop_result r r' (normalizeMAC mac) else r' = r).
Proof.
  intros Hinv. unfold Remove. cbn zeta. set (m := normalizeMAC mac).
  pose proof (ri_index _ Hinv) as Hok. destruct (r_devices r !! m) as [l|] eqn:E.
  - destruct (ix_device _ _ Hok _ _ E) as (d & Hd & Hdm). rewrite Hd. cbn [mbind option_bind].
    eapply wp_bind_spec; [apply (wp_drop r l d _ m); [done|split; [done|by rewrite Hdm]|done|]|].
    + apply removed_stats_touch, removed_stats_spec.
    + intros r1 Hr1. apply wp_some. rewrite lookup_view, E. simpl. rewrite Hd.
      by rewrite bool_decide_eq_true_2 by eauto.
  - rewrite (proj2 (view_None r none m Hok) E). apply wp_some.
    by rewrite bool_decide_eq_false_2 by (by intros [? ?]).
Qed.

(** The loop of [ExpireStale] takes out the devices it is given. *)
Lemma wp_expire macs : ∀ r,
  reg_inv r → NoDup macs → (∀ mac, mac ∈ macs → is_Some (view r !! mac)) →
  wp (expire r macs) (λ r', reg_inv r' ∧ view r' = filter (λ p, p.1 ∉ macs) (view r) ∧
    r_DeviceTTL r' = r_DeviceTTL r ∧ r_emit r' = r_emit r ∧
    AddCount (r_stats r') = AddCount (r_stats r) ∧
    RemoveCount (r_stats r') = RemoveCount (r_stats r) + len macs).
Proof.
  induction macs as [|mac macs IH]; intros r Hinv Hnd Hin; cbn [expire].
  { apply wp_some. split_and!; [done| |done|done|done|unfold len; simpl; lia].
    symmetry. apply map_filter_id. intros i x _. apply not_elem_of_nil. }
  apply NoDup_cons in Hnd as [Hmac Hnd].
  destruct (Hin mac) as [d Hd]; [by left|].
  destruct (view_registered r none mac d (ri_index _ Hinv) Hd) as (l & Hl & Hdm).
  replace (r_devices r !! mac) with (Some l) by (rewrite <-Hdm; symmetry; apply Hl).
  cbn [mbind option_bind]. rewrite (proj1 Hl). cbn [mbind option_bind].
  eapply wp_bind_spec; [apply (wp_drop r l d _ mac); [done|done|done|apply removed_stats_spec]|].
  intros r1 (Hinv1 & Hv1 & Ht1 & He1 & Ha1 & Hr1). set (r2 := publish _ _) in *.
  eapply wp_mono; [apply IH; [done|done|]|].
  - intros m Hm. rewrite Hv1, lookup_delete_ne by (by intros ->). apply Hin. by right.
  - intros r' (Hinv' & Hv' & Ht' & He' & Ha' & Hr'). split_and!; [done| |congruence..|].
    + rewrite Hv', Hv1. apply map_eq. intros m. apply option_eq. intros x.
      rewrite !map_lookup_filter_Some, lookup_delete_Some. simpl. rewrite elem_of_cons. naive_solver.
    + rewrite Hr', Hr1. unfold len. cbn [length]. lia.
Qed.

Lemma wp_stale h cutoff l :
  (∀ mac x, (mac, x) ∈ l → is_Some (h !! x)) →
  wp (stale h cutoff l) (λ macs,
    (∀ mac, mac ∈ macs ↔ ∃ x d, (mac, x) ∈ l ∧ h !! x = Some d ∧ time_before (dv_LastSeen d) cutoff = true) ∧
    (NoDup l.*1 → NoDup macs)).
Proof.
  induction l as [|[m x] l IH]; intros Hl; cbn [stale].
  { apply wp_some. split; [|done]. intros mac. set_solver. }
  destruct (Hl m x) as [d Hd]; [by left|]. rewrite Hd. cbn [mbind option_bind].
  eapply wp_bind_spec; [apply IH; intros; eapply Hl; by right|].
  intros macs [Hin Hnd]. apply wp_some.
  assert (∀ mac, (∃ x0 d0, (mac, x0) ∈ (m, x) :: l ∧ h !! x0 = Some d0 ∧
      time_before (dv_LastSeen d0) cutoff = true) ↔
    (mac = m ∧ time_before (dv_LastSeen d) cutoff = true) ∨ mac ∈ macs) as Hex.
  { intros mac. rewrite Hin. setoid_rewrite elem_of_cons. naive_solver. }
  split.
  - intros mac. rewrite Hex. destruct (time_before _ _); [rewrite elem_of_cons|]; naive_solver.
  - cbn. rewrite NoDup_cons. intros [Hm Hl1]. destruct (time_before _ _); [|by apply Hnd].
    apply NoDup_cons. split; [|by apply Hnd]. intros (x0 & d0 & Hx0 & _)%Hin.
    apply Hm. apply list_elem_of_fmap. by exists (m, x0).
Qed.

Lemma reg_inv_empty r :
  r_devices r = ∅ → r_byIP r = ∅ → r_byVendor r = ∅ → r_stats r = stats_zero → reg_inv r.
Proof.
  intros H1 H2 H3 H4.
  assert (view r = ∅) as Hv by (unfold view; rewrite H1; apply omap_empty).
  split; rewrite ?H4, ?Hv; try done.
  split; unfold registered, vlist; rewrite ?H1, ?H2, ?H3.
  - intros mac l. by rewrite lookup_empty.
  - intros ip l. by rewrite lookup_empty.
  - intros v. rewrite lookup_empty. apply NoDup_nil_2.
  - intros v l. rewrite lookup_empty. by intros ?%not_elem_of_nil.
  - intros v l d [_ Hd]. by rewrite lookup_empty in Hd.
Qed.

Section ops.
Context `{!RangeOrder string}.

Lemma wp_ExpireStale r t1 t2 :
  reg_inv r →
  wp (ExpireStale r t1 t2) (λ '(r', n), reg_inv r' ∧
    view r' = filter (λ p, time_before (dv_LastSeen p.2) (time_add t1 (- r_DeviceTTL r)) = false) (view r) ∧
    n = Z.of_nat (size (view r)) - Z.of_nat (size (view r')) ∧
    r_DeviceTTL r' = r_DeviceTTL r ∧ r_emit r' = r_emit r).
Proof.
  intros Hinv. pose proof (ri_index _ Hinv) as Hok. unfold ExpireStale. set (cutoff := time_add _ _).
  eapply wp_bind_spec; [apply wp_stale|].
  { intros mac x Hx%elem_of_range. destruct (ix_device _ _ Hok _ _ Hx) as (d & -> & _). eauto. }
  intros macs [Hin Hnd].
  assert (NoDup macs) as Hnd'
    by (apply Hnd; rewrite range_perm; apply NoDup_fst_map_to_list).
  assert (∀ mac, mac ∈ macs ↔
    ∃ d, view r !! mac = Some d ∧ time_before (dv_LastSeen d) cutoff = true) as Hv.
  { intros mac. rewrite Hin. setoid_rewrite elem_of_range. setoid_rewrite lookup_view.
    setoid_rewrite bind_Some. naive_solver. }
  eapply wp_bind_spec; [apply wp_expire; [done|done|]|].
  { intros mac (d & Hd & _)%Hv. eauto. }
  intros r1 (Hinv1 & Hv1 & Ht1 & He1 & Ha1 & Hr1). apply wp_some.
  assert (view r1 = filter (λ p, time_before (dv_LastSeen p.2) cutoff = false) (view r)) as Heq.
  { rewrite Hv1. apply map_filter_ext. intros mac d Hd. simpl. rewrite Hv.
    rewrite <-not_true_iff_false. naive_solver. }
  assert (len macs = Z.of_nat (size (view r)) - Z.of_nat (size (view r1))) as Hn.
  { destruct Hinv as [_ A1 A2 _], Hinv1 as [_ B1 B2 _]. lia. }
  destruct (0 <? len macs); [|done].
  set (r2 := set_stats _ _). assert (view r2 = view r1) as -> by (by apply view_ext).
  split_and!; try done. destruct Hinv1 as [A1 A2 A3 A4]. split.
  - by eapply index_ok_ext, A1.
  - change (view r2) with (view r1). cbn. by destruct (r_stats r1).
  - cbn. by destruct (r_stats r1).
  - change (view r2) with (view r1). cbn. by destruct (r_stats r1).
Qed.

Lemma wp_reg_run r op :
  reg_inv r → wp (reg_run r op) (λ r', reg_inv r' ∧ r_DeviceTTL r' = r_DeviceTTL r).
Proof.
  intros Hinv. destruct op as [dev t1 t2|mac now|t1 t2|]; cbn [reg_run].
  - destruct dev as [dev|]; [|by apply wp_some].
    destruct (decide (dv_MAC dev = "")) as [He|He].
    { cbn [AddOrUpdate]. rewrite bool_decide_eq_true_2 by done. by apply wp_some. }
    eapply wp_bind_spec; [by apply wp_AddOrUpdate|].
    intros [[r' ol] new] (_ & l & d' & _ & _ & Hput). apply wp_some. split; apply Hput.
  - eapply wp_bind_spec; [by apply wp_Remove|]. intros [r' []] [_ Hr]; apply wp_some.
    + split; apply Hr.
    + by subst r'.
  - eapply wp_bind_spec; [by apply wp_ExpireStale|]. intros [r' n] Hr. apply wp_some. tauto.
  - apply wp_some. split; [by apply reg_inv_empty|done].
Qed.

Lemma wp_reg_runs ops : ∀ r,
  reg_inv r → wp (reg_runs r ops) (λ r', reg_inv r' ∧ r_DeviceTTL r' = r_DeviceTTL r).
Proof.
  induction ops as [|op ops IH]; intros r Hinv; cbn [reg_runs]; [by apply wp_some|].
  eapply wp_bind_spec; [by apply wp_reg_run|]. intros r1 [H1 H2].
  eapply wp_mono; [by apply IH|]. intros r2 [H3 H4]. split; [done|congruence].
Qed.


(** A sighting with an address is registered under the normalised
    address: a new device as it was seen, a known one with the sighting
    merged in (a non-empty field wins, lists only grow, flags are only
    raised) and its last-seen time renewed. No other device changes, and the
    device can be found under its address. *)
Theorem AddOrUpdate_spec r dev t1 t2 :
  reg_inv r → dv_MAC dev ≠ "" →
  let mac := normalizeMAC (dv_MAC dev) in
  wp (AddOrUpdate r (Some dev) t1 t2) (λ '(r', ol, new),
    reg_inv r' ∧ new = bool_decide (view r !! mac = None) ∧ GetDevice r' (dv_MAC dev) = ol ∧
    ∃ l d', ol = Some l ∧ after_add (view r !! mac) dev mac t1 d' ∧ view r' = <[mac := d']> (view r) ∧
      (dv_IP d' ≠ "" → GetDeviceByIP r' (dv_IP d') = Some l) ∧
      (dv_Vendor d' ≠ "" → l ∈ GetDevicesByVendor r' (dv_Vendor d'))).
Proof.
  intros Hinv Hmac. cbn zeta. eapply wp_mono; [by apply wp_AddOrUpdate|].
  intros [[r' ol] new] (-> & l & d' & -> & Hafter & Hinv' & Hl & Hdm & Hv & Hip & _).
  split_and!; [done|done| |].
  - unfold GetDevice. rewrite <-Hdm. apply Hl.
  - exists l, d'. split_and!; try done. intros Hne.
    exact (ix_vendor_all _ _ (ri_index _ Hinv') _ l d' Hl (conj Hne eq_refl) (λ f, f)).
Qed.

(** Expiry takes out exactly the devices last seen before the deadline
    and answers how many those were. *)
Theorem ExpireStale_spec r t1 t2 :
  reg_inv r →
  wp (ExpireStale r t1 t2) (λ '(r', n), reg_inv r' ∧
    n = Z.of_nat (size (view r)) - Z.of_nat (size (view r')) ∧
    ∀ mac d, view r' !! mac = Some d ↔
      view r !! mac = Some d ∧ t1 - r_DeviceTTL r ≤ dv_LastSeen d).
Proof.
  intros Hinv. eapply wp_mono; [by apply wp_ExpireStale|].
  intros [r' n] (Hinv' & Hv & Hn & _). split_and!; [done|done|]. intros mac d.
  rewrite Hv, map_lookup_filter_Some. simpl. unfold time_before, time_add. rewrite Z.ltb_ge. naive_solver lia.
Qed.

(** Removal takes out the device at the address and no other, and says
    whether there was one. *)
Theorem Remove_spec r mac now :
  reg_inv r →
  wp (Remove r mac now) (λ '(r', found), reg_inv r' ∧
    found = bool_decide (is_Some (view r !! normalizeMAC mac)) ∧
    view r' = delete (normalizeMAC mac) (view r) ∧ GetDevice r' mac = None).
Proof.
  intros Hinv. eapply wp_mono; [by apply wp_Remove|].
  assert (∀ r', reg_inv r' → view r' = delete (normalizeMAC mac) (view r) → GetDevice r' mac = None) as Hget.
  { intros r' Hr' Hv. apply (view_None r' none); [apply Hr'|]. rewrite Hv. apply lookup_delete_eq. }
  intros [r' found] [Hf Hr]. destruct found.
  - destruct Hr as (Hi & Hv & _). split_and!; [done|done|done|by apply Hget].
  - subst r'. symmetry in Hf. apply bool_decide_eq_false in Hf.
    rewrite <-eq_None_not_Some in Hf.
    assert (view r = delete (normalizeMAC mac) (view r)) as Hd by (by rewrite delete_id).
    split_and!; [done|by rewrite Hf|done|by apply Hget].
Qed.
End ops.
End registry.

(** ** Concrete runs *)

(** A device with an address, an IP, a host name, a vendor and connections. *)
Definition dev0 (mac ip host vendor : string) (types : list ConnectionType) : @DiscoveredDevice unit :=
  MkDevice ip [] mac host "" "" vendor "" [] time_zero false false None None None None None None None None
    types None None.

Lemma reg_inv_new ttl emit : reg_inv (NewDeviceRegistry (I := unit) ttl emit).
Proof. by apply reg_inv_empty. Qed.

Lemma AddOrUpdate_spec_witness :
  let dev := dev0 "aa-bb" "10.0.0.1" "Host" "Acme" [ConnectionWired] in
  dv_MAC dev ≠ "" ∧
  wp (AddOrUpdate (NewDeviceRegistry 60 true) (Some dev) 5 6) (λ '(r', ol, new),
    reg_inv r' ∧ new = true ∧ GetDevice r' "aa-bb" = ol ∧ is_Some (view r' !! "AA:BB")).
Proof.
  cbn zeta. split; [by vm_compute|].
  refine (wp_mono _ _ _ (AddOrUpdate_spec (NewDeviceRegistry 60 true)
    (dev0 "aa-bb" "10.0.0.1" "Host" "Acme" [ConnectionWired]) 5 6 (reg_inv_new 60 true) _) _); [by vm_compute|].
  intros [[r' ol] new] (H1 & H2 & H3 & l & d' & H4 & H5 & H6 & H7).
  split; [exact H1|]. split; [rewrite H2; vm_compute; reflexivity|]. split; [exact H3|].
  rewrite H6. exists d'. apply lookup_insert_eq.
Defined.

(** A registry with that device. *)
Definition dev1 : @DiscoveredDevice unit :=
  dv_set_LastSeen (dev0 "AA:BB" "10.0.0.1" "Host" "Acme" [ConnectionWired]) 5.

Definition reg1 : @DeviceRegistry unit :=
  default (NewDeviceRegistry 60 true) (reg_runs (NewDeviceRegistry 60 true)
    [OpAdd (Some (dev0 "aa-bb" "10.0.0.1" "Host" "Acme" [ConnectionWired])) 5 6]).

Lemma reg_inv_reg1 : reg_inv reg1.
Proof.
  unfold reg1. set (ops := [_]).
  destruct (wp_elim _ _ (wp_reg_runs ops _ (reg_inv_new 60 true))) as (r & Hr & Hinv & _).
  rewrite Hr. exact Hinv.
Qed.

Lemma view_reg1 : view reg1 = {[ "AA:BB" := dev1 ]}.
Proof. by vm_compute. Qed.

Lemma ttl_reg1 : r_DeviceTTL reg1 = 60.
Proof. by vm_compute. Qed.

Lemma ExpireStale_spec_witness :
  wp (ExpireStale reg1 100 101) (λ '(r', n), reg_inv r' ∧ n = 1 ∧ view r' = ∅).
Proof.
  refine (wp_mono _ _ _ (ExpireStale_spec reg1 100 101 reg_inv_reg1) _).
  intros [r' n] (H1 & H2 & H3). split; [exact H1|].
  assert (view r' = ∅) as Hv.
  { apply map_eq. intros mac. apply option_eq. intros d.
    rewrite H3, view_reg1, lookup_singleton_Some, lookup_empty. split; [|done].
    intros [[_ <-] Hd]. rewrite ttl_reg1 in Hd. cbn in Hd. lia. }
  split; [|exact Hv]. rewrite H2, Hv, view_reg1. by rewrite map_size_singleton.
Defined.

Lemma Remove_spec_witness :
  wp (Remove reg1 "aa-bb" 7) (λ '(r', found), reg_inv r' ∧ found = true ∧ view r' = ∅).
Proof.
  refine (wp_mono _ _ _ (Remove_spec reg1 "aa-bb" 7 reg_inv_reg1) _).
  intros [r' n] (H1 & H2 & H3 & _). rewrite view_reg1 in H2, H3. split; [exact H1|].
  split; [rewrite H2; by vm_compute|]. rewrite H3. by vm_compute.
Defined.

(** A sighting with another host name leaves the old one in the host-name
    index, and removing the device does not take it out: the lookup answers
    with a device that is not registered. *)
Example stale_hostname :
  match reg_runs (NewDeviceRegistry 60 false)
    [OpAdd (Some (dev0 "aa" "" "old" "" [])) 1 1; OpAdd (Some (dev0 "aa" "" "new" "" [])) 2 2;
     OpRemove "aa" 3] with
  | Some r => GetDevice r "aa" = None ∧ is_Some (GetDeviceByHostname r "old")
  | None => False
  end.
Proof. vm_compute. eauto. Qed.

(** The per-type counters miss the types a merge adds, yet a removal takes
    them off: they go below zero. *)
Example negative_wired :
  match reg_runs (NewDeviceRegistry 60 false)
    [OpAdd (Some (dev0 "aa" "" "" "" [])) 1 1; OpAdd (Some (dev0 "aa" "" "" "" [ConnectionWired])) 2 2;
     OpRemove "aa" 3] with
  | Some r => WiredDevices (r_stats r) = -1 ∧ Count r = 0
  | None => False
  end.
Proof. vm_compute. done. Qed.

(** Removing a device takes its address out of the index even when the
    entry is another device's by then. *)
Example stolen_address :
  match reg_runs (NewDeviceRegistry 60 false)
    [OpAdd (Some (dev0 "aa" "10.0.0.1" "" "" [])) 1 1; OpAdd (Some (dev0 "bb" "10.0.0.1" "" "" [])) 2 2;
     OpRemove "aa" 3] with
  | Some r => is_Some (GetDevice r "bb") ∧ GetDeviceByIP r "10.0.0.1" = None
  | None => False
  end.
Proof. vm_compute. eauto. Qed.
