(* ===== verification/Bus.v ===== *)
(** * The event bus (src/internal/platform/events/events.go)

    Publishers, subscribers, cancellations and the shutdown run on their own
    goroutines. Each critical section of the code, under the mutex of the bus
    or of one subscription, is a step of a relation on [World]; a publication
    or a shutdown is a sequence of such steps, which those of others may
    interleave with. *)
From Stdlib Require Import ZArith Lia.
From stdpp Require Import base gmap sets list strings relations.
From S2P Require Import Prelude GoBase.

(** Events and the topic each is routed on. *)
Class Event (E : Type) : Type := Topic : E → string.

(** A subscription by its address. *)
Abbreviation sid := nat.

Section bus.
Context {E : Type} `{!Event E}.

(** [subscription] with its worker: [sb_current] is the event whose handler
    is running, [sb_exited] that the worker has returned, [sb_cancelled] that
    the cancel function has run. The last three fields are history: the
    events handled, those put into the queue, and those a publication took
    the subscription as a target for. *)
Record subscription : Type := MkSub {
  sb_topic : string;
  sb_queue : list E;
  sb_stopped : bool;
  sb_current : option E;
  sb_exited : bool;
  sb_cancelled : bool;
  sb_handled : list E;
  sb_accepted : list E;
  sb_owed : list E;
}.

(** [Bus], with the subscriptions it has made and the calls under way:
    publications with the targets they have yet to reach, and subscriptions
    yet to be stopped. *)
Record World : Type := MkWorld {
  b_subs : gmap string (list sid);
  b_closed : bool;
  b_wg : Z;
  w_heap : gmap sid subscription;
  w_next : sid;
  w_pubs : list (E * list sid);
  w_stops : list sid;
}.

(** [New] *)
Definition New : World := MkWorld ∅ false 0 ∅ 0 [] [].

Definition set_subs (w : World) (m : gmap string (list sid)) : World :=
  MkWorld m (b_closed w) (b_wg w) (w_heap w) (w_next w) (w_pubs w) (w_stops w).
Definition set_heap (w : World) (h : gmap sid subscription) : World :=
  MkWorld (b_subs w) (b_closed w) (b_wg w) h (w_next w) (w_pubs w) (w_stops w).
Definition set_pubs (w : World) (l : list (E * list sid)) : World :=
  MkWorld (b_subs w) (b_closed w) (b_wg w) (w_heap w) (w_next w) l (w_stops w).
Definition set_stops (w : World) (l : list sid) : World :=
  MkWorld (b_subs w) (b_closed w) (b_wg w) (w_heap w) (w_next w) (w_pubs w) l.
Definition set_wg (w : World) (n : Z) : World :=
  MkWorld (b_subs w) (b_closed w) n (w_heap w) (w_next w) (w_pubs w) (w_stops w).

(** [Bus.Subscribe] up to the start of the worker. *)
Definition Subscribe (w : World) (topic : string) : World :=
  if b_closed w then w
  else
    let sub := MkSub topic [] false None false false [] [] [] in
    MkWorld (<[topic := default [] (b_subs w !! topic) ++ [w_next w]]> (b_subs w)) (b_closed w)
      (b_wg w + 1) (<[w_next w := sub]> (w_heap w)) (S (w_next w)) (w_pubs w) (w_stops w).

Definition owe (ev : E) (s : subscription) : subscription :=
  MkSub (sb_topic s) (sb_queue s) (sb_stopped s) (sb_current s) (sb_exited s) (sb_cancelled s)
    (sb_handled s) (sb_accepted s) (sb_owed s ++ [ev]).

(** The critical section of [Bus.Publish]: the targets are copied. *)
Definition Publish (w : World) (ev : E) : World :=
  if b_closed w then w
  else
    let targets := default [] (b_subs w !! Topic ev) in
    set_pubs (set_heap w (foldl (λ h s, alter (owe ev) s h) (w_heap w) targets))
      (w_pubs w ++ [(ev, targets)]).

(** [subscription.enqueue] *)
Definition enqueue (ev : E) (s : subscription) : subscription :=
  if negb (sb_stopped s)
  then MkSub (sb_topic s) (sb_queue s ++ [ev]) (sb_stopped s) (sb_current s) (sb_exited s)
         (sb_cancelled s) (sb_handled s) (sb_accepted s ++ [ev]) (sb_owed s)
  else s.

(** [subscription.stop] *)
Definition stop (s : subscription) : subscription :=
  MkSub (sb_topic s) (sb_queue s) true (sb_current s) (sb_exited s) (sb_cancelled s)
    (sb_handled s) (sb_accepted s) (sb_owed s).

Definition cancelled (s : subscription) : subscription :=
  MkSub (sb_topic s) (sb_queue s) (sb_stopped s) (sb_current s) (sb_exited s) true
    (sb_handled s) (sb_accepted s) (sb_owed s).

(** [append(subs[:i], subs[i+1:]...)] at the first [target]. *)
Fixpoint remove_first (target : sid) (l : list sid) : list sid :=
  match l with
  | [] => []
  | s :: l => if decide (s = target) then l else s :: remove_first target l
  end.

(** [Bus.unsubscribe] before it stops the worker, as [once.Do] runs it. *)
Definition unsubscribe (w : World) (target : sid) : World :=
  match w_heap w !! target with
  | Some s =>
      if sb_cancelled s then w
      else
        let subs := default [] (b_subs w !! sb_topic s) in
        let m := if decide (target ∈ subs) then <[sb_topic s := remove_first target subs]> (b_subs w)
                 else b_subs w in
        set_stops (set_heap (set_subs w m) (<[target := cancelled s]> (w_heap w)))
          (w_stops w ++ [target])
  | None => w
  end.

(** [Bus.Close] before it stops the workers. *)
Definition Close (w : World) : World :=
  if b_closed w then w
  else MkWorld ∅ true (b_wg w) (w_heap w) (w_next w) (w_pubs w)
         (w_stops w ++ concat (map_to_list (b_subs w)).*2).

(** [Bus.run]: the worker takes the next event, when there is one. *)
Definition take (s : subscription) : option subscription :=
  match sb_exited s, sb_current s, sb_queue s with
  | false, None, ev :: queue =>
      Some (MkSub (sb_topic s) queue (sb_stopped s) (Some ev) (sb_exited s) (sb_cancelled s)
              (sb_handled s) (sb_accepted s) (sb_owed s))
  | _, _, _ => None
  end.

(** [Bus.deliver] returns: the handler returned or its panic was recovered. *)
Definition delivered (s : subscription) : option subscription :=
  match sb_current s with
  | Some ev =>
      Some (MkSub (sb_topic s) (sb_queue s) (sb_stopped s) None (sb_exited s) (sb_cancelled s)
              (sb_handled s ++ [ev]) (sb_accepted s) (sb_owed s))
  | None => None
  end.

(** [Bus.run] returns: stopped and drained. *)
Definition exit (s : subscription) : option subscription :=
  match sb_exited s, sb_current s, sb_queue s, sb_stopped s with
  | false, None, [], true =>
      Some (MkSub (sb_topic s) [] true None true (sb_cancelled s)
              (sb_handled s) (sb_accepted s) (sb_owed s))
  | _, _, _, _ => None
  end.

(** One step of any goroutine. *)
Inductive step (w : World) : World → Prop :=
| step_subscribe topic : step w (Subscribe w topic)
| step_publish ev : step w (Publish w ev)
| step_enqueue l1 ev s targets l2 :
    w_pubs w = l1 ++ (ev, s :: targets) :: l2 →
    step w (set_pubs (set_heap w (alter (enqueue ev) s (w_heap w))) (l1 ++ (ev, targets) :: l2))
| step_published l1 ev l2 :
    w_pubs w = l1 ++ (ev, []) :: l2 → step w (set_pubs w (l1 ++ l2))
| step_unsubscribe target : step w (unsubscribe w target)
| step_close : step w (Close w)
| step_stop l1 s l2 :
    w_stops w = l1 ++ s :: l2 →
    step w (set_stops (set_heap w (alter stop s (w_heap w))) (l1 ++ l2))
| step_take s x x' :
    w_heap w !! s = Some x → take x = Some x' → step w (set_heap w (<[s := x']> (w_heap w)))
| step_delivered s x x' :
    w_heap w !! s = Some x → delivered x = Some x' → step w (set_heap w (<[s := x']> (w_heap w)))
| step_exit s x x' :
    w_heap w !! s = Some x → exit x = Some x' →
    step w (set_wg (set_heap w (<[s := x']> (w_heap w))) (b_wg w - 1)).

Definition steps : World → World → Prop := rtc step.
Definition reachable (w : World) : Prop := steps New w.

(** [Close] returns nil: [wg.Wait] has returned. *)
Definition drained (w : World) : Prop := b_closed w = true ∧ b_wg w = 0.

(** ** The invariant *)

(** The events a publication under way has yet to put into [s]. *)
Definition in_flight (pubs : list (E * list sid)) (s : sid) : list E :=
  concat ((λ p : E * list sid, (λ _, p.1) <$> filter (λ t, t = s) p.2) <$> pubs).

Definition listed (w : World) (t : string) : list sid := default [] (b_subs w !! t).

Record sub_ok (pubs : list (E * list sid)) (s : sid) (x : subscription) : Prop := {
  so_accepted : sb_accepted x = sb_handled x ++ option_list (sb_current x) ++ sb_queue x;
  so_exited : sb_exited x = true → sb_current x = None ∧ sb_queue x = [] ∧ sb_stopped x = true;
  so_topic : ∀ ev, ev ∈ sb_accepted x → Topic ev = sb_topic x;
  so_owed : sb_stopped x = false → sb_owed x ≡ₚ sb_accepted x ++ in_flight pubs s;
}.

Definition working (x : subscription) : nat := if sb_exited x then 0 else 1.

Record world_ok (w : World) : Prop := {
  wo_subs : ∀ s x, w_heap w !! s = Some x → (s < w_next w)%nat ∧ sub_ok (w_pubs w) s x;
  wo_listed : ∀ t s, s ∈ listed w t → ∃ x, w_heap w !! s = Some x ∧ sb_topic x = t ∧
    sb_stopped x = false ∧ sb_cancelled x = false ∧ s ∉ w_stops w;
  wo_nodup : ∀ t, NoDup (listed w t);
  wo_open : b_closed w = false → ∀ s x, w_heap w !! s = Some x → sb_cancelled x = false →
    s ∈ listed w (sb_topic x);
  wo_closed : b_closed w = true → b_subs w = ∅;
  wo_stopping : ∀ s x, w_heap w !! s = Some x → sb_stopped x = false →
    s ∈ listed w (sb_topic x) ∨ s ∈ w_stops w;
  wo_targets : ∀ ev ts t, (ev, ts) ∈ w_pubs w → t ∈ ts →
    ∃ x, w_heap w !! t = Some x ∧ sb_topic x = Topic ev;
  wo_stops : ∀ s, s ∈ w_stops w → is_Some (w_heap w !! s);
  wo_wg : b_wg w = Z.of_nat (msum working (w_heap w));
}.

Lemma in_flight_app l1 l2 s : in_flight (l1 ++ l2) s = in_flight l1 s ++ in_flight l2 s.
Proof. unfold in_flight. by rewrite fmap_app, concat_app. Qed.

Lemma in_flight_cons ev ts l s :
  in_flight ((ev, ts) :: l) s = ((λ _, ev) <$> filter (λ t, t = s) ts) ++ in_flight l s.
Proof. done. Qed.

(** A step of one subscription, with the calls it belongs to. *)
Lemma ok_update w s x x' wg' pubs' stops' :
  world_ok w → w_heap w !! s = Some x →
  sb_topic x' = sb_topic x → sb_cancelled x' = sb_cancelled x →
  (sb_stopped x' = sb_stopped x ∧ stops' = w_stops w ∨
   sb_stopped x' = true ∧ s ∈ w_stops w ∧ (∀ t, t ∈ stops' → t ∈ w_stops w) ∧
   ∀ t, t ≠ s → t ∈ w_stops w → t ∈ stops') →
  sub_ok pubs' s x' →
  (∀ t, t ≠ s → in_flight pubs' t = in_flight (w_pubs w) t) →
  (∀ ev ts t, (ev, ts) ∈ pubs' → t ∈ ts → ∃ ts', (ev, ts') ∈ w_pubs w ∧ t ∈ ts') →
  wg' = b_wg w + Z.of_nat (working x') - Z.of_nat (working x) →
  world_ok (MkWorld (b_subs w) (b_closed w) wg' (<[s := x']> (w_heap w)) (w_next w) pubs' stops').
Proof.
  intros [H1 H2 H3 H4 H5 H6 H7 H8 H9] Hs Ht Hc Hst Hok Hfl Htg ->.
  split; unfold listed; cbn; try done.
  - intros t y [[<- <-]|[Hne Hy]]%lookup_insert_Some; [by split; [apply (H1 _ _ Hs)|]|].
    destruct (H1 _ _ Hy) as [? [A1 A2 A3 A4]]. split; [done|]. split; [done..|].
    by rewrite Hfl by done.
  - intros t u Hu. destruct (H2 t u Hu) as (y & Hy & E1 & E2 & E3 & E4).
    destruct (decide (s = u)) as [<-|Hne].
    + exists x'. rewrite lookup_insert_eq. simplify_eq.
      destruct Hst as [[-> ->]|(_ & Hin & _)]; [|done]. by rewrite Ht, Hc.
    + exists y. rewrite lookup_insert_ne by done. split_and!; try done.
      destruct Hst as [[_ ->]|(_ & _ & Hsub & _)]; [done|]. intros ?%Hsub. done.
  - intros Hop t y [[<- <-]|[Hne Hy]]%lookup_insert_Some Hy'; [|by apply H4].
    rewrite Ht. apply H4; [done|done|congruence].
  - intros t y [[<- <-]|[Hne Hy]]%lookup_insert_Some Hy'.
    + destruct Hst as [[Heq ->]|[? _]]; [|congruence]. rewrite Ht. apply H6; [done|congruence].
    + destruct (H6 _ _ Hy Hy') as [?|Hin]; [by left|right].
      destruct Hst as [[_ ->]|(_ & _ & _ & Hin')]; [done|]. by apply Hin'.
  - intros ev ts t Hp Hts. destruct (Htg _ _ _ Hp Hts) as (ts' & Hp' & Hts').
    destruct (H7 _ _ _ Hp' Hts') as (y & Hy & Hty). destruct (decide (s = t)) as [<-|Hne].
    + exists x'. rewrite lookup_insert_eq. simplify_eq. by rewrite Ht.
    + exists y. by rewrite lookup_insert_ne.
  - intros t Hin. destruct (decide (s = t)) as [<-|Hne]; [rewrite lookup_insert_eq; eauto|].
    rewrite lookup_insert_ne by done. apply H8.
    destruct Hst as [[_ ->]|(_ & _ & Hsub & _)]; [done|by apply Hsub].
  - rewrite H9. pose proof (msum_insert_Some working _ _ x' _ Hs). lia.
Qed.

Lemma alter_present {A} (f : A → A) (m : gmap sid A) s x :
  m !! s = Some x → alter f s m = <[s := f x]> m.
Proof.
  intros Hs. apply map_eq. intros t. destruct (decide (s = t)) as [<-|Hne].
  - by rewrite lookup_alter_eq, lookup_insert_eq, Hs.
  - by rewrite lookup_alter_ne, lookup_insert_ne.
Qed.

Lemma remove_first_spec target l :
  NoDup l → NoDup (remove_first target l) ∧ ∀ s, s ∈ remove_first target l ↔ s ∈ l ∧ s ≠ target.
Proof.
  induction 1 as [|s l Hs Hl [IH1 IH2]]; cbn [remove_first]; [split; [constructor|set_solver]|].
  destruct (decide (s = target)) as [->|Hne].
  - split; [done|]. intros t. rewrite elem_of_cons. split; [|naive_solver].
    intros Ht. split; [by right|]. by intros ->.
  - split; [apply NoDup_cons; split; [rewrite IH2; naive_solver|done]|].
    intros t. rewrite !elem_of_cons, IH2. naive_solver.
Qed.

Lemma New_ok : world_ok New.
Proof.
  split; unfold listed; cbn; try done.
  - intros t s. rewrite lookup_empty. by intros ?%not_elem_of_nil.
  - intros t. rewrite lookup_empty. apply NoDup_nil_2.
  - intros ev ts t Hp. by apply not_elem_of_nil in Hp.
  - intros s Hs. by apply not_elem_of_nil in Hs.
Qed.

Lemma Subscribe_ok w topic : world_ok w → world_ok (Subscribe w topic).
Proof.
  intros Hok. unfold Subscribe. destruct (b_closed w) eqn:Hopen; [done|].
  destruct Hok as [H1 H2 H3 H4 H5 H6 H7 H8 H9]. rewrite Hopen in *.
  set (x := MkSub topic [] false None false false [] [] []).
  assert (w_heap w !! w_next w = None) as Hnew.
  { apply eq_None_not_Some. intros [y Hy]. destruct (H1 _ _ Hy). lia. }
  assert (∀ t y, w_heap w !! t = Some y → t ≠ w_next w) as Hold by (intros t y Ht ->; congruence).
  assert (∀ t, default [] (<[topic := listed w topic ++ [w_next w]]> (b_subs w) !! t)
    = if decide (topic = t) then listed w t ++ [w_next w] else listed w t) as Hl.
  { intros t. case_decide as Ht; [by rewrite <-Ht, lookup_insert_eq|by rewrite lookup_insert_ne]. }
  split; cbn; try done.
  - intros s y [[<- <-]|[_ Hy]]%lookup_insert_Some.
    + split; [lia|]. split; cbn; [done|done|by intros ev ?%not_elem_of_nil|]. intros _.
      assert (in_flight (w_pubs w) (w_next w) = []) as ->; [|done].
      assert (∀ ev ts, (ev, ts) ∈ w_pubs w → w_next w ∉ ts) as Hno.
      { intros ev ts Hp Hin. destruct (H7 _ _ _ Hp Hin) as (y & Hy & _). by apply Hold in Hy. }
      revert Hno. generalize (w_pubs w). clear. intros l Hno. induction l as [|[ev ts] l IH]; [done|].
      rewrite in_flight_cons, IH by (intros; eapply Hno; by right).
      rewrite app_nil_r. assert (w_next w ∉ ts) as Hts by (eapply Hno; by left).
      induction ts as [|t ts IHt]; [done|]. cbn. rewrite decide_False by set_solver.
      apply IHt; [|set_solver]. intros ev' ts' [[= -> ->]|Hin]%elem_of_cons; [set_solver|].
      apply (Hno ev' ts'). by right.
    + destruct (H1 _ _ Hy). split; [lia|done].
  - intros t s. unfold listed at 1. cbn. rewrite Hl. intros Hs.
    assert (s ∈ listed w t ∨ s = w_next w ∧ topic = t) as [Hs'|[-> <-]].
    { destruct (decide (topic = t)); set_solver. }
    + destruct (H2 t s Hs') as (y & Hy & ?). exists y. rewrite lookup_insert_ne; [done|].
      intros Heq. by eapply Hold.
    + exists x. rewrite lookup_insert_eq. split_and!; try done. intros [y Hy]%H8. by eapply Hold.
  - intros t. unfold listed at 1. cbn. rewrite Hl. destruct (decide (topic = t)) as [->|]; [|done].
    apply NoDup_app. split_and!; [done| |apply NoDup_singleton].
    intros s Hs ->%list_elem_of_singleton. destruct (H2 _ _ Hs) as (y & Hy & _). by eapply Hold.
  - intros _ s y. unfold listed at 1. cbn. rewrite Hl. intros [[<- <-]|[_ Hy]]%lookup_insert_Some Hc.
    + cbn. rewrite decide_True by done. set_solver.
    + specialize (H4 eq_refl _ _ Hy Hc). destruct (decide _); set_solver.
  - intros s y. unfold listed at 1. cbn. rewrite Hl. intros [[<- <-]|[_ Hy]]%lookup_insert_Some Hc.
    + left. cbn. rewrite decide_True by done. set_solver.
    + destruct (H6 _ _ Hy Hc); [left|by right]. destruct (decide _); set_solver.
  - intros ev ts t Hp Ht. destruct (H7 _ _ _ Hp Ht) as (y & Hy & ?). exists y.
    rewrite lookup_insert_ne; [done|]. intros Heq. by eapply Hold.
  - intros s [y Hy]%H8. destruct (decide (w_next w = s)) as [<-|]; [rewrite lookup_insert_eq; eauto|].
    rewrite lookup_insert_ne by done. eauto.
  - rewrite msum_insert_None by done. cbn [working x sb_exited]. lia.
Qed.

(** The copied targets owe the event. *)
Lemma lookup_owe ev targets (h : gmap sid subscription) s :
  NoDup targets →
  foldl (λ h s, alter (owe ev) s h) h targets !! s =
    if decide (s ∈ targets) then owe ev <$> h !! s else h !! s.
Proof.
  intros Hn. revert h. induction Hn as [|t targets Ht _ IH]; intros h; [done|].
  cbn [foldl]. rewrite IH. destruct (decide (s = t)) as [->|Hne].
  - rewrite decide_False by done. rewrite decide_True by (by left). by rewrite lookup_alter_eq.
  - rewrite lookup_alter_ne by done. destruct (decide (s ∈ targets)) as [Hin|Hin].
    + by rewrite decide_True by (by right).
    + rewrite decide_False; [done|]. by intros [|]%elem_of_cons.
Qed.

Lemma msum_owe ev targets (h : gmap sid subscription) :
  msum working (foldl (λ h s, alter (owe ev) s h) h targets) = msum working h.
Proof.
  revert h. induction targets as [|t targets IH]; intros h; [done|]. cbn [foldl]. rewrite IH.
  destruct (h !! t) as [x|] eqn:Ht.
  - rewrite (alter_present _ _ _ _ Ht). pose proof (msum_insert_Some working _ _ (owe ev x) _ Ht).
    change (working (owe ev x)) with (working x) in *. lia.
  - f_equal. apply map_eq. intros u. destruct (decide (t = u)) as [<-|].
    + by rewrite lookup_alter_eq, Ht.
    + by rewrite lookup_alter_ne.
Qed.

Lemma filter_eq_NoDup (s : sid) ts :
  NoDup ts → filter (λ t, t = s) ts = if decide (s ∈ ts) then [s] else [].
Proof.
  induction 1 as [|t ts Ht _ IH]; [done|]. rewrite filter_cons, IH. destruct (decide (t = s)) as [->|Hne].
  - rewrite decide_False by done. by rewrite decide_True by (by left).
  - destruct (decide (s ∈ ts)) as [Hin|Hin]; [by rewrite decide_True by (by right)|].
    rewrite decide_False; [done|]. intros [->|]%elem_of_cons; done.
Qed.

Lemma Publish_ok w ev : world_ok w → world_ok (Publish w ev).
Proof.
  intros Hok. unfold Publish. destruct (b_closed w) eqn:Hopen; [done|].
  destruct Hok as [H1 H2 H3 H4 H5 H6 H7 H8 H9].
  change (default [] (b_subs w !! Topic ev)) with (listed w (Topic ev)).
  set (targets := listed w (Topic ev)). set (h := foldl _ _ _).
  assert (∀ s, h !! s = if decide (s ∈ targets) then owe ev <$> w_heap w !! s else w_heap w !! s) as Hh
    by (intros; apply lookup_owe, H3).
  assert (∀ s y, h !! s = Some y → ∃ x, w_heap w !! s = Some x ∧ y = (if decide (s ∈ targets) then owe ev x else x))
    as Hback.
  { intros s y. rewrite Hh. destruct (decide (s ∈ targets)); [|eauto].
    intros (x & -> & ?)%fmap_Some. eauto. }
  assert (∀ s x, w_heap w !! s = Some x → h !! s = Some (if decide (s ∈ targets) then owe ev x else x)) as Hfwd.
  { intros s x Hx. rewrite Hh, Hx. by destruct (decide _). }
  assert (msum working h = msum working (w_heap w)) as Hsum by apply msum_owe.
  clearbody h.
  split; unfold listed; cbn; try done.
  - intros s y (x & Hx & ->)%Hback. destruct (H1 _ _ Hx) as [? [A1 A2 A3 A4]]. split; [done|].
    destruct (decide (s ∈ targets)) as [Hin|Hin]; split; cbn; try done;
      intros Hs; rewrite in_flight_app, in_flight_cons, filter_eq_NoDup by apply H3;
      rewrite A4 by done; [rewrite decide_True by done|rewrite decide_False by done]; cbn;
      by rewrite ?app_nil_r, ?app_assoc.
  - intros t s Hs. destruct (H2 t s Hs) as (x & Hx & ?). eexists. split; [by apply Hfwd|].
    by destruct (decide _).
  - intros _ s y (x & Hx & ->)%Hback. destruct (decide _); cbn; by apply H4.
  - intros s y (x & Hx & ->)%Hback. destruct (decide _); cbn; by apply H6.
  - intros ev' ts t. rewrite elem_of_app, list_elem_of_singleton. intros [Hp|[= -> ->]] Ht.
    + destruct (H7 _ _ _ Hp Ht) as (x & Hx & ?). eexists. split; [by apply Hfwd|]. by destruct (decide _).
    + destruct (H2 _ _ Ht) as (x & Hx & ? & _). eexists. split; [by apply Hfwd|]. by destruct (decide _).
  - intros s [x Hx]%H8. erewrite Hfwd by done. eauto.
  - by rewrite Hsum.
Qed.

Lemma unsubscribe_ok w target : world_ok w → world_ok (unsubscribe w target).
Proof.
  intros Hok. unfold unsubscribe. destruct (w_heap w !! target) as [x|] eqn:Hx; [|done].
  destruct (sb_cancelled x) eqn:Hcx; [done|].
  destruct Hok as [H1 H2 H3 H4 H5 H6 H7 H8 H9].
  change (default [] (b_subs w !! sb_topic x)) with (listed w (sb_topic x)).
  set (m := if decide _ then _ else _).
  assert (∀ t, NoDup (default [] (m !! t)) ∧
    ∀ s, s ∈ default [] (m !! t) ↔ s ∈ listed w t ∧ s ≠ target) as Hm.
  { assert (∀ t, target ∈ listed w t → t = sb_topic x) as Hown.
    { intros t Ht. destruct (H2 _ _ Ht) as (y & Hy & <- & _). congruence. }
    intros t. unfold m. destruct (decide (target ∈ listed w (sb_topic x))) as [Hin|Hno].
    - destruct (remove_first_spec target _ (H3 (sb_topic x))) as [R1 R2].
      destruct (decide (sb_topic x = t)) as [<-|Hne]; [by rewrite lookup_insert_eq|].
      rewrite lookup_insert_ne by done. split; [apply H3|]. intros s.
      split; [|tauto]. intros Hs. split; [done|]. intros ->. by apply Hown in Hs.
    - split; [apply H3|]. intros s. split; [|tauto]. intros Hs. split; [done|]. intros ->.
      apply Hno. by rewrite <-(Hown _ Hs). }
  assert (b_closed w = true → m = ∅) as Hmc.
  { intros Hcl. unfold m, listed. rewrite H5, lookup_empty by done. by rewrite decide_False by apply not_elem_of_nil. }
  clearbody m. assert (∀ t, NoDup (default [] (m !! t))) as Hm1 by apply Hm.
  assert (∀ t s, s ∈ default [] (m !! t) ↔ s ∈ listed w t ∧ s ≠ target) as Hm2 by apply Hm.
  assert (∀ s y, <[target := cancelled x]> (w_heap w) !! s = Some y →
    ∃ z, w_heap w !! s = Some z ∧ y = if decide (s = target) then cancelled z else z) as Hback.
  { intros s y [[<- <-]|[Hne Hy]]%lookup_insert_Some; [exists x; by rewrite decide_True|].
    exists y. by rewrite decide_False. }
  assert (∀ s z, w_heap w !! s = Some z → ∃ y, <[target := cancelled x]> (w_heap w) !! s = Some y ∧
    sb_topic y = sb_topic z) as Hfwd.
  { intros s z Hz. destruct (decide (target = s)) as [<-|Hne].
    - rewrite lookup_insert_eq. simplify_eq. by eexists.
    - rewrite lookup_insert_ne by done. by exists z. }
  split; unfold listed; cbn; try done.
  - intros s y (z & Hz & ->)%Hback. destruct (H1 _ _ Hz) as [? [A1 A2 A3 A4]].
    split; [done|]. by destruct (decide _).
  - intros t s [Hs Hne]%Hm2. destruct (H2 t s Hs) as (y & Hy & ? & ? & ? & ?). exists y.
    rewrite lookup_insert_ne by done. rewrite elem_of_app, list_elem_of_singleton. naive_solver.
  - intros Hop s y (z & Hz & ->)%Hback Hc. rewrite Hm2.
    destruct (decide (s = target)) as [->|]; [done|]. by split; [apply H4|].
  - intros s y (z & Hz & ->)%Hback Hst. rewrite Hm2, elem_of_app, list_elem_of_singleton.
    destruct (decide (s = target)) as [->|Hne]; [by right; right|].
    destruct (H6 _ _ Hz Hst); [by left|by right; left].
  - intros ev ts t Hp Ht. destruct (H7 _ _ _ Hp Ht) as (y & Hy & <-). by apply Hfwd.
  - intros s. rewrite elem_of_app, list_elem_of_singleton. intros [[y Hy]%H8| ->].
    + destruct (Hfwd _ _ Hy) as (z & -> & _). eauto.
    + rewrite lookup_insert_eq. eauto.
  - rewrite H9. pose proof (msum_insert_Some working _ _ (cancelled x) _ Hx).
    change (working (cancelled x)) with (working x) in *. lia.
Qed.

Lemma elem_of_all_subs (m : gmap string (list sid)) s :
  s ∈ concat (map_to_list m).*2 ↔ ∃ t, s ∈ default [] (m !! t).
Proof.
  rewrite list_elem_of_In, in_concat. setoid_rewrite <-list_elem_of_In. split.
  - intros (l & Hl & Hs). apply list_elem_of_fmap in Hl as ([t l'] & -> & Hl).
    apply elem_of_map_to_list in Hl. exists t. by rewrite Hl.
  - intros (t & Hs). destruct (m !! t) as [l|] eqn:Hl; [|by apply not_elem_of_nil in Hs].
    exists l. split; [|done]. apply list_elem_of_fmap. exists (t, l). split; [done|].
    by apply elem_of_map_to_list.
Qed.

Lemma Close_ok w : world_ok w → world_ok (Close w).
Proof.
  intros Hok. unfold Close. destruct (b_closed w) eqn:Hopen; [done|].
  destruct Hok as [H1 H2 H3 H4 H5 H6 H7 H8 H9].
  split; unfold listed; cbn; try done.
  - intros t s. rewrite lookup_empty. by intros ?%not_elem_of_nil.
  - intros t. rewrite lookup_empty. apply NoDup_nil_2.
  - intros s x Hx Hs. right. rewrite elem_of_app, elem_of_all_subs.
    destruct (H6 _ _ Hx Hs); [right; eauto|by left].
  - intros s. rewrite elem_of_app, elem_of_all_subs. intros [?%H8|(t & Ht)]; [done|].
    destruct (H2 _ _ Ht) as (x & -> & _). eauto.
Qed.

Lemma in_flight_other l1 ev s ts l2 t :
  t ≠ s → in_flight (l1 ++ (ev, s :: ts) :: l2) t = in_flight (l1 ++ (ev, ts) :: l2) t.
Proof.
  intros Hne. rewrite !in_flight_app, !in_flight_cons, filter_cons. by rewrite decide_False.
Qed.

Lemma in_flight_next l1 ev s ts l2 :
  in_flight (l1 ++ (ev, s :: ts) :: l2) s ≡ₚ ev :: in_flight (l1 ++ (ev, ts) :: l2) s.
Proof.
  rewrite !in_flight_app, !in_flight_cons, filter_cons, decide_True by done. cbn.
  symmetry. apply Permutation_middle.
Qed.

Lemma bus_step_ok w w' : world_ok w → step w w' → world_ok w'.
Proof.
  intros Hok. destruct 1 as [topic|ev|l1 ev s ts l2 Hp|l1 ev l2 Hp|target| |l1 s l2 Hst|s x x' Hx Ht
    |s x x' Hx Ht|s x x' Hx Ht].
  - by apply Subscribe_ok.
  - by apply Publish_ok.
  - destruct (wo_targets _ Hok ev (s :: ts) s) as (x & Hx & Htopic); [rewrite Hp; set_solver|set_solver|].
    rewrite (alter_present _ _ _ _ Hx). destruct (wo_subs _ Hok _ _ Hx) as [_ [A1 A2 A3 A4]].
    rewrite Hp in A4. apply (ok_update w s x); try done; unfold enqueue.
    + by destruct (negb _).
    + by destruct (negb _).
    + left. by destruct (negb _).
    + destruct (sb_stopped x) eqn:Es; cbn [negb].
      { split; try done; intros ?; [naive_solver|congruence]. }
      split; cbn.
      * by rewrite A1, <-!app_assoc.
      * intros Hex. by apply A2 in Hex as (_ & _ & ?).
      * intros e. rewrite elem_of_app, list_elem_of_singleton. intros [?| ->]; [by apply A3|done].
      * intros _. rewrite A4 by done. rewrite in_flight_next, <-app_assoc. done.
    + intros t Hne. rewrite Hp. symmetry. by apply in_flight_other.
    + intros ev' ts' t Hin Ht. rewrite Hp. setoid_rewrite elem_of_app. setoid_rewrite elem_of_cons.
      apply elem_of_app in Hin as [?|[[= -> ->]|?]%elem_of_cons]; [eauto| |eauto].
      exists (s :: ts). split; [by right; left|by right].
    + destruct (negb _); cbn; unfold working; cbn; lia.
  - assert (∀ s, in_flight (l1 ++ (ev, []) :: l2) s = in_flight (l1 ++ l2) s) as Hfl.
    { intros s. by rewrite !in_flight_app, in_flight_cons. }
    destruct Hok as [H1 H2 H3 H4 H5 H6 H7 H8 H9]. rewrite Hp in *. split; try done; cbn.
    + intros s x Hx. destruct (H1 s x Hx) as [? [A1 A2 A3 A4]]. split; [done|].
      split; try done. by rewrite <-Hfl.
    + intros e ts t Hin. apply H7. set_solver.
  - by apply unsubscribe_ok.
  - by apply Close_ok.
  - assert (s ∈ w_stops w) as Hin by (rewrite Hst; set_solver).
    destruct (wo_stops _ Hok s Hin) as [x Hx]. rewrite (alter_present _ _ _ _ Hx).
    destruct (wo_subs _ Hok _ _ Hx) as [_ [A1 A2 A3 A4]].
    apply (ok_update w s x); try done.
    + right. rewrite Hst. split_and!; [done|set_solver|set_solver|]. intros t Hne. set_solver.
    + split; cbn; try done. intros Hex. by destruct (A2 Hex) as (? & ? & _).
    + eauto.
    + unfold working. cbn. lia.
  - destruct (wo_subs _ Hok _ _ Hx) as [_ [A1 A2 A3 A4]]. unfold take in Ht.
    destruct (sb_exited x) eqn:Ee; [done|]. destruct (sb_current x) eqn:Ec; [done|].
    destruct (sb_queue x) as [|ev q] eqn:Eq; [done|]. injection Ht as <-.
    apply (ok_update w s x); cbn; try done; [by left|eauto|unfold working; rewrite Ee; lia].
  - destruct (wo_subs _ Hok _ _ Hx) as [_ [A1 A2 A3 A4]]. unfold delivered in Ht.
    destruct (sb_current x) as [ev|] eqn:Ec; [|done]. injection Ht as <-.
    apply (ok_update w s x); cbn; try done; [by left| |eauto|unfold working; cbn; lia].
    split; cbn; try done.
    + by rewrite A1, <-app_assoc.
    + intros Hex. by destruct (A2 Hex).
  - destruct (wo_subs _ Hok _ _ Hx) as [_ [A1 A2 A3 A4]]. unfold exit in Ht.
    destruct (sb_exited x) eqn:Ee; [done|]. destruct (sb_current x) eqn:Ec; [done|].
    destruct (sb_queue x) as [|] eqn:Eq; [|done]. destruct (sb_stopped x) eqn:Es; [|done].
    injection Ht as <-.
    apply (ok_update w s x); cbn; try done; [by left|eauto|unfold working; rewrite Ee; lia].
Qed.

Lemma steps_ok w w' : world_ok w → steps w w' → world_ok w'.
Proof. intros Hok. induction 1; [done|]. eauto using bus_step_ok. Qed.

Lemma bus_reachable_ok w : reachable w → world_ok w.
Proof. apply steps_ok, New_ok. Qed.

(** ** What steps keep *)

Record grows (x x' : subscription) : Prop := {
  gr_topic : sb_topic x' = sb_topic x;
  gr_accepted : sb_accepted x `prefix_of` sb_accepted x';
  gr_handled : sb_handled x `prefix_of` sb_handled x';
  gr_owed : sb_owed x `prefix_of` sb_owed x';
  gr_stopped : sb_stopped x = true → sb_stopped x' = true;
}.

#[local] Instance grows_po : PreOrder grows.
Proof.
  split; [done|]. intros x y z [] []. split; [congruence|by etrans|by etrans|by etrans|auto].
Qed.

Lemma grows_enqueue ev x : grows x (enqueue ev x).
Proof. unfold enqueue. destruct (negb _); [split; cbn; try done; by eexists|done]. Qed.

Lemma grows_owe ev x : grows x (owe ev x).
Proof. split; cbn; try done. by eexists. Qed.

Lemma grows_take x x' : take x = Some x' → grows x x'.
Proof. unfold take. intros. by repeat case_match; simplify_eq. Qed.

Lemma grows_delivered x x' : delivered x = Some x' → grows x x'.
Proof. unfold delivered. intros. repeat case_match; simplify_eq. split; cbn; try done. by eexists. Qed.

Lemma grows_exit x x' : exit x = Some x' → grows x x'.
Proof. unfold exit. intros. by repeat case_match; simplify_eq. Qed.

(** The subscriptions after a step. *)
Definition heap_grows (h h' : gmap sid subscription) : Prop :=
  ∀ s x, h !! s = Some x → ∃ x', h' !! s = Some x' ∧ grows x x'.

Lemma heap_grows_insert h s x x' : h !! s = Some x → grows x x' → heap_grows h (<[s := x']> h).
Proof.
  intros Hs Hg t y Hy. destruct (decide (s = t)) as [<-|Hne].
  - exists x'. rewrite lookup_insert_eq. by simplify_eq.
  - exists y. by rewrite lookup_insert_ne.
Qed.

Lemma heap_grows_alter h s f : (∀ x, grows x (f x)) → heap_grows h (alter f s h).
Proof.
  intros Hf t y Hy. destruct (decide (s = t)) as [<-|Hne].
  - exists (f y). by rewrite lookup_alter_eq, Hy.
  - exists y. by rewrite lookup_alter_ne.
Qed.

Lemma step_grows w w' : world_ok w → step w w' → heap_grows (w_heap w) (w_heap w').
Proof.
  assert (∀ h, heap_grows h h) as Hrefl by (intros h s x Hx; by exists x).
  intros Hok. destruct 1 as [topic|ev|l1 ev s ts l2 Hp|l1 ev l2 Hp|target| |l1 s l2 Hst|s x x' Hx Ht
    |s x x' Hx Ht|s x x' Hx Ht]; cbn; try done.
  - unfold Subscribe. destruct (b_closed w); [done|]. cbn. intros s x Hx.
    destruct (wo_subs _ Hok _ _ Hx) as [Hlt _]. exists x. by rewrite lookup_insert_ne by lia.
  - unfold Publish. destruct (b_closed w); [done|]. cbn. intros s x Hx.
    rewrite lookup_owe, Hx by apply (wo_nodup _ Hok).
    destruct (decide _); [exists (owe ev x)|by exists x]. split; [done|apply grows_owe].
  - apply heap_grows_alter, grows_enqueue.
  - unfold unsubscribe. destruct (w_heap w !! target) as [x|] eqn:Hx; [|done].
    destruct (sb_cancelled x); [done|]. cbn. by eapply heap_grows_insert.
  - unfold Close. by destruct (b_closed w).
  - by apply heap_grows_alter.
  - by eapply heap_grows_insert, grows_take.
  - by eapply heap_grows_insert, grows_delivered.
  - by eapply heap_grows_insert, grows_exit.
Qed.

Lemma steps_grow w w' : world_ok w → steps w w' → heap_grows (w_heap w) (w_heap w').
Proof.
  intros Hok Hs. revert Hok. induction Hs as [w|w1 w2 w3 H12 H23 IH]; intros Hok s x Hx.
  - by exists x.
  - destruct (step_grows _ _ Hok H12 s x Hx) as (y & Hy & Hg).
    destruct (IH (bus_step_ok _ _ Hok H12) s y Hy) as (z & Hz & Hg'). exists z. split; [done|].
    by etransitivity.
Qed.

(** A drained bus has no worker left. *)
Lemma drained_exited w : world_ok w → drained w → ∀ s x, w_heap w !! s = Some x →
  sb_exited x = true ∧ sb_handled x = sb_accepted x.
Proof.
  intros Hok [_ Hwg] s x Hx. rewrite (wo_wg _ Hok) in Hwg.
  assert (working x = 0%nat) as Hw by (eapply msum_zero; [|done]; lia).
  unfold working in Hw. destruct (sb_exited x) eqn:Ee; [|done]. split; [done|].
  destruct (wo_subs _ Hok _ _ Hx) as [_ [A1 A2 _ _]]. destruct (A2 Ee) as (Hc & Hq & _).
  by rewrite A1, Hc, Hq, app_nil_r.
Qed.

(** A subscriber gets the events queued for it in the order they were
    queued, each exactly once and all of its topic, whatever the other
    goroutines do meanwhile; what is queued once stays queued or handled. *)
Theorem bus_order w w' s x :
  reachable w → steps w w' → w_heap w !! s = Some x →
  ∃ x', w_heap w' !! s = Some x' ∧
    sb_accepted x' = sb_handled x' ++ option_list (sb_current x') ++ sb_queue x' ∧
    sb_accepted x `prefix_of` sb_accepted x' ∧ sb_handled x `prefix_of` sb_handled x' ∧
    ∀ ev, ev ∈ sb_accepted x' → Topic ev = sb_topic x.
Proof.
  intros Hr%bus_reachable_ok Hs Hx. destruct (steps_grow _ _ Hr Hs s x Hx) as (x' & Hx' & Hg).
  destruct (wo_subs _ (steps_ok _ _ Hr Hs) _ _ Hx') as [_ [A1 A2 A3 A4]]. destruct Hg as [G1 G2 G3 _ _].
  exists x'. rewrite <-G1. done.
Qed.

(** C7: An event published on an open bus while a subscriber of its topic has
    not cancelled is handled by that subscriber by the time [Close] returns,
    provided the publication had reached the subscriber before it was
    stopped; so is every other event it was a target of until then, as often
    as it was published. *)
Theorem bus_no_loss w0 ev s x0 w1 x1 w2 :
  reachable w0 → b_closed w0 = false →
  w_heap w0 !! s = Some x0 → sb_cancelled x0 = false → Topic ev = sb_topic x0 →
  steps (Publish w0 ev) w1 → w_heap w1 !! s = Some x1 →
  sb_stopped x1 = false → in_flight (w_pubs w1) s = [] →
  steps w1 w2 → drained w2 →
  ∃ x2, w_heap w2 !! s = Some x2 ∧ ev ∈ sb_handled x2 ∧ sb_owed x1 ⊆+ sb_handled x2.
Proof.
  intros Hr%bus_reachable_ok Hop Hx0 Hc Ht H01 Hx1 Hst Hfl H12 Hd.
  pose proof (Publish_ok w0 ev Hr) as Hok0. pose proof (steps_ok _ _ Hok0 H01) as Hok1.
  pose proof (steps_ok _ _ Hok1 H12) as Hok2.
  assert (s ∈ listed w0 (Topic ev)) as Hin by (rewrite Ht; by apply (wo_open _ Hr)).
  assert (w_heap (Publish w0 ev) !! s = Some (owe ev x0)) as Hx0'.
  { unfold Publish. rewrite Hop. cbn. rewrite lookup_owe, decide_True by (done || apply (wo_nodup _ Hr)).
    by rewrite Hx0. }
  destruct (steps_grow _ _ Hok0 H01 _ _ Hx0') as (y & Hy & Hg). simplify_eq.
  destruct (steps_grow _ _ Hok1 H12 _ _ Hx1) as (x2 & Hx2 & Hg2).
  destruct (drained_exited _ Hok2 Hd _ _ Hx2) as [_ Hh].
  destruct (wo_subs _ Hok1 _ _ Hx1) as [_ [_ _ _ A4]]. specialize (A4 Hst). rewrite Hfl, app_nil_r in A4.
  assert (sb_owed x1 ⊆+ sb_handled x2) as Hsub.
  { rewrite A4, Hh. destruct (gr_accepted _ _ Hg2) as [k ->]. by apply submseteq_inserts_r. }
  exists x2. split_and!; [done| |done].
  eapply elem_of_submseteq; [|exact Hsub]. destruct (gr_owed _ _ Hg) as [k ->]. cbn. set_solver.
Qed.

(** The work left to a subscription's worker. *)
Definition work (x : subscription) : nat :=
  if sb_exited x then 0
  else S (length (option_list (sb_current x)) + 2 * length (sb_queue x)).

Lemma worker_steps x : sb_stopped x = true → sb_exited x = false →
  ∃ x', (take x = Some x' ∨ delivered x = Some x' ∨ exit x = Some x') ∧ (work x' < work x)%nat.
Proof.
  intros Hs He. unfold take, delivered, exit, work. rewrite He, Hs.
  destruct (sb_current x) as [ev|]; [|destruct (sb_queue x) as [|ev q]]; cbn.
  - eexists. split; [right; left; reflexivity|]. cbn. lia.
  - eexists. split; [right; right; reflexivity|]. cbn. lia.
  - eexists. split; [left; reflexivity|]. cbn. lia.
Qed.

(** Once a shutdown has begun, it can complete: from every state the
    goroutines can have reached by then, the workers alone can drain the bus,
    after which [Close] returns, and what was queued has been handled. *)
Theorem bus_close_returns w :
  reachable w → b_closed w = true →
  ∃ w', steps w w' ∧ drained w' ∧
    ∀ s x, w_heap w' !! s = Some x → sb_handled x = sb_accepted x.
Proof.
  intros Hr%bus_reachable_ok. remember (length (w_stops w) + msum work (w_heap w))%nat as n eqn:Hn.
  revert w Hr Hn. induction (lt_wf n) as [n _ IH]. intros w Hok Hn Hcl.
  assert (∀ w1, step w w1 → b_closed w1 = true →
    (length (w_stops w1) + msum work (w_heap w1) < n)%nat → ∃ w', steps w w' ∧ drained w' ∧
    ∀ s x, w_heap w' !! s = Some x → sb_handled x = sb_accepted x) as Hgo.
  { intros w1 Hw1 Hcl1 Hlt. destruct (IH _ Hlt w1 (bus_step_ok _ _ Hok Hw1) eq_refl Hcl1) as (w' & ? & ?).
    exists w'. split; [by eapply rtc_l|done]. }
  destruct (w_stops w) as [|s l] eqn:Hst.
  - destruct (decide (msum working (w_heap w) = 0%nat)) as [Hz|(s & x & Hx & Hw)%msum_pos].
    + exists w. split; [apply rtc_refl|]. assert (drained w) as Hd
        by (split; [done|rewrite (wo_wg _ Hok); lia]).
      split; [done|]. intros s x Hx. by eapply drained_exited.
    + assert (sb_exited x = false) as He by (unfold working in Hw; by destruct (sb_exited x)).
      assert (sb_stopped x = true) as Hs.
      { destruct (sb_stopped x) eqn:Es; [done|]. exfalso.
        destruct (wo_stopping _ Hok _ _ Hx Es) as [Hin|Hin].
        - unfold listed in Hin. rewrite (wo_closed _ Hok Hcl), lookup_empty in Hin.
          by apply not_elem_of_nil in Hin.
        - rewrite Hst in Hin. by apply not_elem_of_nil in Hin. }
      destruct (worker_steps x Hs He) as (x' & Hx' & Hlt).
      pose proof (msum_insert_Some work _ _ x' _ Hx) as Hsum.
      destruct Hx' as [Hx'|[Hx'|Hx']]; eapply Hgo;
        [by eapply step_take|done|cbn; rewrite Hst; cbn in *; lia
        |by eapply step_delivered|done|cbn; rewrite Hst; cbn in *; lia
        |by eapply step_exit|done|cbn; rewrite Hst; cbn in *; lia].
  - destruct (wo_stops _ Hok s) as [x Hx]; [rewrite Hst; by left|].
    eapply Hgo; [by apply (step_stop w [] s l)|done|]. cbn.
    rewrite (alter_present _ _ _ _ Hx).
    pose proof (msum_insert_Some work _ _ (stop x) _ Hx). cbn in *.
    change (work (stop x)) with (work x) in *. lia.
Qed.
End bus.

(** ** Concrete runs *)

#[export] Instance string_event : Event string := λ s, s.

Definition demo_sub (queue : list string) (stopped : bool) (current : option string) (exited : bool)
    (handled accepted owed : list string) : subscription (E := string) :=
  MkSub "t" queue stopped current exited false handled accepted owed.

Definition put (w : World (E := string)) (x : subscription (E := string)) : World (E := string) := set_heap w (<[0%nat := x]> (w_heap w)).

(** One subscriber, one event published and queued, then a shutdown. *)
Definition demo_open : World (E := string) := Subscribe New "t".
Definition demo_published : World (E := string) :=
  let w := Publish demo_open "t" in
  set_pubs (set_pubs (set_heap w (alter (enqueue "t") 0%nat (w_heap w))) [("t", [])]) [].
Definition demo_closing : World (E := string) := Close demo_published.
Definition demo_stopped : World (E := string) :=
  set_stops (set_heap demo_closing (alter stop 0%nat (w_heap demo_closing))) [].
Definition demo_drained : World (E := string) :=
  let w := put demo_stopped (demo_sub [] true (Some "t") false [] ["t"] ["t"]) in
  let w := put w (demo_sub [] true None false ["t"] ["t"] ["t"]) in
  set_wg (put w (demo_sub [] true None true ["t"] ["t"] ["t"])) 0.

Lemma demo_publish_steps : steps (Publish demo_open "t") demo_published.
Proof.
  eapply rtc_l; [by apply (step_enqueue _ [] "t" 0%nat [] [])|].
  eapply rtc_l; [by apply (step_published _ [] "t" [])|]. apply rtc_refl.
Qed.

Lemma demo_drain_steps : steps demo_published demo_drained.
Proof.
  eapply rtc_l; [apply step_close|]. eapply rtc_l; [by apply (step_stop _ [] 0%nat [])|].
  eapply rtc_l; [eapply (step_take _ 0%nat); by vm_compute|].
  eapply rtc_l; [eapply (step_delivered _ 0%nat); by vm_compute|].
  eapply rtc_l; [eapply (step_exit _ 0%nat); by vm_compute|]. apply rtc_refl.
Qed.

Lemma bus_demo_reachable : reachable demo_published.
Proof.
  eapply rtc_l; [apply (step_subscribe New "t")|]. eapply rtc_l; [apply (step_publish _ "t")|].
  apply demo_publish_steps.
Qed.

Lemma bus_order_witness :
  ∃ x', w_heap demo_drained !! 0%nat = Some x' ∧
    sb_accepted x' = sb_handled x' ++ option_list (sb_current x') ++ sb_queue x' ∧
    ["t"] `prefix_of` sb_accepted x' ∧ [] `prefix_of` sb_handled x' ∧
    ∀ ev, ev ∈ sb_accepted x' → Topic ev = "t".
Proof.
  apply (bus_order demo_published demo_drained 0%nat (demo_sub ["t"] false None false [] ["t"] ["t"]));
    [exact bus_demo_reachable|exact demo_drain_steps|by vm_compute].
Defined.

Lemma bus_no_loss_witness :
  ∃ x2, w_heap demo_drained !! 0%nat = Some x2 ∧ "t" ∈ sb_handled x2 ∧ ["t"] ⊆+ sb_handled x2.
Proof.
  apply (bus_no_loss demo_open "t" 0%nat (demo_sub [] false None false [] [] []) demo_published
    (demo_sub ["t"] false None false [] ["t"] ["t"]) demo_drained); try by vm_compute.
  - eapply rtc_l; [apply (step_subscribe New "t")|]. apply rtc_refl.
  - exact demo_publish_steps.
  - exact demo_drain_steps.
Defined.

Lemma bus_close_returns_witness :
  ∃ w', steps demo_closing w' ∧ drained w' ∧
    ∀ s x, w_heap w' !! s = Some x → sb_handled x = sb_accepted x.
Proof.
  apply (bus_close_returns demo_closing); [|by vm_compute].
  eapply rtc_r; [exact bus_demo_reachable|apply step_close].
Defined.

(** An event whose publication has begun is lost when the shutdown stops the
    subscriber before the publication reaches it. *)
Example lost_in_flight :
  ∃ w, steps (Publish demo_open "t") w ∧ drained w ∧ w_pubs w = [] ∧
    sb_handled <$> (w_heap w !! 0%nat) = Some [].
Proof.
  eexists. split.
  - eapply rtc_l; [apply step_close|]. eapply rtc_l; [by apply (step_stop _ [] 0%nat [])|].
    eapply rtc_l; [eapply (step_exit _ 0%nat); by vm_compute|].
    eapply rtc_l; [by apply (step_enqueue _ [] "t" 0%nat [] [])|].
    eapply rtc_l; [by apply (step_published _ [] "t" [])|]. apply rtc_refl.
  - split_and!; by vm_compute.
Qed.
