(* ===== verification/Tftp.v ===== *)
(** * The TFTP file service (src/internal/tftp/tftp.go)

    One session at a time serves files to devices. Every request runs its
    handler on a goroutine of the TFTP library; the handlers share the
    session's atomic counters, the upload quota and the upload directory.
    Each atomic operation, system call or block of a transfer is a step of a
    relation on [session], so every interleaving of requests is a sequence of
    steps. The library (github.com/pin/tftp) is the environment: which
    requests arrive, which blocks it hands to the writer and when a transfer
    ends or fails are choices of the relation; a transfer's byte count is the
    sum of what its writer took, as the library returns it.

    [Section session] has the handlers, the invariant of a session and what
    follows from it; after it come [watchIdle] as a function of what it
    observes, and the manager, whose critical sections are the steps of a
    second relation. Sockets, directories and the audit callback's arguments
    are left out. *)
From Stdlib Require Import ZArith Lia Ascii.
From stdpp Require Import base gmap sets list strings relations.
From S2P Require Import Prelude GoBase.

Definition Port : Z := 69.
Definition DefaultIdleTimeout : Z := 10 * minute.
Definition MaxUploadBytes : Z := Z.shiftl 256 20.
Definition DefaultMaxTransfers : Z := 8.
Definition DefaultMaxLifetime : Z := hour.
Definition DefaultMaxUploads : Z := 32.
Definition DefaultUploadQuota : Z := Z.shiftl 1 30.

(** The errors; [ErrTransfer] is any other error of the library or the
    system. *)
Inductive tftp_error : Type :=
| ErrRunning | ErrNotRunning | ErrNoInterface | ErrNoIPv4 | ErrBind
| ErrNotFound | ErrUploadsDisabled | ErrExists | ErrTooLarge | ErrBusy
| ErrAccessDenied | ErrQuota | errWriteFailed | errStopped | ErrTransfer.

#[export] Instance tftp_error_eq_dec : EqDecision tftp_error.
Proof. solve_decision. Defined.

Inductive Direction : Type := Download | Upload.

#[export] Instance Direction_eq_dec : EqDecision Direction.
Proof. solve_decision. Defined.

Inductive StopReason : Type := StopOperator | StopIdle | StopExpired | StopShutdown.

(** ** Addresses *)

(** [netip.Prefix]; [pf_bits] is -1 when it is not valid. *)
Record Prefix : Type := MkPrefix { pf_addr : Addr; pf_bits : Z }.

Definition be_val (b : bytes) : Z := foldl (λ acc x, acc * 256 + x) 0 b.

(** [Prefix.Contains] *)
Definition Contains (p : Prefix) (ip : Addr) : bool :=
  (0 <=? pf_bits p) &&
  match pf_addr p, ip with
  | Addr4 b, Addr4 c => Z.shiftr (Z.lxor (be_val c) (be_val b)) (32 - pf_bits p) =? 0
  | Addr6 b _, Addr6 c zone =>
      bool_decide (zone = "") && (Z.shiftr (Z.lxor (be_val c) (be_val b)) (128 - pf_bits p) =? 0)
  | _, _ => false
  end.

(** [session.allowed] *)
Fixpoint allowed (allow : list Prefix) (remote : Addr) : bool :=
  match allow with
  | [] => false
  | p :: allow => if Contains p remote then true else allowed allow remote
  end.

(** ** Names *)

(** [strings.TrimLeft(name, "/")] *)
Fixpoint relative (name : string) : string :=
  match name with
  | String c rest => if decide (c = "/"%char) then relative rest else name
  | EmptyString => ""
  end.

(** [path.Split]: after the last slash. *)
Fixpoint path_split (s : string) : string * string :=
  match s with
  | EmptyString => ("", "")
  | String c rest =>
      let '(dir, base) := path_split rest in
      if bool_decide (dir = "") && negb (bool_decide (c = "/"%char))
      then ("", String c base) else (String c dir, base)
  end.

Definition partial_of (rel : string) : string :=
  let '(dir, base) := path_split rel in
  (dir +:+ "." +:+ base +:+ ".partial")%string.

(** ** Transfers *)

(** Where a request's handler is. [PRefused] has counted itself over the cap;
    [PCounted] is past the upload count and [PChecked] past [Lstat];
    [PReceiving], [PWriting], [PDebited], [POverdrawn] and [PWritten] are the
    stages of [capWriter.Write], [left] being its own cap; [PFailed] has yet
    to give the quota back; [PCleanup] has yet to remove the partial file;
    [PEnding] and [PLeaving] are the two effects of the function [begin]
    returned. *)
Inductive phase : Type :=
| PArrived
| PRefused
| PAdmitted
| PSending
| PCounted
| PChecked
| PReceiving (left : Z)
| PWriting (left : Z) (p : bytes)
| PDebited (left : Z) (p : bytes)
| POverdrawn (p : bytes)
| PWritten (left : Z) (p : bytes) (n : nat)
| PComplete
| PFailed (e : tftp_error)
| PCleanup (e : option tftp_error)
| PEnding (e : option tftp_error)
| PLeaving (e : option tftp_error)
| PDone (e : option tftp_error).

(** A request: [tr_data] is what its writer has put into the partial file,
    [tr_counted] that it passed the count of uploads. *)
Record transfer : Type := MkTransfer {
  tr_dir : Direction;
  tr_name : string;
  tr_remote : Addr;
  tr_phase : phase;
  tr_data : bytes;
  tr_counted : bool;
}.

Definition set_phase (t : transfer) (p : phase) : transfer :=
  MkTransfer (tr_dir t) (tr_name t) (tr_remote t) p (tr_data t) (tr_counted t).

(** [Limits] *)
Record Limits : Type := MkLimits {
  MaxTransfers : Z;
  MaxLifetime : Z;
  MaxUploads : Z;
  UploadQuota : Z;
}.

Section session.
(** The file a name denotes in the upload directory, if any: the operating
    system's resolution of it under the root. *)
Context (resolve : string → option string).

(** [session]; [ss_inbox] maps the files of the upload directory to the
    request of this session that wrote them, [None] for those that were there
    before. *)
Record session : Type := MkSession {
  ss_allow : list Prefix;
  ss_limits : Limits;
  ss_allowUpload : bool;
  ss_active : Z;
  ss_lastUsed : Z;
  ss_uploads : Z;
  ss_quota : Z;
  ss_stopped : bool;
  ss_inbox : gmap string (option nat);
  ss_transfers : gmap nat transfer;
}.

Definition set_active (s : session) (n : Z) : session :=
  MkSession (ss_allow s) (ss_limits s) (ss_allowUpload s) n (ss_lastUsed s) (ss_uploads s)
    (ss_quota s) (ss_stopped s) (ss_inbox s) (ss_transfers s).
Definition set_lastUsed (s : session) (t : Z) : session :=
  MkSession (ss_allow s) (ss_limits s) (ss_allowUpload s) (ss_active s) t (ss_uploads s)
    (ss_quota s) (ss_stopped s) (ss_inbox s) (ss_transfers s).
Definition set_uploads (s : session) (n : Z) : session :=
  MkSession (ss_allow s) (ss_limits s) (ss_allowUpload s) (ss_active s) (ss_lastUsed s) n
    (ss_quota s) (ss_stopped s) (ss_inbox s) (ss_transfers s).
Definition set_quota (s : session) (n : Z) : session :=
  MkSession (ss_allow s) (ss_limits s) (ss_allowUpload s) (ss_active s) (ss_lastUsed s)
    (ss_uploads s) n (ss_stopped s) (ss_inbox s) (ss_transfers s).
Definition set_stopped (s : session) : session :=
  MkSession (ss_allow s) (ss_limits s) (ss_allowUpload s) (ss_active s) (ss_lastUsed s)
    (ss_uploads s) (ss_quota s) true (ss_inbox s) (ss_transfers s).
Definition set_inbox (s : session) (m : gmap string (option nat)) : session :=
  MkSession (ss_allow s) (ss_limits s) (ss_allowUpload s) (ss_active s) (ss_lastUsed s)
    (ss_uploads s) (ss_quota s) (ss_stopped s) m (ss_transfers s).
Definition put (s : session) (i : nat) (t : transfer) : session :=
  MkSession (ss_allow s) (ss_limits s) (ss_allowUpload s) (ss_active s) (ss_lastUsed s)
    (ss_uploads s) (ss_quota s) (ss_stopped s) (ss_inbox s) (<[i := t]> (ss_transfers s)).

(** A session as [Manager.Start] makes it, [files] being in the upload
    directory. *)
Definition new_session (allow : list Prefix) (limits : Limits) (allowUpload : bool) (now : Z)
    (files : gset string) : session :=
  MkSession allow limits allowUpload 0 now 0 (UploadQuota limits) false (gset_to_gmap None files) ∅.

Definition target (t : transfer) : option string := resolve (relative (tr_name t)).
Definition partial (t : transfer) : option string := resolve (partial_of (relative (tr_name t))).

(** [session.begin], up to the check of the count. *)
Definition begin (s : session) (i : nat) (t : transfer) : session :=
  if negb (allowed (ss_allow s) (tr_remote t)) then put s i (set_phase t (PDone (Some ErrAccessDenied)))
  else
    let s := set_active s (ss_active s + 1) in
    if MaxTransfers (ss_limits s) <? ss_active s then put s i (set_phase t PRefused)
    else put s i (set_phase t PAdmitted).

(** [s.active.Add(-1); return nil, ErrBusy] *)
Definition refuse (s : session) (i : nat) (t : transfer) : session :=
  put (set_active s (ss_active s - 1)) i (set_phase t (PDone (Some ErrBusy))).

(** [session.download]: [Open] and [Stat], whose outcome is [found]. *)
Definition open_download (s : session) (i : nat) (t : transfer) (found : bool) : session :=
  put s i (set_phase t (if found then PSending else PEnding (Some ErrNotFound))).

(** One read of [stopReader] by the library, and the end of [ReadFrom]. *)
Definition read_block (s : session) (i : nat) (t : transfer) : session :=
  if ss_stopped s then put s i (set_phase t (PEnding (Some errStopped))) else s.
Definition end_download (s : session) (i : nat) (t : transfer) (e : option tftp_error) : session :=
  put s i (set_phase t (PEnding e)).

(** [session.upload] *)
Definition count_upload (s : session) (i : nat) (t : transfer) : session :=
  if negb (ss_allowUpload s) then put s i (set_phase t (PEnding (Some ErrUploadsDisabled)))
  else
    let s := set_uploads s (ss_uploads s + 1) in
    if MaxUploads (ss_limits s) <? ss_uploads s then put s i (set_phase t (PEnding (Some ErrQuota)))
    else put s i (MkTransfer (tr_dir t) (tr_name t) (tr_remote t) PCounted (tr_data t) true).

(** The size the client announced, if any, and [Lstat]. *)
Definition check_upload (s : session) (i : nat) (t : transfer) (size : option Z) : session :=
  if match size with Some n => MaxUploadBytes <? n | None => false end
  then put s i (set_phase t (PEnding (Some ErrTooLarge)))
  else
    let exists_ := match target t with Some k => bool_decide (is_Some (ss_inbox s !! k)) | None => false end in
    put s i (set_phase t (if exists_ then PEnding (Some ErrExists) else PChecked)).

(** [OpenFile] with [O_CREATE|O_EXCL]; [sys_ok] is that the system allows it. *)
Definition open_partial (s : session) (i : nat) (t : transfer) (sys_ok : bool) : session :=
  match partial t with
  | Some k =>
      if bool_decide (is_Some (ss_inbox s !! k)) then put s i (set_phase t (PEnding (Some ErrExists)))
      else if sys_ok
      then put (set_inbox s (<[k := Some i]> (ss_inbox s))) i (set_phase t (PReceiving MaxUploadBytes))
      else put s i (set_phase t (PEnding (Some ErrNotFound)))
  | None => put s i (set_phase t (PEnding (Some ErrNotFound)))
  end.

(** [capWriter.Write], operation by operation. *)
Definition write_check (s : session) (i : nat) (t : transfer) (left : Z) (p : bytes) : session :=
  if ss_stopped s then put s i (set_phase t (PFailed errStopped))
  else if left <? len p then put s i (set_phase t (PFailed ErrTooLarge))
  else put s i (set_phase t (PWriting left p)).

Definition write_debit (s : session) (i : nat) (t : transfer) (left : Z) (p : bytes) : session :=
  let s := set_quota s (ss_quota s - len p) in
  put s i (set_phase t (if ss_quota s <? 0 then POverdrawn p else PDebited left p)).

Definition write_refund (s : session) (i : nat) (t : transfer) (p : bytes) : session :=
  put (set_quota s (ss_quota s + len p)) i (set_phase t (PFailed ErrQuota)).

(** The file takes the first [n] bytes, all of them unless it fails. *)
Definition write_file (s : session) (i : nat) (t : transfer) (left : Z) (p : bytes) (n : nat) : session :=
  put s i (MkTransfer (tr_dir t) (tr_name t) (tr_remote t) (PWritten (left - Z.of_nat n) p n)
             (tr_data t ++ take n p) (tr_counted t)).

Definition write_settle (s : session) (i : nat) (t : transfer) (left : Z) (p : bytes) (n : nat) : session :=
  put (set_quota s (ss_quota s + (len p - Z.of_nat n))) i
    (set_phase t (if Z.of_nat n =? len p then PReceiving left else PFailed ErrTransfer)).

(** The library ends the transfer: with an error, or with none, whereupon
    the file is closed. *)
Definition end_upload (s : session) (i : nat) (t : transfer) (e : option tftp_error) : session :=
  put s i (set_phase t (match e with None => PComplete | Some e => PFailed e end)).

(** [Link] *)
Definition link (s : session) (i : nat) (t : transfer) (sys_ok : bool) : session :=
  match target t with
  | Some k =>
      if bool_decide (is_Some (ss_inbox s !! k)) then put s i (set_phase t (PFailed ErrExists))
      else if sys_ok
      then put (set_inbox s (<[k := Some i]> (ss_inbox s))) i (set_phase t (PCleanup None))
      else put s i (set_phase t (PFailed errWriteFailed))
  | None => put s i (set_phase t (PFailed errWriteFailed))
  end.

(** [s.quota.Add(n)] *)
Definition give_back (s : session) (i : nat) (t : transfer) (e : tftp_error) : session :=
  put (set_quota s (ss_quota s + len (tr_data t))) i (set_phase t (PCleanup (Some e))).

(** The deferred [Remove(partial)]. *)
Definition cleanup (s : session) (i : nat) (t : transfer) (e : option tftp_error) : session :=
  let s := match partial t with Some k => set_inbox s (delete k (ss_inbox s)) | None => s end in
  put s i (set_phase t (PEnding e)).

(** The function [begin] returns. *)
Definition done_used (s : session) (i : nat) (t : transfer) (e : option tftp_error) (now : Z) : session :=
  put (match e with None => set_lastUsed s now | Some _ => s end) i (set_phase t (PLeaving e)).
Definition done_leave (s : session) (i : nat) (t : transfer) (e : option tftp_error) : session :=
  put (set_active s (ss_active s - 1)) i (set_phase t (PDone e)).

(** One step of the handler of request [i], [t] being its state. *)
Inductive handler (s : session) (i : nat) (t : transfer) : session → Prop :=
| h_begin : tr_phase t = PArrived → handler s i t (begin s i t)
| h_refuse : tr_phase t = PRefused → handler s i t (refuse s i t)
| h_open_download found :
    tr_phase t = PAdmitted → tr_dir t = Download → handler s i t (open_download s i t found)
| h_read_block : tr_phase t = PSending → handler s i t (read_block s i t)
| h_end_download e : tr_phase t = PSending → handler s i t (end_download s i t e)
| h_count_upload : tr_phase t = PAdmitted → tr_dir t = Upload → handler s i t (count_upload s i t)
| h_check_upload size : tr_phase t = PCounted → handler s i t (check_upload s i t size)
| h_open_partial sys_ok : tr_phase t = PChecked → handler s i t (open_partial s i t sys_ok)
| h_write_check left p : tr_phase t = PReceiving left → handler s i t (write_check s i t left p)
| h_write_debit left p : tr_phase t = PWriting left p → handler s i t (write_debit s i t left p)
| h_write_refund p : tr_phase t = POverdrawn p → handler s i t (write_refund s i t p)
| h_write_file left p n :
    tr_phase t = PDebited left p → (n ≤ length p)%nat → handler s i t (write_file s i t left p n)
| h_write_settle left p n : tr_phase t = PWritten left p n → handler s i t (write_settle s i t left p n)
| h_end_upload left e : tr_phase t = PReceiving left → handler s i t (end_upload s i t e)
| h_close_failed : tr_phase t = PComplete → handler s i t (end_upload s i t (Some errWriteFailed))
| h_link sys_ok : tr_phase t = PComplete → handler s i t (link s i t sys_ok)
| h_give_back e : tr_phase t = PFailed e → handler s i t (give_back s i t e)
| h_cleanup e : tr_phase t = PCleanup e → handler s i t (cleanup s i t e)
| h_done_used e now : tr_phase t = PEnding e → handler s i t (done_used s i t e now)
| h_done_leave e : tr_phase t = PLeaving e → handler s i t (done_leave s i t e).

(** A request arrives, the session is stopped, or a handler goes on. *)
Inductive sstep (s : session) : session → Prop :=
| s_arrive i dir name remote :
    ss_transfers s !! i = None → sstep s (put s i (MkTransfer dir name remote PArrived [] false))
| s_stop : sstep s (set_stopped s)
| s_handler i t s' : ss_transfers s !! i = Some t → handler s i t s' → sstep s s'.

Definition ssteps : session → session → Prop := rtc sstep.

(** ** The ledger: transfers, uploads and bytes *)

(** Admitted and not yet left. *)
Definition in_flight (t : transfer) : nat :=
  match tr_phase t with PArrived | PRefused | PDone _ => 0 | _ => 1 end.

(** Counted in [active]. *)
Definition busy (t : transfer) : nat :=
  match tr_phase t with PArrived | PDone _ => 0 | _ => 1 end.

Definition passed (t : transfer) : nat := if tr_counted t then 1 else 0.

(** The bytes a transfer has taken from the quota. *)
Definition held (t : transfer) : nat :=
  match tr_phase t with
  | PDebited _ p | POverdrawn p => length (tr_data t) + length p
  | PWritten _ p n => length (tr_data t) + (length p - n)
  | PReceiving _ | PWriting _ _ | PComplete | PFailed _
  | PCleanup None | PEnding None | PLeaving None | PDone None => length (tr_data t)
  | _ => 0
  end.

(** Those of them the quota allowed. *)
Definition solid (t : transfer) : nat :=
  match tr_phase t with
  | POverdrawn p => length (tr_data t)
  | _ => held t
  end.

Definition limits_ok (l : Limits) : Prop :=
  0 < MaxTransfers l ∧ 0 < MaxUploads l ∧ 0 < UploadQuota l.

Record ledger_ok (s : session) : Prop := {
  lo_active : ss_active s = Z.of_nat (msum busy (ss_transfers s));
  lo_flight : Z.of_nat (msum in_flight (ss_transfers s)) ≤ MaxTransfers (ss_limits s);
  lo_uploads : Z.of_nat (msum passed (ss_transfers s)) ≤ ss_uploads s;
  lo_passed : Z.of_nat (msum passed (ss_transfers s)) ≤ MaxUploads (ss_limits s);
  lo_quota : ss_quota s + Z.of_nat (msum held (ss_transfers s)) = UploadQuota (ss_limits s);
  lo_solid : Z.of_nat (msum solid (ss_transfers s)) ≤ UploadQuota (ss_limits s);
}.

Lemma in_flight_busy t : (in_flight t ≤ busy t)%nat.
Proof. unfold in_flight, busy. destruct (tr_phase t); lia. Qed.

Lemma solid_held t : (solid t ≤ held t)%nat.
Proof. unfold solid. destruct (tr_phase t) eqn:E; unfold held; rewrite ?E; lia. Qed.

(** The effect of a step of one request on the ledger. *)
Lemma ledger_put s i t s' t' :
  ledger_ok s → ss_transfers s !! i = Some t →
  ss_transfers s' = <[i := t']> (ss_transfers s) → ss_limits s' = ss_limits s →
  ss_active s' - ss_active s = Z.of_nat (busy t') - Z.of_nat (busy t) →
  ((in_flight t' ≤ in_flight t)%nat ∨ ss_active s' ≤ MaxTransfers (ss_limits s)) →
  (passed t' = passed t ∧ ss_uploads s ≤ ss_uploads s' ∨
   passed t = 0%nat ∧ passed t' = 1%nat ∧ ss_uploads s' = ss_uploads s + 1 ∧
   ss_uploads s' ≤ MaxUploads (ss_limits s)) →
  ss_quota s' - ss_quota s = Z.of_nat (held t) - Z.of_nat (held t') →
  ((solid t' ≤ solid t)%nat ∨ 0 ≤ ss_quota s') →
  ledger_ok s'.
Proof.
  intros [L1 L2 L3 L4 L5 L6] Hi Ht Hl Ha Hf Hu Hq Hs.
  pose proof (msum_insert_Some busy _ _ t' _ Hi). pose proof (msum_insert_Some in_flight _ _ t' _ Hi).
  pose proof (msum_insert_Some passed _ _ t' _ Hi). pose proof (msum_insert_Some held _ _ t' _ Hi).
  pose proof (msum_insert_Some solid _ _ t' _ Hi).
  pose proof (msum_le in_flight busy (<[i := t']> (ss_transfers s)) (λ _ t _, in_flight_busy t)).
  pose proof (msum_le solid held (<[i := t']> (ss_transfers s)) (λ _ t _, solid_held t)).
  split; rewrite ?Ht, ?Hl; lia.
Qed.

(** The phases of [upload] after its count. *)
Definition upload_phase (p : phase) : bool :=
  match p with
  | PCounted | PChecked | PReceiving _ | PWriting _ _ | PDebited _ _ | POverdrawn _ | PWritten _ _ _
  | PComplete | PFailed _ | PCleanup _ => true
  | _ => false
  end.

(** What the ledger needs to know of each request. *)
Definition data_ok (t : transfer) : Prop :=
  match tr_phase t with
  | PArrived | PRefused | PAdmitted | PChecked => tr_data t = []
  | PSending => tr_data t = [] ∧ tr_dir t = Download
  | PCounted => tr_data t = [] ∧ tr_counted t = true
  | PReceiving room => room = MaxUploadBytes - len (tr_data t)
  | PWriting room p | PDebited room p => room = MaxUploadBytes - len (tr_data t) ∧ len p ≤ room
  | PWritten room p n => room = MaxUploadBytes - len (tr_data t) ∧ (n ≤ length p)%nat
  | _ => True
  end ∧ len (tr_data t) ≤ MaxUploadBytes ∧ (tr_dir t = Download → tr_data t = []) ∧
  (upload_phase (tr_phase t) = true → tr_dir t = Upload) ∧
  (tr_phase t = PArrived ∨ tr_phase t = PAdmitted → tr_counted t = false).

Definition datas_ok (s : session) : Prop := ∀ i t, ss_transfers s !! i = Some t → data_ok t.

Lemma datas_put s i t' s' :
  datas_ok s → ss_transfers s' = <[i := t']> (ss_transfers s) → data_ok t' → datas_ok s'.
Proof.
  intros Hs Heq Ht' j u. rewrite Heq. intros [[<- <-]|[_ Hu]]%lookup_insert_Some; [done|by eapply Hs].
Qed.

Ltac tf_side :=
  unfold passed, busy, in_flight, solid, held; cbn;
  repeat match goal with
  | H : tr_phase _ = _ |- _ => rewrite H
  | H : tr_data _ = _ |- _ => rewrite H
  | H : tr_counted _ = _ |- _ => rewrite H
  end; cbn; try rewrite length_app; try rewrite length_take; unfold len in *; bool_lia.

(** One branch of a handler. *)
Ltac tf_branch :=
  split;
  [ eapply ledger_put; [eassumption|eassumption|reflexivity|reflexivity|..]; tf_side
  | eapply datas_put; [eassumption|reflexivity|]; unfold data_ok; cbn ].

Lemma handler_ledger s i t s' :
  limits_ok (ss_limits s) → ledger_ok s → datas_ok s → ss_transfers s !! i = Some t →
  handler s i t s' → ledger_ok s' ∧ datas_ok s'.
Proof.
  intros (Hl1 & Hl2 & Hl3) Hlo Hda Hi Hh. pose proof (Hda i t Hi) as (Hd1 & Hd2 & Hd3 & Hdu & Hd4).
  destruct Hh as [Hp|Hp|found Hp Hd|Hp|e Hp|Hp Hd|size Hp|ok Hp|room p Hp|room p Hp|p Hp|room p n Hp Hn
    |room p n Hp|room e Hp|Hp|ok Hp|e Hp|e Hp|e now Hp|e Hp]; rewrite Hp in Hd1, Hdu, Hd4; cbn in Hd1, Hdu.
  - unfold begin. destruct (negb _); [|destruct (_ <? _) eqn:E; cbn in E]; tf_branch; naive_solver.
  - tf_branch; naive_solver.
  - unfold open_download. destruct found; tf_branch; naive_solver.
  - destruct Hd1 as [Hd1 Hdl]. unfold read_block. destruct (ss_stopped s); [|done]. tf_branch; naive_solver.
  - destruct Hd1 as [Hd1 Hdl]. unfold end_download. destruct e; tf_branch; naive_solver.
  - unfold count_upload. specialize (Hd4 (or_intror eq_refl)).
    destruct (negb _); [|destruct (_ <? _) eqn:E; cbn in E]; tf_branch; naive_solver.
  - destruct Hd1 as [Hd1 Hc]. unfold check_upload. cbn zeta. repeat case_match; tf_branch; naive_solver.
  - assert (len (tr_data t) = 0) by (by rewrite Hd1).
    unfold open_partial. repeat case_match; tf_branch; naive_solver lia.
  - unfold write_check. destruct (ss_stopped s); [|destruct (_ <? _) eqn:E]; tf_branch; try naive_solver.
    apply Z.ltb_ge in E. naive_solver.
  - unfold write_debit. destruct (_ <? _) eqn:E; cbn in E; tf_branch; naive_solver.
  - tf_branch; naive_solver.
  - destruct Hd1 as [-> Hp']. specialize (Hdu eq_refl). tf_branch. rewrite len_app, len_take. unfold len in *.
    split_and!; [lia|lia|lia|congruence|done|naive_solver].
  - destruct Hd1 as [-> Hp']. unfold write_settle. destruct (_ =? _) eqn:E; tf_branch; naive_solver.
  - unfold end_upload. destruct e; tf_branch; naive_solver.
  - tf_branch; naive_solver.
  - unfold link. destruct (target t); [destruct (bool_decide _); [|destruct ok]|]; tf_branch; naive_solver.
  - tf_branch; naive_solver.
  - unfold cleanup. destruct (partial t), e; tf_branch; naive_solver.
  - unfold done_used. destruct e; tf_branch; naive_solver.
  - unfold done_leave. destruct e; tf_branch; naive_solver.
Qed.

(** ** The upload directory *)

(** The partial file of the request is its own. *)
Definition owns (t : transfer) : bool :=
  match tr_phase t with
  | PReceiving _ | PWriting _ _ | PDebited _ _ | POverdrawn _ | PWritten _ _ _ | PComplete
  | PFailed _ | PCleanup _ => true
  | _ => false
  end.

(** The upload has published its file. *)
Definition linked (t : transfer) : bool :=
  match tr_dir t, tr_phase t with
  | Upload, (PCleanup None | PEnding None | PLeaving None | PDone None) => true
  | _, _ => false
  end.

Record inbox_ok (s : session) : Prop := {
  io_own i t : ss_transfers s !! i = Some t → owns t = true →
    ∃ k, partial t = Some k ∧ ss_inbox s !! k = Some (Some i);
  io_link i t : ss_transfers s !! i = Some t → linked t = true →
    ∃ k, target t = Some k ∧ ss_inbox s !! k = Some (Some i) ∧ partial t ≠ Some k;
  io_file k i : ss_inbox s !! k = Some (Some i) → ∃ t, ss_transfers s !! i = Some t ∧
    (owns t = true ∧ partial t = Some k ∨ linked t = true ∧ target t = Some k);
}.

(** A request that neither gains nor loses a file. *)
Lemma inbox_put s i t s' t' :
  inbox_ok s → ss_transfers s !! i = Some t → ss_transfers s' = <[i := t']> (ss_transfers s) →
  ss_inbox s' = ss_inbox s → tr_name t' = tr_name t → owns t' = owns t → linked t' = linked t →
  inbox_ok s'.
Proof.
  intros [Ho Hl Hf] Hi Ht Hb Hn Hown Hlk.
  assert (partial t' = partial t) as Hpa by (unfold partial; by rewrite Hn).
  assert (target t' = target t) as Hta by (unfold target; by rewrite Hn).
  split; rewrite Ht, Hb.
  - intros j u [[<- <-]|[_ Hu]]%lookup_insert_Some; [rewrite Hown, Hpa; by apply Ho|by apply Ho].
  - intros j u [[<- <-]|[_ Hu]]%lookup_insert_Some; [rewrite Hlk, Hpa, Hta; by apply Hl|by apply Hl].
  - intros k j Hk. destruct (Hf k j Hk) as (u & Hu & Hor). destruct (decide (j = i)) as [->|Hne].
    + exists t'. rewrite lookup_insert_eq. simplify_eq. rewrite Hown, Hlk, Hpa, Hta. done.
    + exists u. by rewrite lookup_insert_ne.
Qed.

(** A request that gains a file of a name no file had. *)
Lemma inbox_gain s i t s' t' k :
  inbox_ok s → ss_transfers s !! i = Some t → ss_transfers s' = <[i := t']> (ss_transfers s) →
  ss_inbox s !! k = None → ss_inbox s' = <[k := Some i]> (ss_inbox s) →
  tr_name t' = tr_name t → (owns t = true → owns t' = true) → linked t = false →
  (owns t = false ∧ owns t' = true ∧ linked t' = false ∧ partial t = Some k ∨
   owns t = true ∧ linked t' = true ∧ target t = Some k) →
  inbox_ok s'.
Proof.
  intros [Ho Hl Hf] Hi Ht Hk Hb Hn Hown Hlk Hcase.
  assert (partial t' = partial t) as Hpa by (unfold partial; by rewrite Hn).
  assert (target t' = target t) as Hta by (unfold target; by rewrite Hn).
  split; rewrite Ht, Hb.
  - intros j u [[<- <-]|[Hne Hu]]%lookup_insert_Some Hou.
    + destruct Hcase as [(_ & _ & _ & Hp)|(Hot & _ & _)].
      * exists k. rewrite Hpa, lookup_insert_eq. done.
      * destruct (Ho i t Hi Hot) as (k0 & Hp & Hin). exists k0. rewrite Hpa.
        rewrite lookup_insert_ne by congruence. done.
    + destruct (Ho j u Hu Hou) as (k0 & Hp & Hin). exists k0. rewrite lookup_insert_ne by congruence. done.
  - intros j u [[<- <-]|[Hne Hu]]%lookup_insert_Some Hlu.
    + destruct Hcase as [(_ & _ & ? & _)|(Hot & _ & Htg)]; [congruence|].
      exists k. rewrite Hta, Hpa, lookup_insert_eq. split_and!; [done|done|].
      destruct (Ho i t Hi Hot) as (k0 & Hp & Hin). congruence.
    + destruct (Hl j u Hu Hlu) as (k0 & Hp & Hin & Hne'). exists k0. rewrite lookup_insert_ne by congruence. done.
  - intros k0 j [[<- [= <-]]|[Hne Hk0]]%lookup_insert_Some.
    + exists t'. rewrite lookup_insert_eq, Hpa, Hta. naive_solver.
    + destruct (Hf k0 j Hk0) as (u & Hu & Hor). destruct (decide (j = i)) as [->|Hji].
      * exists t'. rewrite lookup_insert_eq. simplify_eq. rewrite Hpa, Hta. naive_solver congruence.
      * exists u. by rewrite lookup_insert_ne.
Qed.

(** A request that removes its partial file. *)
Lemma inbox_lose s i t s' t' k :
  inbox_ok s → ss_transfers s !! i = Some t → ss_transfers s' = <[i := t']> (ss_transfers s) →
  owns t = true → partial t = Some k → ss_inbox s' = delete k (ss_inbox s) →
  tr_name t' = tr_name t → owns t' = false → linked t' = linked t →
  inbox_ok s'.
Proof.
  intros [Ho Hl Hf] Hi Ht Hot Hp Hb Hn Hown Hlk.
  assert (partial t' = partial t) as Hpa by (unfold partial; by rewrite Hn).
  assert (target t' = target t) as Hta by (unfold target; by rewrite Hn).
  destruct (Ho i t Hi Hot) as (k' & Hp' & Hin). assert (k' = k) as -> by congruence.
  split; rewrite Ht, Hb.
  - intros j u [[<- <-]|[Hne Hu]]%lookup_insert_Some Hou; [congruence|].
    destruct (Ho j u Hu Hou) as (k0 & Hp0 & Hin0). exists k0. rewrite lookup_delete_ne by congruence. done.
  - intros j u [[<- <-]|[Hne Hu]]%lookup_insert_Some Hlu.
    + rewrite Hlk in Hlu. destruct (Hl i t Hi Hlu) as (k0 & Htg & Hin0 & Hne). exists k0.
      rewrite Hta, Hpa, lookup_delete_ne by congruence. done.
    + destruct (Hl j u Hu Hlu) as (k0 & Htg & Hin0 & Hne'). exists k0.
      rewrite lookup_delete_ne by congruence. done.
  - intros k0 j [Hne Hk0]%lookup_delete_Some. destruct (Hf k0 j Hk0) as (u & Hu & Hor).
    destruct (decide (j = i)) as [->|Hji].
    + exists t'. rewrite lookup_insert_eq. simplify_eq. rewrite Hta, Hlk. naive_solver.
    + exists u. by rewrite lookup_insert_ne.
Qed.

Ltac tf_keep Hp :=
  eapply inbox_put; [eassumption|eassumption|reflexivity|reflexivity|reflexivity|..];
  unfold owns, linked; cbn; rewrite ?Hp; repeat case_match; congruence.

Lemma handler_inbox s i t s' :
  datas_ok s → inbox_ok s → ss_transfers s !! i = Some t → handler s i t s' → inbox_ok s'.
Proof.
  intros Hda Hs Hi Hh. pose proof (Hda i t Hi) as (Hd1 & _ & _ & Hup & _).
  destruct Hh as [Hp|Hp|found Hp Hd|Hp|e Hp|Hp Hd|size Hp|ok Hp|room p Hp|room p Hp|p Hp|room p n Hp Hn
    |room p n Hp|room e Hp|Hp|ok Hp|e Hp|e Hp|e now Hp|e Hp]; rewrite Hp in Hd1, Hup; cbn in Hd1, Hup.
  - unfold begin. repeat case_match; tf_keep Hp.
  - tf_keep Hp.
  - tf_keep Hp.
  - unfold read_block. case_match; [tf_keep Hp|done].
  - destruct Hd1 as [_ Hdl]. unfold end_download. tf_keep Hp.
  - unfold count_upload. repeat case_match; tf_keep Hp.
  - unfold check_upload. cbn zeta. repeat case_match; tf_keep Hp.
  - unfold open_partial. destruct (partial t) as [k|] eqn:Ek; [|tf_keep Hp].
    case_bool_decide as Hin; [tf_keep Hp|]. destruct ok; [|tf_keep Hp].
    eapply (inbox_gain s i t _ _ k); [done|done|reflexivity|by apply eq_None_not_Some|reflexivity|reflexivity|..];
      unfold owns, linked; cbn; rewrite ?Hp; repeat case_match; naive_solver.
  - unfold write_check. repeat case_match; tf_keep Hp.
  - unfold write_debit. cbn zeta. repeat case_match; tf_keep Hp.
  - tf_keep Hp.
  - tf_keep Hp.
  - unfold write_settle. repeat case_match; tf_keep Hp.
  - unfold end_upload. repeat case_match; tf_keep Hp.
  - tf_keep Hp.
  - unfold link. destruct (target t) as [k|] eqn:Ek; [|tf_keep Hp].
    case_bool_decide as Hin; [tf_keep Hp|]. destruct ok; [|tf_keep Hp].
    eapply (inbox_gain s i t _ _ k); [done|done|reflexivity|by apply eq_None_not_Some|reflexivity|reflexivity|..];
      unfold owns, linked; cbn; rewrite ?Hp, ?Hup; naive_solver.
  - tf_keep Hp.
  - unfold cleanup. assert (owns t = true) as Hot by (unfold owns; by rewrite Hp).
    destruct (io_own _ Hs i t Hi Hot) as (k & Hk & _). rewrite Hk.
    eapply (inbox_lose s i t _ _ k); [done|done|reflexivity|done|done|reflexivity|reflexivity|..];
      unfold owns, linked; cbn; rewrite ?Hp; repeat case_match; naive_solver.
  - unfold done_used. repeat case_match; tf_keep Hp.
  - tf_keep Hp.
Qed.

(** ** Who is served *)

Definition auth_ok (s : session) (t : transfer) : Prop :=
  (tr_phase t = PArrived ∨ tr_phase t = PDone (Some ErrAccessDenied) ∨
   allowed (ss_allow s) (tr_remote t) = true) ∧
  (upload_phase (tr_phase t) = true ∨ linked t = true ∨ tr_data t ≠ [] → ss_allowUpload s = true).

Definition auths_ok (s : session) : Prop := ∀ i t, ss_transfers s !! i = Some t → auth_ok s t.

Lemma auths_put s i t' s' :
  auths_ok s → ss_transfers s' = <[i := t']> (ss_transfers s) → ss_allow s' = ss_allow s →
  ss_allowUpload s' = ss_allowUpload s → auth_ok s t' → auths_ok s'.
Proof.
  intros Hs Heq Ha Hu Ht' j u. unfold auth_ok in *. rewrite Heq, Ha, Hu.
  intros [[<- <-]|[_ Hj]]%lookup_insert_Some; [done|by eapply Hs].
Qed.

Ltac tf_auth Hp :=
  eapply auths_put; [eassumption|reflexivity|reflexivity|reflexivity|];
  unfold auth_ok, linked in *; cbn; rewrite ?Hp in *; repeat case_match; try naive_solver congruence.

Lemma handler_auth s i t s' :
  datas_ok s → auths_ok s → ss_transfers s !! i = Some t → handler s i t s' → auths_ok s'.
Proof.
  intros Hda Hs Hi Hh. pose proof (Hs i t Hi) as [Ha Hu]. pose proof (Hda i t Hi) as (Hd & _).
  destruct Hh as [Hp|Hp|found Hp Hdr|Hp|e Hp|Hp Hdr|size Hp|ok Hp|room p Hp|room p Hp|p Hp|room p n Hp Hn
    |room p n Hp|room e Hp|Hp|ok Hp|e Hp|e Hp|e now Hp|e Hp]; rewrite Hp in Hd; cbn in Hd.
  - unfold begin. destruct (allowed _ _) eqn:E; cbn; repeat case_match; tf_auth Hp.
  - tf_auth Hp.
  - tf_auth Hp.
  - unfold read_block. case_match; [tf_auth Hp|done].
  - tf_auth Hp.
  - unfold count_upload. destruct (ss_allowUpload s) eqn:E; cbn; [case_match|]; tf_auth Hp.
  - unfold check_upload. cbn zeta. repeat case_match; tf_auth Hp.
  - unfold open_partial. destruct (partial t); [case_bool_decide; [|destruct ok]|]; tf_auth Hp.
  - unfold write_check. repeat case_match; tf_auth Hp.
  - tf_auth Hp.
  - tf_auth Hp.
  - tf_auth Hp.
  - tf_auth Hp.
  - tf_auth Hp.
  - tf_auth Hp.
  - unfold link. destruct (target t); [case_bool_decide; [|destruct ok]|]; tf_auth Hp.
  - tf_auth Hp.
  - unfold cleanup. destruct (partial t); tf_auth Hp.
  - unfold done_used. destruct e; tf_auth Hp.
  - tf_auth Hp.
Qed.

(** ** The session invariant *)

Record session_ok (s : session) : Prop := {
  so_limits : limits_ok (ss_limits s);
  so_ledger : ledger_ok s;
  so_data : datas_ok s;
  so_inbox : inbox_ok s;
  so_auth : auths_ok s;
}.

Lemma handler_limits s i t s' : handler s i t s' → ss_limits s' = ss_limits s.
Proof.
  destruct 1; unfold begin, refuse, open_download, read_block, end_download, count_upload, check_upload,
    open_partial, write_check, write_debit, write_refund, write_file, write_settle, end_upload, link,
    give_back, cleanup, done_used, done_leave; cbn zeta; repeat case_match; reflexivity.
Qed.

Lemma new_session_ok allow limits up now files : limits_ok limits → session_ok (new_session allow limits up now files).
Proof.
  intros Hl. pose proof Hl as (H1 & H2 & H3). split; [done|..].
  - split; cbn; rewrite ?msum_empty; lia.
  - intros i t. cbn. by rewrite lookup_empty.
  - split; intros k t; cbn; [by rewrite lookup_empty..|]. intros [_ ?]%lookup_gset_to_gmap_Some. done.
  - intros i t. cbn. by rewrite lookup_empty.
Qed.

Lemma arrive_ok s i dir name remote :
  session_ok s → ss_transfers s !! i = None →
  session_ok (put s i (MkTransfer dir name remote PArrived [] false)).
Proof.
  intros [Hl [L1 L2 L3 L4 L5 L6] Hd [Io Il If] Ha] Hi. split; [done|..].
  - split; cbn; rewrite msum_insert_None by done; cbn; lia.
  - intros j u; cbn; intros [[<- <-]|[_ Hu]]%lookup_insert_Some; [|by eapply Hd]. unfold data_ok. cbn.
    split_and!; [done|by vm_compute|done|done|done].
  - split; cbn.
    + intros j u [[<- <-]|[_ Hu]]%lookup_insert_Some; [done|by apply Io].
    + intros j u [[<- <-]|[_ Hu]]%lookup_insert_Some; [by destruct dir|by apply Il].
    + intros k j Hk. destruct (If k j Hk) as (u & Hu & Hor). exists u.
      rewrite lookup_insert_ne by congruence. done.
  - intros j u; cbn; intros [[<- <-]|[_ Hu]]%lookup_insert_Some; [|by eapply Ha].
    split; cbn; [by left|]. unfold linked. cbn. destruct dir; naive_solver.
Qed.

Lemma sstep_session_ok s s' : session_ok s → sstep s s' → session_ok s'.
Proof.
  intros Hs Hst. destruct Hst as [i dir name remote Hi| |i t s' Hi Hh].
  - by apply arrive_ok.
  - destruct Hs as [Hl [] Hd [] Ha]. split; [done|by constructor|done|by constructor|done].
  - destruct Hs as [Hl Hlo Hd Hi' Ha]. destruct (handler_ledger s i t s') as [Hlo' Hd']; [done..|].
    split; [erewrite handler_limits; eassumption|exact Hlo'|exact Hd'|by apply (handler_inbox s i t)|by apply (handler_auth s i t)].
Qed.

Lemma ssteps_session_ok s s' : session_ok s → ssteps s s' → session_ok s'.
Proof. intros Hs Hss. induction Hss as [|s s1 s' Hst _ IH]; [done|]. by apply IH, (sstep_session_ok s). Qed.

Lemma reach_ok allow limits up now files s :
  limits_ok limits → ssteps (new_session allow limits up now files) s → session_ok s.
Proof. intros Hl. by apply ssteps_session_ok, new_session_ok. Qed.

(** ** What stays *)

Lemma sstep_config s s' :
  sstep s s' → ss_limits s' = ss_limits s ∧ ss_allow s' = ss_allow s ∧ ss_allowUpload s' = ss_allowUpload s.
Proof.
  destruct 1 as [| |i t s' _ Hh]; [done..|].
  destruct Hh; unfold begin, refuse, open_download, read_block, end_download, count_upload, check_upload,
    open_partial, write_check, write_debit, write_refund, write_file, write_settle, end_upload, link,
    give_back, cleanup, done_used, done_leave; cbn zeta; repeat case_match; done.
Qed.

Lemma ssteps_config s s' :
  ssteps s s' → ss_limits s' = ss_limits s ∧ ss_allow s' = ss_allow s ∧ ss_allowUpload s' = ss_allowUpload s.
Proof.
  induction 1 as [|s s1 s' Hst _ IH]; [done|]. apply sstep_config in Hst. naive_solver congruence.
Qed.

(** A step of one handler leaves the other requests alone. *)
Lemma handler_frame s i t s' :
  ss_transfers s !! i = Some t → handler s i t s' →
  ∃ t', ss_transfers s' = <[i := t']> (ss_transfers s) ∧ tr_dir t' = tr_dir t ∧ tr_name t' = tr_name t ∧
    tr_remote t' = tr_remote t ∧ (linked t = true → linked t' = true ∧ tr_data t' = tr_data t).
Proof.
  intros Hi Hh.
  destruct Hh as [Hp|Hp|found Hp Hdr|Hp|e Hp|Hp Hdr|size Hp|ok Hp|room p Hp|room p Hp|p Hp|room p n Hp Hn
    |room p n Hp|room e Hp|Hp|ok Hp|e Hp|e Hp|e now Hp|e Hp];
    unfold begin, refuse, open_download, read_block, end_download, count_upload, check_upload,
    open_partial, write_check, write_debit, write_refund, write_file, write_settle, end_upload, link,
    give_back, cleanup, done_used, done_leave; cbn zeta; repeat case_match;
    (exists t; by rewrite insert_id) ||
    (eexists; split_and!; [reflexivity|reflexivity|reflexivity|reflexivity|];
     unfold linked; cbn; rewrite Hp; destruct (tr_dir t); congruence || naive_solver).
Qed.

Lemma sstep_linked s s' i t :
  ss_transfers s !! i = Some t → linked t = true → sstep s s' →
  ∃ t', ss_transfers s' !! i = Some t' ∧ linked t' = true ∧ tr_name t' = tr_name t ∧ tr_data t' = tr_data t.
Proof.
  intros Hi Hlk Hst. destruct Hst as [j dir name remote Hj| |j u s' Hj Hh].
  - exists t. cbn. rewrite lookup_insert_ne by congruence. done.
  - by exists t.
  - destruct (handler_frame s j u s' Hj Hh) as (u' & Heq & Hd & Hn & _ & Hl). rewrite Heq.
    destruct (decide (j = i)) as [->|Hne].
    + assert (u = t) as -> by congruence. destruct (Hl Hlk). exists u'. by rewrite lookup_insert_eq.
    + exists t. rewrite lookup_insert_ne by done. done.
Qed.

Lemma ssteps_linked s s' i t :
  ss_transfers s !! i = Some t → linked t = true → ssteps s s' →
  ∃ t', ss_transfers s' !! i = Some t' ∧ linked t' = true ∧ tr_name t' = tr_name t ∧ tr_data t' = tr_data t.
Proof.
  intros Hi Hlk Hst. revert t Hi Hlk. induction Hst as [s|s s1 s' Hst _ IH]; intros t Hi Hlk; [by exists t|].
  destruct (sstep_linked s s1 i t Hi Hlk Hst) as (t1 & H1 & H2 & H3 & H4).
  destruct (IH t1 H1 H2) as (t' & ? & ? & ? & ?). exists t'. split_and!; [done|done|congruence..].
Qed.

Lemma sstep_old s s' k :
  session_ok s → sstep s s' → ss_inbox s !! k = Some None → ss_inbox s' !! k = Some None.
Proof.
  intros Hs Hst Hk. destruct Hst as [| |i t s' Hi Hh]; [done..|].
  destruct Hh as [Hp|Hp|found Hp Hdr|Hp|e Hp|Hp Hdr|size Hp|ok Hp|room p Hp|room p Hp|p Hp|room p n Hp Hn
    |room p n Hp|room e Hp|Hp|ok Hp|e Hp|e Hp|e now Hp|e Hp];
    unfold begin, refuse, open_download, read_block, end_download, count_upload, check_upload,
    write_check, write_debit, write_refund, write_file, write_settle, end_upload,
    give_back, done_used, done_leave; cbn zeta; repeat case_match; try done.
  - unfold open_partial. destruct (partial t) as [k'|]; [|done].
    case_bool_decide as Hin; [done|]. destruct ok; [|done]. cbn.
    rewrite lookup_insert_ne; [done|]. intros ->. by destruct Hin; rewrite Hk.
  - unfold link. destruct (target t) as [k'|]; [|done].
    case_bool_decide as Hin; [done|]. destruct ok; [|done]. cbn.
    rewrite lookup_insert_ne; [done|]. intros ->. by destruct Hin; rewrite Hk.
  - unfold cleanup. destruct (io_own _ (so_inbox _ Hs) i t Hi) as (k' & Hk' & Hin);
      [unfold owns; by rewrite Hp|].
    rewrite Hk'. cbn. rewrite lookup_delete_ne by congruence. done.
Qed.

Lemma ssteps_old s s' k :
  session_ok s → ssteps s s' → ss_inbox s !! k = Some None → ss_inbox s' !! k = Some None.
Proof.
  intros Hs Hst Hk. induction Hst as [|s s1 s' Hst _ IH]; [done|].
  apply IH; [by eapply sstep_session_ok|by eapply sstep_old].
Qed.

(** The bytes a request has on disk and still in the ledger. *)
Definition kept (t : transfer) : nat :=
  match tr_phase t with
  | PCleanup (Some _) => 0
  | _ => if owns t || linked t then length (tr_data t) else 0
  end.

Lemma kept_solid t : (kept t ≤ solid t)%nat.
Proof.
  unfold kept, solid, held, owns, linked. destruct (tr_phase t) as [| | | | | | | | | | | | | [] | [] | [] | []], (tr_dir t); cbn; lia.
Qed.

(** C2: Of a session started with positive limits, at any moment of any
    interleaving of its requests: no more transfers are in flight than
    [MaxTransfers], no more than [MaxUploads] uploads have passed the count
    over its whole life, no upload holds more than [MaxUploadBytes], and what
    its uploads have published or are receiving is within [UploadQuota]. *)
Theorem tftp_bounded allow limits up now files s :
  limits_ok limits → ssteps (new_session allow limits up now files) s →
  Z.of_nat (msum in_flight (ss_transfers s)) ≤ MaxTransfers limits ∧
  Z.of_nat (msum passed (ss_transfers s)) ≤ MaxUploads limits ∧
  Z.of_nat (msum kept (ss_transfers s)) ≤ UploadQuota limits ∧
  (∀ i t, ss_transfers s !! i = Some t → len (tr_data t) ≤ MaxUploadBytes).
Proof.
  intros Hl Hss. destruct (reach_ok _ _ _ _ _ _ Hl Hss) as [_ [L1 L2 L3 L4 L5 L6] Hd _ _].
  destruct (ssteps_config _ _ Hss) as (Hlim & _ & _). cbn in Hlim. rewrite Hlim in *.
  pose proof (msum_le kept solid (ss_transfers s) (λ _ t _, kept_solid t)).
  split_and!; [done|done|lia|]. intros i t Ht. by apply (Hd i t Ht).
Qed.

(** C24: The upload directory never loses or changes a file: one there before
    the session stays as it was, and one an upload published stays that
    upload's, with the bytes it had when it was published, whatever the other
    requests do, refused, failed or racing for the same name. *)
Theorem tftp_published_kept allow limits up now files s s' :
  limits_ok limits → ssteps (new_session allow limits up now files) s → ssteps s s' →
  (∀ k, k ∈ files → ss_inbox s' !! k = Some None) ∧
  (∀ i t, ss_transfers s !! i = Some t → linked t = true →
    ∃ k t', target t = Some k ∧ ss_inbox s !! k = Some (Some i) ∧ ss_inbox s' !! k = Some (Some i) ∧
      ss_transfers s' !! i = Some t' ∧ tr_data t' = tr_data t).
Proof.
  intros Hl H1 H2. pose proof (reach_ok _ _ _ _ _ _ Hl H1) as Hs.
  pose proof (ssteps_session_ok _ _ Hs H2) as Hs'. split.
  - intros k Hk. apply (ssteps_old s); [done|done|].
    apply (ssteps_old (new_session allow limits up now files)); [by apply new_session_ok|done|].
    by apply lookup_gset_to_gmap_Some.
  - intros i t Ht Hlk. destruct (ssteps_linked s s' i t Ht Hlk H2) as (t' & Ht' & Hlk' & Hn & Hd).
    destruct (io_link _ (so_inbox _ Hs) i t Ht Hlk) as (k & Hk & Hin & _).
    destruct (io_link _ (so_inbox _ Hs') i t' Ht' Hlk') as (k' & Hk' & Hin' & _).
    assert (k' = k) as -> by (unfold target in *; congruence). eauto 8.
Qed.

(** Nothing is done for an address outside the allowed prefixes, and
    nothing is written unless the session allows uploads: a request from
    another address is refused before it counts, and a file the session made
    comes from an allowed address and an [AllowUpload] session. *)
Theorem tftp_authorised allow limits up now files s :
  limits_ok limits → ssteps (new_session allow limits up now files) s →
  (∀ i t, ss_transfers s !! i = Some t → allowed allow (tr_remote t) = false →
    tr_phase t = PArrived ∨ tr_phase t = PDone (Some ErrAccessDenied)) ∧
  (∀ k i, ss_inbox s !! k = Some (Some i) → up = true ∧
    ∃ t, ss_transfers s !! i = Some t ∧ tr_dir t = Upload ∧ allowed allow (tr_remote t) = true).
Proof.
  intros Hl Hss. destruct (reach_ok _ _ _ _ _ _ Hl Hss) as [_ _ Hd Hin Ha].
  destruct (ssteps_config _ _ Hss) as (_ & Hal & Hup). cbn in Hal, Hup. split.
  - intros i t Ht Hno. destruct (Ha i t Ht) as [Hor _]. rewrite Hal in Hor. naive_solver congruence.
  - intros k i Hk. destruct (io_file _ Hin k i Hk) as (t & Ht & Hor).
    destruct (Ha i t Ht) as [Hor' Hu]. destruct (Hd i t Ht) as (_ & _ & _ & Hdir & _).
    rewrite Hal, Hup in *. unfold owns, linked in *.
    split; [apply Hu; unfold linked; destruct Hor as [[Hx _]|[Hx _]]; [left; revert Hx|by right; left]; by destruct (tr_phase t)|].
    exists t. split; [done|]. split.
    + destruct Hor as [[Hx _]|[Hx _]]; [apply Hdir; revert Hx; by destruct (tr_phase t)|by destruct (tr_dir t)].
    + destruct Hor' as [Hp|[Hp|?]]; [..|done]; rewrite Hp in Hor; destruct (tr_dir t); naive_solver.
Qed.

(** When every request has ended, none counts as active, the upload
    directory holds, besides what was there before, exactly the files of the
    uploads that succeeded, and the quota has lost exactly their bytes. *)
Theorem tftp_settled allow limits up now files s :
  limits_ok limits → ssteps (new_session allow limits up now files) s →
  (∀ i t, ss_transfers s !! i = Some t → ∃ e, tr_phase t = PDone e) →
  ss_active s = 0 ∧
  ss_quota s = UploadQuota limits - Z.of_nat (msum (λ t, if linked t then length (tr_data t) else 0%nat) (ss_transfers s)) ∧
  (∀ k i, ss_inbox s !! k = Some (Some i) ↔
    ∃ t, ss_transfers s !! i = Some t ∧ tr_dir t = Upload ∧ tr_phase t = PDone None ∧ target t = Some k).
Proof.
  intros Hl Hss Hall. destruct (reach_ok _ _ _ _ _ _ Hl Hss) as [_ [L1 L2 L3 L4 L5 L6] Hd Hin Ha].
  destruct (ssteps_config _ _ Hss) as (Hlim & _ & _). cbn in Hlim. rewrite Hlim in *. split_and!.
  - opose proof (msum_bound busy (ss_transfers s) 0 _) as Hb; [|lia].
    intros i t Ht. destruct (Hall i t Ht) as (e & He). unfold busy. by rewrite He.
  - assert (∀ i t, ss_transfers s !! i = Some t → held t = if linked t then length (tr_data t) else 0%nat) as Hh.
    { intros i t Ht. destruct (Hall i t Ht) as (e & He), (Hd i t Ht) as (_ & _ & Hdl & _).
      unfold held, linked. rewrite He. destruct e, (tr_dir t); [done|done|by rewrite Hdl|done]. }
    enough (msum held (ss_transfers s) =
            msum (λ t, if linked t then length (tr_data t) else 0%nat) (ss_transfers s)) by lia.
    apply Nat.le_antisymm; apply msum_le; intros i t Ht; by rewrite (Hh i t Ht).
  - intros k i. split.
    + intros Hk. destruct (io_file _ Hin k i Hk) as (t & Ht & Hor). exists t.
      destruct (Hall i t Ht) as (e & He). unfold owns, linked in Hor. rewrite He in Hor.
      destruct e, (tr_dir t); naive_solver.
    + intros (t & Ht & Hdir & Hp & Htg). destruct (io_link _ Hin i t Ht) as (k' & Hk' & Hi' & _);
        [unfold linked; by rewrite Hdir, Hp|]. congruence.
Qed.

(** ** Stopping *)

(** The steps a handler still has once the session is stopped. *)
Definition work (t : transfer) : nat :=
  match tr_phase t with
  | PDone _ => 0
  | PRefused | PLeaving _ => 1
  | PEnding _ => 2
  | PSending | PCleanup _ => 3
  | PFailed _ => 4
  | PComplete | POverdrawn _ => 5
  | PReceiving _ => 6
  | PWritten _ _ _ | PChecked => 7
  | PDebited _ _ | PCounted => 8
  | PWriting _ _ | PAdmitted => 9
  | PArrived => 10
  end.

(** A step of some handler. *)
Inductive hstep (s : session) : session → Prop :=
| hs_handler i t s' : ss_transfers s !! i = Some t → handler s i t s' → hstep s s'.

Lemma hstep_ssteps n s s' : nsteps hstep n s s' → ssteps s s'.
Proof.
  induction 1 as [|n s s1 s' [i t s1' Hi Hh] _ IH]; [done|]. eapply rtc_l; [by eapply s_handler|done].
Qed.

Lemma handler_work s i t s' :
  ss_stopped s = true → ss_transfers s !! i = Some t → handler s i t s' →
  ss_stopped s' = true ∧ ∃ t', ss_transfers s' = <[i := t']> (ss_transfers s) ∧ (work t' < work t)%nat.
Proof.
  intros Hst Hi Hh.
  destruct Hh as [Hp|Hp|found Hp Hdr|Hp|e Hp|Hp Hdr|size Hp|ok Hp|room p Hp|room p Hp|p Hp|room p n Hp Hn
    |room p n Hp|room e Hp|Hp|ok Hp|e Hp|e Hp|e now Hp|e Hp];
    unfold begin, refuse, open_download, read_block, end_download, count_upload, check_upload,
    open_partial, write_check, write_debit, write_refund, write_file, write_settle, end_upload, link,
    give_back, cleanup, done_used, done_leave; rewrite ?Hst; cbn zeta; repeat case_match;
    (split; [exact Hst|]; eexists; split; [reflexivity|]; unfold work; rewrite Hp; cbn; repeat case_match; lia).
Qed.

Lemma hstep_work s s' :
  ss_stopped s = true → hstep s s' →
  ss_stopped s' = true ∧ (msum work (ss_transfers s') < msum work (ss_transfers s))%nat ∧
  size (ss_transfers s') = size (ss_transfers s).
Proof.
  intros Hst [i t s1 Hi Hh]. destruct (handler_work s i t s1 Hst Hi Hh) as (Hst' & t' & Heq & Hw).
  split; [done|]. rewrite Heq. pose proof (msum_insert_Some work _ i t' t Hi). split; [lia|].
  apply map_size_insert_Some. eauto.
Qed.

(** A handler that has not ended can go on. *)
Lemma handler_progress s i t : (∃ e, tr_phase t = PDone e) ∨ ∃ s', handler s i t s'.
Proof.
  destruct (tr_phase t) eqn:Hp; [..|by left; eauto]; right.
  - eexists. by apply h_begin.
  - eexists. by apply h_refuse.
  - destruct (tr_dir t) eqn:Hd; eexists; [by apply (h_open_download _ _ _ true)|by apply h_count_upload].
  - eexists. by apply (h_end_download _ _ _ None).
  - eexists. by apply (h_check_upload _ _ _ None).
  - eexists. by apply (h_open_partial _ _ _ true).
  - eexists. by eapply (h_end_upload _ _ _ _ None).
  - eexists. by eapply h_write_debit.
  - eexists. by eapply (h_write_file _ _ _ _ _ (length p)).
  - eexists. by eapply h_write_refund.
  - eexists. by eapply h_write_settle.
  - eexists. by apply (h_link _ _ _ true).
  - eexists. by eapply h_give_back.
  - eexists. by eapply h_cleanup.
  - eexists. by eapply (h_done_used _ _ _ _ 0).
  - eexists. by eapply h_done_leave.
Qed.

(** Once a session is stopped every transfer fails at its next block: the
    handlers have at most ten steps each, in any order, and as long as they
    have not all ended one of them can go on; when they have, nothing counts
    as active, so waiting for them ends. *)
Theorem tftp_stop_drains allow limits up now files s n s' :
  limits_ok limits → ssteps (new_session allow limits up now files) s → ss_stopped s = true →
  nsteps hstep n s s' →
  (n ≤ 10 * size (ss_transfers s))%nat ∧
  ((∃ s'', hstep s' s'') ∨
   ss_active s' = 0 ∧ ∀ i t, ss_transfers s' !! i = Some t → ∃ e, tr_phase t = PDone e).
Proof.
  intros Hl Hss Hst Hn. split.
  - opose proof (msum_bound work (ss_transfers s) 10 _) as Hb;
      [intros i t _; unfold work; destruct (tr_phase t); lia|].
    enough (n + msum work (ss_transfers s') ≤ msum work (ss_transfers s))%nat by lia.
    clear Hb Hss. induction Hn as [|n s s1 s' Hs _ IH]; [lia|].
    destruct (hstep_work _ _ Hst Hs) as (Hst1 & Hw & _). specialize (IH Hst1). lia.
  - assert (session_ok s') as [_ Hlo _ _ _].
    { apply (ssteps_session_ok s); [by eapply reach_ok|by eapply hstep_ssteps]. }
    destruct (decide (map_Forall (λ _ t, work t = 0%nat) (ss_transfers s'))) as [Hf|Hf].
    + right. assert (∀ i t, ss_transfers s' !! i = Some t → ∃ e, tr_phase t = PDone e) as Hd.
      { intros i t Ht. specialize (Hf i t Ht). unfold work in Hf. destruct (tr_phase t); try done. eauto. }
      split; [|done]. rewrite (lo_active _ Hlo).
      opose proof (msum_bound busy (ss_transfers s') 0 _) as Hb; [|lia].
      intros i t Ht. destruct (Hd i t Ht) as (e & He). unfold busy. by rewrite He.
    + left. apply map_not_Forall in Hf as (i & t & Ht & Hw); [|solve_decision].
      destruct (handler_progress s' i t) as [(e & He)|(s'' & Hh)]; [unfold work in Hw; by rewrite He in Hw|].
      exists s''. by eapply hs_handler.
Qed.
End session.

(** ** The manager *)

Record Options : Type := MkOptions {
  opt_Interface : string;
  opt_AllowUpload : bool;
  opt_AllowFrom : list Prefix;
}.

Record Config : Type := MkConfig {
  cfg_IdleTimeout : Z;
  cfg_Port : Z;
  cfg_Limits : Limits;
}.

Definition positive_or (x d : Z) : Z := if x <=? 0 then d else x.

Definition NewManager (cfg : Config) : Config :=
  let l := cfg_Limits cfg in
  MkConfig (positive_or (cfg_IdleTimeout cfg) DefaultIdleTimeout)
    (if cfg_Port cfg =? 0 then Port else cfg_Port cfg)
    (MkLimits (positive_or (MaxTransfers l) DefaultMaxTransfers)
       (positive_or (MaxLifetime l) DefaultMaxLifetime)
       (positive_or (MaxUploads l) DefaultMaxUploads)
       (positive_or (UploadQuota l) DefaultUploadQuota)).

Lemma NewManager_limits cfg : limits_ok (cfg_Limits (NewManager cfg)).
Proof.
  unfold limits_ok, NewManager, positive_or, DefaultUploadQuota, DefaultMaxTransfers, DefaultMaxUploads. cbn.
  rewrite Z.shiftl_mul_pow2 by lia. repeat case_match; bool_lia.
Qed.

(** One turn of [watchIdle]'s loop: stop for a reason, or wait. *)
Definition watch_turn (idle lifetime startedAt : Z) (now lastUsed active : Z) : StopReason + Z :=
  let left_ := startedAt + lifetime - now in
  if left_ <=? 0 then inl StopExpired
  else
    let wait := idle - (now - lastUsed) in
    if wait <=? 0 then
      if active =? 0 then inl StopIdle else inr (Z.min idle left_)
    else inr (Z.min wait left_).

(** [watchIdle] as long as nothing else stops the session: at each turn the
    loop sees the last use and the active count of [obs], and the timer fires
    [lag] late. It returns when it stopped the session, and why. *)
Fixpoint watchIdle (idle lifetime startedAt now : Z) (obs : list (Z * Z * Z)) : option (Z * StopReason) :=
  match obs with
  | [] => None
  | (lastUsed, active, lag) :: obs =>
      match watch_turn idle lifetime startedAt now lastUsed active with
      | inl reason => Some (now, reason)
      | inr wait => watchIdle idle lifetime startedAt (now + wait + lag) obs
      end
  end.

(** A session does not outlive its lifetime: whatever is in flight, and
    however late the timer fires, [watchIdle] stops it no later than that
    lateness after it expires; it stops it earlier only for idleness, when
    nothing is in flight and no transfer completed within the idle timeout;
    and the loop does not turn for ever. *)
Theorem watchIdle_lifetime idle lifetime startedAt (d : Z) obs :
  0 < idle → 0 < lifetime → 0 ≤ d → Forall (λ o, 0 ≤ o.2 ≤ d) obs → lifetime < len obs →
  ∃ t reason, watchIdle idle lifetime startedAt startedAt obs = Some (t, reason) ∧
    t ≤ startedAt + lifetime + d ∧
    (reason = StopExpired ∧ startedAt + lifetime ≤ t ∨
     reason = StopIdle ∧ t < startedAt + lifetime ∧
     ∃ lastUsed lag, (lastUsed, 0, lag) ∈ obs ∧ lastUsed + idle ≤ t).
Proof.
  intros Hi Hl Hd Hobs Hlen.
  assert (∀ now, startedAt ≤ now ≤ startedAt + lifetime + d → startedAt + lifetime - now < len obs →
    0 < len obs →
    ∃ t reason, watchIdle idle lifetime startedAt now obs = Some (t, reason) ∧
    t ≤ startedAt + lifetime + d ∧
    (reason = StopExpired ∧ startedAt + lifetime ≤ t ∨
     reason = StopIdle ∧ t < startedAt + lifetime ∧
     ∃ lastUsed lag, (lastUsed, 0, lag) ∈ obs ∧ lastUsed + idle ≤ t)) as H; [|apply H; lia].
  clear Hlen. induction Hobs as [|[[lu ac] lag] obs [Hlag1 Hlag2] Hobs IH]; intros now Hnow Hrem Hpos.
  { unfold len in Hpos. cbn in Hpos. lia. }
  cbn in Hlag1, Hlag2. unfold len in Hrem, Hpos. cbn [length] in Hrem, Hpos. cbn [watchIdle]. unfold watch_turn.
  destruct (_ <=? _) eqn:E1; [eexists _, _; split; [done|]; split; [lia|left; split; [done|bool_lia]]|].
  assert (∀ w, 0 < w ≤ startedAt + lifetime - now →
    ∃ t reason, watchIdle idle lifetime startedAt (now + w + lag) obs = Some (t, reason) ∧
      t ≤ startedAt + lifetime + d ∧
      (reason = StopExpired ∧ startedAt + lifetime ≤ t ∨
       reason = StopIdle ∧ t < startedAt + lifetime ∧
       ∃ lastUsed lag0, (lastUsed, 0, lag0) ∈ (lu, ac, lag) :: obs ∧ lastUsed + idle ≤ t)) as Hnext.
  { intros w Hw. destruct (IH (now + w + lag)) as (t & r & He & Ht & Hr); [lia|unfold len; lia|unfold len; bool_lia|].
    exists t, r. split_and!; [done|done|]. destruct Hr as [?|(? & ? & lu' & lag' & Hin & ?)]; [by left|].
    right. split_and!; [done|done|]. exists lu', lag'. split; [by right|done]. }
  destruct (idle - _ <=? 0) eqn:E2; [destruct (ac =? 0) eqn:E3|].
  - eexists _, _. split; [done|]. split; [bool_lia|]. right. split_and!; [done|bool_lia|].
    exists lu, lag. apply Z.eqb_eq in E3 as ->. split; [by left|bool_lia].
  - apply Hnext. bool_lia.
  - apply Hnext. bool_lia.
Qed.

(** [Manager]: the running session's number, the sessions [stop] marked, those
    whose [stopped] channel it closed and whose [OnStop] it called, in order,
    and the calls of [stop] in progress. *)
Inductive stop_call : Type :=
| CGot (s : nat) (reason : StopReason)
| CTearing (s : nat) (reason : StopReason)
| CDown (s : nat)
| CReturned (e : option tftp_error).

Record manager : Type := MkManager {
  mg_sess : option nat;
  mg_next : nat;
  mg_stopping : gset nat;
  mg_closed : list nat;
  mg_onStop : list (nat * StopReason);
  mg_calls : gmap nat stop_call;
}.

Definition put_call (m : manager) (c : nat) (x : stop_call) : manager :=
  MkManager (mg_sess m) (mg_next m) (mg_stopping m) (mg_closed m) (mg_onStop m) (<[c := x]> (mg_calls m)).

(** [Start]; [env] is the error of the interface, the directories or the
    socket, if any. *)
Definition Start (m : manager) (env : option tftp_error) : manager * option tftp_error :=
  match mg_sess m with
  | Some _ => (m, Some ErrRunning)
  | None =>
      match env with
      | Some e => (m, Some e)
      | None => (MkManager (Some (mg_next m)) (S (mg_next m)) (mg_stopping m) (mg_closed m) (mg_onStop m)
                   (mg_calls m), None)
      end
  end.

(** [end], up to its call of [stop]. *)
Definition end_ (m : manager) (c : nat) (reason : StopReason) : manager :=
  match mg_sess m with
  | None => put_call m c (CReturned (Some ErrNotRunning))
  | Some s => put_call m c (CGot s reason)
  end.

(** [stop]: its first critical section, [Shutdown] to [OnStop], and its last. *)
Definition stop_mark (m : manager) (c s : nat) (reason : StopReason) : manager :=
  if negb (bool_decide (mg_sess m = Some s)) || bool_decide (s ∈ mg_stopping m)
  then put_call m c (CReturned None)
  else put_call (MkManager (mg_sess m) (mg_next m) ({[s]} ∪ mg_stopping m) (mg_closed m ++ [s]) (mg_onStop m)
                   (mg_calls m)) c (CTearing s reason).
Definition stop_down (m : manager) (c s : nat) (reason : StopReason) : manager :=
  put_call (MkManager (mg_sess m) (mg_next m) (mg_stopping m) (mg_closed m)
              (mg_onStop m ++ [(s, reason)]) (mg_calls m)) c (CDown s).
Definition stop_clear (m : manager) (c : nat) : manager :=
  put_call (MkManager None (mg_next m) (mg_stopping m) (mg_closed m) (mg_onStop m) (mg_calls m))
    c (CReturned None).

(** [watchIdle] of a session that ever was may call [stop] for it at any time. *)
Inductive mstep (m : manager) : manager → Prop :=
| m_start env : mstep m (Start m env).1
| m_end c reason : mg_calls m !! c = None → mstep m (end_ m c reason)
| m_watch c s reason : mg_calls m !! c = None → (s < mg_next m)%nat → mstep m (put_call m c (CGot s reason))
| m_mark c s reason : mg_calls m !! c = Some (CGot s reason) → mstep m (stop_mark m c s reason)
| m_down c s reason : mg_calls m !! c = Some (CTearing s reason) → mstep m (stop_down m c s reason)
| m_clear c s : mg_calls m !! c = Some (CDown s) → mstep m (stop_clear m c).

Definition msteps : manager → manager → Prop := rtc mstep.

Definition no_manager : manager := MkManager None 0 ∅ [] [] ∅.

(** Tearing session [s] down. *)
Definition tearing (x : stop_call) : option (nat * bool) :=
  match x with
  | CTearing s _ => Some (s, false)
  | CDown s => Some (s, true)
  | CGot _ _ | CReturned _ => None
  end.

(** Where the manager is: the sessions marked are those closed, in order;
    [j] of them have had their [OnStop]; the call tearing one down is the only
    one that is. *)
Record manager_ok (m : manager) : Prop := {
  mo_closed : mg_closed m = seq 0 (length (mg_closed m));
  mo_onStop : (mg_onStop m).*1 = seq 0 (length (mg_onStop m));
  mo_stopping : mg_stopping m = list_to_set (mg_closed m);
  mo_call c x s b : mg_calls m !! c = Some x → tearing x = Some (s, b) →
    mg_sess m = Some s ∧ length (mg_closed m) = S s ∧ length (mg_onStop m) = (if b then S s else s);
  mo_alone c1 c2 x1 x2 : mg_calls m !! c1 = Some x1 → mg_calls m !! c2 = Some x2 →
    is_Some (tearing x1) → is_Some (tearing x2) → c1 = c2;
  mo_sess : match mg_sess m with
            | None => length (mg_closed m) = mg_next m ∧ length (mg_onStop m) = mg_next m
            | Some s => mg_next m = S s ∧ (s ≤ length (mg_onStop m) ≤ length (mg_closed m))%nat ∧
                (length (mg_closed m) ≤ S s)%nat ∧
                (length (mg_closed m) = s ∨ ∃ c x, mg_calls m !! c = Some x ∧ is_Some (tearing x))
            end;
}.

(** A call that is not tearing anything down becomes another such. *)
Lemma put_call_ok m c x :
  manager_ok m → (∀ x0, mg_calls m !! c = Some x0 → tearing x0 = None) → tearing x = None →
  manager_ok (put_call m c x).
Proof.
  intros [M1 M2 M3 M4 M5 M6] Hc Hx. split; cbn; try done.
  - intros c' x' s b [[<- <-]|[_ Hc']]%lookup_insert_Some; [congruence|by eapply M4].
  - intros c1 c2 x1 x2 [[<- <-]|[_ H1]]%lookup_insert_Some [[<- <-]|[_ H2]]%lookup_insert_Some [? ?] [? ?];
      [congruence..|]. eapply M5; eauto.
  - destruct (mg_sess m) as [s|]; [|done]. destruct M6 as (H1 & H2 & H3 & Hor).
    split_and!; [done|lia|lia|done|]. destruct Hor as [?|(c' & x' & Hc' & [p Hp])]; [by left|].
    right. exists c', x'. rewrite lookup_insert_ne; [eauto|]. intros <-. specialize (Hc _ Hc'). congruence.
Qed.

Lemma seq_snoc n : seq 0 n ++ [n] = seq 0 (S n).
Proof. by rewrite seq_S. Qed.

(** The calls after one of them became [x], none other tearing down. *)
Lemma calls_one (calls : gmap nat stop_call) c x c' x' :
  (∀ c0 x0, calls !! c0 = Some x0 → is_Some (tearing x0) → c0 = c) →
  <[c := x]> calls !! c' = Some x' → is_Some (tearing x') → c' = c ∧ x' = x.
Proof. intros Ha [[<- <-]|[Hne H]]%lookup_insert_Some Ht; [done|]. destruct Hne. symmetry. by eapply Ha. Qed.

Lemma mstep_ok m m' : manager_ok m → mstep m m' → manager_ok m'.
Proof.
  intros Hm Hst. destruct Hst as [env|c reason Hc|c s reason Hc Hs|c s reason Hc|c s reason Hc|c s Hc].
  - unfold Start. destruct (mg_sess m) as [s|] eqn:Es; [done|]. destruct env as [e|]; [done|].
    destruct Hm as [M1 M2 M3 M4 M5 M6]. rewrite Es in M6. destruct M6 as [H1 H2].
    split; cbn; try done.
    + intros c x s b Hc Hx. destruct (M4 c x s b Hc Hx). congruence.
    + split_and!; [done|lia|lia|lia|by left].
  - unfold end_. destruct (mg_sess m); apply put_call_ok; naive_solver congruence.
  - apply put_call_ok; naive_solver congruence.
  - unfold stop_mark. case_match eqn:Eb.
    { apply put_call_ok; [done| |done]. intros x0 Hx0. assert (x0 = CGot s reason) as -> by congruence. done. }
    apply orb_false_iff in Eb as [Es%negb_false_iff%bool_decide_eq_true Hns%bool_decide_eq_false].
    destruct Hm as [M1 M2 M3 M4 M5 M6]. rewrite Es in M6. destruct M6 as (H1 & H2 & H3 & H4).
    assert (length (mg_closed m) = s) as Hlen.
    { destruct (decide (length (mg_closed m) = s)) as [|Hne]; [done|]. exfalso. apply Hns.
      rewrite M3, M1. assert (length (mg_closed m) = S s) as -> by lia.
      apply elem_of_list_to_set, elem_of_seq. lia. }
    assert (∀ c0 x0, mg_calls m !! c0 = Some x0 → is_Some (tearing x0) → c0 = c) as Hnone.
    { intros c0 x0 Hc0 [[s0 b] Hx0]. destruct (M4 c0 x0 s0 b Hc0 Hx0) as (? & ? & _). simplify_eq. lia. }
    split; cbn; rewrite ?length_app; cbn.
    + rewrite M1 at 1. rewrite Hlen, seq_snoc. f_equal. lia.
    + done.
    + rewrite list_to_set_app_L, M3. cbn. set_solver.
    + intros c0 x0 s0 b Hc0 Hx0. destruct (calls_one _ _ _ _ _ Hnone Hc0) as [-> ->]; [eauto|].
      cbn in Hx0. simplify_eq. split_and!; [done|lia|lia].
    + intros c1 c2 x1 x2 Hc1 Hc2 Hx1 Hx2.
      destruct (calls_one _ _ _ _ _ Hnone Hc1 Hx1), (calls_one _ _ _ _ _ Hnone Hc2 Hx2). congruence.
    + rewrite Es. split_and!; [done|lia|lia|lia|]. right. exists c, (CTearing s reason).
      rewrite lookup_insert_eq. eauto.
  - destruct Hm as [M1 M2 M3 M4 M5 M6]. destruct (M4 c _ s false Hc eq_refl) as (Es & Hlc & Hlo).
    assert (∀ c0 x0, mg_calls m !! c0 = Some x0 → is_Some (tearing x0) → c0 = c) as Hnone.
    { intros c0 x0 Hc0 Hx0. eapply M5; eauto. }
    rewrite Es in M6. destruct M6 as (H1 & _).
    split; cbn; rewrite ?length_app; cbn; try done.
    + rewrite fmap_app. cbn. rewrite M2, Hlo, seq_snoc. f_equal. lia.
    + intros c0 x0 s0 b Hc0 Hx0. destruct (calls_one _ _ _ _ _ Hnone Hc0) as [-> ->]; [eauto|].
      cbn in Hx0. simplify_eq. split_and!; [done|lia|lia].
    + intros c1 c2 x1 x2 Hc1 Hc2 Hx1 Hx2.
      destruct (calls_one _ _ _ _ _ Hnone Hc1 Hx1), (calls_one _ _ _ _ _ Hnone Hc2 Hx2). congruence.
    + rewrite Es. split_and!; [done|lia|lia|lia|]. right. exists c, (CDown s). rewrite lookup_insert_eq. eauto.
  - destruct Hm as [M1 M2 M3 M4 M5 M6]. destruct (M4 c _ s true Hc eq_refl) as (Es & Hlc & Hlo).
    assert (∀ c0 x0, mg_calls m !! c0 = Some x0 → is_Some (tearing x0) → c0 = c) as Hnone.
    { intros c0 x0 Hc0 Hx0. eapply M5; eauto. }
    rewrite Es in M6. destruct M6 as (H1 & _).
    split; cbn; try done.
    + intros c0 x0 s0 b Hc0 Hx0. destruct (calls_one _ _ _ _ _ Hnone Hc0) as [-> ->]; [eauto|]. done.
    + intros c1 c2 x1 x2 Hc1 Hc2 Hx1 Hx2.
      destruct (calls_one _ _ _ _ _ Hnone Hc1 Hx1), (calls_one _ _ _ _ _ Hnone Hc2 Hx2). congruence.
    + lia.
Qed.

(** However calls of [Start], [Stop], [Close] and the sessions' own
    [watchIdle] interleave, every session's [stopped] channel is closed at
    most once (a second close would panic) and its [OnStop] called at most
    once, in the order the sessions were started; and when no session is
    running, or a new one is, all those before it are down. *)
Theorem manager_once m :
  msteps no_manager m →
  mg_closed m = seq 0 (length (mg_closed m)) ∧ (mg_onStop m).*1 = seq 0 (length (mg_onStop m)) ∧
  (length (mg_onStop m) ≤ length (mg_closed m) ≤ mg_next m)%nat ∧
  match mg_sess m with
  | None => length (mg_onStop m) = mg_next m
  | Some s => mg_next m = S s ∧ (s ≤ length (mg_onStop m))%nat
  end.
Proof.
  intros Hst. assert (manager_ok m) as [M1 M2 M3 M4 M5 M6].
  { assert (manager_ok no_manager) as H0 by (split; cbn; done).
    revert H0. induction Hst as [|m m1 m' Hs _ IH]; [done|]. intros H0. by apply IH, (mstep_ok m). }
  split_and!; try done; destruct (mg_sess m); lia.
Qed.

(** ** Concrete runs *)

Definition demo_resolve (name : string) : option string := if decide (name = "") then None else Some name.
Definition demo_allow : list Prefix := [MkPrefix (Addr4 [10; 0; 0; 0]) 8].
Definition demo_device : Addr := Addr4 [10; 0; 0; 5].
Definition demo_limits : Limits := MkLimits 2 hour 2 4.
Definition demo_new : session := new_session demo_allow demo_limits true 0 {["old"]}.

Lemma demo_limits_ok : limits_ok demo_limits.
Proof. done. Qed.

(** One handler step of request [i] by the operation [f]. *)
Definition at_ (s : session) (i : nat) (f : session → nat → transfer → session) : session :=
  match ss_transfers s !! i with Some t => f s i t | None => s end.

Lemma run_at r s0 s i t f :
  ssteps r s0 s → ss_transfers s !! i = Some t → handler r s i t (f s i t) → ssteps r s0 (at_ s i f).
Proof.
  intros Hs Hi Hh. eapply rtc_r; [done|]. unfold at_. rewrite Hi. by eapply s_handler.
Qed.

(** An upload of [data] as one block, up to the end of the transfer. *)
Definition demo_receive (s : session) (i : nat) (name : string) (data : bytes) : session :=
  let s := put s i (MkTransfer Upload name demo_device PArrived [] false) in
  let s := at_ s i begin in
  let s := at_ s i count_upload in
  let s := at_ s i (λ s i t, check_upload demo_resolve s i t None) in
  let s := at_ s i (λ s i t, open_partial demo_resolve s i t true) in
  let s := at_ s i (λ s i t, write_check s i t MaxUploadBytes data) in
  let s := at_ s i (λ s i t, write_debit s i t MaxUploadBytes data) in
  let s := at_ s i (λ s i t, write_file s i t MaxUploadBytes data (length data)) in
  at_ s i (λ s i t, write_settle s i t (MaxUploadBytes - len data) data (length data)).

Definition demo_published : session :=
  let s := demo_receive demo_new 0 "/cfg" [1; 2; 3] in
  let s := at_ s 0 (λ s i t, end_upload s i t None) in
  at_ s 0 (λ s i t, link demo_resolve s i t true).

Definition demo_done : session :=
  let s := at_ demo_published 0 (λ s i t, cleanup demo_resolve s i t None) in
  let s := at_ s 0 (λ s i t, done_used s i t None 5) in
  at_ s 0 (λ s i t, done_leave s i t None).

(** The second upload starts once the first, failed, has given its bytes back. *)
Definition demo_failed : session :=
  let s := demo_receive demo_new 0 "a" [1; 2; 3; 4] in
  let s := at_ s 0 (λ s i t, end_upload s i t (Some ErrTransfer)) in
  let s := at_ s 0 (λ s i t, give_back s i t ErrTransfer) in
  demo_receive s 1 "b" [5; 6; 7; 8].

Definition demo_stopped : session := set_stopped (demo_receive demo_new 0 "/cfg" [1; 2; 3]).

Ltac tf_run h := eapply run_at; [|vm_compute; reflexivity|eapply h; vm_compute; try reflexivity; try lia].

Ltac tf_receive :=
  unfold demo_receive; cbn zeta;
  tf_run h_write_settle; tf_run h_write_file; tf_run h_write_debit; tf_run h_write_check;
  tf_run h_open_partial; tf_run h_check_upload; tf_run h_count_upload; tf_run h_begin;
  (eapply rtc_r; [|apply s_arrive; vm_compute; reflexivity]).

Lemma demo_published_run : ssteps demo_resolve demo_new demo_published.
Proof. unfold demo_published. cbn zeta. tf_run h_link. tf_run h_end_upload. tf_receive. done. Qed.

Lemma demo_failed_run : ssteps demo_resolve demo_new demo_failed.
Proof.
  unfold demo_failed. cbn zeta. tf_receive. tf_run h_give_back. tf_run h_end_upload. tf_receive. done.
Qed.

Lemma demo_stopped_run : ssteps demo_resolve demo_new demo_stopped.
Proof. eapply rtc_r; [|apply s_stop]. tf_receive. done. Qed.

Lemma demo_done_run : ssteps demo_resolve demo_published demo_done.
Proof. unfold demo_done. cbn zeta. tf_run h_done_leave. tf_run h_done_used. tf_run h_cleanup. done. Qed.

(** A failed upload whose partial file is still on disk no longer counts
    against the quota: eight bytes on disk under a quota of four. *)
Example quota_before_removal :
  ∃ s, ssteps demo_resolve demo_new s ∧
    UploadQuota demo_limits < Z.of_nat (msum (λ t, if owns t then length (tr_data t) else 0%nat) (ss_transfers s)).
Proof. exists demo_failed. split; [exact demo_failed_run|by vm_compute]. Qed.

Lemma tftp_bounded_witness :
  ssteps demo_resolve demo_new demo_failed ∧
  Z.of_nat (msum kept (ss_transfers demo_failed)) ≤ 4.
Proof.
  split; [exact demo_failed_run|].
  destruct (tftp_bounded demo_resolve demo_allow demo_limits true 0 {["old"]} demo_failed)
    as (_ & _ & H & _); [exact demo_limits_ok|exact demo_failed_run|exact H].
Defined.

Lemma tftp_published_kept_witness :
  linked <$> (ss_transfers demo_published !! 0%nat) = Some true ∧
  ss_inbox demo_done !! "old" = Some None ∧ ss_inbox demo_done !! "cfg" = Some (Some 0%nat).
Proof.
  split; [by vm_compute|].
  destruct (tftp_published_kept demo_resolve demo_allow demo_limits true 0 {["old"]} demo_published demo_done)
    as [H1 H2]; [exact demo_limits_ok|exact demo_published_run|exact demo_done_run|].
  split; [apply H1; by apply elem_of_singleton|].
  destruct (H2 0%nat (MkTransfer Upload "/cfg" demo_device (PCleanup None) [1; 2; 3] true))
    as (k & t' & Hk & _ & Hin & _); [by vm_compute|by vm_compute|].
  vm_compute in Hk. injection Hk as <-. exact Hin.
Defined.

Lemma tftp_authorised_witness :
  allowed demo_allow demo_device = true ∧
  ∃ t, ss_transfers demo_published !! 0%nat = Some t ∧ tr_dir t = Upload ∧
    allowed demo_allow (tr_remote t) = true.
Proof.
  split; [by vm_compute|].
  destruct (tftp_authorised demo_resolve demo_allow demo_limits true 0 {["old"]} demo_published) as [_ H];
    [exact demo_limits_ok|exact demo_published_run|].
  apply (H "cfg" 0%nat). by vm_compute.
Defined.

Lemma demo_done_from_new : ssteps demo_resolve demo_new demo_done.
Proof. etrans; [exact demo_published_run|exact demo_done_run]. Qed.

Lemma tftp_settled_witness :
  ssteps demo_resolve demo_new demo_done ∧ ss_active demo_done = 0 ∧ ss_quota demo_done = 4 - 3.
Proof.
  split; [exact demo_done_from_new|].
  destruct (tftp_settled demo_resolve demo_allow demo_limits true 0 {["old"]} demo_done) as (Ha & Hq & _);
    [exact demo_limits_ok|exact demo_done_from_new| |].
  - assert (ss_transfers demo_done =
      {[0%nat := MkTransfer Upload "/cfg" demo_device (PDone None) [1; 2; 3] true]}) as -> by by vm_compute.
    intros i t [_ <-]%lookup_singleton_Some. by eexists.
  - split; [exact Ha|]. rewrite Hq. by vm_compute.
Defined.

Lemma tftp_stop_drains_witness :
  ss_stopped demo_stopped = true ∧ (0 ≤ 10 * size (ss_transfers demo_stopped))%nat ∧
  ∃ s'', hstep demo_resolve demo_stopped s''.
Proof.
  split; [by vm_compute|].
  destruct (tftp_stop_drains demo_resolve demo_allow demo_limits true 0 {["old"]} demo_stopped 0 demo_stopped)
    as [Hn [Hs|[Ha _]]];
    [exact demo_limits_ok|exact demo_stopped_run|by vm_compute|apply nsteps_O|by split|].
  vm_compute in Ha. discriminate Ha.
Defined.

Lemma watchIdle_lifetime_witness :
  0 < 10 ∧ ∃ t reason, watchIdle 10 3 100 100 [(100, 1, 0); (100, 1, 1); (100, 0, 0); (100, 0, 0)] = Some (t, reason) ∧
    t ≤ 100 + 3 + 1.
Proof.
  split; [lia|].
  destruct (watchIdle_lifetime 10 3 100 1 [(100, 1, 0); (100, 1, 1); (100, 0, 0); (100, 0, 0)])
    as (t & r & He & Ht & _); [lia|lia|lia|repeat constructor; cbn; lia|by vm_compute|].
  exists t, r. split; [exact He|exact Ht].
Defined.

Definition demo_manager : manager := end_ (Start no_manager None).1 0 StopOperator.

Lemma manager_once_witness :
  mg_sess demo_manager = Some 0%nat ∧ mg_next demo_manager = 1%nat ∧
  (0 ≤ length (mg_onStop demo_manager))%nat.
Proof.
  split; [reflexivity|].
  destruct (manager_once demo_manager) as (_ & _ & _ & H); [|exact H].
  eapply rtc_l; [apply (m_start no_manager None)|].
  eapply rtc_l; [apply (m_end _ 0%nat StopOperator); reflexivity|]. apply rtc_refl.
Defined.
