(* ===== verification/Scheduler.v ===== *)
(** * The job scheduler (src/internal/scheduler/scheduler.go)

    The tick loop, the runs of the jobs and the callers of [Register],
    [Unregister] and [Stop] go on concurrently. Every critical section under
    [mu], every start and end of a goroutine and every operation of the wait
    group is a step of a relation on [World]. A job is its identity; when it
    wants to run next and when its [Run] returns are choices of the
    environment. *)
From Stdlib Require Import ZArith Lia.
From stdpp Require Import base gmap sets list strings relations.
From S2P Require Import Prelude GoBase.

(** The interface [Job], of which the scheduler stores values. *)
Class Job (J : Type) : Type := ID : J → string.

(** A goroutine of [dispatch]: [Run] is in flight, it has returned, [finish]
    has run, the wait group has been told. *)
Inductive run_phase : Type := RRunning | RReturned | RFinished | RDone.

#[export] Instance run_phase_eq_dec : EqDecision run_phase.
Proof. solve_decision. Defined.

Section scheduler.
Context {J : Type} `{!Job J}.

Record run : Type := MkRun { r_id : string; r_job : J; r_phase : run_phase }.

(** The loop: not started, waiting in its select, in [dispatch] with the due
    jobs it has yet to start, returned. *)
Inductive loop_state : Type :=
| LNew
| LIdle
| LDispatching (due : list (string * J))
| LExited.

(** [Scheduler] and its goroutines. *)
Record World : Type := MkWorld {
  s_jobs : gmap string J;
  s_inflight : gset string;
  s_cancelled : bool;
  s_wg : Z;
  s_loop : loop_state;
  s_runs : gmap nat run;
}.

(** [NewWithClock] *)
Definition NewWithClock : World := MkWorld ∅ ∅ false 0 LNew ∅.

Definition set_jobs (w : World) (m : gmap string J) : World :=
  MkWorld m (s_inflight w) (s_cancelled w) (s_wg w) (s_loop w) (s_runs w).
Definition set_runs (w : World) (m : gmap nat run) : World :=
  MkWorld (s_jobs w) (s_inflight w) (s_cancelled w) (s_wg w) (s_loop w) m.
Definition set_loop (w : World) (l : loop_state) : World :=
  MkWorld (s_jobs w) (s_inflight w) (s_cancelled w) (s_wg w) l (s_runs w).
Definition set_wg (w : World) (n : Z) : World :=
  MkWorld (s_jobs w) (s_inflight w) (s_cancelled w) n (s_loop w) (s_runs w).
Definition set_inflight (w : World) (s : gset string) : World :=
  MkWorld (s_jobs w) s (s_cancelled w) (s_wg w) (s_loop w) (s_runs w).

(** [Start] *)
Definition Start (w : World) : World := set_loop (set_wg w (s_wg w + 1)) LIdle.

Definition Register (w : World) (j : J) : World := set_jobs w (<[ID j := j]> (s_jobs w)).

Definition Unregister (w : World) (id : string) : World * bool :=
  match s_jobs w !! id with
  | None => (w, false)
  | Some _ => (set_jobs w (delete id (s_jobs w)), true)
  end.

Definition Get (w : World) (id : string) : option J := s_jobs w !! id.

(** [Snapshot], in the order of one walk of the map. *)
Definition Snapshot (w : World) : list J := (map_to_list (s_jobs w)).*2.

(** [Stop] up to its [Wait], which returns when [s_wg] is zero. *)
Definition Stop (w : World) : World :=
  MkWorld (s_jobs w) (s_inflight w)
    (match s_loop w with LNew => s_cancelled w | _ => true end) (s_wg w) (s_loop w) (s_runs w).

(** One job of the walk in [dispatch]: [next] is what [NextRun] answers, if
    not the zero time. The state is [inflight], [due] and the jobs whose
    [NextRun] was called. *)
Definition consider (next : J → option Z) (now : Z) (st : gset string * list (string * J) * list J)
    (idj : string * J) : gset string * list (string * J) * list J :=
  let '(inflight, due, asked) := st in
  let '(id, j) := idj in
  if bool_decide (id ∈ inflight) then st
  else
    match next j with
    | None => (inflight, due, asked ++ [j])
    | Some t =>
        if now <? t then (inflight, due, asked ++ [j])
        else ({[id]} ∪ inflight, due ++ [(id, j)], asked ++ [j])
    end.

(** The critical section of [dispatch], walking the jobs in [order]. *)
Definition walk (w : World) (next : J → option Z) (now : Z) (order : list (string * J)) :
    gset string * list (string * J) * list J :=
  foldl (consider next now) (s_inflight w, [], []) order.

Definition dispatch (w : World) (next : J → option Z) (now : Z) (order : list (string * J)) : World :=
  let '(inflight, due, _) := walk w next now order in
  set_loop (set_inflight w inflight) (LDispatching due).

(** [s.wg.Go] for one of the due jobs, as goroutine [g]. *)
Definition start_run (w : World) (g : nat) (id : string) (j : J) (due : list (string * J)) : World :=
  set_loop (set_wg (set_runs w (<[g := MkRun id j RRunning]> (s_runs w))) (s_wg w + 1)) (LDispatching due).

Definition set_phase (w : World) (g : nat) (r : run) (p : run_phase) : World :=
  set_runs w (<[g := MkRun (r_id r) (r_job r) p]> (s_runs w)).

(** [finish] *)
Definition finish (w : World) (g : nat) (r : run) : World :=
  set_inflight (set_phase w g r RFinished) (s_inflight w ∖ {[r_id r]}).

(** The wait group is told that the goroutine ended. *)
Definition leave (w : World) (g : nat) (r : run) : World :=
  set_wg (set_phase w g r RDone) (s_wg w - 1).

(** What the loop and the runs do of themselves, ticks apart. *)
Inductive goes (w : World) : World → Prop :=
| g_start_run g id j due1 due2 :
    s_loop w = LDispatching (due1 ++ (id, j) :: due2) → s_runs w !! g = None →
    goes w (start_run w g id j (due1 ++ due2))
| g_dispatched : s_loop w = LDispatching [] → goes w (set_loop w LIdle)
| g_exit : s_loop w = LIdle → s_cancelled w = true →
    goes w (set_loop (set_wg w (s_wg w - 1)) LExited)
| g_return g r : s_runs w !! g = Some r → r_phase r = RRunning → goes w (set_phase w g r RReturned)
| g_finish g r : s_runs w !! g = Some r → r_phase r = RReturned → goes w (finish w g r)
| g_leave g r : s_runs w !! g = Some r → r_phase r = RFinished → goes w (leave w g r).

Inductive step (w : World) : World → Prop :=
| st_start : s_loop w = LNew → step w (Start w)
| st_register j : step w (Register w j)
| st_unregister id : step w (Unregister w id).1
| st_stop : step w (Stop w)
| st_tick next now order :
    s_loop w = LIdle → order ≡ₚ map_to_list (s_jobs w) → step w (dispatch w next now order)
| st_goes w' : goes w w' → step w w'.

Definition steps : World → World → Prop := rtc step.
Definition reachable (w : World) : Prop := steps NewWithClock w.

(** ** The invariant *)

(** [Run] has not returned, or [finish] has not run. *)
Definition in_run (r : run) : bool :=
  match r_phase r with RRunning | RReturned => true | RFinished | RDone => false end.

Definition holds (id : string) (r : run) : nat :=
  if decide (r_id r = id) then (if in_run r then 1 else 0) else 0.

Definition pending (w : World) : list (string * J) :=
  match s_loop w with LDispatching due => due | _ => [] end.

Definition awaits (id : string) (due : list (string * J)) : nat :=
  length (filter (λ p, p.1 = id) due).

#[local] Arguments awaits : simpl never.
#[local] Arguments holds : simpl never.

Definition live (r : run) : nat := match r_phase r with RDone => 0 | _ => 1 end.

Definition looping (w : World) : Z := match s_loop w with LIdle | LDispatching _ => 1 | _ => 0 end.

Record world_ok (w : World) : Prop := {
  wo_jobs id j : s_jobs w !! id = Some j → ID j = id;
  wo_pending id j : (id, j) ∈ pending w → ID j = id;
  wo_runs g r : s_runs w !! g = Some r → ID (r_job r) = r_id r;
  wo_inflight id : (msum (holds id) (s_runs w) + awaits id (pending w) =
    if bool_decide (id ∈ s_inflight w) then 1 else 0)%nat;
  wo_wg : s_wg w = looping w + Z.of_nat (msum live (s_runs w));
  wo_new : s_loop w = LNew → s_cancelled w = false ∧ s_runs w = ∅;
}.

Lemma awaits_app id l1 l2 : awaits id (l1 ++ l2) = (awaits id l1 + awaits id l2)%nat.
Proof. unfold awaits. by rewrite filter_app, length_app. Qed.

Lemma awaits_cons id x l : awaits id (x :: l) = ((if decide (x.1 = id) then 1 else 0) + awaits id l)%nat.
Proof. unfold awaits. rewrite filter_cons. by case_decide. Qed.

(** The job wants to run now. *)
Definition wants (next : J → option Z) (now : Z) (j : J) : bool :=
  match next j with Some t => t <=? now | None => false end.

Lemma consider_wants next now inflight due asked id j :
  consider next now (inflight, due, asked) (id, j) =
    if bool_decide (id ∈ inflight) then (inflight, due, asked)
    else if wants next now j then ({[id]} ∪ inflight, due ++ [(id, j)], asked ++ [j])
    else (inflight, due, asked ++ [j]).
Proof.
  unfold consider, wants. case_bool_decide; [done|]. destruct (next j) as [t|]; [|done].
  rewrite (Z.ltb_antisym t now). by destruct (t <=? now).
Qed.

(** What the walk of [dispatch] makes of jobs of different identities. *)
Lemma walk_spec next now l inflight due asked :
  NoDup l.*1 →
  ∃ inflight', foldl (consider next now) (inflight, due, asked) l =
    (inflight', due ++ filter (λ p, p.1 ∉ inflight ∧ wants next now p.2 = true) l,
     asked ++ (filter (λ p, p.1 ∉ inflight) l).*2) ∧
  (∀ id, id ∈ inflight' ↔ id ∈ inflight ∨ id ∈ (filter (λ p, p.1 ∉ inflight ∧ wants next now p.2 = true) l).*1).
Proof.
  revert inflight due asked. induction l as [|[id j] l IH]; intros inflight due asked Hnd.
  { exists inflight. cbn. rewrite !app_nil_r. split; [done|]. intros id. split; [by left|]. by intros [?|?%elem_of_nil]. }
  cbn in Hnd. apply NoDup_cons in Hnd as [Hid Hnd]. cbn [foldl]. rewrite consider_wants, !filter_cons. cbn [fst snd].
  case_bool_decide as Hin.
  { destruct (IH inflight due asked Hnd) as (i' & -> & Hi). exists i'.
    rewrite !decide_False by naive_solver. done. }
  assert (∀ inflight' : gset string, inflight' = inflight ∨ inflight' = {[id]} ∪ inflight →
    filter (λ p, p.1 ∉ inflight' ∧ wants next now p.2 = true) l =
    filter (λ p, p.1 ∉ inflight ∧ wants next now p.2 = true) l ∧
    filter (λ p, p.1 ∉ inflight') l = filter (λ p, p.1 ∉ inflight) l) as Hfil.
  { intros i' [->| ->]; [done|].
    split; apply filter_iff_in; intros [id' j'] Hx; cbn;
      (assert (id' ≠ id) by (intros ->; apply Hid, list_elem_of_fmap; by exists (id, j'))); set_solver. }
  destruct (wants next now j) eqn:Hw.
  - destruct (IH ({[id]} ∪ inflight) (due ++ [(id, j)]) (asked ++ [j]) Hnd) as (i' & -> & Hi).
    destruct (Hfil ({[id]} ∪ inflight)) as [H1 H2]; [by right|]. rewrite H1, H2 in *. exists i'.
    rewrite !decide_True by done. rewrite <-!app_assoc. cbn. split; [done|].
    intros x. rewrite Hi. set_solver.
  - destruct (IH inflight due (asked ++ [j]) Hnd) as (i' & -> & Hi). exists i'.
    rewrite decide_False by naive_solver. rewrite decide_True by done. rewrite <-!app_assoc. done.
Qed.

(** Which jobs a tick starts, and which it asks. *)
Definition ready (w : World) (next : J → option Z) (now : Z) (order : list (string * J)) : list (string * J) :=
  filter (λ p, p.1 ∉ s_inflight w ∧ wants next now p.2 = true) order.
Definition idle (w : World) (order : list (string * J)) : list J :=
  (filter (λ p, p.1 ∉ s_inflight w) order).*2.

Lemma order_NoDup w (order : list (string * J)) : order ≡ₚ map_to_list (s_jobs w) → NoDup order.*1.
Proof. intros ->. apply NoDup_fst_map_to_list. Qed.

Lemma NoDup_ready w next now (order : list (string * J)) :
  NoDup order.*1 → NoDup (ready w next now order).*1.
Proof.
  unfold ready. induction order as [|x l IH]; [done|]. cbn [fmap list_fmap]. intros [Hx Hl]%NoDup_cons.
  rewrite filter_cons. case_decide; [|by apply IH]. cbn. apply NoDup_cons. split; [|by apply IH].
  contradict Hx. apply list_elem_of_fmap in Hx as (y & Hy & Hin). apply list_elem_of_fmap.
  exists y. split; [done|]. by apply list_elem_of_filter in Hin as [_ ?].
Qed.

Lemma dispatch_eq w next now order :
  order ≡ₚ map_to_list (s_jobs w) →
  ∃ inflight, walk w next now order = (inflight, ready w next now order, idle w order) ∧
  (∀ id, id ∈ inflight ↔ id ∈ s_inflight w ∨ id ∈ (ready w next now order).*1).
Proof.
  intros Ho. destruct (walk_spec next now order (s_inflight w) [] []) as (i & He & Hi);
    [by eapply order_NoDup|]. exists i. split; [exact He|exact Hi].
Qed.

Lemma awaits_notin id (l : list (string * J)) : id ∉ l.*1 → awaits id l = 0%nat.
Proof.
  induction l as [|x l IH]; intros Hl; [done|]. rewrite awaits_cons, decide_False, IH; set_solver.
Qed.

Lemma awaits_NoDup id (l : list (string * J)) : NoDup l.*1 → id ∈ l.*1 → awaits id l = 1%nat.
Proof.
  induction l as [|x l IH]; intros Hnd Hin; [by apply elem_of_nil in Hin|]. cbn in Hnd, Hin.
  apply NoDup_cons in Hnd as [Hx Hnd]. rewrite awaits_cons. case_decide as Hd.
  - subst. by rewrite awaits_notin.
  - rewrite IH; [done|done|]. set_solver.
Qed.

(** A change of phase of one run. *)
Lemma phase_ok w g r p inflight wg :
  world_ok w → s_runs w !! g = Some r →
  (∀ id, (if bool_decide (id ∈ inflight) then 1 else 0) + holds id r =
    (if bool_decide (id ∈ s_inflight w) then 1 else 0) + holds id (MkRun (r_id r) (r_job r) p))%nat →
  wg + Z.of_nat (live r) = s_wg w + Z.of_nat (live (MkRun (r_id r) (r_job r) p)) →
  world_ok (MkWorld (s_jobs w) inflight (s_cancelled w) wg (s_loop w)
    (<[g := MkRun (r_id r) (r_job r) p]> (s_runs w))).
Proof.
  intros [W1 W2 W3 W4 W5 W6] Hg Hin Hwg. split; cbn; try done.
  - intros g' r' [[<- <-]|[_ Hr]]%lookup_insert_Some; [by apply (W3 g r)|by eapply W3].
  - intros id. pose proof (msum_insert_Some (holds id) _ g (MkRun (r_id r) (r_job r) p) r Hg).
    specialize (W4 id). specialize (Hin id). unfold pending in *. cbn. lia.
  - pose proof (msum_insert_Some live _ g (MkRun (r_id r) (r_job r) p) r Hg).
    unfold looping in *. cbn. lia.
  - intros Hl. destruct (W6 Hl) as [_ Hr]. rewrite Hr in Hg. by rewrite lookup_empty in Hg.
Qed.

Lemma holds_pos id (w : World) g r :
  s_runs w !! g = Some r → r_id r = id → in_run r = true → (1 ≤ msum (holds id) (s_runs w))%nat.
Proof.
  intros Hg Hid Hr. rewrite (msum_delete (holds id) _ g r Hg). unfold holds at 1.
  rewrite decide_True, Hr by done. lia.
Qed.

Lemma goes_ok w w' : world_ok w → goes w w' → world_ok w'.
Proof.
  intros Hw Hg. destruct Hg as [g id j due1 due2 Hl Hg|Hl|Hl Hc|g r Hg Hp|g r Hg Hp|g r Hg Hp].
  - destruct Hw as [W1 W2 W3 W4 W5 W6]. unfold pending, looping in *. rewrite Hl in *. split; cbn; try done.
    + intros id' j' Hin. apply W2. set_solver.
    + intros g' r' [[<- <-]|[_ Hr]]%lookup_insert_Some; [|by eapply W3]. cbn. apply W2. set_solver.
    + intros id'. specialize (W4 id'). rewrite msum_insert_None by done.
      rewrite awaits_app in *. rewrite awaits_cons in W4. cbn in W4. unfold holds at 1. cbn. case_decide; lia.
    + rewrite msum_insert_None by done. cbn. lia.
  - destruct Hw as [W1 W2 W3 W4 W5 W6]. unfold pending, looping in *. rewrite Hl in *. split; cbn; done.
  - destruct Hw as [W1 W2 W3 W4 W5 W6]. unfold pending, looping in *. rewrite Hl in *. split; cbn; try done. lia.
  - refine (phase_ok w g r RReturned (s_inflight w) (s_wg w) Hw Hg _ _).
    + intros id. unfold holds, in_run. cbn. rewrite Hp. done.
    + unfold live. cbn. rewrite Hp. done.
  - refine (phase_ok w g r RFinished (s_inflight w ∖ {[r_id r]}) (s_wg w) Hw Hg _ _).
    + intros id. pose proof (wo_inflight _ Hw id) as Hi. unfold holds. cbn. unfold in_run at 1. rewrite Hp.
      destruct (decide (r_id r = id)) as [Hd|Hd];
        [|rewrite (bool_decide_ext (id ∈ s_inflight w ∖ _) (id ∈ s_inflight w)) by set_solver; done].
      assert (in_run r = true) as Hr by (unfold in_run; by rewrite Hp).
      pose proof (holds_pos id w g r Hg Hd Hr). rewrite (bool_decide_eq_false_2 (id ∈ _ ∖ _)) by set_solver.
      case_bool_decide; lia.
    + unfold live. cbn. rewrite Hp. done.
  - refine (phase_ok w g r RDone (s_inflight w) (s_wg w - 1) Hw Hg _ _).
    + intros id. unfold holds, in_run. cbn. rewrite Hp. done.
    + unfold live. cbn. rewrite Hp. lia.
Qed.

Lemma sched_step_ok w w' : world_ok w → step w w' → world_ok w'.
Proof.
  intros Hw Hst. destruct Hst as [Hl|j|id| |next now order Hl Ho|w' Hg]; [..|by eapply goes_ok].
  - destruct Hw as [W1 W2 W3 W4 W5 W6]. unfold pending, looping in *. rewrite Hl in *. split; cbn; try done. lia.
  - destruct Hw as [W1 W2 W3 W4 W5 W6]. split; cbn; try done.
    intros id j' [[<- <-]|[_ Hj]]%lookup_insert_Some; [done|by apply W1].
  - unfold Unregister. destruct (s_jobs w !! id) as [j|]; [|done].
    destruct Hw as [W1 W2 W3 W4 W5 W6]. split; cbn; try done.
    intros id' j' [_ Hj]%lookup_delete_Some. by apply W1.
  - destruct Hw as [W1 W2 W3 W4 W5 W6]. split; try done. cbn. intros Hl. rewrite Hl.
    destruct (W6 Hl). done.
  - destruct (dispatch_eq w next now order Ho) as (inflight & He & Hi). unfold dispatch. rewrite He.
    destruct Hw as [W1 W2 W3 W4 W5 W6]. unfold pending, looping in *. rewrite Hl in *.
    assert (∀ id j, (id, j) ∈ ready w next now order → s_jobs w !! id = Some j ∧ id ∉ s_inflight w) as Hr.
    { intros id j. unfold ready. rewrite list_elem_of_filter, Ho, elem_of_map_to_list. cbn. tauto. }
    split; cbn; try done.
    + intros id j Hin. by apply W1, Hr.
    + intros id. specialize (W4 id). cbn in W4. rewrite Nat.add_0_r in W4. rewrite W4.
      assert (NoDup (ready w next now order).*1) as Hnd.
      { by eapply NoDup_ready, (order_NoDup w). }
      destruct (decide (id ∈ (ready w next now order).*1)) as [Hin|Hin].
      * rewrite awaits_NoDup by done. apply list_elem_of_fmap in Hin as Hin'.
        destruct Hin' as ([id' j] & -> & Hij). apply Hr in Hij as [_ Hni]. cbn in *.
        rewrite (bool_decide_eq_false_2 (id' ∈ s_inflight w)) by done.
        rewrite bool_decide_eq_true_2 by (apply Hi; by right). done.
      * rewrite awaits_notin by done. rewrite (bool_decide_ext (id ∈ inflight) (id ∈ s_inflight w)); [lia|].
        rewrite Hi. tauto.
Qed.

Lemma sched_reachable_ok w : reachable w → world_ok w.
Proof.
  intros Hr. assert (world_ok NewWithClock) as H0.
  { split; cbn; try done. - intros id j. by intros ?%elem_of_nil. }
  revert H0. induction Hr as [|w w1 w' Hs _ IH]; [done|]. intros H0. by apply IH, (sched_step_ok w).
Qed.

(** ** What the scheduler promises *)

Lemma in_run_one id w g1 g2 r1 r2 :
  world_ok w → s_runs w !! g1 = Some r1 → s_runs w !! g2 = Some r2 →
  r_id r1 = id → r_id r2 = id → in_run r1 = true → in_run r2 = true → g1 = g2.
Proof.
  intros Hw H1 H2 Hi1 Hi2 Hr1 Hr2. destruct (decide (g1 = g2)) as [|Hne]; [done|exfalso].
  pose proof (wo_inflight _ Hw id) as Hi. rewrite (msum_delete (holds id) _ g1 r1 H1) in Hi.
  rewrite (msum_delete (holds id) (delete g1 _) g2 r2) in Hi by (by rewrite lookup_delete_ne).
  unfold holds at 1 2 in Hi. rewrite !decide_True, Hr1, Hr2 in Hi by done. case_bool_decide; lia.
Qed.

(** With nothing yet to be started, the identities in flight are those of the runs. *)
Lemma inflight_runs w id :
  world_ok w → pending w = [] →
  id ∈ s_inflight w ↔ ∃ g r, s_runs w !! g = Some r ∧ r_id r = id ∧ in_run r = true.
Proof.
  intros Hw Hp. pose proof (wo_inflight _ Hw id) as Hi. rewrite Hp in Hi. cbn in Hi. split.
  - intros Hin. rewrite bool_decide_eq_true_2 in Hi by done.
    destruct (msum_pos (holds id) (s_runs w)) as (g & r & Hg & Hr); [unfold awaits in Hi; cbn in Hi; lia|].
    exists g, r. unfold holds in Hr. split; [done|]. case_decide; [|done]. by destruct (in_run r).
  - intros (g & r & Hg & Hid & Hr). pose proof (holds_pos id w g r Hg Hid Hr). case_bool_decide; [done|lia].
Qed.

(** C26: No self-overlap: whatever is registered, replaced, unregistered,
    ticked or slow, no two runs of one identity are ever in flight together,
    and a tick neither calls [NextRun] of a job, nor starts it, while a run of
    its identity is. *)
Theorem no_self_overlap w :
  reachable w →
  (∀ g1 g2 r1 r2, s_runs w !! g1 = Some r1 → s_runs w !! g2 = Some r2 →
    in_run r1 = true → in_run r2 = true → r_id r1 = r_id r2 → g1 = g2) ∧
  (∀ next now order j g r, s_loop w = LIdle → order ≡ₚ map_to_list (s_jobs w) →
    (j ∈ (walk w next now order).2 ∨ (ID j, j) ∈ (walk w next now order).1.2) →
    s_runs w !! g = Some r → in_run r = true → r_id r ≠ ID j ∧ r_job r ≠ j).
Proof.
  intros Hr. apply sched_reachable_ok in Hr as Hw. split.
  - intros g1 g2 r1 r2 H1 H2 Hr1 Hr2 Hid. by eapply (in_run_one (r_id r1) w).
  - intros next now order j g r Hl Ho Hj Hg Hin.
    destruct (dispatch_eq w next now order Ho) as (i & He & _). rewrite He in Hj. cbn in Hj.
    assert (ID j ∉ s_inflight w) as Hni.
    { destruct Hj as [Hj|Hj].
      - unfold idle in Hj. apply list_elem_of_fmap in Hj as ([id j'] & -> & Hj).
        apply list_elem_of_filter in Hj as [Hni Hj]. rewrite Ho, elem_of_map_to_list in Hj. cbn in *.
        by rewrite (wo_jobs _ Hw id j' Hj).
      - unfold ready in Hj. by apply list_elem_of_filter in Hj as [[? _] _]. }
    assert (r_id r ≠ ID j) as Hne.
    { intros Heq. apply Hni. rewrite <-Heq.
      apply inflight_runs; [done|unfold pending; by rewrite Hl|by exists g, r]. }
    split; [done|]. intros <-. by destruct Hne, (wo_runs _ Hw g r Hg).
Qed.

(** A tick starts exactly the registered jobs that are due: those with
    no run in flight whose [NextRun] answers a time, not after [now], each
    once; and it asks exactly those with no run in flight. In particular an
    identity whose run returned is always eligible again. *)
Theorem dispatch_spec w next now order :
  reachable w → s_loop w = LIdle → order ≡ₚ map_to_list (s_jobs w) →
  ∃ inflight due asked, walk w next now order = (inflight, due, asked) ∧
    s_loop (dispatch w next now order) = LDispatching due ∧ NoDup due.*1 ∧
    (∀ id j, (id, j) ∈ due ↔ s_jobs w !! id = Some j ∧ (∃ t, next j = Some t ∧ t ≤ now) ∧
      ¬ ∃ g r, s_runs w !! g = Some r ∧ r_id r = id ∧ in_run r = true) ∧
    (∀ j, j ∈ asked ↔ s_jobs w !! ID j = Some j ∧
      ¬ ∃ g r, s_runs w !! g = Some r ∧ r_id r = ID j ∧ in_run r = true).
Proof.
  intros Hr Hl Ho. apply sched_reachable_ok in Hr as Hw.
  assert (∀ id, id ∈ s_inflight w ↔ ∃ g r, s_runs w !! g = Some r ∧ r_id r = id ∧ in_run r = true) as Hi.
  { intros id. apply inflight_runs; [done|]. unfold pending. by rewrite Hl. }
  destruct (dispatch_eq w next now order Ho) as (i & He & _). exists i, (ready w next now order), (idle w order).
  split_and!; [done|unfold dispatch; by rewrite He|by eapply NoDup_ready, (order_NoDup w)|..].
  - intros id j. unfold ready. rewrite list_elem_of_filter, Ho, elem_of_map_to_list, <-Hi. cbn.
    assert (wants next now j = true ↔ ∃ t, next j = Some t ∧ t ≤ now) as ->; [|tauto].
    unfold wants. destruct (next j) as [t|]; [|naive_solver].
    rewrite Z.leb_le. split; [eauto|]. by intros (? & [= ->] & ?).
  - intros j. unfold idle. rewrite <-Hi, list_elem_of_fmap. split.
    + intros ([id j'] & -> & Hj). apply list_elem_of_filter in Hj as [Hni Hj].
      rewrite Ho, elem_of_map_to_list in Hj. cbn in *. by rewrite (wo_jobs _ Hw id j' Hj).
    + intros [Hj Hni]. exists (ID j, j). split; [done|].
      by rewrite list_elem_of_filter, Ho, elem_of_map_to_list.
Qed.

(** ** Stopping *)

Definition steps_left (r : run) : nat :=
  match r_phase r with RRunning => 3 | RReturned => 2 | RFinished => 1 | RDone => 0 end.

(** The steps the loop and the runs have left, ticks apart. *)
Definition work_left (w : World) : nat :=
  match s_loop w with LNew | LExited => 0 | LIdle => 1 | LDispatching due => 2 + 4 * length due end
  + msum steps_left (s_runs w).

Lemma goes_work w w' :
  goes w w' → (work_left w' < work_left w)%nat ∧ (s_cancelled w = true → s_cancelled w' = true).
Proof.
  unfold work_left. destruct 1 as [g id j due1 due2 Hl Hg|Hl|Hl Hc|g r Hg Hp|g r Hg Hp|g r Hg Hp]; cbn.
  - rewrite Hl, msum_insert_None by done. cbn. rewrite !length_app. cbn. split; [lia|done].
  - rewrite Hl. split; [lia|done].
  - rewrite Hl. split; [lia|done].
  - pose proof (msum_insert_Some steps_left _ g (MkRun (r_id r) (r_job r) RReturned) r Hg) as H.
    unfold steps_left at 2 4 in H. cbn in H. rewrite Hp in H. split; [lia|done].
  - pose proof (msum_insert_Some steps_left _ g (MkRun (r_id r) (r_job r) RFinished) r Hg) as H.
    unfold steps_left at 2 4 in H. cbn in H. rewrite Hp in H. split; [lia|done].
  - pose proof (msum_insert_Some steps_left _ g (MkRun (r_id r) (r_job r) RDone) r Hg) as H.
    unfold steps_left at 2 4 in H. cbn in H. rewrite Hp in H. split; [lia|done].
Qed.

Lemma goes_reachable n w w' : reachable w → nsteps goes n w w' → reachable w'.
Proof.
  intros Hr. induction 1 as [|n w w1 w' Hg _ IH]; [done|]. apply IH. eapply rtc_r; [done|by apply st_goes].
Qed.

Lemma live_zero w : msum live (s_runs w) = 0%nat → ∀ g r, s_runs w !! g = Some r → r_phase r = RDone.
Proof.
  intros Hz g r Hg. pose proof (msum_zero live _ Hz g r Hg) as H. unfold live in H. by destruct (r_phase r).
Qed.

(** [Stop] terminates: once it has cancelled the loop, and the loop takes
    that branch of its select rather than another tick, the loop and the runs
    have a bounded number of steps, in any order, and one of them can go on
    until the wait group is at zero, when [Wait] returns. *)
Theorem stop_terminates w n w' :
  reachable w → s_cancelled w = true → nsteps goes n w w' →
  (n ≤ work_left w)%nat ∧ ((∃ w'', goes w' w'') ∨ s_wg w' = 0).
Proof.
  intros Hr Hc Hn. split.
  { clear Hr Hc. induction Hn as [|n w w1 w' Hg _ IH]; [lia|]. apply goes_work in Hg as [? _]. lia. }
  assert (s_cancelled w' = true) as Hc'.
  { clear Hr. induction Hn as [|n w w1 w' Hg _ IH]; [done|]. by apply IH, (goes_work w). }
  apply (goes_reachable n w) in Hn; [|done]. apply sched_reachable_ok in Hn as Hw.
  destruct (s_loop w') as [| |[|[id j] due]|] eqn:Hl.
  - apply (wo_new _ Hw) in Hl as [? _]. congruence.
  - left. eexists. by apply g_exit.
  - left. eexists. by apply g_dispatched.
  - left. eexists. apply (g_start_run _ (fresh (dom (s_runs w'))) id j [] due); [done|].
    apply not_elem_of_dom, is_fresh.
  - destruct (decide (msum live (s_runs w') = 0%nat)) as [Hz|Hz].
    + right. rewrite (wo_wg _ Hw). unfold looping. rewrite Hl. lia.
    + left. apply msum_pos in Hz as (g & r & Hg & Hlv). unfold live in Hlv.
      destruct (r_phase r) eqn:Hp; [| | |done]; eexists.
      * by eapply g_return.
      * by eapply g_finish.
      * by eapply g_leave.
Qed.

(** When [Stop] has returned, the loop has ended, every run that was ever
    started has returned, no identity is in flight, and none of this ever
    changes: no job runs again, whatever is registered afterwards. *)
Theorem stop_final w w' :
  reachable w → s_cancelled w = true → s_wg w = 0 → steps w w' →
  s_loop w' = LExited ∧ s_runs w' = s_runs w ∧ s_inflight w' = ∅ ∧
  (∀ g r, s_runs w' !! g = Some r → r_phase r = RDone).
Proof.
  intros Hr Hc Hz Hst.
  assert (s_loop w = LExited ∧ msum live (s_runs w) = 0%nat) as [Hl Hm].
  { apply sched_reachable_ok in Hr as Hw. rewrite (wo_wg _ Hw) in Hz. unfold looping in Hz.
    destruct (s_loop w) eqn:Hl; [|lia|lia|split; [done|lia]].
    apply (wo_new _ Hw) in Hl as [? _]. congruence. }
  pose proof (live_zero w Hm) as Hd.
  assert (s_loop w' = LExited ∧ s_runs w' = s_runs w ∧ reachable w') as (Hl' & Hr' & Hre).
  { clear Hc Hz. induction Hst as [w|w w1 w' Hs _ IH]; [done|].
    assert (s_loop w1 = LExited ∧ s_runs w1 = s_runs w) as [Hl1 Hr1].
    { destruct Hs as [H|j|id| |next now order H Ho|w1 Hg]; try (by rewrite H in Hl); try (by cbn).
      - unfold Unregister. by destruct (s_jobs w !! id).
      - destruct Hg as [g id j due1 due2 H Hg|H|H Hc|g r Hg Hp|g r Hg Hp|g r Hg Hp];
          try (by rewrite H in Hl); specialize (Hd g r Hg); congruence. }
    rewrite Hr1 in IH. apply IH; [by eapply rtc_r|done|done|done]. }
  split_and!; [done|done| |by rewrite Hr'].
  apply sched_reachable_ok in Hre as Hw'. apply set_eq. intros id. rewrite inflight_runs;
    [|done|unfold pending; by rewrite Hl']. split; [|set_solver]. rewrite Hr'.
  intros (g & r & Hg & _ & Hin). unfold in_run in Hin. by rewrite (Hd g r Hg) in Hin.
Qed.
End scheduler.

(** ** Concrete runs *)

(** Jobs that are their identity. *)
Definition demo_job : Job string := λ j, j.

Definition demo_next (j : string) : option Z := if decide (j = "paused") then None else Some 10.

Definition demo_idle : World :=
  @Register string demo_job (@Register string demo_job (Start NewWithClock) "paused") "dns".

Definition demo_running : World :=
  let w := dispatch demo_idle demo_next 10 (map_to_list (s_jobs demo_idle)) in
  set_loop (start_run w 0 "dns" "dns" []) LIdle.

Definition demo_stopped : World :=
  let w := Stop demo_running in
  let w := set_loop (set_wg w (s_wg w - 1)) LExited in
  let w := set_phase w 0 (MkRun "dns" "dns" RRunning) RReturned in
  let w := finish w 0 (MkRun "dns" "dns" RReturned) in
  leave w 0 (MkRun "dns" "dns" RFinished).

Lemma demo_idle_reachable : @reachable string demo_job demo_idle.
Proof.
  eapply rtc_l; [by apply st_start|]. eapply rtc_l; [apply (st_register _ "paused")|].
  eapply rtc_l; [apply (st_register _ "dns")|]. apply rtc_refl.
Qed.

Lemma demo_running_reachable : @reachable string demo_job demo_running.
Proof.
  eapply rtc_r; [eapply rtc_r; [eapply rtc_r; [exact demo_idle_reachable|]|]|].
  - by apply (st_tick _ demo_next 10 (map_to_list (s_jobs demo_idle))).
  - apply st_goes, (g_start_run _ 0%nat "dns" "dns" [] []); by vm_compute.
  - by apply st_goes, g_dispatched.
Qed.

Lemma demo_stopped_steps : @steps string demo_job (Stop demo_running) demo_stopped.
Proof.
  eapply rtc_l; [by apply st_goes, g_exit|].
  eapply rtc_l; [apply st_goes, (g_return _ 0%nat (MkRun "dns" "dns" RRunning)); by vm_compute|].
  eapply rtc_l; [apply st_goes, (g_finish _ 0%nat (MkRun "dns" "dns" RReturned)); by vm_compute|].
  eapply rtc_l; [apply st_goes, (g_leave _ 0%nat (MkRun "dns" "dns" RFinished)); by vm_compute|].
  apply rtc_refl.
Qed.

Lemma demo_stop_reachable : @reachable string demo_job (Stop demo_running).
Proof. eapply rtc_r; [exact demo_running_reachable|apply st_stop]. Qed.

Lemma demo_stopped_reachable : @reachable string demo_job demo_stopped.
Proof. unfold reachable, steps. etrans; [exact demo_stop_reachable|exact demo_stopped_steps]. Qed.

(** The job runs, so the next tick passes it over. *)
Lemma no_self_overlap_witness :
  s_runs demo_running !! 0%nat = Some (MkRun "dns" "dns" RRunning) ∧
  ("dns", "dns") ∉ (walk demo_running demo_next 20 (map_to_list (s_jobs demo_running))).1.2.
Proof.
  split; [by vm_compute|].
  destruct (@no_self_overlap string demo_job demo_running demo_running_reachable) as [_ H].
  intros Hin. destruct (H demo_next 20 (map_to_list (s_jobs demo_running)) "dns" 0%nat (MkRun "dns" "dns" RRunning))
    as [_ Hne]; [reflexivity|reflexivity|right; exact Hin|by vm_compute|reflexivity|].
  apply Hne. reflexivity.
Defined.

Lemma dispatch_spec_witness :
  s_loop demo_idle = LIdle ∧
  ∃ due, s_loop (dispatch demo_idle demo_next 10 (map_to_list (s_jobs demo_idle))) = LDispatching due ∧
    NoDup due.*1.
Proof.
  split; [reflexivity|].
  destruct (@dispatch_spec string demo_job demo_idle demo_next 10 (map_to_list (s_jobs demo_idle)))
    as (i & due & asked & _ & Hl & Hnd & _); [exact demo_idle_reachable|reflexivity|reflexivity|].
  exists due. split; [exact Hl|exact Hnd].
Defined.

Lemma stop_terminates_witness :
  s_cancelled (Stop demo_running) = true ∧ (0 ≤ work_left (Stop demo_running))%nat ∧
  ∃ w, goes (Stop demo_running) w.
Proof.
  split; [reflexivity|].
  destruct (@stop_terminates string demo_job (Stop demo_running) 0 (Stop demo_running)) as [Hn [H|H]];
    [exact demo_stop_reachable|reflexivity|apply nsteps_O|by split|].
  vm_compute in H. discriminate H.
Defined.

Lemma stop_final_witness :
  s_wg demo_stopped = 0 ∧
  s_runs (@Register string demo_job demo_stopped "late") = s_runs demo_stopped.
Proof.
  split; [by vm_compute|].
  destruct (@stop_final string demo_job demo_stopped (@Register string demo_job demo_stopped "late"))
    as (_ & H & _); [exact demo_stopped_reachable|by vm_compute|by vm_compute| |exact H].
  eapply rtc_l; [apply (st_register _ "late")|apply rtc_refl].
Defined.
