(* ===== verification/Voip.v ===== *)
(** * VoIP quality (src/internal/listener/voip)

    The RTP streams of a capture interface: RFC 3550's receiver algorithms
    over 16-bit sequence numbers and 32-bit timestamps (stream.go), the
    E-model that scores a window (emodel.go), the table of streams and the
    queue of reports (listener.go). Floating-point values are binary64 and
    every operation rounds on its own, as on amd64. Taking a frame apart is
    the packet library's; [DecodeLayers] stands for it. *)
From Stdlib Require Import ZArith Lia SpecFloat.
From stdpp Require Import base gmap sets list strings relations.
From S2P Require Import Prelude GoBase.

(** ** The E-model *)

Record Codec : Type := MkCodec {
  Name : string;
  ClockRate : Z;
  Ie : spec_float;
  Bpl : spec_float;
  LookaheadMs : spec_float;
}.

Definition ptPCMU : Z := 0.
Definition ptPCMA : Z := 8.
Definition ptG729 : Z := 18.
Definition narrowbandClock : Z := 8000.
Definition g711Bpl : spec_float := Eval vm_compute in float64_const 251 10.
Definition g729Ie : spec_float := Eval vm_compute in float64 11.
Definition g729Bpl : spec_float := Eval vm_compute in float64 19.
Definition g729LookaheadMs : spec_float := Eval vm_compute in float64 5.

Definition codecFor (pt : Z) : option Codec :=
  if pt =? ptPCMU then Some (MkCodec "PCMU" narrowbandClock (float64 0) g711Bpl (float64 0))
  else if pt =? ptPCMA then Some (MkCodec "PCMA" narrowbandClock (float64 0) g711Bpl (float64 0))
  else if pt =? ptG729 then Some (MkCodec "G729" narrowbandClock g729Ie g729Bpl g729LookaheadMs)
  else None.

Definition rDefault : spec_float := Eval vm_compute in float64_const 932 10.
Definition idSlope : spec_float := Eval vm_compute in float64_const 24 1000.
Definition idKneeMs : spec_float := Eval vm_compute in float64_const 1773 10.
Definition idKneeSlope : spec_float := Eval vm_compute in float64_const 11 100.
Definition ieEffCeiling : spec_float := Eval vm_compute in float64 95.
Definition burstRatio : spec_float := Eval vm_compute in float64 1.
Definition mosFloor : spec_float := Eval vm_compute in float64 1.
Definition mosCeiling : spec_float := Eval vm_compute in float64_const 45 10.
Definition rCeiling : spec_float := Eval vm_compute in float64 100.
Definition mosLinear : spec_float := Eval vm_compute in float64_const 35 1000.
Definition mosCubicKnee : spec_float := Eval vm_compute in float64 60.
Definition mosCubicScale : spec_float := Eval vm_compute in float64_const 7 1000000.

Definition RFactor (c : Codec) (delayMs lossPct : spec_float) : spec_float :=
  let id := float64_mul idSlope delayMs in
  let id := if SFltb idKneeMs delayMs
            then float64_add id (float64_mul idKneeSlope (float64_sub delayMs idKneeMs)) else id in
  let ieEff := float64_add (Ie c)
    (float64_div (float64_mul (float64_sub ieEffCeiling (Ie c)) lossPct)
       (float64_add (float64_div lossPct burstRatio) (Bpl c))) in
  float64_sub (float64_sub rDefault id) ieEff.

Definition MOS (r : spec_float) : spec_float :=
  if SFleb r (float64 0) then mosFloor
  else if SFleb rCeiling r then mosCeiling
  else float64_add (float64_add mosFloor (float64_mul mosLinear r))
         (float64_mul (float64_mul (float64_mul r (float64_sub r mosCubicKnee)) (float64_sub rCeiling r))
            mosCubicScale).

(** ** A stream *)

Definition probationPackets : Z := 10.
Definition maxDropout : Z := 3000.
Definition maxMisorder : Z := 100.
Definition seqMod : Z := Z.shiftl 1 16.
Definition ReportInterval : Z := minute.
Definition minReportPackets : Z := 50.
Definition defaultPacketizationMs : spec_float := Eval vm_compute in float64 20.
Definition jitterGain : spec_float := Eval vm_compute in float64 16.
Definition jitterBufferFactor : spec_float := Eval vm_compute in float64 2.
Definition msPerSecond : spec_float := Eval vm_compute in float64 1000.
Definition percent : spec_float := Eval vm_compute in float64 100.

(** [netip.AddrPort] *)
Definition AddrPort : Type := (Addr * Z)%type.

Record streamKey : Type := MkKey { k_src : AddrPort; k_dst : AddrPort; k_ssrc : Z }.

#[export] Instance streamKey_eq_dec : EqDecision streamKey.
Proof. solve_decision. Defined.

#[export] Instance streamKey_countable : Countable streamKey.
Proof.
  refine (inj_countable' (λ k, (k_src k, k_dst k, k_ssrc k)) (λ x, MkKey x.1.1 x.1.2 x.2) _).
  by intros [].
Defined.

Record Report : Type := MkReport {
  rp_Interface : string;
  rp_key : streamKey;
  rp_Codec : string;
  rp_Start : Z;
  rp_End : Z;
  rp_Expected : Z;
  rp_Received : Z;
  rp_LossPct : spec_float;
  rp_JitterMs : spec_float;
  rp_MaxJitterMs : spec_float;
  rp_DelayMs : spec_float;
  rp_RFactor : spec_float;
  rp_MOS : spec_float;
}.

(** RFC 3550 A.1 sequence state. *)
Record seq_state : Type := MkSeq {
  maxSeq : Z;
  cycles : Z;
  baseSeq : Z;
  badSeq : Z;
  received : Z;
}.

(** RFC 3550 A.8 jitter state, in timestamp units. *)
Record jitter_state : Type := MkJitter {
  firstArrival : Z;
  firstTS : Z;
  transit : Z;
  haveTransit : bool;
  jitter : spec_float;
  lastTS : Z;
  packetizationMs : spec_float;
}.

(** The open window. *)
Record window : Type := MkWindow {
  windowStart : Z;
  expectedPrior : Z;
  receivedPrior : Z;
  jitterSumMs : spec_float;
  jitterMaxMs : spec_float;
  jitterSamples : Z;
}.

(** [stream], its fields in the groups the code gives them. *)
Record stream : Type := MkStream {
  st_key : streamKey;
  st_pt : Z;
  st_codec : Codec;
  st_probation : Z;
  st_lastSeen : Z;
  st_seq : seq_state;
  st_jitter : jitter_state;
  st_window : window;
}.

Definition set_probation (s : stream) (n : Z) : stream :=
  MkStream (st_key s) (st_pt s) (st_codec s) n (st_lastSeen s) (st_seq s) (st_jitter s) (st_window s).
Definition set_lastSeen (s : stream) (t : Z) : stream :=
  MkStream (st_key s) (st_pt s) (st_codec s) (st_probation s) t (st_seq s) (st_jitter s) (st_window s).
Definition set_seq (s : stream) (q : seq_state) : stream :=
  MkStream (st_key s) (st_pt s) (st_codec s) (st_probation s) (st_lastSeen s) q (st_jitter s) (st_window s).
Definition set_jitter (s : stream) (j : jitter_state) : stream :=
  MkStream (st_key s) (st_pt s) (st_codec s) (st_probation s) (st_lastSeen s) (st_seq s) j (st_window s).
Definition set_window (s : stream) (w : window) : stream :=
  MkStream (st_key s) (st_pt s) (st_codec s) (st_probation s) (st_lastSeen s) (st_seq s) (st_jitter s) w.
Definition set_maxSeq (q : seq_state) (n : Z) : seq_state :=
  MkSeq n (cycles q) (baseSeq q) (badSeq q) (received q).
Definition set_badSeq (q : seq_state) (n : Z) : seq_state :=
  MkSeq (maxSeq q) (cycles q) (baseSeq q) n (received q).
Definition set_received (q : seq_state) (n : Z) : seq_state :=
  MkSeq (maxSeq q) (cycles q) (baseSeq q) (badSeq q) n.
Definition set_haveTransit (j : jitter_state) (b : bool) : jitter_state :=
  MkJitter (firstArrival j) (firstTS j) (transit j) b (jitter j) (lastTS j) (packetizationMs j).

Definition newStream (key : streamKey) (pt : Z) (codec : Codec) (seq at_ : Z) : stream :=
  MkStream key pt codec (probationPackets - 1) at_
    (MkSeq seq 0 0 0 0)
    (MkJitter time_zero 0 0 false (float64 0) 0 defaultPacketizationMs)
    (MkWindow time_zero 0 0 (float64 0) (float64 0) 0).

Definition confirmed (s : stream) : bool := st_probation s =? 0.

Definition initSeq (s : stream) (seq : Z) : stream :=
  let w := st_window s in
  set_window (set_seq s (MkSeq seq 0 seq (seqMod + 1) 0))
    (MkWindow (windowStart w) 0 0 (jitterSumMs w) (jitterMaxMs w) (jitterSamples w)).

Definition probe (s : stream) (seq ts at_ : Z) : stream :=
  if negb (seq =? wrap 16 (maxSeq (st_seq s) + 1))
  then set_probation (set_seq s (set_maxSeq (st_seq s) seq)) (probationPackets - 1)
  else
    let s := set_seq s (set_maxSeq (st_seq s) seq) in
    let s := set_probation s (st_probation s - 1) in
    if 0 <? st_probation s then s
    else
      let s := initSeq s seq in
      let s := set_seq s (set_received (st_seq s) 1) in
      let j := st_jitter s in
      let s := set_jitter s (MkJitter at_ ts 0 true (jitter j) ts (packetizationMs j)) in
      let w := st_window s in
      set_window s (MkWindow at_ (expectedPrior w) (receivedPrior w) (jitterSumMs w) (jitterMaxMs w)
                      (jitterSamples w)).

Definition count_packet (s : stream) : stream :=
  set_seq s (set_received (st_seq s) (received (st_seq s) + 1)).

(** [updateSeq] *)
Definition updateSeq (s : stream) (seq : Z) : stream * bool :=
  let q := st_seq s in
  let udelta := wrap 16 (seq - maxSeq q) in
  if udelta <? maxDropout then
    let cyc := if seq <? maxSeq q then cycles q + seqMod else cycles q in
    (count_packet (set_seq s (MkSeq seq cyc (baseSeq q) (badSeq q) (received q))), true)
  else if udelta <=? seqMod - maxMisorder then
    if negb (seq =? badSeq q) then (set_seq s (set_badSeq q (wrap 16 (seq + 1))), false)
    else
      let s := initSeq s seq in
      (count_packet (set_jitter s (set_haveTransit (st_jitter s) false)), true)
  else (count_packet s, true).

(** [updateJitter]; integer quotients truncate, products wrap. *)
Definition updateJitter (s : stream) (ts at_ : Z) (inOrder : bool) : stream :=
  let rate := ClockRate (st_codec s) in
  let j := st_jitter s in
  let arrival := Z.quot (sign_wrap 64 (time_sub at_ (firstArrival j) * rate)) second in
  let tr := sign_wrap 64 (arrival - wrap 32 (ts - firstTS j)) in
  let jit :=
    if haveTransit j then
      let d := sign_wrap 64 (tr - transit j) in
      let d := if d <? 0 then sign_wrap 64 (- d) else d in
      float64_add (jitter j) (float64_div (float64_sub (float64 d) (jitter j)) jitterGain)
    else jitter j in
  let step := wrap 32 (ts - lastTS j) in
  let pk :=
    if inOrder && haveTransit j && (0 <? step) && (step <? rate)
    then float64_div (float64_mul (float64 step) msPerSecond) (float64 rate)
    else packetizationMs j in
  let ms := float64_div (float64_mul jit msPerSecond) (float64 rate) in
  let w := st_window s in
  set_window
    (set_jitter s (MkJitter (firstArrival j) (firstTS j) tr true jit ts pk))
    (MkWindow (windowStart w) (expectedPrior w) (receivedPrior w) (float64_add (jitterSumMs w) ms)
       (float64_max (jitterMaxMs w) ms) (jitterSamples w + 1)).

Definition expected (s : stream) : Z :=
  let q := st_seq s in cycles q + maxSeq q - baseSeq q + 1.

(** [close]: the window that ended at [end_], the next opening at [next]. *)
Definition close (s : stream) (iface : string) (end_ next : Z) : stream * option Report :=
  let exp := expected s in
  let rec := received (st_seq s) in
  let w := st_window s in
  let expInterval := exp - expectedPrior w in
  let recInterval := rec - receivedPrior w in
  let jitterMs := if 0 <? jitterSamples w then float64_div (jitterSumMs w) (float64 (jitterSamples w))
                  else float64 0 in
  let s' := set_window s (MkWindow next exp rec (float64 0) (float64 0) 0) in
  if expInterval <? minReportPackets then (s', None)
  else
    let lost := Z.max (expInterval - recInterval) 0 in
    let lossPct := float64_div (float64_mul percent (float64 lost)) (float64 expInterval) in
    let delayMs := float64_add (float64_add (packetizationMs (st_jitter s)) (LookaheadMs (st_codec s)))
      (float64_mul jitterBufferFactor jitterMs) in
    let r := RFactor (st_codec s) delayMs lossPct in
    (s', Some (MkReport iface (st_key s) (Name (st_codec s)) (windowStart w) end_ expInterval recInterval
                 lossPct jitterMs (jitterMaxMs w) delayMs r (MOS r))).

(** [add] *)
Definition add (s : stream) (iface : string) (pt seq ts at_ : Z) : stream * option Report :=
  if negb (pt =? st_pt s) then (s, None)
  else
    let prev := st_lastSeen s in
    let s := set_lastSeen s at_ in
    if negb (confirmed s) then (probe s seq ts at_, None)
    else
      let '(s, report) :=
        if ReportInterval <=? time_sub at_ (windowStart (st_window s))
        then close s iface prev at_ else (s, None) in
      let inOrder := seq =? wrap 16 (maxSeq (st_seq s) + 1) in
      let '(s, counted) := updateSeq s seq in
      (if counted then updateJitter s ts at_ inOrder else s, report).

(** ** The table of streams *)

Definition AlertMOS : spec_float := Eval vm_compute in float64_const 36 10.
Definition rtpHeaderLen : Z := 12.
Definition rtpVersion : Z := 2.
Definition rtpPTMask : Z := 127.
Definition IdleTimeout : Z := 5 * second.
Definition maxStreams : Z := 4096.
Definition sweepInterval : Z := second.
Definition queueSize : Z := 256.

Record rtpPacket : Type := MkPacket { pk_key : streamKey; pk_pt : Z; pk_seq : Z; pk_ts : Z }.

(** What the library's parser found in a frame: the types of its layers in
    order, and what it last decoded of each. *)
Inductive layer : Type := LayerIPv4 | LayerIPv6 | LayerUDP | LayerOther.
Record layers : Type := MkLayers {
  ly_found : list layer;
  ly_ip4 : bytes * bytes;
  ly_ip6 : bytes * bytes;
  ly_ports : Z * Z;
  ly_payload : bytes;
}.

(** [net.IP.To4] *)
Definition to4 (b : bytes) : bytes :=
  if len b =? 4 then b
  else if (len b =? 16) && bool_decide (take 12 b = mapped_prefix) then drop 12 b
  else [].

(** The addresses and the UDP flag [decode]'s loop leaves. *)
Definition find_layer (ly : layers) (st : Addr * Addr * bool) (l : layer) : Addr * Addr * bool :=
  let '(src, dst, udp) := st in
  match l with
  | LayerIPv4 => ((addr_from_slice (to4 (ly_ip4 ly).1)).1, (addr_from_slice (to4 (ly_ip4 ly).2)).1, udp)
  | LayerIPv6 => ((addr_from_slice (ly_ip6 ly).1).1, (addr_from_slice (ly_ip6 ly).2).1, udp)
  | LayerUDP => (src, dst, true)
  | LayerOther => st
  end.

(** [decoder.decode], panicking ([None]) where an index is out of range. *)
Definition decode (DecodeLayers : bytes → option layers) (frame : bytes) : option (option rtpPacket) :=
  match DecodeLayers frame with
  | None => Some None
  | Some ly =>
      let '(src, dst, udp) := foldl (find_layer ly) (AddrInvalid, AddrInvalid, false) (ly_found ly) in
      let payload := ly_payload ly in
      if negb udp || negb (addr_is_valid src) || (len payload <? rtpHeaderLen) then Some None
      else
        b0 ← index payload 0;
        if negb (Z.shiftr b0 6 =? rtpVersion) then Some None
        else
          b1 ← index payload 1;
          ssrc ← be32_at payload 8;
          seq ← be16_at payload 2;
          ts ← be32_at payload 4;
          Some (Some (MkPacket (MkKey (src, (ly_ports ly).1) (dst, (ly_ports ly).2) ssrc)
                        (Z.land b1 rtpPTMask) seq ts))
  end.

(** [tracker] *)
Record tracker : Type := MkTracker {
  tr_iface : string;
  tr_streams : gmap streamKey stream;
  tr_lastSweep : Z;
}.

Definition set_streams (tr : tracker) (m : gmap streamKey stream) : tracker :=
  MkTracker (tr_iface tr) m (tr_lastSweep tr).

Definition new_tracker (iface : string) : tracker := MkTracker iface ∅ time_zero.

(** The counters of [Stats] the capture loop adds to; the others are in
    [pipeline] below. *)
Record counters : Type := MkCounters { c_streams : Z; c_untracked : Z }.

(** [observe] *)
Definition observe (c : counters) (tr : tracker) (pkt : rtpPacket) (at_ : Z) :
    counters * tracker * list Report :=
  match tr_streams tr !! pk_key pkt with
  | None =>
      match codecFor (pk_pt pkt) with
      | None => (c, tr, [])
      | Some codec =>
          if maxStreams <=? Z.of_nat (size (tr_streams tr))
          then (MkCounters (c_streams c) (c_untracked c + 1), tr, [])
          else (c, set_streams tr (<[pk_key pkt := newStream (pk_key pkt) (pk_pt pkt) codec (pk_seq pkt) at_]>
                                     (tr_streams tr)), [])
      end
  | Some s =>
      let '(s', report) := add s (tr_iface tr) (pk_pt pkt) (pk_seq pkt) (pk_ts pkt) at_ in
      let c := if negb (confirmed s) && confirmed s' then MkCounters (c_streams c + 1) (c_untracked c) else c in
      (c, set_streams tr (<[pk_key pkt := s']> (tr_streams tr)), option_list report)
  end.

Section table.
(** The order in which Go walks the table. *)
Context `{!RangeOrder streamKey}.

(** One stream of the walk of [sweep], and of [finish]. *)
Definition sweep_one (iface : string) (now : Z) (st : gmap streamKey stream * list Report)
    (ks : streamKey * stream) : gmap streamKey stream * list Report :=
  let '(m, reports) := st in
  let '(k, s) := ks in
  if time_sub now (st_lastSeen s) <? IdleTimeout then (m, reports)
  else
    let r := if confirmed s then (close s iface (st_lastSeen s) now).2 else None in
    (delete k m, reports ++ option_list r).

Definition sweep (tr : tracker) (now : Z) : tracker * list Report :=
  let '(m, reports) := foldl (sweep_one (tr_iface tr) now) (tr_streams tr, []) (range (tr_streams tr)) in
  (MkTracker (tr_iface tr) m now, reports).

Definition finish_one (iface : string) (reports : list Report) (ks : streamKey * stream) : list Report :=
  let s := ks.2 in
  if negb (confirmed s) then reports
  else reports ++ option_list (close s iface (st_lastSeen s) (st_lastSeen s)).2.

Definition finish (tr : tracker) : tracker * list Report :=
  (set_streams tr ∅, foldl (finish_one (tr_iface tr)) [] (range (tr_streams tr))).

(** ** From the capture to the store *)

(** What the two loops share and keep: the tracker and the counters of the
    reader, the queue between them and whether it is closed, the writer's
    batch, whether it has returned; and what reached the store and the sink. *)
Record pipeline : Type := MkPipeline {
  p_tracker : tracker;
  p_counters : counters;
  p_packets : Z;
  p_reports : Z;
  p_dropped : Z;
  p_failed : Z;
  p_queue : list Report;
  p_closed : bool;
  p_batch : list Report;
  p_returned : bool;
  p_inserted : list Report;
  p_published : list Report;
}.

Definition new_pipeline (iface : string) : pipeline :=
  MkPipeline (new_tracker iface) (MkCounters 0 0) 0 0 0 0 [] false [] false [] [].

(** [emit]: a report that does not fit the queue is dropped and counted. *)
Definition emit_one (p : pipeline) (r : Report) : pipeline :=
  if len (p_queue p) <? queueSize
  then MkPipeline (p_tracker p) (p_counters p) (p_packets p) (p_reports p + 1) (p_dropped p) (p_failed p)
         (p_queue p ++ [r]) (p_closed p) (p_batch p) (p_returned p) (p_inserted p) (p_published p)
  else MkPipeline (p_tracker p) (p_counters p) (p_packets p) (p_reports p) (p_dropped p + 1) (p_failed p)
         (p_queue p) (p_closed p) (p_batch p) (p_returned p) (p_inserted p) (p_published p).

Definition emit (p : pipeline) (reports : list Report) : pipeline := foldl emit_one p reports.

Definition set_tracker (p : pipeline) (tr : tracker) : pipeline :=
  MkPipeline tr (p_counters p) (p_packets p) (p_reports p) (p_dropped p) (p_failed p)
    (p_queue p) (p_closed p) (p_batch p) (p_returned p) (p_inserted p) (p_published p).
Definition set_counters (p : pipeline) (c : counters) (n : Z) : pipeline :=
  MkPipeline (p_tracker p) c n (p_reports p) (p_dropped p) (p_failed p)
    (p_queue p) (p_closed p) (p_batch p) (p_returned p) (p_inserted p) (p_published p).

(** One packet of [read]. *)
Definition read_packet (DecodeLayers : bytes → option layers) (p : pipeline) (data : bytes) (at_ : Z) :
    option pipeline :=
  let p := set_counters p (p_counters p) (p_packets p + 1) in
  pkt ← decode DecodeLayers data;
  let p :=
    match pkt with
    | Some pkt =>
        let '(c, tr, reports) := observe (p_counters p) (p_tracker p) pkt at_ in
        emit (set_tracker (set_counters p c (p_packets p)) tr) reports
    | None => p
    end in
  Some (if sweepInterval <=? time_sub at_ (tr_lastSweep (p_tracker p))
        then let '(tr, reports) := sweep (p_tracker p) at_ in emit (set_tracker p tr) reports
        else p).

(** The capture timed out. *)
Definition read_timeout (p : pipeline) (now : Z) : pipeline :=
  let '(tr, reports) := sweep (p_tracker p) now in emit (set_tracker p tr) reports.

(** [read] returns: the open windows, then the queue is closed. *)
Definition read_end (p : pipeline) : pipeline :=
  let '(tr, reports) := finish (p_tracker p) in
  let p := emit (set_tracker p tr) reports in
  MkPipeline (p_tracker p) (p_counters p) (p_packets p) (p_reports p) (p_dropped p) (p_failed p)
    (p_queue p) true (p_batch p) (p_returned p) (p_inserted p) (p_published p).

(** The writer takes a report. *)
Definition write_take (p : pipeline) : pipeline :=
  match p_queue p with
  | [] => p
  | r :: queue =>
      MkPipeline (p_tracker p) (p_counters p) (p_packets p) (p_reports p) (p_dropped p) (p_failed p)
        queue (p_closed p) (p_batch p ++ [r]) (p_returned p) (p_inserted p) (p_published p)
  end.

(** [encoding/json] writes a number that is neither infinite nor a NaN, and a
    time whose year has four digits; [year] is the year of an instant in the
    time zone of the process. Strings and the SSRC always encode. *)
Definition json_number (x : spec_float) : bool :=
  match x with S754_zero _ | S754_finite _ _ _ => true | _ => false end.

Definition json_time (year : Z → Z) (t : Z) : bool := (0 <=? year t) && (year t <=? 9999).

(** [publish] of a report hands it to the sink when it encodes. *)
Definition publish (year : Z → Z) (r : Report) : option Report :=
  if forallb json_number [rp_LossPct r; rp_JitterMs r; rp_MaxJitterMs r; rp_RFactor r; rp_MOS r] &&
     forallb (json_time year) [rp_Start r; rp_End r]
  then Some r else None.

(** The windows of a batch that [store] publishes, and what reaches the sink. *)
Definition published (year : Z → Z) (batch : list Report) : list Report :=
  omap (publish year) (filter (λ r, SFleb (rp_MOS r) AlertMOS = true) batch).

(** [store]: the batch is offered to the store, which takes it or not, and
    its poor windows to the sink. *)
Definition write_store (year : Z → Z) (p : pipeline) (ok : bool) : pipeline :=
  match p_batch p with
  | [] => p
  | batch =>
      MkPipeline (p_tracker p) (p_counters p) (p_packets p) (p_reports p) (p_dropped p)
        (if ok then p_failed p else p_failed p + 1) (p_queue p) (p_closed p) [] (p_returned p)
        (p_inserted p ++ batch)
        (p_published p ++ published year batch)
  end.

(** [write] returns once the queue is closed and empty. *)
Definition write_end (year : Z → Z) (p : pipeline) (ok : bool) : pipeline :=
  let p := write_store year p ok in
  MkPipeline (p_tracker p) (p_counters p) (p_packets p) (p_reports p) (p_dropped p) (p_failed p)
    (p_queue p) (p_closed p) (p_batch p) true (p_inserted p) (p_published p).

Inductive pstep (DecodeLayers : bytes → option layers) (year : Z → Z) (p : pipeline) : pipeline → Prop :=
| p_packet data at_ p' :
    p_closed p = false → read_packet DecodeLayers p data at_ = Some p' → pstep DecodeLayers year p p'
| p_timeout now : p_closed p = false → pstep DecodeLayers year p (read_timeout p now)
| p_end : p_closed p = false → pstep DecodeLayers year p (read_end p)
| p_take : p_returned p = false → pstep DecodeLayers year p (write_take p)
| p_flush ok : p_returned p = false → pstep DecodeLayers year p (write_store year p ok)
| p_write_end ok :
    p_returned p = false → p_closed p = true → p_queue p = [] → pstep DecodeLayers year p (write_end year p ok).

Definition psteps (DecodeLayers : bytes → option layers) (year : Z → Z) : pipeline → pipeline → Prop :=
  rtc (pstep DecodeLayers year).

(** ** Sequence numbers *)

(** The sequence number on the wire of a packet that is the [e]-th of an
    unbounded numbering. *)
Definition on_wire (e : Z) : Z := wrap 16 e.

(** [e] is neither a restart after [m] nor too late. *)
Definition in_reach (m e : Z) : Prop := - maxMisorder < e - m < maxDropout.

(** Packets each in reach of the highest before it. *)
Fixpoint in_reach_all (m : Z) (es : list Z) : Prop :=
  match es with
  | [] => True
  | e :: es => in_reach m e ∧ in_reach_all (Z.max m e) es
  end.

(** The sequence state of [s] counts from the extended number [b] and has [m]
    as its highest. *)
Definition counts_to (s : stream) (b m : Z) : Prop :=
  maxSeq (st_seq s) = on_wire m ∧ cycles (st_seq s) + maxSeq (st_seq s) - baseSeq (st_seq s) = m - b.

Lemma updateSeq_in_reach s b m e :
  counts_to s b m → in_reach m e →
  (updateSeq s (on_wire e)).2 = true ∧ counts_to (updateSeq s (on_wire e)).1 b (Z.max m e) ∧
  received (st_seq (updateSeq s (on_wire e)).1) = received (st_seq s) + 1 ∧
  st_window (updateSeq s (on_wire e)).1 = st_window s ∧
  st_pt (updateSeq s (on_wire e)).1 = st_pt s ∧ st_probation (updateSeq s (on_wire e)).1 = st_probation s.
Proof.
  unfold counts_to, in_reach, updateSeq, on_wire, wrap, maxDropout, maxMisorder, seqMod.
  rewrite Z.shiftl_mul_pow2 by lia. intros [Hm Hc] He. rewrite Hm in *.
  assert ((e mod 2 ^ 16 - m mod 2 ^ 16) mod 2 ^ 16 = (e - m) mod 2 ^ 16) as Hd by (by rewrite <-Zminus_mod).
  rewrite Hd.
  pose proof (Z.div_mod e (2 ^ 16)) as He'. pose proof (Z.div_mod m (2 ^ 16)) as Hm'.
  pose proof (Z.mod_pos_bound e (2 ^ 16)). pose proof (Z.mod_pos_bound m (2 ^ 16)).
  destruct (decide (m ≤ e)) as [Hle|Hlt].
  - assert ((e - m) mod 2 ^ 16 = e - m) as Hsmall by (apply Z.mod_small; lia). rewrite Hsmall.
    assert ((e - m <? 3000) = true) as -> by lia. cbn. rewrite Z.max_r by lia.
    split_and!; try done. destruct (_ <? _) eqn:E; lia.
  - assert ((e - m) mod 2 ^ 16 = e - m + 2 ^ 16) as Hlarge.
    { symmetry. apply (Z.mod_unique_pos _ _ (-1)); lia. }
    rewrite Hlarge. assert ((e - m + 2 ^ 16 <? 3000) = false) as -> by lia.
    assert ((e - m + 2 ^ 16 <=? 1 * 2 ^ 16 - 100) = false) as -> by lia. cbn. rewrite Z.max_l, Hm by lia. done.
Qed.

(** RFC 3550's extended sequence numbers are exact: after any packets
    whose unbounded numbers each stay in reach of the highest so far (not
    3000 or more ahead, not 100 or more behind), reordered, duplicated,
    missing or wrapping through 2^16 any number of times, every packet is
    counted and the expected count has grown by exactly the distance the
    highest number moved. *)
Theorem updateSeq_exact s b m es :
  counts_to s b m → in_reach_all m es →
  let s' := foldl (λ s e, (updateSeq s (on_wire e)).1) s es in
  counts_to s' b (foldl Z.max m es) ∧
  expected s' - expected s = foldl Z.max m es - m ∧
  received (st_seq s') = received (st_seq s) + len es.
Proof.
  cbn zeta. revert s m. induction es as [|e es IH]; intros s m Hs Hes; cbn [foldl].
  - split_and!; [done|unfold expected; lia|unfold len; cbn; lia].
  - destruct Hes as [He Hes]. destruct (updateSeq_in_reach s b m e Hs He) as (_ & Hs1 & Hr & _).
    destruct (IH _ _ Hs1 Hes) as (H1 & H2 & H3). split_and!; [done| |rewrite H3, Hr, len_cons; lia].
    clear IH. unfold expected in *. destruct Hs as [? Hs], Hs1 as [? Hs1]. lia.
Qed.

(** A packet out of reach is not counted unless it follows another such
    one: the first only remembers the next number, leaving the counts as they
    were; the second restarts the counting at itself. *)
Theorem updateSeq_restart s seq :
  0 ≤ seq < 2 ^ 16 → 0 ≤ maxSeq (st_seq s) < 2 ^ 16 →
  maxDropout ≤ wrap 16 (seq - maxSeq (st_seq s)) ≤ seqMod - maxMisorder →
  badSeq (st_seq s) ≠ seq →
  let '(s1, counted1) := updateSeq s seq in
  let '(s2, counted2) := updateSeq s1 (wrap 16 (seq + 1)) in
  counted1 = false ∧ expected s1 = expected s ∧ received (st_seq s1) = received (st_seq s) ∧
  (maxDropout ≤ wrap 16 (seq + 1 - maxSeq (st_seq s)) ≤ seqMod - maxMisorder →
   counted2 = true ∧ expected s2 = 1 ∧ received (st_seq s2) = 1 ∧ maxSeq (st_seq s2) = wrap 16 (seq + 1) ∧
   haveTransit (st_jitter s2) = false ∧ expectedPrior (st_window s2) = 0).
Proof.
  intros Hseq Hmax Hfar Hbad. unfold updateSeq.
  assert ((wrap 16 (seq - maxSeq (st_seq s)) <? maxDropout) = false) as -> by lia.
  assert ((wrap 16 (seq - maxSeq (st_seq s)) <=? seqMod - maxMisorder) = true) as -> by lia.
  assert (seq =? badSeq (st_seq s) = false) as -> by lia. cbn [negb].
  cbn [set_seq set_badSeq st_seq maxSeq badSeq cycles received].
  assert (wrap 16 (wrap 16 (seq + 1) - maxSeq (st_seq s)) = wrap 16 (seq + 1 - maxSeq (st_seq s))) as ->.
  { unfold wrap. by rewrite Zminus_mod_idemp_l. }
  destruct (wrap 16 (seq + 1 - maxSeq (st_seq s)) <? maxDropout) eqn:E1.
  { split_and!; try done; lia. }
  destruct (wrap 16 (seq + 1 - maxSeq (st_seq s)) <=? seqMod - maxMisorder) eqn:E2.
  2: { split_and!; try done; lia. }
  rewrite Z.eqb_refl. cbn. split_and!; try done. intros _. unfold expected. cbn. split_and!; try done. lia.
Qed.

(** ** Probation *)

(** [add] of packets [(pt, seq, ts, at)], the reports in order. *)
Definition packet : Type := (Z * Z * Z * Z)%type.

Definition add_packet (iface : string) (s : stream) (p : packet) : stream * option Report :=
  let '(pt, q, ts, t) := p in add s iface pt q ts t.

Fixpoint add_all (iface : string) (s : stream) (ps : list packet) : stream * list Report :=
  match ps with
  | [] => (s, [])
  | p :: ps =>
      let '(s, r) := add_packet iface s p in
      let '(s, rs) := add_all iface s ps in
      (s, option_list r ++ rs)
  end.

(** The last sequence number of payload type [pt], and the length of the run
    of consecutive ones it ends. *)
Definition run_step (pt : Z) (st : Z * Z) (p : packet) : Z * Z :=
  let '(p_pt, q, _, _) := p in
  if p_pt =? pt then (q, if q =? wrap 16 (st.1 + 1) then st.2 + 1 else 1) else st.

Definition run_of (pt seq0 : Z) (ps : list packet) : Z * Z := foldl (run_step pt) (seq0, 1) ps.

Lemma add_other_pt s iface pt q ts t : pt ≠ st_pt s → add s iface pt q ts t = (s, None).
Proof. intros Hp. unfold add. by assert ((pt =? st_pt s) = false) as -> by lia. Qed.

Lemma add_probe s iface q ts t :
  0 < st_probation s → add s iface (st_pt s) q ts t = (probe (set_lastSeen s t) q ts t, None).
Proof.
  intros Hp. unfold add. rewrite Z.eqb_refl. cbn [negb]. unfold confirmed. cbn [set_lastSeen st_probation].
  by assert ((st_probation s =? 0) = false) as -> by lia.
Qed.

Lemma probe_spec s q ts t :
  0 < st_probation s →
  st_pt (probe s q ts t) = st_pt s ∧ maxSeq (st_seq (probe s q ts t)) = q ∧
  st_probation (probe s q ts t) =
    if q =? wrap 16 (maxSeq (st_seq s) + 1) then st_probation s - 1 else probationPackets - 1.
Proof.
  intros Hp. unfold probe. destruct (_ =? _); cbn [negb]; [|done]. cbn [set_probation set_seq st_probation].
  destruct (0 <? st_probation s - 1) eqn:E; [done|]. cbn. split_and!; [done|done|lia].
Qed.

Lemma add_packet_probe iface s p n :
  st_probation s = probationPackets - n → 1 ≤ n < probationPackets →
  let run := run_step (st_pt s) (maxSeq (st_seq s), n) p in
  (add_packet iface s p).2 = None ∧ st_pt (add_packet iface s p).1 = st_pt s ∧
  maxSeq (st_seq (add_packet iface s p).1) = run.1 ∧
  st_probation (add_packet iface s p).1 = probationPackets - run.2 ∧ 1 ≤ run.2.
Proof.
  intros Hn Hrange. destruct p as [[[pt q] ts] t]. cbn [add_packet run_step].
  destruct (pt =? st_pt s) eqn:E.
  - apply Z.eqb_eq in E as ->. rewrite add_probe by lia. cbn [fst snd].
    destruct (probe_spec (set_lastSeen s t) q ts t) as (H1 & H2 & H3); [cbn; lia|].
    rewrite H1, H2, H3. cbn. split_and!; try done; destruct (_ =? _); lia.
  - rewrite add_other_pt by lia. cbn. split_and!; try done; lia.
Qed.

Lemma add_all_probe iface s ps n :
  st_probation s = probationPackets - n → 1 ≤ n →
  (∀ ps1 ps2, ps = ps1 ++ ps2 → (foldl (run_step (st_pt s)) (maxSeq (st_seq s), n) ps1).2 < probationPackets) →
  let s' := (add_all iface s ps).1 in
  let run := foldl (run_step (st_pt s)) (maxSeq (st_seq s), n) ps in
  (add_all iface s ps).2 = [] ∧ st_pt s' = st_pt s ∧ maxSeq (st_seq s') = run.1 ∧
  st_probation s' = probationPackets - run.2 ∧ 1 ≤ run.2.
Proof.
  revert s n. induction ps as [|p ps IH]; intros s n Hn Hn1 Hpre; [done|].
  pose proof (Hpre [] (p :: ps) eq_refl) as H0. cbn in H0.
  destruct (add_packet_probe iface s p n Hn) as (H1 & H2 & H3 & H4 & H5); [lia|].
  cbn [add_all foldl]. destruct (add_packet iface s p) as [s1 r1]. cbn in H1, H2, H3, H4. subst r1.
  destruct (run_step (st_pt s) (maxSeq (st_seq s), n) p) as [last m] eqn:E. cbn in H3, H4, H5.
  destruct (IH s1 m H4 H5) as (G1 & G2 & G3 & G4 & G5).
  - intros ps1 ps2 ->. rewrite H2, H3. specialize (Hpre (p :: ps1) ps2 eq_refl). cbn in Hpre. by rewrite E in Hpre.
  - destruct (add_all iface s1 ps) as [s2 rs]. cbn in *. rewrite H2, H3 in *.
    split_and!; [by rewrite G1|congruence|done|done|done].
Qed.

(** A UDP flow is taken for RTP exactly when ten packets of its payload
    type in a row had consecutive sequence numbers: as long as no run has
    reached ten the stream is a candidate that reports nothing, and the packet
    that makes the run ten confirms it, as the first packet expected and
    received. *)
Theorem probation_exact key pt codec seq0 at0 iface ps p :
  (∀ ps1 ps2, ps = ps1 ++ ps2 → (run_of pt seq0 ps1).2 < probationPackets) →
  let s := (add_all iface (newStream key pt codec seq0 at0) ps).1 in
  let s' := (add_packet iface s p).1 in
  confirmed s = false ∧ (add_all iface (newStream key pt codec seq0 at0) ps).2 = [] ∧
  (confirmed s' = true ↔ (run_of pt seq0 (ps ++ [p])).2 = probationPackets) ∧
  (confirmed s' = true → expected s' = 1 ∧ received (st_seq s') = 1).
Proof.
  intros Hpre s s'.
  destruct (add_all_probe iface (newStream key pt codec seq0 at0) ps 1 eq_refl) as (G1 & G2 & G3 & G4 & G5);
    [lia|exact Hpre|].
  pose proof (Hpre ps [] (eq_sym (app_nil_r ps))) as Hlt. fold s in G2, G3, G4. cbn in G2, G3, G4, G5.
  fold (run_of pt seq0 ps) in G3, G4, G5.
  destruct (add_packet_probe iface s p (run_of pt seq0 ps).2 G4) as (H1 & H2 & H3 & H4 & H5); [lia|].
  rewrite G2, G3, <-surjective_pairing in H3, H4, H5. fold s' in H2, H3, H4.
  assert (run_step pt (run_of pt seq0 ps) p = run_of pt seq0 (ps ++ [p])) as Hrun by (unfold run_of; by rewrite foldl_app).
  rewrite Hrun in *. split_and!; [unfold confirmed; rewrite G4; lia|done|unfold confirmed; rewrite H4; lia|].
  intros Hc. destruct p as [[[p_pt q] ts] t]. unfold s', add_packet, add in Hc |- *.
  destruct (p_pt =? st_pt s); cbn [negb] in *; [|exfalso; cbn in Hc; unfold confirmed in Hc; lia].
  assert (confirmed (set_lastSeen s t) = false) as Hnc by (unfold confirmed; cbn; lia).
  rewrite Hnc in *. cbn [negb fst] in *. unfold probe in *. destruct (_ =? _); cbn [negb] in *; [|done].
  cbn [set_probation set_seq set_lastSeen st_probation] in *. destruct (0 <? st_probation s - 1) eqn:E.
  - unfold confirmed in Hc. cbn in Hc. lia.
  - unfold expected. cbn. lia.
Qed.

(** ** Windows *)

(** What the confirmed stream [s] has open: packets expected and received
    since the last window closed. *)
Definition open_expected (s : stream) : Z := expected s - expectedPrior (st_window s).
Definition open_received (s : stream) : Z := received (st_seq s) - receivedPrior (st_window s).

Definition total (f : Report → Z) (rs : list Report) : Z := foldr (λ r n, f r + n) 0 rs.

Lemma total_app f rs1 rs2 : total f (rs1 ++ rs2) = total f rs1 + total f rs2.
Proof. unfold total. induction rs1 as [|r rs1 IH]; [done|]. cbn in *. lia. Qed.

(** What a report says of the window that was open. *)
Lemma close_spec s iface end_ next :
  let '(s', r) := close s iface end_ next in
  open_expected s' = 0 ∧ open_received s' = 0 ∧ windowStart (st_window s') = next ∧
  st_seq s' = st_seq s ∧ st_pt s' = st_pt s ∧ st_probation s' = st_probation s ∧
  match r with
  | None => open_expected s < minReportPackets
  | Some r => minReportPackets ≤ open_expected s ∧ rp_Expected r = open_expected s ∧
      rp_Received r = open_received s ∧ rp_Start r = windowStart (st_window s) ∧ rp_End r = end_ ∧
      rp_MOS r = MOS (rp_RFactor r)
  end.
Proof.
  unfold close, open_expected, open_received. destruct (_ <? minReportPackets) eqn:E; cbn;
    split_and!; try done; try lia; unfold expected; cbn; lia.
Qed.

(** [updateJitter] leaves the counts alone. *)
Lemma updateJitter_seq s ts t b :
  st_seq (updateJitter s ts t b) = st_seq s ∧ st_pt (updateJitter s ts t b) = st_pt s ∧
  st_probation (updateJitter s ts t b) = st_probation s ∧
  expectedPrior (st_window (updateJitter s ts t b)) = expectedPrior (st_window s) ∧
  receivedPrior (st_window (updateJitter s ts t b)) = receivedPrior (st_window s) ∧
  windowStart (st_window (updateJitter s ts t b)) = windowStart (st_window s).
Proof. done. Qed.

(** One packet in reach of a confirmed stream. *)
Lemma add_in_reach s iface b m e ts t :
  confirmed s = true → counts_to s b m → in_reach m e →
  let '(s', r) := add s iface (st_pt s) (on_wire e) ts t in
  confirmed s' = true ∧ st_pt s' = st_pt s ∧ counts_to s' b (Z.max m e) ∧
  match r with
  | None => True
  | Some r => minReportPackets ≤ rp_Expected r ∧ rp_Start r = windowStart (st_window s) ∧
      rp_End r = st_lastSeen s ∧ ReportInterval ≤ time_sub t (windowStart (st_window s))
  end ∧
  (0 ≤ open_expected s → 0 ≤ open_received s →
   0 ≤ open_expected s' ∧ 0 ≤ open_received s' ∧
   total rp_Expected (option_list r) + open_expected s' ≤ open_expected s + (Z.max m e - m) ∧
   total rp_Received (option_list r) + open_received s' ≤ open_received s + 1).
Proof.
  intros Hc Hs He. unfold add. rewrite Z.eqb_refl. cbn [negb].
  assert (confirmed (set_lastSeen s t) = true) as -> by done. cbn [negb].
  set (s0 := set_lastSeen s t).
  assert (∀ s1 (r : option Report), st_seq s1 = st_seq s → st_pt s1 = st_pt s → st_probation s1 = st_probation s →
    let inOrder := on_wire e =? wrap 16 (maxSeq (st_seq s1) + 1) in
    let s2 := (updateSeq s1 (on_wire e)).1 in
    let s' := if (updateSeq s1 (on_wire e)).2 then updateJitter s2 ts t inOrder else s2 in
    (let '(s2, counted) := updateSeq s1 (on_wire e) in
     (if counted then updateJitter s2 ts t inOrder else s2, r)) = (s', r) ∧
    confirmed s' = true ∧ st_pt s' = st_pt s ∧ counts_to s' b (Z.max m e) ∧
    open_expected s' = open_expected s1 + (Z.max m e - m) ∧ open_received s' = open_received s1 + 1) as Hnext.
  { intros s1 r Hq Hp Hpr. assert (counts_to s1 b m) as Hs1 by (unfold counts_to; by rewrite Hq).
    destruct (updateSeq_in_reach s1 b m e Hs1 He) as (H1 & H2 & H3 & H4 & H5 & H6). cbn zeta.
    destruct (updateSeq s1 (on_wire e)) as [s2 cnt]. cbn [fst snd] in *. subst cnt.
    split; [done|]. unfold confirmed, counts_to, open_expected, open_received, expected in *. cbn.
    rewrite H5, H6, Hpr, Hp, H4, H3. split_and!; try tauto; lia. }
  destruct (ReportInterval <=? time_sub t (windowStart (st_window s0))) eqn:E.
  - pose proof (close_spec s0 iface (st_lastSeen s) t) as Hcl. destruct (close s0 iface (st_lastSeen s) t) as [s1 r].
    destruct Hcl as (C1 & C2 & C3 & C4 & C5 & C6 & C7).
    destruct (Hnext s1 r C4 C5 C6) as (-> & N1 & N2 & N3 & N4 & N5).
    split; [exact N1|split; [exact N2|split; [exact N3|split]]].
    + destruct r as [r|]; [|done]. destruct C7 as (? & ? & ? & ? & ? & ?). split_and!; try done; [lia|apply Z.leb_le, E].
    + intros Ho1 Ho2. rewrite N4, N5, C1, C2. unfold s0, open_expected, open_received, expected in *. cbn in C7.
      destruct r as [r|]; cbn; [destruct C7 as (? & ? & ? & _)|]; lia.
  - destruct (Hnext s0 None eq_refl eq_refl eq_refl) as (-> & N1 & N2 & N3 & N4 & N5).
    split; [exact N1|split; [exact N2|split; [exact N3|split; [done|]]]]. intros Ho1 Ho2. rewrite N4, N5. unfold s0, open_expected, open_received, expected in *.
    cbn. lia.
Qed.

(** Packets of one stream: their extended numbers, timestamps and arrivals. *)
Definition audio (pt : Z) (es : list (Z * Z * Z)) : list packet :=
  map (λ e, (pt, on_wire e.1.1, e.1.2, e.2)) es.

(** Windows never share a packet: of a confirmed stream whose packets
    stay in reach, the windows reported over any time have each at least
    fifty packets expected, and together no more expected than the numbers
    the stream advanced by and no more received than its packets; so no
    packet is scored twice. *)
Theorem windows_disjoint s iface b m es :
  confirmed s = true → counts_to s b m → in_reach_all m es.*1.*1 →
  0 ≤ open_expected s → 0 ≤ open_received s →
  let '(s', reports) := add_all iface s (audio (st_pt s) es) in
  confirmed s' = true ∧ counts_to s' b (foldl Z.max m es.*1.*1) ∧
  0 ≤ open_expected s' ∧ 0 ≤ open_received s' ∧
  Forall (λ r, minReportPackets ≤ rp_Expected r) reports ∧
  total rp_Expected reports + open_expected s' ≤ open_expected s + (foldl Z.max m es.*1.*1 - m) ∧
  total rp_Received reports + open_received s' ≤ open_received s + len es.
Proof.
  revert s m. induction es as [|[[e ts] t] es IH]; intros s m Hc Hs Hes Ho1 Ho2.
  { cbn. unfold len. cbn. split; [done|split; [exact Hs|]]. split_and!; try done; lia. }
  destruct Hes as [He Hes]. cbn [audio map add_all add_packet fst snd].
  pose proof (add_in_reach s iface b m e ts t Hc Hs He) as H.
  destruct (add s iface (st_pt s) (on_wire e) ts t) as [s1 r]. destruct H as (H1 & H2 & H3 & H4 & H5).
  destruct (H5 Ho1 Ho2) as (G1 & G2 & G3 & G4).
  specialize (IH s1 (Z.max m e) H1 H3 Hes G1 G2). rewrite H2 in IH.
  change (map (λ e, (st_pt s, on_wire e.1.1, e.1.2, e.2)) es) with (audio (st_pt s) es).
  destruct (add_all iface s1 (audio (st_pt s) es)) as [s2 rs]. destruct IH as (I1 & I2 & I3 & I4 & I5 & I6 & I7).
  cbn [fmap list_fmap foldl fst snd]. rewrite !total_app, len_cons. cbn in I6.
  split; [done|split; [exact I2|split; [done|split; [done|split; [|split; lia]]]]].
  apply Forall_app. split; [|done]. destruct r; cbn; [|done]. constructor; [by destruct H4|done].
Qed.

(** ** The jitter estimate *)

Definition demo_key : streamKey := MkKey (Addr4 [10; 0; 0; 1], 5004) (Addr4 [10; 0; 0; 2], 5004) 7.
Definition demo_codec : Codec := MkCodec "PCMU" narrowbandClock (float64 0) g711Bpl (float64 0).

(** Audio in packets of 20 ms, the [n]-th of them sent and received on time. *)
Definition demo_audio (n : nat) : packet :=
  (ptPCMU, on_wire (65530 + Z.of_nat n), 160 * Z.of_nat n, 20 * millisecond * Z.of_nat n).

Definition demo_candidate : stream := newStream demo_key ptPCMU demo_codec (on_wire 65530) 0.
Definition demo_confirmed : stream := (add_all "eth0" demo_candidate (map demo_audio (seq 1 9))).1.

(** The jitter estimate takes a timestamp before the first as one almost
    2^32 after it: a duplicate of the ninth packet of a call that is
    otherwise perfectly timed, a millisecond late, gives a jitter of over
    nine hours, where RFC 3550's modular arithmetic gives under a
    millisecond. *)
Theorem jitter_before_first :
  confirmed demo_confirmed = true ∧
  let s := (add demo_confirmed "eth0" ptPCMU (on_wire (65530 + 8)) (160 * 8) (20 * 9 * millisecond + millisecond)).1 in
  SFltb (float64_mul (float64 9) (float64_mul (float64 3600) msPerSecond)) (jitterMaxMs (st_window s)) = true.
Proof. by vm_compute. Qed.

(** ** The table *)

(** A tracked stream is filed under its key and scored by its codec. *)
Definition stream_ok (k : streamKey) (s : stream) : Prop :=
  st_key s = k ∧ codecFor (st_pt s) = Some (st_codec s).

Record tracker_ok (tr : tracker) : Prop := {
  to_size : Z.of_nat (size (tr_streams tr)) ≤ maxStreams;
  to_streams k s : tr_streams tr !! k = Some s → stream_ok k s;
}.

(** What a report the listener emits says. *)
Definition report_ok (r : Report) : Prop :=
  minReportPackets ≤ rp_Expected r ∧ rp_MOS r = MOS (rp_RFactor r) ∧
  ∃ pt c, codecFor pt = Some c ∧ rp_Codec r = Name c.

Lemma updateSeq_frame s q :
  st_key (updateSeq s q).1 = st_key s ∧ st_pt (updateSeq s q).1 = st_pt s ∧
  st_codec (updateSeq s q).1 = st_codec s.
Proof. unfold updateSeq, initSeq. repeat case_match; done. Qed.

Lemma close_frame s iface end_ next :
  st_key (close s iface end_ next).1 = st_key s ∧ st_pt (close s iface end_ next).1 = st_pt s ∧
  st_codec (close s iface end_ next).1 = st_codec s.
Proof. unfold close. by case_match. Qed.

Lemma add_frame s iface pt q ts t :
  st_key (add s iface pt q ts t).1 = st_key s ∧ st_pt (add s iface pt q ts t).1 = st_pt s ∧
  st_codec (add s iface pt q ts t).1 = st_codec s.
Proof.
  unfold add. destruct (negb _); [done|]. destruct (negb _).
  { unfold probe, initSeq. repeat case_match; done. }
  pose proof (close_frame (set_lastSeen s t) iface (st_lastSeen s) t) as Hc.
  destruct (_ <=? _); [destruct (close _ _ _ _) as [s1 r]|];
    (match goal with |- context [updateSeq ?x ?y] => pose proof (updateSeq_frame x y) as Hu; destruct (updateSeq x y) as [s2 b] end);
    destruct b; cbn in *; naive_solver congruence.
Qed.

Lemma close_report_ok s iface end_ next r :
  codecFor (st_pt s) = Some (st_codec s) → (close s iface end_ next).2 = Some r → report_ok r ∧ rp_key r = st_key s.
Proof.
  intros Hc. unfold close. destruct (_ <? _) eqn:E; [done|]. intros [= <-]. unfold report_ok. cbn.
  split; [|done]. split_and!; [lia|done|eauto].
Qed.

Lemma add_report_ok s iface pt q ts t r :
  codecFor (st_pt s) = Some (st_codec s) → (add s iface pt q ts t).2 = Some r → report_ok r ∧ rp_key r = st_key s.
Proof.
  intros Hc. unfold add. destruct (negb _); [done|]. destruct (negb _); [done|].
  pose proof (close_report_ok (set_lastSeen s t) iface (st_lastSeen s) t) as Hr.
  destruct (_ <=? _); [destruct (close _ _ _ _) as [s1 r1]|];
    (match goal with |- context [updateSeq ?x ?y] => destruct (updateSeq x y) as [s2 b] end); cbn in *; [|done].
  intros ->. by apply Hr.
Qed.

Lemma observe_ok c tr pkt t :
  tracker_ok tr → let '(_, tr', rs) := observe c tr pkt t in
  tracker_ok tr' ∧ tr_lastSweep tr' = tr_lastSweep tr ∧ tr_iface tr' = tr_iface tr ∧ Forall report_ok rs.
Proof.
  intros [Hs Ht]. unfold observe. destruct (tr_streams tr !! pk_key pkt) as [s|] eqn:E.
  - destruct (Ht _ _ E) as [Hk Hc].
    pose proof (add_frame s (tr_iface tr) (pk_pt pkt) (pk_seq pkt) (pk_ts pkt) t) as (F1 & F2 & F3).
    pose proof (add_report_ok s (tr_iface tr) (pk_pt pkt) (pk_seq pkt) (pk_ts pkt) t) as Hr.
    destruct (add _ _ _ _ _ _) as [s' r]. cbn in *. split_and!; [..|done|done|].
    + split; cbn; [by rewrite map_size_insert_Some|].
      intros k s0 [[<- <-]|[_ H]]%lookup_insert_Some; [|by apply Ht]. split; congruence.
    + destruct r as [r|]; cbn; [|done]. constructor; [|done]. by apply Hr.
  - destruct (codecFor (pk_pt pkt)) as [codec|] eqn:Ec; [|by split_and!].
    destruct (_ <=? _) eqn:El; [by split_and!|]. split_and!; [|done..].
    split; cbn; [rewrite map_size_insert_None by done; lia|].
    intros k s0 [[<- <-]|[_ H]]%lookup_insert_Some; [done|by apply Ht].
Qed.

(** The walk of [sweep] over some of the streams. *)
Lemma sweep_walk iface now l m reports :
  NoDup l.*1 → (∀ k s, (k, s) ∈ l → m !! k = Some s) →
  let '(m', reports') := foldl (sweep_one iface now) (m, reports) l in
  (∀ k s, m' !! k = Some s ↔ m !! k = Some s ∧ ((k, s) ∈ l → time_sub now (st_lastSeen s) < IdleTimeout)) ∧
  reports' = reports ++ omap (λ ks : streamKey * stream,
    if time_sub now (st_lastSeen ks.2) <? IdleTimeout then None
    else if confirmed ks.2 then (close ks.2 iface (st_lastSeen ks.2) now).2 else None) l.
Proof.
  revert m reports. induction l as [|[k s] l IH]; intros m reports Hnd Hm; cbn [foldl].
  { cbn. rewrite app_nil_r. split; [|done]. intros k s. split; [|by intros [? _]].
    intros H. split; [done|]. by intros ?%elem_of_nil. }
  cbn in Hnd. apply NoDup_cons in Hnd as [Hk Hnd].
  assert (∀ k' s', (k', s') ∈ l → k' ≠ k) as Hne.
  { intros k' s' Hin ->. apply Hk, list_elem_of_fmap. by exists (k, s'). }
  unfold sweep_one at 2. cbn [omap list_omap snd]. destruct (_ <? IdleTimeout) eqn:E.
  - specialize (IH m reports Hnd). destruct (foldl _ _ _) as [m' reports'].
    destruct IH as [H1 H2]; [intros k' s' Hin; apply Hm; by right|]. split; [|done].
    intros k' s'. rewrite H1. split; intros [Ha Hb]; (split; [done|]).
    + intros [[= -> ->]|Hin]%elem_of_cons; [lia|by apply Hb].
    + intros Hin. apply Hb. by right.
  - specialize (IH (delete k m) (reports ++ option_list (if confirmed s then (close s iface (st_lastSeen s) now).2 else None)) Hnd).
    destruct (foldl _ _ _) as [m' reports'].
    destruct IH as [H1 H2].
    { intros k' s' Hin. rewrite lookup_delete_ne by (symmetry; by eapply Hne). apply Hm. by right. }
    split.
    + intros k' s'. rewrite H1, lookup_delete_Some. split.
      * intros [[Hd Ha] Hb]. split; [done|]. intros [[= -> ->]|Hin]%elem_of_cons; [done|by apply Hb].
      * intros [Ha Hb]. assert (k ≠ k') as Hkk.
        { intros <-. assert (m !! k = Some s) as Hs by (apply Hm; left). assert (s' = s) as -> by congruence.
          assert (time_sub now (st_lastSeen s) < IdleTimeout) by (apply Hb; left). lia. }
        split; [done|]. intros Hin. apply Hb. by right.
    + rewrite H2, <-app_assoc. f_equal. destruct (if confirmed s then _ else None); done.
Qed.

(** A sweep keeps exactly the streams heard within [IdleTimeout], as they
    were, and reports, once each and in the order of its walk, the last
    window of exactly the confirmed streams it ends whose window is long
    enough. *)
Theorem sweep_spec tr now :
  let '(tr', reports) := sweep tr now in
  tr_lastSweep tr' = now ∧
  (∀ k s, tr_streams tr' !! k = Some s ↔
    tr_streams tr !! k = Some s ∧ time_sub now (st_lastSeen s) < IdleTimeout) ∧
  reports = omap (λ ks : streamKey * stream,
    if time_sub now (st_lastSeen ks.2) <? IdleTimeout then None
    else if confirmed ks.2 then (close ks.2 (tr_iface tr) (st_lastSeen ks.2) now).2 else None)
    (range (tr_streams tr)).
Proof.
  unfold sweep.
  pose proof (sweep_walk (tr_iface tr) now (range (tr_streams tr)) (tr_streams tr) []) as H.
  destruct (foldl _ _ _) as [m reports]. destruct H as [H1 H2].
  { rewrite range_perm. apply NoDup_fst_map_to_list. }
  { intros k s. apply elem_of_range. }
  split; [done|]. split; [|done]. intros k s. cbn. rewrite H1, elem_of_range. tauto.
Qed.

Lemma sweep_ok tr now :
  tracker_ok tr → let '(tr', rs) := sweep tr now in tracker_ok tr' ∧ Forall report_ok rs.
Proof.
  intros [Hs Ht]. unfold sweep.
  pose proof (sweep_walk (tr_iface tr) now (range (tr_streams tr)) (tr_streams tr) []) as H.
  destruct (foldl _ _ _) as [m reports]. destruct H as [H1 H2].
  { rewrite range_perm. apply NoDup_fst_map_to_list. }
  { intros k s. apply elem_of_range. }
  split.
  - split; cbn; [|intros k s Hk; apply Ht; by apply H1 in Hk as [? _]].
    etrans; [|exact Hs]. apply inj_le, map_subseteq_size, map_subseteq_spec. intros k s Hk. by apply H1 in Hk as [? _].
  - subst reports. cbn. apply Forall_forall. intros r ([k s] & Hin & Hr)%list_elem_of_omap. cbn in Hr.
    apply elem_of_range in Hin. destruct (Ht k s Hin) as [_ Hc].
    destruct (_ <? _); [done|]. destruct (confirmed s); [|done]. by eapply close_report_ok.
Qed.

Lemma finish_ok tr :
  tracker_ok tr → let '(tr', rs) := finish tr in tracker_ok tr' ∧ Forall report_ok rs.
Proof.
  intros [Hs Ht]. unfold finish. split; [split; cbn; [rewrite map_size_empty; done|intros k s; by rewrite lookup_empty]|].
  assert (∀ l rs, (∀ k s, (k, s) ∈ l → stream_ok k s) → Forall report_ok rs →
    Forall report_ok (foldl (finish_one (tr_iface tr)) rs l)) as Hl.
  { induction l as [|[k s] l IH]; intros rs Hin Hrs; [done|]. cbn. apply IH; [intros; apply Hin; by right|].
    unfold finish_one. cbn. destruct (negb _); [done|]. apply Forall_app. split; [done|].
    destruct (close s _ _ _).2 as [r|] eqn:E; cbn; [|done]. constructor; [|done].
    eapply close_report_ok; [|exact E]. apply (Hin k s). left. }
  apply Hl; [|done]. intros k s Hin. apply Ht. by apply elem_of_range.
Qed.

(** ** Decoding *)

Lemma find_udp ly found st :
  (foldl (find_layer ly) st found).2 = true ↔ st.2 = true ∨ LayerUDP ∈ found.
Proof.
  revert st. induction found as [|l found IH]; intros [[src dst] udp].
  { cbn. split; [by left|]. by intros [?|?%elem_of_nil]. }
  cbn [foldl]. rewrite IH, elem_of_cons. destruct l; cbn; intuition congruence.
Qed.

(** [decode] never reads past the payload the library hands it, and
    takes for RTP exactly the UDP datagrams from a valid address whose payload
    has the twelve bytes of the fixed header and version 2, reading the header
    as RFC 3550 lays it out. *)
Theorem decode_total DecodeLayers frame :
  ∃ r, decode DecodeLayers frame = Some r ∧
  match r with
  | None => ∀ ly, DecodeLayers frame = Some ly → LayerUDP ∈ ly_found ly → 12 ≤ len (ly_payload ly) →
      (∀ b0 rest, ly_payload ly = b0 :: rest → Z.shiftr b0 6 = rtpVersion) →
      (foldl (find_layer ly) (AddrInvalid, AddrInvalid, false) (ly_found ly)).1.1 = AddrInvalid
  | Some pkt => ∃ ly b0 b1 b2 b3 b4 b5 b6 b7 b8 b9 b10 b11 rest, DecodeLayers frame = Some ly ∧
      LayerUDP ∈ ly_found ly ∧ addr_is_valid (k_src (pk_key pkt)).1 = true ∧
      ly_payload ly = b0 :: b1 :: b2 :: b3 :: b4 :: b5 :: b6 :: b7 :: b8 :: b9 :: b10 :: b11 :: rest ∧
      Z.shiftr b0 6 = rtpVersion ∧ pk_pt pkt = Z.land b1 rtpPTMask ∧ pk_seq pkt = b2 * 2 ^ 8 + b3 ∧
      pk_ts pkt = b4 * 2 ^ 24 + b5 * 2 ^ 16 + b6 * 2 ^ 8 + b7 ∧
      k_ssrc (pk_key pkt) = b8 * 2 ^ 24 + b9 * 2 ^ 16 + b10 * 2 ^ 8 + b11
  end.
Proof.
  unfold decode. destruct (DecodeLayers frame) as [ly|]; [|by exists None].
  destruct (foldl _ _ _) as [[src dst] udp] eqn:Ef.
  pose proof (find_udp ly (ly_found ly) (AddrInvalid, AddrInvalid, false)) as Hudp. rewrite Ef in Hudp. cbn in Hudp.
  destruct (negb udp || negb (addr_is_valid src) || (len (ly_payload ly) <? rtpHeaderLen)) eqn:E.
  { exists None. split; [done|]. intros ly' [= <-] Hin Hlen _. rewrite Ef. cbn. unfold rtpHeaderLen in E.
    assert (udp = true) as -> by tauto. cbn in E. destruct src; [done|cbn in E; lia..]. }
  apply orb_false_iff in E as [[Hu Hv]%orb_false_iff Hlen]. unfold rtpHeaderLen in Hlen.
  apply negb_false_iff in Hu, Hv. destruct (proj1 Hudp Hu) as [?|Hin]; [done|].
  destruct (ly_payload ly) as [|b0 [|b1 [|b2 [|b3 [|b4 [|b5 [|b6 [|b7 [|b8 [|b9 [|b10 [|b11 rest]]]]]]]]]]]] eqn:Ep;
    try (exfalso; by vm_compute in Hlen).
  match goal with |- context [index ?l 0] => change (index l 0) with (Some b0); change (index l 1) with (Some b1) end.
  cbn [mbind option_bind].
  destruct (negb (Z.shiftr b0 6 =? rtpVersion)) eqn:E0.
  { exists None. split; [done|]. intros ly' [= <-] _ _ Hver. rewrite Ep in Hver. specialize (Hver _ _ eq_refl). lia. }
  unfold be32_at, be16_at. rewrite !slice_from_Some by (unfold len in *; cbn [length] in *; lia). cbn.
  eexists. split; [done|]. exists ly, b0, b1, b2, b3, b4, b5, b6, b7, b8, b9, b10, b11, rest. cbn.
  split_and!; try done. lia.
Qed.

(** ** The pipeline *)

(** The reports that fitted the queue, in order. *)
Definition accepted (p : pipeline) : list Report := p_inserted p ++ p_batch p ++ p_queue p.

Lemma published_app year b1 b2 : published year (b1 ++ b2) = published year b1 ++ published year b2.
Proof. unfold published. by rewrite filter_app, omap_app. Qed.

Record pipeline_ok (year : Z → Z) (p : pipeline) : Prop := {
  po_tracker : tracker_ok (p_tracker p);
  po_queue : len (p_queue p) ≤ queueSize;
  po_reports : p_reports p = len (accepted p);
  po_each : Forall report_ok (accepted p);
  po_published : p_published p = published year (p_inserted p);
  po_returned : p_returned p = true → p_closed p = true ∧ p_queue p = [] ∧ p_batch p = [];
}.

Lemma emit_ok year p rs :
  pipeline_ok year p → p_closed p = false → Forall report_ok rs →
  pipeline_ok year (emit p rs) ∧ accepted p `prefix_of` accepted (emit p rs) ∧
  p_tracker (emit p rs) = p_tracker p ∧ p_closed (emit p rs) = false ∧
  p_reports (emit p rs) + p_dropped (emit p rs) = p_reports p + p_dropped p + len rs.
Proof.
  unfold emit. revert p. induction rs as [|r rs IH]; intros p Hp Hc Hrs; cbn [foldl].
  { split_and!; try done; unfold len; cbn; lia. }
  apply Forall_cons in Hrs as [Hr Hrs].
  assert (pipeline_ok year (emit_one p r) ∧ accepted p `prefix_of` accepted (emit_one p r) ∧
    p_tracker (emit_one p r) = p_tracker p ∧ p_closed (emit_one p r) = false ∧
    p_reports (emit_one p r) + p_dropped (emit_one p r) = p_reports p + p_dropped p + 1) as (H1 & H2 & H3 & H4 & H5).
  { destruct Hp as [P1 P2 P3 P4 P5 P6]. unfold emit_one, accepted in *. destruct (_ <? _) eqn:E.
    - split_and!; [|exists [r]; cbn; by rewrite <-!app_assoc|done|done|cbn; lia].
      split; unfold accepted; cbn; try done.
      + rewrite len_app. change (len [r]) with 1. lia.
      + rewrite P3, !len_app. change (len [r]) with 1. lia.
      + rewrite !app_assoc. apply Forall_app. rewrite <-app_assoc. split; [done|by constructor].
      + intros Hret. destruct (P6 Hret). congruence.
    - split_and!; [|done|done|done|cbn; lia]. by split. }
  destruct (IH _ H1 H4 Hrs) as (G1 & G2 & G3 & G4 & G5). rewrite len_cons.
  split_and!; [done|by etrans|congruence|done|lia].
Qed.

Lemma set_tracker_ok year p tr : pipeline_ok year p → tracker_ok tr → pipeline_ok year (set_tracker p tr).
Proof. intros [P1 P2 P3 P4 P5 P6] Ht. by split. Qed.

Lemma set_counters_ok year p c n : pipeline_ok year p → pipeline_ok year (set_counters p c n).
Proof. intros [P1 P2 P3 P4 P5 P6]. by split. Qed.

Lemma read_timeout_ok year p now :
  pipeline_ok year p → p_closed p = false →
  pipeline_ok year (read_timeout p now) ∧ accepted p `prefix_of` accepted (read_timeout p now) ∧
  p_closed (read_timeout p now) = false.
Proof.
  intros Hp Hc. unfold read_timeout. pose proof (sweep_ok (p_tracker p) now (po_tracker _ _ Hp)) as Hs.
  destruct (sweep _ _) as [tr rs]. destruct Hs as [Ht Hrs].
  by destruct (emit_ok year (set_tracker p tr) rs) as (H1 & H2 & _ & H4 & _); [by apply set_tracker_ok|done|done|].
Qed.

Lemma write_store_ok year p ok :
  pipeline_ok year p → p_returned p = false →
  pipeline_ok year (write_store year p ok) ∧ accepted (write_store year p ok) = accepted p ∧ p_batch (write_store year p ok) = [] ∧
  p_queue (write_store year p ok) = p_queue p ∧ p_closed (write_store year p ok) = p_closed p.
Proof.
  intros Hp Hr. unfold write_store. destruct (p_batch p) as [|r batch] eqn:E; [by rewrite E|].
  assert (∀ q, p_inserted q = p_inserted p ++ p_batch p → p_batch q = [] → p_queue q = p_queue p →
    accepted q = accepted p) as Hacc.
  { intros q H1 H2 H3. unfold accepted. by rewrite H1, H2, H3, <-app_assoc. }
  rewrite E in Hacc. split; [|split; [by apply Hacc|done]]. destruct Hp as [P1 P2 P3 P4 P5 P6].
  split; try done; try (rewrite Hacc by done); try done; cbn -[published].
  - by rewrite P5, <-published_app.
  - congruence.
Qed.

Lemma pstep_ok dec year p p' :
  pipeline_ok year p → pstep dec year p p' → pipeline_ok year p' ∧ accepted p `prefix_of` accepted p'.
Proof.
  intros Hp Hst. destruct Hst as [data t p' Hc Hrd|now Hc|Hc|Hr|ok Hr|ok Hr Hc Hq].
  - unfold read_packet in Hrd. destruct (decode dec data) as [pkt|]; [|done]. cbn [mbind option_bind] in Hrd.
    injection Hrd as <-. set (p0 := set_counters p (p_counters p) (p_packets p + 1)).
    set (p1 := match pkt with Some _ => _ | None => p0 end).
    assert (pipeline_ok year p1 ∧ accepted p `prefix_of` accepted p1 ∧ p_closed p1 = false) as (H1 & H2 & H3).
    { destruct pkt as [pkt|]; [|split_and!; [by apply set_counters_ok|done|done]]. unfold p1.
      pose proof (observe_ok (p_counters p0) (p_tracker p0) pkt t (po_tracker _ _ Hp)) as Ho.
      destruct (observe _ _ _ _) as [[c tr] rs]. destruct Ho as (Ht & _ & _ & Hrs).
      by destruct (emit_ok year (set_tracker (set_counters p0 c (p_packets p0)) tr) rs) as (G1 & G2 & _ & G4 & _);
        [apply set_tracker_ok; [by apply set_counters_ok, set_counters_ok|done]|done|done|]. }
    destruct (_ <=? _); [|done]. destruct (read_timeout_ok year p1 t H1 H3) as (G1 & G2 & _).
    unfold read_timeout in G1, G2. split; [done|by etrans].
  - destruct (read_timeout_ok year p now Hp Hc) as (? & ? & _). done.
  - unfold read_end. pose proof (finish_ok (p_tracker p) (po_tracker _ _ Hp)) as Hf.
    destruct (finish _) as [tr rs]. destruct Hf as [Ht Hrs].
    destruct (emit_ok year (set_tracker p tr) rs) as (G1 & G2 & _ & G4 & _); [by apply set_tracker_ok|done|done|].
    split; [|exact G2]. destruct G1 as [P1 P2 P3 P4 P5 P6]. split; try done. intros Hret. by destruct (P6 Hret).
  - unfold write_take. destruct (p_queue p) as [|r queue] eqn:E; [done|].
    assert (∀ q, p_inserted q = p_inserted p → p_batch q = p_batch p ++ [r] → p_queue q = queue →
      accepted q = accepted p) as Hacc.
    { intros q H1 H2 H3. unfold accepted. by rewrite H1, H2, H3, E, <-app_assoc. }
    split; [|apply reflexive_eq; symmetry; by apply Hacc]. destruct Hp as [P1 P2 P3 P4 P5 P6].
    split; try done; try (rewrite Hacc by done); try done; cbn.
    + rewrite E, len_cons in P2. lia.
    + congruence.
  - destruct (write_store_ok year p ok Hp Hr) as (H1 & H2 & _). by rewrite H2.
  - destruct (write_store_ok year p ok Hp Hr) as (H1 & H2 & H3 & H4 & H5). unfold write_end.
    assert (∀ q, p_inserted q = p_inserted (write_store year p ok) → p_batch q = p_batch (write_store year p ok) →
      p_queue q = p_queue (write_store year p ok) → accepted q = accepted p) as Hacc.
    { intros q E1 E2 E3. rewrite <-H2. unfold accepted. by rewrite E1, E2, E3. }
    split; [|apply reflexive_eq; symmetry; by apply Hacc]. destruct H1 as [P1 P2 P3 P4 P5 P6].
    split; try done; try (rewrite Hacc, <-H2 by done); try done. cbn. intros _. by rewrite H3, H4, H5.
Qed.

Lemma psteps_ok dec year p p' :
  pipeline_ok year p → psteps dec year p p' → pipeline_ok year p' ∧ accepted p `prefix_of` accepted p'.
Proof.
  intros Hp Hst. induction Hst as [p|p p1 p' Hs _ IH]; [done|].
  destruct (pstep_ok dec year p p1 Hp Hs) as [H1 H2]. destruct (IH H1). split; [done|by etrans].
Qed.

Lemma new_pipeline_ok year iface : pipeline_ok year (new_pipeline iface).
Proof.
  by split.
Qed.

(** At any moment of the capture, whatever frames arrive and however the
    writer lags, at most [maxStreams] streams are tracked, each scored by the
    codec of its payload type, and at most [queueSize] reports wait. *)
Theorem listener_bounded dec year iface p :
  psteps dec year (new_pipeline iface) p →
  Z.of_nat (size (tr_streams (p_tracker p))) ≤ maxStreams ∧ len (p_queue p) ≤ queueSize ∧
  ∀ k s, tr_streams (p_tracker p) !! k = Some s → st_key s = k ∧ codecFor (st_pt s) = Some (st_codec s).
Proof.
  intros Hst. destruct (psteps_ok dec year _ _ (new_pipeline_ok year iface) Hst) as [[[Hsz Hs] Hq _ _ _ _] _].
  split_and!; [done|done|]. intros k s Hk. by apply Hs.
Qed.

End table.

(** ** Concrete runs *)

Lemma updateSeq_exact_witness :
  in_reach_all 65534 [65535; 65537; 65536; 65600] ∧
  expected (foldl (λ s e, (updateSeq s (on_wire e)).1) (initSeq demo_candidate (on_wire 65534))
    [65535; 65537; 65536; 65600]) = 67.
Proof.
  assert (in_reach_all 65534 [65535; 65537; 65536; 65600]) as Hr by (vm_compute; tauto).
  split; [exact Hr|].
  destruct (updateSeq_exact (initSeq demo_candidate (on_wire 65534)) 65534 65534 [65535; 65537; 65536; 65600])
    as (_ & He & _); [split; reflexivity|exact Hr|].
  change (foldl Z.max 65534 [65535; 65537; 65536; 65600]) with 65600 in He.
  change (expected (initSeq demo_candidate (on_wire 65534))) with 1 in He. lia.
Defined.

Lemma updateSeq_restart_witness :
  wrap 16 (30000 - maxSeq (st_seq demo_confirmed)) = 29997 ∧
  received (st_seq (updateSeq (updateSeq demo_confirmed 30000).1 30001).1) = 1.
Proof.
  split; [by vm_compute|].
  assert (maxSeq (st_seq demo_confirmed) = 3) as E3 by by vm_compute.
  assert (badSeq (st_seq demo_confirmed) = 65537) as E4 by by vm_compute.
  pose proof (updateSeq_restart demo_confirmed 30000) as H. rewrite E3, E4 in H.
  assert (updateSeq demo_confirmed 30000 = ((updateSeq demo_confirmed 30000).1, false)) as E1 by by vm_compute.
  assert (updateSeq (updateSeq demo_confirmed 30000).1 (wrap 16 (30000 + 1)) =
    ((updateSeq (updateSeq demo_confirmed 30000).1 30001).1, true)) as E2 by by vm_compute.
  rewrite E1, E2 in H. clear E1 E2 E3 E4. destruct H as (_ & _ & _ & H); [lia|lia|by vm_compute|lia|].
  destruct H as (_ & _ & H & _); [by vm_compute|exact H].
Defined.

Lemma probation_exact_witness :
  (run_of ptPCMU (on_wire 65530) (map demo_audio (seq 1 9))).2 = probationPackets ∧
  confirmed (add_packet "eth0" (add_all "eth0" demo_candidate (map demo_audio (seq 1 8))).1 (demo_audio 9)).1 = true.
Proof.
  split; [by vm_compute|].
  destruct (probation_exact demo_key ptPCMU demo_codec (on_wire 65530) 0 "eth0" (map demo_audio (seq 1 8)) (demo_audio 9))
    as (_ & _ & H & _); [|apply H; by vm_compute].
  intros ps1 ps2 Heq.
  assert (Forall (λ n, (run_of ptPCMU (on_wire 65530) (take n (map demo_audio (seq 1 8)))).2 < probationPackets)
    (seq 0 9)) as Hall by (repeat constructor).
  rewrite Forall_forall in Hall. specialize (Hall (length ps1)).
  rewrite Heq, take_app_length in Hall. apply Hall. apply elem_of_seq.
  apply (f_equal length) in Heq. rewrite length_app in Heq. cbn in Heq. lia.
Defined.

Lemma windows_disjoint_witness :
  confirmed demo_confirmed = true ∧
  total rp_Received (add_all "eth0" demo_confirmed (audio ptPCMU [(65540, 1600, 200 * millisecond)])).2 ≤ 2.
Proof.
  split; [by vm_compute|].
  pose proof (windows_disjoint demo_confirmed "eth0" 65539 65539 [(65540, 1600, 200 * millisecond)]) as H.
  change (st_pt demo_confirmed) with ptPCMU in H.
  destruct (add_all "eth0" demo_confirmed (audio ptPCMU [(65540, 1600, 200 * millisecond)])) as [s' rs].
  destruct H as (_ & _ & _ & H1 & _ & _ & H2);
    [by vm_compute|by vm_compute|by vm_compute|by vm_compute|by vm_compute|].
  change (open_received demo_confirmed) with 1 in H2. change (len [(65540, 1600, 200 * millisecond)]) with 1 in H2.
  cbn [snd]. lia.
Defined.

(** A library that finds every frame to be the payload of a UDP datagram. *)
Definition demo_layers (frame : bytes) : option layers :=
  Some (MkLayers [LayerIPv4; LayerUDP] ([10; 0; 0; 1], [10; 0; 0; 2]) ([], []) (5004, 5004) frame).

(** The year, were every year 365.2425 days long. *)
Definition demo_year (t : Z) : Z := (t - time_zero) / (31556952 * second) + 1.

Definition demo_rtp : bytes := [128; 0; 255; 250; 0; 0; 0; 0; 0; 0; 0; 7].

Definition demo_read : pipeline :=
  default (new_pipeline "eth0") (read_packet demo_layers (new_pipeline "eth0") demo_rtp 0).

Lemma demo_read_steps : psteps demo_layers demo_year (new_pipeline "eth0") demo_read.
Proof. eapply rtc_l; [apply (p_packet _ _ _ demo_rtp 0); by vm_compute|apply rtc_refl]. Qed.

Lemma listener_bounded_witness :
  size (tr_streams (p_tracker demo_read)) = 1%nat ∧ len (p_queue demo_read) ≤ queueSize.
Proof.
  split; [by vm_compute|].
  destruct (listener_bounded demo_layers demo_year "eth0" demo_read demo_read_steps) as (_ & H & _). exact H.
Defined.

Definition demo_report (jitter mos : spec_float) (at_ : Z) : Report :=
  MkReport "eth0" demo_key "PCMU" at_ at_ 10 10 (float64 0) jitter jitter (float64 20) (float64 50) mos.

(** Of four windows the poor one that can be written is published: not the
    good one, nor one whose jitter is infinite, nor one of the year 10000. *)
Example poor_published :
  published demo_year
    [demo_report (float64 1) (float64 4) 0; demo_report (S754_infinity false) (float64 2) 0;
     demo_report (float64 1) (float64 2) 0; demo_report (float64 1) (float64 2) (8040 * 31556952 * second)] =
  [demo_report (float64 1) (float64 2) 0].
Proof. by vm_compute. Qed.

Definition demo_ended : pipeline := write_end demo_year (read_end demo_read) true.

