(* ===== verification/IfRate.v ===== *)
(** * Interface rates (src/internal/timeseries/ifrate, src/internal/protocols/snmp/counter_delta.go)

    Successive SNMP counter readings of an interface become per-second rates:
    the deltas of 32-bit and 64-bit counters across wraps, the
    discontinuities that drop an interval, the line rate that bounds one, and
    the baselines a [Rater] keeps per target. Counters are integers of their
    width; rates are binary64 quotients. *)
From Stdlib Require Import ZArith Lia SpecFloat Sorting.Sorted.
From stdpp Require Import base gmap sets list strings sorting.
From S2P Require Import Prelude GoBase.

(** ** Counters *)

Definition MaxUint32 : Z := 2 ^ 32 - 1.

(** [snmp.Counter32Delta], on [uint64] readings and [uint32] up-times. *)
Definition Counter32Delta (prev cur prevUpTime curUpTime : Z) : option Z :=
  if (curUpTime <? prevUpTime) || (MaxUint32 <? prev) || (MaxUint32 <? cur) then None
  else if prev <=? cur then Some (cur - prev)
  else Some (wrap 64 (MaxUint32 - prev + cur + 1)).

(** ** Metrics *)

Definition MetricInOctets : string := "if_in_octets".
Definition MetricOutOctets : string := "if_out_octets".
Definition MetricInErrors : string := "if_in_errors".
Definition MetricOutErrors : string := "if_out_errors".
Definition MetricInDiscards : string := "if_in_discards".
Definition MetricOutDiscards : string := "if_out_discards".
Definition UnitOctets : string := "octets/s".
Definition UnitPackets : string := "packets/s".
Definition MetricInUtilization : string := "if_in_utilization".
Definition MetricOutUtilization : string := "if_out_utilization".
Definition UnitPercent : string := "percent".
Definition MetricDot3SQETestErrors : string := "dot3_sqe_test_errors".
Definition MetricDot3LateCollisions : string := "dot3_late_collisions".
Definition MetricDot3CarrierSenseErrors : string := "dot3_carrier_sense_errors".
Definition MetricDot3SymbolErrors : string := "dot3_symbol_errors".
Definition UnitFrames : string := "frames/s".
Definition UnitEvents : string := "events/s".

Definition etherLikeUnit (metric : string) : string :=
  if bool_decide (metric ∈ [MetricDot3SQETestErrors; MetricDot3LateCollisions;
                            MetricDot3CarrierSenseErrors; MetricDot3SymbolErrors])
  then UnitEvents else UnitFrames.

Definition lineRateSlack : spec_float := Eval vm_compute in float64_const 11 10.
Definition bitsPerOctet : spec_float := Eval vm_compute in float64 8.
Definition fullPercent : spec_float := Eval vm_compute in float64 100.

(** ** Data *)

Record Reading : Type := MkReading {
  IfIndex : Z;
  InOctets : Z;
  OutOctets : Z;
  WideOctets : bool;
  InErrors : Z;
  OutErrors : Z;
  InDiscards : Z;
  OutDiscards : Z;
  Discontinuity : Z;
  EtherLike : gmap string Z;
  SpeedBps : Z;
}.

Record Snapshot : Type := MkSnapshot {
  sn_ClientID : string;
  sn_TargetID : string;
  sn_At : Z;
  sn_SysUpTime : option Z;
  sn_Readings : list Reading;
}.

Record Utilization : Type := MkUtilization { ut_In : spec_float; ut_Out : spec_float }.

Record Octets : Type := MkOctets {
  oc_In : spec_float;
  oc_Out : spec_float;
  oc_Utilization : option Utilization;
}.

Record Rate : Type := MkRate {
  rt_ClientID : string;
  rt_TargetID : string;
  rt_IfIndex : Z;
  rt_At : Z;
  rt_Octets : option Octets;
  rt_InErrors : spec_float;
  rt_OutErrors : spec_float;
  rt_InDiscards : spec_float;
  rt_OutDiscards : spec_float;
  rt_EtherLike : gmap string spec_float;
}.

Record Point : Type := MkPoint { pt_Type : string; pt_Unit : string; pt_Value : spec_float }.

(** [slices.Sorted(maps.Keys(m))]: bytewise order. *)
Definition sorted_keys {V} (m : gmap string V) : list string :=
  merge_sort str_le (map_to_list m).*1.

(** [Rate.Points] *)
Definition Points (r : Rate) : list Point :=
  match rt_Octets r with
  | None => []
  | Some o =>
      [MkPoint MetricInOctets UnitOctets (oc_In o); MkPoint MetricOutOctets UnitOctets (oc_Out o)] ++
      match oc_Utilization o with
      | None => []
      | Some u => [MkPoint MetricInUtilization UnitPercent (ut_In u);
                   MkPoint MetricOutUtilization UnitPercent (ut_Out u)]
      end
  end ++
  [MkPoint MetricInErrors UnitPackets (rt_InErrors r); MkPoint MetricOutErrors UnitPackets (rt_OutErrors r);
   MkPoint MetricInDiscards UnitPackets (rt_InDiscards r);
   MkPoint MetricOutDiscards UnitPackets (rt_OutDiscards r)] ++
  map (λ metric, MkPoint metric (etherLikeUnit metric) (default (float64 0) (rt_EtherLike r !! metric)))
    (sorted_keys (rt_EtherLike r)).

(** ** Rates *)

(** [Duration.Seconds] *)
Definition Seconds (d : Z) : spec_float :=
  float64_add (float64 (Z.quot d second)) (float64_div (float64 (Z.rem d second)) (float64 second)).

(** The closure [delta] of [counterDeltas]. *)
Definition delta (prevUp curUp : Z) (p c : Z) (wide : bool) : option Z :=
  if wide then if p <=? c then Some (c - p) else None
  else Counter32Delta p c prevUp curUp.

(** The deltas of the six counters in the order of [Rate]'s fields. *)
Record deltas : Type := MkDeltas {
  d_InOctets : Z; d_OutOctets : Z; d_InErrors : Z; d_OutErrors : Z; d_InDiscards : Z; d_OutDiscards : Z;
}.

Definition counterDeltas (prev cur : Reading) (prevUp curUp : Z) : option deltas :=
  if (curUp <? prevUp) || negb (Discontinuity prev =? Discontinuity cur) ||
     negb (Bool.eqb (WideOctets prev) (WideOctets cur))
  then None
  else
    let delta := delta prevUp curUp in
    d0 ← delta (InOctets prev) (InOctets cur) (WideOctets cur);
    d1 ← delta (OutOctets prev) (OutOctets cur) (WideOctets cur);
    d2 ← delta (InErrors prev) (InErrors cur) false;
    d3 ← delta (OutErrors prev) (OutErrors cur) false;
    d4 ← delta (InDiscards prev) (InDiscards cur) false;
    d5 ← delta (OutDiscards prev) (OutDiscards cur) false;
    Some (MkDeltas d0 d1 d2 d3 d4 d5).

(** [lineRateBps] *)
Definition lineRateBps (speedBps : Z) : spec_float :=
  if speedBps =? MaxUint32 then float64 0 else float64 speedBps.

(** [octetRates]; [None] drops the interval, [Some None] is no octet rate. *)
Definition octetRates (rd : Reading) (in_ out : Z) (seconds : spec_float) : option (option Octets) :=
  let oin := float64_div (float64 in_) seconds in
  let oout := float64_div (float64 out) seconds in
  let lineOctets := float64_div (lineRateBps (SpeedBps rd)) bitsPerOctet in
  if SFeqb lineOctets (float64 0) then Some (Some (MkOctets oin oout None))
  else if negb (WideOctets rd) && SFleb (float64 (2 ^ 32)) (float64_mul lineOctets seconds) then Some None
  else if SFltb (float64_mul lineOctets lineRateSlack) oin || SFltb (float64_mul lineOctets lineRateSlack) oout
  then None
  else Some (Some (MkOctets oin oout (Some (MkUtilization
    (float64_min (float64_div (float64_mul fullPercent oin) lineOctets) fullPercent)
    (float64_min (float64_div (float64_mul fullPercent oout) lineOctets) fullPercent))))).

(** [baseline] *)
Record baseline : Type := MkBaseline {
  bl_at : Z;
  bl_sysUpTime : Z;
  bl_readings : gmap Z Reading;
}.

(** [Rater]: the previous reading of each target. *)
Abbreviation Rater := (gmap string baseline).

Definition NewRater : Rater := ∅.

Section rater.
(** The order in which Go walks the EtherLike counters. *)
Context `{!RangeOrder string}.

(** One counter of [etherLikeRates]. *)
Definition etherLike_one (prev : gmap string Z) (prevUp curUp : Z) (seconds : spec_float)
    (rates : option (gmap string spec_float)) (mc : string * Z) : option (gmap string spec_float) :=
  rates ← rates;
  match prev !! mc.1 with
  | None => Some rates
  | Some p => d ← Counter32Delta p mc.2 prevUp curUp; Some (<[mc.1 := float64_div (float64 d) seconds]> rates)
  end.

Definition etherLikeRates (prev cur : gmap string Z) (prevUp curUp : Z) (seconds : spec_float) :
    option (gmap string spec_float) :=
  foldl (etherLike_one prev prevUp curUp seconds) (Some ∅) (range cur).

(** One reading of [Observe]'s loop. *)
Definition rate_one (snap : Snapshot) (prev : baseline) (curUp : Z) (seconds : spec_float) (rd : Reading) :
    option Rate :=
  before ← bl_readings prev !! IfIndex rd;
  d ← counterDeltas before rd (bl_sysUpTime prev) curUp;
  etherLike ← etherLikeRates (EtherLike before) (EtherLike rd) (bl_sysUpTime prev) curUp seconds;
  octets ← octetRates rd (d_InOctets d) (d_OutOctets d) seconds;
  let per n := float64_div (float64 n) seconds in
  Some (MkRate (sn_ClientID snap) (sn_TargetID snap) (IfIndex rd) (sn_At snap) octets
          (per (d_InErrors d)) (per (d_OutErrors d)) (per (d_InDiscards d)) (per (d_OutDiscards d)) etherLike).

(** The baseline of a snapshot. *)
Definition baseline_of (snap : Snapshot) (up : Z) : baseline :=
  MkBaseline (sn_At snap) up (foldl (λ m rd, <[IfIndex rd := rd]> m) ∅ (sn_Readings snap)).

(** [Rater.Observe]; the seconds since the zero time are never used. *)
Definition Observe (r : Rater) (snap : Snapshot) : Rater * list Rate :=
  match sn_SysUpTime snap with
  | None => (delete (sn_TargetID snap) r, [])
  | Some up =>
      let cur := baseline_of snap up in
      let r' := <[sn_TargetID snap := cur]> r in
      match r !! sn_TargetID snap with
      | None => (r', [])
      | Some prev =>
          let seconds := Seconds (time_sub (sn_At snap) (bl_at prev)) in
          if SFleb seconds (float64 0) then (r', [])
          else (r', foldl (λ rates rd, rates ++ option_list (rate_one snap prev up seconds rd)) [] (sn_Readings snap))
      end
  end.

(** ** Deltas *)

(** The readings of a counter that advanced by [d] between them, past a
    64-bit value [n] that never wraps, or modulo 2^32 by less than one turn. *)
Definition advanced (wide : bool) (p c d : Z) : Prop :=
  ∃ n, 0 ≤ n ∧ 0 ≤ d ∧
  if wide then p = n ∧ c = n + d ∧ n + d < 2 ^ 64
  else p = wrap 32 n ∧ c = wrap 32 (n + d) ∧ d < 2 ^ 32.

Lemma Counter32Delta_advanced p c d prevUp curUp :
  advanced false p c d → prevUp ≤ curUp → Counter32Delta p c prevUp curUp = Some d.
Proof.
  intros (n & Hn & Hd & -> & -> & Hlt) Hup. unfold Counter32Delta, MaxUint32, wrap.
  pose proof (Z.mod_pos_bound n (2 ^ 32)). pose proof (Z.mod_pos_bound (n + d) (2 ^ 32)).
  assert (((curUp <? prevUp) || (2 ^ 32 - 1 <? n mod 2 ^ 32) || (2 ^ 32 - 1 <? (n + d) mod 2 ^ 32)) = false) as ->.
  { rewrite !orb_false_iff. lia. }
  pose proof (Z.div_mod n (2 ^ 32)). pose proof (Z.div_mod (n + d) (2 ^ 32)).
  destruct (_ <=? _) eqn:E; f_equal; [nia|]. rewrite Z.mod_small; nia.
Qed.

Lemma Counter32Delta_Some p c prevUp curUp d :
  Counter32Delta p c prevUp curUp = Some d → 0 ≤ p → 0 ≤ c → prevUp ≤ curUp ∧ p < 2 ^ 32 ∧ c < 2 ^ 32 ∧ d = wrap 32 (c - p).
Proof.
  unfold Counter32Delta, MaxUint32, wrap. intros H Hp Hc.
  destruct (_ || _) eqn:E; [done|]. apply orb_false_iff in E as [[E1 E2]%orb_false_iff E3].
  split_and!; [lia|lia|lia|]. destruct (_ <=? _) eqn:E4; injection H as <-.
  - rewrite Z.mod_small; lia.
  - rewrite Z.mod_small by lia. apply (Z.mod_unique_pos _ _ (-1)); lia.
Qed.

Lemma delta_advanced wide p c d prevUp curUp :
  advanced wide p c d → prevUp ≤ curUp → delta prevUp curUp p c wide = Some d.
Proof.
  destruct wide; [|apply Counter32Delta_advanced].
  intros (n & Hn & Hd & -> & -> & Hlt) _. cbn. rewrite (proj2 (Z.leb_le n (n + d))) by lia. f_equal. lia.
Qed.

(** The deltas are exact: when the agent did not restart, the interface's
    counters were not cleared and it kept their width, then however many of
    the counters wrapped, each delta is what the counter really advanced by,
    a 32-bit one by less than 2^32. *)
Theorem counterDeltas_exact prev cur prevUp curUp d0 d1 d2 d3 d4 d5 :
  prevUp ≤ curUp → Discontinuity prev = Discontinuity cur → WideOctets prev = WideOctets cur →
  advanced (WideOctets cur) (InOctets prev) (InOctets cur) d0 →
  advanced (WideOctets cur) (OutOctets prev) (OutOctets cur) d1 →
  advanced false (InErrors prev) (InErrors cur) d2 → advanced false (OutErrors prev) (OutErrors cur) d3 →
  advanced false (InDiscards prev) (InDiscards cur) d4 → advanced false (OutDiscards prev) (OutDiscards cur) d5 →
  counterDeltas prev cur prevUp curUp = Some (MkDeltas d0 d1 d2 d3 d4 d5).
Proof.
  intros Hup Hdis Hw H0 H1 H2 H3 H4 H5. unfold counterDeltas. rewrite Hdis, Hw, Z.eqb_refl, eqb_reflx.
  rewrite (proj2 (Z.ltb_ge curUp prevUp)) by done. cbn [orb negb].
  by rewrite !(delta_advanced _ _ _ _ _ _ H0), !(delta_advanced _ _ _ _ _ _ H1), !(delta_advanced _ _ _ _ _ _ H2),
    !(delta_advanced _ _ _ _ _ _ H3), !(delta_advanced _ _ _ _ _ _ H4), !(delta_advanced _ _ _ _ _ _ H5) by done.
Qed.

(** ** What a rate is *)

Lemma SFltb_irrefl x : SFltb x x = false.
Proof.
  unfold SFltb, SFcompare. destruct x as [[]|[]| |[] m e]; try done; rewrite Z.compare_refl, Pos.compare_cont_refl; done.
Qed.

(** [min] with the bound 100 is never above it. *)
Lemma float64_min_full x : SFltb fullPercent (float64_min x fullPercent) = false.
Proof.
  unfold float64_min, fullPercent. destruct x as [s|s| |s m e]; try done;
    (match goal with |- context [if ?b then _ else _] => destruct b eqn:E end; [apply SFltb_irrefl|exact E]).
Qed.

Definition rates_of (snap : Snapshot) (prev : baseline) (up : Z) (seconds : spec_float) : list Rate :=
  omap (rate_one snap prev up seconds) (sn_Readings snap).

Lemma rates_loop snap prev up seconds rates l :
  foldl (λ rates rd, rates ++ option_list (rate_one snap prev up seconds rd)) rates l =
  rates ++ omap (rate_one snap prev up seconds) l.
Proof.
  revert rates. induction l as [|rd l IH]; intros rates; cbn; [by rewrite app_nil_r|].
  rewrite IH, <-app_assoc. by destruct (rate_one snap prev up seconds rd).
Qed.

Lemma Observe_rates r snap rate :
  rate ∈ (Observe r snap).2 →
  ∃ up prev rd, sn_SysUpTime snap = Some up ∧ r !! sn_TargetID snap = Some prev ∧ rd ∈ sn_Readings snap ∧
    SFleb (Seconds (time_sub (sn_At snap) (bl_at prev))) (float64 0) = false ∧
    rate_one snap prev up (Seconds (time_sub (sn_At snap) (bl_at prev))) rd = Some rate.
Proof.
  unfold Observe. destruct (sn_SysUpTime snap) as [up|]; [|by intros ?%elem_of_nil].
  destruct (r !! sn_TargetID snap) as [prev|]; [|by intros ?%elem_of_nil].
  destruct (SFleb _ _) eqn:E; [by intros ?%elem_of_nil|]. cbn. rewrite rates_loop. cbn.
  intros (rd & Hin & Hr)%list_elem_of_omap. exists up, prev, rd. done.
Qed.

(** The EtherLike rates are of counters served in both readings. *)
Lemma etherLike_loop prev prevUp curUp seconds l rates rates' m :
  foldl (etherLike_one prev prevUp curUp seconds) (Some rates) l = Some rates' → rates' !! m = rates !! m ∨
  ∃ p c d, prev !! m = Some p ∧ (m, c) ∈ l ∧ Counter32Delta p c prevUp curUp = Some d ∧
    rates' !! m = Some (float64_div (float64 d) seconds).
Proof.
  assert (∀ l, foldl (etherLike_one prev prevUp curUp seconds) None l = None) as Hnone.
  { induction l0 as [|x l0 IH]; [done|exact IH]. }
  revert rates. induction l as [|[m' c] l IH]; intros rates; cbn [foldl]; [intros [= ->]; by left|].
  unfold etherLike_one at 2. cbn. destruct (prev !! m') as [p|] eqn:Ep.
  - destruct (Counter32Delta p c prevUp curUp) as [d|] eqn:Ed; cbn; [|by rewrite Hnone].
    intros H. apply IH in H as [H|(p' & c' & d' & H1 & H2 & H3 & H4)].
    + destruct (decide (m' = m)) as [->|Hne].
      * right. exists p, c, d. rewrite lookup_insert_eq in H. split_and!; [done|by left|done|done].
      * left. by rewrite lookup_insert_ne in H.
    + right. exists p', c', d'. split_and!; [done|by right|done|done].
  - intros H. apply IH in H as [H|(p' & c' & d' & H1 & H2 & H3 & H4)]; [by left|].
    right. exists p', c', d'. split_and!; [done|by right|done|done].
Qed.

(** Both readings of a rate, and the interval between them. *)
Record rated (before rd : Reading) (prev : baseline) (up : Z) (seconds : spec_float) (rate : Rate) : Prop := {
  ra_before : bl_readings prev !! IfIndex rd = Some before;
  ra_index : rt_IfIndex rate = IfIndex rd;
  ra_running : bl_sysUpTime prev ≤ up;
  ra_kept : Discontinuity before = Discontinuity rd ∧ WideOctets before = WideOctets rd;
  ra_errors : rt_InErrors rate = float64_div (float64 (wrap 32 (InErrors rd - InErrors before))) seconds ∧
    rt_OutErrors rate = float64_div (float64 (wrap 32 (OutErrors rd - OutErrors before))) seconds ∧
    rt_InDiscards rate = float64_div (float64 (wrap 32 (InDiscards rd - InDiscards before))) seconds ∧
    rt_OutDiscards rate = float64_div (float64 (wrap 32 (OutDiscards rd - OutDiscards before))) seconds;
  ra_octets o : rt_Octets rate = Some o →
    ∃ w, w = (if WideOctets rd then 64 else 32) ∧
    oc_In o = float64_div (float64 (wrap w (InOctets rd - InOctets before))) seconds ∧
    oc_Out o = float64_div (float64 (wrap w (OutOctets rd - OutOctets before))) seconds ∧
    (WideOctets rd = true → InOctets before ≤ InOctets rd ∧ OutOctets before ≤ OutOctets rd);
  ra_line o u : rt_Octets rate = Some o → oc_Utilization o = Some u →
    let line := float64_div (lineRateBps (SpeedBps rd)) bitsPerOctet in
    SFltb (float64_mul line lineRateSlack) (oc_In o) = false ∧
    SFltb (float64_mul line lineRateSlack) (oc_Out o) = false ∧
    SFltb fullPercent (ut_In u) = false ∧ SFltb fullPercent (ut_Out u) = false;
  ra_etherLike m x : rt_EtherLike rate !! m = Some x →
    ∃ p c, EtherLike before !! m = Some p ∧ EtherLike rd !! m = Some c ∧ p < 2 ^ 32 ∧ c < 2 ^ 32 ∧
      (0 ≤ p → 0 ≤ c → x = float64_div (float64 (wrap 32 (c - p))) seconds);
}.

(** The counters of a reading are unsigned 64-bit integers. *)
Definition reading_ok (rd : Reading) : Prop :=
  Forall (λ c, 0 ≤ c < 2 ^ 64)
    [InOctets rd; OutOctets rd; InErrors rd; OutErrors rd; InDiscards rd; OutDiscards rd].

Lemma delta_Some prevUp curUp p c wide d :
  delta prevUp curUp p c wide = Some d → 0 ≤ p < 2 ^ 64 → 0 ≤ c < 2 ^ 64 →
  d = wrap (if wide then 64 else 32) (c - p) ∧ (wide = true → p ≤ c).
Proof.
  unfold delta. destruct wide.
  - destruct (p <=? c) eqn:E; [|done]. intros [= <-] ? ?. unfold wrap. rewrite Z.mod_small; lia.
  - intros H ? ?. apply Counter32Delta_Some in H; [|lia|lia]. split; [tauto|done].
Qed.

Lemma rate_one_rated snap prev up seconds rd rate :
  reading_ok rd → map_Forall (λ _, reading_ok) (bl_readings prev) →
  rate_one snap prev up seconds rd = Some rate →
  ∃ before, rated before rd prev up seconds rate.
Proof.
  intros Hrd Hprev. unfold rate_one. intros H.
  destruct (bl_readings prev !! IfIndex rd) as [before|] eqn:Eb; cbn in H; [|done].
  pose proof (Hprev _ _ Eb) as Hbf. exists before. unfold reading_ok in Hrd, Hbf.
  rewrite !Forall_cons in Hrd, Hbf. destruct Hrd as (R0 & R1 & R2 & R3 & R4 & R5 & _), Hbf as (B0 & B1 & B2 & B3 & B4 & B5 & _).
  destruct (counterDeltas before rd (bl_sysUpTime prev) up) as [d|] eqn:Ed; cbn in H; [|done].
  unfold counterDeltas in Ed. destruct (_ || _) eqn:E0; [done|].
  apply orb_false_iff in E0 as [[E0 E1%negb_false_iff]%orb_false_iff E2%negb_false_iff%eqb_prop].
  apply bind_Some in Ed as (d0 & D0 & Ed). apply bind_Some in Ed as (d1 & D1 & Ed).
  apply bind_Some in Ed as (d2 & D2 & Ed). apply bind_Some in Ed as (d3 & D3 & Ed).
  apply bind_Some in Ed as (d4 & D4 & Ed). apply bind_Some in Ed as (d5 & D5 & Ed).
  injection Ed as <-. cbn in H.
  apply delta_Some in D0 as [-> D0]; [|done..]. apply delta_Some in D1 as [-> D1]; [|done..].
  apply Counter32Delta_Some in D2 as (_ & _ & _ & ->); [|lia..].
  apply Counter32Delta_Some in D3 as (_ & _ & _ & ->); [|lia..].
  apply Counter32Delta_Some in D4 as (_ & _ & _ & ->); [|lia..].
  apply Counter32Delta_Some in D5 as (_ & _ & _ & ->); [|lia..].
  destruct (etherLikeRates _ _ _ _ _) as [el|] eqn:Eel; cbn in H; [|done].
  destruct (octetRates _ _ _ _) as [oc|] eqn:Eoc; cbn in H; [|done]. injection H as <-.
  split; cbn; try done; try lia.
  - split; [lia|done].
  - intros o ->. unfold octetRates in Eoc. exists (if WideOctets rd then 64 else 32). split; [done|].
    destruct (SFeqb _ _); [injection Eoc as <-; cbn; tauto|]. destruct (_ && _); [done|].
    destruct (_ || _); [done|]. injection Eoc as <-. cbn. tauto.
  - intros o u -> Hu. unfold octetRates in Eoc.
    destruct (SFeqb _ _); [injection Eoc as <-; done|]. destruct (_ && _); [done|].
    destruct (_ || _) eqn:El; [done|]. apply orb_false_iff in El as [El1 El2]. injection Eoc as <-. cbn in *.
    injection Hu as <-. split_and!; [done|done|apply float64_min_full|apply float64_min_full].
  - intros m x Hm. unfold etherLikeRates in Eel. destruct (etherLike_loop _ _ _ _ _ _ _ m Eel)
      as [Hnone|(p & c & d & H1 & H2 & H3 & H4)]; [rewrite Hnone, lookup_empty in Hm; done|].
    apply elem_of_range in H2. exists p, c. rewrite H4 in Hm. injection Hm as <-. split; [done|split; [done|]].
    unfold Counter32Delta, MaxUint32 in H3 |- *. pose proof H3 as H3'.
    destruct (_ || _) eqn:Eo; [done|]. apply orb_false_iff in Eo as [[_ ?]%orb_false_iff ?].
    split_and!; [lia|lia|]. intros Hp Hc. f_equal. f_equal.
    assert (Counter32Delta p c (bl_sysUpTime prev) up = Some d) as Hd.
    { unfold Counter32Delta, MaxUint32. destruct (_ || _) eqn:Eo; [exfalso; bool_lia|done]. }
    by apply Counter32Delta_Some in Hd as (_ & _ & _ & ->).
Qed.

(** ** The rater over time *)

Definition observe_all (hist : list Snapshot) : Rater := foldl (λ r s, (Observe r s).1) NewRater hist.

(** The last snapshot of a target. *)
Definition last_of (target : string) (hist : list Snapshot) : option Snapshot :=
  last (filter (λ s, sn_TargetID s = target) hist).

Lemma Observe_lookup r snap target :
  (Observe r snap).1 !! target =
    if decide (sn_TargetID snap = target) then baseline_of snap <$> sn_SysUpTime snap else r !! target.
Proof.
  unfold Observe. destruct (sn_SysUpTime snap) as [up|].
  - assert (((<[sn_TargetID snap := baseline_of snap up]> r : Rater) !! target) =
      if decide (sn_TargetID snap = target) then Some (baseline_of snap up) else r !! target) as H.
    { case_decide as Hd; [rewrite Hd; apply lookup_insert_eq|by rewrite lookup_insert_ne]. }
    destruct (r !! sn_TargetID snap); [destruct (SFleb _ _)|]; exact H.
  - cbn. case_decide as Hd; [rewrite Hd; apply lookup_delete_eq|by rewrite lookup_delete_ne].
Qed.

Lemma observe_all_lookup hist target :
  observe_all hist !! target = s ← last_of target hist; baseline_of s <$> sn_SysUpTime s.
Proof.
  unfold observe_all, last_of. induction hist as [|s hist IH] using rev_ind; [done|].
  rewrite foldl_app. cbn [foldl]. rewrite Observe_lookup, filter_app, filter_cons, filter_nil.
  case_decide as Hd; [by rewrite last_snoc|by rewrite app_nil_r].
Qed.

(** What a snapshot rates against is the last snapshot of its target and
    nothing else: other targets, older snapshots and skipped pairs leave no
    trace, so every reading re-baselines; and after a snapshot without
    sysUpTime the next one rates nothing. *)
Theorem Observe_history hist snap :
  (Observe (observe_all hist) snap).2 =
    match last_of (sn_TargetID snap) hist with
    | Some s0 => match sn_SysUpTime s0 with
                 | Some _ => (Observe (Observe NewRater s0).1 snap).2
                 | None => []
                 end
    | None => []
    end.
Proof.
  assert (∀ r1 r2 : Rater, r1 !! sn_TargetID snap = r2 !! sn_TargetID snap → (Observe r1 snap).2 = (Observe r2 snap).2) as Hloc.
  { intros r1 r2 H. unfold Observe. rewrite H. destruct (sn_SysUpTime snap); [|done].
    destruct (r2 !! _); [|done]. by destruct (SFleb _ _). }
  assert (∀ r : Rater, r !! sn_TargetID snap = None → (Observe r snap).2 = []) as Hnone.
  { intros r H. unfold Observe. rewrite H. by destruct (sn_SysUpTime snap). }
  destruct (last_of (sn_TargetID snap) hist) as [s0|] eqn:El.
  - assert (sn_TargetID s0 = sn_TargetID snap) as Ht.
    { unfold last_of in El. apply last_Some in El as [l El].
      assert (s0 ∈ filter (λ s, sn_TargetID s = sn_TargetID snap) hist) as Hin by (rewrite El; set_solver).
      by apply list_elem_of_filter in Hin as [? _]. }
    destruct (sn_SysUpTime s0) as [up|] eqn:Eu.
    + apply Hloc. rewrite observe_all_lookup, El, Observe_lookup. by rewrite decide_True.
    + apply Hnone. rewrite observe_all_lookup, El. cbn. by rewrite Eu.
  - apply Hnone. by rewrite observe_all_lookup, El.
Qed.

Lemma baseline_readings l (m : gmap Z Reading) i rd :
  foldl (λ m rd, <[IfIndex rd := rd]> m) m l !! i = Some rd → m !! i = Some rd ∨ rd ∈ l.
Proof.
  revert m. induction l as [|x l IH]; intros m; cbn [foldl]; [by left|].
  intros [[[_ ->]|[_ H]]%lookup_insert_Some|H]%IH; [right; by left|by left|right; by right].
Qed.

(** C36: Every rate reported after any history is sound: the interval is
    between two readings of the interface, in the target's last two
    snapshots, over which the agent did not restart, the counters were not
    cleared and kept their width; the error and discard rates are the
    advances modulo 2^32 over the seconds, the octet rates those of the
    counters' width, never of a 64-bit counter that went back; an octet rate
    with a utilization is within the line rate and its slack, and a
    utilization never exceeds 100; an EtherLike rate is of a counter served
    in both readings. *)
Theorem rates_sound hist snap rate :
  Forall (λ s, Forall reading_ok (sn_Readings s)) (hist ++ [snap]) →
  rate ∈ (Observe (observe_all hist) snap).2 →
  ∃ s0 up0 up rd before, last_of (sn_TargetID snap) hist = Some s0 ∧ sn_SysUpTime s0 = Some up0 ∧
    sn_SysUpTime snap = Some up ∧ rd ∈ sn_Readings snap ∧ before ∈ sn_Readings s0 ∧
    let seconds := Seconds (time_sub (sn_At snap) (sn_At s0)) in
    SFleb seconds (float64 0) = false ∧ rated before rd (baseline_of s0 up0) up seconds rate.
Proof.
  intros [Hh Hs]%Forall_app Hr. apply Forall_cons_1 in Hs as [Hs _]. cbn beta in Hs.
  apply Observe_rates in Hr as (up & prev & rd & Hup & Hprev & Hin & Hsec & Hone).
  rewrite observe_all_lookup in Hprev. apply bind_Some in Hprev as (s0 & Hl & Hb).
  apply fmap_Some in Hb as (up0 & Hup0 & ->).
  assert (s0 ∈ hist) as Hin0.
  { unfold last_of in Hl. apply last_Some in Hl as [l Hl].
    assert (s0 ∈ filter (λ s, sn_TargetID s = sn_TargetID snap) hist) as H by (rewrite Hl; set_solver).
    by apply list_elem_of_filter in H as [_ ?]. }
  rewrite Forall_forall in Hh. specialize (Hh s0 Hin0). cbn beta in Hh. rewrite Forall_forall in Hh, Hs.
  edestruct rate_one_rated as [before Hrated]; [by apply (Hs rd)| |exact Hone|].
  { intros i rd0 Hrd0. cbn in Hrd0. apply baseline_readings in Hrd0 as [H|H]; [by rewrite lookup_empty in H|by apply Hh]. }
  exists s0, up0, up, rd, before. split_and!; try done.
  pose proof (ra_before _ _ _ _ _ _ Hrated) as Hb. cbn in Hb.
  by apply baseline_readings in Hb as [H|H]; [rewrite lookup_empty in H|].
Qed.

(** [Points] lists a rate in one order whatever the order of its map: the
    EtherLike metrics come last, each served one once, sorted by name, with
    its rate and unit. *)
Theorem Points_spec r :
  ∃ fixed, Points r = fixed ++ map (λ m, MkPoint m (etherLikeUnit m) (default (float64 0) (rt_EtherLike r !! m)))
    (sorted_keys (rt_EtherLike r)) ∧
  map pt_Type fixed = match rt_Octets r with
    | None => []
    | Some o => [MetricInOctets; MetricOutOctets] ++
        match oc_Utilization o with None => [] | Some _ => [MetricInUtilization; MetricOutUtilization] end
    end ++ [MetricInErrors; MetricOutErrors; MetricInDiscards; MetricOutDiscards] ∧
  Sorted str_le (sorted_keys (rt_EtherLike r)) ∧ NoDup (sorted_keys (rt_EtherLike r)) ∧
  ∀ m, m ∈ sorted_keys (rt_EtherLike r) ↔ is_Some (rt_EtherLike r !! m).
Proof.
  unfold Points. eexists. split; [rewrite app_assoc; reflexivity|]. split_and!.
  - destruct (rt_Octets r) as [o|]; [destruct (oc_Utilization o)|]; reflexivity.
  - apply Sorted_merge_sort, _.
  - unfold sorted_keys. rewrite merge_sort_Permutation. apply NoDup_fst_map_to_list.
  - intros m. unfold sorted_keys. rewrite merge_sort_Permutation, list_elem_of_fmap. split.
    + intros ([m' x] & -> & H). apply elem_of_map_to_list in H. eauto.
    + intros [x Hx]. exists (m, x). split; [done|]. by apply elem_of_map_to_list.
Qed.
End rater.

(** ** Concrete runs *)

Definition demo_reading (octets errors : Z) : Reading :=
  MkReading 3 octets 0 false errors 0 0 0 0 {["dot3_fcs_errors" := errors]} 100000000.

Definition demo_before : Snapshot := MkSnapshot "c" "t" 0 (Some 100) [demo_reading (2 ^ 32 - 1000) 5].
Definition demo_after : Snapshot := MkSnapshot "c" "t" (10 * second) (Some 1100) [demo_reading 9000 25].

Lemma counterDeltas_exact_witness :
  wrap 32 (2 ^ 32 + 9000) = 9000 ∧
  counterDeltas (demo_reading (2 ^ 32 - 1000) 5) (demo_reading 9000 25) 100 1100 =
    Some (MkDeltas 10000 0 20 0 0 0).
Proof.
  split; [reflexivity|]. apply counterDeltas_exact; [lia|reflexivity|reflexivity|..].
  - exists (2 ^ 32 - 1000). split; [lia|split; [lia|cbn iota; split_and!; [reflexivity|reflexivity|lia]]].
  - exists 0. split; [lia|split; [lia|cbn iota; split_and!; [reflexivity|reflexivity|lia]]].
  - exists 5. split; [lia|split; [lia|cbn iota; split_and!; [reflexivity|reflexivity|lia]]].
  - exists 0. split; [lia|split; [lia|cbn iota; split_and!; [reflexivity|reflexivity|lia]]].
  - exists 0. split; [lia|split; [lia|cbn iota; split_and!; [reflexivity|reflexivity|lia]]].
  - exists 0. split; [lia|split; [lia|cbn iota; split_and!; [reflexivity|reflexivity|lia]]].
Defined.

(** A thousand octets a second, across a wrap. *)
Lemma rates_sound_witness :
  length (Observe (observe_all [demo_before]) demo_after).2 = 1%nat ∧
  ∃ rate, rate ∈ (Observe (observe_all [demo_before]) demo_after).2 ∧ rt_IfIndex rate = 3.
Proof.
  split; [by vm_compute|].
  destruct (Observe (observe_all [demo_before]) demo_after).2 as [|rate l] eqn:E; [by vm_compute in E|].
  destruct (rates_sound [demo_before] demo_after rate) as (s0 & up0 & up & rd & before & _ & _ & _ & Hin & _ & _ & Hr);
    [repeat constructor; by vm_compute|rewrite E; left|].
  exists rate. split; [left|]. rewrite (ra_index _ _ _ _ _ _ Hr). cbn in Hin.
  by apply list_elem_of_singleton in Hin as ->.
Defined.
