(* ===== verification/Retry.v ===== *)
(** * Retries with backoff (src/internal/discovery/retry.go)

    The two retry loops over an operation given by its outcomes, the delay
    between attempts in binary64, and the case-insensitive search that decides
    which errors are retried. The context and the random numbers are the
    environment's: [done_before] and [done_waiting] say whether the context is
    cancelled when attempt [i] looks, [random] is what [rand.Float64] draws. *)
From Stdlib Require Import ZArith Lia SpecFloat Ascii.
From stdpp Require Import base list strings.
From S2P Require Import Prelude GoBase.

Definition asciiCaseOffset : Z := 32.
Definition retryDefaultMaxAttempts : Z := 3.
Definition retryFastMaxAttempts : Z := 2.
Definition retryBackoffFactor : spec_float := Eval vm_compute in float64 2.
Definition retryDefaultJitter : spec_float := Eval vm_compute in float64_const 2 10.
Definition retryFastJitter : spec_float := Eval vm_compute in float64_const 1 10.
Definition retrySNMPJitter : spec_float := Eval vm_compute in float64_const 25 100.
Definition retryDiscoveryJitter : spec_float := Eval vm_compute in float64_const 15 100.

(** A string as its bytes. *)
Definition gostring : Type := bytes.
Definition str (s : string) : gostring := map (λ c, Z.of_nat (nat_of_ascii c)) (String.list_ascii_of_string s).

Record RetryConfig : Type := MkConfig {
  MaxRetries : Z;
  InitialDelay : Z;
  MaxDelay : Z;
  BackoffFactor : spec_float;
  JitterPercent : spec_float;
  RetryableErrors : list gostring;
}.

Definition DefaultRetryConfig : RetryConfig :=
  MkConfig retryDefaultMaxAttempts (100 * millisecond) (5 * second) retryBackoffFactor retryDefaultJitter [].
Definition FastRetryConfig : RetryConfig :=
  MkConfig retryFastMaxAttempts (50 * millisecond) (500 * millisecond) retryBackoffFactor retryFastJitter [].
Definition SNMPRetryConfig : RetryConfig :=
  MkConfig retryDefaultMaxAttempts (500 * millisecond) (10 * second) retryBackoffFactor retrySNMPJitter
    (map str ["timeout"; "connection refused"; "no route to host"; "network unreachable"]).
Definition NetworkRetryConfig : RetryConfig :=
  MkConfig retryDefaultMaxAttempts (200 * millisecond) (3 * second) retryBackoffFactor retryDiscoveryJitter
    (map str ["timeout"; "connection refused"; "no route to host"; "network unreachable"; "temporary failure";
              "i/o timeout"; "connection reset"]).

(** ** Which errors are retried *)

(** One byte of the two copying loops; [byte] arithmetic wraps. *)
Definition lower (c : Z) : Z := if (65 <=? c) && (c <=? 90) then wrap 8 (c + asciiCaseOffset) else c.

(** The inner loop: [substr] at the start of [s]; [None] is an index out of range. *)
Fixpoint match_here (s substr : gostring) {struct substr} : option bool :=
  match substr with
  | [] => Some true
  | c :: substr =>
      match s with
      | [] => None
      | x :: s => if negb (x =? c) then Some false else match_here s substr
      end
  end.

(** The outer loop, [n] positions being left. *)
Fixpoint search (n : nat) (s substr : gostring) : option bool :=
  match n with
  | O => Some false
  | S n => m ← match_here s substr; if (m : bool) then Some true else search n (drop 1 s) substr
  end.

Definition containsIgnoreCase (s substr : gostring) : option bool :=
  let sLower := map lower s in
  let substrLower := map lower substr in
  search (Z.to_nat (len sLower - len substrLower + 1)) sLower substrLower.

Fixpoint any_pattern (s : gostring) (patterns : list gostring) : option bool :=
  match patterns with
  | [] => Some false
  | p :: patterns => b ← containsIgnoreCase s p; if (b : bool) then Some true else any_pattern s patterns
  end.

(** [isRetryableError], the error being its text. *)
Definition isRetryableError (err : option gostring) (retryableErrors : list gostring) : option bool :=
  match err with
  | None => Some false
  | Some s => if len retryableErrors =? 0 then Some true else any_pattern s retryableErrors
  end.

(** ** The delay *)

Fixpoint backoff (n : nat) (delay factor : spec_float) : spec_float :=
  match n with O => delay | S n => backoff n (float64_mul delay factor) factor end.

(** Conversion to [int64]: toward zero; what is out of range is left to the
    implementation by Go, the smallest integer here, as on amd64. *)
Definition float64_trunc (x : spec_float) : Z :=
  match x with
  | S754_zero _ => 0
  | S754_finite s m e =>
      let n := if 0 <=? e then Z.pos m * 2 ^ e else Z.pos m / 2 ^ (- e) in
      let n := if s then - n else n in
      if (- 2 ^ 63 <=? n) && (n <? 2 ^ 63) then n else - 2 ^ 63
  | _ => - 2 ^ 63
  end.

Definition calculateDelay (cfg : RetryConfig) (attempt : nat) (random : spec_float) : Z :=
  let delay := backoff attempt (float64 (InitialDelay cfg)) (BackoffFactor cfg) in
  let delay := if SFltb (float64 (MaxDelay cfg)) delay then float64 (MaxDelay cfg) else delay in
  let delay :=
    if SFltb (float64 0) (JitterPercent cfg)
    then float64_add delay (float64_mul (float64_mul delay (JitterPercent cfg))
           (float64_sub (float64_mul random (float64 2)) (float64 1)))
    else delay in
  let delay := if SFltb delay (float64 0) then float64 (InitialDelay cfg) else delay in
  float64_trunc delay.

(** ** The loops *)

(** The error of a result: the operation's, or the context's. *)
Inductive retry_error : Type := OpError (text : gostring) | CtxError.

(** [RetryResult]; the total time is left out, and [rr_calls] counts the
    calls of the operation. *)
Record RetryResult : Type := MkResult {
  Attempts : Z;
  LastError : option retry_error;
  Successful : bool;
  rr_delays : list Z;
  rr_calls : nat;
}.

Section retry.
Context {T : Type} (zero : T).
(** The value and the error of the [i]-th call. *)
Context (operation : nat → T * option gostring).
Context (done_before done_waiting : nat → bool) (random : nat → spec_float).

(** The loop of [RetryWithBackoffResult] from attempt [i] on, [fuel] bounding
    its turns; [last] is [finalResult]. [None] is a panic or no fuel. *)
Fixpoint retry_loop (fuel i : nat) (cfg : RetryConfig) (last : T) (r : RetryResult) : option (T * RetryResult) :=
  match fuel with
  | O => None
  | S fuel =>
      if negb (Z.of_nat i <=? MaxRetries cfg) then Some (last, r)
      else
        let r := MkResult (Z.of_nat i + 1) (LastError r) (Successful r) (rr_delays r) (rr_calls r) in
        if done_before i then Some (last, MkResult (Attempts r) (Some CtxError) (Successful r) (rr_delays r) (rr_calls r))
        else
          let '(val, err) := operation i in
          match err with
          | None => Some (val, MkResult (Attempts r) (LastError r) true (rr_delays r) (S (rr_calls r)))
          | Some e =>
              let r := MkResult (Attempts r) (Some (OpError e)) (Successful r) (rr_delays r) (S (rr_calls r)) in
              if MaxRetries cfg <=? Z.of_nat i then Some (val, r)
              else
                retryable ← isRetryableError (Some e) (RetryableErrors cfg);
                if negb retryable then Some (val, r)
                else
                  let r := MkResult (Attempts r) (LastError r) (Successful r)
                             (rr_delays r ++ [calculateDelay cfg i (random i)]) (rr_calls r) in
                  if done_waiting i
                  then Some (val, MkResult (Attempts r) (Some CtxError) (Successful r) (rr_delays r) (rr_calls r))
                  else retry_loop fuel (S i) cfg val r
          end
  end.

Definition RetryWithBackoffResult (cfg : RetryConfig) : option (T * RetryResult) :=
  retry_loop (S (Z.to_nat (MaxRetries cfg + 1))) 0 cfg zero (MkResult 0 None false [] 0).
End retry.

(** [RetryWithBackoff]: the same loop over an operation without a value. *)
Definition RetryWithBackoff (operation : nat → option gostring) (done_before done_waiting : nat → bool)
    (random : nat → spec_float) (cfg : RetryConfig) : option RetryResult :=
  snd <$> RetryWithBackoffResult tt (λ i, (tt, operation i)) done_before done_waiting random cfg.

(** ** The search *)

Lemma match_here_spec s substr :
  (length substr ≤ length s)%nat →
  match_here s substr = Some (bool_decide (take (length substr) s = substr)).
Proof.
  revert s. induction substr as [|c substr IH]; intros s Hl; [cbn; by rewrite bool_decide_eq_true_2|].
  destruct s as [|x s]; cbn in Hl; [lia|]. cbn. destruct (x =? c) eqn:E; cbn.
  - rewrite IH by lia. f_equal. apply Z.eqb_eq in E as ->. apply bool_decide_ext. split; congruence.
  - f_equal. symmetry. apply bool_decide_eq_false_2. intros [= ? _]. lia.
Qed.

Lemma search_spec n s substr :
  (n + length substr ≤ length s + 1)%nat →
  ∃ b, search n s substr = Some b ∧
  (b = true ↔ ∃ pre post, s = pre ++ substr ++ post ∧ (length pre < n)%nat).
Proof.
  revert s. induction n as [|n IH]; intros s Hl; cbn [search].
  { exists false. split; [done|]. split; [done|]. intros (pre & post & _ & ?). lia. }
  rewrite match_here_spec by lia. cbn [mbind option_bind].
  case_bool_decide as Hm.
  - exists true. split; [done|]. split; [|done]. intros _. exists [], (drop (length substr) s). cbn.
    split; [|lia]. rewrite <-Hm at 1. by rewrite take_drop.
  - destruct (IH (drop 1 s)) as (b & -> & Hb).
    { rewrite length_drop. destruct substr; cbn in *; [|lia]. destruct s; cbn in *; [|lia].
      assert (n = 0%nat) as -> by lia. lia. }
    exists b. split; [done|]. rewrite Hb. split.
    + intros (pre & post & Hs & Hn). destruct s as [|x s].
      { cbn in Hs. destruct pre; [|done]. destruct substr; [|done]. exfalso. by apply Hm. }
      cbn in Hs. rewrite drop_0 in Hs. subst s. exists (x :: pre), post. cbn. split; [done|lia].
    + intros (pre & post & -> & Hn). destruct pre as [|x pre].
      { exfalso. apply Hm. cbn. by rewrite take_app_length. }
      exists pre, post. cbn. split; [by rewrite drop_0|cbn in Hn; lia].
Qed.

(** Some pattern occurs. *)
Definition retryable (cfg : RetryConfig) (e : gostring) : Prop :=
  RetryableErrors cfg = [] ∨
  ∃ p pre post, p ∈ RetryableErrors cfg ∧ map lower e = pre ++ map lower p ++ post.

Lemma contains_total s p : ∃ b, containsIgnoreCase s p = Some b ∧
  (b = true ↔ ∃ pre post, map lower s = pre ++ map lower p ++ post).
Proof.
  unfold containsIgnoreCase. set (sl := map lower s). set (bl := map lower p).
  destruct (decide (length bl ≤ length sl)%nat) as [Hle|Hgt].
  - destruct (search_spec (Z.to_nat (len sl - len bl + 1)) sl bl) as (b & Hb & Hiff); [unfold len; lia|].
    exists b. split; [done|]. rewrite Hiff. split; [intros (pre & post & ? & _); eauto|].
    intros (pre & post & Heq). exists pre, post. split; [done|]. rewrite Heq. unfold len. rewrite !length_app. lia.
  - exists false. assert (Z.to_nat (len sl - len bl + 1) = 0%nat) as -> by (unfold len; lia).
    split; [done|]. split; [done|]. intros (pre & post & Heq). exfalso. apply Hgt. rewrite Heq, !length_app. lia.
Qed.

(** [containsIgnoreCase] never indexes out of range and is true exactly
    when the second text, capital letters made small, occurs in the first. *)
Theorem containsIgnoreCase_spec s substr :
  ∃ b, containsIgnoreCase s substr = Some b ∧
  (b = true ↔ ∃ pre post, map lower s = pre ++ map lower substr ++ post).
Proof. apply contains_total. Qed.

Lemma any_pattern_spec s ps :
  ∃ b, any_pattern s ps = Some b ∧
  (b = true ↔ ∃ p pre post, p ∈ ps ∧ map lower s = pre ++ map lower p ++ post).
Proof.
  induction ps as [|p ps (b & Hb & IH)]; cbn [any_pattern].
  { exists false. split; [done|]. split; [done|]. by intros (p & _ & _ & ?%elem_of_nil & _). }
  destruct (contains_total s p) as (c & -> & Hc). cbn [mbind option_bind]. destruct c.
  - exists true. split; [done|]. split; [|done]. intros _. destruct Hc as [Hc _].
    destruct (Hc eq_refl) as (pre & post & ?). exists p, pre, post. split; [left|done].
  - exists b. split; [done|]. rewrite IH. split.
    + intros (q & pre & post & ? & ?). exists q, pre, post. split; [by right|done].
    + intros (q & pre & post & [->|?]%elem_of_cons & ?); [|by exists q, pre, post].
      destruct Hc as [_ Hc]. discriminate Hc. eauto.
Qed.

Lemma isRetryableError_spec cfg e :
  ∃ b, isRetryableError (Some e) (RetryableErrors cfg) = Some b ∧ (b = true ↔ retryable cfg e).
Proof.
  unfold isRetryableError, retryable. destruct (RetryableErrors cfg) as [|p ps] eqn:E.
  - exists true. split; [done|]. split; [by left|done].
  - assert ((len (p :: ps) =? 0) = false) as -> by (rewrite len_cons; pose proof (len_nonneg ps); lia).
    destruct (any_pattern_spec e (p :: ps)) as (b & -> & Hb). exists b. split; [done|]. rewrite Hb.
    split; [by right|]. by intros [?|?].
Qed.

(** ** The loop *)
Section loop.
Context {T : Type} (operation : nat → T * option gostring).
Context (done_before done_waiting : nat → bool) (random : nat → spec_float) (cfg : RetryConfig).

(** The loop goes on after attempt [i]. *)
Definition goes_on (i : nat) : Prop :=
  done_before i = false ∧ (∃ v e, operation i = (v, Some e) ∧ retryable cfg e) ∧
  Z.of_nat i < MaxRetries cfg ∧ done_waiting i = false.

(** How the loop ends at attempt [k], [last] being the last value. *)
Inductive ends (k : nat) (last : T) (v : T) (r : RetryResult) : Prop :=
| e_cancelled : done_before k = true → v = last → LastError r = Some CtxError → Successful r = false →
    rr_calls r = k → ends k last v r
| e_success : done_before k = false → operation k = (v, None) → Successful r = true →
    rr_calls r = S k → ends k last v r
| e_failed e : done_before k = false → operation k = (v, Some e) →
    (Z.of_nat k = MaxRetries cfg ∨ ¬ retryable cfg e) → LastError r = Some (OpError e) →
    Successful r = false → rr_calls r = S k → ends k last v r
| e_cancelled_waiting e : done_before k = false → operation k = (v, Some e) → retryable cfg e →
    Z.of_nat k < MaxRetries cfg → done_waiting k = true → LastError r = Some CtxError →
    Successful r = false → rr_calls r = S k → ends k last v r.

Lemma retry_loop_spec fuel i last r :
  Z.of_nat i ≤ MaxRetries cfg → (Z.to_nat (MaxRetries cfg) - i < fuel)%nat →
  rr_calls r = i → length (rr_delays r) = i → Successful r = false →
  ∃ k v r', retry_loop operation done_before done_waiting random fuel i cfg last r = Some (v, r') ∧
    (i ≤ k)%nat ∧ Z.of_nat k ≤ MaxRetries cfg ∧ (∀ j, (i ≤ j < k)%nat → goes_on j) ∧
    Attempts r' = Z.of_nat k + 1 ∧
    ends k (if decide (k = i) then last else (operation (pred k)).1) v r' ∧
    (k ≤ length (rr_delays r') ≤ S k)%nat ∧ take i (rr_delays r') = rr_delays r.
Proof.
  revert i last r. induction fuel as [|fuel IH]; intros i last r Hi Hfuel Hcalls Hdel Hsucc; [lia|].
  cbn [retry_loop]. assert ((Z.of_nat i <=? MaxRetries cfg) = true) as -> by lia. cbn [negb].
  assert (∀ j, (i ≤ j < i)%nat → goes_on j) as Hnone by (intros; lia).
  destruct (done_before i) eqn:Eb.
  { eexists i, _, _. split; [done|]. split_and!; try done; try lia; [|cbn; lia|cbn; lia|by rewrite take_ge by (cbn; lia)].
    rewrite decide_True by done. by apply e_cancelled. }
  destruct (operation i) as [v [e|]] eqn:Eo.
  2: { eexists i, _, _. split; [done|].
       split_and!; try done; try lia; [|cbn; lia|cbn; lia|by rewrite take_ge by (cbn; lia)].
       rewrite decide_True by done. apply e_success; cbn; [done|done|done|lia]. }
  destruct (MaxRetries cfg <=? Z.of_nat i) eqn:El.
  { eexists i, _, _. split; [done|].
    split_and!; try done; try lia; [|cbn; lia|cbn; lia|by rewrite take_ge by (cbn; lia)].
    rewrite decide_True by done. apply (e_failed _ _ _ _ e); cbn; try done; [left; lia|lia]. }
  destruct (isRetryableError_spec cfg e) as (b & -> & Hb). cbn [mbind option_bind]. destruct b; cbn [negb].
  2: { eexists i, _, _. split; [done|].
       split_and!; try done; try lia; [|cbn; lia|cbn; lia|by rewrite take_ge by (cbn; lia)].
       rewrite decide_True by done. apply (e_failed _ _ _ _ e); cbn; try done; [right|lia].
       intros Hr. by apply Hb in Hr. }
  destruct (done_waiting i) eqn:Ew.
  { eexists i, _, _. split; [done|].
    split_and!; try done; try lia; cbn; rewrite ?length_app; cbn; try lia; [|rewrite take_app_le, take_ge by lia; done].
    rewrite decide_True by done. apply (e_cancelled_waiting _ _ _ _ e); cbn; try done; [by apply Hb|lia|lia]. }
  assert (goes_on i) as Hgo by (split_and!; [done|exists v, e; split; [done|by apply Hb]|lia|done]).
  match goal with |- context [retry_loop _ _ _ _ fuel (S i) cfg v ?r1] =>
    destruct (IH (S i) v r1) as (k & v' & r' & -> & G1 & G2 & G3 & G4 & G5 & G6 & G7) end;
    [lia|lia|cbn; lia|cbn; rewrite length_app; cbn; lia|done|].
  exists k, v', r'. split_and!; try done; try lia.
  - intros j Hj. destruct (decide (j = i)) as [->|]; [done|]. apply G3. lia.
  - rewrite decide_False by lia. case_decide as Hk; [|done]. subst k. cbn. by rewrite Eo.
  - cbn in G7. apply (f_equal (take i)) in G7. rewrite take_take, take_app_le, (take_ge (rr_delays r)) in G7 by lia.
    rewrite Nat.min_l in G7 by lia. done.
Qed.
End loop.

(** The retry loop always returns, after the first attempt [k] that does
    not go on: every attempt before it was made under a live context, failed
    with an error of one of the patterns, and was waited out; at most
    [MaxRetries + 1] calls are made; and the result is that attempt's: the
    value of a success, the last error of a failure that is not retried, the
    context's when it was cancelled. *)
Theorem RetryWithBackoffResult_spec {T} (zero : T) operation done_before done_waiting random cfg :
  0 ≤ MaxRetries cfg →
  ∃ k v r, RetryWithBackoffResult zero operation done_before done_waiting random cfg = Some (v, r) ∧
    Z.of_nat k ≤ MaxRetries cfg ∧
    (∀ j, (j < k)%nat → goes_on operation done_before done_waiting cfg j) ∧
    Attempts r = Z.of_nat k + 1 ∧
    ends operation done_before done_waiting cfg k (if decide (k = 0%nat) then zero else (operation (pred k)).1) v r.
Proof.
  intros Hm. unfold RetryWithBackoffResult.
  destruct (retry_loop_spec operation done_before done_waiting random cfg (S (Z.to_nat (MaxRetries cfg + 1))) 0 zero
    (MkResult 0 None false [] 0)) as (k & v & r & H1 & H2 & H3 & H4 & H5 & H6 & _); try done; [lia|].
  exists k, v, r. split_and!; try done. intros j Hj. apply H4. lia.
Qed.

(** A negative number of retries makes no attempt and reports no error. *)
Lemma RetryWithBackoff_negative operation done_before done_waiting random cfg :
  MaxRetries cfg < 0 →
  RetryWithBackoff operation done_before done_waiting random cfg = Some (MkResult 0 None false [] 0).
Proof.
  intros Hm. unfold RetryWithBackoff, RetryWithBackoffResult. cbn [retry_loop].
  by rewrite (proj2 (Z.leb_gt (Z.of_nat 0) (MaxRetries cfg))) by done.
Qed.

(** ** The delay *)

(** The jitter is added after the cap, so the delay can pass [MaxDelay]. *)
Example delay_above_max :
  MaxDelay DefaultRetryConfig < calculateDelay DefaultRetryConfig 6 (float64_const 9 10).
Proof. by vm_compute. Qed.

(** An attempt the context forbade counts as made. *)
Example cancelled_attempt_counted :
  (λ r, (Attempts r, rr_calls r)) <$>
    RetryWithBackoff (λ _, None) (λ _, true) (λ _, false) (λ _, float64 0) DefaultRetryConfig = Some (1, 0%nat).
Proof. by vm_compute. Qed.

(** The operation fails twice with a pattern of SNMP's, then succeeds. *)
Lemma RetryWithBackoffResult_spec_witness :
  0 ≤ MaxRetries SNMPRetryConfig ∧
  ∃ r, RetryWithBackoffResult 0 (λ i, (Z.of_nat i, if decide (i < 2)%nat then Some (str "Read TIMEOUT") else None))
    (λ _, false) (λ _, false) (λ _, float64 0) SNMPRetryConfig = Some (2, r) ∧ Attempts r = 3 ∧ Successful r = true.
Proof.
  split; [by vm_compute|].
  destruct (RetryWithBackoffResult_spec 0
    (λ i, (Z.of_nat i, if decide (i < 2)%nat then Some (str "Read TIMEOUT") else None))
    (λ _, false) (λ _, false) (λ _, float64 0) SNMPRetryConfig) as (k & v & r & H & _); [by vm_compute|].
  exists r. vm_compute in H. injection H as <- <-. split; [by vm_compute|]. split; reflexivity.
Defined.
