(* ===== verification/Syslog.v ===== *)
(** * The syslog parser (src/internal/listener/syslog/syslog.go)

    [Parse] on the bytes of a datagram: the PRI, the header before the first
    colon, the message. Sockets are left out; [handle] is the event of a
    datagram, its payload being the parsed frame the code marshals. *)
From Stdlib Require Import ZArith Lia.
From stdpp Require Import base sets list strings.
From S2P Require Import Prelude GoBase GoText GoWords.

Definition Name : string := "syslog-udp".
Definition maxPriorityValue : Z := 191.
Definition severityMask : Z := 7.
Definition severityBits : Z := 3.
Definition SeverityInformational : Z := 6.

Definition severityNameByValue (s : Z) : string :=
  if s =? 0 then "emergency"
  else if s =? 1 then "alert"
  else if s =? 2 then "critical"
  else if s =? 3 then "error"
  else if s =? 4 then "warning"
  else if s =? 5 then "notice"
  else if s =? 6 then "informational"
  else if s =? 7 then "debug"
  else "informational".

(** ** Parsing *)

Record Parsed : Type := MkParsed {
  Facility : Z;
  Severity : Z;
  SeverityName : string;
  Tag : bytes;
  Hostname : bytes;
  Message : bytes;
  Raw : bytes;
}.

(** The PRI and what follows it, when the frame starts with one. [None] is an
    index out of range. *)
Definition parse_pri (raw : bytes) : option (option (Z * bytes)) :=
  if negb (bool_decide (take 1 raw = [60])) then Some None
  else
    let end_ := IndexByte raw 62 in
    if negb ((1 <? end_) && (end_ <=? 4)) then Some None
    else
      digits ← slice raw 1 end_;
      match Atoi digits with
      | Some pri =>
          if (0 <=? pri) && (pri <=? maxPriorityValue)
          then rest ← slice_from raw (end_ + 1); Some (Some (pri, rest))
          else Some None
      | None => Some None
      end.

(** The tag, the host and the message of what follows the PRI. *)
Definition parse_body (rest : bytes) : option (bytes * bytes * bytes) :=
  let rest := TrimSpace rest in
  let colon := IndexByte rest 58 in
  if (0 <? colon) && (colon <? 128) then
    header ← slice rest 0 colon;
    let fields := Fields header in
    message ← slice_from rest (colon + 1);
    tag ← (if 0 <? len fields then index fields (len fields - 1) else Some []);
    host ← (if 1 <? len fields then index fields (len fields - 2) else Some []);
    Some (tag, host, TrimSpace message)
  else Some ([], [], rest).

(** [Parse] *)
Definition Parse (frame : bytes) : option Parsed :=
  pri ← parse_pri frame;
  let '(facility, severity, rest) :=
    match pri with
    | Some (pri, rest) => (Z.shiftr pri severityBits, Z.land pri severityMask, rest)
    | None => (0, SeverityInformational, frame)
    end in
  body ← parse_body rest;
  let '(tag, host, message) := (body : bytes * bytes * bytes) in
  Some (MkParsed facility severity (severityNameByValue severity) tag host message frame).

(** [listener.Event] as [handle] makes it. *)
Record Event : Type := MkEvent {
  ev_Kind : string;
  ev_SourceAddr : string;
  ev_Severity : string;
  ev_Timestamp : Z;
  ev_Payload : Parsed;
}.

Definition handle (addr : string) (now : Z) (frame : bytes) : option Event :=
  parsed ← Parse frame;
  Some (MkEvent Name addr (SeverityName parsed) now parsed).

(** ** Scanning *)

Lemma index_byte_spec s c i :
  (index_byte s c i = -1 ∧ c ∉ s) ∨
  (∃ pre post, s = pre ++ c :: post ∧ c ∉ pre ∧ index_byte s c i = i + len pre).
Proof.
  revert i. induction s as [|x s IH]; intros i; cbn [index_byte].
  { left. split; [done|]. apply not_elem_of_nil. }
  destruct (x =? c) eqn:E.
  - apply Z.eqb_eq in E as ->. right. exists [], s. split; [done|]. split; [apply not_elem_of_nil|unfold len; cbn; lia].
  - apply Z.eqb_neq in E. destruct (IH (i + 1)) as [[-> Hn]|(pre & post & -> & Hn & ->)].
    + left. split; [done|]. rewrite not_elem_of_cons. auto.
    + right. exists (x :: pre), post. split; [done|]. rewrite not_elem_of_cons, len_cons. split; [auto|lia].
Qed.

Lemma IndexByte_found pre c post : c ∉ pre → IndexByte (pre ++ c :: post) c = len pre.
Proof.
  intros Hn. unfold IndexByte. destruct (index_byte_spec (pre ++ c :: post) c 0) as [[_ H]|(pre' & post' & Heq & Hn' & ->)].
  - exfalso. apply H. set_solver.
  - enough (pre' = pre) as -> by lia. revert pre Hn Heq. induction pre' as [|y pre' IH]; intros [|x pre] Hn Heq.
    + done.
    + injection Heq as -> _. set_solver.
    + injection Heq as -> _. set_solver.
    + injection Heq as -> Heq. f_equal. apply IH; set_solver.
Qed.

Lemma IndexByte_range s c : -1 ≤ IndexByte s c < len s + 0 ∨ IndexByte s c = -1.
Proof.
  unfold IndexByte. destruct (index_byte_spec s c 0) as [[-> _]|(pre & post & -> & _ & ->)]; [by right|].
  left. rewrite len_app, len_cons. pose proof (len_nonneg pre). pose proof (len_nonneg post). lia.
Qed.

(** The text between the first byte and the first [c], and what follows. *)
Lemma slice_middle (a : bytes) c (post : bytes) :
  slice (a ++ c :: post) 0 (len a) = Some a ∧ slice_from (a ++ c :: post) (len a + 1) = Some post.
Proof.
  pose proof (len_nonneg a). pose proof (len_nonneg post). split.
  - rewrite slice_Some by (rewrite ?len_app, ?len_cons; lia). f_equal.
    rewrite Z.sub_0_r, drop_0. unfold len. by rewrite Nat2Z.id, take_app_length.
  - replace (a ++ c :: post) with ((a ++ [c]) ++ post) by (by rewrite <-app_assoc).
    apply slice_from_app. rewrite len_app. unfold len. cbn. lia.
Qed.

Lemma slice_pri (d rest : bytes) :
  slice (60 :: d ++ 62 :: rest) 1 (len d + 1) = Some d ∧ slice_from (60 :: d ++ 62 :: rest) (len d + 1 + 1) = Some rest.
Proof.
  pose proof (len_nonneg d). pose proof (len_nonneg rest). split.
  - rewrite slice_Some by (rewrite ?len_cons, ?len_app, ?len_cons; lia). f_equal.
    replace (len d + 1 - 1) with (len d) by lia. change (Z.to_nat 1) with 1%nat. cbn [drop].
    rewrite drop_0. unfold len. by rewrite Nat2Z.id, take_app_length.
  - replace (60 :: d ++ 62 :: rest) with (([60] ++ d ++ [62]) ++ rest) by (cbn; by rewrite <-app_assoc).
    apply slice_from_app. rewrite !len_app. unfold len. cbn. lia.
Qed.

(** ** The PRI *)

(** The PRI that [Parse] takes off a frame is exactly a leading [<], one
    to three characters that [strconv.Atoi] reads as a number from 0 to 191,
    and the first [>]; anything else has none, and no index is out of range. *)
Theorem parse_pri_spec raw :
  ∃ r, parse_pri raw = Some r ∧
  ∀ pri rest, r = Some (pri, rest) ↔
    ∃ d, raw = 60 :: d ++ 62 :: rest ∧ 62 ∉ d ∧ 1 ≤ len d ≤ 3 ∧ Atoi d = Some pri ∧ 0 ≤ pri ≤ maxPriorityValue.
Proof.
  unfold parse_pri. destruct (bool_decide (take 1 raw = [60])) eqn:E1; cbn [negb].
  2: { apply bool_decide_eq_false in E1. exists None. split; [done|]. intros pri rest. split; [done|].
       intros (d & -> & _). by destruct E1. }
  apply bool_decide_eq_true in E1. destruct raw as [|x raw]; [done|]. cbn in E1. injection E1 as ->.
  unfold IndexByte. cbn [index_byte]. assert ((60 =? 62) = false) as -> by done.
  destruct (index_byte_spec raw 62 (0 + 1)) as [[-> Hn]|(d & post & -> & Hn & ->)].
  { exists None. split; [done|]. intros pri rest. split; [done|]. intros (d & [= ->] & _). exfalso. apply Hn. set_solver. }
  replace (0 + 1 + len d) with (len d + 1) by lia.
  assert (∀ d' rest, 60 :: d ++ 62 :: post = 60 :: d' ++ 62 :: rest → 62 ∉ d' → d' = d ∧ rest = post) as Huniq.
  { intros d' rest [= Heq] Hn'. revert d' Hn' Heq. induction d as [|y d IH]; intros [|z d'] Hn' Heq.
    - by injection Heq as ->.
    - injection Heq as <- _. set_solver.
    - injection Heq as -> _. set_solver.
    - injection Heq as -> Heq. destruct (IH ltac:(set_solver) d' ltac:(set_solver) Heq) as [-> ->]. done. }
  destruct ((1 <? len d + 1) && (len d + 1 <=? 4)) eqn:E2; cbn [negb].
  2: { exists None. split; [done|]. intros pri rest. split; [done|].
       intros (d' & Heq & Hn' & Hlen & _). destruct (Huniq d' rest Heq Hn') as [-> ->]. exfalso. lia. }
  destruct (slice_pri d post) as [-> ->]. cbn [mbind option_bind].
  assert (1 ≤ len d ≤ 3) as Hlen by lia.
  destruct (Atoi d) as [pri|] eqn:Ea.
  2: { exists None. split; [done|]. intros pri rest. split; [done|].
       intros (d' & Heq & Hn' & _ & Ha & _). destruct (Huniq d' rest Heq Hn') as [-> ->]. congruence. }
  destruct ((0 <=? pri) && (pri <=? maxPriorityValue)) eqn:E3.
  - exists (Some (pri, post)). split; [done|]. intros pri' rest. split.
    + intros [= <- <-]. exists d. split_and!; try done; lia.
    + intros (d' & Heq & Hn' & _ & Ha & _). destruct (Huniq d' rest Heq Hn') as [-> ->]. congruence.
  - exists None. split; [done|]. intros pri' rest. split; [done|].
    intros (d' & Heq & Hn' & _ & Ha & Hr). destruct (Huniq d' rest Heq Hn') as [-> ->].
    assert (pri' = pri) as -> by congruence. exfalso. lia.
Qed.

(** ** Totality *)

Lemma index_last_field (fields : list bytes) k : 0 ≤ k → k < len fields → is_Some (index fields (len fields - 1 - k)).
Proof.
  intros Hk Hl. unfold index. assert ((0 <=? len fields - 1 - k) = true) as -> by lia.
  apply lookup_lt_is_Some. unfold len in *. lia.
Qed.

Lemma parse_body_total rest : is_Some (parse_body rest).
Proof.
  unfold parse_body. set (r := TrimSpace rest). unfold IndexByte.
  destruct (index_byte_spec r 58 0) as [[-> Hn]|(pre & post & -> & Hn & ->)]; [by eexists|]. rewrite Z.add_0_l.
  destruct (_ && _); [|by eexists]. destruct (slice_middle pre 58 post) as [-> ->]. cbn [mbind option_bind].
  destruct (0 <? len (Fields pre)) eqn:E0.
  - destruct (index_last_field (Fields pre) 0) as [tag Ht]; [lia|lia|]. rewrite Z.sub_0_r in Ht. rewrite Ht. cbn.
    destruct (1 <? len (Fields pre)) eqn:E1; [|by eexists].
    destruct (index_last_field (Fields pre) 1) as [host Hh]; [lia|lia|].
    replace (len (Fields pre) - 2) with (len (Fields pre) - 1 - 1) by lia. rewrite Hh. by eexists.
  - assert ((1 <? len (Fields pre)) = false) as -> by lia. by eexists.
Qed.

(** [Parse] never fails, on any bytes: the frame is kept verbatim, the
    facility is from 0 to 23 and the severity from 0 to 7 under its own name,
    and a frame without a PRI is informational, never an emergency. *)
Theorem Parse_never_fails frame :
  ∃ p, Parse frame = Some p ∧ Raw p = frame ∧ 0 ≤ Facility p ≤ 23 ∧ 0 ≤ Severity p ≤ 7 ∧
    SeverityName p = severityNameByValue (Severity p) ∧
    (parse_pri frame = Some None → Facility p = 0 ∧ Severity p = SeverityInformational).
Proof.
  destruct (parse_pri_spec frame) as (r & Hp & Hr). unfold Parse. rewrite Hp. cbn [mbind option_bind].
  destruct r as [[pri rest]|].
  - destruct (proj1 (Hr pri rest) eq_refl) as (_ & _ & _ & _ & _ & Hrange). unfold maxPriorityValue in Hrange.
    destruct (parse_body_total rest) as [[[tag host] message] ->]. cbn [mbind option_bind].
    eexists. split; [done|]. cbn. split; [done|]. unfold severityBits, severityMask.
    rewrite Z.shiftr_div_pow2 by lia. replace 7 with (Z.ones 3) by done. rewrite Z.land_ones by lia. change (Z.ones 3) with 7.
    pose proof (Z.mod_pos_bound pri (2 ^ 3)). pose proof (Z.div_pos pri (2 ^ 3)).
    pose proof (Z.div_lt_upper_bound pri (2 ^ 3) 24). split_and!; try done; lia.
  - destruct (parse_body_total frame) as [[[tag host] message] ->]. cbn [mbind option_bind].
    eexists. split; [done|]. cbn. done.
Qed.

(** ** Round trip *)

(** Printable ASCII other than the colon. *)
Definition word_char (c : Z) : Prop := 33 ≤ c < 127 ∧ c ≠ 58.
#[export] Instance word_char_dec c : Decision (word_char c).
Proof. unfold word_char. apply _. Defined.
Definition word (s : bytes) : Prop := s ≠ [] ∧ Forall word_char s.

Lemma word_solid w : Forall word_char w → Forall solid w.
Proof. intros H. eapply Forall_impl; [done|]. by intros c [? _]. Qed.

Lemma Fields_two a b : word a → word b → Fields (a ++ 32 :: b) = [a; b].
Proof.
  intros [Ha Hwa] [Hb Hwb]. unfold Fields. rewrite fields_solid_cons by (done || by apply word_solid).
  by rewrite fields_solid_end by (done || by apply word_solid).
Qed.

Lemma Fields_one a : word a → Fields a = [a].
Proof. intros [Ha Hwa]. by apply fields_solid_end; [|apply word_solid]. Qed.

Lemma word_no_colon w : Forall word_char w → 58 ∉ w.
Proof. intros Hw Hin. rewrite Forall_forall in Hw. by destruct (Hw 58 Hin). Qed.

(** The header of a frame: an optional host, and the tag. *)
Definition header (host tag : bytes) : bytes := match host with [] => tag | _ => host ++ 32 :: tag end.

Lemma header_fields host tag :
  (host = [] ∨ word host) → word tag →
  Fields (header host tag) = (match host with [] => [] | _ => [host] end) ++ [tag] ∧
  58 ∉ header host tag ∧ 1 ≤ len (header host tag) ∧
  (∃ c s, header host tag = c :: s ∧ solid c).
Proof.
  intros Hh Ht. pose proof Ht as [Htn Htw]. destruct host as [|x host].
  - cbn. split_and!; [by apply Fields_one|by apply word_no_colon|..]; destruct tag as [|y tag]; try done.
    + rewrite len_cons. pose proof (len_nonneg tag). lia.
    + apply Forall_cons in Htw as [[? _] _]. eauto.
  - destruct Hh as [|Hh]; [done|]. pose proof Hh as [_ Hhw]. cbn [header]. split_and!.
    + by rewrite Fields_two.
    + pose proof (word_no_colon _ Hhw). pose proof (word_no_colon _ Htw). set_solver.
    + rewrite len_app, !len_cons. pose proof (len_nonneg host). pose proof (len_nonneg tag). lia.
    + apply Forall_cons in Hhw as [[? _] _]. eexists _, _. split; [reflexivity|done].
Qed.

(** A frame as RFC 3164 writes one without a timestamp. *)
Definition print (pri : bytes) (host tag message : bytes) : bytes :=
  60 :: pri ++ 62 :: (header host tag ++ 58 :: 32 :: message).

(** C40: A frame made of a PRI of one to three decimal digits from 0 to 191,
    an optional host and a tag of printable ASCII characters other than the
    space and the colon, together under 128 bytes, and a message that is not
    empty and starts and ends with a printable ASCII character other than the
    space, parses to exactly those: printing is undone by [Parse]. *)
Theorem Parse_print digits host tag message :
  Forall digit digits → 1 ≤ len digits ≤ 3 → decimal digits ≤ 191 →
  (host = [] ∨ word host) → word tag → solid_ends message → len (header host tag) < 128 →
  Parse (print digits host tag message) =
    Some (MkParsed (decimal digits / 8) (decimal digits mod 8) (severityNameByValue (decimal digits mod 8)) tag host message
            (print digits host tag message)).
Proof.
  intros Hdig Hlen Hr Hh Ht Hm Hshort. unfold Parse. set (pri := decimal digits) in *.
  assert (Atoi digits = Some pri) as Ha by (apply Atoi_decimal; [intros E; rewrite E in Hlen; by destruct Hlen as [Hlen _]|done]).
  assert (62 ∉ digits) as Hd by (intros Hin; rewrite Forall_forall in Hdig; specialize (Hdig _ Hin); unfold digit in Hdig; lia).
  assert (0 ≤ pri) as Hp by (by apply decimal_nonneg).
  destruct (parse_pri_spec (print digits host tag message)) as (r & -> & Hiff). cbn [mbind option_bind].
  set (rest := header host tag ++ 58 :: 32 :: message).
  assert (r = Some (pri, rest)) as -> by (apply Hiff; exists digits; unfold maxPriorityValue; split_and!; (done || lia)).
  destruct (header_fields host tag Hh Ht) as (Hf & Hnc & Hl1 & (c & s & Hc & Hsol)).
  assert (TrimSpace rest = rest) as Htrim.
  { apply TrimSpace_solid. unfold rest. split.
    - exists c, (s ++ 58 :: 32 :: message). by rewrite Hc.
    - destruct Hm as [_ (d & s2 & -> & Hd2)]. exists d, (header host tag ++ 58 :: 32 :: s2).
      split; [|done]. by rewrite <-app_assoc. }
  assert (parse_body rest = Some (tag, host, message)) as ->.
  { unfold parse_body. rewrite Htrim. unfold rest. rewrite IndexByte_found by done.
    assert (((0 <? len (header host tag)) && (len (header host tag) <? 128)) = true) as -> by lia.
    destruct (slice_middle (header host tag) 58 (32 :: message)) as [-> ->]. cbn [mbind option_bind].
    rewrite Hf, TrimSpace_leading by done. destruct host as [|x host]; reflexivity. }
  cbn [mbind option_bind]. unfold severityBits, severityMask. replace 7 with (Z.ones 3) by done.
  rewrite Z.shiftr_div_pow2, Z.land_ones by lia. done.
Qed.

(** ** Concrete frames *)

Lemma Parse_print_witness :
  print (ascii_bytes "30") (ascii_bytes "router-1") (ascii_bytes "sshd[1234]") (ascii_bytes "Accepted for admin") =
    ascii_bytes "<30>router-1 sshd[1234]: Accepted for admin" ∧
  Tag <$> Parse (print (ascii_bytes "30") (ascii_bytes "router-1") (ascii_bytes "sshd[1234]") (ascii_bytes "Accepted for admin")) =
    Some (ascii_bytes "sshd[1234]").
Proof.
  split; [reflexivity|].
  rewrite (Parse_print (ascii_bytes "30")); [reflexivity|..].
  - repeat constructor; by vm_compute.
  - by vm_compute.
  - by vm_compute.
  - right. split; [done|]. eapply bool_decide_eq_true_1. by vm_compute.
  - split; [done|]. eapply bool_decide_eq_true_1. by vm_compute.
  - split; [exists 65, (ascii_bytes "ccepted for admin")|exists 110, (ascii_bytes "Accepted for admi")]; split;
      [reflexivity|unfold solid; lia|reflexivity|unfold solid; lia].
  - by vm_compute.
Defined.

(** With the timestamp RFC 3164 requires, the first colon is in the time
    of day: the tag is the hour, the host the day of the month, and the real
    host and tag are left in the message. *)
Theorem Parse_timestamp :
  (λ p, (Tag p, Hostname p, Message p)) <$>
    Parse (ascii_bytes "<30>Oct 11 22:14:15 router-1 sshd[1234]: Accepted publickey for admin") =
  Some (ascii_bytes "22", ascii_bytes "11", ascii_bytes "14:15 router-1 sshd[1234]: Accepted publickey for admin").
Proof. reflexivity. Qed.

(** A signed number passes for a PRI. *)
Example Parse_signed_pri :
  (λ p, (Facility p, Severity p, Message p)) <$> Parse (ascii_bytes "<+3>x") = Some (0, 3, ascii_bytes "x").
Proof. reflexivity. Qed.

(** An IPv6 host is cut at its first colon. *)
Example Parse_ipv6_host :
  (λ p, (Tag p, Hostname p, Message p)) <$> Parse (ascii_bytes "<30>fe80::1 sshd: x") =
  Some (ascii_bytes "fe80", [], ascii_bytes ":1 sshd: x").
Proof. reflexivity. Qed.
