(* ===== verification/Pmtud.v ===== *)
(** * Path MTU discovery

    Models [src/internal/discovery/pmtud.go], the whole search, and the pure
    half of [pmtud_probe.go]: the classification of a reply and the advertised
    next-hop MTU. The network and the context are parameters: a [Network]
    answers each probe and each [ctx.Err()] as any function of everything the
    search did before, so it may lose packets, change its mind or cancel the
    run between any two steps. The history a run leaves is the record the
    theorems speak about. *)
From Stdlib Require Import ZArith Lia.
From stdpp Require Import base gmap sets list strings.
From S2P Require Import Prelude GoBase.

(** ** Constants and data *)
Definition JumboMTU : Z := 9000.
Definition MinProbeMTU : Z := 576.
Definition pmtudHeaderOverhead : Z := 28.
Definition bisect : Z := 2.
Definition pmtudLostRetries : nat := 3.
Definition codeFragmentationNeeded : Z := 4.

Inductive PMTUDStatus : Type :=
| PMTUDStatusNone
| PMTUDStatusOK
| PMTUDStatusICMPFiltered
| PMTUDStatusUnreachable
| PMTUDStatusIncomplete.

Inductive ProbeOutcome : Type := ProbeArrived | ProbeTooBig | ProbeLost.

#[export] Instance ProbeOutcome_eq_dec : EqDecision ProbeOutcome.
Proof. solve_decision. Defined.

(** The [Error] of a result: the two messages the search writes. *)
Inductive SearchError : Type :=
| NoError
| NoLocalMTU
| ProbeFailed (size : Z) (err : string).

Record PMTUDResult : Type := MkResult {
  pm_Target : string;
  pm_Status : PMTUDStatus;
  pm_PathMTU : Z;
  pm_LocalMTU : Z;
  pm_Probes : Z;
  pm_Error : SearchError;
}.

Definition set_status (r : PMTUDResult) (st : PMTUDStatus) : PMTUDResult :=
  MkResult (pm_Target r) st (pm_PathMTU r) (pm_LocalMTU r) (pm_Probes r) (pm_Error r).
Definition set_path (r : PMTUDResult) (mtu : Z) : PMTUDResult :=
  MkResult (pm_Target r) (pm_Status r) mtu (pm_LocalMTU r) (pm_Probes r) (pm_Error r).
Definition set_error (r : PMTUDResult) (e : SearchError) : PMTUDResult :=
  MkResult (pm_Target r) (pm_Status r) (pm_PathMTU r) (pm_LocalMTU r) (pm_Probes r) e.
Definition count_probe (r : PMTUDResult) : PMTUDResult :=
  MkResult (pm_Target r) (pm_Status r) (pm_PathMTU r) (pm_LocalMTU r) (pm_Probes r + 1) (pm_Error r).

(** What a [ProbeFunc] returns: an outcome with the advertised next hop, or an
    error. *)
Inductive answer : Type :=
| Answer (o : ProbeOutcome) (nextHop : Z)
| Failed (err : string).

(** What a run does, newest first: the result of a [ctx.Err() != nil] test,
    and a probe with its answer. *)
Inductive event : Type :=
| EvCheck (cancelled : bool)
| EvSent (size : Z) (a : answer).

#[export] Instance answer_eq_dec : EqDecision answer.
Proof. solve_decision. Defined.
#[export] Instance event_eq_dec : EqDecision event.
Proof. solve_decision. Defined.

Abbreviation history := (list event).

Class Network : Type := {
  net_probe : history → Z → answer;
  net_cancelled : history → bool;
}.

(** [pmtudSearch], with the history as its view of the world. *)
Record pmtudSearch : Type := MkSearch {
  se_low : Z;
  se_high : Z;
  se_result : PMTUDResult;
  se_hist : history;
}.

Definition set_low (s : pmtudSearch) (x : Z) : pmtudSearch :=
  MkSearch x (se_high s) (se_result s) (se_hist s).
Definition set_high (s : pmtudSearch) (x : Z) : pmtudSearch :=
  MkSearch (se_low s) x (se_result s) (se_hist s).
Definition set_result (s : pmtudSearch) (r : PMTUDResult) : pmtudSearch :=
  MkSearch (se_low s) (se_high s) r (se_hist s).
Definition log (s : pmtudSearch) (e : event) : pmtudSearch :=
  MkSearch (se_low s) (se_high s) (se_result s) (e :: se_hist s).

Definition conclude_as (s : pmtudSearch) (st : PMTUDStatus) (mtu : Z) : pmtudSearch :=
  set_result s (set_path (set_status (se_result s) st) mtu).

(** ** The search *)
Section search.
Context `{Network}.

(** [s.ctx.Err() != nil]. *)
Definition ctx_err (s : pmtudSearch) : pmtudSearch * bool :=
  let b := net_cancelled (se_hist s) in (log s (EvCheck b), b).

(** [s.probe(s.ctx, size)]. *)
Definition probe (s : pmtudSearch) (size : Z) : pmtudSearch * answer :=
  let a := net_probe (se_hist s) size in (log s (EvSent size a), a).

(** The retry loop of [send]; [n] rounds are left. *)
Fixpoint send_loop (n : nat) (s : pmtudSearch) (size : Z) : pmtudSearch * (ProbeOutcome * Z) :=
  match n with
  | O => (s, (ProbeLost, 0))
  | S n' =>
      let '(s, stop) := ctx_err s in
      if stop : bool then (s, (ProbeLost, 0)) else
      let s := set_result s (count_probe (se_result s)) in
      let '(s, a) := probe s size in
      match a with
      | Failed err =>
          let '(s, stop) := ctx_err s in
          if stop : bool then (s, (ProbeLost, 0)) else
          (set_result s (set_error (se_result s) (ProbeFailed size err)), (ProbeLost, 0))
      | Answer ProbeLost _ => send_loop n' s size
      | Answer o nextHop => (s, (o, nextHop))
      end
  end.

Definition send (s : pmtudSearch) (size : Z) : pmtudSearch * (ProbeOutcome * Z) :=
  send_loop pmtudLostRetries s size.

Definition confirmAdvertised (s : pmtudSearch) (nextHop : Z) : pmtudSearch * bool :=
  let '(s, (o, _)) := send s nextHop in
  if decide (o = ProbeArrived) then (s, true) else (set_high s nextHop, false).

(** One round of the loop of [narrow]. *)
Definition narrow_body (s : pmtudSearch) : option (outcome pmtudSearch pmtudSearch) :=
  if negb (1 <? se_high s - se_low s) then Some (Leave s) else
  let '(s, stop) := ctx_err s in
  if stop : bool then Some (Leave s) else
  let mid := se_low s + (se_high s - se_low s) / bisect in
  let '(s, (o, _)) := send s mid in
  if decide (o = ProbeArrived) then Some (Next (set_low s mid))
  else Some (Next (set_high s mid)).

Definition narrow_fuel : nat := 16.

Definition narrow (s : pmtudSearch) : option pmtudSearch :=
  if se_low s =? 0 then
    let '(s, (o, _)) := send s MinProbeMTU in
    if decide (o = ProbeArrived) then for_loop narrow_fuel narrow_body (set_low s MinProbeMTU)
    else Some s
  else for_loop narrow_fuel narrow_body s.

Definition conclude (s : pmtudSearch) (first : ProbeOutcome) : pmtudSearch :=
  let '(s, stop) := ctx_err s in
  if stop : bool then conclude_as s PMTUDStatusIncomplete (se_low s)
  else if se_low s =? 0 then set_result s (set_status (se_result s) PMTUDStatusUnreachable)
  else if decide (first = ProbeLost) then conclude_as s PMTUDStatusICMPFiltered (se_low s)
  else conclude_as s PMTUDStatusOK (se_low s).

(** The tail of [run], after the first answer. *)
Definition narrow_conclude (s : pmtudSearch) (first : ProbeOutcome) : option pmtudSearch :=
  s ← narrow s; Some (conclude s first).

Definition run (s : pmtudSearch) (ceiling : Z) : option pmtudSearch :=
  let '(s, (o, nextHop)) := send s ceiling in
  match o with
  | ProbeArrived => Some (conclude_as s PMTUDStatusOK ceiling)
  | ProbeTooBig =>
      let s := set_high (set_low s 0) ceiling in
      if (MinProbeMTU <=? nextHop) && (nextHop <? ceiling) then
        let '(s, ok) := confirmAdvertised s nextHop in
        if ok : bool then Some (conclude_as s PMTUDStatusOK nextHop)
        else narrow_conclude s o
      else narrow_conclude s o
  | ProbeLost => narrow_conclude (set_high (set_low s 0) ceiling) o
  end.

(** [DiscoverPathMTU], with the history of the run. *)
Definition DiscoverPathMTU (target : string) (localMTU : Z)
    : option (PMTUDResult * history) :=
  let result := MkResult target PMTUDStatusNone 0 localMTU 0 NoError in
  if localMTU <=? 0 then
    Some (set_error (set_status result PMTUDStatusUnreachable) NoLocalMTU, [])
  else
    let high := Z.min localMTU JumboMTU in
    if high <? MinProbeMTU then Some (set_path (set_status result PMTUDStatusOK) high, [])
    else
      s ← run (MkSearch 0 0 result []) high;
      Some (se_result s, se_hist s).
End search.

(** ** The probe's payload and replies *)

Definition PayloadForMTU (mtu : Z) : Z :=
  if mtu <=? pmtudHeaderOverhead then 0 else mtu - pmtudHeaderOverhead.

(** The bodies [classifyProbeReply] tells apart. *)
Inductive ReplyBody : Type := BodyEcho | BodyDstUnreach | BodyOther.

(** [advertisedNextHopMTU]: bytes 6 and 7 of the datagram. *)
Definition advertisedNextHopMTU (raw : bytes) : option Z :=
  if len raw <? 8 then Some 0 else x ← slice raw 6 8; be16 x.

Definition classifyProbeReply (body : ReplyBody) (code : Z) (raw : bytes)
    : option (ProbeOutcome * Z) :=
  match body with
  | BodyEcho => Some (ProbeArrived, 0)
  | BodyDstUnreach =>
      if code =? codeFragmentationNeeded
      then n ← advertisedNextHopMTU raw; Some (ProbeTooBig, n)
      else Some (ProbeLost, 0)
  | BodyOther => Some (ProbeLost, 0)
  end.

(** ** What a history shows *)

Definition arrived (h : history) (size : Z) : Prop :=
  ∃ nh, EvSent size (Answer ProbeArrived nh) ∈ h.

(** A size is seen to fail when a router rejects it, the probe errs, or three
    probes of it in a row go unanswered. *)
Definition failed (h : history) (size : Z) : Prop :=
  (∃ nh, EvSent size (Answer ProbeTooBig nh) ∈ h) ∨
  (∃ e, EvSent size (Failed e) ∈ h) ∨
  (∃ n1 n2 n3, [EvSent size (Answer ProbeLost n1); EvSent size (Answer ProbeLost n2);
                EvSent size (Answer ProbeLost n3)] `sublist_of` h).

Definition stopped (h : history) : Prop := EvCheck true ∈ h.
#[export] Instance stopped_dec h : Decision (stopped h).
Proof. unfold stopped. apply _. Defined.

Definition is_arrival (e : event) : Prop :=
  match e with EvSent _ (Answer ProbeArrived _) => True | _ => False end.

Definition silent (h : history) : Prop := Forall (λ e, ¬ is_arrival e) h.

Definition is_sent (e : event) : bool := match e with EvSent _ _ => true | EvCheck _ => false end.
Definition sent (h : history) : nat := length (filter (λ e, is_sent e = true) h).

Lemma sent_app h1 h2 : sent (h1 ++ h2) = (sent h1 + sent h2)%nat.
Proof. unfold sent. by rewrite filter_app, length_app. Qed.

Lemma arrived_app h1 h2 size : arrived h2 size → arrived (h1 ++ h2) size.
Proof. intros [nh Hin]. exists nh. apply elem_of_app. by right. Qed.

Lemma stopped_app h1 h2 : stopped (h1 ++ h2) ↔ stopped h1 ∨ stopped h2.
Proof. apply elem_of_app. Qed.

Lemma failed_app h1 h2 size : failed h2 size → failed (h1 ++ h2) size.
Proof.
  intros [(nh & Hin)|[(e & Hin)|(n1 & n2 & n3 & Hs)]].
  - left. exists nh. apply elem_of_app. by right.
  - right. left. exists e. apply elem_of_app. by right.
  - do 2 right. exists n1, n2, n3. by apply sublist_inserts_l.
Qed.

Lemma failed_app_l h1 h2 size : failed h1 size → failed (h1 ++ h2) size.
Proof.
  intros [(nh & Hin)|[(e & Hin)|(n1 & n2 & n3 & Hs)]].
  - left. exists nh. apply elem_of_app. by left.
  - right. left. exists e. apply elem_of_app. by left.
  - do 2 right. exists n1, n2, n3. by apply sublist_inserts_r.
Qed.

Lemma arrived_app_l h1 h2 size : arrived h1 size → arrived (h1 ++ h2) size.
Proof. intros [nh Hin]. exists nh. apply elem_of_app. by left. Qed.

#[local] Hint Resolve arrived_app arrived_app_l failed_app failed_app_l : seed.

(** ** One send *)

(** What a step of the search leaves alone, and what it adds to the history:
    events [new] with [sent new] more probes counted. *)
Record extends (s s' : pmtudSearch) (new : history) : Prop := MkExtends {
  ext_hist : se_hist s' = new ++ se_hist s;
  ext_probes : pm_Probes (se_result s') = pm_Probes (se_result s) + Z.of_nat (sent new);
  ext_path : pm_PathMTU (se_result s') = pm_PathMTU (se_result s);
}.

Lemma extends_trans s1 s2 s3 n1 n2 :
  extends s1 s2 n1 → extends s2 s3 n2 → extends s1 s3 (n2 ++ n1).
Proof.
  intros [H1 P1 M1] [H2 P2 M2]. split.
  - by rewrite H2, H1, app_assoc.
  - rewrite P2, P1, sent_app. lia.
  - congruence.
Qed.

Section send.
Context `{Network}.

(** What a send concludes about its size from the events it adds. *)
Definition send_post (size : Z) (new : history) (o : ProbeOutcome) (nh : Z) : Prop :=
  match o with
  | ProbeArrived => arrived new size
  | ProbeTooBig => silent new ∧ EvSent size (Answer ProbeTooBig nh) ∈ new
  | ProbeLost => silent new ∧ (failed new size ∨ stopped new)
  end.

(** [n] lost probes in a row. *)
Definition losses (size : Z) (ns : list Z) : history :=
  map (λ nh, EvSent size (Answer ProbeLost nh)) ns.

Lemma extends_refl s : extends s s [].
Proof. split; [done|unfold sent; simpl; lia|done]. Qed.

Lemma extends_check s : extends s (log s (EvCheck (net_cancelled (se_hist s)))) [EvCheck (net_cancelled (se_hist s))].
Proof. split; [done|unfold sent; simpl; lia|done]. Qed.

(** The state after counting and sending a probe. *)
Definition probed (s : pmtudSearch) (size : Z) (a : answer) : pmtudSearch :=
  log (set_result s (count_probe (se_result s))) (EvSent size a).

Lemma extends_probed s size a : extends s (probed s size a) [EvSent size a].
Proof. split; [done|unfold sent; simpl; lia|done]. Qed.

(** What the remaining rounds show also holds with a lost probe before them. *)
Lemma send_loop_extend size n new nh0 o nh :
  let new' := new ++ [EvSent size (Answer ProbeLost nh0)] ++ [EvCheck false] in
  match o with
  | ProbeLost => silent new ∧ (stopped new ∨ (∃ e, EvSent size (Failed e) ∈ new) ∨
      ∃ ns, length ns = n ∧ losses size ns `sublist_of` new)
  | _ => send_post size new o nh
  end →
  match o with
  | ProbeLost => silent new' ∧ (stopped new' ∨ (∃ e, EvSent size (Failed e) ∈ new') ∨
      ∃ ns, length ns = S n ∧ losses size ns `sublist_of` new')
  | _ => send_post size new' o nh
  end.
Proof.
  intros new'.
  assert (silent new → silent new') as Hs.
  { intros Hs. apply Forall_app. split; [done|]. repeat constructor; simpl; tauto. }
  destruct o; simpl.
  - apply arrived_app_l.
  - intros [? ?]. split; [auto|]. apply elem_of_app. by left.
  - intros [? Hf]. split; [auto|]. destruct Hf as [?|[(e & ?)|(ns & <- & Hsub)]].
    + left. apply stopped_app. by left.
    + right. left. exists e. apply elem_of_app. by left.
    + do 2 right. exists (ns ++ [nh0]). split; [rewrite length_app; simpl; lia|].
      unfold losses. rewrite map_app. apply sublist_app; [done|]. apply sublist_skip, sublist_nil_l.
Qed.

Lemma send_loop_spec n s size :
  let '(s', (o, nh)) := send_loop n s size in
  ∃ new, extends s s' new ∧ (sent new ≤ n)%nat ∧ se_low s' = se_low s ∧ se_high s' = se_high s ∧
    match o with
    | ProbeLost => silent new ∧ (stopped new ∨ (∃ e, EvSent size (Failed e) ∈ new) ∨
        ∃ ns, length ns = n ∧ losses size ns `sublist_of` new)
    | _ => send_post size new o nh
    end.
Proof.
  revert s. induction n as [|n IH]; intros s.
  { exists []. split; [apply extends_refl|]. split; [done|]. do 2 (split; [done|]).
    split; [by constructor|]. right. right. by exists []. }
  cbn [send_loop ctx_err probe].
  pose proof (extends_check s) as X1. set (s1 := log s _) in *.
  destruct (net_cancelled (se_hist s)).
  { eexists. split; [exact X1|]. split; [unfold sent; simpl; lia|]. do 2 (split; [done|]).
    split; [repeat constructor; tauto|]. left. unfold stopped. set_solver. }
  change (se_hist (set_result s1 (count_probe (se_result s1)))) with (se_hist s1).
  pose proof (extends_trans _ _ _ _ _ X1 (extends_probed s1 size (net_probe (se_hist s1) size))) as X2.
  unfold probed in X2. destruct (net_probe (se_hist s1) size) as [o nh|e].
  - set (s2 := log (set_result s1 _) _) in *. destruct o.
    3: { specialize (IH s2). destruct (send_loop n s2 size) as [s' [o' nh']].
         destruct IH as (new & X3 & Hn & Hl & Hh & Hpost).
         exists (new ++ [EvSent size (Answer ProbeLost nh)] ++ [EvCheck false]).
         split; [exact (extends_trans _ _ _ _ _ X2 X3)|].
         split; [rewrite sent_app; unfold sent in *; simpl; lia|]. split; [done|]. split; [done|].
         eapply send_loop_extend; eauto. }
    all: eexists; split; [exact X2|]; split; [unfold sent; simpl; lia|]; do 2 (split; [done|]).
    + exists nh. set_solver.
    + split; [repeat constructor; simpl; tauto|set_solver].
  - set (s2 := log (set_result s1 _) _) in *. cbn [ctx_err]. 
    pose proof (extends_trans _ _ _ _ _ X2 (extends_check s2)) as X3.
    destruct (net_cancelled (se_hist s2)).
    all: eexists; split; [first [exact X3|destruct X3; by split]|];
      split; [unfold sent; simpl; lia|]; do 2 (split; [done|]);
      split; [repeat constructor; simpl; tauto|].
    + left. unfold stopped. set_solver.
    + right. left. exists e. set_solver.
Qed.

Lemma send_spec s size :
  let '(s', (o, nh)) := send s size in
  ∃ new, extends s s' new ∧ (sent new ≤ 3)%nat ∧ se_low s' = se_low s ∧ se_high s' = se_high s ∧
    send_post size new o nh.
Proof.
  pose proof (send_loop_spec pmtudLostRetries s size) as HX. unfold send.
  destruct (send_loop _ s size) as [s' [o nh]]. destruct HX as (new & X & Hn & Hl & Hh & Hpost).
  exists new. do 4 (split; [done|]). destruct o; [done..|]. destruct Hpost as [Hs Hf].
  split; [done|]. destruct Hf as [?|[?|(ns & Hlen & Hsub)]]; [by right|left; right; by left|].
  left. do 2 right. destruct ns as [|n1 [|n2 [|n3 [|? ?]]]]; try done. by exists n1, n2, n3.
Qed.
End send.

(** ** The bisection *)

(** The bounds of [narrow]: the low one was seen to arrive, the high one to
    fail unless the run was stopped. *)
Record bracket (ceiling : Z) (s : pmtudSearch) : Prop := MkBracket {
  br_low : arrived (se_hist s) (se_low s);
  br_high : failed (se_hist s) (se_high s) ∨ stopped (se_hist s);
  br_range : MinProbeMTU ≤ se_low s ≤ se_high s ∧ se_high s ≤ ceiling;
}.

(** Rounds left, and the probes they may cost. *)
Definition rounds (s : pmtudSearch) : nat := Z.to_nat (Z.log2_up (se_high s - se_low s)).

Lemma log2_up_half d : 1 < d → Z.log2_up (d - d / 2) < Z.log2_up d ∧ Z.log2_up (d / 2) < Z.log2_up d.
Proof.
  intros Hd. pose proof (Z.div_mod d 2). pose proof (Z.mod_pos_bound d 2).
  assert (Z.log2_up (d - d / 2) < Z.log2_up d) as H1.
  { pose proof (Z.log2_up_spec d Hd) as [_ Hs]. pose proof (Z.log2_up_pos d Hd).
    apply Z.le_lt_trans with (Z.log2_up d - 1); [|lia].
    apply Z.log2_up_le_pow2; [lia|].
    replace (Z.log2_up d) with (Z.succ (Z.log2_up d - 1)) in Hs by lia.
    rewrite Z.pow_succ_r in Hs by lia. lia. }
  split; [done|]. eapply Z.le_lt_trans; [apply Z.log2_up_le_mono|exact H1]. lia.
Qed.

Lemma rounds_bisect s :
  1 < se_high s - se_low s →
  let mid := se_low s + (se_high s - se_low s) / bisect in
  se_low s < mid < se_high s ∧
  (rounds (set_low s mid) < rounds s)%nat ∧ (rounds (set_high s mid) < rounds s)%nat.
Proof.
  intros Hd mid. subst mid. unfold rounds, bisect. simpl.
  destruct (log2_up_half _ Hd) as [H1 H2]. set (d := se_high s - se_low s) in *.
  pose proof (Z.div_mod d 2). pose proof (Z.mod_pos_bound d 2).
  replace (se_high s - (se_low s + d / 2)) with (d - d / 2) by lia.
  replace (se_low s + d / 2 - se_low s) with (d / 2) by lia.
  pose proof (Z.log2_up_nonneg (d - d / 2)). pose proof (Z.log2_up_nonneg (d / 2)). lia.
Qed.

Section narrow.
Context `{Network}.

(** What [narrow] reaches from the state [s]: adjacent bounds, unless it was
    stopped, and nothing at all when the floor fails. *)
Definition narrow_post (ceiling : Z) (s s' : pmtudSearch) : Prop :=
  (∃ new, extends s s' new ∧ (sent new ≤ 45)%nat) ∧
  ((se_low s' = 0 ∧ (silent (se_hist s) → silent (se_hist s')) ∧
     (failed (se_hist s') MinProbeMTU ∨ stopped (se_hist s'))) ∨
   bracket ceiling s' ∧ (se_high s' - se_low s' ≤ 1 ∨ stopped (se_hist s'))).

Lemma narrow_loop_spec ceiling s :
  bracket ceiling s → (rounds s ≤ 14)%nat →
  wp (for_loop narrow_fuel narrow_body s) (λ s',
    (∃ new, extends s s' new ∧ (sent new ≤ 42)%nat) ∧
    bracket ceiling s' ∧ (se_high s' - se_low s' ≤ 1 ∨ stopped (se_hist s'))).
Proof.
  intros Hb Hr.
  apply (wp_for_loop narrow_body (λ x, bracket ceiling x ∧ (rounds x ≤ 14)%nat ∧
    ∃ new, extends s x new ∧ (sent new + 3 * rounds x ≤ 42)%nat) rounds).
  2: { split; [done|]. split; [done|]. exists []. split; [apply extends_refl|]. unfold sent. simpl. lia. }
  2: unfold narrow_fuel; lia.
  clear Hb Hr. intros x (Hb & Hr & new & X & Hn). unfold narrow_body.
  destruct (Z.ltb_spec 1 (se_high x - se_low x)); simpl.
  2: { split; [exists new; split; [done|lia]|]. split; [done|]. left. lia. }
  pose proof (extends_trans _ _ _ _ _ X (extends_check x)) as X1. unfold ctx_err. destruct (net_cancelled (se_hist x)) eqn:E.
  { simpl. split; [eexists; split; [exact X1|]; rewrite sent_app; unfold sent at 1; simpl; lia|].
    assert (stopped (EvCheck true :: se_hist x)) as Hst by (unfold stopped; set_solver).
    split; [|by right]. destruct Hb as [Ha Hf Hrg]. split; simpl; [by apply (arrived_app [_])|by right|done]. }
  set (x1 := log x (EvCheck false)) in *. change (se_low x1) with (se_low x). change (se_high x1) with (se_high x).
  destruct (rounds_bisect x) as (Hmid & R1 & R2); [done|].
  set (mid := se_low x + _) in *.
  pose proof (send_spec x1 mid) as HX. destruct (send x1 mid) as [x2 [o nh]].
  destruct HX as (new2 & X2 & Hn2 & Hl & Hh & Hpost).
  pose proof (extends_trans _ _ _ _ _ X1 X2) as X3.
  assert (se_hist x2 = new2 ++ [EvCheck false] ++ se_hist x) as Hhist by apply X2.
  destruct Hb as [Ha Hf Hrg].
  assert (failed (se_hist x2) (se_high x) ∨ stopped (se_hist x2)) as Hf2.
  { rewrite Hhist. destruct Hf as [Hf|Hf]; [left|right].
    - by apply failed_app, failed_app.
    - apply stopped_app. right. apply stopped_app. by right. }
  assert (sent (new2 ++ [EvCheck false] ++ new) + 3 * (rounds x - 1) ≤ 42)%nat as Hcost.
  { rewrite !sent_app. unfold sent at 2. simpl. lia. }
  assert (o ≠ ProbeArrived → failed (se_hist x2) mid ∨ stopped (se_hist x2)) as Hno.
  { intros Ho. rewrite Hhist. destruct o; [done| |].
    - left. left. exists nh. apply elem_of_app. left. apply Hpost.
    - destruct Hpost as [_ [?|?]]; [left; by apply failed_app_l|right; apply stopped_app; by left]. }
  change (se_low x1) with (se_low x) in Hl. change (se_high x1) with (se_high x) in Hh.
  assert (rounds (set_low x2 mid) = rounds (set_low x mid)) as E1 by (unfold rounds; simpl; by rewrite Hh).
  assert (rounds (set_high x2 mid) = rounds (set_high x mid)) as E2 by (unfold rounds; simpl; by rewrite Hl).
  assert (∀ y, rounds y < rounds x → se_hist y = se_hist x2 → se_result y = se_result x2 →
    ∃ new0, extends s y new0 ∧ sent new0 + 3 * rounds y ≤ 42)%nat as Hext.
  { intros y Hy Hy1 Hy2. exists (new2 ++ [EvCheck false] ++ new). split; [|lia].
    destruct X3. split; by rewrite ?Hy1, ?Hy2. }
  destruct (decide (o = ProbeArrived)) as [->|Ho]; cbn [wp]; (split; [|by rewrite ?E1, ?E2]).
  - split; [split; simpl; [|by rewrite Hh|rewrite Hh; lia]|].
    + rewrite Hhist. by apply arrived_app_l.
    + split; [lia|]. apply Hext; [by rewrite E1|done..].
  - split; [split; simpl; [|by apply Hno|rewrite Hl; lia]|].
    + rewrite Hhist, Hl. by apply arrived_app, arrived_app.
    + split; [lia|]. apply Hext; [by rewrite E2|done..].
Qed.

Lemma narrow_spec ceiling s :
  se_low s = 0 → MinProbeMTU ≤ se_high s ≤ ceiling → ceiling ≤ JumboMTU →
  failed (se_hist s) (se_high s) ∨ stopped (se_hist s) →
  wp (narrow s) (narrow_post ceiling s).
Proof.
  intros Hlow Hrg Hc Hf. unfold narrow. rewrite (proj2 (Z.eqb_eq _ _) Hlow).
  pose proof (send_spec s MinProbeMTU) as HX. destruct (send s MinProbeMTU) as [s1 [o nh]].
  destruct HX as (new & X & Hn & Hl & Hh & Hpost). assert (se_hist s1 = new ++ se_hist s) as Hhist by apply X.
  destruct (decide (o = ProbeArrived)) as [->|Ho].
  - eapply wp_mono; [apply (narrow_loop_spec ceiling)|].
    + split; [simpl; rewrite Hhist; by apply arrived_app_l| |simpl; rewrite Hh; lia].
      cbn [se_hist se_high set_low]. rewrite Hhist, Hh.
      destruct Hf as [Hf|Hf]; [left; by apply failed_app|right; apply stopped_app; by right].
    + unfold rounds. simpl. rewrite Hh. unfold MinProbeMTU, JumboMTU in *.
      assert (Z.log2_up (se_high s - 576) ≤ Z.log2_up 16384) by (apply Z.log2_up_le_mono; lia).
      change (Z.log2_up 16384) with 14 in *. lia.
    + intros s' ((new2 & X2 & Hn2) & Hb). split; [|by right].
      exists (new2 ++ new). rewrite sent_app. split; [|lia].
      eapply extends_trans; [exact X|]. destruct X2; by split.
  - simpl. split; [exists new; split; [done|lia]|]. left. rewrite Hl, Hhist. split; [done|].
    assert (silent new ∧ (failed new MinProbeMTU ∨ stopped new)) as [Hs Hff].
    { destruct o; [done| |done]. destruct Hpost as [? ?]. split; [done|]. left. left. by exists nh. }
    split; [intros ?; by apply Forall_app|].
    destruct Hff; [left; by apply failed_app_l|right; apply stopped_app; by left].
Qed.
End narrow.

(** ** What a result means *)

Section result.
Context `{Network}.

(** The promise of a result [r] with ceiling [c], given the run's history. *)
Definition reported (c : Z) (r : PMTUDResult) (h : history) : Prop :=
  let p := pm_PathMTU r in
  match pm_Status r with
  | PMTUDStatusOK =>
      MinProbeMTU ≤ p ≤ c ∧ arrived h p ∧
      (p = c ∨ EvSent c (Answer ProbeTooBig p) ∈ h ∨ failed h p ∨ failed h (p + 1))
  | PMTUDStatusICMPFiltered =>
      MinProbeMTU ≤ p ≤ c ∧ arrived h p ∧ (failed h p ∨ failed h (p + 1)) ∧ failed h c
  | PMTUDStatusUnreachable => p = 0 ∧ silent h ∧ failed h MinProbeMTU
  | PMTUDStatusIncomplete => stopped h ∧ (p = 0 ∧ silent h ∨ arrived h p)
  | PMTUDStatusNone => False
  end.

(** What [narrow] and [conclude] are called with. *)
Record searching (c : Z) (first : ProbeOutcome) (s : pmtudSearch) : Prop := MkSearching {
  sg_low : se_low s = 0;
  sg_high : MinProbeMTU ≤ se_high s ≤ c;
  sg_failed : failed (se_hist s) (se_high s) ∨ stopped (se_hist s);
  sg_silent : silent (se_hist s);
  sg_path : pm_PathMTU (se_result s) = 0;
  sg_first : first = ProbeLost → failed (se_hist s) c ∨ stopped (se_hist s);
  sg_not : first ≠ ProbeArrived;
}.

Context (perm : ∀ h, stopped h → net_cancelled h = true).

Lemma not_stopped_failed h c (Hc : net_cancelled h = false) : failed h c ∨ stopped h → failed h c.
Proof using perm. intros [?|Hs]; [done|]. rewrite perm in Hc; done. Qed.

Lemma narrow_conclude_spec c first s :
  searching c first s → c ≤ JumboMTU →
  wp (narrow_conclude s first) (λ s',
    (∃ new, se_hist s' = new ++ se_hist s ∧ (sent new ≤ 45)%nat ∧
       pm_Probes (se_result s') = pm_Probes (se_result s) + Z.of_nat (sent new)) ∧
    reported c (se_result s') (se_hist s')).
Proof using perm.
  intros [Hl Hh Hf Hs Hp Hfi Hno] Hc. unfold narrow_conclude.
  eapply wp_bind_spec; [by apply (narrow_spec c)|]. intros s1 [(new & [X1 X2 X3] & Hn) Hpost].
  unfold conclude, ctx_err.
  assert (first = ProbeLost → failed (se_hist s1) c ∨ stopped (se_hist s1)) as Hfi1.
  { intros ->. destruct Hfi as [?|?]; [done|left; rewrite X1; by apply failed_app|].
    right. rewrite X1. apply stopped_app. by right. }
  set (e := EvCheck _) in *.
  assert (∀ r, pm_Probes r = pm_Probes (se_result s1) → ∃ new0, e :: se_hist s1 = new0 ++ se_hist s ∧
    (sent new0 ≤ 45)%nat ∧ pm_Probes r = pm_Probes (se_result s) + Z.of_nat (sent new0)) as Hext.
  { intros r Hr. exists (e :: new). simpl. rewrite X1. split; [done|]. unfold sent in *. simpl. by rewrite Hr. }
  assert (∀ x, failed (se_hist s1) x → failed (e :: se_hist s1) x) as Hfc by (intros; by apply (failed_app [_])).
  assert (∀ x, arrived (se_hist s1) x → arrived (e :: se_hist s1) x) as Hac by (intros; by apply (arrived_app [_])).
  subst e. destruct (net_cancelled (se_hist s1)) eqn:E; cbn [wp].
  { split; [by apply Hext|]. unfold reported. cbn. split; [unfold stopped; set_solver|].
    destruct Hpost as [(-> & Hsi & _)|[[Ha _ _] _]]; [left|right; by apply Hac].
    split; [done|]. constructor; [simpl; tauto|by apply Hsi]. }
  assert (∀ x, failed (se_hist s1) x ∨ stopped (se_hist s1) → failed (se_hist s1) x) as Hns
    by (intros; by apply not_stopped_failed).
  cbn [se_low log].
  destruct Hpost as [(-> & Hsi & Hfl)|[[Ha Hfh Hrg] Hadj]].
  { cbn. split; [by apply Hext|]. unfold reported. cbn. split; [congruence|].
    split; [constructor; [tauto|by apply Hsi]|by apply Hfc, Hns]. }
  rewrite (proj2 (Z.eqb_neq (se_low s1) 0)) by (unfold MinProbeMTU in *; lia).
  assert (failed (se_hist s1) (se_low s1) ∨ failed (se_hist s1) (se_low s1 + 1)) as Hadj2.
  { apply Hns in Hfh. destruct Hadj as [Hd|Hst]; [|rewrite perm in E; done].
    destruct (decide (se_high s1 = se_low s1)) as [<-|]; [by left|right].
    by replace (se_low s1 + 1) with (se_high s1) by lia. }
  destruct (decide (first = ProbeLost)) as [->|Hl']; cbn; (split; [by apply Hext|]); unfold reported; cbn;
    (split; [lia|]); (split; [by apply Hac|]).
  - split; [destruct Hadj2; auto|]. by apply Hfc, Hns, Hfi1.
  - right. right. destruct Hadj2; auto.
Qed.

Lemma run_spec c s :
  MinProbeMTU ≤ c ≤ JumboMTU → se_hist s = [] → pm_PathMTU (se_result s) = 0 → pm_Probes (se_result s) = 0 →
  wp (run s c) (λ s', reported c (se_result s') (se_hist s') ∧
    pm_Probes (se_result s') = Z.of_nat (sent (se_hist s')) ∧ pm_Probes (se_result s') ≤ 51).
Proof using perm.
  intros Hc Hh Hp Hn. unfold run.
  pose proof (send_spec s c) as HX. destruct (send s c) as [s1 [o nh]].
  destruct HX as (new & [X1 X2 X3] & Hk & Hl1 & Hh1 & Hpost). rewrite Hh, app_nil_r in X1.
  rewrite Hn in X2. rewrite Hp in X3.
  assert (o ≠ ProbeArrived → searching c o (set_high (set_low s1 0) c)) as Hsearch.
  { intros Ho. split; cbn; [done|lia| | |done| |done]; rewrite X1.
    - destruct o; [done|left; left; exists nh; apply Hpost|apply Hpost].
    - destruct o; [done|apply Hpost..].
    - intros ->. apply Hpost. }
  assert (∀ x, searching c o x → ∀ new', se_hist x = new' → pm_Probes (se_result x) = Z.of_nat (sent new') →
    (sent new' ≤ 6)%nat → wp (narrow_conclude x o) (λ s', reported c (se_result s') (se_hist s') ∧
    pm_Probes (se_result s') = Z.of_nat (sent (se_hist s')) ∧ pm_Probes (se_result s') ≤ 51)) as Htail.
  { intros x Hx new' <- Hpr Hs. eapply wp_mono; [apply (narrow_conclude_spec c); [done|lia]|].
    intros s' ((nw & Hw & Hnw & Hpw) & Hr). split; [done|]. rewrite Hpw, Hpr, Hw, sent_app. lia. }
  destruct o.
  - assert (pm_Probes (se_result s1) = Z.of_nat (sent new) ∧ pm_Probes (se_result s1) ≤ 51) by (split; lia).
    cbn. unfold reported. cbn. rewrite X1. split; [split; [lia|split; [done|by left]]|]. done.
  - destruct ((MinProbeMTU <=? nh) && (nh <? c)) eqn:E; [|apply (Htail _ (Hsearch ltac:(done)) new); [done|done|lia]].
    specialize (Hsearch ltac:(done)). set (s2 := set_high (set_low s1 0) c) in *. unfold confirmAdvertised.
    pose proof (send_spec s2 nh) as HX. destruct (send s2 nh) as [s3 [o2 nh2]].
    destruct HX as (new2 & [Y1 Y2 Y3] & Hk2 & Hl2 & Hh2 & Hpost2).
    assert (se_hist s3 = new2 ++ new) as Y1' by (rewrite Y1; cbn; by rewrite X1).
    assert (pm_Probes (se_result s3) = Z.of_nat (sent (new2 ++ new))) as Y2' by (rewrite Y2; cbn; rewrite X2, sent_app; lia).
    destruct (decide (o2 = ProbeArrived)) as [->|Ho2].
    + assert (pm_Probes (se_result s3) ≤ 51) by (rewrite Y2', sent_app; lia).
      cbn. unfold reported. cbn. rewrite Y1'. split; [|done].
      split; [bool_lia|]. split; [by apply arrived_app_l|]. right. left. apply elem_of_app. right. apply Hpost.
    + assert (silent new2 ∧ (failed new2 nh ∨ stopped new2)) as [Hsi Hfl].
      { destruct o2; [done| |done]. destruct Hpost2 as [? ?]. split; [done|]. left. left. by exists nh2. }
      apply (Htail (set_high s3 nh)) with (new' := new2 ++ new); [|done|done|rewrite sent_app; lia].
      split; cbn; [by rewrite Hl2|bool_lia| | |by rewrite Y3|done|done]; rewrite Y1'.
      * destruct Hfl; [left; by apply failed_app_l|right; apply stopped_app; by left].
      * apply Forall_app. split; [done|apply Hpost].
  - apply (Htail _ (Hsearch ltac:(done)) new); [done|done|lia].
Qed.

(** The search always ends, after at most 51 packets, whatever the network
    answers and whenever the run is cancelled, and its status says exactly
    what was seen: with [ok] the path MTU is a size that arrived and is the
    ceiling, the confirmed claim of a router, or a size next to one that
    failed; [icmp_filtered] moreover means silence at the ceiling;
    [unreachable] means nothing arrived at all and the floor failed;
    [incomplete] that the run was cancelled, with a size that arrived or zero. *)
Theorem DiscoverPathMTU_sound target localMTU :
  wp (DiscoverPathMTU target localMTU) (λ '(r, h),
    pm_Probes r = Z.of_nat (sent h) ∧ pm_Probes r ≤ 51 ∧
    (localMTU ≤ 0 → pm_Status r = PMTUDStatusUnreachable ∧ h = []) ∧
    (0 < localMTU < MinProbeMTU → pm_Status r = PMTUDStatusOK ∧ pm_PathMTU r = localMTU ∧ h = []) ∧
    (MinProbeMTU ≤ localMTU → reported (Z.min localMTU JumboMTU) r h)).
Proof using perm.
  unfold DiscoverPathMTU. destruct (Z.leb_spec localMTU 0); [cbn; unfold sent, MinProbeMTU; simpl; repeat split; lia|].
  destruct (Z.ltb_spec (Z.min localMTU JumboMTU) MinProbeMTU) as [Hm|Hm].
  { unfold MinProbeMTU, JumboMTU in *. cbn. unfold sent. simpl. repeat split; lia. }
  eapply wp_bind_spec; [apply run_spec; try done; lia|]. intros s' (Hr & Hp & Hb). cbn.
  unfold MinProbeMTU, JumboMTU in *. repeat split; try done; lia.
Qed.
End result.

(** ** A path with a maximum

    The packets up to [m] bytes fit; [loss k] says the [k]-th packet of the
    run is lost whatever its size, [icmp k size] is the next-hop MTU in the
    error an oversized one gets, or [None] where errors are filtered. *)
Section path.
Context (m : Z) (loss : nat → bool) (icmp : nat → Z → option Z).

Definition path : Network := {|
  net_probe h size :=
    if loss (sent h) then Answer ProbeLost 0
    else if size <=? m then Answer ProbeArrived 0
    else match icmp (sent h) size with
         | Some nextHop => Answer ProbeTooBig nextHop
         | None => Answer ProbeLost 0
         end;
  net_cancelled _ := false;
|}.

(** Never three losses in a row. *)
Definition steady : Prop := ∀ k, loss k = true → loss (S k) = true → loss (S (S k)) = false.

(** A router advertises its own next hop, which is no smaller than the
    smallest link of the path, or something below any size the search uses. *)
Definition honest : Prop := ∀ k size nh, icmp k size = Some nh → m ≤ nh ∨ nh < MinProbeMTU.

Lemma path_send s size :
  steady →
  let '(s', (o, nh)) := @send path s size in
  se_low s' = se_low s ∧ se_high s' = se_high s ∧
  pm_PathMTU (se_result s') = pm_PathMTU (se_result s) ∧
  match o with
  | ProbeArrived => size ≤ m
  | ProbeTooBig => m < size ∧ ∃ k, icmp k size = Some nh
  | ProbeLost => m < size ∧ ∃ k, icmp k size = None
  end.
Proof.
  intros Hst. unfold send, pmtudLostRetries.
  pose proof (Hst (sent (se_hist s))) as Hk.
  assert (∀ h b, sent (EvCheck b :: h) = sent h) as E1 by done.
  assert (∀ h z a, sent (EvSent z a :: h) = S (sent h)) as E2 by done.
  unfold send_loop, ctx_err, probe. cbn [path net_cancelled net_probe se_hist log set_result se_result].
  repeat (rewrite ?E1, ?E2;
    match goal with
    | |- context [if loss ?k then _ else _] => destruct (loss k) eqn:?
    | |- context [size <=? m] => destruct (Z.leb_spec size m)
    | |- context [match icmp ?k size with _ => _ end] => destruct (icmp k size) eqn:?
    end; cbn [path net_cancelled net_probe se_hist log set_result se_result se_low se_high]).
  all: try (by eauto 10). 
  all: try (by specialize (Hk eq_refl eq_refl)).
Qed.

Context (Hst : steady).

Lemma path_narrow s :
  se_low s = 0 → m < se_high s → MinProbeMTU ≤ se_high s ≤ JumboMTU →
  wp (@narrow path s) (λ s', pm_PathMTU (se_result s') = pm_PathMTU (se_result s) ∧
    se_low s' = if MinProbeMTU <=? m then m else 0).
Proof using Hst.
  intros Hl Hm Hr. unfold narrow. rewrite (proj2 (Z.eqb_eq _ _) Hl).
  pose proof (path_send s MinProbeMTU Hst) as HX. destruct (send s MinProbeMTU) as [s1 [o nh]].
  destruct HX as (Hl1 & Hh1 & Hp1 & Hpost). destruct (decide (o = ProbeArrived)) as [->|Ho].
  - rewrite (proj2 (Z.leb_le _ _) Hpost).
    apply (wp_for_loop _ (λ x, se_low x ≤ m < se_high x ∧ MinProbeMTU ≤ se_low x ∧
      pm_PathMTU (se_result x) = pm_PathMTU (se_result s)) rounds).
    + intros x (Hx & Hx2 & Hx3). unfold narrow_body. destruct (Z.ltb_spec 1 (se_high x - se_low x)); simpl; [|split; [done|lia]].
      destruct (rounds_bisect x) as (Hmid & R1 & R2); [done|]. unfold ctx_err. cbn [path net_cancelled].
      set (mid := se_low x + _) in *. cbn [se_low se_high log].
      change (se_low x + (se_high x - se_low x) / bisect) with mid.
      pose proof (path_send (log x (EvCheck false)) mid Hst) as HX. destruct (send _ mid) as [x1 [o nh']].
      destruct HX as (Hlx & Hhx & Hpx & Hp). cbn in Hlx, Hhx, Hpx. unfold rounds in *. cbn in R1, R2.
      destruct (decide (o = ProbeArrived)) as [->|Ho]; cbn; rewrite ?Hlx, ?Hhx; [lia|].
      destruct o; [done|destruct Hp; lia..].
    + cbn. lia.
    + unfold rounds, narrow_fuel. cbn. unfold MinProbeMTU, JumboMTU in *.
      assert (Z.log2_up (se_high s1 - 576) ≤ Z.log2_up 16384) by (apply Z.log2_up_le_mono; lia).
      change (Z.log2_up 16384) with 14 in *. lia.
  - cbn. split; [done|]. rewrite Hl1, Hl. destruct (Z.leb_spec MinProbeMTU m); [|done].
    destruct o; [done|destruct Hpost; lia..].
Qed.

Lemma path_narrow_conclude s first :
  se_low s = 0 → m < se_high s → MinProbeMTU ≤ se_high s ≤ JumboMTU → pm_PathMTU (se_result s) = 0 →
  wp (@narrow_conclude path s first) (λ s', let r := se_result s' in
    if MinProbeMTU <=? m
    then pm_PathMTU r = m ∧
         pm_Status r = if decide (first = ProbeLost) then PMTUDStatusICMPFiltered else PMTUDStatusOK
    else pm_PathMTU r = 0 ∧ pm_Status r = PMTUDStatusUnreachable).
Proof using Hst.
  intros Hl Hm Hr Hp. unfold narrow_conclude.
  eapply wp_bind_spec; [by apply path_narrow|]. rewrite Hp. intros s1 [Hp1 Hl1].
  unfold conclude, ctx_err. cbn [path net_cancelled wp se_low log]. rewrite Hl1.
  destruct (Z.leb_spec MinProbeMTU m); [|done].
  rewrite (proj2 (Z.eqb_neq m 0)) by (unfold MinProbeMTU in *; lia).
  by destruct (decide (first = ProbeLost)).
Qed.

(** C9: On a path that carries at most [m] bytes, where three packets are never
    lost in a row and routers advertise nothing below the bottleneck, the
    search finds [m] exactly, capped at the jumbo size and the local MTU;
    where routers always report, the status is [ok], and where errors are
    always filtered it is [icmp_filtered]. A path below the floor is
    [unreachable]. *)
Theorem DiscoverPathMTU_exact target localMTU :
  honest → MinProbeMTU ≤ localMTU →
  wp (@DiscoverPathMTU path target localMTU) (λ '(r, _),
    let c := Z.min localMTU JumboMTU in
    if m <? MinProbeMTU then pm_Status r = PMTUDStatusUnreachable ∧ pm_PathMTU r = 0
    else pm_PathMTU r = Z.min m c ∧
      (c ≤ m → pm_Status r = PMTUDStatusOK) ∧
      (m < c → (∀ k size, is_Some (icmp k size)) → pm_Status r = PMTUDStatusOK) ∧
      (m < c → (∀ k size, icmp k size = None) → pm_Status r = PMTUDStatusICMPFiltered)).
Proof using Hst.
  intros Hh Hl. unfold DiscoverPathMTU. unfold MinProbeMTU in Hl.
  rewrite (proj2 (Z.leb_gt localMTU 0)) by lia. set (c := Z.min localMTU JumboMTU).
  assert (MinProbeMTU ≤ c ≤ JumboMTU) as Hc by (unfold c, MinProbeMTU, JumboMTU in *; lia).
  rewrite (proj2 (Z.ltb_ge c MinProbeMTU)) by lia. set (s0 := MkSearch 0 0 _ []).
  assert (∀ first s1, first ≠ ProbeArrived → (first = ProbeTooBig → ∃ k size nh, icmp k size = Some nh) →
    (first = ProbeLost → ∃ k size, icmp k size = None) →
    se_low s1 = 0 → m < se_high s1 ≤ c → MinProbeMTU ≤ se_high s1 → pm_PathMTU (se_result s1) = 0 →
    wp (s ← @narrow_conclude path s1 first; Some (se_result s, se_hist s)) (λ '(r, _),
    if m <? MinProbeMTU then pm_Status r = PMTUDStatusUnreachable ∧ pm_PathMTU r = 0
    else pm_PathMTU r = Z.min m c ∧
      (c ≤ m → pm_Status r = PMTUDStatusOK) ∧
      (m < c → (∀ k size, is_Some (icmp k size)) → pm_Status r = PMTUDStatusOK) ∧
      (m < c → (∀ k size, icmp k size = None) → pm_Status r = PMTUDStatusICMPFiltered))) as Htail.
  { intros first s1 Hno Htb Hlo Hl1 Hm Hm2 Hp1.
    eapply wp_bind_spec; [apply path_narrow_conclude; try done; lia|]. intros s2 Hs2. cbn.
    cbv zeta in Hs2. rewrite Z.leb_antisym in Hs2. destruct (m <? MinProbeMTU) eqn:E; cbn in Hs2; [by destruct Hs2|].
    destruct Hs2 as [-> ->]. split; [lia|]. split; [lia|].
    destruct first; [done|destruct (Htb eq_refl) as (k & size & nh & Hk)|destruct (Hlo eq_refl) as (k & size & Hk)].
    - split; [done|]. intros _ HN. by rewrite HN in Hk.
    - split; [|done]. intros _ HN. specialize (HN k size). rewrite Hk in HN. by destruct HN. }
  unfold run. pose proof (path_send s0 c Hst) as HX. destruct (send s0 c) as [s1 [o nh]].
  destruct HX as (Hl1 & Hh1 & Hp1 & Hpost). cbn in Hp1.
  destruct o.
  - cbn. destruct (Z.ltb_spec m MinProbeMTU); [lia|]. split; [lia|]. repeat split; lia.
  - destruct Hpost as [Hm (k & Hk)].
    destruct ((MinProbeMTU <=? nh) && (nh <? c)) eqn:E; [|apply Htail; cbn; try done; [by eauto|lia..]].
    unfold confirmAdvertised. set (s2 := set_high _ c).
    pose proof (path_send s2 nh Hst) as HX. destruct (send s2 nh) as [s3 [o2 nh2]].
    destruct HX as (Hl3 & Hh3 & Hp3 & Hpost2). cbn in Hl3, Hh3, Hp3.
    assert (m ≤ nh) as Hmn by (destruct (Hh _ _ _ Hk); [done|bool_lia]).
    destruct (decide (o2 = ProbeArrived)) as [->|Ho2].
    + cbn. destruct (Z.ltb_spec m MinProbeMTU); [bool_lia|].
      split; [bool_lia|]. split; [lia|]. split; [done|]. intros _ HN. by rewrite HN in Hk.
    + apply Htail; cbn; try done; [by eauto| |bool_lia|by rewrite Hp3].
      assert (m < nh) by (destruct o2; [done|apply Hpost2..]). bool_lia.
  - destruct Hpost as [Hm (k & Hk)]. apply Htail; cbn; try done; [by eauto|lia..].
Qed.
End path.

(** Two bottleneck paths: one whose router advertises 1400, one that drops
    oversized packets silently and loses every other packet. *)
Lemma DiscoverPathMTU_exact_witness :
  wp (@DiscoverPathMTU (path 1400 (λ _, false) (λ _ _, Some 1400)) "a" 1500) (λ '(r, h),
    pm_PathMTU r = 1400 ∧ pm_Status r = PMTUDStatusOK) ∧
  wp (@DiscoverPathMTU (path 1400 Nat.even (λ _ _, None)) "a" 9000) (λ '(r, h),
    pm_PathMTU r = 1400 ∧ pm_Status r = PMTUDStatusICMPFiltered).
Proof.
  split.
  - eapply wp_mono; [apply (DiscoverPathMTU_exact 1400 (λ _, false) (λ _ _, Some 1400)); [done| |done]|].
    + intros k size nh [= <-]. by left.
    + intros [r h]. cbn. intros (-> & _ & Hr & _). split; [done|]. apply Hr; [done|eauto].
  - eapply wp_mono; [apply (DiscoverPathMTU_exact 1400 Nat.even (λ _ _, None)); [| |done]|].
    + intros k Hk1 Hk2. rewrite Nat.even_succ, <-Nat.negb_even, Hk1 in Hk2. done.
    + intros k size nh. done.
    + intros [r h]. cbn. intros (-> & _ & _ & Hr). split; [done|]. by apply Hr.
Defined.

(** The same path under a context cancelled after [n] packets. *)
Definition cancelling (n : nat) : Network := {|
  net_probe h size := if size <=? 1400 then Answer ProbeArrived 0 else Answer ProbeTooBig 0;
  net_cancelled h := bool_decide (stopped h) || bool_decide (n ≤ sent h)%nat;
|}.

Lemma DiscoverPathMTU_sound_witness :
  wp (@DiscoverPathMTU (cancelling 4) "a" 1500) (λ '(r, h),
    pm_Probes r = 4 ∧ pm_Status r = PMTUDStatusIncomplete ∧ reported 1500 r h).
Proof.
  pose proof (@DiscoverPathMTU_sound (cancelling 4)) as HS.
  assert (∀ h, stopped h → @net_cancelled (cancelling 4) h = true) as Hperm.
  { intros h Hh. cbn. by rewrite (bool_decide_eq_true_2 _ Hh). }
  specialize (HS Hperm "a"%string 1500).
  destruct (DiscoverPathMTU "a" 1500) as [[r h]|] eqn:E; [|done].
  destruct HS as (_ & _ & _ & _ & Hr). assert (reported 1500 r h) by (apply Hr; vm_compute; congruence).
  split; [|split; [|done]]; revert E; vm_compute; by intros [= <- <-].
Defined.

(** The payload of a probe fills the packet it measures. *)
Lemma PayloadForMTU_fills mtu :
  pmtudHeaderOverhead ≤ mtu → PayloadForMTU mtu + pmtudHeaderOverhead = mtu.
Proof. unfold PayloadForMTU, pmtudHeaderOverhead. intros. destruct (Z.leb_spec mtu 28); lia. Qed.

(** A reply always has a class; only fragmentation-needed carries an
    advertised MTU, a 16-bit value. *)
Lemma classifyProbeReply_spec body code raw :
  bytes_ok raw →
  wp (classifyProbeReply body code raw) (λ '(o, nh), 0 ≤ nh < 2 ^ 16 ∧
    (o = ProbeArrived ↔ body = BodyEcho) ∧
    (o = ProbeTooBig ↔ body = BodyDstUnreach ∧ code = codeFragmentationNeeded) ∧
    (o ≠ ProbeTooBig → nh = 0)).
Proof.
  intros Hb. destruct body; cbn; [|destruct (Z.eqb_spec code codeFragmentationNeeded)|]; cbn;
    [intuition (congruence || lia)| |intuition (congruence || lia)..].
  apply wp_bind. assert (wp (advertisedNextHopMTU raw) (λ n, 0 ≤ n < 2 ^ 16)) as HA.
  { unfold advertisedNextHopMTU. destruct (Z.ltb_spec (len raw) 8); cbn; [lia|]. wp_go. byte_facts. done. }
  apply (wp_mono _ _ _ HA). intros n Hn. cbn. intuition (congruence || lia).
Qed.
