(* ===== verification/SweepPlan.v ===== *)
(** * The sweep rotation of wide networks

    Models [src/internal/discovery/enumerate/sweepplan.go] and what
    [arp.go] and [arpscan.go] do with it: the plan of one sweep of a network
    wider than a /24, its budget, the rotation it leaves behind, the scanner
    that keeps one rotation per network, and [incrementIP]. Addresses and
    prefixes are those of [net/netip], IPv4 prefixes only, since
    [ipv4Prefix] admits no other. *)
From Stdlib Require Import ZArith Lia.
From stdpp Require Import base gmap sets list strings sorting.
From S2P Require Import Prelude GoBase.

(** ** Constants *)
Definition cidrMask24 : Z := 24.
Definition hostsPerSubnet24 : Z := 254.
Definition roundUpAdjust : Z := 253.
Definition probeHostsPerBlock : Z := 4.
Definition DefaultMaxHostsPerSubnet : Z := 254.
Definition byteMask : Z := 255.
Definition byteShift8 : Z := 8.
Definition byteShift16 : Z := 16.
Definition byteShift24 : Z := 24.

(** ** [net/netip], the IPv4 half *)

Definition addr_bytes (a : Addr) : bytes :=
  match a with Addr4 b => b | _ => [] end.

Definition addr_num (a : Addr) : Z :=
  match addr_bytes a with
  | [b0; b1; b2; b3] => b0 * 2 ^ 24 + b1 * 2 ^ 16 + b2 * 2 ^ 8 + b3
  | _ => 0
  end.

Definition num_addr (x : Z) : Addr :=
  Addr4 [x / 2 ^ 24 mod 256; x / 2 ^ 16 mod 256; x / 2 ^ 8 mod 256; x mod 256].

(** [Addr.Next]: the zero address after the last one. *)
Definition addr_next (a : Addr) : Addr :=
  if addr_num a =? 2 ^ 32 - 1 then AddrInvalid else num_addr (addr_num a + 1).

Record Prefix : Type := PrefixFrom { pf_addr : Addr; pf_bits : Z }.

#[export] Instance Prefix_eq_dec : EqDecision Prefix.
Proof. solve_decision. Defined.
#[export] Instance Prefix_countable : Countable Prefix.
Proof. by refine (inj_countable' (λ p, (pf_addr p, pf_bits p)) (λ '(a, b), PrefixFrom a b) _); intros []. Defined.

(** The network of an address: its low [32 - bits] bits cleared. *)
Definition mask_num (bits x : Z) : Z := x / 2 ^ (32 - bits) * 2 ^ (32 - bits).

(** [Addr.Prefix] and [Prefix.Masked] of IPv4. *)
Definition addr_prefix (a : Addr) (bits : Z) : Prefix :=
  PrefixFrom (num_addr (mask_num bits (addr_num a))) bits.
Definition prefix_masked (p : Prefix) : Prefix := addr_prefix (pf_addr p) (pf_bits p).

(** [Prefix.Contains]: an IPv4 prefix holds no IPv6 address, mapped or not. *)
Definition prefix_contains (p : Prefix) (a : Addr) : bool :=
  match a with
  | Addr4 _ => mask_num (pf_bits p) (addr_num (pf_addr p)) =? mask_num (pf_bits p) (addr_num a)
  | _ => false
  end.

(** ** Plans *)
Record rotation : Type := MkRotation {
  ro_round : Z;
  ro_swept : gmap Prefix Z;
  ro_probeNext : Z;
}.

Definition rotation_zero : rotation := MkRotation 0 ∅ 0.

Record sweepPlan : Type := MkPlan {
  pl_blocks : list Prefix;
  pl_probe : bool;
}.

Record SweepCoverage : Type := MkCoverage {
  sw_Subnet : Prefix;
  sw_Swept : Z;
  sw_Total : Z;
}.

(** [1 << (cidrMask24 - target.Bits())]. *)
Definition block_count (target : Prefix) : Z := Z.shiftl 1 (cidrMask24 - pf_bits target).

(** The address loop of [hosts] for one block. *)
Fixpoint next_hosts (n : nat) (a : Addr) : list Addr :=
  match n with
  | O => []
  | S n' => let a := addr_next a in a :: next_hosts n' a
  end.

Definition hosts (p : sweepPlan) : list Addr :=
  let per := if pl_probe p then probeHostsPerBlock else hostsPerSubnet24 in
  concat (map (λ block, next_hosts (Z.to_nat per) (pf_addr block)) (pl_blocks p)).

Definition coverage (p : sweepPlan) (target : Prefix) : SweepCoverage :=
  MkCoverage target (len (hosts p)) (block_count target * hostsPerSubnet24).

(** One block of [blockRange]. *)
Definition block_at (start : Z) (i : Z) : Prefix :=
  let value := start + Z.shiftl i byteShift8 in
  PrefixFrom (Addr4 [Z.land (Z.shiftr value byteShift24) byteMask;
                     Z.land (Z.shiftr value byteShift16) byteMask;
                     Z.land (Z.shiftr value byteShift8) byteMask; 0]) cidrMask24.

Definition blockRange (target : Prefix) (first count total : Z) : list Prefix :=
  match addr_bytes (pf_addr (prefix_masked target)) with
  | b0 :: b1 :: b2 :: _ =>
      let start := Z.lor (Z.lor (Z.shiftl b0 byteShift24) (Z.shiftl b1 byteShift16))
                         (Z.shiftl b2 byteShift8) in
      map (λ i, block_at start ((first + Z.of_nat i) mod total)) (seq 0 (Z.to_nat count))
  | _ => []
  end.

(** The evidence count of [planSweep]. *)
Definition count_evidence (target : Prefix) (evidence : list Addr) : gmap Prefix Z :=
  foldl (λ seen addr,
    if prefix_contains target addr then
      let block := addr_prefix addr cidrMask24 in
      <[block := default 0 (seen !! block) + 1]> seen
    else seen) ∅ evidence.

(** [cmp.Compare] of integers, [cmp.Or] and the comparison of [planSweep]. *)
Definition cmp_compare (x y : Z) : Z := if x <? y then -1 else if y <? x then 1 else 0.
Definition cmp_or (x y : Z) : Z := if x =? 0 then y else x.

Definition plan_cmp (swept seen : gmap Prefix Z) (a b : Prefix) : Z :=
  cmp_or (cmp_compare (default 0 (swept !! a)) (default 0 (swept !! b)))
    (cmp_or (cmp_compare (default 0 (seen !! b)) (default 0 (seen !! a)))
       (cmp_compare (addr_num (pf_addr a)) (addr_num (pf_addr b)))).

Definition plan_le (swept seen : gmap Prefix Z) (a b : Prefix) : Prop := plan_cmp swept seen a b ≤ 0.
#[export] Instance plan_le_dec swept seen : RelDecision (plan_le swept seen) :=
  λ a b, decide (plan_cmp swept seen a b ≤ 0).

(** How many /24s a budget sweeps whole. *)
Definition whole_blocks (maxHosts : Z) : Z := Z.max 1 (Z.quot (maxHosts + roundUpAdjust) hostsPerSubnet24).

Section plan.
Context `{!RangeOrder Prefix}.

Definition planSweep (r : rotation) (target : Prefix) (evidence : list Addr) (maxHosts : Z)
    : sweepPlan :=
  let blocks := block_count target in
  let wholeBlocks := whole_blocks maxHosts in
  if blocks <=? wholeBlocks then MkPlan (blockRange target 0 blocks blocks) false
  else
    let seen := count_evidence target evidence in
    if decide (seen = ∅) then
      let count := Z.min blocks (Z.max 1 (Z.quot maxHosts probeHostsPerBlock)) in
      MkPlan (blockRange target (ro_probeNext r) count blocks) true
    else
      let evidenced := merge_sort (plan_le (ro_swept r) seen) (map fst (range seen)) in
      MkPlan (take (Z.to_nat (Z.min (len evidenced) wholeBlocks)) evidenced) false.

(** [commit]: [round] is a [uint64]. *)
Definition commit (r : rotation) (target : Prefix) (plan : sweepPlan) : rotation :=
  if pl_probe plan then
    let blocks := block_count target in
    MkRotation (ro_round r) (ro_swept r) ((ro_probeNext r + len (pl_blocks plan)) mod blocks)
  else
    let round := wrap 64 (ro_round r + 1) in
    MkRotation round (foldl (λ m block, <[block := round]> m) (ro_swept r) (pl_blocks plan))
      (ro_probeNext r).

(** ** The scanner *)
Record ARPScanner : Type := MkScanner {
  as_localIP : option Addr;
  as_subnet : option Prefix;
  as_targetNetworks : list (option Prefix);
  as_evidence : list Addr;
  as_rotations : gmap Prefix rotation;
  as_maxHostsPerSubnet : Z;
}.

Definition set_rotations (s : ARPScanner) (m : gmap Prefix rotation) : ARPScanner :=
  MkScanner (as_localIP s) (as_subnet s) (as_targetNetworks s) (as_evidence s) m (as_maxHostsPerSubnet s).

Definition SetMaxHostsPerSubnet (s : ARPScanner) (maxHosts : Z) : ARPScanner :=
  MkScanner (as_localIP s) (as_subnet s) (as_targetNetworks s) (as_evidence s) (as_rotations s)
    (if maxHosts <=? 0 then DefaultMaxHostsPerSubnet else maxHosts).

Definition GetMaxHostsPerSubnet (s : ARPScanner) : Z :=
  if as_maxHostsPerSubnet s <=? 0 then DefaultMaxHostsPerSubnet else as_maxHostsPerSubnet s.

Definition SetSweepEvidence (s : ARPScanner) (addrs : list Addr) : ARPScanner :=
  MkScanner (as_localIP s) (as_subnet s) (as_targetNetworks s) addrs (as_rotations s) (as_maxHostsPerSubnet s).

(** A configured network as [net.ParseCIDR] and [ipv4Prefix] read it: an
    error, a network that is not IPv4, or an IPv4 prefix. *)
Inductive cidr : Type :=
| CidrError
| CidrOther
| CidrIPv4 (p : Prefix).

#[export] Instance cidr_eq_dec : EqDecision cidr.
Proof. solve_decision. Defined.

(** The rotation of a prefix, carried over when there is one. *)
Definition keep (rotations kept : gmap Prefix rotation) (p : Prefix) : gmap Prefix rotation :=
  match rotations !! p with Some r => <[p := r]> kept | None => kept end.

(** The loop of [SetTargetNetworks]: it stops at the first bad CIDR. *)
Fixpoint keep_targets (rotations : gmap Prefix rotation) (cidrs : list cidr)
    (targets : list (option Prefix)) (kept : gmap Prefix rotation)
    : list (option Prefix) * gmap Prefix rotation * bool :=
  match cidrs with
  | [] => (targets, kept, true)
  | CidrError :: _ => (targets, kept, false)
  | CidrOther :: rest => keep_targets rotations rest (targets ++ [None]) kept
  | CidrIPv4 p :: rest => keep_targets rotations rest (targets ++ [Some p]) (keep rotations kept p)
  end.

Definition SetTargetNetworks (s : ARPScanner) (cidrs : list cidr) : ARPScanner * bool :=
  let '(targets, kept, ok) := keep_targets (as_rotations s) cidrs [] ∅ in
  let s := MkScanner (as_localIP s) (as_subnet s) targets (as_evidence s) (as_rotations s) (as_maxHostsPerSubnet s) in
  if ok : bool then
    let kept := match as_subnet s with Some p => keep (as_rotations s) kept p | None => kept end in
    (set_rotations s kept, true)
  else (s, false).

(** [pingSweep] of a target wider than a /24; [ok] is whether [pingHosts]
    could open its socket. *)
Definition pingSweep (s : ARPScanner) (target : Prefix) (ok : bool)
    : ARPScanner * sweepPlan * SweepCoverage :=
  let evidence := as_evidence s ++ (match as_localIP s with Some a => [a] | None => [] end) in
  let turn := default rotation_zero (as_rotations s !! target) in
  let s := set_rotations s (<[target := turn]> (as_rotations s)) in
  let plan := planSweep turn target evidence (GetMaxHostsPerSubnet s) in
  let cov := coverage plan target in
  if ok then (set_rotations s (<[target := commit turn target plan]> (as_rotations s)), plan, cov)
  else (s, plan, MkCoverage (sw_Subnet cov) 0 (sw_Total cov)).
End plan.

(** ** [incrementIP] *)

(** The carry loop, from the last byte to the first; bytes come last first. *)
Fixpoint add_carry (rev_ip : bytes) (carry : Z) : bytes :=
  match rev_ip with
  | [] => []
  | b :: rest =>
      if 0 <? carry then
        let sum := b + Z.land carry byteMask in
        Z.land sum byteMask :: add_carry rest (Z.shiftr carry byteShift8 + Z.shiftr sum byteShift8)
      else b :: rest
  end.

Definition incrementIP (ip : Addr) (n : Z) : option Addr :=
  match ip with
  | Addr4 b => if (n <? 0) || (16777215 <? n) then None else Some (Addr4 (rev (add_carry (rev b) n)))
  | _ => None
  end.

(** ** Addresses as numbers *)

(** Shifts and masks of the code as arithmetic. *)
Lemma lor_shiftl_add x y k : 0 ≤ k → 0 ≤ y < 2 ^ k → Z.lor (Z.shiftl x k) y = x * 2 ^ k + y.
Proof.
  intros Hk Hy. assert (Z.land (Z.shiftl x k) y = 0) as E.
  { apply Z.bits_inj'. intros n Hn. rewrite Z.land_spec, Z.bits_0.
    destruct (Z.lt_ge_cases n k); [by rewrite Z.shiftl_spec_low|].
    rewrite <-(Z.mod_small y (2 ^ k)), Z.mod_pow2_bits_high by lia. apply andb_false_r. }
  rewrite <-Z.lxor_lor, <-Z.add_nocarry_lxor by done. by rewrite Z.shiftl_mul_pow2.
Qed.

Lemma land_byteMask x : Z.land x byteMask = x mod 256.
Proof. unfold byteMask. change 255 with (Z.ones 8). by rewrite Z.land_ones. Qed.

Definition u32 (x : Z) : Prop := 0 ≤ x < 2 ^ 32.

Lemma addr_num_num_addr x : u32 x → addr_num (num_addr x) = x.
Proof.
  intros Hx. unfold u32 in Hx. unfold addr_num, num_addr. cbn [addr_bytes].
  pose proof (Z.div_mod x 256). pose proof (Z.div_mod (x / 256) 256). pose proof (Z.div_mod (x / 256 / 256) 256).
  rewrite (Z.mod_small (x / 2 ^ 24)) by (split; [apply Z.div_pos; lia|apply Z.div_lt_upper_bound; lia]).
  replace (x / 2 ^ 24) with (x / 256 / 256 / 256) by (rewrite !Z.div_div by lia; done).
  replace (x / 2 ^ 16) with (x / 256 / 256) by (rewrite !Z.div_div by lia; done).
  change (2 ^ 8) with 256. lia.
Qed.

Lemma num_addr_inj x y : u32 x → u32 y → num_addr x = num_addr y → x = y.
Proof. intros Hx Hy E. by rewrite <-(addr_num_num_addr x), E, addr_num_num_addr. Qed.

Lemma addr_next_num x : 0 ≤ x < 2 ^ 32 - 1 → addr_next (num_addr x) = num_addr (x + 1).
Proof.
  intros. unfold addr_next. rewrite addr_num_num_addr by (unfold u32; lia).
  by rewrite (proj2 (Z.eqb_neq x (2 ^ 32 - 1))) by lia.
Qed.

Lemma next_hosts_num n x :
  0 ≤ x → x + Z.of_nat n < 2 ^ 32 →
  next_hosts n (num_addr x) = map (λ i, num_addr (x + Z.of_nat i)) (seq 1 n).
Proof.
  revert x. induction n as [|n IH]; intros x Hx Hn; [done|]. cbn [next_hosts seq map].
  rewrite addr_next_num by lia. f_equal. rewrite IH by lia. rewrite <-(seq_shift n 1), map_map.
  apply map_ext. intros i. f_equal. lia.
Qed.

Lemma block_at_eq base j :
  base mod 256 = 0 → block_at base j = PrefixFrom (num_addr (base + 256 * j)) cidrMask24.
Proof.
  intros Hb. unfold block_at, num_addr, byteShift8, byteShift16, byteShift24.
  rewrite !land_byteMask, !Z.shiftr_div_pow2, Z.shiftl_mul_pow2 by lia. change (2 ^ 8) with 256.
  replace (base + j * 256) with (base + 256 * j) by lia.
  assert ((base + 256 * j) mod 256 = 0) as ->; [|done].
  replace (256 * j) with (j * 256) by lia. by rewrite Z.mod_add.
Qed.

(** The three high bytes, put together again. *)
Lemma start_eq x :
  u32 x → x mod 256 = 0 →
  Z.lor (Z.lor (Z.shiftl (x / 2 ^ 24 mod 256) byteShift24) (Z.shiftl (x / 2 ^ 16 mod 256) byteShift16))
    (Z.shiftl (x / 2 ^ 8 mod 256) byteShift8) = x.
Proof.
  intros Hx H0. pose proof (addr_num_num_addr x Hx) as E. unfold addr_num, num_addr in E. cbn [addr_bytes] in E.
  set (b0 := x / 2 ^ 24 mod 256) in *. set (b1 := x / 2 ^ 16 mod 256) in *. set (b2 := x / 2 ^ 8 mod 256) in *.
  assert (∀ z, 0 ≤ z mod 256 < 256) as Hmod by (intros; by apply Z.mod_pos_bound).
  assert (0 ≤ b1 < 256 ∧ 0 ≤ b2 < 256) as [H1 H2] by (split; apply Hmod).
  unfold byteShift8, byteShift16, byteShift24. rewrite <-Z.lor_assoc, (Z.shiftl_mul_pow2 b2) by lia.
  rewrite (lor_shiftl_add b1) by lia. rewrite (lor_shiftl_add b0) by lia. lia.
Qed.

(** ** Wide targets and their /24s *)

(** A network wider than a /24, as [ipv4Prefix] returns one: masked. *)
Record wide (t : Prefix) (base bits : Z) : Prop := MkWide {
  wd_eq : t = PrefixFrom (num_addr base) bits;
  wd_bits : 0 ≤ bits < cidrMask24;
  wd_base : u32 base;
  wd_masked : base mod 2 ^ (32 - bits) = 0;
}.

(** The [i]-th /24 of a network that starts at [base]. *)
Definition block_of (base i : Z) : Prefix := PrefixFrom (num_addr (base + 256 * i)) cidrMask24.

Section wide.
Context (t : Prefix) (base bits : Z) (Hw : wide t base bits).

Lemma wide_blocks : block_count t = 2 ^ (24 - bits) ∧ 1 < block_count t.
Proof using Hw.
  destruct Hw as [-> Hb _ _]. unfold block_count, cidrMask24 in *. cbn.
  rewrite Z.shiftl_1_l. split; [done|]. change 1 with (2 ^ 0) at 1. apply Z.pow_lt_mono_r; lia.
Qed.

Lemma wide_size : 2 ^ (32 - bits) = 256 * block_count t.
Proof using Hw.
  destruct wide_blocks as [-> _]. destruct Hw as [_ Hb _ _]. unfold cidrMask24 in Hb.
  replace (32 - bits) with (8 + (24 - bits)) by lia. by rewrite Z.pow_add_r by lia.
Qed.

Lemma wide_top : base + 256 * block_count t ≤ 2 ^ 32 ∧ base mod 256 = 0 ∧ mask_num bits base = base.
Proof using Hw.
  pose proof wide_size as Hs. pose proof wide_blocks as [HB HB1]. destruct Hw as [_ Hb Hu Hm]. unfold cidrMask24, u32 in *.
  rewrite Hs in Hm. pose proof (Z.div_mod base (256 * block_count t) ltac:(lia)) as E. rewrite Hm in E.
  set (q := base / _) in *.
  assert (2 ^ 32 = 256 * block_count t * 2 ^ bits) as E32.
  { rewrite <-Hs, <-Z.pow_add_r by lia. f_equal. lia. }
  split; [|split].
  - assert (q < 2 ^ bits) by nia. nia.
  - replace base with ((block_count t * q) * 256) by lia. apply Z.mod_mul. lia.
  - unfold mask_num. rewrite Hs. fold q. lia.
Qed.

Lemma block_num i : 0 ≤ i < block_count t → u32 (base + 256 * i).
Proof using Hw. pose proof wide_top. destruct Hw as [_ _ Hu _]. unfold u32 in *. lia. Qed.

Lemma block_of_inj i j :
  0 ≤ i < block_count t → 0 ≤ j < block_count t → block_of base i = block_of base j → i = j.
Proof using Hw.
  intros Hi Hj E. apply (f_equal pf_addr) in E. unfold block_of in E. cbn [pf_addr] in E.
  apply num_addr_inj in E; [lia|by apply block_num..].
Qed.

Lemma blockRange_eq first count :
  0 ≤ first → 
  blockRange t first count (block_count t) =
  map (λ i, block_of base ((first + Z.of_nat i) mod block_count t)) (seq 0 (Z.to_nat count)).
Proof using Hw.
  intros Hf. pose proof wide_top as (Htop & Hm & Hmask). pose proof wide_blocks as [_ HB].
  destruct Hw as [Ht Hb Hu _]. unfold u32 in Hu.
  unfold blockRange. rewrite Ht at 1. unfold prefix_masked, addr_prefix. cbn [pf_addr pf_bits].
  rewrite addr_num_num_addr, Hmask by done. cbn [addr_bytes num_addr].
  apply map_ext. intros i.
  rewrite start_eq, block_at_eq by done. done.
Qed.
End wide.

(** ** Evidence and order *)
Section order.
Context (swept seen : gmap Prefix Z).

Lemma plan_le_spec a b :
  plan_le swept seen a b ↔
  default 0 (swept !! a) < default 0 (swept !! b) ∨
  default 0 (swept !! a) = default 0 (swept !! b) ∧
  (default 0 (seen !! b) < default 0 (seen !! a) ∨
   default 0 (seen !! b) = default 0 (seen !! a) ∧ addr_num (pf_addr a) ≤ addr_num (pf_addr b)).
Proof.
  unfold plan_le, plan_cmp, cmp_or, cmp_compare.
  repeat match goal with |- context [?x <? ?y] => destruct (Z.ltb_spec x y) end; cbn; lia.
Qed.

#[export] Instance plan_le_total : Total (plan_le swept seen).
Proof. intros a b. rewrite !plan_le_spec. lia. Qed.

#[export] Instance plan_le_trans : Transitive (plan_le swept seen).
Proof. intros a b c. rewrite !plan_le_spec. lia. Qed.
End order.

(** Elements of a sorted list that are left out come after those taken. *)
Lemma StronglySorted_take_drop {A} (R : relation A) n l x y :
  StronglySorted R l → x ∈ take n l → y ∈ drop n l → R x y.
Proof.
  intros Hs. rewrite <-(take_drop n l) in Hs. revert Hs. generalize (take n l), (drop n l). clear.
  induction l as [|z l1 IH]; intros l2 Hs Hx Hy; [by apply elem_of_nil in Hx|].
  apply StronglySorted_inv in Hs as [Hs Hf]. apply elem_of_cons in Hx as [->|Hx]; [|by eapply IH].
  eapply list.Forall_forall in Hf; [exact Hf|]. apply elem_of_app. by right.
Qed.

Section evidence.
Context (t : Prefix) (base bits : Z) (Hw : wide t base bits).

(** Evidence as [net/netip] forms it: an IPv4 address has four bytes. *)
Definition evidence_ok (ev : list Addr) : Prop :=
  ∀ a b, a ∈ ev → a = Addr4 b → ∃ x, u32 x ∧ a = num_addr x.

Lemma prefix_in_target x :
  u32 x → prefix_contains t (num_addr x) = true →
  ∃ i, 0 ≤ i < block_count t ∧ addr_prefix (num_addr x) cidrMask24 = block_of base i.
Proof using Hw.
  intros Hx Hc. pose proof (wide_size t base bits Hw) as Hs. pose proof (wide_top t base bits Hw) as (_ & Hm & Hmask).
  pose proof (wide_blocks t base bits Hw) as [_ HB].
  destruct Hw as [Ht Hb Hu _]. unfold u32 in *.
  assert (mask_num bits base = mask_num bits x) as E.
  { unfold prefix_contains, num_addr in Hc. rewrite Ht in Hc. cbn [pf_addr pf_bits] in Hc.
    apply Z.eqb_eq in Hc. fold (num_addr base) (num_addr x) in Hc. by rewrite !addr_num_num_addr in Hc. }
  rewrite Hmask in E. unfold mask_num in E. rewrite Hs in E.
  pose proof (Z.div_mod x (256 * block_count t) ltac:(lia)). pose proof (Z.mod_pos_bound x (256 * block_count t) ltac:(lia)).
  pose proof (Z.div_mod (x - base) 256 ltac:(lia)). pose proof (Z.mod_pos_bound (x - base) 256 ltac:(lia)).
  exists ((x - base) / 256). split; [split; [apply Z.div_pos; lia|apply Z.div_lt_upper_bound; lia]|].
  unfold addr_prefix, block_of. rewrite addr_num_num_addr by done. do 2 f_equal.
  unfold mask_num, cidrMask24. change (2 ^ (32 - 24)) with 256.
  pose proof (Z.div_mod x 256 ltac:(lia)). pose proof (Z.div_mod base 256 ltac:(lia)).
  assert (x mod 256 = (x - base) mod 256) as Emod; [|lia].
  rewrite Zminus_mod, Hm, Z.sub_0_r. by rewrite Z.mod_mod.
Qed.

Lemma count_evidence_dom ev p :
  p ∈ dom (count_evidence t ev) ↔
  ∃ a, a ∈ ev ∧ prefix_contains t a = true ∧ p = addr_prefix a cidrMask24.
Proof.
  unfold count_evidence. induction ev as [|a ev IH] using rev_ind.
  { cbn. rewrite dom_empty. split; [set_solver|]. intros (a & Ha & _). by apply elem_of_nil in Ha. }
  rewrite foldl_app. cbn [foldl]. destruct (prefix_contains t a) eqn:E.
  - rewrite dom_insert, elem_of_union, elem_of_singleton, IH. split.
    + intros [->|(a' & Ha & ?)]; [exists a; set_solver|exists a'; set_solver].
    + intros (a' & [Ha|Ha%list_elem_of_singleton]%elem_of_app & ? & ->); [right; eauto|subst; by left].
  - rewrite IH. split.
    + intros (a' & Ha & ?); exists a'; set_solver.
    + intros (a' & [Ha|Ha%list_elem_of_singleton]%elem_of_app & ? & ->); [eauto|congruence].
Qed.

Lemma count_evidence_blocks ev p :
  evidence_ok ev → p ∈ dom (count_evidence t ev) → ∃ i, 0 ≤ i < block_count t ∧ p = block_of base i.
Proof using Hw.
  intros Hev (a & Ha & Hc & ->)%count_evidence_dom. destruct a as [|b|b z]; [done| |done].
  destruct (Hev _ b Ha eq_refl) as (x & Hx & E). rewrite E in *.
  destruct (prefix_in_target x Hx Hc) as (i & Hi & ->). eauto.
Qed.
End evidence.

(** ** One plan *)

Lemma Zmod_cong_inj n first i j :
  0 ≤ i < n → 0 ≤ j < n → (first + i) mod n = (first + j) mod n → i = j.
Proof.
  intros Hi Hj E. pose proof (Z.div_mod (first + i) n ltac:(lia)). pose proof (Z.div_mod (first + j) n ltac:(lia)).
  set (q1 := (first + i) / n) in *. set (q2 := (first + j) / n) in *. rewrite E in *.
  assert (n * (q1 - q2) = i - j) as Eq by lia. assert (q1 - q2 = 0) by nia. nia.
Qed.
Section plan_spec.
Context `{!RangeOrder Prefix} (t : Prefix) (base bits : Z) (Hw : wide t base bits).

Lemma whole_blocks_bounds mh : 1 ≤ whole_blocks mh ∧ whole_blocks mh * 254 ≤ Z.max 254 (mh + 253).
Proof.
  unfold whole_blocks, roundUpAdjust, hostsPerSubnet24. split; [lia|].
  destruct (Z.le_gt_cases 0 (mh + 253)).
  - rewrite Z.quot_div_nonneg by lia. pose proof (Z.mul_div_le (mh + 253) 254). lia.
  - replace (mh + 253) with (- - (mh + 253)) at 1 by lia.
    rewrite Z.quot_opp_l, Z.quot_div_nonneg by lia. pose proof (Z.div_pos (- (mh + 253)) 254). lia.
Qed.

(** The /24s of a plan that names them by index. *)
Lemma rotated_blocks_ok first n :
  0 ≤ first → Z.of_nat n ≤ block_count t →
  let l := map (λ i, block_of base ((first + Z.of_nat i) mod block_count t)) (seq 0 n) in
  NoDup l ∧ ∀ p, p ∈ l → ∃ i, 0 ≤ i < block_count t ∧ p = block_of base i.
Proof using Hw.
  intros Hf Hn l. pose proof (wide_blocks t base bits Hw) as [_ HB]. split.
  - apply NoDup_fmap_2_strong; [|apply NoDup_seq].
    intros i j Hi%elem_of_seq Hj%elem_of_seq E.
    apply (block_of_inj t base bits Hw) in E; [|by apply Z.mod_pos_bound; lia..].
    apply Zmod_cong_inj in E; lia.
  - intros p (i & -> & _)%list_elem_of_fmap. eexists. split; [|done]. apply Z.mod_pos_bound. lia.
Qed.

Definition sorted_evidence (r : rotation) (ev : list Addr) : list Prefix :=
  let seen := count_evidence t ev in
  merge_sort (plan_le (ro_swept r) seen) (map fst (range seen)).

Lemma sorted_evidence_elem r ev p : p ∈ sorted_evidence r ev ↔ p ∈ dom (count_evidence t ev).
Proof.
  unfold sorted_evidence. rewrite merge_sort_Permutation, elem_of_dom. change (map fst) with (fmap (M:=list) (@fst Prefix Z)).
  rewrite list_elem_of_fmap. split.
  - intros ([q v] & -> & Hq%elem_of_range). eauto.
  - intros [v Hv]. exists (p, v). split; [done|]. by apply elem_of_range.
Qed.

Lemma sorted_evidence_NoDup r ev : NoDup (sorted_evidence r ev).
Proof.
  unfold sorted_evidence. rewrite merge_sort_Permutation. change (map fst) with (fmap (M:=list) (@fst Prefix Z)).
  rewrite range_perm. apply NoDup_fst_map_to_list.
Qed.

Lemma planSweep_evidenced r ev mh :
  whole_blocks mh < block_count t → count_evidence t ev ≠ ∅ →
  planSweep r t ev mh = MkPlan (take (Z.to_nat (whole_blocks mh)) (sorted_evidence r ev)) false.
Proof.
  intros Hwb Hev. unfold planSweep. rewrite (proj2 (Z.leb_gt _ _) Hwb). destruct (decide _); [done|].
  fold (sorted_evidence r ev). f_equal. pose proof (whole_blocks_bounds mh).
  destruct (Z.le_gt_cases (len (sorted_evidence r ev)) (whole_blocks mh)) as [Hle|Hgt].
  - rewrite Z.min_l by done. rewrite !take_ge; [done|unfold len in *; lia..].
  - by rewrite Z.min_r by lia.
Qed.
End plan_spec.

Lemma length_concat_const {A B} (f : A → list B) n l :
  (∀ x, x ∈ l → length (f x) = n) → length (concat (map f l)) = (length l * n)%nat.
Proof.
  induction l as [|x l IH]; intros Hf; [done|]. cbn. rewrite length_app, Hf, IH by (try left; intros; apply Hf; by right).
  lia.
Qed.

Section plan_ok.
Context `{!RangeOrder Prefix} (t : Prefix) (base bits : Z) (Hw : wide t base bits).

(** Every plan names distinct /24s of its target, within its budget. *)
Lemma planSweep_blocks r ev mh :
  0 ≤ ro_probeNext r → evidence_ok ev →
  let p := planSweep r t ev mh in
  NoDup (pl_blocks p) ∧ (∀ b, b ∈ pl_blocks p → ∃ i, 0 ≤ i < block_count t ∧ b = block_of base i) ∧
  len (pl_blocks p) ≤ (if pl_probe p then Z.max 1 (Z.quot mh 4) else whole_blocks mh) ∧
  len (pl_blocks p) ≤ block_count t.
Proof using Hw.
  intros Hr Hev. pose proof (wide_blocks t base bits Hw) as [_ HB]. pose proof (whole_blocks_bounds mh) as [Hwb _].
  cbv zeta. destruct (Z.le_gt_cases (block_count t) (whole_blocks mh)) as [Hle|Hgt].
  - unfold planSweep. rewrite (proj2 (Z.leb_le _ _) Hle). cbn [pl_blocks pl_probe]. rewrite (blockRange_eq t base bits) by (done || lia).
    destruct (rotated_blocks_ok t base bits Hw 0 (Z.to_nat (block_count t))) as [? ?]; [lia..|].
    split; [done|]. split; [done|]. unfold len. rewrite length_map, length_seq. lia.
  - destruct (decide (count_evidence t ev = ∅)) as [He|He].
    + unfold planSweep. rewrite (proj2 (Z.leb_gt _ _) Hgt). destruct (decide _); [|done]. cbn [pl_blocks pl_probe].
      rewrite (blockRange_eq t base bits) by done. unfold probeHostsPerBlock.
      edestruct (rotated_blocks_ok t base bits Hw (ro_probeNext r)) as [H1 H2]; [lia| |].
      2: { split; [exact H1|]. split; [exact H2|]. unfold len. rewrite length_map, length_seq. lia. }
      lia.
    + rewrite (planSweep_evidenced t) by done. cbn [pl_blocks pl_probe].
      split; [apply (sublist_NoDup _ (sorted_evidence t r ev)); [apply sorted_evidence_NoDup|apply sublist_take]|].
      split; [|unfold len; rewrite length_take; lia].
      intros b Hb. apply elem_of_take in Hb as (k & Hb%list_elem_of_lookup_2 & _). apply sorted_evidence_elem in Hb. by eapply count_evidence_blocks.
Qed.

(** The hosts of the [i]-th /24: the first [n] addresses after its network
    address. *)
Definition usable (n i : Z) (a : Addr) : Prop :=
  ∃ k, 1 ≤ k ≤ n ∧ a = num_addr (base + 256 * i + k).

Lemma next_hosts_block n i :
  0 ≤ n ≤ 255 → 0 ≤ i < block_count t →
  NoDup (next_hosts (Z.to_nat n) (pf_addr (block_of base i))) ∧
  (∀ a, a ∈ next_hosts (Z.to_nat n) (pf_addr (block_of base i)) ↔ usable n i a) ∧
  length (next_hosts (Z.to_nat n) (pf_addr (block_of base i))) = Z.to_nat n.
Proof using Hw.
  intros Hn Hi. pose proof (wide_top t base bits Hw) as (Htop & _). pose proof (block_num t base bits Hw i Hi) as Hu.
  unfold u32 in Hu. unfold block_of. cbn [pf_addr]. rewrite next_hosts_num by lia. split; [|split].
  - apply NoDup_fmap_2_strong; [|apply NoDup_seq]. intros j k Hj%elem_of_seq Hk%elem_of_seq E.
    apply num_addr_inj in E; unfold u32; lia.
  - intros a. change (@map nat Addr) with (@fmap list _ nat Addr). rewrite list_elem_of_fmap. unfold usable. split.
    + intros (j & -> & Hj%elem_of_seq). exists (Z.of_nat j). split; [lia|done].
    + intros (k & Hk & ->). exists (Z.to_nat k). rewrite Z2Nat.id by lia. split; [done|]. apply elem_of_seq. lia.
  - by rewrite length_map, length_seq.
Qed.

Lemma NoDup_concat_map {A B} (f : A → list B) l :
  NoDup l → (∀ x, x ∈ l → NoDup (f x)) → (∀ x y z, x ∈ l → y ∈ l → z ∈ f x → z ∈ f y → x = y) →
  NoDup (concat (map f l)).
Proof.
  induction 1 as [|x l Hx _ IH]; intros Hf Hd; cbn; [constructor|].
  apply NoDup_app. split; [apply Hf; left|]. split.
  - intros z Hz Hz2. apply list_elem_of_In, in_concat in Hz2 as (m & Hm & Hz2).
    apply in_map_iff in Hm as (y & <- & Hy). apply list_elem_of_In in Hy, Hz2.
    apply Hx. rewrite (Hd x y z); [done|left|by right|done|done].
  - apply IH; intros; [apply Hf|eapply Hd; [..|done|done]]; by right.
Qed.
End plan_ok.

(** ** What one sweep probes *)
Section sweep.
Context `{!RangeOrder Prefix} (t : Prefix) (base bits : Z) (Hw : wide t base bits).

(** A sweep asks distinct usable addresses of the target, never a network or
    broadcast address of a /24, and no more than its budget rounded up to
    whole /24s (or to one /24's first hosts); its coverage counts them and
    never exceeds the total. When every /24 fits the budget it asks every
    usable address. *)
Theorem planSweep_spec r ev mh :
  0 ≤ ro_probeNext r → evidence_ok ev →
  let p := planSweep r t ev mh in
  NoDup (hosts p) ∧
  (∀ a, a ∈ hosts p → prefix_contains t a = true ∧
     ∃ i, 0 ≤ i < block_count t ∧ block_of base i ∈ pl_blocks p ∧
       usable base (if pl_probe p then 4 else 254) i a) ∧
  len (hosts p) ≤ (if pl_probe p then Z.max 4 mh else Z.max 254 (mh + 253)) ∧
  sw_Swept (coverage p t) = len (hosts p) ∧ sw_Swept (coverage p t) ≤ sw_Total (coverage p t) ∧
  (block_count t ≤ whole_blocks mh →
     ∀ i a, 0 ≤ i < block_count t → usable base 254 i a → a ∈ hosts p).
Proof using Hw.
  intros Hr Hev p. destruct (planSweep_blocks t base bits Hw r ev mh Hr Hev) as (Hnd & Hin & Hlen & Hlen2).
  fold p in Hnd, Hin, Hlen, Hlen2. set (n := if pl_probe p then 4 else 254).
  assert (0 ≤ n ≤ 255) as Hn by (unfold n; destruct (pl_probe p); lia).
  assert (hosts p = concat (map (λ b, next_hosts (Z.to_nat n) (pf_addr b)) (pl_blocks p))) as Hh
    by (unfold hosts, n; by destruct (pl_probe p)).
  assert (length (hosts p) = (length (pl_blocks p) * Z.to_nat n)%nat) as Hl.
  { rewrite Hh. apply length_concat_const. intros b (i & Hi & ->)%Hin.
    by apply (next_hosts_block t base bits Hw). }
  assert (∀ a, a ∈ hosts p ↔ ∃ i, 0 ≤ i < block_count t ∧ block_of base i ∈ pl_blocks p ∧ usable base n i a) as Hel.
  { intros a. rewrite Hh. split.
    - intros (m & Hm & Ha)%list_elem_of_In%in_concat. apply in_map_iff in Hm as (b & <- & Hb).
      apply list_elem_of_In in Hb, Ha. destruct (Hin b Hb) as (i & Hi & ->). exists i.
      split; [done|]. split; [done|]. by apply (next_hosts_block t base bits Hw).
    - intros (i & Hi & Hb & Ha). apply list_elem_of_In, in_concat. eexists. split.
      + apply in_map, list_elem_of_In, Hb.
      + apply list_elem_of_In. by apply (next_hosts_block t base bits Hw). }
  pose proof (wide_top t base bits Hw) as (Htop & Hm & Hmask). pose proof (wide_size t base bits Hw) as Hsz.
  pose proof (wide_blocks t base bits Hw) as [_ HB].
  split; [|split; [|split; [|split; [done|split]]]].
  - rewrite Hh. apply NoDup_concat_map; [done| |].
    + intros b (i & Hi & ->)%Hin. by apply (next_hosts_block t base bits Hw).
    + intros b1 b2 a (i & Hi & ->)%Hin (j & Hj & ->)%Hin Ha1 Ha2.
      apply (next_hosts_block t base bits Hw) in Ha1 as (k1 & Hk1 & ->); [|done..].
      apply (next_hosts_block t base bits Hw) in Ha2 as (k2 & Hk2 & E); [|done..].
      pose proof (wd_base _ _ _ Hw) as Hu. unfold u32 in *.
      apply num_addr_inj in E; [|unfold u32; lia..]. by replace j with i by lia.
  - intros a (i & Hi & Hb & Ha)%Hel. split; [|by exists i]. destruct Ha as (k & Hk & ->).
    pose proof (wd_base _ _ _ Hw) as Hu. unfold u32 in *.
    unfold prefix_contains, num_addr at 1. fold (num_addr (base + 256 * i + k)). rewrite (wd_eq _ _ _ Hw). cbn [pf_addr pf_bits].
    rewrite !addr_num_num_addr by (unfold u32; lia). apply Z.eqb_eq. rewrite Hmask. unfold mask_num in *. rewrite Hsz in *.
    replace (base + 256 * i + k) with ((256 * i + k) + base / (256 * block_count t) * (256 * block_count t)) by lia.
    rewrite Z.div_add, (Z.div_small (256 * i + k)) by lia. lia.
  - unfold len at 1. rewrite Hl. pose proof (whole_blocks_bounds mh). unfold n, len in *. destruct (pl_probe p); [|lia].
    assert (Z.quot mh 4 * 4 ≤ Z.max 0 mh); [|lia]. destruct (Z.le_gt_cases 0 mh).
    + rewrite Z.quot_div_nonneg by lia. pose proof (Z.mul_div_le mh 4). lia.
    + replace mh with (- - mh) at 1 by lia. rewrite Z.quot_opp_l, Z.quot_div_nonneg by lia.
      pose proof (Z.div_pos (- mh) 4). lia.
  - unfold coverage, len at 1. cbn [sw_Swept sw_Total]. rewrite Hl. unfold hostsPerSubnet24, n, len in *.
    destruct (pl_probe p); lia.
  - intros Hle i a Hi Ha. unfold n in Hel.
    assert (p = MkPlan (blockRange t 0 (block_count t) (block_count t)) false) as Ep
      by (unfold p, planSweep; by rewrite (proj2 (Z.leb_le _ _) Hle)).
    apply Hel. exists i. rewrite Ep. cbn [pl_probe pl_blocks]. split; [done|]. split; [|done].
    rewrite (blockRange_eq t base bits) by (done || lia). change (@map nat Prefix) with (@fmap list _ nat Prefix).
    apply list_elem_of_fmap. exists (Z.to_nat i). rewrite Z2Nat.id, Z.mod_small by lia.
    split; [done|]. apply elem_of_seq. lia.
Qed.
End sweep.

(** ** The rotation *)
Section rotate.
Context `{!RangeOrder Prefix} (t : Prefix) (base bits : Z) (Hw : wide t base bits) (mh : Z).

(** Sweeps of one target: the evidence each was planned on, and whether it
    could open its socket. Only a sweep that could is recorded. *)
Definition sweep_step (r : rotation) (e : list Addr * bool) : rotation :=
  if e.2 then commit r t (planSweep r t e.1 mh) else r.

(** The plans that were swept. *)
Fixpoint swept_plans (r : rotation) (es : list (list Addr * bool)) : list sweepPlan :=
  match es with
  | [] => []
  | e :: es' => (if e.2 then [planSweep r t e.1 mh] else []) ++ swept_plans (sweep_step r e) es'
  end.

Definition swept_count (es : list (list Addr * bool)) : nat := length (filter (λ e, e.2 = true) es).

(** A rotation's rounds: nothing was swept after the last one. *)
Record rotation_ok (r : rotation) : Prop := MkRotationOk {
  rk_round : 0 ≤ ro_round r;
  rk_swept : ∀ p v, ro_swept r !! p = Some v → 0 ≤ v ≤ ro_round r;
  rk_next : 0 ≤ ro_probeNext r;
}.

Lemma rotation_zero_ok : rotation_ok rotation_zero.
Proof. split; cbn; [lia| |lia]. intros p v. by rewrite lookup_empty. Qed.

Lemma commit_swept l (m : gmap Prefix Z) round p :
  foldl (λ m block, <[block := round]> m) m l !! p = if decide (p ∈ l) then Some round else m !! p.
Proof.
  revert m. induction l as [|b l IH]; intros m; [done|]. cbn [foldl]. rewrite IH.
  destruct (decide (p ∈ l)) as [Hp|Hp].
  - destruct (decide (p ∈ b :: l)) as [|Hn]; [done|]. exfalso. apply Hn. by right.
  - destruct (decide (p = b)) as [->|Hne].
    + rewrite lookup_insert_eq. destruct (decide (b ∈ b :: l)) as [|Hn]; [done|]. exfalso. apply Hn. left.
    + rewrite lookup_insert_ne by done. destruct (decide (p ∈ b :: l)) as [[?|?]%elem_of_cons|]; done.
Qed.

Lemma commit_ok r p :
  rotation_ok r → ro_round r < 2 ^ 64 - 1 →
  rotation_ok (commit r t p) ∧ ro_round (commit r t p) ≤ ro_round r + 1.
Proof using Hw.
  intros [Hr Hs Hn] Hlt. pose proof (wide_blocks t base bits Hw) as [_ HB]. unfold commit.
  destruct (pl_probe p); cbn.
  - split; [|lia]. split; cbn; [done|done|]. apply Z.mod_pos_bound. lia.
  - rewrite wrap_small by lia. split; [|lia]. split; cbn; [lia| |done].
    intros q v. rewrite commit_swept. destruct (decide _); [intros [= <-]; lia|]. intros Hv%Hs. lia.
Qed.

(** The /24s of [E] that go before [b]. *)
Definition before (E : gset Prefix) (r : rotation) (b : Prefix) : gset Prefix :=
  filter (λ p, p ≠ b ∧ default 0 (ro_swept r !! p) ≤ default 0 (ro_swept r !! b)) E.

Lemma fair_step E r ev b :
  rotation_ok r → ro_round r < 2 ^ 64 - 1 → whole_blocks mh < block_count t →
  dom (count_evidence t ev) ⊆ E → b ∈ dom (count_evidence t ev) →
  let p := planSweep r t ev mh in
  b ∈ pl_blocks p ∨
  Z.of_nat (size (before E (commit r t p) b)) + whole_blocks mh ≤ Z.of_nat (size (before E r b)).
Proof.
  intros [Hr Hs Hn] Hlt Hwb HE Hb p.
  assert (count_evidence t ev ≠ ∅) as Hne by (intros E0; rewrite E0 in Hb; set_solver).
  unfold p. rewrite (planSweep_evidenced t) by done. cbn [pl_blocks].
  pose proof (whole_blocks_bounds mh) as [Hw1 _]. set (l := sorted_evidence t r ev). set (n := Z.to_nat (whole_blocks mh)).
  destruct (decide (b ∈ take n l)) as [|Hnot]; [by left|right].
  assert (b ∈ drop n l) as Hdrop.
  { apply (sorted_evidence_elem t r ev) in Hb. fold l in Hb. rewrite <-(take_drop n l) in Hb.
    by apply elem_of_app in Hb as [?|?]. }
  assert (length (take n l) = n) as Hlen.
  { rewrite length_take. destruct (decide (n ≤ length l)%nat); [lia|].
    rewrite drop_ge in Hdrop by lia. by apply elem_of_nil in Hdrop. }
  assert (list_to_set (take n l) ⊆ before E r b) as Hsub.
  { intros q Hq%elem_of_list_to_set. apply elem_of_filter. split; [split|].
    - intros ->. done.
    - pose proof (StronglySorted_take_drop _ n l q b (StronglySorted_merge_sort _ _) Hq Hdrop) as Hle.
      apply plan_le_spec in Hle. lia.
    - apply HE, (sorted_evidence_elem t r ev). fold l.
      rewrite <-(take_drop n l). apply elem_of_app. by left. }
  unfold commit. cbn [pl_probe pl_blocks].
  set (r' := MkRotation _ _ _).
  assert (before E r' b ⊆ before E r b ∖ list_to_set (take n l)) as Hsub2.
  { intros q (Hq & HqE)%elem_of_filter. destruct Hq as [Hqb Hq]. unfold r' in Hq. cbn [ro_swept] in Hq.
    rewrite !commit_swept in Hq. rewrite wrap_small in Hq by lia.
    rewrite (decide_False (P := b ∈ take n l)) in Hq by done.
    assert (default 0 (ro_swept r !! b) ≤ ro_round r) as Hbr.
    { destruct (ro_swept r !! b) as [v|] eqn:E1; cbn; [apply Hs in E1; lia|lia]. }
    destruct (decide (q ∈ take n l)); cbn in Hq; [lia|].
    apply elem_of_difference. rewrite elem_of_list_to_set. split; [|done]. by apply elem_of_filter. }
  assert (size (list_to_set (take n l) : gset Prefix) = n) as Hsz.
  { rewrite size_list_to_set; [done|]. eapply sublist_NoDup; [apply (sorted_evidence_NoDup t r ev)|apply sublist_take]. }
  apply subseteq_size in Hsub2. rewrite size_difference in Hsub2 by done.
  apply subseteq_size in Hsub. lia.
Qed.

Lemma whole_sweep_all r ev b :
  evidence_ok ev → b ∈ dom (count_evidence t ev) → block_count t ≤ whole_blocks mh →
  b ∈ pl_blocks (planSweep r t ev mh) ∧ pl_probe (planSweep r t ev mh) = false.
Proof using Hw.
  intros Hev Hb Hle. destruct (count_evidence_blocks t base bits Hw ev b Hev Hb) as (i & Hi & ->).
  unfold planSweep. rewrite (proj2 (Z.leb_le _ _) Hle). cbn [pl_blocks pl_probe]. split; [|done].
  rewrite (blockRange_eq t base bits) by (done || lia). change (@map nat Prefix) with (@fmap list _ nat Prefix).
  apply list_elem_of_fmap. exists (Z.to_nat i). rewrite Z2Nat.id, Z.mod_small by lia.
  split; [done|]. apply elem_of_seq. lia.
Qed.

Lemma evidenced_not_probe r ev b :
  whole_blocks mh < block_count t → b ∈ dom (count_evidence t ev) → pl_probe (planSweep r t ev mh) = false.
Proof.
  intros Hwb Hb. rewrite (planSweep_evidenced t); [done|done|]. intros E. rewrite E in Hb. set_solver.
Qed.

Lemma fair_loop es (E : gset Prefix) b r :
  rotation_ok r → ro_round r + len es < 2 ^ 64 →
  (∀ e, e ∈ es → evidence_ok e.1 ∧ dom (count_evidence t e.1) ⊆ E ∧ b ∈ dom (count_evidence t e.1)) →
  Z.of_nat (size (before E r b)) < whole_blocks mh * Z.of_nat (swept_count es) →
  ∃ p, p ∈ swept_plans r es ∧ b ∈ pl_blocks p ∧ pl_probe p = false.
Proof using Hw.
  revert r. induction es as [|[ev ok] es IH]; intros r Hr Hlt He Hc; [unfold swept_count in Hc; cbn in Hc; lia|].
  destruct (He (ev, ok) ltac:(left)) as (Hev & HE & Hb). cbn [fst] in *. rewrite len_cons in Hlt.
  pose proof (len_nonneg es).
  assert (∀ e, e ∈ es → evidence_ok e.1 ∧ dom (count_evidence t e.1) ⊆ E ∧ b ∈ dom (count_evidence t e.1)) as He'
    by (intros; apply He; by right).
  cbn [swept_plans fst snd]. unfold sweep_step. cbn [fst snd]. destruct ok; [|apply IH; [done|lia|done|done]].
  assert (swept_count ((ev, true) :: es) = S (swept_count es)) as E1 by done. rewrite E1 in Hc.
  destruct (Z.le_gt_cases (block_count t) (whole_blocks mh)) as [Hle|Hgt].
  { exists (planSweep r t ev mh). split; [left|]. by apply whole_sweep_all. }
  destruct (commit_ok r (planSweep r t ev mh) Hr ltac:(lia)) as [Hr' Hround].
  destruct (fair_step E r ev b Hr ltac:(lia) Hgt HE Hb) as [Hin|Hdec].
  { exists (planSweep r t ev mh). split; [left|]. split; [done|]. by eapply evidenced_not_probe. }
  destruct (IH (commit r t (planSweep r t ev mh))) as (p & Hp & ?); [done|lia|done|lia|].
  exists p. split; [by right|done].
Qed.

(** C18: No starvation: a /24 that stays in evidence is swept whole once the
    budget of the sweeps that ran adds up to the number [size E] of /24s named
    meanwhile, whatever was swept before and however the evidence changes; a
    sweep that could not open its socket costs nothing. *)
Theorem rotation_fair r es (E : gset Prefix) b :
  rotation_ok r → ro_round r + len es < 2 ^ 64 →
  (∀ e, e ∈ es → evidence_ok e.1 ∧ dom (count_evidence t e.1) ⊆ E ∧ b ∈ dom (count_evidence t e.1)) →
  b ∈ E → Z.of_nat (size E) ≤ whole_blocks mh * Z.of_nat (swept_count es) →
  ∃ p, p ∈ swept_plans r es ∧ b ∈ pl_blocks p ∧ pl_probe p = false.
Proof using Hw.
  intros Hr Hlt He HbE Hsize. apply (fair_loop es E); [done..|].
  assert (before E r b ⊂ E) as Hsub.
  { split; [intros q Hq; by apply elem_of_filter in Hq as [_ ?]|].
    intros Hsub. apply Hsub, elem_of_filter in HbE as [[? _] _]. done. }
  apply subset_size in Hsub. lia.
Qed.
End rotate.

(** ** The tour of a network without evidence *)
Section tour.
Context `{!RangeOrder Prefix} (t : Prefix) (base bits : Z) (Hw : wide t base bits) (mh : Z).

(** /24s a probe sweep visits. *)
Definition probe_count : Z := Z.min (block_count t) (Z.max 1 (Z.quot mh probeHostsPerBlock)).

Lemma planSweep_probe r ev :
  0 ≤ ro_probeNext r → whole_blocks mh < block_count t → count_evidence t ev = ∅ →
  planSweep r t ev mh =
  MkPlan (map (λ i, block_of base ((ro_probeNext r + Z.of_nat i) mod block_count t)) (seq 0 (Z.to_nat probe_count))) true.
Proof using Hw.
  intros Hr Hwb He. unfold planSweep. rewrite (proj2 (Z.leb_gt _ _) Hwb). destruct (decide _); [|done].
  by rewrite (blockRange_eq t base bits).
Qed.

(** The distance from where the next probe starts to the [i]-th /24. *)
Lemma tour_loop es i r :
  0 ≤ ro_probeNext r → whole_blocks mh < block_count t → 0 ≤ i < block_count t →
  (∀ e, e ∈ es → count_evidence t e.1 = ∅) →
  (i - ro_probeNext r) mod block_count t < probe_count * Z.of_nat (swept_count es) →
  ∃ p, p ∈ swept_plans t mh r es ∧ block_of base i ∈ pl_blocks p ∧ pl_probe p = true.
Proof using Hw.
  intros Hr Hwb Hi. pose proof (wide_blocks t base bits Hw) as [_ HB]. set (B := block_count t) in *.
  assert (1 ≤ probe_count ≤ B) as Hpc by (unfold probe_count; lia).
  revert r Hr. induction es as [|[ev ok] es IH]; intros r Hr He Hd.
  { unfold swept_count in Hd. cbn in Hd. pose proof (Z.mod_pos_bound (i - ro_probeNext r) B). lia. }
  assert (∀ e, e ∈ es → count_evidence t e.1 = ∅) as He' by (intros; apply He; by right).
  cbn [swept_plans fst snd]. unfold sweep_step. cbn [fst snd]. destruct ok; [|by apply IH].
  assert (swept_count ((ev, true) :: es) = S (swept_count es)) as E1 by done. rewrite E1 in Hd.
  pose proof (planSweep_probe r ev Hr Hwb (He (ev, true) ltac:(left))) as Ep. cbn [fst] in Ep.
  set (p := planSweep r t ev mh) in *.
  pose proof (Z.mod_pos_bound (i - ro_probeNext r) B ltac:(lia)) as Hdb.
  pose proof (Z.div_mod (i - ro_probeNext r) B ltac:(lia)) as Hdm.
  set (d := (i - ro_probeNext r) mod B) in *.
  destruct (Z.lt_ge_cases d probe_count) as [Hlt|Hge].
  - exists p. split; [left|]. rewrite Ep. cbn [pl_blocks pl_probe]. split; [|done].
    change (@map nat Prefix) with (@fmap list _ nat Prefix). apply list_elem_of_fmap. exists (Z.to_nat d).
    split; [|apply elem_of_seq; lia]. rewrite Z2Nat.id by lia. f_equal. fold B.
    replace (ro_probeNext r + d) with (i + (- ((i - ro_probeNext r) / B)) * B) by lia.
    by rewrite Z.mod_add, Z.mod_small by lia.
  - assert (len (pl_blocks p) = probe_count) as Hl
      by (rewrite Ep; unfold len; cbn [pl_blocks]; rewrite length_map, length_seq; lia).
    destruct (IH (commit r t p)) as (q & Hq & ?); [|done| |exists q; split; [by right|done]].
    + rewrite Ep. unfold commit. cbn [pl_probe ro_probeNext]. fold B. apply Z.mod_pos_bound. lia.
    + assert (ro_probeNext (commit r t p) = (ro_probeNext r + probe_count) mod B) as ->.
      { unfold commit. rewrite <-Hl. by rewrite Ep. }
      rewrite Zminus_mod_idemp_r.
      replace (i - (ro_probeNext r + probe_count)) with ((d - probe_count) + ((i - ro_probeNext r) / B) * B) by lia.
      rewrite Z.mod_add, Z.mod_small by lia. lia.
Qed.

(** With nothing naming a /24 of it, a network is toured whole: once the
    first-host sweeps that ran have visited as many /24s as it has, each of
    its /24s had its first hosts probed, wherever the tour started. *)
Theorem probe_tour r es i :
  0 ≤ ro_probeNext r → whole_blocks mh < block_count t → 0 ≤ i < block_count t →
  (∀ e, e ∈ es → count_evidence t e.1 = ∅) →
  block_count t ≤ probe_count * Z.of_nat (swept_count es) →
  ∃ p, p ∈ swept_plans t mh r es ∧ block_of base i ∈ pl_blocks p ∧ pl_probe p = true.
Proof using Hw.
  intros Hr Hwb Hi He Hc. apply tour_loop; [done..|].
  pose proof (Z.mod_pos_bound (i - ro_probeNext r) (block_count t)). lia.
Qed.
End tour.

(** ** The scanner *)

Lemma keep_lookup rotations kept p q :
  kept !! q = None ∨ kept !! q = rotations !! q →
  keep rotations kept p !! q = if decide (q = p) then rotations !! q else kept !! q.
Proof.
  intros Hk. unfold keep. destruct (rotations !! p) as [r|] eqn:E; destruct (decide (q = p)) as [->|]; try done.
  - by rewrite lookup_insert_eq, E.
  - by rewrite lookup_insert_ne.
  - destruct Hk; congruence.
Qed.

Lemma keep_targets_spec rotations cidrs targets kept :
  let '(_, kept', ok) := keep_targets rotations cidrs targets kept in
  (ok = true ↔ CidrError ∉ cidrs) ∧
  (ok = true → (∀ q, kept !! q = None ∨ kept !! q = rotations !! q) →
   ∀ q, kept' !! q = if decide (CidrIPv4 q ∈ cidrs) then rotations !! q else kept !! q).
Proof.
  revert targets kept. induction cidrs as [|c cidrs IH]; intros targets kept; cbn [keep_targets].
  { split; [split; [set_solver|done]|]. intros _ _ q. destruct (decide _) as [Hq|]; [by apply elem_of_nil in Hq|done]. }
  destruct c as [| |p]; [split; [split; [done|set_solver]|done]|..].
  - specialize (IH (targets ++ [None]) kept). destruct (keep_targets _ _ _ _) as [[ts kept'] ok].
    destruct IH as [IH1 IH2]. split; [rewrite IH1; set_solver|]. intros Hok Hk q. rewrite IH2 by done.
    apply decide_ext. set_solver.
  - specialize (IH (targets ++ [Some p]) (keep rotations kept p)). destruct (keep_targets _ _ _ _) as [[ts kept'] ok].
    destruct IH as [IH1 IH2]. split; [rewrite IH1; set_solver|]. intros Hok Hk q. rewrite IH2; [|done|].
    + rewrite keep_lookup by done. destruct (decide (CidrIPv4 q ∈ cidrs)) as [Hq|Hq].
      * destruct (decide (CidrIPv4 q ∈ CidrIPv4 p :: cidrs)) as [|Hn]; [done|]. exfalso. apply Hn. by right.
      * destruct (decide (q = p)) as [->|Hne], (decide (CidrIPv4 _ ∈ CidrIPv4 p :: cidrs)) as [Hc|Hc]; try done.
        -- exfalso. apply Hc. left.
        -- apply elem_of_cons in Hc as [[= ?]|?]; done.
    + intros q'. rewrite keep_lookup by done. destruct (decide _); auto.
Qed.

(** A network that stays configured keeps its place in its rotation; the
    rotation of one that leaves is dropped; and a bad CIDR changes no rotation. *)
Theorem SetTargetNetworks_rotations s cidrs :
  let '(s', ok) := SetTargetNetworks s cidrs in
  (ok = true ↔ CidrError ∉ cidrs) ∧
  ∀ q, as_rotations s' !! q =
    if ok then (if decide (CidrIPv4 q ∈ cidrs ∨ as_subnet s = Some q) then as_rotations s !! q else None)
    else as_rotations s !! q.
Proof.
  unfold SetTargetNetworks. pose proof (keep_targets_spec (as_rotations s) cidrs [] ∅) as HX.
  destruct (keep_targets _ _ _ _) as [[ts kept] ok]. destruct HX as [H1 H2].
  destruct ok; [|split; [exact H1|done]]. split; [exact H1|]. intros q.
  assert (∀ q, kept !! q = if decide (CidrIPv4 q ∈ cidrs) then as_rotations s !! q else None) as Hk.
  { intros q'. rewrite H2; [by rewrite lookup_empty|done|]. intros ?. rewrite lookup_empty. by left. }
  cbn [as_rotations set_rotations as_subnet]. destruct (as_subnet s) as [p|].
  - rewrite keep_lookup by (rewrite Hk; destruct (decide _); auto). rewrite Hk.
    destruct (decide (q = p)) as [->|Hne].
    + rewrite decide_True by (by right). done.
    + apply decide_ext. naive_solver.
  - rewrite Hk. apply decide_ext. naive_solver.
Qed.

(** ** [incrementIP] adds *)

Fixpoint le_value (l : bytes) : Z :=
  match l with [] => 0 | b :: l' => b + 256 * le_value l' end.

Lemma le_value_bound l : bytes_ok l → 0 ≤ le_value l < 256 ^ len l.
Proof.
  induction 1 as [|b l Hb _ IH]; [done|]. rewrite len_cons, Z.pow_add_r by (pose proof (len_nonneg l); lia).
  cbn [le_value]. unfold is_byte in Hb. lia.
Qed.

Lemma add_carry_spec l c :
  bytes_ok l → 0 ≤ c →
  bytes_ok (add_carry l c) ∧ length (add_carry l c) = length l ∧
  le_value (add_carry l c) = (le_value l + c) mod 256 ^ len l.
Proof.
  intros Hl. revert c. induction Hl as [|b l Hb Hl IH]; intros c Hc.
  { cbn. unfold len. cbn. rewrite Z.mod_1_r. repeat constructor. }
  cbn [add_carry]. destruct (Z.ltb_spec 0 c).
  - rewrite !land_byteMask, !Z.shiftr_div_pow2 by (unfold byteShift8; lia). unfold byteShift8. change (2 ^ 8) with 256.
    unfold is_byte in Hb. pose proof (Z.div_mod c 256 ltac:(lia)). pose proof (Z.mod_pos_bound c 256 ltac:(lia)).
    set (sum := b + c mod 256) in *. assert (sum = b + c mod 256) as Esum by done. clearbody sum. pose proof (Z.div_mod sum 256 ltac:(lia)). pose proof (Z.mod_pos_bound sum 256 ltac:(lia)).
    assert (0 ≤ c / 256) by (apply Z.div_pos; lia). assert (0 ≤ sum / 256) by (apply Z.div_pos; lia).
    destruct (IH (c / 256 + sum / 256)) as (A1 & A2 & A3); [lia|].
    split; [constructor; [unfold is_byte; lia|done]|]. split; [cbn; by rewrite A2|].
    cbn [le_value]. rewrite A3, len_cons. pose proof (len_nonneg l).
    rewrite Z.pow_add_r, Z.pow_1_r by lia.
    assert (0 < 256 ^ len l) by (apply Z.pow_pos_nonneg; lia).
    replace (b + 256 * le_value l + c) with (sum mod 256 + (le_value l + (c / 256 + sum / 256)) * 256) by lia.
    rewrite Z.rem_mul_r by lia. rewrite Z.mod_add, Z.div_add by lia.
    rewrite (Z.mod_small (sum mod 256) 256), (Z.div_small (sum mod 256) 256) by lia. done.
  - replace c with 0 by lia. split; [by constructor|]. split; [done|].
    rewrite Z.add_0_r, Z.mod_small; [done|]. apply le_value_bound. by constructor.
Qed.

Lemma num_addr_bytes a b c d :
  0 ≤ a < 256 → 0 ≤ b < 256 → 0 ≤ c < 256 → 0 ≤ d < 256 →
  num_addr (d + 256 * (c + 256 * (b + 256 * (a + 256 * 0)))) = Addr4 [a; b; c; d].
Proof.
  intros. set (v := d + _). unfold num_addr.
  assert (v / 2 ^ 24 = a) as -> by (symmetry; apply (Z.div_unique v (2 ^ 24) a (d + 256 * (c + 256 * b))); lia).
  assert (v / 2 ^ 16 = a * 256 + b) as -> by (symmetry; apply (Z.div_unique v (2 ^ 16) _ (d + 256 * c)); lia).
  assert (v / 2 ^ 8 = (a * 256 + b) * 256 + c) as -> by (symmetry; apply (Z.div_unique v (2 ^ 8) _ d); lia).
  assert (v mod 256 = d) as -> by (symmetry; apply (Z.mod_unique v 256 ((a * 256 + b) * 256 + c)); lia).
  rewrite (Z.mod_small a) by lia. rewrite !(Z.add_comm (_ * 256)), !Z.mod_add, !Z.mod_small by lia. done.
Qed.

(** [incrementIP] is addition modulo the address space, for the counts it
    accepts. *)
Theorem incrementIP_adds x n :
  u32 x → incrementIP (num_addr x) n =
    if (0 <=? n) && (n <=? 16777215) then Some (num_addr ((x + n) mod 2 ^ 32)) else None.
Proof.
  intros Hx. unfold incrementIP, num_addr at 1.
  destruct (Z.ltb_spec n 0), (Z.leb_spec 0 n); cbn [orb andb]; try lia; [done|].
  destruct (Z.ltb_spec 16777215 n), (Z.leb_spec n 16777215); try lia; [done|].
  set (l := rev (addr_bytes (num_addr x))).
  change (Some (Addr4 (rev (add_carry l n))) = Some (num_addr ((x + n) mod 2 ^ 32))).
  assert (∀ z, 0 ≤ z mod 256 < 256) as Hmod by (intros; by apply Z.mod_pos_bound).
  assert (bytes_ok l) as Hl by (unfold l; repeat constructor; apply Hmod).
  destruct (add_carry_spec l n Hl) as (A1 & A2 & A3); [lia|].
  assert (le_value l = x) as Ev.
  { etransitivity; [|exact (addr_num_num_addr x Hx)]. unfold l, addr_num. cbn [addr_bytes num_addr rev app le_value]. lia. }
  rewrite Ev in A3. change (256 ^ len l) with (2 ^ 32) in A3.
  change (length l) with 4%nat in A2.
  destruct (add_carry l n) as [|d [|c [|b [|a [|? ?]]]]]; try done.
  unfold bytes_ok in A1. rewrite !list.Forall_cons in A1. unfold is_byte in A1. cbn [le_value] in A3.
  cbn [rev app]. do 2 f_equal. rewrite <-A3. symmetry. apply num_addr_bytes; lia.
Qed.

(** ** A /16 with two live /24s under a budget of one *)
Definition demo_target : Prefix := PrefixFrom (Addr4 [10; 51; 0; 0]) 16.
Definition demo_evidence : list Addr := [Addr4 [10; 51; 30; 2]; Addr4 [10; 51; 10; 2]; Addr4 [10; 51; 10; 3]; Addr4 [192; 168; 1; 1]].

Lemma demo_wide : wide demo_target 171114496 16.
Proof. split; [done|unfold cidrMask24; lia|unfold u32; lia|done]. Qed.

Lemma evidence_ok_num l : Forall (λ x, u32 x) l → evidence_ok (map num_addr l).
Proof.
  intros Hl a b Ha _. change (@map Z Addr) with (@fmap list _ Z Addr) in Ha.
  apply list_elem_of_fmap in Ha as (x & -> & Hx). exists x. split; [|done]. by eapply list.Forall_forall in Hl.
Qed.

Lemma demo_evidence_ok : evidence_ok demo_evidence.
Proof.
  change demo_evidence with (map num_addr [171122178; 171117058; 171117059; 3232235777]).
  apply evidence_ok_num. repeat constructor; unfold u32; lia.
Qed.

Lemma planSweep_spec_witness :
  let p := planSweep rotation_zero demo_target demo_evidence 254 in
  len (hosts p) = 254 ∧ NoDup (hosts p) ∧ pl_blocks p = [PrefixFrom (Addr4 [10; 51; 10; 0]) 24].
Proof.
  destruct (planSweep_spec demo_target 171114496 16 demo_wide rotation_zero demo_evidence 254) as (? & _);
    [done|apply demo_evidence_ok|].
  split; [by vm_compute|]. split; [done|by vm_compute].
Defined.

Lemma rotation_fair_witness :
  ∃ p, p ∈ swept_plans demo_target 254 rotation_zero [(demo_evidence, true); (demo_evidence, false); (demo_evidence, true)] ∧
    block_of 171114496 30 ∈ pl_blocks p ∧ pl_probe p = false.
Proof.
  apply (rotation_fair demo_target 171114496 16 demo_wide 254 _ _ (dom (count_evidence demo_target demo_evidence))).
  - apply rotation_zero_ok.
  - vm_compute. done.
  - intros e He. assert (e.1 = demo_evidence) as -> by (repeat (apply elem_of_cons in He as [->|He]; [done|]); by apply elem_of_nil in He).
    split; [apply demo_evidence_ok|]. split; [done|]. vm_compute. by eexists.
  - vm_compute. by eexists.
  - vm_compute. done.
Defined.

Lemma probe_tour_witness :
  ∃ p, p ∈ swept_plans demo_target 254 rotation_zero (repeat ([], true) 5) ∧
    block_of 171114496 200 ∈ pl_blocks p ∧ pl_probe p = true.
Proof.
  apply (probe_tour demo_target 171114496 16 demo_wide); [done..| |by vm_compute].
  intros e He. repeat (apply elem_of_cons in He as [->|He]; [done|]). by apply elem_of_nil in He.
Defined.

Lemma incrementIP_adds_witness :
  u32 171048703 ∧ incrementIP (num_addr 171048703) 258 = Some (num_addr 171048961).
Proof. split; [unfold u32; lia|]. rewrite (incrementIP_adds 171048703 258); [done|unfold u32; lia]. Defined.

(** A sweep of the scanner is a step of its target's rotation, on the evidence
    it holds and its own address, and touches no other rotation. *)
Theorem pingSweep_step `{!RangeOrder Prefix} s target ok :
  let '(s', plan, cov) := pingSweep s target ok in
  let r := default rotation_zero (as_rotations s !! target) in
  let ev := as_evidence s ++ (match as_localIP s with Some a => [a] | None => [] end) in
  plan = planSweep r target ev (GetMaxHostsPerSubnet s) ∧
  as_rotations s' = <[target := sweep_step target (GetMaxHostsPerSubnet s) r (ev, ok)]> (as_rotations s) ∧
  sw_Swept cov = (if ok then len (hosts plan) else 0).
Proof.
  unfold pingSweep, sweep_step. cbn [fst snd]. destruct ok; [|done].
  split; [done|]. split; [|done]. cbn [as_rotations set_rotations]. by rewrite insert_insert_eq.
Qed.
