(* ===== verification/Paths.v ===== *)
(** * Path monitoring, multi-path discovery and hop routes

    Models [src/internal/discovery/pathmonitor.go] (Module Monitor),
    [multipath.go] (Module MultiPath) and [hoproute.go] (Module HopRoute): the
    aggregation of repeated traceroutes, the set of distinct routes with the
    hop at which they part, and the longest-prefix route of a traced hop. The
    traces themselves, and [netip.ParseAddr], are parameters. *)
From Stdlib Require Import ZArith Lia SpecFloat.
From stdpp Require Import base gmap sets list strings sorting.
From S2P Require Import Prelude GoBase.

#[local] Open Scope Z_scope.

(** ** Traces *)
Definition hopStateReply : string := "reply".
Definition hopStateTimeout : string := "timeout".
Definition hopStateError : string := "error".
Definition hopStateUnreachable : string := "unreachable".

Record TracerouteHop : Type := MkHop {
  hp_TTL : Z;
  hp_IP : string;
  hp_Hostname : string;
  hp_RTT : Z;
  hp_State : string;
}.

Record TracerouteResult : Type := MkTrace {
  tr_TargetIP : string;
  tr_Hops : list TracerouteHop;
  tr_Completed : bool;
  tr_Error : string;
}.

(** The deepest TTL of a trace, as [Observe] and [hopAddresses] find it. *)
Definition depth (hops : list TracerouteHop) : Z :=
  foldl (λ d hop, if d <? hp_TTL hop then hp_TTL hop else d) 0 hops.

(** [time.Duration] arithmetic wraps at 64 bits. *)
Definition dur (x : Z) : Z := sign_wrap 64 x.

Definition absDuration (d : Z) : Z := if d <? 0 then dur (- d) else d.

(** ** Continuous monitoring *)
Module Monitor.

Record HopAddress : Type := MkAddress {
  ad_IP : string;
  ad_Hostname : string;
  ad_Count : Z;
}.

Record HopStats : Type := MkStats {
  hs_TTL : Z;
  hs_Sent : Z;
  hs_Received : Z;
  hs_LastRTT : Z;
  hs_BestRTT : Z;
  hs_WorstRTT : Z;
  hs_sumRTT : Z;
  hs_sumJitter : Z;
  hs_jitterObs : Z;
  hs_hasLast : bool;
  hs_addrCounts : gmap string HopAddress;
}.

Definition stats_new (ttl : Z) : HopStats := MkStats ttl 0 0 0 0 0 0 0 0 false ∅.

Definition add_sent (h : HopStats) : HopStats :=
  MkStats (hs_TTL h) (hs_Sent h + 1) (hs_Received h) (hs_LastRTT h) (hs_BestRTT h) (hs_WorstRTT h)
    (hs_sumRTT h) (hs_sumJitter h) (hs_jitterObs h) (hs_hasLast h) (hs_addrCounts h).
Definition add_received (h : HopStats) : HopStats :=
  MkStats (hs_TTL h) (hs_Sent h) (hs_Received h + 1) (hs_LastRTT h) (hs_BestRTT h) (hs_WorstRTT h)
    (hs_sumRTT h) (hs_sumJitter h) (hs_jitterObs h) (hs_hasLast h) (hs_addrCounts h).
Definition set_addrs (h : HopStats) (m : gmap string HopAddress) : HopStats :=
  MkStats (hs_TTL h) (hs_Sent h) (hs_Received h) (hs_LastRTT h) (hs_BestRTT h) (hs_WorstRTT h)
    (hs_sumRTT h) (hs_sumJitter h) (hs_jitterObs h) (hs_hasLast h) m.

Definition noteAddress (h : HopStats) (hop : TracerouteHop) : HopStats :=
  let addr := default (MkAddress (hp_IP hop) (hp_Hostname hop) 0) (hs_addrCounts h !! hp_IP hop) in
  let name := if bool_decide (ad_Hostname addr = "") && negb (bool_decide (hp_Hostname hop = ""))
              then hp_Hostname hop else ad_Hostname addr in
  set_addrs h (<[hp_IP hop := MkAddress (ad_IP addr) name (ad_Count addr + 1)]> (hs_addrCounts h)).

Definition noteRTT (h : HopStats) (rtt : Z) : HopStats :=
  let sumJitter := if hs_hasLast h then dur (hs_sumJitter h + absDuration (dur (rtt - hs_LastRTT h)))
                   else hs_sumJitter h in
  let jitterObs := if hs_hasLast h then hs_jitterObs h + 1 else hs_jitterObs h in
  let best := if negb (hs_hasLast h) || (rtt <? hs_BestRTT h) then rtt else hs_BestRTT h in
  let worst := if hs_WorstRTT h <? rtt then rtt else hs_WorstRTT h in
  MkStats (hs_TTL h) (hs_Sent h) (hs_Received h) rtt best worst (dur (hs_sumRTT h + rtt))
    sumJitter jitterObs true (hs_addrCounts h).

(** A hop that answered. *)
Definition answered (hop : TracerouteHop) : bool :=
  (bool_decide (hp_State hop = hopStateReply) || bool_decide (hp_State hop = hopStateUnreachable)) &&
  negb (bool_decide (hp_IP hop = "")).

Definition observe (h : HopStats) (hop : TracerouteHop) : HopStats :=
  let h := add_sent h in
  if negb (bool_decide (hp_State hop = hopStateReply)) && negb (bool_decide (hp_State hop = hopStateUnreachable))
  then h
  else if bool_decide (hp_IP hop = "") then h
  else noteRTT (noteAddress (add_received h) hop) (hp_RTT hop).

Record PathMonitor : Type := MkMonitor {
  pm_target : string;
  pm_rounds : Z;
  pm_hops : gmap Z HopStats;
}.

Definition NewPathMonitor (target : string) : PathMonitor := MkMonitor target 0 ∅.

(** [m.hopAt(hop.TTL).observe(hop)]. *)
Definition observe_hop (m : gmap Z HopStats) (hop : TracerouteHop) : gmap Z HopStats :=
  <[hp_TTL hop := observe (default (stats_new (hp_TTL hop)) (m !! hp_TTL hop)) hop]> m.

(** [Observe]; the result is nil for [None]. The last loop visits every
    accumulator once and changes only that one, so its order is immaterial. *)
Definition Observe (m : PathMonitor) (result : option TracerouteResult) : PathMonitor :=
  match result with
  | None => m
  | Some r =>
      let seen : gset Z := list_to_set (map hp_TTL (tr_Hops r)) in
      let hops := foldl observe_hop (pm_hops m) (tr_Hops r) in
      let d := depth (tr_Hops r) in
      MkMonitor (pm_target m) (pm_rounds m + 1)
        (map_imap (λ ttl stats, Some (if bool_decide (ttl ≤ d ∧ ttl ∉ seen) then add_sent stats else stats)) hops)
  end.

(** The public fields of a derived [HopStats]. *)
Record HopView : Type := MkView {
  hv_TTL : Z;
  hv_Addresses : list HopAddress;
  hv_Sent : Z;
  hv_Received : Z;
  hv_LossPct : spec_float;
  hv_LastRTT : Z;
  hv_BestRTT : Z;
  hv_WorstRTT : Z;
  hv_AvgRTT : Z;
  hv_Jitter : Z;
}.

Definition percentScale : Z := 100.

Definition addr_before (a b : HopAddress) : Prop :=
  if decide (ad_Count a = ad_Count b) then str_le (ad_IP a) (ad_IP b) else ad_Count b < ad_Count a.
#[export] Instance addr_before_dec : RelDecision addr_before.
Proof. intros a b. unfold addr_before. destruct (decide _); apply _. Defined.

Definition ttl_before (a b : HopView) : Prop := hv_TTL a ≤ hv_TTL b.
#[export] Instance ttl_before_dec : RelDecision ttl_before.
Proof. intros a b. unfold ttl_before. apply _. Defined.

Section snapshot.
Context `{!RangeOrder string} `{!RangeOrder Z}.

Definition derive (h : HopStats) : HopView :=
  MkView (hs_TTL h) (merge_sort addr_before (map snd (range (hs_addrCounts h))))
    (hs_Sent h) (hs_Received h)
    (if 0 <? hs_Sent h then
       float64_mul (float64_div (float64 (hs_Sent h - hs_Received h)) (float64 (hs_Sent h))) (float64 percentScale)
     else float64 0)
    (hs_LastRTT h) (hs_BestRTT h) (hs_WorstRTT h)
    (if 0 <? hs_Received h then Z.quot (hs_sumRTT h) (hs_Received h) else 0)
    (if 0 <? hs_jitterObs h then Z.quot (hs_sumJitter h) (hs_jitterObs h) else 0).

Record PathMonitorSnapshot : Type := MkSnapshot {
  sn_Target : string;
  sn_Rounds : Z;
  sn_Hops : list HopView;
}.

Definition Snapshot (m : PathMonitor) : PathMonitorSnapshot :=
  MkSnapshot (pm_target m) (pm_rounds m)
    (merge_sort ttl_before (map (λ '(_, h), derive h) (range (pm_hops m)))).
End snapshot.
End Monitor.

(** ** Multi-path discovery *)
Module MultiPath.

Record PathVariant : Type := MkVariant {
  pv_Hops : list string;
  pv_Seen : Z;
  pv_Completed : bool;
}.

Record MultiPathResult : Type := MkMulti {
  mp_Target : string;
  mp_TargetIP : string;
  mp_Attempts : Z;
  mp_Paths : list PathVariant;
  mp_DivergesAtTTL : Z;
  mp_Error : string;
}.

Definition LoadBalanced (r : MultiPathResult) : bool := 1 <? len (mp_Paths r).

Definition MultiPathAttempts : nat := 8.
Definition stride : Z := 7919.
Definition multiPathFlowID (attempt : Z) : Z := 1 + Z.rem (attempt * stride) 65535.

(** [strings.Join(hops, ">")]. *)
Fixpoint join (hops : list string) : string :=
  match hops with
  | [] => ""
  | [h] => h
  | h :: rest => (h +:+ ">" +:+ join rest)%string
  end.

Definition hopAddresses (round : TracerouteResult) : list string :=
  let d := depth (tr_Hops round) in
  foldl (λ addresses hop,
    if (1 <=? hp_TTL hop) && (hp_TTL hop <=? d)
    then <[Z.to_nat (hp_TTL hop - 1) := hp_IP hop]> addresses else addresses)
    (replicate (Z.to_nat d) ""%string) (tr_Hops round).

Definition foldVariant (variants : gmap string PathVariant) (round : TracerouteResult)
    : gmap string PathVariant :=
  let hops := hopAddresses round in
  let key := join hops in
  let variant := default (MkVariant hops 0 false) (variants !! key) in
  <[key := MkVariant (pv_Hops variant) (pv_Seen variant + 1)
             (if tr_Completed round then true else pv_Completed variant)]> variants.

Definition variant_before (a b : PathVariant) : Prop :=
  if decide (pv_Seen a = pv_Seen b) then str_le (join (pv_Hops a)) (join (pv_Hops b))
  else pv_Seen b < pv_Seen a.
#[export] Instance variant_before_dec : RelDecision variant_before.
Proof. intros a b. unfold variant_before. destruct (decide _); apply _. Defined.

Definition sortedVariants `{!RangeOrder string} (variants : gmap string PathVariant) : list PathVariant :=
  merge_sort variant_before (map snd (range variants)).

Definition longestPath (paths : list PathVariant) : nat :=
  foldl (λ longest path, if decide (longest < length (pv_Hops path))%nat then length (pv_Hops path) else longest)
    0%nat paths.

(** The inner loop of [divergencePoint] at one hop: whether it finds two
    different addresses. *)
Fixpoint diverges_at (ttl : nat) (paths : list PathVariant) (seen : string) : bool :=
  match paths with
  | [] => false
  | path :: rest =>
      match pv_Hops path !! ttl with
      | None => diverges_at ttl rest seen
      | Some a =>
          if decide (a = "") then diverges_at ttl rest seen
          else if decide (seen = "") then diverges_at ttl rest a
          else if decide (a = seen) then diverges_at ttl rest seen else true
      end
  end.

Fixpoint first_divergence (ttls : list nat) (paths : list PathVariant) : Z :=
  match ttls with
  | [] => 0
  | ttl :: rest => if diverges_at ttl paths "" then Z.of_nat ttl + 1 else first_divergence rest paths
  end.

Definition divergencePoint (paths : list PathVariant) : Z :=
  if len paths <? 2 then 0 else first_divergence (seq 0 (longestPath paths)) paths.

(** The loop of [DiscoverPaths]: [cancelled a after] is [ctx.Err() != nil]
    before or after the trace of attempt [a], [trace] the trace itself. *)
Section discover.
Context (cancelled : nat → bool → bool) (trace : Z → option TracerouteResult).

Fixpoint attempts (todo : list nat) (st : MultiPathResult * gmap string PathVariant)
    : MultiPathResult * gmap string PathVariant :=
  match todo with
  | [] => st
  | a :: rest =>
      if cancelled a false then st else
      let round := trace (multiPathFlowID (Z.of_nat a)) in
      if cancelled a true then st else
      match round with
      | None => attempts rest st
      | Some r =>
          let '(res, variants) := st in
          let ip := if decide (mp_TargetIP res = "") then tr_TargetIP r else mp_TargetIP res in
          let err := if decide (tr_Error r ≠ "" ∧ mp_Error res = "") then tr_Error r else mp_Error res in
          attempts rest (MkMulti (mp_Target res) ip (mp_Attempts res + 1) (mp_Paths res)
                           (mp_DivergesAtTTL res) err, foldVariant variants r)
      end
  end.

Definition DiscoverPaths `{!RangeOrder string} (target : string) : MultiPathResult :=
  let '(res, variants) := attempts (seq 0 MultiPathAttempts) (MkMulti target "" 0 [] 0 "", ∅) in
  let paths := sortedVariants variants in
  MkMulti (mp_Target res) (mp_TargetIP res) (mp_Attempts res) paths (divergencePoint paths) (mp_Error res).
End discover.
End MultiPath.

(** ** Routes of a traced hop *)
Module HopRoute.

(** [netip.Prefix] over both families. *)
Record prefix : Type := MkPrefix { px_addr : Addr; px_bits : Z }.

(** [Addr.Prefix]: [None] is its error. The address is kept whole, since
    [Contains] compares the high bits only. *)
Definition to_prefix (a : Addr) (bits : Z) : option prefix :=
  match addr_value a with
  | None => None
  | Some (w, _) => if (bits <? 0) || (w <? bits) then None else Some (MkPrefix a bits)
  end.

Definition contains (p : prefix) (a : Addr) : bool :=
  if has_zone a then false else
  match addr_value (px_addr p), addr_value a with
  | Some (w, x), Some (w', y) =>
      (w =? w') && (Z.shiftr x (w - px_bits p) =? Z.shiftr y (w - px_bits p))
  | _, _ => false
  end.

Record SNMPRoute : Type := MkRoute {
  rt_Destination : string;
  rt_Prefix : Z;
  rt_NextHop : string;
  rt_IfIndex : Z;
  rt_Type : string;
  rt_Protocol : string;
}.

Definition route_zero : SNMPRoute := MkRoute "" 0 "" 0 "" "".

Record SNMPInterface : Type := MkInterface {
  if_Index : Z;
  if_Name : string;
  if_Description : string;
}.

Record SNMPData : Type := MkSNMP {
  sd_Routing : list SNMPRoute;
  sd_RoutingTruncated : bool;
  sd_IPAddresses : list string;
  sd_Interfaces : list SNMPInterface;
}.

(** A discovered device; a nil pointer in the list is [None]. *)
Record DiscoveredDevice : Type := MkDevice {
  dd_IP : string;
  dd_SNMPData : option SNMPData;
}.

Record HopRoute : Type := MkHopRoute {
  hr_Device : string;
  hr_Destination : string;
  hr_Prefix : Z;
  hr_NextHop : string;
  hr_IfIndex : Z;
  hr_Interface : string;
  hr_Type : string;
  hr_Protocol : string;
  hr_TableTruncated : bool;
}.

Section route.
Context (ParseAddr : string → option Addr).

Definition sameAddr (s : string) (addr : Addr) : bool :=
  match ParseAddr s with
  | Some parsed => bool_decide (addr_unmap parsed = addr_unmap addr)
  | None => false
  end.

Fixpoint deviceAnswering (devices : list (option DiscoveredDevice)) (addr : Addr)
    : option (DiscoveredDevice * SNMPData) :=
  match devices with
  | [] => None
  | None :: rest => deviceAnswering rest addr
  | Some device :: rest =>
      match dd_SNMPData device with
      | None => deviceAnswering rest addr
      | Some data =>
          if len (sd_Routing data) =? 0 then deviceAnswering rest addr
          else if sameAddr (dd_IP device) addr then Some (device, data)
          else if existsb (λ owned, sameAddr owned addr) (sd_IPAddresses data) then Some (device, data)
          else deviceAnswering rest addr
      end
  end.

(** Whether a route covers an address: the parse, the prefix and the test of
    [longestMatch]. *)
Definition covers (dst : Addr) (route : SNMPRoute) : bool :=
  match ParseAddr (rt_Destination route) with
  | None => false
  | Some network =>
      match to_prefix (addr_unmap network) (rt_Prefix route) with
      | None => false
      | Some prefix => contains prefix dst
      end
  end.

(** One round of the loop of [longestMatch]. *)
Definition match_step (dst : Addr) (acc : SNMPRoute * bool) (route : SNMPRoute) : SNMPRoute * bool :=
  let '(best, found) := acc in
  if negb (covers dst route) then (best, found)
  else if negb found || (rt_Prefix best <? rt_Prefix route) then (route, true)
  else (best, found).

Definition longestMatch (routes : list SNMPRoute) (dst : Addr) : SNMPRoute * bool :=
  foldl (match_step (addr_unmap dst)) (route_zero, false) routes.

Fixpoint interfaceName (interfaces : list SNMPInterface) (ifIndex : Z) : string :=
  match interfaces with
  | [] => ""
  | iface :: rest =>
      if negb (ifIndex =? 0) && (if_Index iface =? ifIndex)
      then (if decide (if_Name iface = "") then if_Description iface else if_Name iface)
      else interfaceName rest ifIndex
  end.

Definition RouteForHop (devices : list (option DiscoveredDevice)) (hopIP target : string) : option HopRoute :=
  hop ← ParseAddr hopIP;
  dst ← ParseAddr target;
  '(device, data) ← deviceAnswering devices hop;
  let '(route, ok) := longestMatch (sd_Routing data) dst in
  if ok : bool then
    Some (MkHopRoute (dd_IP device) (rt_Destination route) (rt_Prefix route) (rt_NextHop route)
      (rt_IfIndex route) (interfaceName (sd_Interfaces data) (rt_IfIndex route))
      (rt_Type route) (rt_Protocol route) (sd_RoutingTruncated data))
  else None.
End route.
End HopRoute.

(** ** What monitoring accumulates *)
Module MonitorFacts.
Import Monitor.

Definition hops_at (ttl : Z) (r : TracerouteResult) : list TracerouteHop :=
  filter (λ hop, hp_TTL hop = ttl) (tr_Hops r).

(** Probes a round counts against a TTL: its hops there, or one for silence
    up to its depth at a TTL already known. *)
Definition round_sent (known : bool) (ttl : Z) (r : TracerouteResult) : Z :=
  match hops_at ttl r with
  | [] => if known && (ttl <=? depth (tr_Hops r)) then 1 else 0
  | l => len l
  end.

Definition knows (known : bool) (ttl : Z) (r : TracerouteResult) : bool :=
  match hops_at ttl r with [] => known | _ => true end.

Fixpoint sent_over (known : bool) (ttl : Z) (rs : list TracerouteResult) : Z :=
  match rs with
  | [] => 0
  | r :: rs' => round_sent known ttl r + sent_over (knows known ttl r) ttl rs'
  end.

Fixpoint known_after (known : bool) (ttl : Z) (rs : list TracerouteResult) : bool :=
  match rs with [] => known | r :: rs' => known_after (knows known ttl r) ttl rs' end.

(** The answers of a TTL, in order. *)
Definition replies (ttl : Z) (rs : list TracerouteResult) : list TracerouteHop :=
  filter (λ hop, answered hop = true) (concat (map (hops_at ttl) rs)).

Definition rtts (l : list TracerouteHop) : list Z := map hp_RTT l.
Definition total (l : list Z) : Z := foldr Z.add 0 l.

(** Mean-free jitter: the sum of the absolute differences in a row. *)
Fixpoint jitter_sum (l : list Z) : Z :=
  match l with
  | x :: (y :: _) as rest => Z.abs (y - x) + jitter_sum rest
  | _ => 0
  end.

Definition answers_from (ip : string) (l : list TracerouteHop) : Z :=
  len (filter (λ hop, hp_IP hop = ip) l).

(** The statistics of a list of answers. *)
Record summary (h : HopStats) (l : list TracerouteHop) : Prop := MkSummary {
  su_received : hs_Received h = len l;
  su_last : hs_hasLast h = bool_decide (l ≠ []) ∧ (∀ x, last l = Some x → hs_LastRTT h = hp_RTT x);
  su_none : l = [] → hs_LastRTT h = 0 ∧ hs_BestRTT h = 0 ∧ hs_sumRTT h = 0;
  su_best : l ≠ [] → (∀ x, x ∈ l → hs_BestRTT h ≤ hp_RTT x) ∧ ∃ x, x ∈ l ∧ hp_RTT x = hs_BestRTT h;
  su_worst : (∀ x, x ∈ l → hp_RTT x ≤ hs_WorstRTT h) ∧
    (hs_WorstRTT h = 0 ∨ ∃ x, x ∈ l ∧ hp_RTT x = hs_WorstRTT h);
  su_sum : hs_sumRTT h = total (rtts l);
  su_jitter : hs_sumJitter h = jitter_sum (rtts l) ∧ hs_jitterObs h = Z.max 0 (len l - 1);
  su_addrs : ∀ ip, match hs_addrCounts h !! ip with
    | Some a => ad_IP a = ip ∧ ad_Count a = answers_from ip l ∧ 0 < ad_Count a
    | None => answers_from ip l = 0
    end;
}.

(** The latencies a monitor can add up: no sum reaches the 64-bit bound. *)
Definition bounded (l : list Z) : Prop := Forall (λ x, 0 ≤ x) l ∧ total l < 2 ^ 62.

Lemma dur_small x : - 2 ^ 63 ≤ x < 2 ^ 63 → dur x = x.
Proof.
  intros Hx. unfold dur, sign_wrap. destruct (Z.le_gt_cases 0 x).
  - rewrite Z.mod_small by lia. destruct (Z.ltb_spec x (2 ^ (64 - 1))); lia.
  - assert (x mod 2 ^ 64 = x + 2 ^ 64) as -> by (symmetry; apply (Z.mod_unique x (2 ^ 64) (-1)); lia).
    destruct (Z.ltb_spec (x + 2 ^ 64) (2 ^ (64 - 1))); lia.
Qed.

Lemma total_cat l1 l2 : total (l1 ++ l2) = total l1 + total l2.
Proof. induction l1 as [|x l1 IH]; [done|]. change (x + total (l1 ++ l2) = x + total l1 + total l2). lia. Qed.

Lemma total_nonneg l : Forall (λ x, 0 ≤ x) l → 0 ≤ total l.
Proof. induction 1 as [|x l ? _ IH]; [done|]. change (0 ≤ x + total l). lia. Qed.

Lemma total_elem l x : Forall (λ x, 0 ≤ x) l → x ∈ l → x ≤ total l.
Proof.
  induction 1 as [|y l Hy Hl IH]; [by intros ?%elem_of_nil|]. pose proof (total_nonneg l Hl). change (total (y :: l)) with (y + total l).
  intros [->|Hx%IH]%elem_of_cons; lia.
Qed.

Lemma jitter_sum_snoc l x y : last l = Some x → jitter_sum (l ++ [y]) = jitter_sum l + Z.abs (y - x).
Proof.
  induction l as [|a [|b l] IH]; intros Hl; [done|cbn in *; injection Hl as ->; lia|].
  specialize (IH Hl). change (jitter_sum ((a :: b :: l) ++ [y])) with (Z.abs (b - a) + jitter_sum ((b :: l) ++ [y])).
  rewrite IH. change (jitter_sum (a :: b :: l)) with (Z.abs (b - a) + jitter_sum (b :: l)). lia.
Qed.

Lemma jitter_sum_bound l : Forall (λ x, 0 ≤ x) l → 0 ≤ jitter_sum l ≤ 2 * total l.
Proof.
  intros Hl. assert (0 ≤ jitter_sum l ∧ jitter_sum l ≤ 2 * total l - match l with x :: _ => x | [] => 0 end) as H.
  { induction Hl as [|x l Hx Hl IH]; [done|]. destruct l as [|y l]; [unfold total; cbn [foldr jitter_sum]; lia|].
    apply Forall_cons in Hl as [Hy Hl]. pose proof (total_nonneg l Hl).
    change (jitter_sum (x :: y :: l)) with (Z.abs (y - x) + jitter_sum (y :: l)). change (total (x :: y :: l)) with (x + (y + total l)). change (total (y :: l)) with (y + total l) in IH. lia. }
  destruct Hl; lia.
Qed.

(** One more answer. *)
Definition reply (h : HopStats) (hop : TracerouteHop) : HopStats :=
  noteRTT (noteAddress (add_received h) hop) (hp_RTT hop).

Lemma summary_reply h l hop :
  summary h l → bounded (rtts (l ++ [hop])) → summary (reply h hop) (l ++ [hop]).
Proof.
  intros [Hr [Hl1 Hl2] Hn Hb [Hw1 Hw2] Hs [Hj1 Hj2] Ha] [Hpos Htot].
  unfold rtts in Hpos, Htot. rewrite map_app in Hpos, Htot. rewrite total_cat in Htot. cbn in Htot.
  apply Forall_app in Hpos as [Hpos Hx]. apply Forall_cons in Hx as [Hx _].
  fold (rtts l) in *. pose proof (total_nonneg _ Hpos). pose proof (jitter_sum_bound _ Hpos).
  assert (Forall (λ x, hp_RTT x ≤ total (rtts l)) l) as Hle.
  { apply list.Forall_forall. intros x Hxl. apply total_elem; [done|]. unfold rtts.
    change (map hp_RTT l) with (hp_RTT <$> l). by apply list_elem_of_fmap_2. }
  rewrite list.Forall_forall in Hle.
  assert (∀ x, last l = Some x → 0 ≤ hp_RTT x ≤ total (rtts l)) as Hlast.
  { intros x Hxl. apply last_Some_elem_of in Hxl as Hin. split; [|by apply Hle].
    eapply list.Forall_forall in Hpos; [exact Hpos|]. unfold rtts. change (map hp_RTT l) with (hp_RTT <$> l). by apply list_elem_of_fmap_2. }
  unfold reply, noteRTT, noteAddress, set_addrs, add_received. cbn.
  split; cbn.
  - rewrite Hr. unfold len. rewrite length_app. cbn. lia.
  - split; [by destruct l|]. intros x. rewrite last_snoc. by intros [= ->].
  - by destruct l.
  - intros _. rewrite Hl1. destruct (decide (l = [])) as [->|Hne].
    + cbn. split; [intros x Hxx%list_elem_of_singleton; subst x; lia|]. exists hop. set_solver.
    + rewrite bool_decide_eq_true_2 by done. cbn. destruct (Hb Hne) as [H1 (x & H2 & H3)].
      destruct (Z.ltb_spec (hp_RTT hop) (hs_BestRTT h)).
      * split; [|exists hop; set_solver]. intros y [Hy|Hy%list_elem_of_singleton]%elem_of_app; [specialize (H1 y Hy)|subst y]; lia.
      * split; [|exists x; set_solver]. intros y [Hy|Hy%list_elem_of_singleton]%elem_of_app; [by apply H1|subst y; lia].
  - destruct (Z.ltb_spec (hs_WorstRTT h) (hp_RTT hop)).
    + split; [|right; exists hop; set_solver]. intros y [Hy|Hy%list_elem_of_singleton]%elem_of_app; [specialize (Hw1 y Hy)|subst y]; lia.
    + split; [|destruct Hw2 as [?|(x & ? & ?)]; [by left|right; exists x; set_solver]].
      intros y [Hy|Hy%list_elem_of_singleton]%elem_of_app; [by apply Hw1|subst y; lia].
  - rewrite Hs. unfold rtts. rewrite map_app, total_cat. cbn. fold (rtts l). rewrite Z.add_0_r. apply dur_small. lia.
  - unfold rtts at 1. rewrite map_app. cbn [map]. fold (rtts l). rewrite Hl1, Hj2.
    unfold len. rewrite length_app. cbn [length].
    destruct (last l) as [x|] eqn:El.
    + assert (l ≠ []) as Hne by (by intros ->). rewrite bool_decide_eq_true_2 by done. cbn [negb].
      specialize (Hlast x eq_refl). rewrite (Hl2 x eq_refl), Hj1.
      assert (last (rtts l) = Some (hp_RTT x)) as Elr
        by (unfold rtts; change (map hp_RTT l) with (hp_RTT <$> l); by rewrite fmap_last, El).
      pose proof (jitter_sum_bound (rtts l ++ [hp_RTT hop])) as Hjb. rewrite total_cat in Hjb. cbn [total foldr] in Hjb.
      rewrite (jitter_sum_snoc _ _ _ Elr) in Hjb |- *.
      specialize (Hjb ltac:(apply Forall_app; split; [done|by constructor])). clear Elr.
      destruct l; [done|]. cbn [length]. split; [|lia].
      rewrite (dur_small (hp_RTT hop - hp_RTT x)) by lia. unfold absDuration.
      destruct (Z.ltb_spec (hp_RTT hop - hp_RTT x) 0); [rewrite (dur_small (- _)) by lia|]; rewrite dur_small; lia.
    + apply last_None in El as ->. cbn. split; [|done]. rewrite Hj1. done.
  - intros ip. unfold answers_from. rewrite filter_app. specialize (Ha (hp_IP hop)) as Hh. specialize (Ha ip).
    destruct (decide (hp_IP hop = ip)) as [<-|Hne].
    + rewrite filter_cons_True, filter_nil by done. rewrite len_app. change (len [hop]) with 1. rewrite lookup_insert_eq. cbn [ad_IP ad_Count].
      unfold answers_from in *. destruct (hs_addrCounts h !! hp_IP hop) as [a|]; cbn [default ad_IP ad_Count]; [|rewrite Hh; done].
      destruct Hh as (? & Hc & ?). rewrite <-Hc. split; [done|]. split; [done|]. cbn. lia.
    + rewrite filter_cons_False, filter_nil, app_nil_r by done. rewrite lookup_insert_ne by done. exact Ha.
Qed.

Lemma bounded_app l1 l2 : bounded (l1 ++ l2) → bounded l1.
Proof.
  intros [[H1 H2]%Forall_app H3]. split; [done|]. rewrite total_cat in H3. pose proof (total_nonneg _ H2). lia.
Qed.

Lemma summary_sent h l : summary h l → summary (add_sent h) l.
Proof. intros []. by split. Qed.

Lemma observe_eq h hop :
  observe h hop = if answered hop then reply (add_sent h) hop else add_sent h.
Proof.
  unfold observe, answered. destruct (bool_decide (hp_State hop = hopStateReply)), (bool_decide (hp_State hop = hopStateUnreachable));
    cbn [negb andb orb]; try done; by destruct (bool_decide (hp_IP hop = "")).
Qed.

Lemma observe_list h hops l0 :
  summary h l0 → bounded (rtts (l0 ++ filter (λ hop, answered hop = true) hops)) →
  let h' := foldl observe h hops in
  hs_TTL h' = hs_TTL h ∧ hs_Sent h' = hs_Sent h + len hops ∧
  summary h' (l0 ++ filter (λ hop, answered hop = true) hops).
Proof.
  revert h l0. induction hops as [|hop hops IH]; intros h l0 Hs Hb.
  { cbn [foldl]. rewrite filter_nil, app_nil_r. split; [done|]. split; [unfold len; cbn; lia|done]. }
  cbn [foldl]. rewrite len_cons, observe_eq. rewrite filter_cons in *. destruct (answered hop) eqn:E; cbn [decide decide_rel] in *.
  - destruct (decide (true = true)) as [_|]; [|done]. rewrite cons_middle, (assoc_L (++)) in Hb |- *.
    destruct (IH (reply (add_sent h) hop) (l0 ++ [hop])) as (H1 & H2 & H3); [|done|].
    + apply summary_reply; [by apply summary_sent|]. unfold rtts in *. rewrite map_app in Hb. by eapply bounded_app.
    + split; [by rewrite H1|]. split; [rewrite H2; cbn; lia|done].
  - destruct (decide (false = true)) as [|_]; [done|].
    destruct (IH (add_sent h) l0) as (H1 & H2 & H3); [by apply summary_sent|done|].
    split; [by rewrite H1|]. split; [rewrite H2; cbn; lia|done].
Qed.

Lemma observe_hops_lookup m hops ttl :
  foldl observe_hop m hops !! ttl =
  match filter (λ hop, hp_TTL hop = ttl) hops with
  | [] => m !! ttl
  | l => Some (foldl observe (default (stats_new ttl) (m !! ttl)) l)
  end.
Proof.
  revert m. induction hops as [|hop hops IH]; intros m; [done|]. cbn [foldl]. rewrite IH, filter_cons.
  unfold observe_hop. destruct (decide (hp_TTL hop = ttl)) as [<-|Hne].
  - rewrite lookup_insert_eq. by destruct (filter _ hops).
  - by rewrite lookup_insert_ne.
Qed.

Lemma monitor_lookup m r ttl :
  pm_hops (Observe m (Some r)) !! ttl =
  match hops_at ttl r with
  | [] => (λ s, if ttl <=? depth (tr_Hops r) then add_sent s else s) <$> (pm_hops m !! ttl)
  | l => Some (foldl observe (default (stats_new ttl) (pm_hops m !! ttl)) l)
  end.
Proof.
  unfold Observe. cbn [pm_hops]. rewrite map_lookup_imap, observe_hops_lookup. fold (hops_at ttl r).
  assert (ttl ∈ (list_to_set (map hp_TTL (tr_Hops r)) : gset Z) ↔ hops_at ttl r ≠ []) as Hseen.
  { rewrite elem_of_list_to_set. change (map hp_TTL (tr_Hops r)) with (hp_TTL <$> tr_Hops r). rewrite list_elem_of_fmap.
    unfold hops_at. split.
    - intros (x & -> & Hx) E. assert (x ∈ filter (λ hop, hp_TTL hop = hp_TTL x) (tr_Hops r)) as Hf by (by apply list_elem_of_filter).
      rewrite E in Hf. by apply elem_of_nil in Hf.
    - intros Hne. destruct (filter _ _) as [|x l] eqn:E; [done|]. exists x.
      assert (x ∈ x :: l) as Hx by left. rewrite <-E in Hx. by apply list_elem_of_filter in Hx as [? ?]. }
  destruct (hops_at ttl r) as [|x l] eqn:E.
  - destruct (pm_hops m !! ttl) as [s|]; [|done]. cbn. f_equal.
    destruct (Z.leb_spec ttl (depth (tr_Hops r))).
    + rewrite bool_decide_eq_true_2; [done|]. split; [done|]. rewrite Hseen. tauto.
    + rewrite bool_decide_eq_false_2; [done|]. lia.
  - cbn [mbind option_bind]. rewrite bool_decide_eq_false_2; [done|]. rewrite Hseen. intros [_ Hn]. by apply Hn.
Qed.

(** What the monitor holds for a TTL. *)
Definition holds (o : option HopStats) (ttl : Z) (known : bool) (sent : Z) (l : list TracerouteHop) : Prop :=
  match o with
  | None => known = false ∧ l = [] ∧ sent = 0
  | Some h => known = true ∧ hs_TTL h = ttl ∧ hs_Sent h = sent ∧ summary h l
  end.

Lemma summary_new ttl : summary (stats_new ttl) [].
Proof. split; try done; cbn; auto. split; [|by left]. intros x Hx. by apply elem_of_nil in Hx. Qed.

Lemma holds_step m r ttl known sent l :
  holds (pm_hops m !! ttl) ttl known sent l →
  bounded (rtts (l ++ filter (λ hop, answered hop = true) (hops_at ttl r))) →
  holds (pm_hops (Observe m (Some r)) !! ttl) ttl (knows known ttl r) (sent + round_sent known ttl r)
    (l ++ filter (λ hop, answered hop = true) (hops_at ttl r)).
Proof.
  intros Hh Hb. rewrite monitor_lookup. unfold knows, round_sent. destruct (hops_at ttl r) as [|x l'] eqn:E.
  - rewrite filter_nil, app_nil_r in *. destruct (pm_hops m !! ttl) as [h|]; cbn in *.
    + destruct Hh as (-> & Ht & <- & Hs). cbn [andb].
      destruct (Z.leb_spec ttl (depth (tr_Hops r))); split; try done; split; try done; split; cbn; try lia; [by apply summary_sent|done].
    + destruct Hh as (-> & -> & ->). done.
  - destruct (observe_list (default (stats_new ttl) (pm_hops m !! ttl)) (x :: l') l) as (H1 & H2 & H3); [|done|].
    + destruct (pm_hops m !! ttl) as [h|]; cbn in *; [apply Hh|]. destruct Hh as (_ & -> & _). apply summary_new.
    + unfold holds. split; [done|]. rewrite H1, H2. destruct (pm_hops m !! ttl) as [h|]; cbn in *.
      * destruct Hh as (_ & ? & <- & _). done.
      * destruct Hh as (_ & _ & ->). done.
Qed.

(** Monitoring forgets nothing: after any rounds, a TTL is known as soon as a
    round showed it; [Sent] counts its hops and, once known, the silence of
    every round that went at least as deep; and the latency extremes, sums,
    jitter and per-address counts are those of its answers, in order. *)
Theorem monitor_history target rs ttl :
  bounded (rtts (replies ttl rs)) →
  let m := foldl (λ m r, Observe m (Some r)) (NewPathMonitor target) rs in
  pm_rounds m = len rs ∧
  holds (pm_hops m !! ttl) ttl (known_after false ttl rs) (sent_over false ttl rs) (replies ttl rs).
Proof.
  intros Hb. cbv zeta.
  assert (∀ rs m known sent l, holds (pm_hops m !! ttl) ttl known sent l → bounded (rtts (l ++ replies ttl rs)) →
    let m' := foldl (λ m r, Observe m (Some r)) m rs in
    pm_rounds m' = pm_rounds m + len rs ∧
    holds (pm_hops m' !! ttl) ttl (known_after known ttl rs) (sent + sent_over known ttl rs) (l ++ replies ttl rs)) as HG.
  { clear. induction rs as [|r rs IH]; intros m known sent l Hh Hb.
    - cbn [foldl known_after sent_over]. unfold replies. cbn [map concat]. rewrite filter_nil, app_nil_r, (Z.add_0_r sent). split; [unfold len; cbn; lia|exact Hh].
    - assert (replies ttl (r :: rs) = filter (λ hop, answered hop = true) (hops_at ttl r) ++ replies ttl rs) as Er
        by (unfold replies; cbn [map concat]; by rewrite filter_app).
      rewrite Er, (assoc_L (++)) in Hb |- *. cbn [foldl known_after sent_over].
      destruct (IH (Observe m (Some r)) (knows known ttl r) (sent + round_sent known ttl r)
        (l ++ filter (λ hop, answered hop = true) (hops_at ttl r))) as [H1 H2]; [|done|].
      + apply holds_step; [done|]. unfold rtts in *. rewrite map_app in Hb. by eapply bounded_app.
      + split; [rewrite H1, len_cons; cbn; lia|]. by rewrite Z.add_assoc. }
  destruct (HG rs (NewPathMonitor target) false 0 []) as [H1 H2]; [done|done|]. split; [by rewrite H1|]. exact H2.
Qed.

Lemma monitor_history_witness :
  let hop s rtt := MkHop 1 "10.0.0.1" "" rtt s in
  let r1 := MkTrace "9.9.9.9" [hop hopStateReply 5; MkHop 2 "9.9.9.9" "" 9 hopStateReply] true "" in
  let r2 := MkTrace "9.9.9.9" [MkHop 2 "9.9.9.9" "" 12 hopStateReply] true "" in
  let m := foldl (λ m r, Observe m (Some r)) (NewPathMonitor "t") [r1; r2; r1] in
  bounded (rtts (replies 1 [r1; r2; r1])) ∧ hs_Sent <$> (pm_hops m !! 1) = Some 3 ∧
  hs_Received <$> (pm_hops m !! 1) = Some 2.
Proof.
  intros hop r1 r2 m. assert (bounded (rtts (replies 1 [r1; r2; r1]))) as Hb
    by (assert (rtts (replies 1 [r1; r2; r1]) = [5; 5]) as -> by done; split; [repeat constructor; lia|done]).
  split; [done|]. destruct (monitor_history "t" [r1; r2; r1] 1 Hb) as [_ Hh]. fold m in Hh.
  destruct (pm_hops m !! 1) as [h|]; [|destruct Hh; done]. destruct Hh as (_ & _ & Hsent & [Hrec _ _ _ _ _ _ _]).
  cbn [fmap option_fmap option_map]. rewrite Hsent, Hrec. done.
Defined.
End MonitorFacts.

(** ** What a snapshot shows *)
Module SnapshotFacts.
Import Monitor MonitorFacts.
Section snapshot.
Context `{!RangeOrder string} `{!RangeOrder Z}.

#[export] Instance addr_before_total : Total addr_before.
Proof.
  intros a b. unfold addr_before. destruct (decide (ad_Count a = ad_Count b)), (decide (ad_Count b = ad_Count a)); try lia.
  apply str_le_total.
Qed.

#[export] Instance ttl_before_total : Total ttl_before.
Proof. intros a b. unfold ttl_before. lia. Qed.
#[export] Instance ttl_before_trans : Transitive ttl_before.
Proof. intros a b c. unfold ttl_before. lia. Qed.

Lemma replies_le_sent ttl rs known : len (replies ttl rs) ≤ sent_over known ttl rs.
Proof.
  revert known. induction rs as [|r rs IH]; intros known; [done|]. cbn [sent_over].
  specialize (IH (knows known ttl r)). unfold replies in *. cbn [map concat]. rewrite filter_app, len_app.
  assert (len (filter (λ hop, answered hop = true) (hops_at ttl r)) ≤ round_sent known ttl r); [|lia].
  unfold round_sent. destruct (hops_at ttl r) as [|x l]; [destruct (_ && _); rewrite filter_nil; done|].
  unfold len. pose proof (length_filter (λ hop, answered hop = true) (x :: l)). lia.
Qed.

Lemma total_between l lo hi :
  Forall (λ x, lo ≤ x ≤ hi) l → len l * lo ≤ total l ≤ len l * hi.
Proof.
  induction 1 as [|x l Hx _ IH]; [done|]. change (total (x :: l)) with (x + total l). rewrite len_cons. lia.
Qed.

Lemma jitter_between l lo hi :
  Forall (λ x, lo ≤ x ≤ hi) l → 0 ≤ jitter_sum l ≤ Z.max 0 (len l - 1) * (hi - lo).
Proof.
  induction 1 as [|x l Hx Hl IH]; [done|]. destruct l as [|y l]; [done|].
  apply Forall_cons in Hl as [Hy _].
  change (jitter_sum (x :: y :: l)) with (Z.abs (y - x) + jitter_sum (y :: l)).
  rewrite (len_cons x). rewrite (len_cons y) in *. pose proof (len_nonneg l).
  rewrite Z.max_r in * by lia. lia.
Qed.

(** The averages of a summary lie between its extremes. *)
Lemma derive_between h l :
  summary h l → bounded (rtts l) → 0 < hs_Received h →
  let v := derive h in
  hv_BestRTT v ≤ hv_AvgRTT v ≤ hv_WorstRTT v ∧ 0 ≤ hv_Jitter v ≤ hv_WorstRTT v - hv_BestRTT v.
Proof.
  intros [Hr _ _ Hb [Hw _] Hs [Hj1 Hj2] _] [Hpos _] Hn. cbn.
  assert (l ≠ []) as Hne by (intros ->; rewrite Hr in Hn; done). destruct (Hb Hne) as [Hb1 (x0 & Hx0 & Hb2)].
  assert (Forall (λ x, hs_BestRTT h ≤ x ≤ hs_WorstRTT h) (rtts l)) as Hf.
  { apply list.Forall_forall. intros x Hx. unfold rtts in Hx. change (map hp_RTT l) with (hp_RTT <$> l) in Hx.
    apply list_elem_of_fmap in Hx as (y & -> & Hy). split; [by apply Hb1|by apply Hw]. }
  assert (len (rtts l) = len l) as Hlen by (unfold rtts, len; by rewrite length_map).
  pose proof (total_between _ _ _ Hf) as Ht. pose proof (jitter_between _ _ _ Hf) as Hj. rewrite Hlen in *.
  assert (0 ≤ hs_BestRTT h) as H0.
  { rewrite <-Hb2. eapply list.Forall_forall in Hpos; [exact Hpos|]. unfold rtts. change (map hp_RTT l) with (hp_RTT <$> l).
    by apply list_elem_of_fmap_2. }
  assert (hs_BestRTT h ≤ hs_WorstRTT h) as Hbw by (rewrite <-Hb2; by apply Hw).
  rewrite Hr in *. rewrite (proj2 (Z.ltb_lt 0 (len l))) by lia. rewrite Hs, Hj1, Hj2.
  split.
  - rewrite Z.quot_div_nonneg by nia. split; [apply Z.div_le_lower_bound; lia|apply Z.div_le_upper_bound; lia].
  - destruct (Z.ltb_spec 0 (Z.max 0 (len l - 1))); [|lia].
    rewrite Z.quot_div_nonneg by lia. split; [apply Z.div_pos; lia|apply Z.div_le_upper_bound; lia].
Qed.

(** A snapshot lists the hops by strictly increasing TTL, each with no more
    answers than probes, its average between its best and worst latency, its
    jitter within their spread, and its addresses most seen first. *)
Theorem Snapshot_spec target rs :
  (∀ ttl, bounded (rtts (replies ttl rs))) →
  let s := Snapshot (foldl (λ m r, Observe m (Some r)) (NewPathMonitor target) rs) in
  sn_Rounds s = len rs ∧ StronglySorted (λ a b, hv_TTL a < hv_TTL b) (sn_Hops s) ∧
  ∀ v, v ∈ sn_Hops s →
    0 ≤ hv_Received v ≤ hv_Sent v ∧ Sorted addr_before (hv_Addresses v) ∧
    (0 < hv_Received v → hv_BestRTT v ≤ hv_AvgRTT v ≤ hv_WorstRTT v ∧
       0 ≤ hv_Jitter v ≤ hv_WorstRTT v - hv_BestRTT v).
Proof.
  intros Hb. set (m := foldl _ _ rs). cbv zeta.
  assert (∀ ttl, holds (pm_hops m !! ttl) ttl (known_after false ttl rs) (sent_over false ttl rs) (replies ttl rs)) as Hh
    by (intros ttl; by apply monitor_history).
  cbn [sn_Rounds sn_Hops Snapshot]. split; [by apply (monitor_history target rs 0)|]. split.
  - set (l := map _ (range (pm_hops m))).
    assert (NoDup (hv_TTL <$> merge_sort ttl_before l)) as Hnd.
    { rewrite merge_sort_Permutation. unfold l. change (@map (Z * HopStats) HopView) with (@fmap list _ (Z * HopStats) HopView).
      rewrite <-list_fmap_compose. apply NoDup_fmap_2_strong.
      - intros [k1 h1] [k2 h2] H1%elem_of_range H2%elem_of_range. cbn. intros E.
        pose proof (Hh k1) as A1. rewrite H1 in A1. pose proof (Hh k2) as A2. rewrite H2 in A2.
        destruct A1 as (_ & T1 & _), A2 as (_ & T2 & _). assert (k1 = k2) as -> by congruence. congruence.
      - rewrite range_perm. apply NoDup_map_to_list. }
    pose proof (StronglySorted_merge_sort ttl_before l) as Hs.
    induction Hs as [|v vs Hs IH Hf]; [constructor|]. cbn in Hnd. apply NoDup_cons in Hnd as [Hv Hnd].
    constructor; [by apply IH|]. apply list.Forall_forall. intros w Hw.
    eapply list.Forall_forall in Hf; [|exact Hw]. unfold ttl_before in Hf.
    destruct (decide (hv_TTL v = hv_TTL w)) as [E|]; [|lia]. exfalso. apply Hv. rewrite E. by apply list_elem_of_fmap_2.
  - intros v Hv. rewrite merge_sort_Permutation in Hv.
    change (@map (Z * HopStats) HopView) with (@fmap list _ (Z * HopStats) HopView) in Hv.
    apply list_elem_of_fmap in Hv as ([k h] & -> & Hk%elem_of_range). cbn in Hk.
    specialize (Hh k). rewrite Hk in Hh. destruct Hh as (_ & _ & Hsent & Hsum).
    pose proof (replies_le_sent k rs false). cbn [hv_Received hv_Sent hv_Addresses derive].
    rewrite Hsent, (su_received _ _ Hsum). split; [pose proof (len_nonneg (replies k rs)); lia|].
    split; [apply Sorted_merge_sort, _|]. intros Hp. apply (derive_between h (replies k rs)); [done|by apply Hb|].
    by rewrite (su_received _ _ Hsum).
Qed.
End snapshot.

Lemma Snapshot_spec_witness :
  let hop rtt := MkHop 1 "10.0.0.1" "" rtt hopStateReply in
  let rs := [MkTrace "9.9.9.9" [hop 5] false ""; MkTrace "9.9.9.9" [hop 9] false ""] in
  let s := Snapshot (foldl (λ m r, Observe m (Some r)) (NewPathMonitor "t") rs) in
  sn_Rounds s = 2 ∧ map hv_AvgRTT (sn_Hops s) = [7] ∧ map hv_Jitter (sn_Hops s) = [4].
Proof.
  intros hop rs s. split; [|by vm_compute]. apply (Snapshot_spec "t" rs). intros ttl.
  destruct (decide (ttl = 1)) as [->|Hne].
  - assert (rtts (replies 1 rs) = [5; 9]) as -> by done. split; [repeat constructor; lia|done].
  - assert (rtts (replies ttl rs) = []) as ->.
    { unfold replies, rs, hops_at, hop. cbn [map concat tr_Hops]. rewrite !filter_cons_False by (cbn; lia). done. }
    split; [constructor|done].
Defined.
End SnapshotFacts.

(** ** Distinct routes *)
Module MultiPathFacts.
Import MultiPath.

(** The flow identifiers are valid 16-bit ones and never repeat. *)
Theorem multiPathFlowID_distinct a b :
  0 ≤ a < 65535 → 0 ≤ b < 65535 →
  1 ≤ multiPathFlowID a ≤ 65535 ∧ (multiPathFlowID a = multiPathFlowID b → a = b).
Proof.
  intros Ha Hb. unfold multiPathFlowID, stride. rewrite !Z.rem_mod_nonneg by lia.
  pose proof (Z.mod_pos_bound (a * 7919) 65535). split; [lia|]. intros E.
  assert ((a * 7919) mod 65535 = (b * 7919) mod 65535) as Em by lia.
  assert ((65535 | (a - b) * 7919)) as Hd.
  { apply Z.mod_divide; [lia|]. rewrite Z.mul_sub_distr_r, Zminus_mod, Em, Z.sub_diag. done. }
  rewrite Z.mul_comm in Hd. apply Z.gauss in Hd; [|by vm_compute]. destruct Hd as [k Hk]. lia.
Qed.

Lemma multiPathFlowID_distinct_witness : multiPathFlowID 3 = multiPathFlowID 3 ∧ 1 ≤ multiPathFlowID 7 ≤ 65535.
Proof. split; [done|]. by apply (multiPathFlowID_distinct 7 7). Defined.

(** *** Divergence *)

(** Two routes that answered at a hop with different addresses. *)
Definition disagree (ttl : nat) (paths : list PathVariant) : Prop :=
  ∃ p q a b, p ∈ paths ∧ q ∈ paths ∧ pv_Hops p !! ttl = Some a ∧ pv_Hops q !! ttl = Some b ∧
    a ≠ ""%string ∧ b ≠ ""%string ∧ a ≠ b.

(** The addresses heard at a hop, in the order of the routes. *)
Definition heard (ttl : nat) (paths : list PathVariant) : list string :=
  filter (λ a, a ≠ ""%string) (omap (λ p, pv_Hops p !! ttl) paths).

Lemma elem_of_heard ttl paths a :
  a ∈ heard ttl paths ↔ a ≠ ""%string ∧ ∃ p, p ∈ paths ∧ pv_Hops p !! ttl = Some a.
Proof. unfold heard. rewrite list_elem_of_filter, list_elem_of_omap. done. Qed.

Lemma diverges_at_heard ttl paths seen :
  diverges_at ttl paths seen = true ↔
  if decide (seen = ""%string)
  then ∃ a rest b, heard ttl paths = a :: rest ∧ b ∈ rest ∧ a ≠ b
  else ∃ b, b ∈ heard ttl paths ∧ b ≠ seen.
Proof.
  revert seen. induction paths as [|p paths IH]; intros seen.
  { cbn. destruct (decide (seen = _)); split; try done; [intros (?&?&?&?&?); done|intros (b & Hb & _)].
    by apply elem_of_nil in Hb. }
  cbn [diverges_at]. unfold heard in *. cbn [omap list_omap]. destruct (pv_Hops p !! ttl) as [a|]; [|apply IH].
  rewrite filter_cons. destruct (decide (a = ""%string)) as [->|Ha].
  { destruct (decide (""%string ≠ ""%string)) as [|_]; [done|]. apply IH. }
  destruct (decide (a ≠ ""%string)) as [_|]; [|done].
  destruct (decide (seen = ""%string)) as [->|Hseen].
  - rewrite IH. destruct (decide (a = ""%string)); [done|]. split.
    + intros (b & Hb & Hne). exists a, (filter (λ a, a ≠ ""%string) (omap (λ p, pv_Hops p !! ttl) paths)), b. done.
    + intros (x & rest & b & [= <- <-] & Hb & Hne). exists b. done.
  - destruct (decide (a = seen)) as [->|Hne].
    + rewrite IH. destruct (decide (seen = _)); [done|]. set_solver.
    + split; [|done]. intros _. exists a. set_solver.
Qed.

Lemma diverges_at_spec ttl paths : diverges_at ttl paths "" = true ↔ disagree ttl paths.
Proof.
  rewrite diverges_at_heard. destruct (decide _); [|done]. split.
  - intros (a & rest & b & E & Hb & Hne).
    assert (a ∈ heard ttl paths) as Ha by (rewrite E; left). assert (b ∈ heard ttl paths) as Hb' by (rewrite E; by right).
    apply elem_of_heard in Ha as (? & p & ? & ?), Hb' as (? & q & ? & ?). by exists p, q, a, b.
  - intros (p & q & a & b & Hp & Hq & Ea & Eb & Ha & Hb & Hne).
    assert (a ∈ heard ttl paths) as Ha' by (apply elem_of_heard; eauto).
    assert (b ∈ heard ttl paths) as Hb' by (apply elem_of_heard; eauto).
    destruct (heard ttl paths) as [|x rest]; [by apply elem_of_nil in Ha'|].
    apply elem_of_cons in Ha' as [->|Ha'], Hb' as [->|Hb']; [done|by exists x, rest, b|exists x, rest, a; naive_solver|].
    destruct (decide (x = a)) as [->|]; [by exists a, rest, b|by exists x, rest, a].
Qed.

Lemma longestPath_ge paths p : p ∈ paths → (length (pv_Hops p) ≤ longestPath paths)%nat.
Proof.
  unfold longestPath. generalize 0%nat. induction paths as [|q paths IH]; intros n Hp; [by apply elem_of_nil in Hp|].
  cbn [foldl]. assert (∀ l m, (m ≤ foldl (λ longest path, if decide (longest < length (pv_Hops path))%nat
    then length (pv_Hops path) else longest) m l)%nat) as Hmono.
  { clear. induction l as [|q l IH]; intros m; [done|]. cbn [foldl]. etransitivity; [|apply IH].
    destruct (decide _); lia. }
  apply elem_of_cons in Hp as [->|Hp]; [|by apply IH]. etransitivity; [|apply Hmono]. destruct (decide _); lia.
Qed.

Lemma first_divergence_spec n k paths :
  let d := first_divergence (seq k n) paths in
  (d = 0 ∧ ∀ t, (k ≤ t < k + n)%nat → ¬ disagree t paths) ∨
  (∃ t, (k ≤ t < k + n)%nat ∧ d = Z.of_nat t + 1 ∧ disagree t paths ∧ ∀ t', (k ≤ t' < t)%nat → ¬ disagree t' paths).
Proof.
  revert k. induction n as [|n IH]; intros k; cbn [seq first_divergence]; [left; split; [done|lia]|].
  destruct (diverges_at k paths "") eqn:E.
  - right. exists k. apply diverges_at_spec in E. split; [lia|]. split; [done|]. split; [done|lia].
  - assert (¬ disagree k paths) as Hk by (rewrite <-diverges_at_spec; congruence).
    destruct (IH (S k)) as [[-> H]|(t & Ht & -> & Hd & H)]; [left|right].
    + split; [done|]. intros t Ht. destruct (decide (t = k)) as [->|]; [done|apply H; lia].
    + exists t. split; [lia|]. split; [done|]. split; [done|]. intros t' Ht'.
      destruct (decide (t' = k)) as [->|]; [done|apply H; lia].
Qed.

(** The divergence point is the first hop where two of the routes answered
    with different addresses, silence never counting, and zero exactly when
    there is none. *)
Theorem divergencePoint_spec paths :
  (divergencePoint paths = 0 ∧ ∀ t, ¬ disagree t paths) ∨
  (∃ t, divergencePoint paths = Z.of_nat t + 1 ∧ disagree t paths ∧ ∀ t', (t' < t)%nat → ¬ disagree t' paths).
Proof.
  assert (∀ t, disagree t paths → (t < longestPath paths)%nat) as Hlong.
  { intros t (p & _ & a & _ & Hp & _ & Ea & _). apply longestPath_ge in Hp. apply lookup_lt_Some in Ea. lia. }
  unfold divergencePoint. destruct (Z.ltb_spec (len paths) 2).
  - left. split; [done|]. intros t (p & q & a & b & Hp & Hq & Ea & Eb & _ & _ & Hne).
    destruct paths as [|x [|y paths]]; [by apply elem_of_nil in Hp| |unfold len in *; cbn in *; lia].
    apply list_elem_of_singleton in Hp, Hq. congruence.
  - destruct (first_divergence_spec (longestPath paths) 0 paths) as [[-> H1]|(t & Ht & -> & Hd & H1)]; [left|right].
    + split; [done|]. intros t Ht. apply (H1 t); [|done]. apply Hlong in Ht. lia.
    + exists t. split; [done|]. split; [done|]. intros t' Ht'. apply H1. lia.
Qed.
End MultiPathFacts.

(** ** The set of routes a discovery reports *)
Module DiscoverFacts.
Import MultiPath MultiPathFacts.

Section discover.
Context (cancelled : nat → bool → bool) (trace : Z → option TracerouteResult).

(** The traces that were folded in: every attempt that returned one before
    the run was cancelled. *)
Fixpoint ran (todo : list nat) : list TracerouteResult :=
  match todo with
  | [] => []
  | a :: rest =>
      if cancelled a false || cancelled a true then []
      else match trace (multiPathFlowID (Z.of_nat a)) with
           | None => ran rest
           | Some r => r :: ran rest
           end
  end.

Lemma attempts_ran todo res vs :
  let '(res', vs') := attempts cancelled trace todo (res, vs) in
  mp_Attempts res' = mp_Attempts res + len (ran todo) ∧ mp_Target res' = mp_Target res ∧
  vs' = foldl foldVariant vs (ran todo).
Proof.
  revert res vs. induction todo as [|a todo IH]; intros res vs; [cbn; unfold len; cbn; split; [lia|done]|].
  cbn [attempts ran]. destruct (cancelled a false); [cbn; unfold len; cbn; split; [lia|done]|].
  destruct (cancelled a true); [cbn; unfold len; cbn; split; [lia|done]|]. cbn [orb].
  destruct (trace _) as [r|]; [|apply IH].
  match goal with |- context [attempts _ _ todo (?x, ?y)] => specialize (IH x y) end.
  destruct (attempts _ _ _ _) as [res' vs']. destruct IH as (H1 & H2 & H3).
  rewrite H1, len_cons. cbn [mp_Attempts foldl]. split; [lia|]. done.
Qed.
End discover.

Definition key (r : TracerouteResult) : string := join (hopAddresses r).

(** The traces that took the route with this key. *)
Definition took (k : string) (rs : list TracerouteResult) : list TracerouteResult :=
  filter (λ r, key r = k) rs.

Lemma fold_variants rs :
  ∀ k, match foldl foldVariant ∅ rs !! k with
  | None => took k rs = []
  | Some v => join (pv_Hops v) = k ∧ pv_Seen v = len (took k rs) ∧ 0 < pv_Seen v ∧
      pv_Completed v = existsb tr_Completed (took k rs) ∧
      (∃ r, r ∈ took k rs ∧ pv_Hops v = hopAddresses r)
  end.
Proof.
  induction rs as [|r rs IH] using rev_ind; intros k; [cbn [foldl]; by rewrite lookup_empty|].
  rewrite foldl_app. cbn [foldl]. unfold took. rewrite filter_app. fold (took k rs).
  set (acc := foldl foldVariant ∅ rs) in *. unfold foldVariant. fold (key r). destruct (decide (key r = k)) as [<-|Hne].
  - rewrite lookup_insert_eq. rewrite filter_cons_True, filter_nil by done. specialize (IH (key r)).
    rewrite len_app, existsb_app. change (len [r]) with 1. cbn [existsb].
    destruct (acc !! key r) as [v|]; cbn [from_option id pv_Hops pv_Seen pv_Completed].
    + destruct IH as (H1 & H2 & H3 & H4 & r0 & H5 & H6). split; [done|]. split; [lia|]. split; [lia|].
      split; [rewrite H4; destruct (tr_Completed r); by rewrite ?orb_true_r, ?orb_false_r|]. exists r0. set_solver.
    + rewrite IH. split; [done|]. split; [done|]. split; [lia|]. split; [by destruct (tr_Completed r)|].
      exists r. set_solver.
  - rewrite lookup_insert_ne by done. rewrite filter_cons_False, filter_nil, app_nil_r by done. apply IH.
Qed.

#[export] Instance variant_before_total : Total variant_before.
Proof.
  intros a b. unfold variant_before. destruct (decide (pv_Seen a = pv_Seen b)), (decide (pv_Seen b = pv_Seen a)); try lia.
  apply str_le_total.
Qed.

(** Discovery folds at most eight traces and reports each distinct route
    once, most travelled first: a route's count is the number of traces that
    took it, it is completed when one of them was, every trace is on a
    reported route, and the divergence point is that of the routes. *)
Theorem DiscoverPaths_spec `{!RangeOrder string} cancelled trace target :
  let r := DiscoverPaths cancelled trace target in
  let rs := ran cancelled trace (seq 0 MultiPathAttempts) in
  mp_Target r = target ∧ mp_Attempts r = len rs ∧ mp_Attempts r ≤ 8 ∧
  Sorted variant_before (mp_Paths r) ∧ NoDup (map (λ v, join (pv_Hops v)) (mp_Paths r)) ∧
  (∀ v, v ∈ mp_Paths r → pv_Seen v = len (took (join (pv_Hops v)) rs) ∧ 0 < pv_Seen v ∧
     pv_Completed v = existsb tr_Completed (took (join (pv_Hops v)) rs) ∧
     ∃ t, t ∈ rs ∧ pv_Hops v = hopAddresses t) ∧
  (∀ t, t ∈ rs → ∃ v, v ∈ mp_Paths r ∧ join (pv_Hops v) = key t) ∧
  mp_DivergesAtTTL r = divergencePoint (mp_Paths r).
Proof.
  cbv zeta. unfold DiscoverPaths.
  pose proof (attempts_ran cancelled trace (seq 0 MultiPathAttempts) (MkMulti target "" 0 [] 0 "") ∅) as HA.
  destruct (attempts _ _ _ _) as [res vs]. destruct HA as (H1 & H2 & ->). set (rs := ran _ _ _) in *.
  cbn [mp_Target mp_Attempts mp_Paths mp_DivergesAtTTL] in *.
  pose proof (fold_variants rs) as HF. set (vs := foldl foldVariant ∅ rs) in *.
  assert (∀ v, v ∈ sortedVariants vs ↔ ∃ k, vs !! k = Some v) as Hin.
  { intros v. unfold sortedVariants. rewrite merge_sort_Permutation.
    change (@map (string * PathVariant) PathVariant) with (@fmap list _ (string * PathVariant) PathVariant).
    rewrite list_elem_of_fmap. split.
    - intros ([k v'] & -> & Hk%elem_of_range). eauto.
    - intros [k Hk]. exists (k, v). split; [done|]. by apply elem_of_range. }
  split; [done|]. split; [lia|]. split; [|split; [|split; [|split; [|split; [|done]]]]].
  - rewrite H1. assert (∀ todo, (length (ran cancelled trace todo) ≤ length todo)%nat) as Hlen.
    { induction todo as [|a todo IH]; [done|]. cbn [ran]. destruct (_ || _); [cbn; lia|].
      destruct (trace _); cbn; lia. }
    specialize (Hlen (seq 0 MultiPathAttempts)). fold rs in Hlen. rewrite length_seq in Hlen. unfold MultiPathAttempts, len in *. lia.
  - apply Sorted_merge_sort, _.
  - unfold sortedVariants. change (@map PathVariant string) with (@fmap list _ PathVariant string).
    rewrite merge_sort_Permutation. change (@map (string * PathVariant) PathVariant) with (@fmap list _ (string * PathVariant) PathVariant).
    rewrite <-list_fmap_compose. apply NoDup_fmap_2_strong.
    + intros [k1 v1] [k2 v2] E1%elem_of_range E2%elem_of_range. cbn. intros E.
      pose proof (HF k1) as A1. rewrite E1 in A1. pose proof (HF k2) as A2. rewrite E2 in A2.
      destruct A1 as [A1 _], A2 as [A2 _]. assert (k1 = k2) as -> by congruence. congruence.
    + rewrite range_perm. apply NoDup_map_to_list.
  - intros v [k Hk]%Hin. specialize (HF k). rewrite Hk in HF. destruct HF as (<- & ? & ? & ? & t & Ht & ?).
    split; [done|]. split; [done|]. split; [done|]. exists t. split; [|done]. by apply list_elem_of_filter in Ht as [_ ?].
  - intros t Ht. specialize (HF (key t)). destruct (vs !! key t) as [v|] eqn:E.
    + exists v. split; [apply Hin; eauto|]. apply HF.
    + exfalso. assert (t ∈ took (key t) rs) as Hx by (by apply list_elem_of_filter). rewrite HF in Hx. by apply elem_of_nil in Hx.
Qed.
End DiscoverFacts.

(** ** Longest prefix *)
Module HopRouteFacts.
Import HopRoute.
Section route.
Context (ParseAddr : string → option Addr).

(** The route of a hop is the one a router forwards by: it covers the
    target, no covering route is more specific, the first wins among equals,
    and there is none exactly when no route covers it. *)
Theorem longestMatch_spec routes dst :
  let '(best, found) := longestMatch ParseAddr routes dst in
  let cov := covers ParseAddr (addr_unmap dst) in
  (found = true ↔ ∃ r, r ∈ routes ∧ cov r = true) ∧
  (found = true → ∃ before after, routes = before ++ best :: after ∧ cov best = true ∧
     (∀ r, r ∈ before → cov r = true → rt_Prefix r < rt_Prefix best) ∧
     (∀ r, r ∈ after → cov r = true → rt_Prefix r ≤ rt_Prefix best)).
Proof.
  unfold longestMatch. set (d := addr_unmap dst).
  induction routes as [|r routes IH] using rev_ind; cbn.
  { split; [|done]. split; [done|]. intros (r & Hr%elem_of_nil & _). done. }
  rewrite foldl_app. cbn [foldl]. destruct (foldl (match_step ParseAddr d) (route_zero, false) routes) as [best found].
  destruct IH as [H1 H2]. cbn [match_step]. destruct (covers ParseAddr d r) eqn:Er; cbn [negb].
  - assert (∃ x, x ∈ routes ++ [r] ∧ covers ParseAddr d x = true) as Hex by (exists r; set_solver).
    destruct found; cbn [negb orb].
    + destruct (H2 eq_refl) as (bf & af & -> & Hb & Hbf & Haf).
      destruct (Z.ltb_spec (rt_Prefix best) (rt_Prefix r)).
      * split; [done|]. intros _. exists (bf ++ best :: af), []. split; [done|]. split; [done|].
        split; [|by intros x ?%elem_of_nil]. intros x [Hx|[->|Hx]%elem_of_cons]%elem_of_app Hc; [|done|].
        -- specialize (Hbf x Hx Hc). lia.
        -- specialize (Haf x Hx Hc). lia.
      * split; [done|]. intros _. exists bf, (af ++ [r]). split; [by rewrite <-(assoc_L (++))|]. split; [done|].
        split; [done|]. intros x [Hx|Hx%list_elem_of_singleton]%elem_of_app Hc; [by apply Haf|subst; lia].
    + split; [done|]. intros _. exists routes, []. split; [done|]. split; [done|].
      split; [|by intros x ?%elem_of_nil]. intros x Hx Hc. exfalso. assert (false = true) by (apply H1; eauto). done.
  - split.
    + rewrite H1. split; intros (x & Hx & Hc); exists x; [set_solver|].
      apply elem_of_app in Hx as [Hx|Hx%list_elem_of_singleton]; [done|subst; congruence].
    + intros Hf. destruct (H2 Hf) as (bf & af & -> & Hb & Hbf & Haf). exists bf, (af ++ [r]).
      split; [by rewrite <-(assoc_L (++))|]. split; [done|]. split; [done|].
      intros x [Hx|Hx%list_elem_of_singleton]%elem_of_app Hc; [by apply Haf|subst; congruence].
Qed.
End route.
End HopRouteFacts.
