(* ===== verification/L2Path.v ===== *)
(** * Layer 2 paths

    Models [src/internal/discovery/l2path.go]: the walk from a source device
    to a destination over the switches their neighbour data names. The hops of
    the result are copies taken before the walk looks for the next hop, as in
    the code, so what the walk writes into a hop after that copy does not
    reach the result. The device inventory, the context and the SNMP identity
    query are parameters, read anew at each step. Names compare as with
    [strings.EqualFold] on ASCII text. *)
From Stdlib Require Import ZArith Lia.
From stdpp Require Import base gmap sets list strings.
From S2P Require Import Prelude GoBase.

Record PortInfo : Type := MkPort {
  pi_Name : string;
  pi_VLANs : list Z;
  pi_ConnectedTo : string;
}.

Record L2Hop : Type := MkL2Hop {
  lh_Device : string;
  lh_DeviceIP : string;
  lh_IngressPort : option PortInfo;
  lh_EgressPort : option PortInfo;
  lh_Source : string;
}.

Definition set_device (h : L2Hop) (name : string) : L2Hop :=
  MkL2Hop name (lh_DeviceIP h) (lh_IngressPort h) (lh_EgressPort h) (lh_Source h).
Definition set_ingress (h : L2Hop) (p : option PortInfo) : L2Hop :=
  MkL2Hop (lh_Device h) (lh_DeviceIP h) p (lh_EgressPort h) (lh_Source h).
Definition set_egress (h : L2Hop) (p : option PortInfo) : L2Hop :=
  MkL2Hop (lh_Device h) (lh_DeviceIP h) (lh_IngressPort h) p (lh_Source h).

Record LLDPInfo : Type := MkLLDP {
  li_SystemName : string;
  li_ManagementAddress : string;
  li_PortID : string;
  li_PortDescription : string;
}.

Record CDPInfo : Type := MkCDP {
  ci_DeviceID : string;
  ci_ManagementAddress : string;
  ci_PortID : string;
  ci_NativeVLAN : Z;
}.

Record EDPInfo : Type := MkEDP {
  ei_DisplayName : string;
  ei_DeviceID : string;
  ei_PortID : string;
  ei_VLAN : Z;
}.

Record DiscoveredDevice : Type := MkDevice {
  dv_MAC : string;
  dv_LLDPInfo : option LLDPInfo;
  dv_CDPInfo : option CDPInfo;
  dv_EDPInfo : option EDPInfo;
}.

Inductive l2_error : Type :=
| ErrSourceNotFound
| ErrDestNotFound
| ErrNoFirstHop
| ErrContext
| ErrNoHops.

Definition maxHops : nat := 20.

Definition str_empty (s : string) : bool := bool_decide (s = ""%string).

Definition equal_fold (x y : string) : bool := bool_decide (to_lower x = to_lower y).

Definition deviceMatchesHop (name ip : string) (hop : L2Hop) : bool :=
  if negb (str_empty name) && negb (str_empty (lh_Device hop)) && equal_fold name (lh_Device hop) then true
  else negb (str_empty ip) && negb (str_empty (lh_DeviceIP hop)) && bool_decide (ip = lh_DeviceIP hop).

(** The name of an EDP neighbour. *)
Definition edp_name (e : EDPInfo) : string :=
  if str_empty (ei_DisplayName e) then ei_DeviceID e else ei_DisplayName e.

Definition vlans (id : Z) : list Z := if 0 <? id then [id] else [].

Definition findFirstHop (source : DiscoveredDevice) : option L2Hop :=
  match dv_LLDPInfo source with
  | Some l =>
      let name := if negb (str_empty (li_PortDescription l)) then li_PortDescription l else li_PortID l in
      Some (MkL2Hop (li_SystemName l) (li_ManagementAddress l) (Some (MkPort name [] (dv_MAC source))) None "lldp")
  | None =>
      match dv_CDPInfo source with
      | Some c =>
          Some (MkL2Hop (ci_DeviceID c) (ci_ManagementAddress c)
                  (Some (MkPort (ci_PortID c) (vlans (ci_NativeVLAN c)) (dv_MAC source))) None "cdp")
      | None =>
          match dv_EDPInfo source with
          | Some e =>
              Some (MkL2Hop (edp_name e) "" (Some (MkPort (ei_PortID e) (vlans (ei_VLAN e)) (dv_MAC source))) None "edp")
          | None => None
          end
      end
  end.

(** The three tests of [checkDeviceAsNeighbor], each with the hop it builds. *)
Definition lldp_neighbor (device : DiscoveredDevice) (hop : L2Hop) : option L2Hop :=
  l ← dv_LLDPInfo device;
  if deviceMatchesHop (li_SystemName l) (li_ManagementAddress l) hop
  then Some (MkL2Hop (li_SystemName l) (li_ManagementAddress l) None
               (Some (MkPort (li_PortID l) [] (dv_MAC device))) "lldp")
  else None.

Definition cdp_neighbor (device : DiscoveredDevice) (hop : L2Hop) : option L2Hop :=
  c ← dv_CDPInfo device;
  if deviceMatchesHop (ci_DeviceID c) (ci_ManagementAddress c) hop
  then Some (MkL2Hop (ci_DeviceID c) (ci_ManagementAddress c) None
               (Some (MkPort (ci_PortID c) (vlans (ci_NativeVLAN c)) (dv_MAC device))) "cdp")
  else None.

Definition edp_neighbor (device : DiscoveredDevice) (hop : L2Hop) : option L2Hop :=
  e ← dv_EDPInfo device;
  if deviceMatchesHop (edp_name e) "" hop
  then Some (MkL2Hop (edp_name e) "" None
               (Some (MkPort (ei_PortID e) (vlans (ei_VLAN e)) (dv_MAC device))) "edp")
  else None.

Definition checkDeviceAsNeighbor (device : DiscoveredDevice) (hop : L2Hop) : option L2Hop :=
  match lldp_neighbor device hop with
  | Some h => Some h
  | None => match cdp_neighbor device hop with
            | Some h => Some h
            | None => edp_neighbor device hop
            end
  end.

(** The three tests of [checkDestinationReached], in its order: the current
    hop with the egress port they set. *)
Definition edp_dest (hop : L2Hop) (dest : DiscoveredDevice) : L2Hop :=
  match dv_EDPInfo dest with
  | Some e => if deviceMatchesHop (edp_name e) "" hop
              then set_egress hop (Some (MkPort (ei_PortID e) [] (dv_MAC dest))) else hop
  | None => hop
  end.

Definition cdp_dest (hop : L2Hop) (dest : DiscoveredDevice) : L2Hop :=
  match dv_CDPInfo dest with
  | Some c => if deviceMatchesHop (ci_DeviceID c) (ci_ManagementAddress c) hop
              then set_egress hop (Some (MkPort (ci_PortID c) [] (dv_MAC dest))) else edp_dest hop dest
  | None => edp_dest hop dest
  end.

Definition checkDestinationReached (hop : L2Hop) (dest : DiscoveredDevice) : L2Hop :=
  match dv_LLDPInfo dest with
  | Some l => if deviceMatchesHop (li_SystemName l) (li_ManagementAddress l) hop
              then set_egress hop (Some (MkPort (li_PortID l) [] (dv_MAC dest))) else cdp_dest hop dest
  | None => cdp_dest hop dest
  end.

(** The loop of [findNeighborTowardDestination] with its tail: the current
    hop as it leaves it, and the next one. *)
Fixpoint findNeighborTowardDestination (devices : list DiscoveredDevice) (hop : L2Hop)
    (dest : DiscoveredDevice) : L2Hop * option L2Hop :=
  match devices with
  | [] => (checkDestinationReached hop dest, None)
  | device :: rest =>
      if bool_decide (dv_MAC device = dv_MAC dest) then findNeighborTowardDestination rest hop dest
      else match checkDeviceAsNeighbor device hop with
           | None => findNeighborTowardDestination rest hop dest
           | Some next =>
               let hop := match lh_EgressPort hop with None => set_egress hop (lh_EgressPort next) | Some _ => hop end in
               (hop, Some (set_ingress next (lh_EgressPort hop)))
           end
  end.

(** What the SNMP identity query of [enrichHopWithSNMP] yields: [None] when
    there are no credentials, none of them resolve, or the query fails;
    otherwise the device's [sysName]. *)
Definition enrichHopWithSNMP (hop : L2Hop) (sysName : option string) : L2Hop :=
  if str_empty (lh_DeviceIP hop) then hop else
  match sysName with
  | Some n => if negb (str_empty n) && str_empty (lh_Device hop) then set_device hop n else hop
  | None => hop
  end.

Definition isDestinationReached (hop : L2Hop) (dest : DiscoveredDevice) : bool :=
  match lh_EgressPort hop with
  | Some p => bool_decide (pi_ConnectedTo p = dv_MAC dest)
  | None => false
  end.

(** The outside world: what step [n] of a walk sees. *)
Class World : Type := {
  w_cancelled : nat → bool;
  w_devices : nat → list DiscoveredDevice;
  w_sysName : nat → string → option string;
  w_creds : bool;
}.

Section build.
Context `{World}.

Definition findNextHop (n : nat) (hop : L2Hop) (dest : DiscoveredDevice) : L2Hop * option L2Hop :=
  let hop := if negb (str_empty (lh_DeviceIP hop)) && w_creds
             then enrichHopWithSNMP hop (w_sysName n (lh_DeviceIP hop)) else hop in
  findNeighborTowardDestination (w_devices n) hop dest.

(** The loop of [BuildPath]: [todo] rounds are left of [maxHops]. *)
Fixpoint walk (todo : nat) (current : option L2Hop) (visited : gset string) (hops : list L2Hop)
    (dest : DiscoveredDevice) : list L2Hop + l2_error :=
  match todo with
  | O => inl hops
  | S todo' =>
      let n := (maxHops - todo)%nat in
      if w_cancelled n then inr ErrContext else
      match current with
      | None => inl hops
      | Some hop =>
          if bool_decide (lh_DeviceIP hop ∈ visited) then inl hops else
          let visited := {[ lh_DeviceIP hop ]} ∪ visited in
          let hops := hops ++ [hop] in
          if isDestinationReached hop dest then inl hops else
          let '(_, next) := findNextHop n hop dest in
          walk todo' next visited hops dest
      end
  end.

Definition BuildPath (source dest : option DiscoveredDevice) : list L2Hop + l2_error :=
  match source, dest with
  | None, _ => inr ErrSourceNotFound
  | _, None => inr ErrDestNotFound
  | Some source, Some dest =>
      match findFirstHop source with
      | None => inr ErrNoFirstHop
      | Some first =>
          match walk maxHops (Some first) ∅ [] dest with
          | inl [] => inr ErrNoHops
          | r => r
          end
      end
  end.
End build.

(** ** The walk *)

(** A hop the walk can stand on: it has no egress port, or one that leads to
    a device other than the destination. *)
Definition short_of (dest : DiscoveredDevice) (hop : L2Hop) : Prop := isDestinationReached hop dest = false.

(** [b] is found from [a]: it names or addresses the same switch, [a] under
    its own name or, where it had none, the one SNMP gave. *)
Definition found_from (a b : L2Hop) : Prop :=
  ∃ a', (a' = a ∨ lh_Device a = ""%string ∧ ∃ n, n ≠ ""%string ∧ a' = set_device a n) ∧
    deviceMatchesHop (lh_Device b) (lh_DeviceIP b) a' = true.

(** The two hops have one name, up to case. *)
Definition same_name (a b : L2Hop) : Prop :=
  (lh_Device a = ""%string ∨ equal_fold (lh_Device b) (lh_Device a) = true) ∧ lh_Device b ≠ ""%string.

Lemma checkDeviceAsNeighbor_spec device hop next :
  checkDeviceAsNeighbor device hop = Some next →
  deviceMatchesHop (lh_Device next) (lh_DeviceIP next) hop = true ∧
  ∃ p, lh_EgressPort next = Some p ∧ pi_ConnectedTo p = dv_MAC device.
Proof.
  unfold checkDeviceAsNeighbor, lldp_neighbor, cdp_neighbor, edp_neighbor. intros H.
  destruct (dv_LLDPInfo device) as [l|]; cbn in H.
  all: try (destruct (deviceMatchesHop (li_SystemName l) _ hop) eqn:El; [injection H as <-; cbn; eauto|]).
  all: destruct (dv_CDPInfo device) as [c|]; cbn in H.
  all: try (destruct (deviceMatchesHop (ci_DeviceID c) _ hop) eqn:Ec; [injection H as <-; cbn; eauto|]).
  all: destruct (dv_EDPInfo device) as [e|]; cbn in H; [|done].
  all: destruct (deviceMatchesHop (edp_name e) _ hop) eqn:Ee; [injection H as <-; cbn; eauto|done].
Qed.

Lemma next_spec devices hop dest hop' next :
  findNeighborTowardDestination devices hop dest = (hop', Some next) →
  deviceMatchesHop (lh_Device next) (lh_DeviceIP next) hop = true ∧ short_of dest next.
Proof.
  induction devices as [|device devices IH]; cbn; [done|].
  destruct (bool_decide_reflect (dv_MAC device = dv_MAC dest)) as [|Hne]; [done|].
  destruct (checkDeviceAsNeighbor device hop) as [n|] eqn:E; [|done].
  intros [= _ <-]. apply checkDeviceAsNeighbor_spec in E as (Hm & p & Hp & Hc). cbn. split; [done|].
  unfold short_of, isDestinationReached. cbn. rewrite Hp, Hc. by apply bool_decide_eq_false_2.
Qed.

Section walk.
Context `{World}.

Lemma findNextHop_spec n hop dest hop' next :
  findNextHop n hop dest = (hop', Some next) → found_from hop next ∧ short_of dest next.
Proof.
  unfold findNextHop. intros [Hm Hs]%next_spec. split; [|done].
  eexists. split; [|exact Hm]. destruct (_ && _); [|by left].
  unfold enrichHopWithSNMP. destruct (str_empty (lh_DeviceIP hop)); [by left|].
  destruct (w_sysName _ _) as [m|]; [|by left].
  unfold str_empty. destruct (bool_decide_reflect (m = ""%string)) as [|Hm0]; [by left|].
  destruct (bool_decide_reflect (lh_Device hop = ""%string)); [|by left]. cbn. right. split; [done|]. by exists m.
Qed.

(** A hop found from one at another address shares its name. *)
Lemma found_same_name a b : found_from a b → lh_DeviceIP b ≠ lh_DeviceIP a → same_name a b.
Proof.
  intros (a' & Ha & Hm) Hip. assert (lh_DeviceIP a' = lh_DeviceIP a) as E by (by destruct Ha as [->|(_ & m & _ & ->)]).
  unfold deviceMatchesHop in Hm. rewrite E in Hm.
  destruct (negb (str_empty (lh_Device b)) && negb (str_empty (lh_Device a')) && equal_fold (lh_Device b) (lh_Device a')) eqn:En.
  - apply andb_true_iff in En as [[H1 H2]%andb_true_iff H3]. unfold str_empty in H1.
    split; [|intros E1; rewrite E1 in H1; done].
    destruct Ha as [->|(? & _)]; [by right|by left].
  - apply andb_true_iff in Hm as [_ Hm]. by apply bool_decide_eq_true in Hm.
Qed.

(** What a walk has collected. *)
Record route (dest : DiscoveredDevice) (hops : list L2Hop) : Prop := MkRoute {
  ro_distinct : NoDup (map lh_DeviceIP hops);
  ro_short : Forall (short_of dest) hops;
  ro_chain : ∀ i a b, hops !! i = Some a → hops !! S i = Some b → same_name a b;
}.

Lemma walk_route todo current visited hops dest :
  route dest hops → visited = list_to_set (map lh_DeviceIP hops) →
  match current with
  | None => True
  | Some hop => short_of dest hop ∧ match last hops with Some a => found_from a hop | None => True end
  end →
  match walk todo current visited hops dest with
  | inl hops' => route dest hops' ∧ hops `prefix_of` hops' ∧ (length hops' ≤ length hops + todo)%nat
  | inr e => e = ErrContext ∧ ∃ n, w_cancelled n = true
  end.
Proof.
  revert current visited hops. induction todo as [|todo IH]; intros current visited hops Hr Hv Hc; cbn [walk].
  { split; [done|]. split; [done|lia]. }
  destruct (w_cancelled _) eqn:Ew; [eauto|]. destruct current as [hop|]; [|split; [done|split; [done|lia]]].
  destruct (bool_decide_reflect (lh_DeviceIP hop ∈ visited)) as [|Hnew]; [split; [done|split; [done|lia]]|].
  destruct Hc as [Hs Hlast]. destruct Hr as [Hd Hf Hch]. rewrite Hv, elem_of_list_to_set in Hnew.
  assert (route dest (hops ++ [hop])) as Hr'.
  { split.
    - rewrite map_app. apply NoDup_app. split; [done|]. split; [|apply NoDup_singleton].
      intros x Hx Hx2. cbn in Hx2. apply list_elem_of_singleton in Hx2. by subst.
    - apply Forall_app. split; [done|by constructor].
    - intros i a b Ha Hb. destruct (decide (S i < length hops)%nat) as [Hlt|Hge].
      + rewrite lookup_app_l in Ha, Hb by lia. by eapply Hch.
      + apply lookup_lt_Some in Hb as Hlen. rewrite length_app in Hlen. cbn in Hlen.
        rewrite lookup_app_r in Hb by lia. replace (S i - length hops)%nat with 0%nat in Hb by lia.
        cbn in Hb. injection Hb as <-. rewrite lookup_app_l in Ha by lia.
        assert (last hops = Some a) as Hla by (rewrite last_lookup; by replace (pred (length hops)) with i by lia).
        rewrite Hla in Hlast. apply found_same_name; [done|]. intros E. apply Hnew. rewrite E.
        change (map lh_DeviceIP hops) with (lh_DeviceIP <$> hops). apply list_elem_of_fmap_2.
        by eapply list_elem_of_lookup_2. }
  rewrite Hs. destruct (findNextHop _ hop dest) as [hop' next] eqn:En.
  specialize (IH next ({[ lh_DeviceIP hop ]} ∪ visited) (hops ++ [hop]) Hr').
  destruct (walk todo next _ _ dest).
  - destruct IH as (H1 & H2 & H3).
    + rewrite Hv, map_app, list_to_set_app_L. cbn. set_solver.
    + destruct next as [nx|]; [|done]. rewrite last_snoc. apply findNextHop_spec in En as [??]. done.
    + split; [done|]. split; [by eapply prefix_app_l|]. rewrite length_app in H3. cbn in H3. lia.
  - apply IH; [rewrite Hv, map_app, list_to_set_app_L; cbn; set_solver|].
    destruct next as [nx|]; [|done]. rewrite last_snoc. apply findNextHop_spec in En as [??]. done.
Qed.

(** The walk always ends. A path has between one and twenty hops and visits no
    address twice; it starts at the source's own neighbour; and the errors are
    exactly a missing device, a source without neighbour data and a cancelled
    context. But every hop after the first carries the first switch's name (or
    the one SNMP gave it), and no hop ever passes the test that it leads to the
    destination: the walk looks for the next hop among the devices that
    advertise the switch it stands on, and what it learns about the egress
    toward the destination is written after the hop was copied out. *)
Theorem BuildPath_spec source dest :
  match BuildPath source dest with
  | inl hops =>
      ∃ s d, source = Some s ∧ dest = Some d ∧ head hops = findFirstHop s ∧
        (1 ≤ length hops ≤ 20)%nat ∧ NoDup (map lh_DeviceIP hops) ∧
        (∀ i a b, hops !! i = Some a → hops !! S i = Some b → same_name a b) ∧
        Forall (λ h, isDestinationReached h d = false) hops
  | inr e =>
      match e with
      | ErrSourceNotFound => source = None
      | ErrDestNotFound => source ≠ None ∧ dest = None
      | ErrNoFirstHop => ∃ s, source = Some s ∧ findFirstHop s = None
      | ErrContext => ∃ n, w_cancelled n = true
      | ErrNoHops => False
      end
  end.
Proof.
  unfold BuildPath. destruct source as [s|]; [|done]. destruct dest as [d|]; [|done].
  destruct (findFirstHop s) as [first|] eqn:Ef; [|eauto].
  assert (short_of d first) as Hfirst.
  { revert Ef. unfold findFirstHop. destruct (dv_LLDPInfo s) as [l|]; [by intros [= <-]|].
    destruct (dv_CDPInfo s) as [c|]; [by intros [= <-]|]. destruct (dv_EDPInfo s) as [e|]; [by intros [= <-]|done]. }
  assert (route d []) as Hr0 by (split; [constructor|constructor|done]).
  assert (route d [first]) as Hr1.
  { split; [apply NoDup_singleton|by constructor|]. intros [|i] a b; done. }
  (* the first round always adds the first hop *)
  change (walk maxHops (Some first) ∅ [] d) with
    (if w_cancelled 0 then inr ErrContext else
     if bool_decide (lh_DeviceIP first ∈ (∅ : gset string)) then inl [] else
     if isDestinationReached first d then inl [first] else
     let '(_, next) := findNextHop 0 first d in walk 19 next ({[ lh_DeviceIP first ]} ∪ ∅) [first] d).
  destruct (w_cancelled 0) eqn:Ew; [eauto|].
  rewrite bool_decide_eq_false_2 by set_solver. rewrite Hfirst.
  destruct (findNextHop 0 first d) as [hop' next] eqn:En.
  pose proof (walk_route 19 next ({[ lh_DeviceIP first ]} ∪ ∅) [first] d Hr1) as HW.
  destruct (walk 19 next _ [first] d) as [hops|e].
  - destruct HW as ([H1 H2 H3] & [l ->] & H5).
    + cbn. set_solver.
    + destruct next as [nx|]; [|done]. cbn. by apply findNextHop_spec in En as [??].
    + exists s, d. cbn in *. split; [done|]. split; [done|]. split; [by rewrite Ef|]. split; [lia|]. done.
  - destruct HW as [-> ?]; [cbn; set_solver| |done].
    destruct next as [nx|]; [|done]. cbn. by apply findNextHop_spec in En as [??].
Qed.
End walk.

(** Two switches in a row: [sw1] advertises itself to the source and [sw2]
    connects to [sw1]; the destination hangs off [sw2]. The walk ends at
    [sw1], with no egress port. *)
Definition demo_src : DiscoveredDevice := MkDevice "aa" (Some (MkLLDP "sw1" "10.0.0.1" "Gi0/1" "")) None None.
Definition demo_sw2 : DiscoveredDevice := MkDevice "bb" (Some (MkLLDP "sw1" "10.0.0.1" "Gi0/24" "")) None None.
Definition demo_dst : DiscoveredDevice := MkDevice "cc" (Some (MkLLDP "sw2" "10.0.0.2" "Gi0/2" "")) None None.
Definition demo_world : World :=
  {| w_cancelled _ := false; w_devices _ := [demo_src; demo_sw2; demo_dst]; w_sysName _ _ := None; w_creds := false |}.

Example BuildPath_demo :
  @BuildPath demo_world (Some demo_src) (Some demo_dst) =
  inl [MkL2Hop "sw1" "10.0.0.1" (Some (MkPort "Gi0/1" [] "aa")) None "lldp"].
Proof. by vm_compute. Qed.
