(* ===== verification/AlertPipe.v ===== *)
(** * Alerts raised once per window (src/internal/alerts/pipeline)

    What the listener pipeline and the observation pipeline share: the alert,
    the suppression store as an interface with its laws, the outside world a
    pipeline writes to, and the reading of stored rows in time order. The two
    stores of the code discharge the interface: the map of suppression.go,
    whose eviction keeps its promise for marks of up to an hour, and the rows
    of database/repository_alert_suppressions.go. *)
From Stdlib Require Import ZArith Lia SpecFloat Ascii.
From stdpp Require Import base gmap sets list strings pretty sorting.
From S2P Require Import Prelude GoBase GoText AlertWindows.

(** ** Alerts *)

Definition TypeSecurity : string := "security".
Definition TypePerformance : string := "performance".
Definition TypeConnectivity : string := "connectivity".
Definition TypeSystem : string := "system".
Definition SeverityInfo : string := "info".
Definition SeverityWarning : string := "warning".
Definition SeverityError : string := "error".
Definition SeverityCritical : string := "critical".

(** The evidence types a [Metadata] renders. *)
Record STPPortTransition : Type := MkTransition { tr_Port : Z; tr_IfIndex : Z; tr_From : Z; tr_To : Z }.
Record RouteWithdrawal : Type := MkWithdrawal { wd_Prefix : string; wd_NextHops : list string; wd_Proto : Z }.
Record RouteNextHopChange : Type := MkHopChange { hc_Prefix : string; hc_From : list string; hc_To : list string }.

(** [Alert.Metadata]: the event's own JSON, or an evidence value that
    [json.Marshal] renders. *)
Inductive Metadata : Type :=
| EventJSON (payload : string)
| InterfaceDownEvidence (ifIndex : Z) (ifName : string) (ifOperStatus : Z)
| BGPPeerEvidence (remoteAddr : string) (remoteAS state : Z)
| StorageEvidence (index : Z) (description : string) (sizeBytes usedBytes : Z) (usedPercent : spec_float)
| STPRootChangeEvidence (previousRoot root : string) (rootPort : Z)
| STPTopologyChangeEvidence (changes topologyChanges : Z) (ports : list STPPortTransition)
| RouteWithdrawnEvidence (withdrawn : Z) (routes : list RouteWithdrawal)
| RouteChangeEvidence (changed : Z) (routes : list RouteNextHopChange)
| IPSLAEvidence (index : Z) (tag target : string) (sense rttMs thresholdMs : Z).

(** The fields of [alerts.Alert] a pipeline sets. *)
Record Alert : Type := MkAlert {
  at_Type : string;
  at_Severity : string;
  at_Title : string;
  at_Message : string;
  at_Source : string;
  at_Rule : string;
  at_Metadata : Metadata;
}.

Definition set_rule (a : Alert) (rule : string) : Alert :=
  MkAlert (at_Type a) (at_Severity a) (at_Title a) (at_Message a) (at_Source a) rule (at_Metadata a).

(** ** The suppression store *)

(** [SuppressionStore]: an answer with whether it came with an error. *)
Class SuppressionStore (S : Type) : Type := {
  ss_IsSuppressed : S → string → Z → bool * bool;
  ss_Mark : S → string → string → string → Z → S * bool;
}.

(** What a pipeline relies on. A store promises for marks that reach at most
    [sl_covers] ahead of the present: they suppress the fingerprint until
    their time and not after, and change no other fingerprint. *)
Class SuppressionLaws (S : Type) `{SuppressionStore S} : Type := {
  sl_covers : Z → Prop;
  sl_self : ∀ s f rule entity until t, f ≠ "" →
    ss_IsSuppressed (ss_Mark s f rule entity until).1 f t = (t <? until, false);
  sl_other : ∀ s f rule entity until now f' t, sl_covers (until - now) → f' ≠ f → now ≤ t →
    ss_IsSuppressed (ss_Mark s f rule entity until).1 f' t = ss_IsSuppressed s f' t;
}.

(** [inMemorySuppressionStore]. *)
Record inMemorySuppressionStore : Type := InMemory { im_emitted : gmap string Z }.
Definition newInMemorySuppressionStore : inMemorySuppressionStore := InMemory ∅.

#[export] Instance in_memory_store : SuppressionStore inMemorySuppressionStore := {
  ss_IsSuppressed s f now := (IsSuppressed (im_emitted s) f now, false);
  ss_Mark s f _ _ until := (InMemory (Mark (im_emitted s) f until), false);
}.

#[export] Program Instance in_memory_laws : SuppressionLaws inMemorySuppressionStore := {
  sl_covers d := d ≤ hour;
}.
Next Obligation. intros. cbn. f_equal. apply (Mark_spec _ _ _ 0). Qed.
Next Obligation.
  intros s f rule entity until now f' t Hd Hf Ht. cbn in *. f_equal.
  apply (Mark_spec (im_emitted s) f until now); [lia|done|done].
Qed.

(** [AlertSuppressionsRepository], without failures of the database: the rows
    by fingerprint. *)
Record AlertSuppressionsRepository : Type := DBSuppressions { db_rows : gmap string Z }.

Definition DBIsSuppressed (s : AlertSuppressionsRepository) (f : string) (now : Z) : bool * bool :=
  match db_rows s !! f with
  | None => (false, false)
  | Some until => (time_before now until, false)
  end.

Definition DBMark (s : AlertSuppressionsRepository) (f : string) (until : Z)
    : AlertSuppressionsRepository * bool :=
  if bool_decide (f = "") then (s, true) else (DBSuppressions (<[f := until]> (db_rows s)), false).

#[export] Instance db_store : SuppressionStore AlertSuppressionsRepository := {
  ss_IsSuppressed := DBIsSuppressed;
  ss_Mark s f _ _ until := DBMark s f until;
}.

#[export] Program Instance db_laws : SuppressionLaws AlertSuppressionsRepository := {
  sl_covers _ := True;
}.
Next Obligation.
  intros. cbn. unfold DBMark. rewrite bool_decide_eq_false_2 by done. unfold DBIsSuppressed. cbn.
  by rewrite lookup_insert_eq.
Qed.
Next Obligation.
  intros. cbn. unfold DBMark. destruct (bool_decide _); [done|]. unfold DBIsSuppressed. cbn.
  by rewrite lookup_insert_ne.
Qed.

(** ** Writing alerts *)

(** The world around a pipeline: its clock and the alert writer. *)
Class World (W : Type) : Type := {
  w_now : W → W * Z;
  w_Create : W → Alert → W * bool;
}.

(** A clock that does not go back; [w_clock] is the last instant it read. *)
Class WorldLaws (W : Type) `{World W} : Type := {
  w_clock : W → Z;
  wl_now : ∀ w, w_clock w ≤ (w_now w).2 ∧ w_clock (w_now w).1 = (w_now w).2;
  wl_create : ∀ w a, w_clock (w_Create w a).1 = w_clock w;
}.

(** The part of a pipeline that writes: the store, the world, and, newest
    first, the alerts written with their instants and fingerprints. *)
Record core (S W : Type) : Type := MkCore {
  co_suppress : S;
  co_world : W;
  co_written : list (Z * string * Alert);
}.
Arguments MkCore {S W} _ _ _.
Arguments co_suppress {S W} _.
Arguments co_world {S W} _.
Arguments co_written {S W} _.

Section write.
Context {S W : Type} `{!SuppressionStore S, !World W}.
(** [fingerprintFor] hashes its three arguments with SHA-256. *)
Context (fingerprintFor : string → string → string → string).
(** [p.suppression]. *)
Context (suppression : Z).

Definition read_clock (p : core S W) : core S W * Z :=
  let '(w, now) := w_now (co_world p) in (MkCore (co_suppress p) w (co_written p), now).

(** [IsSuppressed]: an error is logged, and its answer is taken all the same. *)
Definition suppressed (p : core S W) (fingerprint : string) (now : Z) : bool :=
  (ss_IsSuppressed (co_suppress p) fingerprint now).1.

(** [Create], then [Mark]; an error of [Mark] is logged. *)
Definition write (p : core S W) (now : Z) (fingerprint rule entity : string) (alert : Alert)
    : core S W * bool :=
  let '(w, ok) := w_Create (co_world p) alert in
  if ok : bool then
    let s := (ss_Mark (co_suppress p) fingerprint rule entity (time_add now suppression)).1 in
    (MkCore s w ((now, fingerprint, alert) :: co_written p), true)
  else (MkCore (co_suppress p) w (co_written p), false).

(** [ObservationPipeline.fire] *)
Definition fire (p : core S W) (ruleID entityKey : string) (alert : Alert) : core S W * bool :=
  let '(p, now) := read_clock p in
  let fingerprint := fingerprintFor ruleID entityKey (at_Source alert) in
  if suppressed p fingerprint now then (p, false)
  else write p now fingerprint ruleID entityKey (set_rule alert ruleID).
End write.

(** ** Alerts of one fingerprint are a window apart *)

Section spaced.
Context {S W : Type} `{!SuppressionStore S, !SuppressionLaws S, !World W, !WorldLaws W}.
Context (suppression : Z).

Fixpoint spaced (l : list (Z * string * Alert)) : Prop :=
  match l with
  | [] => True
  | (t, f, _) :: l' => (∀ t' a, (t', f, a) ∈ l' → t' + suppression ≤ t) ∧ spaced l'
  end.

(** What has been written is apart, past, and still suppressed. *)
Record core_ok (p : core S W) : Prop := MkCoreOk {
  ck_spaced : spaced (co_written p);
  ck_past : ∀ t f a, (t, f, a) ∈ co_written p → t ≤ w_clock (co_world p);
  ck_marked : ∀ t f a x, (t, f, a) ∈ co_written p → w_clock (co_world p) ≤ x < t + suppression →
    suppressed p f x = true;
}.

Definition empty_core (s : S) (w : W) : core S W := MkCore s w [].

Lemma empty_core_ok s w : core_ok (empty_core s w).
Proof. split; [done|set_solver|set_solver]. Qed.

Lemma read_clock_ok p :
  core_ok p → core_ok (read_clock p).1 ∧ w_clock (co_world (read_clock p).1) = (read_clock p).2 ∧
  co_written (read_clock p).1 = co_written p.
Proof.
  intros [H1 H2 H3]. unfold read_clock. destruct (wl_now (co_world p)) as [Hle Heq].
  destruct (w_now (co_world p)) as [w now] eqn:E. cbn in *. split; [|done]. split; cbn; [done| |].
  - intros. rewrite Heq. etransitivity; [by eapply H2|done].
  - intros t f a x Hin Hx. rewrite Heq in Hx. eapply (H3 t f a); [done|lia].
Qed.

Lemma write_ok p now f rule entity alert :
  core_ok p → w_clock (co_world p) = now → f ≠ "" → sl_covers suppression → suppressed p f now = false →
  let '(p', ok) := write suppression p now f rule entity alert in
  core_ok p' ∧ w_clock (co_world p') = now ∧
  co_written p' = (if ok : bool then [(now, f, alert)] else []) ++ co_written p.
Proof.
  intros [H1 H2 H3] Hnow Hf Hcov Hs. unfold write.
  pose proof (wl_create (co_world p) alert) as Hw. destruct (w_Create (co_world p) alert) as [w ok].
  cbn in Hw. destruct ok; cbn; (split; [|by rewrite Hw]).
  - assert (∀ t' a, (t', f, a) ∈ co_written p → t' + suppression ≤ now) as Hgap.
    { intros t' a Hin. destruct (decide (t' + suppression ≤ now)) as [|Hlt]; [done|].
      rewrite (H3 t' f a now) in Hs by (done || lia). done. }
    split; cbn.
    + done.
    + intros t f' a [[= -> -> ->]|Hin]%elem_of_cons; rewrite Hw; [lia|by eapply H2].
    + intros t f' a x Hin Hx. rewrite Hw in Hx. unfold suppressed. cbn.
      destruct (decide (f' = f)) as [->|Hne].
      * rewrite sl_self by done. cbn. apply Z.ltb_lt. unfold time_add.
        apply elem_of_cons in Hin as [[= -> ->]|Hin]; [lia|]. specialize (Hgap _ _ Hin). lia.
      * apply elem_of_cons in Hin as [[= -> -> ->]|Hin]; [done|].
        rewrite (sl_other _ _ _ _ _ now); [|unfold time_add; by replace (now + suppression - now) with suppression by lia|done|lia].
        eapply (H3 t f' a); [done|lia].
  - split; cbn; [done| |].
    + intros. rewrite Hw. by eapply H2.
    + intros t f' a x Hin Hx. rewrite Hw in Hx. by eapply (H3 t f' a).
Qed.

Lemma fire_ok fingerprintFor p rule entity alert :
  (∀ a b c, fingerprintFor a b c ≠ "") → sl_covers suppression → core_ok p →
  let '(p', ok) := fire fingerprintFor suppression p rule entity alert in
  core_ok p' ∧
  ∃ new, co_written p' = new ++ co_written p ∧ length new = (if ok : bool then 1 else 0)%nat ∧
    Forall (λ e, e.2 = set_rule alert rule) new.
Proof.
  intros Hfp Hcov Hp. unfold fire. destruct (read_clock_ok p Hp) as (Hp' & Hc & Hw).
  destruct (read_clock p) as [p1 now]. cbn in *. destruct (suppressed p1 _ now) eqn:Hs.
  - split; [done|]. exists []. by rewrite Hw.
  - pose proof (write_ok p1 now (fingerprintFor rule entity (at_Source alert)) rule entity (set_rule alert rule)
      Hp' Hc (Hfp _ _ _) Hcov Hs) as HW.
    destruct (write _ _ _ _ _ _ _) as [p' ok]. destruct HW as (HW1 & HW2 & HW3). split; [done|].
    rewrite Hw in HW3. destruct ok; eexists; (split; [exact HW3|]); split; try done; repeat constructor.
Qed.

Lemma spaced_lookup l i j ti tj fi fj ai aj :
  spaced l → (i < j)%nat → l !! i = Some (ti, fi, ai) → l !! j = Some (tj, fj, aj) → fi = fj →
  tj + suppression ≤ ti.
Proof.
  intros Hs Hij Hi Hj <-. induction l as [|[[t f] a] l IH] in i, j, Hs, Hij, Hi, Hj |- *; [done|].
  destruct Hs as [Hh Hs]. destruct j as [|j]; [lia|]. destruct i as [|i].
  - injection Hi as -> -> ->. eapply Hh. by eapply list_elem_of_lookup_2.
  - by eapply (IH i j Hs ltac:(lia)).
Qed.
End spaced.

(** ** Stored rows, newest first *)

Definition defaultLimit : Z := 100.
Definition maxLimit : Z := 1000.

(** [OrderLimit] *)
Definition clamp_limit (limit : Z) : Z :=
  if limit <=? 0 then defaultLimit else if maxLimit <? limit then maxLimit else limit.

Section rows.
Context {R : Type} (at_ : R → Z).

(** [AND observed_at >= ?], left out for a zero time. *)
Definition since_ok (since : Z) (r : R) : Prop := since = time_zero ∨ stamp_le (stamp since) (stamp (at_ r)).
#[export] Instance since_ok_dec since r : Decision (since_ok since r) := _.

Definition later (a b : R) : Prop := stamp_le (stamp (at_ b)) (stamp (at_ a)).
#[local] Instance later_dec : RelDecision later := λ a b, decide (stamp_le (stamp (at_ b)) (stamp (at_ a))).

(** The query of both repositories' [List]. Rows with equal texts come in any
    order; here it is the one the sort leaves them in. *)
Definition List_ (rows : list R) (since limit : Z) : list R :=
  take (Z.to_nat (clamp_limit limit)) (merge_sort later (filter (since_ok since) rows)).

(** It returns rows of the table that it matches, and all of these when they
    fit the limit. *)
Lemma List_in rows since limit r : r ∈ List_ rows since limit → r ∈ rows ∧ since_ok since r.
Proof.
  unfold List_. intros Hr. apply subseteq_take in Hr.
  rewrite merge_sort_Permutation in Hr. by apply list_elem_of_filter in Hr as [??].
Qed.

Lemma List_all rows since limit r :
  len (filter (since_ok since) rows) ≤ clamp_limit limit → r ∈ rows → since_ok since r → r ∈ List_ rows since limit.
Proof.
  unfold List_, len. intros Hle Hr Hs. rewrite take_ge.
  - rewrite merge_sort_Permutation. by apply list_elem_of_filter.
  - rewrite merge_sort_Permutation. lia.
Qed.

(** What [List] is documented to return: the rows observed since a time, newest
    first, and when the limit cuts some off, the oldest ones. *)
Definition matching (rows : list R) (since : Z) : list R :=
  filter (λ r, since = time_zero ∨ since ≤ at_ r) rows.

Definition listed (rows : list R) (since limit : Z) (out : list R) : Prop :=
  StronglySorted (λ a b, at_ b ≤ at_ a) out ∧
  ∃ rest, matching rows since ≡ₚ out ++ rest ∧ length out = Nat.min (Z.to_nat (clamp_limit limit)) (length (matching rows since)) ∧
    ∀ a b, a ∈ out → b ∈ rest → at_ b ≤ at_ a.

(** Texts that order as their times. *)
Definition stamps_agree (ts : list Z) : Prop :=
  ∀ a b, a ∈ ts → b ∈ ts → stamp_le (stamp a) (stamp b) ↔ a ≤ b.

Lemma StronglySorted_split {A} (Rel : A → A → Prop) (l1 l2 : list A) :
  StronglySorted Rel (l1 ++ l2) →
  StronglySorted Rel l1 ∧ ∀ a b, a ∈ l1 → b ∈ l2 → Rel a b.
Proof.
  induction l1 as [|x l1 IH]; cbn; [intros _; split; [constructor|set_solver]|].
  intros [Hs Hx]%StronglySorted_inv. destruct (IH Hs) as [H1 H2]. apply Forall_app in Hx as [Hx1 Hx2].
  split; [by constructor|]. intros a b [->|Ha]%elem_of_cons Hb; [|by apply H2].
  rewrite list.Forall_forall in Hx2. by apply Hx2.
Qed.

Lemma sorted_weaken {A} (R1 R2 : A → A → Prop) l :
  (∀ a b, a ∈ l → b ∈ l → R1 a b → R2 a b) → StronglySorted R1 l → StronglySorted R2 l.
Proof.
  induction l as [|x l IH]; intros Hw Hs; [constructor|].
  apply StronglySorted_inv in Hs as [Hs Hx]. constructor; [apply IH; [|done]; intros; apply Hw; set_solver|].
  rewrite list.Forall_forall in *. intros y Hy. apply Hw; [set_solver|set_solver|by apply Hx].
Qed.

#[local] Instance later_total : Total later.
Proof.
  intros a b. unfold later, stamp_le. set (x := stamp (at_ a)). set (y := stamp (at_ b)).
  destruct (Z.lt_trichotomy x.1 y.1) as [|[E|]]; [by right; left| |by left; left].
  destruct (str_le_total x.2 y.2); [right|left]; right; by split.
Qed.

#[local] Instance later_trans : Transitive later.
Proof.
  intros a b c. unfold later, stamp_le. set (x := stamp (at_ a)). set (y := stamp (at_ b)). set (z := stamp (at_ c)).
  intros [H1|[H1 H1']] [H2|[H2 H2']]; [left; lia|left; lia|left; lia|right]. split; [lia|by etransitivity].
Qed.

(** [List] keeps its promise for rows whose texts order as their times. *)
Lemma List_listed rows since limit :
  stamps_agree (since :: map at_ rows) → listed rows since limit (List_ rows since limit).
Proof.
  intros Hag. unfold List_, listed. set (n := Z.to_nat (clamp_limit limit)).
  assert (filter (since_ok since) rows = matching rows since) as ->.
  { unfold matching. apply filter_iff_in. intros r Hr. unfold since_ok.
    assert (at_ r ∈ map at_ rows) by (change (map at_ rows) with (at_ <$> rows); by apply list_elem_of_fmap_2).
    rewrite (Hag since (at_ r)); [done|set_solver|set_solver]. }
  set (m := matching rows since).
  assert (StronglySorted (λ a b, at_ b ≤ at_ a) (merge_sort later m)) as Hs.
  { eapply sorted_weaken; [|apply (StronglySorted_merge_sort later)]. intros a b Ha Hb Hl.
    assert (∀ r, r ∈ merge_sort later m → at_ r ∈ since :: map at_ rows) as Hin.
    { intros r Hr. rewrite (merge_sort_Permutation later m) in Hr. apply list_elem_of_filter in Hr as [_ Hr].
      apply elem_of_cons. right. change (map at_ rows) with (at_ <$> rows). by apply list_elem_of_fmap_2. }
    by apply (Hag _ _ (Hin _ Hb) (Hin _ Ha)). }
  rewrite <-(take_drop n (merge_sort later m)) in Hs. apply StronglySorted_split in Hs as [Hs1 Hs2].
  split; [done|]. exists (drop n (merge_sort later m)). split; [by rewrite take_drop, merge_sort_Permutation|].
  split; [|by intros a b Ha Hb; apply Hs2].
  rewrite length_take. by rewrite merge_sort_Permutation.
Qed.

(** Whole seconds order as their texts do. *)
Lemma whole_seconds_agree ts : Forall (λ t, t mod second = 0) ts → stamps_agree ts.
Proof.
  intros Hz a b Ha Hb. rewrite list.Forall_forall in Hz. pose proof (Hz a Ha) as H1. pose proof (Hz b Hb) as H2.
  unfold stamp, stamp_le. rewrite H1, H2. cbn [fst snd].
  assert (second > 0) by (unfold second; lia).
  pose proof (Z.div_mod a second ltac:(lia)). pose proof (Z.div_mod b second ltac:(lia)).
  split.
  - intros [?|[? _]]; nia.
  - intros ?. destruct (decide (a / second < b / second)); [by left|right].
    split; [nia|done].
Qed.
End rows.

(** Half a second after a whole second reads as earlier than it, so a query
    from the whole second misses it. *)
Example stamp_disorder :
  stamp 0 = (0, "Z") ∧ stamp (second / 2) = (0, ".5Z") ∧
  bool_decide (stamp_le (stamp 0) (stamp (second / 2))) = false ∧
  List_ id [1000 * second + second / 2] (1000 * second) 500 = [] ∧ List_ id [0; second / 2; 1] time_zero 500 = [0; second / 2; 1].
Proof. split_and!; by vm_compute. Qed.

(** ** A world for the examples

    A text for instants, a clock that moves by a step at each reading and a
    writer that works, and fingerprints that are the text itself. *)

Fixpoint pos_text (p : positive) : string :=
  match p with
  | xH => ""
  | xO p => String "0" (pos_text p)
  | xI p => String "1" (pos_text p)
  end.

Fixpoint text_pos (s : string) : positive :=
  match s with
  | "" => xH
  | String c s => if bool_decide (c = "0"%char) then xO (text_pos s) else xI (text_pos s)
  end.

Definition demo_format (t : Z) : string :=
  match t with
  | Z0 => "z"
  | Zpos p => String "+" (pos_text p)
  | Zneg p => String "-" (pos_text p)
  end.

Definition demo_parse (s : string) : option Z :=
  match s with
  | String "+" s => Some (Zpos (text_pos s))
  | String "-" s => Some (Zneg (text_pos s))
  | _ => Some 0
  end.

Lemma demo_roundtrip t : demo_parse (demo_format t) = Some t.
Proof.
  assert (∀ p, text_pos (pos_text p) = p) as Hp by (induction p as [p IH|p IH|]; cbn; by rewrite ?IH).
  destruct t; cbn; by rewrite ?Hp.
Qed.

Lemma demo_format_ne t : demo_format t ≠ "".
Proof. by destruct t. Qed.

#[export] Instance demo_world : World (Z * N) := {|
  w_now w := let t := w.1 + Z.of_N w.2 in ((t, w.2), t);
  w_Create w _ := (w, true);
|}.

#[export] Program Instance demo_world_laws : WorldLaws (Z * N) := {| w_clock := fst |}.
Next Obligation. intros [t d]. cbn. lia. Qed.
Next Obligation. done. Qed.

Definition demo_fingerprint (rule source kind : string) : string := "#" +:+ rule +:+ source +:+ kind.

(** Beyond an hour the in-memory store breaks its promise: marking one rule for
    two hours drops the live half-hour marks of 4096 others. *)
Definition demo_marks : inMemorySuppressionStore :=
  InMemory (list_to_map (map (λ i, (pretty (Z.of_nat i), 1800 * second)) (seq 0 4096))).

Example long_mark_evicts :
  ss_IsSuppressed demo_marks "7" 0 = (true, false) ∧
  ss_IsSuppressed (ss_Mark demo_marks "new" "r" "e" (7200 * second)).1 "7" 0 = (false, false).
Proof. by vm_compute. Qed.
