(* ===== verification/AlertListener.v ===== *)
(** * The listener alert pipeline (src/internal/alerts/pipeline/listener_pipeline.go,
    listener_eval.go, listener_rules.go and listener_rules_loader.go)

    Rules over listener events, their compilation from the operator's rows,
    the reload that swaps them, and the scan that walks the events stored
    since the last one. The Go libraries a rule's text goes through (JSON,
    templates, number and time formats, address parsing) are the class
    [Text]; the event table is read by the query [List_] of AlertPipe, in the
    order of the stored texts. The [_Evaluated] field of the state records what the scans
    have evaluated, for the theorems only. *)
From Stdlib Require Import ZArith Lia SpecFloat Ascii.
From stdpp Require Import base gmap sets list strings pretty.
From S2P Require Import Prelude GoBase AlertWindows AlertPipe Indicators.

(** ** Events and rules *)

(** The fields of [listener.EventRecord] the pipeline reads. *)
Record EventRecord : Type := MkEvent {
  ev_Kind : string;
  ev_SourceAddr : string;
  ev_Severity : string;
  ev_ObservedAt : Z;
  ev_PayloadJSON : string;
}.

#[export] Instance EventRecord_eq_dec : EqDecision EventRecord.
Proof. solve_decision. Defined.

Record VoIPQuality : Type := MkQuality {
  vq_Interface : string; vq_Src : string; vq_Dst : string; vq_SSRC : Z; vq_Codec : string;
  vq_Start : Z; vq_End : Z; vq_LossPct : spec_float; vq_JitterMs : spec_float;
  vq_MaxJitterMs : spec_float; vq_RFactor : spec_float; vq_MOS : spec_float;
}.

Definition FlowIndicatorKind : string := "flow-indicator".
Definition VoIPQualityKind : string := "voip-quality".
Definition RuleFlowIndicator : string := "flow.indicator".
Definition RuleVoIPQuality : string := "voip.quality".

(** What the Go libraries do with a rule's text. *)
Class Text : Type := {
  Payload : Type;
  unmarshal_hit : string → option FlowIndicatorHit;
  unmarshal_quality : string → option VoIPQuality;
  unmarshal_raw : string → option (gmap string string);
  unmarshal_string : string → option string;
  unmarshal_payload : string → Payload;
  template_parse : string → option (string * string * string * Z * Payload * string → option string);
  SplitHostPort : string → option string;
  ParseAddr : string → option Addr;
  addr_string : Addr → string;
  fmt_float : nat → spec_float → string;
  fmt_08x : Z → string;
  format_rfc3339 : Z → string;
  format_nano : Z → string;
  parse_nano : string → option Z;
}.

(** [Rule], with the counter it points to. *)
Record Rule : Type := MkRule {
  ru_ID : string;
  ru_Match : EventRecord → bool;
  ru_Build : EventRecord → option Alert;
  ru_Threshold : Z;
  ru_Window : Z;
  ru_counter : option windowCounter;
}.

Definition set_counter (r : Rule) (c : windowCounter) : Rule :=
  MkRule (ru_ID r) (ru_Match r) (ru_Build r) (ru_Threshold r) (ru_Window r) (Some c).

(** A rule without threshold, window or counter. *)
Definition plain (id : string) (Match_ : EventRecord → bool) (Build : EventRecord → option Alert) : Rule :=
  MkRule id Match_ Build 0 0 None.

(** [strings.Contains] *)
Definition Contains (s substr : string) : bool :=
  match String.index 0 substr s with Some _ => true | None => false end.

Definition quote : string := String (ascii_of_nat 34) "".

(** [mapSyslogSeverity] *)
Definition mapSyslogSeverity (s : string) : string :=
  if bool_decide (s = "emergency" ∨ s = "alert" ∨ s = "critical") then SeverityCritical
  else if bool_decide (s = "error") then SeverityError
  else if bool_decide (s = "warning") then SeverityWarning
  else SeverityInfo.

Definition severeSeverities (s : string) : bool :=
  bool_decide (s = "emergency" ∨ s = "alert" ∨ s = "critical" ∨ s = "error").

Section rules.
Context `{Text}.

(** [summarize] *)
Definition summarize (payload field : string) : string :=
  match unmarshal_raw payload with
  | None => ""
  | Some m => match m !! field with
              | None => ""
              | Some raw => default "" (unmarshal_string raw)
              end
  end.

Definition ruleFlowIndicator : Rule :=
  plain RuleFlowIndicator
    (λ evt, bool_decide (ev_Kind evt = FlowIndicatorKind))
    (λ evt,
      hit ← unmarshal_hit (ev_PayloadJSON evt);
      Some (MkAlert TypeSecurity SeverityCritical
        (fh_Host hit +:+ " exchanged traffic with listed address " +:+ fh_Listed hit)
        (fh_Listed hit +:+ " is on the threat indicator list (entry " +:+ fh_Indicator hit +:+ "). Exporter " +:+
         fh_Exporter hit +:+ " reported " +:+ pretty (fh_Flows hit) +:+ " flows, " +:+ pretty (fh_Bytes hit) +:+
         " bytes, between " +:+ format_rfc3339 (fh_FirstSeen hit) +:+ " and " +:+ format_rfc3339 (fh_LastSeen hit) +:+ ".")
        (fh_Host hit) "" (EventJSON (ev_PayloadJSON evt)))).

Definition ruleVoIPQuality : Rule :=
  plain RuleVoIPQuality
    (λ evt, bool_decide (ev_Kind evt = VoIPQualityKind))
    (λ evt,
      q ← unmarshal_quality (ev_PayloadJSON evt);
      Some (MkAlert TypePerformance SeverityWarning
        ("Poor call quality from " +:+ vq_Src q +:+ " to " +:+ vq_Dst q +:+ ": MOS " +:+ fmt_float 2 (vq_MOS q))
        (vq_Codec q +:+ " stream " +:+ fmt_08x (vq_SSRC q) +:+ " on " +:+ vq_Interface q +:+ " scored MOS " +:+
         fmt_float 2 (vq_MOS q) +:+ " (R " +:+ fmt_float 1 (vq_RFactor q) +:+ ") between " +:+
         format_rfc3339 (vq_Start q) +:+ " and " +:+ format_rfc3339 (vq_End q) +:+ ": " +:+
         fmt_float 2 (vq_LossPct q) +:+ "% loss, " +:+ fmt_float 1 (vq_JitterMs q) +:+ " ms mean jitter, " +:+
         fmt_float 1 (vq_MaxJitterMs q) +:+ " ms peak.")
        (ev_SourceAddr evt) "" (EventJSON (ev_PayloadJSON evt)))).

Definition ruleSyslogSevereLogged : Rule :=
  plain "syslog.severe"
    (λ evt, bool_decide (ev_Kind evt = "syslog-udp") && severeSeverities (ev_Severity evt))
    (λ evt, Some (MkAlert TypeSystem (mapSyslogSeverity (ev_Severity evt))
       ("Syslog " +:+ ev_Severity evt +:+ " from " +:+ ev_SourceAddr evt)
       (summarize (ev_PayloadJSON evt) "message") (ev_SourceAddr evt) "" (EventJSON (ev_PayloadJSON evt)))).

Definition ruleTrapLinkDown : Rule :=
  plain "trap.linkdown"
    (λ evt, if negb (bool_decide (ev_Kind evt = "snmp-trap")) then false
            else Contains (ev_PayloadJSON evt) (quote +:+ "1.3.6.1.6.3.1.1.5.3" +:+ quote))
    (λ evt, Some (MkAlert TypeConnectivity SeverityWarning ("Link down trap from " +:+ ev_SourceAddr evt)
       "SNMP linkDown trap received" (ev_SourceAddr evt) "" (EventJSON (ev_PayloadJSON evt)))).

Definition ruleTrapAuthFailure : Rule :=
  plain "trap.authfail"
    (λ evt, if negb (bool_decide (ev_Kind evt = "snmp-trap")) then false
            else Contains (ev_PayloadJSON evt) (quote +:+ "1.3.6.1.6.3.1.1.5.5" +:+ quote))
    (λ evt, Some (MkAlert TypeSecurity SeverityError ("SNMP authentication failure from " +:+ ev_SourceAddr evt)
       "Repeated authentication failures may indicate a credential probe" (ev_SourceAddr evt) ""
       (EventJSON (ev_PayloadJSON evt)))).

Definition DefaultListenerRules : list Rule := [ruleSyslogSevereLogged; ruleTrapLinkDown; ruleTrapAuthFailure].
Definition pinnedListenerRules : list Rule := [ruleFlowIndicator; ruleVoIPQuality].
Definition withPinned (rules : list Rule) : list Rule := rules ++ pinnedListenerRules.

(** ** Rules from the operator's rows *)

(** A row of [alert_rules]. *)
Record AlertRule : Type := MkRow {
  ar_ID : Z;
  ar_Name : string;
  ar_Enabled : bool;
  ar_MatchKind : string;
  ar_MatchSeverity : string;
  ar_MatchPayloadContains : string;
  ar_AlertType : string;
  ar_AlertSeverity : string;
  ar_AlertTitle : string;
  ar_AlertMessage : string;
  ar_WindowSeconds : Z;
  ar_ThresholdCount : Z;
  ar_GroupID : string;
}.

(** [ListenerEventContext]: what a template sees. *)
Definition ListenerEventContext : Type := string * string * string * Z * Payload * string.

Definition buildEventContext (evt : EventRecord) (ruleName : string) : ListenerEventContext :=
  (ev_SourceAddr evt, ev_Kind evt, ev_Severity evt, ev_ObservedAt evt,
   unmarshal_payload (ev_PayloadJSON evt), ruleName).

Definition compileTemplate (s : string) : ListenerEventContext → string :=
  if negb (Contains s "{{") then λ _, s
  else match template_parse s with
       | None => λ _, s
       | Some execute => λ ctx, default s (execute ctx)
       end.

(** [devicegroups.Host], for host names in ASCII. *)
Definition drop_zone (a : Addr) : Addr := match a with Addr6 b _ => Addr6 b "" | a => a end.

Definition Host (addr : string) : string :=
  let host := default addr (SplitHostPort addr) in
  match ParseAddr host with
  | Some ip => addr_string (drop_zone (addr_unmap ip))
  | None => to_lower host
  end.

(** The hosts a scoped row is restricted to. *)
Definition members_of (row : AlertRule) (groups : gmap string (list string)) : option (gset string) :=
  if bool_decide (ar_GroupID row = "") then None
  else Some (list_to_set (map Host (default [] (groups !! ar_GroupID row)))).

Definition compileOne (row : AlertRule) (groups : gmap string (list string)) : Rule :=
  let members := members_of row groups in
  let titleRenderer := compileTemplate (ar_AlertTitle row) in
  let messageRenderer := compileTemplate (ar_AlertMessage row) in
  let threshold := Z.max (ar_ThresholdCount row) 1 in
  let window := sign_wrap 64 (ar_WindowSeconds row * second) in
  let counter := if (1 <? threshold) && (0 <? window) then Some (newWindowCounter window threshold) else None in
  MkRule ("db." +:+ pretty (ar_ID row))
    (λ evt,
      if match members with Some m => negb (bool_decide (Host (ev_SourceAddr evt) ∈ m)) | None => false end then false
      else if negb (bool_decide (ar_MatchKind row = "")) && negb (bool_decide (ev_Kind evt = ar_MatchKind row)) then false
      else if negb (bool_decide (ar_MatchSeverity row = "")) && negb (bool_decide (ev_Severity evt = ar_MatchSeverity row)) then false
      else if negb (bool_decide (ar_MatchPayloadContains row = "")) &&
              negb (Contains (ev_PayloadJSON evt) (ar_MatchPayloadContains row)) then false
      else true)
    (λ evt,
      let ctx := buildEventContext evt (ar_Name row) in
      Some (MkAlert (ar_AlertType row) (ar_AlertSeverity row) (titleRenderer ctx) (messageRenderer ctx)
              (ev_SourceAddr evt) "" (EventJSON (ev_PayloadJSON evt))))
    threshold window counter.

Definition CompileRulesFromDB (rows : list (option AlertRule)) (groups : gmap string (list string)) : list Rule :=
  omap (λ row, match row with
               | Some row => if ar_Enabled row then Some (compileOne row groups) else None
               | None => None
               end) rows.
End rules.

(** ** The pipeline *)

Definition defaultBatch : Z := 500.
Definition defaultInterval : Z := 15 * second.
Definition minInterval : Z := 100 * millisecond.
Definition defaultSuppression : Z := 5 * minute.
Definition defaultReloadInterval : Z := 60 * second.
Definition degradedTickMultiplier : Z := 2.

Record ListenerPipeline (S W : Type) : Type := MkPipeline {
  lp_core : core S W;
  lp_rules : list Rule;
  lp_defaults : list Rule;
  lp_staticRules : bool;
  lp_alertRules : bool;
  lp_groups : bool;
  lp_setting : string;
  lp_lastTickAt : Z;
  lp_lastError : bool;
  lp_stopped : bool;
  lp_Evaluated : list EventRecord;
}.
Arguments MkPipeline {S W} _ _ _ _ _ _ _ _ _ _ _.
Arguments lp_core {S W} _.
Arguments lp_rules {S W} _.
Arguments lp_defaults {S W} _.
Arguments lp_staticRules {S W} _.
Arguments lp_alertRules {S W} _.
Arguments lp_groups {S W} _.
Arguments lp_setting {S W} _.
Arguments lp_lastTickAt {S W} _.
Arguments lp_lastError {S W} _.
Arguments lp_stopped {S W} _.
Arguments lp_Evaluated {S W} _.

Inductive State : Type := StateOK | StateDegraded | StateStopped.

(** The database as a scan meets it: whether the high-water mark can be read
    and saved, and what [List] answers from a time on ([None] is an error). *)
Record scan_env : Type := MkEnv {
  se_get : bool;
  se_list : Z → option (list EventRecord);
  se_set : bool;
}.

Inductive scan_error : Type := LoadHighWater | ListEvents | SaveHighWater.

Section pipeline.
Context `{Text}.
Context {S W : Type} `{!SuppressionStore S, !World W}.
Context (fingerprintFor : string → string → string → string) (suppression interval : Z).

Definition set_rules (p : ListenerPipeline S W) (c : core S W) (rules : list Rule) : ListenerPipeline S W :=
  MkPipeline c rules (lp_defaults p) (lp_staticRules p) (lp_alertRules p) (lp_groups p) (lp_setting p)
    (lp_lastTickAt p) (lp_lastError p) (lp_stopped p) (lp_Evaluated p).

Definition set_evaluated (p : ListenerPipeline S W) (evt : EventRecord) : ListenerPipeline S W :=
  MkPipeline (lp_core p) (lp_rules p) (lp_defaults p) (lp_staticRules p) (lp_alertRules p) (lp_groups p)
    (lp_setting p) (lp_lastTickAt p) (lp_lastError p) (lp_stopped p) (evt :: lp_Evaluated p).

Definition set_setting (p : ListenerPipeline S W) (v : string) : ListenerPipeline S W :=
  MkPipeline (lp_core p) (lp_rules p) (lp_defaults p) (lp_staticRules p) (lp_alertRules p) (lp_groups p) v
    (lp_lastTickAt p) (lp_lastError p) (lp_stopped p) (lp_Evaluated p).

(** One rule of [evaluate]'s loop: the store and the world, the rule with its
    counter, and whether an alert was written. *)
Definition evaluate_rule (now : Z) (evt : EventRecord) (c : core S W) (rule : Rule) : core S W * Rule * bool :=
  if negb (ru_Match rule evt) then (c, rule, false) else
  let fingerprint := fingerprintFor (ru_ID rule) (ev_SourceAddr evt) (ev_Kind evt) in
  if suppressed c fingerprint now then (c, rule, false) else
  let '(rule, reached) :=
    match ru_counter rule with
    | None => (rule, true)
    | Some k => let '(k, fired) := Hit k (ev_SourceAddr evt) now in (set_counter rule k, fired)
    end in
  if negb reached then (c, rule, false) else
  match ru_Build rule evt with
  | None => (c, rule, false)
  | Some alert =>
      let '(c, ok) := write suppression c now fingerprint (ru_ID rule) (ev_SourceAddr evt) (set_rule alert (ru_ID rule)) in
      (c, rule, ok)
  end.

Fixpoint evaluate_rules (now : Z) (evt : EventRecord) (c : core S W) (rules : list Rule)
    : core S W * list Rule * Z :=
  match rules with
  | [] => (c, [], 0)
  | rule :: rest =>
      let '(c, rule, ok) := evaluate_rule now evt c rule in
      let '(c, rest, count) := evaluate_rules now evt c rest in
      (c, rule :: rest, (if ok : bool then 1 else 0) + count)
  end.

(** [evaluate] *)
Definition evaluate (p : ListenerPipeline S W) (evt : EventRecord) : ListenerPipeline S W * Z :=
  let '(c, now) := read_clock (lp_core p) in
  let '(c, rules, count) := evaluate_rules now evt c (lp_rules p) in
  (set_evaluated (set_rules p c rules) evt, count).

(** [loadHighWater] *)
Definition loadHighWater (p : ListenerPipeline S W) (env : scan_env) : option Z :=
  if negb (se_get env) then None
  else if bool_decide (lp_setting p = "") then Some time_zero
  else parse_nano (lp_setting p).

(** [saveHighWater] *)
Definition saveHighWater (p : ListenerPipeline S W) (env : scan_env) (t : Z) : ListenerPipeline S W * bool :=
  if se_set env then (set_setting p (format_nano t), true) else (p, false).

(** The loop of [scanOnceInner]. *)
Fixpoint scan_events (p : ListenerPipeline S W) (maxObservedAt : Z) (events : list EventRecord)
    : ListenerPipeline S W * Z :=
  match events with
  | [] => (p, maxObservedAt)
  | evt :: rest =>
      let maxObservedAt := if time_after (ev_ObservedAt evt) maxObservedAt then ev_ObservedAt evt else maxObservedAt in
      let '(p, _) := evaluate p evt in
      scan_events p maxObservedAt rest
  end.

Definition scanOnceInner (p : ListenerPipeline S W) (env : scan_env) : ListenerPipeline S W * option scan_error :=
  match loadHighWater p env with
  | None => (p, Some LoadHighWater)
  | Some since =>
      match se_list env since with
      | None => (p, Some ListEvents)
      | Some [] => (p, None)
      | Some events =>
          let '(p, maxObservedAt) := scan_events p time_zero events in
          if maxObservedAt =? time_zero then (p, None)
          else let '(p, ok) := saveHighWater p env maxObservedAt in
               (p, if ok then None else Some SaveHighWater)
      end
  end.

(** [recordScan] *)
Definition recordScan (p : ListenerPipeline S W) (err : bool) : ListenerPipeline S W :=
  let '(c, now) := read_clock (lp_core p) in
  MkPipeline c (lp_rules p) (lp_defaults p) (lp_staticRules p) (lp_alertRules p) (lp_groups p)
    (lp_setting p) now err (lp_stopped p) (lp_Evaluated p).

Definition ScanOnce (p : ListenerPipeline S W) (env : scan_env) : ListenerPipeline S W * option scan_error :=
  let '(p, err) := scanOnceInner p env in
  (recordScan p (bool_decide (err ≠ None)), err).

(** [ReloadRules]: what the table of rules and the group members answer
    ([None] is an error). Reports whether it failed. *)
Definition ReloadRules (p : ListenerPipeline S W) (rows : option (list AlertRule))
    (members : option (gmap string (list string))) : ListenerPipeline S W * bool :=
  if negb (lp_alertRules p) || lp_staticRules p then (p, true) else
  match rows with
  | None => (p, false)
  | Some rows =>
      let groups :=
        if lp_groups p && existsb (λ r, negb (bool_decide (ar_GroupID r = ""))) rows then members else Some ∅ in
      match groups with
      | None => (p, false)
      | Some groups =>
          let compiled := CompileRulesFromDB (map Some rows) groups in
          let next := match compiled with [] => lp_defaults p | _ => compiled end in
          (set_rules p (lp_core p) (withPinned next), true)
      end
  end.

(** [NewListenerPipeline]; [rules] is [Config.Rules]. The required
    collaborators are there. *)
Definition NewListenerPipeline (rules : option (list Rule)) (alertRules groups : bool) (setting : string)
    (s : S) (w : W) (rows : option (list AlertRule)) (members : option (gmap string (list string)))
    : ListenerPipeline S W :=
  let static := bool_decide (rules ≠ None) in
  let initial := default (withPinned DefaultListenerRules) rules in
  let p := MkPipeline (empty_core s w) initial DefaultListenerRules static alertRules groups setting
             time_zero false false [] in
  if negb static && alertRules then (ReloadRules p rows members).1 else p.

(** The defaults of the configured durations. *)
Definition config_interval (d : Z) : Z :=
  let d := if d <=? 0 then defaultInterval else d in if d <? minInterval then minInterval else d.
Definition config_suppression (d : Z) : Z := if d <=? 0 then defaultSuppression else d.
Definition config_reload (d : Z) : Z :=
  let d := if d <=? 0 then defaultReloadInterval else d in if d <? second then second else d.

(** [Status] *)
Definition Status (p : ListenerPipeline S W) : ListenerPipeline S W * State :=
  if lp_stopped p then (p, StateStopped)
  else if lp_lastTickAt p =? time_zero then (p, StateOK)
  else let '(c, now) := read_clock (lp_core p) in
       (set_rules p c (lp_rules p),
        if degradedTickMultiplier * interval <? time_sub now (lp_lastTickAt p) then StateDegraded else StateOK).

(** What happens to a running pipeline: scans and reloads, one after the
    other. A reload that arrives within a scan takes effect between two
    events: an event being evaluated keeps the rules it started with. *)
Inductive lstep : ListenerPipeline S W → ListenerPipeline S W → Prop :=
| step_scan p env : lstep p (ScanOnce p env).1
| step_event p evt : lstep p (evaluate p evt).1
| step_reload p rows members : lstep p (ReloadRules p rows members).1
| step_status p : lstep p (Status p).1.
End pipeline.

(** ** One alert per rule, source and window *)

Section spaced.
Context `{Text}.
Context {S W : Type} `{!SuppressionStore S, !SuppressionLaws S, !World W, !WorldLaws W}.
Context (fingerprintFor : string → string → string → string) (suppression interval : Z).
(** A fingerprint is 24 hexadecimal digits. *)
Context (fingerprint_ne : ∀ a b c, fingerprintFor a b c ≠ "").
Context (covered : sl_covers suppression).

#[local] Abbreviation pipeline := (ListenerPipeline S W).
#[local] Abbreviation at_now c now := (core_ok suppression c ∧ w_clock (co_world c) = now).

Lemma evaluate_rule_ok now evt (c : core S W) rule :
  at_now c now → at_now (evaluate_rule fingerprintFor suppression now evt c rule).1.1 now.
Proof.
  intros [Hc Hn]. unfold evaluate_rule. destruct (negb _); [done|].
  destruct (suppressed _ _ _) eqn:Hs; [done|].
  destruct (match ru_counter rule with Some _ => _ | None => _ end) as [rule' reached].
  destruct reached; [|done]. cbn [negb]. destruct (ru_Build rule' evt) as [alert|]; [|done].
  pose proof (write_ok suppression c now _ (ru_ID rule') (ev_SourceAddr evt) (set_rule alert (ru_ID rule'))
    Hc Hn (fingerprint_ne _ _ _) covered Hs) as HW.
  destruct (write _ _ _ _ _ _ _) as [c' ok]. cbn. by destruct HW as (? & ? & _).
Qed.

Lemma evaluate_rules_ok now evt rules (c : core S W) :
  at_now c now → at_now (evaluate_rules fingerprintFor suppression now evt c rules).1.1 now.
Proof.
  revert c. induction rules as [|rule rules IH]; intros c Hc; [done|]. cbn [evaluate_rules].
  pose proof (evaluate_rule_ok now evt c rule Hc) as Hc'.
  destruct (evaluate_rule _ _ _ _ _ _) as [[c1 r1] ok]. specialize (IH c1 Hc').
  by destruct (evaluate_rules _ _ _ _ _ _) as [[c2 r2] n].
Qed.

#[local] Abbreviation pipe_ok p := (core_ok suppression (lp_core p)).

Lemma evaluate_ok (p : pipeline) evt : pipe_ok p → pipe_ok (evaluate fingerprintFor suppression p evt).1.
Proof.
  intros Hp. unfold evaluate. destruct (read_clock_ok suppression (lp_core p) Hp) as (H1 & H2 & _).
  destruct (read_clock (lp_core p)) as [c now]. pose proof (evaluate_rules_ok now evt (lp_rules p) c (conj H1 H2)) as [H3 _].
  by destruct (evaluate_rules _ _ _ _ _ _) as [[c' rules] n].
Qed.

Lemma scan_events_ok events (p : pipeline) m :
  pipe_ok p → pipe_ok (scan_events fingerprintFor suppression p m events).1.
Proof.
  revert p m. induction events as [|evt events IH]; intros p m Hp; [done|]. cbn [scan_events].
  pose proof (evaluate_ok p evt Hp) as Hp'. destruct (evaluate _ _ p evt) as [p' n]. by apply IH.
Qed.

Lemma scanOnceInner_ok (p : pipeline) env :
  pipe_ok p → pipe_ok (scanOnceInner fingerprintFor suppression p env).1.
Proof.
  intros Hp. unfold scanOnceInner. destruct (loadHighWater p env) as [since|]; [|done].
  destruct (se_list env since) as [[|evt events]|]; [done| |done].
  pose proof (scan_events_ok (evt :: events) p time_zero Hp) as Hp'.
  destruct (scan_events _ _ _ _ _) as [p' m]. destruct (_ =? _); [done|]. unfold saveHighWater. by destruct (se_set env).
Qed.

Lemma read_ok (p : pipeline) : pipe_ok p → core_ok suppression (read_clock (lp_core p)).1.
Proof. intros Hp. by apply (read_clock_ok suppression). Qed.

Lemma lstep_ok p p' : lstep fingerprintFor suppression interval p p' → pipe_ok p → pipe_ok p'.
Proof.
  destruct 1 as [p env|p evt|p rows members|p]; intros Hp.
  - unfold ScanOnce. pose proof (scanOnceInner_ok p env Hp) as Hp'. destruct (scanOnceInner _ _ p env) as [p1 err].
    unfold recordScan. pose proof (read_ok p1 Hp'). by destruct (read_clock (lp_core p1)).
  - by apply evaluate_ok.
  - unfold ReloadRules. destruct (_ || _); [done|]. destruct rows; [|done]. by destruct (if _ && _ then members else _).
  - unfold Status. destruct (lp_stopped p); [done|]. destruct (_ =? _); [done|].
    pose proof (read_ok p Hp). by destruct (read_clock (lp_core p)).
Qed.

Lemma NewListenerPipeline_ok rules ar gr setting s w rows members :
  pipe_ok (NewListenerPipeline (S := S) (W := W) rules ar gr setting s w rows members).
Proof.
  unfold NewListenerPipeline. destruct (negb _ && _); [|apply empty_core_ok].
  unfold ReloadRules. destruct (_ || _); [apply empty_core_ok|]. destruct rows; [|apply empty_core_ok].
  destruct (if _ && _ then members else _); apply empty_core_ok.
Qed.

(** C27: Whatever a pipeline goes through (scans over any rows, database errors,
    reloads of its rules, status queries), two alerts of the same rule, source
    and kind are written at least the suppression window apart: for any store
    that keeps its promise for marks that far ahead, any alert writer, and a
    clock that does not go back. *)
Theorem alerts_spaced rules ar gr setting s w rows members p :
  rtc (lstep fingerprintFor suppression interval)
      (NewListenerPipeline rules ar gr setting s w rows members) p →
  ∀ i j ti tj fi fj ai aj, (i < j)%nat →
    co_written (lp_core p) !! i = Some (ti, fi, ai) → co_written (lp_core p) !! j = Some (tj, fj, aj) →
    fi = fj → tj + suppression ≤ ti.
Proof.
  intros Hr. assert (pipe_ok p) as [Hs _ _].
  { remember (NewListenerPipeline rules ar gr setting s w rows members) as p0 eqn:E0.
    assert (pipe_ok p0) as H0 by (subst; apply NewListenerPipeline_ok). clear E0.
    induction Hr as [|p1 p2 p3 Hstep _ IH]; [done|]. apply IH. by eapply lstep_ok. }
  intros i j ti tj fi fj ai aj. by apply spaced_lookup.
Qed.
End spaced.

(** ** No event is lost *)

Section lossless.
Context `{Text}.
Context {S W : Type} `{!SuppressionStore S, !World W}.
Context (fingerprintFor : string → string → string → string) (suppression : Z).
(** [time.RFC3339Nano] keeps an instant. *)
Context (nano_roundtrip : ∀ t, parse_nano (format_nano t) = Some t).
Context (nano_ne : ∀ t, format_nano t ≠ "").

#[local] Abbreviation pipeline := (ListenerPipeline S W).

(** The time the next scan reads from. *)
Definition high_water (p : pipeline) : option Z :=
  if bool_decide (lp_setting p = "") then Some time_zero else parse_nano (lp_setting p).

Fixpoint newest (m : Z) (events : list EventRecord) : Z :=
  match events with
  | [] => m
  | evt :: rest => newest (Z.max m (ev_ObservedAt evt)) rest
  end.

Lemma newest_le m events :
  m ≤ newest m events ∧ ∀ e, e ∈ events → ev_ObservedAt e ≤ newest m events.
Proof.
  revert m. induction events as [|x l IH]; intros m; cbn; [split; [lia|set_solver]|].
  destruct (IH (Z.max m (ev_ObservedAt x))) as [H1 H2]. split; [lia|].
  intros e [->|He]%elem_of_cons; [lia|by apply H2].
Qed.

Lemma newest_in m events :
  newest m events = m ∨ ∃ e, e ∈ events ∧ newest m events = ev_ObservedAt e.
Proof.
  revert m. induction events as [|x l IH]; intros m; cbn; [by left|].
  destruct (IH (Z.max m (ev_ObservedAt x))) as [->|(e & He & ->)]; [|right; exists e; split; [by right|done]].
  destruct (decide (m < ev_ObservedAt x)); [right; exists x; split; [by left|lia]|left; lia].
Qed.

Lemma evaluate_seen (p : pipeline) evt :
  lp_Evaluated (evaluate fingerprintFor suppression p evt).1 = evt :: lp_Evaluated p ∧
  lp_setting (evaluate fingerprintFor suppression p evt).1 = lp_setting p.
Proof. unfold evaluate. destruct (read_clock _). by destruct (evaluate_rules _ _ _ _ _ _) as [[??]?]. Qed.

Lemma scan_events_seen events (p : pipeline) m :
  let '(p', m') := scan_events fingerprintFor suppression p m events in
  lp_Evaluated p' = rev events ++ lp_Evaluated p ∧ lp_setting p' = lp_setting p ∧ m' = newest m events.
Proof.
  revert p m. induction events as [|evt events IH]; intros p m; [done|]. cbn [scan_events newest rev].
  destruct (evaluate_seen p evt) as [H1 H2]. destruct (evaluate _ _ p evt) as [p1 n]. cbn in H1, H2.
  assert ((if time_after (ev_ObservedAt evt) m then ev_ObservedAt evt else m) = Z.max m (ev_ObservedAt evt)) as ->.
  { unfold time_after. destruct (Z.ltb_spec m (ev_ObservedAt evt)); lia. }
  specialize (IH p1 (Z.max m (ev_ObservedAt evt))). destruct (scan_events _ _ _ _ _) as [p' m'].
  destruct IH as (-> & -> & ->). by rewrite H1, H2, <-app_assoc.
Qed.

(** A scan whose list query answers and whose mark is read: what it evaluates
    is what the query returned, and it reads on from the newest of these, or
    from where it was when the new mark cannot be saved. *)
Lemma ScanOnce_seen (p : pipeline) env since out :
  se_get env = true → high_water p = Some since → se_list env since = Some out →
  let p' := (ScanOnce fingerprintFor suppression p env).1 in
  lp_Evaluated p' = rev out ++ lp_Evaluated p ∧
  high_water p' = Some (if (newest time_zero out =? time_zero) || negb (se_set env) then since else newest time_zero out).
Proof.
  intros Hg Hh Hl. unfold ScanOnce, scanOnceInner, loadHighWater. rewrite Hg. cbn [negb].
  fold (high_water p). rewrite Hh, Hl.
  assert (∀ q : pipeline, ∀ b, high_water (recordScan q b) = high_water q ∧ lp_Evaluated (recordScan q b) = lp_Evaluated q) as Hrec.
  { intros q b. unfold recordScan, high_water. by destruct (read_clock _). }
  destruct out as [|evt out].
  - cbn [fst snd]. by rewrite (proj1 (Hrec _ _)), (proj2 (Hrec _ _)).
  - pose proof (scan_events_seen (evt :: out) p time_zero) as HS.
    destruct (scan_events _ _ _ _ _) as [p1 m]. destruct HS as (HS1 & HS2 & ->).
    destruct (Z.eqb_spec (newest time_zero (evt :: out)) time_zero) as [E|E].
    + cbn [fst snd orb]. rewrite (proj1 (Hrec _ _)), (proj2 (Hrec _ _)).
      split; [done|]. unfold high_water. by rewrite HS2.
    + unfold saveHighWater. destruct (se_set env); cbn [fst snd orb negb];
        rewrite (proj1 (Hrec _ _)), (proj2 (Hrec _ _)); (split; [done|]); unfold high_water.
      * cbn [lp_setting set_setting]. rewrite bool_decide_eq_false_2 by apply nano_ne. by rewrite nano_roundtrip.
      * by rewrite HS2.
Qed.

(** A scan that cannot read its mark or the table evaluates nothing. *)
Lemma ScanOnce_unread (p : pipeline) env since :
  high_water p = Some since → (se_get env = false ∨ se_list env since = None) →
  let p' := (ScanOnce fingerprintFor suppression p env).1 in
  lp_Evaluated p' = lp_Evaluated p ∧ high_water p' = Some since.
Proof.
  intros Hh Hf. unfold ScanOnce, scanOnceInner, loadHighWater. fold (high_water p). rewrite Hh.
  assert (∀ q : pipeline, ∀ b, high_water (recordScan q b) = high_water q ∧ lp_Evaluated (recordScan q b) = lp_Evaluated q) as Hrec.
  { intros q b. unfold recordScan, high_water. by destruct (read_clock _). }
  destruct (se_get env); [destruct Hf as [|Hf]; [done|]; cbn [negb]; rewrite Hf|]; cbn [negb fst snd];
    by rewrite (proj1 (Hrec _ _)), (proj2 (Hrec _ _)).
Qed.

(** A table of events and a pipeline over it: events arrive, rules are
    reloaded, and scans read what the query finds in the table, or fail, at the
    mark, at the query or at saving the mark. [ontime] asks an arriving event
    not to be before the mark, as the query compares them; [enough] asks what
    the query matches to fit one batch; [agree] asks the texts the query
    compares to order as the times. *)
Inductive feed (ontime enough agree : bool) : pipeline * list EventRecord → pipeline * list EventRecord → Prop :=
| feed_arrive p rows evt since :
    high_water p = Some since → time_zero < ev_ObservedAt evt →
    (ontime = true → since_ok ev_ObservedAt since evt) →
    feed ontime enough agree (p, rows) (p, evt :: rows)
| feed_reload p rows r m :
    feed ontime enough agree (p, rows) ((ReloadRules p r m).1, rows)
| feed_scan p rows env since :
    high_water p = Some since →
    (se_list env since = None ∨ se_list env since = Some (List_ ev_ObservedAt rows since defaultBatch)) →
    (enough = true → len (filter (since_ok ev_ObservedAt since) rows) ≤ defaultBatch) →
    (agree = true → stamps_agree (since :: map ev_ObservedAt rows)) →
    feed ontime enough agree (p, rows) ((ScanOnce fingerprintFor suppression p env).1, rows).

Record fed (p : pipeline) (rows : list EventRecord) : Prop := MkFed {
  fd_mark : is_Some (high_water p);
  fd_rows : ∀ e, e ∈ rows → time_zero < ev_ObservedAt e;
}.

Definition unread (p : pipeline) (rows : list EventRecord) : Prop :=
  ∀ e since, e ∈ rows → high_water p = Some since → e ∈ lp_Evaluated p ∨ since_ok ev_ObservedAt since e.

Lemma ReloadRules_seen (p : pipeline) r m :
  high_water (ReloadRules p r m).1 = high_water p ∧ lp_Evaluated (ReloadRules p r m).1 = lp_Evaluated p.
Proof. unfold ReloadRules. destruct (_ || _); [done|]. destruct r; [|done]. by destruct (if _ && _ then m else _). Qed.

(** What a scan of [feed] does: it evaluates the rows of one query and moves
    the mark at most to the newest of them, or it does nothing. *)
Lemma feed_scan_seen (p : pipeline) rows env since :
  high_water p = Some since →
  (se_list env since = None ∨ se_list env since = Some (List_ ev_ObservedAt rows since defaultBatch)) →
  let p' := (ScanOnce fingerprintFor suppression p env).1 in
  let out := List_ ev_ObservedAt rows since defaultBatch in
  (lp_Evaluated p' = lp_Evaluated p ∧ high_water p' = Some since) ∨
  lp_Evaluated p' = rev out ++ lp_Evaluated p ∧
  ∃ since', high_water p' = Some since' ∧ (since' = since ∨ ∃ e, e ∈ out ∧ since' = ev_ObservedAt e).
Proof.
  intros Hh Hl p' out. destruct (se_get env) eqn:Hg; [destruct Hl as [Hl|Hl]|].
  - left. apply ScanOnce_unread; auto.
  - right. destruct (ScanOnce_seen p env since _ Hg Hh Hl) as [HE HW]. split; [done|].
    eexists. split; [exact HW|]. destruct (newest time_zero _ =? time_zero) eqn:E; [by left|].
    destruct (se_set env); [|by left]. right. apply Z.eqb_neq in E.
    by destruct (newest_in time_zero out) as [?|(e & ? & ?)]; [|exists e].
  - left. apply ScanOnce_unread; auto.
Qed.

Lemma feed_fed ontime enough agree x y : feed ontime enough agree x y → fed x.1 x.2 → fed y.1 y.2.
Proof.
  destruct 1 as [p rows evt since Hh Hz Hon|p rows r m|p rows env since Hh Hl Hen Hag]; intros [H1 H2]; cbn in *.
  - split; [done|]. intros e [->|He]%elem_of_cons; [done|by apply H2].
  - split; [|done]. by rewrite (proj1 (ReloadRules_seen p r m)).
  - split; [|done]. destruct (feed_scan_seen p rows env since Hh Hl) as [[_ ->]|(_ & since' & -> & _)]; eauto.
Qed.

(** Nothing older than the mark is evaluated any more, and the mark does not
    go back, as long as texts order as times. *)
Lemma feed_final ontime enough x y since :
  feed ontime enough true x y → fed x.1 x.2 → high_water x.1 = Some since →
  (∃ since', high_water y.1 = Some since' ∧ since ≤ since') ∧
  ∀ e, ev_ObservedAt e < since → e ∈ lp_Evaluated y.1 → e ∈ lp_Evaluated x.1.
Proof.
  destruct 1 as [p rows evt since0 Hh Hz Hon|p rows r m|p rows env since0 Hh Hl Hen Hag]; intros [H1 H2] Hx; cbn in *.
  - split; [by exists since|done].
  - rewrite (proj1 (ReloadRules_seen p r m)), (proj2 (ReloadRules_seen p r m)). split; [by exists since|done].
  - rewrite Hx in Hh. injection Hh as <-. specialize (Hag eq_refl).
    assert (∀ e, e ∈ List_ ev_ObservedAt rows since defaultBatch → since ≤ ev_ObservedAt e) as Hout.
    { intros e He. apply List_in in He as [He [->|Hs]]; [specialize (H2 e He); lia|]. apply Hag; [by left| |done].
      right. apply list_elem_of_In, in_map. by apply list_elem_of_In. }
    destruct (feed_scan_seen p rows env since Hx Hl) as [[HE HW]|(HE & since' & HW & Hs)]; rewrite HE, HW.
    + split; [by exists since|done].
    + split.
      * exists since'. split; [done|]. destruct Hs as [->|(e & He & ->)]; [done|by apply Hout].
      * intros e He [Hin|Hin]%elem_of_app; [|done]. rewrite list_elem_of_In, <-in_rev, <-list_elem_of_In in Hin. specialize (Hout e Hin). lia.
Qed.

(** The mark is final: whatever happens later, with late arrivals, full
    batches and reloads, no scan evaluates an event older than the mark that
    was not evaluated before. So an event that [List] cuts off a batch of more
    than 500, or that arrives with an older time, is never looked at. *)
Theorem mark_final x y since e :
  rtc (feed false false true) x y → fed x.1 x.2 → high_water x.1 = Some since →
  ev_ObservedAt e < since → e ∈ lp_Evaluated y.1 → e ∈ lp_Evaluated x.1.
Proof.
  intros Hr. revert since. induction Hr as [x|x y z Hxy _ IH]; intros since Hf Hh He Hin; [done|].
  destruct (feed_final _ _ _ _ since Hxy Hf Hh) as [(since' & Hh' & Hle) Hold].
  apply Hold; [done|]. eapply (IH since'); [by eapply feed_fed|done|lia|done].
Qed.

Lemma feed_unread agree x y : feed true true agree x y → fed x.1 x.2 → unread x.1 x.2 → unread y.1 y.2.
Proof.
  destruct 1 as [p rows evt since0 Hh Hz Hon|p rows r m|p rows env since0 Hh Hl Hen Hag]; intros [H1 H2] Hu e since He Hx; cbn in *.
  - rewrite Hh in Hx. injection Hx as <-. apply elem_of_cons in He as [->|He]; [right; by apply Hon|by apply (Hu e)].
  - rewrite (proj1 (ReloadRules_seen p r m)) in Hx. rewrite (proj2 (ReloadRules_seen p r m)). by apply Hu.
  - destruct (feed_scan_seen p rows env since0 Hh Hl) as [[HE HW]|(HE & _)]; rewrite HE.
    + rewrite HW in Hx. injection Hx as <-. by apply (Hu e).
    + left. apply elem_of_app. destruct (Hu e since0 He Hh) as [|Hle]; [by right|left].
      rewrite list_elem_of_In, <-in_rev, <-list_elem_of_In. apply List_all; auto.
Qed.

Lemma feeds_unread agree x y : rtc (feed true true agree) x y → fed x.1 x.2 → unread x.1 x.2 → unread y.1 y.2.
Proof. induction 1; [done|]. eauto using feed_fed, feed_unread. Qed.

(** C10: No listener event is lost while events arrive in time and a backlog
    fits one batch. Take any run of arrivals, rule reloads and scans over the
    event table, where a scan reads what the table's query finds, or fails at
    reading its mark, at the query or at saving the mark. Suppose every event
    arrives with a time that the query puts at or after the mark then in
    force, and no query ever matches more than 500 rows. Then one more scan
    whose reads work leaves no row of the table that no scan evaluated. In
    time is meant in the order of the stored texts, the one the query uses:
    it is the order of the times but for fractions of a second whose trailing
    zeros were dropped. An event inserted while a scan runs, after its query,
    counts as arriving after that scan. *)
Theorem scans_complete p0 p rows env since e :
  fed p0 [] → rtc (feed true true false) (p0, []) (p, rows) →
  se_get env = true → high_water p = Some since →
  se_list env since = Some (List_ ev_ObservedAt rows since defaultBatch) →
  len (filter (since_ok ev_ObservedAt since) rows) ≤ defaultBatch →
  e ∈ rows → e ∈ lp_Evaluated (ScanOnce fingerprintFor suppression p env).1.
Proof.
  intros Hf Hr Hg Hh Hl Hen He.
  assert (unread p rows) as Hu.
  { apply (feeds_unread _ _ _ Hr); [done|]. intros ? ? Hin. by apply not_elem_of_nil in Hin. }
  destruct (ScanOnce_seen p env since _ Hg Hh Hl) as [HE _]. rewrite HE. apply elem_of_app.
  destruct (Hu e since He Hh) as [|Hle]; [by right|left]. rewrite list_elem_of_In, <-in_rev, <-list_elem_of_In. apply List_all; auto.
Qed.
End lossless.

(** ** Reloading the rules *)

Section reload.
Context `{Text}.
Context {S W : Type} `{!SuppressionStore S, !World W}.

Definition scoped (rows : list AlertRule) : bool := existsb (λ r, negb (bool_decide (ar_GroupID r = ""))) rows.
Definition enabled (rows : list AlertRule) : list AlertRule := filter (λ r, ar_Enabled r = true) rows.

Lemma Compile_enabled rows groups :
  CompileRulesFromDB (map Some rows) groups = map (λ r, compileOne r groups) (enabled rows).
Proof.
  induction rows as [|r rows IH]; [done|]. unfold CompileRulesFromDB in *. cbn [map omap list_omap]. unfold enabled in *.
  destruct (ar_Enabled r) eqn:E.
  - rewrite filter_cons_True by done. cbn. f_equal. exact IH.
  - rewrite filter_cons_False by (by rewrite E). exact IH.
Qed.

Lemma compileOne_scope row groups evt :
  ar_GroupID row ≠ "" → ru_Match (compileOne row groups) evt = true →
  ∃ addr, addr ∈ default [] (groups !! ar_GroupID row) ∧ Host (ev_SourceAddr evt) = Host addr.
Proof.
  intros Hg. cbn. unfold members_of. rewrite bool_decide_eq_false_2 by done.
  destruct (bool_decide_reflect (Host (ev_SourceAddr evt) ∈ (list_to_set (map Host (default [] (groups !! ar_GroupID row))) : gset string))) as [Hin|];
    [|done]. intros _. apply elem_of_list_to_set in Hin.
  change (map Host ?l) with (Host <$> l) in Hin. apply list_elem_of_fmap in Hin as (addr & -> & Hin). by exists addr.
Qed.

(** A reload that fails leaves the pipeline as it was. One that succeeds
    leaves the store, the alerts written and the mark alone and puts
    in force the enabled rows, compiled in order, or the defaults when there
    is none, and the pinned rules after either. A row scoped to a group never
    matches an event from outside the group: of a group that is unknown, or
    that could not be read, it matches nothing. *)
Theorem ReloadRules_spec (p : ListenerPipeline S W) rows members :
  let '(p', ok) := ReloadRules p rows members in
  lp_core p' = lp_core p ∧ lp_setting p' = lp_setting p ∧
  if lp_alertRules p && negb (lp_staticRules p) then
    match rows with
    | None => ok = false ∧ p' = p
    | Some rs =>
        match (if lp_groups p && scoped rs then members else Some ∅) with
        | None => ok = false ∧ p' = p
        | Some groups =>
            ok = true ∧
            lp_rules p' = match enabled rs with
                          | [] => lp_defaults p
                          | _ => map (λ r, compileOne r groups) (enabled rs)
                          end ++ pinnedListenerRules ∧
            ∀ row evt, row ∈ enabled rs → ar_GroupID row ≠ "" → ru_Match (compileOne row groups) evt = true →
              lp_groups p = true ∧ ∃ l addr, groups !! ar_GroupID row = Some l ∧ addr ∈ l ∧ Host (ev_SourceAddr evt) = Host addr
        end
    end
  else ok = true ∧ p' = p.
Proof.
  unfold ReloadRules. destruct (lp_alertRules p), (lp_staticRules p); cbn [negb orb andb]; try done.
  destruct rows as [rs|]; [|done]. fold (scoped rs).
  destruct (if lp_groups p && scoped rs then members else Some ∅) as [groups|] eqn:Eg; [|done].
  cbn [lp_core set_rules lp_setting lp_rules]. split_and!; try done.
  - unfold withPinned. rewrite Compile_enabled. by destruct (enabled rs).
  - intros row evt Hin Hg Hm. destruct (compileOne_scope _ _ _ Hg Hm) as (addr & Ha & Hh).
    destruct (groups !! ar_GroupID row) as [l|] eqn:El; [|by apply not_elem_of_nil in Ha]. split; [|eauto].
    destruct (lp_groups p); [done|]. injection Eg as <-. done.
Qed.
End reload.

(** ** A pipeline at work *)

#[local] Instance demo_text : Text := {|
  Payload := unit;
  unmarshal_hit _ := None; unmarshal_quality _ := None; unmarshal_raw _ := None; unmarshal_string _ := None;
  unmarshal_payload _ := tt; template_parse _ := None; SplitHostPort _ := None; ParseAddr _ := None;
  addr_string _ := ""; fmt_float _ _ := ""; fmt_08x _ := ""; format_rfc3339 _ := "";
  format_nano := demo_format; parse_nano := demo_parse;
|}.

Definition demo_start (t : Z) (step : N) (rules : option (list Rule)) : ListenerPipeline inMemorySuppressionStore (Z * N) :=
  NewListenerPipeline rules (bool_decide (rules = None)) false "" newInMemorySuppressionStore (t, step) (Some []) None.

Definition demo_event (t : Z) : EventRecord := MkEvent "syslog-udp" "10.0.0.1" "error" t "{}".
Definition demo_evaluate (p : ListenerPipeline inMemorySuppressionStore (Z * N)) (t : Z) :=
  (evaluate demo_fingerprint defaultSuppression p (demo_event t)).1.

Definition demo_thrice : ListenerPipeline inMemorySuppressionStore (Z * N) :=
  demo_evaluate (demo_evaluate (demo_evaluate (demo_start 0 (Z.to_N (200 * second)) None) 1) 2) 3.

(** Three events 200 seconds apart under a window of 300: the second is
    suppressed. *)
Example demo_thrice_written :
  map (λ e, e.1.1 / second) (co_written (lp_core demo_thrice)) = [600; 200].
Proof. by vm_compute. Qed.

Lemma demo_thrice_steps :
  rtc (lstep demo_fingerprint defaultSuppression defaultInterval) (demo_start 0 (Z.to_N (200 * second)) None) demo_thrice.
Proof. do 3 (eapply rtc_l; [apply step_event|]). apply rtc_refl. Qed.

Lemma alerts_spaced_witness :
  ∃ ti fi ai tj fj aj,
    co_written (lp_core demo_thrice) !! 0%nat = Some (ti, fi, ai) ∧
    co_written (lp_core demo_thrice) !! 1%nat = Some (tj, fj, aj) ∧ fi = fj ∧ tj + defaultSuppression ≤ ti.
Proof.
  eexists _, _, _, _, _, _. split; [by vm_compute|]. split; [by vm_compute|]. split; [done|].
  eapply (alerts_spaced (S := inMemorySuppressionStore) demo_fingerprint defaultSuppression defaultInterval).
  - done.
  - unfold sl_covers. cbn. unfold defaultSuppression, hour, minute, second. lia.
  - exact demo_thrice_steps.
  - exact (Nat.lt_succ_diag_r 0).
  - by vm_compute.
  - by vm_compute.
  - done.
Defined.

Definition demo_env (rows : list EventRecord) : scan_env :=
  MkEnv true (λ since, Some (List_ ev_ObservedAt rows since defaultBatch)) true.

Definition demo_scan (p : ListenerPipeline inMemorySuppressionStore (Z * N)) (rows : list EventRecord) :=
  (ScanOnce demo_fingerprint defaultSuppression p (demo_env rows)).1.

(** An idle table with one event in it: the query includes the mark, so each
    scan evaluates the event again, and alerts again once the window is over. *)
Example newest_event_again :
  let p := demo_scan (demo_scan (demo_scan (demo_start 0 (Z.to_N (80 * second)) None) [demo_event 5]) [demo_event 5]) [demo_event 5] in
  length (lp_Evaluated p) = 3%nat ∧ length (co_written (lp_core p)) = 2%nat.
Proof. by vm_compute. Qed.

(** A backlog of 501 events: the oldest is cut off, and the second scan reads
    from the newest on. *)
Definition demo_backlog : list EventRecord := map (λ i, demo_event (1000 * second + Z.of_nat i * second)) (seq 0 501).

Example backlog_lost :
  let p := demo_scan (demo_scan (demo_start 0 1 None) demo_backlog) demo_backlog in
  len demo_backlog = 501 ∧ length (lp_Evaluated p) = 501%nat ∧
  bool_decide (demo_event (1000 * second) ∈ lp_Evaluated p) = false.
Proof. by vm_compute. Qed.

(** Two of three hits of a ten-minute rule, with the minute's reload between
    them: the reload compiles a new counter, so the rule does not fire;
    without it, it does. *)
Definition demo_row : AlertRule := MkRow 7 "two" true "" "" "" "system" "error" "t" "m" 600 2 "".
Definition demo_reload (p : ListenerPipeline inMemorySuppressionStore (Z * N)) := (ReloadRules p (Some [demo_row]) None).1.

Example reload_resets_counter :
  let p := demo_reload (demo_start 0 (Z.to_N (40 * second)) None) in
  length (co_written (lp_core (demo_evaluate (demo_evaluate p 1) 2))) = 1%nat ∧
  length (co_written (lp_core (demo_evaluate (demo_reload (demo_evaluate p 1)) 2))) = 0%nat.
Proof. by vm_compute. Qed.

Definition demo_rows : list EventRecord := [demo_event (7 * second); demo_event (5 * second)].

Lemma demo_fed step : fed (demo_start 0 step None) [].
Proof. split; [by eexists|]. intros e He. by apply not_elem_of_nil in He. Qed.

Lemma demo_feed :
  rtc (feed demo_fingerprint defaultSuppression true true false) (demo_start 0 1 None, []) (demo_start 0 1 None, demo_rows).
Proof.
  eapply rtc_l; [eapply (feed_arrive _ _ _ _ _ _ _ (demo_event (5 * second)) time_zero); [done|by vm_compute|by left]|].
  eapply rtc_l; [eapply (feed_arrive _ _ _ _ _ _ _ (demo_event (7 * second)) time_zero); [done|by vm_compute|by left]|].
  apply rtc_refl.
Qed.

Lemma scans_complete_witness :
  demo_event (5 * second) ∈ lp_Evaluated (demo_scan (demo_start 0 1 None) demo_rows).
Proof.
  eapply (scans_complete (H := demo_text) demo_fingerprint defaultSuppression demo_roundtrip demo_format_ne (demo_start 0 1 None)).
  - exact (demo_fed 1).
  - exact demo_feed.
  - done.
  - done.
  - done.
  - by vm_compute.
  - right. by left.
Defined.

(** The mark is at seven seconds after a first scan; the event of five seconds
    arrives after it, and the next scan does not look at it. *)
Definition demo_first : ListenerPipeline inMemorySuppressionStore (Z * N) :=
  demo_scan (demo_start 0 1 None) [demo_event (7 * second)].

Definition demo_late : list EventRecord := [demo_event (5 * second); demo_event (7 * second)].

Lemma demo_late_feed :
  rtc (feed demo_fingerprint defaultSuppression false false true) (demo_first, [demo_event (7 * second)])
      (demo_scan demo_first demo_late, demo_late).
Proof.
  eapply rtc_l; [eapply (feed_arrive _ _ _ _ _ _ _ (demo_event (5 * second)) (7 * second)); [by vm_compute|by vm_compute|done]|].
  eapply rtc_l; [|apply rtc_refl].
  eapply (feed_scan _ _ _ _ _ demo_first demo_late (demo_env demo_late) (7 * second)); [by vm_compute|by right|done|].
  intros _. apply whole_seconds_agree. repeat constructor; by vm_compute.
Qed.

Lemma mark_final_witness :
  demo_event (5 * second) ∉ lp_Evaluated (demo_scan demo_first demo_late).
Proof.
  intros Hin.
  assert (demo_event (5 * second) ∈ lp_Evaluated demo_first) as He.
  { eapply (mark_final (H := demo_text) demo_fingerprint defaultSuppression demo_roundtrip demo_format_ne (demo_first, [demo_event (7 * second)]) (demo_scan demo_first demo_late, demo_late) (7 * second)).
    - exact demo_late_feed.
    - split; [by eexists; vm_compute|]. intros e He%list_elem_of_singleton. by subst.
    - by vm_compute.
    - by vm_compute.
    - exact Hin. }
  apply (bool_decide_eq_true_2 _) in He. by vm_compute in He.
Defined.

(** The mark is at ten seconds sharp; the event of half a second later is in
    the table before the next scan, and no scan looks at it. *)
Example half_second_lost :
  let rows := [demo_event (10 * second + second / 2); demo_event (10 * second)] in
  let p := demo_scan (demo_scan (demo_start 0 1 None) [demo_event (10 * second)]) rows in
  high_water p = Some (10 * second) ∧
  bool_decide (demo_event (10 * second + second / 2) ∈ lp_Evaluated p) = false.
Proof. by vm_compute. Qed.
