(* ===== verification/AlertObserve.v ===== *)
(** * The observation alert pipeline (src/internal/alerts/pipeline/observation_*.go)

    What each poll of a target tells against the one before: interfaces and
    BGP peers that went down, filesystems that crossed a threshold, a new
    spanning-tree root or topology, routes withdrawn or moved, IP-SLA runs that
    fail. The decoding of a payload, the parsing of a mask and the formatting
    of a percentage are the class [Decoder]; alerts are written through
    AlertPipe's [fire]. *)
From Stdlib Require Import ZArith Lia SpecFloat Ascii.
From stdpp Require Import base gmap sets list strings pretty sorting.
From S2P Require Import Prelude GoBase AlertWindows AlertPipe.

Definition RuleStorageHigh : string := "storage.high".
Definition RuleStorageCritical : string := "storage.critical".
Definition RuleSTPRootChange : string := "stp.root_change".
Definition RuleSTPTopologyChange : string := "stp.topology_change".
Definition RuleRouteWithdrawn : string := "route.withdrawn".
Definition RuleRouteChange : string := "route.change".
Definition RuleIPSLAFailed : string := "ip_sla.failed".
Definition RuleIPSLAOverThreshold : string := "ip_sla.over_threshold".

Definition ifOperUp : Z := 1.
Definition bgpStateEstablished : Z := 6.
Definition storageHighPct : spec_float := Eval vm_compute in float64 85.
Definition storageFullPct : spec_float := Eval vm_compute in float64 95.
Definition percentMultiplier : spec_float := Eval vm_compute in float64 100.
Definition slaSenseOK : Z := 1.
Definition slaSenseOverThreshold : Z := 3.
Definition maxRouteEvidence : nat := 50.
Definition defaultReplayDepth : Z := 2.
Definition defaultBatch : Z := 500.

(** ** Observations and their payloads *)

Record SNMPObservation : Type := MkObservation {
  ob_TargetID : string;
  ob_Kind : string;
  ob_ObservedAt : Z;
  ob_PayloadJSON : string;
}.

Record ifRow : Type := MkIf { if_IfIndex : Z; if_IfName : string; if_IfAdmin : Z; if_IfOper : Z }.
Record bgpPeer : Type := MkPeer { bp_RemoteAddr : string; bp_State : Z; bp_RemoteAS : Z }.
Record storageRow : Type := MkStorage {
  st_Index : Z; st_Description : string; st_SizeBytes : Z; st_UsedBytes : Z;
}.

Record stpBridgeID : Type := MkBridge { br_Priority : Z; br_Address : string }.
#[export] Instance stpBridgeID_eq_dec : EqDecision stpBridgeID.
Proof. solve_decision. Defined.

Record stpPort : Type := MkPort { sp_Port : Z; sp_IfIndex : Z; sp_State : Z }.
Record stpObsPayload : Type := MkSTP {
  py_Root : stpBridgeID; py_RootPort : Z; py_TopologyChanges : Z; py_Ports : list stpPort;
}.

Record route : Type := MkRoute { ro_Destination : string; ro_Mask : string; ro_NextHop : string; ro_Proto : Z }.
Record routingObsPayload : Type := MkRouting { rp_Routes : list route; rp_Truncated : bool }.

Record slaLatest : Type := MkLatest { la_Sense : Z; la_RTTMs : Z; la_RunUptime : Z }.
Record slaOperation : Type := MkOperation {
  so_Index : Z; so_Tag : string; so_Target : string; so_ThresholdMs : Z; so_Latest : option slaLatest;
}.

(** [json.Unmarshal] into each payload, [net.ParseIP(mask).To4()] as a number,
    and [%.0f]/[%.1f]. *)
Class Decoder : Type := {
  unmarshal_if : string → option (list ifRow);
  unmarshal_bgp : string → option (list bgpPeer);
  unmarshal_storage : string → option (list storageRow);
  unmarshal_stp : string → option stpObsPayload;
  unmarshal_routing : string → option routingObsPayload;
  unmarshal_sla : string → option (list slaOperation);
  parse_mask : string → option Z;
  fmt_percent : nat → spec_float → string;
}.

(** ** The state a target was last seen in *)

Record stpSnapshot : Type := MkSTPSnapshot { sn_root : stpBridgeID; sn_topChanges : Z; sn_portState : gmap Z Z }.
Record routeEntry : Type := MkEntry { re_nextHops : list string; re_proto : Z }.
Record routeSnapshot : Type := MkRoutes { rs_routes : gmap string routeEntry; rs_truncated : bool }.
Record slaRun : Type := MkRun { sr_runUptime : Z; sr_sense : Z }.

Record caches : Type := MkCaches {
  ifaceState : gmap string Z;
  bgpState : gmap string Z;
  storageState : gmap string spec_float;
  stpState : gmap string stpSnapshot;
  routeState : gmap string routeSnapshot;
  slaState : gmap string (gmap Z slaRun);
}.

Definition caches_empty : caches := MkCaches ∅ ∅ ∅ ∅ ∅ ∅.

Definition recordIface (c : caches) (key : string) (oper : Z) : caches :=
  MkCaches (<[key := oper]> (ifaceState c)) (bgpState c) (storageState c) (stpState c) (routeState c) (slaState c).
Definition recordBGP (c : caches) (key : string) (state : Z) : caches :=
  MkCaches (ifaceState c) (<[key := state]> (bgpState c)) (storageState c) (stpState c) (routeState c) (slaState c).
Definition recordStorage (c : caches) (key : string) (pct : spec_float) : caches :=
  MkCaches (ifaceState c) (bgpState c) (<[key := pct]> (storageState c)) (stpState c) (routeState c) (slaState c).
Definition recordSTP (c : caches) (key : string) (snap : stpSnapshot) : caches :=
  MkCaches (ifaceState c) (bgpState c) (storageState c) (<[key := snap]> (stpState c)) (routeState c) (slaState c).
Definition recordRouting (c : caches) (key : string) (snap : routeSnapshot) : caches :=
  MkCaches (ifaceState c) (bgpState c) (storageState c) (stpState c) (<[key := snap]> (routeState c)) (slaState c).
Definition recordIPSLA (c : caches) (key : string) (runs : gmap Z slaRun) : caches :=
  MkCaches (ifaceState c) (bgpState c) (storageState c) (stpState c) (routeState c) (<[key := runs]> (slaState c)).

Definition lookupIface (c : caches) (key : string) : Z := default 0 (ifaceState c !! key).
Definition lookupBGP (c : caches) (key : string) : Z := default 0 (bgpState c !! key).
Definition lookupStorage (c : caches) (key : string) : spec_float := default (S754_zero false) (storageState c !! key).

Definition if_key (target : string) (row : ifRow) : string := "if/" +:+ target +:+ "/" +:+ pretty (if_IfIndex row).
Definition bgp_key (target : string) (peer : bgpPeer) : string := "bgp/" +:+ target +:+ "/" +:+ bp_RemoteAddr peer.
Definition storage_key (target : string) (st : storageRow) : string := "storage/" +:+ target +:+ "/" +:+ pretty (st_Index st).

Definition used_percent (st : storageRow) : spec_float :=
  float64_div (float64_mul percentMultiplier (float64 (st_UsedBytes st))) (float64 (st_SizeBytes st)).

(** [stpBridgeID.String] *)
Definition bridge_string (b : stpBridgeID) : string := pretty (br_Priority b) +:+ "/" +:+ br_Address b.

Fixpoint join (sep : string) (l : list string) : string :=
  match l with
  | [] => ""
  | [x] => x
  | x :: rest => x +:+ sep +:+ join sep rest
  end.

(** [prefixSummary] *)
Definition prefixSummary (prefixes : list string) : string :=
  if len prefixes <=? 5 then join ", " prefixes
  else join ", " (take 5 prefixes) +:+ " and " +:+ pretty (len prefixes - 5) +:+ " more".

Section decode.
Context `{Decoder}.

(** [decodeSTP] *)
Definition decodeSTP (obs : SNMPObservation) : option (stpObsPayload * stpSnapshot) :=
  match unmarshal_stp (ob_PayloadJSON obs) with
  | None => None
  | Some pay =>
      if bool_decide (br_Address (py_Root pay) = "") then None
      else Some (pay, MkSTPSnapshot (py_Root pay) (py_TopologyChanges pay)
                  (foldl (λ m port, <[sp_Port port := sp_State port]> m) ∅ (py_Ports pay)))
  end.

(** [net.IPMask.Size] of a four-byte mask: the leading ones when nothing
    follows them. *)
Definition mask_ones (m : Z) : option Z := head (filter (λ n, m = 2 ^ 32 - 2 ^ (32 - n)) (seqZ 0 33)).

(** [routePrefix] *)
Definition routePrefix (dest mask : string) : string :=
  match (m ← parse_mask mask; mask_ones m) with
  | Some ones => dest +:+ "/" +:+ pretty ones
  | None => dest +:+ "/" +:+ mask
  end.

(** The first loop of [decodeRouting]. *)
Definition add_route (m : gmap string routeEntry) (r : route) : gmap string routeEntry :=
  let prefix := routePrefix (ro_Destination r) (ro_Mask r) in
  let entry := default (MkEntry [] 0) (m !! prefix) in
  <[prefix := MkEntry (re_nextHops entry ++ [ro_NextHop r]) (ro_Proto r)]> m.

(** [decodeRouting]; the second loop sorts the next hops in place. *)
Definition sort_hops (e : routeEntry) : routeEntry := MkEntry (merge_sort str_le (re_nextHops e)) (re_proto e).

Definition decodeRouting (obs : SNMPObservation) : option routeSnapshot :=
  pay ← unmarshal_routing (ob_PayloadJSON obs);
  Some (MkRoutes (sort_hops <$> foldl add_route ∅ (rp_Routes pay)) (rp_Truncated pay)).

(** [slaRun.completed] *)
Definition completed (r : slaRun) : bool := (sr_sense r =? slaSenseOK) || (sr_sense r =? slaSenseOverThreshold).

(** [decodeIPSLA] *)
Definition add_run (m : gmap Z slaRun) (op : slaOperation) : gmap Z slaRun :=
  match so_Latest op with
  | None => m
  | Some l => <[so_Index op := MkRun (la_RunUptime l) (la_Sense l)]> m
  end.

Definition decodeIPSLA (obs : SNMPObservation) : option (list slaOperation * gmap Z slaRun) :=
  pay ← unmarshal_sla (ob_PayloadJSON obs);
  Some (pay, foldl add_run ∅ pay).
End decode.

(** ** Judging an observation *)

Section evaluate.
Context `{Decoder}.
Context {S W : Type} `{!SuppressionStore S, !World W}.
Context (fingerprintFor : string → string → string → string) (suppression : Z).

(** The pipeline while it evaluates: what it writes through, and its caches. *)
#[local] Abbreviation watch := (core S W * caches)%type.

(** [p.fire], with the count it adds. *)
Definition fires (p : watch) (ruleID entityKey : string) (alert : Alert) : watch * Z :=
  let '(c, ok) := fire fingerprintFor suppression p.1 ruleID entityKey alert in
  ((c, p.2), if ok : bool then 1 else 0).

Definition down_alert (target : string) (row : ifRow) : Alert :=
  MkAlert TypeConnectivity SeverityWarning
    ("Interface " +:+ if_IfName row +:+ " down on " +:+ target)
    ("ifOperStatus transitioned from up to " +:+ pretty (if_IfOper row) +:+ " (ifIndex=" +:+
     pretty (if_IfIndex row) +:+ ", admin=up)")
    target "" (InterfaceDownEvidence (if_IfIndex row) (if_IfName row) (if_IfOper row)).

Fixpoint if_rows (p : watch) (target : string) (rows : list ifRow) : watch * Z :=
  match rows with
  | [] => (p, 0)
  | row :: rest =>
      let key := if_key target row in
      let prev := lookupIface p.2 key in
      let p := (p.1, recordIface p.2 key (if_IfOper row)) in
      if negb (prev =? ifOperUp) || (if_IfOper row =? ifOperUp) || negb (if_IfAdmin row =? ifOperUp)
      then if_rows p target rest
      else
        let '(p, n) := fires p RuleInterfaceDown key (down_alert target row) in
        let '(p, count) := if_rows p target rest in
        (p, n + count)
  end.

Definition evaluateIfTable (p : watch) (obs : SNMPObservation) : watch * Z :=
  match unmarshal_if (ob_PayloadJSON obs) with
  | None => (p, 0)
  | Some rows => if_rows p (ob_TargetID obs) rows
  end.

Definition flap_alert (target : string) (peer : bgpPeer) : Alert :=
  MkAlert TypeConnectivity SeverityError
    ("BGP peer " +:+ bp_RemoteAddr peer +:+ " left Established on " +:+ target)
    ("Peer state transitioned from 6 (Established) to " +:+ pretty (bp_State peer) +:+ ", AS" +:+ pretty (bp_RemoteAS peer))
    target "" (BGPPeerEvidence (bp_RemoteAddr peer) (bp_RemoteAS peer) (bp_State peer)).

Fixpoint bgp_peers (p : watch) (target : string) (peers : list bgpPeer) : watch * Z :=
  match peers with
  | [] => (p, 0)
  | peer :: rest =>
      let key := bgp_key target peer in
      let prev := lookupBGP p.2 key in
      let p := (p.1, recordBGP p.2 key (bp_State peer)) in
      if negb (prev =? bgpStateEstablished) || (bp_State peer =? bgpStateEstablished)
      then bgp_peers p target rest
      else
        let '(p, n) := fires p RuleBGPFlap key (flap_alert target peer) in
        let '(p, count) := bgp_peers p target rest in
        (p, n + count)
  end.

Definition evaluateBGP (p : watch) (obs : SNMPObservation) : watch * Z :=
  match unmarshal_bgp (ob_PayloadJSON obs) with
  | None => (p, 0)
  | Some peers => bgp_peers p (ob_TargetID obs) peers
  end.

(** The two storage alerts: [level] is the threshold crossed. *)
Definition usage_alert (severity word : string) (level : spec_float) (target : string) (st : storageRow)
    (pct : spec_float) : Alert :=
  MkAlert TypeSystem severity
    ("Filesystem " +:+ st_Description st +:+ " " +:+ word +:+ " on " +:+ target)
    ("Usage crossed " +:+ fmt_percent 0 level +:+ "%: " +:+ fmt_percent 1 pct +:+ "% of " +:+ pretty (st_SizeBytes st) +:+ " bytes")
    target "" (StorageEvidence (st_Index st) (st_Description st) (st_SizeBytes st) (st_UsedBytes st) pct).

Fixpoint storage_rows (p : watch) (target : string) (rows : list storageRow) : watch * Z :=
  match rows with
  | [] => (p, 0)
  | st :: rest =>
      if st_SizeBytes st =? 0 then storage_rows p target rest else
      let pct := used_percent st in
      let key := storage_key target st in
      let prev := lookupStorage p.2 key in
      let p := (p.1, recordStorage p.2 key pct) in
      let '(p, n) :=
        if SFltb prev storageFullPct && SFleb storageFullPct pct
        then fires p RuleStorageCritical key (usage_alert SeverityCritical "critical" storageFullPct target st pct)
        else if SFltb prev storageHighPct && SFleb storageHighPct pct
        then fires p RuleStorageHigh key (usage_alert SeverityWarning "high" storageHighPct target st pct)
        else (p, 0) in
      let '(p, count) := storage_rows p target rest in
      (p, n + count)
  end.

Definition evaluateHostResources (p : watch) (obs : SNMPObservation) : watch * Z :=
  match unmarshal_storage (ob_PayloadJSON obs) with
  | None => (p, 0)
  | Some rows => storage_rows p (ob_TargetID obs) rows
  end.

Definition root_alert (target : string) (pay : stpObsPayload) (prev cur : stpSnapshot) : Alert :=
  MkAlert TypeConnectivity SeverityError ("Spanning-tree root bridge changed on " +:+ target)
    ("Root bridge moved from " +:+ bridge_string (sn_root prev) +:+ " to " +:+ bridge_string (sn_root cur) +:+
     " (root port " +:+ pretty (py_RootPort pay) +:+ ")")
    target "" (STPRootChangeEvidence (bridge_string (sn_root prev)) (bridge_string (sn_root cur)) (py_RootPort pay)).

(** The ports whose state differs from the previous poll. *)
Definition transitions (prev : gmap Z Z) (ports : list stpPort) : list STPPortTransition :=
  omap (λ port,
    from ← prev !! sp_Port port;
    if from =? sp_State port then None
    else Some (MkTransition (sp_Port port) (sp_IfIndex port) from (sp_State port))) ports.

Definition topology_alert (target : string) (pay : stpObsPayload) (prev cur : stpSnapshot) : Alert :=
  let ports := transitions (sn_portState prev) (py_Ports pay) in
  let changes := sn_topChanges cur - sn_topChanges prev in
  MkAlert TypeConnectivity SeverityWarning ("Spanning-tree topology change on " +:+ target)
    ("dot1dStpTopChanges rose by " +:+ pretty changes +:+ " to " +:+ pretty (sn_topChanges cur) +:+ "; " +:+
     pretty (len ports) +:+ " local port(s) changed state")
    target "" (STPTopologyChangeEvidence changes (sn_topChanges cur) ports).

Definition evaluateSTP (p : watch) (obs : SNMPObservation) : watch * Z :=
  match decodeSTP obs with
  | None => (p, 0)
  | Some (pay, cur) =>
      let key := "stp/" +:+ ob_TargetID obs in
      let seen := stpState p.2 !! key in
      let p := (p.1, recordSTP p.2 key cur) in
      match seen with
      | None => (p, 0)
      | Some prev =>
          if negb (bool_decide (sn_root cur = sn_root prev))
          then fires p RuleSTPRootChange key (root_alert (ob_TargetID obs) pay prev cur)
          else if sn_topChanges cur <=? sn_topChanges prev then (p, 0)
          else fires p RuleSTPTopologyChange key (topology_alert (ob_TargetID obs) pay prev cur)
      end
  end.

(** [slices.Sorted(maps.Keys(m))] *)
Definition sorted_prefixes {A} (m : gmap string A) : list string := merge_sort str_le (map fst (map_to_list m)).

(** The two cases of [evaluateRouting]'s loop. *)
Definition withdrawal (prev cur : routeSnapshot) (prefix : string) : option RouteWithdrawal :=
  was ← rs_routes prev !! prefix;
  match rs_routes cur !! prefix with
  | None => if rs_truncated cur then None else Some (MkWithdrawal prefix (re_nextHops was) (re_proto was))
  | Some _ => None
  end.

Definition hop_change (prev cur : routeSnapshot) (prefix : string) : option RouteNextHopChange :=
  was ← rs_routes prev !! prefix;
  now ← rs_routes cur !! prefix;
  if bool_decide (re_nextHops was = re_nextHops now) then None
  else Some (MkHopChange prefix (re_nextHops was) (re_nextHops now)).

Definition withdrawn_alert (target : string) (withdrawn : list RouteWithdrawal) : Alert :=
  MkAlert TypeConnectivity SeverityWarning
    (pretty (len withdrawn) +:+ " route(s) withdrawn on " +:+ target)
    ("No longer in the routing table: " +:+ prefixSummary (map wd_Prefix withdrawn))
    target "" (RouteWithdrawnEvidence (len withdrawn) (take maxRouteEvidence withdrawn)).

Definition changed_alert (target : string) (changed : list RouteNextHopChange) : Alert :=
  MkAlert TypeConnectivity SeverityInfo
    (pretty (len changed) +:+ " route(s) changed next hop on " +:+ target)
    ("Next hop changed for: " +:+ prefixSummary (map hc_Prefix changed))
    target "" (RouteChangeEvidence (len changed) (take maxRouteEvidence changed)).

Definition evaluateRouting (p : watch) (obs : SNMPObservation) : watch * Z :=
  match decodeRouting obs with
  | None => (p, 0)
  | Some cur =>
      let key := "route/" +:+ ob_TargetID obs in
      let seen := routeState p.2 !! key in
      let p := (p.1, recordRouting p.2 key cur) in
      match seen with
      | None => (p, 0)
      | Some prev =>
          let prefixes := sorted_prefixes (rs_routes prev) in
          let withdrawn := omap (withdrawal prev cur) prefixes in
          let changed := omap (hop_change prev cur) prefixes in
          let '(p, n) := if 0 <? len withdrawn
            then fires p RuleRouteWithdrawn key (withdrawn_alert (ob_TargetID obs) withdrawn) else (p, 0) in
          let '(p, n') := if 0 <? len changed
            then fires p RuleRouteChange key (changed_alert (ob_TargetID obs) changed) else (p, 0) in
          (p, n + n')
      end
  end.

Definition sla_name (op : slaOperation) : string :=
  if bool_decide (so_Tag op = "") then "operation " +:+ pretty (so_Index op) else so_Tag op.

(** The rule a run raises against the previous one, and its alert. *)
Definition sla_judge (target : string) (op : slaOperation) (latest : slaLatest) (last run : slaRun)
    : option (string * Alert) :=
  let evidence := IPSLAEvidence (so_Index op) (so_Tag op) (so_Target op) (sr_sense run) (la_RTTMs latest) (so_ThresholdMs op) in
  if completed last && negb (completed run) then
    Some (RuleIPSLAFailed,
      MkAlert TypeConnectivity SeverityError ("IP SLA " +:+ sla_name op +:+ " on " +:+ target +:+ " failed")
        ("The run toward " +:+ so_Target op +:+ " did not complete (rttMonLatestRttOperSense " +:+ pretty (sr_sense run) +:+ ")")
        target "" evidence)
  else if (sr_sense last =? slaSenseOK) && (sr_sense run =? slaSenseOverThreshold) then
    Some (RuleIPSLAOverThreshold,
      MkAlert TypePerformance SeverityWarning ("IP SLA " +:+ sla_name op +:+ " on " +:+ target +:+ " over threshold")
        ("The run toward " +:+ so_Target op +:+ " took " +:+ pretty (la_RTTMs latest) +:+ " ms, over its " +:+
         pretty (so_ThresholdMs op) +:+ " ms threshold")
        target "" evidence)
  else None.

(** One operation of the loop: an operation in [cur] that has not run has a
    namesake that has; reading its missing [Latest] panics, [None]. *)
Definition sla_step (target : string) (prev cur : gmap Z slaRun) (op : slaOperation) : option (option (string * Alert)) :=
  match cur !! so_Index op, prev !! so_Index op with
  | Some run, Some last =>
      if sr_runUptime run =? sr_runUptime last then Some None else
      match so_Latest op with
      | Some latest => Some (sla_judge target op latest last run)
      | None => match sla_judge target op (MkLatest 0 0 0) last run with None => Some None | Some _ => None end
      end
  | _, _ => Some None
  end.

Fixpoint sla_operations (p : watch) (target key : string) (prev cur : gmap Z slaRun) (ops : list slaOperation)
    : option (watch * Z) :=
  match ops with
  | [] => Some (p, 0)
  | op :: rest =>
      judged ← sla_step target prev cur op;
      let '(p, n) := match judged with
                     | Some (rule, alert) => fires p rule (key +:+ "/" +:+ pretty (so_Index op)) alert
                     | None => (p, 0)
                     end in
      '(p, count) ← sla_operations p target key prev cur rest;
      Some (p, n + count)
  end.

Definition evaluateIPSLA (p : watch) (obs : SNMPObservation) : option (watch * Z) :=
  match decodeIPSLA obs with
  | None => Some (p, 0)
  | Some (ops, cur) =>
      let key := "ipsla/" +:+ ob_TargetID obs in
      let seen := slaState p.2 !! key in
      let p := (p.1, recordIPSLA p.2 key cur) in
      match seen with
      | None => Some (p, 0)
      | Some prev => sla_operations p (ob_TargetID obs) key prev cur ops
      end
  end.
End evaluate.

(** ** Priming from history *)

Section prime.
Context `{Decoder}.

Definition primeIfTable (c : caches) (obs : SNMPObservation) : caches :=
  foldl (λ c row, recordIface c (if_key (ob_TargetID obs) row) (if_IfOper row)) c
    (default [] (unmarshal_if (ob_PayloadJSON obs))).

Definition primeBGP (c : caches) (obs : SNMPObservation) : caches :=
  foldl (λ c peer, recordBGP c (bgp_key (ob_TargetID obs) peer) (bp_State peer)) c
    (default [] (unmarshal_bgp (ob_PayloadJSON obs))).

Definition primeHostResources (c : caches) (obs : SNMPObservation) : caches :=
  foldl (λ c st, if st_SizeBytes st =? 0 then c
                 else recordStorage c (storage_key (ob_TargetID obs) st) (used_percent st)) c
    (default [] (unmarshal_storage (ob_PayloadJSON obs))).

Definition primeSTP (c : caches) (obs : SNMPObservation) : caches :=
  match decodeSTP obs with
  | Some (_, snap) => recordSTP c ("stp/" +:+ ob_TargetID obs) snap
  | None => c
  end.

Definition primeRouting (c : caches) (obs : SNMPObservation) : caches :=
  match decodeRouting obs with
  | Some snap => recordRouting c ("route/" +:+ ob_TargetID obs) snap
  | None => c
  end.

Definition primeIPSLA (c : caches) (obs : SNMPObservation) : caches :=
  match decodeIPSLA obs with
  | Some (_, runs) => recordIPSLA c ("ipsla/" +:+ ob_TargetID obs) runs
  | None => c
  end.

Inductive kind : Type := if_table | bgp4_mib | host_resources | stp | routing | ip_sla.
#[export] Instance kind_eq_dec : EqDecision kind.
Proof. solve_decision. Defined.

(** [observationKinds] *)
Definition observationKinds : list kind := [if_table; bgp4_mib; host_resources; stp; routing; ip_sla].

(** [primeOne] *)
Definition primeOne (k : kind) (c : caches) (obs : SNMPObservation) : caches :=
  match k with
  | if_table => primeIfTable c obs
  | bgp4_mib => primeBGP c obs
  | host_resources => primeHostResources c obs
  | stp => primeSTP c obs
  | routing => primeRouting c obs
  | ip_sla => primeIPSLA c obs
  end.

(** [primeFromHistory]: [list_] is what [List] answers for a kind with the
    replay depth as limit; an error ends the replay. *)
Fixpoint primeKinds (list_ : kind → option (list SNMPObservation)) (c : caches) (kinds : list kind) : caches * bool :=
  match kinds with
  | [] => (c, true)
  | k :: rest =>
      match list_ k with
      | None => (c, false)
      | Some observations => primeKinds list_ (foldl (primeOne k) c (rev observations)) rest
      end
  end.

Definition primeFromHistory (list_ : kind → option (list SNMPObservation)) (c : caches) : caches * bool :=
  primeKinds list_ c observationKinds.
End prime.

(** ** Scanning *)

Record ObservationPipeline (S W : Type) : Type := MkPipeline {
  op_core : core S W;
  op_caches : caches;
  op_setting : string;
  op_lastTickAt : Z;
  op_lastError : bool;
}.
Arguments MkPipeline {S W} _ _ _ _ _.
Arguments op_core {S W} _.
Arguments op_caches {S W} _.
Arguments op_setting {S W} _.
Arguments op_lastTickAt {S W} _.
Arguments op_lastError {S W} _.

(** The database as a scan meets it; [None] from the list is an error. *)
Record scan_env : Type := MkEnv {
  se_get : bool;
  se_list : kind → Z → option (list SNMPObservation);
  se_set : bool;
}.

Inductive scan_error : Type := LoadHighWater | SaveHighWater.

Section scan.
Context `{Decoder}.
Context {S W : Type} `{!SuppressionStore S, !World W}.
Context (fingerprintFor : string → string → string → string) (suppression : Z).
(** The RFC 3339 text of the high-water mark. *)
Context (format_nano : Z → string) (parse_nano : string → option Z).

#[local] Abbreviation watch := (core S W * caches)%type.

(** The dispatch of [scanKind]; [None] is a panic. *)
Definition evaluate (k : kind) (p : watch) (obs : SNMPObservation) : option (watch * Z) :=
  match k with
  | if_table => Some (evaluateIfTable fingerprintFor suppression p obs)
  | bgp4_mib => Some (evaluateBGP fingerprintFor suppression p obs)
  | host_resources => Some (evaluateHostResources fingerprintFor suppression p obs)
  | stp => Some (evaluateSTP fingerprintFor suppression p obs)
  | routing => Some (evaluateRouting fingerprintFor suppression p obs)
  | ip_sla => evaluateIPSLA fingerprintFor suppression p obs
  end.

Fixpoint evaluate_all (k : kind) (p : watch) (maxAt : Z) (observations : list SNMPObservation)
    : option (watch * Z * Z) :=
  match observations with
  | [] => Some (p, 0, maxAt)
  | obs :: rest =>
      let maxAt := if time_after (ob_ObservedAt obs) maxAt then ob_ObservedAt obs else maxAt in
      '(p, n) ← evaluate k p obs;
      '(p, count, maxAt) ← evaluate_all k p maxAt rest;
      Some (p, n + count, maxAt)
  end.

(** [scanKind]: newest first from [List], oldest first into the rules. *)
Definition scanKind (p : watch) (k : kind) (observations : list SNMPObservation) : option (watch * Z * Z) :=
  evaluate_all k p time_zero (rev observations).

(** The loop of [scanOnceInner]: a kind whose query fails is skipped. *)
Fixpoint scan_kinds (env : scan_env) (since : Z) (p : watch) (maxObservedAt : Z) (kinds : list kind)
    : option (watch * Z) :=
  match kinds with
  | [] => Some (p, maxObservedAt)
  | k :: rest =>
      match se_list env k since with
      | None => scan_kinds env since p maxObservedAt rest
      | Some observations =>
          '(p, _, kindMax) ← scanKind p k observations;
          scan_kinds env since p (if time_after kindMax maxObservedAt then kindMax else maxObservedAt) rest
      end
  end.

Definition loadHighWater (p : ObservationPipeline S W) (env : scan_env) : option Z :=
  if negb (se_get env) then None
  else if bool_decide (op_setting p = "") then Some time_zero
  else parse_nano (op_setting p).

Definition scanOnceInner (p : ObservationPipeline S W) (env : scan_env)
    : option (ObservationPipeline S W * option scan_error) :=
  match loadHighWater p env with
  | None => Some (p, Some LoadHighWater)
  | Some since =>
      '(w, maxObservedAt) ← scan_kinds env since (op_core p, op_caches p) time_zero observationKinds;
      let p := MkPipeline w.1 w.2 (op_setting p) (op_lastTickAt p) (op_lastError p) in
      if maxObservedAt =? time_zero then Some (p, None)
      else if se_set env
      then Some (MkPipeline w.1 w.2 (format_nano maxObservedAt) (op_lastTickAt p) (op_lastError p), None)
      else Some (p, Some SaveHighWater)
  end.

(** [ScanOnce] with [recordScan]. *)
Definition ScanOnce (p : ObservationPipeline S W) (env : scan_env)
    : option (ObservationPipeline S W * option scan_error) :=
  '(p, err) ← scanOnceInner p env;
  let '(c, now) := read_clock (op_core p) in
  Some (MkPipeline c (op_caches p) (op_setting p) now (bool_decide (err ≠ None)), err).

(** [NewObservationPipeline], and what [Start] does before its loop: [depth]
    is [Config.ReplayDepth], [list_ k limit] what [List] answers. *)
Definition replay_depth (depth : Z) : Z := if depth =? 0 then defaultReplayDepth else depth.

Definition NewObservationPipeline (s : S) (w : W) (setting : string) : ObservationPipeline S W :=
  MkPipeline (empty_core s w) caches_empty setting time_zero false.

Definition Start (p : ObservationPipeline S W) (depth : Z) (list_ : kind → Z → option (list SNMPObservation))
    : ObservationPipeline S W :=
  if 0 <? replay_depth depth
  then MkPipeline (op_core p) (primeFromHistory (λ k, list_ k (replay_depth depth)) (op_caches p)).1
         (op_setting p) (op_lastTickAt p) (op_lastError p)
  else p.
End scan.

(** ** What an observation offers

    Each evaluation is a list of alerts offered, in order, to [fire], and a
    new state of the caches: the lists are what the theorems speak of. *)

Definition offer : Type := string * string * Alert.

Section fire_all.
Context {S W : Type} `{!SuppressionStore S, !World W}.
Context (fingerprintFor : string → string → string → string) (suppression : Z).

Fixpoint fire_all (c : core S W) (offers : list offer) : core S W * Z :=
  match offers with
  | [] => (c, 0)
  | (rule, key, alert) :: rest =>
      let '(c, ok) := fire fingerprintFor suppression c rule key alert in
      let '(c, n) := fire_all c rest in
      (c, (if ok : bool then 1 else 0) + n)
  end.

Lemma fire_all_app c l1 l2 :
  fire_all c (l1 ++ l2) =
  let '(c, n) := fire_all c l1 in let '(c, n') := fire_all c l2 in (c, n + n').
Proof.
  revert c. induction l1 as [|[[rule key] alert] l1 IH]; intros c; cbn; [by destruct (fire_all c l2)|].
  destruct (fire _ _ c rule key alert) as [c1 ok]. rewrite IH. destruct (fire_all c1 l1) as [c2 n].
  destruct (fire_all c2 l2) as [c3 n']. f_equal. lia.
Qed.
End fire_all.

(** *** Entities watched one by one

    [judge] sees the state an entity was last seen in. *)
Section watched.
Context {Row St : Type} (key : Row → string) (st : Row → St) (judge : option St → Row → list offer).

Fixpoint judged (m : gmap string St) (rows : list Row) : list offer :=
  match rows with
  | [] => []
  | row :: rest => judge (m !! key row) row ++ judged (<[key row := st row]> m) rest
  end.

Definition recorded (m : gmap string St) (rows : list Row) : gmap string St :=
  foldl (λ m row, <[key row := st row]> m) m rows.

(** The reference keeps every row, newest first. *)
Fixpoint last_seen (k : string) (past : list Row) : option St :=
  match past with
  | [] => None
  | row :: past => if bool_decide (key row = k) then Some (st row) else last_seen k past
  end.

Fixpoint over_history (past rows : list Row) : list offer :=
  match rows with
  | [] => []
  | row :: rest => judge (last_seen (key row) past) row ++ over_history (row :: past) rest
  end.

Lemma judged_history m past rows :
  (∀ k, m !! k = last_seen k past) → judged m rows = over_history past rows.
Proof.
  revert m past. induction rows as [|row rows IH]; intros m past Hm; [done|]. cbn. rewrite Hm. f_equal. apply IH.
  intros k. cbn. case_bool_decide as E; [subst; by rewrite lookup_insert_eq|by rewrite lookup_insert_ne].
Qed.

Lemma judged_app m l1 l2 : judged m (l1 ++ l2) = judged m l1 ++ judged (recorded m l1) l2.
Proof. revert m. induction l1 as [|row l1 IH]; intros m; [done|]. cbn. by rewrite IH, app_assoc. Qed.

Lemma recorded_app m l1 l2 : recorded m (l1 ++ l2) = recorded (recorded m l1) l2.
Proof. apply foldl_app. Qed.

Lemma recorded_ne m rows k : k ∉ map key rows → recorded m rows !! k = m !! k.
Proof.
  revert m. induction rows as [|row rows IH]; intros m Hk; [done|]. cbn in *.
  apply not_elem_of_cons in Hk as [Hne Hk]. rewrite IH by done. by rewrite lookup_insert_ne.
Qed.

Lemma recorded_in m rows row :
  NoDup (map key rows) → row ∈ rows → recorded m rows !! key row = Some (st row).
Proof.
  revert m. induction rows as [|x rows IH]; intros m Hnd Hin; [by apply not_elem_of_nil in Hin|].
  cbn in *. apply NoDup_cons in Hnd as [Hx Hnd]. apply elem_of_cons in Hin as [->|Hin]; [|by apply IH].
  rewrite recorded_ne by done. by rewrite lookup_insert_eq.
Qed.

(** Rows that are what the cache holds offer nothing, whatever is held of
    other entities. *)
Lemma judged_same m rows :
  (∀ row, judge (Some (st row)) row = []) → (∀ row, row ∈ rows → m !! key row = Some (st row)) →
  judged m rows = [] ∧ recorded m rows = m.
Proof.
  intros Hj. revert m. induction rows as [|row rows IH]; intros m Hm; [done|]. cbn.
  rewrite (Hm row) by set_solver. rewrite Hj. cbn.
  rewrite insert_id by (apply Hm; set_solver). apply IH. intros. apply Hm. set_solver.
Qed.

Lemma judged_again m rows :
  (∀ row, judge (Some (st row)) row = []) → NoDup (map key rows) →
  judged (recorded m rows) rows = [] ∧ recorded (recorded m rows) rows = recorded m rows.
Proof. intros Hj Hnd. apply judged_same; [done|]. intros. by apply recorded_in. Qed.
End watched.

(** *** The three tables of entities *)

Definition set_iface (c : caches) (m : gmap string Z) : caches :=
  MkCaches m (bgpState c) (storageState c) (stpState c) (routeState c) (slaState c).
Definition set_bgp (c : caches) (m : gmap string Z) : caches :=
  MkCaches (ifaceState c) m (storageState c) (stpState c) (routeState c) (slaState c).
Definition set_storage (c : caches) (m : gmap string spec_float) : caches :=
  MkCaches (ifaceState c) (bgpState c) m (stpState c) (routeState c) (slaState c).

Section entities.
Context `{Decoder}.

(** A row with the target it was read from. *)
Definition iface_key (x : string * ifRow) : string := if_key x.1 x.2.
Definition iface_state (x : string * ifRow) : Z := if_IfOper x.2.
Definition iface_judge (prev : option Z) (x : string * ifRow) : list offer :=
  if bool_decide (prev = Some ifOperUp) && negb (if_IfOper x.2 =? ifOperUp) && (if_IfAdmin x.2 =? ifOperUp)
  then [(RuleInterfaceDown, iface_key x, down_alert x.1 x.2)] else [].

Definition peer_key (x : string * bgpPeer) : string := bgp_key x.1 x.2.
Definition peer_state (x : string * bgpPeer) : Z := bp_State x.2.
Definition peer_judge (prev : option Z) (x : string * bgpPeer) : list offer :=
  if bool_decide (prev = Some bgpStateEstablished) && negb (bp_State x.2 =? bgpStateEstablished)
  then [(RuleBGPFlap, peer_key x, flap_alert x.1 x.2)] else [].

Definition disk_key (x : string * storageRow) : string := storage_key x.1 x.2.
Definition disk_state (x : string * storageRow) : spec_float := used_percent x.2.
Definition below (level : spec_float) (prev : option spec_float) : bool := SFltb (default (S754_zero false) prev) level.
Definition disk_judge (prev : option spec_float) (x : string * storageRow) : list offer :=
  let pct := used_percent x.2 in
  if below storageFullPct prev && SFleb storageFullPct pct
  then [(RuleStorageCritical, disk_key x, usage_alert SeverityCritical "critical" storageFullPct x.1 x.2 pct)]
  else if below storageHighPct prev && SFleb storageHighPct pct
  then [(RuleStorageHigh, disk_key x, usage_alert SeverityWarning "high" storageHighPct x.1 x.2 pct)]
  else [].

(** The rows of an observation. *)
Definition iface_rows (obs : SNMPObservation) : list (string * ifRow) :=
  map (pair (ob_TargetID obs)) (default [] (unmarshal_if (ob_PayloadJSON obs))).
Definition peer_rows (obs : SNMPObservation) : list (string * bgpPeer) :=
  map (pair (ob_TargetID obs)) (default [] (unmarshal_bgp (ob_PayloadJSON obs))).
Definition disk_rows (obs : SNMPObservation) : list (string * storageRow) :=
  map (pair (ob_TargetID obs)) (filter (λ st, st_SizeBytes st ≠ 0) (default [] (unmarshal_storage (ob_PayloadJSON obs)))).

Context {S W : Type} `{!SuppressionStore S, !World W}.
Context (fingerprintFor : string → string → string → string) (suppression : Z).
#[local] Abbreviation offer_all := (fire_all fingerprintFor suppression).

Lemma up_default (up : Z) (prev : option Z) : up ≠ 0 → (default 0 prev =? up) = bool_decide (prev = Some up).
Proof.
  intros Hup. destruct prev as [x|]; unfold from_option, id; case_bool_decide as E; [| |done|].
  - injection E as ->. apply Z.eqb_refl.
  - apply Z.eqb_neq. congruence.
  - by apply Z.eqb_neq.
Qed.

(** The three loops as offers: each rewrites its body, offers at most one alert
    per row and goes on. *)
#[local] Ltac offers IH :=
  try (rewrite IH; done);
  unfold fires; cbn [fst snd fire_all];
  match goal with |- context [fire ?f ?s ?c ?r ?k ?a] => destruct (fire f s c r k a) as [? ?] end;
  rewrite IH; cbn [recordIface recordBGP recordStorage ifaceState bgpState storageState];
  match goal with |- context [fire_all ?f ?s ?c ?l] => by destruct (fire_all f s c l) end.

Lemma if_rows_judged c ca target rows :
  if_rows fingerprintFor suppression (c, ca) target rows =
  let l := map (pair target) rows in
  let '(c', n) := offer_all c (judged iface_key iface_state iface_judge (ifaceState ca) l) in
  ((c', set_iface ca (recorded iface_key iface_state (ifaceState ca) l)), n).
Proof.
  revert c ca. induction rows as [|row rows IH]; intros c ca; [by destruct ca|]. cbn [if_rows map judged].
  cbn [fst snd]. unfold lookupIface, iface_judge at 1. rewrite up_default by done.
  change (if_key target row) with (iface_key (target, row)).
  change (iface_state (target, row)) with (if_IfOper row). cbn [fst snd].
  destruct (bool_decide _), (if_IfOper row =? ifOperUp), (if_IfAdmin row =? ifOperUp); cbn [negb andb orb app]; offers IH.
Qed.

Lemma bgp_peers_judged c ca target peers :
  bgp_peers fingerprintFor suppression (c, ca) target peers =
  let l := map (pair target) peers in
  let '(c', n) := offer_all c (judged peer_key peer_state peer_judge (bgpState ca) l) in
  ((c', set_bgp ca (recorded peer_key peer_state (bgpState ca) l)), n).
Proof.
  revert c ca. induction peers as [|peer peers IH]; intros c ca; [by destruct ca|]. cbn [bgp_peers map judged].
  cbn [fst snd]. unfold lookupBGP, peer_judge at 1. rewrite up_default by done.
  change (bgp_key target peer) with (peer_key (target, peer)).
  change (peer_state (target, peer)) with (bp_State peer). cbn [fst snd].
  destruct (bool_decide _), (bp_State peer =? bgpStateEstablished); cbn [negb andb orb app]; offers IH.
Qed.

Lemma storage_rows_judged c ca target rows :
  storage_rows fingerprintFor suppression (c, ca) target rows =
  let l := map (pair target) (filter (λ st, st_SizeBytes st ≠ 0) rows) in
  let '(c', n) := offer_all c (judged disk_key disk_state disk_judge (storageState ca) l) in
  ((c', set_storage ca (recorded disk_key disk_state (storageState ca) l)), n).
Proof.
  revert c ca. induction rows as [|st rows IH]; intros c ca; [by destruct ca|]. cbn [storage_rows].
  destruct (Z.eqb_spec (st_SizeBytes st) 0) as [E|E].
  { rewrite filter_cons_False by (intros Hn; by apply Hn). apply IH. }
  rewrite filter_cons_True by done. cbn [map judged fst snd]. unfold disk_judge at 1. unfold below at 1 2.
  change (lookupStorage ca (storage_key target st)) with (default (S754_zero false) (storageState ca !! disk_key (target, st))).
  change (storage_key target st) with (disk_key (target, st)).
  change (disk_state (target, st)) with (used_percent st). cbn [fst snd].
  destruct (_ && _); cbn [app]; [offers IH|]. destruct (_ && _); cbn [app]; [offers IH|].
  rewrite IH. cbn [recordStorage storageState]. by destruct (offer_all c _).
Qed.

(** *** Every kind *)

Definition stp_offers (ca : caches) (obs : SNMPObservation) : list offer :=
  match decodeSTP obs with
  | None => []
  | Some (pay, cur) =>
      let key := "stp/" +:+ ob_TargetID obs in
      match stpState ca !! key with
      | None => []
      | Some prev =>
          if negb (bool_decide (sn_root cur = sn_root prev))
          then [(RuleSTPRootChange, key, root_alert (ob_TargetID obs) pay prev cur)]
          else if sn_topChanges cur <=? sn_topChanges prev then []
          else [(RuleSTPTopologyChange, key, topology_alert (ob_TargetID obs) pay prev cur)]
      end
  end.

Definition routing_offers (ca : caches) (obs : SNMPObservation) : list offer :=
  match decodeRouting obs with
  | None => []
  | Some cur =>
      let key := "route/" +:+ ob_TargetID obs in
      match routeState ca !! key with
      | None => []
      | Some prev =>
          let withdrawn := omap (withdrawal prev cur) (sorted_prefixes (rs_routes prev)) in
          let changed := omap (hop_change prev cur) (sorted_prefixes (rs_routes prev)) in
          (if 0 <? len withdrawn then [(RuleRouteWithdrawn, key, withdrawn_alert (ob_TargetID obs) withdrawn)] else []) ++
          (if 0 <? len changed then [(RuleRouteChange, key, changed_alert (ob_TargetID obs) changed)] else [])
      end
  end.

(** A new run against the previous one, for an operation that has run. *)
Definition sla_offer (target key : string) (prev cur : gmap Z slaRun) (op : slaOperation) : list offer :=
  match cur !! so_Index op, prev !! so_Index op, so_Latest op with
  | Some run, Some last, Some latest =>
      if sr_runUptime run =? sr_runUptime last then [] else
      match sla_judge target op latest last run with
      | Some (rule, alert) => [(rule, key +:+ "/" +:+ pretty (so_Index op), alert)]
      | None => []
      end
  | _, _, _ => []
  end.

Definition sla_offers (ca : caches) (obs : SNMPObservation) : list offer :=
  match decodeIPSLA obs with
  | None => []
  | Some (ops, cur) =>
      let key := "ipsla/" +:+ ob_TargetID obs in
      match slaState ca !! key with
      | None => []
      | Some prev => concat (map (sla_offer (ob_TargetID obs) key prev cur) ops)
      end
  end.

Definition offers_of (k : kind) (ca : caches) (obs : SNMPObservation) : list offer :=
  match k with
  | if_table => judged iface_key iface_state iface_judge (ifaceState ca) (iface_rows obs)
  | bgp4_mib => judged peer_key peer_state peer_judge (bgpState ca) (peer_rows obs)
  | host_resources => judged disk_key disk_state disk_judge (storageState ca) (disk_rows obs)
  | stp => stp_offers ca obs
  | routing => routing_offers ca obs
  | ip_sla => sla_offers ca obs
  end.

(** The operations of an IP-SLA table have indexes of their own. *)
Definition orderly (k : kind) (obs : SNMPObservation) : Prop :=
  k = ip_sla → NoDup (map so_Index (default [] (unmarshal_sla (ob_PayloadJSON obs)))).

Lemma prime_iface ca obs :
  primeIfTable ca obs = set_iface ca (recorded iface_key iface_state (ifaceState ca) (iface_rows obs)).
Proof.
  unfold primeIfTable, iface_rows. generalize (default [] (unmarshal_if (ob_PayloadJSON obs))) as rows.
  intros rows. revert ca. induction rows as [|row rows IH]; intros ca; [by destruct ca|]. apply IH.
Qed.

Lemma prime_peer ca obs :
  primeBGP ca obs = set_bgp ca (recorded peer_key peer_state (bgpState ca) (peer_rows obs)).
Proof.
  unfold primeBGP, peer_rows. generalize (default [] (unmarshal_bgp (ob_PayloadJSON obs))) as rows.
  intros rows. revert ca. induction rows as [|row rows IH]; intros ca; [by destruct ca|]. apply IH.
Qed.

Lemma prime_disk ca obs :
  primeHostResources ca obs = set_storage ca (recorded disk_key disk_state (storageState ca) (disk_rows obs)).
Proof.
  unfold primeHostResources, disk_rows. generalize (default [] (unmarshal_storage (ob_PayloadJSON obs))) as rows.
  intros rows. revert ca. induction rows as [|st rows IH]; intros ca; [by destruct ca|]. cbn [foldl].
  destruct (Z.eqb_spec (st_SizeBytes st) 0) as [E|E].
  - rewrite filter_cons_False by (intros Hn; by apply Hn). apply IH.
  - rewrite filter_cons_True by done. apply IH.
Qed.

(** An operation whose run is in the table brought it along. *)
Lemma add_runs_some ops m i run :
  foldl add_run m ops !! i = Some run →
  m !! i = Some run ∨ ∃ op l, op ∈ ops ∧ so_Index op = i ∧ so_Latest op = Some l ∧ run = MkRun (la_RunUptime l) (la_Sense l).
Proof.
  revert m. induction ops as [|op ops IH]; intros m Hi; [by left|]. cbn in Hi.
  destruct (IH _ Hi) as [Hm|(op' & l & Hin & ? & ? & ?)]; [|right; exists op', l; split_and!; [by right|done..]].
  unfold add_run in Hm. destruct (so_Latest op) as [l|] eqn:El; [|by left].
  destruct (decide (so_Index op = i)) as [<-|Hne].
  - rewrite lookup_insert_eq in Hm. injection Hm as <-. right. exists op, l. split_and!; [by left|done..].
  - rewrite lookup_insert_ne in Hm by done. by left.
Qed.

Lemma NoDup_map_eq {A B} (f : A → B) l x y : NoDup (map f l) → x ∈ l → y ∈ l → f x = f y → x = y.
Proof.
  induction l as [|z l IH]; intros Hnd Hx Hy E; [by apply not_elem_of_nil in Hx|].
  cbn in Hnd. apply NoDup_cons in Hnd as [Hz Hnd].
  assert (∀ u, u ∈ l → f u ∈ map f l) as Hin by (intros; change (map f l) with (f <$> l); by apply list_elem_of_fmap_2).
  apply elem_of_cons in Hx as [->|Hx], Hy as [->|Hy]; [done| | |by apply IH].
  - exfalso. apply Hz. rewrite E. by apply Hin.
  - exfalso. apply Hz. rewrite <-E. by apply Hin.
Qed.

Lemma sla_operations_offers ca target key prev all ops c :
  NoDup (map so_Index all) → (∀ op, op ∈ ops → op ∈ all) →
  sla_operations fingerprintFor suppression (c, ca) target key prev (foldl add_run ∅ all) ops =
  Some (let '(c', n) := offer_all c (concat (map (sla_offer target key prev (foldl add_run ∅ all)) ops)) in ((c', ca), n)).
Proof.
  intros Hnd. revert c. induction ops as [|op ops IH]; intros c Hsub; [done|].
  cbn [sla_operations map concat]. unfold sla_step, sla_offer at 1.
  destruct (foldl add_run ∅ all !! so_Index op) as [run|] eqn:Ec.
  2: { cbn. rewrite IH by (intros; apply Hsub; by right). cbn. by destruct (offer_all c _). }
  assert (is_Some (so_Latest op)) as [latest El].
  { apply add_runs_some in Ec as [Hm|(op' & l & Hin & Hi & Hl & _)]; [by rewrite lookup_empty in Hm|].
    rewrite <-(NoDup_map_eq so_Index all op' op); [eauto|done|done|apply Hsub; by left|done]. }
  rewrite El. destruct (prev !! so_Index op) as [last|].
  2: { cbn. rewrite IH by (intros; apply Hsub; by right). cbn. by destruct (offer_all c _). }
  destruct (sr_runUptime run =? sr_runUptime last).
  { cbn. rewrite IH by (intros; apply Hsub; by right). cbn. by destruct (offer_all c _). }
  destruct (sla_judge target op latest last run) as [[rule alert]|]; cbn.
  2: { rewrite IH by (intros; apply Hsub; by right). cbn. by destruct (offer_all c _). }
  unfold fires. cbn [fst snd]. destruct (fire _ _ c _ _ _) as [c1 ok]. cbn.
  rewrite IH by (intros; apply Hsub; by right). cbn. by destruct (offer_all c1 _).
Qed.

Lemma evaluate_offers k c ca obs :
  orderly k obs →
  evaluate fingerprintFor suppression k (c, ca) obs =
  Some (let '(c', n) := offer_all c (offers_of k ca obs) in ((c', primeOne k ca obs), n)).
Proof.
  intros Ho. destruct k; cbn [evaluate offers_of primeOne].
  - f_equal. rewrite prime_iface. unfold evaluateIfTable, iface_rows.
    destruct (unmarshal_if _); [apply if_rows_judged|]. cbn. by destruct ca.
  - f_equal. rewrite prime_peer. unfold evaluateBGP, peer_rows.
    destruct (unmarshal_bgp _); [apply bgp_peers_judged|]. cbn. by destruct ca.
  - f_equal. rewrite prime_disk. unfold evaluateHostResources, disk_rows.
    destruct (unmarshal_storage _); [apply storage_rows_judged|]. cbn. by destruct ca.
  - f_equal. unfold evaluateSTP, stp_offers, primeSTP. destruct (decodeSTP obs) as [[pay cur]|]; [|done]. cbn [fst snd].
    destruct (stpState ca !! _) as [prev|]; [|done]. destruct (bool_decide _); cbn [negb].
    + destruct (_ <=? _); [done|]. unfold fires. cbn. by destruct (fire _ _ c _ _ _) as [c1 []].
    + unfold fires. cbn. by destruct (fire _ _ c _ _ _) as [c1 []].
  - f_equal. unfold evaluateRouting, routing_offers, primeRouting. destruct (decodeRouting obs) as [cur|]; [|done]. cbn [fst snd].
    destruct (routeState ca !! _) as [prev|]; [|done].
    destruct (0 <? len (omap (withdrawal prev cur) _)), (0 <? len (omap (hop_change prev cur) _)); unfold fires; cbn;
      repeat match goal with |- context [fire ?f ?s ?c ?r ?k ?a] => destruct (fire f s c r k a) as [? []]; cbn end; done.
  - cbn in *. unfold evaluateIPSLA, sla_offers, primeIPSLA, decodeIPSLA in *. specialize (Ho eq_refl).
    destruct (unmarshal_sla _) as [ops|]; cbn in *; [|done].
    destruct (slaState ca !! _) as [prev|]; [|done]. by apply sla_operations_offers.
Qed.

(** Observations of one kind, oldest first. *)
Fixpoint offers_over (k : kind) (ca : caches) (observations : list SNMPObservation) : list offer :=
  match observations with
  | [] => []
  | obs :: rest => offers_of k ca obs ++ offers_over k (primeOne k ca obs) rest
  end.

Lemma evaluate_all_offers k c ca m observations :
  Forall (orderly k) observations →
  ∃ m', evaluate_all fingerprintFor suppression k (c, ca) m observations =
    Some (let '(c', n) := offer_all c (offers_over k ca observations) in ((c', foldl (primeOne k) ca observations), n, m')) ∧
    m ≤ m' ∧ Forall (λ obs, ob_ObservedAt obs ≤ m') observations.
Proof.
  intros Ho. revert c ca m. induction observations as [|obs rest IH]; intros c ca m.
  { exists m. split_and!; [done|lia|constructor]. }
  apply Forall_cons in Ho as [Ho1 Ho2]. specialize (IH Ho2). cbn [evaluate_all].
  rewrite evaluate_offers by done. cbn [offers_over foldl]. rewrite fire_all_app.
  destruct (offer_all c (offers_of k ca obs)) as [c1 n1]. cbn [mbind option_bind].
  set (m1 := if time_after (ob_ObservedAt obs) m then ob_ObservedAt obs else m).
  assert (m ≤ m1 ∧ ob_ObservedAt obs ≤ m1) as [H1 H2].
  { subst m1. unfold time_after. destruct (Z.ltb_spec m (ob_ObservedAt obs)); lia. }
  destruct (IH c1 (primeOne k ca obs) m1) as (m' & -> & Hm & Hf). exists m'. cbn.
  destruct (offer_all c1 _) as [c2 n2]. split; [done|]. split; [lia|]. constructor; [lia|done].
Qed.

(** The rows of many observations, as one table. *)
Lemma offers_over_iface ca observations :
  offers_over if_table ca observations =
  judged iface_key iface_state iface_judge (ifaceState ca) (concat (map iface_rows observations)).
Proof.
  revert ca. induction observations as [|obs rest IH]; intros ca; [done|]. cbn [offers_over map concat].
  rewrite judged_app. cbn [offers_of primeOne]. by rewrite IH, prime_iface.
Qed.

Lemma offers_over_peer ca observations :
  offers_over bgp4_mib ca observations =
  judged peer_key peer_state peer_judge (bgpState ca) (concat (map peer_rows observations)).
Proof.
  revert ca. induction observations as [|obs rest IH]; intros ca; [done|]. cbn [offers_over map concat].
  rewrite judged_app. cbn [offers_of primeOne]. by rewrite IH, prime_peer.
Qed.

Lemma offers_over_disk ca observations :
  offers_over host_resources ca observations =
  judged disk_key disk_state disk_judge (storageState ca) (concat (map disk_rows observations)).
Proof.
  revert ca. induction observations as [|obs rest IH]; intros ca; [done|]. cbn [offers_over map concat].
  rewrite judged_app. cbn [offers_of primeOne]. by rewrite IH, prime_disk.
Qed.

(** The alerts three kinds owe, told from the whole history: an interface
    whose last reading was up, and is now anything else with the port
    administratively up; a peer whose last reading was Established and is now
    anything else; a filesystem last read below a threshold, zero when never
    read, and now at or above it, the higher threshold going first. *)
Definition history_offers (k : kind) (observations : list SNMPObservation) : list offer :=
  match k with
  | if_table => over_history iface_key iface_state iface_judge [] (concat (map iface_rows observations))
  | bgp4_mib => over_history peer_key peer_state peer_judge [] (concat (map peer_rows observations))
  | host_resources => over_history disk_key disk_state disk_judge [] (concat (map disk_rows observations))
  | _ => []
  end.

(** C23: Whatever interfaces, peers and filesystems are polled, in whatever
    interleaving of targets and batches: evaluating the observations oldest
    first from empty caches offers exactly the alerts the history owes, in
    its order, counts the ones written, and ends in the caches that priming
    with the same observations would give. *)
Theorem entity_history k c observations :
  k = if_table ∨ k = bgp4_mib ∨ k = host_resources →
  ∃ m, evaluate_all fingerprintFor suppression k (c, caches_empty) time_zero observations =
    Some (let '(c', n) := offer_all c (history_offers k observations) in
          ((c', foldl (primeOne k) caches_empty observations), n, m)).
Proof.
  intros Hk. destruct (evaluate_all_offers k c caches_empty time_zero observations) as (m & -> & _).
  { apply Forall_true. intros obs ->. by destruct Hk as [?|[?|?]]. }
  exists m. enough (offers_over k caches_empty observations = history_offers k observations) as -> by done.
  destruct Hk as [-> | [-> | ->]]; cbn [history_offers];
    rewrite ?offers_over_iface, ?offers_over_peer, ?offers_over_disk; by apply judged_history.
Qed.

(** *** Reading an observation twice *)

(** A table lists an entity once. *)
Definition distinct (k : kind) (obs : SNMPObservation) : Prop :=
  match k with
  | if_table => NoDup (map if_IfIndex (default [] (unmarshal_if (ob_PayloadJSON obs))))
  | bgp4_mib => NoDup (map bp_RemoteAddr (default [] (unmarshal_bgp (ob_PayloadJSON obs))))
  | host_resources => NoDup (map st_Index (default [] (unmarshal_storage (ob_PayloadJSON obs))))
  | ip_sla => NoDup (map so_Index (default [] (unmarshal_sla (ob_PayloadJSON obs))))
  | stp | routing => True
  end.

Lemma SFltb_SFleb x y : SFltb x y = true → SFleb y x = false.
Proof.
  unfold SFltb, SFleb. destruct x as [[]|[]| |[] mx ex], y as [[]|[]| |[] my ey]; cbn; try done;
    change (PosDef.Pos.compare_cont Eq mx my) with (Pos.compare mx my);
    change (PosDef.Pos.compare_cont Eq my mx) with (Pos.compare my mx);
    rewrite (Z.compare_antisym ex ey), (Pos.compare_antisym mx my);
    destruct (Z.compare ex ey); cbn; try done; by destruct (Pos.compare mx my).
Qed.

Lemma keys_NoDup {A B} (key : string * A → string) (id_ : A → B) target (rows : list A) :
  (∀ x y, key (target, x) = key (target, y) → id_ x = id_ y) →
  NoDup (map id_ rows) → NoDup (map key (map (pair target) rows)).
Proof.
  intros Hk. induction rows as [|x rows IH]; [constructor|]. cbn. intros [Hx Hnd]%NoDup_cons.
  apply NoDup_cons. split; [|by apply IH]. intros Hin. apply Hx.
  change (map key (map (pair target) rows)) with (key <$> (pair target <$> rows)) in Hin.
  apply list_elem_of_fmap in Hin as (z & E & Hin). apply list_elem_of_fmap in Hin as (y & -> & Hin).
  rewrite (Hk _ _ E). change (map id_ rows) with (id_ <$> rows). by apply list_elem_of_fmap_2.
Qed.

Lemma disk_judge_same x : disk_judge (Some (disk_state x)) x = [].
Proof.
  unfold disk_judge, below, disk_state. cbn [from_option]. unfold id.
  destruct (SFltb (used_percent x.2) storageFullPct) eqn:E1; cbn [andb];
    rewrite ?(SFltb_SFleb _ _ E1); destruct (SFltb (used_percent x.2) storageHighPct) eqn:E2; cbn [andb];
    by rewrite ?(SFltb_SFleb _ _ E2).
Qed.

Lemma omap_none {A B} (f : A → option B) l : (∀ x, f x = None) → omap f l = [].
Proof. intros Hf. induction l as [|x l IH]; [done|]. cbn. by rewrite Hf. Qed.

Lemma offers_again k ca obs :
  distinct k obs → offers_of k (primeOne k ca obs) obs = [] ∧ primeOne k (primeOne k ca obs) obs = primeOne k ca obs.
Proof.
  intros Hd. destruct k; cbn [offers_of primeOne distinct] in *.
  - rewrite !prime_iface. destruct (judged_again iface_key iface_state iface_judge (ifaceState ca) (iface_rows obs)) as [H1 H2].
    + intros x. unfold iface_judge, iface_state. case_bool_decide as E; [|done]. injection E as ->. done.
    + eapply keys_NoDup; [|exact Hd]. intros x y E. unfold iface_key, if_key in E. cbn in E. by simplify_eq.
    + cbn [ifaceState set_iface]. by rewrite H1, H2.
  - rewrite !prime_peer. destruct (judged_again peer_key peer_state peer_judge (bgpState ca) (peer_rows obs)) as [H1 H2].
    + intros x. unfold peer_judge, peer_state. case_bool_decide as E; [|done]. injection E as ->. done.
    + eapply keys_NoDup; [|exact Hd]. intros x y E. unfold peer_key, bgp_key in E. cbn in E. by simplify_eq.
    + cbn [bgpState set_bgp]. by rewrite H1, H2.
  - rewrite !prime_disk. destruct (judged_again disk_key disk_state disk_judge (storageState ca) (disk_rows obs)) as [H1 H2].
    + apply disk_judge_same.
    + eapply keys_NoDup; [intros x y E; unfold disk_key, storage_key in E; cbn in E; by simplify_eq|].
      eapply sublist_NoDup; [exact Hd|]. change (map st_Index ?l) with (st_Index <$> l).
      apply fmap_sublist, sublist_filter.
    + cbn [storageState set_storage]. by rewrite H1, H2.
  - unfold stp_offers, primeSTP. destruct (decodeSTP obs) as [[pay cur]|]; [|done]. cbn.
    rewrite lookup_insert_eq, bool_decide_eq_true_2, Z.leb_refl by done. cbn. unfold recordSTP. cbn. by rewrite insert_insert_eq.
  - unfold routing_offers, primeRouting. destruct (decodeRouting obs) as [cur|]; [|done]. cbn. rewrite lookup_insert_eq.
    rewrite (omap_none (withdrawal cur cur)), (omap_none (hop_change cur cur)).
    + cbn. unfold recordRouting. cbn. by rewrite insert_insert_eq.
    + intros x. unfold hop_change. destruct (rs_routes cur !! x); [|done]. cbn. by rewrite bool_decide_eq_true_2.
    + intros x. unfold withdrawal. by destruct (rs_routes cur !! x).
  - unfold sla_offers, primeIPSLA. destruct (decodeIPSLA obs) as [[ops cur]|]; [|done]. cbn. rewrite lookup_insert_eq.
    split; [|unfold recordIPSLA; cbn; by rewrite insert_insert_eq].
    induction ops as [|op ops IH]; [done|]. cbn. rewrite IH, app_nil_r. unfold sla_offer.
    destruct (cur !! so_Index op) as [run|]; [|done]. destruct (so_Latest op); [|done]. by rewrite Z.eqb_refl.
Qed.

(** Scans overlap at the high-water mark, so the newest observation is read
    again by every scan until a newer one arrives. Reading it again is
    harmless: it offers nothing, writes nothing and leaves every cache as it
    was, for each kind of observation and whatever the first reading did. *)
Theorem reevaluate_silent k c ca obs c' ca' n :
  distinct k obs → evaluate fingerprintFor suppression k (c, ca) obs = Some ((c', ca'), n) →
  evaluate fingerprintFor suppression k (c', ca') obs = Some ((c', ca'), 0).
Proof.
  intros Hd. assert (orderly k obs) as Ho by (intros ->; exact Hd).
  rewrite evaluate_offers by done. destruct (offer_all c _) as [c1 n1]. intros [= -> <- ->].
  rewrite evaluate_offers by done. destruct (offers_again k ca obs Hd) as [-> ->]. done.
Qed.
End entities.

(** ** One alert per entity and window *)

Section spaced.
Context `{Decoder}.
Context {S W : Type} `{!SuppressionStore S, !SuppressionLaws S, !World W, !WorldLaws W}.
Context (fingerprintFor : string → string → string → string) (suppression : Z).
Context (format_nano : Z → string) (parse_nano : string → option Z).
Context (fingerprint_ne : ∀ a b c, fingerprintFor a b c ≠ "") (covered : sl_covers suppression).

Lemma fire_all_ok (c : core S W) offers :
  core_ok suppression c → core_ok suppression (fire_all fingerprintFor suppression c offers).1.
Proof.
  revert c. induction offers as [|[[rule key] alert] rest IH]; intros c Hc; [done|]. cbn [fire_all].
  pose proof (fire_ok suppression fingerprintFor c rule key alert fingerprint_ne covered Hc) as HF.
  destruct (fire _ _ c rule key alert) as [c1 ok]. destruct HF as [Hc1 _]. specialize (IH c1 Hc1).
  by destruct (fire_all _ _ c1 rest).
Qed.

Lemma sla_operations_ok c ca target key prev cur ops p n :
  core_ok suppression c → sla_operations fingerprintFor suppression (c, ca) target key prev cur ops = Some (p, n) →
  core_ok suppression p.1.
Proof.
  revert c n p. induction ops as [|op ops IH]; intros c n p Hc; cbn; [by intros [= <- _]|].
  destruct (sla_step target prev cur op) as [[[rule alert]|]|]; cbn; [| |done].
  - unfold fires. cbn. pose proof (fire_ok suppression fingerprintFor c rule (key +:+ "/" +:+ pretty (so_Index op)) alert
      fingerprint_ne covered Hc) as HF.
    destruct (fire _ _ c _ _ _) as [c1 ok]. destruct HF as [Hc1 _].
    destruct (sla_operations _ _ (c1, ca) _ _ _ _ ops) as [[p1 n1]|] eqn:E; cbn; [|done]. intros [= <- _]. by eapply IH.
  - destruct (sla_operations _ _ (c, ca) _ _ _ _ ops) as [[p1 n1]|] eqn:E; cbn; [|done]. intros [= <- _]. by eapply IH.
Qed.

Lemma evaluate_core_ok k c ca obs p n :
  core_ok suppression c → evaluate fingerprintFor suppression k (c, ca) obs = Some (p, n) → core_ok suppression p.1.
Proof.
  intros Hc. destruct (decide (k = ip_sla)) as [->|Hk].
  - cbn. unfold evaluateIPSLA. destruct (decodeIPSLA obs) as [[ops cur]|]; [|by intros [= <- _]]. cbn [fst snd].
    destruct (slaState ca !! _); [by apply sla_operations_ok|by intros [= <- _]].
  - rewrite evaluate_offers by (intros E; by destruct Hk). pose proof (fire_all_ok c (offers_of k ca obs) Hc).
    destruct (fire_all _ _ c _). by intros [= <- _].
Qed.

Lemma evaluate_all_ok k observations p m p' n m' :
  core_ok suppression p.1 → evaluate_all fingerprintFor suppression k p m observations = Some (p', n, m') →
  core_ok suppression p'.1.
Proof.
  revert p m n m'. induction observations as [|obs rest IH]; intros [c ca] m n m' Hc; cbn [evaluate_all]; [by intros [= <- _ _]|].
  destruct (evaluate _ _ k (c, ca) obs) as [[p1 n1]|] eqn:E; [|done]. cbn [mbind option_bind].
  destruct (evaluate_all _ _ k p1 _ rest) as [[[p2 n2] m2]|] eqn:E2; [|done]. cbn. intros [= <- _ _].
  eapply IH; [|exact E2]. by eapply evaluate_core_ok.
Qed.

Lemma scan_kinds_ok env since kinds p m p' m' :
  core_ok suppression p.1 → scan_kinds fingerprintFor suppression env since p m kinds = Some (p', m') →
  core_ok suppression p'.1.
Proof.
  revert p m. induction kinds as [|k kinds IH]; intros p m Hp; cbn [scan_kinds]; [by intros [= <- _]|].
  destruct (se_list env k since) as [observations|]; [|by apply IH].
  destruct (scanKind _ _ p k observations) as [[[p1 n1] m1]|] eqn:E; [|done]. cbn [mbind option_bind].
  apply IH. by eapply evaluate_all_ok.
Qed.

(** A running pipeline: scans against whatever the database answers, and the
    priming of a start. *)
Inductive ostep : ObservationPipeline S W → ObservationPipeline S W → Prop :=
| ostep_scan p env p' err :
    ScanOnce fingerprintFor suppression format_nano parse_nano p env = Some (p', err) → ostep p p'
| ostep_start p depth list_ : ostep p (Start p depth list_).

Lemma ostep_ok p p' : ostep p p' → core_ok suppression (op_core p) → core_ok suppression (op_core p').
Proof.
  destruct 1 as [p env p' err HS|p depth list_]; intros Hp.
  - unfold ScanOnce in HS. destruct (scanOnceInner _ _ _ _ p env) as [[p1 err1]|] eqn:E; [|done]. cbn in HS.
    assert (core_ok suppression (op_core p1)) as Hp1.
    { revert E. unfold scanOnceInner. destruct (loadHighWater _ p env) as [since|]; [|by intros [= <- _]].
      destruct (scan_kinds _ _ env since _ _ _) as [[w m]|] eqn:EK; [|done]. cbn.
      apply scan_kinds_ok in EK; [|done]. destruct (m =? time_zero); [by intros [= <- _]|].
      by destruct (se_set env); intros [= <- _]. }
    pose proof (proj1 (read_clock_ok suppression (op_core p1) Hp1)) as Hr.
    destruct (read_clock (op_core p1)) as [c now]. by injection HS as <- _.
  - unfold Start. by destruct (0 <? _).
Qed.

(** Whatever is polled and however often the pipeline restarts its priming,
    two alerts with the same rule and entity are written at least the
    suppression window apart, for any store that keeps its promise that far
    ahead, any alert writer, and a clock that does not go back. *)
Theorem observations_spaced s w setting p i j ti tj fi fj ai aj :
  rtc ostep (NewObservationPipeline s w setting) p → (i < j)%nat →
  co_written (op_core p) !! i = Some (ti, fi, ai) → co_written (op_core p) !! j = Some (tj, fj, aj) →
  fi = fj → tj + suppression ≤ ti.
Proof.
  intros Hr. assert (core_ok suppression (op_core p)) as [Hs _ _]; [|by apply spaced_lookup].
  remember (NewObservationPipeline s w setting) as p0 eqn:E0.
  assert (core_ok suppression (op_core p0)) as H0 by (subst; apply empty_core_ok). clear E0.
  induction Hr as [|p1 p2 p3 Hstep _ IH]; [done|]. apply IH. by eapply ostep_ok.
Qed.
End spaced.

(** ** Routes withdrawn and moved *)

Section routing.
Context `{Decoder}.

(** The next hops a table lists for a prefix, in its order. *)
Definition hops_of (prefix : string) (routes : list route) : list string :=
  map ro_NextHop (filter (λ r, routePrefix (ro_Destination r) (ro_Mask r) = prefix) routes).

Lemma add_routes_hops p routes m :
  re_nextHops <$> foldl add_route m routes !! p =
  match hops_of p routes with
  | [] => re_nextHops <$> m !! p
  | h => Some (default [] (re_nextHops <$> m !! p) ++ h)
  end.
Proof.
  revert m. induction routes as [|r routes IH]; intros m; [done|]. cbn [foldl]. rewrite IH. unfold hops_of in *.
  destruct (decide (routePrefix (ro_Destination r) (ro_Mask r) = p)) as [<-|Hne].
  - rewrite filter_cons_True by done. unfold add_route. rewrite lookup_insert_eq. cbn [map fmap option_fmap option_map re_nextHops from_option].
    assert (re_nextHops (default (MkEntry [] 0) (m !! routePrefix (ro_Destination r) (ro_Mask r))) =
            default [] (re_nextHops <$> m !! routePrefix (ro_Destination r) (ro_Mask r))) as -> by by destruct (m !! _).
    destruct (map ro_NextHop (filter _ routes)) as [|h hs]; [done|]. cbn. by rewrite <-app_assoc.
  - rewrite filter_cons_False by done. unfold add_route. by rewrite lookup_insert_ne.
Qed.

Lemma decodeRouting_hops obs pay :
  unmarshal_routing (ob_PayloadJSON obs) = Some pay →
  ∃ snap, decodeRouting obs = Some snap ∧ rs_truncated snap = rp_Truncated pay ∧
    ∀ p, re_nextHops <$> rs_routes snap !! p =
         match hops_of p (rp_Routes pay) with [] => None | h => Some (merge_sort str_le h) end.
Proof.
  intros Hu. unfold decodeRouting. rewrite Hu. cbn. eexists. split; [done|]. split; [done|]. intros q. cbn.
  rewrite lookup_fmap. pose proof (add_routes_hops q (rp_Routes pay) ∅) as HA. rewrite lookup_empty in HA. cbn in HA.
  destruct (foldl add_route ∅ (rp_Routes pay) !! q) as [e|]; cbn in *.
  - destruct (hops_of q (rp_Routes pay)); [done|]. by injection HA as ->.
  - by destruct (hops_of q (rp_Routes pay)).
Qed.

Lemma sorted_prefixes_spec {A} (m : gmap string A) :
  StronglySorted str_le (sorted_prefixes m) ∧ NoDup (sorted_prefixes m) ∧
  ∀ p, p ∈ sorted_prefixes m ↔ is_Some (m !! p).
Proof.
  unfold sorted_prefixes. split; [apply StronglySorted_merge_sort; apply _|]. split.
  - rewrite merge_sort_Permutation. apply NoDup_fst_map_to_list.
  - intros p. rewrite merge_sort_Permutation. change (map fst ?l) with (fst <$> l). rewrite list_elem_of_fmap. split.
    + intros ([q x] & -> & Hin). apply elem_of_map_to_list in Hin. by eexists.
    + intros [x Hx]. exists (p, x). split; [done|]. by apply elem_of_map_to_list.
Qed.

Lemma map_omap_filter {A B} (f : A → option B) (g : B → A) l :
  (∀ a b, f a = Some b → g b = a) → map g (omap f l) = filter (λ a, is_Some (f a)) l.
Proof.
  intros Hg. induction l as [|a l IH]; [done|]. destruct (f a) as [b|] eqn:E.
  - rewrite filter_cons_True by (rewrite E; eauto). rewrite <-IH. cbn. rewrite E. cbn. by rewrite (Hg a b E).
  - rewrite filter_cons_False by (rewrite E; by intros []). rewrite <-IH. cbn. by rewrite E.
Qed.

Lemma selected_prefixes {A B} (m : gmap string A) (f : string → option B) (g : B → string) :
  (∀ a b, f a = Some b → g b = a) → (∀ a, is_Some (f a) → is_Some (m !! a)) →
  let l := map g (omap f (sorted_prefixes m)) in
  StronglySorted str_le l ∧ NoDup l ∧ ∀ p, p ∈ l ↔ is_Some (f p).
Proof.
  intros Hg Hm l. subst l. rewrite (map_omap_filter f g _ Hg). destruct (sorted_prefixes_spec m) as (H1 & H2 & H3).
  split; [|split; [by apply NoDup_filter|]].
  - induction (sorted_prefixes m) as [|a l IH] in H1 |- *; [constructor|]. apply StronglySorted_inv in H1 as [Hs Ha].
    rewrite filter_cons. destruct (decide (is_Some (f a))); [|by apply IH]. constructor; [by apply IH|].
    rewrite list.Forall_forall in *. intros x Hx. apply list_elem_of_filter in Hx as [_ Hx]. by apply Ha.
  - intros p. rewrite list_elem_of_filter, H3. split; [by intros []|]. intros Hp. split; [done|by apply Hm].
Qed.

Lemma sorted_hops_eq h1 h2 : merge_sort str_le h1 = merge_sort str_le h2 ↔ h1 ≡ₚ h2.
Proof.
  split; intros E.
  - by rewrite <-(merge_sort_Permutation str_le h1), E, merge_sort_Permutation.
  - apply (StronglySorted_unique str_le); [apply StronglySorted_merge_sort; apply _..|].
    by rewrite !merge_sort_Permutation.
Qed.

(** Two polls of a router's table in a row. What the second one offers is at
    most one alert for withdrawals and one for moves, in this order. A prefix
    is in the first exactly when the earlier table lists it, the later one
    does not, and the later one was read to its end; it is in the second
    exactly when both list it with different multisets of next hops. So a
    table listed in another order offers nothing, nor does a new prefix, and
    each alert lists its prefixes once, in order. *)
Theorem routing_exact ca obs1 obs2 pay1 pay2 :
  ob_TargetID obs1 = ob_TargetID obs2 →
  unmarshal_routing (ob_PayloadJSON obs1) = Some pay1 → unmarshal_routing (ob_PayloadJSON obs2) = Some pay2 →
  let hops1 p := hops_of p (rp_Routes pay1) in
  let hops2 p := hops_of p (rp_Routes pay2) in
  ∃ withdrawn changed,
    offers_of routing (primeOne routing ca obs1) obs2 =
      (if 0 <? len withdrawn then [(RuleRouteWithdrawn, "route/" +:+ ob_TargetID obs2, withdrawn_alert (ob_TargetID obs2) withdrawn)] else []) ++
      (if 0 <? len changed then [(RuleRouteChange, "route/" +:+ ob_TargetID obs2, changed_alert (ob_TargetID obs2) changed)] else []) ∧
    (∀ p, p ∈ map wd_Prefix withdrawn ↔ hops1 p ≠ [] ∧ hops2 p = [] ∧ rp_Truncated pay2 = false) ∧
    (∀ p, p ∈ map hc_Prefix changed ↔ hops1 p ≠ [] ∧ hops2 p ≠ [] ∧ ¬ hops1 p ≡ₚ hops2 p) ∧
    StronglySorted str_le (map wd_Prefix withdrawn) ∧ NoDup (map wd_Prefix withdrawn) ∧
    StronglySorted str_le (map hc_Prefix changed) ∧ NoDup (map hc_Prefix changed).
Proof.
  intros Ht H1 H2. cbn zeta. destruct (decodeRouting_hops obs1 pay1 H1) as (prev & E1 & _ & Hp).
  destruct (decodeRouting_hops obs2 pay2 H2) as (cur & E2 & Htr & Hc).
  cbn [offers_of primeOne]. unfold routing_offers, primeRouting. rewrite E1, E2. cbn [recordRouting routeState].
  rewrite Ht, lookup_insert_eq.
  destruct (selected_prefixes (rs_routes prev) (withdrawal prev cur) wd_Prefix) as (W1 & W2 & W3).
  { intros a b. unfold withdrawal. destruct (rs_routes prev !! a); [|done]. cbn. destruct (rs_routes cur !! a); [done|].
    destruct (rs_truncated cur); [done|]. by intros [= <-]. }
  { intros a. unfold withdrawal. destruct (rs_routes prev !! a); [eauto|]. by intros []. }
  destruct (selected_prefixes (rs_routes prev) (hop_change prev cur) hc_Prefix) as (C1 & C2 & C3).
  { intros a b. unfold hop_change. destruct (rs_routes prev !! a); [|done]. cbn. destruct (rs_routes cur !! a); [|done]. cbn.
    destruct (bool_decide _); [done|]. by intros [= <-]. }
  { intros a. unfold hop_change. destruct (rs_routes prev !! a); [eauto|]. by intros []. }
  exists (omap (withdrawal prev cur) (sorted_prefixes (rs_routes prev))), (omap (hop_change prev cur) (sorted_prefixes (rs_routes prev))).
  split; [done|]. split_and!; try done; intros p; specialize (Hp p); specialize (Hc p).
  - rewrite W3. unfold withdrawal. destruct (rs_routes prev !! p) as [e1|], (rs_routes cur !! p) as [e2|]; cbn in *;
      destruct (hops_of p (rp_Routes pay1)), (hops_of p (rp_Routes pay2)); try done; rewrite ?Htr;
      try destruct (rp_Truncated pay2); split; try (by intros []); try (by intros (? & ? & ?)); intros; eauto; split_and!; done.
  - rewrite C3. unfold hop_change. destruct (rs_routes prev !! p) as [e1|], (rs_routes cur !! p) as [e2|]; cbn in *;
      destruct (hops_of p (rp_Routes pay1)) as [|x1 l1] eqn:L1, (hops_of p (rp_Routes pay2)) as [|x2 l2] eqn:L2; try done;
      try (split; [by intros []|by intros (? & ? & ?)]).
    assert (re_nextHops e1 = merge_sort str_le (x1 :: l1)) as -> by (injection Hp as ->; done).
    assert (re_nextHops e2 = merge_sort str_le (x2 :: l2)) as -> by (injection Hc as ->; done).
    case_bool_decide as E; rewrite sorted_hops_eq in E.
    + split; [by intros []|]. by intros (_ & _ & ?).
    + split; [|eauto]. by intros _.
Qed.
End routing.

(** ** A whole scan *)

Section whole_scan.
Context `{Decoder}.
Context {S W : Type} `{!SuppressionStore S, !World W}.
Context (fingerprintFor : string → string → string → string) (suppression : Z).
Context (format_nano : Z → string) (parse_nano : string → option Z).

(** What a scan reads of a kind; a failed query reads nothing. *)
Definition read (env : scan_env) (since : Z) (k : kind) : list SNMPObservation := default [] (se_list env k since).

Fixpoint scan_offers (env : scan_env) (since : Z) (ca : caches) (kinds : list kind) : list offer :=
  match kinds with
  | [] => []
  | k :: rest =>
      offers_over k ca (rev (read env since k)) ++
      scan_offers env since (foldl (primeOne k) ca (rev (read env since k))) rest
  end.

Definition scan_caches (env : scan_env) (since : Z) (ca : caches) (kinds : list kind) : caches :=
  foldl (λ ca k, foldl (primeOne k) ca (rev (read env since k))) ca kinds.

Lemma scan_kinds_offers env since c ca m kinds :
  (∀ k, Forall (orderly k) (read env since k)) →
  ∃ m', scan_kinds fingerprintFor suppression env since (c, ca) m kinds =
    Some ((fire_all fingerprintFor suppression c (scan_offers env since ca kinds)).1, scan_caches env since ca kinds, m') ∧
    m ≤ m' ∧ ∀ k obs, k ∈ kinds → obs ∈ read env since k → ob_ObservedAt obs ≤ m'.
Proof.
  intros Ho. revert c ca m. induction kinds as [|k kinds IH]; intros c ca m.
  { exists m. split_and!; [done|lia|]. intros k obs Hk. by apply not_elem_of_nil in Hk. }
  cbn [scan_kinds scan_offers]. unfold scan_caches. cbn [foldl]. fold (scan_caches env since (foldl (primeOne k) ca (rev (read env since k))) kinds).
  pose proof (Ho k) as Hk. destruct (se_list env k since) as [observations|] eqn:El.
  - assert (read env since k = observations) as Hr by (unfold read; by rewrite El). rewrite Hr in *.
    unfold scanKind. destruct (evaluate_all_offers fingerprintFor suppression k c ca time_zero (rev observations)) as (km & -> & _ & Hm).
    { apply Forall_forall. intros obs Hin. rewrite list.Forall_forall in Hk. apply Hk.
      apply list_elem_of_In. apply in_rev. by apply list_elem_of_In. }
    rewrite fire_all_app. destruct (fire_all _ _ c (offers_over k ca (rev observations))) as [c1 n1]. cbn [mbind option_bind].
    set (m1 := if time_after km m then km else m). assert (m ≤ m1 ∧ km ≤ m1) as [? ?].
    { subst m1. unfold time_after. destruct (Z.ltb_spec m km); lia. }
    destruct (IH c1 (foldl (primeOne k) ca (rev observations)) m1) as (m' & -> & Hle & Hall).
    exists m'. split; [by destruct (fire_all _ _ c1 _)|]. split; [lia|]. intros k' obs Hk' Hin.
    apply elem_of_cons in Hk' as [->|Hk']; [|by eapply Hall]. rewrite Hr in Hin.
    rewrite list.Forall_forall in Hm. assert (ob_ObservedAt obs ≤ km); [apply Hm|lia].
    apply list_elem_of_In. apply -> in_rev. by apply list_elem_of_In.
  - assert (read env since k = []) as Hr by (unfold read; by rewrite El). rewrite Hr in *.
    destruct (IH c ca m) as (m' & -> & Hle & Hall). exists m'. cbn. split; [done|]. split; [done|].
    intros k' obs Hk' Hin. apply elem_of_cons in Hk' as [->|Hk']; [|by eapply Hall].
    rewrite Hr in Hin. by apply not_elem_of_nil in Hin.
Qed.

(** A scan whose IP-SLA tables list an operation once does not panic. With the
    mark readable and writable it reads, kind by kind in a fixed order and
    oldest first within a kind, everything the database returned; it writes
    from exactly the alerts these offer, one kind after the other, and leaves
    a mark that no observation it read is newer than. *)
Theorem ScanOnce_spec (p : ObservationPipeline S W) env since :
  (∀ t, parse_nano (format_nano t) = Some t) → (∀ t, format_nano t ≠ "") →
  se_get env = true → se_set env = true → loadHighWater parse_nano p env = Some since →
  (∀ k, Forall (orderly k) (read env since k)) →
  ∃ p', ScanOnce fingerprintFor suppression format_nano parse_nano p env = Some (p', None) ∧
    co_written (op_core p') =
      co_written (fire_all fingerprintFor suppression (op_core p) (scan_offers env since (op_caches p) observationKinds)).1 ∧
    op_caches p' = scan_caches env since (op_caches p) observationKinds ∧
    ∀ k obs, obs ∈ read env since k → time_zero < ob_ObservedAt obs →
      ∃ mark, loadHighWater parse_nano p' env = Some mark ∧ ob_ObservedAt obs ≤ mark.
Proof.
  intros Hrt Hne Hg Hs Hl Ho. unfold ScanOnce, scanOnceInner. rewrite Hl.
  destruct (scan_kinds_offers env since (op_core p) (op_caches p) time_zero observationKinds Ho) as (m & -> & _ & Hm).
  assert (∀ k, k ∈ observationKinds) as Hall by (intros []; unfold observationKinds; set_solver).
  cbn [mbind option_bind fst snd]. rewrite Hs. destruct (Z.eqb_spec m time_zero) as [E|E]; cbn [mbind option_bind op_core];
    set (c := (fire_all _ _ _ _).1); unfold read_clock; destruct (w_now (co_world c)) as [w now];
    eexists; (split; [done|]); (split; [done|]); (split; [done|]); intros k obs Hin Hz; specialize (Hm k obs (Hall k) Hin).
  - exfalso. lia.
  - exists m. split; [|done]. unfold loadHighWater. rewrite Hg. cbn [negb op_setting].
    rewrite bool_decide_eq_false_2 by apply Hne. apply Hrt.
Qed.
End whole_scan.

(** ** A pipeline at work *)

(** Payloads named by their text. *)
#[local] Instance demo_decoder : Decoder := {|
  unmarshal_if s := if bool_decide (s = "up") then Some [MkIf 1 "ge-0/0/1" 1 1]
                    else if bool_decide (s = "down") then Some [MkIf 1 "ge-0/0/1" 1 2] else None;
  unmarshal_bgp s := if bool_decide (s = "peer") then Some [MkPeer "10.0.0.9" 6 65001]
                     else if bool_decide (s = "idle") then Some [MkPeer "10.0.0.9" 1 65001] else None;
  unmarshal_storage s := if bool_decide (s = "full") then Some [MkStorage 1 "/var" 100 96]
                         else if bool_decide (s = "high") then Some [MkStorage 1 "/var" 100 90] else None;
  unmarshal_stp _ := None;
  unmarshal_routing s :=
    if bool_decide (s = "before")
    then Some (MkRouting [MkRoute "10.1.0.0" "m" "a" 13; MkRoute "10.2.0.0" "m" "a" 13; MkRoute "10.2.0.0" "m" "b" 13; MkRoute "10.3.0.0" "m" "a" 13] false)
    else if bool_decide (s = "after")
    then Some (MkRouting [MkRoute "10.2.0.0" "m" "b" 13; MkRoute "10.2.0.0" "m" "a" 13; MkRoute "10.3.0.0" "m" "c" 13; MkRoute "10.4.0.0" "m" "a" 13] false)
    else None;
  unmarshal_sla s := if bool_decide (s = "ok") then Some [MkOperation 5 "" "t" 10 (Some (MkLatest 1 4 100))]
                     else if bool_decide (s = "twice")
                     then Some [MkOperation 5 "" "t" 10 (Some (MkLatest 4 0 200)); MkOperation 5 "" "t" 10 None] else None;
  parse_mask s := if bool_decide (s = "m") then Some 4294901760 else None;
  fmt_percent _ _ := "";
|}.

Definition demo_obs (target : string) (k : kind) (t : Z) (payload : string) : SNMPObservation :=
  MkObservation target "" (t * second) payload.

Abbreviation demo_pipeline := (ObservationPipeline inMemorySuppressionStore (Z * N)).
Definition demo_suppression : Z := 300 * second.
Definition demo_new (step : N) : demo_pipeline :=
  NewObservationPipeline newInMemorySuppressionStore (0, (step * Z.to_N second)%N) "".

Definition demo_env (rows : kind → option (list SNMPObservation)) : scan_env :=
  MkEnv true (λ k since, rows ← rows k; Some (List_ ob_ObservedAt rows since defaultBatch)) true.

Definition demo_scan (rows : kind → option (list SNMPObservation)) (p : demo_pipeline) : demo_pipeline :=
  match ScanOnce demo_fingerprint demo_suppression demo_format demo_parse p (demo_env rows) with
  | Some (p, _) => p
  | None => p
  end.

Definition demo_rules (p : demo_pipeline) : list (string * string) :=
  map (λ e, (at_Rule e.2, at_Source e.2)) (co_written (op_core p)).

Definition only (k : kind) (l : list SNMPObservation) (k' : kind) : option (list SNMPObservation) :=
  Some (if decide (k' = k) then l else []).

Definition demo_flaps : list SNMPObservation :=
  [demo_obs "sw1" if_table 1 "up"; demo_obs "sw2" if_table 2 "down"; demo_obs "sw1" if_table 3 "down";
   demo_obs "sw1" if_table 4 "down"; demo_obs "sw1" if_table 5 "up"; demo_obs "sw1" if_table 6 "down"].

Example entity_history_witness_offers :
  map (λ o, o.1) (history_offers if_table demo_flaps) = [("iface.down", "if/sw1/1"); ("iface.down", "if/sw1/1")].
Proof. by vm_compute. Qed.

Lemma entity_history_witness :
  ∃ m, evaluate_all demo_fingerprint demo_suppression if_table (op_core (demo_new 400), caches_empty) time_zero demo_flaps =
    Some (let '(c', n) := fire_all demo_fingerprint demo_suppression (op_core (demo_new 400)) (history_offers if_table demo_flaps) in
          ((c', foldl (primeOne if_table) caches_empty demo_flaps), n, m)).
Proof. apply entity_history. by left. Defined.

(** Two edges, and with readings of the clock 400 seconds apart both are
    written; 100 seconds apart the second one is suppressed. *)
Example demo_flaps_written :
  demo_rules (demo_scan (only if_table demo_flaps) (demo_new 400)) = [("iface.down", "sw1"); ("iface.down", "sw1")] ∧
  demo_rules (demo_scan (only if_table demo_flaps) (demo_new 100)) = [("iface.down", "sw1")].
Proof. by vm_compute. Qed.

Definition demo_down : SNMPObservation := demo_obs "sw1" if_table 3 "down".
Definition demo_up : SNMPObservation := demo_obs "sw1" if_table 1 "up".
Definition demo_core : core inMemorySuppressionStore (Z * N) := op_core (demo_new 400).

Definition demo_read_down : core inMemorySuppressionStore (Z * N) * caches * Z :=
  evaluateIfTable demo_fingerprint demo_suppression (demo_core, primeOne if_table caches_empty demo_up) demo_down.

Lemma reevaluate_silent_witness :
  demo_read_down.2 = 1 ∧
  evaluate demo_fingerprint demo_suppression if_table demo_read_down.1 demo_down = Some (demo_read_down.1, 0).
Proof.
  split; [by vm_compute|].
  refine (reevaluate_silent demo_fingerprint demo_suppression if_table demo_core
    (primeOne if_table caches_empty demo_up) demo_down demo_read_down.1.1 demo_read_down.1.2 demo_read_down.2 _ _).
  - cbn. apply NoDup_singleton.
  - by vm_compute.
Defined.

Definition demo_spaced : demo_pipeline := demo_scan (only if_table demo_flaps) (demo_new 400).

Lemma observations_spaced_witness :
  ∃ ti fi ai tj fj aj,
    co_written (op_core demo_spaced) !! 0%nat = Some (ti, fi, ai) ∧
    co_written (op_core demo_spaced) !! 1%nat = Some (tj, fj, aj) ∧ fi = fj ∧ tj + demo_suppression ≤ ti.
Proof.
  eexists _, _, _, _, _, _. split; [by vm_compute|]. split; [by vm_compute|]. split; [done|].
  eapply (observations_spaced (S := inMemorySuppressionStore) (W := Z * N) demo_fingerprint demo_suppression demo_format demo_parse) with
    (p := demo_spaced) (s := newInMemorySuppressionStore) (w := (0, (400 * Z.to_N second)%N)) (setting := "").
  - done.
  - unfold sl_covers. cbn. unfold demo_suppression, hour, second. lia.
  - eapply rtc_l; [|apply rtc_refl].
    eapply (ostep_scan _ _ _ _ _ (demo_env (only if_table demo_flaps)) _ None). by vm_compute.
  - exact (Nat.lt_succ_diag_r 0).
  - by vm_compute.
  - by vm_compute.
  - done.
Defined.

Definition demo_before : SNMPObservation := demo_obs "r1" routing 1 "before".
Definition demo_after : SNMPObservation := demo_obs "r1" routing 2 "after".

(** 10.1.0.0/16 is gone, 10.2.0.0/16 lists its two next hops in another order,
    10.3.0.0/16 moved and 10.4.0.0/16 is new. *)
Example demo_routes :
  map (λ o, (o.1.1, at_Metadata o.2)) (offers_of routing (primeOne routing caches_empty demo_before) demo_after) =
  [("route.withdrawn", RouteWithdrawnEvidence 1 [MkWithdrawal "10.1.0.0/16" ["a"] 13]);
   ("route.change", RouteChangeEvidence 1 [MkHopChange "10.3.0.0/16" ["a"] ["c"]])].
Proof. by vm_compute. Qed.

Lemma routing_exact_witness :
  ∃ withdrawn changed,
    offers_of routing (primeOne routing caches_empty demo_before) demo_after =
      (if 0 <? len withdrawn then [(RuleRouteWithdrawn, "route/r1", withdrawn_alert "r1" withdrawn)] else []) ++
      (if 0 <? len changed then [(RuleRouteChange, "route/r1", changed_alert "r1" changed)] else []) ∧
    "10.1.0.0/16" ∈ map wd_Prefix withdrawn ∧ "10.2.0.0/16" ∉ map hc_Prefix changed.
Proof.
  destruct (unmarshal_routing (ob_PayloadJSON demo_before)) as [pay1|] eqn:E1; [|done].
  destruct (unmarshal_routing (ob_PayloadJSON demo_after)) as [pay2|] eqn:E2; [|done].
  destruct (routing_exact caches_empty demo_before demo_after pay1 pay2 eq_refl E1 E2) as (w & c & H1 & H2 & H3 & _).
  exists w, c. split; [exact H1|]. vm_compute in E1. injection E1 as <-. vm_compute in E2. injection E2 as <-.
  split; [apply H2; split; [|split]; [by vm_compute|by vm_compute|done]|].
  intros Hin. apply H3 in Hin as (_ & _ & Hne). apply Hne. vm_compute. apply perm_swap.
Defined.

Lemma ScanOnce_spec_witness :
  ∃ p', ScanOnce demo_fingerprint demo_suppression demo_format demo_parse (demo_new 400) (demo_env (only if_table demo_flaps)) = Some (p', None) ∧
    demo_rules p' = [("iface.down", "sw1"); ("iface.down", "sw1")] ∧
    ∃ mark, loadHighWater demo_parse p' (demo_env (only if_table demo_flaps)) = Some mark ∧ 6 * second ≤ mark.
Proof.
  destruct (ScanOnce_spec demo_fingerprint demo_suppression demo_format demo_parse (demo_new 400)
    (demo_env (only if_table demo_flaps)) time_zero demo_roundtrip demo_format_ne eq_refl eq_refl eq_refl) as (p' & H1 & H2 & _ & H3).
  - intros k. destruct k; try (apply Forall_true; by intros obs E). by vm_compute.
  - exists p'. split; [exact H1|]. split; [unfold demo_rules; rewrite H2; by vm_compute|].
    apply (H3 if_table (demo_obs "sw1" if_table 6 "down")).
    + vm_compute. constructor.
    + by vm_compute.
Defined.

(** The query of the peers fails once while the interfaces are read: the mark
    they share moves past the peer's earlier observation, and the peer that
    went down in between is never reported. *)
Definition demo_peer : SNMPObservation := demo_obs "r1" bgp4_mib 1 "peer".
Definition demo_idle : SNMPObservation := demo_obs "r1" bgp4_mib 2 "idle".
Definition demo_ports : SNMPObservation := demo_obs "sw1" if_table 3 "up".

Definition demo_tables (peers : option (list SNMPObservation)) (k : kind) : option (list SNMPObservation) :=
  match k with if_table => Some [demo_ports] | bgp4_mib => peers | _ => Some [] end.

Example failed_kind_lost :
  let start := demo_scan (only bgp4_mib [demo_peer]) (demo_new 400) in
  demo_rules (demo_scan (demo_tables (Some [demo_peer; demo_idle])) start) = [("bgp.flap", "r1")] ∧
  demo_rules (demo_scan (demo_tables (Some [demo_peer; demo_idle])) (demo_scan (demo_tables None) start)) = [].
Proof. by vm_compute. Qed.

(** The replay reads the two newest observations of a kind, not of a target:
    with three filesystems over the threshold and alerted, a restart forgets
    the one polled first and alerts it again. *)
Definition demo_disks : list SNMPObservation :=
  [demo_obs "a" host_resources 1 "full"; demo_obs "b" host_resources 2 "full"; demo_obs "c" host_resources 3 "full"].
Definition demo_polled : list SNMPObservation :=
  [demo_obs "a" host_resources 4 "full"; demo_obs "b" host_resources 5 "full"; demo_obs "c" host_resources 6 "full"].

Definition demo_restart (depth : Z) (p : demo_pipeline) : demo_pipeline :=
  Start (NewObservationPipeline (co_suppress (op_core p)) (co_world (op_core p)) (op_setting p)) depth
    (λ k limit, rows ← only host_resources demo_disks k; Some (List_ ob_ObservedAt rows time_zero limit)).

Example unprimed_target :
  let p := demo_scan (only host_resources demo_disks) (demo_new 400) in
  demo_rules p = [("storage.critical", "c"); ("storage.critical", "b"); ("storage.critical", "a")] ∧
  demo_rules (demo_scan (only host_resources (demo_disks ++ demo_polled)) p) = demo_rules p ∧
  demo_rules (demo_scan (only host_resources (demo_disks ++ demo_polled)) (demo_restart 3 p)) = [] ∧
  demo_rules (demo_scan (only host_resources (demo_disks ++ demo_polled)) (demo_restart 0 p)) = [("storage.critical", "a")].
Proof. by vm_compute. Qed.

(** An operation listed twice, once without a run, reads a missing run when
    the other one alerts. *)
Example sla_panic :
  evaluateIPSLA demo_fingerprint demo_suppression (demo_core, primeOne ip_sla caches_empty (demo_obs "r1" ip_sla 1 "ok"))
    (demo_obs "r1" ip_sla 2 "twice") = None.
Proof. by vm_compute. Qed.
