(* ===== verification/IosConfig.v ===== *)
(** * Predicting an IOS configuration change (src/internal/deviceconfig/ios.go,
    and the screening of typed candidates in cli_push.go)

    IOS has no dry run: what a candidate would change is predicted by folding
    its lines into the sections of the running configuration, and the same
    prediction, made against the device after a push, decides whether the push
    is kept. Texts are bytes. The diff library is an interface: [GetOpCodes]
    and the rendering of a unified diff. *)
From Stdlib Require Import ZArith Lia.
From stdpp Require Import base sets list strings.
From S2P Require Import Prelude GoBase GoText.

(** A configuration line and the lines indented beneath it. *)
Inductive iosNode : Type := Node (line : bytes) (children : list iosNode).
Definition line_of (n : iosNode) : bytes := match n with Node l _ => l end.
Definition children_of (n : iosNode) : list iosNode := match n with Node _ c => c end.

Definition space : Z := 32.
Definition tab : Z := 9.
Definition newline : Z := 10.
Definition bang : bytes := ascii_bytes "!".
Definition end_line : bytes := ascii_bytes "end".
Definition no_prefix : bytes := ascii_bytes "no ".
Definition archive_line : bytes := ascii_bytes "archive".

(** ** Reading and writing sections *)

(** [parseIOS] keeps a stack of pointers to the nodes still open; a frame
    here holds its node with the children so far, and joins its parent's, or
    the roots, when it is popped. *)
Record frame : Type := MkFrame { f_indent : nat; f_line : bytes; f_children : list iosNode }.

Definition pop (stack : list frame) (roots : list iosNode) : list frame * list iosNode :=
  match stack with
  | [] => ([], roots)
  | [f] => ([], roots ++ [Node (f_line f) (f_children f)])
  | f :: g :: rest =>
      (MkFrame (f_indent g) (f_line g) (f_children g ++ [Node (f_line f) (f_children f)]) :: rest, roots)
  end.

(** The frames at [indent] or deeper are popped; [fuel] is their number. *)
Fixpoint pop_while (fuel : nat) (indent : nat) (stack : list frame) (roots : list iosNode)
    : list frame * list iosNode :=
  match fuel, stack with
  | S fuel, f :: _ =>
      if bool_decide (indent ≤ f_indent f)%nat
      then let '(stack, roots) := pop stack roots in pop_while fuel indent stack roots
      else (stack, roots)
  | _, _ => (stack, roots)
  end.

Definition parse_line (raw : bytes) (s : list frame * list iosNode) : list frame * list iosNode :=
  let '(stack, roots) := s in
  let line := TrimRight raw [space; tab] in
  let trimmed := TrimLeft line [space] in
  if bool_decide (trimmed = []) || bool_decide (trimmed = bang) then s
  else
    let indent := (length line - length trimmed)%nat in
    let '(stack, roots) := pop_while (length stack) indent stack roots in
    (MkFrame indent trimmed [] :: stack, roots).

Definition parse_lines (lines : list bytes) (s : list frame * list iosNode) : list frame * list iosNode :=
  foldl (λ s raw, parse_line raw s) s lines.

(** What is still open at the end of the text has its place in the tree. *)
Definition finish (s : list frame * list iosNode) : list iosNode :=
  (pop_while (length s.1) 0 s.1 s.2).2.

Definition parseIOS (text : bytes) : list iosNode :=
  finish (parse_lines (Split (crlf_to_lf text) newline) ([], [])).

Fixpoint walk (depth : nat) (n : iosNode) : bytes :=
  match n with
  | Node line children => repeat space depth ++ line ++ [newline] ++ concat (map (walk (S depth)) children)
  end.
Definition renderIOS (nodes : list iosNode) : bytes := concat (map (walk 0) nodes).

Definition iosHasArchivePath (nodes : list iosNode) : bool :=
  existsb (λ n, bool_decide (line_of n = archive_line) &&
    existsb (λ c, HasPrefix (line_of c) (ascii_bytes "path ")) (children_of n)) nodes.

(** [iosConfigOnly]: a line of "show running-config" that is no configuration. *)
Definition printed_around (trimmed : bytes) : bool :=
  HasPrefix trimmed bang || bool_decide (trimmed = end_line) ||
  bool_decide (trimmed = ascii_bytes "Building configuration...") ||
  HasPrefix trimmed (ascii_bytes "Current configuration :").
Definition iosConfigOnly (text : bytes) : bytes :=
  concat (map (λ line, if printed_around (TrimSpace line) then [] else line ++ [newline])
    (Split (crlf_to_lf text) newline)).

(** ** Folding a candidate in *)

Definition singletons : list bytes := map ascii_bytes
  ["hostname "; "description "; "ip domain-name "; "ip domain name "; "switchport mode ";
   "switchport access vlan "; "switchport trunk native vlan "; "speed "; "duplex "; "mtu "; "enable secret "].
Definition sameSingleton (a b : bytes) : bool :=
  existsb (λ prefix, HasPrefix a prefix && HasPrefix b prefix) singletons.

(** The lines a "no" line removes. *)
Definition negated_by (negated : bytes) (line : bytes) : bool :=
  bool_decide (line = negated) || HasPrefix line (negated ++ [space]).

Definition removeIOS (nodes : list iosNode) (drop : iosNode → bool) : list iosNode :=
  filter (λ n, drop n = false) nodes.

(** Sharing with the running tree does not show in values: [cloneIOS] is the
    identity. *)
Definition cloneIOS (nodes : list iosNode) : list iosNode := nodes.

(** The first sibling that satisfies [p], replaced. *)
Fixpoint replace_first (p : iosNode → bool) (f : iosNode → iosNode) (siblings : list iosNode)
    : option (list iosNode) :=
  match siblings with
  | [] => None
  | n :: rest => if p n then Some (f n :: rest) else cons n <$> replace_first p f rest
  end.

(** The new line at the end, before a final "end". *)
Definition append_line (siblings : list iosNode) (added : iosNode) : list iosNode :=
  match rev siblings with
  | n :: before => if bool_decide (line_of n = end_line) then rev before ++ [added; n] else siblings ++ [added]
  | [] => [added]
  end.

Fixpoint mergeIOSLine (c : iosNode) (siblings : list iosNode) : list iosNode :=
  match c with
  | Node line children =>
      if bool_decide (line = end_line) then siblings
      else
        match CutPrefix line no_prefix with
        | Some negated => removeIOS siblings (λ n, negated_by negated (line_of n))
        | None =>
            match replace_first (λ n, bool_decide (line_of n = line))
                (λ n, Node (line_of n) (foldl (λ s cc, mergeIOSLine cc s) (children_of n) children)) siblings with
            | Some siblings' => siblings'
            | None =>
                match replace_first (λ n, bool_decide (line_of n = no_prefix ++ line) || sameSingleton (line_of n) line)
                    (λ _, Node line children) siblings with
                | Some siblings' => siblings'
                | None => append_line siblings (Node line children)
                end
            end
        end
  end.

Definition mergeIOS (running candidate : list iosNode) : list iosNode :=
  foldl (λ out c, mergeIOSLine c out) (cloneIOS running) candidate.

(** ** The prediction *)

Definition PushMerge : string := "merge".
Definition PushReplace : string := "replace".

Record DryRunResult : Type := MkDryRun { dr_Diff : bytes; dr_Added : Z; dr_Removed : Z }.

(** [difflib]: its opcodes, and the text of a unified diff or its error. *)
Inductive op_tag : Type := OpEqual | OpReplace | OpDelete | OpInsert.
Record OpCode : Type := MkOp { op_Tag : op_tag; op_I1 : Z; op_I2 : Z; op_J1 : Z; op_J2 : Z }.
Class Difflib : Type := {
  SplitLines : bytes → list bytes;
  GetOpCodes : list bytes → list bytes → list OpCode;
  UnifiedDiff : string → list bytes → string → list bytes → option bytes;
}.

(** What the package documents: the opcodes turn the first list into the
    second, and of equal lists they are all "equal". *)
Class DifflibLaws `{!Difflib} : Prop := {
  opcodes_refl a op : op ∈ GetOpCodes a a → op_Tag op = OpEqual;
  opcodes_equal a b : (∀ op, op ∈ GetOpCodes a b → op_Tag op = OpEqual) → a = b;
  opcodes_range a b op : op ∈ GetOpCodes a b →
    op_I1 op ≤ op_I2 op ∧ op_J1 op ≤ op_J2 op ∧
    (op_Tag op = OpReplace → op_I1 op < op_I2 op ∧ op_J1 op < op_J2 op) ∧
    (op_Tag op = OpDelete → op_I1 op < op_I2 op) ∧ (op_Tag op = OpInsert → op_J1 op < op_J2 op);
  split_inj a b : SplitLines a = SplitLines b → a = b;
}.

Inductive predict_error : Type :=
| Refused (reason : string)
| RenderFailed.

Definition dquote : string := String (Ascii.ascii_of_nat 34) EmptyString.
Definition refusal : string :=
  "the revert timer needs an archive path; configure " +:+ dquote +:+ "archive" +:+ dquote +:+ " with " +:+
  dquote +:+ " path flash:seed-archive" +:+ dquote.

Section predict.
Context `{!Difflib}.

Definition count_op (n : Z * Z) (op : OpCode) : Z * Z :=
  let '(added, removed) := n in
  match op_Tag op with
  | OpReplace => (added + (op_J2 op - op_J1 op), removed + (op_I2 op - op_I1 op))
  | OpDelete => (added, removed + (op_I2 op - op_I1 op))
  | OpInsert => (added + (op_J2 op - op_J1 op), removed)
  | OpEqual => n
  end.
Definition countChanges (a b : list bytes) : Z * Z := foldl count_op (0, 0) (GetOpCodes a b).

Definition lineDiff (fromName : string) (from : bytes) (toName : string) (to : bytes)
    : DryRunResult + predict_error :=
  let a := SplitLines from in
  let b := SplitLines to in
  match UnifiedDiff fromName a toName b with
  | None => inr RenderFailed
  | Some text => let '(added, removed) := countChanges a b in inl (MkDryRun text added removed)
  end.

(** [running] is the text of the configuration the device runs. *)
Definition predictIOS (running : bytes) (mode : string) (candidate : bytes) : DryRunResult + predict_error :=
  let tree := parseIOS running in
  if negb (iosHasArchivePath tree) then inr (Refused (refusal +:+ " first"))
  else if bool_decide (mode = PushMerge) then
    lineDiff "running" (renderIOS tree) "predicted" (renderIOS (mergeIOS tree (parseIOS candidate)))
  else
    let next := parseIOS (iosConfigOnly candidate) in
    if negb (iosHasArchivePath next) then inr (Refused (refusal +:+ " in the replacement too"))
    else lineDiff "running" (renderIOS (parseIOS (iosConfigOnly running))) "candidate" (renderIOS next).
End predict.

(** ** What may be typed *)

Definition PlatformCiscoIOS : string := "cisco-ios".
Definition PlatformAristaEOS : string := "arista-eos".

Definition eos_words : list bytes := map ascii_bytes
  ["abort"; "bash"; "clear"; "commit"; "configure"; "copy"; "delete"; "disable"; "do"; "enable"; "end";
   "exit"; "reload"; "rename"; "rollback"; "send"; "terminal"; "write"].
Definition eosSessionControl (word : bytes) : bool := bool_decide (word ∈ eos_words).
Definition iosModeControl (word : bytes) : bool :=
  bool_decide (word ∈ map ascii_bytes ["do"; "end"; "exit"]).

(** [unicode.IsControl] of some rune but the tab: a C0 control or DEL, or a C1
    control, encoded as 194 and a byte below 160. *)
Fixpoint has_control (line : bytes) : bool :=
  match line with
  | [] => false
  | c :: rest =>
      ((c <? 32) && negb (c =? tab)) || (c =? 127) ||
      ((c =? 194) && match rest with d :: _ => (128 <=? d) && (d <? 160) | [] => false end) ||
      has_control rest
  end.

(** [lastIOSLine]: the index of the last line that says something, or -1. *)
Fixpoint last_from (lines : list bytes) (i : Z) : Z :=
  match lines with
  | [] => -1
  | line :: rest =>
      let later := last_from rest (i + 1) in
      if 0 <=? later then later
      else let t := TrimSpace line in if bool_decide (t = []) || bool_decide (t = bang) then -1 else i
  end.
Definition lastIOSLine (lines : list bytes) : Z := last_from lines 0.

Inductive candidate_error : Type :=
| ControlCharacter (line : Z)
| ControlWord (line : Z) (word : bytes).

Fixpoint check_lines (platform : string) (last : Z) (lines : list bytes) (i : Z) : option candidate_error :=
  match lines with
  | [] => None
  | line :: rest =>
      if has_control line then Some (ControlCharacter (i + 1))
      else
        let word := before_sep (TrimSpace line) space in
        let control :=
          if bool_decide (platform = PlatformAristaEOS) then eosSessionControl word
          else if bool_decide (platform = PlatformCiscoIOS)
          then iosModeControl word && (negb (i =? last) || negb (bool_decide (word = end_line)))
          else false in
        if control then Some (ControlWord (i + 1) word) else check_lines platform last rest (i + 1)
  end.

Definition checkCLICandidate (platform : string) (candidate : bytes) : option candidate_error :=
  let lines := Split (crlf_to_lf candidate) newline in
  check_lines platform (lastIOSLine lines) lines 0.

(** [typeCandidate]: the lines it sends, with their numbers. *)
Fixpoint typed_from (last : Z) (lines : list bytes) (i : Z) : list (bytes * Z) :=
  match lines with
  | [] => []
  | line :: rest =>
      let trimmed := TrimSpace line in
      if bool_decide (trimmed = []) || HasPrefix trimmed bang || ((i =? last) && bool_decide (trimmed = end_line))
      then typed_from last rest (i + 1)
      else (TrimRight line [space; tab], i + 1) :: typed_from last rest (i + 1)
  end.
Definition typed (candidate : bytes) : list (bytes * Z) :=
  let lines := Split (crlf_to_lf candidate) newline in typed_from (lastIOSLine lines) lines 0.

(** [deviceDiff]: the changes a device's own diff counts. *)
Definition count_diff_line (n : Z * Z) (line : bytes) : Z * Z :=
  let '(added, removed) := n in
  if HasPrefix line (ascii_bytes "+++ ") || HasPrefix line (ascii_bytes "--- ") then n
  else if HasPrefix line (ascii_bytes "+") then (added + 1, removed)
  else if HasPrefix line (ascii_bytes "-") then (added, removed + 1)
  else n.
Definition deviceDiff (diff : bytes) : DryRunResult :=
  let '(added, removed) := foldl count_diff_line (0, 0) (Split diff newline) in MkDryRun diff added removed.


(** ** Trees *)

(** Induction over a node and its children. *)
Section node_ind.
Context (P : iosNode → Prop) (H : ∀ l cs, Forall P cs → P (Node l cs)).
Fixpoint iosNode_nested (n : iosNode) : P n :=
  match n with
  | Node l cs =>
      H l cs ((fix go cs : Forall P cs :=
        match cs with [] => Forall_nil_2 P | c :: cs => Forall_cons_2 P c cs (iosNode_nested c) (go cs) end) cs)
  end.
End node_ind.

(** A line as [parseIOS] keeps it. *)
Definition wf_line (l : bytes) : bool :=
  negb (bool_decide (l = [])) && negb (bool_decide (l = bang)) &&
  match l with [] => false | c :: _ => negb (c =? space) end &&
  match rev l with [] => false | c :: _ => negb (c =? space) && negb (c =? tab) end &&
  bool_decide (newline ∉ l) && bool_decide (13 ∉ l).
Fixpoint wf_node (n : iosNode) : bool :=
  match n with Node l cs => wf_line l && forallb wf_node cs end.
Definition wf_forest (ns : list iosNode) : bool := forallb wf_node ns.

(** *** Splitting into lines *)

Lemma Split_nil sep : Split [] sep = [[]].
Proof. done. Qed.

Lemma Split_app_sep l s sep : sep ∉ l → Split (l ++ sep :: s) sep = l :: Split s sep.
Proof.
  induction l as [|c l IH]; cbn; intros Hn; [by rewrite Z.eqb_refl|].
  apply not_elem_of_cons in Hn as [Hc Hl]. rewrite (proj2 (Z.eqb_neq c sep)) by done. by rewrite IH.
Qed.

Lemma Split_no_sep s sep l : l ∈ Split s sep → sep ∉ l.
Proof.
  revert l. induction s as [|c s IH]; cbn; intros l.
  - intros ->%list_elem_of_singleton. apply not_elem_of_nil.
  - destruct (Z.eqb_spec c sep) as [->|Hc].
    + intros [->|Hl]%elem_of_cons; [apply not_elem_of_nil|by apply IH].
    + destruct (Split s sep) as [|l' ls]; intros [->|Hl]%elem_of_cons.
      * intros ->%list_elem_of_singleton. done.
      * by apply elem_of_nil in Hl.
      * rewrite not_elem_of_cons. split; [done|]. apply IH. by left.
      * apply IH. by right.
Qed.

Lemma Split_sub s sep l c : l ∈ Split s sep → c ∈ l → c ∈ s.
Proof.
  revert l. induction s as [|x s IH]; cbn; intros l.
  - by intros ->%list_elem_of_singleton.
  - destruct (Z.eqb_spec x sep) as [->|Hx].
    + intros [->|Hl]%elem_of_cons Hc; [by apply elem_of_nil in Hc|]. right. by eapply IH.
    + destruct (Split s sep) as [|l' ls]; intros [->|Hl]%elem_of_cons Hc.
      * apply list_elem_of_singleton in Hc as ->. left.
      * by apply elem_of_nil in Hl.
      * apply elem_of_cons in Hc as [->|Hc]; [left|]. right. eapply IH; [by left|done].
      * right. eapply IH; [by right|done].
Qed.

Lemma crlf_to_lf_id s : 13 ∉ s → crlf_to_lf s = s.
Proof.
  induction s as [|c s IH]; [done|]. intros [Hc Hs]%not_elem_of_cons. specialize (IH Hs). cbn.
  destruct s as [|d s]; [done|]. rewrite (proj2 (Z.eqb_neq c 13)) by done. cbn [andb]. by rewrite IH.
Qed.

(** *** Trimming *)

Lemma elem_of_rev {A} (l : list A) x : x ∈ rev l ↔ x ∈ l.
Proof. by rewrite !list_elem_of_In, <-in_rev. Qed.

Lemma TrimLeft_suffix s cut : ∃ p, s = p ++ TrimLeft s cut ∧ Forall (λ c, c ∈ cut) p.
Proof.
  induction s as [|c s IH]; cbn; [by exists []|]. case_bool_decide as Hc; [|by exists []].
  destruct IH as (p & E & Hp). exists (c :: p). split; [cbn; by f_equal|by constructor].
Qed.

Lemma TrimLeft_head s cut c rest : TrimLeft s cut = c :: rest → c ∉ cut.
Proof. induction s as [|x s IH]; cbn; [done|]. case_bool_decide; [done|]. by intros [= -> ->]. Qed.

Lemma TrimLeft_id c s cut : c ∉ cut → TrimLeft (c :: s) cut = c :: s.
Proof. intros Hc. cbn. by rewrite bool_decide_eq_false_2. Qed.

Lemma TrimLeft_cut p s cut : Forall (λ c, c ∈ cut) p → TrimLeft (p ++ s) cut = TrimLeft s cut.
Proof. induction 1; cbn; [done|]. by rewrite bool_decide_eq_true_2. Qed.

Lemma TrimRight_sub s cut c : c ∈ TrimRight s cut → c ∈ s.
Proof.
  unfold TrimRight. destruct (TrimLeft_suffix (rev s) cut) as (p & E & _).
  rewrite elem_of_rev. intros Hc. rewrite <-elem_of_rev, E. set_solver.
Qed.

Lemma TrimRight_last s cut c rest : rev (TrimRight s cut) = c :: rest → c ∉ cut.
Proof. unfold TrimRight. rewrite rev_involutive. apply TrimLeft_head. Qed.

Lemma wf_line_spec l :
  wf_line l = true ↔ l ≠ [] ∧ l ≠ bang ∧ head l ≠ Some space ∧ last l ≠ Some space ∧ last l ≠ Some tab ∧
    newline ∉ l ∧ 13 ∉ l.
Proof.
  unfold wf_line. rewrite !andb_true_iff, !negb_true_iff, !bool_decide_eq_true, !bool_decide_eq_false.
  destruct l as [|c l]; [naive_solver|]. cbn [head].
  assert (∃ d l', rev (c :: l) = d :: l' ∧ last (c :: l) = Some d) as (d & l' & -> & ->).
  { destruct (rev (c :: l)) as [|d l'] eqn:E.
    - apply (f_equal length) in E. rewrite length_rev in E. done.
    - exists d, l'. split; [done|]. apply (f_equal (@rev Z)) in E. rewrite rev_involutive in E. rewrite E. cbn. by rewrite last_snoc. }
  rewrite andb_true_iff, !negb_true_iff, !Z.eqb_neq. naive_solver.
Qed.

(** *** The lines of a rendered tree *)

Fixpoint lines_of (d : nat) (n : iosNode) : list bytes :=
  match n with Node l cs => (repeat space d ++ l) :: concat (map (lines_of (S d)) cs) end.
Definition join (ls : list bytes) : bytes := concat (map (λ l, l ++ [newline]) ls).

#[local] Arguments join : simpl never.

Lemma join_app l1 l2 : join (l1 ++ l2) = join l1 ++ join l2.
Proof. unfold join. by rewrite map_app, concat_app. Qed.

Lemma join_concat lss : join (concat lss) = concat (map join lss).
Proof. induction lss as [|ls lss IH]; [done|]. cbn. by rewrite join_app, IH. Qed.

Lemma walk_lines n : ∀ d, walk d n = join (lines_of d n).
Proof.
  induction n as [l cs IH] using iosNode_nested. intros d. cbn [walk lines_of].
  change (join ((repeat space d ++ l) :: concat (map (lines_of (S d)) cs))) with
    (((repeat space d ++ l) ++ [newline]) ++ join (concat (map (lines_of (S d)) cs))).
  rewrite join_concat, map_map, <-!(assoc_L (++)). do 3 f_equal.
  induction IH as [|c cs Hc _ IHcs]; [done|]. cbn. by rewrite Hc, IHcs.
Qed.

Lemma render_lines ns : renderIOS ns = join (concat (map (lines_of 0) ns)).
Proof.
  unfold renderIOS. rewrite join_concat, map_map. induction ns as [|n ns IH]; [done|]. cbn. by rewrite walk_lines, IH.
Qed.

Lemma Split_join ls : Forall (λ l, newline ∉ l) ls → Split (join ls) newline = ls ++ [[]].
Proof.
  induction 1 as [|l ls Hl _ IH]; [done|]. change (join (l :: ls)) with ((l ++ [newline]) ++ join ls).
  rewrite <-(assoc_L (++)). cbn [app]. rewrite Split_app_sep by done. by rewrite IH.
Qed.

Lemma elem_of_repeat (x y : Z) d : y ∈ repeat x d → y = x.
Proof. induction d as [|d IH]; cbn; [by intros ?%elem_of_nil|]. by intros [->|?%IH]%elem_of_cons. Qed.

(** No byte of a tree's text ends a line but the newlines written. *)
Lemma lines_of_clean n : wf_node n = true → ∀ d l c, l ∈ lines_of d n → c ∈ l → c ≠ newline ∧ c ≠ 13.
Proof.
  induction n as [l cs IH] using iosNode_nested. cbn [wf_node]. intros [Hl Hcs]%andb_true_iff d l' c. cbn [lines_of].
  rewrite elem_of_cons. intros [->|Hin] Hc.
  - apply wf_line_spec in Hl as (_ & _ & _ & _ & _ & H1 & H2). apply elem_of_app in Hc as [->%elem_of_repeat|Hc]; [done|].
    split; intros ->; done.
  - apply list_elem_of_In, in_concat in Hin as (ls & Hls & Hin). apply in_map_iff in Hls as (n & <- & Hn).
    rewrite list.Forall_forall in IH. rewrite forallb_forall in Hcs. apply list_elem_of_In in Hin.
    eapply (IH n); [by apply list_elem_of_In|by apply Hcs|done|done].
Qed.

(** *** The stack *)

(** A finished node joins what is open. *)
Definition attach (s : list frame * list iosNode) (n : iosNode) : list frame * list iosNode :=
  match s.1 with
  | [] => ([], s.2 ++ [n])
  | f :: rest => (MkFrame (f_indent f) (f_line f) (f_children f ++ [n]) :: rest, s.2)
  end.

Definition popd (d : nat) (s : list frame * list iosNode) : list frame * list iosNode :=
  pop_while (length s.1) d s.1 s.2.

Lemma pop_attach f st ro : pop (f :: st) ro = attach (st, ro) (Node (f_line f) (f_children f)).
Proof. by destruct st. Qed.

Lemma attach_length s n : length (attach s n).1 = length s.1.
Proof. unfold attach. by destruct s.1. Qed.

Lemma popd_nil d ro : popd d ([], ro) = ([], ro).
Proof. done. Qed.

Lemma popd_cons d f st ro :
  popd d (f :: st, ro) =
  if bool_decide (d ≤ f_indent f)%nat then popd d (attach (st, ro) (Node (f_line f) (f_children f))) else (f :: st, ro).
Proof.
  unfold popd at 1. cbn [fst snd length pop_while]. case_bool_decide; [|done].
  pose proof (pop_attach f st ro) as E. destruct (pop (f :: st) ro) as [st' ro'].
  unfold popd. rewrite <-E. cbn [fst snd]. f_equal.
  pose proof (attach_length (st, ro) (Node (f_line f) (f_children f))) as Hl. rewrite <-E in Hl. cbn in Hl. by rewrite Hl.
Qed.

Lemma popd_popd d d' s : (d ≤ d')%nat → popd d (popd d' s) = popd d s.
Proof.
  intros Hd. destruct s as [st ro]. remember (length st) as n eqn:En. revert st ro En.
  induction n as [|n IH]; intros [|f st] ro En; try done.
  rewrite (popd_cons d' f). case_bool_decide; [|done].
  rewrite (popd_cons d f). rewrite bool_decide_eq_true_2 by lia.
  destruct (attach (st, ro) (Node (f_line f) (f_children f))) as [st' ro'] eqn:Ea.
  apply IH. pose proof (attach_length (st, ro) (Node (f_line f) (f_children f))) as Hl. rewrite Ea in Hl. cbn in *. lia.
Qed.

(** Nothing open is as deep as [d]. *)
Definition shallow (d : nat) (s : list frame * list iosNode) : Prop :=
  match s.1 with [] => True | f :: _ => (f_indent f < d)%nat end.

Lemma popd_shallow d s : shallow d s → popd d s = s.
Proof.
  destruct s as [ [|f st] ro]; [done|]. unfold shallow. cbn [fst]. intros. rewrite popd_cons.
  by rewrite bool_decide_eq_false_2 by lia.
Qed.

Lemma shallow_popd d s : shallow d (popd d s).
Proof.
  destruct s as [st ro]. remember (length st) as n eqn:En. revert st ro En.
  induction n as [|n IH]; intros [|f st] ro En; try done.
  rewrite popd_cons. case_bool_decide; [|unfold shallow; cbn; lia].
  destruct (attach (st, ro) (Node (f_line f) (f_children f))) as [st' ro'] eqn:Ea.
  apply IH. pose proof (attach_length (st, ro) (Node (f_line f) (f_children f))) as Hl. rewrite Ea in Hl. cbn in *. lia.
Qed.

(** *** Reading a rendered tree *)

Lemma parse_rendered_line d l s :
  wf_line l = true → parse_line (repeat space d ++ l) s = (MkFrame d l [] :: (popd d s).1, (popd d s).2).
Proof.
  intros Hl. pose proof Hl as (Hne & Hb & Hh & Hs & Ht & _ & _)%wf_line_spec.
  destruct s as [st ro]. unfold parse_line.
  assert (TrimRight (repeat space d ++ l) [space; tab] = repeat space d ++ l) as ->.
  { unfold TrimRight. rewrite rev_app_distr. destruct (rev l) as [|c rl] eqn:Er.
    - apply (f_equal length) in Er. rewrite length_rev in Er. by destruct l.
    - cbn [app]. rewrite TrimLeft_id.
      + change (c :: rl ++ rev (repeat space d)) with ((c :: rl) ++ rev (repeat space d)). rewrite <-Er, <-rev_app_distr. apply rev_involutive.
      + apply (f_equal (@rev Z)) in Er. rewrite rev_involutive in Er. cbn in Er. subst l.
        rewrite last_snoc in Hs, Ht. rewrite !not_elem_of_cons. split_and!; [congruence|congruence|apply not_elem_of_nil]. }
  assert (TrimLeft (repeat space d ++ l) [space] = l) as ->.
  { rewrite TrimLeft_cut.
    - destruct l as [|c l]; [done|]. apply TrimLeft_id. cbn in Hh. rewrite list_elem_of_singleton. congruence.
    - apply list.Forall_forall. intros c ->%elem_of_repeat. left. }
  rewrite !bool_decide_eq_false_2 by done. cbn [orb].
  rewrite length_app, repeat_length. replace (d + length l - length l)%nat with d by lia.
  unfold popd. cbn [fst snd]. by destruct (pop_while (length st) d st ro).
Qed.

Lemma parse_lines_app l1 l2 s : parse_lines (l1 ++ l2) s = parse_lines l2 (parse_lines l1 s).
Proof. apply foldl_app. Qed.

Lemma parse_forest d ns s :
  Forall (λ n, ∀ s, popd d (parse_lines (lines_of d n) s) = attach (popd d s) n) ns →
  popd d (parse_lines (concat (map (lines_of d) ns)) s) = foldl attach (popd d s) ns.
Proof.
  intros H. revert s. induction H as [|n ns Hn _ IH]; intros s; [done|]. cbn [map concat foldl].
  by rewrite parse_lines_app, IH, Hn.
Qed.

Lemma foldl_attach_frame d l cs st ro done_ :
  foldl attach (MkFrame d l done_ :: st, ro) cs = (MkFrame d l (done_ ++ cs) :: st, ro).
Proof.
  revert done_. induction cs as [|c cs IH]; intros done_; cbn; [by rewrite app_nil_r|].
  change (attach (MkFrame d l done_ :: st, ro) c) with (MkFrame d l (done_ ++ [c]) :: st, ro).
  by rewrite IH, <-(assoc_L (++)).
Qed.

Lemma foldl_attach_roots ns ro : foldl attach ([], ro) ns = ([], ro ++ ns).
Proof.
  revert ro. induction ns as [|n ns IH]; intros ro; cbn; [by rewrite app_nil_r|].
  change (attach ([], ro) n) with (@nil frame, ro ++ [n]). by rewrite IH, <-(assoc_L (++)).
Qed.

(** The lines of a node, read, put the node in its place. *)
Lemma parse_node n : wf_node n = true → ∀ d s,
  popd d (parse_lines (lines_of d n) s) = attach (popd d s) n.
Proof.
  induction n as [l cs IH] using iosNode_nested. cbn [wf_node]. intros [Hl Hcs]%andb_true_iff d s. cbn [lines_of].
  change (parse_lines ((repeat space d ++ l) :: concat (map (lines_of (S d)) cs)) s) with
    (parse_lines (concat (map (lines_of (S d)) cs)) (parse_line (repeat space d ++ l) s)).
  rewrite parse_rendered_line by done. pose proof (shallow_popd d s) as Hsh. destruct (popd d s) as [st ro].
  cbn [fst snd]. rewrite <-(popd_popd d (S d)) by lia. rewrite parse_forest.
  - rewrite (popd_shallow (S d)) by (unfold shallow; cbn; lia). rewrite foldl_attach_frame.
    rewrite popd_cons. cbn [f_indent]. rewrite bool_decide_eq_true_2 by lia. cbn [f_line f_children app].
    apply popd_shallow. unfold shallow, attach in *. by destruct st.
  - rewrite list.Forall_forall in *. intros c Hc s'. apply IH; [done|].
    rewrite forallb_forall in Hcs. apply Hcs. by apply list_elem_of_In.
Qed.

(** A well-formed tree reads back as it was written. *)
Theorem parse_render ns : wf_forest ns = true → parseIOS (renderIOS ns) = ns.
Proof.
  intros Hns. unfold wf_forest in Hns. rewrite forallb_forall in Hns.
  assert (∀ l c, l ∈ concat (map (lines_of 0) ns) → c ∈ l → c ≠ newline ∧ c ≠ 13) as Hclean.
  { intros l c Hl Hc. apply list_elem_of_In, in_concat in Hl as (ls & Hls & Hin).
    apply in_map_iff in Hls as (n & <- & Hn). apply list_elem_of_In in Hin.
    eapply (lines_of_clean n); [by apply Hns|done|done]. }
  unfold parseIOS. rewrite render_lines.
  assert (13 ∉ join (concat (map (lines_of 0) ns))) as H13.
  { unfold join. intros Hc. apply list_elem_of_In, in_concat in Hc as (l & Hl & Hc).
    apply in_map_iff in Hl as (l' & <- & Hl'). apply list_elem_of_In, elem_of_app in Hc as [Hc|Hc].
    - apply list_elem_of_In in Hl'. by destruct (Hclean l' 13 Hl' Hc).
    - by apply list_elem_of_singleton in Hc. }
  rewrite crlf_to_lf_id by done. rewrite Split_join.
  2:{ apply list.Forall_forall. intros l Hl Hc. by destruct (Hclean l newline Hl Hc). }
  rewrite parse_lines_app. unfold finish.
  assert (∀ s, parse_lines [[]] s = s) as -> by (by intros [st ro]).
  fold (popd 0 (parse_lines (concat (map (lines_of 0) ns)) ([], []))).
  rewrite parse_forest.
  - rewrite popd_nil. by rewrite foldl_attach_roots.
  - apply list.Forall_forall. intros n Hn s. apply parse_node. apply Hns. by apply list_elem_of_In.
Qed.

(** What is read is well-formed, if no line holds a carriage return. *)
Definition frames_ok (s : list frame * list iosNode) : Prop :=
  Forall (λ f, wf_line (f_line f) = true ∧ wf_forest (f_children f) = true) s.1 ∧ wf_forest s.2 = true.

Lemma wf_forest_snoc ns n : wf_forest (ns ++ [n]) = wf_forest ns && wf_node n.
Proof. unfold wf_forest. rewrite forallb_app. cbn. by rewrite andb_true_r. Qed.

Lemma attach_ok s n : frames_ok s → wf_node n = true → frames_ok (attach s n).
Proof.
  unfold frames_ok, attach. destruct s as [ [|f st] ro]; cbn [fst snd f_line f_children].
  - intros [_ Hr] Hn. split; [constructor|]. by rewrite wf_forest_snoc, Hr, Hn.
  - intros [ [ [H1 H2] Hf]%Forall_cons Hr] Hn. split; [|done]. constructor; [|done]. split; [done|].
    cbn. by rewrite wf_forest_snoc, H2, Hn.
Qed.

Lemma popd_ok d s : frames_ok s → frames_ok (popd d s).
Proof.
  destruct s as [st ro]. remember (length st) as n eqn:En. revert st ro En.
  induction n as [|n IH]; intros [|f st] ro En Hs; try done.
  rewrite popd_cons. case_bool_decide; [|done].
  assert (frames_ok (attach (st, ro) (Node (f_line f) (f_children f)))) as Ha.
  { destruct Hs as [ [ [H1 H2] Hf]%Forall_cons Hr]. apply attach_ok; [by split|]. cbn. by rewrite H1. }
  pose proof (attach_length (st, ro) (Node (f_line f) (f_children f))) as Hl.
  destruct (attach (st, ro) (Node (f_line f) (f_children f))) as [st' ro']. apply IH; [cbn in *; lia|done].
Qed.

Lemma parse_line_ok raw s : newline ∉ raw → 13 ∉ raw → frames_ok s → frames_ok (parse_line raw s).
Proof.
  intros Hn Hr Hs. destruct s as [st ro]. unfold parse_line.
  set (line := TrimRight raw [space; tab]). set (trimmed := TrimLeft line [space]).
  case_bool_decide as H1; [done|]. case_bool_decide as H2; [done|]. cbn [orb].
  pose proof (popd_ok (length line - length trimmed) (st, ro) Hs) as Hp. unfold popd in Hp. cbn [fst snd] in Hp.
  destruct (pop_while (length st) (length line - length trimmed) st ro) as [st' ro']. destruct Hp as [Hf Hro].
  split; cbn in *; [|done]. constructor; [|done]. split; [|done]. cbn. apply wf_line_spec.
  destruct (TrimLeft_suffix line [space]) as (p & E & _). fold trimmed in E.
  assert (∀ c, c ∈ trimmed → c ∈ raw) as Hsub.
  { intros c Hc. apply (TrimRight_sub raw [space; tab]). fold line. rewrite E. set_solver. }
  assert (∀ c, last trimmed = Some c → c ∉ [space; tab]) as Hlast.
  { intros c Hc. apply last_Some in Hc as [l' Hl'].
    eapply (TrimRight_last raw _ c (rev (p ++ l'))). fold line. rewrite E, Hl', (assoc_L (++)). apply rev_unit. }
  split_and!; [done|done|..].
  - intros Hh. destruct trimmed as [|c rest] eqn:Et; [done|]. injection Hh as ->.
    apply (TrimLeft_head line [space] space rest) in Et. apply Et. left.
  - intros Hc%Hlast. apply Hc. left.
  - intros Hc%Hlast. apply Hc. right. left.
  - auto.
  - auto.
Qed.

Lemma parse_wf text : 13 ∉ crlf_to_lf text → wf_forest (parseIOS text) = true.
Proof.
  intros H13. unfold parseIOS, finish.
  assert (∀ ls s, Forall (λ l, newline ∉ l ∧ 13 ∉ l) ls → frames_ok s → frames_ok (parse_lines ls s)) as Hall.
  { intros ls s HF. revert s. induction HF as [|l ls [H1 H2] _ IH]; intros s Hs; [done|].
    apply IH. by apply parse_line_ok. }
  assert (frames_ok (parse_lines (Split (crlf_to_lf text) newline) ([], []))) as Hs.
  { apply Hall; [|by split; [constructor|]]. apply list.Forall_forall. intros l Hl. split; [by eapply Split_no_sep|].
    intros Hc. apply H13. by eapply Split_sub. }
  by apply (popd_ok 0) in Hs as [_ Hs].
Qed.
(** *** Folding a candidate in, once and again *)

Definition merge_all (siblings candidate : list iosNode) : list iosNode :=
  foldl (λ s c, mergeIOSLine c s) siblings candidate.

Lemma mergeIOS_all r c : mergeIOS r c = merge_all r c.
Proof. done. Qed.

(** The children of the first sibling with a line. *)
Fixpoint first_children (l : bytes) (s : list iosNode) : option (list iosNode) :=
  match s with
  | [] => None
  | n :: rest => if bool_decide (line_of n = l) then Some (children_of n) else first_children l rest
  end.

(** The configuration already says what the candidate line asks. *)
Definition held (c : iosNode) (s : list iosNode) : Prop :=
  line_of c = end_line ∨
  match CutPrefix (line_of c) no_prefix with
  | Some x => ∀ n, n ∈ s → negated_by x (line_of n) = false
  | None => ∃ ch, first_children (line_of c) s = Some ch ∧ merge_all ch (children_of c) = ch
  end.

(** Entering [l'] can undo what [l] asks. *)
Definition disturbs (l' l : bytes) : bool :=
  negb (bool_decide (l = end_line)) &&
  match CutPrefix l no_prefix, CutPrefix l' no_prefix with
  | Some x, _ => negated_by x l'
  | None, Some y => negated_by y l
  | None, None => bool_decide (l = l') || sameSingleton l l'
  end.
Definition apart (a b : iosNode) : bool :=
  negb (disturbs (line_of a) (line_of b)) && negb (disturbs (line_of b) (line_of a)).

Fixpoint pairwise {A} (p : A → A → bool) (l : list A) : bool :=
  match l with [] => true | x :: rest => forallb (p x) rest && pairwise p rest end.

(** A candidate whose lines, in each section, do not undo one another. *)
Definition own (l : bytes) : bool :=
  match CutPrefix l no_prefix with Some x => negb (negated_by x l) | None => true end.
Fixpoint indep_node (n : iosNode) : bool :=
  match n with Node l cs => own l && forallb indep_node cs && pairwise apart cs end.
Definition independent (ns : list iosNode) : bool := forallb indep_node ns && pairwise apart ns.

Lemma pairwise_split {A} (p : A → A → bool) l1 x l2 :
  pairwise p (l1 ++ x :: l2) = true → (∀ y, y ∈ l1 → p y x = true) ∧ (∀ y, y ∈ l2 → p x y = true).
Proof.
  induction l1 as [|z l1 IH]; cbn; intros [H1 H2]%andb_true_iff.
  - split; [by intros y ?%elem_of_nil|]. intros y Hy. rewrite forallb_forall in H1. by apply H1, list_elem_of_In.
  - destruct (IH H2) as [Ha Hb]. split; [|done]. intros y [->|Hy]%elem_of_cons; [|auto].
    rewrite forallb_forall in H1. apply H1, in_or_app. right. by left.
Qed.

Lemma replace_first_Some p f s s' : replace_first p f s = Some s' →
  ∃ a n b, s = a ++ n :: b ∧ Forall (λ m, p m = false) a ∧ p n = true ∧ s' = a ++ f n :: b.
Proof.
  revert s'. induction s as [|m s IH]; intros s'; cbn; [done|]. destruct (p m) eqn:Ep.
  - intros [= <-]. exists [], m, s. done.
  - intros (t & Ht & ->)%fmap_Some. destruct (IH t Ht) as (a & n & b & -> & Ha & Hn & ->).
    exists (m :: a), n, b. split_and!; try done. by constructor.
Qed.

Lemma replace_first_None p f s : replace_first p f s = None → Forall (λ m, p m = false) s.
Proof.
  induction s as [|m s IH]; cbn; [by constructor|]. destruct (p m) eqn:Ep; [done|].
  intros ?%fmap_None. constructor; auto.
Qed.

Lemma append_line_split s n : ∃ a b, append_line s n = a ++ n :: b ∧ s = a ++ b ∧ Forall (λ m, line_of m = end_line) b.
Proof.
  unfold append_line. destruct (rev s) as [|m before] eqn:Er.
  - exists [], []. apply (f_equal (@rev iosNode)) in Er. rewrite rev_involutive in Er. by rewrite Er.
  - apply (f_equal (@rev iosNode)) in Er. rewrite rev_involutive in Er. cbn in Er. case_bool_decide as Hm.
    + exists (rev before), [m]. split_and!; [done|done|]. by repeat constructor.
    + exists s, []. split_and!; [done|by rewrite app_nil_r|constructor].
Qed.

Lemma first_children_app l a b : first_children l (a ++ b) =
  match first_children l a with Some ch => Some ch | None => first_children l b end.
Proof. induction a as [|n a IH]; cbn; [done|]. by case_bool_decide. Qed.

Lemma first_children_none l s : Forall (λ n, line_of n ≠ l) s → first_children l s = None.
Proof. induction 1; cbn; [done|]. by rewrite bool_decide_eq_false_2. Qed.

Lemma first_children_hit l a n b : Forall (λ n, line_of n ≠ l) a → line_of n = l →
  first_children l (a ++ n :: b) = Some (children_of n).
Proof. intros Ha Hn. rewrite first_children_app, first_children_none by done. cbn. by rewrite bool_decide_eq_true_2. Qed.

(** A positive line enters one place: a sibling with its line, one it takes
    the place of, or a new one. *)
Lemma merge_positive l cs s : l ≠ end_line → CutPrefix l no_prefix = None →
  ∃ a b, (∃ m, s = a ++ m :: b ∧ line_of m = l ∧ Forall (λ n, line_of n ≠ l) a ∧
              mergeIOSLine (Node l cs) s = a ++ Node l (merge_all (children_of m) cs) :: b) ∨
         (Forall (λ n, line_of n ≠ l) s ∧ mergeIOSLine (Node l cs) s = a ++ Node l cs :: b ∧
           ((∃ m, s = a ++ m :: b ∧ (line_of m = no_prefix ++ l ∨ sameSingleton (line_of m) l = true)) ∨
            (s = a ++ b ∧ Forall (λ m, line_of m = end_line) b))).
Proof.
  intros He Hn. cbn [mergeIOSLine]. rewrite bool_decide_eq_false_2, Hn by done.
  destruct (replace_first _ _ s) as [s'|] eqn:E1.
  - apply replace_first_Some in E1 as (a & m & b & -> & Ha & Hm & ->). apply bool_decide_eq_true in Hm.
    exists a, b. left. exists m. split_and!; [done|done| |by rewrite Hm].
    eapply Forall_impl; [exact Ha|]. cbn. intros x. by rewrite bool_decide_eq_false.
  - apply replace_first_None in E1. assert (Forall (λ n, line_of n ≠ l) s) as Hs.
    { eapply Forall_impl; [exact E1|]. cbn. intros x. by rewrite bool_decide_eq_false. }
    destruct (replace_first _ _ s) as [s'|] eqn:E2.
    + apply replace_first_Some in E2 as (a & m & b & -> & Ha & Hm & ->). exists a, b. right. split_and!; [done|done|].
      left. exists m. split; [done|]. apply orb_true_iff in Hm as [Hm%bool_decide_eq_true|Hm]; auto.
    + destruct (append_line_split s (Node l cs)) as (a & b & -> & Hs' & Hb). exists a, b. right. auto.
Qed.

Lemma sameSingleton_comm a b : sameSingleton a b = sameSingleton b a.
Proof. unfold sameSingleton. induction singletons as [|p ps IH]; cbn; [done|]. by rewrite IH, andb_comm. Qed.

Lemma disturbs_end l' l : l = end_line → disturbs l' l = false.
Proof. intros ->. done. Qed.

Lemma CutPrefix_no_app l : CutPrefix (no_prefix ++ l) no_prefix = Some l.
Proof. done. Qed.

Lemma filter_all {A} (P : A → Prop) `{!∀ x, Decision (P x)} (l : list A) : Forall P l → filter P l = l.
Proof. induction 1; [done|]. by rewrite filter_cons_True, IHForall. Qed.

(** What is held is not changed by entering it. *)
Lemma held_merge c s : held c s → mergeIOSLine c s = s.
Proof.
  destruct c as [l cs]. unfold held. cbn [line_of children_of mergeIOSLine]. intros [->|H]; [done|].
  case_bool_decide; [done|]. destruct (CutPrefix l no_prefix) as [x|].
  - unfold removeIOS. apply filter_all. apply list.Forall_forall. auto.
  - destruct H as (ch & Hch & Hm). revert Hch. fold (merge_all).
    assert (first_children l s = Some ch →
      replace_first (λ n, bool_decide (line_of n = l)) (λ n, Node (line_of n) (merge_all (children_of n) cs)) s = Some s) as Hr.
    { induction s as [|n s IH]; cbn; [done|]. case_bool_decide as Hl; intros Hc.
      - injection Hc as <-. rewrite Hm. by destruct n.
      - by rewrite IH. }
    intros Hc. specialize (Hr Hc). unfold merge_all in Hr. by rewrite Hr.
Qed.

(** A line that does not disturb it keeps it held. *)
Lemma held_kept c c' s : disturbs (line_of c') (line_of c) = false → held c s → held c (mergeIOSLine c' s).
Proof.
  destruct c as [l cs], c' as [l' cs']. cbn [line_of]. unfold held. cbn [line_of children_of].
  intros Hd [?|H]; [by left|]. destruct (decide (l = end_line)) as [|Hle]; [by left|]. right.
  destruct (decide (l' = end_line)) as [->|Hle']; [done|].
  unfold disturbs in Hd. rewrite bool_decide_eq_false_2 in Hd by done. cbn [negb andb] in Hd.
  destruct (CutPrefix l' no_prefix) as [y|] eqn:Ey.
  - cbn [mergeIOSLine]. rewrite bool_decide_eq_false_2, Ey by done. unfold removeIOS.
    destruct (CutPrefix l no_prefix) as [x|].
    + intros n [_ Hn]%list_elem_of_filter. auto.
    + destruct H as (ch & Hch & Hm). exists ch. split; [|done]. clear Hm.
      induction s as [|n s IH]; cbn in Hch; [done|]. case_bool_decide as Hl.
      * rewrite filter_cons_True by (by rewrite Hl). cbn. by rewrite bool_decide_eq_true_2.
      * specialize (IH Hch). rewrite filter_cons. case_decide; [|done]. cbn. by rewrite bool_decide_eq_false_2.
  - destruct (merge_positive l' cs' s Hle' Ey) as (a & b & [(m & -> & Hm & Ha & ->)|(Hs & -> & Hab)]).
    + destruct (CutPrefix l no_prefix) as [x|].
      * intros n [Hin|[->|Hin]%elem_of_cons]%elem_of_app; [apply H; set_solver|done|apply H; set_solver].
      * apply orb_false_iff in Hd as [Hd%bool_decide_eq_false _]. destruct H as (ch & Hch & Hme). exists ch. split; [|done].
        rewrite first_children_app in *. destruct (first_children l a); [done|]. cbn in *.
        rewrite Hm in Hch. by rewrite bool_decide_eq_false_2 in * by done.
    + destruct (CutPrefix l no_prefix) as [x|] eqn:Ex.
      * intros n [Hin|[->|Hin]%elem_of_cons]%elem_of_app; [|done|];
          apply H; destruct Hab as [(m & -> & _)|[-> _] ]; set_solver.
      * apply orb_false_iff in Hd as [Hd%bool_decide_eq_false Hss]. destruct H as (ch & Hch & Hme). exists ch. split; [|done].
        assert (first_children l (a ++ Node l' cs' :: b) = first_children l (a ++ b)) as ->.
        { rewrite !first_children_app. cbn. rewrite bool_decide_eq_false_2 by done. done. }
        destruct Hab as [(m & -> & Hm)|[-> _] ]; [|done]. rewrite first_children_app in *.
        destruct (first_children l a); [done|]. cbn in Hch. rewrite bool_decide_eq_false_2 in Hch; [done|].
        intros E. destruct Hm as [Hm|Hm].
        -- rewrite E in Hm. subst l. by rewrite CutPrefix_no_app in Ex.
        -- rewrite E in Hm. congruence.
Qed.

Lemma held_kept_all c s cs : (∀ c', c' ∈ cs → disturbs (line_of c') (line_of c) = false) → held c s → held c (merge_all s cs).
Proof.
  revert s. induction cs as [|c' cs IH]; intros s Hd Hh; [done|]. apply IH; [intros; apply Hd; by right|].
  apply held_kept; [apply Hd; left|done].
Qed.

Lemma held_all_merge s cs : (∀ c, c ∈ cs → held c s) → merge_all s cs = s.
Proof.
  induction cs as [|c cs IH]; intros H; [done|]. cbn [merge_all foldl]. rewrite held_merge by (apply H; left).
  apply IH. intros c' Hc'. apply H. by right.
Qed.

Lemma apart_both a b : apart a b = true → disturbs (line_of a) (line_of b) = false ∧ disturbs (line_of b) (line_of a) = false.
Proof. unfold apart. by rewrite andb_true_iff, !negb_true_iff. Qed.

(** A section just typed holds every line of itself. *)
Lemma self_held n : indep_node n = true → merge_all (children_of n) (children_of n) = children_of n.
Proof.
  induction n as [l cs IH] using iosNode_nested. cbn [indep_node children_of].
  intros [ [_ Hcs]%andb_true_iff Hp]%andb_true_iff. apply held_all_merge. intros c Hc.
  rewrite forallb_forall in Hcs. rewrite list.Forall_forall in IH. pose proof (Hcs c (proj1 (list_elem_of_In _ _) Hc)) as Hi.
  pose proof (IH c Hc Hi) as Hself. apply list_elem_of_split in Hc as (a & b & ->).
  apply pairwise_split in Hp as [Ha Hb]. destruct c as [lc cc]. cbn [line_of children_of] in *. unfold held. cbn [line_of children_of].
  destruct (decide (lc = end_line)) as [|Hle]; [by left|]. right.
  assert (∀ x y, disturbs x lc = false → CutPrefix lc no_prefix = Some y → negated_by y x = false) as Hneg.
  { intros x y Hd E. unfold disturbs in Hd. by rewrite bool_decide_eq_false_2, E in Hd. }
  destruct (CutPrefix lc no_prefix) as [x|] eqn:Ex.
  - intros n [Hn|[->|Hn]%elem_of_cons]%elem_of_app.
    + eapply Hneg; [|done]. by apply (apart_both n (Node lc cc)), Ha.
    + cbn [indep_node] in Hi. apply andb_true_iff in Hi as [ [Ho _]%andb_true_iff _]. unfold own in Ho.
      rewrite Ex in Ho. by apply negb_true_iff.
    + eapply Hneg; [|done]. by apply (apart_both (Node lc cc) n), Hb.
  - exists cc. split; [|done]. rewrite first_children_hit; [done| |done]. apply list.Forall_forall. intros n Hn E.
    specialize (Ha n Hn). apply apart_both in Ha as [Ha _]. unfold disturbs in Ha. cbn [line_of] in Ha.
    rewrite bool_decide_eq_false_2, E, Ex in Ha by done. by rewrite bool_decide_eq_true_2 in Ha.
Qed.

(** Entering a line makes it held. *)
Lemma merge_held c : indep_node c = true → ∀ s, held c (mergeIOSLine c s).
Proof.
  induction c as [l cs IH] using iosNode_nested. intros Hi s. pose proof (self_held _ Hi) as Hself. cbn [children_of] in Hself.
  unfold held. cbn [line_of children_of]. destruct (decide (l = end_line)) as [|Hle]; [by left|]. right.
  destruct (CutPrefix l no_prefix) as [x|] eqn:Ex.
  - cbn [mergeIOSLine]. rewrite bool_decide_eq_false_2, Ex by done. by intros n [Hn _]%list_elem_of_filter.
  - destruct (merge_positive l cs s Hle Ex) as (a & b & [(m & -> & Hm & Ha & ->)|(Hs & -> & Hab)]).
    + exists (merge_all (children_of m) cs). rewrite first_children_hit by done. split; [done|].
      cbn [indep_node] in Hi. apply andb_true_iff in Hi as [ [_ Hcs]%andb_true_iff Hp].
      rewrite forallb_forall in Hcs. rewrite list.Forall_forall in IH. apply held_all_merge. intros c Hc.
      pose proof (IH c Hc (Hcs c (proj1 (list_elem_of_In _ _) Hc))) as Hh.
      apply list_elem_of_split in Hc as (d & e & ->). apply pairwise_split in Hp as [_ He].
      unfold merge_all. rewrite foldl_app. cbn [foldl]. apply (held_kept_all c _ e).
      * intros c' Hc'. by apply (apart_both c c'), He.
      * apply Hh.
    + exists cs. split; [|done]. rewrite first_children_hit; [done| |done].
      destruct Hab as [(m & -> & _)|[-> _] ]; by apply Forall_app in Hs as [? _].
Qed.

Lemma merge_all_held s cs : independent cs = true → ∀ c, c ∈ cs → held c (merge_all s cs).
Proof.
  intros [Hcs Hp]%andb_true_iff c Hc. rewrite forallb_forall in Hcs.
  pose proof (merge_held c (Hcs c (proj1 (list_elem_of_In _ _) Hc))) as Hh.
  apply list_elem_of_split in Hc as (d & e & ->). apply pairwise_split in Hp as [_ He].
  unfold merge_all. rewrite foldl_app. cbn [foldl]. apply (held_kept_all c _ e); [|apply Hh].
  intros c' Hc'. by apply (apart_both c c'), He.
Qed.

(** Folding an independent candidate in twice is folding it in once. *)
Lemma mergeIOS_settled r c : independent c = true → mergeIOS (mergeIOS r c) c = mergeIOS r c.
Proof. intros Hi. rewrite !mergeIOS_all. apply held_all_merge. by apply merge_all_held. Qed.

(** *** What a merge keeps *)

Lemma wf_forest_app a b : wf_forest (a ++ b) = wf_forest a && wf_forest b.
Proof. apply forallb_app. Qed.

Lemma wf_forest_insert a n b : wf_forest (a ++ n :: b) = true ↔ wf_node n = true ∧ wf_forest (a ++ b) = true.
Proof. rewrite !wf_forest_app. unfold wf_forest. cbn [forallb]. rewrite !andb_true_iff. naive_solver. Qed.

Lemma wf_forest_filter (P : iosNode → Prop) `{!∀ n, Decision (P n)} s : wf_forest s = true → wf_forest (filter P s) = true.
Proof.
  unfold wf_forest. rewrite !forallb_forall. intros Hs n Hn. apply Hs. apply list_elem_of_In.
  by apply list_elem_of_In, list_elem_of_filter in Hn as [_ Hn].
Qed.

Lemma merge_wf c : wf_node c = true → ∀ s, wf_forest s = true → wf_forest (mergeIOSLine c s) = true.
Proof.
  induction c as [l cs IH] using iosNode_nested. intros Hc s Hs. pose proof Hc as Hc'. cbn [wf_node] in Hc'.
  apply andb_true_iff in Hc' as [Hl Hcs].
  destruct (decide (l = end_line)) as [->|He]; [done|].
  destruct (CutPrefix l no_prefix) as [x|] eqn:Ex.
  - cbn [mergeIOSLine]. rewrite bool_decide_eq_false_2, Ex by done. by apply wf_forest_filter.
  - destruct (merge_positive l cs s He Ex) as (a & b & [(m & -> & Hm & Ha & ->)|(_ & -> & [(m & -> & _)|[-> _] ])]).
    + apply wf_forest_insert in Hs as [Hm' Hs]. apply wf_forest_insert. split; [|done].
      destruct m as [lm cm]. cbn [children_of wf_node] in *. apply andb_true_iff in Hm' as [_ Hcm]. rewrite Hl. cbn [andb].
      clear Hs Hc Ha Hm. revert cm Hcm. rewrite forallb_forall in Hcs. rewrite list.Forall_forall in IH.
      induction cs as [|c cs IHcs]; intros cm Hcm; [done|]. cbn [merge_all foldl]. apply IHcs.
      * intros n Hn. apply IH. by right.
      * intros n Hn. apply Hcs. by right.
      * apply IH; [left|apply Hcs; by left|done].
    + apply wf_forest_insert in Hs as [_ Hs]. by apply wf_forest_insert.
    + by apply wf_forest_insert.
Qed.

Lemma mergeIOS_wf r c : wf_forest r = true → wf_forest c = true → wf_forest (mergeIOS r c) = true.
Proof.
  rewrite mergeIOS_all. unfold wf_forest at 2. rewrite forallb_forall. revert r.
  induction c as [|n c IH]; intros r Hr Hc; [done|]. cbn [merge_all foldl]. apply IH; [|intros; apply Hc; by right].
  apply merge_wf; [|done]. apply Hc. by left.
Qed.

Lemma renderIOS_inj a b : wf_forest a = true → wf_forest b = true → renderIOS a = renderIOS b → a = b.
Proof. intros Ha Hb E. rewrite <-(parse_render a), <-(parse_render b) by done. by rewrite E. Qed.

(** *** The counted difference *)

Section counted.
Context `{DL : !Difflib, DLL : !DifflibLaws}.

Lemma countChanges_refl a : countChanges a a = (0, 0).
Proof.
  unfold countChanges. assert (Forall (λ op, op_Tag op = OpEqual) (GetOpCodes a a)) as Hops.
  { apply list.Forall_forall. intros op. apply opcodes_refl. }
  induction Hops as [|op ops Hop _ IH]; [done|]. cbn [foldl]. unfold count_op at 2. by rewrite Hop.
Qed.

Lemma count_ops_grow ops n : (∀ op, op ∈ ops → op_I1 op ≤ op_I2 op ∧ op_J1 op ≤ op_J2 op) →
  n.1 ≤ (foldl count_op n ops).1 ∧ n.2 ≤ (foldl count_op n ops).2.
Proof.
  revert n. induction ops as [|op ops IH]; intros n Hops; cbn [foldl]; [lia|].
  destruct (IH (count_op n op)) as [H1 H2]; [intros; apply Hops; by right|].
  destruct (Hops op) as [H3 H4]; [left|]. destruct n as [a r]. unfold count_op in *. destruct (op_Tag op); cbn in *; lia.
Qed.

Lemma countChanges_zero a b : countChanges a b = (0, 0) → a = b.
Proof.
  unfold countChanges. intros Hz. apply opcodes_equal. intros op Hop. pose proof (opcodes_range a b) as Hr.
  apply list_elem_of_split in Hop as (l1 & l2 & E). rewrite E in *. rewrite foldl_app in Hz. cbn [foldl] in Hz.
  set (n := foldl count_op (0, 0) l1) in Hz.
  assert (0 ≤ n.1 ∧ 0 ≤ n.2) as [Hn1 Hn2].
  { apply (count_ops_grow l1 (0, 0)). intros o Ho. destruct (Hr o) as (? & ? & _); [set_solver|done]. }
  destruct (count_ops_grow l2 (count_op n op)) as [H1 H2].
  { intros o Ho. destruct (Hr o) as (? & ? & _); [set_solver|done]. }
  rewrite Hz in H1, H2. destruct (Hr op) as (H3 & H4 & Hrep & Hdel & Hins); [set_solver|].
  destruct n as [x y]. unfold count_op in H1, H2. destruct (op_Tag op); cbn in *; [done|..]; exfalso.
  - destruct (Hrep eq_refl). lia.
  - specialize (Hdel eq_refl). lia.
  - specialize (Hins eq_refl). lia.
Qed.

(** A counted difference of nothing is equality of the texts. *)
Lemma lineDiff_zero fn from tn to r : lineDiff fn from tn to = inl r → (dr_Added r = 0 ∧ dr_Removed r = 0 ↔ from = to).
Proof.
  unfold lineDiff. destruct (UnifiedDiff _ _ _ _); [|done]. destruct (countChanges _ _) as [x y] eqn:Ec.
  intros [= <-]. cbn. split.
  - intros [-> ->]. apply split_inj. by apply countChanges_zero.
  - intros ->. rewrite countChanges_refl in Ec. by injection Ec as <- <-.
Qed.
End counted.

(** *** What a configuration says, and what a line touches *)

(** [l] is the command [x], or [x] with arguments. *)
Definition negates (x l : bytes) : Prop := l = x ∨ ∃ rest, l = x ++ space :: rest.
(** Both lines set the same command of which a section holds one. *)
Definition same_setting (a b : bytes) : Prop := ∃ p ra rb, p ∈ singletons ∧ a = p ++ ra ∧ b = p ++ rb.

(** The sections [s] already say what a candidate's section asks. *)
Inductive says (s : list iosNode) : iosNode → Prop :=
| says_end cs : says s (Node end_line cs)
| says_no x cs : (∀ n, n ∈ s → ¬ negates x (line_of n)) → says s (Node (no_prefix ++ x) cs)
| says_line l cs a cs' b :
    s = a ++ Node l cs' :: b → Forall (λ n, line_of n ≠ l) a → l ≠ end_line → (∀ x, l ≠ no_prefix ++ x) →
    (∀ c, c ∈ cs → says cs' c) → says s (Node l cs).

(** Entering the line [l'] concerns a section of the line [l]. *)
Definition touches (l' l : bytes) : Prop :=
  l = l' ∨ (∃ x, l' = no_prefix ++ x ∧ negates x l) ∨ l = no_prefix ++ l' ∨ same_setting l l'.

Lemma HasPrefix_spec l p : HasPrefix l p = true ↔ ∃ rest, l = p ++ rest.
Proof.
  unfold HasPrefix. rewrite bool_decide_eq_true. split; [|by intros [r ->]; rewrite take_app_length].
  intros H. exists (drop (length p) l). by rewrite <- H at 1; rewrite take_drop.
Qed.
Lemma negated_by_spec x l : negated_by x l = true ↔ negates x l.
Proof.
  unfold negated_by, negates. rewrite orb_true_iff, bool_decide_eq_true, HasPrefix_spec.
  by setoid_rewrite <- (app_assoc x [space]).
Qed.
Lemma sameSingleton_spec a b : sameSingleton a b = true ↔ same_setting a b.
Proof.
  unfold sameSingleton, same_setting. rewrite existsb_exists. split.
  - intros (p & Hp%list_elem_of_In & [(ra & ->)%HasPrefix_spec (rb & ->)%HasPrefix_spec]%andb_true_iff). by exists p, ra, rb.
  - intros (p & ra & rb & Hp%list_elem_of_In & -> & ->). exists p. split; [done|]. by rewrite !(proj2 (HasPrefix_spec _ _)) by eauto.
Qed.
Lemma CutPrefix_Some l p x : CutPrefix l p = Some x ↔ l = p ++ x.
Proof.
  unfold CutPrefix. destruct (HasPrefix l p) eqn:E.
  - apply HasPrefix_spec in E as [r ->]. rewrite drop_app_length. naive_solver.
  - split; [done|]. intros ->. by rewrite (proj2 (HasPrefix_spec _ _)) in E by eauto.
Qed.
Lemma CutPrefix_None l p : CutPrefix l p = None ↔ ∀ x, l ≠ p ++ x.
Proof.
  destruct (CutPrefix l p) as [x|] eqn:E.
  - apply CutPrefix_Some in E. naive_solver.
  - split; [|done]. intros _ x Hx%CutPrefix_Some. congruence.
Qed.

Lemma first_children_Some l s ch : first_children l s = Some ch ↔ ∃ a b, s = a ++ Node l ch :: b ∧ Forall (λ n, line_of n ≠ l) a.
Proof.
  split; [|intros (a & b & -> & Ha); by rewrite first_children_hit].
  induction s as [|[l' ch'] s IH]; cbn; [done|]. case_bool_decide as E; [intros [= <-]; subst; by exists [], s|].
  intros (a & b & -> & Ha)%IH. exists (Node l' ch' :: a), b. split; [done|]. by constructor.
Qed.

(** Saying is holding. *)
Lemma says_held c : ∀ s, says s c → held c s.
Proof.
  induction c as [l cs IH] using iosNode_nested. intros s H. remember (Node l cs) as c eqn:E.
  destruct H as [ds|x ds Hx|l0 ds a cs' b Es Ha He Hn Hc]; injection E as <- <-; unfold held; cbn [line_of children_of]; [by left|right..].
  - rewrite CutPrefix_no_app. intros n Hin. destruct (negated_by x (line_of n)) eqn:Ex; [|done]. apply negated_by_spec in Ex. by destruct (Hx n).
  - rewrite (proj2 (CutPrefix_None _ _)) by done. exists cs'. split; [apply first_children_Some; eauto|].
    apply held_all_merge. intros c Hin. rewrite list.Forall_forall in IH. by apply IH, Hc.
Qed.
Lemma held_says c : indep_node c = true → ∀ s, held c s → says s c.
Proof.
  induction c as [l cs IH] using iosNode_nested. cbn [indep_node]. intros [ [_ Hcs]%andb_true_iff Hp]%andb_true_iff s.
  unfold held. cbn [line_of children_of]. intros [->|H]; [constructor|]. destruct (decide (l = end_line)) as [->|He]; [constructor|].
  destruct (CutPrefix l no_prefix) as [x|] eqn:Ex.
  - apply CutPrefix_Some in Ex as ->. constructor. intros n Hin Hx%negated_by_spec. by rewrite H in Hx.
  - destruct H as (ch & (a & b & -> & Ha)%first_children_Some & Hm). eapply says_line; [done|done|done|by apply CutPrefix_None|].
    intros c Hin. rewrite list.Forall_forall in IH. rewrite forallb_forall in Hcs. apply IH; [done|by apply Hcs, list_elem_of_In|].
    rewrite <- Hm. apply merge_all_held; [|done]. unfold independent. apply andb_true_iff. split; [by apply forallb_forall|done].
Qed.

(** What a line leaves, and what it brings. *)
Lemma merge_keeps c s n : n ∈ s → ¬ touches (line_of c) (line_of n) → n ∈ mergeIOSLine c s.
Proof.
  destruct c as [l cs]. cbn [line_of]. intros Hin Ht. destruct (decide (l = end_line)) as [->|He]; [done|].
  destruct (CutPrefix l no_prefix) as [x|] eqn:Ex.
  - cbn [mergeIOSLine]. rewrite bool_decide_eq_false_2, Ex by done. apply CutPrefix_Some in Ex as ->. unfold removeIOS.
    apply list_elem_of_filter. split; [|done]. destruct (negated_by x (line_of n)) eqn:E; [|done]. apply negated_by_spec in E.
    destruct Ht. right. left. by exists x.
  - destruct (merge_positive l cs s He Ex) as (a & b & [(m & -> & Hm & _ & ->)|(_ & -> & [(m & -> & Hm)|[-> _] ])]).
    + assert (n ≠ m) by (intros ->; apply Ht; by left). set_solver.
    + assert (n ≠ m); [|set_solver]. intros ->. apply Ht. destruct Hm as [?|?%sameSingleton_spec]; unfold touches; auto.
    + set_solver.
Qed.
Lemma merge_brings c s n : n ∈ mergeIOSLine c s → n ∈ s ∨ (line_of n = line_of c ∧ ∀ x, line_of c ≠ no_prefix ++ x).
Proof.
  destruct c as [l cs]. cbn [line_of]. destruct (decide (l = end_line)) as [->|He]; [by left|].
  destruct (CutPrefix l no_prefix) as [x|] eqn:Ex.
  - cbn [mergeIOSLine]. rewrite bool_decide_eq_false_2, Ex by done. intros [_ Hn]%list_elem_of_filter. by left.
  - pose proof (proj1 (CutPrefix_None _ _) Ex) as Hpos.
    destruct (merge_positive l cs s He Ex) as (a & b & [(m & -> & Hm & _ & ->)|(_ & -> & Hab)]).
    + intros [?|[->|?]%elem_of_cons]%elem_of_app; [left; set_solver|by right|left; set_solver].
    + intros [?|[->|?]%elem_of_cons]%elem_of_app; [|by right|]; left; destruct Hab as [(m & -> & _)|[-> _] ]; set_solver.
Qed.
Lemma merge_all_keeps cs s n : n ∈ s → (∀ c, c ∈ cs → ¬ touches (line_of c) (line_of n)) → n ∈ merge_all s cs.
Proof.
  revert s. induction cs as [|c cs IH]; intros s Hin Ht; [done|]. apply IH; [|intros; apply Ht; by right].
  apply merge_keeps; [done|]. apply Ht. by left.
Qed.
Lemma merge_all_brings cs s n : n ∈ merge_all s cs → n ∈ s ∨ ∃ c, c ∈ cs ∧ line_of n = line_of c ∧ ∀ x, line_of c ≠ no_prefix ++ x.
Proof.
  revert s. induction cs as [|c cs IH]; intros s Hin; [by left|]. destruct (IH _ Hin) as [H|(c' & Hc & H)].
  - apply merge_brings in H as [?|H]; [by left|]. right. exists c. split; [by left|done].
  - right. exists c'. split; [by right|done].
Qed.


(** The post-check of a device that holds the predicted configuration finds
    nothing left to change, for a candidate whose lines do not undo one
    another. *)
Theorem predict_settled `{!Difflib, !DifflibLaws} running candidate now :
  13 ∉ crlf_to_lf running → 13 ∉ crlf_to_lf candidate → independent (parseIOS candidate) = true →
  parseIOS now = parseIOS (renderIOS (mergeIOS (parseIOS running) (parseIOS candidate))) →
  iosHasArchivePath (parseIOS now) = true →
  match predictIOS now PushMerge candidate with
  | inl r => dr_Added r = 0 ∧ dr_Removed r = 0
  | inr e => e = RenderFailed
  end.
Proof.
  intros Hr Hc Hi Hnow Ha. apply parse_wf in Hr, Hc. rewrite parse_render in Hnow by (by apply mergeIOS_wf).
  unfold predictIOS. rewrite Ha. cbn [negb]. rewrite bool_decide_eq_true_2 by done.
  rewrite Hnow, mergeIOS_settled by done. destruct (lineDiff _ _ _ _) as [r|e] eqn:E.
  - by apply lineDiff_zero in E as [_ E]; apply E.
  - unfold lineDiff in E. destruct (UnifiedDiff _ _ _ _); [by destruct (countChanges _ _)|congruence].
Qed.

(** *** What is typed *)

Lemma has_control_app a b : has_control (a ++ b) = false → has_control a = false.
Proof.
  induction a as [|c a IH]; [done|]. cbn [has_control app]. rewrite !orb_false_iff. intros [ [H1 H2] H3].
  split_and!; [naive_solver|naive_solver| |auto]. destruct (c =? 194); [|done]. cbn [andb] in *. by destruct a.
Qed.

Lemma TrimRight_prefix s cut : ∃ p, s = TrimRight s cut ++ p.
Proof.
  destruct (TrimLeft_suffix (rev s) cut) as (p & E & _). exists (rev p). unfold TrimRight.
  by rewrite <-rev_app_distr, <-E, rev_involutive.
Qed.

Lemma check_lines_line p last lines i k raw : check_lines p last lines i = None → lines !! k = Some raw →
  has_control raw = false ∧
  (if bool_decide (p = PlatformAristaEOS) then eosSessionControl (before_sep (TrimSpace raw) space)
   else if bool_decide (p = PlatformCiscoIOS)
   then iosModeControl (before_sep (TrimSpace raw) space) &&
     (negb (i + Z.of_nat k =? last) || negb (bool_decide (before_sep (TrimSpace raw) space = end_line)))
   else false) = false.
Proof.
  revert i k. induction lines as [|l lines IH]; intros i k; cbn [check_lines]; [done|].
  destruct (has_control l) eqn:Ec; [done|]. destruct (if bool_decide (p = PlatformAristaEOS) then _ else _) eqn:Ew; [done|].
  intros Hrest. destruct k as [|k]; cbn [lookup].
  - intros [= ->]. split; [done|]. by rewrite Z.add_0_r.
  - intros Hk. destruct (IH (i + 1) k Hrest Hk) as [H1 H2]. split; [done|].
    by replace (i + Z.of_nat (S k)) with (i + 1 + Z.of_nat k) by lia.
Qed.

Lemma typed_from_spec last lines i l n : (l, n) ∈ typed_from last lines i ↔
  ∃ k raw, lines !! k = Some raw ∧ l = TrimRight raw [space; tab] ∧ n = i + Z.of_nat k + 1 ∧
    TrimSpace raw ≠ [] ∧ HasPrefix (TrimSpace raw) bang = false ∧
    (i + Z.of_nat k = last → TrimSpace raw ≠ end_line).
Proof.
  revert i. induction lines as [|r lines IH]; intros i; cbn [typed_from].
  - split; [by intros ?%elem_of_nil|]. intros (k & raw & Hk & _). by destruct k.
  - assert (∀ (Q : nat → bytes → Prop), (∃ k raw, (r :: lines) !! k = Some raw ∧ Q k raw) ↔
       Q 0%nat r ∨ ∃ k raw, lines !! k = Some raw ∧ Q (S k) raw) as Hsplit.
    { intros Q. split.
      - intros ([|k] & raw & Hk & HQ); [injection Hk as ->; by left|]. right. by exists k, raw.
      - intros [HQ|(k & raw & Hk & HQ)]; [by exists 0%nat, r|]. by exists (S k), raw. }
    rewrite Hsplit. clear Hsplit.
    assert ((∃ k raw, lines !! k = Some raw ∧ l = TrimRight raw [space; tab] ∧ n = i + Z.of_nat (S k) + 1 ∧
        TrimSpace raw ≠ [] ∧ HasPrefix (TrimSpace raw) bang = false ∧ (i + Z.of_nat (S k) = last → TrimSpace raw ≠ end_line)) ↔
      (l, n) ∈ typed_from last lines (i + 1)) as ->.
    { rewrite IH. do 2 (apply exist_proper; intros ?). by replace (i + Z.of_nat (S _)) with (i + 1 + Z.of_nat x) by lia. }
    rewrite Z.add_0_r.
    destruct (_ || _ && _) eqn:Es.
    + split; [auto|]. intros [(_ & _ & Hne & Hb & He)|H]; [|done]. exfalso.
      rewrite Hb, orb_false_r in Es. rewrite bool_decide_eq_false_2 in Es by done. cbn [orb] in Es.
      apply andb_true_iff in Es as [->%Z.eqb_eq Es%bool_decide_eq_true]. by apply He.
    + apply orb_false_iff in Es as [ [E1%bool_decide_eq_false E2]%orb_false_iff E3].
      rewrite elem_of_cons. split; (intros [H|H]; [left|by right]).
      * injection H as -> ->. split_and!; try done. intros ->. rewrite Z.eqb_refl in E3. by apply bool_decide_eq_false in E3.
      * by destruct H as (-> & -> & _).
Qed.

Lemma TrimRight_newline raw : newline ∉ raw → newline ∉ TrimRight raw [space; tab].
Proof. intros H Hn. apply H. by eapply TrimRight_sub. Qed.

(** What an accepted IOS candidate types: each of its lines that says
    something, as one line with no keystroke in it but tabs, none beginning
    with a word that leaves configuration mode; only the last line may begin
    with "end", and then says more. *)
Theorem typed_harmless candidate : checkCLICandidate PlatformCiscoIOS candidate = None →
  ∀ l n, (l, n) ∈ typed candidate →
  ∃ raw, Split (crlf_to_lf candidate) newline !! Z.to_nat (n - 1) = Some raw ∧ 1 ≤ n ∧ l = TrimRight raw [space; tab] ∧
    newline ∉ l ∧ has_control l = false ∧
    let word := before_sep (TrimSpace raw) space in
    word ≠ ascii_bytes "do" ∧ word ≠ ascii_bytes "exit" ∧
    (word = end_line → n - 1 = lastIOSLine (Split (crlf_to_lf candidate) newline) ∧ TrimSpace raw ≠ end_line).
Proof.
  unfold checkCLICandidate, typed. set (lines := Split _ _). intros Hck l n Hin.
  apply typed_from_spec in Hin as (k & raw & Hk & -> & -> & Hne & _ & He).
  destruct (check_lines_line _ _ _ _ _ _ Hck Hk) as [Hc Hw]. exists raw.
  replace (0 + Z.of_nat k + 1 - 1) with (Z.of_nat k) by lia. rewrite Nat2Z.id.
  split; [done|]. split; [lia|]. split; [done|]. split; [|split].
  - apply TrimRight_newline. eapply Split_no_sep. apply list_elem_of_lookup. by exists k.
  - destruct (TrimRight_prefix raw [space; tab]) as [p E]. rewrite E in Hc. by eapply has_control_app.
  - rewrite bool_decide_eq_false_2 in Hw by done. rewrite bool_decide_eq_true_2 in Hw by done.
    set (word := before_sep (TrimSpace raw) space) in *. cbn zeta. rewrite Z.add_0_l in *.
    unfold iosModeControl in Hw. apply andb_false_iff in Hw as [Hw%bool_decide_eq_false|Hw].
    + cbn [map] in Hw. rewrite !not_elem_of_cons in Hw. destruct Hw as (H1 & H2 & H3 & _).
      split_and!; [done|done|]. intros E. by destruct H2.
    + apply orb_false_iff in Hw as [Hl%negb_false_iff%Z.eqb_eq Hw%negb_false_iff%bool_decide_eq_true].
      rewrite Hw. split; [done|]. split; [done|]. auto.
Qed.

(** ** Examples *)

Fixpoint unlines (l : list string) : bytes :=
  match l with [] => [] | s :: l => ascii_bytes s ++ [newline] ++ unlines l end.

(** A diff that replaces everything or nothing. *)
Definition whole_opcodes (a b : list bytes) : list OpCode :=
  if bool_decide (a = b) then []
  else [MkOp (match a, b with [], _ => OpInsert | _, [] => OpDelete | _, _ => OpReplace end)
          0 (Z.of_nat (length a)) 0 (Z.of_nat (length b))].
#[global] Instance whole_difflib : Difflib := {
  SplitLines s := map (λ l, l ++ [newline]) (Split s newline);
  GetOpCodes := whole_opcodes;
  UnifiedDiff _ _ _ _ := Some [];
}.

Lemma join_Split s : join (Split s newline) = s ++ [newline].
Proof.
  induction s as [|c s IH]; [done|]. cbn [Split]. destruct (c =? newline) eqn:Ec.
  - apply Z.eqb_eq in Ec as ->. change (join ([] :: Split s newline)) with ([newline] ++ join (Split s newline)). by rewrite IH.
  - destruct (Split s newline) as [|l ls]; [by destruct s|]. change (join ((c :: l) :: ls)) with (c :: join (l :: ls)). by rewrite IH.
Qed.

#[global] Instance whole_laws : DifflibLaws.
Proof.
  split; cbn; unfold whole_opcodes.
  - intros a op. rewrite bool_decide_eq_true_2 by done. by intros ?%elem_of_nil.
  - intros a b. case_bool_decide; [done|]. intros Ho. specialize (Ho _ ltac:(left)). by destruct a, b.
  - intros a b op. case_bool_decide; [by intros ?%elem_of_nil|]. intros ->%list_elem_of_singleton. cbn.
    split_and!; [lia|lia|..]; destruct a, b; cbn; (done || (intros _; lia) || (intros _; split; lia)).
  - intros a b E. apply (f_equal (@concat Z)) in E. fold (join (Split a newline)) (join (Split b newline)) in E.
    rewrite !join_Split in E. by apply app_inj_tail in E as [? _].
Qed.

Definition running_example : bytes := unlines
  ["hostname sw1"; "archive"; " path flash:seed-archive"; "!"; "interface Vlan1"; " shutdown"; "access-list 10 permit host 10.0.0.1";
   "line vty 0 4"; "end"]%string.
Definition candidate_example : bytes := unlines
  ["hostname sw2"; "interface Vlan1"; " description uplink"; " no shutdown"; "ntp server 10.0.0.2"]%string.
Definition predicted_example : bytes := unlines
  ["hostname sw2"; "archive"; " path flash:seed-archive"; "interface Vlan1"; " description uplink"; "access-list 10 permit host 10.0.0.1";
   "line vty 0 4"; "ntp server 10.0.0.2"; "end"]%string.

Example merge_example :
  renderIOS (mergeIOS (parseIOS running_example) (parseIOS candidate_example)) = predicted_example.
Proof. vm_compute. reflexivity. Qed.

Lemma not_in_13 (s : bytes) : forallb (λ c, negb (c =? 13)) s = true → 13 ∉ s.
Proof. rewrite forallb_forall. intros H Hin%list_elem_of_In%H. done. Qed.

Lemma predict_settled_witness :
  13 ∉ crlf_to_lf running_example ∧ independent (parseIOS candidate_example) = true ∧
  match predictIOS predicted_example PushMerge candidate_example with
  | inl r => dr_Added r = 0 ∧ dr_Removed r = 0
  | inr e => e = RenderFailed
  end.
Proof.
  split; [apply not_in_13; vm_compute; reflexivity|]. split; [vm_compute; reflexivity|].
  apply (predict_settled running_example candidate_example predicted_example);
    [apply not_in_13; vm_compute; reflexivity|apply not_in_13; vm_compute; reflexivity|vm_compute; reflexivity..].
Defined.


Lemma parse_render_witness : wf_forest (parseIOS running_example) = true ∧
  parseIOS (renderIOS (parseIOS running_example)) = parseIOS running_example.
Proof. split; [vm_compute; reflexivity|]. apply parse_render. vm_compute. reflexivity. Defined.

Lemma typed_harmless_witness : checkCLICandidate PlatformCiscoIOS candidate_example = None ∧
  ∃ raw, Split (crlf_to_lf candidate_example) newline !! 0%nat = Some raw ∧ raw = ascii_bytes "hostname sw2" ∧
    before_sep (TrimSpace raw) space ≠ ascii_bytes "exit".
Proof.
  split; [vm_compute; reflexivity|].
  destruct (typed_harmless candidate_example ltac:(vm_compute; reflexivity) (ascii_bytes "hostname sw2") 1) as (raw & Hraw & H);
    [vm_compute; left|]. exists raw. split; [exact Hraw|]. split; [vm_compute in Hraw; injection Hraw as <-; reflexivity|]. apply H.
Defined.

(** Removing an access list and writing it anew, with a line after it: not
    even the predicted configuration passes the post-check. *)
Definition redefine_example : bytes := unlines
  ["no access-list 10"; "access-list 10 permit host 10.0.0.9"; "ntp server 10.0.0.2"]%string.
Example redefined_list_never_settles :
  let predicted := renderIOS (mergeIOS (parseIOS running_example) (parseIOS redefine_example)) in
  predictIOS predicted PushMerge redefine_example ≠ inl (MkDryRun [] 0 0) ∧
  independent (parseIOS redefine_example) = false.
Proof. split; [intros E; vm_compute in E; discriminate|vm_compute; reflexivity]. Qed.

(** A merge that removes the archive path is predicted, and its post-check is
    refused. *)
Definition unarchive_example : bytes := unlines ["archive"; " no path"]%string.
Example removed_archive_predicted :
  (∃ r, predictIOS running_example PushMerge unarchive_example = inl r) ∧
  ∃ e, predictIOS (renderIOS (mergeIOS (parseIOS running_example) (parseIOS unarchive_example))) PushMerge unarchive_example
    = inr (Refused e).
Proof. split; eexists; vm_compute; reflexivity. Qed.

(** "exi" and "exit" before a tab are what IOS takes for "exit". *)
Example abbreviation_accepted :
  checkCLICandidate PlatformCiscoIOS (unlines ["exi"; "reload"]%string) = None ∧
  typed (unlines ["exi"; "reload"]%string) = [(ascii_bytes "exi", 1); (ascii_bytes "reload", 2)] ∧
  checkCLICandidate PlatformCiscoIOS (ascii_bytes "exit" ++ [tab] ++ ascii_bytes "x") = None ∧
  checkCLICandidate PlatformCiscoIOS (unlines ["exit"; "reload"]%string) = Some (ControlWord 1 (ascii_bytes "exit")).
Proof. vm_compute. repeat split; reflexivity. Qed.
