(* ===== verification/Effects.v ===== *)
(** * Programs that call out

    A use-case is a program over the calls it makes: to its store, to a
    device, to the audit log, to a lock. [C] is the type of calls and [R] what
    each answers. A contract says which calls a session allows and how an
    answer changes the session; a program that obeys one does so whatever is
    answered, within what is possible, and so also beside any number of other
    programs. *)
From stdpp Require Import base list relations.
From S2P Require Import Prelude.

Section prog.
Context {C : Type} {R : C → Type}.

Inductive prog (A : Type) : Type :=
| Ret (a : A)
| Call (c : C) (k : R c → prog A).
#[global] Arguments Ret {A} a.
#[global] Arguments Call {A} c k.

Fixpoint pbind {A B} (p : prog A) (f : A → prog B) : prog B :=
  match p with
  | Ret a => f a
  | Call c k => Call c (λ r, pbind (k r) f)
  end.

(** Go's "if err != nil { return }": the error is passed on, wrapped. *)
Definition ptry {A B E} (p : prog (A + E)) (wrap : E → E) (f : A → prog (B + E)) : prog (B + E) :=
  pbind p (λ r, match r with inl a => f a | inr e => Ret (inr (wrap e)) end).

(** The same of a call that answers nothing but an error. *)
Definition pdo {B E} (p : prog (option E)) (wrap : E → E) (f : prog (B + E)) : prog (B + E) :=
  pbind p (λ r, match r with None => f | Some e => Ret (inr (wrap e)) end).

(** ** Contracts *)

Section contract.
Context {S : Type} (allowed : S → C → Prop) (possible : ∀ c, R c → Prop) (next : S → ∀ c, R c → S).

Fixpoint obeys {A} (p : prog A) (Q : A → S → Prop) (s : S) : Prop :=
  match p with
  | Ret a => Q a s
  | Call c k => allowed s c ∧ ∀ r, possible c r → obeys (k r) Q (next s c r)
  end.

Lemma obeys_mono {A} (p : prog A) (Q Q' : A → S → Prop) s :
  (∀ a s, Q a s → Q' a s) → obeys p Q s → obeys p Q' s.
Proof.
  intros HQ. revert s. induction p as [a|c k IH]; intros s; cbn; [apply HQ|].
  intros [Hc Hk]. split; [done|]. intros r Hr. by apply IH, Hk.
Qed.

Lemma obeys_bind {A B} (p : prog A) (f : A → prog B) (Q : B → S → Prop) s :
  obeys p (λ a s, obeys (f a) Q s) s → obeys (pbind p f) Q s.
Proof.
  revert s. induction p as [a|c k IH]; intros s; cbn; [done|].
  intros [Hc Hk]. split; [done|]. intros r Hr. by apply IH, Hk.
Qed.

Lemma obeys_try {A B E} (p : prog (A + E)) w (f : A → prog (B + E)) (Q : B + E → S → Prop) s :
  obeys p (λ r s, match r with inl a => obeys (f a) Q s | inr e => Q (inr (w e)) s end) s → obeys (ptry p w f) Q s.
Proof. intros H. apply obeys_bind. eapply obeys_mono; [|exact H]. by intros [a|e] s'. Qed.

Lemma obeys_do {B E} (p : prog (option E)) w (f : prog (B + E)) (Q : B + E → S → Prop) s :
  obeys p (λ r s, match r with None => obeys f Q s | Some e => Q (inr (w e)) s end) s → obeys (pdo p w f) Q s.
Proof. intros H. apply obeys_bind. eapply obeys_mono; [|exact H]. by intros [e|] s'. Qed.

(** ** Programs whose calls do not matter *)

(** A program whose every call is allowed in session [s] and leaves it. *)
Fixpoint idle {A} (p : prog A) (s : S) : Prop :=
  match p with
  | Ret _ => True
  | Call c k => allowed s c ∧ ∀ r, possible c r → next s c r = s ∧ idle (k r) s
  end.

Lemma idle_bind {A B} (p : prog A) (f : A → prog B) s : idle p s → (∀ a, idle (f a) s) → idle (pbind p f) s.
Proof.
  intros Hp Hf. induction p as [a|c k IH]; cbn in *; [apply Hf|]. destruct Hp as [Hc Hk].
  split; [done|]. intros r Hr. destruct (Hk r Hr) as [Hn Hi]. split; [done|]. by apply IH.
Qed.

Lemma idle_obeys {A} (p : prog A) (Q : A → S → Prop) s : idle p s → (∀ a, Q a s) → obeys p Q s.
Proof.
  intros Hp HQ. induction p as [a|c k IH]; cbn in *; [apply HQ|]. destruct Hp as [Hc Hk].
  split; [done|]. intros r Hr. destruct (Hk r Hr) as [-> Hi]. by apply IH.
Qed.

(** ** Programs side by side

    Each program of a pool has its session; the world answers one call at a
    time, and programs may be started at any time. *)
Context {W A : Type} (serve : W → ∀ c, R c → W → Prop) (starts : S → Prop) (Q : A → S → Prop).
Context (served : ∀ w c r w', serve w c r w' → possible c r).

Record pool : Type := Pool { threads : list (prog A * S); world : W }.

Inductive pool_step : pool → pool → Prop :=
| step_call ts w i c k s r w' : ts !! i = Some (Call c k, s) → serve w c r w' →
    pool_step (Pool ts w) (Pool (<[i := (k r, next s c r)]> ts) w')
| step_spawn ts w p s : starts s → obeys p Q s → pool_step (Pool ts w) (Pool (ts ++ [(p, s)]) w).

Definition pool_ok (ps : pool) : Prop := Forall (λ t, obeys t.1 Q t.2) (threads ps).

Lemma pool_step_ok ps ps' : pool_step ps ps' → pool_ok ps → pool_ok ps'.
Proof.
  unfold pool_ok. intros [ts w i c k s r w' Hi Hs|ts w p s Hst Hp] Hok; cbn in *.
  - apply Forall_insert; [done|]. apply (Forall_lookup_1 _ _ _ _ Hok) in Hi as [_ Hk]. by eapply Hk, served.
  - apply Forall_app. split; [done|]. by constructor.
Qed.

Lemma pool_reach_ok ps ps' : rtc pool_step ps ps' → pool_ok ps → pool_ok ps'.
Proof. induction 1 as [|? ? ? Hs _ IH]; [done|]. intros Hok. by eapply IH, pool_step_ok. Qed.

(** What the answers to allowed calls preserve, every reachable pool has. *)
Theorem pool_invariant (I : list S → W → Prop) ps ps' :
  (∀ ss w i s c r w', I ss w → ss !! i = Some s → allowed s c → serve w c r w' → I (<[i := next s c r]> ss) w') →
  (∀ ss w s, I ss w → starts s → I (ss ++ [s]) w) →
  rtc pool_step ps ps' → pool_ok ps → I (threads ps).*2 (world ps) → I (threads ps').*2 (world ps').
Proof.
  intros Hcall Hspawn Hreach. induction Hreach as [|ps1 ps2 ps3 Hs _ IH]; [done|]. intros Hok HI.
  apply IH; [by eapply pool_step_ok|]. clear IH. destruct Hs as [ts w i c k s r w' Hi Hs|ts w p s Hst Hp]; cbn in *.
  - rewrite list_fmap_insert. apply (Hcall _ w i s c r w'); [done| | |done].
    + rewrite list_lookup_fmap, Hi. done.
    + by apply (Forall_lookup_1 _ _ _ _ Hok) in Hi as [Hc _].
  - rewrite fmap_app. by eapply Hspawn.
Qed.
End contract.

(** ** One contract in terms of another

    A program that obeys a contract obeys any whose sessions can be kept in
    step with it. *)
Lemma obeys_sim {A S1 S2} allowed1 possible1 (next1 : S1 → ∀ c, R c → S1) allowed2 possible2 (next2 : S2 → ∀ c, R c → S2)
    (rel : S1 → S2 → Prop) (p : prog A) (Q : A → S1 → Prop) s1 s2 :
  (∀ s1 s2 c, rel s1 s2 → allowed1 s1 c → allowed2 s2 c ∧
    ∀ r, possible2 c r → possible1 c r ∧ rel (next1 s1 c r) (next2 s2 c r)) →
  rel s1 s2 → obeys allowed1 possible1 next1 p Q s1 →
  obeys allowed2 possible2 next2 p (λ a s2, ∃ s1, rel s1 s2 ∧ Q a s1) s2.
Proof.
  intros Hsim. revert s1 s2. induction p as [a|c k IH]; intros s1 s2 Hrel; cbn; [by exists s1|].
  intros [Hc Hk]. destruct (Hsim s1 s2 c Hrel Hc) as [Hc2 Hn]. split; [done|]. intros r Hr.
  destruct (Hn r Hr) as [Hr1 Hrel']. by eapply IH, Hk.
Qed.

(** ** Running against a world of one's own *)

Fixpoint run {W A} (h : W → ∀ c, R c * W) (p : prog A) (w : W) : A * W :=
  match p with
  | Ret a => (a, w)
  | Call c k => let '(r, w) := h w c in run h (k r) w
  end.

(** The first [n] calls. *)
Fixpoint advance {W A} (h : W → ∀ c, R c * W) (n : nat) (p : prog A) (w : W) : prog A * W :=
  match n, p with
  | S n, Call c k => let '(r, w) := h w c in advance h n (k r) w
  | _, _ => (p, w)
  end.

Lemma run_bind {W A B} (h : W → ∀ c, R c * W) (p : prog A) (f : A → prog B) w :
  run h (pbind p f) w = let '(a, w) := run h p w in run h (f a) w.
Proof. revert w. induction p as [a|c k IH]; intros w; cbn; [done|]. destruct (h w c) as [r w']. apply IH. Qed.

(** What a contract promises holds of any run: the session is carried along. *)
Definition with_session {W S} (h : W → ∀ c, R c * W) (next : S → ∀ c, R c → S) (sw : S * W) (c : C) : R c * (S * W) :=
  let '(s, w) := sw in let '(r, w) := h w c in (r, (next s c r, w)).

Lemma obeys_run {W A S} (h : W → ∀ c, R c * W) allowed possible (next : S → ∀ c, R c → S) (p : prog A) (Q : A → S → Prop) s w :
  (∀ w c, possible c (h w c).1) → obeys allowed possible next p Q s → let '(a, (s', _)) := run (with_session h next) p (s, w) in Q a s'.
Proof.
  intros Hp. revert s w. induction p as [a|c k IH]; intros s w; cbn; [done|]. intros [_ Hk].
  pose proof (Hp w c) as Hr. destruct (h w c) as [r w']. by apply IH, Hk.
Qed.
End prog.

#[global] Arguments prog {C} R A.

Declare Scope prog_scope.
Delimit Scope prog_scope with prog.
Notation "x <~ p ; f" := (pbind p (λ x, f)) (at level 20, p at level 100, f at level 200, right associativity) : prog_scope.
Notation "x <~! p ; f" := (ptry p (λ e, e) (λ x, f)) (at level 20, p at level 100, f at level 200, right associativity) : prog_scope.
Notation "x <~! p 'or' w ; f" := (ptry p w (λ x, f))
  (at level 20, p at level 100, w at level 100, f at level 200, right associativity) : prog_scope.
Notation "'must' p ; f" := (pdo p (λ e, e) f) (at level 20, p at level 100, f at level 200, right associativity) : prog_scope.
Notation "'must' p 'or' w ; f" := (pdo p w f)
  (at level 20, p at level 100, w at level 100, f at level 200, right associativity) : prog_scope.


