(* ===== verification/ConfigStore.v ===== *)
(** * Device configurations: data, calls and tables
    (src/internal/deviceconfig/, src/internal/database/repository_device_config*.go)

    The data of the backup and push use-cases, the calls they make to what is
    around them ([call], answered by [resp]), and the tables those calls read
    and write ([serve_db]): each statement is one step on the database. *)
From Stdlib Require Import ZArith Lia Ascii.
From stdpp Require Import base sets list strings sorting.
From S2P Require Import Prelude GoBase GoText IosConfig Effects.

(** ** Errors *)

Inductive err : Type :=
| ErrNotFound | ErrUnavailable | ErrPushBusy | ErrPlanSpent
| ErrAuth | ErrHostKeyMismatch | ErrUnreachable | ErrCommand
| ErrStartupNotSaved | ErrImageCorrupt | ErrCredentialsNotFound | ErrCanceled
| ValidationError (msg : string)
| PlanRefusedError (reason : string)
| HostKeyUnconfirmedError (fingerprint : string)
| OtherError (msg : string)
| Wrapped (before : string) (e : err) (after : string)
| Joined (e1 e2 : err)
| Both (e1 : err) (between : string) (e2 : err).

#[global] Instance err_eq_dec : EqDecision err.
Proof. solve_decision. Defined.

Definition nl : string := String (Ascii.ascii_of_nat 10) EmptyString.

(** [err.Error()] *)
Fixpoint Error (e : err) : string :=
  match e with
  | ErrNotFound => "deviceconfig: not found"
  | ErrUnavailable => "deviceconfig: store unavailable"
  | ErrPushBusy => "deviceconfig: a push job is already running on this target"
  | ErrPlanSpent => "the push plan was already applied or has expired; plan again"
  | ErrAuth => "authentication failed"
  | ErrHostKeyMismatch => "host key does not match the pinned key"
  | ErrUnreachable => "device unreachable"
  | ErrCommand => "configuration command failed"
  | ErrStartupNotSaved => "the startup configuration was not saved"
  | ErrImageCorrupt => "the device's hash of its copy does not match the image"
  | ErrCredentialsNotFound => "credentials not found"
  | ErrCanceled => "context canceled"
  | ValidationError msg | OtherError msg => msg
  | PlanRefusedError reason => "push refused: " +:+ reason
  | HostKeyUnconfirmedError fp => "host key " +:+ fp +:+ " is not confirmed"
  | Wrapped before e after => before +:+ Error e +:+ after
  | Joined e1 e2 => Error e1 +:+ nl +:+ Error e2
  | Both e1 between e2 => Error e1 +:+ between +:+ Error e2
  end.

(** [fmt.Errorf("context: %w", err)] *)
Definition wrap_err (context : string) (e : err) : err := Wrapped (context +:+ ": ") e "".

(** [errors.Is] and [errors.AsType]: the first error of the tree that
    satisfies [p]. *)
Fixpoint find_err {A} (p : err → option A) (e : err) : option A :=
  match p e with
  | Some a => Some a
  | None =>
      match e with
      | Wrapped _ e _ => find_err p e
      | Joined e1 e2 | Both e1 _ e2 => match find_err p e1 with Some a => Some a | None => find_err p e2 end
      | _ => None
      end
  end.
Definition Is (e target : err) : bool :=
  match find_err (λ e, if bool_decide (e = target) then Some () else None) e with Some _ => true | None => false end.
Definition as_refused : err → option string := find_err (λ e, match e with PlanRefusedError r => Some r | _ => None end).
Definition as_unconfirmed : err → option string :=
  find_err (λ e, match e with HostKeyUnconfirmedError fp => Some fp | _ => None end).

(** [errors.Join] *)
Fixpoint Join (l : list (option err)) : option err :=
  match l with
  | [] => None
  | None :: l => Join l
  | Some e :: l => match Join l with None => Some e | Some e' => Some (Joined e e') end
  end.

(** ** Data *)

Definition PlatformCiscoNXOS : string := "cisco-nxos".
Definition PlatformJuniperJunos : string := "juniper-junos".
Definition PlatformNETCONF : string := "netconf".
Definition Supported (p : string) : bool :=
  bool_decide (p ∈ [PlatformCiscoIOS; PlatformCiscoNXOS; PlatformAristaEOS; PlatformJuniperJunos; PlatformNETCONF]).
Definition Command (p : string) : option string :=
  if bool_decide (p ∈ [PlatformCiscoIOS; PlatformCiscoNXOS; PlatformAristaEOS]) then Some "show running-config"%string
  else if bool_decide (p = PlatformJuniperJunos) then Some "show configuration"%string else None.
Definition sshPort : Z := 22.
Definition netconfPort : Z := 830.
Definition DefaultPort (p : string) : Z := if bool_decide (p = PlatformNETCONF) then netconfPort else sshPort.

Inductive Status : Type :=
| StatusOK | StatusAuthFailed | StatusHostKeyMismatch | StatusHostKeyUnconfirmed | StatusUnreachable
| StatusCommandFailed | StatusError.
#[global] Instance Status_eq_dec : EqDecision Status.
Proof. solve_decision. Defined.
Definition status_text (s : Status) : string :=
  match s with
  | StatusOK => "ok" | StatusAuthFailed => "auth_failed" | StatusHostKeyMismatch => "host_key_mismatch"
  | StatusHostKeyUnconfirmed => "host_key_unconfirmed" | StatusUnreachable => "unreachable"
  | StatusCommandFailed => "command_failed" | StatusError => "error"
  end.

Record Target : Type := MkTarget {
  t_ID : string; t_ClientID : string; t_Name : string; t_Host : string; t_Port : Z; t_Platform : string;
  t_CredentialsID : string; t_HostKeySHA256 : string; t_PendingHostKeySHA256 : string;
  t_PushCredentialsID : string; t_CreatedAt : Z }.

Record Backup : Type := MkBackup {
  b_ID : string; b_ClientID : string; b_TargetID : string; b_TakenAt : Z; b_Status : Status;
  b_Error : string; b_SHA256 : string; b_Config : bytes; b_ConfigCT : bytes }.

Inductive ApplyOutcome : Type :=
| ApplyConfirmed | ApplyRolledBack | ApplyReverting | ApplyDrifted | ApplyFailed.
#[global] Instance ApplyOutcome_eq_dec : EqDecision ApplyOutcome.
Proof. solve_decision. Defined.
Inductive DiffSource : Type := DiffFromDevice | DiffPredicted.

Record Plan : Type := MkPlan {
  p_ID : string; p_ClientID : string; p_TargetID : string; p_CreatedBy : string; p_CreatedAt : Z; p_ExpiresAt : Z;
  p_Mode : string; p_DiffSource : DiffSource; p_BackupID : string; p_RunningSHA256 : string; p_DiffSHA256 : string;
  p_Added : Z; p_Removed : Z; p_Candidate : bytes; p_Diff : bytes; p_CandidateCT : bytes; p_DiffCT : bytes;
  p_AppliedAt : option Z; p_AppliedBy : string; p_ApplyOutcome : option ApplyOutcome }.

Record Credentials : Type := MkCredentials { cr_ID : string; cr_Kind : string; cr_SSHUser : string; cr_SSHPasswordCT : bytes }.
Definition CredentialKindSSH : string := "ssh".

Record Image : Type := MkImage {
  im_ID : string; im_ClientID : string; im_Name : string; im_Platform : string; im_Size : Z;
  im_SHA256 : string; im_SHA512 : string }.
Record ImageFacts : Type := MkImageFacts {
  if_Version : string; if_RunningImage : string; if_Dir : string; if_FreeBytes : Z; if_InstallMode : bool }.
Record DeviceImage : Type := MkDeviceImage {
  di_Dir : string; di_Name : string; di_Size : Z; di_SHA256 : string; di_SHA512 : string; di_Fallback : string }.

Record FetchRequest : Type := MkFetchRequest {
  fr_Host : string; fr_Port : Z; fr_User : string; fr_Password : bytes; fr_Command : string; fr_NETCONF : bool;
  fr_PinnedHostKey : string }.
Record DeviceRequest : Type := MkDeviceRequest {
  dr_Host : string; dr_Port : Z; dr_User : string; dr_Password : bytes; dr_PinnedHostKey : string; dr_Platform : string;
  dr_Mode : string; dr_Candidate : bytes; dr_CommitID : string }.

(** A configuration change's alert: its target and the lines it counts. *)
Record ChangeAlert : Type := MkChangeAlert {
  ca_Source : string; ca_Name : string; ca_Host : string; ca_BackupID : string; ca_PreviousBackupID : string;
  ca_PreviousTakenAt : Z; ca_Added : Z; ca_Removed : Z }.

(** A push's audit event: its action, who asked, the resource, and the plan,
    outcome or reason of its detail. *)
Record AuditEvent : Type := MkAudit {
  ae_Action : string; ae_User : string; ae_ResourceType : string; ae_ResourceID : string; ae_Remote : string;
  ae_UserAgent : string; ae_Detail : list (string * string) }.

(** ** Calls *)

Inductive call : Type :=
(* the store *)
| ListTargets (client : string)
| GetTarget (client id : string)
| SaveTargetRow (t : Target)
| DeleteTargetRow (client id : string)
| SetPendingHostKey (client id fingerprint : string)
| ConfirmHostKeyRow (client id fingerprint : string)
| ClearHostKeyRow (client id : string)
| SetPushCredentialsRow (client id cred : string)
| InsertBackup (b : Backup)
| PruneBackups (client target : string) (keep : Z)
| ListBackupRows (client target : string) (limit : Z)
| GetBackupRow (client id : string)
| LatestConfig (client target : string) (before : Z)
| InsertPlan (p : Plan)
| GetPlanRow (client id : string)
| ListPlanRows (client target : string) (limit : Z)
| PrunePlans (client target : string) (keep : Z)
| ClaimApply (client id user : string) (now : Z)
| FinishApply (client id : string) (o : ApplyOutcome)
| GetImage (client id : string)
(* the vault, the clock, the job, the alerts and the audit log *)
| GetCredentials (id client : string)
| EncryptValue (plain : bytes)
| DecryptValue (cipher : bytes)
| Now
| CtxErr
| CreateAlert (a : ChangeAlert)
| Audit (ev : AuditEvent)
| RandomName
(* one login to a device *)
| Fetch (req : FetchRequest)
| DryRun (req : DeviceRequest)
| Commit (req : DeviceRequest)
| Confirm (req : DeviceRequest)
| Rollback (req : DeviceRequest)
| ReadImageFacts (req : DeviceRequest)
| OpenImage (img : Image)
| CopyImage (req : DeviceRequest) (img : DeviceImage)
| VerifyImage (req : DeviceRequest) (img : DeviceImage)
| SetBoot (req : DeviceRequest) (img : DeviceImage)
(* the targets in use *)
| ClaimTarget (id : string)
| ReleaseTarget (id : string).

Definition resp (c : call) : Type :=
  match c with
  | ListTargets _ => list Target + err
  | GetTarget _ _ => Target + err
  | SaveTargetRow _ => string + err
  | InsertBackup _ | InsertPlan _ => string + err
  | ListBackupRows _ _ _ => list Backup + err
  | GetBackupRow _ _ | LatestConfig _ _ _ => Backup + err
  | GetPlanRow _ _ => Plan + err
  | ListPlanRows _ _ _ => list Plan + err
  | GetImage _ _ => Image + err
  | GetCredentials _ _ => Credentials + err
  | EncryptValue _ | DecryptValue _ => bytes + err
  | Now => Z
  | RandomName => string + err
  | Fetch _ => bytes + err
  | DryRun _ => DryRunResult + err
  | ReadImageFacts _ => ImageFacts + err
  | ClaimTarget _ => bool
  | ReleaseTarget _ => unit
  | _ => option err
  end.

Definition program (A : Type) : Type := prog resp A.
Definition ask (c : call) : program (resp c) := Call c Ret.

(** ** Times as text

    Backups are stamped with [time.RFC3339Nano] and compared as that text;
    plans with [time.RFC3339]. *)

(** [taken_at < ?] *)
Definition taken_lt (t u : Z) : bool := bool_decide (¬ stamp_le (stamp u) (stamp t)).
Definition to_second (t : Z) : Z := t / second * second.

(** [ORDER BY taken_at DESC, id] and [ORDER BY created_at DESC, id]. *)
Definition backup_le (a b : Backup) : Prop :=
  taken_lt (b_TakenAt b) (b_TakenAt a) = true ∨
  (taken_lt (b_TakenAt a) (b_TakenAt b) = false ∧ String.leb (b_ID a) (b_ID b) = true).
#[global] Instance backup_le_dec a b : Decision (backup_le a b).
Proof. unfold backup_le. apply _. Defined.
Definition plan_le (a b : Plan) : Prop :=
  p_CreatedAt b < p_CreatedAt a ∨ (p_CreatedAt a = p_CreatedAt b ∧ String.leb (p_ID a) (p_ID b) = true).
#[global] Instance plan_le_dec a b : Decision (plan_le a b).
Proof. unfold plan_le. apply _. Defined.
Definition target_le (a b : Target) : Prop :=
  String.ltb (t_Name a) (t_Name b) = true ∨ (t_Name a = t_Name b ∧ String.leb (t_ID a) (t_ID b) = true).
#[global] Instance target_le_dec a b : Decision (target_le a b).
Proof. unfold target_le. apply _. Defined.

(** ** Tables *)

Record DB : Type := MkDB { db_targets : list Target; db_backups : list Backup; db_plans : list Plan }.

Definition target_key (client id : string) (t : Target) : bool :=
  bool_decide (t_ID t = id) && bool_decide (t_ClientID t = client).
Definition backup_of (client target : string) (b : Backup) : bool :=
  bool_decide (b_ClientID b = client) && bool_decide (b_TargetID b = target).
Definition plan_of (client target : string) (p : Plan) : bool :=
  bool_decide (p_ClientID p = client) && bool_decide (p_TargetID p = target).
Definition plan_key (client id : string) (p : Plan) : bool :=
  bool_decide (p_ID p = id) && bool_decide (p_ClientID p = client).

Definition where_ {A} (p : A → bool) (rows : list A) : list A := List.filter p rows.

(** [UPDATE ... SET f WHERE p]: the rows after, and how many matched. *)
Definition update {A} (p : A → bool) (f : A → A) (rows : list A) : list A * nat :=
  (map (λ r, if p r then f r else r) rows, length (where_ p rows)).
Definition require_one_row {A} (u : A * nat) : option err :=
  if bool_decide (u.2 = 0%nat) then Some ErrNotFound else None.

Definition set_targets (db : DB) (ts : list Target) : DB := MkDB ts (db_backups db) (db_plans db).
Definition set_backups (db : DB) (bs : list Backup) : DB := MkDB (db_targets db) bs (db_plans db).
Definition set_plans (db : DB) (ps : list Plan) : DB := MkDB (db_targets db) (db_backups db) ps.

Definition with_host_keys (pinned pending : string) (t : Target) : Target :=
  MkTarget (t_ID t) (t_ClientID t) (t_Name t) (t_Host t) (t_Port t) (t_Platform t) (t_CredentialsID t)
    pinned pending (t_PushCredentialsID t) (t_CreatedAt t).
Definition with_push (cred : string) (t : Target) : Target :=
  MkTarget (t_ID t) (t_ClientID t) (t_Name t) (t_Host t) (t_Port t) (t_Platform t) (t_CredentialsID t)
    (t_HostKeySHA256 t) (t_PendingHostKeySHA256 t) cred (t_CreatedAt t).
Definition with_target_id (id : string) (t : Target) : Target :=
  MkTarget id (t_ClientID t) (t_Name t) (t_Host t) (t_Port t) (t_Platform t) (t_CredentialsID t)
    (t_HostKeySHA256 t) (t_PendingHostKeySHA256 t) (t_PushCredentialsID t) (t_CreatedAt t).
Definition with_backup_id (id : string) (b : Backup) : Backup :=
  MkBackup id (b_ClientID b) (b_TargetID b) (b_TakenAt b) (b_Status b) (b_Error b) (b_SHA256 b) (b_Config b) (b_ConfigCT b).
Definition without_config (b : Backup) : Backup :=
  MkBackup (b_ID b) (b_ClientID b) (b_TargetID b) (b_TakenAt b) (b_Status b) (b_Error b) (b_SHA256 b) [] [].
Definition stored_plan (id : string) (p : Plan) : Plan :=
  MkPlan id (p_ClientID p) (p_TargetID p) (p_CreatedBy p) (to_second (p_CreatedAt p)) (to_second (p_ExpiresAt p))
    (p_Mode p) (p_DiffSource p) (p_BackupID p) (p_RunningSHA256 p) (p_DiffSHA256 p) (p_Added p) (p_Removed p)
    [] [] (p_CandidateCT p) (p_DiffCT p) None "" None.
Definition without_text (p : Plan) : Plan :=
  MkPlan (p_ID p) (p_ClientID p) (p_TargetID p) (p_CreatedBy p) (p_CreatedAt p) (p_ExpiresAt p)
    (p_Mode p) (p_DiffSource p) (p_BackupID p) (p_RunningSHA256 p) (p_DiffSHA256 p) (p_Added p) (p_Removed p)
    [] [] [] [] (p_AppliedAt p) (p_AppliedBy p) (p_ApplyOutcome p).
Definition mark_applied (at_ : Z) (user : string) (p : Plan) : Plan :=
  MkPlan (p_ID p) (p_ClientID p) (p_TargetID p) (p_CreatedBy p) (p_CreatedAt p) (p_ExpiresAt p)
    (p_Mode p) (p_DiffSource p) (p_BackupID p) (p_RunningSHA256 p) (p_DiffSHA256 p) (p_Added p) (p_Removed p)
    (p_Candidate p) (p_Diff p) (p_CandidateCT p) (p_DiffCT p) (Some at_) user (p_ApplyOutcome p).
Definition mark_outcome (o : ApplyOutcome) (p : Plan) : Plan :=
  MkPlan (p_ID p) (p_ClientID p) (p_TargetID p) (p_CreatedBy p) (p_CreatedAt p) (p_ExpiresAt p)
    (p_Mode p) (p_DiffSource p) (p_BackupID p) (p_RunningSHA256 p) (p_DiffSHA256 p) (p_Added p) (p_Removed p)
    (p_Candidate p) (p_Diff p) (p_CandidateCT p) (p_DiffCT p) (p_AppliedAt p) (p_AppliedBy p) (Some o).

(** The row a saved target becomes: the time it was created stays, and the
    table refuses a push credential that is the backup's, or a second target
    on the host and port. *)
Definition saved_row (t old : Target) : Target :=
  MkTarget (t_ID old) (t_ClientID old) (t_Name t) (t_Host t) (t_Port t) (t_Platform t) (t_CredentialsID t)
    (t_HostKeySHA256 t) (t_PendingHostKeySHA256 t) (t_PushCredentialsID t) (t_CreatedAt old).
Definition same_place (t u : Target) : bool :=
  bool_decide (t_ClientID t = t_ClientID u) && bool_decide (t_Host t = t_Host u) && bool_decide (t_Port t = t_Port u).
Definition bad_push (cred push : string) : bool := negb (bool_decide (push = ""%string)) && bool_decide (push = cred).
Definition conflict : err := ValidationError "another backup target already uses this host and port".
Definition push_refused : err := OtherError "save device_config_targets: CHECK constraint failed".

Definition save_target (fresh : string) (t : Target) (db : DB) : (string + err) * DB :=
  if bad_push (t_CredentialsID t) (t_PushCredentialsID t) then (inr push_refused, db)
  else if bool_decide (t_ID t = ""%string) then
    if existsb (same_place t) (db_targets db) then (inr conflict, db)
    else (inl fresh, set_targets db (db_targets db ++ [with_target_id fresh t]))
  else if existsb (λ u, same_place t u && negb (target_key (t_ClientID t) (t_ID t) u)) (db_targets db)
          && existsb (target_key (t_ClientID t) (t_ID t)) (db_targets db) then (inr conflict, db)
  else
    let '(rows, n) := update (target_key (t_ClientID t) (t_ID t)) (saved_row t) (db_targets db) in
    if bool_decide (n = 0%nat) then (inr ErrNotFound, db) else (inl (t_ID t), set_targets db rows).

Definition newest (keep : Z) (rows : list Backup) : list string :=
  map b_ID (take (Z.to_nat keep) (merge_sort backup_le rows)).
Definition prune_backups (client target : string) (keep : Z) (bs : list Backup) : list Backup :=
  let theirs := where_ (backup_of client target) bs in
  let kept := newest keep theirs in
  let kept_ok := newest keep (where_ (λ b, bool_decide (b_Status b = StatusOK)) theirs) in
  where_ (λ b, negb (backup_of client target b) || bool_decide (b_ID b ∈ kept) || bool_decide (b_ID b ∈ kept_ok)) bs.
Definition prune_plans (client target : string) (keep : Z) (ps : list Plan) : list Plan :=
  let kept := map p_ID (take (Z.to_nat keep) (merge_sort plan_le (where_ (plan_of client target) ps))) in
  where_ (λ p, negb (plan_of client target p) || bool_decide (p_ID p ∈ kept)) ps.

Definition first_or {A} (rows : list A) : A + err :=
  match rows with [] => inr ErrNotFound | r :: _ => inl r end.

Definition claimable (client id : string) (at_ : Z) (p : Plan) : bool :=
  plan_key client id p && bool_decide (p_AppliedAt p = None) && (at_ <? p_ExpiresAt p).

(** What the database answers and becomes; [fresh] is the id the repository
    draws for a new row. [None]: not a call to the store. *)
Definition db_answer (fresh : string) (db : DB) (c : call) : option (resp c * DB) :=
  match c return option (resp c * DB) with
  | ListTargets client =>
      Some (inl (merge_sort target_le (where_ (λ t, bool_decide (t_ClientID t = client)) (db_targets db))), db)
  | GetTarget client id => Some (first_or (where_ (target_key client id) (db_targets db)), db)
  | SaveTargetRow t => Some (save_target fresh t db)
  | DeleteTargetRow client id =>
      let rows := where_ (λ t, negb (target_key client id t)) (db_targets db) in
      let n := length (where_ (target_key client id) (db_targets db)) in
      if bool_decide (n = 0%nat) then Some (Some ErrNotFound, db)
      else Some (None, MkDB rows (where_ (λ b, negb (backup_of client id b)) (db_backups db))
                   (where_ (λ p, negb (plan_of client id p)) (db_plans db)))
  | SetPendingHostKey client id fp =>
      let u := update (λ t, target_key client id t && bool_decide (t_HostKeySHA256 t = ""%string))
                 (with_host_keys "" fp) (db_targets db) in
      Some (None, set_targets db u.1)
  | ConfirmHostKeyRow client id fp =>
      let u := update (λ t, target_key client id t && bool_decide (t_PendingHostKeySHA256 t = fp)
                              && negb (bool_decide (fp = ""%string)))
                 (λ t, with_host_keys (t_PendingHostKeySHA256 t) "" t) (db_targets db) in
      Some (require_one_row u, set_targets db u.1)
  | ClearHostKeyRow client id =>
      let u := update (target_key client id) (with_host_keys "" "") (db_targets db) in
      Some (require_one_row u, set_targets db u.1)
  | SetPushCredentialsRow client id cred =>
      if existsb (λ t, target_key client id t && bad_push (t_CredentialsID t) cred) (db_targets db)
      then Some (Some push_refused, db)
      else let u := update (target_key client id) (with_push cred) (db_targets db) in
           Some (require_one_row u, set_targets db u.1)
  | InsertBackup b => Some (inl fresh, set_backups db (db_backups db ++ [with_backup_id fresh b]))
  | PruneBackups client target keep => Some (None, set_backups db (prune_backups client target keep (db_backups db)))
  | ListBackupRows client target limit =>
      Some (inl (map without_config
        (take (Z.to_nat limit) (merge_sort backup_le (where_ (backup_of client target) (db_backups db))))), db)
  | GetBackupRow client id =>
      Some (first_or (where_ (λ b, bool_decide (b_ID b = id) && bool_decide (b_ClientID b = client)) (db_backups db)), db)
  | LatestConfig client target before =>
      Some (first_or (merge_sort backup_le (where_ (λ b, backup_of client target b && bool_decide (b_Status b = StatusOK)
                                                      && taken_lt (b_TakenAt b) before) (db_backups db))), db)
  | InsertPlan p => Some (inl fresh, set_plans db (db_plans db ++ [stored_plan fresh p]))
  | GetPlanRow client id => Some (first_or (where_ (plan_key client id) (db_plans db)), db)
  | ListPlanRows client target limit =>
      Some (inl (map without_text
        (take (Z.to_nat limit) (merge_sort plan_le (where_ (plan_of client target) (db_plans db))))), db)
  | PrunePlans client target keep => Some (None, set_plans db (prune_plans client target keep (db_plans db)))
  | ClaimApply client id user now =>
      let u := update (claimable client id (to_second now)) (mark_applied (to_second now) user) (db_plans db) in
      if bool_decide (u.2 = 0%nat) then Some (Some ErrPlanSpent, db) else Some (None, set_plans db u.1)
  | FinishApply client id o =>
      let u := update (λ p, plan_key client id p && negb (bool_decide (p_AppliedAt p = None))) (mark_outcome o) (db_plans db) in
      Some (None, set_plans db u.1)
  | _ => None
  end.

(** An answer that is an error. *)
Definition fails (c : call) : resp c → Prop :=
  match c return resp c → Prop with
  | ListTargets _ | GetTarget _ _ | SaveTargetRow _ | InsertBackup _ | InsertPlan _ | ListBackupRows _ _ _
  | GetBackupRow _ _ | LatestConfig _ _ _ | GetPlanRow _ _ | ListPlanRows _ _ _ => λ r, ∃ e, r = inr e
  | DeleteTargetRow _ _ | SetPendingHostKey _ _ _ | ConfirmHostKeyRow _ _ _ | ClearHostKeyRow _ _
  | SetPushCredentialsRow _ _ _ | PruneBackups _ _ _ | PrunePlans _ _ _ | ClaimApply _ _ _ _ | FinishApply _ _ _ =>
      λ r, ∃ e, r = Some e
  | _ => λ _, False
  end.

Definition ids (db : DB) : list string := map t_ID (db_targets db) ++ map b_ID (db_backups db) ++ map p_ID (db_plans db).

(** A statement does its work, or fails and changes nothing. A drawn id is
    new. *)
Definition serve_db (db : DB) (c : call) (r : resp c) (db' : DB) : Prop :=
  (∃ fresh, fresh ≠ ""%string ∧ fresh ∉ ids db ∧ db_answer fresh db c = Some (r, db')) ∨ (fails c r ∧ db' = db).

(** ** Pinned keys *)

Lemma elem_of_where {A} (p : A → bool) rows r : r ∈ where_ p rows ↔ r ∈ rows ∧ p r = true.
Proof. unfold where_. rewrite !list_elem_of_In. apply filter_In. Qed.

Lemma elem_of_update {A} (p : A → bool) f rows r : r ∈ (update p f rows).1 →
  ∃ r0, r0 ∈ rows ∧ ((p r0 = true ∧ r = f r0) ∨ (p r0 = false ∧ r = r0)).
Proof.
  cbn. rewrite list_elem_of_In, in_map_iff. intros (r0 & <- & Hr). exists r0. rewrite list_elem_of_In.
  split; [done|]. destruct (p r0); auto.
Qed.

(** No statement but a confirmation pins a key that was not pinned before,
    and it pins the key that is pending and the operator named. *)
Theorem pinned_by_confirmation db c r db' t' :
  serve_db db c r db' → (∀ t, c ≠ SaveTargetRow t) → t' ∈ db_targets db' → t_HostKeySHA256 t' ≠ ""%string →
  ∃ t, t ∈ db_targets db ∧ t_ID t = t_ID t' ∧ t_ClientID t = t_ClientID t' ∧
    (t_HostKeySHA256 t = t_HostKeySHA256 t' ∨
     (c = ConfirmHostKeyRow (t_ClientID t) (t_ID t) (t_HostKeySHA256 t') ∧ t_PendingHostKeySHA256 t = t_HostKeySHA256 t')).
Proof.
  intros [(fresh & _ & _ & Ha)|[_ ->] ] Hc Hin Hk; [|by exists t'; auto].
  assert (db_targets db' = db_targets db → ∃ t, t ∈ db_targets db ∧ t_ID t = t_ID t' ∧ t_ClientID t = t_ClientID t' ∧
    (t_HostKeySHA256 t = t_HostKeySHA256 t' ∨
     (c = ConfirmHostKeyRow (t_ClientID t) (t_ID t) (t_HostKeySHA256 t') ∧ t_PendingHostKeySHA256 t = t_HostKeySHA256 t'))) as Hsame.
  { intros E. exists t'. rewrite <-E. auto. }
  destruct c; cbn [db_answer] in Ha;
    try (injection Ha as <- <-; by apply Hsame); try done.
  - exfalso. by eapply Hc.
  - case_bool_decide; injection Ha as <- <-; [by apply Hsame|]. cbn in Hin. apply elem_of_where in Hin as [Hin _]. exists t'. auto.
  - injection Ha as <- <-. apply elem_of_update in Hin as (t & Ht & [ [_ ->]|[_ ->] ]); [by cbn in Hk|]. exists t. auto.
  - injection Ha as <- <-. apply elem_of_update in Hin as (t & Ht & [ [Hp ->]|[_ ->] ]); [|exists t; auto].
    unfold target_key in Hp. rewrite !andb_true_iff, !bool_decide_eq_true in Hp. destruct Hp as [ [ [H1 H2] H3] _].
    exists t. cbn. split_and!; try done. right. by subst.
  - injection Ha as <- <-. apply elem_of_update in Hin as (t & Ht & [ [_ ->]|[_ ->] ]); [by cbn in Hk|]. exists t. auto.
  - destruct (existsb _ _); injection Ha as <- <-; [by apply Hsame|].
    apply elem_of_update in Hin as (t & Ht & [ [_ ->]|[_ ->] ]); exists t; auto.
  - case_bool_decide; injection Ha as <- <-; by apply Hsame.
Qed.

Definition target_example : Target :=
  MkTarget "t1" "c1" "core" "10.0.0.1" 22 PlatformCiscoIOS "cred" "SHA256:old" "" "push" 0.

Lemma pinned_by_confirmation_witness : ∃ db',
  serve_db (MkDB [with_host_keys "" "SHA256:new" target_example] [] [])
    (ConfirmHostKeyRow "c1" "t1" "SHA256:new") None db' ∧
  ∃ t, t ∈ [with_host_keys "" "SHA256:new" target_example] ∧ t_PendingHostKeySHA256 t = "SHA256:new"%string.
Proof.
  eexists. assert (serve_db (MkDB [with_host_keys "" "SHA256:new" target_example] [] [])
    (ConfirmHostKeyRow "c1" "t1" "SHA256:new") None (MkDB [with_host_keys "SHA256:new" "" target_example] [] [])) as Hs.
  { left. exists "x"%string. split; [done|]. split; [vm_compute; set_solver|]. vm_compute. reflexivity. }
  split; [exact Hs|].
  destruct (pinned_by_confirmation _ _ _ _ (with_host_keys "SHA256:new" "" target_example) Hs) as (t & Ht & _ & _ & [H|[_ H] ]).
  - done.
  - left.
  - done.
  - exists t. apply list_elem_of_singleton in Ht as ->. split; [left|reflexivity].
  - exists t. split; [exact Ht|exact H].
Defined.
