(* ===== verification/ConfigBackup.v ===== *)
(** * Backing device configurations up (src/internal/deviceconfig/deviceconfig.go)

    The use-case as programs over the calls of [ConfigStore]: saving targets
    and their host keys, one device's attempt, a run's result and the diff of
    two stored configurations. *)
From Stdlib Require Import ZArith Lia.
From stdpp Require Import base sets list strings.
From S2P Require Import Prelude GoBase GoText IosConfig Effects ConfigStore.
#[local] Open Scope prog_scope.

(** ** Texts *)

Definition string_of (b : bytes) : string :=
  fold_right (λ c s, String (Ascii.ascii_of_nat (Z.to_nat c)) s) EmptyString b.
Definition TrimString (s : string) : string := string_of (TrimSpace (ascii_bytes s)).

(** [imageNamePattern] and [validHostnameRegex] are of letters and digits. *)
Definition alnum (c : Z) : bool :=
  ((48 <=? c) && (c <=? 57)) || ((65 <=? c) && (c <=? 90)) || ((97 <=? c) && (c <=? 122)).
Definition MaxHostnameLength : Z := 253.

(** One label: letters, digits and dashes, no dash at either end, at most 63. *)
Definition valid_label (l : bytes) : bool :=
  match l, rev l with
  | c :: _, d :: _ => alnum c && alnum d && forallb (λ x, alnum x || (x =? 45)) l && (len l <=? 63)
  | _, _ => false
  end.
Definition IsValidHostname (s : string) : bool :=
  let b := ascii_bytes s in
  negb (bool_decide (s = ""%string)) && (len b <=? MaxHostnameLength) && forallb valid_label (Split b 46).

Definition deviceTimeout : Z := 60 * second.
Definition runConcurrency : Z := 4.
Definition backupRetention : Z := 50.

Record TargetInput : Type := MkTargetInput {
  ti_ID : string; ti_ClientID : string; ti_Name : string; ti_Host : string; ti_Port : Z; ti_Platform : string;
  ti_CredentialsID : string }.
Record DeviceResult : Type := MkDeviceResult {
  r_TargetID : string; r_Name : string; r_BackupID : string; r_Status : Status; r_Error : string }.
Record RunResult : Type := MkRunResult { rr_Results : list DeviceResult; rr_Succeeded : Z; rr_Failed : Z }.
Record Diff : Type := MkDiff {
  d_TargetID : string; d_BackupID : string; d_TakenAt : Z; d_PreviousBackupID : string; d_PreviousTakenAt : Z;
  d_Added : Z; d_Removed : Z; d_Unified : bytes }.

Definition statusOf (e : err) : Status :=
  if Is e ErrAuth then StatusAuthFailed
  else if Is e ErrHostKeyMismatch then StatusHostKeyMismatch
  else match as_unconfirmed e with
  | Some _ => StatusHostKeyUnconfirmed
  | None =>
      if Is e ErrUnreachable then StatusUnreachable
      else if Is e ErrCommand then StatusCommandFailed else StatusError
  end.

Section backups.
(** [net.ParseIP], SHA-256 in hex, and the diff library. *)
Context (ParseIP : string → bool) (hex_sha256 : bytes → string) `{DL : !Difflib}.

Definition IsValidHostOrIP (s : string) : bool := ParseIP s || IsValidHostname s.

(** ** Targets *)

Definition checkSSHCredential (clientID id field : string) : program (option err) :=
  r <~ ask (GetCredentials id clientID);
  Ret match r with
  | inr e => if Is e ErrCredentialsNotFound then Some (ValidationError (field +:+ " does not name a stored credential")) else Some e
  | inl cred =>
      if bool_decide (cr_Kind cred = CredentialKindSSH) then None
      else Some (ValidationError (field +:+ " must name an SSH credential"))
  end.

Definition validateTarget (t : Target) : program (option err) :=
  if bool_decide (t_Name t = ""%string) then Ret (Some (ValidationError "name is required"))
  else if negb (IsValidHostOrIP (t_Host t)) then Ret (Some (ValidationError "host must be an IP address or a hostname"))
  else if (t_Port t <? 1) || (65535 <? t_Port t) then Ret (Some (ValidationError "port must be between 1 and 65535"))
  else if negb (Supported (t_Platform t)) then
    Ret (Some (ValidationError "platform must be one of cisco-ios, cisco-nxos, arista-eos, juniper-junos, netconf"))
  else checkSSHCredential (t_ClientID t) (t_CredentialsID t) "credentialsId".

Definition input_target (input : TargetInput) : Target :=
  MkTarget (ti_ID input) (ti_ClientID input) (TrimString (ti_Name input)) (TrimString (ti_Host input))
    (if ti_Port input =? 0 then DefaultPort (ti_Platform input) else ti_Port input)
    (ti_Platform input) (ti_CredentialsID input) "" "" "" 0.

(** What an edited target keeps of the one before: its push credential, and
    its host keys unless it moved. *)
Definition carried (t prev : Target) : Target :=
  let here := bool_decide (t_Host prev = t_Host t) && bool_decide (t_Port prev = t_Port t) in
  MkTarget (t_ID t) (t_ClientID t) (t_Name t) (t_Host t) (t_Port t) (t_Platform t) (t_CredentialsID t)
    (if here then t_HostKeySHA256 prev else t_HostKeySHA256 t)
    (if here then t_PendingHostKeySHA256 prev else t_PendingHostKeySHA256 t)
    (t_PushCredentialsID prev) (t_CreatedAt prev).

Definition write_target (t : Target) : program (Target + err) :=
  id <~! ask (SaveTargetRow t);
  ask (GetTarget (t_ClientID t) id).

Definition SaveTarget (input : TargetInput) : program (Target + err) :=
  let t := input_target input in
  must validateTarget t;
  if bool_decide (t_ID t = ""%string) then write_target t
  else
    prev <~! ask (GetTarget (t_ClientID t) (t_ID t));
    if negb (bool_decide (t_PushCredentialsID prev = ""%string)) && bool_decide (t_PushCredentialsID prev = t_CredentialsID t)
    then Ret (inr (ValidationError "credentialsId is the target's push credential"))
    else write_target (carried t prev).

Definition SetPushCredentials (clientID id credentialsID : string) : program (option err) :=
  if bool_decide (credentialsID = ""%string) then ask (SetPushCredentialsRow clientID id credentialsID)
  else
    r <~ ask (GetTarget clientID id);
    match r with
    | inr e => Ret (Some e)
    | inl t =>
        if bool_decide (credentialsID = t_CredentialsID t)
        then Ret (Some (ValidationError "the push credential must not be the backup credential"))
        else
          e <~ checkSSHCredential clientID credentialsID "credentialsId";
          match e with
          | Some e => Ret (Some e)
          | None => ask (SetPushCredentialsRow clientID id credentialsID)
          end
    end.

Definition ConfirmHostKey (clientID id fingerprint : string) : program (option err) :=
  r <~ ask (GetTarget clientID id);
  match r with
  | inr e => Ret (Some e)
  | inl t =>
      if bool_decide (t_PendingHostKeySHA256 t = ""%string) || negb (bool_decide (t_PendingHostKeySHA256 t = fingerprint))
      then Ret (Some (ValidationError "fingerprint does not match the target's pending host key"))
      else ask (ConfirmHostKeyRow clientID id fingerprint)
  end.

Definition ClearHostKey (clientID id : string) : program (option err) := ask (ClearHostKeyRow clientID id).

(** ** One device *)

(** [login]: the configuration the device runs, in LF lines. *)
Definition login (t : Target) : program (bytes + err) :=
  cred <~! ask (GetCredentials (t_CredentialsID t) (t_ClientID t)) or (wrap_err "read credential");
  if negb (bool_decide (cr_Kind cred = CredentialKindSSH))
  then Ret (inr (OtherError ("credential " +:+ cr_ID cred +:+ " is " +:+ cr_Kind cred +:+ ", not SSH")))
  else
    password <~! ask (DecryptValue (cr_SSHPasswordCT cred)) or (wrap_err "decrypt SSH password");
    output <~! ask (Fetch (MkFetchRequest (t_Host t) (t_Port t) (cr_SSHUser cred) password
      (default ""%string (Command (t_Platform t))) (bool_decide (t_Platform t = PlatformNETCONF)) (t_HostKeySHA256 t)));
    let output := crlf_to_lf output in
    if bool_decide (TrimSpace output = [])
    then Ret (inr (Wrapped "" ErrCommand ": the device returned no configuration"))
    else Ret (inl output).

Definition encryptConfig (output : bytes) : program (bytes + err) :=
  ct <~! ask (EncryptValue output) or (wrap_err "encrypt configuration");
  if bool_decide (ct = output) then Ret (inr (Wrapped "" ErrCommand ": the output is not a configuration"))
  else Ret (inl ct).

Definition diffConfigs (prev : Backup) (prevConfig : bytes) (cur : Backup) (curConfig : bytes) : Diff :=
  let '(added, removed) := countChanges (SplitLines prevConfig) (SplitLines curConfig) in
  MkDiff (b_TargetID cur) (b_ID cur) (b_TakenAt cur) (b_ID prev) (b_TakenAt prev) added removed [].

Definition alertChange (t : Target) (prev cur : Backup) (config : bytes) : program (option err) :=
  r <~ ask (DecryptValue (b_ConfigCT prev));
  match r with
  | inr e => Ret (Some (wrap_err ("decrypt configuration " +:+ b_ID prev) e))
  | inl prevConfig =>
      let d := diffConfigs prev prevConfig cur config in
      e <~ ask (CreateAlert (MkChangeAlert (t_ID t) (t_Name t) (t_Host t) (d_BackupID d) (d_PreviousBackupID d)
        (b_TakenAt prev) (d_Added d) (d_Removed d)));
      Ret (wrap_err ("alert configuration change of " +:+ t_ID t) <$> e)
  end.

(** The attempt to store: the ciphertext of what was read, or its error. *)
Definition attempt (t : Target) (takenAt : Z) (output ct : bytes + err) : Backup :=
  match output, ct with
  | inl o, inl ct => MkBackup "" (t_ClientID t) (t_ID t) takenAt StatusOK "" (hex_sha256 o) [] ct
  | inl _, inr e | inr e, _ => MkBackup "" (t_ClientID t) (t_ID t) takenAt (statusOf e) (Error e) "" [] []
  end.

(** The attempt is recorded, and the change from [prev] raised. *)
Definition record_attempt (t : Target) (b : Backup) (prev : option Backup) (output : bytes) : program (DeviceResult + err) :=
  id <~! ask (InsertBackup b) or (wrap_err ("record backup of " +:+ t_ID t));
  let b := with_backup_id id b in
  must (match prev with
        | Some p => if bool_decide (b_ID p = ""%string) then Ret None else alertChange t p b output
        | None => Ret None
        end);
  must ask (PruneBackups (t_ClientID t) (t_ID t) backupRetention) or (wrap_err ("prune backups of " +:+ t_ID t));
  Ret (inl (MkDeviceResult (t_ID t) (t_Name t) id (b_Status b) (b_Error b))).

(** The attempt against the target's latest stored configuration: the same
    one is not stored again. *)
Definition compare_latest (t : Target) (b : Backup) (output : bytes) : program (DeviceResult + err) :=
  r <~ ask (LatestConfig (t_ClientID t) (t_ID t) (b_TakenAt b));
  match r with
  | inr e =>
      if Is e ErrNotFound then record_attempt t b None output
      else Ret (inr (wrap_err ("read latest configuration of " +:+ t_ID t) e))
  | inl latest =>
      if bool_decide (b_SHA256 latest = b_SHA256 b)
      then Ret (inl (MkDeviceResult (t_ID t) (t_Name t) (b_ID latest) StatusOK ""))
      else record_attempt t b (Some latest) output
  end.

Definition backupOne (t : Target) : program (DeviceResult + err) :=
  takenAt <~ ask Now;
  output <~ login t;
  cancelled <~ ask CtxErr;
  match cancelled with
  | Some e => Ret (inr e)
  | None =>
      ct <~ match output with inl o => encryptConfig o | inr e => Ret (inr e) end;
      let b := attempt t takenAt output ct in
      let failed := match output, ct with inr e, _ => Some e | inl _, inr e => Some e | _, _ => None end in
      must (match failed ≫= as_unconfirmed with
            | Some fp => ask (SetPendingHostKey (t_ClientID t) (t_ID t) fp)
            | None => Ret None
            end) or (wrap_err ("record pending host key for " +:+ t_ID t));
      match output, b_Status b with
      | inl o, StatusOK => compare_latest t b o
      | _, _ => record_attempt t b None []
      end
  end.

(** ** Runs *)

Fixpoint find_targets (clientID : string) (ids : list string) : program (list Target + err) :=
  match ids with
  | [] => Ret (inl [])
  | id :: ids =>
      r <~ ask (GetTarget clientID id);
      match r with
      | inr e =>
          if Is e ErrNotFound
          then Ret (inr (ValidationError ("no backup target " +:+ dquote +:+ id +:+ dquote)))
          else Ret (inr e)
      | inl t => ts <~! find_targets clientID ids; Ret (inl (t :: ts))
      end
  end.
Definition runTargets (clientID : string) (ids : list string) : program (list Target + err) :=
  match ids with [] => ask (ListTargets clientID) | _ => find_targets clientID ids end.

(** What a run makes of its devices' results, each at its target's place
    whatever order they ended in. *)
Definition run_result (cancelled : option err) (results : list (DeviceResult + err)) : RunResult + err :=
  match cancelled with
  | Some e => inr e
  | None =>
      match Join (map (λ r, match r with inr e => Some e | inl _ => None end) results) with
      | Some e => inr e
      | None =>
          let rs := omap (λ r, match r with inl r => Some r | inr _ => None end) results in
          let ok := List.filter (λ r, bool_decide (r_Status r = StatusOK)) rs in
          inl (MkRunResult rs (len ok) (len rs - len ok))
      end
  end.

(** The fractions a run of [n] devices reports, one as each ends. *)
Definition run_reports (n : nat) : list (nat * nat) := map (λ k, (S k, n)) (seq 0 n).

(** ** Reading *)

Definition with_plain (b : Backup) (config : bytes) : Backup :=
  MkBackup (b_ID b) (b_ClientID b) (b_TargetID b) (b_TakenAt b) (b_Status b) (b_Error b) (b_SHA256 b) config [].

Definition GetBackup (clientID id : string) : program (Backup + err) :=
  b <~! ask (GetBackupRow clientID id);
  if bool_decide (b_ConfigCT b = []) then Ret (inl b)
  else
    config <~! ask (DecryptValue (b_ConfigCT b)) or (wrap_err ("decrypt configuration " +:+ id));
    Ret (inl (with_plain b config)).

Definition unifiedDiff (prev : Backup) (prevConfig : bytes) (cur : Backup) (curConfig : bytes) : bytes + err :=
  match UnifiedDiff (b_ID prev) (SplitLines prevConfig) (b_ID cur) (SplitLines curConfig) with
  | Some text => inl text
  | None => inr (wrap_err "render configuration diff" (OtherError ""))
  end.

Definition diff_of (clientID id : string) : program (Diff + err) :=
  cur <~! GetBackup clientID id;
  if negb (bool_decide (b_Status cur = StatusOK))
  then Ret (inr (ValidationError "the backup attempt failed and holds no configuration"))
  else
    prev <~! ask (LatestConfig clientID (b_TargetID cur) (b_TakenAt cur));
    prevConfig <~! ask (DecryptValue (b_ConfigCT prev)) or (wrap_err ("decrypt configuration " +:+ b_ID prev));
    let d := diffConfigs prev prevConfig cur (b_Config cur) in
    Ret match unifiedDiff prev prevConfig cur (b_Config cur) with
    | inl text => inl (MkDiff (d_TargetID d) (d_BackupID d) (d_TakenAt d) (d_PreviousBackupID d) (d_PreviousTakenAt d)
                         (d_Added d) (d_Removed d) text)
    | inr e => inr e
    end.
End backups.

(** ** What an attempt may do

    A session records what was fetched, the latest stored configuration, and
    the attempt inserted; [backup_allowed] is what one device's attempt may
    call when. *)
Record session : Type := MkSession {
  bs_fetched : option (bytes + err); bs_latest : option (Backup + err); bs_inserted : option (Backup * string);
  bs_alerted : bool }.
Definition fresh_session : session := MkSession None None None false.

Definition backup_next (s : session) (c : call) : resp c → session :=
  match c return resp c → session with
  | Fetch _ => λ r, MkSession (Some r) (bs_latest s) (bs_inserted s) (bs_alerted s)
  | LatestConfig _ _ _ => λ r, MkSession (bs_fetched s) (Some r) (bs_inserted s) (bs_alerted s)
  | InsertBackup b => λ r,
      match r with
      | inl id => MkSession (bs_fetched s) (bs_latest s) (Some (b, id)) (bs_alerted s)
      | inr _ => s
      end
  | CreateAlert _ => λ r, match r with None => MkSession (bs_fetched s) (bs_latest s) (bs_inserted s) true | Some _ => s end
  | _ => λ _, s
  end.

(** Only a login to a device answers with a key to confirm; a drawn id is not
    empty. *)
Definition backup_possible (c : call) : resp c → Prop :=
  match c return resp c → Prop with
  | GetCredentials _ _ => λ r, match r with inr e => as_unconfirmed e = None | inl _ => True end
  | EncryptValue _ | DecryptValue _ => λ r, match r with inr e => as_unconfirmed e = None | inl _ => True end
  | _ => λ _, True
  end.

Section contract.
Context (hex_sha256 : bytes → string) (t : Target).

(** What a device answered, as it is stored. *)
Definition fetched (s : session) (o : bytes) : Prop :=
  ∃ raw, bs_fetched s = Some (inl raw) ∧ o = crlf_to_lf raw ∧ TrimSpace o ≠ [].
Definition latest_sha (s : session) (sha : string) : Prop := ∃ l, bs_latest s = Some (inl l) ∧ b_SHA256 l = sha.

Definition backup_allowed (s : session) (c : call) : Prop :=
  match c with
  | Now | CtxErr | EncryptValue _ | DecryptValue _ => True
  | GetCredentials id client => id = t_CredentialsID t ∧ client = t_ClientID t
  | Fetch req =>
      bs_fetched s = None ∧ fr_Host req = t_Host t ∧ fr_Port req = t_Port t ∧ fr_PinnedHostKey req = t_HostKeySHA256 t
  | SetPendingHostKey client id fp =>
      client = t_ClientID t ∧ id = t_ID t ∧ ∃ e, bs_fetched s = Some (inr e) ∧ as_unconfirmed e = Some fp
  | LatestConfig client id _ => client = t_ClientID t ∧ id = t_ID t ∧ ∃ o, fetched s o
  | InsertBackup b =>
      bs_inserted s = None ∧ b_ClientID b = t_ClientID t ∧ b_TargetID b = t_ID t ∧
      (if bool_decide (b_Status b = StatusOK)
       then (∃ o, fetched s o ∧ b_SHA256 b = hex_sha256 o) ∧ ¬ latest_sha s (b_SHA256 b)
       else b_ConfigCT b = [] ∧ b_SHA256 b = ""%string)
  | CreateAlert a =>
      ∃ b id l, bs_inserted s = Some (b, id) ∧ bs_latest s = Some (inl l) ∧ b_SHA256 l ≠ b_SHA256 b ∧
        ca_Source a = t_ID t ∧ ca_BackupID a = id ∧ ca_PreviousBackupID a = b_ID l
  | PruneBackups client id _ => client = t_ClientID t ∧ id = t_ID t ∧ bs_inserted s ≠ None
  | _ => False
  end.

(** The result names a stored configuration that is what the device runs; one
    that was not stored before has been alerted on. *)
Definition backup_post (r : DeviceResult + err) (s : session) : Prop :=
  match r with
  | inr _ => True
  | inl res =>
      r_TargetID res = t_ID t ∧
      match r_Status res with
      | StatusOK =>
          ∃ o, fetched s o ∧
            ((∃ l, bs_latest s = Some (inl l) ∧ b_ID l = r_BackupID res ∧ b_SHA256 l = hex_sha256 o ∧ bs_inserted s = None) ∨
             (∃ b, bs_inserted s = Some (b, r_BackupID res) ∧ b_Status b = StatusOK ∧ b_SHA256 b = hex_sha256 o ∧
                ∀ l, bs_latest s = Some (inl l) → b_ID l ≠ ""%string → b_SHA256 l ≠ hex_sha256 o ∧ bs_alerted s = true))
      | st => ∃ b, bs_inserted s = Some (b, r_BackupID res) ∧ b_Status b = st ∧ b_Error b = r_Error res
      end
  end.

Abbreviation holds := (obeys backup_allowed backup_possible backup_next).
End contract.

Lemma statusOf_not_ok e : statusOf e ≠ StatusOK.
Proof. unfold statusOf. repeat (case_match; try done). Qed.

#[local] Arguments diffConfigs : simpl never.

Section attempts.
Context (hex_sha256 : bytes → string) `{DL : !Difflib} (t : Target).
Abbreviation allowed := (backup_allowed hex_sha256 t).
Abbreviation obeys_ := (obeys allowed backup_possible backup_next).

Lemma login_obeys s (Q : bytes + err → session → Prop) : bs_fetched s = None →
  (∀ r f, (match r with
           | inl o => ∃ raw, f = Some (inl raw) ∧ o = crlf_to_lf raw ∧ TrimSpace o ≠ []
           | inr e => ∀ fp, as_unconfirmed e = Some fp → ∃ e', f = Some (inr e') ∧ as_unconfirmed e' = Some fp
           end) → Q r (MkSession f (bs_latest s) (bs_inserted s) (bs_alerted s))) →
  obeys_ (login t) Q s.
Proof.
  intros Hf HQ. destruct s as [f l i a]. cbn in Hf. subst f. cbn in HQ. unfold login. cbn.
  split; [done|]. intros [cred|e] Hp; cbn.
  2:{ apply HQ. cbn. intros fp Hfp. change (as_unconfirmed e = Some fp) in Hfp. congruence. }
  case_bool_decide; cbn; [|apply HQ; cbn; intros fp Hfp; discriminate].
  split; [done|]. intros [pw|e] Hp2; cbn.
  2:{ apply HQ. cbn. intros fp Hfp. change (as_unconfirmed e = Some fp) in Hfp. congruence. }
  split; [done|]. intros [raw|e] _; cbn.
  - case_bool_decide as Ht; cbn; apply HQ; cbn.
    + intros fp Hfp. discriminate.
    + by exists raw.
  - apply HQ. intros fp Hfp. by exists e.
Qed.

Lemma record_obeys b prev o s :
  bs_inserted s = None → bs_alerted s = false → allowed s (InsertBackup b) → b_Status b ≠ StatusOK ∨ fetched s o →
  (match prev with Some l => bs_latest s = Some (inl l) ∧ b_Status b = StatusOK | None => ∀ l, bs_latest s ≠ Some (inl l) end) →
  obeys_ (record_attempt t b prev o) (backup_post hex_sha256 t) s.
Proof.
  destruct s as [f lt i al]. cbn [bs_inserted bs_alerted bs_latest]. intros -> -> Ha Ho Hprev. unfold record_attempt. cbn [ptry pbind ask obeys].
  split; [exact Ha|]. intros [id|e] _; [|done]. cbn [backup_next with_backup_id].
  destruct Ha as (_ & Hc & Ht & Hb).
  assert (∀ al', (∀ l, lt = Some (inl l) → b_Status b = StatusOK → b_ID l ≠ ""%string → al' = true) →
    backup_post hex_sha256 t (inl (MkDeviceResult (t_ID t) (t_Name t) id (b_Status b) (b_Error b)))
      (MkSession f lt (Some (b, id)) al')) as Hpost.
  { intros al' Hal. cbn. split; [done|]. destruct (decide (b_Status b = StatusOK)) as [Es|Es].
    - rewrite Es. rewrite bool_decide_eq_true_2 in Hb by done. destruct Hb as [(o' & Hf' & Hsha) Hne].
      exists o'. split; [exact Hf'|]. right. exists b. split_and!; try done. intros l Hl Hid. split; [|by eapply Hal].
      intros E. apply Hne. exists l. cbn. by rewrite Hsha.
    - destruct (b_Status b) eqn:E; try done; by exists b. }
  destruct prev as [l|].
  - destruct Hprev as [Hl Hok]. unfold pdo. cbn [pbind]. rewrite bool_decide_eq_true_2 in Hb by done.
    destruct Hb as [(o' & Hf' & Hsha) Hne].
    case_bool_decide as Hid.
    + cbn. split; [done|]. intros [e|] _; [done|]. apply Hpost. congruence.
    + unfold alertChange. cbn. split; [done|]. intros [pc|e] _; cbn; [|done].
      assert (∀ c, d_BackupID (diffConfigs l pc (with_backup_id id b) c) = id ∧ d_PreviousBackupID (diffConfigs l pc (with_backup_id id b) c) = b_ID l) as Hd.
      { intros c. unfold diffConfigs. by destruct (countChanges _ _). }
      split.
      * exists b, id, l. split_and!; try done; [|by apply Hd..]. intros E. apply Hne. by exists l.
      * intros [e|] _; cbn; [done|]. split; [done|]. intros [e|] _; [done|]. by apply Hpost.
  - unfold pdo. cbn. split; [done|]. intros [e|] _; [done|]. apply Hpost. intros l Hl. by destruct (Hprev l).
Qed.

#[local] Arguments record_attempt : simpl never.
#[local] Arguments backup_post : simpl never.
#[local] Arguments as_unconfirmed : simpl never.
#[local] Arguments wrap_err : simpl never.
#[local] Arguments statusOf : simpl never.

Lemma backupOne_obeys : obeys_ (backupOne hex_sha256 t) (backup_post hex_sha256 t) fresh_session.
Proof.
  unfold backupOne. cbn [pbind ask obeys]. split; [done|]. intros takenAt _. apply obeys_bind.
  apply login_obeys; [done|]. intros r f Hr. cbn [bs_latest bs_inserted bs_alerted fresh_session backup_next pbind ask obeys].
  split; [done|]. intros [e|] _; [done|]. cbn [backup_next]. apply obeys_bind.
  destruct r as [o|e].
  - assert (fetched (MkSession f None None false) o) as Hf by exact Hr.
    unfold encryptConfig. cbn [ptry pbind ask obeys]. split; [done|]. intros [ct|e] Hp; cbn [backup_next].
    + case_bool_decide as Ect.
      * cbn. apply record_obeys; cbn; [done|done| |by left|done]. split_and!; done.
      * cbn. split; [split_and!; [done|done|by exists o]|]. intros [l|e] _; cbn.
        -- case_bool_decide as Esha; cbn.
           ++ split; [done|]. exists o. split; [exact Hr|]. left. by exists l.
           ++ apply record_obeys; cbn; [done|done| |by right|done]. do 3 (split; [done|]).
              rewrite bool_decide_eq_true_2 by done. split; [by exists o|]. by intros (l' & [= <-] & El).
        -- destruct (Is e ErrNotFound); [|done]. apply record_obeys; cbn; [done|done| |by right|done].
           do 3 (split; [done|]). rewrite bool_decide_eq_true_2 by done. split; [by exists o|]. by intros (l' & ? & _).
    + cbn. assert (as_unconfirmed (wrap_err "encrypt configuration" e) = None) as -> by exact Hp. cbn.
      pose proof (statusOf_not_ok (wrap_err "encrypt configuration" e)) as Hs.
      destruct (statusOf _) eqn:Es; try done; apply record_obeys; cbn; try done; try (by left); rewrite Es; try by left;
        split_and!; done.
  - cbn. pose proof (statusOf_not_ok e) as Hs.
    assert (∀ s, bs_inserted s = None → bs_alerted s = false → bs_latest s = None →
      obeys_ (record_attempt t (MkBackup "" (t_ClientID t) (t_ID t) takenAt (statusOf e) (Error e) "" [] []) None [])
        (backup_post hex_sha256 t) s) as Hrec.
    { intros s Hi Hal Hl. apply record_obeys; [done|done| |by left|by rewrite Hl].
      cbn. rewrite bool_decide_eq_false_2 by done. split_and!; done. }
    destruct (as_unconfirmed e) as [fp|] eqn:Eu; cbn.
    + destruct (Hr fp eq_refl) as (e' & -> & He'). split; [split_and!; try done; by exists e'|].
      intros [x|] _; cbn; [done|]. by apply Hrec.
    + by apply Hrec.
Qed.

(** C16: One device's attempt, whatever is answered: it logs in once, to the
    target, under the key pinned for it; records as pending only a key that
    login met; stores a configuration only if it differs from the latest
    stored one, and raises only such a change; and its result names what the
    device runs. So does the result of every run. *)
Theorem backupOne_contract :
  obeys_ (backupOne hex_sha256 t) (backup_post hex_sha256 t) fresh_session ∧
  ∀ W (h : W → ∀ c, resp c * W) w, (∀ w c, backup_possible c (h w c).1) →
    let '(r, (s, _)) := run (with_session h backup_next) (backupOne hex_sha256 t) (fresh_session, w) in
    backup_post hex_sha256 t r s.
Proof.
  split; [apply backupOne_obeys|]. intros W h w Hp.
  exact (obeys_run h _ _ _ _ _ fresh_session w Hp backupOne_obeys).
Qed.
End attempts.

(** ** What saving a target may write *)

Definition save_next (s : option Target) (c : call) : resp c → option Target :=
  match c return resp c → option Target with
  | GetTarget _ _ => λ r, match r with inl t => Some t | inr _ => s end
  | _ => λ _, s
  end.

(** A target is written as it was read but for the fields of the request: a
    new one has no host key and no push credential; an edited one keeps its
    push credential, and its keys only on the same host and port. *)
Definition save_allowed (input : TargetInput) (s : option Target) (c : call) : Prop :=
  match c with
  | GetCredentials id client => id = ti_CredentialsID input ∧ client = ti_ClientID input
  | GetTarget client _ => client = ti_ClientID input
  | SaveTargetRow t =>
      t_ID t = ti_ID input ∧ t_ClientID t = ti_ClientID input ∧ t_CredentialsID t = ti_CredentialsID input ∧
      1 ≤ t_Port t ≤ 65535 ∧ t_Name t ≠ ""%string ∧ Supported (t_Platform t) = true ∧
      match s with
      | None => ti_ID input = ""%string ∧ t_HostKeySHA256 t = ""%string ∧ t_PendingHostKeySHA256 t = ""%string ∧
                t_PushCredentialsID t = ""%string
      | Some prev =>
          t_PushCredentialsID t = t_PushCredentialsID prev ∧
          (t_PushCredentialsID t = ""%string ∨ t_PushCredentialsID t ≠ t_CredentialsID t) ∧
          if decide (t_Host prev = t_Host t ∧ t_Port prev = t_Port t)
          then t_HostKeySHA256 t = t_HostKeySHA256 prev ∧ t_PendingHostKeySHA256 t = t_PendingHostKeySHA256 prev
          else t_HostKeySHA256 t = ""%string ∧ t_PendingHostKeySHA256 t = ""%string
      end
  | _ => False
  end.

Section saving.
Context (ParseIP : string → bool).

Lemma validate_obeys input t s (Q : option err → option Target → Prop) :
  t_ClientID t = ti_ClientID input → t_CredentialsID t = ti_CredentialsID input →
  (∀ e, Q (Some e) s) →
  (t_Name t ≠ ""%string → IsValidHostOrIP ParseIP (t_Host t) = true → 1 ≤ t_Port t ≤ 65535 → Supported (t_Platform t) = true → Q None s) →
  obeys (save_allowed input) backup_possible save_next (validateTarget ParseIP t) Q s.
Proof.
  intros Hc Hcr He HQ. unfold validateTarget. case_bool_decide as H1; [apply He|].
  destruct (IsValidHostOrIP _ _) eqn:H2; [cbn [negb]|apply He].
  destruct ((t_Port t <? 1) || (65535 <? t_Port t)) eqn:H3; [apply He|]. apply orb_false_iff in H3 as [?%Z.ltb_ge ?%Z.ltb_ge].
  destruct (Supported _) eqn:H4; [cbn [negb]|apply He]. unfold checkSSHCredential. cbn [ask pbind obeys]. split; [done|].
  intros [cred|e] _; cbn.
  - case_bool_decide; [by apply HQ|apply He].
  - destruct (Is e ErrCredentialsNotFound); apply He.
Qed.

Lemma carried_keys t prev :
  if decide (t_Host prev = t_Host t ∧ t_Port prev = t_Port t)
  then t_HostKeySHA256 (carried t prev) = t_HostKeySHA256 prev ∧ t_PendingHostKeySHA256 (carried t prev) = t_PendingHostKeySHA256 prev
  else t_HostKeySHA256 (carried t prev) = t_HostKeySHA256 t ∧ t_PendingHostKeySHA256 (carried t prev) = t_PendingHostKeySHA256 t.
Proof.
  unfold carried. cbn [t_HostKeySHA256 t_PendingHostKeySHA256].
  destruct (decide (t_Host prev = t_Host t ∧ t_Port prev = t_Port t)) as [ [E1 E2]|Hh].
  - by rewrite (bool_decide_eq_true_2 _ E1), (bool_decide_eq_true_2 _ E2).
  - assert (bool_decide (t_Host prev = t_Host t) && bool_decide (t_Port prev = t_Port t) = false) as ->; [|done].
    apply not_true_iff_false. rewrite andb_true_iff, !bool_decide_eq_true. done.
Qed.

Theorem SaveTarget_contract input :
  obeys (save_allowed input) backup_possible save_next (SaveTarget ParseIP input) (λ _ _, True) None.
Proof.
  unfold SaveTarget. unfold pdo. apply obeys_bind. apply validate_obeys; [done|done|done|].
  intros Hname Hhost Hport Hplat. case_bool_decide as Hid.
  - cbn [write_target ptry pbind ask obeys]. split; [|intros [id|e] _; cbn; auto]. cbn in *. split_and!; try done; lia.
  - cbn [ptry pbind ask obeys]. split; [done|]. intros [prev|e] _; [|done]. cbn [save_next].
    destruct (_ && _) eqn:Hpush; [done|]. unfold write_target. cbn [ptry pbind ask obeys].
    split; [|intros [id|e] _; cbn; auto]. cbn in *. split_and!; try done; try lia.
    + destruct (decide (t_PushCredentialsID prev = ""%string)) as [|Hne]; [by left|]. right. intros E.
      rewrite bool_decide_eq_false_2, bool_decide_eq_true_2 in Hpush by done. done.
    + apply (carried_keys (input_target input) prev).
Qed.
End saving.

(** ** Examples *)

(** What is around the store, when nothing goes wrong: a vault of SSH
    credentials, a cipher, a clock that stands and a device that answers. *)
Definition around (config : bytes) (c : call) : resp c :=
  match c return resp c with
  | GetCredentials id _ => inl (MkCredentials id CredentialKindSSH "backup" [1; 2])
  | EncryptValue plain => inl (1 :: plain)
  | DecryptValue cipher => inl (tail cipher)
  | Now => 100 * second
  | Fetch req => if bool_decide (fr_PinnedHostKey req = ""%string) then inr (HostKeyUnconfirmedError "SHA256:new") else inl config
  | RandomName => inl "seed-1"%string
  | ClaimTarget _ => true
  | ReleaseTarget _ => ()
  | ListTargets _ | ListBackupRows _ _ _ | ListPlanRows _ _ _ => inl []
  | GetTarget _ _ | SaveTargetRow _ | InsertBackup _ | InsertPlan _ | GetBackupRow _ _ | LatestConfig _ _ _
  | GetPlanRow _ _ | GetImage _ _ | DryRun _ | ReadImageFacts _ => inr ErrUnavailable
  | _ => None
  end.
Definition answer_db (config : bytes) (db : DB) (c : call) : resp c * DB :=
  match db_answer "row-1" db c with Some rd => rd | None => (around config c, db) end.

Definition db_example : DB := MkDB [target_example] [] [].
Definition rename_example : TargetInput := MkTargetInput "t1" "c1" "core-2" "10.0.0.1" 22 PlatformCiscoIOS "cred".
Definition toy_sha (b : bytes) : string := string_of b.

(** Saving a target reads it and writes it back: an operator who clears its
    key, or turns pushing off, in between has it undone. *)
Example save_undoes_clear :
  let save := SaveTarget (λ _, true) rename_example in
  let '(rest, db) := advance (answer_db []) 2 save db_example in
  let '(cleared, db) := run (answer_db []) (ClearHostKey "c1" "t1") db in
  let '(off, db) := run (answer_db []) (SetPushCredentials "c1" "t1" "") db in
  let '(saved, db) := run (answer_db []) rest db in
  cleared = None ∧ off = None ∧
  map t_HostKeySHA256 (db_targets db) = ["SHA256:old"%string] ∧ map t_PushCredentialsID (db_targets db) = ["push"%string] ∧
  map t_Name (db_targets db) = ["core-2"%string].
Proof. vm_compute. repeat split; reflexivity. Qed.

(** A first attempt stores the configuration, a second one does not, and one
    of a changed configuration does. *)
Example backup_twice :
  let attempt config db := run (answer_db (ascii_bytes config)) (backupOne toy_sha (DL := whole_difflib) target_example) db in
  let '(r1, db1) := attempt "hostname a"%string db_example in
  r1 = inl (MkDeviceResult "t1" "core" "row-1" StatusOK "") ∧
  map b_SHA256 (db_backups db1) = ["hostname a"%string] ∧
  let later := set_backups db1 (map (λ b, MkBackup "row-0" (b_ClientID b) (b_TargetID b) (50 * second) (b_Status b)
                 (b_Error b) (b_SHA256 b) (b_Config b) (b_ConfigCT b)) (db_backups db1)) in
  (attempt "hostname a"%string later).2 = later ∧
  map b_SHA256 (db_backups (attempt "hostname b"%string later).2) = ["hostname a"%string; "hostname b"%string].
Proof. vm_compute. repeat split; reflexivity. Qed.

(** Times as text: half a second is after 0.51 s, so an attempt at 0.51 s does
    not find the configuration stored at 0.5 s. *)
Example text_order :
  taken_lt 500000000 510000000 = false ∧ taken_lt 510000000 500000000 = true ∧
  taken_lt (7 * second) (7 * second + 1) = false ∧ taken_lt (7 * second + 1) (8 * second) = true.
Proof. vm_compute. repeat split; reflexivity. Qed.

Lemma answer_db_possible config db c : backup_possible c (answer_db config db c).1.
Proof. destruct c; done. Qed.

Lemma backupOne_contract_witness :
  obeys (backup_allowed toy_sha target_example) backup_possible backup_next
    (backupOne toy_sha (DL := whole_difflib) target_example) (backup_post toy_sha target_example) fresh_session ∧
  let '(r, (s, _)) := run (with_session (answer_db (ascii_bytes "hostname a")) backup_next)
    (backupOne toy_sha (DL := whole_difflib) target_example) (fresh_session, db_example) in
  backup_post toy_sha target_example r s.
Proof.
  split; [apply (backupOne_contract toy_sha (DL := whole_difflib) target_example)|].
  apply (backupOne_contract toy_sha (DL := whole_difflib) target_example). apply answer_db_possible.
Defined.
