(* ===== verification/ConfigPush.v ===== *)
(** * Pushing configurations (src/internal/deviceconfig/push.go, apply.go,
    stage.go)

    A plan is a dry run stored with the hash of its diff; an apply claims it
    once, commits under the device's own revert timer, proves the change from
    a new login and confirms it; staging copies an image and sets it to boot.
    The jobs are programs over the calls of [ConfigStore]. *)
From Stdlib Require Import ZArith Lia Ascii.
From stdpp Require Import base gmap sets list strings pretty.
From S2P Require Import Prelude GoBase GoText IosConfig Effects ConfigStore ConfigBackup.
#[local] Open Scope prog_scope.

Definition PlanLifetime : Z := 15 * minute.
Definition MaxCandidateBytes : Z := 2 * 2 ^ 20.
Definition ConfirmWindow : Z := 5 * minute.
Definition planRetention : Z := 50.
Definition PushAuditResource : string := "device_config_push".
Definition ImageAuditResource : string := "device_image".

Inductive PlanOutcome : Type := PlanReady | PlanNoChange | PlanRefused.
Record PlanRequest : Type := MkPlanRequest {
  pr_ClientID : string; pr_TargetID : string; pr_Mode : string; pr_Candidate : bytes;
  pr_User : string; pr_Remote : string; pr_UserAgent : string }.
Record PlanResult : Type := MkPlanResult {
  ps_Outcome : PlanOutcome; ps_PlanID : string; ps_Reason : string; ps_Added : Z; ps_Removed : Z }.
Record ApplyRequest : Type := MkApplyRequest {
  ar_ClientID : string; ar_PlanID : string; ar_DiffSHA256 : string; ar_User : string; ar_Remote : string;
  ar_UserAgent : string }.
Record ApplyResult : Type := MkApplyResult { as_Outcome : ApplyOutcome; as_Reason : string; as_BackupID : string }.
Inductive StageOutcome : Type := StageBootSet | StageRefused | StageFailed.
Record StageRequest : Type := MkStageRequest {
  sr_ClientID : string; sr_ImageID : string; sr_TargetID : string; sr_User : string; sr_Remote : string;
  sr_UserAgent : string }.
Record StageResult : Type := MkStageResult {
  st_Outcome : StageOutcome; st_Reason : string; st_RunningVersion : string; st_RunningImage : string;
  st_BootImage : string }.

Definition outcome_text (o : ApplyOutcome) : string :=
  match o with
  | ApplyConfirmed => "confirmed" | ApplyRolledBack => "rolled_back" | ApplyReverting => "reverting"
  | ApplyDrifted => "config_drifted" | ApplyFailed => "failed"
  end.
Definition plan_outcome_text (o : PlanOutcome) : string :=
  match o with PlanReady => "ready" | PlanNoChange => "no_change" | PlanRefused => "refused" end.
Definition stage_outcome_text (o : StageOutcome) : string :=
  match o with StageBootSet => "boot_set" | StageRefused => "refused" | StageFailed => "failed" end.

(** ** Candidates *)

(** The tokens [encoding/xml] reads, and whether it stops at an error. *)
Inductive xml_token : Type :=
| StartElement | EndElement | CharData (text : bytes) | ProcInst | Directive | Comment.
Class XmlDecoder : Type := { xml_tokens : bytes → list xml_token * option string }.

Definition netconfEOM : bytes := ascii_bytes "]]>]]>".
Fixpoint Contains (s sub : bytes) : bool :=
  HasPrefix s sub || match s with [] => false | _ :: rest => Contains rest sub end.

(** [checkXMLCandidate]: its complaint about the tokens, from the depth and
    the elements counted so far. *)
Fixpoint check_tokens (toks : list xml_token) (bad : option string) (depth elements : Z) : option string :=
  match toks with
  | [] =>
      match bad with
      | Some e => Some ("candidate is not well-formed XML: " +:+ e)
      | None => if elements =? 0 then Some "candidate holds no configuration element"%string else None
      end
  | StartElement :: toks => check_tokens toks bad (depth + 1) (if depth =? 0 then elements + 1 else elements)
  | EndElement :: toks => check_tokens toks bad (depth - 1) elements
  | CharData text :: toks =>
      if (depth =? 0) && negb (bool_decide (TrimSpace text = [])) then Some "candidate has text outside its elements"%string
      else check_tokens toks bad depth elements
  | (ProcInst | Directive) :: _ =>
      Some "candidate must hold configuration elements only, without an XML declaration or DTD"%string
  | Comment :: toks => check_tokens toks bad depth elements
  end.
Definition checkXMLCandidate `{!XmlDecoder} (candidate : bytes) : option string :=
  if Contains candidate netconfEOM then Some "candidate contains the NETCONF end-of-message marker"%string
  else let '(toks, bad) := xml_tokens candidate in check_tokens toks bad 0 0.

Definition candidate_error_text (e : candidate_error) : string :=
  match e with
  | ControlCharacter line => "candidate line " +:+ pretty line +:+ " contains a control character"
  | ControlWord line word =>
      "candidate line " +:+ pretty line +:+ " starts with " +:+ dquote +:+ string_of word +:+ dquote +:+
      ", which would leave configuration mode"
  end.

Definition predict_err (e : predict_error) : err :=
  match e with
  | Refused reason => PlanRefusedError reason
  | RenderFailed => wrap_err "render push diff" (OtherError "")
  end.

(** ** Jobs *)

(** [claim] and the deferred [release]: the job runs with the target its own,
    and lets it go on every path. *)
Definition locked {A} (targetID : string) (job : program (A + err)) : program (A + err) :=
  ok <~ ask (ClaimTarget targetID);
  if ok then
    r <~ job;
    _ <~ ask (ReleaseTarget targetID);
    Ret r
  else Ret (inr ErrPushBusy).

Section pushes.
Context (hex_sha256 : bytes → string) `{DL : !Difflib, XD : !XmlDecoder}.

(** [pushTarget] *)
Definition pushTarget (clientID targetID : string) : program (Target + err) :=
  r <~ ask (GetTarget clientID targetID);
  Ret match r with
  | inr e =>
      if Is e ErrNotFound then inr (ValidationError ("no backup target " +:+ dquote +:+ targetID +:+ dquote)) else inr e
  | inl t =>
      if bool_decide (t_PushCredentialsID t = ""%string)
      then inr (ValidationError "pushing is not enabled on this target")
      else if bool_decide (t_HostKeySHA256 t = ""%string)
      then inr (ValidationError "the target's host key must be confirmed before a push")
      else if bool_decide (t_Platform t = PlatformCiscoNXOS)
      then inr (ValidationError
        "cisco-nxos is read-only: it has no device-side revert, so a push that cut Seed off could not be undone")
      else inl t
  end.

(** What of [check] needs no call. *)
Definition check_candidate (platform mode : string) (candidate : bytes) : option err :=
  if negb (bool_decide (mode = PushMerge)) && negb (bool_decide (mode = PushReplace))
  then Some (ValidationError "mode must be merge or replace")
  else if bool_decide (TrimSpace candidate = []) then Some (ValidationError "candidate is required")
  else if MaxCandidateBytes <? len candidate
  then Some (ValidationError ("candidate exceeds " +:+ pretty MaxCandidateBytes +:+ " bytes"))
  else if bool_decide (platform = PlatformNETCONF) then ValidationError <$> checkXMLCandidate candidate
  else if bool_decide (platform ∈ [PlatformCiscoIOS; PlatformJuniperJunos; PlatformAristaEOS])
  then (λ e, ValidationError (candidate_error_text e)) <$> checkCLICandidate platform candidate
  else None.

Definition check_plan (req : PlanRequest) : program (Target + err) :=
  t <~! pushTarget (pr_ClientID req) (pr_TargetID req);
  Ret match check_candidate (t_Platform t) (pr_Mode req) (pr_Candidate req) with Some e => inr e | None => inl t end.

(** [freshBackup] *)
Definition freshBackup (t : Target) : program (Backup + err) :=
  r <~! backupOne hex_sha256 t;
  if bool_decide (r_Status r = StatusOK) then GetBackup (t_ClientID t) (r_BackupID r)
  else Ret (inr (OtherError ("back up the running configuration first: " +:+ status_text (r_Status r) +:+ ": " +:+ r_Error r))).

(** [deviceRequest]: a login with the target's push credential. *)
Definition deviceRequest (t : Target) (mode : string) (candidate : bytes) : program (DeviceRequest + err) :=
  cred <~! ask (GetCredentials (t_PushCredentialsID t) (t_ClientID t)) or (wrap_err "read push credential");
  if negb (bool_decide (cr_Kind cred = CredentialKindSSH))
  then Ret (inr (OtherError ("push credential " +:+ cr_ID cred +:+ " is " +:+ cr_Kind cred +:+ ", not SSH")))
  else
    password <~! ask (DecryptValue (cr_SSHPasswordCT cred)) or (wrap_err "decrypt SSH password");
    Ret (inl (MkDeviceRequest (t_Host t) (t_Port t) (cr_SSHUser cred) password (t_HostKeySHA256 t) (t_Platform t)
      mode candidate "")).

Definition deviceDryRun (t : Target) (req : PlanRequest) : program (DryRunResult + err) :=
  dr <~! deviceRequest t (pr_Mode req) (pr_Candidate req);
  ask (DryRun dr).

(** [store] *)
Definition new_plan (t : Target) (req : PlanRequest) (backup : Backup) (source : DiffSource) (dr : DryRunResult)
    (now : Z) (candidateCT diffCT : bytes) : Plan :=
  MkPlan "" (t_ClientID t) (t_ID t) (pr_User req) (to_second now) (to_second now + PlanLifetime) (pr_Mode req) source
    (b_ID backup) (b_SHA256 backup) (hex_sha256 (dr_Diff dr)) (dr_Added dr) (dr_Removed dr) [] [] candidateCT diffCT
    None "" None.
Definition store (t : Target) (req : PlanRequest) (backup : Backup) (source : DiffSource) (dr : DryRunResult)
    : program (string + err) :=
  candidateCT <~! ask (EncryptValue (pr_Candidate req)) or (wrap_err "encrypt candidate");
  diffCT <~! ask (EncryptValue (dr_Diff dr)) or (wrap_err "encrypt diff");
  now <~ ask Now;
  id <~! ask (InsertPlan (new_plan t req backup source dr now candidateCT diffCT))
    or (wrap_err ("record push plan for " +:+ t_ID t));
  must ask (PrunePlans (t_ClientID t) (t_ID t) planRetention) or (wrap_err ("prune push plans of " +:+ t_ID t));
  Ret (inl id).

Definition plan_result (id : string) (dr : DryRunResult) : PlanResult :=
  MkPlanResult PlanReady id "" (dr_Added dr) (dr_Removed dr).
Definition plan (req : PlanRequest) : program (PlanResult + err) :=
  t <~! check_plan req;
  backup <~! freshBackup t;
  let predicted := bool_decide (t_Platform t = PlatformCiscoIOS) in
  dr <~ (if predicted
         then Ret (match predictIOS (b_Config backup) (pr_Mode req) (pr_Candidate req) with
                   | inl r => inl r
                   | inr e => inr (predict_err e)
                   end)
         else deviceDryRun t req);
  match dr with
  | inr e =>
      Ret match as_refused e with
      | Some reason => inl (MkPlanResult PlanRefused "" reason 0 0)
      | None => inr e
      end
  | inl dr =>
      if dr_Added dr + dr_Removed dr =? 0 then Ret (inl (MkPlanResult PlanNoChange "" "" 0 0))
      else
        id <~! store t req backup (if predicted then DiffPredicted else DiffFromDevice) dr;
        Ret (inl (plan_result id dr))
  end.

Definition push_event (action user resource id remote agent : string) (detail : list (string * string)) : AuditEvent :=
  MkAudit action user resource id remote agent detail.
Definition plan_event (req : PlanRequest) (res : PlanResult + err) : AuditEvent :=
  let event action detail :=
    push_event action (pr_User req) PushAuditResource (pr_TargetID req) (pr_Remote req) (pr_UserAgent req)
      (("mode", pr_Mode req) :: detail)%string in
  match res with
  | inr e => event "device_config.push.plan_failed" [("error", Error e)]
  | inl r =>
      match ps_Outcome r with
      | PlanRefused => event "device_config.push.plan_refused" [("reason", ps_Reason r)]
      | o => event "device_config.push.plan_created"
               [("outcome", plan_outcome_text o); ("plan_id", ps_PlanID r); ("added", pretty (ps_Added r));
                ("removed", pretty (ps_Removed r))]
      end
  end%string.

(** [Plan] *)
Definition PlanJob (req : PlanRequest) : program (PlanResult + err) :=
  locked (pr_TargetID req)
    (res <~ plan req;
     cancelled <~ ask CtxErr;
     match cancelled with
     | Some e => Ret (inr e)
     | None =>
         audited <~ ask (Audit (plan_event req res));
         Ret match audited with
         | Some e =>
             match Join [match res with inr e => Some e | inl _ => None end; Some (wrap_err "audit push plan" e)] with
             | Some e => inr e
             | None => res
             end
         | None => res
         end
     end).

(** [checkApply] *)
Definition checkApply (req : ApplyRequest) : program ((Plan * Target) + err) :=
  p <~! ask (GetPlanRow (ar_ClientID req) (ar_PlanID req));
  if negb (bool_decide (ar_DiffSHA256 req = p_DiffSHA256 p))
  then Ret (inr (ValidationError "planSha256 is not the hash of this plan's diff"))
  else
    now <~ (match p_AppliedAt p with Some _ => Ret None | None => now <~ ask Now; Ret (Some now) end);
    match now with
    | None => Ret (inr ErrPlanSpent)
    | Some now =>
        if negb (now <? p_ExpiresAt p) then Ret (inr ErrPlanSpent)
        else
          t <~! pushTarget (ar_ClientID req) (p_TargetID p);
          Ret (inl (p, t))
    end.

Definition failed (step : string) (e : err) : ApplyResult := MkApplyResult ApplyFailed (step +:+ ": " +:+ Error e) "".
Definition window : string := "5m0s".

(** [confirm] *)
Definition backup_note (r : DeviceResult + err) : list string * string :=
  match r with
  | inr e => (["the backup after it failed: " +:+ Error e], "")
  | inl after =>
      if bool_decide (r_Status after = StatusOK) then ([], r_BackupID after)
      else (["the backup after it failed: " +:+ status_text (r_Status after) +:+ ": " +:+ r_Error after], "")
  end%string.
Fixpoint join_notes (notes : list string) : string :=
  match notes with [] => "" | [n] => n | n :: rest => n +:+ "; " +:+ join_notes rest end.
Definition confirm (t : Target) (req : DeviceRequest) : program ApplyResult :=
  e <~ ask (Confirm req);
  match e with
  | Some e =>
      if Is e ErrStartupNotSaved then
        after <~ backupOne hex_sha256 t;
        let '(notes, id) := backup_note after in
        Ret (MkApplyResult ApplyConfirmed
          ("confirmed, but " +:+ join_notes ((Error e +:+ "; a reload loses the change until it is saved") :: notes)) id)
      else Ret (MkApplyResult ApplyReverting
        ("the confirm failed: " +:+ Error e +:+ "; the device reverts by itself within " +:+ window) "")
  | None =>
      after <~ backupOne hex_sha256 t;
      let '(notes, id) := backup_note after in
      Ret (MkApplyResult ApplyConfirmed
        (match notes with [] => "" | _ => "confirmed, but " +:+ join_notes notes end) id)
  end.

(** From the commit on. *)
Definition with_commit_id (id : string) (r : DeviceRequest) : DeviceRequest :=
  MkDeviceRequest (dr_Host r) (dr_Port r) (dr_User r) (dr_Password r) (dr_PinnedHostKey r) (dr_Platform r) (dr_Mode r)
    (dr_Candidate r) id.
Definition rollback (req : DeviceRequest) (reason : string) : program ApplyResult :=
  e <~ ask (Rollback req);
  Ret match e with
  | Some e => MkApplyResult ApplyReverting
      (reason +:+ "; the rollback failed (" +:+ Error e +:+ "), so the device reverts by itself within " +:+ window) ""
  | None => MkApplyResult ApplyRolledBack reason ""
  end.
Definition commit (t : Target) (req : DeviceRequest) : program ApplyResult :=
  e <~ ask (Commit req);
  match e with
  | Some e => Ret (MkApplyResult ApplyFailed
      ("the commit did not complete: " +:+ Error e +:+ "; if the device made it, it reverts by itself within " +:+ window) "")
  | None =>
      check <~ ask (DryRun req);
      match check with
      | inr e => rollback req ("the post-check could not log in: " +:+ Error e)
      | inl c =>
          if dr_Added c + dr_Removed c =? 0 then confirm t req
          else rollback req ("the post-check found " +:+ pretty (dr_Added c + dr_Removed c) +:+ " lines still to change")
      end
  end.

(** [apply] *)
Definition apply (t : Target) (p : Plan) : program ApplyResult :=
  before <~ backupOne hex_sha256 t;
  match before with
  | inr e => Ret (failed "back up the running configuration first" e)
  | inl before =>
      if negb (bool_decide (r_Status before = StatusOK))
      then Ret (MkApplyResult ApplyFailed
        ("back up the running configuration first: " +:+ status_text (r_Status before) +:+ ": " +:+ r_Error before) "")
      else
        running <~ GetBackup (t_ClientID t) (r_BackupID before);
        match running with
        | inr e => Ret (failed "read the running configuration" e)
        | inl running =>
            if negb (bool_decide (b_SHA256 running = p_RunningSHA256 p))
            then Ret (MkApplyResult ApplyDrifted "the running configuration changed after the plan; plan again" "")
            else
              candidate <~ ask (DecryptValue (p_CandidateCT p));
              match candidate with
              | inr e => Ret (failed "decrypt the candidate" e)
              | inl candidate =>
                  req <~ deviceRequest t (p_Mode p) candidate;
                  match req with
                  | inr e => Ret (failed "prepare the push login" e)
                  | inl req =>
                      id <~ ask RandomName;
                      match id with
                      | inr e => Ret (failed "name the commit" e)
                      | inl id => commit t (with_commit_id id req)
                      end
                  end
              end
        end
  end.

Definition apply_event (req : ApplyRequest) (t : Target) (action : string) (detail : list (string * string)) : AuditEvent :=
  push_event ("device_config.push." +:+ action) (ar_User req) PushAuditResource (t_ID t) (ar_Remote req)
    (ar_UserAgent req) detail.
Definition started_detail (p : Plan) : list (string * string) :=
  [("plan_id", p_ID p); ("mode", p_Mode p); ("diff_sha256", p_DiffSHA256 p); ("added", pretty (p_Added p));
   ("removed", pretty (p_Removed p))]%string.
Definition outcome_detail (p : Plan) (res : ApplyResult) : list (string * string) :=
  [("plan_id", p_ID p); ("outcome", outcome_text (as_Outcome res)); ("reason", as_Reason res);
   ("backup_id", as_BackupID res)]%string.

(** [Apply]: its result and its error, which it returns both when an outcome
    could not be recorded. *)
Definition claimed_apply (req : ApplyRequest) (p : Plan) (t : Target) : program ((ApplyResult * option err) + err) :=
  now <~ ask Now;
  must ask (ClaimApply (ar_ClientID req) (p_ID p) (ar_User req) now);
  must ask (Audit (apply_event req t "apply_started" (started_detail p))) or (wrap_err "audit push apply");
  res <~ apply t p;
  finishErr <~ ask (FinishApply (ar_ClientID req) (p_ID p) (as_Outcome res));
  auditErr <~ ask (Audit (apply_event req t (outcome_text (as_Outcome res)) (outcome_detail p res)));
  Ret (inl (res, wrap_err ("record push apply " +:+ p_ID p) <$> Join [finishErr; auditErr])).
Definition ApplyJob (req : ApplyRequest) : program ((ApplyResult * option err) + err) :=
  pt <~! checkApply req;
  locked (t_ID pt.2) (claimed_apply req pt.1 pt.2).

(** ** Staging *)

Definition minCopyRate : Z := 625000.
Definition minHashRate : Z := 2 * 2 ^ 20.
Definition junosInstallTimeout : Z := 30 * minute.

(** [fileName]: what follows the last colon or slash. *)
Fixpoint fileName (path : string) : string :=
  match path with
  | EmptyString => EmptyString
  | String c rest =>
      let later := existsb (λ d, Ascii.eqb d ":" || Ascii.eqb d "/") (String.list_ascii_of_string path) in
      if later then fileName rest else path
  end%char.
Definition rateTime (size rate : Z) : Z := (Z.quot size rate + 1) * second.
Definition Path (d : DeviceImage) : string := di_Dir d +:+ di_Name d.

Definition refuseStage (facts : ImageFacts) (img : Image) : string :=
  if if_InstallMode facts then
    "the device boots in install mode (packages.conf), which takes an image with " +:+ dquote +:+ "install add" +:+ dquote
      +:+ "; stage it from the device's CLI"
  else if bool_decide (fileName (if_RunningImage facts) = im_Name img) then "the device already runs " +:+ im_Name img
  else if bool_decide (im_Platform img = PlatformJuniperJunos) &&
          Contains (ascii_bytes (im_Name img)) (ascii_bytes (if_Version facts))
  then "the device already runs Junos " +:+ if_Version facts
  else if if_FreeBytes facts <? im_Size img then
    if_Dir facts +:+ " has " +:+ pretty (if_FreeBytes facts) +:+ " bytes free and the image needs " +:+
      pretty (im_Size img) +:+ "; free space on the device first"
  else "".

Definition checkStage (req : StageRequest) : program ((Image * Target) + err) :=
  img <~! ask (GetImage (sr_ClientID req) (sr_ImageID req));
  t <~! pushTarget (sr_ClientID req) (sr_TargetID req);
  if bool_decide (t_Platform t = im_Platform img) then Ret (inl (img, t))
  else Ret (inr (ValidationError ("the image is for " +:+ im_Platform img +:+ " and the target is " +:+ t_Platform t))).

Definition failedStage (res : StageResult) (step : string) (e : err) : StageResult :=
  MkStageResult StageFailed (step +:+ ": " +:+ Error e) (st_RunningVersion res) (st_RunningImage res) (st_BootImage res).
Definition no_result : StageResult := MkStageResult StageFailed "" "" "" "".
Definition staged_image (facts : ImageFacts) (img : Image) : DeviceImage :=
  MkDeviceImage (if_Dir facts) (im_Name img) (im_Size img) (im_SHA256 img) (im_SHA512 img) (if_RunningImage facts).
Definition stage_event (req : StageRequest) (t : Target) (img : Image) (action : string) (detail : list (string * string))
    : AuditEvent :=
  push_event ("device_config.image." +:+ action) (sr_User req) ImageAuditResource (im_ID img) (sr_Remote req)
    (sr_UserAgent req) (("target_id", t_ID t) :: detail)%string.
Definition verified_detail (t : Target) (img : Image) (di : DeviceImage) : list (string * string) :=
  [("path", Path di);
   (if bool_decide (t_Platform t = PlatformJuniperJunos) then ("sha256", im_SHA256 img) else ("sha512", im_SHA512 img))]%string.

(** [stage]: its result and the errors of the steps it noted. *)
Definition stage (req : StageRequest) (t : Target) (img : Image) : program (StageResult * list (option err)) :=
  r <~ deviceRequest t "" [];
  match r with
  | inr e => Ret (failedStage no_result "prepare the push login" e, [])
  | inl login =>
  facts <~ ask (ReadImageFacts login);
  match facts with
  | inr e => Ret (failedStage no_result "read the device's version and flash" e, [])
  | inl facts =>
  let res := MkStageResult StageFailed "" (if_Version facts) (if_RunningImage facts) "" in
  if negb (bool_decide (refuseStage facts img = ""%string))
  then Ret (MkStageResult StageRefused (refuseStage facts img) (if_Version facts) (if_RunningImage facts) "", [])
  else
  let di := staged_image facts img in
  opened <~ ask (OpenImage img);
  match opened with
  | Some e => Ret (failedStage res "open the image" e, [])
  | None =>
  copied <~ ask (CopyImage login di);
  match copied with
  | Some e => Ret (failedStage res ("copy the image to " +:+ Path di) e, [])
  | None =>
  n1 <~ ask (Audit (stage_event req t img "staged" [("path", Path di); ("size", pretty (im_Size img))]%string));
  verified <~ ask (VerifyImage login di);
  match verified with
  | Some e =>
      if Is e ErrImageCorrupt
      then Ret (MkStageResult StageFailed ("the device's hash of " +:+ Path di +:+
             " does not match the image, so the copy was deleted; stage it again") (if_Version facts) (if_RunningImage facts) "", [n1])
      else Ret (failedStage res "verify the copy" e, [n1])
  | None =>
  n2 <~ ask (Audit (stage_event req t img "verified" (verified_detail t img di)));
  booted <~ ask (SetBoot login di);
  match booted with
  | Some e => Ret (failedStage res "set the boot image" e, [n1; n2])
  | None =>
  n3 <~ ask (Audit (stage_event req t img "boot_set" [("boot_image", Path di); ("fallback", di_Fallback di)]%string));
  Ret (MkStageResult StageBootSet "" (if_Version facts) (if_RunningImage facts) (Path di), [n1; n2; n3])
  end end end end end end.

(** [Stage] *)
Definition claimed_stage (req : StageRequest) (img : Image) (t : Target) : program ((StageResult * option err) + err) :=
  started <~ ask (Audit (stage_event req t img "stage_started" [("name", im_Name img); ("size", pretty (im_Size img))]%string));
  match started with
  | Some e => Ret (inr (wrap_err "audit image staging" e))
  | None =>
      rn <~ stage req t img;
      let '(res, notes) := rn in
      last <~ (match st_Outcome res with
               | StageBootSet => Ret None
               | o => ask (Audit (stage_event req t img ("stage_" +:+ stage_outcome_text o)
                        [("reason", st_Reason res); ("running_version", st_RunningVersion res)]%string))
               end);
      Ret (inl (res, wrap_err ("audit image staging of " +:+ im_ID img) <$> Join (notes ++ [last])))
  end.
Definition StageJob (req : StageRequest) : program ((StageResult * option err) + err) :=
  it <~! checkStage req;
  locked (t_ID it.2) (claimed_stage req it.1 it.2).
End pushes.

(** ** What a job may do

    [io] is what a job last read, [session] how far it is: the target it
    holds, the plan it claimed, and what it did to the device. *)
Record io : Type := MkIO { io_fetched : option bytes; io_backup : option Backup; io_plain : list (bytes * bytes) }.
Record session : Type := MkPush {
  ss_shown : string;                              (* the diff hash the admin was shown *)
  ss_io : io;
  ss_lock : option string;
  ss_target : option Target;
  ss_plan : option Plan;
  ss_claim : option (string * string);
  ss_audited : bool;
  ss_commit : option (DeviceRequest * bool);
  ss_check : option (DryRunResult + err);
  ss_confirm : option (option err);
  ss_rollback : option (option err);
  ss_finish : option (ApplyOutcome * option err);
  ss_facts : option ImageFacts;
  ss_copied : option DeviceImage;
  ss_verified : option DeviceImage }.
Definition start (shown : string) : session :=
  MkPush shown (MkIO None None []) None None None None false None None None None None None None None.

Definition set_io (s : session) (x : io) : session :=
  MkPush (ss_shown s) x (ss_lock s) (ss_target s) (ss_plan s) (ss_claim s) (ss_audited s) (ss_commit s) (ss_check s)
    (ss_confirm s) (ss_rollback s) (ss_finish s) (ss_facts s) (ss_copied s) (ss_verified s).
Definition set_lock (s : session) (x : option string) : session :=
  MkPush (ss_shown s) (ss_io s) x (ss_target s) (ss_plan s) (ss_claim s) (ss_audited s) (ss_commit s) (ss_check s)
    (ss_confirm s) (ss_rollback s) (ss_finish s) (ss_facts s) (ss_copied s) (ss_verified s).
Definition set_target (s : session) (x : Target) : session :=
  MkPush (ss_shown s) (ss_io s) (ss_lock s) (Some x) (ss_plan s) (ss_claim s) (ss_audited s) (ss_commit s) (ss_check s)
    (ss_confirm s) (ss_rollback s) (ss_finish s) (ss_facts s) (ss_copied s) (ss_verified s).
Definition set_plan (s : session) (x : Plan) : session :=
  MkPush (ss_shown s) (ss_io s) (ss_lock s) (ss_target s) (Some x) (ss_claim s) (ss_audited s) (ss_commit s) (ss_check s)
    (ss_confirm s) (ss_rollback s) (ss_finish s) (ss_facts s) (ss_copied s) (ss_verified s).
Definition set_claim (s : session) (x : string * string) : session :=
  MkPush (ss_shown s) (ss_io s) (ss_lock s) (ss_target s) (ss_plan s) (Some x) (ss_audited s) (ss_commit s) (ss_check s)
    (ss_confirm s) (ss_rollback s) (ss_finish s) (ss_facts s) (ss_copied s) (ss_verified s).
Definition set_audited (s : session) : session :=
  MkPush (ss_shown s) (ss_io s) (ss_lock s) (ss_target s) (ss_plan s) (ss_claim s)
    (match ss_claim s with Some _ => true | None => ss_audited s end) (ss_commit s) (ss_check s)
    (ss_confirm s) (ss_rollback s) (ss_finish s) (ss_facts s) (ss_copied s) (ss_verified s).
Definition set_commit (s : session) (x : DeviceRequest * bool) : session :=
  MkPush (ss_shown s) (ss_io s) (ss_lock s) (ss_target s) (ss_plan s) (ss_claim s) (ss_audited s) (Some x) (ss_check s)
    (ss_confirm s) (ss_rollback s) (ss_finish s) (ss_facts s) (ss_copied s) (ss_verified s).
Definition set_check (s : session) (x : DryRunResult + err) : session :=
  MkPush (ss_shown s) (ss_io s) (ss_lock s) (ss_target s) (ss_plan s) (ss_claim s) (ss_audited s) (ss_commit s)
    (match ss_commit s with Some _ => Some x | None => ss_check s end)
    (ss_confirm s) (ss_rollback s) (ss_finish s) (ss_facts s) (ss_copied s) (ss_verified s).
Definition set_confirm (s : session) (x : option err) : session :=
  MkPush (ss_shown s) (ss_io s) (ss_lock s) (ss_target s) (ss_plan s) (ss_claim s) (ss_audited s) (ss_commit s) (ss_check s)
    (Some x) (ss_rollback s) (ss_finish s) (ss_facts s) (ss_copied s) (ss_verified s).
Definition set_rollback (s : session) (x : option err) : session :=
  MkPush (ss_shown s) (ss_io s) (ss_lock s) (ss_target s) (ss_plan s) (ss_claim s) (ss_audited s) (ss_commit s) (ss_check s)
    (ss_confirm s) (Some x) (ss_finish s) (ss_facts s) (ss_copied s) (ss_verified s).
Definition set_finish (s : session) (x : ApplyOutcome * option err) : session :=
  MkPush (ss_shown s) (ss_io s) (ss_lock s) (ss_target s) (ss_plan s) (ss_claim s) (ss_audited s) (ss_commit s) (ss_check s)
    (ss_confirm s) (ss_rollback s) (Some x) (ss_facts s) (ss_copied s) (ss_verified s).
Definition set_image (s : session) (f : option ImageFacts) (copied verified : option DeviceImage) : session :=
  MkPush (ss_shown s) (ss_io s) (ss_lock s) (ss_target s) (ss_plan s) (ss_claim s) (ss_audited s) (ss_commit s) (ss_check s)
    (ss_confirm s) (ss_rollback s) (ss_finish s) f copied verified.

Definition push_next (s : session) (c : call) : resp c → session :=
  match c return resp c → session with
  | GetTarget _ _ => λ r, match r with inl t => set_target s t | inr _ => s end
  | GetPlanRow _ _ => λ r, match r with inl p => set_plan s p | inr _ => s end
  | ClaimApply client id _ _ => λ r, match r with None => set_claim s (client, id) | Some _ => s end
  | Audit _ => λ r, match r with None => set_audited s | Some _ => s end
  | Fetch _ => λ r, match r with inl raw => set_io s (MkIO (Some raw) (io_backup (ss_io s)) (io_plain (ss_io s))) | inr _ => s end
  | GetBackupRow _ _ => λ r,
      match r with inl b => set_io s (MkIO (io_fetched (ss_io s)) (Some b) (io_plain (ss_io s))) | inr _ => s end
  | DecryptValue ct => λ r,
      match r with inl plain => set_io s (MkIO (io_fetched (ss_io s)) (io_backup (ss_io s)) ((ct, plain) :: io_plain (ss_io s))) | inr _ => s end
  | Commit req => λ r, set_commit s (req, match r with None => true | Some _ => false end)
  | DryRun _ => set_check s
  | Confirm _ => set_confirm s
  | Rollback _ => set_rollback s
  | FinishApply _ _ o => λ r, set_finish s (o, r)
  | ReadImageFacts _ => λ r, match r with inl f => set_image s (Some f) (ss_copied s) (ss_verified s) | inr _ => s end
  | CopyImage _ img => λ r, match r with None => set_image s (ss_facts s) (Some img) (ss_verified s) | Some _ => s end
  | VerifyImage _ img => λ r, match r with None => set_image s (ss_facts s) (ss_copied s) (Some img) | Some _ => s end
  | ClaimTarget id => λ r, if r then set_lock s (Some id) else s
  | ReleaseTarget _ => λ _, set_lock s None
  | _ => λ _, s
  end.

Section contract.
(** [sha_of]: the hash each stored configuration has, whoever reads it. *)
Context (hex_sha256 : bytes → string) (sha_of : string → string).

(** A row answered is the row asked for. *)
Definition push_possible (c : call) : resp c → Prop :=
  match c return resp c → Prop with
  | GetTarget client id => λ r, match r with inl t => t_ID t = id ∧ t_ClientID t = client | inr _ => True end
  | GetPlanRow client id => λ r, match r with inl p => p_ID p = id ∧ p_ClientID p = client | inr _ => True end
  | GetBackupRow _ id => λ r, match r with inl b => b_ID b = id ∧ b_SHA256 b = sha_of id | inr _ => True end
  | LatestConfig _ _ _ => λ r, match r with inl b => b_SHA256 b = sha_of (b_ID b) | inr _ => True end
  | InsertBackup b => λ r, match r with inl id => sha_of id = b_SHA256 b | inr _ => True end
  | GetCredentials _ _ => λ r, match r with inr e => as_unconfirmed e = None | inl _ => True end
  | EncryptValue _ | DecryptValue _ => λ r, match r with inr e => as_unconfirmed e = None | inl _ => True end
  | _ => λ _, True
  end.

(** A login is to the target the job holds, which may be pushed to, under the
    key pinned for it. *)
Definition login_ok (s : session) (req : DeviceRequest) : Prop :=
  ∃ t, ss_target s = Some t ∧ ss_lock s = Some (t_ID t) ∧ dr_Host req = t_Host t ∧ dr_Port req = t_Port t ∧
    dr_Platform req = t_Platform t ∧ dr_PinnedHostKey req = t_HostKeySHA256 t ∧
    t_HostKeySHA256 t ≠ ""%string ∧ t_PushCredentialsID t ≠ ""%string ∧ t_Platform t ≠ PlatformCiscoNXOS.

(** The plan claimed is the one the admin was shown, and its start is in the
    audit log. *)
Definition claimed (s : session) (p : Plan) : Prop :=
  ss_plan s = Some p ∧ ss_claim s = Some (p_ClientID p, p_ID p) ∧ p_DiffSHA256 p = ss_shown s ∧
  p_AppliedAt p = None ∧ ∃ t, ss_target s = Some t ∧ t_ID t = p_TargetID p.

(** The device ran, when this apply read it, what the plan was made from. *)
Definition unchanged (s : session) (p : Plan) : Prop :=
  ∃ raw, io_fetched (ss_io s) = Some raw ∧ hex_sha256 (crlf_to_lf raw) = p_RunningSHA256 p.

Definition found_clean (s : session) : Prop :=
  ∃ c, ss_check s = Some (inl c) ∧ dr_Added c + dr_Removed c = 0.
Definition found_dirty (s : session) : Prop :=
  (∃ e, ss_check s = Some (inr e)) ∨ ∃ c, ss_check s = Some (inl c) ∧ dr_Added c + dr_Removed c ≠ 0.

(** What an outcome says of the device's answers. *)
Definition truthful (s : session) (o : ApplyOutcome) : Prop :=
  match o with
  | ApplyConfirmed => found_clean s ∧ ∃ e, ss_confirm s = Some e ∧ (∀ e', e = Some e' → Is e' ErrStartupNotSaved = true)
  | ApplyRolledBack => found_dirty s ∧ ss_rollback s = Some None ∧ ss_confirm s = None
  | ApplyReverting =>
      (∃ req, ss_commit s = Some (req, true)) ∧
      ((∃ e, ss_confirm s = Some (Some e) ∧ Is e ErrStartupNotSaved = false) ∨ (ss_confirm s = None ∧ ∃ e, ss_rollback s = Some (Some e)))
  | ApplyDrifted => ss_commit s = None ∧ ∃ b p, io_backup (ss_io s) = Some b ∧ ss_plan s = Some p ∧ b_SHA256 b ≠ p_RunningSHA256 p
  | ApplyFailed => ss_confirm s = None ∧ ss_rollback s = None ∧ ∀ req, ss_commit s ≠ Some (req, true)
  end.

Definition push_allowed (s : session) (c : call) : Prop :=
  match c with
  (* reading, backing up, the vault, the clock and the log *)
  | GetTarget _ _ | GetPlanRow _ _ | GetImage _ _ => ss_lock s = None ∨ (ss_claim s = None ∧ ss_commit s = None)
  | GetBackupRow _ _ | LatestConfig _ _ _ | InsertBackup _ | PruneBackups _ _ _ | SetPendingHostKey _ _ _
  | GetCredentials _ _ | EncryptValue _ | DecryptValue _ | Now | CtxErr | CreateAlert _ | RandomName | Audit _ => True
  | Fetch _ => ∃ t, ss_lock s = Some t
  (* the target *)
  | ClaimTarget _ => ss_lock s = None
  | ReleaseTarget id => ss_lock s = Some id
  (* plans *)
  | InsertPlan p => ss_lock s = Some (p_TargetID p) ∧ p_Added p + p_Removed p ≠ 0 ∧ p_ExpiresAt p = p_CreatedAt p + PlanLifetime
  | PrunePlans _ id _ => ss_lock s = Some id
  | ClaimApply client id _ _ =>
      ss_claim s = None ∧
      ∃ p t, ss_plan s = Some p ∧ (client, id) = (p_ClientID p, p_ID p) ∧ p_DiffSHA256 p = ss_shown s ∧
        p_AppliedAt p = None ∧ ss_target s = Some t ∧ t_ID t = p_TargetID p ∧ ss_lock s = Some (t_ID t)
  | FinishApply client id o => ss_claim s = Some (client, id) ∧ ss_audited s = true ∧ ss_finish s = None ∧ truthful s o
  (* the device *)
  | DryRun req =>
      login_ok s req ∧
      match ss_commit s with
      | None => ss_claim s = None
      | Some (req', landed) => landed = true ∧ req = req' ∧ ss_check s = None
      end
  | Commit req =>
      login_ok s req ∧ ss_commit s = None ∧ ss_audited s = true ∧
      ∃ p, claimed s p ∧ unchanged s p ∧ dr_Mode req = p_Mode p ∧ (p_CandidateCT p, dr_Candidate req) ∈ io_plain (ss_io s)
  | Confirm req =>
      login_ok s req ∧ ss_commit s = Some (req, true) ∧ found_clean s ∧ ss_confirm s = None ∧ ss_rollback s = None
  | Rollback req =>
      login_ok s req ∧ ss_commit s = Some (req, true) ∧ found_dirty s ∧ ss_confirm s = None ∧ ss_rollback s = None
  (* images *)
  | ReadImageFacts req => login_ok s req
  | OpenImage img => ∃ f, ss_facts s = Some f ∧ refuseStage f img = ""%string
  | CopyImage req di =>
      login_ok s req ∧
      ∃ f img, ss_facts s = Some f ∧ refuseStage f img = ""%string ∧ di = staged_image f img
  | VerifyImage req di => login_ok s req ∧ ss_copied s = Some di
  | SetBoot req di => login_ok s req ∧ ss_copied s = Some di ∧ ss_verified s = Some di
  | _ => False
  end.

(** A job that ends holds no target; an apply whose start was audited has
    asked for its outcome to be recorded. *)
Definition ended (s : session) : Prop :=
  ss_lock s = None ∧ (ss_audited s = true → ss_finish s ≠ None).

(** An apply that ends with an outcome and no error has that outcome recorded;
    where the record failed it says so. *)
Definition apply_ended (r : (ApplyResult * option err) + err) (s : session) : Prop :=
  ended s ∧
  match r with
  | inl (res, e) => ∃ fe, ss_finish s = Some (as_Outcome res, fe) ∧ (fe ≠ None → e ≠ None)
  | inr _ => ss_finish s = None
  end.
End contract.

#[local] Arguments as_unconfirmed : simpl never.
#[local] Arguments wrap_err : simpl never.
#[local] Arguments Is : simpl never.
#[local] Arguments backupOne : simpl never.
#[local] Arguments GetBackup : simpl never.
#[local] Arguments deviceRequest : simpl never.
#[local] Arguments pushTarget : simpl never.
#[local] Arguments predictIOS : simpl never.
#[local] Arguments refuseStage : simpl never.
#[local] Arguments locked : simpl never.
#[local] Arguments claimed_apply : simpl never.
#[local] Arguments claimed_stage : simpl never.

Section jobs.
Context (hex_sha256 : bytes → string) (sha_of : string → string) `{DL : !Difflib, XD : !XmlDecoder}.
Abbreviation obeys_ := (obeys (push_allowed hex_sha256) (push_possible sha_of) push_next).

(** A backup within a job only reads: it tells what the device runs and the
    hash of the backup it names. *)
Lemma backup_obeys t s l (Q : DeviceResult + err → session → Prop) :
  ss_lock s = Some l →
  (∀ r x, (∀ res, r = inl res → r_Status res = StatusOK →
             ∃ raw, io_fetched x = Some raw ∧ hex_sha256 (crlf_to_lf raw) = sha_of (r_BackupID res)) → Q r (set_io s x)) →
  obeys_ (backupOne hex_sha256 t) Q s.
Proof.
  intros Hl HQ.
  set (rel := λ (s1 : ConfigBackup.session) s2, ∃ x, s2 = set_io s x ∧
    (∀ raw, bs_fetched s1 = Some (inl raw) → io_fetched x = Some raw) ∧
    (∀ b, bs_latest s1 = Some (inl b) → b_SHA256 b = sha_of (b_ID b)) ∧
    (∀ b id, bs_inserted s1 = Some (b, id) → sha_of id = b_SHA256 b)).
  apply (obeys_mono _ _ _ _ (λ r s2, ∃ s1, rel s1 s2 ∧ backup_post hex_sha256 t r s1)).
  - intros r s2 (s1 & (x & -> & Hf & Hlt & Hin) & Hpost). apply HQ. intros res -> Hok.
    destruct Hpost as [_ Hpost]. rewrite Hok in Hpost.
    destruct Hpost as (o & (raw & Hraw & -> & _) & [(b & Hb & Hid & Hsha & _)|(b & Hb & _ & Hsha & _)]); exists raw;
      (split; [by apply Hf|]); rewrite <-Hsha.
    + rewrite <-Hid. by apply Hlt.
    + symmetry. by apply Hin.
  - apply (obeys_sim (backup_allowed hex_sha256 t) backup_possible backup_next) with (s1 := fresh_session);
      [|by exists (ss_io s); split; [by destruct s|]|apply backupOne_obeys].
    clear Q HQ. intros s1 s2 c (x & -> & Hf & Hlt & Hin) Hc. destruct c; cbn in Hc; try done; cbn; (split; [try done; by exists l|]);
      intros r Hr; (split; [try done|]); try (by exists x); try (by destruct r; exists x).
    + destruct r as [id|e]; [|by exists x]. exists x. split_and!; [done|done|done|]. cbn. by intros ? ? [= <- <-].
    + destruct r as [b|e]; exists x; (split_and!; [done|done| |done]); cbn; [by intros ? [= <-]|done].
    + destruct r as [pl|e]; [|by exists x]. exists (MkIO (io_fetched x) (io_backup x) ((cipher, pl) :: io_plain x)). done.
    + destruct r as [raw|e].
      * exists (MkIO (Some raw) (io_backup x) (io_plain x)). split_and!; [done| |done|done]. cbn. by intros ? [= <-].
      * exists x. split_and!; [done| |done|done]. cbn. by intros ? [=].
Qed.

Lemma set_io_id s : set_io s (ss_io s) = s.
Proof. by destruct s. Qed.

Lemma GetBackup_obeys client id s (Q : Backup + err → session → Prop) :
  (∀ r x, io_fetched x = io_fetched (ss_io s) →
     (∀ b, r = inl b → b_SHA256 b = sha_of id ∧ ∃ b', io_backup x = Some b' ∧ b_SHA256 b' = sha_of id) → Q r (set_io s x)) →
  obeys_ (GetBackup client id) Q s.
Proof.
  intros HQ. unfold GetBackup. cbn. split; [done|]. intros [b|e] Hb; cbn.
  - destruct Hb as [Hid Hsha]. case_bool_decide; cbn.
    + apply (HQ (inl b) (MkIO _ (Some b) _)); [done|]. intros b' [= <-]. split; [done|]. by exists b.
    + split; [done|]. intros [pl|e] _; cbn.
      * apply (HQ (inl (with_plain b pl)) (MkIO _ (Some b) _)); [done|]. intros b' [= <-]. split; [done|]. by exists b.
      * apply (HQ (inr _) (MkIO _ (Some b) _)); [done|]. by intros b' [=].
  - rewrite <-(set_io_id s). apply HQ; [done|]. by intros b [=].
Qed.

Lemma deviceRequest_obeys t mode candidate s (Q : DeviceRequest + err → session → Prop) :
  (∀ r x, io_fetched x = io_fetched (ss_io s) → io_backup x = io_backup (ss_io s) →
     (∀ d, d ∈ io_plain (ss_io s) → d ∈ io_plain x) →
     (∀ req, r = inl req → dr_Host req = t_Host t ∧ dr_Port req = t_Port t ∧ dr_Platform req = t_Platform t ∧
        dr_PinnedHostKey req = t_HostKeySHA256 t ∧ dr_Mode req = mode ∧ dr_Candidate req = candidate) → Q r (set_io s x)) →
  obeys_ (deviceRequest t mode candidate) Q s.
Proof.
  intros HQ. assert (∀ e, Q (inr e) s) as He.
  { intros e. rewrite <-(set_io_id s). by apply HQ. }
  unfold deviceRequest. cbn. split; [done|]. intros [cred|e] _; cbn; [|apply He].
  case_bool_decide; cbn; [|apply He]. split; [done|]. intros [pw|e] _; cbn; [|apply He].
  apply (HQ (inl _) (MkIO _ _ (_ :: _))); [done|done| |].
  - intros d Hd. by right.
  - by intros req [= <-].
Qed.

(** A target that may be pushed to. *)
Definition pushable (t : Target) : Prop :=
  t_HostKeySHA256 t ≠ ""%string ∧ t_PushCredentialsID t ≠ ""%string ∧ t_Platform t ≠ PlatformCiscoNXOS.
Lemma pushTarget_obeys client id s (Q : Target + err → session → Prop) :
  (ss_lock s = None ∨ (ss_claim s = None ∧ ss_commit s = None)) →
  (∀ e s', s' = s ∨ (∃ t, s' = set_target s t) → Q (inr e) s') →
  (∀ t, t_ID t = id → pushable t → Q (inl t) (set_target s t)) →
  obeys_ (pushTarget client id) Q s.
Proof.
  intros Hs He HQ. unfold pushTarget. cbn. split; [done|]. intros [t|e] Ht; cbn.
  - destruct Ht as [Hid _]. repeat case_bool_decide; try (by apply He; right; exists t). by apply HQ.
  - destruct (Is e ErrNotFound); apply He; by left.
Qed.

Lemma locked_obeys {A} id (job : program (A + err)) s (Q : A + err → session → Prop) :
  ss_lock s = None → Q (inr ErrPushBusy) s →
  obeys_ job (λ r s', ss_lock s' = Some id ∧ Q r (set_lock s' None)) (set_lock s (Some id)) →
  obeys_ (locked id job) Q s.
Proof.
  intros Hl He Hj. unfold locked. cbn. split; [done|]. intros [] _; cbn; [|done].
  apply obeys_bind. eapply obeys_mono; [|exact Hj]. intros r s' [Hl' HQ]. cbn. split; [done|]. by intros [] _.
Qed.

(** What an apply's outcome leaves of its session. *)
Definition applied (shown : string) (t : Target) (p : Plan) (r : ApplyResult) (s : session) : Prop :=
  truthful s (as_Outcome r) ∧ ss_lock s = Some (t_ID t) ∧ ss_claim s = Some (p_ClientID p, p_ID p) ∧
  ss_audited s = true ∧ ss_finish s = None.

(** The session of an apply at its commit. *)
Definition at_commit (shown : string) (x : io) (t : Target) (p : Plan) : session :=
  MkPush shown x (Some (t_ID t)) (Some t) (Some p) (Some (p_ClientID p, p_ID p)) true None None None None None None None None.

Ltac settle := unfold applied; cbn; split_and!; try done.

Lemma confirm_obeys shown x t p req c :
  login_ok (at_commit shown x t p) req → dr_Added c + dr_Removed c = 0 →
  obeys_ (confirm hex_sha256 t req) (applied shown t p)
    (set_check (set_commit (at_commit shown x t p) (req, true)) (inl c)).
Proof.
  intros Hlog Hz. unfold confirm. cbn. split.
  { split_and!; try done. by exists c. }
  intros [e|] _; cbn.
  - destruct (Is e ErrStartupNotSaved) eqn:Es; cbn.
    + apply obeys_bind. eapply backup_obeys; [done|]. intros r y _. destruct (backup_note r) as [notes id].
      settle; [by exists c|]. exists (Some e). split; [done|]. by intros ? [= <-].
    + settle; [by exists req|]. left. by exists e.
  - apply obeys_bind. eapply backup_obeys; [done|]. intros r y _. destruct (backup_note r) as [notes id].
    settle; [by exists c|]. by exists None.
Qed.

Lemma rollback_obeys shown x t p req chk reason :
  login_ok (at_commit shown x t p) req →
  match chk with inl c => dr_Added c + dr_Removed c ≠ 0 | inr _ => True end →
  obeys_ (rollback req reason) (applied shown t p) (set_check (set_commit (at_commit shown x t p) (req, true)) chk).
Proof.
  intros Hlog Hd. assert (found_dirty (set_check (set_commit (at_commit shown x t p) (req, true)) chk)) as Hdirty.
  { destruct chk as [c|e]; [right; by exists c|left; by exists e]. }
  unfold rollback. cbn. split; [split_and!; done|]. intros [e|] _; cbn.
  - settle; [by exists req|]. right. split; [done|]. by exists e.
  - settle.
Qed.

Lemma commit_obeys shown x t p req :
  login_ok (at_commit shown x t p) req → claimed (at_commit shown x t p) p → unchanged hex_sha256 (at_commit shown x t p) p →
  dr_Mode req = p_Mode p → (p_CandidateCT p, dr_Candidate req) ∈ io_plain x →
  obeys_ (commit hex_sha256 t req) (applied shown t p) (at_commit shown x t p).
Proof.
  intros Hlog Hcl Hun Hmode Hcand. unfold commit. cbn. split; [split_and!; try done; by exists p|].
  intros [e|] _; cbn; [settle; by intros ? [=]|]. split; [split_and!; done|]. intros [c|e] _; cbn.
  - destruct (dr_Added c + dr_Removed c =? 0) eqn:Ez.
    + by apply confirm_obeys; [|apply Z.eqb_eq].
    + by apply rollback_obeys; [|apply Z.eqb_neq].
  - by apply rollback_obeys.
Qed.

#[local] Arguments commit : simpl never.
#[local] Arguments apply : simpl never.

Lemma apply_obeys shown x t p :
  pushable t → t_ID t = p_TargetID p → p_DiffSHA256 p = shown → p_AppliedAt p = None →
  obeys_ (apply hex_sha256 t p) (applied shown t p) (at_commit shown x t p).
Proof.
  intros (Hkey & Hpush & Hnx) Hid Hshown Hap.
  assert (∀ x step e, applied shown t p (failed step e) (at_commit shown x t p)) as Hfail by done.
  unfold apply. apply obeys_bind. eapply backup_obeys; [done|]. intros [before|e] y Hb; [|apply (Hfail y)].
  case_bool_decide as Hok; cbn [negb]; [|settle]. apply obeys_bind. apply GetBackup_obeys.
  intros [running|e] z Hz Hrun; cbn in Hz; [|apply (Hfail z)].
  destruct (Hrun running eq_refl) as [Hsha (b' & Hb' & Hsha')]. case_bool_decide as Hdrift; cbn [negb].
  2:{ settle. exists b', p. split_and!; try done. congruence. }
  destruct (Hb before eq_refl Hok) as (raw & Hraw & Hrs). cbn. split; [done|].
  intros [candidate|e] _; cbn; [|apply (Hfail z)]. apply obeys_bind. apply deviceRequest_obeys. cbn.
  intros [req|e] w Hw1 Hw2 Hw3 Hreq; [|apply (Hfail w)]. cbn. split; [done|]. intros [id|e] _; [|apply (Hfail w)].
  destruct (Hreq req eq_refl) as (H1 & H2 & H3 & H4 & H5 & H6). cbn.
  apply (commit_obeys shown w); cbn.
  - exists t. split_and!; done.
  - split_and!; try done. by exists t.
  - exists raw. cbn. split; [congruence|]. congruence.
  - done.
  - rewrite H6. apply Hw3. left.
Qed.

Lemma ApplyJob_obeys req :
  obeys_ (ApplyJob hex_sha256 req) apply_ended (start (ar_DiffSHA256 req)).
Proof.
  unfold ApplyJob. apply obeys_try. unfold checkApply. cbn. split; [by left|]. intros [p|e] Hp; cbn; [|done].
  destruct Hp as [Hpid Hpc]. case_bool_decide as Hshown; cbn [negb]; [|done].
  destruct (p_AppliedAt p) eqn:Hap; cbn; [done|]. split; [done|]. intros now _.
  destruct (negb (now <? p_ExpiresAt p)); cbn; [done|]. apply obeys_try, pushTarget_obeys; [by left| |].
  { by intros e s' [->|[t ->] ]. }
  intros t Hid Hpt. cbn. apply locked_obeys; [done|done|]. unfold claimed_apply. cbn. split; [done|]. intros now' _. split.
  { split; [done|]. exists p, t. rewrite Hpid, Hpc. split_and!; done. }
  intros [e|] _; cbn; [done|]. split; [done|]. intros [e|] _; cbn; [done|]. apply obeys_bind.
  rewrite <-Hpc. eapply obeys_mono; [|by apply (apply_obeys (ar_DiffSHA256 req) _ t p)].
  intros res s (Htr & Hl & Hc & Ha & Hf). cbn. split; [done|]. intros fe _. cbn. split; [done|].
  destruct s; cbn in *. intros ae _; destruct ae; cbn; (split; [done|]); (split; [by split|]); exists fe; (split; [done|]);
    by destruct fe.
Qed.

(** A job that holds a target and has claimed no plan. *)
Definition holding (id : string) (s : session) : Prop :=
  ss_lock s = Some id ∧ ss_claim s = None ∧ ss_audited s = false ∧ ss_commit s = None.

Lemma locked_holding {A} id (job : program (A + err)) shown s (Q : A + err → session → Prop) :
  s = start shown ∨ (∃ t, s = set_target (start shown) t) →
  obeys_ job (λ _ s', holding id s') (set_lock s (Some id)) → obeys_ (locked id job) (λ _ s, ended s) s.
Proof.
  intros Hs Hj. assert (ss_lock s = None ∧ ss_audited s = false) as [Hl Ha] by (by destruct Hs as [->|[t ->] ]).
  apply locked_obeys; [done|by split; [|rewrite Ha]|]. eapply obeys_mono; [|exact Hj].
  intros r s' (Hl' & Hc & Ha' & Hco). split; [done|]. split; [done|]. cbn. by rewrite Ha'.
Qed.

Lemma store_obeys t req b src dr s :
  holding (t_ID t) s → dr_Added dr + dr_Removed dr ≠ 0 →
  obeys_ (store hex_sha256 t req b src dr) (λ _ s', holding (t_ID t) s') s.
Proof.
  intros Hh Hne. pose proof Hh as (Hl & _). unfold store. cbn. split; [done|]. intros [c1|e] _; cbn; [|done].
  split; [done|]. intros [c2|e] _; cbn; [|done]. split; [done|]. intros now _. split; [done|].
  intros [id|e] _; cbn; [|done]. split; [done|]. by intros [e|] _.
Qed.

#[local] Arguments store : simpl never.

Lemma plan_obeys req s : holding (pr_TargetID req) s →
  obeys_ (plan hex_sha256 req) (λ _ s', holding (pr_TargetID req) s') s.
Proof.
  intros Hh. pose proof Hh as (Hl & Hc & Ha & Hco). unfold plan, check_plan. apply obeys_try, obeys_try, pushTarget_obeys.
  { by right. }
  { by intros e s' [->|[t ->] ]. }
  intros t Hid Hpt. destruct (check_candidate _ _ _); cbn; [done|].
  unfold freshBackup. apply obeys_try, obeys_try. eapply backup_obeys; [done|]. intros [r|e] x _; [|done].
  case_bool_decide; [|done]. apply GetBackup_obeys. intros [b|e] y _ _; [|done]. apply obeys_bind.
  assert (∀ r s', holding (pr_TargetID req) s' → obeys_
    match r with
    | inl dr =>
        if dr_Added dr + dr_Removed dr =? 0 then Ret (inl (MkPlanResult PlanNoChange "" "" 0 0))
        else ptry (store hex_sha256 t req b (if bool_decide (t_Platform t = PlatformCiscoIOS) then DiffPredicted else DiffFromDevice) dr)
               (λ e, e) (λ id, Ret (inl (plan_result id dr)))
    | inr e => Ret match as_refused e with Some reason => inl (MkPlanResult PlanRefused "" reason 0 0) | None => inr e end
    end (λ _ s', holding (pr_TargetID req) s') s') as Hrest.
  { intros [dr|e] s' Hs'; [|done]. destruct (_ =? 0) eqn:Ez; [done|]. apply Z.eqb_neq in Ez. apply obeys_try.
    rewrite <-Hid in *. eapply obeys_mono; [|by apply store_obeys]. by intros [id|e] s'' Hs''. }
  destruct (bool_decide (t_Platform t = PlatformCiscoIOS)).
  - cbn. by apply (Hrest (match predictIOS _ _ _ with inl r => inl r | inr e => inr (predict_err e) end)).
  - unfold deviceDryRun. apply obeys_try, deviceRequest_obeys. intros [d|e] z _ _ _ Hd; [|by apply (Hrest (inr e))].
    destruct (Hd d eq_refl) as (H1 & H2 & H3 & H4 & _ & _). destruct Hpt as (P1 & P2 & P3). cbn. split.
    + split; [exists t; cbn; split_and!; try done; congruence|]. by rewrite Hco.
    + intros r' _. apply (Hrest r'). split_and!; cbn; by rewrite ?Hco.
Qed.

Lemma PlanJob_obeys req shown : obeys_ (PlanJob hex_sha256 req) (λ _ s, ended s) (start shown).
Proof.
  unfold PlanJob. apply (locked_holding _ _ shown _ (λ _ _, True)); [by left|]. apply obeys_bind.
  eapply obeys_mono; [|by apply plan_obeys]. intros r s Hh. cbn. split; [done|]. intros [e|] _; cbn; [done|].
  split; [done|]. destruct Hh as (Hl & Hc & Ha & Hco). intros [e|] _; cbn; [done|]. split_and!; cbn; try done. by rewrite Hc.
Qed.

Lemma audit_holding id s : holding id s → holding id (set_audited s).
Proof. intros (Hl & Hc & Ha & Hco). split_and!; cbn; try done. by rewrite Hc. Qed.
Lemma image_holding id s f c v : holding id s → holding id (set_image s f c v).
Proof. done. Qed.
Lemma io_holding id s x : holding id s → holding id (set_io s x).
Proof. done. Qed.
#[local] Hint Resolve audit_holding image_holding io_holding : core.

Lemma login_image s req f c v : login_ok s req → login_ok (set_image s f c v) req.
Proof. done. Qed.
Lemma login_audit s req : login_ok s req → login_ok (set_audited s) req.
Proof. done. Qed.

#[local] Arguments set_audited : simpl never.

Lemma stage_obeys req t img s :
  holding (t_ID t) s → ss_target s = Some t → pushable t →
  obeys_ (stage req t img) (λ _ s', holding (t_ID t) s') s.
Proof.
  intros Hh Ht (P1 & P2 & P3). unfold stage. apply obeys_bind, deviceRequest_obeys. intros [d|e] x _ _ _ Hd; [|cbn; auto].
  destruct (Hd d eq_refl) as (H1 & H2 & H3 & H4 & _ & _). cbn.
  assert (login_ok (set_io s x) d) as Hlog.
  { exists t. destruct Hh as (Hl & _). done. }
  split; [done|]. intros [f|e] _; cbn; [|auto]. destruct (decide (refuseStage f img = "")%string) as [Ef|Ef].
  2:{ rewrite bool_decide_eq_false_2 by done. cbn. auto. }
  rewrite bool_decide_eq_true_2 by done. cbn. split; [by exists f|]. intros [e|] _; cbn; [auto|].
  split; [split; [done|]; by exists f, img|]. intros [e|] _; cbn; [auto|]. split; [done|]. intros n1 _.
  destruct n1 as [n1|]; (split; [done|]); intros [e|] _; cbn; try (destruct (Is e ErrImageCorrupt); cbn; by auto 10);
    (split; [done|]); intros [n2|] _; cbn; (split; [done|]); intros [e|] _; cbn; try (by auto 10);
    (split; [done|]); intros [n3|] _; cbn; by auto 10.
Qed.

#[local] Arguments stage : simpl never.

Lemma StageJob_obeys req shown : obeys_ (StageJob req) (λ _ s, ended s) (start shown).
Proof.
  unfold StageJob, checkStage. apply obeys_try, obeys_try. cbn. split; [by left|]. intros [img|e] _; cbn; [|done].
  apply obeys_try, pushTarget_obeys; [by left| |].
  { by intros e s' [->|[t ->] ]. }
  intros t _ Hpt. case_bool_decide; cbn; [|done]. apply (locked_holding _ _ shown _ (λ _ _, True)); [right; by exists t|].
  unfold claimed_stage. cbn. split; [done|].
  assert (holding (t_ID t) (set_lock (set_target (start shown) t) (Some (t_ID t)))) as Hh by done.
  intros [e|] _; cbn; [done|]. apply obeys_bind. eapply obeys_mono; [|by apply stage_obeys; auto].
  intros [res notes] s Hs. apply obeys_bind. destruct (st_Outcome res); cbn; [done|..]; (split; [done|]);
    intros [e|] _; cbn; auto.
Qed.

End jobs.

(** ** Jobs side by side

    The jobs of a server share its database and the set of targets in use.
    Between any two calls the rest of the server may change targets and
    backups as it likes and delete plans. *)
Record server : Type := MkServer { w_db : DB; w_used : gset string; w_busy : gset string }.

Definition elsewhere (w w' : server) : Prop :=
  db_plans (w_db w') `sublist_of` db_plans (w_db w) ∧ w_used w' = w_used w ∧ w_busy w' = w_busy w.

Definition answers (w : server) (c : call) : resp c → server → Prop :=
  match c return resp c → server → Prop with
  | ClaimTarget id => λ r w',
      if r then id ∉ w_busy w ∧ w' = MkServer (w_db w) (w_used w) ({[id]} ∪ w_busy w) else id ∈ w_busy w ∧ w' = w
  | ReleaseTarget id => λ _ w', w' = MkServer (w_db w) (w_used w) (w_busy w ∖ {[id]})
  | c => λ r w',
      (∃ fresh db', fresh ∉ w_used w ∧ db_answer fresh (w_db w) c = Some (r, db') ∧
         w' = MkServer db' ({[fresh]} ∪ w_used w) (w_busy w)) ∨
      (fails c r ∧ w' = w) ∨ (db_answer "" (w_db w) c = None ∧ w' = w)
  end.

Section server.
Context (hex_sha256 : bytes → string) (sha_of : string → string).

Definition serves (w : server) (c : call) (r : resp c) (w' : server) : Prop :=
  push_possible sha_of c r ∧ ∃ w1, elsewhere w w1 ∧ answers w1 c r w'.

Definition starting (s : session) : Prop := ∃ shown, s = start shown.
Abbreviation jobs_step :=
  (pool_step (A := ()) (push_allowed hex_sha256) (push_possible sha_of) push_next serves starting (λ _ s, ended s)).

(** Plan ids are distinct and drawn once. *)
Definition plans_ok (w : server) : Prop :=
  NoDup (map p_ID (db_plans (w_db w))) ∧ ∀ p, p ∈ db_plans (w_db w) → p_ID p ∈ w_used w.

(** Who holds what: a target held is in use and has one holder; a plan claimed
    is spent and has one claimer. *)
Definition locks_ok (ls : list (option string)) (busy : gset string) : Prop :=
  (∀ i id, ls !! i = Some (Some id) → id ∈ busy) ∧
  (∀ i j id, ls !! i = Some (Some id) → ls !! j = Some (Some id) → i = j).
Definition spent (w : server) (id : string) : Prop :=
  id ∈ w_used w ∧ ∀ p, p ∈ db_plans (w_db w) → p_ID p = id → p_AppliedAt p ≠ None.
Definition claims_ok (cs : list (option (string * string))) (w : server) : Prop :=
  (∀ i k, cs !! i = Some (Some k) → spent w k.2) ∧
  (∀ i j k l, cs !! i = Some (Some k) → cs !! j = Some (Some l) → k.2 = l.2 → i = j).

Definition jobs_ok (ss : list session) (w : server) : Prop :=
  plans_ok w ∧ locks_ok (ss_lock <$> ss) (w_busy w) ∧ claims_ok (ss_claim <$> ss) w.

(** *** What a call changes *)

Lemma next_lock s c r : (∀ id, c ≠ ClaimTarget id) → (∀ id, c ≠ ReleaseTarget id) → ss_lock (push_next s c r) = ss_lock s.
Proof. intros H1 H2. destruct c; try done; cbn; try (by destruct r); [by destruct (H1 id)|by destruct (H2 id)]. Qed.

Lemma next_claim s c r : (∀ cl id u n, c ≠ ClaimApply cl id u n) → ss_claim (push_next s c r) = ss_claim s.
Proof. intros H1. destruct c; try done; cbn; try (by destruct r). by destruct (H1 client id user now). Qed.

(** The rows after keep their ids and whether they are applied; a new row has
    the id drawn. *)
Definition plans_kept (fresh : string) (ps ps' : list Plan) : Prop :=
  (NoDup (map p_ID ps) → (∀ p, p ∈ ps → p_ID p ≠ fresh) → NoDup (map p_ID ps')) ∧
  ∀ p', p' ∈ ps' → p_ID p' = fresh ∨ ∃ p, p ∈ ps ∧ p_ID p = p_ID p' ∧ (p_AppliedAt p ≠ None → p_AppliedAt p' ≠ None).

Lemma plans_kept_sublist fresh ps ps' : ps' `sublist_of` ps → plans_kept fresh ps ps'.
Proof.
  intros Hs. split.
  - intros Hnd _. eapply sublist_NoDup; [exact Hnd|]. by apply (fmap_sublist p_ID).
  - intros p' Hp'. right. exists p'. split; [|done]. eapply elem_of_sublist; [exact Hp'|exact Hs].
Qed.

Lemma where_sublist {A} (p : A → bool) rows : where_ p rows `sublist_of` rows.
Proof. induction rows as [|r rows IH]; cbn; [done|]. destruct (p r); by constructor. Qed.

Lemma plans_kept_update fresh p f ps : (∀ r, p_ID (f r) = p_ID r) → (∀ r, p_AppliedAt r ≠ None → p_AppliedAt (f r) ≠ None) →
  plans_kept fresh ps (update p f ps).1.
Proof.
  intros Hid Hap. split.
  - intros Hnd _. cbn. rewrite map_map. erewrite map_ext; [exact Hnd|]. intros r. by destruct (p r).
  - intros p' (r & Hr & [ [_ ->]|[_ ->] ])%elem_of_update; right; exists r; auto.
Qed.

Lemma plans_step fresh db c r db' : db_answer fresh db c = Some (r, db') → plans_kept fresh (db_plans db) (db_plans db').
Proof.
  intros H. destruct c; cbn in H; try done;
    try (injection H as <- <-; by apply plans_kept_sublist).
  - unfold save_target in H. repeat case_match; injection H as <- <-; by apply plans_kept_sublist.
  - case_bool_decide; injection H as <- <-; apply plans_kept_sublist; [done|]. apply where_sublist.
  - destruct (existsb _ _); injection H as <- <-; by apply plans_kept_sublist.
  - injection H as <- <-. cbn. split.
    + intros Hnd Hf. rewrite map_app. apply NoDup_app. split_and!; [done| |apply NoDup_singleton].
      intros x Hx ->%list_elem_of_singleton. apply list_elem_of_fmap in Hx as (q & Hq & Hin). cbn in Hq. by destruct (Hf q Hin).
    + intros p' [Hp'| ->%list_elem_of_singleton]%elem_of_app; [right; exists p'; auto|]. by left.
  - injection H as <- <-. apply plans_kept_sublist, where_sublist.
  - case_bool_decide; injection H as <- <-; [by apply plans_kept_sublist|]. by apply plans_kept_update.
  - injection H as <- <-. by apply plans_kept_update.
Qed.

(** *** What every reachable pool has *)

Lemma elsewhere_ok ss w w' : elsewhere w w' → jobs_ok ss w → jobs_ok ss w'.
Proof.
  intros (Hp & Hu & Hb) ([Hnd Hin] & Hl & [Hc1 Hc2]). unfold jobs_ok, plans_ok, claims_ok, spent in *. rewrite Hu, Hb.
  assert (∀ p, p ∈ db_plans (w_db w') → p ∈ db_plans (w_db w)) as Hsub by (intros p Hp'; by eapply elem_of_sublist).
  split_and!; [|by auto|done| |done].
  - eapply sublist_NoDup; [exact Hnd|]. by apply (fmap_sublist p_ID).
  - intros i k Hk. destruct (Hc1 i k Hk) as [H1 H2]. split; [done|]. auto.
Qed.

Lemma database_ok ss w c r fresh db' :
  jobs_ok ss w → fresh ∉ w_used w → db_answer fresh (w_db w) c = Some (r, db') →
  jobs_ok ss (MkServer db' ({[fresh]} ∪ w_used w) (w_busy w)).
Proof.
  intros ([Hnd Hin] & Hl & [Hc1 Hc2]) Hfr Ha. destruct (plans_step _ _ _ _ _ Ha) as [Hnd' Hkept].
  split_and!; [split|exact Hl|split; [|exact Hc2] ]; cbn.
  - apply Hnd'; [done|]. intros p Hp E. apply Hfr. rewrite <-E. by apply Hin.
  - intros p Hp. destruct (Hkept p Hp) as [E|(q & Hq & E & _)]; [set_solver|]. rewrite <-E. apply elem_of_union_r. by apply Hin.
  - intros i k Hk. destruct (Hc1 i k Hk) as [H1 H2]. split; [set_solver|]. intros p Hp Hpk. cbn in Hp.
    destruct (Hkept p Hp) as [E|(q & Hq & E & Hap)]; [congruence|]. apply Hap, H2; [done|congruence].
Qed.

Lemma same_session ss w i s s' :
  ss !! i = Some s → ss_lock s' = ss_lock s → ss_claim s' = ss_claim s → jobs_ok ss w → jobs_ok (<[i := s']> ss) w.
Proof.
  intros Hi El Ec (Hp & Hl & Hc). unfold jobs_ok. rewrite !list_fmap_insert, El, Ec.
  by rewrite !list_insert_id by (by rewrite list_lookup_fmap, Hi).
Qed.

(** An entry of a changed list is the new one, or an old one elsewhere. *)
Lemma lookup_insert_cases {A} (l : list A) i j x y : <[i := x]> l !! j = Some y → (j = i ∧ y = x) ∨ (j ≠ i ∧ l !! j = Some y).
Proof.
  destruct (decide (i = j)) as [<-|Hne].
  - intros H. left. split; [done|]. rewrite list_lookup_insert_eq in H; [by injection H|].
    apply lookup_lt_Some in H. by rewrite length_insert in H.
  - rewrite list_lookup_insert_ne by done. intros H. right. split; congruence.
Qed.

Lemma lock_taken ls busy i id : id ∉ busy → locks_ok ls busy → locks_ok (<[i := Some id]> ls) ({[id]} ∪ busy).
Proof.
  intros Hid [H1 H2]. split.
  - intros j x [ [_ [= ->] ]|[_ Hj] ]%lookup_insert_cases; [set_solver|]. apply elem_of_union_r. eauto.
  - intros j k x [ [-> [= ->] ]|[Hji Hj] ]%lookup_insert_cases [ [-> Hx]|[Hki Hk] ]%lookup_insert_cases; try done.
    + exfalso. eauto.
    + injection Hx as ->. exfalso. eauto.
    + by eapply H2.
Qed.

Lemma lock_left ls busy i id : ls !! i = Some (Some id) → locks_ok ls busy → locks_ok (<[i := None]> ls) (busy ∖ {[id]}).
Proof.
  intros Hi [H1 H2]. split.
  - intros j x [ [_ [=] ]|[Hji Hj] ]%lookup_insert_cases. apply elem_of_difference. split; [eauto|].
    intros ->%elem_of_singleton. apply Hji. by eapply H2.
  - intros j k x [ [-> [=] ]|[Hji Hj] ]%lookup_insert_cases [ [-> [=] ]|[Hki Hk] ]%lookup_insert_cases. by eapply H2.
Qed.

(** Of the plans with one id only one is there. *)
Lemma plan_unique ps p q : NoDup (map p_ID ps) → p ∈ ps → q ∈ ps → p_ID p = p_ID q → p = q.
Proof.
  intros Hnd [i Hi]%list_elem_of_lookup [j Hj]%list_elem_of_lookup E.
  assert (i = j) as ->; [|congruence].
  eapply NoDup_lookup; [exact Hnd| |]; rewrite list_lookup_fmap; [by rewrite Hi|by rewrite Hj, E].
Qed.

Lemma claim_made ss w i s client id user now r fresh db' :
  ss !! i = Some s → ss_claim s = None → jobs_ok ss w → fresh ∉ w_used w →
  db_answer fresh (w_db w) (ClaimApply client id user now) = Some (r, db') →
  jobs_ok (<[i := push_next s (ClaimApply client id user now) r]> ss) (MkServer db' ({[fresh]} ∪ w_used w) (w_busy w)).
Proof.
  intros Hi Hs Hok Hfr Ha. pose proof (database_ok _ _ _ _ _ _ Hok Hfr Ha) as Hok'.
  destruct r as [e|]; [by apply same_session with s|]. destruct Hok' as (Hp' & Hl' & [Hc1' Hc2']).
  destruct Hok as ([Hnd Hin] & _ & [Hc1 _]). cbn in Ha. case_bool_decide as Hn; [done|]. injection Ha as <-.
  destruct (where_ (claimable client id (to_second now)) (db_plans (w_db w))) as [|p rest] eqn:Ew; [done|].
  assert (p ∈ where_ (claimable client id (to_second now)) (db_plans (w_db w))) as Hp by (rewrite Ew; left).
  apply elem_of_where in Hp as [Hp Hcl]. pose proof Hcl as Hcl'. unfold claimable, plan_key in Hcl'.
  rewrite !andb_true_iff, !bool_decide_eq_true in Hcl'. destruct Hcl' as [ [ [Hpid Hpc] Hap] _].
  unfold jobs_ok. rewrite !list_fmap_insert. cbn [push_next ss_lock ss_claim set_claim].
  rewrite (list_insert_id (ss_lock <$> ss)) by (by rewrite list_lookup_fmap, Hi).
  split; [exact Hp'|]. split; [exact Hl'|]. assert (∀ j k, (ss_claim <$> ss) !! j = Some (Some k) → k.2 ≠ id) as Hnot.
  { intros j k Hj E. destruct (Hc1 j k Hj) as [_ H2]. apply (H2 p); [done|congruence|done]. }
  split.
  - intros j k [ [-> [= ->] ]|[Hji Hj] ]%lookup_insert_cases; [|by eapply Hc1'].
    split; cbn; [apply elem_of_union_r; rewrite <-Hpid; by apply Hin|].
    intros q Hq Hqid. cbn in Hq. apply elem_of_update in Hq as (q0 & Hq0 & [ [_ ->]|[Hno ->] ]); [done|].
    assert (q0 = p) as ->; [|congruence]. apply (plan_unique _ _ _ Hnd Hq0 Hp). congruence.
  - intros j k x y [ [-> [= ->] ]|[Hji Hj] ]%lookup_insert_cases [ [-> Hy]|[Hki Hk] ]%lookup_insert_cases E; try done.
    + by destruct (Hnot k y Hk).
    + injection Hy as ->. by destruct (Hnot j x Hj).
    + by eapply Hc2'.
Qed.

Lemma answers_ok ss w i s c r w' :
  ss !! i = Some s → push_allowed hex_sha256 s c → jobs_ok ss w → answers w c r w' → jobs_ok (<[i := push_next s c r]> ss) w'.
Proof.
  intros Hi Hc Hok Ha.
  assert ((∀ id, c ≠ ClaimTarget id) → (∀ id, c ≠ ReleaseTarget id) → (∀ cl id u n, c ≠ ClaimApply cl id u n) →
    jobs_ok (<[i := push_next s c r]> ss) w') as Hother.
  { intros H1 H2 H3. apply same_session with s; [done|by apply next_lock|by apply next_claim|].
    assert ((∃ fresh db', fresh ∉ w_used w ∧ db_answer fresh (w_db w) c = Some (r, db') ∧
         w' = MkServer db' ({[fresh]} ∪ w_used w) (w_busy w)) ∨ w' = w) as [(fresh & db' & Hfr & Hd & ->)| ->]; [|by eapply database_ok|done].
    destruct c; try (by destruct (H1 id)); try (by destruct (H2 id)); destruct Ha as [Ha|[ [_ ->]|[_ ->] ] ]; auto. }
  destruct c; try (by apply Hother).
  - destruct Hc as [Hs _]. destruct Ha as [(fresh & db' & Hfr & Hd & ->)|[ [ [e ->] ->]|[Hd ->] ] ].
    + by apply claim_made.
    + by apply same_session with s.
    + cbn in Hd. by case_bool_decide.
  - destruct r; destruct Ha as [Hid Hw]; subst w'; [|by apply same_session with s].
    destruct Hok as (Hp & Hl & Hcl). unfold jobs_ok. rewrite !list_fmap_insert. cbn [push_next set_lock ss_lock ss_claim w_busy].
    rewrite (list_insert_id (ss_claim <$> ss)) by (by rewrite list_lookup_fmap, Hi).
    split; [exact Hp|]. split; [by apply lock_taken|exact Hcl].
  - cbn in Hc. cbn in Ha. subst w'.
    destruct Hok as (Hp & Hl & Hcl). unfold jobs_ok. rewrite !list_fmap_insert. cbn [push_next set_lock ss_lock ss_claim w_busy].
    rewrite (list_insert_id (ss_claim <$> ss)) by (by rewrite list_lookup_fmap, Hi).
    split; [exact Hp|]. split; [|exact Hcl]. apply lock_left; [|exact Hl]. by rewrite list_lookup_fmap, Hi, <-Hc.
Qed.

Lemma jobs_reach ps w0 : rtc jobs_step (Pool [] w0) ps → plans_ok w0 →
  pool_ok (push_allowed hex_sha256) (push_possible sha_of) push_next (λ _ s, ended s) ps ∧ jobs_ok (threads ps).*2 (world ps).
Proof.
  intros Hr Hw. assert (∀ w c r w', serves w c r w' → push_possible sha_of c r) as Hsv by (by intros w c r w' [? _]). split.
  - eapply pool_reach_ok; [exact Hsv|exact Hr|]. constructor.
  - eapply (pool_invariant _ _ _ _ _ _ Hsv jobs_ok); [| |exact Hr|constructor|].
    + intros ss w i s c r w' Hok Hi Hc [_ (w1 & Hel & Ha)]. eapply answers_ok; [done|done| |done]. by eapply elsewhere_ok.
    + intros ss w s (Hp & Hl & Hc1 & Hc2) [shown ->]. unfold jobs_ok. rewrite !fmap_app. cbn.
      assert (∀ A (l : list (option A)) j x, (l ++ [None]) !! j = Some (Some x) → l !! j = Some (Some x)) as Hsnoc.
      { intros A l j x [H|[_ H] ]%lookup_app_Some; [done|]. by apply list_lookup_singleton_Some in H as [_ [=] ]. }
      split; [done|]. split; (split; [intros j x ?%Hsnoc|intros j k x]).
      * eauto. by eapply Hl.
      * intros ?%Hsnoc ?%Hsnoc. by eapply Hl.
      * by eapply Hc1.
      * intros y ?%Hsnoc ?%Hsnoc. by eapply Hc2.
    + split; [done|]. split; split; cbn; try (by intros ? ? ?); by intros ? ? ? ?.
Qed.

End server.

(** ** Examples *)

(** A server and one device: what the device runs, what it would go back to,
    and what goes wrong. *)
Record sim : Type := MkSim {
  sm_db : DB; sm_ids : Z; sm_busy : list string; sm_running : bytes; sm_before : option bytes; sm_audited : list string;
  sm_audit_fails : bool; sm_confirm_fails : bool }.

Definition sim_device (w : sim) (running : bytes) (before : option bytes) : sim :=
  MkSim (sm_db w) (sm_ids w) (sm_busy w) running before (sm_audited w) (sm_audit_fails w) (sm_confirm_fails w).
Definition sim_dry_run (w : sim) (req : DeviceRequest) : DryRunResult :=
  if Contains (sm_running w) (dr_Candidate req) then MkDryRun [] 0 0 else MkDryRun (dr_Candidate req) 1 0.
Definition sim_answer (w : sim) (c : call) : resp c * sim :=
  match db_answer ("row-" +:+ pretty (sm_ids w)) (sm_db w) c with
  | Some (r, db) =>
      (r, MkSim db (sm_ids w + 1) (sm_busy w) (sm_running w) (sm_before w) (sm_audited w) (sm_audit_fails w) (sm_confirm_fails w))
  | None =>
      match c return resp c * sim with
      | ClaimTarget id =>
          if bool_decide (id ∈ sm_busy w) then (false, w)
          else (true, MkSim (sm_db w) (sm_ids w) (id :: sm_busy w) (sm_running w) (sm_before w) (sm_audited w)
                        (sm_audit_fails w) (sm_confirm_fails w))
      | ReleaseTarget id =>
          ((), MkSim (sm_db w) (sm_ids w) (List.filter (λ x, negb (bool_decide (x = id))) (sm_busy w)) (sm_running w)
                 (sm_before w) (sm_audited w) (sm_audit_fails w) (sm_confirm_fails w))
      | Audit ev =>
          if sm_audit_fails w then (Some (OtherError "disk full"), w)
          else (None, MkSim (sm_db w) (sm_ids w) (sm_busy w) (sm_running w) (sm_before w) (ae_Action ev :: sm_audited w)
                        (sm_audit_fails w) (sm_confirm_fails w))
      | DryRun req => (inl (sim_dry_run w req), w)
      | Commit req => (None, sim_device w (sm_running w ++ dr_Candidate req) (Some (sm_running w)))
      | Confirm _ =>
          (if sm_confirm_fails w then Some (OtherError "exit configuration-mode") else None, sim_device w (sm_running w) None)
      | Rollback _ => (None, sim_device w (default (sm_running w) (sm_before w)) None)
      | c => (around (sm_running w) c, w)
      end
  end.

#[local] Instance no_xml : XmlDecoder := {| xml_tokens _ := ([], None) |}.
Definition junos_example : Target :=
  MkTarget "t1" "c1" "edge" "10.0.0.1" 22 PlatformJuniperJunos "cred" "SHA256:old" "" "push" 0.
Definition sim_example (audit_fails confirm_fails : bool) : sim :=
  MkSim (MkDB [junos_example] [] []) 1 [] (ascii_bytes "system;") None [] audit_fails confirm_fails.
Definition plan_example : PlanRequest := MkPlanRequest "c1" "t1" PushMerge (ascii_bytes "snmp;") "ann" "" "".
Definition apply_example : ApplyRequest := MkApplyRequest "c1" "row-2" "snmp;" "ann" "" "".
Definition planned (w : sim) : sim := (run sim_answer (PlanJob toy_sha (DL := whole_difflib) plan_example) w).2.
Definition set_fails (audit_fails confirm_fails : bool) (w : sim) : sim :=
  MkSim (sm_db w) (sm_ids w) (sm_busy w) (sm_running w) (sm_before w) (sm_audited w) audit_fails confirm_fails.


Definition apply_row : ApplyRequest := MkApplyRequest "c1" "row-6" "snmp;" "ann" "" "".
Abbreviation apply_run := (run sim_answer (ApplyJob toy_sha (DL := whole_difflib) apply_row)).
Definition outcome_of {E} (r : (ApplyResult * option err) + E) : option ApplyOutcome :=
  match r with inl (res, _) => Some (as_Outcome res) | inr _ => None end.

(** A plan is stored, applied and confirmed; a second apply is refused. *)
Example plan_apply_again :
  let w0 := planned (sim_example false false) in
  let '(r, w1) := apply_run w0 in
  map (λ p, (p_ID p, p_DiffSHA256 p, p_ApplyOutcome p)) (db_plans (sm_db w0)) = [("row-6"%string, "snmp;"%string, None)] ∧
  outcome_of r = Some ApplyConfirmed ∧ sm_running w1 = ascii_bytes "system;snmp;" ∧ sm_before w1 = None ∧ sm_busy w1 = [] ∧
  map p_ApplyOutcome (db_plans (sm_db w1)) = [Some ApplyConfirmed] ∧
  sm_audited w1 = ["device_config.push.confirmed"; "device_config.push.apply_started"; "device_config.push.plan_created"]%string ∧
  (apply_run w1).1 = inr ErrPlanSpent.
Proof. vm_compute. repeat split; reflexivity. Qed.

(** A device changed after the plan is left alone. *)
Example drifted_untouched :
  let w := sim_device (planned (sim_example false false)) (ascii_bytes "system;ntp;") None in
  let '(r, w1) := apply_run w in
  outcome_of r = Some ApplyDrifted ∧ sm_running w1 = sm_running w ∧ map p_ApplyOutcome (db_plans (sm_db w1)) = [Some ApplyDrifted].
Proof. vm_compute. repeat split; reflexivity. Qed.

(** A confirmation that took effect and then failed is recorded as one the
    device will revert; it does not. *)
Example confirm_lost :
  let '(r, w1) := apply_run (set_fails false true (planned (sim_example false false))) in
  outcome_of r = Some ApplyReverting ∧ sm_running w1 = ascii_bytes "system;snmp;" ∧ sm_before w1 = None ∧
  map p_ApplyOutcome (db_plans (sm_db w1)) = [Some ApplyReverting].
Proof. vm_compute. repeat split; reflexivity. Qed.

(** An apply whose start cannot be audited has claimed its plan, which then
    has no outcome and cannot be applied. *)
Example claimed_without_outcome :
  let '(r, w1) := apply_run (set_fails true false (planned (sim_example false false))) in
  r = inr (Wrapped "audit push apply: " (OtherError "disk full") "") ∧
  map (λ p, (p_AppliedBy p, p_ApplyOutcome p)) (db_plans (sm_db w1)) = [("ann"%string, None)] ∧
  (apply_run (set_fails false false w1)).1 = inr ErrPlanSpent.
Proof. vm_compute. repeat split; reflexivity. Qed.

Example file_names :
  fileName "flash:/EOS.swi" = "EOS.swi"%string ∧ fileName "EOS.swi" = "EOS.swi"%string ∧ fileName "flash:" = ""%string ∧
  rateTime 625000000 minCopyRate = 1001 * second.
Proof. vm_compute. repeat split; reflexivity. Qed.

(** Two applies of one plan and a plan of its target, side by side. *)
Definition discard {A} (p : program A) : program () := pbind p (λ _, Ret ()).
Lemma discard_obeys {A} hex_sha256 sha_of (p : program A) s :
  obeys (push_allowed hex_sha256) (push_possible sha_of) push_next p (λ _ s, ended s) s →
  obeys (push_allowed hex_sha256) (push_possible sha_of) push_next (discard p) (λ _ s, ended s) s.
Proof. intros H. by apply obeys_bind. Qed.

Definition server_example : server := MkServer (MkDB [junos_example] [] []) ∅ ∅.
