(* ===== verification/CliShell.v ===== *)
(** * An interactive CLI session (src/internal/deviceconfig/cli_push.go)

    [cliShell]: output is read until it ends at the device's prompt, whose
    name is learned at login; a command's output is what follows its echo. The
    device's side is the list of the reads it will satisfy, each with the bytes
    it brings and the error that comes with them; past the last of them the
    device deadline closes the session. The second half reads what the devices
    print: errors, rejected lines, commit histories. Prompt names are compared
    byte by byte, and "password:" by its ASCII letters. *)
From Stdlib Require Import ZArith Lia Ascii.
From stdpp Require Import base sets list strings pretty.
From S2P Require Import Prelude GoBase GoText IosConfig ConfigStore ConfigBackup ConfigPush.

(** ** Strings *)

Definition return_char : Z := 13.
(** [strings.ReplaceAll(s, "\r", "")] *)
Definition strip_cr (s : bytes) : bytes := List.filter (λ c, negb (c =? return_char)) s.

(** What follows the last newline of a text, or all of it. *)
Fixpoint last_line (s : bytes) : bytes :=
  match s with
  | [] => []
  | c :: rest => if bool_decide (newline ∈ rest) then last_line rest else if c =? newline then rest else s
  end.

(** [strings.HasSuffix], [strings.TrimSuffix] *)
Definition HasSuffix (s p : bytes) : bool := bool_decide (drop (length s - length p) s = p).
Definition TrimSuffix (s p : bytes) : bytes := if HasSuffix s p then take (length s - length p) s else s.

(** [strings.LastIndex] of a text that is not empty, -1 when absent. *)
Fixpoint last_index (s sub : bytes) (i best : Z) : Z :=
  let best := if HasPrefix s sub then i else best in
  match s with [] => best | _ :: rest => last_index rest sub (i + 1) best end.
Definition LastIndex (s sub : bytes) : Z := last_index s sub 0 (-1).

(** [utf8.ValidString]: the lead byte says how many continuation bytes
    follow and bounds the first of them. *)
Definition continues (c : Z) : bool := (128 <=? c) && (c <=? 191).
Fixpoint valid_utf8 (fuel : nat) (s : bytes) : bool :=
  match fuel with
  | O => true
  | S fuel =>
      match s with
      | [] => true
      | c :: s1 =>
          if c <? 128 then valid_utf8 fuel s1
          else match s1 with
          | [] => false
          | d :: s2 =>
              if (194 <=? c) && (c <=? 223) then continues d && valid_utf8 fuel s2
              else match s2 with
              | [] => false
              | e :: s3 =>
                  if (224 <=? c) && (c <=? 239)
                  then continues d && continues e && ((225 <=? c) || (160 <=? d)) && (negb (c =? 237) || (d <? 160)) &&
                       valid_utf8 fuel s3
                  else match s3 with
                  | [] => false
                  | f :: s4 =>
                      (240 <=? c) && (c <=? 244) && continues d && continues e && continues f &&
                      ((241 <=? c) || (144 <=? d)) && (negb (c =? 244) || (d <? 144)) && valid_utf8 fuel s4
                  end
              end
          end
      end
  end.
Definition ValidString (s : bytes) : bool := valid_utf8 (length s) s.

(** ** Prompts

    A matcher takes the text read so far, carriage returns removed, and
    answers what [expect] keeps as [s.last]: the end of the text from the
    match on, without a newline in front. *)

(** [> ?\z] or [# ?\z] *)
Definition prompt_end (s : bytes) : bool :=
  bool_decide (s ∈ map ascii_bytes [">"; "> "; "#"; "# "]%string).

(** [anyPrompt] *)
Definition ends_prompt (line : bytes) : bool :=
  match rev line with
  | c :: rest =>
      if c =? space then match rest with d :: _ => (d =? 62) || (d =? 35) | [] => false end
      else (c =? 62) || (c =? 35)
  | [] => false
  end.
Definition anyPrompt (text : bytes) : option bytes :=
  let line := last_line text in if ends_prompt line then Some line else None.

(** [(?:\([^)\n]*\))?] and the end of the prompt, after the name: the mode
    ends at the first closing parenthesis. *)
Fixpoint after_mode (s : bytes) : option bytes :=
  match s with
  | [] => None
  | c :: rest => if c =? 41 then Some rest else after_mode rest
  end.
Definition prompt_rest (s : bytes) : bool :=
  prompt_end s ||
  match s with
  | c :: rest => (c =? 40) && match after_mode rest with Some rest => prompt_end rest | None => false end
  | [] => false
  end.
(** [s.prompt], of a device named [name]. *)
Definition is_prompt (name line : bytes) : bool :=
  match CutPrefix line name with Some rest => prompt_rest rest | None => false end.
Definition promptMatch (name text : bytes) : option bytes :=
  let line := last_line text in if is_prompt name line then Some line else None.

(** [junosLoadReady] *)
Definition load_ready : bytes := ascii_bytes "[Type ^D at a new line to end input]".
Definition junosLoadReady (text : bytes) : option bytes :=
  if HasSuffix text load_ready then Some load_ready
  else if HasSuffix text (load_ready ++ [newline]) then Some (load_ready ++ [newline]) else None.

(** [enablePassword] *)
Definition lower (s : bytes) : bytes := map (λ c, if (65 <=? c) && (c <=? 90) then c + 32 else c) s.
Definition password_ask : bytes := ascii_bytes "password:".
Definition enablePassword (text : bytes) : option bytes :=
  let ends := λ tail : bytes, if HasSuffix (lower text) tail then Some (drop (length text - length tail) text) else None in
  match ends password_ask with Some l => Some l | None => ends (password_ask ++ [space]) end.

(** [regexp.MustCompile(s.prompt.String() + "|" + enablePassword.String())] *)
Definition either (name text : bytes) : option bytes :=
  match promptMatch name text with Some l => Some l | None => enablePassword text end.

(** ** The session *)

Definition maxConfigBytes : Z := 16 * 2 ^ 20.
Definition promptTail : nat := 512.
Definition termRows : Z := 200.
Definition termCols : Z := 511.

Record cliShell : Type := MkShell {
  s_pending : bytes; s_prompt : bytes; s_last : bytes; s_reads : list (bytes * option err) }.

Definition cmd_err (text : string) : err := Wrapped "" ErrCommand (": " +:+ text).
Definition exceeds : err := cmd_err ("output exceeds " +:+ pretty maxConfigBytes +:+ " bytes").
Definition closed_err (e : err) : err := Both ErrCommand ": the device closed the session: " e.
Definition deadline : err := OtherError "use of closed network connection".

(** The newest output that is searched for a prompt. *)
Definition tail_text (pending : bytes) : bytes := strip_cr (drop (length pending - promptTail) pending).

(** [expect]: what was read, what it ended with, and the reads left; or what
    is still pending when it fails. *)
Fixpoint expect (re : bytes → option bytes) (pending : bytes) (reads : list (bytes * option err))
    : (bytes * bytes * list (bytes * option err)) + (err * bytes * list (bytes * option err)) :=
  match re (tail_text pending) with
  | Some last => inl (strip_cr pending, last, reads)
  | None =>
      if maxConfigBytes <? len pending then inr (exceeds, pending, reads)
      else match reads with
      | [] => inr (closed_err deadline, pending, [])
      | (chunk, None) :: reads => expect re (pending ++ chunk) reads
      | (chunk, Some e) :: reads => inr (closed_err e, pending ++ chunk, reads)
      end
  end.

Definition shell_expect (re : bytes → option bytes) (s : cliShell) : (bytes + err) * cliShell :=
  match expect re (s_pending s) (s_reads s) with
  | inl (text, last, reads) => (inl text, MkShell [] (s_prompt s) last reads)
  | inr (e, pending, reads) => (inr e, MkShell pending (s_prompt s) (s_last s) reads)
  end.

(** [readThrough]: [acc] has been read and does not hold the marker. *)
Fixpoint read_through (fuel : nat) (marker acc : bytes) (s : cliShell) : option (((bytes * Z) + err) * cliShell) :=
  match fuel with
  | O => None
  | S fuel =>
      let from := Z.max 0 (len acc - len marker) in
      match shell_expect (promptMatch (s_prompt s)) s with
      | (inr e, s) => Some (inr e, s)
      | (inl text, s) =>
          let acc := acc ++ text in
          if maxConfigBytes <? len acc then Some (inr exceeds, s)
          else
            fresh ← slice_from acc from;
            let i := LastIndex fresh marker in
            if 0 <=? i then Some (inl (TrimSuffix acc (s_last s), from + i), s)
            else read_through fuel marker acc s
      end
  end.
Definition readThrough (marker : bytes) (s : cliShell) : option (((bytes * Z) + err) * cliShell) :=
  read_through (S (S (length (s_reads s)))) marker [] s.

(** [sendThrough]: the write runs beside the read and fails with [werr]. *)
Definition sendThrough (werr : option err) (marker : bytes) (s : cliShell)
    : option (((bytes * Z) + err) * cliShell) :=
  r ← readThrough marker s;
  match r, werr with
  | (inl _, s), Some e => Some (inr e, s)
  | _, _ => Some r
  end.

(** [run]: [None] is a slice out of range. *)
Definition run (werr : option err) (command : bytes) (s : cliShell) : option ((bytes + err) * cliShell) :=
  match werr with
  | Some e => Some (inr e, s)
  | None =>
      r ← readThrough (command ++ [newline]) s;
      match r with
      | (inr e, s) => Some (inr e, s)
      | (inl (all, i), s) => out ← slice_from all (i + len command + 1); Some (inl out, s)
      end
  end.

(** [openCLIShell], from the shell's first prompt on: [None] is
    [regexp.MustCompile] refusing a name that is not UTF-8. *)
Definition openCLIShell (reads : list (bytes * option err)) : option (cliShell + err) :=
  match shell_expect anyPrompt (MkShell [] [] [] reads) with
  | (inr e, _) => Some (inr e)
  | (inl _, s) =>
      let name := TrimRight (s_last s) [62; 35; space] in
      if ValidString name then Some (inl (MkShell (s_pending s) name (s_last s) (s_reads s))) else None
  end.

(** ** What devices print *)

Definition printed (p : bytes → option bytes) (out : bytes) : list bytes := omap p (Split out newline).

Definition maxDeviceMessages : nat := 3.
Fixpoint join_with (sep : string) (msgs : list string) : string :=
  match msgs with [] => "" | [m] => m | m :: rest => m +:+ sep +:+ join_with sep rest end.
Definition joinMessages (msgs : list string) : string :=
  match msgs with
  | [] => ""
  | _ =>
      let msgs := if bool_decide (maxDeviceMessages < length msgs)%nat
        then (take maxDeviceMessages msgs ++ ["and " +:+ pretty (length msgs - maxDeviceMessages)%nat +:+ " more"])%list
        else msgs in
      ": " +:+ join_with "; " msgs
  end%string.

(** [strings.Cut(line, sep)]: what is before [sep], or all. *)
Fixpoint cut_before (s sep : bytes) : bytes :=
  if HasPrefix s sep then [] else match s with [] => [] | c :: rest => c :: cut_before rest sep end.

Definition junos_error (line : bytes) : option bytes :=
  let line := TrimSpace line in
  if HasPrefix line (ascii_bytes "error:") || HasPrefix line (ascii_bytes "ERROR:") ||
     HasPrefix line (ascii_bytes "syntax error")
  then Some line else None.
Definition junosErrors (out : bytes) : list bytes := printed junos_error out.

Definition cli_error (line : bytes) : option bytes :=
  let line := TrimSpace line in
  if HasPrefix line (ascii_bytes "%") then Some (cut_before line (ascii_bytes " (at token")) else None.
Definition cliErrors (out : bytes) : list bytes := printed cli_error out.

(** [junosLoadError]: "terminal:", digits, ":(", digits, ") " and what is
    before the next colon; the number and the complaint. *)
Fixpoint span_digits (s : bytes) : bytes * bytes :=
  match s with
  | c :: rest =>
      if (48 <=? c) && (c <=? 57) then let '(d, rest) := span_digits rest in (c :: d, rest) else ([], s)
  | [] => ([], [])
  end.
Definition junosLoadError (line : bytes) : option (bytes * bytes) :=
  rest ← CutPrefix line (ascii_bytes "terminal:");
  let '(number, rest) := span_digits rest in
  rest ← CutPrefix rest (ascii_bytes ":(");
  let '(column, rest) := span_digits rest in
  rest ← CutPrefix rest (ascii_bytes ") ");
  let complaint := before_sep rest 58 in
  if bool_decide (number = []) || bool_decide (column = []) || bool_decide (complaint = [])
  then None else Some (number, complaint).
Definition junosLoadErrors (out : bytes) : list bytes :=
  printed (λ line, '(number, complaint) ← junosLoadError (TrimSpace line);
    Some (ascii_bytes "line " ++ number ++ ascii_bytes ": " ++ TrimSpace complaint)) out.

(** [junosNewestCommitPending] *)
Fixpoint newest_pending (lines : list bytes) : bool :=
  match lines with
  | [] => false
  | line :: lines =>
      match Fields line with
      | f :: _ => if bool_decide (f = ascii_bytes "0") then Contains line (ascii_bytes "commit confirmed, rollback in")
                  else newest_pending lines
      | [] => newest_pending lines
      end
  end.
Definition junosNewestCommitPending (history : bytes) : bool := newest_pending (Split history newline).

(** [trimEditBanner] *)
Definition join_lines (lines : list bytes) : bytes :=
  match lines with [] => [] | l :: rest => l ++ concat (map (cons newline) rest) end.
Definition trimEditBanner (out : bytes) : bytes :=
  let lines := Split (TrimRight out [newline]) newline in
  let lines := if HasPrefix (List.last lines []) (ascii_bytes "[edit") then removelast lines else lines in
  match TrimLeft (TrimRight (join_lines lines) [newline]) [newline] with
  | [] => []
  | text => text ++ [newline]
  end.

(** [promptOf] *)
Fixpoint prompt_of (s : bytes) : option bytes :=
  match s with
  | [] => None
  | c :: rest => if (c =? 35) || (c =? 62) then Some [c] else cons c <$> prompt_of rest
  end.
Definition promptOf (line : bytes) : bytes := match prompt_of line with Some p => p | None => [] end.

(** [loadErrors]: [n] prompts have been echoed. The prompt is matched at the
    end of a text that has no newline. *)
Fixpoint load_errors (name : bytes) (sent : list Z) (lines : list bytes) (n : nat) : list bytes :=
  match lines with
  | [] => []
  | line :: lines =>
      if is_prompt name (promptOf line) then load_errors name sent lines (S n)
      else
        match cliErrors line, sent !! n with
        | msg :: _, Some number =>
            (ascii_bytes ("line " +:+ pretty number +:+ ": ") ++ msg) :: load_errors name sent lines n
        | _, _ => load_errors name sent lines n
        end
  end.
Definition loadErrors (name out : bytes) (sent : list Z) : list bytes := load_errors name sent (Split out newline) 0.

(** [eosSessionName], from the random bytes. *)
Definition hex_digit (n : Z) : Z := if n <? 10 then 48 + n else 87 + n.
Definition EncodeToString (b : bytes) : bytes := concat (map (λ c, [hex_digit (c / 16); hex_digit (c mod 16)]) b).
Definition session_name (random : bytes) : bytes := ascii_bytes "seed-plan-" ++ EncodeToString random.

(** ** Searching *)

(** [sub] occurs in [s] at position [k]. *)
Definition occurs (sub s : bytes) (k : nat) : Prop := HasPrefix (drop k s) sub = true.

Lemma HasPrefix_true s p : HasPrefix s p = true ↔ ∃ t, s = p ++ t.
Proof.
  unfold HasPrefix. rewrite bool_decide_eq_true. split.
  - intros E. exists (drop (length p) s). rewrite <- E at 1. by rewrite take_drop.
  - intros [t ->]. by rewrite take_app_length.
Qed.

Lemma occurs_app sub s k t : (k + length sub ≤ length s)%nat → occurs sub (s ++ t) k ↔ occurs sub s k.
Proof.
  intros Hk. unfold occurs, HasPrefix. rewrite !bool_decide_eq_true, drop_app_le by lia.
  rewrite take_app_le; [done|]. rewrite length_drop. lia.
Qed.

Lemma occurs_drop sub s n k : occurs sub (drop n s) k ↔ occurs sub s (n + k).
Proof. unfold occurs. by rewrite drop_drop. Qed.

Lemma occurs_length sub s k : sub ≠ [] → occurs sub s k → (k + length sub ≤ length s)%nat.
Proof.
  unfold occurs. intros Hne [t E]%HasPrefix_true. apply (f_equal length) in E.
  rewrite length_drop, length_app in E. destruct sub; [done|]. cbn in *. lia.
Qed.

Lemma last_index_spec sub s i best : sub ≠ [] →
  (last_index s sub i best = best ∧ ∀ k, ¬ occurs sub s k) ∨
  ∃ k, last_index s sub i best = i + Z.of_nat k ∧ occurs sub s k ∧ ∀ k', (k < k')%nat → ¬ occurs sub s k'.
Proof.
  intros Hne. revert i best. induction s as [|c s IH]; intros i best; cbn [last_index].
  - left. assert (∀ k, ¬ occurs sub [] k) as Hno.
    { intros k Hk%occurs_length; [|done]. destruct sub; cbn in *; [done|lia]. }
    split; [|done]. destruct (HasPrefix [] sub) eqn:E; [|done]. by destruct (Hno 0%nat).
  - destruct (IH (i + 1) (if HasPrefix (c :: s) sub then i else best)) as [ [-> Hno]|(k & -> & Hk & Hlast)].
    + destruct (HasPrefix (c :: s) sub) eqn:E.
      * right. exists 0%nat. split; [lia|]. split; [done|]. intros [|k'] Hk'; [lia|]. apply (Hno k').
      * left. split; [done|]. intros [|k]; [unfold occurs; cbn [drop]; by rewrite E|apply Hno].
    + right. exists (S k). split; [lia|]. split; [done|]. intros [|k'] Hk'; [lia|]. apply Hlast. lia.
Qed.

Lemma LastIndex_spec sub s : sub ≠ [] →
  (LastIndex s sub = -1 ∧ ∀ k, ¬ occurs sub s k) ∨
  ∃ k, LastIndex s sub = Z.of_nat k ∧ occurs sub s k ∧ ∀ k', (k < k')%nat → ¬ occurs sub s k'.
Proof. intros Hne. unfold LastIndex. destruct (last_index_spec sub s 0 (-1) Hne) as [?|(k & E & ?)]; [by left|]. right. exists k. split; [lia|done]. Qed.

(** Searching what is new, from the length of the marker before it, is
    searching all. *)
Lemma fresh_search marker acc text : marker ≠ [] → (∀ k, ¬ occurs marker acc k) →
  let from := Z.max 0 (len acc - len marker) in
  ∃ fresh, slice_from (acc ++ text) from = Some fresh ∧
    let i := LastIndex fresh marker in
    (if 0 <=? i then from + i else -1) = LastIndex (acc ++ text) marker.
Proof.
  intros Hne Hacc from. set (n := Z.to_nat from).
  assert (from = Z.of_nat n) as Hn by (unfold n, from; lia).
  exists (drop n (acc ++ text)). split.
  { rewrite slice_from_Some; [done|]. unfold from, len. rewrite length_app. lia. }
  assert (∀ k, occurs marker (acc ++ text) k → (n ≤ k)%nat) as Hfrom.
  { intros k Hk. destruct (decide (n ≤ k)%nat) as [|Hlt]; [done|]. exfalso. apply (Hacc k).
    apply (occurs_app _ _ _ text); [|done]. revert Hlt. unfold n, from, len. lia. }
  cbn zeta. destruct (LastIndex_spec marker (drop n (acc ++ text)) Hne) as [ [-> Hno]|(k & -> & Hk & Hlast)].
  - destruct (LastIndex_spec marker (acc ++ text) Hne) as [ [-> _]|(k & _ & Hk & _)]; [done|].
    destruct (Hno (k - n)%nat). apply occurs_drop. rewrite Nat.add_comm, Nat.sub_add; [done|by apply Hfrom].
  - apply occurs_drop in Hk. rewrite (proj2 (Z.leb_le 0 _)) by lia.
    destruct (LastIndex_spec marker (acc ++ text) Hne) as [ [-> Hno]|(k' & -> & Hk' & Hlast')]; [by destruct (Hno (n + k)%nat)|].
    destruct (Nat.lt_total k' (n + k)) as [Hlt|[->|Hlt]]; [by destruct (Hlast' _ Hlt)|lia|].
    pose proof (Hfrom _ Hk'). destruct (Hlast (k' - n)%nat); [lia|]. apply occurs_drop.
    by replace (n + (k' - n))%nat with k' by lia.
Qed.

(** ** Running a command *)

Lemma strip_cr_app a b : strip_cr (a ++ b) = strip_cr a ++ strip_cr b.
Proof. apply List.filter_app. Qed.

Lemma last_line_spec s : newline ∉ last_line s ∧ ∃ before, s = before ++ last_line s.
Proof.
  induction s as [|c s [IH [before E] ]]; cbn [last_line]; [split; [set_solver|by exists []]|].
  case_bool_decide as Hin; [split; [done|]; exists (c :: before); cbn; by rewrite <- E|].
  destruct (c =? newline) eqn:Ec; [split; [done|by exists [c]]|]. apply Z.eqb_neq in Ec.
  split; [set_solver|by exists []].
Qed.

Lemma promptMatch_spec name text last : promptMatch name text = Some last →
  is_prompt name last = true ∧ newline ∉ last ∧ ∃ before, text = before ++ last.
Proof.
  unfold promptMatch. destruct (is_prompt name (last_line text)) eqn:E; [|done]. intros [= <-].
  split; [done|]. apply last_line_spec.
Qed.

Lemma promptMatch_nil name : promptMatch name [] = None.
Proof.
  unfold promptMatch, is_prompt. cbn [last_line]. destruct (CutPrefix [] name) as [rest|] eqn:E; [|done].
  revert E. unfold CutPrefix. destruct (HasPrefix [] name); [|done]. intros [= <-]. by rewrite drop_nil.
Qed.

Lemma tail_text_suffix pending : ∃ before, strip_cr pending = before ++ tail_text pending.
Proof.
  exists (strip_cr (take (length pending - promptTail) pending)). unfold tail_text.
  by rewrite <- strip_cr_app, take_drop.
Qed.

(** The bytes that some reads bring. *)
Definition bytes_of (reads : list (bytes * option err)) : bytes := concat reads.*1.
Lemma bytes_of_nil p : p ++ bytes_of [] = p.
Proof. apply app_nil_r. Qed.
Lemma bytes_of_cons c e l : bytes_of ((c, e) :: l) = c ++ bytes_of l.
Proof. done. Qed.
Lemma bytes_of_app a b : bytes_of (a ++ b) = bytes_of a ++ bytes_of b.
Proof. unfold bytes_of. by rewrite fmap_app, concat_app. Qed.

(** [expect] gives what it has consumed, which ends with the match. *)
Lemma expect_spec re pending reads :
  match expect re pending reads with
  | inl (text, last, rest) => ∃ consumed, reads = consumed ++ rest ∧ Forall (λ r, r.2 = None) consumed ∧
      text = strip_cr (pending ++ bytes_of consumed) ∧ re (tail_text (pending ++ bytes_of consumed)) = Some last
  | inr (_, pending', rest) => ∃ consumed, reads = consumed ++ rest ∧ pending' = pending ++ bytes_of consumed
  end.
Proof.
  revert pending. induction reads as [|[chunk [e|] ] reads IH]; intros pending; cbn [expect].
  - destruct (re (tail_text pending)) as [last|] eqn:E.
    + exists []. by rewrite bytes_of_nil.
    + destruct (_ <? _); exists []; by rewrite bytes_of_nil.
  - destruct (re (tail_text pending)) as [last|] eqn:E; [exists []; by rewrite bytes_of_nil|].
    destruct (_ <? _); [exists []; by rewrite bytes_of_nil|].
    exists [(chunk, Some e)]. split; [done|]. by rewrite bytes_of_cons, bytes_of_nil.
  - destruct (re (tail_text pending)) as [last|] eqn:E; [exists []; by rewrite app_nil_r|].
    destruct (_ <? _); [exists []; by rewrite app_nil_r|].
    specialize (IH (pending ++ chunk)).
    destruct (expect re (pending ++ chunk) reads) as [ [ [text last] rest]|[ [e pending'] rest] ].
    + destruct IH as (consumed & -> & Hok & -> & Hre). exists ((chunk, None) :: consumed).
      rewrite bytes_of_cons, (app_assoc pending). repeat split; [by constructor|done].
    + destruct IH as (consumed & -> & ->). exists ((chunk, None) :: consumed). by rewrite bytes_of_cons, app_assoc.
Qed.

(** A second read after a match has to consume. *)
Lemma expect_consumes name reads text last rest :
  expect (promptMatch name) [] reads = inl (text, last, rest) → (length rest < length reads)%nat.
Proof.
  intros E. pose proof (expect_spec (promptMatch name) [] reads) as H. rewrite E in H.
  destruct H as ([|c consumed] & -> & _ & _ & Hre); [|rewrite length_app; cbn; lia].
  rewrite bytes_of_nil in Hre. change (tail_text []) with (@nil Z) in Hre. by rewrite promptMatch_nil in Hre.
Qed.

(** What a read through a marker gives: the last occurrence of the marker in
    all that was read, which ends at a prompt. *)
Definition through (marker text : bytes) (name all last : bytes) (i : Z) : Prop :=
  is_prompt name last = true ∧ newline ∉ last ∧ text = all ++ last ∧
  ∃ k, i = Z.of_nat k ∧ occurs marker text k ∧ ∀ k', (k < k')%nat → ¬ occurs marker text k'.

Lemma TrimSuffix_app all last : TrimSuffix (all ++ last) last = all.
Proof.
  unfold TrimSuffix, HasSuffix. rewrite length_app, Nat.add_sub, drop_app_length, take_app_length.
  by rewrite bool_decide_eq_true_2.
Qed.

Lemma read_through_spec fuel marker acc s :
  marker ≠ [] → (∀ k, ¬ occurs marker acc k) →
  ((if bool_decide (s_pending s = []) then 1 else 2) + length (s_reads s) ≤ fuel)%nat →
  wp (read_through fuel marker acc s) (λ r, s_prompt r.2 = s_prompt s ∧
    ∃ consumed, s_reads s = consumed ++ s_reads r.2 ∧
      match r.1 with
      | inl (all, i) => s_pending r.2 = [] ∧
          through marker (acc ++ strip_cr (s_pending s ++ bytes_of consumed)) (s_prompt s) all (s_last r.2) i
      | inr _ => True
      end).
Proof.
  intros Hne. revert acc s. induction fuel as [|fuel IH]; intros acc s Hacc Hfuel.
  { case_bool_decide; lia. }
  cbn [read_through]. destruct s as [pending name last0 reads]. unfold shell_expect. cbn [s_pending s_prompt s_last s_reads] in *.
  pose proof (expect_spec (promptMatch name) pending reads) as He.
  destruct (expect (promptMatch name) pending reads) as [ [ [text last] rest]|[ [e pending'] rest] ] eqn:Eexp; cbn.
  2: { destruct He as (consumed & -> & ->). split; [done|]. by exists consumed. }
  destruct He as (consumed & Hreads & _ & -> & Hre).
  destruct (_ <? _); [by split; [|exists consumed]|].
  set (text := strip_cr (pending ++ bytes_of consumed)) in *.
  destruct (fresh_search marker acc text Hne Hacc) as (fresh & -> & Hsearch). cbn zeta in Hsearch |- *. cbn.
  destruct (0 <=? LastIndex fresh marker) eqn:Ei.
  - cbn. split; [done|]. exists consumed. split; [done|]. split; [done|].
    apply promptMatch_spec in Hre as (Hp & Hnl & before & Hb).
    destruct (tail_text_suffix (pending ++ bytes_of consumed)) as [before' Hb']. fold text in Hb'.
    rewrite Hb in Hb'. rewrite app_assoc in Hb'.
    assert (TrimSuffix (acc ++ text) last = acc ++ before' ++ before) as ->.
    { rewrite Hb', app_assoc. apply TrimSuffix_app. }
    fold text. split; [done|]. split; [done|]. split; [by rewrite Hb', !app_assoc|].
    rewrite Hsearch. apply Z.leb_le in Ei.
    destruct (LastIndex_spec marker (acc ++ text) Hne) as [ [El _]|(k & -> & Hk)]; [lia|]. by exists k.
  - assert (∀ k, ¬ occurs marker (acc ++ text) k) as Hno.
    { destruct (LastIndex_spec marker (acc ++ text) Hne) as [ [_ Hno]|(k & El & _)]; [done|]. lia. }
    assert (length (consumed ++ rest) = length reads) as Hlen by (by rewrite Hreads). rewrite length_app in Hlen.
    eapply wp_mono; [apply (IH (acc ++ text) (MkShell [] name last rest) Hno)|]; cbn [s_pending s_prompt s_last s_reads].
    + rewrite bool_decide_eq_true_2 by done. case_bool_decide as Hp; [|lia]. subst pending.
      apply expect_consumes in Eexp. lia.
    + intros [r s'] (Hs & consumed' & -> & Hr). split; [done|]. exists (consumed ++ consumed').
      split; [by rewrite Hreads, app_assoc|]. destruct r as [ [all i]|e]; [|done]. destruct Hr as [Hpend Hr].
      split; [done|]. revert Hr. unfold text. cbn. by rewrite bytes_of_app, <- app_assoc, !strip_cr_app, <- !app_assoc.
Qed.

Lemma readThrough_spec marker s : marker ≠ [] →
  wp (readThrough marker s) (λ r, s_prompt r.2 = s_prompt s ∧
    ∃ consumed, s_reads s = consumed ++ s_reads r.2 ∧
      match r.1 with
      | inl (all, i) => s_pending r.2 = [] ∧
          through marker (strip_cr (s_pending s ++ bytes_of consumed)) (s_prompt s) all (s_last r.2) i
      | inr _ => True
      end).
Proof.
  intros Hne. apply (read_through_spec _ marker []); [done| |].
  - intros k Hk%occurs_length; [|done]. destruct marker; cbn in *; [done|lia].
  - case_bool_decide; lia.
Qed.

(** A marker that ends with a newline is found before the final prompt. *)
Lemma through_index command text name all last i : through (command ++ [newline]) text name all last i →
  ∃ before out, all = before ++ command ++ [newline] ++ out ∧ i = len before ∧
    ∀ k, (length before < k)%nat → ¬ occurs (command ++ [newline]) (all ++ last) k.
Proof.
  intros (_ & Hnl & -> & k & -> & Hk & Hlast).
  assert (command ++ [newline] ≠ []) as Hne by (by destruct command).
  pose proof (occurs_length _ _ _ Hne Hk) as Hlen.
  rewrite !length_app in Hlen. cbn in Hlen.
  assert (k + length command < length all)%nat as Hin.
  { destruct (decide (k + length command < length all)%nat) as [|Hge]; [done|]. exfalso. apply Hnl.
    unfold occurs in Hk. apply HasPrefix_true in Hk as [t Ht].
    apply list_elem_of_lookup. exists (k + length command - length all)%nat.
    rewrite <- lookup_app_r by lia. rewrite <- (take_drop k (all ++ last)), Ht.
    assert (length (take k (all ++ last)) = k) as Hk by (rewrite length_take, length_app; lia).
    rewrite lookup_app_r by lia. rewrite Hk, Nat.add_comm, Nat.add_sub, <- app_assoc.
    rewrite lookup_app_r by lia. by rewrite Nat.sub_diag. }
  unfold occurs in Hk. rewrite drop_app_le in Hk by lia. apply HasPrefix_true in Hk as [t Ht].
  assert (drop k all = command ++ [newline] ++ drop (S (k + length command)) all) as Hall.
  { apply (f_equal (take (S (length command)))) in Ht.
    rewrite take_app_le in Ht by (rewrite length_drop; lia).
    rewrite <- (take_drop (S (length command)) (drop k all)) at 1. rewrite Ht, drop_drop.
    replace (k + S (length command))%nat with (S (k + length command)) by lia.
    rewrite take_app_le by (rewrite length_app; cbn; lia).
    rewrite take_ge by (rewrite length_app; cbn; lia). by rewrite <- app_assoc. }
  exists (take k all), (drop (S (k + length command)) all). rewrite <- Hall, take_drop.
  assert (length (take k all) = k) as Hlk by (rewrite length_take; lia).
  split; [done|]. split; [unfold len; by rewrite Hlk|]. by rewrite Hlk.
Qed.

(** [run] always returns and never indexes out of range, whatever the device
    sends; the output it returns is exactly what the device sent after the
    last echo of the command and before the prompt the read ended at, carriage
    returns removed. *)
Theorem run_exact werr command s :
  wp (run werr command s) (λ r, s_prompt r.2 = s_prompt s ∧
    match r.1 with
    | inl out => werr = None ∧ s_pending r.2 = [] ∧ is_prompt (s_prompt s) (s_last r.2) = true ∧
        ∃ consumed before, s_reads s = consumed ++ s_reads r.2 ∧
          strip_cr (s_pending s ++ bytes_of consumed) = before ++ command ++ [newline] ++ out ++ s_last r.2 ∧
          ∀ k, (length before < k)%nat → ¬ occurs (command ++ [newline]) (before ++ command ++ [newline] ++ out ++ s_last r.2) k
    | inr _ => True
    end).
Proof.
  unfold run. destruct werr as [e|]; [done|]. apply wp_bind.
  eapply wp_mono; [apply readThrough_spec; by destruct command|].
  intros [ [ [all i]|e] s'] (Hname & consumed & Hreads & H); [|done]. destruct H as [Hpend H]. cbn [fst snd] in *.
  pose proof H as (Hp & _ & Htext & _).
  apply through_index in H as (before & out & -> & -> & Hlast).
  replace (before ++ command ++ [newline] ++ out) with ((before ++ command ++ [newline]) ++ out) by (by rewrite <- !app_assoc).
  rewrite slice_from_app by (rewrite !len_app; change (len [newline]) with 1; lia). cbn. split; [done|]. split; [done|]. split; [done|]. split; [done|].
  exists consumed, before. split; [done|]. rewrite Htext, <- !app_assoc. split; [done|]. cbn [app] in *.
  intros k Hk. specialize (Hlast k Hk). by rewrite <- !app_assoc in Hlast.
Qed.

(** ** However the output arrives *)

Lemma last_line_app y z : last_line (y ++ newline :: z) = last_line (newline :: z).
Proof.
  induction y as [|c y IH]; [done|]. rewrite <- IH. cbn [app last_line].
  by rewrite bool_decide_eq_true_2 by set_solver.
Qed.

(** Only what follows a newline decides whether a prompt has been reached. *)
Lemma prompt_after_newline name x q :
  promptMatch name (tail_text (x ++ newline :: q)) = promptMatch name (tail_text (newline :: q)).
Proof.
  unfold tail_text. rewrite length_app. cbn [length].
  destruct (decide (promptTail ≤ length q)%nat) as [Hge|Hlt].
  - rewrite drop_app_ge by lia. do 2 f_equal.
    replace (length x + S (length q) - promptTail - length x)%nat with (S (length q) - promptTail)%nat by lia. done.
  - replace (S (length q) - promptTail)%nat with 0%nat by lia. cbn [drop].
    rewrite drop_app_le by lia. unfold promptMatch. rewrite strip_cr_app.
    change (strip_cr (newline :: q)) with (newline :: strip_cr q). by rewrite last_line_app.
Qed.

Lemma expect_complete re pending reads e pending' rest :
  Forall (λ r, r.2 = None) reads → len (pending ++ bytes_of reads) ≤ maxConfigBytes →
  expect re pending reads = inr (e, pending', rest) → re (tail_text (pending ++ bytes_of reads)) = None.
Proof.
  intros Hok. revert pending. induction Hok as [|[chunk e'] reads He Hok IH]; intros pending Hlen; cbn [expect].
  - rewrite bytes_of_nil in *. by destruct (re _).
  - cbn in He. subst e'. rewrite bytes_of_cons, app_assoc in *. destruct (re _); [done|].
    destruct (_ <? _) eqn:E; [|by apply IH]. apply Z.ltb_lt in E. rewrite !len_app in Hlen.
    pose proof (len_nonneg chunk). pose proof (len_nonneg (bytes_of reads)). lia.
Qed.

Lemma len_strip_cr s : len (strip_cr s) ≤ len s.
Proof. unfold len. pose proof (List.filter_length_le (λ c, negb (c =? return_char)) s). unfold strip_cr. lia. Qed.

Section chunks.
Context (name command pre xs q last : bytes).
Notation marker := (command ++ [newline]).
Notation stream := (xs ++ newline :: q).
(** The echo of the command ends a line, and is there once. *)
Context (Hecho : strip_cr xs = pre ++ command).
Context (Honce : ∀ k, occurs marker (strip_cr stream) k → k = length pre).
(** After it the output is at a prompt when it is complete, not before. *)
Context (Hprompt : promptMatch name (tail_text (newline :: q)) = Some last).
Context (Hnot : ∀ q1 q2, q = q1 ++ q2 → q2 ≠ [] → promptMatch name (tail_text (newline :: q1)) = None).
Context (Hlen : len stream ≤ maxConfigBytes).

Lemma echo_occurs rest : occurs marker (strip_cr (xs ++ newline :: rest)) (length pre).
Proof.
  unfold occurs. apply HasPrefix_true. exists (strip_cr rest). rewrite strip_cr_app, Hecho.
  change (strip_cr (newline :: rest)) with (newline :: strip_cr rest).
  by rewrite <- !app_assoc, drop_app_length.
Qed.

(** A first part of the stream that has been read through a marker holds the
    echo; one that has not does not reach its end. *)
Lemma part_found p rest k : p ++ rest = stream → occurs marker (strip_cr p) k →
  ∃ q1, p = xs ++ newline :: q1 ∧ q = q1 ++ rest.
Proof.
  intros E Hk. assert (command ++ [newline] ≠ []) as Hne by (by destruct command).
  pose proof (occurs_length _ _ _ Hne Hk) as Hl.
  assert (k = length pre) as ->.
  { apply Honce. rewrite <- E, strip_cr_app. apply occurs_app; [done|done]. }
  apply app_eq_inv in E as [ (k & E1 & E2)|(k & E1 & E2)].
  - destruct k as [|c k]; cbn in E2; [|injection E2 as <- ->; by exists k].
    exfalso. subst p. rewrite app_nil_r, Hecho, !length_app in Hl. cbn in Hl. lia.
  - exfalso. apply (f_equal strip_cr) in E1. rewrite strip_cr_app, Hecho in E1.
    apply (f_equal length) in E1. rewrite !length_app in *. cbn in Hl. lia.
Qed.

Lemma part_open_in a rest q1 : a ++ rest = xs ++ newline :: q1 → (∀ k, ¬ occurs marker (strip_cr a) k) →
  ∃ x, rest = x ++ newline :: q1.
Proof.
  intros E Hno. apply app_eq_inv in E as [ (k & E1 & E2)|(k & E1 & E2)]; [|by exists k].
  destruct k as [|c k]; cbn in E2; [by exists []|]. injection E2 as <- E2.
  exfalso. apply (Hno (length pre)). rewrite E1. apply echo_occurs.
Qed.

Lemma read_chunks fuel a s :
  s_prompt s = name → Forall (λ r, r.2 = None) (s_reads s) → a ++ s_pending s ++ bytes_of (s_reads s) = stream →
  (∀ k, ¬ occurs marker (strip_cr a) k) →
  ((if bool_decide (s_pending s = []) then 1 else 2) + length (s_reads s) ≤ fuel)%nat →
  ∃ all rest, read_through fuel marker (strip_cr a) s = Some (inl (all, len pre), MkShell [] name last rest) ∧
    strip_cr stream = all ++ last.
Proof.
  assert (marker ≠ []) as Hne by (by destruct command).
  revert a s. induction fuel as [|fuel IH]; intros a [pending name' last0 reads]; cbn [s_pending s_prompt s_reads];
    intros -> Hok Hstream Hno Hfuel; [case_bool_decide; lia|].
  cbn [read_through]. unfold shell_expect. cbn [s_pending s_prompt s_last s_reads].
  destruct (part_open_in _ _ _ Hstream Hno) as [x Hx].
  assert (len (pending ++ bytes_of reads) ≤ maxConfigBytes) as Hsize.
  { pose proof Hlen as Hl. rewrite <- Hstream, len_app in Hl. pose proof (len_nonneg a). lia. }
  pose proof (expect_spec (promptMatch name) pending reads) as He.
  destruct (expect (promptMatch name) pending reads) as [ [ [text l] rest]|[ [e pending'] rest] ] eqn:Eexp.
  2: { apply expect_complete in Eexp; [|done..]. by rewrite Hx, prompt_after_newline, Hprompt in Eexp. }
  destruct He as (consumed & -> & _ & -> & Hre). rewrite bytes_of_app in *.
  assert (len (strip_cr (a ++ pending ++ bytes_of consumed)) ≤ maxConfigBytes) as Hsize'.
  { pose proof (len_strip_cr (a ++ pending ++ bytes_of consumed)). pose proof Hlen as Hl.
    rewrite <- Hstream, !len_app in Hl. rewrite !len_app in *. pose proof (len_nonneg (bytes_of rest)). lia. }
  rewrite <- strip_cr_app, (proj2 (Z.ltb_ge _ _) Hsize').
  destruct (fresh_search marker (strip_cr a) (strip_cr (pending ++ bytes_of consumed)) Hne Hno) as (fresh & Hf & Hsearch).
  rewrite <- strip_cr_app in Hf, Hsearch. cbn zeta in Hsearch. rewrite Hf. cbn [mbind option_bind s_last s_prompt].
  assert ((a ++ pending ++ bytes_of consumed) ++ bytes_of rest = stream) as Hpart by (rewrite <- Hstream, <- !app_assoc; done).
  destruct (0 <=? LastIndex fresh marker) eqn:Ei.
  - apply Z.leb_le in Ei. rewrite Hsearch.
    destruct (LastIndex_spec marker (strip_cr (a ++ pending ++ bytes_of consumed)) Hne) as [ [El _]|(k & El & Hk & _)]; [lia|].
    destruct (part_found _ _ _ Hpart Hk) as (q1 & Hq1 & Hq).
    assert (∃ y, pending ++ bytes_of consumed = y ++ newline :: q1) as [y Hy].
    { by apply (part_open_in a). }
    rewrite Hy, prompt_after_newline in Hre.
    destruct (bytes_of rest) as [|c cs] eqn:Erest; [|by rewrite (Hnot q1 (c :: cs)) in Hre].
    rewrite app_nil_r in Hq. subst q1. rewrite Hprompt in Hre. injection Hre as <-.
    pose proof (promptMatch_spec _ _ _ Hprompt) as (_ & _ & b & Hb).
    destruct (tail_text_suffix (newline :: q)) as [b' Hb'].
    rewrite El, Hq1. rewrite (Honce k) by (by rewrite <- Hq1).
    assert (strip_cr stream = (strip_cr xs ++ b' ++ b) ++ last) as ->.
    { by rewrite strip_cr_app, Hb', Hb, !app_assoc. }
    rewrite TrimSuffix_app. by eexists _, rest.
  - destruct (IH (a ++ pending ++ bytes_of consumed) (MkShell [] name l rest))
      as (all & rest' & Hall & Hs); cbn [s_pending s_prompt s_last s_reads].
    + done.
    + by apply Forall_app in Hok as [_ Hok].
    + done.
    + destruct (LastIndex_spec marker (strip_cr (a ++ pending ++ bytes_of consumed)) Hne) as [ [_ Hno']|(k & El & _)]; [done|].
      exfalso. lia.
    + rewrite bool_decide_eq_true_2 by done. rewrite length_app in Hfuel. case_bool_decide as Hp; [|lia]. subst pending.
      apply expect_consumes in Eexp. rewrite length_app in Eexp. lia.
    + exists all, rest'. by rewrite <- Hall.
Qed.

(** C15: However the network cuts the echo, the output and the prompt into reads,
    and whatever is left over from before the echo, [run] returns the whole
    output and nothing else, provided that the command is echoed once and no
    earlier part of the output ends like the prompt. *)
Theorem run_arrives s :
  s_prompt s = name → Forall (λ r, r.2 = None) (s_reads s) → s_pending s ++ bytes_of (s_reads s) = stream →
  ∃ out rest, run None command s = Some (inl out, MkShell [] name last rest) ∧ strip_cr q = out ++ last.
Proof.
  intros Hname Hok Hs. unfold run, readThrough.
  destruct (read_chunks (S (S (length (s_reads s)))) [] s) as (all & rest & Hr & Hall); [done..| |case_bool_decide; lia|].
  { intros k Hk%occurs_length; [|by destruct command]. destruct command; cbn in Hk; lia. }
  change (strip_cr []) with (@nil Z) in Hr. rewrite Hr.
  rewrite strip_cr_app, Hecho in Hall. change (strip_cr (newline :: q)) with (newline :: strip_cr q) in Hall.
  pose proof (promptMatch_spec _ _ _ Hprompt) as (_ & Hnl & b & Hb).
  destruct (tail_text_suffix (newline :: q)) as [b' Hb']. rewrite Hb, app_assoc in Hb'.
  change (strip_cr (newline :: q)) with (newline :: strip_cr q) in Hb'.
  destruct (b' ++ b) as [|c out] eqn:Ebb; [cbn in Hb'; rewrite <- Hb' in Hnl; set_solver|].
  cbn in Hb'. injection Hb' as <- Hq. exists out, rest. split; [|done].
  rewrite Hq in Hall. replace ((pre ++ command) ++ newline :: out ++ last) with ((pre ++ command ++ newline :: out) ++ last) in Hall
    by (by rewrite <- !app_assoc). apply app_inv_tail in Hall as <-. cbn [mbind option_bind].
  rewrite (app_assoc pre), (cons_middle newline), app_assoc.
  rewrite slice_from_app by (rewrite !len_app; change (len [newline]) with 1; lia). done.
Qed.
End chunks.

(** ** Runs *)

Definition crlf : bytes := [13; 10].
Definition demo_name : bytes := ascii_bytes "sw1".
Definition demo_reads : list (bytes * option err) :=
  [(ascii_bytes "ow ver" ++ [13], None); (newline :: ascii_bytes "up 3", None);
   (ascii_bytes " days" ++ crlf ++ ascii_bytes "sw", None); (ascii_bytes "1#", None)].
Definition demo_rest : bytes := ascii_bytes "up 3 days" ++ crlf ++ ascii_bytes "sw1#".

Lemma parts_checked (P : bytes → bool) q : forallb (λ n, P (take n q)) (seq 0 (length q)) = true →
  ∀ q1 q2, q = q1 ++ q2 → q2 ≠ [] → P q1 = true.
Proof.
  intros H q1 q2 E Hne. rewrite forallb_forall in H. specialize (H (length q1)).
  rewrite E, take_app_length in H. apply H. apply in_seq. rewrite length_app. destruct q2; [done|cbn; lia].
Qed.

Lemma occurs_checked sub s n : sub ≠ [] → forallb (λ k, negb (HasPrefix (drop k s) sub) || (k =? n)%nat) (seq 0 (S (length s))) = true →
  ∀ k, occurs sub s k → k = n.
Proof.
  intros Hne H k Hk. rewrite forallb_forall in H. specialize (H k). pose proof (occurs_length _ _ _ Hne Hk).
  unfold occurs in Hk. rewrite Hk in H. cbn [negb orb] in H. apply Nat.eqb_eq, H, in_seq. lia.
Qed.

Lemma run_arrives_witness :
  ∃ out rest, run None (ascii_bytes "show ver") (MkShell (ascii_bytes " sh") demo_name [] demo_reads) =
    Some (inl out, MkShell [] demo_name (ascii_bytes "sw1#") rest) ∧ strip_cr demo_rest = out ++ ascii_bytes "sw1#".
Proof.
  apply (run_arrives demo_name (ascii_bytes "show ver") (ascii_bytes " ") (ascii_bytes " show ver" ++ [13]) demo_rest
    (ascii_bytes "sw1#")).
  - by vm_compute.
  - apply occurs_checked; [done|]. by vm_compute.
  - by vm_compute.
  - intros q1 q2 E Hne.
    pose proof (parts_checked (λ q, bool_decide (promptMatch demo_name (tail_text (newline :: q)) = None)) demo_rest
      ltac:(by vm_compute) q1 q2 E Hne) as H. by apply bool_decide_eq_true in H.
  - by vm_compute.
  - done.
  - repeat constructor.
  - by vm_compute.
Defined.

(** A device whose prompt holds the text that ends a load: the rest of that
    line, which the caller slices off, starts beyond the output. *)
Example load_marker_in_prompt :
  let s := MkShell [] (ascii_bytes "load complete") [] [(ascii_bytes "x" ++ crlf ++ ascii_bytes "load complete#", None)] in
  match readThrough (ascii_bytes "load complete") s with
  | Some (inl (all, i), _) => slice_from all (i + len (ascii_bytes "load complete")) = None
  | _ => False
  end.
Proof. by vm_compute. Qed.

(** A device whose name is not UTF-8 has a prompt no expression is compiled
    for. *)
Example name_not_utf8 : openCLIShell [([114; 233; 115; 101; 97; 117; 62], None)] = None.
Proof. by vm_compute. Qed.

(** A rejected line is named by its number in the candidate. *)
Example rejected_line :
  loadErrors demo_name (ascii_bytes "hostname x" ++ [newline] ++ ascii_bytes "sw1(config)# vlann 3" ++ [newline] ++
    ascii_bytes "% Invalid input detected (at token 0: 'vlann')" ++ [newline]) [2; 5] = [ascii_bytes "line 5: % Invalid input detected"].
Proof. by vm_compute. Qed.
