(* ===== verification/Dialogue.v ===== *)
(** * Dialogues with a device (src/internal/deviceconfig/ssh.go, cli_push.go,
    netconf.go, scp.go)

    A step of a push is a program over what one login offers: sessions, an
    interactive shell, commands on exec channels, a copy, the NETCONF
    subsystem. Each call is one method of the code, with the values its caller
    uses; [CliShell] and [Netconf] hold the methods themselves. [serve] plays
    the interactive ones against a device that answers what it has been
    sent. *)
From Stdlib Require Import ZArith Lia Ascii.
From stdpp Require Import base sets list strings pretty.
From S2P Require Import Prelude GoBase GoText IosConfig Effects ConfigStore ConfigBackup ConfigPush CliShell.
#[local] Open Scope prog_scope.

(** What a bare [expect] waits for. *)
Inductive waiting : Type := LoadReady | PromptOrPassword.

Inductive dcall : Type :=
| Dial (host : string) (port : Z)
| Handshake (user : string) (password : bytes) (pinned : string)
| LoginCtxErr
| NewSession
| StartShell                                  (* openCLIShell *)
| Run (command : string)                      (* cliShell.run *)
| SendText (text : bytes)                     (* cliShell.send *)
| Expect (what : waiting)                     (* cliShell.expect, its s.last *)
| SendThrough (text marker : bytes)           (* cliShell.sendThrough, with s.last *)
| ExecRun (command : string)                  (* runCommand *)
| ScpSink (path : string) (text : bytes)      (* scpSink of a text *)
| ScpImage (path : string) (size : Z)         (* scpSink of an image's bytes *)
| StartNetconf                                (* the pipes and RequestSubsystem *)
| NcHello                                     (* netconfSession.send of the client's hello *)
| NcSend (chunked : bool) (id : Z) (body : bytes)  (* netconfSession.send of an operation *)
| NcReceive (chunked : bool)                  (* netconfSession.receive *)
| Random                                      (* rand.Read of six bytes *)
| Panic.

(** The fingerprint presented, and the error of the library past the host key
    check. *)
Record presented : Type := MkPresented { pk_fingerprint : string; pk_error : option err }.

Definition dresp (c : dcall) : Type :=
  match c with
  | Handshake _ _ _ => presented
  | StartShell => (bytes * bytes) + err
  | Run _ | Expect _ | ExecRun _ | NcReceive _ | Random => bytes + err
  | SendThrough _ _ => (bytes * Z * bytes) + err
  | Panic => Empty_set
  | _ => option err
  end.

Definition dialogue (A : Type) : Type := prog dresp A.
Definition say (c : dcall) : dialogue (dresp c) := Call c Ret.

(** A run-time panic ends the dialogue. *)
Definition panic {A} : dialogue A := Call Panic (λ r : Empty_set, match r with end).

(** Errors that are results. *)
Notation "'try' e <~ p ; f" := (pbind p (λ r, match r with Some e => Ret (Some e) | None => f end))
  (at level 20, e name, p at level 100, f at level 200, right associativity, only parsing) : prog_scope.

(** [strconv.Itoa] and text as bytes *)
Definition itoa (n : Z) : string := pretty n.
Definition newline_text : bytes := [newline].
Definition text_of (s : string) : bytes := ascii_bytes s.

(** ** A login (ssh.go) *)

(** [HostKeyCallback] *)
Definition HostKeyCallback (pinned fingerprint : string) : option err :=
  if bool_decide (pinned = ""%string) then Some (HostKeyUnconfirmedError fingerprint)
  else if negb (bool_decide (fingerprint = pinned))
  then Some (Wrapped "" ErrHostKeyMismatch (": device presented " +:+ fingerprint +:+ ", pinned " +:+ pinned))
  else None.

(** What [ssh.NewClientConn] returns. *)
Definition handshake_error (pinned : string) (p : presented) : option err :=
  match HostKeyCallback pinned (pk_fingerprint p) with
  | Some e => Some (Wrapped "ssh: handshake failed: " e "")
  | None => pk_error p
  end.

Definition classifyHandshake (ctx : option err) (e : err) : err :=
  if Is e ErrHostKeyMismatch || match as_unconfirmed e with Some _ => true | None => false end then e
  else if Contains (text_of (Error e)) (text_of "unable to authenticate") then Both ErrAuth ": " e
  else match ctx with
  | Some c => Both ErrUnreachable ": " c
  | None => Wrapped "ssh handshake: " e ""
  end.

(** [withClient] and [onSession]: [fail] makes an error the result. *)
Section login.
Context {R : Type} (fail : err → R).

Definition withClient (host : string) (port : Z) (user : string) (password : bytes) (pinned : string)
    (fn : dialogue R) : dialogue R :=
  e <~ say (Dial host port);
  match e with
  | Some e => Ret (fail (Both ErrUnreachable ": " e))
  | None =>
      p <~ say (Handshake user password pinned);
      match handshake_error pinned p with
      | Some e => ctx <~ say LoginCtxErr; Ret (fail (classifyHandshake ctx e))
      | None =>
          r <~ fn;
          ctx <~ say LoginCtxErr;
          Ret match ctx with Some c => fail (Both ErrUnreachable ": " c) | None => r end
      end
  end.

Definition onSession (fn : dialogue R) : dialogue R :=
  e <~ say NewSession;
  match e with
  | Some e => Ret (fail (Both ErrCommand ": open session: " e))
  | None => fn
  end.

Definition withSession (host : string) (port : Z) (user : string) (password : bytes) (pinned : string)
    (fn : dialogue R) : dialogue R :=
  withClient host port user password pinned (onSession fn).
End login.

(** [cappedBuffer]: the bytes kept, and whether more arrived. *)
Record cappedBuffer : Type := MkCapped { cb_buf : bytes; cb_limit : Z; cb_overflow : bool }.
Definition capped_write (b : cappedBuffer) (p : bytes) : cappedBuffer * Z :=
  let room := cb_limit b - len (cb_buf b) in
  if room <? len p
  then (MkCapped (if 0 <? room then cb_buf b ++ take (Z.to_nat room) p else cb_buf b) (cb_limit b) true, len p)
  else (MkCapped (cb_buf b ++ p) (cb_limit b) (cb_overflow b), len p).
Definition maxStderrBytes : Z := 4 * 2 ^ 10.

(** [runCommand], from what the channel wrote and how the command ended. *)
Definition runCommand (stdout stderr : list bytes) (ended : option err) : bytes + err :=
  let write b ps := foldl (λ b p, (capped_write b p).1) b ps in
  let out := write (MkCapped [] maxConfigBytes false) stdout in
  let errs := write (MkCapped [] maxStderrBytes false) stderr in
  if cb_overflow out then inr exceeds
  else match ended with
  | Some e =>
      match TrimSpace (cb_buf errs) with
      | [] => inr (Both ErrCommand ": " e)
      | msg => inr (Both ErrCommand ": " (Wrapped "" e (": " +:+ string_of msg)))
      end
  | None => inl (cb_buf out)
  end.

(** ** What is kept of a command's output *)

Lemma capped_writes ps : ∀ b, len (cb_buf b) ≤ cb_limit b →
  let b' := foldl (λ b p, (capped_write b p).1) b ps in
  cb_limit b' = cb_limit b ∧ cb_buf b' = take (Z.to_nat (cb_limit b)) (cb_buf b ++ concat ps) ∧
  cb_overflow b' = cb_overflow b || (cb_limit b <? len (cb_buf b ++ concat ps)).
Proof.
  induction ps as [|p ps IH]; intros [buf limit over] Hlen; cbn [cb_buf cb_limit cb_overflow] in *; cbn [foldl concat].
  - rewrite app_nil_r. split; [done|]. rewrite take_ge by (unfold len in *; lia).
    split; [done|]. replace (limit <? len buf) with false by (symmetry; apply Z.ltb_ge; lia). by rewrite orb_false_r.
  - unfold capped_write at 2 4 6. cbn [cb_buf cb_limit cb_overflow].
    destruct (limit - len buf <? len p) eqn:Eroom.
    + apply Z.ltb_lt in Eroom.
      set (kept := if 0 <? limit - len buf then buf ++ take (Z.to_nat (limit - len buf)) p else buf).
      assert (kept = take (Z.to_nat limit) (buf ++ p)) as Hkept.
      { unfold kept. rewrite take_app, (take_ge buf) by (unfold len in *; lia).
        replace (Z.to_nat limit - length buf)%nat with (Z.to_nat (limit - len buf)) by (unfold len; lia).
        destruct (0 <? limit - len buf) eqn:E0; [done|]. apply Z.ltb_ge in E0.
        replace (Z.to_nat (limit - len buf)) with 0%nat by lia. by rewrite take_0, app_nil_r. }
      assert (length kept = Z.to_nat limit) as Hlk.
      { rewrite Hkept, length_take, length_app. unfold len in *. lia. }
      cbn [fst]. destruct (IH (MkCapped kept limit true)) as (Hl & Hb & Ho); cbn [cb_buf cb_limit cb_overflow] in *.
      { unfold len in *. lia. }
      split; [done|]. split.
      * rewrite Hb. rewrite take_app_le by lia. rewrite take_ge by lia. rewrite Hkept, app_assoc.
        rewrite (take_app_le (buf ++ p)); [done|]. rewrite length_app. unfold len in *. lia.
      * rewrite Ho. cbn. replace (limit <? len (buf ++ p ++ concat ps)) with true; [by rewrite orb_true_r|].
        symmetry. apply Z.ltb_lt. rewrite !len_app. pose proof (len_nonneg (concat ps)). lia.
    + apply Z.ltb_ge in Eroom. cbn [fst].
      destruct (IH (MkCapped (buf ++ p) limit over)) as (Hl & Hb & Ho); cbn [cb_buf cb_limit cb_overflow] in *.
      { rewrite len_app. lia. }
      rewrite <- app_assoc in Hb, Ho. done.
Qed.

(** A command's output is returned whole, in the order it was written and
    however it was cut, or not at all: more than the limit is an error, not a
    configuration cut short. *)
Theorem runCommand_whole stdout stderr ended :
  match runCommand stdout stderr ended with
  | inl out => out = concat stdout ∧ len out ≤ maxConfigBytes ∧ ended = None
  | inr e => maxConfigBytes < len (concat stdout) ∧ e = exceeds ∨ ended ≠ None ∧ Is e ErrCommand = true
  end.
Proof.
  unfold runCommand.
  destruct (capped_writes stdout (MkCapped [] maxConfigBytes false)) as (_ & Hb & Ho); [by vm_compute|].
  cbn [cb_buf cb_limit cb_overflow app orb] in Hb, Ho. rewrite Ho.
  destruct (maxConfigBytes <? len (concat stdout)) eqn:E; [left; split; [by apply Z.ltb_lt|done]|].
  destruct ended as [e|]; [by destruct (TrimSpace _); right|]. apply Z.ltb_ge in E.
  rewrite Hb, take_ge by (unfold len in *; lia). done.
Qed.
