(* ===== verification/Netconf.v ===== *)
(** * NETCONF sessions (src/internal/deviceconfig/netconf.go, netconf_push.go)

    The framing of messages in both forms, the operations of a session and
    the push dialogue on the candidate datastore. The device's side of a
    framing is the bytes it will send until it closes. [encoding/xml] is a
    parameter: the capabilities of a hello, the errors and data of a reply,
    and the raw tokens of a configuration. The byte a framing error quotes is
    left out of its text. *)
From Stdlib Require Import ZArith Lia Ascii.
From stdpp Require Import base sets list strings pretty.
From S2P Require Import Prelude GoBase GoText IosConfig Effects ConfigStore ConfigBackup ConfigPush CliShell Dialogue.
#[local] Open Scope prog_scope.

(** ** Framing *)

Definition maxChunkHeaderDigits : Z := 10.
Definition bufio_size : nat := 4096.
Definition EOF : err := OtherError "EOF".
Definition errNetconfFraming : err := OtherError "malformed NETCONF framing".
Definition framing (what : string) : err := Wrapped "" errNetconfFraming (": " +:+ what).
Definition too_large : err := OtherError ("message exceeds " +:+ pretty maxConfigBytes +:+ " bytes").

(** A reader answers what it read and what is left, or an error. *)
Definition reader (A : Type) : Type := bytes → (A * bytes) + err.
Definition ReadByte : reader Z := λ r, match r with [] => inr EOF | c :: r => inl (c, r) end.
(** [io.ReadFull] *)
Definition ReadFull (n : Z) : reader bytes := λ r,
  if n <=? len r then inl (take (Z.to_nat n) r, drop (Z.to_nat n) r)
  else inr (match r with [] => EOF | _ => OtherError "unexpected EOF" end).

(** [expect(r, "\n")] of a chunk header *)
Definition expect_newline : reader unit := λ r,
  match r with
  | [] => inr EOF
  | c :: r => if c =? newline then inl (tt, r) else inr (framing "got another byte than a newline")
  end.

Fixpoint skipToChunk (r : bytes) : (unit * bytes) + err :=
  match r with
  | [] => inr EOF
  | c :: r =>
      if c =? 35 then inl (tt, r)
      else if bool_decide (c ∈ [newline; 13; space; tab]) then skipToChunk r
      else inr (framing "unexpected byte before a chunk")
  end.

Definition is_digit (c : Z) : bool := (48 <=? c) && (c <=? 57).
(** [readChunkHeader], after [digits]. *)
Fixpoint chunk_header (digits : bytes) (r : bytes) : (Z * bytes) + err :=
  match r with
  | [] => inr EOF
  | c :: r =>
      if (c =? 35) && (len digits =? 0) then
        match expect_newline r with inl (_, r) => inl (0, r) | inr e => inr e end
      else if (c =? newline) && (0 <? len digits) then
        match Atoi digits with
        | Some n => if (n =? 0) || bool_decide (head digits = Some 48) then inr (framing "chunk size") else inl (n, r)
        | None => inr (framing "chunk size")
        end
      else if is_digit c && (len digits <? maxChunkHeaderDigits) then chunk_header (digits ++ [c]) r
      else inr (framing "unexpected byte in a chunk header")
  end.
Definition readChunkHeader : reader Z := chunk_header [].

(** [readChunked], after [msg]. *)
Fixpoint chunks_loop (fuel : nat) (msg r : bytes) : option ((bytes * bytes) + err) :=
  match fuel with
  | O => None
  | S fuel =>
      match skipToChunk r with
      | inr e => Some (inr e)
      | inl (_, r) =>
          match readChunkHeader r with
          | inr e => Some (inr e)
          | inl (size, r) =>
              if size =? 0 then
                Some (if len msg =? 0 then inr (framing "empty message") else inl (msg, r))
              else if maxConfigBytes <? len msg + size then Some (inr too_large)
              else
                match ReadFull size r with
                | inr e => Some (inr e)
                | inl (data, r) => chunks_loop fuel (msg ++ data) r
                end
          end
      end
  end.
Definition readChunked (r : bytes) : option ((bytes * bytes) + err) := chunks_loop (S (length r)) [] r.

(** [bufio.Reader.ReadSlice]: through the first [delim], or a full buffer
    without one, or what is left at the end of the stream. *)
Inductive slice_end : Type := Delimited | BufferFull | StreamEnd.
Fixpoint ReadSlice (room : nat) (delim : Z) (r : bytes) : bytes * bytes * slice_end :=
  match r with
  | [] => ([], [], StreamEnd)
  | c :: r' =>
      match room with
      | O => ([], r, BufferFull)
      | S room =>
          if c =? delim then ([c], r', Delimited)
          else let '(part, rest, e) := ReadSlice room delim r' in (c :: part, rest, e)
      end
  end.

(** [readEOM], after [msg]. *)
Fixpoint eom_loop (fuel : nat) (msg r : bytes) : option ((bytes * bytes) + err) :=
  match fuel with
  | O => None
  | S fuel =>
      let '(part, r, e) := ReadSlice bufio_size 62 r in
      let msg := msg ++ part in
      if maxConfigBytes + len netconfEOM <? len msg then Some (inr too_large)
      else match e with
      | StreamEnd => Some (inr EOF)
      | _ => if HasSuffix msg netconfEOM then Some (inl (take (length msg - length netconfEOM) msg, r))
             else eom_loop fuel msg r
      end
  end.
Definition readEOM (r : bytes) : option ((bytes * bytes) + err) := eom_loop (S (length r)) [] r.

(** [netconfSession.send] and [netconfSession.receive]: a hello is framed by the
    marker, [NcSend] sends [frame_bytes chunked (rpc_message id body)]. *)
Definition frame_bytes (chunked : bool) (msg : bytes) : bytes :=
  if chunked
  then newline_text ++ text_of ("#" +:+ itoa (len msg)) ++ newline_text ++ msg ++ newline_text ++ text_of "##" ++ newline_text
  else msg ++ netconfEOM.
Definition receive (chunked : bool) (r : bytes) : option ((bytes * bytes) + err) :=
  if chunked then readChunked r else readEOM r.

(** ** Messages *)

Definition netconfNS : string := "urn:ietf:params:xml:ns:netconf:base:1.0".
Definition netconfBase10 : string := "urn:ietf:params:netconf:base:1.0".
Definition netconfBase11 : string := "urn:ietf:params:netconf:base:1.1".
Definition netconfCapCandidate : string := "urn:ietf:params:netconf:capability:candidate:1.0".
Definition netconfCapConfirmedCommit : string := "urn:ietf:params:netconf:capability:confirmed-commit:1.1".
Definition netconfCapValidate10 : string := "urn:ietf:params:netconf:capability:validate:1.0".
Definition netconfCapValidate11 : string := "urn:ietf:params:netconf:capability:validate:1.1".
Definition quoted (s : string) : string := dquote +:+ s +:+ dquote.
Definition netconfClientHello : string :=
  "<?xml version=" +:+ quoted "1.0" +:+ " encoding=" +:+ quoted "UTF-8" +:+ "?>" +:+
  "<hello xmlns=" +:+ quoted netconfNS +:+ "><capabilities>" +:+
  "<capability>" +:+ netconfBase10 +:+ "</capability>" +:+
  "<capability>" +:+ netconfBase11 +:+ "</capability>" +:+
  "</capabilities></hello>".
Definition rpc_open (id : Z) : string :=
  "<rpc message-id=" +:+ quoted (itoa id) +:+ " xmlns=" +:+ quoted netconfNS +:+ ">".
Definition rpc_message (id : Z) (body : bytes) : bytes := text_of (rpc_open id) ++ body ++ text_of "</rpc>".
(** The operations of a backup: identifier and body. *)
Definition netconfGetConfig : Z * bytes := (1, text_of "<get-config><source><running/></source></get-config>").
Definition netconfCloseSession : Z * bytes := (2, text_of "<close-session/>").

(** [xml.EscapeText]: the runes it replaces. What is not UTF-8, or not a
    character of XML, becomes U+FFFD; [bad] is the length of such a sequence
    at the front of a text. *)
Definition escape_byte (c : Z) : bytes :=
  if c =? 34 then text_of "&#34;" else if c =? 39 then text_of "&#39;"
  else if c =? 38 then text_of "&amp;" else if c =? 60 then text_of "&lt;" else if c =? 62 then text_of "&gt;"
  else if c =? 9 then text_of "&#x9;" else if c =? 10 then text_of "&#xA;" else if c =? 13 then text_of "&#xD;"
  else [c].
(** The length of the rune in front, when it is valid. *)
Definition rune_length (s : bytes) : option nat :=
  find (λ n, (n <=? length s)%nat && ValidString (take n s)) [1; 2; 3; 4]%nat.
Definition in_xml (rune : bytes) : bool :=
  match rune with
  | [c] => (32 <=? c) || bool_decide (c ∈ [9; 10; 13])
  | [239; 191; c] => c <? 190
  | _ => true
  end.
Fixpoint escape (fuel : nat) (s : bytes) : bytes :=
  match fuel, s with
  | S fuel, c :: rest =>
      match rune_length s with
      | Some n =>
          (if in_xml (take n s) then match take n s with [c] => escape_byte c | rune => rune end else [239; 191; 189]) ++
          escape fuel (drop n s)
      | None => [239; 191; 189] ++ escape fuel rest
      end
  | _, _ => []
  end.
Definition escapeXML (s : bytes) : bytes := escape (length s) s.

(** An <rpc-reply>: its errors (severity, tag, message), and its data. *)
Record rpcReply : Type := MkReply { rp_Errors : list (bytes * bytes * bytes); rp_Data : option bytes }.
Class XmlUnmarshal : Type := {
  hello_capabilities : bytes → list bytes + string;
  unmarshal_reply : bytes → rpcReply + string }.

Definition op_error (op detail : string) : err := cmd_err (op +:+ ": " +:+ detail).

(** The first of the errors that is not a warning. *)
Fixpoint first_error (errors : list (bytes * bytes * bytes)) : option bytes :=
  match errors with
  | [] => None
  | (severity, tag, message) :: errors =>
      if bool_decide (TrimSpace severity = text_of "warning") then first_error errors
      else match TrimSpace message with [] => Some (TrimSpace tag) | detail => Some detail end
  end.

(** ** A session *)

Section netconf.
Context `{XU : !XmlUnmarshal}.

(** [parseReply] and [parseGetConfigReply] *)
Definition parseReply (msg : bytes) (op : string) : rpcReply + err :=
  match unmarshal_reply msg with
  | inr e => inr (Both ErrCommand (": the " +:+ op +:+ " reply is not an rpc-reply: ") (OtherError e))
  | inl reply =>
      match first_error (rp_Errors reply) with
      | Some detail => inr (op_error op (string_of detail))
      | None => inl reply
      end
  end.
Definition no_data : err := cmd_err "the get-config reply carries no data".
Definition parseGetConfigReply (msg : bytes) : bytes + err :=
  match parseReply msg "get-config" with
  | inr e => inr e
  | inl reply => match rp_Data reply with None => inr no_data | Some data => inl (TrimSpace data ++ newline_text) end
  end.

(** [netconfSession], past its hello. *)
Record netconfSession : Type := MkNc { nc_chunked : bool; nc_capabilities : list bytes }.
Definition advertises (nc : netconfSession) (cap : string) : bool := bool_decide (text_of cap ∈ nc_capabilities nc).

Definition uri_of (capability : bytes) : bytes := before_sep (TrimSpace capability) 63.
Definition hello_reply (msg : bytes) : netconfSession + err :=
  match hello_capabilities msg with
  | inr e => inr (Both ErrCommand ": the device's hello is not NETCONF: " (OtherError e))
  | inl caps =>
      let uris := map uri_of caps in
      let chunked := bool_decide (text_of netconfBase11 ∈ uris) in
      if negb (bool_decide (text_of netconfBase10 ∈ uris)) && negb chunked
      then inr (cmd_err "the device advertises no NETCONF base capability")
      else inl (MkNc chunked uris)
  end.
Definition hello : dialogue (netconfSession + err) :=
  e <~ say NcHello;
  match e with
  | Some e => Ret (inr (Both ErrCommand ": send hello: " e))
  | None =>
      msg <~ say (NcReceive false);
      Ret match msg with
      | inr e => inr (Both ErrCommand ": read hello: " e)
      | inl msg => hello_reply msg
      end
  end.

Definition start_netconf {A} (f : netconfSession → dialogue (A + err)) : dialogue (A + err) :=
  e <~ say StartNetconf;
  match e with
  | Some e => Ret (inr (Both ErrCommand ": the device refused the netconf subsystem (is NETCONF enabled?): " e))
  | None => nc <~! hello; f nc
  end.

(** [getRunningConfig] *)
Definition getRunningConfig : dialogue (bytes + err) :=
  start_netconf (λ nc,
    e <~ say (NcSend (nc_chunked nc) netconfGetConfig.1 netconfGetConfig.2);
    match e with
    | Some e => Ret (inr (Both ErrCommand ": send get-config: " e))
    | None =>
        msg <~ say (NcReceive (nc_chunked nc));
        match msg with
        | inr e => Ret (inr (Both ErrCommand ": read get-config reply: " e))
        | inl msg =>
            match parseGetConfigReply msg with
            | inr e => Ret (inr e)
            | inl config => _ <~ say (NcSend (nc_chunked nc) netconfCloseSession.1 netconfCloseSession.2); Ret (inl config)
            end
        end
    end).

(** [openNETCONFPush] *)
Definition missing_capability (nc : netconfSession) : option string :=
  find (λ c, negb (advertises nc c)) [netconfCapCandidate; netconfCapConfirmedCommit].
Definition openNETCONFPush : dialogue (netconfSession + err) :=
  start_netconf (λ nc, Ret match missing_capability nc with
    | Some c => inr (PlanRefusedError ("the NETCONF server does not advertise " +:+ c +:+
        ", which a push with automatic revert needs"))
    | None => inl nc
    end).

(** [netconfRPC]: the session and the identifier of its last operation. *)
Definition netconfRPC : Type := netconfSession * Z.
Definition rpc_send (rpc : netconfRPC) (op : string) (body : bytes) : dialogue (option err * netconfRPC) :=
  let '(nc, id) := rpc in
  e <~ say (NcSend (nc_chunked nc) (id + 1) body);
  Ret (Both ErrCommand (": send " +:+ op +:+ ": ") <$> e, (nc, id + 1)).
Definition rpc_call (rpc : netconfRPC) (op : string) (body : bytes) : dialogue ((rpcReply + err) * netconfRPC) :=
  sent <~ rpc_send rpc op body;
  match sent with
  | (Some e, rpc) => Ret (inr e, rpc)
  | (None, rpc) =>
      msg <~ say (NcReceive (nc_chunked rpc.1));
      Ret (match msg with
           | inr e => inr (Both ErrCommand (": read " +:+ op +:+ " reply: ") e)
           | inl msg => parseReply msg op
           end, rpc)
  end.
Definition failure {A} (r : A + err) : option err := match r with inl _ => None | inr e => Some e end.

Definition lock_body : bytes := text_of "<lock><target><candidate/></target></lock>".
Definition unlock_body : bytes := text_of "<unlock><target><candidate/></target></unlock>".
Definition discard_body : bytes := text_of "<discard-changes/>".
Definition validate_body : bytes := text_of "<validate><source><candidate/></source></validate>".
Definition close_body : bytes := text_of "<close-session/>".
Definition get_config_body (datastore : string) : bytes :=
  text_of ("<get-config><source><" +:+ datastore +:+ "/></source></get-config>").
Definition edit_body (mode : string) (candidate : bytes) : bytes :=
  text_of "<edit-config><target><candidate/></target>" ++
  text_of ("<default-operation>" +:+ mode +:+ "</default-operation>") ++
  text_of "<config>" ++ candidate ++ text_of "</config></edit-config>".
Definition window_seconds : Z := ConfirmWindow / second.
Definition window_minutes : Z := ConfirmWindow / minute.
Definition commit_body (id : string) : bytes :=
  text_of ("<commit><confirmed/><confirm-timeout>" +:+ itoa window_seconds +:+ "</confirm-timeout><persist>") ++
  escapeXML (text_of id) ++ text_of "</persist></commit>".
Definition confirm_body (id : string) : bytes :=
  text_of "<commit><persist-id>" ++ escapeXML (text_of id) ++ text_of "</persist-id></commit>".
Definition cancel_body (id : string) : bytes :=
  text_of "<cancel-commit><persist-id>" ++ escapeXML (text_of id) ++ text_of "</persist-id></cancel-commit>".

Definition rpc_getConfig (rpc : netconfRPC) (datastore : string) : dialogue ((bytes + err) * netconfRPC) :=
  r <~ rpc_call rpc "get-config" (get_config_body datastore);
  Ret (match r.1 with
       | inr e => inr e
       | inl reply => match rp_Data reply with None => inr no_data | Some data => inl data end
       end, r.2).

(** [withCandidateLock]; [none] is the result of nothing but a clean-up that
    failed. *)
Definition withCandidateLock {A} (fn : netconfRPC → dialogue ((A + err) * netconfRPC)) : dialogue (A + err) :=
  nc <~! openNETCONFPush;
  locked <~ rpc_call (nc, 0) "lock" lock_body;
  match locked with
  | (inr e, _) => Ret (inr e)
  | (inl _, rpc) =>
      r <~ fn rpc;
      discarded <~ rpc_call r.2 "discard-changes" discard_body;
      unlocked <~ rpc_call discarded.2 "unlock" unlock_body;
      _ <~ rpc_send unlocked.2 "close-session" close_body;
      Ret match r.1 with
      | inr e => inr e
      | inl a => match Join [failure discarded.1; failure unlocked.1] with Some e => inr e | None => inl a end
      end
  end.

(** [loadCandidate] *)
Definition loadCandidate (rpc : netconfRPC) (req : DeviceRequest) : dialogue (option err * netconfRPC) :=
  edited <~ rpc_call rpc "edit-config" (edit_body (dr_Mode req) (dr_Candidate req));
  match edited with
  | (inr e, rpc) => Ret (Some e, rpc)
  | (inl _, rpc) =>
      if advertises rpc.1 netconfCapValidate10 || advertises rpc.1 netconfCapValidate11 then
        validated <~ rpc_call rpc "validate" validate_body;
        Ret (failure validated.1, validated.2)
      else Ret (None, rpc)
  end.

Definition netconfCommit (req : DeviceRequest) : dialogue (unit + err) :=
  withCandidateLock (λ rpc,
    loaded <~ loadCandidate rpc req;
    match loaded with
    | (Some e, rpc) => Ret (inr e, rpc)
    | (None, rpc) =>
        r <~ rpc_call rpc "commit" (commit_body (dr_CommitID req));
        Ret (match r.1 with inl _ => inl () | inr e => inr e end, r.2)
    end).

Definition netconfPersisted (op : string) (body : bytes) : dialogue (unit + err) :=
  nc <~! openNETCONFPush;
  r <~ rpc_call (nc, 0) op body;
  _ <~ rpc_send r.2 "close-session" close_body;
  Ret match r.1 with inl _ => inl () | inr e => inr e end.
Definition netconfConfirm (req : DeviceRequest) : dialogue (unit + err) :=
  netconfPersisted "commit" (confirm_body (dr_CommitID req)).
Definition netconfRollback (req : DeviceRequest) : dialogue (unit + err) :=
  netconfPersisted "cancel-commit" (cancel_body (dr_CommitID req)).
End netconf.

(** ** A configuration one element per line *)

Definition xml_name : Type := bytes * bytes.
Record start_tag : Type := MkTag { tg_Name : xml_name; tg_Attr : list (xml_name * bytes) }.
Inductive raw_token : Type := RawStart (t : start_tag) | RawChar (text : bytes) | RawEnd (name : xml_name) | RawOther.
(** [Decoder.RawToken]: the tokens, and whether it stops at an error. *)
Class XmlRaw : Type := { raw_tokens : bytes → list raw_token * bool }.

Definition xmlName (n : xml_name) : bytes := if bool_decide (n.1 = []) then n.2 else n.1 ++ text_of ":" ++ n.2.
Definition xmlStartTag (t : start_tag) : bytes :=
  xmlName (tg_Name t) ++
  concat (map (λ a, text_of " " ++ xmlName a.1 ++ text_of ("=" +:+ dquote) ++ escapeXML a.2 ++ text_of dquote) (tg_Attr t)).

Record xmlIndenter : Type := MkIndenter {
  x_b : bytes; x_depth : Z; x_pending : option start_tag; x_leaf : bytes }.

Definition indent_line (n : nat) (text : bytes) : bytes := concat (repeat [space; space] n) ++ text ++ newline_text.
(** [line]: [strings.Repeat] panics on a negative count. *)
Definition x_line (x : xmlIndenter) (indent : Z) (text : bytes) : option xmlIndenter :=
  if indent <? 0 then None
  else Some (MkIndenter (x_b x ++ indent_line (Z.to_nat indent) text) (x_depth x) (x_pending x) (x_leaf x)).
Definition x_clear (x : xmlIndenter) : xmlIndenter := MkIndenter (x_b x) (x_depth x) None [].
Definition open_tag (t : start_tag) : bytes := text_of "<" ++ xmlStartTag t ++ text_of ">".
Definition empty_tag (t : start_tag) : bytes := text_of "<" ++ xmlStartTag t ++ text_of "/>".
Definition close_tag (n : xml_name) : bytes := text_of "</" ++ xmlName n ++ text_of ">".

Definition x_flush (x : xmlIndenter) : option xmlIndenter :=
  match x_pending x with
  | None => Some x
  | Some t =>
      x ← x_line x (x_depth x - 1) (open_tag t);
      x ← (if bool_decide (x_leaf x = []) then Some x else x_line x (x_depth x) (escapeXML (x_leaf x)));
      Some (x_clear x)
  end.
Definition x_start (x : xmlIndenter) (t : start_tag) : option xmlIndenter :=
  x ← x_flush x; Some (MkIndenter (x_b x) (x_depth x + 1) (Some t) (x_leaf x)).
Definition x_text (x : xmlIndenter) (text : bytes) : option xmlIndenter :=
  if bool_decide (text = []) then Some x
  else match x_pending x, x_leaf x with
  | Some t, [] => Some (MkIndenter (x_b x) (x_depth x) (Some t) text)
  | _, _ => x ← x_flush x; x_line x (x_depth x) (escapeXML text)
  end.
Definition x_end (x : xmlIndenter) (name : xml_name) : option xmlIndenter :=
  let x := MkIndenter (x_b x) (x_depth x - 1) (x_pending x) (x_leaf x) in
  x ← x_line x (x_depth x)
    match x_pending x with
    | None => close_tag name
    | Some t => if bool_decide (x_leaf x = []) then empty_tag t else open_tag t ++ escapeXML (x_leaf x) ++ close_tag name
    end;
  Some (x_clear x).
Definition x_token (x : xmlIndenter) (tok : raw_token) : option xmlIndenter :=
  match tok with
  | RawStart t => x_start x t
  | RawChar text => x_text x (TrimSpace text)
  | RawEnd name => x_end x name
  | RawOther => Some x
  end.
Fixpoint x_tokens (x : xmlIndenter) (toks : list raw_token) : option xmlIndenter :=
  match toks with [] => Some x | tok :: toks => x ← x_token x tok; x_tokens x toks end.
Definition indentXML `{!XmlRaw} (s : bytes) : option bytes :=
  let '(toks, bad) := raw_tokens s in
  x ← x_tokens (MkIndenter [] 0 None []) toks;
  Some (if bad : bool then s else x_b x).

(** [netconfDryRun] *)
Definition netconfDryRun `{!XmlUnmarshal, !XmlRaw, !Difflib} (req : DeviceRequest) : dialogue (DryRunResult + err) :=
  withCandidateLock (λ rpc,
    running <~ rpc_getConfig rpc "running";
    match running with
    | (inr e, rpc) => Ret (inr e, rpc)
    | (inl running, rpc) =>
        loaded <~ loadCandidate rpc req;
        match loaded with
        | (Some e, rpc) => Ret (inr e, rpc)
        | (None, rpc) =>
            after <~ rpc_getConfig rpc "candidate";
            match after with
            | (inr e, rpc) => Ret (inr e, rpc)
            | (inl after, rpc) =>
                match indentXML running, indentXML after with
                | Some running, Some after =>
                    Ret (match lineDiff "running" running "candidate" after with
                         | inl r => inl r
                         | inr e => inr (predict_err e)
                         end, rpc)
                | _, _ => panic
                end
            end
        end
    end).

(** ** Trees and their rendering *)

Inductive xml_node : Type := Elem (t : start_tag) (kids : list xml_node) | Text (text : bytes).

Fixpoint tokens_of (n : xml_node) : list raw_token :=
  match n with
  | Elem t kids => RawStart t :: concat (map tokens_of kids) ++ [RawEnd (tg_Name t)]
  | Text text => [RawChar text]
  end.

(** Text that is only white space says nothing. *)
Definition said (n : xml_node) : bool :=
  match n with Elem _ _ => true | Text text => negb (bool_decide (TrimSpace text = [])) end.

(** What a tree is rendered as: a leaf on one line, an element of children
    one level deeper between its tags. *)
Fixpoint pretty_node (d : nat) (n : xml_node) : bytes :=
  match n with
  | Text text => indent_line d (escapeXML (TrimSpace text))
  | Elem t kids =>
      match List.filter said kids with
      | [] => indent_line d (empty_tag t)
      | [Text text] => indent_line d (open_tag t ++ escapeXML (TrimSpace text) ++ close_tag (tg_Name t))
      | _ => indent_line d (open_tag t) ++
             concat (map (λ k, if said k then pretty_node (S d) k else []) kids) ++ indent_line d (close_tag (tg_Name t))
      end
  end.
Definition pretty_forest (d : nat) (kids : list xml_node) : bytes :=
  concat (map (λ k, if said k then pretty_node d k else []) kids).

Section node_ind.
Context (P : xml_node → Prop) (Htext : ∀ text, P (Text text)) (Helem : ∀ t kids, Forall P kids → P (Elem t kids)).
Fixpoint xml_node_nested (n : xml_node) : P n :=
  match n with
  | Text text => Htext text
  | Elem t kids => Helem t kids ((fix go l : Forall P l :=
      match l with [] => Forall_nil_2 _ | n :: l => Forall_cons_2 _ _ _ (xml_node_nested n) (go l) end) kids)
  end.
End node_ind.

Lemma x_tokens_app x a b : x_tokens x (a ++ b) = x ← x_tokens x a; x_tokens x b.
Proof. revert x. induction a as [|tok a IH]; intros x; cbn; [done|]. destruct (x_token x tok) as [x'|]; cbn; [apply IH|done]. Qed.

Lemma x_line_nat b d p leaf n text :
  x_line (MkIndenter b d p leaf) (Z.of_nat n) text = Some (MkIndenter (b ++ indent_line n text) d p leaf).
Proof. unfold x_line. rewrite (proj2 (Z.ltb_ge _ _)) by lia. by rewrite Nat2Z.id. Qed.

(** The lines a held start tag adds when it turns out to be a parent's. *)
Definition held_lines (d : nat) (p : option start_tag) (leaf : bytes) : bytes :=
  match p with
  | None => []
  | Some t => indent_line (pred d) (open_tag t) ++ (if bool_decide (leaf = []) then [] else indent_line d (escapeXML leaf))
  end.
Definition holds_ok (d : nat) (p : option start_tag) (leaf : bytes) : Prop :=
  match p with None => leaf = [] | Some _ => d ≠ 0%nat end.

Lemma x_flush_spec b d p leaf : holds_ok d p leaf →
  x_flush (MkIndenter b (Z.of_nat d) p leaf) = Some (MkIndenter (b ++ held_lines d p leaf) (Z.of_nat d) None []).
Proof.
  unfold x_flush, holds_ok. destruct p as [t|]; cbn; intros H; [|by rewrite H, app_nil_r].
  replace (Z.of_nat d - 1) with (Z.of_nat (pred d)) by lia. rewrite x_line_nat. cbn.
  case_bool_decide; cbn; [by rewrite app_nil_r|]. rewrite x_line_nat. cbn. by rewrite app_assoc.
Qed.

(** A tree renders the same whatever was held before it. *)
Definition renders (n : xml_node) : Prop :=
  match n with
  | Text _ => True
  | Elem _ _ => ∀ b d p leaf, holds_ok d p leaf →
      x_tokens (MkIndenter b (Z.of_nat d) p leaf) (tokens_of n) =
      Some (MkIndenter (b ++ held_lines d p leaf ++ pretty_node d n) (Z.of_nat d) None [])
  end.

Lemma blank_text x text : said (Text text) = false → x_token x (RawChar text) = Some x.
Proof. cbn. unfold x_text. by destruct (bool_decide (TrimSpace text = [])). Qed.

Lemma after_flush kids : Forall renders kids → ∀ b d,
  x_tokens (MkIndenter b (Z.of_nat d) None []) (concat (map tokens_of kids)) =
  Some (MkIndenter (b ++ pretty_forest d kids) (Z.of_nat d) None []).
Proof.
  induction 1 as [|n kids Hn _ IH]; intros b d; [cbn; by rewrite app_nil_r|].
  cbn [map concat]. rewrite x_tokens_app. unfold pretty_forest. cbn [map concat]. destruct (said n) eqn:Es.
  - assert (x_tokens (MkIndenter b (Z.of_nat d) None []) (tokens_of n) =
      Some (MkIndenter (b ++ pretty_node d n) (Z.of_nat d) None [])) as ->.
    { destruct n as [t k|text]; [by rewrite Hn|].
      cbn in Es |- *. apply negb_true_iff in Es. unfold x_text. rewrite Es. unfold x_flush. cbn. by rewrite x_line_nat. }
    cbn. rewrite IH. unfold pretty_forest. by rewrite app_assoc.
  - destruct n as [|text]; [done|]. cbn [tokens_of x_tokens]. rewrite blank_text by done. cbn. apply IH.
Qed.

Lemma pretty_forest_cons d n kids : pretty_forest d (n :: kids) = (if said n then pretty_node d n else []) ++ pretty_forest d kids.
Proof. done. Qed.

(** After a start tag that already has a text. *)
Lemma after_leaf kids : Forall renders kids → ∀ b d t leaf, leaf ≠ [] → d ≠ 0%nat →
  x_tokens (MkIndenter b (Z.of_nat d) (Some t) leaf) (concat (map tokens_of kids)) =
  Some match List.filter said kids with
  | [] => MkIndenter b (Z.of_nat d) (Some t) leaf
  | _ => MkIndenter (b ++ held_lines d (Some t) leaf ++ pretty_forest d kids) (Z.of_nat d) None []
  end.
Proof.
  intros Hk. induction Hk as [|n kids Hn Hks IH]; intros b d t leaf Hleaf Hd; [done|].
  cbn [map concat List.filter]. rewrite x_tokens_app, pretty_forest_cons. destruct (said n) eqn:Es.
  - assert (x_tokens (MkIndenter b (Z.of_nat d) (Some t) leaf) (tokens_of n) =
      Some (MkIndenter (b ++ held_lines d (Some t) leaf ++ pretty_node d n) (Z.of_nat d) None [])) as ->.
    { destruct n as [t' k|text]; [by apply Hn|]. cbn [said] in Es. apply negb_true_iff in Es.
      cbn [tokens_of x_tokens x_token]. unfold x_text. rewrite Es. cbn [x_pending x_leaf].
      destruct leaf as [|c leaf]; [done|]. rewrite x_flush_spec by done. cbn [mbind option_bind x_depth].
      rewrite x_line_nat. cbn [mbind option_bind pretty_node]. by rewrite <- app_assoc. }
    cbn [mbind option_bind]. rewrite after_flush by done. by rewrite <- !app_assoc.
  - destruct n as [|text]; [done|]. cbn [tokens_of x_tokens]. rewrite blank_text by done. cbn [mbind option_bind].
    by apply IH.
Qed.

(** Right after a start tag. *)
Lemma after_start kids : Forall renders kids → ∀ b d t, d ≠ 0%nat →
  x_tokens (MkIndenter b (Z.of_nat d) (Some t) []) (concat (map tokens_of kids)) =
  Some match List.filter said kids with
  | [] => MkIndenter b (Z.of_nat d) (Some t) []
  | [Text text] => MkIndenter b (Z.of_nat d) (Some t) (TrimSpace text)
  | _ => MkIndenter (b ++ indent_line (pred d) (open_tag t) ++ pretty_forest d kids) (Z.of_nat d) None []
  end.
Proof.
  intros Hk. induction Hk as [|n kids Hn Hks IH]; intros b d t Hd; [done|].
  cbn [map concat List.filter]. rewrite x_tokens_app, pretty_forest_cons. destruct (said n) eqn:Es.
  - destruct n as [t' k|text].
    + rewrite Hn by done. cbn [mbind option_bind held_lines]. rewrite bool_decide_eq_true_2, app_nil_r by done.
      rewrite after_flush by done. by rewrite <- !app_assoc.
    + cbn [said] in Es. apply negb_true_iff in Es. pose proof Es as Hne. apply bool_decide_eq_false in Hne.
      cbn [tokens_of x_tokens x_token]. unfold x_text. rewrite Es. cbn [x_pending x_leaf mbind option_bind x_b x_depth].
      rewrite after_leaf by done. destruct (List.filter said kids) as [|m ms]; [done|]. cbn [held_lines].
      rewrite Es. cbn [pretty_node]. by rewrite <- !app_assoc.
  - destruct n as [|text]; [done|]. cbn [tokens_of x_tokens]. rewrite blank_text by done. cbn [mbind option_bind].
    by apply IH.
Qed.

Lemma filtered_nothing kids d : List.filter said kids = [] → pretty_forest d kids = [].
Proof.
  induction kids as [|n kids IH]; [done|]. rewrite pretty_forest_cons. cbn [List.filter].
  destruct (said n); [done|]. apply IH.
Qed.

Lemma all_render n : renders n.
Proof.
  induction n as [text|t kids Hk] using xml_node_nested; [done|]. intros b d p leaf Hp.
  cbn [tokens_of x_tokens x_token]. unfold x_start. rewrite x_flush_spec by done.
  cbn [mbind option_bind x_b x_depth x_leaf]. rewrite x_tokens_app.
  replace (Z.of_nat d + 1) with (Z.of_nat (S d)) by lia. rewrite after_start by done. cbn [mbind option_bind].
  cbn [pretty_node]. change (concat (map (λ k, if said k then pretty_node (S d) k else []) kids)) with (pretty_forest (S d) kids).
  assert (∀ b p leaf, x_end (MkIndenter b (Z.of_nat (S d)) p leaf) (tg_Name t) =
    Some (MkIndenter (b ++ indent_line d match p with
      | None => close_tag (tg_Name t)
      | Some t' => if bool_decide (leaf = []) then empty_tag t' else open_tag t' ++ escapeXML leaf ++ close_tag (tg_Name t)
      end) (Z.of_nat d) None [])) as Hend.
  { intros b' p' leaf'. unfold x_end. cbn [x_b x_depth x_pending x_leaf].
    replace (Z.of_nat (S d) - 1) with (Z.of_nat d) by lia. rewrite x_line_nat. done. }
  destruct (List.filter said kids) as [|[t' k|text] [|m ms] ] eqn:Ef; cbn [x_tokens x_token]; rewrite Hend; cbn [mbind option_bind];
    rewrite <- ?app_assoc; try done.
  rewrite bool_decide_eq_false_2; [done|]. intros Hblank.
  assert (Text text ∈ List.filter said kids) as Hin by (rewrite Ef; set_solver).
  apply list_elem_of_In, List.filter_In in Hin as [_ Hin]. cbn in Hin. by rewrite bool_decide_eq_true_2 in Hin.
Qed.

(** The rendering depends on the elements, their attributes and their text,
    and not on how the device spaced them: a configuration read as the tokens
    of a tree is rendered as that tree, one element per line, and never
    panics. *)
Theorem indentXML_tree `{!XmlRaw} s forest :
  raw_tokens s = (concat (map tokens_of forest), false) → indentXML s = Some (pretty_forest 0 forest).
Proof.
  intros E. unfold indentXML. rewrite E. change 0 with (Z.of_nat 0). rewrite after_flush; [done|].
  apply Forall_true, all_render.
Qed.

(** ** Numbers as text *)

Lemma ascii_bytes_cons a s : ascii_bytes (String a s) = Z.of_nat (Ascii.nat_of_ascii a) :: ascii_bytes s.
Proof. done. Qed.

Lemma pretty_char n : (n < 10)%N → Z.of_nat (Ascii.nat_of_ascii (pretty_N_char n)) = 48 + Z.of_N n.
Proof.
  intros Hn. assert (n ∈ [0; 1; 2; 3; 4; 5; 6; 7; 8; 9]%N) as Hin.
  { destruct n as [|p]; [set_solver|]. do 9 (destruct p as [p|p|]; try (exfalso; lia); try set_solver). }
  repeat (apply elem_of_cons in Hin as [->|Hin]; [done|]). by apply elem_of_nil in Hin.
Qed.

Lemma atoi_digits_app a b n m : atoi_digits a n = Some m → atoi_digits (a ++ b) n = atoi_digits b m.
Proof. revert n. induction a as [|c a IH]; intros n; cbn; [by intros [= ->]|]. destruct (_ && _); [apply IH|done]. Qed.

Lemma digits_go x s : (0 < x)%N → ∃ c ds, ascii_bytes (pretty_N_go x s) = c :: ds ++ ascii_bytes s ∧
  c ≠ 48 ∧ Forall (λ d, is_digit d = true) (c :: ds) ∧ atoi_digits (c :: ds) 0 = Some (Z.of_N x) ∧
  ∀ k, (x < 10 ^ N.of_nat k)%N → (length (c :: ds) ≤ k)%nat.
Proof.
  revert s. induction (N.lt_wf_0 x) as [x _ IH]. intros s Hx. rewrite pretty_N_go_step by done.
  pose proof (N.mod_lt x 10 ltac:(lia)) as Hm. pose proof (pretty_char (x mod 10) Hm) as Hc.
  remember (Z.of_nat (Ascii.nat_of_ascii (pretty_N_char (x mod 10)))) as d eqn:Ed.
  pose proof (proj1 (N2Z.inj_lt _ _) Hm) as Hmz. pose proof (N2Z.is_nonneg (x mod 10)).
  change (Z.of_N 10) with 10 in Hmz. assert (is_digit d = true) as Hd by (apply andb_true_iff; split; apply Z.leb_le; lia).
  destruct (decide (x / 10 = 0)%N) as [E0|Hpos].
  - rewrite E0, pretty_N_go_0, ascii_bytes_cons. rewrite <- Ed. exists d, [].
    assert (x < 10)%N as Hlt by (apply N.div_small_iff in E0; lia). rewrite N.mod_small in Hc by done.
    split; [done|]. split; [lia|]. split; [by constructor|]. split.
    + cbn. unfold is_digit in Hd. rewrite Hd, Hc. f_equal. lia.
    + intros [|k] Hk; cbn in *; lia.
  - destruct (IH (x / 10)%N (N.div_lt x 10 ltac:(lia) ltac:(lia)) (String (pretty_N_char (x mod 10)) s)) as (c & ds & E & Hne & Hall & Hat & Hlen); [by apply N.neq_0_lt_0|].
    exists c, (ds ++ [d]). rewrite E, ascii_bytes_cons. rewrite <- Ed. split; [by rewrite <- app_assoc|].
    split; [done|]. split; [rewrite app_comm_cons; apply Forall_app; split; [done|by constructor]|]. split.
    + rewrite app_comm_cons. rewrite (atoi_digits_app (c :: ds) [d] 0 _ Hat). cbn. unfold is_digit in Hd. rewrite Hd, Hc.
      f_equal. pose proof (N.div_mod x 10 ltac:(lia)). lia.
    + intros [|k] Hk; [cbn in Hk; lia|]. rewrite app_comm_cons, length_app. cbn [length].
      enough (length (c :: ds) ≤ k)%nat by (cbn in *; lia). apply Hlen.
      rewrite Nat2N.inj_succ, N.pow_succ_r' in Hk. by apply N.div_lt_upper_bound.
Qed.

Lemma text_app a b : text_of (a +:+ b) = text_of a ++ text_of b.
Proof. induction a as [|c a IH]; [done|]. change (text_of (String c a +:+ b)) with (Z.of_nat (Ascii.nat_of_ascii c) :: text_of (a +:+ b)). by rewrite IH. Qed.

Lemma itoa_digits n : 0 < n → ∃ c ds, text_of (itoa n) = c :: ds ∧ c ≠ 48 ∧ Forall (λ d, is_digit d = true) (c :: ds) ∧
  Atoi (c :: ds) = Some n ∧ ∀ k : nat, n < 10 ^ Z.of_nat k → (length (c :: ds) ≤ k)%nat.
Proof.
  intros Hn. destruct n as [|p|p]; [lia| |lia].
  destruct (digits_go (N.pos p) "" ltac:(lia)) as (c & ds & E & Hne & Hall & Hat & Hlen).
  exists c, ds. split.
  { change (itoa (Z.pos p)) with (pretty_N_go (N.pos p) ""). unfold text_of. rewrite E. by rewrite app_nil_r. }
  split; [done|]. split; [done|]. split.
  - unfold Atoi. apply Forall_cons in Hall as [Hc _]. apply andb_true_iff in Hc as [H1 H2]. apply Z.leb_le in H1, H2.
    destruct (c =? 45) eqn:E1; [apply Z.eqb_eq in E1; lia|]. destruct (c =? 43) eqn:E2; [apply Z.eqb_eq in E2; lia|].
    cbn [orb]. rewrite Hat. done.
  - intros k Hk. apply Hlen. apply N2Z.inj_lt. by rewrite N2Z.inj_pow, nat_N_Z.
Qed.

(** ** Messages in chunks *)

Definition chunk_bytes (data : bytes) : bytes := newline_text ++ text_of ("#" +:+ itoa (len data)) ++ newline_text ++ data.
Definition end_of_chunks : bytes := newline_text ++ text_of "##" ++ newline_text.

Lemma header_digits ds : ∀ acc r, Forall (λ d, is_digit d = true) ds → len acc + len ds ≤ maxChunkHeaderDigits →
  chunk_header acc (ds ++ r) = chunk_header (acc ++ ds) r.
Proof.
  induction ds as [|d ds IH]; intros acc r Hds Hlen; [by rewrite app_nil_r|]. apply Forall_cons in Hds as [Hd Hds].
  rewrite len_cons in Hlen. pose proof (len_nonneg ds). pose proof Hd as Hr. apply andb_true_iff in Hr as [H1 H2].
  apply Z.leb_le in H1, H2. cbn [app chunk_header].
  replace (d =? 35) with false by (symmetry; apply Z.eqb_neq; lia).
  replace (d =? newline) with false by (symmetry; apply Z.eqb_neq; unfold newline; lia).
  rewrite Hd. replace (len acc <? maxChunkHeaderDigits) with true by (symmetry; apply Z.ltb_lt; lia). cbn [andb].
  rewrite IH; [by rewrite <- app_assoc|done|]. rewrite len_app. change (len [d]) with 1. lia.
Qed.

Lemma read_header n r : 0 < n < 10 ^ 10 → readChunkHeader (text_of (itoa n) ++ newline :: r) = inl (n, r).
Proof.
  intros Hn. destruct (itoa_digits n) as (c & ds & -> & Hne & Hall & Hat & Hlen); [lia|].
  specialize (Hlen 10%nat ltac:(lia)). unfold readChunkHeader.
  rewrite header_digits; [|done|unfold len, maxChunkHeaderDigits; cbn [length] in *; lia]. cbn [app chunk_header].
  change (newline =? 35) with false. change (newline =? newline) with true. cbn [andb].
  replace (0 <? len (c :: ds)) with true by (symmetry; apply Z.ltb_lt; unfold len; cbn [length]; lia).
  rewrite Hat. replace (n =? 0) with false by (symmetry; apply Z.eqb_neq; lia). cbn [orb head].
  rewrite bool_decide_eq_false_2; [done|congruence].
Qed.

Lemma chunks_read cs : ∀ fuel msg rest, Forall (λ c, c ≠ []) cs → msg ++ concat cs ≠ [] →
  len (msg ++ concat cs) ≤ maxConfigBytes → (length cs < fuel)%nat →
  chunks_loop fuel msg (concat (map chunk_bytes cs) ++ end_of_chunks ++ rest) = Some (inl (msg ++ concat cs, rest)).
Proof.
  induction cs as [|c cs IH]; intros fuel msg rest Hcs Hne Hlen Hfuel; (destruct fuel as [|fuel]; [cbn in Hfuel; lia|]).
  - cbn [concat map app] in *. rewrite app_nil_r in *. cbn.
    replace (len msg =? 0) with false; [done|]. symmetry. apply Z.eqb_neq. destruct msg; [done|]. unfold len. cbn. lia.
  - apply Forall_cons in Hcs as [Hc Hcs]. cbn [concat map] in *. unfold chunk_bytes at 1.
    assert (0 < len c) as Hpos by (destruct c; [done|]; unfold len; cbn [length]; lia).
    rewrite app_assoc in Hne, Hlen. pose proof Hlen as Hl. rewrite !len_app in Hl.
    pose proof (len_nonneg msg). pose proof (len_nonneg (concat cs)).
    assert (len c < 10 ^ 10) as Hsmall by (unfold maxConfigBytes in *; lia).
    rewrite text_app, <- !app_assoc.
    change (newline_text ++ text_of "#" ++ ?r) with (newline :: 35 :: r). cbn [app chunks_loop].
    change (skipToChunk (newline :: 35 :: ?r)) with (@inl (unit * bytes) err (tt, r)). cbn iota beta.
    change (newline_text ++ ?r) with (newline :: r).
    rewrite read_header by lia. replace (len c =? 0) with false by (symmetry; apply Z.eqb_neq; lia).
    rewrite (proj2 (Z.ltb_ge _ _)) by lia. unfold ReadFull.
    rewrite (proj2 (Z.leb_le _ _)) by (rewrite len_app; pose proof (len_nonneg (concat (map chunk_bytes cs) ++ end_of_chunks ++ rest)); lia).
    assert (Z.to_nat (len c) = length c) as -> by (unfold len; lia).
    rewrite take_app_length, drop_app_length, (app_assoc msg c). apply IH; [done..|]. cbn in Hfuel. lia.
Qed.

Lemma readChunked_chunks cs rest : cs ≠ [] → Forall (λ c, c ≠ []) cs → len (concat cs) ≤ maxConfigBytes →
  readChunked (concat (map chunk_bytes cs) ++ end_of_chunks ++ rest) = Some (inl (concat cs, rest)).
Proof.
  intros Hne Hcs Hlen. unfold readChunked. apply (chunks_read cs _ []); [done| |done|].
  - destruct cs as [|c cs]; [done|]. apply Forall_cons in Hcs as [Hc _]. by destruct c.
  - rewrite length_app. enough (length cs ≤ length (concat (map chunk_bytes cs)))%nat by lia.
    clear. induction cs as [|c cs IH]; [done|]. cbn [map concat length]. rewrite length_app.
    unfold chunk_bytes at 1. rewrite length_app. cbn [length newline_text]. lia.
Qed.

(** ** Messages ended by a marker *)

Definition gt : Z := 62.

Lemma ReadSlice_spec room r : let '(part, rest, e) := ReadSlice room gt r in r = part ++ rest ∧
  match e with
  | Delimited => ∃ p, part = p ++ [gt] ∧ gt ∉ p
  | BufferFull => gt ∉ part ∧ length part = room
  | StreamEnd => gt ∉ part ∧ rest = []
  end.
Proof.
  revert room. induction r as [|c r IH]; intros room.
  { destruct room; cbn [ReadSlice]; (split; [done|split; [apply not_elem_of_nil|done] ]). }
  destruct room as [|room]; cbn [ReadSlice]; [split; [done|split; [apply not_elem_of_nil|done] ]|].
  destruct (c =? gt) eqn:E.
  { apply Z.eqb_eq in E as ->. split; [done|]. exists []. split; [done|apply not_elem_of_nil]. }
  apply Z.eqb_neq in E. specialize (IH room). destruct (ReadSlice room gt r) as [ [part rest] e]. destruct IH as [-> H].
  split; [done|]. assert (∀ l, gt ∉ l → gt ∉ c :: l) as Hcons by (intros l Hl; apply not_elem_of_cons; by split).
  destruct e.
  - destruct H as (p & -> & Hp). exists (c :: p). split; [done|by apply Hcons].
  - destruct H as [Hp Hl]. split; [by apply Hcons|cbn; lia].
  - destruct H as [Hp Hl]. split; [by apply Hcons|done].
Qed.

(** The marker ends [msg] and is nowhere before. *)
Definition unmarked (msg : bytes) : Prop := ∀ k, occurs netconfEOM (msg ++ netconfEOM) k → k = length msg.

Lemma HasSuffix_true s p : HasSuffix s p = true ↔ ∃ q, s = q ++ p.
Proof.
  unfold HasSuffix. rewrite bool_decide_eq_true. split.
  - intros E. exists (take (length s - length p) s). rewrite <- (take_drop (length s - length p) s) at 1. by rewrite E.
  - intros [q ->]. by rewrite length_app, Nat.add_sub, drop_app_length.
Qed.

Lemma gt_in (x k : bytes) : gt ∈ (x ++ [gt]) ++ k.
Proof. apply elem_of_app. left. apply elem_of_app. right. by left. Qed.

(** A part read ends within the message: the marker's last byte delimits. *)
Lemma part_within x rest part rest' e : x ++ gt :: rest = part ++ rest' → ReadSlice bufio_size gt (x ++ gt :: rest) = (part, rest', e) →
  part ≠ [] ∧ e ≠ StreamEnd ∧ ∃ y, x ++ [gt] = part ++ y ∧ rest' = y ++ rest.
Proof.
  intros E Hs. pose proof (ReadSlice_spec bufio_size (x ++ gt :: rest)) as H. rewrite Hs in H. destruct H as [_ H]. clear Hs.
  rewrite (cons_middle gt), app_assoc in E. apply app_eq_inv in E as [ (k & E1 & E2)|(k & E1 & E2)].
  - assert (part ≠ [] ∧ e ≠ StreamEnd) as [Hne He].
    { destruct e.
      - destruct H as (p & -> & _). split; [by destruct p|done].
      - destruct H as [_ Hl]. split; [|done]. by intros ->.
      - destruct H as [Hp ->]. exfalso. destruct k; [|done]. rewrite app_nil_r in E1. apply Hp. rewrite <- E1. apply elem_of_app. right. by left. }
    split; [done|]. split; [done|]. by exists k.
  - destruct k as [|c k].
    + rewrite app_nil_r in E1. subst part. split; [by destruct x|]. split; [|exists []; by rewrite app_nil_r].
      intros ->. destruct H as [Hp _]. apply Hp, elem_of_app. right. by left.
    + exfalso. subst part. destruct e.
      * destruct H as (p & Hp & Hno). apply Hno. destruct (exists_last (l := c :: k)) as (k' & z & Ek); [done|].
        rewrite Ek, (app_assoc (x ++ [gt])) in Hp. apply app_inj_tail in Hp as [<- _]. apply gt_in.
      * destruct H as [Hp _]. apply Hp, gt_in.
      * destruct H as [Hp _]. apply Hp, gt_in.
Qed.

Definition eom_front : bytes := removelast netconfEOM.

Lemma eom_read fuel : ∀ acc x msg rest, unmarked msg → len msg ≤ maxConfigBytes →
  acc ++ x ++ [gt] = msg ++ netconfEOM → (length x < fuel)%nat →
  eom_loop fuel acc (x ++ gt :: rest) = Some (inl (msg, rest)).
Proof.
  induction fuel as [|fuel IH]; intros acc x msg rest Hmark Hlen Hacc Hfuel; [lia|].
  cbn [eom_loop]. destruct (ReadSlice bufio_size 62 (x ++ gt :: rest)) as [ [part rest'] e] eqn:Es.
  pose proof (ReadSlice_spec bufio_size (x ++ gt :: rest)) as H. change gt with 62 in H at 1. rewrite Es in H.
  destruct H as [E _]. destruct (part_within _ _ _ _ _ E Es) as (Hne & He & y & Hy & ->).
  rewrite Hy, app_assoc in Hacc.
  assert (len (acc ++ part) ≤ maxConfigBytes + len netconfEOM) as Hsize.
  { apply (f_equal len) in Hacc. rewrite (len_app msg), len_app in Hacc. pose proof (len_nonneg y). lia. }
  rewrite (proj2 (Z.ltb_ge _ _) Hsize). destruct (HasSuffix (acc ++ part) netconfEOM) eqn:Esuf.
  - apply HasSuffix_true in Esuf as [q Hq].
    assert (length q = length msg) as Hlq.
    { apply Hmark. rewrite <- Hacc, Hq. unfold occurs. rewrite <- !app_assoc, drop_app_length. apply HasPrefix_true. by exists y. }
    rewrite Hq, <- app_assoc in Hacc. apply app_inj_1 in Hacc as [-> Hy']; [|done].
    rewrite <- (app_nil_r netconfEOM) in Hy' at 2. apply app_inv_head in Hy' as ->.
    destruct e; [| |done]; rewrite Hq, length_app, Nat.add_sub, take_app_length; done.
  - destruct y as [|c y] using rev_ind.
    { exfalso. rewrite app_nil_r in Hacc. apply eq_true_false_abs with (2 := Esuf). apply HasSuffix_true. by exists msg. }
    rewrite app_assoc in Hy. apply app_inj_tail in Hy as [-> <-]. rewrite <- app_assoc. cbn [app].
    assert (length part ≠ 0%nat) by (by destruct part). rewrite length_app in Hfuel.
    destruct e; [| |done]; apply IH; [done|done|by rewrite <- Hacc|lia|done|done|by rewrite <- Hacc|lia].
Qed.

Lemma readEOM_message msg rest : unmarked msg → len msg ≤ maxConfigBytes → readEOM (msg ++ netconfEOM ++ rest) = Some (inl (msg, rest)).
Proof.
  intros Hmark Hlen. unfold readEOM. change netconfEOM with (eom_front ++ [gt]) at 2. change netconfEOM with (eom_front ++ [gt]).
  rewrite <- !app_assoc, (app_assoc msg eom_front). cbn [app]. apply eom_read; [done|done|by rewrite <- app_assoc|].
  rewrite !length_app. lia.
Qed.

(** C21: A message is read back whole, and nothing of what follows it, in both
    framings: chunked whatever it holds, and ended by the marker when the
    marker first comes at its end. *)
Theorem receive_framed chunked msg rest :
  msg ≠ [] → len msg ≤ maxConfigBytes → (chunked = false → unmarked msg) →
  receive chunked (frame_bytes chunked msg ++ rest) = Some (inl (msg, rest)).
Proof.
  intros Hne Hlen Hmark. destruct chunked; cbn [receive frame_bytes].
  - pose proof (readChunked_chunks [msg] rest) as H. cbn [map concat] in H. rewrite app_nil_r in H.
    unfold chunk_bytes, end_of_chunks in H. rewrite <- !app_assoc in H. rewrite <- !app_assoc. apply H; [done|by constructor|done].
  - rewrite <- app_assoc. by apply readEOM_message; [apply Hmark|].
Qed.

(** ** Candidates inside messages *)

Lemma Contains_false s sub : Contains s sub = false → ∀ k, ¬ occurs sub s k.
Proof.
  induction s as [|c s IH]; intros H k; cbn [Contains] in H; apply orb_false_iff in H as [H1 H2].
  - unfold occurs. rewrite drop_nil. by rewrite H1.
  - destruct k as [|k]; [unfold occurs; cbn [drop]; by rewrite H1|]. by apply (IH H2 k).
Qed.

Lemma checked_unmarked `{!XmlDecoder} candidate : checkXMLCandidate candidate = None → ∀ k, ¬ occurs netconfEOM candidate k.
Proof. unfold checkXMLCandidate. destruct (Contains candidate netconfEOM) eqn:E; [done|]. intros _. by apply Contains_false. Qed.

(** Text with no "]" begins no marker, and text that starts with "<" continues
    none. *)
Definition bracket : Z := 93.

Lemma marker_head k (s : bytes) : occurs netconfEOM s k → s !! k = Some bracket.
Proof.
  unfold occurs. intros [t E]%HasPrefix_true. rewrite <- (Nat.add_0_r k), <- lookup_drop, E. done.
Qed.

Lemma marker_char k j (s : bytes) : occurs netconfEOM s k → (j < 6)%nat → s !! (k + j)%nat = netconfEOM !! j.
Proof.
  unfold occurs. intros [t E]%HasPrefix_true Hj. rewrite <- lookup_drop, E. by rewrite lookup_app_l.
Qed.

Lemma enclosed_unmarked a candidate b : bracket ∉ a → bracket ∉ b → head b = Some 60 →
  (∀ k, ¬ occurs netconfEOM candidate k) → unmarked (a ++ candidate ++ b).
Proof.
  intros Ha Hb Hhead Hc k Hk. pose proof (marker_head _ _ Hk) as H93.
  pose proof (occurs_length netconfEOM _ _ ltac:(done) Hk) as Hlen.
  rewrite !length_app in *. change (length netconfEOM) with 6%nat in *.
  rewrite <- !app_assoc in *. destruct (decide (k < length a)%nat) as [Hlt|Hge].
  { exfalso. rewrite lookup_app_l in H93 by done. apply Ha. by eapply list_elem_of_lookup_2. }
  destruct (decide (k < length a + length candidate)%nat) as [Hlt2|Hge2].
  { exfalso. destruct (decide (k + 6 ≤ length a + length candidate)%nat) as [Hin|Hout].
    - apply (Hc (k - length a)%nat). apply (occurs_app netconfEOM candidate _ (b ++ netconfEOM)); [cbn; lia|].
      unfold occurs in *. by rewrite drop_app_ge in Hk by lia.
    - pose proof (marker_char k (length a + length candidate - k) _ Hk ltac:(lia)) as Hch.
      replace (k + (length a + length candidate - k))%nat with (length a + (length candidate + 0))%nat in Hch by lia.
      rewrite !lookup_app_r, !Nat.add_sub' in Hch by lia. destruct b as [|c b]; [done|]. injection Hhead as ->.
      assert (length a + length candidate - k < 6)%nat as Hj by lia.
      revert Hch Hj. generalize (length a + length candidate - k)%nat. intros j Hch Hj.
      do 6 (destruct j as [|j]; [done|]). lia. }
  destruct (decide (k < length a + length candidate + length b)%nat) as [Hlt3|Hge3]; [|lia].
  exfalso. rewrite lookup_app_r, lookup_app_r, lookup_app_l in H93 by lia. apply Hb. by eapply list_elem_of_lookup_2.
Qed.

Lemma text_plain s : forallb (λ c, negb (c =? bracket)) (text_of s) = true → bracket ∉ text_of s.
Proof. intros H Hin. rewrite forallb_forall in H. apply list_elem_of_In in Hin. by apply H in Hin. Qed.

Lemma itoa_plain n : 0 < n → bracket ∉ text_of (itoa n).
Proof.
  intros Hn. destruct (itoa_digits n Hn) as (c & ds & -> & _ & Hall & _). intros Hin.
  rewrite Forall_forall in Hall. by apply Hall in Hin.
Qed.

Lemma rpc_open_plain id : 0 < id → bracket ∉ text_of (rpc_open id).
Proof.
  intros Hid. unfold rpc_open, quoted. rewrite !text_app. pose proof (itoa_plain id Hid).
  repeat (rewrite not_elem_of_app; split); try done; apply text_plain; by vm_compute.
Qed.

(** C20: A candidate that was accepted cannot end the message it is sent in, nor
    smuggle one after it: whatever follows on the wire, a reader of either
    framing sees the <edit-config> operation with the whole candidate, and
    nothing else of it. *)
Theorem edit_is_one_message `{!XmlDecoder} chunked id mode candidate rest :
  0 < id → mode = PushMerge ∨ mode = PushReplace → checkXMLCandidate candidate = None →
  len (rpc_message id (edit_body mode candidate)) ≤ maxConfigBytes →
  receive chunked (frame_bytes chunked (rpc_message id (edit_body mode candidate)) ++ rest) =
  Some (inl (rpc_message id (edit_body mode candidate), rest)).
Proof.
  intros Hid Hmode Hcheck Hlen. pose proof (checked_unmarked _ Hcheck) as Hc.
  set (front := text_of (rpc_open id) ++ text_of "<edit-config><target><candidate/></target>" ++
    text_of ("<default-operation>" +:+ mode +:+ "</default-operation>") ++ text_of "<config>").
  set (back := text_of "</config></edit-config>" ++ text_of "</rpc>").
  assert (rpc_message id (edit_body mode candidate) = front ++ candidate ++ back) as E.
  { unfold rpc_message, edit_body, front, back. by rewrite <- !app_assoc. }
  assert (unmarked (front ++ candidate ++ back)) as Hun.
  { apply enclosed_unmarked; [|unfold back; rewrite not_elem_of_app; split; apply text_plain; by vm_compute|done|done].
    unfold front. pose proof (rpc_open_plain id Hid).
    repeat (rewrite not_elem_of_app; split); try done; destruct Hmode as [-> | ->]; apply text_plain; by vm_compute. }
  rewrite E in *. assert (front ++ candidate ++ back ≠ []) as Hne by (unfold front, rpc_open; done).
  destruct chunked; cbn [receive frame_bytes].
  - pose proof (readChunked_chunks [front ++ candidate ++ back] rest) as Hr. cbn [map concat] in Hr. rewrite app_nil_r in Hr.
    unfold chunk_bytes, end_of_chunks in Hr. rewrite <- !app_assoc in Hr |- *. apply Hr; [done|by constructor|done].
  - rewrite <- (app_assoc _ netconfEOM). by apply readEOM_message.
Qed.

(** ** Runs *)

Definition marker_free (msg : bytes) : bool :=
  forallb (λ k, negb (HasPrefix (drop k (msg ++ netconfEOM)) netconfEOM) || (k =? length msg)%nat) (seq 0 (S (length (msg ++ netconfEOM)))).

Lemma receive_framed_witness :
  receive false (frame_bytes false (text_of "<ok>]]>]]</ok>") ++ text_of "<next/>]]>]]>") =
    Some (inl (text_of "<ok>]]>]]</ok>", text_of "<next/>]]>]]>")) ∧
  receive true (frame_bytes true (text_of "<ok>]]>]]></ok>") ++ text_of "more") = Some (inl (text_of "<ok>]]>]]></ok>", text_of "more")).
Proof.
  split.
  - apply (receive_framed false (text_of "<ok>]]>]]</ok>")); [done|by vm_compute|]. intros _.
    unfold unmarked. apply occurs_checked; [done|]. by vm_compute.
  - apply (receive_framed true (text_of "<ok>]]>]]></ok>")); [done|by vm_compute|done].
Defined.

(** A message that ends like the front of the marker is cut short. *)
Example marker_overlap : receive false (frame_bytes false (text_of "<a/>]]>")) = Some (inl (text_of "<a/>", text_of "]]>")).
Proof. by vm_compute. Qed.

(** One element and nothing else, as [encoding/xml] reads it. *)
Definition one_element : XmlDecoder := {| xml_tokens := λ _, ([StartElement; EndElement], None) |}.

Lemma edit_is_one_message_witness :
  let msg := rpc_message 2 (edit_body PushMerge (text_of "<system/>")) in
  receive false (frame_bytes false msg ++ frame_bytes false (rpc_message 3 lock_body)) = Some (inl (msg, frame_bytes false (rpc_message 3 lock_body))).
Proof.
  apply (edit_is_one_message (H := one_element) false 2 PushMerge (text_of "<system/>")); [done|by left|by vm_compute|by vm_compute].
Defined.

Definition tag (name : string) : start_tag := MkTag ([], text_of name) [].
Definition spaced_forest : list xml_node :=
  [Text (text_of " "); Elem (tag "system") [Text newline_text; Elem (tag "host-name") [Text (text_of " sw1 ")]; Elem (tag "no-ssh") []]].
Definition spaced_tokens : XmlRaw := {| raw_tokens := λ _, (concat (map tokens_of spaced_forest), false) |}.
Definition rendered : bytes :=
  text_of "<system>" ++ newline_text ++ text_of "  <host-name>sw1</host-name>" ++ newline_text ++
  text_of "  <no-ssh/>" ++ newline_text ++ text_of "</system>" ++ newline_text.
Lemma indentXML_tree_witness : indentXML (H := spaced_tokens) [] = Some rendered.
Proof. rewrite (indentXML_tree (H := spaced_tokens) [] spaced_forest) by done. by vm_compute. Defined.

(** A token that closes what was not opened would panic; a reply's data is
    well-formed, so none comes. *)
Example stray_end_panics : indentXML (H := {| raw_tokens := λ _, ([RawEnd ([], text_of "a")], false) |}) [] = None.
Proof. by vm_compute. Qed.
