(* ===== verification/CliPush.v ===== *)
(** * Push dialogues (src/internal/deviceconfig/cli_push.go, ssh.go)

    The dry run, commit, confirm and roll-back of each platform, as dialogues
    of one login, and the fetcher that picks them. A contract over all of them
    ([permits]) says what each step may make the device do. *)
From Stdlib Require Import ZArith Lia Ascii.
From stdpp Require Import base sets list strings pretty.
From S2P Require Import Prelude GoBase GoText IosConfig Effects ConfigStore ConfigBackup ConfigPush CliShell Dialogue Netconf.
#[local] Open Scope prog_scope.

(** ** Shells *)

(** A shell's prompt name, and the prompt it opened at. *)
Record shell : Type := MkSh { sh_name : bytes; sh_last : bytes }.

Definition strings_of (msgs : list bytes) : list string := map string_of msgs.
Definition command_error (command : string) (msgs : list bytes) : err :=
  cmd_err (command +:+ joinMessages (strings_of msgs)).

Definition bind_err {A} (p : dialogue (A + err)) (f : A → dialogue (option err)) : dialogue (option err) :=
  pbind p (λ r, match r with inl a => f a | inr e => Ret (Some e) end).
Definition then_err (p : dialogue (option err)) (f : dialogue (option err)) : dialogue (option err) :=
  pbind p (λ r, match r with None => f | Some e => Ret (Some e) end).
Notation "x <~? p ; f" := (bind_err p (λ x, f)) (at level 20, p at level 100, f at level 200, right associativity) : prog_scope.
Notation "'check' p ; f" := (then_err p f) (at level 20, p at level 100, f at level 200, right associativity) : prog_scope.
Notation "'quietly' p ; f" := (pbind p (λ _, f)) (at level 20, p at level 100, f at level 200, right associativity) : prog_scope.

Definition openShell : dialogue (shell + err) :=
  r <~ say StartShell;
  Ret match r with inl (name, last) => inl (MkSh name last) | inr e => inr e end.

(** [junosCommand] and [cliCommand]: a command and the errors it printed. *)
Definition checked_command (errors : bytes → list bytes) (command : string) : dialogue (option err) :=
  out <~? say (Run command);
  Ret match errors out with [] => None | msgs => Some (command_error command msgs) end.
Definition junosCommand : string → dialogue (option err) := checked_command junosErrors.
Definition cliCommand : string → dialogue (option err) := checked_command cliErrors.

Definition exit_text : bytes := text_of "exit" ++ newline_text.
Definition leave : dialogue (option err) := say (SendText exit_text).

(** ** Junos *)

Definition with_newline (text : bytes) : bytes := if HasSuffix text newline_text then text else text ++ newline_text.

(** [junosLoad] *)
Definition load_verb (mode : string) : string := if bool_decide (mode = PushReplace) then "override" else "merge".
Definition load_done : bytes := text_of "load complete".
Definition load_result (all : bytes) (i : Z) : option (option err) :=
  rest ← slice_from all (i + len load_done);
  above ← slice all 0 i;
  let summary := before_sep rest newline in
  Some (if bool_decide (TrimSpace summary = []) then None
        else Some (cmd_err ("the device rejected the candidate (load complete" +:+ string_of summary +:+ ")" +:+
          joinMessages (strings_of (junosLoadErrors above))))).
Definition junosLoad (mode : string) (candidate : bytes) : dialogue (option err) :=
  check say (SendText (text_of ("load " +:+ load_verb mode +:+ " terminal") ++ newline_text));
  _ <~? say (Expect LoadReady);
  r <~? say (SendThrough (with_newline (crlf_to_lf candidate) ++ [4]) load_done);
  let '(all, i, _) := r in
  match load_result all i with None => panic | Some r => Ret r end.

(** [junosCommitCommand] *)
Definition commit_complete (out : bytes) : bool :=
  bool_decide (junosErrors out = []) && Contains out (text_of "commit complete").
Definition junosCommitCommand (command : string) : dialogue (option err) :=
  out <~? say (Run command);
  Ret (if commit_complete out then None
       else Some (cmd_err (command +:+ " did not complete" +:+ joinMessages (strings_of (junosErrors out))))).

(** [junosPrivate] *)
Definition join_semicolons (msgs : list bytes) : string := join_with "; " (strings_of msgs).
Definition junosPrivate {A} (none : A) (fn : dialogue (A * option err)) : dialogue (A * option err) :=
  s <~ openShell;
  match s with
  | inr e => Ret (none, Some e)
  | inl _ =>
      out <~ say (Run "configure private");
      match out with
      | inr e => Ret (none, Some e)
      | inl out =>
          match junosErrors out with
          | [] =>
              r <~ fn;
              cleanup <~ (check junosCommand "rollback 0"; junosCommand "exit configuration-mode");
              quietly leave;
              Ret (r.1, match r.2 with Some e => Some e | None => cleanup end)
          | msgs => Ret (none, Some (PlanRefusedError ("the device refused a private candidate: " +:+ join_semicolons msgs)))
          end
      end
  end.
Definition only_err (p : dialogue (option err)) : dialogue (unit * option err) := pbind p (λ e, Ret ((), e)).
Definition junosPrivate_ (fn : dialogue (option err)) : dialogue (option err) :=
  pbind (junosPrivate () (only_err fn)) (λ r, Ret r.2).

Definition no_diff : DryRunResult := MkDryRun [] 0 0.
Definition show_compare : string := "show | compare | no-more".
Definition as_result {A} (r : A * option err) : A + err := match r.2 with None => inl r.1 | Some e => inr e end.

Definition junosDryRun (req : DeviceRequest) : dialogue (DryRunResult + err) :=
  pbind (junosPrivate no_diff
    (loaded <~ junosLoad (dr_Mode req) (dr_Candidate req);
     match loaded with
     | Some e => Ret (no_diff, Some e)
     | None =>
         diff <~ say (Run show_compare);
         Ret match diff with
         | inr e => (no_diff, Some e)
         | inl diff =>
             match junosErrors diff with
             | [] => (deviceDiff (trimEditBanner diff), None)
             | msgs => (no_diff, Some (command_error "show | compare" msgs))
             end
         end
     end)) (λ r, Ret (as_result r)).

Definition commit_confirmed : string := "commit confirmed " +:+ itoa window_minutes.
Definition junosCommit (req : DeviceRequest) : dialogue (option err) :=
  junosPrivate_ (check junosLoad (dr_Mode req) (dr_Candidate req); junosCommitCommand commit_confirmed).
Definition junosConfirm (req : DeviceRequest) : dialogue (option err) := junosPrivate_ (junosCommitCommand "commit").
Definition show_history : string := "run show system commit | no-more".
Definition junosRollback (req : DeviceRequest) : dialogue (option err) :=
  junosPrivate_
    (history <~? say (Run show_history);
     if negb (junosNewestCommitPending history)
     then Ret (Some (cmd_err "the newest commit on the device is no longer the pending one"))
     else check junosCommand "rollback 1"; junosCommitCommand "commit").

(** ** Typed candidates *)

(** [openPrivileged] *)
Definition raised (last : bytes) : bool := HasSuffix (TrimSpace last) (text_of "#").
Definition unprivileged (last : bytes) : bool := HasSuffix (TrimSpace last) (text_of ">").
Definition openPrivileged : dialogue (shell + err) :=
  s <~! openShell;
  if negb (unprivileged (sh_last s)) then Ret (inl s)
  else
    must say (SendText (text_of "enable" ++ newline_text));
    last <~! say (Expect PromptOrPassword);
    if negb (raised last) then
      quietly say (SendText [3]);
      Ret (inr (PlanRefusedError "the push credential needs privilege 15: the device asked for an enable password"))
    else Ret (inl (MkSh (sh_name s) last)).

(** [typeCandidate] *)
Definition marker_of (random : bytes) : bytes := text_of "! " ++ session_name random ++ newline_text.
Definition typed_text (candidate : bytes) : bytes := concat (map (λ l, l.1 ++ newline_text) (typed candidate)).
Definition typed_errors (s : shell) (candidate all : bytes) (i : Z) : option (list bytes) :=
  above ← slice all 0 i; Some (loadErrors (sh_name s) above (map snd (typed candidate))).
Definition type_result (s : shell) (candidate : bytes) (mode : string) (all : bytes) (i : Z) (last : bytes) : option (option err) :=
  msgs ← typed_errors s candidate all i;
  Some match msgs with
  | [] => if Contains last (text_of mode) then None else Some (cmd_err "the candidate left configuration mode")
  | _ => Some (cmd_err ("the device rejected the candidate" +:+ joinMessages (strings_of msgs)))
  end.
Definition random_name : dialogue (bytes + err) :=
  r <~ say Random;
  Ret match r with inl b => inl b | inr e => inr (wrap_err "name the configuration session" e) end.
Definition typeCandidate (s : shell) (candidate : bytes) (mode : string) : dialogue (option err) :=
  random <~? random_name;
  r <~? say (SendThrough (typed_text candidate ++ marker_of random) (marker_of random));
  let '(all, i, last) := r in
  match type_result s candidate mode all i last with None => panic | Some r => Ret r end.

(** ** EOS *)

Definition eosLoad (s : shell) (mode : string) (candidate : bytes) : dialogue (option err) :=
  check (if bool_decide (mode = PushReplace) then cliCommand "rollback clean-config" else Ret None);
  typeCandidate s candidate "(config-s-".

Definition eosSession {A} (name : string) (none : A) (fn : dialogue (A * option err)) : dialogue (A * option err) :=
  opened <~ cliCommand ("configure session " +:+ name);
  match opened with
  | Some e => Ret (none, Some e)
  | None =>
      r <~ fn;
      aborted <~ cliCommand "abort";
      quietly leave;
      Ret (r.1, Join [r.2; aborted])
  end.

Definition show_diffs : string := "show session-config diffs | no-more".
Definition eosDryRun (req : DeviceRequest) : dialogue (DryRunResult + err) :=
  s <~! openPrivileged;
  random <~! random_name;
  pbind (eosSession (string_of (session_name random)) no_diff
    (loaded <~ eosLoad s (dr_Mode req) (dr_Candidate req);
     match loaded with
     | Some e => Ret (no_diff, Some e)
     | None =>
         diff <~ say (Run show_diffs);
         Ret match diff with
         | inr e => (no_diff, Some e)
         | inl diff =>
             match cliErrors diff with
             | [] => (deviceDiff diff, None)
             | msgs => (no_diff, Some (command_error "show session-config diffs" msgs))
             end
         end
     end)) (λ r, Ret (as_result r)).

(** [time.Time{}.Add(d).Format(time.TimeOnly)] *)
Definition two_digits (n : Z) : string := if n <? 10 then "0" +:+ itoa n else itoa n.
Definition time_only (d : Z) : string :=
  two_digits (d / hour mod 24) +:+ ":" +:+ two_digits (d / minute mod 60) +:+ ":" +:+ two_digits (d / second mod 60).
Definition commit_timer : string := "commit timer " +:+ time_only ConfirmWindow.
Definition eos_session (req : DeviceRequest) : string := "configure session " +:+ dr_CommitID req.

Definition eosCommit (req : DeviceRequest) : dialogue (option err) :=
  s <~? openPrivileged;
  check cliCommand (eos_session req);
  loaded <~ eosLoad s (dr_Mode req) (dr_Candidate req);
  match loaded with
  | Some e => aborted <~ cliCommand "abort"; Ret (Join [Some e; aborted])
  | None =>
      e <~ cliCommand commit_timer;
      quietly leave;
      Ret e
  end.

(** [saveStartup] *)
Definition saveStartup : dialogue (option err) :=
  e <~ cliCommand "write memory";
  quietly leave;
  Ret (Both ErrStartupNotSaved ": " <$> e).

Definition eosConfirm (req : DeviceRequest) : dialogue (option err) :=
  _ <~? openPrivileged;
  check cliCommand (eos_session req +:+ " commit");
  saveStartup.
Definition eosRollback (req : DeviceRequest) : dialogue (option err) :=
  _ <~? openPrivileged;
  e <~ cliCommand (eos_session req +:+ " abort");
  quietly leave;
  Ret e.

(** ** IOS *)

Definition revert_timer : string := "configure terminal revert timer " +:+ itoa window_minutes.
Definition revert_now : string := "configure revert now".
Definition show_timer : string := "show archive config rollback timer".

(** [iosMerge] *)
Definition iosMerge (req : DeviceRequest) : dialogue (option err) :=
  s <~? openPrivileged;
  check cliCommand revert_timer;
  loaded <~ typeCandidate s (dr_Candidate req) "(config";
  e <~ (match loaded with
        | None => cliCommand "end"
        | Some _ => quietly cliCommand "end"; cliCommand revert_now
        end);
  quietly leave;
  Ret (Join [loaded; e]).

(** [iosRevertPending] *)
Definition iosRevertPending : dialogue (option err) :=
  pending <~ cliCommand show_timer;
  match pending with
  | Some _ => Ret (Some (cmd_err "no revert timer is pending on the device"))
  | None => cliCommand revert_now
  end.

(** [iosConfigureReplace] *)
Definition replace_command (file : string) : string :=
  "configure replace " +:+ file +:+ " force time " +:+ itoa window_minutes.
Definition iosConfigureReplace (file : string) : dialogue (option err) :=
  out <~? say (Run (replace_command file));
  if bool_decide (cliErrors out = []) && Contains out (text_of "Rollback Done") then Ret None
  else
    reverted <~ iosRevertPending;
    Ret (Join [Some (cmd_err ("configure replace did not complete" +:+ joinMessages (strings_of (cliErrors out)))); reverted]).

(** [iosReplace] *)
Definition candidate_file (req : DeviceRequest) : string := "flash:" +:+ dr_CommitID req +:+ ".cfg".
Definition delete_force (file : string) : string := "delete /force " +:+ file.
Definition iosReplace (req : DeviceRequest) : dialogue (option err) :=
  let file := candidate_file req in
  copied <~ say (ScpSink file (with_newline (crlf_to_lf (dr_Candidate req))));
  onSession Some
    (s <~ openPrivileged;
     match s with
     | inr e => Ret (Join [copied; Some e])
     | inl _ =>
         errs <~ (match copied with
                  | None => replaced <~ iosConfigureReplace file; deleted <~ cliCommand (delete_force file); Ret (replaced, deleted)
                  | Some _ => quietly cliCommand (delete_force file); Ret (None, None)
                  end);
         quietly leave;
         Ret (Join [copied; errs.1; errs.2])
     end).

Definition iosCommit (req : DeviceRequest) : dialogue (option err) :=
  if bool_decide (dr_Mode req = PushReplace) then iosReplace req else onSession Some (iosMerge req).
Definition iosConfirm (_ : DeviceRequest) : dialogue (option err) :=
  _ <~? openPrivileged;
  check cliCommand "configure confirm";
  saveStartup.
Definition iosRollback (_ : DeviceRequest) : dialogue (option err) :=
  _ <~? openPrivileged;
  e <~ iosRevertPending;
  quietly leave;
  Ret e.

Definition show_running : string := "show running-config".
Definition iosDryRun `{!Difflib} (req : DeviceRequest) : dialogue (DryRunResult + err) :=
  running <~! say (ExecRun show_running);
  Ret match predictIOS running (dr_Mode req) (dr_Candidate req) with inl r => inl r | inr e => inr (predict_err e) end.

(** ** The fetcher (ssh.go) *)

Section fetcher.
Context `{DL : !Difflib, XU : !XmlUnmarshal, XR : !XmlRaw}.

Definition error_of (p : dialogue (unit + err)) : dialogue (option err) := pbind p (λ r, Ret (failure r)).

Record pushDialogue : Type := MkDialogue {
  pd_dryRun : option (DeviceRequest → dialogue (DryRunResult + err));
  pd_commit : option (DeviceRequest → dialogue (option err));
  pd_confirm : option (DeviceRequest → dialogue (option err));
  pd_rollback : option (DeviceRequest → dialogue (option err)) }.

Definition inSession (step : DeviceRequest → dialogue (option err)) (req : DeviceRequest) : dialogue (option err) :=
  onSession Some (step req).

Definition dialogueFor (p : string) : pushDialogue :=
  if bool_decide (p = PlatformNETCONF)
  then MkDialogue (Some netconfDryRun) (Some (inSession (λ req, error_of (netconfCommit req))))
         (Some (λ req, error_of (netconfConfirm req))) (Some (λ req, error_of (netconfRollback req)))
  else if bool_decide (p = PlatformJuniperJunos)
  then MkDialogue (Some junosDryRun) (Some (inSession junosCommit)) (Some junosConfirm) (Some junosRollback)
  else if bool_decide (p = PlatformAristaEOS)
  then MkDialogue (Some eosDryRun) (Some (inSession eosCommit)) (Some eosConfirm) (Some eosRollback)
  else if bool_decide (p = PlatformCiscoIOS)
  then MkDialogue (Some iosDryRun) (Some iosCommit) (Some iosConfirm) (Some iosRollback)
  else MkDialogue None None None None.

Definition on_client {R} (fail : err → R) (req : DeviceRequest) (fn : dialogue R) : dialogue R :=
  withClient fail (dr_Host req) (dr_Port req) (dr_User req) (dr_Password req) (dr_PinnedHostKey req) fn.
Definition on_session {R} (fail : err → R) (req : DeviceRequest) (fn : dialogue R) : dialogue R :=
  withSession fail (dr_Host req) (dr_Port req) (dr_User req) (dr_Password req) (dr_PinnedHostKey req) fn.

(** [Fetch], [DryRun], [Commit], [pushStep] *)
Definition SSHFetcher_Fetch (req : FetchRequest) : dialogue (bytes + err) :=
  withSession inr (fr_Host req) (fr_Port req) (fr_User req) (fr_Password req) (fr_PinnedHostKey req)
    (if fr_NETCONF req then getRunningConfig else say (ExecRun (fr_Command req))).
Definition SSHFetcher_DryRun (req : DeviceRequest) : dialogue (DryRunResult + err) :=
  match pd_dryRun (dialogueFor (dr_Platform req)) with
  | None => Ret (inr (PlanRefusedError (dr_Platform req +:+ " has no device dry run")))
  | Some dryRun => on_session inr req (dryRun req)
  end.
Definition SSHFetcher_Commit (req : DeviceRequest) : dialogue (option err) :=
  match pd_commit (dialogueFor (dr_Platform req)) with
  | None => Ret (Some (cmd_err ("cannot commit a push on " +:+ dr_Platform req)))
  | Some commit => on_client Some req (commit req)
  end.
Definition pushStep (req : DeviceRequest) (step : string) (fn : option (DeviceRequest → dialogue (option err))) : dialogue (option err) :=
  match fn with
  | None => Ret (Some (cmd_err ("cannot " +:+ step +:+ " a push on " +:+ dr_Platform req)))
  | Some fn => on_session Some req (fn req)
  end.
Definition SSHFetcher_Confirm (req : DeviceRequest) : dialogue (option err) :=
  pushStep req "confirm" (pd_confirm (dialogueFor (dr_Platform req))).
Definition SSHFetcher_Rollback (req : DeviceRequest) : dialogue (option err) :=
  pushStep req "roll back" (pd_rollback (dialogueFor (dr_Platform req))).
End fetcher.

(** ** The contract

    A step is judged by what it has done so far, newest first: each call with
    its answer. [may_run] lists the commands a step may send, and what must
    have been answered before; no other command, text or operation is sent. *)
Inductive purpose : Type := Preview | Apply | Keep | Undo.

Definition event : Type := {c : dcall & dresp c}.
Definition did (c : dcall) (r : dresp c) : event := existT c r.
Definition record (h : list event) (c : dcall) (r : dresp c) : list event := did c r :: h.

(** A command was sent; and answered without an error. *)
Definition ran (h : list event) (command : string) : Prop := ∃ r, did (Run command) r ∈ h.
Definition ran_clean (errors : bytes → list bytes) (h : list event) (command : string) : Prop :=
  ∃ out : bytes, did (Run command) (inl out) ∈ h ∧ errors out = [].

Section contract.
Context `{DL : !Difflib, XU : !XmlUnmarshal, XR : !XmlRaw} (pu : purpose) (req : DeviceRequest).
Notation platform := (dr_Platform req).
Notation candidate := (dr_Candidate req).

Definition plain (name : string) : Prop := space ∉ ascii_bytes name.

(** The device took the whole candidate. *)
Definition load_text : bytes := with_newline (crlf_to_lf candidate) ++ [4].
Definition loaded_clean (h : list event) : Prop :=
  ∃ all i last, did (SendThrough load_text load_done) (inl (all, i, last)) ∈ h ∧ load_result all i = Some None.
Definition typed_clean (mode : string) (h : list event) : Prop :=
  ∃ s marker all i last, did (SendThrough (typed_text candidate ++ marker) marker) (inl (all, i, last)) ∈ h ∧
    type_result s candidate mode all i last = Some None.

(** A session of the dialogue's own is open. *)
Definition session_open (h : list event) : Prop := ∃ name, plain name ∧ ran_clean cliErrors h ("configure session " +:+ name).

(** An operation was answered without an error. *)
Definition answered (op : string) (body : bytes) (h : list event) : Prop :=
  ∃ ch id msg reply h1 h2,
    h = h2 ++ did (NcReceive ch) (inl msg) :: did (NcSend ch id body) None :: h1 ∧ parseReply msg op = inl reply.
Definition sent (body : bytes) (h : list event) : Prop := ∃ ch id r, did (NcSend ch id body) r ∈ h.
(** The candidate datastore is locked. *)
Definition lock_held (h : list event) : Prop :=
  ∃ h1 h2, h = h2 ++ h1 ∧ answered "lock" lock_body h1 ∧ ¬ sent unlock_body h2.

(** What is typed into configuration mode: each line of the candidate that says
    something, less its trailing blanks, as one line with no keystroke in it
    but tabs, and beginning with none of the words that would leave the
    mode or run a command. *)
Definition leaving : list string :=
  if bool_decide (platform = PlatformAristaEOS)
  then ["abort"; "bash"; "clear"; "commit"; "configure"; "copy"; "delete"; "disable"; "do"; "enable"; "end"; "exit";
        "reload"; "rename"; "rollback"; "send"; "terminal"; "write"]%string
  else ["do"; "exit"]%string.
Definition tame : Prop :=
  ∀ l n, (l, n) ∈ typed candidate →
    newline ∉ l ∧ has_control l = false ∧
    ∃ raw, raw ∈ Split (crlf_to_lf candidate) newline ∧ l = TrimRight raw [space; tab] ∧
      (∀ w, w ∈ leaving → before_sep (TrimSpace raw) space ≠ ascii_bytes w) ∧ TrimSpace raw ≠ ascii_bytes "end".

(** What is loaded on Junos holds no keystroke, which could end the load. *)
Definition steady : Prop := ∀ raw, raw ∈ Split (crlf_to_lf candidate) newline → has_control raw = false.

Inductive harmless : string → Prop :=
| h_junos c : platform = PlatformJuniperJunos →
    c ∈ ["configure private"; "rollback 0"; "exit configuration-mode"; show_compare; show_history]%string → harmless c
| h_eos c : platform = PlatformAristaEOS → c ∈ ["rollback clean-config"; "abort"; show_diffs]%string → harmless c
| h_eos_open name : platform = PlatformAristaEOS → plain name → harmless ("configure session " +:+ name)
| h_ios c : platform = PlatformCiscoIOS → c ∈ ["end"; show_timer; delete_force (candidate_file req)]%string → harmless c.

Inductive may_run (h : list event) : string → Prop :=
| run_harmless c : harmless c → may_run h c
(* a commit the device reverts by itself, of a candidate it took *)
| run_commit_confirmed : platform = PlatformJuniperJunos → pu = Apply → loaded_clean h → may_run h commit_confirmed
| run_commit_timer : platform = PlatformAristaEOS → pu = Apply → typed_clean "(config-s-" h → may_run h commit_timer
| run_revert_timer : platform = PlatformCiscoIOS → pu = Apply → may_run h revert_timer
| run_replace : platform = PlatformCiscoIOS → pu = Apply → may_run h (replace_command (candidate_file req))
(* a revert of what is pending *)
| run_revert_now : platform = PlatformCiscoIOS → pu = Apply ∨ pu = Undo →
    ran_clean cliErrors h show_timer ∨ ran_clean cliErrors h revert_timer → may_run h revert_now
| run_rollback_1 history : platform = PlatformJuniperJunos → pu = Undo →
    did (Run show_history) (inl history) ∈ h → junosNewestCommitPending history = true → may_run h "rollback 1"
| run_commit_back : platform = PlatformJuniperJunos → pu = Undo → ran_clean junosErrors h "rollback 1" → may_run h "commit"
| run_session_abort : platform = PlatformAristaEOS → pu = Undo → may_run h (eos_session req +:+ " abort")
(* what makes a change permanent *)
| run_commit : platform = PlatformJuniperJunos → pu = Keep → may_run h "commit"
| run_session_commit : platform = PlatformAristaEOS → pu = Keep → may_run h (eos_session req +:+ " commit")
| run_confirm : platform = PlatformCiscoIOS → pu = Keep → may_run h "configure confirm"
| run_save : pu = Keep →
    ran_clean cliErrors h (eos_session req +:+ " commit") ∨ ran_clean cliErrors h "configure confirm" → may_run h "write memory".

Inductive may_rpc (h : list event) : bytes → Prop :=
| rpc_look body : body ∈ [lock_body; close_body; get_config_body "running"; get_config_body "candidate"] → may_rpc h body
| rpc_edit : lock_held h → pu = Apply ∨ pu = Preview → may_rpc h (edit_body (dr_Mode req) candidate)
| rpc_locked body : lock_held h → body ∈ [validate_body; discard_body; unlock_body] → may_rpc h body
| rpc_commit : lock_held h → pu = Apply → answered "edit-config" (edit_body (dr_Mode req) candidate) h →
    may_rpc h (commit_body (dr_CommitID req))
| rpc_confirm : pu = Keep → may_rpc h (confirm_body (dr_CommitID req))
| rpc_cancel : pu = Undo → may_rpc h (cancel_body (dr_CommitID req)).

Definition permits (h : list event) (c : dcall) : Prop :=
  match c with
  | Run command => may_run h command
  | SendText text => text ∈ [exit_text; text_of "enable" ++ newline_text; [3]] ∨
      (platform = PlatformJuniperJunos ∧ ran_clean junosErrors h "configure private" ∧
       text = text_of ("load " +:+ load_verb (dr_Mode req) +:+ " terminal") ++ newline_text)
  | SendThrough text marker => (pu = Apply ∨ pu = Preview) ∧
      ((platform = PlatformJuniperJunos ∧ ran_clean junosErrors h "configure private" ∧ steady ∧ text = load_text ∧ marker = load_done) ∨
       (text = typed_text candidate ++ marker ∧ tame ∧
        ((platform = PlatformAristaEOS ∧ session_open h) ∨
         (platform = PlatformCiscoIOS ∧ pu = Apply ∧ ran_clean cliErrors h revert_timer))))
  | ExecRun command => platform = PlatformCiscoIOS ∧ command = show_running
  | ScpSink path text => platform = PlatformCiscoIOS ∧ pu = Apply ∧ path = candidate_file req
  | ScpImage _ _ => False
  | NcSend _ _ body => platform = PlatformNETCONF ∧ may_rpc h body
  | _ => True
  end.

(** What may be answered: random bytes are bytes, and no error is the code's
    own word on the startup configuration. *)
Definition foreign (e : err) : Prop := Is e ErrStartupNotSaved = false.
Definition foreign_or {A} (P : A → Prop) (r : A + err) : Prop := match r with inl a => P a | inr e => foreign e end.
Definition foreign_opt (r : option err) : Prop := match r with Some e => foreign e | None => True end.
Definition answers (c : dcall) : dresp c → Prop :=
  match c with
  | Random => foreign_or (Forall is_byte)
  | StartShell | Run _ | Expect _ | ExecRun _ | NcReceive _ | SendThrough _ _ => foreign_or (λ _, True)
  | Handshake _ _ _ => λ p, foreign_opt (pk_error p)
  | Panic => λ _, True
  | _ => foreign_opt
  end.

Abbreviation ok := (obeys permits answers record).

(** ** Rules *)

Lemma ok_say c (Q : dresp c → list event → Prop) h :
  permits h c → (∀ r, answers c r → Q r (did c r :: h)) → ok (say c) Q h.
Proof. by intros; split. Qed.

Lemma ok_bind_err {A} (p : dialogue (A + err)) f Q h :
  ok p (λ r h, match r with inl a => ok (f a) Q h | inr e => Q (Some e) h end) h → ok (bind_err p f) Q h.
Proof. intros H. apply obeys_bind. eapply obeys_mono; [|exact H]. by intros [a|e]. Qed.

Lemma ok_then p f Q h : ok p (λ r h, match r with None => ok f Q h | Some e => Q (Some e) h end) h → ok (then_err p f) Q h.
Proof. intros H. apply obeys_bind. eapply obeys_mono; [|exact H]. by intros [e|]. Qed.

(** A checked command: sent, and without an error only if the device printed
    none. *)
Lemma ok_command errors command (Q : option err → list event → Prop) h :
  may_run h command →
  (∀ (out : bytes), errors out = [] → Q None (did (Run command) (inl out) :: h)) →
  (∀ e r, foreign e → (∀ out : bytes, r = inl out → errors out ≠ []) → Q (Some e) (did (Run command) r :: h)) →
  ok (checked_command errors command) Q h.
Proof.
  intros Hp Hnone Hsome. apply ok_bind_err, ok_say; [done|]. intros [out|e] Hr; cbn in *; [|by apply Hsome].
  destruct (errors out) as [|m ms] eqn:E; [by apply Hnone|]. apply Hsome; [done|]. intros out' [= <-]. by rewrite E.
Qed.

Lemma ok_panic {A} (Q : A → list event → Prop) h : ok panic Q h.
Proof. by split; [|intros []]. Qed.

(** What has been done stays done. *)
Lemma ran_cons h e c : ran h c → ran (e :: h) c.
Proof. intros [r H]. exists r. by right. Qed.
Lemma ran_here h c r : ran (did (Run c) r :: h) c.
Proof. exists r. by left. Qed.
Lemma ran_clean_cons errors h e c : ran_clean errors h c → ran_clean errors (e :: h) c.
Proof. intros (out & H & E). exists out. split; [by right|done]. Qed.
Lemma ran_clean_here errors h c (out : bytes) : errors out = [] → ran_clean errors (did (Run c) (inl out) :: h) c.
Proof. intros E. exists out. split; [by left|done]. Qed.
Lemma loaded_cons h e : loaded_clean h → loaded_clean (e :: h).
Proof. intros (all & i & last & H & E). exists all, i, last. split; [by right|done]. Qed.
Lemma typed_cons mode h e : typed_clean mode h → typed_clean mode (e :: h).
Proof. intros (s & m & all & i & last & H & E). exists s, m, all, i, last. split; [by right|done]. Qed.
Lemma session_cons h e : session_open h → session_open (e :: h).
Proof. intros (name & Hp & H). exists name. split; [done|by apply ran_clean_cons]. Qed.

(** ** What a step promises *)

(** The device has the change, under its own timer. *)
Definition committed (h : list event) : Prop :=
  (platform = PlatformJuniperJunos ∧ loaded_clean h ∧
   ∃ out : bytes, did (Run commit_confirmed) (inl out) ∈ h ∧ commit_complete out = true) ∨
  (platform = PlatformAristaEOS ∧ typed_clean "(config-s-" h ∧ ran_clean cliErrors h commit_timer) ∨
  (platform = PlatformCiscoIOS ∧ ran_clean cliErrors h revert_timer ∧ typed_clean "(config" h) ∨
  (platform = PlatformCiscoIOS ∧ ran_clean cliErrors h (delete_force (candidate_file req)) ∧
   ∃ out : bytes, did (Run (replace_command (candidate_file req))) (inl out) ∈ h ∧ cliErrors out = [] ∧
     Contains out (text_of "Rollback Done") = true) ∨
  (platform = PlatformNETCONF ∧ answered "commit" (commit_body (dr_CommitID req)) h).

(** The device keeps the change. *)
Definition kept (h : list event) : Prop :=
  (platform = PlatformJuniperJunos ∧ ∃ out : bytes, did (Run "commit") (inl out) ∈ h ∧ commit_complete out = true) ∨
  (platform = PlatformAristaEOS ∧ ran_clean cliErrors h (eos_session req +:+ " commit")) ∨
  (platform = PlatformCiscoIOS ∧ ran_clean cliErrors h "configure confirm") ∨
  (platform = PlatformNETCONF ∧ answered "commit" (confirm_body (dr_CommitID req)) h).
Definition saved (h : list event) : Prop :=
  platform = PlatformJuniperJunos ∨ platform = PlatformNETCONF ∨ ran_clean cliErrors h "write memory".

(** The device has undone it. *)
Definition undone (h : list event) : Prop :=
  (platform = PlatformJuniperJunos ∧ ran_clean junosErrors h "rollback 1" ∧
   ∃ out : bytes, did (Run "commit") (inl out) ∈ h ∧ commit_complete out = true) ∨
  (platform = PlatformAristaEOS ∧ ran_clean cliErrors h (eos_session req +:+ " abort")) ∨
  (platform = PlatformCiscoIOS ∧ ran_clean cliErrors h show_timer ∧ ran_clean cliErrors h revert_now) ∨
  (platform = PlatformNETCONF ∧ answered "cancel-commit" (cancel_body (dr_CommitID req)) h).

(** The device took the command that empties what was opened. *)
Definition emptied (h : list event) : Prop :=
  (platform = PlatformJuniperJunos → ran_clean junosErrors h "rollback 0") ∧
  (platform = PlatformAristaEOS → pu = Preview → ran_clean cliErrors h "abort") ∧
  (platform = PlatformNETCONF → answered "discard-changes" discard_body h ∧ answered "unlock" unlock_body h).

Definition claim (res : option err) (h : list event) : Prop :=
  match pu with
  | Preview => res = None → emptied h
  | Apply => res = None → committed h ∧ emptied h
  | Keep => (res = None → kept h ∧ saved h) ∧ (∀ e, res = Some e → Is e ErrStartupNotSaved = true → kept h)
  | Undo => res = None → undone h
  end.

(** What was opened is asked to be emptied, whatever the device then answers:
    a private candidate rolled back, a session committed or aborted, a
    rejected candidate reverted, the candidate datastore discarded and
    unlocked. *)
Definition tidy (h : list event) : Prop :=
  (platform = PlatformJuniperJunos → ¬ ran_clean junosErrors h "configure private" ∨ ran h "rollback 0") ∧
  (platform = PlatformAristaEOS → pu = Apply ∨ pu = Preview →
   ¬ session_open h ∨ ran h "abort" ∨ (pu = Apply ∧ typed_clean "(config-s-" h ∧ ran h commit_timer)) ∧
  (platform = PlatformCiscoIOS → pu = Apply →
   ¬ ran_clean cliErrors h revert_timer ∨ typed_clean "(config" h ∨ ran h revert_now) ∧
  (platform = PlatformNETCONF → ¬ sent (edit_body (dr_Mode req) candidate) h ∨ (sent discard_body h ∧ sent unlock_body h)).

Definition promise (res : option err) (h : list event) : Prop := claim res h ∧ tidy h.

(** Events that ask nothing of the device's configuration. *)
Definition neutral (e : event) : Prop :=
  match projT1 e with Run _ | SendThrough _ _ | NcSend _ _ _ => False | _ => True end.
Definition fresh (h : list event) : Prop := Forall neutral h.

Definition as_run (e : event) : option (string * (bytes + err)) :=
  match e with existT (Run c) r => Some (c, r) | _ => None end.
Definition as_sent (e : event) : option bytes := match e with existT (NcSend _ _ body) _ => Some body | _ => None end.

Lemma fresh_run h c r : fresh h → did (Run c) r ∉ h.
Proof. unfold fresh. rewrite Forall_forall. intros Hf Hin. by apply Hf in Hin. Qed.
Lemma fresh_sent h ch id body r : fresh h → did (NcSend ch id body) r ∉ h.
Proof. unfold fresh. rewrite Forall_forall. intros Hf Hin. by apply Hf in Hin. Qed.

Lemma not_ran_cons errors h e c : (∀ out, as_run e = Some (c, inl out) → errors out ≠ []) → ¬ ran_clean errors h c → ¬ ran_clean errors (e :: h) c.
Proof.
  intros He Hh (out & Hin & E). apply elem_of_cons in Hin as [<-|Hin]; [by apply (He out)|]. apply Hh. by exists out.
Qed.
Lemma not_ran_fresh errors h c : fresh h → ¬ ran_clean errors h c.
Proof. intros Hf (out & Hin & _). by eapply fresh_run. Qed.
Lemma not_open_cons h e : (∀ name out, as_run e ≠ Some ("configure session " +:+ name, inl out) ∨ cliErrors out ≠ [] ∨ ¬ plain name) →
  ¬ session_open h → ¬ session_open (e :: h).
Proof.
  intros He Hh (name & Hp & out & Hin & E). apply elem_of_cons in Hin as [<-|Hin].
  - destruct (He name out) as [H|[H|H] ]; by apply H.
  - apply Hh. exists name. split; [done|]. by exists out.
Qed.
Lemma not_open_fresh h : fresh h → ¬ session_open h.
Proof. intros Hf (name & _ & H). by eapply not_ran_fresh. Qed.
Lemma not_sent_cons body h e : as_sent e ≠ Some body → ¬ sent body h → ¬ sent body (e :: h).
Proof.
  intros He Hh (ch & id & r & Hin). apply elem_of_cons in Hin as [<-|Hin]; [by apply He|]. apply Hh. by exists ch, id, r.
Qed.
Lemma not_sent_fresh body h : fresh h → ¬ sent body h.
Proof. intros Hf (ch & id & r & Hin). by eapply fresh_sent. Qed.
Lemma sent_cons body h e : sent body h → sent body (e :: h).
Proof. intros (ch & id & r & Hin). exists ch, id, r. by right. Qed.
Lemma sent_here ch id body r h : sent body (did (NcSend ch id body) r :: h).
Proof. exists ch, id, r. by left. Qed.

Create HintDb dialogue.
#[local] Hint Resolve ran_here ran_cons ran_clean_here ran_clean_cons loaded_cons typed_cons session_cons sent_here sent_cons
  not_ran_fresh not_open_fresh not_sent_fresh : dialogue.

(** An event that was no clean answer to a command. *)
Ltac no_run := intros; cbn in *; first [discriminate | congruence | naive_solver].
#[local] Hint Extern 1 (¬ ran_clean _ (_ :: _) _) => apply not_ran_cons; [no_run|] : dialogue.
#[local] Hint Extern 1 (¬ sent _ (_ :: _)) => apply not_sent_cons; [done|] : dialogue.
Ltac facts := eauto 12 with dialogue.

(** ** Junos *)

Lemma tidy_junos h : platform = PlatformJuniperJunos →
  ¬ ran_clean junosErrors h "configure private" ∨ ran h "rollback 0" → tidy h.
Proof. intros Hp H. unfold tidy. rewrite Hp. by repeat split. Qed.

Lemma cons_app (P : list event → Prop) : (∀ e h, P h → P (e :: h)) → ∀ evs h, P h → P (evs ++ h).
Proof. intros HP evs h H. induction evs as [|e evs IH]; [done|]. by apply HP. Qed.
Lemma ran_app evs h c : ran h c → ran (evs ++ h) c.
Proof. apply (cons_app (λ h, ran h c)). intros ???. facts. Qed.
Lemma ran_clean_app errors evs h c : ran_clean errors h c → ran_clean errors (evs ++ h) c.
Proof. apply (cons_app (λ h, ran_clean errors h c)). intros ???. facts. Qed.
Lemma loaded_app evs h : loaded_clean h → loaded_clean (evs ++ h).
Proof. apply cons_app. intros ???. facts. Qed.
#[local] Hint Resolve ran_app ran_clean_app loaded_app : dialogue.

Lemma ok_send text (Q : option err → list event → Prop) h :
  permits h (SendText text) → (∀ r, foreign_opt r → Q r (did (SendText text) r :: h)) → ok (say (SendText text)) Q h.
Proof. intros Hp HQ. apply ok_say; [done|]. intros r Hr. by apply HQ. Qed.

Lemma permits_exit h : permits h (SendText exit_text).
Proof. left. set_solver. Qed.

Lemma ok_open_shell (Q : shell + err → list event → Prop) h :
  (∀ s e, neutral e → Q (inl s) (e :: h)) → (∀ e ev, foreign e → neutral ev → Q (inr e) (ev :: h)) → ok openShell Q h.
Proof. intros Hs He. apply obeys_bind, ok_say; [done|]. intros [ [name last]|e] Hr; [by apply Hs|by apply He]. Qed.
Lemma fresh_cons e h : neutral e → fresh h → fresh (e :: h).
Proof. intros. by constructor. Qed.

Lemma ok_private {A} (none : A) fn (Q : A * option err → list event → Prop) h :
  platform = PlatformJuniperJunos → fresh h →
  (∀ e h', foreign e → tidy h' → Q (none, Some e) h') →
  (∀ h', ran_clean junosErrors h' "configure private" →
     ok fn (λ r h2, ∀ e evs, foreign_opt e → tidy (evs ++ h2) → (e = None → ran_clean junosErrors (evs ++ h2) "rollback 0") →
       Q (r.1, match r.2 with Some e => Some e | None => e end) (evs ++ h2)) h') →
  ok (junosPrivate none fn) Q h.
Proof.
  intros Hp Hf Hearly Hfn. apply obeys_bind, ok_open_shell; intros s ev Hs.
  2: { intros Hev. apply Hearly; [done|]. apply tidy_junos; [done|left]. by apply not_ran_fresh, fresh_cons. }
  apply (fresh_cons _ _ Hs) in Hf.
  apply obeys_bind, ok_say; [by apply run_harmless, h_junos; [|set_solver]|]. intros [out|e] Hout; cbn in Hout.
  2: { apply Hearly; [done|]. apply tidy_junos; [done|left]. facts. }
  destruct (junosErrors out) as [|m ms] eqn:E.
  2: { apply Hearly; [done|]. apply tidy_junos; [done|left]. facts. }
  apply obeys_bind. eapply obeys_mono; [|apply Hfn; facts]. intros r h2 HQ.
  assert (∀ c, c ∈ ["rollback 0"; "exit configuration-mode"]%string → may_run h2 c) as Hrun.
  { intros c Hc. apply run_harmless, h_junos; [done|set_solver]. }
  apply obeys_bind, ok_then, ok_command; [apply Hrun; set_solver| |].
  - intros out' E'. apply ok_command; [apply run_harmless, h_junos; [done|set_solver]| |].
    + intros out'' E''. apply obeys_bind, ok_send; [apply permits_exit|]. intros r' _.
      apply (HQ None [_; _; _]); [done| |intros _; facts]. apply tidy_junos; [done|right]. facts.
    + intros e r' He _. apply obeys_bind, ok_send; [apply permits_exit|]. intros r'' _.
      apply (HQ (Some e) [_; _; _]); [done| |done]. apply tidy_junos; [done|right]. facts.
  - intros e r' He _. apply obeys_bind, ok_send; [apply permits_exit|]. intros r'' _.
    apply (HQ (Some e) [_; _]); [done| |done]. apply tidy_junos; [done|right]. facts.
Qed.

Lemma foreign_cmd text : foreign (cmd_err text).
Proof. done. Qed.
Lemma foreign_refused text : foreign (PlanRefusedError text).
Proof. done. Qed.
Lemma foreign_both e1 between e2 : foreign e1 → foreign e2 → foreign (Both e1 between e2).
Proof.
  unfold foreign, Is. intros H1 H2. cbn [find_err]. rewrite bool_decide_eq_false_2 by done.
  destruct (find_err _ e1); [done|]. by destruct (find_err _ e2).
Qed.
#[local] Hint Resolve foreign_cmd foreign_refused foreign_both : dialogue.

Lemma ok_load (Q : option err → list event → Prop) h :
  platform = PlatformJuniperJunos → pu = Apply ∨ pu = Preview → steady → ran_clean junosErrors h "configure private" →
  (∀ evs, loaded_clean (evs ++ h) → Q None (evs ++ h)) → (∀ e evs, foreign e → Q (Some e) (evs ++ h)) →
  ok (junosLoad (dr_Mode req) candidate) Q h.
Proof.
  intros Hp Hpu Hst Hopen Hnone Hsome. apply ok_then, ok_send.
  { right. done. }
  intros [e|] He; [by apply (Hsome e [_])|]. apply ok_bind_err, ok_say; [done|]. intros [w|e] He'; [|by apply (Hsome e [_; _])].
  apply ok_bind_err, ok_say.
  { split; [done|]. left. split; [done|]. split; [facts|by split]. }
  intros [ [ [all i] last]|e] He''; [|by apply (Hsome e [_; _; _])].
  destruct (load_result all i) as [ [e|]|] eqn:E; [| |apply ok_panic].
  - apply (Hsome e [_; _; _]). revert E. unfold load_result. destruct (slice_from _ _); [|done]. cbn.
    destruct (slice _ _ _); [|done]. cbn. case_bool_decide; [done|]. by intros [= <-].
  - apply (Hnone [_; _; _]). exists all, i, last. split; [by left|done].
Qed.

Lemma ok_commit command (Q : option err → list event → Prop) h :
  may_run h command →
  (∀ (out : bytes), commit_complete out = true → Q None (did (Run command) (inl out) :: h)) →
  (∀ e r, foreign e → Q (Some e) (did (Run command) r :: h)) →
  ok (junosCommitCommand command) Q h.
Proof.
  intros Hp Hnone Hsome. apply ok_bind_err, ok_say; [done|]. intros [out|e] Hr; cbn in *; [|by apply Hsome].
  destruct (commit_complete out) eqn:E; [by apply Hnone|by apply Hsome].
Qed.

(** A private step: what it promises when nothing fails. *)
Lemma ok_private_ fn h : platform = PlatformJuniperJunos → fresh h → pu ≠ Preview →
  (∀ h', ran_clean junosErrors h' "configure private" →
     ok fn (λ r h2, ∀ evs, foreign_opt r ∧
       (r = None → ran_clean junosErrors (evs ++ h2) "rollback 0" → claim None (evs ++ h2))) h') →
  (∀ e h', foreign e → claim (Some e) h') →
  ok (junosPrivate_ fn) (λ res h, foreign_opt res ∧ promise res h) h.
Proof.
  intros Hp Hf Hpu Hfn Hclaim. apply obeys_bind, ok_private; [done|done| |].
  - intros e h' He Ht. split; [done|]. split; [by apply Hclaim|done].
  - intros h' Hopen. apply obeys_bind. eapply obeys_mono; [|by apply Hfn]. intros r h2 HQ e evs He Ht Hrb.
    destruct (HQ evs) as [Hr Hc]. destruct r as [e'|]; cbn.
    + split; [done|]. split; [by apply Hclaim|done].
    + destruct e as [e|]; [split; [done|]; split; [by apply Hclaim|done]|]. split; [done|]. split; [apply Hc; auto|done].
Qed.

Lemma claim_failed e h : pu ≠ Keep ∨ foreign e → claim (Some e) h.
Proof. unfold claim. intros H. destruct pu; try done. destruct H as [H|H]; [done|]. split; [done|]. intros e' [= <-]. by rewrite H. Qed.

Lemma junosCommit_ok h : platform = PlatformJuniperJunos → pu = Apply → steady → fresh h →
  ok (junosCommit req) (λ res h, foreign_opt res ∧ promise res h) h.
Proof.
  intros Hp Hpu Hst Hf. apply ok_private_; [done|done|by rewrite Hpu| |intros; apply claim_failed; by right].
  intros h' Hopen. apply ok_then, ok_load; [done|by left|done|done| |].
  - intros evs Hl. apply ok_commit; [by apply run_commit_confirmed| |].
    + intros out Hout evs'. split; [done|]. intros _ Hrb. unfold claim. rewrite Hpu. intros _.
      split; [|split_and!; [done|by rewrite Hp|by rewrite Hp] ]. left. split; [done|].
      split; [facts|]. exists out. split; [|done]. apply elem_of_app. right. by left.
    + done.
  - intros e evs He evs'. done.
Qed.

Lemma junosConfirm_ok h : platform = PlatformJuniperJunos → pu = Keep → fresh h →
  ok (junosConfirm req) (λ res h, foreign_opt res ∧ promise res h) h.
Proof.
  intros Hp Hpu Hf. apply ok_private_; [done|done|by rewrite Hpu| |intros; apply claim_failed; by right].
  intros h' Hopen. apply ok_commit; [by apply run_commit| |done].
  intros out Hout evs. split; [done|]. intros _ _. unfold claim. rewrite Hpu. split; [|done]. intros _. split; [|by left].
  left. split; [done|]. exists out. split; [|done]. apply elem_of_app. right. by left.
Qed.

Lemma junosRollback_ok h : platform = PlatformJuniperJunos → pu = Undo → fresh h →
  ok (junosRollback req) (λ res h, foreign_opt res ∧ promise res h) h.
Proof.
  intros Hp Hpu Hf. apply ok_private_; [done|done|by rewrite Hpu| |intros; apply claim_failed; by right].
  intros h' Hopen. apply ok_bind_err, ok_say; [apply run_harmless, h_junos; [done|set_solver]|].
  intros [history|e] Hr; [|done]. destruct (junosNewestCommitPending history) eqn:En; [|done]. cbn [negb].
  apply ok_then, ok_command; [by eapply run_rollback_1; [| |left|]| |done].
  intros out Hout. apply ok_commit; [apply run_commit_back; [done|done|facts]| |done].
  intros out' Hout' evs. split; [done|]. intros _ _. unfold claim. rewrite Hpu. intros _. left. split; [done|].
  split; [facts|]. exists out'. split; [|done]. apply elem_of_app. right. by left.
Qed.

(** A preview promises to have emptied what it opened only with a result. *)
Lemma preview_failed e h : pu = Preview → tidy h → promise (Some e) h.
Proof. intros Hpu Ht. split; [by unfold claim; rewrite Hpu|done]. Qed.
Lemma preview_done r h : pu = Preview → tidy h → (r = None → emptied h) → promise r h.
Proof. intros Hpu Ht He. split; [by unfold claim; rewrite Hpu|done]. Qed.
Lemma emptied_junos h : platform = PlatformJuniperJunos → ran_clean junosErrors h "rollback 0" → emptied h.
Proof. intros Hp Hr. split_and!; [done|by rewrite Hp|by rewrite Hp]. Qed.

Lemma junosDryRun_ok h : platform = PlatformJuniperJunos → pu = Preview → steady → fresh h →
  ok (junosDryRun req) (λ r h, promise (failure r) h) h.
Proof.
  intros Hp Hpu Hst Hf. apply obeys_bind, ok_private; [done|done|by intros; apply preview_failed|].
  intros h' Hopen. apply obeys_bind, ok_load; [done|by right|done|done| |].
  - intros evs Hl. apply obeys_bind, ok_say; [apply run_harmless, h_junos; [done|set_solver]|].
    intros r Hr e evs' _ Ht Hrb. apply preview_done; [done|done|]. unfold as_result. cbn [fst snd].
    intros Hn. apply emptied_junos; [done|]. apply Hrb. by destruct e, (match r with inr _ => _ | inl _ => _ end).2.
  - intros e evs _ e' evs' _ Ht _. by apply preview_failed.
Qed.

(** ** Typed candidates *)

Lemma foreign_wrap before e after : foreign e → foreign (Wrapped before e after).
Proof. unfold foreign, Is. intros H. cbn [find_err]. rewrite bool_decide_eq_false_2 by done. by destruct (find_err _ e). Qed.
Lemma fresh_app evs h : Forall neutral evs → fresh h → fresh (evs ++ h).
Proof. intros. by apply Forall_app. Qed.
Lemma typed_app mode evs h : typed_clean mode h → typed_clean mode (evs ++ h).
Proof. apply cons_app. intros ???. facts. Qed.
Lemma session_app evs h : session_open h → session_open (evs ++ h).
Proof. apply cons_app. intros ???. facts. Qed.
#[local] Hint Resolve foreign_wrap typed_app session_app : dialogue.

Lemma ok_privileged (Q : shell + err → list event → Prop) h :
  (∀ s evs, Forall neutral evs → Q (inl s) (evs ++ h)) → (∀ e evs, foreign e → Forall neutral evs → Q (inr e) (evs ++ h)) →
  ok openPrivileged Q h.
Proof.
  intros Hs He. apply obeys_try, ok_open_shell; [|intros e ev ??; apply (He e [ev]); [done|by constructor] ].
  intros s ev Hev. destruct (negb (unprivileged (sh_last s))); [apply (Hs s [ev]); by constructor|].
  apply obeys_do, ok_send; [left; set_solver|]. intros [e|] Hr; [apply (He e [_; ev]); [done|by repeat constructor]|].
  apply obeys_try, ok_say; [done|]. intros [last|e] Hr'; [|apply (He e [_; _; ev]); [done|by repeat constructor] ].
  destruct (negb (raised last)); [|apply (Hs _ [_; _; ev]); by repeat constructor].
  apply obeys_bind, ok_send; [left; set_solver|]. intros r _. apply (He _ [_; _; _; ev]); [facts|by repeat constructor].
Qed.

Lemma ok_random (Q : bytes + err → list event → Prop) h :
  (∀ b ev, Forall is_byte b → neutral ev → Q (inl b) (ev :: h)) → (∀ e ev, foreign e → neutral ev → Q (inr e) (ev :: h)) → ok random_name Q h.
Proof. intros Hb He. apply obeys_bind, ok_say; [done|]. intros [b|e] Hr; [by apply Hb|]. apply He; [|done]. by apply foreign_wrap. Qed.

Lemma ok_type s mode (Q : option err → list event → Prop) h :
  (∀ ev marker, permits (ev :: h) (SendThrough (typed_text candidate ++ marker) marker)) →
  (∀ evs, typed_clean mode (evs ++ h) → Q None (evs ++ h)) → (∀ e evs, foreign e → Q (Some e) (evs ++ h)) →
  ok (typeCandidate s candidate mode) Q h.
Proof.
  intros Hp Hnone Hsome. apply ok_bind_err, ok_random; [|intros e ev He _; by apply (Hsome e [ev])].
  intros b ev _ _. apply ok_bind_err, ok_say; [apply Hp|]. intros [ [ [all i] last]|e] Hr; [|by apply (Hsome e [_; ev])].
  destruct (type_result s candidate mode all i last) as [ [e|]|] eqn:E; [| |apply ok_panic].
  - apply (Hsome e [_; ev]). revert E. unfold type_result. destruct (typed_errors _ _ _ _) as [ [|m ms]|]; cbn; [|by intros [= <-]|done].
    destruct (Contains _ _); [done|]. by intros [= <-].
  - apply (Hnone [_; ev]). exists s, (marker_of b), all, i, last. split; [by left|done].
Qed.

(** ** EOS *)

Lemma tidy_eos h : platform = PlatformAristaEOS →
  (pu = Apply ∨ pu = Preview →
   ¬ session_open h ∨ ran h "abort" ∨ (pu = Apply ∧ typed_clean "(config-s-" h ∧ ran h commit_timer)) → tidy h.
Proof. intros Hp H. unfold tidy. rewrite Hp. by repeat split. Qed.

Lemma not_open_failed c (r : bytes + err) h : fresh h → (∀ out : bytes, r = inl out → cliErrors out ≠ []) → ¬ session_open (did (Run c) r :: h).
Proof.
  intros Hf Hr. apply not_open_cons; [|by apply not_open_fresh]. intros name out. destruct r as [out'|e]; [|left; by cbn].
  destruct (decide (out = out')) as [->|Hne]; [right; left; by apply Hr|left; cbn; congruence].
Qed.

Lemma ok_harmless_eos c h : platform = PlatformAristaEOS → c ∈ ["rollback clean-config"; "abort"; show_diffs]%string → may_run h c.
Proof. intros Hp Hc. by apply run_harmless, h_eos. Qed.

Lemma ok_eos_load s (Q : option err → list event → Prop) h :
  platform = PlatformAristaEOS → pu = Apply ∨ pu = Preview → tame → session_open h →
  (∀ evs, typed_clean "(config-s-" (evs ++ h) → Q None (evs ++ h)) → (∀ e evs, foreign e → Q (Some e) (evs ++ h)) →
  ok (eosLoad s (dr_Mode req) candidate) Q h.
Proof.
  intros Hp Hpu Htame Hopen Hnone Hsome. apply ok_then.
  assert (∀ evs, ok (typeCandidate s candidate "(config-s-") Q (evs ++ h)) as Htype.
  { intros evs. apply ok_type.
    - intros ev marker. split; [done|]. right. split; [done|]. split; [done|]. left. split; [done|]. apply session_cons. facts.
    - intros evs' H. rewrite app_assoc in H |- *. by apply Hnone.
    - intros e evs' He. rewrite app_assoc. by apply Hsome. }
  case_bool_decide; [|by apply (Htype [])]. apply ok_command; [by apply ok_harmless_eos; [|set_solver]| |].
  - intros out _. apply (Htype [_]).
  - intros e r He _. by apply (Hsome e [_]).
Qed.

Lemma eosCommit_ok h : platform = PlatformAristaEOS → pu = Apply → plain (dr_CommitID req) → tame → fresh h →
  ok (eosCommit req) (λ res h, foreign_opt res ∧ promise res h) h.
Proof.
  intros Hp Hpu Hid Htame Hf.
  assert (∀ e h, foreign e → tidy h → foreign_opt (Some e) ∧ promise (Some e) h) as Hfail.
  { intros e h' He Ht. split; [done|]. split; [apply claim_failed; by right|done]. }
  apply ok_bind_err, ok_privileged.
  2: { intros e evs He Hev. apply Hfail; [done|]. apply tidy_eos; [done|left]. by apply not_open_fresh, fresh_app. }
  intros s evs Hev. apply (fresh_app _ _ Hev) in Hf. apply ok_then, ok_command; [by apply run_harmless, h_eos_open| |].
  2: { intros e r He Hr. apply Hfail; [done|]. apply tidy_eos; [done|left]. by apply not_open_failed. }
  intros out Hout. apply obeys_bind, ok_eos_load; [done|by left|done|by exists (dr_CommitID req); split; [|facts]| |].
  - intros evs' Ht. apply obeys_bind, ok_command; [by apply run_commit_timer| |].
    + intros out' Hout'. apply obeys_bind, ok_send; [apply permits_exit|]. intros r _. split; [done|]. split.
      * unfold claim. rewrite Hpu. intros _. split; [right; left; split; [done|]; split; facts|].
        split_and!; [by rewrite Hp|by rewrite Hpu|by rewrite Hp].
      * apply tidy_eos; [done|]. right. right. split; [done|]. split; facts.
    + intros e r He _. apply obeys_bind, ok_send; [apply permits_exit|]. intros r' _. apply Hfail; [done|].
      apply tidy_eos; [done|]. right. right. split; [done|]. split; facts.
  - intros e evs' He. apply obeys_bind, ok_command; [by apply ok_harmless_eos; [|set_solver]| |].
    + intros out' _. apply Hfail; [done|]. apply tidy_eos; [done|]. right. left. facts.
    + intros e' r He' _. cbn. apply Hfail; [|apply tidy_eos; [done|]; right; left; facts].
      unfold foreign, Is in *. cbn [find_err]. rewrite bool_decide_eq_false_2 by done.
      destruct (find_err _ e); [done|]. by destruct (find_err _ e').
Qed.

Lemma ok_save (Q : option err → list event → Prop) h :
  may_run h "write memory" →
  (∀ out r, cliErrors out = [] → Q None (did (SendText exit_text) r :: did (Run "write memory") (inl out) :: h)) →
  (∀ e r r', Q (Some (Both ErrStartupNotSaved ": " e)) (did (SendText exit_text) r :: did (Run "write memory") r' :: h)) →
  ok saveStartup Q h.
Proof.
  intros Hp Hnone Hsome. apply obeys_bind, ok_command; [done| |].
  - intros out Hout. apply obeys_bind, ok_send; [apply permits_exit|]. intros r _. by apply Hnone.
  - intros e r He _. apply obeys_bind, ok_send; [apply permits_exit|]. intros r' _. by apply Hsome.
Qed.

Lemma eosConfirm_ok h : platform = PlatformAristaEOS → pu = Keep → fresh h → ok (eosConfirm req) promise h.
Proof.
  intros Hp Hpu Hf. assert (∀ h, tidy h) as Ht by (intros h'; apply tidy_eos; [done|rewrite Hpu; naive_solver]).
  assert (∀ e h, foreign e → promise (Some e) h) as Hfail.
  { intros e h' He. split; [apply claim_failed; by right|done]. }
  apply ok_bind_err, ok_privileged; [|by intros; apply Hfail].
  intros s evs _. apply ok_then, ok_command; [by apply run_session_commit| |by intros; apply Hfail].
  intros out Hout. apply ok_save; [apply run_save; [done|left; facts]| |].
  - intros out' r Hout'. split; [|done]. unfold claim. rewrite Hpu. split; [|done]. intros _.
    split; [right; left; split; [done|facts]|right; right; facts].
  - intros e r r'. split; [|done]. unfold claim. rewrite Hpu. split; [done|]. intros _ _ _. right. left. split; [done|facts].
Qed.

Lemma eosRollback_ok h : platform = PlatformAristaEOS → pu = Undo → fresh h → ok (eosRollback req) promise h.
Proof.
  intros Hp Hpu Hf. assert (∀ h, tidy h) as Ht by (intros h'; apply tidy_eos; [done|rewrite Hpu; naive_solver]).
  assert (∀ e h, foreign e → promise (Some e) h) as Hfail.
  { intros e h' He. split; [apply claim_failed; by right|done]. }
  apply ok_bind_err, ok_privileged; [|by intros; apply Hfail].
  intros s evs _. apply obeys_bind, ok_command; [by apply run_session_abort| |].
  - intros out Hout. apply obeys_bind, ok_send; [apply permits_exit|]. intros r _. split; [|done].
    unfold claim. rewrite Hpu. intros _. right. left. split; [done|facts].
  - intros e r He _. apply obeys_bind, ok_send; [apply permits_exit|]. intros r' _. by apply Hfail.
Qed.

(** The plan's session names are hexadecimal. *)
Lemma bytes_string b : Forall is_byte b → ascii_bytes (string_of b) = b.
Proof.
  induction 1 as [|c b Hc _ IH]; [done|]. cbn [string_of fold_right].
  change (Z.of_nat (Ascii.nat_of_ascii (Ascii.ascii_of_nat (Z.to_nat c))) :: ascii_bytes (string_of b) = c :: b).
  unfold is_byte in Hc. rewrite Ascii.nat_ascii_embedding by lia. rewrite IH. f_equal. lia.
Qed.

Lemma hex_digit_plain n : 0 ≤ n < 16 → is_byte (hex_digit n) ∧ hex_digit n ≠ space.
Proof. unfold hex_digit, is_byte, space. intros Hn. destruct (n <? 10) eqn:E; [apply Z.ltb_lt in E|apply Z.ltb_ge in E]; lia. Qed.

Lemma session_name_plain b : Forall is_byte b → plain (string_of (session_name b)).
Proof.
  intros Hb. assert (Forall (λ c, is_byte c ∧ c ≠ space) (session_name b)) as H.
  { unfold session_name. apply Forall_app. split; [apply (bool_decide_unpack _); by vm_compute|].
    induction Hb as [|c b Hc _ IH]; [done|]. cbn. unfold is_byte in Hc.
    constructor; [apply hex_digit_plain; pose proof (Z.div_pos c 16); assert (c / 16 < 16) by (apply Z.div_lt_upper_bound; lia); lia|].
    constructor; [apply hex_digit_plain; apply Z.mod_pos_bound; lia|done]. }
  unfold plain. rewrite bytes_string; [|eapply Forall_impl; [exact H|by intros c []] ].
  intros Hin. rewrite Forall_forall in H. by apply H in Hin as [_ ?].
Qed.

Lemma ok_session {A} name (none : A) fn (Q : A * option err → list event → Prop) h :
  platform = PlatformAristaEOS → plain name → fresh h →
  (∀ e h', tidy h' → Q (none, Some e) h') →
  (∀ h', session_open h' → ok fn (λ r h2, ∀ e evs, tidy (evs ++ h2) → (e = None → ran_clean cliErrors (evs ++ h2) "abort") →
     Q (r.1, e) (evs ++ h2)) h') →
  ok (eosSession name none fn) Q h.
Proof.
  intros Hp Hname Hf Hearly Hfn. apply obeys_bind, ok_command; [by apply run_harmless, h_eos_open| |].
  2: { intros e r _ Hr. apply Hearly, tidy_eos; [done|left]. by apply not_open_failed. }
  intros out Hout. apply obeys_bind. eapply obeys_mono; [|apply Hfn; exists name; split; [done|facts] ]. intros r h2 HQ.
  apply obeys_bind, ok_command; [by apply ok_harmless_eos; [|set_solver]| |].
  - intros out' Hout'. apply obeys_bind, ok_send; [apply permits_exit|]. intros r' _.
    apply (HQ _ [_; _]); [|intros _; facts]. apply tidy_eos; [done|]. right. left. facts.
  - intros e r' _ _. apply obeys_bind, ok_send; [apply permits_exit|]. intros r'' _.
    apply (HQ _ [_; _]); [|by destruct r.2]. apply tidy_eos; [done|]. right. left. facts.
Qed.

Lemma eosDryRun_ok h : platform = PlatformAristaEOS → pu = Preview → tame → fresh h →
  ok (eosDryRun req) (λ r h, promise (failure r) h) h.
Proof.
  intros Hp Hpu Htame Hf. assert (∀ (e : err) h, tidy h → promise (failure (@inr DryRunResult err e)) h) as Hpr by (intros; by apply preview_failed).
  apply obeys_try, ok_privileged.
  2: { intros e evs _ Hev. apply Hpr, tidy_eos; [done|left]. by apply not_open_fresh, fresh_app. }
  intros s evs Hev. apply (fresh_app _ _ Hev) in Hf. apply obeys_try, ok_random.
  2: { intros e ev _ Hn. apply Hpr, tidy_eos; [done|left]. by apply not_open_fresh, fresh_cons. }
  intros b ev Hb Hn. apply (fresh_cons _ _ Hn) in Hf. apply session_name_plain in Hb.
  apply obeys_bind, ok_session; [done..|by intros; apply Hpr|]. intros h' Hopen.
  assert (∀ (d : DryRunResult) (e : option err) h, tidy h → (e = None → ran_clean cliErrors h "abort") → promise (failure (as_result (d, e))) h) as Hend.
  { intros d e h1 Ht Hab. apply preview_done; [done|done|]. unfold as_result. cbn [snd]. destruct e; [done|]. intros _.
    split_and!; [by rewrite Hp|intros _ _; by apply Hab|by rewrite Hp]. }
  apply obeys_bind, ok_eos_load; [done|by right|done|done| |].
  - intros evs' _. apply obeys_bind, ok_say; [by apply ok_harmless_eos; [|set_solver]|]. intros r Hr e evs'' Ht Hab. by apply Hend.
  - intros e evs' _ e' evs'' Ht Hab. by apply Hend.
Qed.

(** ** IOS *)

Lemma tidy_ios h : platform = PlatformCiscoIOS →
  (pu = Apply → ¬ ran_clean cliErrors h revert_timer ∨ typed_clean "(config" h ∨ ran h revert_now) → tidy h.
Proof. intros Hp H. unfold tidy. rewrite Hp. by repeat split. Qed.

Lemma foreign_join l e : Forall foreign_opt l → Join l = Some e → foreign e.
Proof.
  intros H. revert e. induction H as [|r l Hr _ IH]; intros e; [done|]. destruct r as [e'|]; cbn [Join]; [|apply IH].
  destruct (Join l) as [e''|] eqn:E; intros [= <-]; [|done]. specialize (IH _ eq_refl). cbn in Hr.
  unfold foreign, Is in *. cbn [find_err]. rewrite bool_decide_eq_false_2 by done.
  destruct (find_err _ e'); [done|]. by destruct (find_err _ e'').
Qed.

Lemma ok_harmless_ios c h : platform = PlatformCiscoIOS → c ∈ ["end"; show_timer; delete_force (candidate_file req)]%string → may_run h c.
Proof. intros Hp Hc. by apply run_harmless, h_ios. Qed.

Lemma emptied_ios h : platform = PlatformCiscoIOS → emptied h.
Proof. intros Hp. unfold emptied. by rewrite Hp. Qed.

Lemma iosMerge_ok h : platform = PlatformCiscoIOS → pu = Apply → tame → fresh h →
  ok (iosMerge req) (λ res h, foreign_opt res ∧ promise res h) h.
Proof.
  intros Hp Hpu Htame Hf.
  assert (∀ e h, foreign e → tidy h → foreign_opt (Some e) ∧ promise (Some e) h) as Hfail.
  { intros e h' He Ht. split; [done|]. split; [apply claim_failed; by right|done]. }
  apply ok_bind_err, ok_privileged.
  2: { intros e evs He Hev. apply Hfail; [done|]. apply tidy_ios; [done|left]. by apply not_ran_fresh, fresh_app. }
  intros s evs Hev. apply (fresh_app _ _ Hev) in Hf. apply ok_then, ok_command; [by apply run_revert_timer| |].
  2: { intros e r He Hr. apply Hfail; [done|]. apply tidy_ios; [done|left]. apply not_ran_cons; [|by apply not_ran_fresh].
       intros out [= ->]. by apply Hr. }
  intros out Hout. apply obeys_bind, ok_type.
  - intros ev marker. split; [by left|]. right. split; [done|]. split; [done|]. right. split; [done|]. split; [done|facts].
  - intros evs' Ht. apply obeys_bind, ok_command; [apply ok_harmless_ios; [done|set_solver]| |].
    + intros out' Hout'. apply obeys_bind, ok_send; [apply permits_exit|]. intros r _. split; [done|]. split.
      * unfold claim. rewrite Hpu. intros _. split; [right; right; left; split; [done|]; split; facts|by apply emptied_ios].
      * apply tidy_ios; [done|]. right. left. facts.
    + intros e r He _. apply obeys_bind, ok_send; [apply permits_exit|]. intros r' _. apply Hfail; [done|].
      apply tidy_ios; [done|]. right. left. facts.
  - intros e evs' He.
    assert (∀ r h', foreign_opt r → ran h' revert_now →
      ok (quietly leave; Ret (Join [Some e; r])) (λ res h, foreign_opt res ∧ promise res h) h') as Hend.
    { intros r h' Hr Hran. apply obeys_bind, ok_send; [apply permits_exit|]. intros r' _. cbn [obeys].
      destruct (Join [Some e; r]) as [e'|] eqn:Ej; [|by destruct r].
      apply Hfail; [eapply foreign_join; [|exact Ej]; by repeat constructor|]. apply tidy_ios; [done|]. right. right. facts. }
    assert (∀ h', ran_clean cliErrors h' revert_timer →
      ok (cliCommand revert_now) (λ a h0, ok (quietly leave; Ret (Join [Some e; a])) (λ res h, foreign_opt res ∧ promise res h) h0) h') as Hrevert.
    { intros h' Hr. apply ok_command; [apply run_revert_now; [done|by left|by right]| |]; intros; apply Hend; first [done|facts]. }
    apply obeys_bind, obeys_bind, ok_command; [apply ok_harmless_ios; [done|set_solver]| |]; intros; apply Hrevert; facts.
Qed.

Lemma no_timer_run c r h : c ≠ revert_timer → ¬ ran_clean cliErrors h revert_timer → ¬ ran_clean cliErrors (did (Run c) r :: h) revert_timer.
Proof. intros Hc. apply not_ran_cons. cbn. congruence. Qed.
Lemma no_timer_neutral evs h : Forall neutral evs → ¬ ran_clean cliErrors h revert_timer → ¬ ran_clean cliErrors (evs ++ h) revert_timer.
Proof.
  intros Hev Hh. induction Hev as [|e evs He _ IH]; [done|]. apply not_ran_cons; [|done]. intros out H.
  destruct e as [ [] r]; try done.
Qed.

Lemma ok_revert_pending (Q : option err → list event → Prop) h :
  platform = PlatformCiscoIOS → pu = Apply ∨ pu = Undo → ¬ ran_clean cliErrors h revert_timer →
  (∀ evs, ran_clean cliErrors (evs ++ h) show_timer → ran_clean cliErrors (evs ++ h) revert_now →
     ¬ ran_clean cliErrors (evs ++ h) revert_timer → Q None (evs ++ h)) →
  (∀ e evs, foreign e → ¬ ran_clean cliErrors (evs ++ h) revert_timer → Q (Some e) (evs ++ h)) →
  ok iosRevertPending Q h.
Proof.
  intros Hp Hpu Hh Hnone Hsome. apply obeys_bind, ok_command; [apply ok_harmless_ios; [done|set_solver]| |].
  - intros out Hout. apply ok_command; [apply run_revert_now; [done|done|left; facts]| |].
    + intros out' Hout'. apply (Hnone [_; _]); [facts|facts|]. by apply no_timer_run, no_timer_run.
    + intros e r He _. apply (Hsome e [_; _]); [done|]. by apply no_timer_run, no_timer_run.
  - intros e r He _. apply (Hsome _ [_]); [facts|]. by apply no_timer_run.
Qed.

Definition replaced (h : list event) : Prop :=
  ∃ out : bytes, did (Run (replace_command (candidate_file req))) (inl out) ∈ h ∧ cliErrors out = [] ∧
    Contains out (text_of "Rollback Done") = true.
Lemma replaced_cons h e : replaced h → replaced (e :: h).
Proof. intros (out & H & E). exists out. split; [by right|done]. Qed.
#[local] Hint Resolve replaced_cons : dialogue.

Lemma ok_replace (Q : option err → list event → Prop) h :
  platform = PlatformCiscoIOS → pu = Apply → ¬ ran_clean cliErrors h revert_timer →
  (∀ h', replaced h' → ¬ ran_clean cliErrors h' revert_timer → Q None h') →
  (∀ e h', foreign e → ¬ ran_clean cliErrors h' revert_timer → Q (Some e) h') →
  ok (iosConfigureReplace (candidate_file req)) Q h.
Proof.
  intros Hp Hpu Hh Hnone Hsome. apply ok_bind_err, ok_say; [by apply run_replace|].
  intros [out|e] Hr; [|apply Hsome; [done|by apply no_timer_run] ].
  destruct (bool_decide (cliErrors out = []) && Contains out (text_of "Rollback Done")) eqn:E.
  { apply andb_true_iff in E as [E1%bool_decide_eq_true E2]. apply Hnone; [exists out; split; [by left|done]|by apply no_timer_run]. }
  assert (∀ r h', foreign_opt r → ¬ ran_clean cliErrors h' revert_timer →
    ok (Ret (Join [Some (cmd_err ("configure replace did not complete" +:+ joinMessages (strings_of (cliErrors out)))); r])) Q h') as Hend.
  { intros r h' Hr' Ht. cbn [obeys]. destruct (Join _) as [e|] eqn:Ej; [|by destruct r].
    apply Hsome; [|done]. eapply foreign_join; [|exact Ej]. by repeat constructor. }
  apply obeys_bind, ok_revert_pending; [done|by left|by apply no_timer_run| |]; intros; by apply Hend.
Qed.

Lemma iosReplace_ok h : platform = PlatformCiscoIOS → pu = Apply → fresh h →
  ok (iosReplace req) (λ res h, foreign_opt res ∧ promise res h) h.
Proof.
  intros Hp Hpu Hf.
  assert (∀ l h, Forall foreign_opt l → (Join l = None → committed h) → ¬ ran_clean cliErrors h revert_timer →
    foreign_opt (Join l) ∧ promise (Join l) h) as Hend.
  { intros l h' Hl Hc Ht. destruct (Join l) as [e|] eqn:E.
    - apply foreign_join in E; [|done]. split; [done|]. split; [apply claim_failed; by right|by apply tidy_ios; [|left] ].
    - split; [done|]. split; [unfold claim; rewrite Hpu; intros _; split; [by apply Hc|by apply emptied_ios]|by apply tidy_ios; [|left] ]. }
  apply obeys_bind, ok_say; [by split|]. intros copied Hcopied. cbn in Hcopied.
  apply obeys_bind, ok_say; [done|]. intros session Hsession. cbn in Hsession. destruct session as [e|].
  { apply (Hend [Some (Both ErrCommand ": open session: " e)]); [constructor; [by apply foreign_both|done]|done|].
    intros (out & Hin & _). apply elem_of_cons in Hin as [?|Hin]; [done|]. apply elem_of_cons in Hin as [?|Hin]; [done|]. by eapply fresh_run. }
  assert (fresh (did NewSession None :: did (ScpSink (candidate_file req) (with_newline (crlf_to_lf candidate))) copied :: h)) as Hf' by (by repeat constructor).
  apply obeys_bind, ok_privileged.
  2: { intros e evs He Hev. apply Hend; [by repeat constructor|by destruct copied|]. apply not_ran_fresh. by apply fresh_app. }
  intros s evs Hev. apply (fresh_app _ _ Hev) in Hf'. apply (not_ran_fresh cliErrors _ revert_timer) in Hf'.
  revert Hf'. generalize (evs ++ did NewSession None :: did (ScpSink (candidate_file req) (with_newline (crlf_to_lf candidate))) copied :: h). intros h1 Ht.
  assert (∀ r d h', foreign_opt r → foreign_opt d → ¬ ran_clean cliErrors h' revert_timer →
    (copied = None → r = None → d = None → replaced h' ∧ ran_clean cliErrors h' (delete_force (candidate_file req))) →
    ok (quietly leave; Ret (Join [copied; r; d])) (λ res h, foreign_opt res ∧ promise res h) h') as Hleave.
  { intros r d h' Hr Hd Ht' Hc. apply obeys_bind, ok_send; [apply permits_exit|]. intros r' _.
    apply Hend; [by repeat constructor| |by apply not_ran_cons]. intros Hj.
    assert (copied = None ∧ r = None ∧ d = None) as (E1 & E2 & E3).
    { clear -Hj. destruct copied as [e|]; [cbn in Hj; by destruct (Join [r; d]) eqn:E; cbn in *; rewrite E in Hj|].
      destruct r as [e|]; [cbn in Hj; by destruct d|]. by destruct d. }
    destruct (Hc E1 E2 E3) as [Hrep Hdel]. do 3 right. left. split; [done|]. split; [facts|]. by apply replaced_cons. }
  apply obeys_bind. destruct copied as [e|].
  - apply obeys_bind, ok_command; [apply ok_harmless_ios; [done|set_solver]| |];
      intros; apply Hleave; first [done|by apply no_timer_run].
  - apply obeys_bind, ok_replace; [done|done|done| |].
    + intros h' Hrep Ht'. apply obeys_bind, ok_command; [apply ok_harmless_ios; [done|set_solver]| |].
      * intros out Hout. apply Hleave; [done|done|by apply no_timer_run|]. intros _ _ _. split; facts.
      * intros e r He _. apply Hleave; [done|done|by apply no_timer_run|done].
    + intros e h' He Ht'. apply obeys_bind, ok_command; [apply ok_harmless_ios; [done|set_solver]| |];
        intros; apply Hleave; first [done|by apply no_timer_run].
Qed.

Lemma iosCommit_ok h : platform = PlatformCiscoIOS → pu = Apply → tame → fresh h →
  ok (iosCommit req) (λ res h, foreign_opt res ∧ promise res h) h.
Proof.
  intros Hp Hpu Htame Hf. unfold iosCommit. case_bool_decide; [by apply iosReplace_ok|].
  apply obeys_bind, ok_say; [done|]. intros [e|] Hr.
  - split; [by apply foreign_both|]. split; [apply claim_failed; right; by apply foreign_both|].
    apply tidy_ios; [done|left]. by apply not_ran_fresh, fresh_cons.
  - by apply iosMerge_ok, fresh_cons.
Qed.

Lemma iosConfirm_ok h : platform = PlatformCiscoIOS → pu = Keep → fresh h → ok (iosConfirm req) promise h.
Proof.
  intros Hp Hpu Hf. assert (∀ h, tidy h) as Ht by (intros h'; apply tidy_ios; [done|by rewrite Hpu]).
  assert (∀ e h, foreign e → promise (Some e) h) as Hfail.
  { intros e h' He. split; [apply claim_failed; by right|done]. }
  apply ok_bind_err, ok_privileged; [|by intros; apply Hfail].
  intros s evs _. apply ok_then, ok_command; [by apply run_confirm| |by intros; apply Hfail].
  intros out Hout. apply ok_save; [apply run_save; [done|right; facts]| |].
  - intros out' r Hout'. split; [|done]. unfold claim. rewrite Hpu. split; [|done]. intros _.
    split; [right; right; left; split; [done|facts]|right; right; facts].
  - intros e r r'. split; [|done]. unfold claim. rewrite Hpu. split; [done|]. intros _ _ _. right. right. left. split; [done|facts].
Qed.

Lemma iosRollback_ok h : platform = PlatformCiscoIOS → pu = Undo → fresh h → ok (iosRollback req) promise h.
Proof.
  intros Hp Hpu Hf. assert (∀ h, tidy h) as Ht by (intros h'; apply tidy_ios; [done|by rewrite Hpu]).
  assert (∀ e h, foreign e → promise (Some e) h) as Hfail.
  { intros e h' He. split; [apply claim_failed; by right|done]. }
  apply ok_bind_err, ok_privileged; [|by intros; apply Hfail].
  intros s evs Hev. apply (fresh_app _ _ Hev), (not_ran_fresh cliErrors _ revert_timer) in Hf.
  apply obeys_bind, ok_revert_pending; [done|by right|done| |].
  - intros evs' H1 H2 _. apply obeys_bind, ok_send; [apply permits_exit|]. intros r _. split; [|done].
    unfold claim. rewrite Hpu. intros _. right. right. left. split; [done|]. split; facts.
  - intros e evs' He _. apply obeys_bind, ok_send; [apply permits_exit|]. intros r' _. by apply Hfail.
Qed.

Lemma iosDryRun_ok h : platform = PlatformCiscoIOS → pu = Preview → fresh h → ok (iosDryRun req) (λ r h, promise (failure r) h) h.
Proof.
  intros Hp Hpu Hf. assert (∀ r h, promise r h) as Hpr.
  { intros r h'. apply preview_done; [done| |by intros; apply emptied_ios]. apply tidy_ios; [done|by rewrite Hpu]. }
  apply obeys_try, ok_say; [done|]. intros [running|e] Hr; apply Hpr.
Qed.

(** ** NETCONF *)

Definition only (body : bytes) (evs : list event) : Prop := Forall (λ e, as_sent e = Some body ∨ as_sent e = None) evs.

Lemma only_sent b body evs : only body evs → sent b evs → b = body.
Proof.
  unfold only. rewrite Forall_forall. intros H (ch & id & r & Hin). apply H in Hin as [ [= ->]|?]; done.
Qed.
Lemma sent_split b evs h : sent b (evs ++ h) → sent b evs ∨ sent b h.
Proof. intros (ch & id & r & [Hin|Hin]%elem_of_app); [left|right]; by exists ch, id, r. Qed.
Lemma sent_events_app b evs h : sent b h → sent b (evs ++ h).
Proof. apply cons_app. intros ???. facts. Qed.
Lemma answered_app op body evs h : answered op body h → answered op body (evs ++ h).
Proof.
  intros (ch & id & msg & reply & h1 & h2 & -> & E). exists ch, id, msg, reply, h1, (evs ++ h2). split; [by rewrite app_assoc|done].
Qed.
Lemma lock_app body evs h : only body evs → body ≠ unlock_body → lock_held h → lock_held (evs ++ h).
Proof.
  intros Ho Hne (h1 & h2 & -> & Ha & Hn). exists h1, (evs ++ h2). split; [by rewrite app_assoc|]. split; [done|].
  intros [H|H]%sent_split; [|done]. apply (only_sent _ _ _ Ho) in H. by subst.
Qed.
#[local] Hint Resolve sent_events_app answered_app : dialogue.

Lemma parseReply_foreign msg op e : parseReply msg op = inr e → foreign e.
Proof.
  unfold parseReply. destruct (unmarshal_reply msg) as [reply|text]; [|by intros [= <-]; apply foreign_both].
  destruct (first_error _); by intros [= <-].
Qed.

Lemma ok_rpc rpc op body (Q : (rpcReply + err) * netconfRPC → list event → Prop) h :
  platform = PlatformNETCONF → may_rpc h body →
  (∀ r rpc' evs, only body evs → sent body (evs ++ h) →
     match r with inl _ => answered op body (evs ++ h) | inr e => foreign e end → Q (r, rpc') (evs ++ h)) →
  ok (rpc_call rpc op body) Q h.
Proof.
  intros Hp Hb HQ. destruct rpc as [nc id]. apply obeys_bind, obeys_bind, ok_say; [done|]. intros [e|] He.
  - apply (HQ _ _ [_]); [by repeat constructor|facts|]. by apply foreign_both.
  - apply obeys_bind, ok_say; [done|]. intros [msg|e] Hr.
    + apply (HQ _ _ [_; _]); [constructor; [by right|constructor; [by left|done] ]|cbn; facts|].
      destruct (parseReply msg op) as [reply|e] eqn:E; [|by eapply parseReply_foreign].
      by eexists _, _, msg, reply, h, [].
    + apply (HQ _ _ [_; _]); [constructor; [by right|constructor; [by left|done] ]|cbn; facts|]. by apply foreign_both.
Qed.

Lemma ok_close (Q : option err * netconfRPC → list event → Prop) rpc h :
  platform = PlatformNETCONF →
  (∀ r ev, as_sent ev = Some close_body → Q r (ev :: h)) → ok (rpc_send rpc "close-session" close_body) Q h.
Proof.
  intros Hp HQ. destruct rpc as [nc id]. apply obeys_bind, ok_say; [split; [done|apply rpc_look; set_solver]|].
  intros r Hr. by apply HQ.
Qed.

Lemma ok_open_netconf (Q : netconfSession + err → list event → Prop) h :
  (∀ nc evs, Forall neutral evs → Q (inl nc) (evs ++ h)) → (∀ e evs, foreign e → Forall neutral evs → Q (inr e) (evs ++ h)) →
  ok openNETCONFPush Q h.
Proof.
  intros Hnc He. apply obeys_bind, ok_say; [done|]. intros [e|] Hr; [apply (He _ [_]); [by apply foreign_both|by repeat constructor]|].
  apply obeys_try, obeys_bind, ok_say; [done|]. intros [e|] Hr'; [apply (He _ [_; _]); [by apply foreign_both|by repeat constructor]|].
  apply obeys_bind, ok_say; [done|]. intros [msg|e] Hr''; [|apply (He _ [_; _; _]); [by apply foreign_both|by repeat constructor] ].
  cbn [obeys]. destruct (hello_reply msg) as [nc|e] eqn:E.
  - cbn [obeys]. destruct (missing_capability nc); [apply (He _ [_; _; _]); [facts|by repeat constructor]|].
    apply (Hnc _ [_; _; _]). by repeat constructor.
  - apply (He _ [_; _; _]); [|by repeat constructor]. revert E. unfold hello_reply.
    destruct (hello_capabilities msg); [|by intros [= <-]; apply foreign_both]. destruct (_ && _); [|done]. by intros [= <-].
Qed.

Lemma tidy_netconf h : platform = PlatformNETCONF →
  ¬ sent (edit_body (dr_Mode req) candidate) h ∨ (sent discard_body h ∧ sent unlock_body h) → tidy h.
Proof. intros Hp H. unfold tidy. rewrite Hp. by repeat split. Qed.

(** Operations that are told apart by their second byte or later. *)
Lemma edit_apart mode c b : b ∈ [lock_body; unlock_body; discard_body; validate_body; close_body] → edit_body mode c ≠ b.
Proof.
  intros Hb E. apply (f_equal (λ l : bytes, l !! 1%nat)) in E.
  repeat (apply elem_of_cons in Hb as [->|Hb]; [done|]). by apply elem_of_nil in Hb.
Qed.

Lemma ok_lock {A} (fn : netconfRPC → dialogue ((A + err) * netconfRPC)) (Q : A + err → list event → Prop) h :
  platform = PlatformNETCONF → fresh h →
  (∀ e h', foreign e → tidy h' → Q (inr e) h') →
  (∀ rpc h', lock_held h' → ok (fn rpc) (λ r h2, lock_held h2 ∧ ∀ res evs, tidy (evs ++ h2) →
     (match r.1, res with
      | inl a, inl a' => a' = a ∧ answered "discard-changes" discard_body (evs ++ h2) ∧ answered "unlock" unlock_body (evs ++ h2)
      | inl _, inr e => foreign e
      | inr e, _ => res = inr e
      end) → Q res (evs ++ h2)) h') →
  ok (withCandidateLock fn) Q h.
Proof.
  intros Hp Hf Hearly Hfn. apply obeys_try, ok_open_netconf.
  2: { intros e evs He Hev. apply Hearly; [done|]. apply tidy_netconf; [done|left]. by apply not_sent_fresh, fresh_app. }
  intros nc evs Hev. apply (fresh_app _ _ Hev) in Hf. apply obeys_bind, ok_rpc; [done|apply rpc_look; set_solver|].
  intros r rpc evs' Ho _ Hr. destruct r as [reply|e].
  2: { apply Hearly; [done|]. apply tidy_netconf; [done|left]. intros [Hs|Hs]%sent_split; [|by apply not_sent_fresh in Hs].
       apply (only_sent _ _ _ Ho) in Hs. revert Hs. apply edit_apart. set_solver. }
  apply obeys_bind. eapply obeys_mono; [|apply Hfn].
  2: { eexists _, []. split; [done|]. split; [exact Hr|]. by intros (? & ? & ? & ?%elem_of_nil). }
  intros [res rpc2] h2 [Hlock HQ]. apply obeys_bind, ok_rpc; [done|by apply rpc_locked; [|set_solver]|].
  intros d rpc3 evs3 Ho3 Hs3 Hd. apply obeys_bind, ok_rpc; [done|apply rpc_locked; [by eapply lock_app|set_solver]|].
  intros u rpc4 evs4 Ho4 Hs4 Hu. apply obeys_bind, ok_close; [done|]. intros r ev Hev'.
  assert (tidy ((ev :: evs4 ++ evs3) ++ h2)) as Ht.
  { apply tidy_netconf; [done|right]. cbn [app]. rewrite <- app_assoc. split; facts. }
  cbn [obeys fst snd]. replace (ev :: evs4 ++ evs3 ++ h2) with ((ev :: evs4 ++ evs3) ++ h2) by (cbn; by rewrite <- app_assoc).
  apply HQ; [done|]. cbn [fst snd]. destruct res as [a|e]; [|done].
  destruct d as [d|e1], u as [u|e2]; cbn [failure Join]; [|done|done|by apply foreign_join with (l := [Some e1; Some e2]); [by repeat constructor|] ].
  split; [done|]. cbn [app]. rewrite <- app_assoc. split; apply (answered_app _ _ [ev]); facts.
Qed.

Lemma ok_load_candidate rpc (Q : option err * netconfRPC → list event → Prop) h :
  platform = PlatformNETCONF → pu = Apply ∨ pu = Preview → lock_held h →
  (∀ r rpc' evs, lock_held (evs ++ h) → foreign_opt r →
     (r = None → answered "edit-config" (edit_body (dr_Mode req) candidate) (evs ++ h)) → Q (r, rpc') (evs ++ h)) →
  ok (loadCandidate rpc req) Q h.
Proof.
  intros Hp Hpu Hlock HQ. apply obeys_bind, ok_rpc; [done|by apply rpc_edit|].
  intros r rpc' evs Ho Hs Hr. assert (lock_held (evs ++ h)) as Hlock' by (eapply lock_app; [done|apply edit_apart; set_solver|done]).
  destruct r as [reply|e]; [|by apply HQ].
  destruct (_ || _); [|by apply HQ]. apply obeys_bind, ok_rpc; [done|by apply rpc_locked; [|set_solver]|].
  intros v rpc'' evs' Ho' Hs' Hv. cbn [obeys fst snd]. rewrite app_assoc in *. apply HQ.
  - rewrite <- app_assoc. by eapply lock_app.
  - by destruct v.
  - intros _. rewrite <- app_assoc. facts.
Qed.

Lemma netconfCommit_ok h : platform = PlatformNETCONF → pu = Apply → fresh h →
  ok (error_of (netconfCommit req)) (λ res h, foreign_opt res ∧ promise res h) h.
Proof.
  intros Hp Hpu Hf.
  assert (∀ e h, foreign e → tidy h → foreign_opt (Some e) ∧ promise (Some e) h) as Hfail.
  { intros e h' He Ht. split; [done|]. split; [apply claim_failed; by right|done]. }
  apply obeys_bind, ok_lock; [done|done|by intros; apply Hfail|].
  intros rpc h' Hlock. apply obeys_bind, ok_load_candidate; [done|by left|done|].
  intros r rpc' evs Hlock' Hr Hanswered. destruct r as [e|].
  - split; [done|]. intros res evs' Ht ->. by apply Hfail.
  - apply obeys_bind, ok_rpc; [done|apply rpc_commit; [done|done|by apply Hanswered]|].
    intros c rpc'' evs'' Ho Hs Hc. split; [eapply lock_app; [done| |done]|].
    { intros E. apply (f_equal (λ l : bytes, l !! 1%nat)) in E. done. }
    intros res evs3 Ht Hres. destruct c as [reply|e]; cbn in Hres; [|subst res; by apply Hfail].
    destruct res as [ []|e]; [|by apply Hfail]. destruct Hres as (_ & Hd & Hu). split; [done|]. split; [|done].
    unfold claim. rewrite Hpu. intros _. split; [do 4 right; split; [done|]; facts|].
    split_and!; [by rewrite Hp|by rewrite Hp|done].
Qed.

Lemma netconfDryRun_ok h : platform = PlatformNETCONF → pu = Preview → fresh h →
  ok (netconfDryRun req) (λ r h, promise (failure r) h) h.
Proof.
  intros Hp Hpu Hf. assert (∀ (e : err) h, tidy h → promise (failure (@inr DryRunResult err e)) h) as Hpr by (intros; by apply preview_failed).
  assert (∀ (e : err) (res : DryRunResult + err) h, tidy h → res = inr e → promise (failure res) h) as Hfail.
  { intros e res h' Ht ->. by apply Hpr. }
  assert (∀ rpc ds (Q : (bytes + err) * netconfRPC → list event → Prop) h, lock_held h → ds = "running"%string ∨ ds = "candidate"%string →
    (∀ r rpc' evs, lock_held (evs ++ h) → Q (r, rpc') (evs ++ h)) → ok (rpc_getConfig rpc ds) Q h) as Hget.
  { intros rpc ds Q h' Hlock Hds HQ. apply obeys_bind, ok_rpc; [done|apply rpc_look; destruct Hds as [-> | ->]; set_solver|].
    intros r rpc' evs Ho Hs Hr. apply HQ. eapply lock_app; [done| |done].
    intros E. apply (f_equal (λ l : bytes, l !! 1%nat)) in E. done. }
  apply ok_lock; [done|done|by intros; apply Hpr|]. intros rpc h' Hlock.
  apply obeys_bind, Hget; [done|by left|]. intros r rpc' evs Hlock'. destruct r as [running|e]; [|split; [done|intros res evs5 Ht Hres; by apply (Hfail e res)] ].
  apply obeys_bind, ok_load_candidate; [done|by right|done|]. intros l rpc'' evs' Hlock'' Hl _.
  destruct l as [e|]; [split; [done|intros res evs5 Ht Hres; by apply (Hfail e res)]|].
  apply obeys_bind, Hget; [done|by right|]. intros a rpc3 evs3 Hlock3. destruct a as [after|e]; [|split; [done|intros res evs5 Ht Hres; by apply (Hfail e res)] ].
  destruct (indentXML running), (indentXML after); try apply ok_panic. split; [done|].
  intros res evs4 Ht Hres. destruct res as [d|e]; [|by apply Hpr]. cbn [fst] in Hres.
  match type of Hres with match ?r with _ => _ end => destruct r; [|done] end. destruct Hres as (_ & Hd & Hu).
  apply preview_done; [done|done|]. intros _. split_and!; [by rewrite Hp|by rewrite Hp|done].
Qed.


Lemma ok_persisted op body h : platform = PlatformNETCONF → may_rpc h body → (∀ h', may_rpc h' body) → fresh h →
  body ≠ edit_body (dr_Mode req) candidate →
  (∀ h', answered op body h' → claim None h') → (∀ e h', foreign e → claim (Some e) h') →
  ok (error_of (netconfPersisted op body)) promise h.
Proof.
  intros Hp _ Hb Hf Hne Hnone Hsome.
  assert (∀ h, ¬ sent (edit_body (dr_Mode req) candidate) h → tidy h) as Ht by (intros; apply tidy_netconf; [done|by left]).
  apply obeys_bind, obeys_try, ok_open_netconf.
  2: { intros e evs He Hev. split; [by apply Hsome|]. by apply Ht, not_sent_fresh, fresh_app. }
  intros nc evs Hev. apply (fresh_app _ _ Hev) in Hf. apply obeys_bind, ok_rpc; [done|done|].
  intros r rpc evs' Ho Hs Hr. apply obeys_bind, ok_close; [done|]. intros r' ev Hev'. cbn [obeys fst snd].
  assert (tidy (ev :: evs' ++ evs ++ h)) as Htidy.
  { apply Ht. intros Hsent. apply (sent_split _ [ev]) in Hsent as [(ch & id & r'' & [<-|[]%elem_of_nil]%elem_of_cons)|Hsent].
    - apply (inj Some) in Hev'. revert Hev'. apply edit_apart. set_solver.
    - apply sent_split in Hsent as [Hsent|Hsent]; [|by apply not_sent_fresh in Hsent].
      apply (only_sent _ _ _ Ho) in Hsent. by subst. }
  destruct r as [reply|e]; (split; [|done]).
  - apply Hnone. by apply (answered_app _ _ [ev]).
  - by apply Hsome.
Qed.

Lemma netconfConfirm_ok h : platform = PlatformNETCONF → pu = Keep → fresh h → ok (error_of (netconfConfirm req)) promise h.
Proof.
  intros Hp Hpu Hf. apply ok_persisted; [done|by apply rpc_confirm|by intros; apply rpc_confirm|done| | |].
  - intros E. apply (f_equal (λ l : bytes, l !! 1%nat)) in E. done.
  - intros h' Ha. unfold claim. rewrite Hpu. split; [|done]. intros _. split; [by do 3 right|by right; left].
  - intros e h' He. apply claim_failed. by right.
Qed.

Lemma netconfRollback_ok h : platform = PlatformNETCONF → pu = Undo → fresh h → ok (error_of (netconfRollback req)) promise h.
Proof.
  intros Hp Hpu Hf. apply ok_persisted; [done|by apply rpc_cancel|by intros; apply rpc_cancel|done| | |].
  - intros E. apply (f_equal (λ l : bytes, l !! 1%nat)) in E. done.
  - intros h' Ha. unfold claim. rewrite Hpu. intros _. by do 3 right.
  - intros e h' He. apply claim_failed. by right.
Qed.

(** ** Logins *)

Lemma foreign_mismatch e text : foreign (Wrapped "ssh: handshake failed: " (Wrapped "" ErrHostKeyMismatch text) e).
Proof. done. Qed.

Lemma handshake_foreign p : foreign_opt (pk_error p) → foreign_opt (handshake_error (dr_PinnedHostKey req) p).
Proof.
  intros Hp. unfold handshake_error, HostKeyCallback. case_bool_decide; [done|]. by destruct (negb _).
Qed.

Lemma classify_foreign ctx e : foreign_opt ctx → foreign e → foreign (classifyHandshake ctx e).
Proof.
  intros Hc He. unfold classifyHandshake. destruct (_ || _); [done|]. destruct (Contains _ _); [by apply foreign_both|].
  destruct ctx; [by apply foreign_both|by apply foreign_wrap].
Qed.

(** A login ends its step with the step's result or with a cancelled context. *)
Lemma ok_client {R} (fail : err → R) (fn : dialogue R) (Q : R → list event → Prop) h :
  fresh h →
  (∀ e h', foreign e → fresh h' → Q (fail e) h') →
  (∀ h', fresh h' → ok fn (λ r h2, Q r (did LoginCtxErr None :: h2) ∧
     ∀ e, foreign e → Q (fail (Both ErrUnreachable ": " e)) (did LoginCtxErr (Some e) :: h2)) h') →
  ok (on_client fail req fn) Q h.
Proof.
  intros Hf Hearly Hfn. apply obeys_bind, ok_say; [done|]. intros [e|] Hr.
  { apply Hearly; [by apply foreign_both|by apply fresh_cons]. }
  apply obeys_bind, ok_say; [done|]. intros p Hp. apply handshake_foreign in Hp.
  destruct (handshake_error _ p) as [e|].
  - apply obeys_bind, ok_say; [done|]. intros ctx Hctx. apply Hearly; [by apply classify_foreign|by repeat apply fresh_cons].
  - apply obeys_bind. eapply obeys_mono; [|apply Hfn; by repeat apply fresh_cons]. intros r h2 [HQ HQe].
    apply obeys_bind, ok_say; [done|]. intros [e|] Hctx; [by apply HQe|apply HQ].
Qed.

Lemma ok_on_session {R} (fail : err → R) (fn : dialogue R) (Q : R → list event → Prop) h :
  fresh h → (∀ e h', foreign e → fresh h' → Q (fail e) h') → (∀ h', fresh h' → ok fn Q h') → ok (onSession fail fn) Q h.
Proof.
  intros Hf Hearly Hfn. apply obeys_bind, ok_say; [done|]. intros [e|] Hr;
    [apply Hearly; [by apply foreign_both|by apply fresh_cons]|by apply Hfn, fresh_cons].
Qed.

Lemma tidy_fresh h : fresh h → tidy h.
Proof.
  intros Hf. repeat split; intros; left; [by apply not_ran_fresh|by apply not_open_fresh|by apply not_ran_fresh|by apply not_sent_fresh].
Qed.

Lemma tidy_ctx r h : tidy h → tidy (did LoginCtxErr r :: h).
Proof.
  intros (H1 & H2 & H3 & H4). repeat split; intros Hp.
  - destruct (H1 Hp) as [H|H]; [left; by apply not_ran_cons|right; facts].
  - intros Hpu. destruct (H2 Hp Hpu) as [H|[H|(H & H' & H'')] ];
      [left; apply not_open_cons; [by left|done]|right; left; facts|right; right; split; [done|split; facts] ].
  - intros Hpu. destruct (H3 Hp Hpu) as [H|[H|H] ]; [left; by apply not_ran_cons|right; left; facts|right; right; facts].
  - destruct (H4 Hp) as [H|[H H'] ]; [left; by apply not_sent_cons|right; split; facts].
Qed.

Lemma emptied_ctx r h : emptied h → emptied (did LoginCtxErr r :: h).
Proof.
  intros (H1 & H2 & H3). split_and!; [intros; facts..|]. intros Hp. destruct (H3 Hp).
  split; by apply (answered_app _ _ [_]).
Qed.

Lemma claim_ctx res h : claim res h → claim res (did LoginCtxErr None :: h).
Proof.
  unfold claim, committed, kept, saved, undone.
  assert (∀ c out, did (Run c) out ∈ h → did (Run c) out ∈ did LoginCtxErr None :: h) as Hin by (intros; by right).
  assert (∀ op body, answered op body h → answered op body (did LoginCtxErr None :: h)) as Ha by (intros; by apply (answered_app _ _ [_])).
  destruct pu; [intros H Hres; by apply emptied_ctx, H| | |].
  - intros H Hres. destruct (H Hres) as [Hc He]. split; [|by apply emptied_ctx]. destruct Hc as [(? & ? & ? & ? & ?)|[(? & ? & ?)|[(? & ? & ?)|[(? & ? & ? & ? & ?)|[? ?] ] ] ] ];
      [left|right; left|right; right; left|do 3 right; left|do 4 right]; eauto 10 with dialogue.
  - intros [H1 H2].
    assert (∀ h, kept h → kept (did LoginCtxErr None :: h)) as Hk.
    { unfold kept. intros h' [(? & ? & ? & ?)|[(? & ?)|[(? & ?)|(? & ?)] ] ];
        [left; split; [done|]; eexists; split; [by right|done]|right; left|do 2 right; left|do 3 right]; (split; [done|]); [facts|facts|by apply (answered_app _ _ [_])]. }
    split; [intros Hres; destruct (H1 Hres) as [Hk' Hs]; split; [by apply Hk|]|intros e He HIs; apply Hk; by eapply H2].
    destruct Hs as [?|[?|?] ]; [by left|by right; left|right; right; facts].
  - intros H Hres. destruct (H Hres) as [(? & ? & ? & ? & ?)|[(? & ?)|[(? & ? & ?)|(? & ?)] ] ];
      [left|right; left|do 2 right; left|do 3 right]; eauto 10 with dialogue.
Qed.

Lemma promise_login res h : promise res h →
  promise res (did LoginCtxErr None :: h) ∧
  ∀ e, foreign e → promise (Some (Both ErrUnreachable ": " e)) (did LoginCtxErr (Some e) :: h).
Proof.
  intros [Hc Ht]. split; [split; [by apply claim_ctx|by apply tidy_ctx]|]. intros e He.
  split; [apply claim_failed; right; by apply foreign_both|by apply tidy_ctx].
Qed.
End contract.

(** ** The four steps *)

Section steps.
Context `{DL : !Difflib, XU : !XmlUnmarshal, XR : !XmlRaw} (req : DeviceRequest).

Ltac by_platform := unfold dialogueFor; repeat case_bool_decide; cbn [pd_dryRun pd_commit pd_confirm pd_rollback].

Lemma promise_early pu e h : foreign e → fresh h → promise pu req (Some e) h.
Proof. intros He Hf. split; [apply claim_failed; by right|by apply tidy_fresh]. Qed.

Lemma obeys_weaken pu (p : dialogue (option err)) h :
  obeys (permits pu req) answers record p (λ res h, foreign_opt res ∧ promise pu req res h) h → obeys (permits pu req) answers record p (promise pu req) h.
Proof. apply obeys_mono. by intros res h' []. Qed.

Lemma ok_step pu fn : (∀ h, fresh h → obeys (permits pu req) answers record fn (promise pu req) h) →
  obeys (permits pu req) answers record (on_client Some req fn) (promise pu req) [].
Proof.
  intros Hfn. apply ok_client; [by constructor|by intros; apply promise_early|]. intros h Hf.
  eapply obeys_mono; [|by apply Hfn]. intros res h'. apply promise_login.
Qed.

Lemma ok_in_session pu fn h : fresh h → (∀ h, fresh h → obeys (permits pu req) answers record fn (promise pu req) h) →
  obeys (permits pu req) answers record (onSession Some fn) (promise pu req) h.
Proof. intros Hf Hfn. apply ok_on_session; [done|by intros; apply promise_early|done]. Qed.

(** The check that a CLI candidate passes when it is planned. *)
Definition checked : Prop :=
  dr_Platform req ∈ [PlatformAristaEOS; PlatformCiscoIOS; PlatformJuniperJunos] →
  checkCLICandidate (dr_Platform req) (dr_Candidate req) = None.

(** A checked candidate is tame when it is typed. *)
Lemma checked_tame : checked → dr_Platform req = PlatformAristaEOS ∨ dr_Platform req = PlatformCiscoIOS → tame req.
Proof.
  intros Hc Hp. assert (checkCLICandidate (dr_Platform req) (dr_Candidate req) = None) as Hck.
  { apply Hc. destruct Hp as [-> | ->]; set_solver. }
  clear Hc. rename Hck into Hc. intros l n Hin. unfold checkCLICandidate, typed in *.
  apply typed_from_spec in Hin as (k & raw & Hk & -> & -> & Hne & _ & He).
  destruct (check_lines_line _ _ _ _ _ _ Hc Hk) as [Hctl Hw]. split_and!.
  - apply TrimRight_newline. eapply Split_no_sep. apply list_elem_of_lookup. by exists k.
  - destruct (TrimRight_prefix raw [space; tab]) as [p E]. rewrite E in Hctl. by eapply has_control_app.
  - exists raw. split; [by eapply list_elem_of_lookup_2|]. split; [done|]. unfold leaving. rewrite Z.add_0_l in *.
    destruct Hp as [Hp|Hp]; rewrite Hp in *.
    + rewrite bool_decide_eq_true_2 in Hw |- * by done. apply bool_decide_eq_false in Hw. split.
      * intros w Hin E. apply Hw. rewrite E. unfold eos_words. change (map ascii_bytes ?l) with (ascii_bytes <$> l).
        by apply list_elem_of_fmap_2.
      * intros E. apply Hw. rewrite E. apply (bool_decide_unpack _). by vm_compute.
    + rewrite bool_decide_eq_false_2 in Hw |- * by done. rewrite bool_decide_eq_true_2 in Hw by done.
      unfold iosModeControl in Hw. split.
      * intros w Hin E. rewrite E in Hw. apply elem_of_cons in Hin as [->|Hin%list_elem_of_singleton]; [|subst w];
          by apply andb_false_iff in Hw as [Hw|[_ Hw]%orb_false_iff].
      * intros E. change (ascii_bytes "end") with end_line in E. specialize (λ H, He H E) as He'.
        rewrite E in Hw. change (before_sep end_line space) with end_line in Hw.
        rewrite bool_decide_eq_true_2 in Hw by (apply (bool_decide_unpack _); by vm_compute).
        cbn [andb] in Hw. apply orb_false_iff in Hw as [Hw%negb_false_iff%Z.eqb_eq _]. by apply He'.
Qed.

Lemma checked_steady : checked → dr_Platform req = PlatformJuniperJunos → steady req.
Proof.
  intros Hc Hp raw [k Hk]%list_elem_of_lookup. unfold checked, checkCLICandidate in Hc. rewrite Hp in Hc.
  assert (PlatformJuniperJunos ∈ [PlatformAristaEOS; PlatformCiscoIOS; PlatformJuniperJunos]) as Hin by set_solver.
  by apply (check_lines_line _ _ _ _ _ _ (Hc Hin) Hk).
Qed.


(** C14: A confirm is reported, as done or as done but not saved, only when the
    device took the command that keeps this push's change, and as done only
    when the startup configuration was written where there is one to write. *)
Theorem Confirm_contract : obeys (permits Keep req) answers record (SSHFetcher_Confirm req) (promise Keep req) [].
Proof.
  unfold SSHFetcher_Confirm, pushStep. by_platform; [| | | |by apply promise_early; [|constructor] ]; apply ok_step; intros h Hf;
    (apply ok_in_session; [done|]); intros h' Hf'.
  - by apply netconfConfirm_ok.
  - by apply obeys_weaken, junosConfirm_ok.
  - by apply eosConfirm_ok.
  - by apply iosConfirm_ok.
Qed.

(** C12: A roll-back undoes this push and nothing else: Junos rolls one commit
    back only after its history showed the newest commit still pending, EOS
    and NETCONF name this push's session or token, and IOS reverts only after
    it showed a timer pending. Success is reported only when the device took
    the undoing command. *)
Theorem Rollback_contract : obeys (permits Undo req) answers record (SSHFetcher_Rollback req) (promise Undo req) [].
Proof.
  unfold SSHFetcher_Rollback, pushStep. by_platform; [| | | |by apply promise_early; [|constructor] ]; apply ok_step; intros h Hf;
    (apply ok_in_session; [done|]); intros h' Hf'.
  - by apply netconfRollback_ok.
  - by apply obeys_weaken, junosRollback_ok.
  - by apply eosRollback_ok.
  - by apply iosRollback_ok.
Qed.

Lemma ok_preview (fn : dialogue (DryRunResult + err)) :
  (∀ h, fresh h → obeys (permits Preview req) answers record fn (λ r h, promise Preview req (failure r) h) h) →
  obeys (permits Preview req) answers record (on_session inr req fn) (λ r h, promise Preview req (failure r) h) [].
Proof.
  intros Hfn. apply (ok_client Preview req inr); [by constructor|by intros; apply promise_early|]. intros h Hf.
  apply ok_on_session; [done|intros e h' He Hf'; apply (promise_login Preview req (Some e)); by apply promise_early|].
  intros h' Hf'. eapply obeys_mono; [|by apply Hfn]. intros r h''. apply promise_login.
Qed.

End steps.

(** ** Played against a device

    [react] is the device: what it sends back for each thing written, given
    all that was written before. *)
Section play.
Context (react : list bytes → bytes → list (bytes * option err)).

Record conn : Type := MkConn { cn_shell : cliShell; cn_written : list bytes }.

Definition write (w : conn) (text : bytes) : conn :=
  let s := cn_shell w in
  MkConn (MkShell (s_pending s) (s_prompt s) (s_last s) (s_reads s ++ react (cn_written w) text)) (cn_written w ++ [text]).
Definition with_shell (w : conn) (s : cliShell) : conn := MkConn s (cn_written w).

(** The methods of [CliShell] as the answers of the calls. *)
Definition serve (w : conn) (c : dcall) : option (dresp c * conn) :=
  match c with
  | StartShell =>
      match openCLIShell (react [] []) with
      | None => None
      | Some (inr e) => Some (inr e, w)
      | Some (inl s) => Some (inl (s_prompt s, s_last s), MkConn s [])
      end
  | Run command =>
      let text := text_of command in
      let w := write w (text ++ newline_text) in
      match run None text (cn_shell w) with None => None | Some (r, s) => Some (r, with_shell w s) end
  | SendText text => Some (None, write w text)
  | Expect what =>
      let s := cn_shell w in
      let re := match what with LoadReady => junosLoadReady | PromptOrPassword => either (s_prompt s) end in
      match shell_expect re s with (inl _, s) => Some (inl (s_last s), with_shell w s) | (inr e, s) => Some (inr e, with_shell w s) end
  | SendThrough text marker =>
      let w := write w text in
      match sendThrough None marker (cn_shell w) with
      | None => None
      | Some (inl (all, i), s) => Some (inl (all, i, s_last s), with_shell w s)
      | Some (inr e, s) => Some (inr e, with_shell w s)
      end
  | Random => Some (inl [1; 2; 3; 4; 5; 255], w)
  | Handshake _ _ pinned => Some (MkPresented pinned None, w)
  | ExecRun _ => Some (inr EOF, w)
  | NcReceive _ => Some (inr EOF, w)
  | Panic => None
  | Dial _ _ => Some (None, w)
  | LoginCtxErr => Some (None, w)
  | NewSession => Some (None, w)
  | ScpSink _ _ => Some (None, w)
  | ScpImage _ _ => Some (None, w)
  | StartNetconf => Some (Some EOF, w)
  | NcHello => Some (Some EOF, w)
  | NcSend _ _ _ => Some (Some EOF, w)
  end.

Fixpoint play {A} (p : dialogue A) (w : conn) : option (A * list bytes) :=
  match p with
  | Ret a => Some (a, cn_written w)
  | Call c k => match serve w c with Some (r, w) => play (k r) w | None => None end
  end.
Definition played {A} (p : dialogue A) : option (A * list bytes) := play p (MkConn (MkShell [] [] [] []) []).
End play.

(** Devices that echo each line, answer [out] and show a prompt. *)
Definition echoing (prompt : bytes → bytes) (out : bytes → bytes) (written : list bytes) (text : bytes) : list (bytes * option err) :=
  match text with
  | [] => [(prompt [], None)]
  | _ => [(concat (map (λ l, l ++ crlf ++ out l ++ prompt l) (removelast (Split text newline))), None)]
  end.
Definition line_text (s : string) : bytes := text_of s ++ crlf.
Definition line_is (l : bytes) (s : string) : bool := bool_decide (l = text_of s).

Definition push_request (platform mode : string) (candidate : bytes) : DeviceRequest :=
  MkDeviceRequest "r1" 22 "push" [] "SHA256:x" platform mode candidate "seed-0a".
Definition two_lines : bytes := text_of "hostname r2" ++ newline_text ++ text_of "vlan 7" ++ newline_text.
Definition written_text (w : list bytes) : list string := map string_of w.

(** IOS, in configuration mode from the timer to the end. *)
Definition ios_prompt (l : bytes) : bytes :=
  if bool_decide (l = [] ∨ l = text_of "end" ∨ l = text_of revert_now ∨ l = text_of "write memory") then text_of "r1#" else text_of "r1(config)#".
Definition ios_out (l : bytes) : bytes := if line_is l "vlan 8" then line_text "% Invalid input detected" else [].

Example ios_merge_accepted :
  match played (echoing ios_prompt ios_out) (iosMerge (push_request PlatformCiscoIOS PushMerge two_lines)) with
  | Some (r, w) => r = None ∧ map string_of (take 1 w) = [revert_timer +:+ nl] ∧ drop 2 (written_text w) = ["end" +:+ nl; "exit" +:+ nl]%string
  | None => False
  end.
Proof. by vm_compute. Qed.

(** A rejected line is named by its number, and what was typed is reverted. *)
Example ios_merge_rejected :
  let bad := text_of "hostname r2" ++ newline_text ++ text_of "vlan 8" ++ newline_text in
  match played (echoing ios_prompt ios_out) (iosMerge (push_request PlatformCiscoIOS PushMerge bad)) with
  | Some (r, w) =>
      r = Some (cmd_err "the device rejected the candidate: line 2: % Invalid input detected") ∧
      drop 2 (written_text w) = ["end" +:+ nl; revert_now +:+ nl; "exit" +:+ nl]%string
  | None => False
  end.
Proof. by vm_compute. Qed.

(** EOS refuses the timer while another commit is pending: the session stays
    on the device, loaded and neither committed nor aborted. *)
Definition eos_prompt (l : bytes) : bytes :=
  if bool_decide (l = [] ∨ l = text_of commit_timer) then text_of "r1#" else text_of "r1(config-s-seed-0a)#".
Definition eos_out (l : bytes) : bytes := if line_is l commit_timer then line_text "% Another commit timer is pending" else [].
Example session_left_behind :
  match played (echoing eos_prompt eos_out) (eosCommit (push_request PlatformAristaEOS PushMerge two_lines)) with
  | Some (Some _, w) => drop 2 (written_text w) = [commit_timer +:+ nl; "exit" +:+ nl]%string
  | _ => False
  end.
Proof. by vm_compute. Qed.

(** A Junos confirm that completes, and a session that closes at the clean-up
    after it: the step fails although the device keeps the change. *)
Definition junos_prompt (l : bytes) : bytes := text_of "push@r1> ".
Definition junos_out (l : bytes) : bytes := if line_is l "commit" then line_text "commit complete" else [].
Definition junos_device (written : list bytes) (text : bytes) : list (bytes * option err) :=
  if line_is text ("rollback 0" +:+ nl) then [([], Some EOF)] else echoing junos_prompt junos_out written text.
Example confirm_done_and_failed :
  match played junos_device (junosConfirm (push_request PlatformJuniperJunos PushMerge [])) with
  | Some (r, w) => r = Some (closed_err EOF) ∧ written_text w = ["configure private" +:+ nl; "commit" +:+ nl; "rollback 0" +:+ nl; "exit" +:+ nl]%string
  | None => False
  end.
Proof. by vm_compute. Qed.

Definition no_xml : XmlUnmarshal := {| hello_capabilities := λ _, inr EmptyString; unmarshal_reply := λ _, inr EmptyString |}.
Definition no_raw : XmlRaw := {| raw_tokens := λ _, ([], false) |}.

(** A candidate line "write memory" is refused by the check, so it is never
    typed. *)
Example write_refused :
  ¬ checked (push_request PlatformAristaEOS PushMerge (two_lines ++ text_of "write memory" ++ newline_text)).
Proof. intros H. specialize (H (list_elem_of_here _ _)). vm_compute in H. discriminate. Qed.

