(* ===== verification/ImageStage.v ===== *)
(** * Image staging on the device (src/internal/deviceconfig/image_ssh.go, scp.go)

    Reading a device's version and flash, copying an image to it over SCP,
    having it hash its copy, and setting the copy to boot, as dialogues of one
    login. [encoding/xml] is a parameter: the tokens of a reply, with what the
    decoder makes of the element a token starts. *)
From Stdlib Require Import ZArith Lia Ascii.
From stdpp Require Import base sets list strings pretty.
From S2P Require Import Prelude GoBase GoText IosConfig Effects ConfigStore ConfigBackup ConfigPush CliShell Dialogue Netconf CliPush.
#[local] Open Scope prog_scope.

(** ** Patterns

    A pattern is tried at every position, or at every start of a line; it
    gives its first group. *)
Section patterns.
Context (p : bytes → option bytes).
Fixpoint find_at (s : bytes) : option bytes :=
  match p s with
  | Some g => Some g
  | None => match s with [] => None | _ :: s => find_at s end
  end.
Fixpoint find_line (start : bool) (s : bytes) : option bytes :=
  match (if start then p s else None) with
  | Some g => Some g
  | None => match s with [] => None | c :: s => find_line (c =? newline) s end
  end.
End patterns.

Fixpoint span (f : Z → bool) (s : bytes) : bytes * bytes :=
  match s with
  | c :: rest => if f c then let '(a, b) := span f rest in (c :: a, b) else ([], s)
  | [] => ([], [])
  end.
(** [x+], greedily. *)
Definition some_of (f : Z → bool) (s : bytes) : option (bytes * bytes) :=
  match span f s with ([], _) => None | r => Some r end.

(** [\s] *)
Definition re_space (c : Z) : bool := bool_decide (c ∈ [9; 10; 12; 13; 32]).
Definition quote : Z := 34.
Definition comma : Z := 44.
Definition colon : Z := 58.

Definition after (prefix : string) (f : Z → bool) (s : bytes) : option bytes :=
  s ← CutPrefix s (text_of prefix); r ← some_of f s; Some r.1.
(** ... up to a closing byte. *)
Definition closed_by (prefix : string) (close : Z) (s : bytes) : option bytes :=
  s ← CutPrefix s (text_of prefix);
  '(g, rest) ← some_of (λ c, negb (c =? close)) s;
  match rest with [] => None | _ => Some g end.
Definition or_else (p q : bytes → option bytes) (s : bytes) : option bytes := match p s with Some g => Some g | None => q s end.

Definition iosVersion : bytes → option bytes :=
  find_line (λ s, s ← CutPrefix s (text_of "Cisco IOS");
    find_at (after "Version " (λ c, negb (re_space c || (c =? comma)))) (before_sep s newline)) true.
Definition iosSystemImage : bytes → option bytes :=
  find_at (closed_by (string_of (text_of "System image file is " ++ [quote])) quote).
Definition eosVersion : bytes → option bytes := find_line (after "Software image version: " (λ c, negb (re_space c))) true.
Definition eosBootImage : bytes → option bytes := find_line (after "Software image: " (λ c, negb (re_space c))) true.
Definition freeBytes : bytes → option bytes :=
  find_at (λ s, s ← CutPrefix s (text_of "(");
    '(g, s) ← some_of is_digit s; _ ← CutPrefix s (text_of " bytes free)"); Some g).

Definition is_hex (c : Z) : bool := is_digit c || ((65 <=? c) && (c <=? 70)) || ((97 <=? c) && (c <=? 102)).
(** [\s*$] of a line: white space, then the end of a line or of the text. *)
Definition ends_line (s : bytes) : bool :=
  match (span (λ c, re_space c && negb (c =? newline)) s).2 with [] => true | c :: _ => c =? newline end.
Definition verified_hash (n : nat) : bytes → option bytes :=
  find_at (λ s, s ← CutPrefix s (text_of "=");
    let s := (span (λ c, c =? space) s).2 in
    let g := take n s in
    if bool_decide (length g = n) && forallb is_hex g && ends_line (drop n s) then Some g else None).
Definition verifiedSHA512 : bytes → option bytes := verified_hash 128.
Definition junosSHA256 : bytes → option bytes := verified_hash 64.
Definition junosVersion : bytes → option bytes :=
  find_line (or_else (after "Junos: " (λ c, negb (re_space c)))
    (or_else (closed_by "JUNOS Software Release [" 93) (closed_by "JUNOS Base OS boot [" 93))) true.

(** [(?i)reboot is required]; the long s folds to an s. *)
Fixpoint folds (p s : bytes) : bool :=
  match p with
  | [] => true
  | c :: p =>
      match s with
      | d :: s' =>
          if bool_decide (lower [d] = [c]) then folds p s'
          else match s' with
               | e :: s' => (c =? 115) && (d =? 197) && (e =? 191) && folds p s'
               | [] => false
               end
      | [] => false
      end
  end.
Definition junosRebootRequired (out : bytes) : bool :=
  match find_at (λ s, if folds (text_of "reboot is required") s then Some [] else None) out with Some _ => true | None => false end.

(** [submatch] *)
Definition submatch (re : bytes → option bytes) (s : bytes) : bytes := default [] (re s).

(** ** Commands *)

(** [execChecked] *)
Definition execChecked (errors : bytes → list bytes) (command : string) : dialogue (bytes + err) :=
  out <~! onSession inr (say (ExecRun command));
  Ret match errors out with [] => inl out | msgs => inr (command_error command msgs) end.
Definition execCommand : string → dialogue (bytes + err) := execChecked cliErrors.
Definition junosExec : string → dialogue (bytes + err) := execChecked junosErrors.

(** ** What the device runs *)

Definition junosStagingDir : string := "/var/tmp/".
Definition junosBlockSize : Z := 512.

Record junosFilesystem : Type := MkFilesystem { fs_Available : Z; fs_MountedOn : bytes }.

(** The tokens of a reply until the decoder's error; an element comes with
    what [DecodeElement] would read of it. *)
Inductive storage_token : Type :=
| StartElement (name : string) (decoded : list junosFilesystem + string)
| OtherToken.
Class StorageXml : Type := { storage_tokens : bytes → list storage_token }.

Definition mountHolds (mount path : bytes) : bool :=
  bool_decide (mount = [47]) || bool_decide (path = mount) || HasPrefix path (TrimSuffix mount [47] ++ [47]).
Definition holds (dir : bytes) (fs : junosFilesystem) : bool :=
  mountHolds (TrimSpace (fs_MountedOn fs)) dir || mountHolds (TrimSpace (fs_MountedOn fs)) (text_of "/.mount" ++ dir).
Definition mount_len (fs : junosFilesystem) : Z := len (TrimSpace (fs_MountedOn fs)).
Fixpoint best_filesystem (dir : bytes) (fss : list junosFilesystem) (best : option junosFilesystem) : option junosFilesystem :=
  match fss with
  | [] => best
  | fs :: fss =>
      best_filesystem dir fss
        (if negb (holds dir fs) then best
         else match best with
              | None => Some fs
              | Some b => if mount_len b <? mount_len fs then Some fs else best
              end)
  end.
Fixpoint storage_information (toks : list storage_token) : option (list junosFilesystem + string) :=
  match toks with
  | [] => None
  | StartElement name decoded :: toks =>
      if bool_decide (name = "system-storage-information"%string) then Some decoded else storage_information toks
  | OtherToken :: toks => storage_information toks
  end.
Definition junosFreeBytes `{!StorageXml} (storage : bytes) (dir : string) : Z + err :=
  match storage_information (storage_tokens storage) with
  | None => inr (cmd_err "the device did not list its storage")
  | Some (inr e) => inr (Both ErrCommand ": read the device's storage: " (OtherError e))
  | Some (inl fss) =>
      match best_filesystem (text_of dir) fss None with
      | None => inr (cmd_err ("the device listed no file system holding " +:+ dir))
      | Some fs => inl (sign_wrap 64 (fs_Available fs * junosBlockSize))
      end
  end.

(** [imageFacts] and [junosImageFacts] *)
Definition show_storage : string := "show system storage | display xml".
Definition show_version : string := "show version".
Definition show_boot : string := "show boot-config".
Definition junosImageFacts `{!StorageXml} : dialogue (ImageFacts + err) :=
  version <~! junosExec show_version;
  match junosVersion version with
  | None => Ret (inr (cmd_err "the device did not name its running release"))
  | Some v =>
      storage <~! junosExec show_storage;
      Ret match junosFreeBytes storage junosStagingDir with
          | inl free => inl (MkImageFacts (string_of v) "" junosStagingDir free false)
          | inr e => inr e
          end
  end.

Definition flash_dir (image : bytes) : string :=
  if IndexByte image colon <? 0 then "flash:" else string_of (before_sep image colon ++ [colon]).
Definition dir_facts (version image : bytes) (install : bool) : dialogue (ImageFacts + err) :=
  if bool_decide (version = []) || bool_decide (image = [])
  then Ret (inr (cmd_err "the device did not name its running version and image"))
  else
    let dir := flash_dir image in
    out <~! execCommand ("dir " +:+ dir);
    Ret match ParseInt (submatch freeBytes out) with
        | Some free => inl (MkImageFacts (string_of version) (string_of image) dir free install)
        | None => inr (cmd_err ("dir " +:+ dir +:+ " did not report the free space"))
        end.
Definition cannot_stage (platform : string) : err := cmd_err ("cannot stage an image on " +:+ platform).
Definition imageFacts `{!StorageXml} (platform : string) : dialogue (ImageFacts + err) :=
  if bool_decide (platform = PlatformJuniperJunos) then junosImageFacts
  else
    version <~! execCommand show_version;
    if bool_decide (platform = PlatformCiscoIOS) then
      let image := submatch iosSystemImage version in
      dir_facts (submatch iosVersion version) image (bool_decide (fileName (string_of image) = "packages.conf"%string))
    else if bool_decide (platform = PlatformAristaEOS) then
      boot <~! execCommand show_boot;
      dir_facts (submatch eosVersion version) (submatch eosBootImage boot) false
    else if bool_decide (platform = PlatformCiscoNXOS ∨ platform = PlatformNETCONF) then Ret (inr (cannot_stage platform))
    else dir_facts [] [] false.
Definition SSHFetcher_ImageFacts `{!StorageXml} (req : DeviceRequest) : dialogue (ImageFacts + err) :=
  on_client inr req (imageFacts (dr_Platform req)).

(** ** Copy and check *)

Definition text_suffix (s suffix : string) : string := string_of (TrimSuffix (text_of s) (text_of suffix)).

(** [deleteImageFile] *)
Definition delete_command (platform : string) (img : DeviceImage) : string :=
  if bool_decide (platform = PlatformAristaEOS) then "delete " +:+ Path img
  else if bool_decide (platform = PlatformJuniperJunos) then "file delete " +:+ Path img
  else "delete /force " +:+ Path img.
Definition device_errors (platform : string) : bytes → list bytes :=
  if bool_decide (platform = PlatformJuniperJunos) then junosErrors else cliErrors.
Definition deleteImageFile (platform : string) (img : DeviceImage) : dialogue (option err) :=
  r <~ execChecked (device_errors platform) (delete_command platform img);
  Ret (failure r).

(** [CopyImage] *)
Definition copy_path (platform : string) (img : DeviceImage) : string :=
  if bool_decide (platform = PlatformAristaEOS) then "/mnt/" +:+ text_suffix (di_Dir img) ":" +:+ "/" +:+ di_Name img
  else Path img.
Definition copyImage (platform : string) (img : DeviceImage) : dialogue (option err) :=
  e <~ say (ScpImage (copy_path platform img) (di_Size img));
  match e with
  | None => Ret None
  | Some e =>
      ctx <~ say LoginCtxErr;
      match ctx with
      | Some _ => Ret (Some e)
      | None => quietly deleteImageFile platform img; Ret (Some e)
      end
  end.
Definition SSHFetcher_CopyImage (req : DeviceRequest) (img : DeviceImage) : dialogue (option err) :=
  on_client Some req (copyImage (dr_Platform req) img).

(** [VerifyImage] *)
Definition verify_command (platform : string) (img : DeviceImage) : string :=
  if bool_decide (platform = PlatformJuniperJunos) then "file checksum sha-256 " +:+ Path img
  else "verify /sha512 " +:+ Path img.
Definition hash_of (platform : string) : bytes → option bytes :=
  if bool_decide (platform = PlatformJuniperJunos) then junosSHA256 else verifiedSHA512.
Definition want_hash (platform : string) (img : DeviceImage) : bytes :=
  text_of (if bool_decide (platform = PlatformJuniperJunos) then di_SHA256 img else di_SHA512 img).
(** [strings.EqualFold] of hexadecimal digits *)
Definition EqualFold (a b : bytes) : bool := bool_decide (lower a = lower b).
Definition verifyImage (platform : string) (img : DeviceImage) : dialogue (option err) :=
  let command := verify_command platform img in
  out <~? execChecked (device_errors platform) command;
  let sum := submatch (hash_of platform) out in
  if bool_decide (sum = []) then Ret (Some (cmd_err (command +:+ " printed no hash")))
  else if EqualFold sum (want_hash platform img) then Ret None
  else
    deleted <~ deleteImageFile platform img;
    Ret (Join [Some ErrImageCorrupt; deleted]).
Definition SSHFetcher_VerifyImage (req : DeviceRequest) (img : DeviceImage) : dialogue (option err) :=
  on_client Some req (verifyImage (dr_Platform req) img).

(** ** Boot *)

(** [junosSoftwareAdd] *)
Definition software_add (img : DeviceImage) : string := "request system software add " +:+ Path img.
Definition junosSoftwareAdd (img : DeviceImage) : dialogue (option err) :=
  out <~? junosExec (software_add img);
  Ret (if junosRebootRequired out then None
       else Some (cmd_err (software_add img +:+ " did not report the package installed for the next boot"))).

(** [bootStatements] *)
Definition bootStatements (config : bytes) : list bytes :=
  omap (λ line, let line := TrimSpace line in if HasPrefix line (text_of "boot system ") then Some line else None) (Split config newline).

(** [iosBootSystem] *)
Definition no_boot_system : string := "no boot system".
Fixpoint type_statements (statements : list bytes) : dialogue (option err) :=
  match statements with
  | [] => Ret None
  | statement :: statements => check cliCommand (string_of statement); type_statements statements
  end.
Definition iosBootSystem (statements : list bytes) : dialogue (option err) :=
  check cliCommand no_boot_system; type_statements statements.

(** [iosWriteBoot] *)
Definition iosWriteBoot (want had : list bytes) : dialogue (option err) :=
  _ <~? openPrivileged;
  check cliCommand "configure terminal";
  set <~ (e <~ iosBootSystem want;
          match e with
          | None => Ret None
          | Some _ => e' <~ iosBootSystem had; Ret (Join [e; e'])
          end);
  ended <~ cliCommand "end";
  match Join [set; ended] with
  | Some e => quietly leave; Ret (Some e)
  | None => saveStartup
  end.

(** [iosSetBoot] *)
Definition show_boot_system : string := "show running-config | include ^boot system".
Definition boot_want (img : DeviceImage) : list bytes :=
  [text_of ("boot system " +:+ Path img); text_of ("boot system " +:+ di_Fallback img)].
Definition iosSetBoot (img : DeviceImage) : dialogue (option err) :=
  before <~? execCommand show_boot_system;
  check onSession Some (iosWriteBoot (boot_want img) (bootStatements before));
  after <~? execCommand show_boot_system;
  Ret (if bool_decide (bootStatements after = boot_want img) then None
       else Some (cmd_err "the device's boot statements are not the ones set")).

(** [eosSetBoot] *)
Definition boot_system (img : DeviceImage) : string := "boot system " +:+ Path img.
Definition eosSetBoot (img : DeviceImage) : dialogue (option err) :=
  check onSession Some
    (_ <~? openPrivileged;
     check cliCommand "configure";
     set <~ cliCommand (boot_system img);
     ended <~ cliCommand "end";
     quietly leave;
     Ret (Join [set; ended]));
  boot <~? execCommand show_boot;
  Ret (if bool_decide (fileName (string_of (submatch eosBootImage boot)) = di_Name img) then None
       else Some (cmd_err "the device's boot image is not the one set")).

(** [SetBoot] *)
Definition setBoot (platform : string) (img : DeviceImage) : dialogue (option err) :=
  if bool_decide (platform = PlatformAristaEOS) then eosSetBoot img
  else if bool_decide (platform = PlatformJuniperJunos) then junosSoftwareAdd img
  else if bool_decide (platform = PlatformCiscoIOS) then iosSetBoot img
  else Ret (Some (cannot_stage platform)).
Definition SSHFetcher_SetBoot (req : DeviceRequest) (img : DeviceImage) : dialogue (option err) :=
  on_client Some req (setBoot (dr_Platform req) img).

(** ** An SCP copy (scp.go) *)

Inductive scall : Type :=
| StdinPipe | StdoutPipe
| Start (command : string)
| ReadByte | ReadString
| Write (text : bytes)                  (* how much of it was taken *)
| CopyBody (size : Z).                  (* io.Copy of at most so much: what was taken of the body *)
Definition sresp (c : scall) : Type :=
  match c with
  | ReadByte => Z + err
  | ReadString => bytes
  | Write _ => Z * option err
  | CopyBody _ => bytes * option err
  | _ => option err
  end.
Definition scp (c : scall) : prog sresp (sresp c) := Call c Ret.
Notation "'good' e <- r 'else' w ; f" := (match r with Some e => Ret (Some w) | None => f end)
  (at level 20, e name, r at level 100, w at level 100, f at level 200, right associativity, only parsing) : prog_scope.

Definition scp_err (what : string) (e : err) : err := Both ErrCommand (": scp: " +:+ what) e.

(** [scpAck] *)
Definition scpAck : prog sresp (option err) :=
  b <~ scp ReadByte;
  match b with
  | inr e => Ret (Some (scp_err "the device closed the copy: " e))
  | inl 0 => Ret None
  | inl _ => msg <~ scp ReadString; Ret (Some (cmd_err ("scp: the device refused the copy: " +:+ string_of (TrimSpace msg))))
  end.

(** [scpSink], in its session *)
Definition scp_header (path : string) (size : Z) : bytes :=
  text_of "C0600 " ++ text_of (itoa size) ++ [space] ++ text_of (fileName path) ++ newline_text.
Definition scpSink (path : string) (size : Z) : prog sresp (option err) :=
  e <~ scp StdinPipe; good e <- e else scp_err "" e;
  e <~ scp StdoutPipe; good e <- e else scp_err "" e;
  e <~ scp (Start ("scp -t " +:+ path)); good e <- e else Both ErrCommand ": start scp on the device: " e;
  e <~ scpAck; good e <- e else e;
  w <~ scp (Write (scp_header path size)); good e <- w.2 else scp_err "write to the device: " e;
  e <~ scpAck; good e <- e else e;
  c <~ scp (CopyBody size); good e <- c.2 else scp_err "write to the device: " e;
  if negb (len c.1 =? size)
  then Ret (Some (cmd_err ("scp: the file ended after " +:+ itoa (len c.1) +:+ " of " +:+ itoa size +:+ " bytes")))
  else
    w <~ scp (Write [0]); good e <- w.2 else scp_err "write to the device: " e;
    scpAck.

(** ** The file system that holds the staging directory *)

Lemma best_filesystem_spec dir fss : ∀ best,
  match best_filesystem dir fss best with
  | None => best = None ∧ Forall (λ fs, holds dir fs = false) fss
  | Some fs => (best = Some fs ∨ fs ∈ fss ∧ holds dir fs = true) ∧
      Forall (λ fs', holds dir fs' = true → mount_len fs' ≤ mount_len fs) fss ∧
      (∀ b, best = Some b → mount_len b ≤ mount_len fs)
  end.
Proof.
  induction fss as [|f fss IH]; intros best; cbn [best_filesystem].
  - destruct best as [fs|]; [|done]. split; [by left|]. split; [done|]. by intros b [= ->].
  - match goal with |- context [best_filesystem dir fss ?b] => set (best' := b); specialize (IH best') end.
    assert (match best' with None => best = None ∧ holds dir f = false
            | Some b => (best = Some b ∨ b = f ∧ holds dir f = true) ∧ (holds dir f = true → mount_len f ≤ mount_len b) ∧
                ∀ b', best = Some b' → mount_len b' ≤ mount_len b end) as Hb.
    { unfold best'. destruct (holds dir f) eqn:Ef; cbn [negb].
      - destruct best as [b|]; [|split; [by right|]; split; [lia|done] ].
        destruct (mount_len b <? mount_len f) eqn:E; [apply Z.ltb_lt in E|apply Z.ltb_ge in E].
        + split; [by right|]. split; [lia|]. intros b' [= <-]. lia.
        + split; [by left|]. split; [lia|]. intros b' [= <-]. lia.
      - destruct best as [b|]; [|done]. split; [by left|]. split; [done|]. intros b' [= <-]. lia. }
    clearbody best'. destruct (best_filesystem dir fss best') as [fs|].
    + destruct IH as (Hfrom & Hall & Hmax). destruct best' as [b|].
      * destruct Hb as (Hb & Hf & Hb'). specialize (Hmax b eq_refl). split; [|split].
        -- destruct Hfrom as [ [= ->]|[Hin Hh] ]; [|right; split; [by right|done] ].
           destruct Hb as [Hb|[-> Hh] ]; [by left|right; split; [by left|done] ].
        -- constructor; [|done]. intros Hh. specialize (Hf Hh). lia.
        -- intros b' Eb. specialize (Hb' b' Eb). lia.
      * destruct Hb as [-> Hf]. destruct Hfrom as [?|[Hin Hh] ]; [done|]. split; [right; split; [by right|done]|].
        split; [|done]. constructor; [by rewrite Hf|done].
    + destruct IH as [-> Hall]. destruct Hb as [-> Hf]. split; [done|]. by constructor.
Qed.

(** The free space read is that of a listed file system that holds the staging
    directory, the one mounted deepest; when none is reported, none holds it. *)
Theorem junosFreeBytes_spec `{!StorageXml} storage dir :
  match junosFreeBytes storage dir with
  | inl free => ∃ fss fs, storage_information (storage_tokens storage) = Some (inl fss) ∧ fs ∈ fss ∧
      holds (text_of dir) fs = true ∧ free = sign_wrap 64 (fs_Available fs * junosBlockSize) ∧
      Forall (λ fs', holds (text_of dir) fs' = true → mount_len fs' ≤ mount_len fs) fss
  | inr e => Is e ErrCommand = true ∧
      ∀ fss, storage_information (storage_tokens storage) = Some (inl fss) → Forall (λ fs, holds (text_of dir) fs = false) fss
  end.
Proof.
  unfold junosFreeBytes. destruct (storage_information _) as [ [fss|e]|]; [|done|done].
  pose proof (best_filesystem_spec (text_of dir) fss None) as Hbest. destruct (best_filesystem _ _ _) as [fs|].
  - destruct Hbest as ([?|[Hin Hh] ] & Hall & _); [done|]. by exists fss, fs.
  - destruct Hbest as [_ Hbest]. split; [done|]. by intros fss' [= <-].
Qed.

(** ** The boot statements of an IOS device *)

(** What a device holds that obeys the commands it accepts: the statements of
    its running and startup configurations; whether the session failed; and
    whether it refused to drop its statements or to take one of its own. *)
Record bootdev : Type := MkBoot {
  bd_running : list bytes; bd_startup : list bytes; bd_broken : bool; bd_refused : bool }.
Definition is_statement (l : bytes) : Prop := HasPrefix l (text_of "boot system ") = true ∧ Forall is_byte l.

Section boot.
Context (want had startup : list bytes).

Definition obeyed (command : string) (s : bootdev) : bootdev :=
  if bool_decide (command = no_boot_system) then MkBoot [] (bd_startup s) (bd_broken s) (bd_refused s)
  else if bool_decide (command = "write memory"%string) then MkBoot (bd_running s) (bd_running s) (bd_broken s) (bd_refused s)
  else if HasPrefix (text_of command) (text_of "boot system ")
  then MkBoot (bd_running s ++ [text_of command]) (bd_startup s) (bd_broken s) (bd_refused s)
  else s.
Definition refused (command : string) (s : bootdev) : bootdev :=
  MkBoot (bd_running s) (bd_startup s) (bd_broken s)
    (bd_refused s || bool_decide (command = no_boot_system ∨ text_of command ∈ had)).
Definition boot_next (s : bootdev) (c : dcall) : dresp c → bootdev :=
  match c return dresp c → bootdev with
  | Run command => λ r,
      match r with
      | inr _ => MkBoot (bd_running s) (bd_startup s) true (bd_refused s)
      | inl out => match cliErrors out with [] => obeyed command s | _ => refused command s end
      end
  | _ => λ _, s
  end.

Abbreviation okb := (obeys (λ _ _, True) (λ _ _, True) boot_next).

Lemma okb_say c (Q : dresp c → bootdev → Prop) s : (∀ r, Q r (boot_next s c r)) → okb (say c) Q s.
Proof. intros HQ. split; [done|]. intros r _. apply HQ. Qed.

Lemma okb_command command (Q : option err → bootdev → Prop) s :
  Q None (obeyed command s) → (∀ e, Q (Some e) (refused command s)) →
  (∀ e, Q (Some e) (MkBoot (bd_running s) (bd_startup s) true (bd_refused s))) → okb (cliCommand command) Q s.
Proof.
  intros Hnone Href Hbrk. apply obeys_bind, okb_say. intros [out|e]; cbn; [|by apply Hbrk].
  destruct (cliErrors out) as [|m ms]; [done|apply Href].
Qed.
Lemma okb_then p f Q s : okb p (λ r s, match r with None => okb f Q s | Some e => Q (Some e) s end) s → okb (then_err p f) Q s.
Proof. intros H. apply obeys_bind. eapply obeys_mono; [|exact H]. by intros [e|]. Qed.

(** A session that works, with a device that takes its own statements back. *)
Definition sound (s : bootdev) : Prop := bd_broken s = false ∧ bd_refused s = false.

Lemma is_statement_plain l : is_statement l → string_of l ≠ no_boot_system ∧ string_of l ≠ "write memory"%string ∧
  text_of (string_of l) = l ∧ HasPrefix (text_of (string_of l)) (text_of "boot system ") = true.
Proof.
  intros [Hp Hb]. assert (text_of (string_of l) = l) as E by by apply bytes_string. rewrite E.
  split; [intros H; rewrite <- E, H in Hp; by vm_compute in Hp|]. split; [intros H; rewrite <- E, H in Hp; by vm_compute in Hp|done].
Qed.

(** Typing a list of statements: all of them, or as many as were taken. *)
Lemma okb_statements l (Q : option err → bootdev → Prop) s :
  Forall is_statement l →
  Q None (MkBoot (bd_running s ++ l) (bd_startup s) (bd_broken s) (bd_refused s)) →
  (∀ e s', bd_startup s' = bd_startup s → (sound s' → sound s ∧ ∃ x, x ∈ l ∧ x ∉ had) → Q (Some e) s') →
  okb (type_statements l) Q s.
Proof.
  intros Hl. revert s. induction Hl as [|x l Hx Hl IH]; intros s Hnone Hsome; cbn [type_statements].
  - cbn. rewrite app_nil_r in Hnone. by destruct s.
  - destruct (is_statement_plain x Hx) as (H1 & H2 & E & Hp). apply okb_then, okb_command.
    + unfold obeyed. rewrite !bool_decide_eq_false_2, Hp, E by done. apply IH; cbn.
      * by rewrite <- app_assoc.
      * intros e s' Hs H. apply Hsome; [done|]. intros Hs'. destruct (H Hs') as (Hss & y & Hy & Hn). split; [done|].
        exists y. split; [by right|done].
    + intros e. apply Hsome; [done|]. unfold sound, refused. cbn. rewrite E. intros [Hb [Hr Hd]%orb_false_iff].
      apply bool_decide_eq_false in Hd. split; [done|]. exists x. split; [by left|]. tauto.
    + intros e. apply Hsome; [done|]. by intros [? _].
Qed.

(** Replacing the statements: all are set; or the device kept what it had; or
    it had dropped them when it refused one that is not its own. *)
Lemma okb_replace l (Q : option err → bootdev → Prop) s :
  Forall is_statement l →
  Q None (MkBoot l (bd_startup s) (bd_broken s) (bd_refused s)) →
  (∀ e s', bd_startup s' = bd_startup s → (sound s' → sound s ∧ ∃ x, x ∈ l ∧ x ∉ had) → Q (Some e) s') →
  okb (iosBootSystem l) Q s.
Proof.
  intros Hl Hnone Hsome. apply okb_then, okb_command; cbn.
  - apply okb_statements; [done|done|]. intros e s' Hs H. by apply Hsome.
  - intros e. apply Hsome; [done|]. unfold sound, refused. cbn. intros [Hb [Hr Hd]%orb_false_iff].
    apply bool_decide_eq_false in Hd. tauto.
  - intros e. apply Hsome; [done|]. by intros [? _].
Qed.

Lemma okb_open (Q : shell + err → bootdev → Prop) s : (∀ r, Q r s) → okb openShell Q s.
Proof. intros HQ. apply obeys_bind, okb_say. intros [ [name last]|e]; apply HQ. Qed.
Lemma okb_privileged (Q : shell + err → bootdev → Prop) s : (∀ r, Q r s) → okb openPrivileged Q s.
Proof.
  intros HQ. apply obeys_try, okb_open. intros [sh|e]; [|by apply HQ].
  destruct (negb _); [by apply HQ|]. apply obeys_do, okb_say. intros [e|]; [by apply HQ|].
  apply obeys_try, okb_say. intros [l|e]; [|by apply HQ]. destruct (negb _); [|by apply HQ].
  apply obeys_bind, okb_say. intros r. by apply HQ.
Qed.

(** C35: Setting the boot statements ends with the device's new statements or with
    the ones it had, in a session that works with a device that takes its own
    statements back; the startup configuration is written only with the new
    ones, and success means it was. *)
Theorem iosWriteBoot_restores : Forall is_statement want → Forall is_statement had →
  okb (iosWriteBoot want had)
    (λ res s, sound s →
      (bd_running s = want ∧ (bd_startup s = startup ∨ bd_startup s = want) ∧ (res = None → bd_startup s = want)) ∨
      (bd_running s = had ∧ bd_startup s = startup ∧ res ≠ None))
    (MkBoot had startup false false).
Proof.
  intros Hwant Hhad.
  set (post := λ (res : option err) s, sound s → _). assert (∀ e s, bd_running s = had → bd_startup s = startup → post (Some e) s) as Hkept.
  { intros e s Hr Hs _. right. done. }
  apply obeys_bind, okb_privileged. intros [sh|e]; [|by apply Hkept].
  apply okb_then, okb_command; [|by intros; apply Hkept..]. change (obeyed "configure terminal" ?s) with s.
  assert (∀ e s, (sound s → bd_running s = had ∧ bd_startup s = startup) →
    okb (pbind (cliCommand "end") (λ ended, match Join [Some e; ended] with Some e => quietly leave; Ret (Some e) | None => saveStartup end)) post s) as Hfail.
  { intros e s Hs. assert (∀ r s', (sound s' → sound s) → bd_running s' = bd_running s → bd_startup s' = bd_startup s →
      okb (match Join [Some e; r] with Some e => quietly leave; Ret (Some e) | None => saveStartup end) post s') as Hend.
    { intros r s' Hss Hrun Hst. destruct (Join [Some e; r]) as [e'|] eqn:E; [|by destruct r].
      apply obeys_bind, okb_say. intros r'. cbn. intros Hs'. rewrite Hrun, Hst. right. destruct (Hs (Hss Hs')). done. }
    apply obeys_bind, okb_command; [by apply Hend| |]; intros; apply Hend; try done;
      unfold sound, refused; cbn; [intros [? [? ?]%orb_false_iff]; done|by intros [? ?] ]. }
  apply obeys_bind, obeys_bind, okb_replace; [done| |].
  - (* all set: end, then save *)
    cbn [obeys bd_startup bd_broken bd_refused]. apply obeys_bind, okb_command; cbn [Join obeys].
    + change (obeyed "end" ?s) with s. apply obeys_bind, okb_command; [| |].
      * apply obeys_bind, okb_say. intros r _. by left; split; [|split; [right|] ].
      * intros e. apply obeys_bind, okb_say. intros r _. by left; split; [|split; [left|] ].
      * intros e. apply obeys_bind, okb_say. by intros r [? _].
    + intros e. apply obeys_bind, okb_say. intros r _. by left; split; [|split; [left|] ].
    + intros e. apply obeys_bind, okb_say. by intros r [? _].
  - (* one refused: put back *)
    intros e s Hst _. apply obeys_bind, okb_replace; [done| |].
    + cbn [obeys]. apply Hfail. cbn. done.
    + intros e' s' Hst' H. cbn [obeys]. apply Hfail. intros Hs. destruct (H Hs) as (_ & x & Hx & Hn). done.
Qed.
End boot.

(** ** A copy over SCP *)

(** What a device makes of the bytes it is sent: a file, once it has its
    header, as many bytes as the header says, and the closing zero. *)
Definition scp_receive (wire : bytes) : option (bytes * bytes) :=
  rest ← CutPrefix wire (text_of "C0600 ");
  let number := before_sep rest space in
  size ← Atoi number;
  let rest := drop (S (length number)) rest in
  let name := before_sep rest newline in
  let rest := drop (S (length name)) rest in
  if (0 <=? size) && (len rest =? size + 1) && bool_decide (last rest = Some 0)
  then Some (name, take (Z.to_nat size) rest) else None.

(** The bytes sent, what of them are the body's, and the zeros answered. *)
Record scpState : Type := MkScp { sp_wire : bytes; sp_body : bytes; sp_acks : nat }.
Definition scp_next (s : scpState) (c : scall) : sresp c → scpState :=
  match c return sresp c → scpState with
  | ReadByte => λ r, match r with inl 0 => MkScp (sp_wire s) (sp_body s) (S (sp_acks s)) | _ => s end
  | Write text => λ r, MkScp (sp_wire s ++ take (Z.to_nat r.1) text) (sp_body s) (sp_acks s)
  | CopyBody _ => λ r, MkScp (sp_wire s ++ r.1) (sp_body s ++ r.1) (sp_acks s)
  | _ => λ _, s
  end.
(** [io.Writer] takes all of a text or answers with an error, and a copy stops
    at its limit. *)
Definition scp_possible (c : scall) : sresp c → Prop :=
  match c return sresp c → Prop with
  | Write text => λ r, 0 ≤ r.1 ≤ len text ∧ (r.2 = None → r.1 = len text)
  | CopyBody size => λ r, len r.1 ≤ size
  | _ => λ _, True
  end.

Lemma before_sep_app a sep b : sep ∉ a → before_sep (a ++ sep :: b) sep = a.
Proof.
  induction a as [|c a IH]; intros Hn; cbn; [by rewrite Z.eqb_refl|].
  apply not_elem_of_cons in Hn as [Hc Hn]. replace (c =? sep) with false by (symmetry; by apply Z.eqb_neq). by rewrite IH.
Qed.
Lemma before_sep_at s sep : (length (before_sep s sep) < length s)%nat → s !! length (before_sep s sep) = Some sep.
Proof.
  induction s as [|c s IH]; cbn; [lia|]. destruct (c =? sep) eqn:E; cbn; [by apply Z.eqb_eq in E as ->|].
  intros Hl. apply IH. lia.
Qed.

(** A text whose only line end is its last byte. *)
Definition one_line (s : bytes) : Prop := ∀ i, s !! i = Some newline → length s = S i.
Lemma one_line_take n s : one_line s → one_line (take n s).
Proof. intros Hs i [Hi Hn]%lookup_take_Some. specialize (Hs i Hi). rewrite length_take. lia. Qed.
Lemma one_line_drop n s : one_line s → one_line (drop n s).
Proof. intros Hs i Hi. rewrite lookup_drop in Hi. specialize (Hs _ Hi). rewrite length_drop. lia. Qed.
Lemma after_line s : one_line s → drop (S (length (before_sep s newline))) s = [].
Proof.
  intros Hs. apply drop_ge. destruct (decide (length (before_sep s newline) < length s)%nat) as [Hl|Hl]; [|lia].
  apply before_sep_at in Hl. specialize (Hs _ Hl). lia.
Qed.

Section scp_copy.
Context (path : string) (size : Z).
Hypothesis Hname : newline ∉ text_of path.
Hypothesis Hsize : 0 ≤ size.

Lemma itoa_size : space ∉ text_of (itoa size) ∧ newline ∉ text_of (itoa size) ∧ Atoi (text_of (itoa size)) = Some size.
Proof.
  destruct (decide (size = 0)) as [->|Hne]; [by vm_compute; split; [|split]; [set_solver|set_solver|]|].
  destruct (itoa_digits size) as (c & ds & -> & _ & Hds & Hat & _); [lia|]. rewrite Forall_forall in Hds.
  assert (∀ d, is_digit d = false → d ∉ c :: ds) as Hn by (intros d Hd Hin; specialize (Hds _ Hin); congruence).
  split; [by apply Hn|]. split; [by apply Hn|done].
Qed.

Lemma fileName_sub p c : c ∈ text_of (fileName p) → c ∈ text_of p.
Proof. induction p as [|d p IH]; cbn [fileName]; [done|]. destruct (existsb _ _); [|done]. intros Hin. right. by apply IH. Qed.

Notation number := (text_of (itoa size)).
Notation name := (text_of (fileName path)).
Lemma header_one_line : one_line (scp_header path size).
Proof.
  unfold scp_header, newline_text. rewrite !app_assoc. intros i Hi. apply lookup_app_Some in Hi as [Hi|[Hl Hi] ].
  - apply list_elem_of_lookup_2 in Hi. exfalso. destruct itoa_size as (_ & Hn & _).
    rewrite !elem_of_app in Hi. destruct Hi as [ [ [Hi|Hi]|Hi]|Hi]; [by vm_compute in Hi; set_solver|done|set_solver|].
    by apply Hname, fileName_sub.
  - apply list_lookup_singleton_Some in Hi as [Hi _]. rewrite length_app. change (length [newline]) with 1%nat. lia.
Qed.

(** A header cut anywhere is no file, and neither is a whole one by itself. *)
Lemma receive_header n : scp_receive (take n (scp_header path size)) = None.
Proof.
  unfold scp_receive. destruct (CutPrefix _ _) as [rest|] eqn:E; [|done]. cbn [mbind option_bind].
  assert (one_line rest) as Hrest.
  { unfold CutPrefix in E. destruct (HasPrefix _ _); [|done]. injection E as <-. by apply one_line_drop, one_line_take, header_one_line. }
  destruct (Atoi _) as [m|]; [|done]. cbn [mbind option_bind]. rewrite after_line by by apply one_line_drop.
  change (len []) with 0. destruct (0 <=? m) eqn:Em; [|done]. apply Z.leb_le in Em.
  by replace (0 =? m + 1) with false by (symmetry; apply Z.eqb_neq; lia).
Qed.

Lemma receive_file content : scp_receive (scp_header path size ++ content) =
  if (len content =? size + 1) && bool_decide (last content = Some 0) then Some (name, take (Z.to_nat size) content) else None.
Proof.
  destruct itoa_size as (Hs & _ & Hat). unfold scp_receive, scp_header, CutPrefix. rewrite <- !app_assoc.
  rewrite (proj2 (HasPrefix_true _ _)) by (eexists; reflexivity). rewrite drop_app_length. cbn [mbind option_bind].
  change ([space] ++ ?l) with (space :: l). rewrite before_sep_app by done. rewrite Hat. cbn [mbind option_bind].
  rewrite (cons_middle space), app_assoc, drop_app_length' by (rewrite length_app; cbn; lia).
  unfold newline_text. change ([newline] ++ ?l) with (newline :: l).
  rewrite before_sep_app by (intros Hin; by apply Hname, fileName_sub).
  rewrite (cons_middle newline), app_assoc, drop_app_length' by (rewrite length_app; cbn; lia).
  by replace (0 <=? size) with true by (symmetry; by apply Z.leb_le).
Qed.

Abbreviation oks := (obeys (λ _ _, True) scp_possible scp_next).
Lemma oks_scp c (Q : sresp c → scpState → Prop) s : (∀ r, scp_possible c r → Q r (scp_next s c r)) → oks (scp c) Q s.
Proof. by split. Qed.

Lemma oks_ack (Q : option err → scpState → Prop) s :
  Q None (MkScp (sp_wire s) (sp_body s) (S (sp_acks s))) → (∀ e, Q (Some e) s) → oks scpAck Q s.
Proof.
  intros Hnone Hsome. apply obeys_bind, oks_scp. intros [b|e] _; [|apply Hsome]; destruct b as [|b|b]; [done| |].
  all: apply obeys_bind, oks_scp; intros msg _; apply Hsome.
Qed.

(** A copy that succeeds has put the whole file on the device, which took each
    step of it; and whatever fails on the way, the device never sees a whole
    file that is not the body, whole. *)
Theorem scpSink_whole :
  oks (scpSink path size)
    (λ res s,
      (res = None → sp_acks s = 3%nat ∧ scp_receive (sp_wire s) = Some (name, sp_body s) ∧ len (sp_body s) = size) ∧
      ∀ f, scp_receive (sp_wire s) = Some f → f = (name, sp_body s) ∧ len (sp_body s) = size)
    (MkScp [] [] 0).
Proof.
  set (Q := λ (res : option err) s, _).
  assert (∀ e n acks, Q (Some e) (MkScp (take n (scp_header path size)) [] acks)) as Hcut.
  { intros e n acks. split; [done|]. cbn [sp_wire]. by rewrite receive_header. }
  do 3 (apply obeys_bind, oks_scp; intros [e|] _; [apply (Hcut _ 0%nat)|]).
  apply obeys_bind, oks_ack; [|intros e; apply (Hcut _ 0%nat)].
  apply obeys_bind, oks_scp. intros [n e] [Hn Hwhole]. cbn [fst snd scp_next sp_wire sp_body app] in *.
  destruct e as [e|]; [apply Hcut|]. rewrite Hwhole, take_ge by (try done; unfold len; lia). clear n Hn Hwhole.
  apply obeys_bind, oks_ack; cbn [sp_wire sp_body sp_acks].
  2: { intros e. rewrite <- (take_ge (scp_header path size) (length (scp_header path size))) at 1 by lia. apply Hcut. }
  apply obeys_bind, oks_scp. intros [body e] Hlen. cbn [scp_possible fst snd scp_next sp_wire sp_body app] in *.
  assert (scp_receive (scp_header path size ++ body) = None) as Hopen.
  { rewrite receive_file. by replace (len body =? size + 1) with false by (symmetry; apply Z.eqb_neq; lia). }
  destruct e as [e|]; [split; [done|]; cbn [sp_wire]; by rewrite Hopen|].
  destruct (len body =? size) eqn:El; cbn [negb].
  2: { split; [done|]. cbn [sp_wire]. by rewrite Hopen. }
  apply Z.eqb_eq in El. assert (scp_receive (scp_header path size ++ body ++ [0]) = Some (name, body)) as Hfile.
  { rewrite receive_file, last_snoc, len_app. change (len [0]) with 1. rewrite El, Z.eqb_refl, take_app_length' by (unfold len in El; lia). done. }
  assert (∀ n res acks, n = 0 ∨ n = 1 → (res = None → n = 1 ∧ acks = 3%nat) →
    Q res (MkScp ((scp_header path size ++ body) ++ take (Z.to_nat n) [0]) body acks)) as Hend.
  { intros n res acks [ -> | -> ] Hres; (split; cbn [sp_wire sp_body sp_acks]).
    - intros ->. by destruct (Hres eq_refl).
    - change (take (Z.to_nat 0) [0]) with (@nil Z). by rewrite app_nil_r, Hopen.
    - intros ->. destruct (Hres eq_refl) as [_ ->]. by rewrite <- app_assoc.
    - intros f. rewrite <- app_assoc. change (take (Z.to_nat 1) [0]) with [0]. rewrite Hfile. by intros [= <-]. }
  apply obeys_bind, oks_scp. intros [n e] [Hn Hwhole]. cbn [fst snd scp_next sp_wire sp_body] in *. change (len [0]) with 1 in *.
  assert (n = 0 ∨ n = 1) as Hn' by lia. destruct e as [e|]; [by apply Hend|]. specialize (Hwhole eq_refl).
  apply oks_ack; [by apply Hend|]. intros e. by apply Hend.
Qed.
End scp_copy.

Lemma scpSink_whole_witness :
  obeys (λ _ _, True) scp_possible scp_next (scpSink "flash:new.bin" 1048576)
    (λ res s,
      (res = None → sp_acks s = 3%nat ∧ scp_receive (sp_wire s) = Some (text_of "new.bin", sp_body s) ∧ len (sp_body s) = 1048576) ∧
      ∀ f, scp_receive (sp_wire s) = Some f → f = (text_of "new.bin", sp_body s) ∧ len (sp_body s) = 1048576)
    (MkScp [] [] 0).
Proof. apply (scpSink_whole "flash:new.bin" 1048576); [apply (bool_decide_unpack _); by vm_compute|lia]. Defined.

Lemma iosWriteBoot_restores_witness :
  let want := [text_of "boot system flash:new.bin"; text_of "boot system flash:old.bin"] in
  let had := [text_of "boot system flash:old.bin"] in
  obeys (λ _ _, True) (λ _ _, True) (boot_next had) (iosWriteBoot want had)
    (λ res s, sound s →
      (bd_running s = want ∧ (bd_startup s = had ∨ bd_startup s = want) ∧ (res = None → bd_startup s = want)) ∨
      (bd_running s = had ∧ bd_startup s = had ∧ res ≠ None))
    (MkBoot had had false false).
Proof.
  apply iosWriteBoot_restores; repeat constructor; apply (bool_decide_unpack _); by vm_compute.
Defined.

(** ** The contract of staging

    What each step may send, given what was answered so far, newest first. *)
Inductive staging : Type := Reading | Copying | Checking | Booting.

Section staging.
Context (job : staging) (platform : string) (img : DeviceImage).

(** The device hashed its copy, and not to the image's hash. *)
Definition hashed (h : list event) (ok : bool) : Prop :=
  ∃ out : bytes, did (ExecRun (verify_command platform img)) (inl out) ∈ h ∧
    device_errors platform out = [] ∧ submatch (hash_of platform) out ≠ [] ∧
    EqualFold (submatch (hash_of platform) out) (want_hash platform img) = ok.
Definition exec_clean (h : list event) (command : string) : Prop :=
  ∃ out : bytes, did (ExecRun command) (inl out) ∈ h ∧ device_errors platform out = [].
Definition copied (h : list event) (r : option err) : Prop := did (ScpImage (copy_path platform img) (di_Size img)) r ∈ h.
(** The statements the device had, as it listed them. *)
Definition had_statement (h : list event) (command : string) : Prop :=
  ∃ before l, did (ExecRun show_boot_system) (inl before) ∈ h ∧ l ∈ bootStatements before ∧ command = string_of l.
Definition set_clean (h : list event) : Prop :=
  ran_clean cliErrors h no_boot_system ∧ Forall (λ l, ran_clean cliErrors h (string_of l)) (boot_want img) ∧ ran_clean cliErrors h "end".

(** A file system: flash, or the text up to a colon in what the device itself
    printed of its version or boot image. *)
Definition file_system (h : list event) (d : bytes) : Prop :=
  d = text_of "flash:" ∨
  ∃ c out a name b, c ∈ [show_version; show_boot] ∧ did (ExecRun c) (inl out) ∈ h ∧
    out = a ++ name ++ [colon] ++ b ∧ d = name ++ [colon] ∧ colon ∉ name ∧
    (platform = PlatformCiscoIOS → quote ∉ name) ∧ (platform = PlatformAristaEOS → Forall (λ c, re_space c = false) name).

Inductive may_exec (h : list event) : string → Prop :=
| exec_show c : c ∈ [show_version; show_boot; show_storage; show_boot_system] → may_exec h c
| exec_dir d : job = Reading → file_system h d → may_exec h ("dir " +:+ string_of d)
| exec_verify : job = Checking → may_exec h (verify_command platform img)
(* the copy is deleted only when it failed, or its hash is not the image's *)
| exec_delete : (job = Copying ∧ ∃ e, copied h (Some e)) ∨ (job = Checking ∧ hashed h false) → may_exec h (delete_command platform img)
| exec_install : job = Booting → platform = PlatformJuniperJunos → may_exec h (software_add img).

Inductive may_type (h : list event) : string → Prop :=
| type_ios c : platform = PlatformCiscoIOS → c ∈ ["configure terminal"; no_boot_system; "end"]%string → may_type h c
| type_want l : platform = PlatformCiscoIOS → l ∈ boot_want img → may_type h (string_of l)
(* the device's own statements are put back *)
| type_had c : platform = PlatformCiscoIOS → had_statement h c → may_type h c
(* saved only when all are set *)
| type_save : platform = PlatformCiscoIOS → set_clean h → may_type h "write memory"
| type_eos c : platform = PlatformAristaEOS → c ∈ ["configure"; boot_system img; "end"]%string → may_type h c.

Definition stages (h : list event) (c : dcall) : Prop :=
  match c with
  | ExecRun command => may_exec h command
  | Run command => job = Booting ∧ may_type h command
  | SendText text => job = Booting ∧ text ∈ [exit_text; text_of "enable" ++ newline_text; [3]]
  | ScpImage path size => job = Copying ∧ path = copy_path platform img ∧ size = di_Size img
  | SendThrough _ _ | ScpSink _ _ | StartNetconf | NcHello | NcSend _ _ _ | NcReceive _ | Random | Panic => False
  | _ => True
  end.

(** No answer is the code's own word on a corrupt copy. *)
Definition honest (e : err) : Prop := Is e ErrImageCorrupt = false.
Definition honest_opt (r : option err) : Prop := match r with Some e => honest e | None => True end.
Definition honest_or {A} (r : A + err) : Prop := match r with inl _ => True | inr e => honest e end.
Definition replies (c : dcall) : dresp c → Prop :=
  match c return dresp c → Prop with
  | StartShell => honest_or
  | Run _ | Expect _ | ExecRun _ | NcReceive _ | Random => honest_or
  | SendThrough _ _ => honest_or
  | Handshake _ _ _ => λ p, honest_opt (pk_error p)
  | Panic => λ _, True
  | _ => honest_opt
  end.

(** The image is set to boot, as the device reports it. *)
Definition booted (h : list event) : Prop :=
  (platform = PlatformJuniperJunos ∧ ∃ out : bytes, did (ExecRun (software_add img)) (inl out) ∈ h ∧ junosRebootRequired out = true) ∨
  (platform = PlatformAristaEOS ∧ ran_clean cliErrors h (boot_system img) ∧
   ∃ boot : bytes, did (ExecRun show_boot) (inl boot) ∈ h ∧ fileName (string_of (submatch eosBootImage boot)) = di_Name img) ∨
  (platform = PlatformCiscoIOS ∧ ran_clean cliErrors h "write memory" ∧
   ∃ h1 h2 after, h = h2 ++ did (ExecRun show_boot_system) (inl after) :: h1 ∧ ran_clean cliErrors h1 "write memory" ∧
     bootStatements after = boot_want img).

Definition staged (res : option err) (h : list event) : Prop :=
  match job with
  | Reading => True
  | Copying => res = None → copied h None
  | Checking => (res = None → hashed h true) ∧
      (∀ e, res = Some e → Is e ErrImageCorrupt = true → hashed h false ∧ (e = ErrImageCorrupt → exec_clean h (delete_command platform img)))
  | Booting => res = None → booted h
  end.
End staging.

Section staging_rules.
Context (job : staging) (platform : string) (img : DeviceImage).
Abbreviation okc := (obeys (stages job platform img) replies record).

Lemma okc_say c (Q : dresp c → list event → Prop) h :
  stages job platform img h c → (∀ r, replies c r → Q r (did c r :: h)) → okc (say c) Q h.
Proof. by intros; split. Qed.
Lemma okc_bind_err {A} (p : dialogue (A + err)) f Q h :
  okc p (λ r h, match r with inl a => okc (f a) Q h | inr e => Q (Some e) h end) h → okc (bind_err p f) Q h.
Proof. intros H. apply obeys_bind. eapply obeys_mono; [|exact H]. by intros [a|e]. Qed.
Lemma okc_then p f Q h : okc p (λ r h, match r with None => okc f Q h | Some e => Q (Some e) h end) h → okc (then_err p f) Q h.
Proof. intros H. apply obeys_bind. eapply obeys_mono; [|exact H]. by intros [e|]. Qed.

Lemma honest_both text e : honest e → honest (Both ErrCommand text e).
Proof. unfold honest, Is. cbn. by destruct (find_err _ e). Qed.
Lemma honest_unreachable text e : honest e → honest (Both ErrUnreachable text e).
Proof. unfold honest, Is. cbn. by destruct (find_err _ e). Qed.
Lemma honest_wrapped before e after : honest e → honest (Wrapped before e after).
Proof. unfold honest, Is. cbn. by destruct (find_err _ e). Qed.

(** An exec command: its output, without errors; or an error that is not the
    code's own. *)
Lemma okc_exec errors command (Q : bytes + err → list event → Prop) h :
  may_exec job platform img (did NewSession None :: h) command →
  (∀ (out : bytes), errors out = [] → Q (inl out) (did (ExecRun command) (inl out) :: did NewSession None :: h)) →
  (∀ e evs, honest e → Q (inr e) (evs ++ h)) → okc (execChecked errors command) Q h.
Proof.
  intros Hp Hout Herr. apply obeys_try, obeys_bind, okc_say; [done|]. intros [e|] Hr.
  { apply (Herr _ [_]). by apply honest_both. }
  apply okc_say; [done|]. intros [out|e] Hr'; [|by apply (Herr e [_; _])]. cbn [obeys].
  destruct (errors out) as [|m ms] eqn:E; [by apply Hout|by apply (Herr _ [_; _])].
Qed.

Lemma okc_command command (Q : option err → list event → Prop) h :
  job = Booting → may_type platform img h command →
  (∀ (out : bytes), cliErrors out = [] → Q None (did (Run command) (inl out) :: h)) →
  (∀ e evs, Q (Some e) (evs ++ h)) → okc (cliCommand command) Q h.
Proof.
  intros Hj Hp Hnone Hsome. apply okc_bind_err, okc_say; [done|]. intros [out|e] Hr; [|apply (Hsome _ [_])].
  cbn [obeys]. destruct (cliErrors out) as [|m ms] eqn:E; [by apply Hnone|apply (Hsome _ [_])].
Qed.

Lemma okc_leave (Q : option err → list event → Prop) res h :
  job = Booting → (∀ ev, Q res (ev :: h)) → okc (quietly leave; Ret res) Q h.
Proof. intros Hj HQ. apply obeys_bind, okc_say; [split; [done|]; set_solver|]. intros r _. apply HQ. Qed.

Lemma okc_privileged (Q : shell + err → list event → Prop) h :
  job = Booting → (∀ r evs, Q r (evs ++ h)) → okc openPrivileged Q h.
Proof.
  intros Hj HQ. apply obeys_try, obeys_bind, okc_say; [done|]. intros [ [name last]|e] _; cbn [obeys]; [|apply (HQ _ [_])].
  destruct (negb _); [apply (HQ _ [_])|]. apply obeys_do, okc_say; [split; [done|]; set_solver|].
  intros [e|] _; [apply (HQ _ [_; _])|]. apply obeys_try, okc_say; [done|]. intros [l|e] _; [|apply (HQ _ [_; _; _])].
  destruct (negb _); [|apply (HQ _ [_; _; _])]. apply obeys_bind, okc_say; [split; [done|]; set_solver|]. intros r _. apply (HQ _ [_; _; _; _]).
Qed.

(** ** Reading *)

(** What a pattern gives is part of the text. *)
Lemma span_spec f s : s = (span f s).1 ++ (span f s).2 ∧ Forall (λ c, f c = true) (span f s).1.
Proof.
  induction s as [|c s IH]; cbn [span]; [done|]. destruct (f c) eqn:Ec; [|done].
  destruct (span f s) as [a b]. cbn in *. destruct IH as [-> Ha]. split; [done|by constructor].
Qed.

Lemma closed_by_spec prefix close s g : closed_by prefix close s = Some g → ∃ a b, s = a ++ g ++ b ∧ close ∉ g.
Proof.
  unfold closed_by. destruct (CutPrefix s _) as [r|] eqn:E; [|done]. apply CutPrefix_Some in E as ->. cbn [mbind option_bind].
  unfold some_of. destruct (span_spec (λ c, negb (c =? close)) r) as [Hr Hg].
  destruct (span _ r) as [ [|x a] b]; cbn in *; [done|]. destruct b as [|y b]; [done|]. intros [= <-].
  exists (text_of prefix), (y :: b). split; [by rewrite Hr at 1|].
  intros Hin. rewrite list.Forall_forall in Hg. specialize (Hg _ Hin). by rewrite Z.eqb_refl in Hg.
Qed.

Lemma after_spec prefix f s g : after prefix f s = Some g → ∃ a b, s = a ++ g ++ b ∧ Forall (λ c, f c = true) g.
Proof.
  unfold after. destruct (CutPrefix s _) as [r|] eqn:E; [|done]. apply CutPrefix_Some in E as ->. cbn [mbind option_bind].
  unfold some_of. destruct (span_spec f r) as [Hr Hg].
  destruct (span f r) as [ [|x a] b]; cbn in *; [done|]. intros [= <-].
  exists (text_of prefix), b. split; [by rewrite Hr at 1|done].
Qed.

Lemma find_spec (P : bytes → Prop) p :
  (∀ s g, p s = Some g → ∃ a b, s = a ++ g ++ b ∧ P g) →
  (∀ s g, find_at p s = Some g → ∃ a b, s = a ++ g ++ b ∧ P g) ∧
  ∀ start s g, find_line p start s = Some g → ∃ a b, s = a ++ g ++ b ∧ P g.
Proof.
  intros Hp. split.
  - induction s as [|c s IH]; intros g; cbn [find_at]; destruct (p _) eqn:E; try done; try (intros [= <-]; by apply Hp).
    intros Hg. destruct (IH g Hg) as (a & b & -> & HP). by exists (c :: a), b.
  - intros start s. revert start. induction s as [|c s IH]; intros start g; cbn [find_line];
      destruct (if start then p _ else None) eqn:E; try done; try (destruct start; [|done]; intros [= <-]; by apply Hp).
    intros Hg. destruct (IH _ g Hg) as (a & b & -> & HP). by exists (c :: a), b.
Qed.

Lemma before_colon s : IndexByte s colon < 0 ∨ ∃ rest, s = before_sep s colon ++ [colon] ++ rest ∧ colon ∉ before_sep s colon.
Proof.
  unfold IndexByte.
  assert (∀ i, index_byte s colon i < 0 ∨ ∃ rest, s = before_sep s colon ++ [colon] ++ rest ∧ colon ∉ before_sep s colon) as H; [|by apply H].
  induction s as [|c s IH]; intros i; cbn [index_byte before_sep]; [left; lia|].
  destruct (Z.eqb_spec c colon) as [->|Hne]; [right; exists s; split; [done|by apply not_elem_of_nil]|].
  destruct (IH (i + 1)) as [?|(rest & Hs & Hn)]; [by left|right]. exists rest. split; [cbn [app]; f_equal; exact Hs|].
  intros [E|?]%elem_of_cons; [by destruct Hne|done].
Qed.

(** The directory listed is a file system the device named. *)
Lemma flash_dir_named h c out image a b :
  c ∈ [show_version; show_boot] → did (ExecRun c) (inl out) ∈ h → out = a ++ image ++ b →
  (platform = PlatformCiscoIOS → quote ∉ image) → (platform = PlatformAristaEOS → Forall (λ c, re_space c = false) image) →
  ∃ d, flash_dir image = string_of d ∧ file_system platform h d.
Proof.
  intros Hc Hin -> Hq Hsp. unfold flash_dir. destruct (before_colon image) as [Hno|(rest & Hi & Hn)].
  { apply Z.ltb_lt in Hno. rewrite Hno. exists (text_of "flash:"). split; [by vm_compute|by left]. }
  destruct (IndexByte image colon <? 0); [exists (text_of "flash:"); split; [by vm_compute|by left]|].
  exists (before_sep image colon ++ [colon]). split; [done|]. right.
  exists c, (a ++ image ++ b), a, (before_sep image colon), (rest ++ b). split_and!; try done.
  - rewrite Hi at 1. by rewrite <-!app_assoc.
  - intros Hp Hin'. apply (Hq Hp). rewrite Hi. apply elem_of_app. by left.
  - intros Hp. specialize (Hsp Hp). rewrite Hi in Hsp. by apply Forall_app in Hsp as [??].
Qed.

Lemma submatch_named (P : bytes → Prop) re s :
  (∀ s g, re s = Some g → ∃ a b, s = a ++ g ++ b ∧ P g) → P [] → ∃ a b, s = a ++ submatch re s ++ b ∧ P (submatch re s).
Proof. intros Hre HP. unfold submatch. destruct (re s) eqn:E; cbn [default from_option]; [by apply Hre|by exists s, []; rewrite !app_nil_r]. Qed.

Lemma okc_dir_facts v i inst h d : job = Reading → flash_dir i = string_of d → file_system platform h d → okc (dir_facts v i inst) (λ _ _, True) h.
Proof.
  intros Hj Hd Hf. unfold dir_facts. destruct (_ || _); [done|]. rewrite Hd. apply obeys_try, okc_exec; [|by cbn|done].
  apply exec_dir; [done|]. destruct Hf as [?|(c & out & a & name & b & Hc & Hin & H)]; [by left|right].
  exists c, out, a, name, b. split; [done|]. split; [by right|done].
Qed.
Lemma okc_imageFacts `{!StorageXml} h : job = Reading → okc (imageFacts platform) (λ _ _, True) h.
Proof.
  intros Hj. unfold imageFacts. case_bool_decide as Hp.
  - apply obeys_try, okc_exec; [apply exec_show; set_solver| |done]. intros out _.
    destruct (junosVersion out); [|done]. apply obeys_try, okc_exec; [apply exec_show; set_solver| |done].
    done.
  - apply obeys_try, okc_exec; [apply exec_show; set_solver| |done]. intros out _.
    case_bool_decide as Hios; [|case_bool_decide as Heos; [|case_bool_decide; [done|by cbn] ] ].
    + destruct (submatch_named (λ g, quote ∉ g) iosSystemImage out) as (a & b & Hout & Hq).
      { apply find_spec. intros s g. apply closed_by_spec. }
      { apply not_elem_of_nil. }
      edestruct (flash_dir_named (did (ExecRun show_version) (inl out) :: did NewSession None :: h) show_version out
        (submatch iosSystemImage out) a b) as (d & Hd & Hf); [by left|by left|done|done|by rewrite Hios|].
      by eapply okc_dir_facts.
    + apply obeys_try, okc_exec; [apply exec_show; set_solver| |done]. intros boot _.
      destruct (submatch_named (Forall (λ c, re_space c = false)) eosBootImage boot) as (a & b & Hout & Hq).
      { apply find_spec. intros s g Hs. apply after_spec in Hs as (a & b & -> & Hg). exists a, b. split; [done|].
        eapply Forall_impl; [exact Hg|]. intros c. cbn. by destruct (re_space c). }
      { done. }
      edestruct (flash_dir_named (did (ExecRun show_boot) (inl boot) :: did NewSession None ::
        did (ExecRun show_version) (inl out) :: did NewSession None :: h) show_boot boot
        (submatch eosBootImage boot) a b) as (d & Hd & Hf); [by right; left|by left|done|done|done|].
      by eapply okc_dir_facts.
Qed.

(** ** Copying and checking *)

Lemma copied_cons e r h : copied platform img h r → copied platform img (e :: h) r.
Proof. by right. Qed.

Lemma okc_delete (Q : option err → list event → Prop) h :
  may_exec job platform img (did NewSession None :: h) (delete_command platform img) →
  (∀ evs, exec_clean platform (evs ++ h) (delete_command platform img) → Q None (evs ++ h)) → (∀ e evs, honest e → Q (Some e) (evs ++ h)) →
  okc (deleteImageFile platform img) Q h.
Proof.
  intros Hp Hnone Hsome. apply obeys_bind, okc_exec; [done| |done]. intros out Hout. apply (Hnone [_; _]).
  exists out. split; [by left|done].
Qed.

Lemma okc_copyImage h : job = Copying → okc (copyImage platform img) (staged job platform img) h.
Proof.
  intros Hj. eapply (obeys_mono _ _ _ _ (λ res h, res = None → copied platform img h None)); [by intros res h' Hs; unfold staged; rewrite Hj|].
  apply obeys_bind, okc_say; [done|]. intros [e|] _; [|by left].
  apply obeys_bind, okc_say; [done|]. intros [c|] _; [done|].
  apply obeys_bind, okc_delete; [|done|done]. apply exec_delete. left. split; [done|]. exists e. right. right. by left.
Qed.

Lemma hashed_app evs h b : hashed platform img h b → hashed platform img (evs ++ h) b.
Proof. intros (out & Hin & H). exists out. split; [apply elem_of_app; by right|done]. Qed.

Lemma okc_verifyImage h : job = Checking → okc (verifyImage platform img) (staged job platform img) h.
Proof.
  intros Hj.
  set (Q := λ (res : option err) h, (res = None → hashed platform img h true) ∧
    ∀ e, res = Some e → Is e ErrImageCorrupt = true → hashed platform img h false ∧ (e = ErrImageCorrupt → exec_clean platform h (delete_command platform img))).
  apply (obeys_mono _ _ _ _ Q); [by intros res h' Hs; unfold staged; rewrite Hj|].
  assert (∀ (e : err) h, honest e → Q (Some e) h) as Hhonest.
  { intros e h' He. split; [done|]. intros e' [= <-]. by rewrite He. }
  apply okc_bind_err, okc_exec; [by apply exec_verify| |by intros; apply Hhonest].
  intros out Hout. cbn zeta. case_bool_decide as Hsum; [by apply Hhonest|]. destruct (EqualFold _ _) eqn:E.
  - split; [|done]. intros _. exists out. split; [by left|done].
  - assert (hashed platform img (did (ExecRun (verify_command platform img)) (inl out) :: did NewSession None :: h) false) as Hh.
    { exists out. split; [by left|done]. }
    apply obeys_bind, okc_delete.
    + apply exec_delete. right. split; [done|]. by apply (hashed_app [_]).
    + intros evs Hdel. split; [done|]. intros e _ _. split; [by apply hashed_app|done].
    + intros e evs He. split; [done|]. intros e' [= <-] _. split; [by apply hashed_app|done].
Qed.

(** ** Booting *)

Lemma set_clean_ran_app h evs c : ran_clean cliErrors h c → ran_clean cliErrors (evs ++ h) c.
Proof. intros (out & Hin & H). exists out. split; [apply elem_of_app; by right|done]. Qed.

Lemma okc_statements l (Q : option err → list event → Prop) h :
  job = Booting → (∀ evs, Forall (λ x, may_type platform img (evs ++ h) (string_of x)) l) →
  (∀ evs, Forall (λ x, ran_clean cliErrors (evs ++ h) (string_of x)) l → Q None (evs ++ h)) →
  (∀ e evs, Q (Some e) (evs ++ h)) → okc (type_statements l) Q h.
Proof.
  intros Hj. revert h. induction l as [|x l IH]; intros h Hp Hnone Hsome; cbn [type_statements]; [by apply (Hnone [])|].
  apply okc_then, okc_command; [done|by specialize (Hp []); apply Forall_cons in Hp as []| |].
  - intros out Hout. apply IH.
    + intros evs. specialize (Hp (evs ++ [did (Run (string_of x)) (inl out)])). rewrite <- app_assoc in Hp. by apply Forall_cons in Hp as [].
    + intros evs Hl. specialize (Hnone (evs ++ [did (Run (string_of x)) (inl out)])). rewrite <- app_assoc in Hnone. apply Hnone.
      constructor; [|done]. exists out. split; [apply elem_of_app; right; by left|done].
    + intros e evs. specialize (Hsome e (evs ++ [did (Run (string_of x)) (inl out)])). by rewrite <- app_assoc in Hsome.
  - intros e evs. apply Hsome.
Qed.

Lemma okc_replace l (Q : option err → list event → Prop) h :
  job = Booting → platform = PlatformCiscoIOS → (∀ evs, Forall (λ x, may_type platform img (evs ++ h) (string_of x)) l) →
  (∀ evs, ran_clean cliErrors (evs ++ h) no_boot_system → Forall (λ x, ran_clean cliErrors (evs ++ h) (string_of x)) l → Q None (evs ++ h)) →
  (∀ e evs, Q (Some e) (evs ++ h)) → okc (iosBootSystem l) Q h.
Proof.
  intros Hj Hios Hp Hnone Hsome. apply okc_then, okc_command; [done|by apply type_ios; [|set_solver]| |done].
  intros out Hout. apply okc_statements; [done| | |].
  - intros evs. specialize (Hp (evs ++ [did (Run no_boot_system) (inl out)])). by rewrite <- app_assoc in Hp.
  - intros evs Hl. specialize (Hnone (evs ++ [did (Run no_boot_system) (inl out)])). rewrite <- app_assoc in Hnone. apply Hnone; [|done].
    exists out. split; [apply elem_of_app; right; by left|done].
  - intros e evs. specialize (Hsome e (evs ++ [did (Run no_boot_system) (inl out)])). by rewrite <- app_assoc in Hsome.
Qed.

Lemma had_app h evs (before : bytes) : did (ExecRun show_boot_system) (inl before) ∈ h → platform = PlatformCiscoIOS →
  Forall (λ x, may_type platform img (evs ++ h) (string_of x)) (bootStatements before).
Proof.
  intros Hin Hp. apply Forall_forall. intros l Hl. apply type_had; [done|]. exists before, l.
  split; [apply elem_of_app; by right|done].
Qed.

Lemma okc_writeBoot before h :
  job = Booting → platform = PlatformCiscoIOS → did (ExecRun show_boot_system) (inl before) ∈ h →
  okc (iosWriteBoot (boot_want img) (bootStatements before))
    (λ res h', ∃ evs, h' = evs ++ h ∧ (res = None → ran_clean cliErrors h' "write memory")) h.
Proof.
  intros Hj Hp Hin. set (Q := λ (res : option err) h', _).
  assert (∀ e evs, Q (Some e) (evs ++ h)) as Hfail by (intros e evs; by exists evs).
  apply okc_bind_err, okc_privileged; [done|]. intros [sh|e] evs; [|apply Hfail].
  assert (∀ l res ev, okc (cliCommand "end") (λ r h2, okc match Join [Some res; r] with Some e => quietly leave; Ret (Some e) | None => saveStartup end Q h2) (l ++ ev ++ h)) as Hgive.
  { intros l res ev. rewrite app_assoc. apply okc_command; [done|by apply type_ios; [|set_solver]| |].
    - intros out _. cbn [Join]. apply okc_leave; [done|]. intros ev'. apply (Hfail _ (ev' :: _ :: l ++ ev)).
    - intros e ev1. rewrite app_assoc. cbn [Join]. apply okc_leave; [done|]. intros ev'. apply (Hfail _ (ev' :: ev1 ++ l ++ ev)). }
  apply okc_then, okc_command; [done|by apply type_ios; [|set_solver]| |].
  2: { intros e ev. rewrite app_assoc. apply Hfail. }
  intros out0 _. rewrite app_comm_cons. generalize (did (Run "configure terminal") (inl out0) :: evs). clear evs out0. intros evs.
  apply obeys_bind, obeys_bind, okc_replace; [done|done| | |].
  - intros evs'. apply Forall_forall. intros l Hl. by apply type_want.
  - intros evs' Hno Hall. cbn [obeys]. apply obeys_bind, okc_command; [done|by apply type_ios; [|set_solver]| |].
    + intros out Hout. cbn [Join]. set (h3 := did (Run "end") (inl out) :: evs' ++ evs ++ h).
      assert (set_clean img h3) as Hset.
      { split; [by apply (set_clean_ran_app _ [_])|]. split; [|exists out; split; [by left|done] ].
        eapply Forall_impl; [exact Hall|]. intros l. apply (set_clean_ran_app _ [_]). }
      apply obeys_bind, okc_command; [done|by apply type_save| |].
      * intros out' Hout'. apply okc_leave; [done|]. intros ev. exists (ev :: did (Run "write memory") (inl out') :: did (Run "end") (inl out) :: evs' ++ evs).
        split; [by cbn; rewrite <- app_assoc|]. intros _. exists out'. split; [right; by left|done].
      * intros e ev1. apply okc_leave; [done|]. intros ev. exists (ev :: ev1 ++ did (Run "end") (inl out) :: evs' ++ evs).
        split; [|done]. unfold h3. cbn. rewrite <- !app_assoc. cbn. by rewrite <- app_assoc.
    + intros e ev1. cbn [Join]. apply okc_leave; [done|]. intros ev. exists (ev :: ev1 ++ evs' ++ evs).
      split; [|done]. cbn. by rewrite <- !app_assoc.
  - intros e evs'. apply obeys_bind, okc_replace; [done|done| | |].
    + intros evs''. apply had_app; [|done]. apply elem_of_app. right. apply elem_of_app. by right.
    + intros evs'' _ _. cbn [obeys Join]. rewrite (app_assoc evs' evs h). apply obeys_bind, Hgive.
    + intros e' evs''. cbn [obeys Join]. rewrite (app_assoc evs' evs h). apply obeys_bind, Hgive.
Qed.

Lemma okc_onSession fn (Q : option err → list event → Prop) h :
  (∀ e ev, Q (Some e) (ev :: h)) → okc fn Q (did NewSession None :: h) → okc (onSession Some fn) Q h.
Proof. intros He Hfn. apply obeys_bind, okc_say; [done|]. intros [e|] _; [apply He|done]. Qed.

Notation postb := (λ (res : option err) h, res = None → booted platform img h).
Lemma okc_iosSetBoot h : job = Booting → platform = PlatformCiscoIOS → okc (iosSetBoot img) postb h.
Proof.
  intros Hj Hp. apply okc_bind_err, okc_exec; [apply exec_show; set_solver| |done]. intros before Hbefore.
  apply okc_then, okc_onSession; [done|].
  eapply obeys_mono; [|apply okc_writeBoot; [done|done|right; left; reflexivity] ]. intros [e|] h' (evs & Eh & Hsaved); [done|].
  specialize (Hsaved eq_refl). apply okc_bind_err, okc_exec; [apply exec_show; set_solver| |done]. intros after _.
  cbn [obeys]. case_bool_decide as Hb; [|done]. intros _. right. right. split; [done|].
  split; [by apply (set_clean_ran_app _ [_; _])|]. exists (did NewSession None :: h'), [], after.
  split; [done|]. split; [by apply (set_clean_ran_app _ [_])|done].
Qed.

Lemma okc_eosSetBoot h : job = Booting → platform = PlatformAristaEOS → okc (eosSetBoot img) postb h.
Proof.
  intros Hj Hp. apply okc_then, okc_onSession; [done|]. apply okc_bind_err, okc_privileged; [done|]. intros [sh|e] evs; [|done].
  assert (∀ c h, c ∈ ["configure"; boot_system img; "end"]%string → may_type platform img h c) as Htype by (intros; by apply type_eos).
  apply okc_then, okc_command; [done|apply Htype; set_solver| |done]. intros out0 _.
  generalize (did (Run "configure") (inl out0) :: evs ++ did NewSession None :: h). clear evs. intros h0.
  assert (∀ h1, ran_clean cliErrors h1 (boot_system img) → okc (boot <~? execCommand show_boot;
    Ret (if bool_decide (fileName (string_of (submatch eosBootImage boot)) = di_Name img) then None
         else Some (cmd_err "the device's boot image is not the one set"))) postb h1) as Hread.
  { intros h1 Hset. apply okc_bind_err, okc_exec; [apply exec_show; set_solver| |done]. intros boot _. cbn [obeys].
    case_bool_decide; [|done]. intros _. right. left. split; [done|]. split; [by apply (set_clean_ran_app _ [_; _])|].
    exists boot. split; [by left|done]. }
  apply obeys_bind, okc_command; [done|apply Htype; set_solver| |].
  - intros out Hout. apply obeys_bind, okc_command; [done|apply Htype; set_solver| |].
    + intros out' _. apply okc_leave; [done|]. intros ev. apply Hread. exists out. split; [right; right; by left|done].
    + intros e evs. by apply okc_leave.
  - intros e evs. apply obeys_bind, okc_command; [done|apply Htype; set_solver| |]; intros; by apply okc_leave.
Qed.

Lemma okc_setBoot h : job = Booting → okc (setBoot platform img) (staged job platform img) h.
Proof.
  intros Hj. apply (obeys_mono _ _ _ _ postb); [by intros res h' Hs; unfold staged; rewrite Hj|].
  unfold setBoot. case_bool_decide as He; [by apply okc_eosSetBoot|]. case_bool_decide as Hjunos.
  - apply okc_bind_err, okc_exec; [by apply exec_install| |done]. intros out _. cbn [obeys].
    destruct (junosRebootRequired out) eqn:E; [|done]. intros _. left. split; [done|]. exists out. split; [by left|done].
  - case_bool_decide; [by apply okc_iosSetBoot|done].
Qed.

(** ** The login around a step *)

Lemma staged_ctx res ev h : staged job platform img res h → staged job platform img res (ev :: h).
Proof.
  unfold staged. assert (∀ b, hashed platform img h b → hashed platform img (ev :: h) b) as Hh by (intros b; apply (hashed_app [ev])).
  destruct job; [done| | |].
  - intros H Hr. right. by apply H.
  - intros [H1 H2]. split; [intros Hr; by apply Hh, H1|]. intros e He Hc. destruct (H2 e He Hc) as [H3 H4]. split; [by apply Hh|].
    intros Hd. destruct (H4 Hd) as (out & Hin & Hout). exists out. split; [by right|done].
  - intros H Hr. destruct (H Hr) as [(? & out & Hin & ?)|[(? & ? & boot & Hin & ?)|(? & ? & h1 & h2 & a & -> & ? & ?)] ].
    + left. split; [done|]. exists out. split; [by right|done].
    + right. left. split; [done|]. split; [by apply (set_clean_ran_app _ [_])|]. exists boot. split; [by right|done].
    + right. right. split; [done|]. split; [by apply (set_clean_ran_app _ [_])|]. by exists h1, (ev :: h2), a.
Qed.
Lemma staged_honest e h : honest e → staged job platform img (Some e) h.
Proof. intros He. unfold staged. destruct job; [done|done| |done]. split; [done|]. intros e' [= <-]. by rewrite He. Qed.

Lemma classify_honest ctx e : honest_opt ctx → honest e → honest (classifyHandshake ctx e).
Proof.
  intros Hc He. unfold classifyHandshake. destruct (_ || _); [done|]. destruct (Contains _ _).
  - revert He. unfold honest, Is. cbn. by destruct (find_err _ e).
  - destruct ctx as [c|]; [by apply honest_unreachable|by apply honest_wrapped].
Qed.

Lemma okc_client {R} (fail : err → R) (req : DeviceRequest) (fn : dialogue R) (Q : R → list event → Prop) h :
  (∀ e h', honest e → Q (fail e) h') →
  (∀ h', okc fn (λ r h2, ∀ ev, Q r (ev :: h2)) h') → okc (on_client fail req fn) Q h.
Proof.
  intros Hfail Hfn. apply obeys_bind, okc_say; [done|]. intros [e|] Hr; [by apply Hfail, honest_unreachable|].
  apply obeys_bind, okc_say; [done|]. intros p Hp. destruct (handshake_error _ p) as [e|] eqn:E.
  - assert (honest e) as He.
    { revert E. unfold handshake_error, HostKeyCallback. case_bool_decide; [by intros [= <-]|]. destruct (negb _); [by intros [= <-]|].
      intros E. cbn in Hp. rewrite E in Hp. done. }
    apply obeys_bind, okc_say; [done|]. intros ctx Hctx. by apply Hfail, classify_honest.
  - apply obeys_bind. eapply obeys_mono; [|apply Hfn]. intros r h2 HQ. apply obeys_bind, okc_say; [done|].
    intros [c|] Hctx; [by apply Hfail, honest_unreachable|by apply HQ].
Qed.
End staging_rules.


(** ** Played against a device

    [answer] is what a device prints for an exec command; [copies] is how its
    copies end. What was run is kept, oldest first. *)
Section played.
Context (answer : string → string) (copies : option err).
Definition exec_device (ran : list string) (c : dcall) : option (dresp c * list string) :=
  match c return option (dresp c * list string) with
  | ExecRun command => Some (inl (text_of (answer command)), ran ++ [command])
  | ScpImage path _ => Some (copies, ran ++ ["scp -t " +:+ path])
  | Handshake _ _ pinned => Some (MkPresented pinned None, ran)
  | LoginCtxErr => Some (None, ran)
  | Dial _ _ => Some (None, ran)
  | NewSession => Some (None, ran)
  | _ => None
  end.
Fixpoint exec_play {A} (p : dialogue A) (ran : list string) : option (A * list string) :=
  match p with
  | Ret a => Some (a, ran)
  | Call c k => match exec_device ran c with Some (r, ran) => exec_play (k r) ran | None => None end
  end.
End played.

Definition ios_answers (command : string) : string :=
  if bool_decide (command = show_version) then
    "Cisco IOS XE Software, Version 17.09.04a" +:+ nl +:+
    "Cisco IOS Software [Cupertino], Catalyst L3 Switch Software (CAT9K_IOSXE), Version 17.9.4a, RELEASE" +:+ nl +:+
    "System image file is " +:+ dquote +:+ "bootflash:cat9k.17.09.04a.bin" +:+ dquote
  else if bool_decide (command = "dir bootflash:"%string) then
    "Directory of bootflash:/" +:+ nl +:+ "1621966848 bytes total (1199271936 bytes free)" +:+ nl
  else "".
Example facts_of_ios `{!StorageXml} :
  exec_play ios_answers None (imageFacts PlatformCiscoIOS) [] =
  Some (inl (MkImageFacts "17.09.04a" "bootflash:cat9k.17.09.04a.bin" "bootflash:" 1199271936 false), [show_version; "dir bootflash:"])%string.
Proof. by vm_compute. Qed.

(** The mount the staging directory is on, among those above it. *)
Definition demo_storage : StorageXml := {| storage_tokens := λ _, [OtherToken; StartElement "system-storage-information"
  (inl [MkFilesystem 10 (text_of "/"); MkFilesystem 4000000 (text_of " /.mount/var "); MkFilesystem 20 (text_of "/.mount/var/log")])] |}.
Example facts_of_junos :
  exec_play (λ c, if bool_decide (c = show_version) then "Hostname: r1" +:+ nl +:+ "Junos: 21.4R3-S5.4" +:+ nl else "<rpc-reply/>")%string None
    (imageFacts (H := demo_storage) PlatformJuniperJunos) [] =
  Some (inl (MkImageFacts "21.4R3-S5.4" "" "/var/tmp/" 2048000000 false), [show_version; show_storage]).
Proof. by vm_compute. Qed.

Definition demo_sum : string := String.concat "" (replicate 32 "3c9E").
Example hash_read :
  let out := "....Done!" +:+ nl +:+ "verify /sha512 (flash:new.bin) = " +:+ demo_sum in
  submatch verifiedSHA512 (text_of (out +:+ " " +:+ string_of [13] +:+ nl)) = text_of demo_sum ∧
  submatch verifiedSHA512 (text_of (out +:+ "0")) = [] ∧
  junosRebootRequired (text_of "WARNING: A REBOOT IS REQUIRED TO LOAD THIS SOFTWARE CORRECTLY") = true.
Proof. vm_compute. repeat split; reflexivity. Qed.

(** A copy the device did not even let begin: the file of that name it had is
    deleted nevertheless. *)
Definition demo_image : DeviceImage := MkDeviceImage "flash:" "new.bin" 5 "" demo_sum "flash:old.bin".
Example unbegun_copy_deletes :
  let refused := cmd_err "scp: the device refused the copy: %Error opening flash:new.bin (Permission denied)" in
  exec_play (λ _, ""%string) (Some refused) (copyImage PlatformCiscoIOS demo_image) [] =
  Some (Some refused, ["scp -t flash:new.bin"; "delete /force flash:new.bin"])%string.
Proof. by vm_compute. Qed.

(** An EOS device whose boot image was changed since its last reload: the image
    it runs is not the one it names, so an image of the running image's name is
    not refused, and a failed copy deletes the running image. *)
Definition eos_answers (command : string) : string :=
  if bool_decide (command = show_version) then "Arista vEOS" +:+ nl +:+ "Software image version: 4.30.1F" +:+ nl
  else if bool_decide (command = show_boot) then "Software image: flash:/EOS-4.32.0F.swi" +:+ nl
  else if bool_decide (command = "dir flash:"%string) then "4093313024 bytes total (2968940544 bytes free)" +:+ nl
  else "".
Definition running_eos : Image :=
  MkImage "i1" "c1" "EOS-4.30.1F.swi" PlatformAristaEOS 5 "" demo_sum.
Example running_image_deleted `{!StorageXml} :
  match exec_play eos_answers None (imageFacts PlatformAristaEOS) [] with
  | Some (inl facts, _) =>
      refuseStage facts running_eos = ""%string ∧
      exec_play eos_answers (Some EOF) (copyImage PlatformAristaEOS (staged_image facts running_eos)) [] =
        Some (Some EOF, ["scp -t /mnt/flash/EOS-4.30.1F.swi"; "delete flash:EOS-4.30.1F.swi"])%string
  | _ => False
  end.
Proof. by vm_compute. Qed.
