(* ===== verification/Dhcp.v ===== *)
(** * The DHCP monitor (src/internal/dhcp/dhcp.go)

    Reading the message type of a captured packet, timing the transactions,
    and the life of the capture: every critical section under [mu], every end
    of a goroutine and every wait is a step. A captured packet is what the
    code reads of its layers. *)
From Stdlib Require Import ZArith Lia.
From stdpp Require Import base gmap sets list strings relations.
From S2P Require Import Prelude GoBase.

(** ** Messages *)

Inductive Phase : Type := PhaseDiscover | PhaseOffer | PhaseRequest | PhaseAck.
#[export] Instance Phase_eq_dec : EqDecision Phase.
Proof. solve_decision. Defined.

Definition dhcpMagicCookie : Z := 1669485411.
Definition dhcpMinPacketSize : Z := 240.
Definition dhcpOptionEnd : Z := 255.
Definition dhcpOptionPad : Z := 0.
Definition dhcpOptionMessageType : Z := 53.
Definition dhcpOptionHeaderLen : Z := 2.

(** The ports of the UDP layer (to, from), the application payload, and the
    capture time, when there are any. *)
Record packet : Type := MkPacket {
  pk_udp : option (Z * Z); pk_app : option bytes; pk_time : option Z }.

Definition isDHCPPort (port : Z) : bool := (port =? 67) || (port =? 68).

(** [extractDHCPPayload]: the outer option is a panic, the inner one nil. *)
Definition extractDHCPPayload (p : packet) : option (option bytes) :=
  match pk_udp p with
  | None => Some None
  | Some (to, from) =>
      if negb (isDHCPPort to) && negb (isDHCPPort from) then Some None
      else match pk_app p with
      | None => Some None
      | Some payload =>
          if len payload <? dhcpMinPacketSize then Some None
          else
            cookie ← slice payload 236 240;
            magic ← be32 cookie;
            Some (if magic =? dhcpMagicCookie then Some payload else None)
      end
  end.

Definition msgTypeToPhase (t : Z) : option Phase :=
  match t with
  | 1 => Some PhaseDiscover
  | 2 => Some PhaseOffer
  | 3 => Some PhaseRequest
  | 5 => Some PhaseAck
  | _ => None
  end.

(** [findDHCPMessageType] *)
Definition find_option (options : bytes) (i : Z) : option (outcome Z Z) :=
  if negb (i <? len options - 1) then Some (Leave 0)
  else
    optionType ← index options i;
    if optionType =? dhcpOptionEnd then Some (Leave 0)
    else if optionType =? dhcpOptionPad then Some (Next (i + 1))
    else if len options <=? i + 1 then Some (Leave 0)
    else
      optionLen ← index options (i + 1);
      if len options <? i + dhcpOptionHeaderLen + optionLen then Some (Leave 0)
      else if (optionType =? dhcpOptionMessageType) && (1 <=? optionLen)
      then v ← index options (i + dhcpOptionHeaderLen); Some (Leave v)
      else Some (Next (i + dhcpOptionHeaderLen + optionLen)).
Definition findDHCPMessageType (options : bytes) : option Z :=
  for_loop (S (length options)) (find_option options) 0.

(** [processPacket] up to [RecordPhase]: a transaction, its phase and when. *)
Definition readPacket (p : packet) (now : Z) : option (option (Z * Phase * Z)) :=
  payload ← extractDHCPPayload p;
  match payload with
  | None => Some None
  | Some payload =>
      xid ← (b ← slice payload 4 8; be32 b);
      options ← slice_from payload 240;
      t ← findDHCPMessageType options;
      Some match msgTypeToPhase t with
           | None => None
           | Some phase => Some (xid, phase, default now (pk_time p))
           end
  end.

(** ** Transactions *)

Record Timing : Type := MkTiming {
  ti_Discover : Z; ti_Offer : Z; ti_Request : Z; ti_Total : Z; ti_Complete : bool }.
Record TimingMs : Type := MkTimingMs { tm_Discover : Z; tm_Offer : Z; tm_Request : Z; tm_Total : Z }.
Definition ToMs (t : Timing) : TimingMs :=
  let ms d := Z.quot d millisecond in
  MkTimingMs (ms (ti_Discover t)) (ms (ti_Offer t)) (ms (ti_Request t)) (ms (ti_Total t)).

Record Transaction : Type := MkTx {
  tx_XID : Z; tx_Started : Z; tx_Discover : Z; tx_Offer : Z; tx_Request : Z; tx_Ack : Z; tx_Complete : bool }.

Record table : Type := MkTable { transactions : gmap Z Transaction; lastTiming : option Timing }.
Definition no_table : table := MkTable ∅ None.

Definition IsZero (t : Z) : bool := t =? time_zero.
Definition between (a b : Z) : Z := if negb (IsZero a) && negb (IsZero b) then time_sub a b else 0.

(** [calculateTiming] *)
Definition calculateTiming (m : table) (tx : Transaction) : table :=
  if negb (tx_Complete tx) then m
  else MkTable (delete (tx_XID tx) (transactions m))
    (Some (MkTiming (between (tx_Offer tx) (tx_Discover tx)) (between (tx_Request tx) (tx_Offer tx))
             (between (tx_Ack tx) (tx_Request tx)) (between (tx_Ack tx) (tx_Discover tx)) true)).

(** [RecordPhase] *)
Definition put (m : table) (xid : Z) (tx : Transaction) : table := MkTable (<[xid := tx]> (transactions m)) (lastTiming m).
Definition new_transaction (xid timestamp : Z) : Transaction :=
  MkTx xid timestamp time_zero time_zero time_zero time_zero false.
Definition at_phase (tx : Transaction) (phase : Phase) (t : Z) : Transaction :=
  match phase with
  | PhaseDiscover => MkTx (tx_XID tx) (tx_Started tx) t (tx_Offer tx) (tx_Request tx) (tx_Ack tx) (tx_Complete tx)
  | PhaseOffer => MkTx (tx_XID tx) (tx_Started tx) (tx_Discover tx) t (tx_Request tx) (tx_Ack tx) (tx_Complete tx)
  | PhaseRequest => MkTx (tx_XID tx) (tx_Started tx) (tx_Discover tx) (tx_Offer tx) t (tx_Ack tx) (tx_Complete tx)
  | PhaseAck => MkTx (tx_XID tx) (tx_Started tx) (tx_Discover tx) (tx_Offer tx) (tx_Request tx) t true
  end.
Definition RecordPhase (m : table) (xid : Z) (phase : Phase) (timestamp : Z) : table :=
  let tx := default (new_transaction xid timestamp) (transactions m !! xid) in
  let tx := at_phase tx phase timestamp in
  let m := put m xid tx in
  match phase with PhaseAck => calculateTiming m tx | _ => m end.

(** [processPacket] *)
Definition processPacket (m : table) (p : packet) (now : Z) : option table :=
  r ← readPacket p now;
  Some match r with None => m | Some (xid, phase, t) => RecordPhase m xid phase t end.

(** A tick of [cleanupStaleTransactions] *)
Definition staleAfter : Z := 2 * minute.
Definition stale (now : Z) (tx : Transaction) : bool := time_before (tx_Started tx) (time_add now (- staleAfter)) && negb (tx_Complete tx).
Definition cleanup (m : table) (now : Z) : table :=
  MkTable (filter (λ kv, stale now kv.2 = false) (transactions m)) (lastTiming m).

(** ** The capture's life

    A run is one successful [Start]: its handle, its stop channel and its two
    goroutines. The monitor's fields name the run they belong to. *)
Record run : Type := MkRun {
  r_iface : string; r_open : bool; r_stopped : bool; r_capture : bool; r_cleaner : bool }.

(** A caller in [Stop] or [SetInterface] past its first critical section. *)
Inductive caller : Type :=
| StopWaits (cleanupDone : option nat)
| SetWaits (name : string) (cleanupDone : option nat)
| SetNames (name : string) (wasRunning : bool)
| SetStarts
| Returned (ok : bool).

Record Monitor : Type := MkMonitor {
  mo_running : bool; mo_iface : string; mo_handle : option nat; mo_stopChan : option nat; mo_cleanupDone : option nat;
  mo_table : table; mo_runs : gmap nat run; mo_callers : gmap nat caller }.

Definition NewMonitor (iface : string) : Monitor := MkMonitor false iface None None None no_table ∅ ∅.

Definition set_run (w : Monitor) (n : nat) (r : run) : Monitor :=
  MkMonitor (mo_running w) (mo_iface w) (mo_handle w) (mo_stopChan w) (mo_cleanupDone w) (mo_table w) (<[n := r]> (mo_runs w)) (mo_callers w).
Definition set_caller (w : Monitor) (c : nat) (s : caller) : Monitor :=
  MkMonitor (mo_running w) (mo_iface w) (mo_handle w) (mo_stopChan w) (mo_cleanupDone w) (mo_table w) (mo_runs w) (<[c := s]> (mo_callers w)).
Definition set_table (w : Monitor) (m : table) : Monitor :=
  MkMonitor (mo_running w) (mo_iface w) (mo_handle w) (mo_stopChan w) (mo_cleanupDone w) m (mo_runs w) (mo_callers w).
Definition set_iface (w : Monitor) (name : string) : Monitor :=
  MkMonitor (mo_running w) name (mo_handle w) (mo_stopChan w) (mo_cleanupDone w) (mo_table w) (mo_runs w) (mo_callers w).

(** [Start], as run [n]: [opened] says whether the capture opened with its
    filter. The second result is whether it returned without an error. *)
Definition Start (w : Monitor) (n : nat) (opened : bool) : Monitor * bool :=
  if mo_running w then (w, true)
  else if negb opened then (w, false)
  else (MkMonitor true (mo_iface w) (Some n) (Some n) (Some n) (mo_table w)
          (<[n := MkRun (mo_iface w) true false true true]> (mo_runs w)) (mo_callers w), true).

(** Closing the stop channel and the handle the fields name. *)
Definition close_stop (r : run) : run := MkRun (r_iface r) (r_open r) true (r_capture r) (r_cleaner r).
Definition close_handle (r : run) : run := MkRun (r_iface r) false (r_stopped r) (r_capture r) (r_cleaner r).
Definition on_run (f : run → run) (n : option nat) (runs : gmap nat run) : gmap nat run :=
  match n with Some n => alter f n runs | None => runs end.
Definition shut (w : Monitor) : Monitor :=
  MkMonitor false (mo_iface w) None None None (mo_table w)
    (on_run close_handle (mo_handle w) (on_run close_stop (mo_stopChan w) (mo_runs w))) (mo_callers w).

(** [Stop] and [SetInterface] by caller [c], to their wait. *)
Definition Stop (w : Monitor) (c : nat) : Monitor :=
  if negb (mo_running w) then set_caller w c (Returned true)
  else set_caller (shut w) c (StopWaits (mo_cleanupDone w)).
Definition SetInterface (w : Monitor) (c : nat) (name : string) : Monitor :=
  if mo_running w then set_caller (shut w) c (SetWaits name (mo_cleanupDone w))
  else set_caller w c (SetNames name false).

Definition done (w : Monitor) (n : option nat) : Prop :=
  match n with None => True | Some n => ∃ r, mo_runs w !! n = Some r ∧ r_cleaner r = false end.

Inductive step (w : Monitor) : Monitor → Prop :=
| s_start n opened : mo_runs w !! n = None → step w (Start w n opened).1
| s_stop c : mo_callers w !! c = None → step w (Stop w c)
| s_stopped c n : mo_callers w !! c = Some (StopWaits n) → done w n → step w (set_caller w c (Returned true))
| s_set c name : mo_callers w !! c = None → step w (SetInterface w c name)
| s_set_waited c name n : mo_callers w !! c = Some (SetWaits name n) → done w n → step w (set_caller w c (SetNames name true))
| s_set_name c name was : mo_callers w !! c = Some (SetNames name was) →
    step w (set_caller (set_iface w name) c (if was then SetStarts else Returned true))
| s_set_start c n opened : mo_callers w !! c = Some SetStarts → mo_runs w !! n = None →
    step w (set_caller (Start w n opened).1 c (Returned (Start w n opened).2))
(* the goroutines of a run *)
| s_packet n r p now m : mo_runs w !! n = Some r → r_capture r = true → processPacket (mo_table w) p now = Some m →
    step w (set_table w m)
| s_capture_ends n r : mo_runs w !! n = Some r → r_capture r = true →
    step w (set_run w n (MkRun (r_iface r) (r_open r) (r_stopped r) false (r_cleaner r)))
| s_tick n r now : mo_runs w !! n = Some r → r_cleaner r = true → step w (set_table w (cleanup (mo_table w) now))
| s_cleaner_ends n r : mo_runs w !! n = Some r → r_cleaner r = true → r_stopped r = true →
    step w (set_run w n (MkRun (r_iface r) (r_open r) (r_stopped r) (r_capture r) false)).

Definition reachable (iface : string) (w : Monitor) : Prop := rtc step (NewMonitor iface) w.

(** ** Reading a packet *)

(** Options as they are written: pads, and options of a type, a length and
    that many bytes. *)
Inductive dhcp_option : Type := Pad | Opt (code : Z) (data : bytes).
Definition encode_option (o : dhcp_option) : bytes :=
  match o with Pad => [dhcpOptionPad] | Opt code data => code :: len data :: data end.
Definition encode_options (l : list dhcp_option) : bytes := concat (map encode_option l).
Definition option_ok (o : dhcp_option) : Prop :=
  match o with Pad => True | Opt code data => 0 < code < 255 ∧ len data < 256 end.
Definition message_type (l : list dhcp_option) : Z :=
  match omap (λ o, match o with Opt code (v :: _) => if code =? dhcpOptionMessageType then Some v else None | _ => None end) l with v :: _ => v | [] => 0 end.

Lemma index_middle {A} (a : list A) x b i : i = len a → index (a ++ x :: b) i = Some x.
Proof.
  intros ->. unfold index, len. rewrite (proj2 (Z.leb_le 0 _)) by lia. rewrite Nat2Z.id.
  by rewrite lookup_app_r, Nat.sub_diag by lia.
Qed.

Lemma find_encoded l : ∀ fuel before rest, Forall option_ok l → (length (encode_options l) < fuel)%nat →
  for_loop fuel (find_option (before ++ encode_options l ++ dhcpOptionEnd :: rest)) (len before) = Some (message_type l).
Proof.
  induction l as [|o l IH]; intros fuel before rest Hl Hf; (destruct fuel as [|fuel]; [cbn in Hf; lia|]).
  - apply for_loop_leave. unfold find_option. case_match; [done|].
    change (encode_options []) with (@nil Z). cbn [app]. by rewrite (index_middle _ _ _ (len before)) by done.
  - apply Forall_cons in Hl as [Ho Hl]. change (encode_options (o :: l)) with (encode_option o ++ encode_options l) in *.
    rewrite length_app in Hf. set (all := before ++ _).
    assert (∀ n, n = length (encode_option o) → for_loop fuel (find_option all) (len before + Z.of_nat n) = Some (message_type l)) as Hnext.
    { intros n ->. unfold all. rewrite <- app_assoc, app_assoc.
      replace (len before + Z.of_nat (length (encode_option o))) with (len (before ++ encode_option o)) by (by rewrite len_app).
      apply IH; [done|]. destruct o; cbn in *; lia. }
    assert (len all = len before + len (encode_option o) + len (encode_options l) + 1 + len rest) as Hlen.
    { unfold all. rewrite !len_app, len_cons. lia. }
    pose proof (len_nonneg before). pose proof (len_nonneg (encode_options l)). pose proof (len_nonneg rest).
    destruct o as [|code data].
    + rewrite (for_loop_next _ _ _ (len before + 1)); [by apply (Hnext 1%nat)|]. unfold find_option. change (len (encode_option Pad)) with 1 in Hlen.
      replace (len before <? len all - 1) with true by (symmetry; apply Z.ltb_lt; lia). cbn [negb].
      unfold all. cbn [encode_option app]. by rewrite (index_middle _ _ _ (len before)) by done.
    + destruct Ho as [Hc Hd]. cbn [encode_option] in Hlen. rewrite !len_cons in Hlen. pose proof (len_nonneg data).
      assert (find_option all (len before) =
        if (code =? dhcpOptionMessageType) && (1 <=? len data) then v ← index all (len before + 2); Some (Leave v)
        else Some (Next (len before + 2 + len data))) as Hstep.
      { unfold find_option. replace (len before <? len all - 1) with true by (symmetry; apply Z.ltb_lt; lia). cbn [negb].
        assert (index all (len before) = Some code) as -> by (unfold all; cbn [encode_option app]; by apply index_middle).
        cbn [mbind option_bind].
        replace (code =? dhcpOptionEnd) with false by (symmetry; apply Z.eqb_neq; unfold dhcpOptionEnd; lia).
        replace (code =? dhcpOptionPad) with false by (symmetry; apply Z.eqb_neq; unfold dhcpOptionPad; lia).
        replace (len all <=? len before + 1) with false by (symmetry; apply Z.leb_gt; lia).
        assert (index all (len before + 1) = Some (len data)) as ->.
        { unfold all. cbn [encode_option app]. rewrite (cons_middle code), app_assoc. apply index_middle. by rewrite len_app. }
        cbn [mbind option_bind]. unfold dhcpOptionHeaderLen.
        by replace (len all <? len before + 2 + len data) with false by (symmetry; apply Z.ltb_ge; lia). }
      destruct ((code =? dhcpOptionMessageType) && (1 <=? len data)) eqn:E.
      * apply andb_true_iff in E as [E1%Z.eqb_eq E2%Z.leb_le]. subst code. destruct data as [|v data]; [change (len []) with 0 in E2; lia|].
        apply for_loop_leave. rewrite Hstep. assert (index all (len before + 2) = Some v) as ->; [|done].
        unfold all. cbn [encode_option app]. rewrite (cons_middle dhcpOptionMessageType), app_assoc, (cons_middle (len _)), app_assoc.
        apply index_middle. rewrite !len_app. change (len [_]) with 1. lia.
      * replace (message_type (Opt code data :: l)) with (message_type l).
        { rewrite (for_loop_next _ _ _ _ Hstep). replace (len before + 2 + len data) with (len before + Z.of_nat (length (encode_option (Opt code data)))); [by apply Hnext|].
          cbn [encode_option length]. unfold len. lia. }
        unfold message_type. cbn [omap list_omap]. destruct data as [|v data]; [done|].
        destruct (code =? dhcpOptionMessageType); [|done]. cbn [andb] in E. apply Z.leb_gt in E. rewrite len_cons in E.
        pose proof (len_nonneg data). lia.
Qed.

(** The message type is found among any options, whatever their order, pads
    between them, and what follows their end. *)
Theorem findDHCPMessageType_encoded l rest : Forall option_ok l →
  findDHCPMessageType (encode_options l ++ dhcpOptionEnd :: rest) = Some (message_type l).
Proof. intros Hl. apply (find_encoded l _ [] rest Hl). cbn. rewrite length_app. cbn. lia. Qed.

Lemma index_some {A} (l : list A) i : 0 ≤ i < len l → ∃ x, index l i = Some x ∧ x ∈ l.
Proof.
  intros Hi. unfold index. rewrite (proj2 (Z.leb_le 0 i)) by lia.
  destruct (lookup_lt_is_Some_2 l (Z.to_nat i)) as [x Hx]; [unfold len in Hi; lia|].
  exists x. split; [done|]. by eapply list_elem_of_lookup_2.
Qed.

(** Any bytes are read without a panic, in a bounded number of rounds. *)
Lemma findDHCPMessageType_total options : bytes_ok options → wp (findDHCPMessageType options) is_byte.
Proof.
  intros Hb. unfold bytes_ok in Hb. rewrite Forall_forall in Hb.
  apply (wp_for_loop (find_option options) (λ i, 0 ≤ i) (λ i, Z.to_nat (len options - i))); [|lia|unfold len; lia].
  intros i Hi. unfold find_option. destruct (negb (i <? len options - 1)) eqn:E0; [done|]. apply negb_false_iff, Z.ltb_lt in E0.
  destruct (index_some options i) as (t & -> & Ht); [lia|]. cbn [mbind option_bind].
  destruct (t =? dhcpOptionEnd); [done|]. destruct (t =? dhcpOptionPad); [cbn; lia|].
  destruct (len options <=? i + 1); [done|]. destruct (index_some options (i + 1)) as (n & -> & Hn); [lia|]. cbn [mbind option_bind].
  apply Hb in Hn. unfold is_byte in Hn. unfold dhcpOptionHeaderLen. destruct (_ <? _) eqn:E; [done|]. apply Z.ltb_ge in E.
  destruct ((t =? dhcpOptionMessageType) && (1 <=? n)) eqn:E1; [|cbn; lia].
  apply andb_true_iff in E1 as [_ E1%Z.leb_le]. destruct (index_some options (i + 2)) as (v & -> & Hv); [lia|]. cbn. by apply Hb.
Qed.

(** A packet is read whatever its bytes. *)
Theorem processPacket_total m p now : (∀ b, pk_app p = Some b → bytes_ok b) → ∃ m', processPacket m p now = Some m'.
Proof.
  intros Hb. unfold processPacket. enough (∃ r, readPacket p now = Some r) as [r ->] by (by eexists).
  unfold readPacket, extractDHCPPayload. destruct (pk_udp p) as [ [to from]|]; [|by eexists].
  destruct (_ && _); [by eexists|]. destruct (pk_app p) as [b|]; [|by eexists]. specialize (Hb b eq_refl).
  destruct (len b <? dhcpMinPacketSize) eqn:E; [by eexists|]. apply Z.ltb_ge in E. unfold dhcpMinPacketSize in E.
  assert (∀ i j, 0 ≤ i → i ≤ j → j ≤ len b → ∃ l, slice b i j = Some l ∧ len l = j - i ∧ bytes_ok l) as Hslice.
  { intros i j Hi Hij Hj. unfold slice. rewrite (proj2 (Z.leb_le 0 i)), (proj2 (Z.leb_le i j)), (proj2 (Z.leb_le j _)) by done. cbn [andb].
    eexists. split; [done|]. split; [unfold len; rewrite length_take, length_drop; unfold len in *; lia|].
    by apply Forall_take, Forall_drop. }
  assert (∀ i, 0 ≤ i → i + 4 ≤ len b → ∃ l v, slice b i (i + 4) = Some l ∧ be32 l = Some v) as Hword.
  { intros i Hi Hl. destruct (Hslice i (i + 4)) as (l & -> & Hll & _); [lia..|].
    unfold len in Hll. destruct l as [|b0 [|b1 [|b2 [|b3 l] ] ] ]; cbn in Hll; try lia. by eexists _, _. }
  destruct (Hword 236) as (l & v & H1 & H2); [lia..|]. change (236 + 4) with 240 in H1. rewrite H1. cbn [mbind option_bind]. rewrite H2. cbn [mbind option_bind].
  destruct (v =? dhcpMagicCookie); [|by eexists].
  destruct (Hword 4) as (l' & v' & H3 & H4); [lia..|]. change (4 + 4) with 8 in H3. rewrite H3. cbn [mbind option_bind]. rewrite H4. cbn [mbind option_bind].
  destruct (Hslice 240 (len b)) as (o & Ho & _ & Hok); [lia..|]. unfold slice_from. rewrite Ho. cbn [mbind option_bind].
  pose proof (findDHCPMessageType_total o Hok) as Ht. destruct (findDHCPMessageType o); [by eexists|done].
Qed.

(** ** The transactions of a history *)

(** What happens to the table: a phase is recorded, or the cleaner ticks. *)
Inductive tevent : Type := EPhase (xid : Z) (p : Phase) (t : Z) | ETick (now : Z).
Definition on_event (m : table) (e : tevent) : table :=
  match e with EPhase xid p t => RecordPhase m xid p t | ETick now => cleanup m now end.
Definition after (evs : list tevent) : table := foldl on_event no_table evs.

(** What a transaction saw since it last ended, by an acknowledgement or by
    being stale. *)
Definition open_step (xid : Z) (l : list (Phase * Z)) (e : tevent) : list (Phase * Z) :=
  match e with
  | EPhase x p t => if x =? xid then match p with PhaseAck => [] | _ => l ++ [(p, t)] end else l
  | ETick now =>
      match l with
      | (_, started) :: _ => if started <? now - staleAfter then [] else l
      | [] => []
      end
  end.
Definition open_of (xid : Z) (evs : list tevent) : list (Phase * Z) := foldl (open_step xid) [] evs.
(** When it last saw a phase. *)
Definition seen (p : Phase) (l : list (Phase * Z)) : Z :=
  default time_zero (last (omap (λ x, if bool_decide (x.1 = p) then Some x.2 else None) l)).
Definition tx_of (xid : Z) (l : list (Phase * Z)) : option Transaction :=
  match l with
  | [] => None
  | (_, started) :: _ => Some (MkTx xid started (seen PhaseDiscover l) (seen PhaseOffer l) (seen PhaseRequest l) time_zero false)
  end.

Lemma seen_snoc p q t l : seen p (l ++ [(q, t)]) = if bool_decide (q = p) then t else seen p l.
Proof.
  unfold seen. rewrite omap_app. cbn. case_bool_decide; [by rewrite last_snoc|by rewrite app_nil_r].
Qed.

Lemma tx_of_snoc xid l p t : p ≠ PhaseAck → Forall (λ x, x.1 ≠ PhaseAck) l →
  tx_of xid (l ++ [(p, t)]) = Some (at_phase (default (new_transaction xid t) (tx_of xid l)) p t).
Proof.
  intros Hp Hl. destruct l as [|[q s] l]; [by destruct p|]. unfold tx_of at 1.
  change (((q, s) :: l) ++ [(p, t)]) with ((q, s) :: (l ++ [(p, t)])) at 1. cbn [tx_of].
  rewrite !seen_snoc. destruct p; done.
Qed.

Lemma open_no_ack xid evs : Forall (λ x, x.1 ≠ PhaseAck) (open_of xid evs).
Proof.
  induction evs as [|e evs IH] using rev_ind; [done|]. unfold open_of. rewrite foldl_snoc. fold (open_of xid evs).
  destruct e as [x p t|now]; cbn [open_step].
  - destruct (x =? xid); [|done]. destruct p; [apply Forall_app; split; [done|by constructor]..|done].
  - destruct (open_of xid evs) as [|[q s] l]; [done|]. by destruct (s <? _).
Qed.

(** C34: The table holds exactly what each transaction has seen since it last ended,
    whatever the other transactions do; and an acknowledgement ends its
    transaction with the time between the last packets of each phase. *)
Theorem RecordPhase_history evs xid :
  transactions (after evs) !! xid = tx_of xid (open_of xid evs) ∧
  ∀ t, let l := open_of xid evs in
    transactions (after (evs ++ [EPhase xid PhaseAck t])) !! xid = None ∧
    lastTiming (after (evs ++ [EPhase xid PhaseAck t])) = Some (MkTiming
      (between (seen PhaseOffer l) (seen PhaseDiscover l)) (between (seen PhaseRequest l) (seen PhaseOffer l))
      (between t (seen PhaseRequest l)) (between t (seen PhaseDiscover l)) true).
Proof.
  assert (∀ evs xid, transactions (after evs) !! xid = tx_of xid (open_of xid evs)) as Hall.
  { clear evs xid. intros evs. induction evs as [|e evs IH] using rev_ind; [done|]. intros xid.
    unfold after, open_of. rewrite !foldl_snoc. fold (after evs) (open_of xid evs). pose proof (open_no_ack xid evs) as Hna.
    destruct e as [x p t|now]; cbn [on_event open_step].
    - destruct (x =? xid) eqn:E; [apply Z.eqb_eq in E as ->|apply Z.eqb_neq in E].
      + unfold RecordPhase. rewrite IH. destruct p.
        1-3: unfold put; cbn [transactions]; rewrite lookup_insert_eq; by rewrite <- tx_of_snoc.
        cbn. assert (tx_XID (default (new_transaction xid t) (tx_of xid (open_of xid evs))) = xid) as ->.
        { by destruct (open_of xid evs) as [|[q s] l]. }
        by rewrite lookup_delete_eq.
      + unfold RecordPhase. destruct p; unfold put; cbn [transactions calculateTiming tx_Complete at_phase negb].
        1-3: by rewrite lookup_insert_ne.
        assert (tx_XID (default (new_transaction x t) (transactions (after evs) !! x)) = x) as Hx.
        { rewrite IH. by destruct (open_of x evs) as [|[q s] l]. }
        rewrite Hx, lookup_delete_ne, lookup_insert_ne by done. done.
    - unfold cleanup. cbn [transactions]. rewrite map_lookup_filter, IH. destruct (open_of xid evs) as [|[q s] l]; [done|].
      cbn [tx_of]. cbn. unfold stale, time_before, time_add. cbn. rewrite andb_true_r.
      replace (now + - staleAfter) with (now - staleAfter) by lia. by destruct (s <? now - staleAfter). }
  split; [apply Hall|]. intros t l. unfold after. rewrite !foldl_snoc. fold (after evs). cbn [on_event]. unfold RecordPhase. rewrite Hall.
  fold l. cbn. split.
  - assert (tx_XID (default (new_transaction xid t) (tx_of xid l)) = xid) as ->.
    { by destruct l as [|[q s] l']. }
    by rewrite lookup_delete_eq.
  - destruct l as [|[q s] l']; [|done]. done.
Qed.

(** An acknowledgement alone, as a renewal's, is a complete timing of nothing,
    and replaces the last one measured. *)
Example renewal_is_complete t0 :
  let dora := [EPhase 1 PhaseDiscover t0; EPhase 1 PhaseOffer (t0 + 5); EPhase 1 PhaseRequest (t0 + 6); EPhase 1 PhaseAck (t0 + 9)] in
  t0 = 1000 →
  lastTiming (after dora) = Some (MkTiming 5 1 3 9 true) ∧
  lastTiming (after (dora ++ [EPhase 2 PhaseAck (t0 + 50)])) = Some (MkTiming 0 0 0 0 true).
Proof. intros dora ->. by vm_compute. Qed.

(** ** The life of the capture *)

Definition set_waits (c : caller) : option (option nat) :=
  match c with StopWaits n | SetWaits _ n => Some n | _ => None end.

Record monitor_ok (w : Monitor) : Prop := {
  (* the fields name one run, or none *)
  ok_fields : mo_stopChan w = mo_handle w ∧ mo_cleanupDone w = mo_handle w;
  ok_running : mo_running w = bool_decide (is_Some (mo_handle w));
  ok_known n : mo_handle w = Some n → is_Some (mo_runs w !! n);
  (* the run in the fields is the one that is open *)
  ok_run n r : mo_runs w !! n = Some r →
    r_open r = bool_decide (mo_handle w = Some n) ∧ r_stopped r = negb (r_open r) ∧ (r_cleaner r = false → r_stopped r = true);
  (* whoever waits waits for a run that was stopped *)
  ok_waits c s n : mo_callers w !! c = Some s → set_waits s = Some n →
    ∃ i r, n = Some i ∧ mo_runs w !! i = Some r ∧ r_stopped r = true }.

Lemma monitor_ok_new iface : monitor_ok (NewMonitor iface).
Proof. by split. Qed.

Lemma monitor_ok_caller w c s : monitor_ok w →
  (∀ n, set_waits s = Some n → ∃ i r, n = Some i ∧ mo_runs w !! i = Some r ∧ r_stopped r = true) → monitor_ok (set_caller w c s).
Proof.
  intros [H1 H2 H3 H4 H5] Hs. split; try done. intros c' s' n. cbn. rewrite lookup_insert_Some.
  intros [ [<- <-]|[_ Hc] ]; [apply Hs|by eapply H5].
Qed.

Lemma monitor_ok_table w m : monitor_ok w → monitor_ok (set_table w m).
Proof. by intros []. Qed.
Lemma monitor_ok_iface w name : monitor_ok w → monitor_ok (set_iface w name).
Proof. by intros []. Qed.

Lemma monitor_ok_start w n opened : monitor_ok w → mo_runs w !! n = None → monitor_ok (Start w n opened).1.
Proof.
  intros Hw Hn. unfold Start. destruct (mo_running w) eqn:Er; [done|]. destruct opened; [|done]. cbn.
  destruct Hw as [ [H1a H1b] H2 H3 H4 H5]. rewrite Er in H2. symmetry in H2. apply bool_decide_eq_false in H2.
  assert (mo_handle w = None) as Hh by (destruct (mo_handle w); [by destruct H2|done]).
  split; cbn; [done|done| | |].
  - intros n' [= <-]. rewrite lookup_insert_eq. by eexists.
  - intros n' r. rewrite lookup_insert_Some. intros [ [<- <-]|[Hne Hr] ].
    + cbn. by rewrite bool_decide_eq_true_2.
    + destruct (H4 _ _ Hr) as (Ho & Hs & Hc). rewrite Hh in Ho. rewrite bool_decide_eq_false_2 in Ho by done.
      split; [|done]. rewrite Ho. symmetry. apply bool_decide_eq_false. congruence.
  - intros c s m Hc Hm. destruct (H5 _ _ _ Hc Hm) as (i & r & -> & Hr & Hs). exists i, r. split; [done|].
    split; [|done]. rewrite lookup_insert_ne; [done|congruence].
Qed.

Lemma monitor_ok_shut w : monitor_ok w → monitor_ok (shut w) ∧
  ∀ n, mo_cleanupDone w = Some n → ∃ r, mo_runs (shut w) !! n = Some r ∧ r_stopped r = true.
Proof.
  intros [ [H1a H1b] H2 H3 H4 H5]. unfold shut. rewrite H1a, H1b. destruct (mo_handle w) as [n|] eqn:Hh; cbn [on_run].
  - destruct (H3 n eq_refl) as [r0 Hr0]. split.
    + split; cbn; [done|done|done| |].
      * intros n' r. rewrite lookup_alter_Some. intros [(<- & r' & Hr & ->)|[Hne Hr] ].
        -- apply lookup_alter_Some in Hr as [(_ & r'' & Hr & ->)|[? _] ]; done.
        -- rewrite lookup_alter_ne in Hr by done. destruct (H4 _ _ Hr) as (Ho & Hs & Hc).
           rewrite bool_decide_eq_false_2 in Ho by congruence. by rewrite Ho in Hs |- *.
      * intros c s m Hc Hm. destruct (H5 _ _ _ Hc Hm) as (i & r & -> & Hr & Hs).
        destruct (decide (i = n)) as [->|Hne].
        -- exists n, (close_handle (close_stop r)). by rewrite lookup_alter_eq, lookup_alter_eq, Hr.
        -- exists i, r. by rewrite !lookup_alter_ne by done.
    + intros n' [= <-]. exists (close_handle (close_stop r0)). cbn. by rewrite lookup_alter_eq, lookup_alter_eq, Hr0.
  - split; [|done]. split; cbn; [done|done|done| |done]. intros n r Hr. destruct (H4 _ _ Hr) as (Ho & ?).
    by rewrite bool_decide_eq_false_2 in Ho by done.
Qed.

Lemma monitor_ok_cd w : monitor_ok w → mo_running w = true → ∃ n, mo_cleanupDone w = Some n.
Proof.
  intros [ [H1a H1b] H2 _ _ _] Hr. rewrite Hr in H2. symmetry in H2. apply bool_decide_eq_true in H2 as [n Hn]. exists n. congruence.
Qed.

Lemma monitor_ok_run w n r r' : monitor_ok w → mo_runs w !! n = Some r →
  r_open r' = r_open r → r_stopped r' = r_stopped r → (r_cleaner r' = false → r_cleaner r = false ∨ r_stopped r = true) → monitor_ok (set_run w n r').
Proof.
  intros [H1 H2 H3 H4 H5] Hr Ho Hs Hc. split; cbn; [done|done| | |].
  - intros m Hm. destruct (decide (m = n)) as [->|Hne]; [by rewrite lookup_insert_eq|]. rewrite lookup_insert_ne by done. by apply H3.
  - intros m x. rewrite lookup_insert_Some. intros [ [<- <-]|[_ Hx] ]; [|by apply H4].
    destruct (H4 _ _ Hr) as (H4a & H4b & H4c). rewrite Ho, Hs. split; [done|]. split; [done|]. intros Hf. destruct (Hc Hf); [by apply H4c|done].
  - intros c s m Hcl Hm. destruct (H5 _ _ _ Hcl Hm) as (i & x & -> & Hx & Hxs). destruct (decide (i = n)) as [->|Hne].
    + exists n, r'. rewrite lookup_insert_eq. split; [done|]. split; [done|]. congruence.
    + exists i, x. by rewrite lookup_insert_ne.
Qed.

Lemma monitor_ok_step w w' : step w w' → monitor_ok w → monitor_ok w'.
Proof.
  intros Hstep Hw. destruct Hstep as [n opened Hn|c Hc|c n Hc Hd|c name Hc|c name n Hc Hd|c name was Hc|c n opened Hc Hn|n r p now m Hr Ha Hm|n r Hr Ha|n r now Hr Ha|n r Hr Ha Hs].
  - by apply monitor_ok_start.
  - unfold Stop. destruct (mo_running w) eqn:Er; cbn [negb]; [|by apply monitor_ok_caller].
    destruct (monitor_ok_shut w Hw) as [Hs Hd]. destruct (monitor_ok_cd w Hw Er) as [n Hn]. apply monitor_ok_caller; [done|].
    intros m [= <-]. rewrite Hn. destruct (Hd n Hn) as (r & ? & ?). by exists n, r.
  - by apply monitor_ok_caller.
  - unfold SetInterface. destruct (mo_running w) eqn:Er; [|by apply monitor_ok_caller].
    destruct (monitor_ok_shut w Hw) as [Hs Hd]. destruct (monitor_ok_cd w Hw Er) as [n Hn]. apply monitor_ok_caller; [done|].
    intros m [= <-]. rewrite Hn. destruct (Hd n Hn) as (r & ? & ?). by exists n, r.
  - by apply monitor_ok_caller.
  - apply monitor_ok_caller; [by apply monitor_ok_iface|]. by destruct was.
  - by apply monitor_ok_caller; [apply monitor_ok_start|].
  - by apply monitor_ok_table.
  - eapply monitor_ok_run; [done|done|done|done|]. cbn. tauto.
  - by apply monitor_ok_table.
  - eapply monitor_ok_run; [done|done|done|done|]. by right.
Qed.

Lemma monitor_ok_reachable iface w : reachable iface w → monitor_ok w.
Proof.
  unfold reachable. intros H. pose proof (monitor_ok_new iface) as Hok. induction H as [|? ? ? Hs _ IH]; [done|]. by eapply IH, monitor_ok_step.
Qed.

(** In every interleaving of starts, stops, changes of interface and packets:
    the monitor runs exactly when one capture is open, no other capture is,
    and a capture that is not the monitor's has been told to stop; and a
    [Stop] or [SetInterface] that waits can always go on, since the goroutine
    it waits for was told to stop and needs nothing else. *)
Theorem monitor_safe iface w : reachable iface w →
  (mo_running w = true ↔ ∃ n r, mo_runs w !! n = Some r ∧ r_open r = true) ∧
  (∀ n1 n2 r1 r2, mo_runs w !! n1 = Some r1 → mo_runs w !! n2 = Some r2 → r_open r1 = true → r_open r2 = true → n1 = n2) ∧
  (∀ n r, mo_runs w !! n = Some r → r_stopped r = negb (r_open r)) ∧
  (∀ c s n, mo_callers w !! c = Some s → set_waits s = Some n → ∃ w', rtc step w w' ∧ mo_callers w' !! c = Some s ∧ done w' n).
Proof.
  intros Hr. apply monitor_ok_reachable in Hr as [H1 H2 H3 H4 H5]. split; [|split; [|split] ].
  - rewrite H2, bool_decide_eq_true. split.
    + intros [n Hn]. destruct (H3 n Hn) as [r Hr]. exists n, r. split; [done|]. destruct (H4 _ _ Hr) as [-> _]. by apply bool_decide_eq_true.
    + intros (n & r & Hr & Ho). destruct (H4 _ _ Hr) as [E _]. rewrite E in Ho. apply bool_decide_eq_true in Ho. by eexists.
  - intros n1 n2 r1 r2 Hr1 Hr2 Ho1 Ho2. destruct (H4 _ _ Hr1) as [E1 _], (H4 _ _ Hr2) as [E2 _]. rewrite E1 in Ho1. rewrite E2 in Ho2.
    apply bool_decide_eq_true in Ho1, Ho2. congruence.
  - intros n r Hr. by destruct (H4 _ _ Hr) as (_ & ? & _).
  - intros c s n Hc Hn. destruct (H5 _ _ _ Hc Hn) as (i & r & -> & Hr & Hs). destruct (r_cleaner r) eqn:Ecl.
    + eexists. split; [apply rtc_once; by eapply s_cleaner_ends|]. split; [done|]. cbn. eexists. by rewrite lookup_insert_eq.
    + exists w. split; [done|]. split; [done|]. by exists r.
Qed.

(** A change of interface during which another caller starts the monitor: it
    reports success, and the monitor is on the old interface. *)
Example interface_not_set : ∃ w r,
  reachable "eth0" w ∧ mo_callers w !! 1%nat = Some (Returned true) ∧ mo_running w = true ∧
  mo_handle w = Some 2%nat ∧ mo_runs w !! 2%nat = Some r ∧ r_iface r = "eth0"%string ∧ mo_iface w = "eth1"%string.
Proof.
  eexists _, _. split.
  - unfold reachable. eapply rtc_l; [by apply (s_start _ 1 true)|]. cbn.
    eapply rtc_l; [by apply (s_set _ 1 "eth1")|]. cbn.
    eapply rtc_l; [by eapply (s_cleaner_ends _ 1)|]. cbn.
    eapply rtc_l; [by apply (s_start _ 2 true)|]. cbn.
    eapply rtc_l; [eapply (s_set_waited _ 1); [done|by eexists]|]. cbn.
    eapply rtc_l; [by eapply (s_set_name _ 1)|]. cbn.
    eapply rtc_l; [by eapply (s_set_start _ 1 3 true)|]. cbn. apply rtc_refl.
  - by vm_compute.
Qed.
