(* ===== verification/DhcpRogue.v ===== *)
(** * Rogue DHCP servers (src/internal/dhcp/rogue.go)

    What a captured offer says of its server, the table of servers seen, and
    the life of the capture with the clean-up of a capture loop that ends.
    Every method holds [mu] from start to end, so each is one step, and so is
    the clean-up. A captured packet is what the code reads of its layers. *)
From Stdlib Require Import ZArith Lia.
From stdpp Require Import base gmap sets list strings pretty relations.
From S2P Require Import Prelude GoBase.

(** ** Offers *)

Record DHCPv4 : Type := MkDHCP { dh_reply : bool; dh_options : list (Z * bytes) }.
(** The DHCP layer, the source of the IPv4 layer and of the Ethernet layer. *)
Record packet : Type := MkPacket { pk_dhcp : option DHCPv4; pk_src : option bytes; pk_mac : option string }.

Definition DHCPOptMessageType : Z := 53.
Definition DHCPOptServerID : Z := 54.
Definition DHCPMsgTypeOffer : Z := 2.

(** The data of the first option of a type and a length. *)
Fixpoint option_data (options : list (Z * bytes)) (type n : Z) : option bytes :=
  match options with
  | [] => None
  | (t, data) :: options => if (t =? type) && (len data =? n) then Some data else option_data options type n
  end.
Definition getDHCPMessageType (d : DHCPv4) : Z :=
  match option_data (dh_options d) DHCPOptMessageType 1 with Some (t :: _) => t | _ => 0 end.

(** [net.IP.String] of four bytes *)
Fixpoint dotted (b : bytes) : string :=
  match b with [] => "" | [x] => pretty x | x :: b => pretty x +:+ "." +:+ dotted b end.
Definition getServerIdentifier (d : DHCPv4) : string :=
  match option_data (dh_options d) DHCPOptServerID 4 with Some ip => dotted ip | None => "" end.

Definition extractDHCPOffer (p : packet) : option DHCPv4 :=
  match pk_dhcp p with
  | None => None
  | Some d => if negb (dh_reply d) || negb (getDHCPMessageType d =? DHCPMsgTypeOffer) then None else Some d
  end.
Definition extractSourceIP (p : packet) : string := match pk_src p with Some ip => dotted ip | None => "" end.
Definition extractSourceMAC (p : packet) : string := default "" (pk_mac p).
Definition extractServerInfo (p : packet) (d : DHCPv4) : string * string :=
  let id := getServerIdentifier d in
  (if bool_decide (id = ""%string) then extractSourceIP p else id, extractSourceMAC p).

(** ** The table of servers *)

Definition maxDetectedServers : Z := 1000.
Definition serverExpiry : Z := 24 * hour.

Record RogueServer : Type := MkServer {
  sv_IP : string; sv_MAC : string; sv_FirstSeen : Z; sv_LastSeen : Z; sv_OfferCount : Z; sv_IsAuthorized : bool }.

Record table : Type := MkTable { detected : gmap string RogueServer; known : gset string }.

Definition count (t : table) : Z := Z.of_nat (size (detected t)).
Definition expired (now : Z) (s : RogueServer) : bool := serverExpiry <? time_sub now (sv_LastSeen s).
Definition pruneExpiredServers (t : table) (now : Z) : table :=
  if count t <=? maxDetectedServers `quot` 2 then t
  else MkTable (filter (λ kv, expired now kv.2 = false) (detected t)) (known t).
(** The new server, and whether it is warned of; [None] when the table is full. *)
Definition addNewServer (t : table) (alert : bool) (ip mac : string) (now : Z) : table * option bool :=
  if maxDetectedServers <=? count t then (t, None)
  else
    let isKnown := bool_decide (ip ∈ known t) in
    (MkTable (<[ip := MkServer ip mac now now 1 isKnown]> (detected t)) (known t), Some (negb isKnown && alert)).
Definition updateExistingServer (s : RogueServer) (mac : string) (now : Z) : RogueServer :=
  MkServer (sv_IP s) (if negb (bool_decide (mac = ""%string)) && bool_decide (sv_MAC s = ""%string) then mac else sv_MAC s)
    (sv_FirstSeen s) now (sv_OfferCount s + 1) (sv_IsAuthorized s).
Definition recordDetectedServer (t : table) (alert : bool) (ip mac : string) (now : Z) : table * option bool :=
  let t := pruneExpiredServers t now in
  match detected t !! ip with
  | None => addNewServer t alert ip mac now
  | Some s => (MkTable (<[ip := updateExistingServer s mac now]> (detected t)) (known t), Some false)
  end.

(** [processPacket] *)
Definition processPacket (t : table) (alert : bool) (p : packet) (now : Z) : table * option bool :=
  match extractDHCPOffer p with
  | None => (t, Some false)
  | Some d =>
      let '(ip, mac) := extractServerInfo p d in
      if bool_decide (ip = ""%string) then (t, Some false) else recordDetectedServer t alert ip mac now
  end.

Definition UpdateKnownServers (t : table) (servers : list string) : table :=
  let k := list_to_set servers in
  MkTable ((λ s, MkServer (sv_IP s) (sv_MAC s) (sv_FirstSeen s) (sv_LastSeen s) (sv_OfferCount s) (bool_decide (sv_IP s ∈ k))) <$> detected t) k.
Definition GetDetectedServers (t : table) : list RogueServer := (map_to_list (detected t)).*2.
Definition GetRogueServers (t : table) : list RogueServer := List.filter (λ s, negb (sv_IsAuthorized s)) (map_to_list (detected t)).*2.
Definition new_table (servers : list string) : table := MkTable ∅ (list_to_set servers).

(** ** The capture's life

    A run is one successful start: whether its handle is open, its context
    cancelled, its loop still reading packets, and its goroutine alive - one
    whose loop has ended still has to clean up. *)
Record run : Type := MkRun { r_iface : string; r_open : bool; r_cancelled : bool; r_looping : bool; r_alive : bool }.
Record RogueDetector : Type := MkDetector {
  rd_running : bool; rd_iface : string; rd_handle : option nat; rd_cancel : option nat; rd_alert : bool;
  rd_table : table; rd_runs : gmap nat run }.
Definition NewRogueDetector (iface : string) (alert : bool) (servers : list string) : RogueDetector :=
  MkDetector false iface None None alert (new_table servers) ∅.

Definition set_run (d : RogueDetector) (n : nat) (r : run) : RogueDetector :=
  MkDetector (rd_running d) (rd_iface d) (rd_handle d) (rd_cancel d) (rd_alert d) (rd_table d) (<[n := r]> (rd_runs d)).
Definition set_table (d : RogueDetector) (t : table) : RogueDetector :=
  MkDetector (rd_running d) (rd_iface d) (rd_handle d) (rd_cancel d) (rd_alert d) t (rd_runs d).

(** [startLocked], as run [n]; it fails when it is running or the capture does
    not open. *)
Definition startLocked (d : RogueDetector) (n : nat) (opened : bool) : RogueDetector * bool :=
  if rd_running d then (d, false)
  else if negb opened then (d, false)
  else (MkDetector true (rd_iface d) (Some n) (Some n) (rd_alert d) (rd_table d)
          (<[n := MkRun (rd_iface d) true false true true]> (rd_runs d)), true).
Definition close (r : run) : run := MkRun (r_iface r) false (r_cancelled r) (r_looping r) (r_alive r).
Definition cancel (r : run) : run := MkRun (r_iface r) (r_open r) true (r_looping r) (r_alive r).
Definition on_run (f : run → run) (n : option nat) (runs : gmap nat run) : gmap nat run :=
  match n with Some n => alter f n runs | None => runs end.
Definition stopLocked (d : RogueDetector) : RogueDetector :=
  if negb (rd_running d) then d
  else MkDetector false (rd_iface d) None None (rd_alert d) (rd_table d)
    (on_run close (rd_handle d) (on_run cancel (rd_cancel d) (rd_runs d))).
Definition SetInterface (d : RogueDetector) (iface : string) (n : nat) (opened : bool) : RogueDetector * bool :=
  let wasRunning := rd_running d in
  let d := if wasRunning then stopLocked d else d in
  let d := MkDetector (rd_running d) iface (rd_handle d) (rd_cancel d) (rd_alert d) (rd_table d) (rd_runs d) in
  if wasRunning then startLocked d n opened else (d, true).

(** The loop of [capturePackets] ends, and then its clean-up, under the lock:
    between the two, anything may happen. *)
Definition loop_end (d : RogueDetector) (n : nat) (r : run) : RogueDetector :=
  set_run d n (MkRun (r_iface r) (r_open r) (r_cancelled r) false (r_alive r)).
Definition capture_exit (d : RogueDetector) (n : nat) (r : run) : RogueDetector :=
  let d := set_run d n (MkRun (r_iface r) (r_open r) (r_cancelled r) (r_looping r) false) in
  if rd_running d
  then MkDetector false (rd_iface d) None None (rd_alert d) (rd_table d) (on_run close (rd_handle d) (rd_runs d))
  else d.

Inductive step (d : RogueDetector) : RogueDetector → Prop :=
| s_start n opened : rd_runs d !! n = None → step d (startLocked d n opened).1
| s_stop : step d (stopLocked d)
| s_set iface n opened : rd_runs d !! n = None → step d (SetInterface d iface n opened).1
| s_known servers : step d (set_table d (UpdateKnownServers (rd_table d) servers))
| s_packet n r p now : rd_runs d !! n = Some r → r_looping r = true →
    step d (set_table d (processPacket (rd_table d) (rd_alert d) p now).1)
(* a loop ends when it is cancelled, or when its packets end *)
| s_loop_end n r : rd_runs d !! n = Some r → r_looping r = true → step d (loop_end d n r)
| s_exit n r : rd_runs d !! n = Some r → r_looping r = false → r_alive r = true → step d (capture_exit d n r).
Definition reachable (d0 d : RogueDetector) : Prop := rtc step d0 d.

(** ** The table *)

Record table_ok (t : table) : Prop := {
  t_bounded : count t ≤ maxDetectedServers;
  t_key ip s : detected t !! ip = Some s → sv_IP s = ip ∧ ip ≠ ""%string;
  t_authorised ip s : detected t !! ip = Some s → sv_IsAuthorized s = bool_decide (ip ∈ known t);
  t_offers ip s : detected t !! ip = Some s → 1 ≤ sv_OfferCount s }.

Lemma prune_lookup t now ip s : detected (pruneExpiredServers t now) !! ip = Some s → detected t !! ip = Some s.
Proof. unfold pruneExpiredServers. destruct (_ <=? _); [done|]. cbn. by intros [? _]%map_lookup_filter_Some. Qed.
Lemma prune_known t now : known (pruneExpiredServers t now) = known t.
Proof. unfold pruneExpiredServers. by destruct (_ <=? _). Qed.
Lemma prune_count t now : count (pruneExpiredServers t now) ≤ count t.
Proof.
  unfold pruneExpiredServers, count. destruct (_ <=? _); [done|]. cbn. apply inj_le, map_subseteq_size, map_filter_subseteq.
Qed.
Lemma prune_ok t now : table_ok t → table_ok (pruneExpiredServers t now).
Proof.
  intros [H1 H2 H3 H4]. split; [pose proof (prune_count t now); lia| | |]; intros ip s Hs%prune_lookup; [by apply H2| |by eapply H4].
  rewrite prune_known. by apply H3.
Qed.

(** An offer is counted for a server that is known of, and otherwise recorded
    as authorised or not, unless the table is full; before that, servers not
    seen for a day are forgotten, once the table is half full. *)
Theorem recordDetectedServer_spec t alert ip mac now : table_ok t → ip ≠ ""%string →
  let '(t', warned) := recordDetectedServer t alert ip mac now in
  table_ok t' ∧ known t' = known t ∧
  (∀ ip' s, ip' ≠ ip → detected t' !! ip' = Some s ↔ detected t !! ip' = Some s ∧ (maxDetectedServers `quot` 2 < count t → expired now s = false)) ∧
  match detected (pruneExpiredServers t now) !! ip with
  | Some s => detected t' !! ip = Some (updateExistingServer s mac now) ∧ warned = Some false
  | None =>
      if maxDetectedServers <=? count (pruneExpiredServers t now) then detected t' !! ip = None ∧ warned = None
      else detected t' !! ip = Some (MkServer ip mac now now 1 (bool_decide (ip ∈ known t))) ∧
           warned = Some (negb (bool_decide (ip ∈ known t)) && alert)
  end.
Proof.
  intros Hok Hip. pose proof (prune_ok t now Hok) as Hp. pose proof (prune_known t now) as Hk.
  assert (∀ ip' s, detected (pruneExpiredServers t now) !! ip' = Some s ↔
    detected t !! ip' = Some s ∧ (maxDetectedServers `quot` 2 < count t → expired now s = false)) as Hpr.
  { intros ip' s. unfold pruneExpiredServers. destruct (count t <=? _) eqn:E.
    - apply Z.leb_le in E. split; [|by intros []]. intros Hs. split; [done|]. lia.
    - apply Z.leb_gt in E. cbn. rewrite map_lookup_filter_Some. cbn. naive_solver. }
  unfold recordDetectedServer. set (p := pruneExpiredServers t now) in *.
  destruct Hp as [H1 H2 H3 H4]. destruct (detected p !! ip) as [s|] eqn:Es.
  - destruct (H2 _ _ Es) as [Hsi _]. split; [split|]; cbn.
    + unfold count in *. cbn. by rewrite map_size_insert_Some by (by eexists).
    + intros ip' s'. rewrite lookup_insert_Some. intros [ [<- <-]|[_ Hs] ]; [done|by apply H2].
    + intros ip' s'. rewrite lookup_insert_Some. intros [ [<- <-]|[_ Hs] ]; [exact (H3 _ _ Es)|by apply H3].
    + intros ip' s'. rewrite lookup_insert_Some. intros [ [<- <-]|[_ Hs] ]; [|by eapply H4]. cbn. apply H4 in Es. lia.
    + split; [done|]. split; [|by rewrite lookup_insert_eq]. intros ip' s' Hne. by rewrite lookup_insert_ne, Hpr by done.
  - unfold addNewServer. destruct (maxDetectedServers <=? count p) eqn:Ec.
    + split; [done|]. split; [done|]. split; [|done]. intros ip' s' _. apply Hpr.
    + apply Z.leb_gt in Ec. cbn. split; [split|]; cbn.
      * unfold count in *. cbn. rewrite map_size_insert_None by done. lia.
      * intros ip' s'. rewrite lookup_insert_Some. intros [ [<- <-]|[_ Hs] ]; [done|by apply H2].
      * intros ip' s'. rewrite lookup_insert_Some. intros [ [<- <-]|[_ Hs] ]; [done|by apply H3].
      * intros ip' s'. rewrite lookup_insert_Some. intros [ [<- <-]|[_ Hs] ]; [done|by eapply H4].
      * split; [done|]. split; [|by rewrite lookup_insert_eq, Hk]. intros ip' s' Hne. by rewrite lookup_insert_ne, Hpr by done.
Qed.

Lemma processPacket_ok t alert p now : table_ok t → table_ok (processPacket t alert p now).1.
Proof.
  intros Ht. unfold processPacket. destruct (extractDHCPOffer p) as [d|]; [|done]. destruct (extractServerInfo p d) as [ip mac].
  case_bool_decide as Hip; [done|]. pose proof (recordDetectedServer_spec t alert ip mac now Ht Hip) as H.
  destruct (recordDetectedServer t alert ip mac now). apply H.
Qed.
Lemma UpdateKnownServers_ok t servers : table_ok t → table_ok (UpdateKnownServers t servers).
Proof.
  intros [H1 H2 H3 H4]. split.
  - unfold count in *. cbn. by rewrite map_size_fmap.
  - intros ip s. cbn. rewrite lookup_fmap_Some. intros (s' & <- & Hs). exact (H2 _ _ Hs).
  - intros ip s. cbn. rewrite lookup_fmap_Some. intros (s' & <- & Hs). cbn. by destruct (H2 _ _ Hs) as [-> _].
  - intros ip s. cbn. rewrite lookup_fmap_Some. intros (s' & <- & Hs). exact (H4 _ _ Hs).
Qed.
Lemma new_table_ok servers : table_ok (new_table servers).
Proof. by split. Qed.

(** ** The life of the capture *)

Record detector_ok (d : RogueDetector) : Prop := {
  d_table : table_ok (rd_table d);
  d_running : rd_running d = bool_decide (is_Some (rd_handle d));
  d_current n : rd_handle d = Some n → rd_cancel d = Some n ∧ ∃ r, rd_runs d !! n = Some r ∧ r_alive r = true ∧ r_cancelled r = false;
  d_open n r : rd_runs d !! n = Some r → r_open r = bool_decide (rd_handle d = Some n) }.

Lemma detector_ok_idle d : rd_running d = false → detector_ok d → rd_handle d = None.
Proof.
  intros Hr [_ H2 _ _]. rewrite Hr in H2. symmetry in H2. apply bool_decide_eq_false in H2.
  destruct (rd_handle d); [by destruct H2|done].
Qed.

Lemma detector_ok_start d n opened : detector_ok d → rd_runs d !! n = None → detector_ok (startLocked d n opened).1.
Proof.
  intros Hd Hn. unfold startLocked. destruct (rd_running d) eqn:Er; [done|]. destruct opened; [|done].
  pose proof (detector_ok_idle d Er Hd) as Hh. destruct Hd as [H1 H2 H3 H4]. split; cbn; [done|done| |].
  - intros m [= <-]. split; [done|]. eexists. by rewrite lookup_insert_eq.
  - intros m r. rewrite lookup_insert_Some. intros [ [<- <-]|[Hne Hr] ]; [by rewrite bool_decide_eq_true_2|].
    rewrite (H4 _ _ Hr), Hh. rewrite !bool_decide_eq_false_2; congruence.
Qed.

Lemma closed_all d n (runs : gmap nat run) m r : detector_ok d → rd_handle d = Some n →
  (∀ m r, runs !! m = Some r → ∃ r', rd_runs d !! m = Some r' ∧ r_open r = r_open r') →
  alter close n runs !! m = Some r → r_open r = false.
Proof.
  intros [_ _ _ H4] Hn Hruns. rewrite lookup_alter_Some. intros [(<- & r' & _ & ->)|[Hne Hr] ]; [done|].
  destruct (Hruns _ _ Hr) as (r' & Hr' & ->). rewrite (H4 _ _ Hr'). rewrite Hn. apply bool_decide_eq_false. congruence.
Qed.

Lemma detector_ok_stop d : detector_ok d → detector_ok (stopLocked d).
Proof.
  intros Hd. unfold stopLocked. destruct (rd_running d) eqn:Er; cbn [negb]; [|done].
  pose proof Hd as [H1 H2 H3 H4]. rewrite Er in H2. symmetry in H2. apply bool_decide_eq_true in H2 as [n Hn].
  destruct (H3 n Hn) as [Hc (r0 & Hr0 & _)]. rewrite Hn, Hc. split; cbn; [done|done|done|].
  intros m r Hr. eapply closed_all in Hr; [done|done|done|]. clear m r Hr. intros m r.
  rewrite lookup_alter_Some. intros [(<- & r' & Hr' & ->)|[Hne Hr] ]; by eexists.
Qed.

Lemma detector_ok_exit d n r : detector_ok d → rd_runs d !! n = Some r → detector_ok (capture_exit d n r).
Proof.
  intros Hd Hr. unfold capture_exit. cbn. destruct (rd_running d) eqn:Er.
  - pose proof Hd as [H1 H2 H3 H4]. rewrite Er in H2. symmetry in H2. apply bool_decide_eq_true in H2 as [h Hh]. rewrite Hh.
    split; cbn; [done|done|done|]. intros m x Hx. eapply closed_all in Hx; [done|done|done|]. clear m x Hx. intros m x.
    rewrite lookup_insert_Some. intros [ [<- <-]|[Hne Hx] ]; by eexists.
  - pose proof (detector_ok_idle d Er Hd) as Hh. destruct Hd as [H1 H2 H3 H4]. split; cbn; [done|exact H2| |].
    + rewrite Hh. done.
    + intros m x. rewrite lookup_insert_Some. intros [ [<- <-]|[Hne Hx] ]; [exact (H4 _ _ Hr)|by apply H4].
Qed.

Lemma detector_ok_loop_end d n r : detector_ok d → rd_runs d !! n = Some r → detector_ok (loop_end d n r).
Proof.
  intros [H1 H2 H3 H4] Hr. split; cbn; [done|done| |].
  - intros m Hm. destruct (H3 m Hm) as [Hc (x & Hx & Ha & Hx')]. split; [done|].
    destruct (decide (n = m)) as [<-|Hne]; [|exists x; by rewrite lookup_insert_ne].
    rewrite lookup_insert_eq. eexists. split; [done|]. cbn. by simplify_eq.
  - intros m x. rewrite lookup_insert_Some. intros [ [<- <-]|[Hne Hx] ]; [exact (H4 _ _ Hr)|by apply H4].
Qed.

Lemma detector_ok_table d t : detector_ok d → table_ok t → detector_ok (set_table d t).
Proof. intros [H1 H2 H3 H4] Ht. by split. Qed.

Lemma stop_runs d n : rd_runs (stopLocked d) !! n = None ↔ rd_runs d !! n = None.
Proof.
  unfold stopLocked. destruct (negb _); [done|]. cbn. destruct (rd_handle d), (rd_cancel d); cbn; by rewrite ?lookup_alter_None.
Qed.

Lemma detector_ok_set d iface n opened : detector_ok d → rd_runs d !! n = None → detector_ok (SetInterface d iface n opened).1.
Proof.
  intros Hd Hn. unfold SetInterface. assert (∀ d, detector_ok d →
    detector_ok (MkDetector (rd_running d) iface (rd_handle d) (rd_cancel d) (rd_alert d) (rd_table d) (rd_runs d))) as Hi.
  { by intros d' []. }
  destruct (rd_running d); [|by apply Hi]. apply detector_ok_start; [by apply Hi, detector_ok_stop|]. by apply stop_runs.
Qed.

Lemma detector_ok_step d d' : step d d' → detector_ok d → detector_ok d'.
Proof.
  intros [n opened Hn| |iface n opened Hn|servers|n r p now Hr Ha|n r Hr Ha|n r Hr Hl Ha] Hd.
  - by apply detector_ok_start.
  - by apply detector_ok_stop.
  - by apply detector_ok_set.
  - apply detector_ok_table; [done|]. by apply UpdateKnownServers_ok, Hd.
  - apply detector_ok_table; [done|]. by apply processPacket_ok, Hd.
  - by apply detector_ok_loop_end.
  - by eapply detector_ok_exit.
Qed.

(** C32: In every interleaving of starts, stops, changes of interface, packets and
    loops that end: at most a thousand servers are tracked, each under its own
    address and marked authorised exactly when it is on the current list; the
    detector says it runs only while its own capture is open and the goroutine
    of that capture has not ended - its loop reads packets, or has just ended
    and is yet to clean up; and every other capture that was opened is closed. *)
Theorem rogue_invariant iface alert servers d : reachable (NewRogueDetector iface alert servers) d →
  count (rd_table d) ≤ maxDetectedServers ∧
  (∀ ip s, detected (rd_table d) !! ip = Some s → sv_IP s = ip ∧ sv_IsAuthorized s = bool_decide (ip ∈ known (rd_table d))) ∧
  (rd_running d = true → ∃ n r, rd_handle d = Some n ∧ rd_runs d !! n = Some r ∧ r_open r = true ∧ r_alive r = true) ∧
  (∀ n r, rd_runs d !! n = Some r → r_open r = true → rd_running d = true ∧ rd_handle d = Some n).
Proof.
  intros Hreach. assert (detector_ok d) as Hd.
  { assert (detector_ok (NewRogueDetector iface alert servers)) as H0 by (split; [apply new_table_ok|done..]).
    revert H0. induction Hreach as [|? ? ? Hs _ IH]; [done|]. intros H0. by eapply IH, detector_ok_step. }
  destruct Hd as [ [H1 H2 H3 H4] H5 H6 H7]. split; [done|]. split; [|split].
  - intros ip s Hs. split; [by apply H2|by apply H3].
  - intros Hr. rewrite Hr in H5. symmetry in H5. apply bool_decide_eq_true in H5 as [n Hn].
    destruct (H6 n Hn) as (_ & r & Hr' & Ha & _). exists n, r. split; [done|]. split; [done|]. split; [|done].
    rewrite (H7 _ _ Hr'). by apply bool_decide_eq_true.
  - intros n r Hr Ho. rewrite (H7 _ _ Hr) in Ho. apply bool_decide_eq_true in Ho. split; [|done].
    rewrite H5. apply bool_decide_eq_true. by eexists.
Qed.

(** A change of interface restarts the capture; the loop of the old one then
    ends, takes the new capture for its own, and closes it: the detector has
    stopped although nobody stopped it. *)
Example restart_killed : ∃ d r,
  reachable (NewRogueDetector "eth0" true []) d ∧ rd_running d = false ∧
  rd_runs d !! 2%nat = Some r ∧ r_iface r = "eth1"%string ∧ r_open r = false ∧ r_looping r = true ∧ r_cancelled r = false.
Proof.
  eexists _, _. split.
  - unfold reachable. eapply rtc_l; [by apply (s_start _ 1 true)|]. cbn.
    eapply rtc_l; [by apply (s_set _ "eth1" 2 true)|]. cbn.
    eapply rtc_l; [by eapply (s_loop_end _ 1)|]. cbn.
    eapply rtc_l; [by eapply (s_exit _ 1)|]. cbn. apply rtc_refl.
  - by vm_compute.
Qed.

(** A server not seen for a year is still listed while the table is not half
    full. *)
Example never_expired :
  let t := (recordDetectedServer (new_table []) true "10.0.0.9" "" 0).1 in
  let t' := (recordDetectedServer t true "10.0.0.1" "" (365 * 24 * hour)).1 in
  map sv_IP (GetRogueServers t') = ["10.0.0.9"; "10.0.0.1"]%string ∨ map sv_IP (GetRogueServers t') = ["10.0.0.1"; "10.0.0.9"]%string.
Proof. by vm_compute; auto. Qed.

Lemma rogue_invariant_witness :
  let d := (startLocked (NewRogueDetector "eth0" true ["10.0.0.1"%string]) 1 true).1 in
  reachable (NewRogueDetector "eth0" true ["10.0.0.1"%string]) d ∧ count (rd_table d) ≤ maxDetectedServers.
Proof.
  cbn zeta. set (d0 := NewRogueDetector "eth0" true ["10.0.0.1"%string]). assert (reachable d0 (startLocked d0 1 true).1) as H.
  { apply rtc_once. by apply (s_start _ 1 true). }
  split; [exact H|]. exact (proj1 (rogue_invariant _ _ _ _ H)).
Defined.
