(* ===== verification/DhcpLease.v ===== *)
(** * DHCP leases (src/internal/dhcp/lease.go)

    Reading the host's lease of an interface from the files the DHCP clients
    leave: dhclient's blocks, NetworkManager's and systemd-networkd's keys, and
    the property lists of macOS. What the host holds is an argument: its files,
    the names of a directory, its interfaces. *)
From Stdlib Require Import ZArith Lia.
From stdpp Require Import base sets list strings pretty.
From S2P Require Import Prelude GoBase GoText GoWords.

Record LeaseInfo : Type := MkLease { l_DHCPServer : bytes; l_Gateway : bytes; l_LeaseTime : Z; l_DNS : list bytes }.
Definition no_info : LeaseInfo := MkLease [] [] 0 [].
Inductive lease_error : Type := ErrNoLease | ErrUnsupportedPlatform | ErrInterface.

Definition set_server (i : LeaseInfo) (v : bytes) : LeaseInfo := MkLease v (l_Gateway i) (l_LeaseTime i) (l_DNS i).
Definition set_gateway (i : LeaseInfo) (v : bytes) : LeaseInfo := MkLease (l_DHCPServer i) v (l_LeaseTime i) (l_DNS i).
Definition set_time (i : LeaseInfo) (v : Z) : LeaseInfo := MkLease (l_DHCPServer i) (l_Gateway i) v (l_DNS i).
Definition add_dns (i : LeaseInfo) (v : list bytes) : LeaseInfo := MkLease (l_DHCPServer i) (l_Gateway i) (l_LeaseTime i) (l_DNS i ++ v).

Definition text (s : string) : bytes := ascii_bytes s.
(** A lease that names neither a server nor a gateway is none. *)
Definition told (i : LeaseInfo) : option LeaseInfo :=
  if negb (bool_decide (l_DHCPServer i = [])) || negb (bool_decide (l_Gateway i = [])) then Some i else None.

(** ** Lines *)

(** [bufio.Scanner]: lines without their end, up to the first that does not
    fit its buffer. *)
Definition maxLine : Z := 65536.
Definition strip_return (l : bytes) : bytes :=
  match rev l with 13 :: r => rev r | _ => l end.
Fixpoint fitting (lines : list bytes) : list bytes :=
  match lines with
  | [] => []
  | l :: lines => if len l <? maxLine then strip_return l :: fitting lines else []
  end.
Definition scan_lines (content : bytes) : list bytes :=
  let ls := Split content 10 in
  fitting (match rev ls with [] :: r => rev r | _ => ls end).
Definition trimmed_lines (content : bytes) : list bytes := map TrimSpace (scan_lines content).

Definition trim_suffix (s suffix : bytes) : bytes :=
  if bool_decide (drop (length s - length suffix) s = suffix) then take (length s - length suffix) s else s.
Definition semicolon : bytes := [59].
Definition space : Z := 32.
Definition comma : Z := 44.

(** [extractValue]: the last field of an option's line. *)
Definition extractValue (line : bytes) : bytes :=
  match rev (Fields (trim_suffix line semicolon)) with v :: _ => v | [] => [] end.
Definition list_of (sep : Z) (v : bytes) : list bytes :=
  List.filter (λ d, negb (bool_decide (d = []))) (map TrimSpace (Split v sep)).

(** ** dhclient *)

(** [dhclientLeaseInterface]: the name between the quotes. *)
Definition dhclientLeaseInterface (line : bytes) : option bytes :=
  rest ← CutPrefix line (text "interface ");
  Some (TrimRight (TrimLeft (trim_suffix (TrimSpace rest) semicolon) [34]) [34]).

(** [parseDHClientLeaseLine] *)
Definition parseDHClientLeaseLine (line : bytes) (info : LeaseInfo) : LeaseInfo :=
  if HasPrefix line (text "option dhcp-server-identifier") then set_server info (extractValue line)
  else if HasPrefix line (text "option routers") then set_gateway info (TrimSpace (before_sep (extractValue line) comma))
  else if HasPrefix line (text "option dhcp-lease-time") then
    match ParseInt (extractValue line) with Some n => set_time info n | None => info end
  else if HasPrefix line (text "option domain-name-servers") then add_dns info (list_of comma (extractValue line))
  else info.

(** The loop of [parseDHClientLeaseFile]: the last block matched, the lease of
    the block being read, whether one is, and the interface it names. *)
Record reader : Type := MkReader { rd_matched : option LeaseInfo; rd_info : LeaseInfo; rd_inLease : bool; rd_iface : bytes }.
Definition opens (line : bytes) : bool := HasPrefix line (text "lease {").
Definition closes (line : bytes) : bool := bool_decide (line = text "}").
Definition belongs (interfaceName blockIface : bytes) : bool :=
  bool_decide (interfaceName = []) || bool_decide (blockIface = []) || bool_decide (blockIface = interfaceName).
Definition read_line (interfaceName : bytes) (r : reader) (line : bytes) : reader :=
  if opens line then MkReader (rd_matched r) no_info true []
  else if negb (rd_inLease r) then r
  else if closes line then
    MkReader (if belongs interfaceName (rd_iface r) then Some (rd_info r) else rd_matched r) (rd_info r) false (rd_iface r)
  else match dhclientLeaseInterface line with
  | Some name => MkReader (rd_matched r) (rd_info r) true name
  | None => MkReader (rd_matched r) (parseDHClientLeaseLine line (rd_info r)) true (rd_iface r)
  end.
Definition read_lines (interfaceName : bytes) (lines : list bytes) : reader :=
  foldl (read_line interfaceName) (MkReader None no_info false []) lines.
Definition parseDHClientLeaseFile (content interfaceName : bytes) : option LeaseInfo :=
  matched ← rd_matched (read_lines interfaceName (trimmed_lines content)); told matched.

(** ** Keys *)

Record leaseFieldMapping : Type := MkMapping { serverKey : bytes; routerKey : bytes; leaseTimeKey : bytes; dnsKey : bytes }.
Definition parseLeaseLineServer (line key : bytes) : option bytes := CutPrefix line key.
Definition parseLeaseLineRouter (line key : bytes) : option bytes := after ← CutPrefix line key; Some (before_sep after space).
Definition parseLeaseLineTime (line key : bytes) : option Z := after ← CutPrefix line key; ParseInt after.
Definition parseLeaseLineDNS (line key : bytes) : list bytes :=
  match CutPrefix line key with Some after => list_of space after | None => [] end.
(** [processLeaseLine] *)
Definition processLeaseLine (m : leaseFieldMapping) (info : LeaseInfo) (line : bytes) : LeaseInfo :=
  let info := match parseLeaseLineServer line (serverKey m) with Some v => set_server info v | None => info end in
  let info := match parseLeaseLineRouter line (routerKey m) with Some v => set_gateway info v | None => info end in
  let info := match parseLeaseLineTime line (leaseTimeKey m) with Some v => set_time info v | None => info end in
  add_dns info (parseLeaseLineDNS line (dnsKey m)).
Definition parseLeaseFileWithMapping (content : bytes) (m : leaseFieldMapping) : option LeaseInfo :=
  told (foldl (processLeaseLine m) no_info (trimmed_lines content)).
Definition nm_mapping : leaseFieldMapping :=
  MkMapping (text "DHCP4_SERVER_ID=") (text "DHCP4_ROUTERS=") (text "DHCP4_LEASE_TIME=") (text "DHCP4_DOMAIN_NAME_SERVERS=").
Definition networkd_mapping : leaseFieldMapping :=
  MkMapping (text "SERVER_ADDRESS=") (text "ROUTER=") (text "LIFETIME=") (text "DNS=").
Definition parseNMLeaseFile (content : bytes) : option LeaseInfo := parseLeaseFileWithMapping content nm_mapping.
Definition parseNetworkdLeaseFile (content : bytes) : option LeaseInfo := parseLeaseFileWithMapping content networkd_mapping.

(** ** Property lists *)

(** [hex.DecodeString] *)
Definition hex_value (c : Z) : option Z :=
  if (48 <=? c) && (c <=? 57) then Some (c - 48)
  else if (97 <=? c) && (c <=? 102) then Some (c - 87)
  else if (65 <=? c) && (c <=? 70) then Some (c - 55) else None.
Fixpoint hex_decode (s : bytes) : option bytes :=
  match s with
  | [] => Some []
  | a :: b :: s => x ← hex_value a; y ← hex_value b; rest ← hex_decode s; Some (16 * x + y :: rest)
  | _ => None
  end.
Fixpoint dotted (b : bytes) : bytes :=
  match b with [] => [] | [x] => text (pretty x) | x :: b => text (pretty x) ++ 46 :: dotted b end.
Definition hexIPv4Len : Z := 4.

(** [hexToIP] *)
Definition hexToIP (s : bytes) : bytes :=
  let s := List.filter (λ c, negb (bool_decide (c ∈ [10; 9; 32]))) s in
  let raw := if len s =? hexIPv4Len then dotted s else [] in
  match hex_decode s with Some b => if len b =? 4 then dotted b else raw | None => raw end.

(** What is between a tag and the end tag after it: the outer option is a
    panic, the inner one a tag that is missing. *)
Definition tagged (s open close : bytes) : option (option bytes) :=
  let start := Index s open in
  if start <? 0 then Some None
  else
    rest ← slice_from s start;
    let stop := Index rest close in
    if stop <? 0 then Some None
    else v ← slice s (start + len open) (start + stop); Some (Some v).
Definition key_tag (key : string) : bytes := text ("<key>" +:+ key +:+ "</key>").
Definition data_open : bytes := text "<data>".
Definition data_close : bytes := text "</data>".

Definition extractPlistIP (content : bytes) (key : string) : option bytes :=
  match Cut content (key_tag key) with
  | None => Some []
  | Some (_, remaining) =>
      v ← tagged remaining data_open data_close;
      Some match v with Some hex => hexToIP (TrimSpace hex) | None => [] end
  end.
Definition extractPlistInteger (content : bytes) (key : string) : option Z :=
  match Cut content (key_tag key) with
  | None => Some 0
  | Some (_, remaining) =>
      v ← tagged remaining (text "<integer>") (text "</integer>");
      Some match v with Some n => default 0 (ParseInt (TrimSpace n)) | None => 0 end
  end.
(** A round of [parseDataTagsFromArray]: the addresses so far, and what is left. *)
Definition data_round (st : list bytes * bytes) : option (outcome (list bytes * bytes) (list bytes)) :=
  let '(ips, content) := st in
  let start := Index content data_open in
  if start <? 0 then Some (Leave ips)
  else
    rest ← slice_from content start;
    let stop := Index rest data_close in
    if stop <? 0 then Some (Leave ips)
    else
      hex ← slice content (start + 6) (start + stop);
      next ← slice_from content (start + stop + 7);
      Some (Next (match hexToIP (TrimSpace hex) with [] => ips | ip => ips ++ [ip] end, next)).
Definition parseDataTagsFromArray (content : bytes) : option (list bytes) :=
  for_loop (S (length content)) data_round ([], content).
Definition extractArrayContent (remaining : bytes) : option (option bytes) := tagged remaining (text "<array>") (text "</array>").
Definition extractPlistIPArray (content : bytes) (key : string) : option (list bytes) :=
  match Cut content (key_tag key) with
  | None => Some []
  | Some (_, remaining) =>
      array ← extractArrayContent remaining;
      ips ← match array with Some a => parseDataTagsFromArray a | None => Some [] end;
      match ips with
      | _ :: _ => Some ips
      | [] => ip ← extractPlistIP content key; Some match ip with [] => [] | _ => [ip] end
      end
  end.

Definition parseDarwinLeaseFile (content : bytes) : option (option LeaseInfo) :=
  server ← extractPlistIP content "ServerIdentifier";
  router ← extractPlistIP content "RouterIPAddress";
  gateway ← match router with [] => extractPlistIP content "Router" | _ => Some router end;
  lease ← extractPlistInteger content "LeaseLength";
  dns ← extractPlistIPArray content "DomainNameServer";
  Some (told (MkLease server gateway (if 0 <? lease then lease else 0) dns)).

(** ** The host *)

Section host.
Context (file : string → option bytes) (entries : string → list string)
  (interface : string → option (string * Z)).  (* its hardware address and index *)

Definition first_lease (parse : bytes → option LeaseInfo) (paths : list string) : option LeaseInfo :=
  head (omap (λ path, content ← file path; parse content) paths).

(** [getLeaseInfoLinux] *)
Definition dhclientPaths (interfaceName : string) : list string :=
  ["/var/lib/dhcp/dhclient." +:+ interfaceName +:+ ".leases"; "/var/lib/dhclient/dhclient." +:+ interfaceName +:+ ".leases";
   "/var/lib/dhcp/dhclient.leases"]%string.
Definition getLeaseInfoLinux (interfaceName : string) : LeaseInfo + lease_error :=
  match first_lease parseNMLeaseFile ["/var/lib/NetworkManager/internal-" +:+ interfaceName +:+ ".lease"]%string with
  | Some lease => inl lease
  | None =>
      match first_lease (λ content, parseDHClientLeaseFile content (text interfaceName)) (dhclientPaths interfaceName) with
      | Some lease => inl lease
      | None =>
          match interface interfaceName with
          | Some (_, index) =>
              match first_lease parseNetworkdLeaseFile ["/run/systemd/netif/leases/" +:+ pretty index]%string with
              | Some lease => inl lease
              | None => inr ErrNoLease
              end
          | None => inr ErrNoLease
          end
      end
  end.

(** [getLeaseInfoDarwin] *)
Fixpoint first_darwin (paths : list string) : option (option LeaseInfo) :=
  match paths with
  | [] => Some None
  | path :: paths =>
      match file path with
      | None => first_darwin paths
      | Some content =>
          lease ← parseDarwinLeaseFile content;
          match lease with Some l => Some (Some l) | None => first_darwin paths end
      end
  end.
Definition getLeaseInfoDarwin (interfaceName : string) : option (LeaseInfo + lease_error) :=
  match interface interfaceName with
  | None => Some (inr ErrInterface)
  | Some (hwAddr, _) =>
      let leaseDir := "/var/db/dhcpclient/leases"%string in
      let leasePaths := ["/var/db/dhcpclient/leases/" +:+ interfaceName +:+ "-1," +:+ hwAddr;
        "/private/var/db/dhcpclient/leases/" +:+ interfaceName +:+ "-1," +:+ hwAddr]%string in
      let listed := map (λ e, leaseDir +:+ "/" +:+ e)%string
        (List.filter (λ e, HasPrefix (text e) (text (interfaceName +:+ "-"))) (entries leaseDir)) in
      lease ← first_darwin (leasePaths ++ listed);
      Some match lease with Some l => inl l | None => inr ErrNoLease end
  end.

(** [GetLeaseInfo] *)
Definition GetLeaseInfo (goos interfaceName : string) : option (LeaseInfo + lease_error) :=
  if bool_decide (goos = "darwin"%string) then getLeaseInfoDarwin interfaceName
  else if bool_decide (goos = "linux"%string) then Some (getLeaseInfoLinux interfaceName)
  else Some (inr ErrUnsupportedPlatform).
End host.

(** ** dhclient: the last block of the interface *)

(** What the lines of a block say. *)
Definition quiet (line : bytes) : bool := negb (opens line) && negb (closes line).
Definition block_iface (body : list bytes) : bytes := default [] (last (omap dhclientLeaseInterface body)).
Definition block_info (body : list bytes) : LeaseInfo :=
  foldl (λ i l, match dhclientLeaseInterface l with Some _ => i | None => parseDHClientLeaseLine l i end) no_info body.

(** A block of the file: what is before it, its lines, what is after. *)
Definition is_block (lines pre : list bytes) (body post : list bytes) : Prop :=
  ∃ first, lines = pre ++ first :: body ++ text "}" :: post ∧ opens first = true ∧ Forall (λ l, quiet l = true) body.
(** Lines that begin no block, or only one that is not closed. *)
Definition open_block (lines body : list bytes) : Prop :=
  ∃ pre first, lines = pre ++ first :: body ∧ opens first = true ∧ Forall (λ l, quiet l = true) body.

Lemma opens_close : opens (text "}") = false.
Proof. done. Qed.
Lemma quiet_close : quiet (text "}") = false.
Proof. done. Qed.
Lemma closes_true l : closes l = true → l = text "}".
Proof. by intros ?%bool_decide_eq_true. Qed.

Lemma block_info_snoc body l :
  block_info (body ++ [l]) = match dhclientLeaseInterface l with Some _ => block_info body | None => parseDHClientLeaseLine l (block_info body) end.
Proof. unfold block_info. by rewrite foldl_snoc. Qed.
Lemma block_iface_snoc body l :
  block_iface (body ++ [l]) = match dhclientLeaseInterface l with Some n => n | None => block_iface body end.
Proof.
  unfold block_iface. rewrite omap_app. cbn. destruct (dhclientLeaseInterface l); [by rewrite last_snoc|by rewrite app_nil_r].
Qed.

(** A block of lines with one more: it was there, or its end is the new line. *)
Lemma is_block_snoc lines l pre body post : is_block (lines ++ [l]) pre body post →
  (∃ post', post = post' ++ [l] ∧ is_block lines pre body post') ∨ (post = [] ∧ closes l = true ∧ ∃ first, lines = pre ++ first :: body ∧ opens first = true ∧ Forall (λ l, quiet l = true) body).
Proof.
  intros (first & E & Ho & Hq). destruct post as [|x post _] using rev_ind.
  - right. assert (lines ++ [l] = (pre ++ first :: body) ++ [text "}"]) as E' by (rewrite E, <- app_assoc; done).
    apply app_inj_tail in E' as [-> ->]. split; [done|]. split; [done|]. by exists first.
  - left. exists post. assert (lines ++ [l] = (pre ++ first :: body ++ text "}" :: post) ++ [x]) as E' by (rewrite E, <- app_assoc; cbn; by rewrite <- app_assoc).
    apply app_inj_tail in E' as [-> ->]. split; [done|]. by exists first.
Qed.

Section dhclient.
Context (interfaceName : bytes).
Abbreviation mine body := (belongs interfaceName (block_iface body) = true).

(** The block open now, and no other; and the last block that belonged. *)
Definition reading (lines : list bytes) (r : reader) : Prop :=
  (if rd_inLease r
   then ∃ pre first body, lines = pre ++ first :: body ∧ opens first = true ∧ Forall (λ l, quiet l = true) body ∧
          rd_info r = block_info body ∧ rd_iface r = block_iface body
   else ∀ body, ¬ open_block lines body) ∧
  match rd_matched r with
  | None => ∀ pre body post, is_block lines pre body post → ¬ mine body
  | Some info => ∃ pre body post, is_block lines pre body post ∧ mine body ∧ info = block_info body ∧
      ∀ pre' body' post', is_block lines pre' body' post' → mine body' → (length pre' ≤ length pre)%nat
  end.

(** Two open ends of the same lines are the same. *)
Lemma open_unique lines pre first body pre' first' body' :
  lines = pre ++ first :: body → opens first = true → Forall (λ l, quiet l = true) body →
  lines = pre' ++ first' :: body' → opens first' = true → Forall (λ l, quiet l = true) body' → pre = pre' ∧ body = body'.
Proof.
  intros -> Ho Hq E Ho' Hq'. assert (∀ a x b a' x' b', a ++ x :: b = a' ++ x' :: b' → opens x = true → opens x' = true →
    Forall (λ l, quiet l = true) b → Forall (λ l, quiet l = true) b' → (length a ≤ length a')%nat → a = a' ∧ b = b') as Hgen.
  { clear. intros a x b a' x' b' E Hx Hx' Hb Hb' Hl. revert a' E Hl. induction a as [|y a IH]; intros [|y' a'] E Hl; cbn in *.
    - injection E as -> ->. done.
    - injection E as -> ->. apply Forall_app in Hb as [_ [Hq _]%Forall_cons]. unfold quiet in Hq. by rewrite Hx' in Hq.
    - lia.
    - injection E as -> E. destruct (IH a' E) as [-> ->]; [lia|done]. }
  destruct (decide (length pre ≤ length pre')%nat); [by eapply Hgen|]. destruct (Hgen pre' first' body' pre first body) as [-> ->]; auto. lia.
Qed.

Lemma reading_line lines r l : reading lines r → reading (lines ++ [l]) (read_line interfaceName r l).
Proof.
  intros [Hopen Hmatched].
  (* blocks that were there keep, when the new line ends none that belongs *)
  assert (∀ m, match rd_matched r with None => m = None | Some i => m = Some i end →
    (∀ pre body, is_block (lines ++ [l]) pre body [] → closes l = true → ¬ mine body) →
    match m with
    | None => ∀ pre body post, is_block (lines ++ [l]) pre body post → ¬ mine body
    | Some info => ∃ pre body post, is_block (lines ++ [l]) pre body post ∧ mine body ∧ info = block_info body ∧
        ∀ pre' body' post', is_block (lines ++ [l]) pre' body' post' → mine body' → (length pre' ≤ length pre)%nat
    end) as Hkeep.
  { intros m Hm Hnew. assert (∀ pre body post, is_block (lines ++ [l]) pre body post → mine body → ∃ post', is_block lines pre body post') as Hold.
    { intros pre body post Hb Hmine. destruct (is_block_snoc _ _ _ _ _ Hb) as [(post' & -> & Hb')|(-> & Hc & _)]; [by exists post'|].
      by destruct (Hnew _ _ Hb Hc). }
    destruct (rd_matched r) as [info|]; subst m.
    - destruct Hmatched as (pre & body & post & (first & -> & Ho & Hq) & Hmine & -> & Hlast).
      exists pre, body, (post ++ [l]). split; [exists first; split; [by rewrite <- app_assoc; cbn; rewrite <- app_assoc|done]|].
      split; [done|]. split; [done|]. intros pre' body' post' Hb Hm'. destruct (Hold _ _ _ Hb Hm') as [post'' Hb']. by eapply Hlast.
    - intros pre body post Hb Hm'. destruct (Hold _ _ _ Hb Hm') as [post' Hb']. by eapply Hmatched. }
  unfold read_line. destruct (opens l) eqn:El.
  { split; cbn.
    - exists lines, l, []. done.
    - apply Hkeep; [by destruct (rd_matched r)|]. intros pre body _ Hc. apply closes_true in Hc as ->. by rewrite opens_close in El. }
  destruct (rd_inLease r) eqn:Ein; cbn [negb].
  2: { split; [rewrite Ein|].
    - intros body (pre & first & E & Ho & Hq). destruct body as [|x body _] using rev_ind.
      + apply app_inj_tail in E as [_ ->]. by rewrite El in Ho.
      + rewrite app_comm_cons, app_assoc in E. apply app_inj_tail in E as [-> ->]. apply Forall_app in Hq as [Hq _].
        apply (Hopen body). by exists pre, first.
    - apply Hkeep; [by destruct (rd_matched r)|]. intros pre body Hb Hc _. destruct (is_block_snoc _ _ _ _ _ Hb) as [(? & E & _)|(_ & _ & first & E & Ho & Hq)].
      + by destruct x.
      + apply (Hopen body). by exists pre, first. }
  destruct Hopen as (pre & first & body & Elines & Ho & Hq & Hinfo & Hif).
  destruct (closes l) eqn:Ec.
  { apply closes_true in Ec as El'. split; cbn.
    - intros body' (pre' & first' & E & Ho' & Hq'). destruct body' as [|x body' _] using rev_ind.
      + apply app_inj_tail in E as [_ ->]. by rewrite El in Ho'.
      + rewrite app_comm_cons, app_assoc in E. apply app_inj_tail in E as [_ <-]. apply Forall_app in Hq' as [_ [Hx _]%Forall_cons].
        subst l. by rewrite quiet_close in Hx.
    - assert (is_block (lines ++ [l]) pre body []) as Hb.
      { exists first. split; [|done]. rewrite Elines, El', <- app_assoc. done. }
      assert (∀ pre' body', is_block (lines ++ [l]) pre' body' [] → pre' = pre ∧ body' = body) as Huniq.
      { intros pre' body' Hb'. destruct (is_block_snoc _ _ _ _ _ Hb') as [(? & E & _)|(_ & _ & first' & E & Ho' & Hq')]; [by destruct x|].
        destruct (open_unique lines pre' first' body' pre first body) as [-> ->]; auto. }
      rewrite Hif. destruct (belongs interfaceName (block_iface body)) eqn:Eb.
      + exists pre, body, []. split; [done|]. split; [done|]. split; [done|]. intros pre' body' post' Hb' Hm.
        destruct (is_block_snoc _ _ _ _ _ Hb') as [(post'' & -> & (first' & E & _))|(-> & _ & _)].
        * assert (length (pre' ++ first' :: body' ++ text "}" :: post'') = length (pre ++ first :: body)) as Hl by (rewrite <- E, <- Elines; done).
          destruct (decide (length pre' ≤ length pre)%nat) as [|Hlt]; [done|]. exfalso.
          (* a block that closed after the open one began would end inside it *)
          rewrite Elines in E. assert (text "}" ∈ first :: body) as Hin.
          { apply list_elem_of_lookup. exists (length pre' - length pre + 1 + length body')%nat.
            assert ((pre ++ first :: body) !! (length pre' + S (length body'))%nat = Some (text "}")) as Hx.
            { rewrite E, app_comm_cons, app_assoc. apply list_lookup_middle. rewrite length_app. cbn. lia. }
            rewrite lookup_app_r in Hx by lia. rewrite <- Hx. f_equal. lia. }
          apply elem_of_cons in Hin as [Hin|Hin]; [subst first; done|]. rewrite Forall_forall in Hq. apply Hq in Hin. done.
        * destruct (Huniq _ _ Hb') as [-> _]. done.
      + apply Hkeep; [by destruct (rd_matched r)|]. intros pre' body' Hb' _. destruct (Huniq _ _ Hb') as [_ ->]. by rewrite Eb. }
  assert (reading (lines ++ [l]) (MkReader (rd_matched r) (block_info (body ++ [l])) true (block_iface (body ++ [l])))) as Hnext.
  { split; cbn.
    - exists pre, first, (body ++ [l]). split; [by rewrite Elines, <- app_assoc|]. split; [done|]. split; [|done].
      apply Forall_app. split; [done|]. constructor; [|done]. unfold quiet. by rewrite El, Ec.
    - apply Hkeep; [by destruct (rd_matched r)|]. done. }
  rewrite block_info_snoc, block_iface_snoc in Hnext. rewrite Hinfo, Hif. by destruct (dhclientLeaseInterface l).
Qed.

Lemma reading_all lines : reading lines (read_lines interfaceName lines).
Proof.
  induction lines as [|l lines IH] using rev_ind.
  - split; [intros body (pre & first & E & _); by destruct pre|]. intros pre body post (first & E & _). by destruct pre.
  - unfold read_lines. rewrite foldl_snoc. by apply reading_line.
Qed.
End dhclient.

(** ** What a file says, in the words dhclient writes *)

Definition starts (p line : bytes) : Prop := ∃ rest, line = p ++ rest.
(** The last line of [body] that starts with [p] is [line]; none does. *)
Definition last_said (p : bytes) (body : list bytes) (line : bytes) : Prop :=
  ∃ a b, body = a ++ line :: b ∧ starts p line ∧ Forall (λ l, ¬ starts p l) b.
Definition unsaid (p : bytes) (body : list bytes) : Prop := Forall (λ l, ¬ starts p l) body.

(** A block: from a line that starts with "lease {" to the next line "}". *)
Definition closed_block (lines pre body post : list bytes) : Prop :=
  ∃ first, lines = pre ++ first :: body ++ text "}" :: post ∧ starts (text "lease {") first ∧
    Forall (λ l, ¬ starts (text "lease {") l ∧ l ≠ text "}") body.

(** A name, an address: printable, without a quote, a semicolon or a comma. *)
Definition plain (v : bytes) : Prop := v ≠ [] ∧ Forall (λ c, solid c ∧ c ≠ 34 ∧ c ≠ 59 ∧ c ≠ 44) v.

(** The block's last interface line says it is the one of [name]. *)
Definition names (body : list bytes) (name : bytes) : Prop :=
  plain name ∧ last_said (text "interface ") body (text "interface " ++ 34 :: name ++ [34; 59]).
Definition of_another (interfaceName : bytes) (body : list bytes) : Prop :=
  interfaceName ≠ [] ∧ ∃ n, names body n ∧ n ≠ interfaceName.
Definition of_it (interfaceName : bytes) (body : list bytes) : Prop :=
  interfaceName = [] ∨ unsaid (text "interface ") body ∨ names body interfaceName.

Fixpoint commas (vs : list bytes) : bytes :=
  match vs with [] => [] | [v] => v | v :: vs => v ++ 44 :: commas vs end.
Definition option_line (key : string) (vs : list bytes) : bytes := text ("option " +:+ key +:+ " ") ++ commas vs ++ [59].
Definition prefix_of (key : string) : bytes := text ("option " +:+ key).
Notation server_key := "dhcp-server-identifier"%string.
Notation routers_key := "routers"%string.
Notation time_key := "dhcp-lease-time"%string.
Notation dns_key := "domain-name-servers"%string.

(** [info] is what the options of a block say. *)
Record says (body : list bytes) (info : LeaseInfo) : Prop := {
  says_server v : plain v → last_said (prefix_of server_key) body (option_line server_key [v]) → l_DHCPServer info = v;
  says_no_server : unsaid (prefix_of server_key) body → l_DHCPServer info = [];
  says_router v vs : Forall plain (v :: vs) → last_said (prefix_of routers_key) body (option_line routers_key (v :: vs)) → l_Gateway info = v;
  says_no_router : unsaid (prefix_of routers_key) body → l_Gateway info = [];
  says_time ds : ds ≠ [] → Forall digit ds → decimal ds < 2 ^ 63 →
    last_said (prefix_of time_key) body (option_line time_key [ds]) → l_LeaseTime info = decimal ds;
  says_no_time : unsaid (prefix_of time_key) body → l_LeaseTime info = 0;
  says_dns a b vs : Forall plain vs → vs ≠ [] → body = a ++ option_line dns_key vs :: b →
    unsaid (prefix_of dns_key) a → unsaid (prefix_of dns_key) b → l_DNS info = vs;
  says_no_dns : unsaid (prefix_of dns_key) body → l_DNS info = [];
}.

(** ** The reader reads them *)

Lemma starts_spec p l : starts p l ↔ HasPrefix l p = true.
Proof.
  unfold HasPrefix. rewrite bool_decide_eq_true. split; [by intros [r ->]; rewrite take_app_length|].
  intros H. exists (drop (length p) l). by rewrite <- H at 1; rewrite take_drop.
Qed.
Lemma starts_not p l : ¬ starts p l ↔ HasPrefix l p = false.
Proof. rewrite starts_spec. destruct (HasPrefix l p); naive_solver. Qed.
#[export] Instance starts_dec p l : Decision (starts p l).
Proof. destruct (HasPrefix l p) eqn:E; [left; by apply starts_spec|right; by apply starts_not]. Defined.

(** A line starts with one of two texts that part. *)
Definition parts (p q : bytes) : bool :=
  negb (bool_decide (take (min (length p) (length q)) p = take (min (length p) (length q)) q)).
Lemma starts_parts p q l : parts p q = true → starts p l → ¬ starts q l.
Proof.
  unfold parts. rewrite negb_true_iff, bool_decide_eq_false. intros Hn [r ->] [r' E]. apply Hn.
  apply (f_equal (take (min (length p) (length q)))) in E. by rewrite !take_app_le in E by lia.
Qed.

Lemma closed_block_is lines pre body post : closed_block lines pre body post ↔ is_block lines pre body post.
Proof.
  assert (∀ l, quiet l = true ↔ ¬ starts (text "lease {") l ∧ l ≠ text "}") as Hq.
  { intros l. unfold quiet, opens, closes. rewrite andb_true_iff, !negb_true_iff, starts_not, bool_decide_eq_false. done. }
  split; intros (first & E & Ho & Hb); exists first; (split; [done|]; split; [by apply starts_spec|]);
    (eapply Forall_impl; [exact Hb|]); intros l; apply Hq.
Qed.

Section last_line.
Context {A : Type} (step : LeaseInfo → bytes → LeaseInfo) (f : LeaseInfo → A) (p : bytes).
Hypothesis other : ∀ i l, ¬ starts p l → f (step i l) = f i.

Lemma unsaid_keeps body i : unsaid p body → f (foldl step i body) = f i.
Proof. intros H. revert i. induction H as [|l body Hl _ IH]; intros i; [done|]. cbn. by rewrite IH, other. Qed.

(** The last of the lines decides. *)
Lemma last_decides body line v i : last_said p body line → (∀ i, f (step i line) = v) → f (foldl step i body) = v.
Proof. intros (a & b & -> & _ & Hb) Hv. rewrite foldl_app. cbn. by rewrite unsaid_keeps. Qed.
End last_line.

Definition block_step (i : LeaseInfo) (l : bytes) : LeaseInfo :=
  match dhclientLeaseInterface l with Some _ => i | None => parseDHClientLeaseLine l i end.

Lemma interface_none l : ¬ starts (text "interface ") l → dhclientLeaseInterface l = None.
Proof. rewrite starts_not. unfold dhclientLeaseInterface, CutPrefix. by intros ->. Qed.

Lemma plain_solid v : plain v → Forall solid v.
Proof. intros [_ H]. eapply Forall_impl; [exact H|]. by intros c [? _]. Qed.
Lemma plain_without c v : plain v → c = 34 ∨ c = 59 ∨ c = 44 → c ∉ v.
Proof. intros [_ H] Hc Hin. rewrite Forall_forall in H. specialize (H _ Hin). naive_solver. Qed.

(** A text that is not empty has a last byte. *)
Lemma solid_word_ends v : v ≠ [] → Forall solid v → solid_ends v.
Proof.
  intros Hn H. split.
  - destruct v as [|c v]; [done|]. apply Forall_cons in H as [? _]. eauto.
  - destruct v as [|c v _] using rev_ind; [done|]. apply Forall_app in H as [_ [? _]%Forall_cons]. eauto.
Qed.
Lemma trim_suffix_app s x : trim_suffix (s ++ x) x = s.
Proof.
  unfold trim_suffix. rewrite length_app, Nat.add_sub, drop_app_length, take_app_length. by rewrite bool_decide_true.
Qed.
Lemma TrimLeft_out c v cut : c ∉ cut → TrimLeft (c :: v) cut = c :: v.
Proof. intros H. cbn. by rewrite bool_decide_false. Qed.

(** The name an interface line gives. *)
Lemma interface_line name : plain name → dhclientLeaseInterface (text "interface " ++ 34 :: name ++ [34; 59]) = Some name.
Proof.
  intros Hp. pose proof (plain_without 34 name Hp (or_introl eq_refl)) as Hq. destruct Hp as [Hne Hp].
  unfold dhclientLeaseInterface, CutPrefix. rewrite (proj1 (starts_spec _ _)) by by eexists. rewrite drop_app_length. cbn [mbind option_bind]. f_equal.
  rewrite TrimSpace_solid.
  2: { split; [by exists 34, (name ++ [34; 59])|]. exists 59, (34 :: name ++ [34]). by rewrite <- app_comm_cons, <- app_assoc. }
  replace (34 :: name ++ [34; 59]) with ((34 :: name ++ [34]) ++ semicolon) by (by rewrite <- app_comm_cons, <- app_assoc).
  rewrite trim_suffix_app. unfold TrimRight. cbn [TrimLeft]. rewrite bool_decide_true by set_solver.
  assert (∀ v, v ≠ [] → 34 ∉ v → TrimLeft v [34] = v) as Hout.
  { intros [|c v] ? Hc; [done|]. apply TrimLeft_out. set_solver. }
  destruct name as [|c name]; [done|]. cbn [app]. rewrite TrimLeft_out by set_solver.
  rewrite app_comm_cons, rev_app_distr. cbn [rev app TrimLeft]. rewrite bool_decide_true by set_solver.
  change (rev name ++ [c]) with (rev (c :: name)). rewrite Hout, rev_involutive; [done|..].
  - intros E%(f_equal length). by rewrite length_rev in E.
  - by rewrite list_elem_of_In, <- in_rev, <- list_elem_of_In.
Qed.

(** ** The values of an option's line *)

Lemma commas_plain vs : vs ≠ [] → Forall plain vs → commas vs ≠ [] ∧ Forall solid (commas vs) ∧ 59 ∉ commas vs.
Proof.
  intros Hn H. induction H as [|v vs Hv H IH]; [done|]. destruct (Hv) as [Hne _]. pose proof (plain_solid v Hv) as Hs.
  pose proof (plain_without 59 v Hv ltac:(tauto)) as H59. destruct vs as [|v' vs]; [done|]. destruct IH as (_ & Hs' & H'); [done|].
  change (commas (v :: v' :: vs)) with (v ++ 44 :: commas (v' :: vs)). split_and!.
  - by destruct v.
  - apply Forall_app. split; [done|]. constructor; [unfold solid; lia|done].
  - set_solver.
Qed.

Lemma before_sep_commas v vs : Forall plain (v :: vs) → before_sep (commas (v :: vs)) comma = v.
Proof.
  intros [Hv _]%Forall_cons. pose proof (plain_without 44 v Hv ltac:(tauto)) as Hc. clear Hv.
  assert (∀ rest, before_sep (v ++ 44 :: rest) comma = v ∧ before_sep v comma = v) as H.
  { intros rest. induction v as [|c v IH]; [done|]. cbn. destruct (Z.eqb_spec c comma) as [->|]; [set_solver|].
    destruct IH as [-> ->]; [set_solver|]. done. }
  destruct vs as [|v' vs]; [apply (H [])|]. apply (H (commas (v' :: vs))).
Qed.

Lemma Split_word v rest : 44 ∉ v →
  Split v comma = [v] ∧ Split (v ++ 44 :: rest) comma = v :: Split rest comma.
Proof.
  intros Hc. induction v as [|c v IH]; [done|]. cbn. destruct (Z.eqb_spec c comma) as [->|]; [set_solver|].
  destruct IH as [-> ->]; [set_solver|]. done.
Qed.

Lemma list_of_commas vs : vs ≠ [] → Forall plain vs → list_of comma (commas vs) = vs.
Proof.
  intros Hn H. unfold list_of. assert (Split (commas vs) comma = vs) as ->.
  { induction H as [|v vs Hv H IH]; [done|]. pose proof (plain_without 44 v Hv ltac:(tauto)) as Hc.
    destruct vs as [|v' vs]; [by apply (Split_word v [])|]. change (commas (v :: v' :: vs)) with (v ++ 44 :: commas (v' :: vs)).
    rewrite (proj2 (Split_word v _ Hc)). by rewrite IH. }
  induction H as [|v vs Hv H IH]; [done|]. cbn [map List.filter]. destruct (Hv) as [Hne _].
  rewrite (TrimSpace_solid v) by (by apply solid_word_ends, plain_solid). rewrite bool_decide_false by done. cbn [negb]. f_equal.
  destruct vs; [done|]. by apply IH.
Qed.

(** The value is the last field of the line. *)
Lemma extractValue_option key v : text key ≠ [] → Forall solid (text key) → v ≠ [] → Forall solid v →
  extractValue (text "option" ++ 32 :: text key ++ 32 :: v ++ [59]) = v.
Proof.
  intros Hk Hks Hv Hvs. unfold extractValue.
  replace (text "option" ++ 32 :: text key ++ 32 :: v ++ [59]) with ((text "option" ++ 32 :: text key ++ 32 :: v) ++ semicolon)
    by (by rewrite <- !app_assoc; cbn [app]; rewrite <- app_assoc).
  rewrite trim_suffix_app. unfold Fields. rewrite (fields_solid_cons (text "option")); [|done|repeat (constructor; [unfold solid; vm_compute; by split|]); constructor].
  rewrite fields_solid_cons by done. by rewrite fields_solid_end.
Qed.

Lemma lease_text_app a b : text (a +:+ b) = text a ++ text b.
Proof. unfold text, ascii_bytes. induction a as [|c a IH]; [done|].
  change (String c a +:+ b) with (String c (a +:+ b)). cbn [String.list_ascii_of_string map app]. by rewrite IH. Qed.

Lemma option_line_eq key vs : option_line key vs = text "option" ++ 32 :: text key ++ 32 :: commas vs ++ [59].
Proof.
  unfold option_line. rewrite !lease_text_app. change (text "option ") with (text "option" ++ [32]). change (text " ") with [32].
  by rewrite <- !app_assoc.
Qed.

(** The four keys. *)
Definition option_key (key : string) : Prop := key ∈ [server_key; routers_key; time_key; dns_key].
Lemma option_value key vs : option_key key → vs ≠ [] → Forall solid (commas vs) → commas vs ≠ [] → extractValue (option_line key vs) = commas vs.
Proof.
  intros Hk Hn Hs Hne. rewrite option_line_eq.
  assert (text key ≠ [] ∧ Forall solid (text key)) as [H1 H2]; [|by apply extractValue_option].
  unfold option_key in Hk. split.
  - by set_unfold in Hk; destruct_or? Hk; subst.
  - by set_unfold in Hk; destruct_or? Hk; subst; repeat (constructor; [unfold solid; vm_compute; by split|]); constructor.
Qed.

(** ** What a block says *)

Lemma option_starts key vs : starts (prefix_of key) (option_line key vs).
Proof. exists (32 :: commas vs ++ [59]). unfold prefix_of. rewrite option_line_eq, lease_text_app. by rewrite <- app_assoc. Qed.

Lemma option_no_interface key vs : option_key key → dhclientLeaseInterface (option_line key vs) = None.
Proof.
  intros Hk. apply interface_none. eapply starts_parts; [|apply option_starts].
  unfold option_key in Hk. set_unfold in Hk; destruct_or? Hk; subst; by vm_compute.
Qed.

(** Another option's line is not this one's. *)
Lemma option_other key key' vs : parts (prefix_of key) (prefix_of key') = true → HasPrefix (option_line key vs) (prefix_of key') = false.
Proof. intros Hp. apply starts_not. eapply starts_parts; [exact Hp|apply option_starts]. Qed.

Lemma parse_by_key l i : parseDHClientLeaseLine l i =
  if HasPrefix l (prefix_of server_key) then set_server i (extractValue l)
  else if HasPrefix l (prefix_of routers_key) then set_gateway i (TrimSpace (before_sep (extractValue l) comma))
  else if HasPrefix l (prefix_of time_key) then match ParseInt (extractValue l) with Some n => set_time i n | None => i end
  else if HasPrefix l (prefix_of dns_key) then add_dns i (list_of comma (extractValue l)) else i.
Proof. reflexivity. Qed.

Lemma parse_option key vs i : option_key key →
  block_step i (option_line key vs) =
    let v := extractValue (option_line key vs) in
    if bool_decide (key = server_key) then set_server i v
    else if bool_decide (key = routers_key) then set_gateway i (TrimSpace (before_sep v comma))
    else if bool_decide (key = time_key) then match ParseInt v with Some n => set_time i n | None => i end
    else add_dns i (list_of comma v).
Proof.
  intros Hk. unfold block_step. rewrite option_no_interface by done. rewrite parse_by_key.
  unfold option_key in Hk. set_unfold in Hk. destruct Hk as [->|[->|[->|[->|[]]]]];
    repeat (rewrite (option_other _ _ vs) by by vm_compute); by rewrite (proj1 (starts_spec _ _) (option_starts _ vs)).
Qed.

(** A line that does not start with an option leaves its field. *)
Ltac other_option :=
  intros Hl; apply starts_not in Hl; unfold block_step; rewrite parse_by_key, ?Hl;
  destruct (dhclientLeaseInterface _); [done|]; repeat case_match; done.
Lemma other_server i l : ¬ starts (prefix_of server_key) l → l_DHCPServer (block_step i l) = l_DHCPServer i.
Proof. other_option. Qed.
Lemma other_router i l : ¬ starts (prefix_of routers_key) l → l_Gateway (block_step i l) = l_Gateway i.
Proof. other_option. Qed.
Lemma other_time i l : ¬ starts (prefix_of time_key) l → l_LeaseTime (block_step i l) = l_LeaseTime i.
Proof. other_option. Qed.
Lemma other_dns i l : ¬ starts (prefix_of dns_key) l → l_DNS (block_step i l) = l_DNS i.
Proof. other_option. Qed.

Lemma digits_solid ds : Forall digit ds → Forall solid ds.
Proof. intros H. eapply Forall_impl; [exact H|]. unfold digit, solid. lia. Qed.
Lemma ParseInt_decimal ds : ds ≠ [] → Forall digit ds → decimal ds < 2 ^ 63 → ParseInt ds = Some (decimal ds).
Proof.
  intros Hn H Hd. unfold ParseInt. rewrite Atoi_decimal by done. cbn [mbind option_bind]. pose proof (decimal_nonneg ds H).
  rewrite (proj2 (Z.leb_le _ _)), (proj2 (Z.ltb_lt _ _)) by lia. done.
Qed.

Lemma block_says body : says body (block_info body).
Proof.
  change (block_info body) with (foldl block_step no_info body).
  assert (∀ vs, vs ≠ [] → Forall plain vs → ∀ key, option_key key → extractValue (option_line key vs) = commas vs) as Hval.
  { intros vs Hn Hp key Hk. destruct (commas_plain vs Hn Hp) as (H1 & H2 & _). by apply option_value. }
  split.
  - intros v Hv Hl. eapply (last_decides block_step l_DHCPServer _ other_server); [exact Hl|]. intros i.
    rewrite parse_option by (unfold option_key; set_solver). rewrite Hval by (done || by constructor || (unfold option_key; set_solver)). done.
  - intros H. by rewrite (unsaid_keeps block_step l_DHCPServer _ other_server).
  - intros v vs Hv Hl. eapply (last_decides block_step l_Gateway _ other_router); [exact Hl|]. intros i.
    rewrite parse_option by (unfold option_key; set_solver). rewrite Hval by (done || (unfold option_key; set_solver)).
    cbn [bool_decide]. cbn -[commas before_sep]. rewrite before_sep_commas by done. apply Forall_cons in Hv as [Hv _]. destruct (Hv) as [Hne _].
    by apply TrimSpace_solid, solid_word_ends, plain_solid.
  - intros H. by rewrite (unsaid_keeps block_step l_Gateway _ other_router).
  - intros ds Hn Hd Hlt Hl. eapply (last_decides block_step l_LeaseTime _ other_time); [exact Hl|]. intros i.
    rewrite parse_option by (unfold option_key; set_solver).
    rewrite option_value by (done || (by apply digits_solid) || (unfold option_key; set_solver)). cbn [commas].
    cbn -[ParseInt]. by rewrite ParseInt_decimal.
  - intros H. by rewrite (unsaid_keeps block_step l_LeaseTime _ other_time).
  - intros a b vs Hp Hn -> Ha Hb. rewrite foldl_app. cbn [foldl]. rewrite (unsaid_keeps block_step l_DNS _ other_dns) by done.
    rewrite parse_option by (unfold option_key; set_solver). rewrite Hval by (done || (unfold option_key; set_solver)).
    change (l_DNS (foldl block_step no_info a) ++ list_of comma (commas vs) = vs). rewrite (unsaid_keeps block_step l_DNS _ other_dns) by done. by rewrite list_of_commas.
  - intros H. by rewrite (unsaid_keeps block_step l_DNS _ other_dns).
Qed.

Lemma block_iface_unsaid body : unsaid (text "interface ") body → block_iface body = [].
Proof.
  unfold block_iface. intros H. assert (omap dhclientLeaseInterface body = []) as ->; [|done].
  induction H as [|l body Hl _ IH]; [done|]. cbn. by rewrite interface_none.
Qed.
Lemma block_iface_names body n : names body n → block_iface body = n.
Proof.
  intros [Hp (a & b & -> & _ & Hb)]. unfold block_iface. pose proof (interface_line n Hp) as E. revert E.
  generalize (text "interface " ++ 34 :: n ++ [34; 59]). intros line E. rewrite omap_app. cbn. rewrite E.
  assert (omap dhclientLeaseInterface b = []) as ->; [|by rewrite last_snoc].
  induction Hb as [|l b Hl _ IH]; [done|]. cbn. by rewrite interface_none.
Qed.

Lemma belongs_not_another interfaceName body : belongs interfaceName (block_iface body) = true → ¬ of_another interfaceName body.
Proof.
  intros Hb (Hne & n & Hn & Hd). apply block_iface_names in Hn as E. unfold belongs in Hb. rewrite E in Hb. destruct Hn as [ [Hn _] _].
  by rewrite !bool_decide_false in Hb by congruence.
Qed.
Lemma of_it_belongs interfaceName body : of_it interfaceName body → belongs interfaceName (block_iface body) = true.
Proof.
  unfold belongs. intros [->|[H|H]]; [done| |].
  - rewrite (block_iface_unsaid _ H), (bool_decide_true ([] = [])) by done. apply orb_true_iff. left. apply orb_true_r.
  - rewrite (block_iface_names _ _ H), (bool_decide_true (interfaceName = interfaceName)) by done. apply orb_true_r.
Qed.

(** C39: A lease read from a dhclient file is that of a closed block that does
    not name another interface (with an interface asked for, a block whose last
    interface line is written for another name is never read, although the file
    is shared), and no later closed block names the interface or none. It
    holds what the block's last server, router and lease time lines and its
    name server line say, as dhclient writes them, nothing where the block has
    no such line, and it names a server or a router. When nothing is read, each
    closed block that names the interface or none is followed by, or is, one
    that does not name another and says neither. *)
Theorem parseDHClientLeaseFile_spec content interfaceName :
  match parseDHClientLeaseFile content interfaceName with
  | Some info => ∃ pre body post, closed_block (trimmed_lines content) pre body post ∧
      ¬ of_another interfaceName body ∧ says body info ∧ (l_DHCPServer info ≠ [] ∨ l_Gateway info ≠ []) ∧
      ∀ pre' body' post', closed_block (trimmed_lines content) pre' body' post' → of_it interfaceName body' → (length pre' ≤ length pre)%nat
  | None => ∀ pre body post, closed_block (trimmed_lines content) pre body post → of_it interfaceName body →
      ∃ pre' body' post' info, closed_block (trimmed_lines content) pre' body' post' ∧ (length pre ≤ length pre')%nat ∧
        ¬ of_another interfaceName body' ∧ says body' info ∧ l_DHCPServer info = [] ∧ l_Gateway info = []
  end.
Proof.
  unfold parseDHClientLeaseFile. destruct (reading_all interfaceName (trimmed_lines content)) as [_ H].
  destruct (rd_matched _) as [info|]; cbn [mbind option_bind].
  2: { intros pre body post Hb%closed_block_is Hm%of_it_belongs. by destruct (H _ _ _ Hb). }
  destruct H as (pre & body & post & Hb%closed_block_is & Hm%belongs_not_another & -> & Hlast).
  assert (∀ pre' body' post', closed_block (trimmed_lines content) pre' body' post' → of_it interfaceName body' → (length pre' ≤ length pre)%nat) as Hmax.
  { intros pre' body' post' Hb'%closed_block_is Hm'%of_it_belongs. by eapply Hlast. }
  pose proof (block_says body) as Hsays. unfold told. do 2 case_bool_decide; cbn [negb orb].
  1: intros pre' body' post' Hb' Hm'; exists pre, body, post, (block_info body); split_and!; try done; by eapply Hmax.
  all: exists pre, body, post; split_and!; auto.
Qed.

(** ** Property lists are read whatever they hold *)

Lemma HasPrefix_false_head c d s p : c ≠ d → HasPrefix (c :: s) (d :: p) = false.
Proof. intros Hn. apply bool_decide_eq_false. cbn. congruence. Qed.

(** Nothing ends inside the tag that opens. *)
Definition apart (open close : bytes) : Prop := ∀ k t, (k < length open)%nat → HasPrefix (drop k (open ++ t)) close = false.

Lemma HasPrefix_split s p : HasPrefix s p = true → s = p ++ drop (length p) s.
Proof. intros H%bool_decide_eq_true. rewrite <- H at 1. by rewrite take_drop. Qed.

(** Where the next element is, in range. *)
Lemma element s open close : apart open close → 0 <= Index s open →
  ∃ rest, slice_from s (Index s open) = Some rest ∧
    (0 ≤ Index rest close → len open ≤ Index rest close ∧ Index s open + Index rest close + len close ≤ len s).
Proof.
  intros Ha Hi. pose proof (Index_spec s open) as Hs. set (i := Index s open) in *.
  assert (HasPrefix (drop (Z.to_nat i) s) open = true ∧ i + len open ≤ len s) as [Hp Hl] by (destruct i; [naive_solver|naive_solver|lia]).
  exists (drop (Z.to_nat i) s). pose proof (len_nonneg open). split.
  { unfold slice_from, slice. rewrite (proj2 (Z.leb_le 0 i)), (proj2 (Z.leb_le i (len s))), (proj2 (Z.leb_le (len s) (len s))) by lia. cbn [andb].
    f_equal. apply take_ge. rewrite length_drop. unfold len. lia. }
  intros Hj. set (rest := drop (Z.to_nat i) s) in *. pose proof (Index_spec rest close) as Hr. set (j := Index rest close) in *.
  assert (HasPrefix (drop (Z.to_nat j) rest) close = true ∧ j + len close ≤ len rest) as [Hq Hm] by (destruct j; [naive_solver|naive_solver|lia]).
  assert (len rest = len s - i) as Hlr by (unfold rest, len; rewrite length_drop; unfold len in *; lia).
  split; [|lia]. destruct (decide (len open ≤ j)) as [|Hlt]; [done|]. exfalso.
  rewrite (HasPrefix_split rest open Hp) in Hq. rewrite Ha in Hq; [done|]. unfold len in *. lia.
Qed.

Ltac find_apart := intros k t Hk; cbn in Hk; do 9 (destruct k as [|k]; [first [exfalso; lia | vm_compute; reflexivity]|]); lia.
Lemma apart_data : apart data_open data_close. Proof. find_apart. Qed.
Lemma apart_integer : apart (text "<integer>") (text "</integer>"). Proof. find_apart. Qed.
Lemma apart_array : apart (text "<array>") (text "</array>"). Proof. find_apart. Qed.

Lemma tagged_total s open close : apart open close → ∃ r, tagged s open close = Some r.
Proof.
  intros Ha. unfold tagged. destruct (Index s open <? 0) eqn:E; [by eexists|]. apply Z.ltb_ge in E.
  destruct (element s open close Ha E) as (rest & -> & Hr). cbn [mbind option_bind].
  destruct (Index rest close <? 0) eqn:E'; [by eexists|]. apply Z.ltb_ge in E'. destruct (Hr E') as [H1 H2].
  pose proof (len_nonneg open). pose proof (len_nonneg close). unfold slice.
  rewrite (proj2 (Z.leb_le 0 _)), (proj2 (Z.leb_le (_ + _) _)), (proj2 (Z.leb_le _ (len s))) by lia. by eexists.
Qed.

Lemma parseDataTags_total content : ∃ ips, parseDataTagsFromArray content = Some ips.
Proof.
  unfold parseDataTagsFromArray. enough (wp (for_loop (S (length content)) data_round ([], content)) (λ _, True)) as H.
  { apply wp_elim in H as (ips & H & _). by exists ips. }
  apply (wp_for_loop data_round (λ _, True) (λ st, length st.2)); [|done|cbn; lia]. intros [ips s] _.
  unfold data_round. destruct (Index s data_open <? 0) eqn:E; [done|]. apply Z.ltb_ge in E.
  destruct (element s _ _ apart_data E) as (rest & -> & Hr). cbn [mbind option_bind].
  destruct (Index rest data_close <? 0) eqn:E'; [done|]. apply Z.ltb_ge in E'. destruct (Hr E') as [H1 H2].
  change (len data_open) with 6 in H1. change (len data_close) with 7 in H2. unfold slice_from, slice.
  rewrite (proj2 (Z.leb_le 0 (_ + 6))), (proj2 (Z.leb_le (_ + 6) _)), (proj2 (Z.leb_le (_ + Index rest _) (len s))) by lia. cbn [andb mbind option_bind].
  rewrite (proj2 (Z.leb_le 0 _)), (proj2 (Z.leb_le _ (len s))), (proj2 (Z.leb_le (len s) _)) by lia. cbn [andb mbind option_bind wp].
  split; [done|]. cbn [snd]. rewrite length_take, length_drop. unfold len in *. lia.
Qed.

Lemma extractPlistIP_total content key : ∃ ip, extractPlistIP content key = Some ip.
Proof.
  unfold extractPlistIP. destruct (Cut _ _) as [ [a remaining]|]; [|by eexists].
  destruct (tagged_total remaining _ _ apart_data) as [r ->]. by eexists.
Qed.
Lemma extractPlistInteger_total content key : ∃ n, extractPlistInteger content key = Some n.
Proof.
  unfold extractPlistInteger. destruct (Cut _ _) as [ [a remaining]|]; [|by eexists].
  destruct (tagged_total remaining _ _ apart_integer) as [r ->]. by eexists.
Qed.
Lemma extractPlistIPArray_total content key : ∃ ips, extractPlistIPArray content key = Some ips.
Proof.
  unfold extractPlistIPArray. destruct (Cut _ _) as [ [a remaining]|]; [|by eexists].
  unfold extractArrayContent. destruct (tagged_total remaining _ _ apart_array) as [r ->]. cbn [mbind option_bind].
  assert (∃ ips, match r with Some a => parseDataTagsFromArray a | None => Some [] end = Some ips) as [ips ->].
  { destruct r as [r|]; [apply parseDataTags_total|by eexists]. }
  cbn [mbind option_bind]. destruct ips; [|by eexists]. destruct (extractPlistIP_total content key) as [ip ->]. by eexists.
Qed.

Lemma parseDarwinLeaseFile_total content : ∃ l, parseDarwinLeaseFile content = Some l ∧ ∀ i, l = Some i → told i = Some i.
Proof.
  unfold parseDarwinLeaseFile.
  destruct (extractPlistIP_total content "ServerIdentifier") as [server ->]. cbn [mbind option_bind].
  destruct (extractPlistIP_total content "RouterIPAddress") as [router ->]. cbn [mbind option_bind].
  assert (∃ g, match router with [] => extractPlistIP content "Router" | _ => Some router end = Some g) as [g ->].
  { destruct router; [apply extractPlistIP_total|by eexists]. }
  cbn [mbind option_bind]. destruct (extractPlistInteger_total content "LeaseLength") as [n ->]. cbn [mbind option_bind].
  destruct (extractPlistIPArray_total content "DomainNameServer") as [dns ->]. cbn [mbind option_bind]. eexists. split; [done|].
  intros i Hi. unfold told in *. destruct (_ || _) eqn:E; [|done]. injection Hi as <-. cbn in *. by rewrite E.
Qed.

(** ** The host's lease *)

Lemma told_idem l i : told l = Some i → told i = Some i.
Proof. unfold told. destruct (_ || _) eqn:E; [|done]. intros [= <-]. by rewrite E. Qed.
Lemma first_lease_told file parse paths i : (∀ c l, parse c = Some l → told l = Some l) → first_lease file parse paths = Some i → told i = Some i.
Proof.
  intros Hp. unfold first_lease. intros Hi. apply head_Some_elem_of, list_elem_of_omap in Hi as (path & _ & Hi).
  destruct (file path) as [c|]; [|done]. by eapply Hp.
Qed.
Lemma first_darwin_total file paths : ∃ l, first_darwin file paths = Some l ∧ ∀ i, l = Some i → told i = Some i.
Proof.
  induction paths as [|p paths IH]; cbn; [by exists None|]. destruct (file p) as [c|]; [|done].
  destruct (parseDarwinLeaseFile_total c) as (l & -> & Hl). cbn [mbind option_bind]. destruct l as [l|]; [|done]. by exists (Some l).
Qed.

(** Whatever files the host holds, the question is answered: no content makes
    it panic, and a lease that is returned names a server or a gateway. *)
Theorem GetLeaseInfo_total file entries interface goos interfaceName :
  ∃ r, GetLeaseInfo file entries interface goos interfaceName = Some r ∧
    ∀ i, r = inl i → l_DHCPServer i ≠ [] ∨ l_Gateway i ≠ [].
Proof.
  assert (∀ i, told i = Some i → l_DHCPServer i ≠ [] ∨ l_Gateway i ≠ []) as Htold.
  { intros i. unfold told. do 2 case_bool_decide; cbn; by auto. }
  unfold GetLeaseInfo. case_bool_decide; [|case_bool_decide].
  - unfold getLeaseInfoDarwin. destruct (interface interfaceName) as [ [hw n]|]; [|by eexists].
    destruct (first_darwin_total file ([("/var/db/dhcpclient/leases/" +:+ interfaceName +:+ "-1," +:+ hw)%string;
      ("/private/var/db/dhcpclient/leases/" +:+ interfaceName +:+ "-1," +:+ hw)%string] ++
      map (λ e, ("/var/db/dhcpclient/leases" +:+ "/" +:+ e)%string)
        (List.filter (λ e, HasPrefix (text e) (text (interfaceName +:+ "-"))) (entries "/var/db/dhcpclient/leases"%string)))) as (l & E & Hl).
    cbn zeta. rewrite E. cbn [mbind option_bind]. eexists. split; [done|]. intros i. destruct l as [l|]; [|done]. intros [= <-]. by apply Htold, Hl.
  - eexists. split; [done|]. intros i. unfold getLeaseInfoLinux.
    destruct (first_lease _ parseNMLeaseFile _) as [l|] eqn:E1.
    { intros [= <-]. apply Htold. eapply first_lease_told; [|exact E1]. intros c x. apply told_idem. }
    destruct (first_lease _ (λ content, _) _) as [l|] eqn:E2.
    { intros [= <-]. apply Htold. eapply first_lease_told; [|exact E2]. intros c x. unfold parseDHClientLeaseFile.
      destruct (rd_matched _) as [m|]; [|done]. apply told_idem. }
    destruct (interface interfaceName) as [ [hw n]|]; [|done]. destruct (first_lease _ parseNetworkdLeaseFile _) as [l|] eqn:E3; [|done].
    intros [= <-]. apply Htold. eapply first_lease_told; [|exact E3]. intros c x. apply told_idem.
  - by eexists.
Qed.

(** ** Files *)

Definition lines_text (l : list string) : bytes := concat (map (λ s, text s ++ [10]) l).
Definition dq (s : string) : string := String.append (String (Ascii.ascii_of_nat 34) s) (String (Ascii.ascii_of_nat 34) "").

(** The shared dhclient file: each interface has its own last block. *)
Definition shared_file : bytes := lines_text [
  "lease {"; "  interface " +:+ dq "eth0" +:+ ";"; "  option routers 10.0.0.1;"; "  option domain-name-servers 8.8.8.8,8.8.4.4;"; "}";
  "lease {"; "  interface " +:+ dq "eth1" +:+ ";"; "  option routers 192.168.1.1,192.168.1.2;"; "  option dhcp-lease-time 3600;"; "}"]%string.
Example shared_leases :
  parseDHClientLeaseFile shared_file (text "eth0") = Some (MkLease [] (text "10.0.0.1") 0 [text "8.8.8.8"; text "8.8.4.4"]) ∧
  parseDHClientLeaseFile shared_file (text "eth1") = Some (MkLease [] (text "192.168.1.1") 3600 []) ∧
  parseDHClientLeaseFile shared_file (text "eth2") = None.
Proof. vm_compute. repeat split; reflexivity. Qed.

(** A property list's data is base64, which is not read: four bytes are eight
    characters of it, and three of them are taken for an address. *)
Example base64_not_read : hexToIP (text "wKgBAQ==") = [] ∧ hexToIP (text "wKgB") = text "119.75.103.66" ∧ hexToIP (text "c0a80101") = text "192.168.1.1".
Proof. vm_compute. repeat split; reflexivity. Qed.

(** Name servers set apart by a comma and a space: only the last is kept. *)
Example spaced_servers :
  l_DNS (parseDHClientLeaseLine (text "option domain-name-servers 8.8.8.8, 8.8.4.4;") no_info) = [text "8.8.4.4"].
Proof. by vm_compute. Qed.
